(* ===== verification/_CoqProject ===== *)
-Q . S2P
Prelude.v
GoStrings.v
FrameBudget.v
UsageMap.v
FairBudget.v
AdmissionTracker.v
Ledger.v
LedgerInv.v
LedgerOps.v
LedgerRun.v
LedgerProps.v
Phone.v
PhoneInv.v
PhoneRun.v
PhoneProps.v
Dh.v
SecretChat.v
SecretInv.v
SecretProps.v
Programs.v
Cache.v
CacheInv.v
CacheLoad.v
CacheAlone.v
Contacts.v
Privacy.v
PrivacyInv.v
PrivacyVis.v
PrivacyProps.v
Updates.v
UpdatesInv.v
UpdatesDiff.v
UpdatesProps.v
Messages.v
MessagesInv.v
MessagesPage.v
MessagesBox.v
MessagesOps.v
MessagesDelete.v
MessagesSteps.v
MessagesDialog.v
MessagesRebuild.v
MessagesRun.v
MessagesProps.v
CacheShape.v
CacheConc.v
CacheServe.v
CacheProps.v
CreditWindow.v
Outbox.v
OutboxInv.v
OutboxRun.v
OutboxProps.v
AuthCodes.v
AuthKeys.v
AuthKeysInv.v
AuthProps.v
SignIn.v
SignInCodes.v
SignInService.v
SignInInv.v
SignInSteps.v
SignInLogin.v
SignInProps.v
Channels.v
ChannelMembers.v
ChannelInvites.v
ChannelsInv.v
ChannelsOps.v
ChannelsSteps.v
ChannelsLinks.v
ChannelsRun.v
ChannelsRights.v
ChannelsUse.v
ChannelsProps.v
