(* ===== verification/Prelude.v ===== *)
(** * A verification development for the ShuzaGram server

    ShuzaGram is a messaging server that speaks the Telegram protocol.  Clients
    hold MTProto connections ([internal/mtprotoedge]); a decoded request is
    routed by [internal/rpc] to the services of [internal/app], which work on
    the types of [internal/domain] over stores that exist twice, in process
    ([internal/store/memory]) and on PostgreSQL ([internal/store/postgres]).
    This library models the parts that decide something - resource budgets,
    at-most-once execution, state machines, visibility, update ordering - and
    proves what they promise to the rest of the server.

    ** The parts and their files

    The edge ([internal/mtprotoedge]):
    - [FrameBudget]: the process-wide byte budget of frames being read and a
      connection's reservation ([frame_budget.go], [transport_compat.go]); the
      compare-and-swap loop is a step relation over any number of connections.
    - [UsageMap], [FairBudget]: the three-scope RPC budgets and the subscriber
      budget ([rpc_execution_budget.go], [rpc_result_subscriber_budget.go], the
      counter of [rpc_flight.go]); the sharded tables implement the class of
      [UsageMap], against which the budgets are proved.
    - [AdmissionTracker]: admission sequences and their safe floor
      ([rpc_admission_tracker.go]).
    - [Ledger], [LedgerInv], [LedgerOps], [LedgerRun], [LedgerProps]: the RPC
      execution ledger ([rpc_execution_ledger.go], [rpc_flight.go]), which owns
      the budgets' reservations and the sequences.  Flights, receipts and leases
      are pointers in shared heaps; a run interleaves critical sections.
    - [CreditWindow]: the two flow-control windows of bulk requests
      ([reserveBulkCredit] of [outbound.go], [bulk_rpc_scheduler.go]).
    - [Outbox], [OutboxInv], [OutboxRun], [OutboxProps]: the logical outbox of a
      session, what it keeps until the client acknowledges it ([outboundState]
      and the handlers of the outbound actor in [outbound.go]).

    The services:
    - [Phone], [PhoneInv], [PhoneRun], [PhoneProps]: one-to-one calls
      ([internal/domain/phone.go], [internal/app/phone]).
    - [Dh]: Diffie-Hellman values ([dh.go] of the phone and secret-chat
      services), used by both.
    - [SecretChat], [SecretInv], [SecretProps]: secret chats, their device queues
      and state events ([internal/app/secretchat], [internal/store/memory/secretchat.go]);
      a service method is a program of atomic store calls and a pool interleaves
      any number of them.
    - [Contacts]: address books ([internal/store/memory/contacts.go]).
    - [Privacy], [PrivacyInv], [PrivacyVis], [PrivacyProps]: privacy rules and
      visibility ([internal/app/privacy], [internal/domain/privacy*.go],
      [internal/store/memory/privacy.go]); address books enter through the class
      [ContactSource], which [Contacts] implements, and the two fact caches are
      caches of [Cache], used by one request at a time ([CacheAlone]).
    - [Updates], [UpdatesInv], [UpdatesDiff], [UpdatesProps]: the account's update
      log, device cursors and [updates.getDifference]
      ([internal/app/updates/service.go], [internal/store/memory/updates.go]);
      differences are proved against the class [EventLog], so for a database
      store with a retention checkpoint as for the in-process one.
    - [Messages] (state and operations), [MessagesInv] (the invariant of the
      boxes), [MessagesPage] (reading a history), [MessagesBox], [MessagesOps],
      [MessagesDelete], [MessagesSteps] (what each operation does and which
      events say so), [MessagesDialog], [MessagesRebuild] (the dialogs),
      [MessagesRun] (runs of operations), [MessagesProps]: private messages
      ([internal/store/memory/message_*.go], [internal/domain/message.go],
      [internal/store/private_send_idempotency.go]).
    - [AuthCodes], [AuthKeys], [AuthKeysInv], [AuthProps]: the store of one-time
      codes and the life of a code; auth keys, bindings of temporary keys, layers
      of sessions and authorizations ([internal/store/memory/auth.go],
      [login_code.go], [code_cas.go], [authkey_session_layer.go]).
    - [SignIn] (the world and its steps), [SignInCodes] (issuing codes),
      [SignInService] (signing in and the calls), [SignInInv], [SignInSteps],
      [SignInLogin], [SignInProps]: the login service
      ([internal/app/auth/service.go]) as programs of store calls.  What a call of
      a store has proved goes into a journal, and [SignInProps] reads from it why
      a key is signed in.
    - [Channels] (the store, rights and primitives), [ChannelMembers] (founding,
      joining, leaving, administrators, restrictions), [ChannelInvites] (invitations,
      links, join requests): the members of channels and groups
      ([internal/store/memory/channel_*.go]), one function per method, since every
      method holds the store's lock.  [ChannelsInv], [ChannelsOps], [ChannelsSteps],
      [ChannelsLinks] carry the invariant through the operations, [ChannelsRun] makes
      a machine of them, [ChannelsRights] and [ChannelsUse] say who gains which right
      and what becomes of a link, [ChannelsProps] states the properties.
    - [Programs]: concurrent programs of atomic, possibly blocking steps, pools
      that interleave them, and the rely-guarantee rule for their safety.
    - [Cache], [CacheInv], [CacheShape], [CacheLoad], [CacheConc], [CacheServe],
      [CacheProps]: the read-model cache of [internal/readmodelcache/cache.go] that
      most services read the database through; its loading methods are programs.
      [CacheAlone] is the batch load of a cache that nobody else uses meanwhile, and
      agrees with the program.
    This file has what they share: machine integers, the result type and its
    monad, the tactics and generic lemmas; [GoStrings] has what the services use of
    Go's strings.

    ** What the theorems show

    Budgets never exceed their limits, never lose or double-free a reservation
    and never panic, in every interleaving.  The ledger hands a request to one
    owner at a time, runs every callback exactly once, never changes a published
    result and never lets the admission floor pass an open request.  Calls and
    secret chats only move forward, have one answering device, and expire or end
    exactly when they should; device queues are gap-free and deliver exactly
    once.  Address books keep the mutual flag exact.  Batched visibility equals
    the single check pair by pair.  Differences never skip a position, paging
    delivers the whole log and ends, cursors never pass the log.  The events of
    the modelled operations on messages rebuild every box, the copies of a message mirror each
    other, a repeated send is not performed twice, dialogs count what their boxes
    hold, and a page of a history is a window of it.  The read-model cache stays
    within its limits, evicts the least recently used, and never answers with a
    value that an earlier invalidation has outdated, with one exception that is
    proved to be real.  The outbox loses no unacknowledged frame, counts every
    byte once, gives a message id to one message and sends again what it sent;
    the windows of bulk requests stay bounded and a closed window answers
    everyone, whatever is asked of it later.  A login code is accepted once and
    goes only to whoever it was issued for; no key is signed in without a proof that was there before; temporary keys
    are bound by whoever has both keys; authorizations, keys and layers agree.
    A channel has one owner and exact counters after any of the modelled operations
    on members, links and requests; rights come from
    somebody who holds them, with four exceptions that are shown; who was removed
    stays out until an administrator lets them in; a link admits as many as it says.

    ** Bounds and fuel

    Go's fixed-width integers are [Z] with the wrap-around written out where the
    source adds without a guard ([+₆₄], [-₆₄]); identifiers and positions that
    only grow by one are unbounded.  Loops that retry take fuel: [acquire] needs
    two turns ([acquire_answers]), [growReservation] one turn per interfering
    connection (the step relation has no fuel), [MaxContiguousPts] at most the
    number of its keys, and following pages of differences or of device queues
    needs the number of pages, which the theorems bound; so do the pages of a
    history.  Box ids are bounded by [MaxMessageBoxID] (2^31-1), a page of a
    history by 500 messages, the outbox by 4096 frames, 64 MiB and 1024
    remembered acknowledgements, and the content messages of a session by 2^30.
    The author of a message is taken to be the one who puts its web preview in
    ([internal/rpc/webpage_resolver.go]).  The programs of the login service have no
    loops; its random source is an oracle that is asked for the n-th draw.  The
    store of channels asks its random source, its clock and the order in which a map
    is visited at a moment, which is a path that tells all questions apart.

    ** Not modelled

    Third-party code (the TL codec, the MTProto handshake, PostgreSQL, Redis)
    is a parameter where it is called: hash functions, SHA-256, sorting, stores
    behind an interface.  The SQL stores, the generated code under
    [sqlcgen], the RPC glue that converts TL objects, the web front ends, the
    commands under [cmd] and the seed data hold no logic of their own that a
    pure model could check.  Of the modelled packages: logging and metrics, and
    set-ups without a store.  Each file says what else it leaves out.

    Some code that is not modelled writes the same data as the modelled operations,
    and the theorems are about the latter.  Message boxes are also written by
    [Create] (the login message of a sign-up), by the delivery of login codes and
    by the no-forwards switch; of these the first and the last write without an
    event.  Channels are also written by bans in a community, which forget to count
    a removed administrator, by the channel for paid messages, which has no owner
    row, and by the operations on channel messages and settings.

    The library stops short of the session manager and the connection admission of
    the edge, of the messages, settings and topics of channels, of the account
    service and of the in-process stores of reactions, polls and stories, which have
    rules of their own that would be worth a model. *)

From stdpp Require Export base tactics list gmap strings sorting.
From Stdlib Require Export ZArith Lia.

#[export] Set Default Goal Selector "!".

(** * Machine integers

    Go's [int], [int64] are 64-bit two's complement; [uint64] is modulo 2^64.
    Arithmetic that the source performs on values it does not bound first is
    written with the wrapping operations below; the bounds theorems then show
    that the wrap-around never happens where the code guards against it. *)

Definition two63 : Z := 9223372036854775808.
Definition two64 : Z := 18446744073709551616.

Definition max_int64 : Z := two63 - 1.
Definition min_int64 : Z := - two63.
Definition max_uint64 : Z := two64 - 1.

Definition in_int64 (z : Z) : Prop := (min_int64 ≤ z ≤ max_int64)%Z.
Definition in_uint64 (z : Z) : Prop := (0 ≤ z ≤ max_uint64)%Z.

(** Conversion to the 64-bit signed range. *)
Definition wrap64 (z : Z) : Z := ((z + two63) mod two64 - two63)%Z.

Declare Scope go_scope.
Delimit Scope go_scope with go.
Notation "x +₆₄ y" := (wrap64 (x + y)) (at level 50, left associativity) : go_scope.
Notation "x -₆₄ y" := (wrap64 (x - y)) (at level 50, left associativity) : go_scope.
Notation "x *₆₄ y" := (wrap64 (x * y)) (at level 40, left associativity) : go_scope.
Open Scope go_scope.

Lemma wrap64_id z : in_int64 z → wrap64 z = z.
Proof.
  unfold in_int64, wrap64, min_int64, max_int64, two63, two64. intros.
  rewrite Z.mod_small; lia.
Qed.

Lemma wrap64_range z : in_int64 (wrap64 z).
Proof.
  unfold in_int64, wrap64, min_int64, max_int64, two63, two64.
  pose proof (Z.mod_pos_bound (z + 9223372036854775808) 18446744073709551616 ltac:(lia)).
  lia.
Qed.

Create HintDb go.
#[export] Hint Resolve wrap64_range : go.

(** [solve_int64] closes the range side conditions of [wrap64_id]. *)
Ltac solve_int64 :=
  unfold in_int64, in_uint64, min_int64, max_int64, max_uint64, two63, two64 in *; lia.

(** Remove every wrap-around whose argument is provably in range. *)
Ltac unwrap64 :=
  repeat match goal with
  | |- context [wrap64 ?z] => rewrite (wrap64_id z) by solve_int64
  | H : context [wrap64 ?z] |- _ => rewrite (wrap64_id z) in H by solve_int64
  end.

(** Case analysis on the first stuck [match]/[if] of the goal or a hypothesis,
    keeping the equation. *)
Ltac split_match :=
  match goal with
  | |- context [match ?e with _ => _ end] =>
      lazymatch e with context [match _ with _ => _ end] => fail | _ => destruct e eqn:? end
  end.
Ltac split_match_in H :=
  match type of H with
  | context [match ?e with _ => _ end] =>
      lazymatch e with context [match _ with _ => _ end] => fail | _ => destruct e eqn:? end
  end.

(** Turn the boolean tests the code performs into arithmetic facts. *)
Ltac bool_facts :=
  repeat match goal with
  | H : (_ || _) = true |- _ => apply orb_true_iff in H
  | H : (_ || _) = false |- _ => apply orb_false_iff in H; destruct H
  | H : (_ && _) = true |- _ => apply andb_true_iff in H; destruct H
  | H : (_ && _) = false |- _ => apply andb_false_iff in H
  | H : negb _ = true |- _ => apply negb_true_iff in H
  | H : negb _ = false |- _ => apply negb_false_iff in H
  | H : (_ <? _)%Z = true |- _ => apply Z.ltb_lt in H
  | H : (_ <? _)%Z = false |- _ => apply Z.ltb_ge in H
  | H : (_ <=? _)%Z = true |- _ => apply Z.leb_le in H
  | H : (_ <=? _)%Z = false |- _ => apply Z.leb_gt in H
  | H : (_ =? _)%Z = true |- _ => apply Z.eqb_eq in H
  | H : (_ =? _)%Z = false |- _ => apply Z.eqb_neq in H
  | H : bool_decide _ = true |- _ => apply bool_decide_eq_true_1 in H
  | H : bool_decide _ = false |- _ => apply bool_decide_eq_false_1 in H
  end.

(** * Panics

    A Go computation that may panic while it updates a shared state: [None] is
    the panic, which no caller of the modelled code recovers from. *)

Definition GoM (S A : Type) : Type := S → option (A * S).

#[export] Instance GoM_ret S : MRet (GoM S) := λ A a s, Some (a, s).
#[export] Instance GoM_bind S : MBind (GoM S) :=
  λ A B k m s, match m s with Some (a, s') => k a s' | None => None end.

Definition gets {S A} (f : S → A) : GoM S A := λ s, Some (f s, s).
Definition modify {S} (f : S → S) : GoM S () := λ s, Some (tt, f s).
Definition go_panic {S A} : GoM S A := λ _, None.

(** [check b] continues when [b] holds and panics otherwise. *)
Definition check {S} (b : bool) : GoM S () := if b then mret tt else go_panic.

(** Lift a computation on a component of the state. *)
Definition zoom {S T A} (get : S → T) (set : T → S → S) (m : GoM T A) : GoM S A :=
  λ s, match m (get s) with
       | Some (a, t) => Some (a, set t s)
       | None => None
       end.

(** Operations on a component written without the monad. *)
Definition lift_pure {S A} (f : S → A * S) : GoM S A := λ s, Some (f s).
Definition lift_upd {S} (f : S → option S) : GoM S () :=
  λ s, match f s with Some s' => Some (tt, s') | None => None end.
Definition unwrap {S A} (o : option A) : GoM S A :=
  match o with Some a => mret a | None => go_panic end.

Lemma bind_Some {S A B} (m : GoM S A) (k : A → GoM S B) s b s'' :
  (m ≫= k) s = Some (b, s'') ↔ ∃ a s', m s = Some (a, s') ∧ k a s' = Some (b, s'').
Proof.
  unfold mbind, GoM_bind. destruct (m s) as [[a s']|]; split.
  - intros Hk. by exists a, s'.
  - by intros (? & ? & [= -> ->] & Hk).
  - done.
  - by intros (? & ? & ? & _).
Qed.

Lemma zoom_Some {S T A} get (set : T → S → S) (m : GoM T A) s a s' :
  zoom get set m s = Some (a, s') ↔ ∃ t, m (get s) = Some (a, t) ∧ s' = set t s.
Proof.
  unfold zoom. destruct (m (get s)) as [[b t]|]; split.
  - intros [= <- <-]. by exists t.
  - by intros (? & [= -> ->] & ->).
  - done.
  - by intros (? & ? & _).
Qed.

Lemma check_Some {S} b (s : S) r : check b s = Some r ↔ b = true ∧ r = (tt, s).
Proof.
  unfold check, go_panic, mret, GoM_ret.
  destruct b; split; [by intros [= <-] | by intros [_ ->] | done | by intros [? _]].
Qed.

(** Run a [GoM] equation forwards: split binds, reads, checks and updates. *)
Ltac go_inv H :=
  repeat first
    [ apply bind_Some in H; destruct H as (? & ? & ? & H)
    | match goal with
      | K : (_ ≫= _) _ = Some _ |- _ => apply bind_Some in K; destruct K as (? & ? & ? & K)
      | K : gets _ _ = Some _ |- _ => injection K as <- <-
      | K : modify _ _ = Some _ |- _ => injection K as <- <-
      | K : mret _ _ = Some _ |- _ => injection K as <- <-
      | K : check _ _ = Some _ |- _ => apply check_Some in K; destruct K as [? K]; injection K as -> ->
      end ].

(** ** Total correctness

    [wp m Q s]: run from [s], [m] does not panic and ends with [Q]. *)

Definition wp {S A} (m : GoM S A) (Q : A → S → Prop) (s : S) : Prop :=
  match m s with Some (a, s') => Q a s' | None => False end.

Section wp.
Context {S A B : Type}.
Implicit Types (s : S).

Lemma wp_ret (a : A) (Q : A → S → Prop) s : Q a s → wp (mret a) Q s.
Proof. done. Qed.

Lemma wp_bind (m : GoM S A) (k : A → GoM S B) Q s :
  wp m (λ a s', wp (k a) Q s') s → wp (m ≫= k) Q s.
Proof. unfold wp, mbind, GoM_bind. by destruct (m s) as [[a s']|]. Qed.

Lemma wp_gets (f : S → A) (Q : A → S → Prop) s : Q (f s) s → wp (gets f) Q s.
Proof. done. Qed.

Lemma wp_modify f (Q : () → S → Prop) s : Q tt (f s) → wp (modify f) Q s.
Proof. done. Qed.

Lemma wp_unwrap (o : option A) a (Q : A → S → Prop) s : o = Some a → Q a s → wp (unwrap o) Q s.
Proof. by intros ->. Qed.

Lemma wp_mono (m : GoM S A) (P Q : A → S → Prop) s :
  wp m P s → (∀ a s', P a s' → Q a s') → wp m Q s.
Proof. unfold wp. destruct (m s) as [[a s']|]; auto. Qed.

Lemma wp_Some (m : GoM S A) (Q : A → S → Prop) s :
  wp m Q s ↔ ∃ a s', m s = Some (a, s') ∧ Q a s'.
Proof.
  unfold wp. destruct (m s) as [[a s']|]; split.
  - intros. by exists a, s'.
  - by intros (? & ? & [= <- <-] & ?).
  - done.
  - by intros (? & ? & ? & _).
Qed.

Lemma wp_run (m : GoM S A) a s' (Q : A → S → Prop) s : m s = Some (a, s') → Q a s' → wp m Q s.
Proof. unfold wp. by intros ->. Qed.

Lemma wp_zoom {T} get (set : T → S → S) (m : GoM T A) a t (Q : A → S → Prop) s :
  m (get s) = Some (a, t) → Q a (set t s) → wp (zoom get set m) Q s.
Proof. unfold wp, zoom. by intros ->. Qed.
End wp.

#[global] Arguments wp : simpl never.

(** Advance through the straight-line part of a computation. *)
Ltac wp_step :=
  lazymatch goal with
  | |- wp (_ ≫= _) _ _ => apply wp_bind
  | |- wp (mret _) _ _ => apply wp_ret
  | |- wp (gets _) _ _ => apply wp_gets
  | |- wp (modify _) _ _ => apply wp_modify
  end; cbv beta iota.

(** * Sums over finite maps

    [sum_map f m] adds [f] over the values of [m]; with a boolean weight it
    counts.  The accounting invariants compare counters with such sums. *)

Definition b2z (b : bool) : Z := if b then 1 else 0.

Definition sum_map `{Countable K} {V} (f : V → Z) (m : gmap K V) : Z :=
  map_fold (λ _ v acc, f v + acc)%Z 0%Z m.

Definition wt {V} (f : V → Z) (o : option V) : Z :=
  match o with Some v => f v | None => 0 end.

Section sum_map.
Context `{Countable K} {V : Type}.
Implicit Types (m : gmap K V) (f : V → Z).

Lemma sum_map_empty f : sum_map f (∅ : gmap K V) = 0%Z.
Proof. apply map_fold_empty. Qed.

Lemma sum_map_insert_new f m i x :
  m !! i = None → sum_map f (<[i:=x]> m) = (f x + sum_map f m)%Z.
Proof. intros. unfold sum_map. rewrite map_fold_insert_L; [done| |done]. intros; lia. Qed.

Lemma sum_map_delete f m i :
  sum_map f (delete i m) = (sum_map f m - wt f (m !! i))%Z.
Proof.
  destruct (m !! i) as [x|] eqn:E; simpl.
  - rewrite <- (insert_delete_id m i x E) at 2.
    rewrite sum_map_insert_new; [lia | apply lookup_delete_eq].
  - rewrite delete_id by done. lia.
Qed.

Lemma sum_map_insert f m i x :
  sum_map f (<[i:=x]> m) = (sum_map f m - wt f (m !! i) + f x)%Z.
Proof.
  rewrite <- insert_delete_eq, sum_map_insert_new by apply lookup_delete_eq.
  rewrite sum_map_delete. lia.
Qed.

Lemma sum_map_nonneg f m : (∀ i x, m !! i = Some x → 0 ≤ f x)%Z → (0 ≤ sum_map f m)%Z.
Proof.
  induction m as [|i x m Hi IH] using map_ind; intros Hf.
  - by rewrite sum_map_empty.
  - rewrite sum_map_insert_new by done.
    pose proof (Hf i x (lookup_insert_eq _ _ _)).
    enough (0 ≤ sum_map f m)%Z by lia.
    apply IH. intros j y Hj. apply (Hf j).
    rewrite lookup_insert_ne; congruence.
Qed.

(** One entry never weighs more than the whole sum. *)
Lemma sum_map_ge f m i x :
  (∀ j y, m !! j = Some y → 0 ≤ f y)%Z → m !! i = Some x → (f x ≤ sum_map f m)%Z.
Proof.
  intros Hf Hi.
  pose proof (sum_map_delete f m i) as Hd. rewrite Hi in Hd. simpl in Hd.
  enough (0 ≤ sum_map f (delete i m))%Z by lia.
  apply sum_map_nonneg. intros j y [_ Hj]%lookup_delete_Some. eauto.
Qed.

Lemma sum_map_zero m : sum_map (λ _ : V, 0%Z) m = 0%Z.
Proof.
  induction m as [|i x m Hi IH] using map_ind; [apply sum_map_empty|].
  rewrite sum_map_insert_new by done. lia.
Qed.

Lemma sum_map_ext f g m :
  (∀ i x, m !! i = Some x → f x = g x) → sum_map f m = sum_map g m.
Proof.
  induction m as [|i x m Hi IH] using map_ind; intros Hf.
  - by rewrite !sum_map_empty.
  - rewrite !sum_map_insert_new by done.
    rewrite (Hf i x) by apply lookup_insert_eq.
    rewrite IH; [done|]. intros j y Hj. apply (Hf j).
    rewrite lookup_insert_ne; congruence.
Qed.
End sum_map.

(** Rewrite every [sum_map] of an updated map into the sum of the old one. *)
Create Rewrite HintDb sums.
#[export] Hint Rewrite @sum_map_insert @sum_map_delete @sum_map_empty : sums.

Fixpoint sumZ (l : list Z) : Z :=
  match l with [] => 0 | x :: l' => x + sumZ l' end%Z.

Lemma sumZ_cons n l : sumZ (n :: l) = (n + sumZ l)%Z.
Proof. done. Qed.

Lemma sumZ_app l1 l2 : sumZ (l1 ++ l2) = (sumZ l1 + sumZ l2)%Z.
Proof. induction l1; simpl; lia. Qed.

Lemma sumZ_nonneg l : Forall (λ n, 0 ≤ n)%Z l → (0 ≤ sumZ l)%Z.
Proof. induction 1; simpl; lia. Qed.

Lemma sum_list_with_insert {A} (f : A → nat) (l : list A) i x y :
  l !! i = Some x → sum_list_with f (<[i:=y]> l) + f x = sum_list_with f l + f y.
Proof.
  revert i. induction l as [|z l IH]; intros [|i] Hi; simplify_eq/=; [lia|].
  pose proof (IH i Hi). lia.
Qed.

(** * Filters

    [filter] with a boolean test, as the loops of the source use it. *)

Section filter_bool.
Context {A : Type}.
Implicit Types (f g : A → bool) (l : list A).

Lemma filter_bool_cons f x l :
  filter f (x :: l) = if f x then x :: filter f l else filter f l.
Proof. rewrite filter_cons. by destruct (f x). Qed.

Lemma filter_all f l : Forall (λ x, f x = true) l → filter f l = l.
Proof. induction 1 as [|x l Hx _ IH]; [done|]. by rewrite filter_bool_cons, Hx, IH. Qed.

Lemma filter_none f l : Forall (λ x, f x = false) l → filter f l = [].
Proof. induction 1 as [|x l Hx _ IH]; [done|]. by rewrite filter_bool_cons, Hx, IH. Qed.

Lemma filter_bool_ext f g l : (∀ x, x ∈ l → f x = g x) → filter f l = filter g l.
Proof.
  induction l as [|x l IH]; intros H; [done|]. rewrite !filter_bool_cons.
  rewrite (H x) by apply list_elem_of_here. rewrite IH; [done|].
  intros y Hy. apply H. by apply list_elem_of_further.
Qed.

Lemma filter_filter_bool f g l : filter f (filter g l) = filter (λ x, g x && f x) l.
Proof.
  induction l as [|x l IH]; [done|]. rewrite !filter_bool_cons, <- IH.
  destruct (g x); [|done]. by rewrite filter_bool_cons.
Qed.

Lemma elem_of_filter_bool f x l : x ∈ filter f l ↔ f x = true ∧ x ∈ l.
Proof. by rewrite list_elem_of_filter, Is_true_true. Qed.
End filter_bool.

(** * Results

    A Go pair [(value, error)] of which exactly one half is meaningful. *)

Inductive res (E A : Type) : Type :=
  | OK (a : A)
  | ERR (e : E).
Arguments OK {E A} a.
Arguments ERR {E A} e.

#[export] Instance res_eq_dec `{EqDecision E, EqDecision A} : EqDecision (res E A).
Proof. solve_decision. Defined.

#[export] Instance res_ret E : MRet (res E) := λ A a, OK a.
#[export] Instance res_bind E : MBind (res E) :=
  λ A B k m, match m with OK a => k a | ERR e => ERR e end.

(** * Step relations *)

(** Invariants by induction over the states reachable from an initial one. *)
Lemma rtc_invariant {S} (R : relation S) (P : S → Prop) s s' :
  (∀ x y, R x y → P x → P y) → P s → rtc R s s' → P s'.
Proof. intros HR Hs. induction 1; eauto. Qed.

(** * Bytes and bits *)

Definition is_byte (z : Z) : Prop := (0 ≤ z < 256)%Z.

Lemma testbit_above a k n : (0 ≤ a < 2 ^ k → 0 ≤ k ≤ n → Z.testbit a n = false)%Z.
Proof.
  intros Ha Hk. destruct (decide (a = 0%Z)) as [->|]; [apply Z.bits_0|].
  apply Z.bits_above_log2; [lia|].
  apply Z.lt_le_trans with k; [|lia]. apply Z.log2_lt_pow2; lia.
Qed.

(** Gluing a high part above [k] low bits is addition. *)
Lemma lor_shiftl_add a b k :
  (0 ≤ k → 0 ≤ a < 2 ^ k → Z.lor a (Z.shiftl b k) = a + b * 2 ^ k)%Z.
Proof.
  intros Hk Ha.
  pose proof (Z.add_lor_land a (Z.shiftl b k)) as Hadd.
  assert (Z.land a (Z.shiftl b k) = 0%Z) as Hz.
  { apply Z.bits_inj'. intros n Hn. rewrite Z.land_spec, Z.bits_0.
    destruct (decide (k ≤ n)%Z).
    - rewrite (testbit_above a k n) by lia. done.
    - rewrite Z.shiftl_spec_low by lia. apply andb_false_r. }
  rewrite Z.shiftl_mul_pow2 in * by done. lia.
Qed.

(** The [n] low bytes of [z], least significant first. *)
Fixpoint le_bytes (n : nat) (z : Z) : list Z :=
  match n with
  | O => []
  | S n' => (z mod 256 :: le_bytes n' (z / 256))%Z
  end.

Lemma le_bytes_length n z : length (le_bytes n z) = n.
Proof. revert z. induction n; intros; simpl; congruence. Qed.

(** Clearing bit [k] of a number below it with a flag at [k]. *)
Lemma ldiff_flag n q k :
  (0 ≤ k → 0 ≤ n < 2 ^ k → 0 ≤ q < 2 → Z.ldiff (n + q * 2 ^ k) (Z.shiftl 1 k) = n)%Z.
Proof.
  intros Hk Hn Hq. rewrite <- lor_shiftl_add by done.
  apply Z.bits_inj'. intros m Hm.
  rewrite Z.ldiff_spec, Z.lor_spec, !Z.shiftl_spec by done.
  destruct (Z.lt_trichotomy m k) as [|[->|]].
  - rewrite (Z.testbit_neg_r q), (Z.testbit_neg_r 1) by lia. simpl.
    rewrite orb_false_r. apply andb_true_r.
  - rewrite Z.sub_diag. change (Z.testbit 1 0) with true. simpl.
    rewrite andb_false_r. symmetry. apply (testbit_above n k k); lia.
  - rewrite (testbit_above q 1 (m - k)), (testbit_above n k m) by lia. done.
Qed.
