(* ===== verification/GoStrings.v ===== *)
(** Strings as Go has them: bytes, the runes that [unicode/utf8] reads in them,
    and what the source uses of [strings] and [strconv]. *)

From S2P Require Import Prelude.

Open Scope Z_scope.

(** * UTF-8

    An invalid byte decodes to nothing and counts as one replacement character. *)

Definition bytes_of (s : string) : list Z := (λ a, Z.of_N (Ascii.N_of_ascii a)) <$> String.list_ascii_of_string s.

Definition in_range (lo hi b : Z) : bool := (lo <=? b) && (b <=? hi).

Definition utf8_two (b0 b1 : Z) : bool := in_range 194 223 b0 && in_range 128 191 b1.

Definition utf8_three (b0 b1 b2 : Z) : bool :=
  in_range 224 239 b0
  && in_range (if b0 =? 224 then 160 else 128) (if b0 =? 237 then 159 else 191) b1
  && in_range 128 191 b2.

Definition utf8_four (b0 b1 b2 b3 : Z) : bool :=
  in_range 240 244 b0
  && in_range (if b0 =? 240 then 144 else 128) (if b0 =? 244 then 143 else 191) b1
  && in_range 128 191 b2 && in_range 128 191 b3.

Fixpoint utf8_runes (bs : list Z) : list (option Z) :=
  match bs with
  | [] => []
  | b0 :: t0 =>
      if b0 <? 128 then Some b0 :: utf8_runes t0
      else match t0 with
      | [] => [None]
      | b1 :: t1 =>
          if utf8_two b0 b1 then Some ((b0 - 192) * 64 + (b1 - 128)) :: utf8_runes t1
          else match t1 with
          | [] => None :: utf8_runes t0
          | b2 :: t2 =>
              if utf8_three b0 b1 b2
              then Some ((b0 - 224) * 4096 + (b1 - 128) * 64 + (b2 - 128)) :: utf8_runes t2
              else match t2 with
              | [] => None :: utf8_runes t0
              | b3 :: t3 =>
                  if utf8_four b0 b1 b2 b3
                  then Some ((b0 - 240) * 262144 + (b1 - 128) * 4096 + (b2 - 128) * 64 + (b3 - 128)) :: utf8_runes t3
                  else None :: utf8_runes t0
              end
          end
      end
  end.

Definition ValidString (s : string) : bool := forallb (λ r, bool_decide (is_Some r)) (utf8_runes (bytes_of s)).

Definition RuneCountInString (s : string) : Z := Z.of_nat (length (utf8_runes (bytes_of s))).

(** * Trimming *)

Definition string_of (bs : list Z) : string :=
  String.string_of_list_ascii ((λ b, Ascii.ascii_of_N (Z.to_N b)) <$> bs).

(** [unicode.IsSpace]. *)
Definition IsSpace (r : Z) : bool :=
  in_range 9 13 r || (r =? 32) || (r =? 133) || (r =? 160) || (r =? 5760) || in_range 8192 8202 r
  || (r =? 8232) || (r =? 8233) || (r =? 8239) || (r =? 8287) || (r =? 12288).

(** How many bytes a rune takes; valid text is encoded as shortly as it can be. *)
Definition rune_len (r : Z) : nat := if r <? 128 then 1 else if r <? 2048 then 2 else if r <? 65536 then 3 else 4.

(** The bytes of the white space that a list of runes starts with. *)
Fixpoint space_bytes (rs : list (option Z)) : nat :=
  match rs with
  | Some r :: rs => if IsSpace r then rune_len r + space_bytes rs else 0
  | _ => 0
  end.

Definition TrimSpace (s : string) : string :=
  let bs := drop (space_bytes (utf8_runes (bytes_of s))) (bytes_of s) in
  string_of (take (length bs - space_bytes (reverse (utf8_runes bs))) bs).

(** * Parts of a string *)

Definition len (s : string) : Z := Z.of_nat (String.length s).

(** [strings.Cut] at a byte. *)
Fixpoint cut_at (a : Ascii.ascii) (s : string) : option (string * string) :=
  match s with
  | EmptyString => None
  | String.String b s =>
      if Ascii.eqb a b then Some (EmptyString, s)
      else '(l, r) ← cut_at a s; Some (String.String b l, r)
  end.

(** [strconv.ParseInt] with base ten and 64 bits. *)
Fixpoint decimal_value (acc : Z) (bs : list Z) : option Z :=
  match bs with
  | [] => Some acc
  | b :: bs => if in_range 48 57 b then decimal_value (10 * acc + (b - 48)) bs else None
  end.

Definition ParseInt (s : string) : option Z :=
  let parse sign bs :=
    match bs with
    | [] => None
    | _ => n ← decimal_value 0 bs;
           if in_range min_int64 max_int64 (sign * n) then Some (sign * n) else None
    end in
  match bytes_of s with
  | 43 :: bs => parse 1 bs
  | 45 :: bs => parse (-1) bs
  | bs => parse 1 bs
  end.

Example trim_both_ends : TrimSpace "  a b	 " = "a b"%string.
Proof. vm_compute. reflexivity. Qed.

Example parse_signed : (ParseInt "-42", ParseInt "9223372036854775808", ParseInt "") = (Some (-42), None, None).
Proof. vm_compute. reflexivity. Qed.
