(* ===== verification/FrameBudget.v ===== *)
(** Inbound frame budget: [internal/mtprotoedge/frame_budget.go] and the part of
    [transport_compat.go] that owns a connection's reservation.

    A process-wide counter bounds the bytes of all transport frames being read;
    a connection charges it from the length prefix, before the payload buffer
    exists.  The counter is raised by a compare-and-swap loop that any number of
    connections run at once, so the file has both the sequential operations and
    the interleaved steps of the loop. *)

From S2P Require Import Prelude.

Open Scope Z_scope.

(** * The counter *)

Definition defaultInboundFrameGlobalMaxBytes : Z := Z.shiftl 512 20.

Inductive frameErr :=
  | ErrInboundFrameBudgetExceeded
  | errInboundFrameCodecUnsupported
  | errInboundFrameNotReserved
  | errReservedMoreThanOnce
  | ErrClosed
  | errInvalidFullLength (raw : Z)
  | errInvalidLength (wireBytes : Z)
  | EOF
  | ErrUnexpectedEOF.

#[export] Instance frameErr_eq_dec : EqDecision frameErr.
Proof. solve_decision. Defined.

Record inboundFrameBudget := mkBudget { fb_max : Z; fb_used : Z }.

Definition newInboundFrameBudget (max : Z) : inboundFrameBudget :=
  mkBudget (if max <=? 0 then defaultInboundFrameGlobalMaxBytes else max) 0.

(** The test in front of the loop: the bytes the reservation must reach. *)
Definition growTarget (b : inboundFrameBudget) (current wireBytes plaintextBytes : Z)
    : res frameErr Z :=
  if (current <? 0) || (wireBytes <=? 0) || (plaintextBytes <? 0)
     || (fb_max b <? wireBytes) || (fb_max b -₆₄ wireBytes <? plaintextBytes)
  then ERR ErrInboundFrameBudgetExceeded
  else OK (wireBytes +₆₄ plaintextBytes).

(** One turn of the loop on the loaded counter: the value to swap in. *)
Definition growAttempt (max used n : Z) : res frameErr Z :=
  if max -₆₄ used <? n then ERR ErrInboundFrameBudgetExceeded else OK (used +₆₄ n).

(** The whole operation when no other connection moves the counter between the
    load and the swap; the interleaved loop is [frame_step] below. *)
Definition growReservation (b : inboundFrameBudget) (current wireBytes plaintextBytes : Z)
    : res frameErr Z * inboundFrameBudget :=
  match growTarget b current wireBytes plaintextBytes with
  | ERR e => (ERR e, b)
  | OK target =>
      if target <=? current then (OK current, b)
      else match growAttempt (fb_max b) (fb_used b) (target -₆₄ current) with
           | ERR e => (ERR e, b)
           | OK used => (OK target, mkBudget (fb_max b) used)
           end
  end.

Definition reserve (b : inboundFrameBudget) (wireBytes plaintextBytes : Z) :=
  growReservation b 0 wireBytes plaintextBytes.

(** [None] is the panic on a release of more than was reserved. *)
Definition release (n : Z) (b : inboundFrameBudget) : option inboundFrameBudget :=
  if n =? 0 then Some b
  else let used := fb_used b -₆₄ n in
       if used <? 0 then None else Some (mkBudget (fb_max b) used).

Definition usedBytes (b : inboundFrameBudget) : Z := fb_used b.

Definition budget_wf (b : inboundFrameBudget) : Prop :=
  0 < fb_max b ≤ max_int64 ∧ 0 ≤ fb_used b ≤ fb_max b.

(** * A connection's reservation ([compatTransportConn]) *)

Record frameConn := mkConn {
  heldFrameBytes : Z;
  frameDelivered : bool;
  closed : bool;
}.

Definition reserveInboundFrame (wireBytes plaintextBytes : Z) (c : frameConn)
    (b : inboundFrameBudget) : res frameErr () * frameConn * inboundFrameBudget :=
  if closed c then (ERR ErrClosed, c, b)
  else match growReservation b (heldFrameBytes c) wireBytes plaintextBytes with
       | (ERR e, b') => (ERR e, c, b')
       | (OK n, b') => (OK tt, mkConn n (frameDelivered c) (closed c), b')
       end.

Definition beginInboundFrameRead (c : frameConn) : frameConn :=
  mkConn (heldFrameBytes c) false (closed c).

Definition retainInboundFrameBytes (n : Z) (c : frameConn) (b : inboundFrameBudget)
    : option (bool * frameConn * inboundFrameBudget) :=
  if n <? 0 then Some (false, c, b)
  else
    let old := heldFrameBytes c in
    if old <? n then
      match growReservation b old n 0 with
      | (ERR _, b') => Some (false, c, b')
      | (OK grown, b') => Some (true, mkConn grown (frameDelivered c) (closed c), b')
      end
    else
      match release (old -₆₄ n) b with
      | None => None
      | Some b' => Some (true, mkConn n (frameDelivered c) (closed c), b')
      end.

Definition releaseInboundFrame (c : frameConn) (b : inboundFrameBudget)
    : option (frameConn * inboundFrameBudget) :=
  match release (heldFrameBytes c) b with
  | None => None
  | Some b' => Some (mkConn 0 false (closed c), b')
  end.

Definition markInboundFrameDelivered (c : frameConn) : res frameErr () * frameConn :=
  if closed c then (ERR ErrClosed, c)
  else if heldFrameBytes c =? 0 then (ERR errInboundFrameNotReserved, c)
  else (OK tt, mkConn (heldFrameBytes c) true (closed c)).

(** [Close] keeps the reservation: the read error path releases it. *)
Definition closeFrameConn (c : frameConn) : frameConn :=
  mkConn (heldFrameBytes c) (frameDelivered c) true.

(** [retainInboundFrameBackings]: the capacities kept between frames, or nothing
    at all when their charge is refused.  The result pairs the buffers kept with
    the new state; [None] is the panic of the final release. *)
Definition retainInboundFrameBackings (buffers : list Z) (c : frameConn)
    (b : inboundFrameBudget) : option (list Z * frameConn * inboundFrameBudget) :=
  match retainInboundFrameBytes (foldl Z.add 0 buffers) c b with
  | None => None
  | Some (true, c', b') => Some (buffers, c', b')
  | Some (false, c', b') =>
      match retainInboundFrameBytes 0 c' b' with
      | Some (true, c'', b'') => Some ([], c'', b'')
      | _ => None
      end
  end.

(** ** The interleaved counter

    Every connection runs [growReservation] with its own lock held, and releases
    after dropping it.  [conn_phase] is the program point of the growing
    operation; [owed] holds the amounts of the releases that are under way. *)

Inductive conn_phase :=
  | Idle
  | Growing (target n : Z)             (** before [b.used.Load()] *)
  | Loaded (target n used : Z)         (** between the load and the swap *)
  | Won (target : Z).                  (** swapped, [heldFrameBytes] not yet set *)

Record connState := mkConnState { held : Z; phase : conn_phase; owed : list Z }.

Record frameWorld := mkWorld {
  budget : inboundFrameBudget;
  conns : gmap nat connState;
  panicked : bool;
}.

Definition set_conn (w : frameWorld) (i : nat) (c : connState) : frameWorld :=
  mkWorld (budget w) (<[i:=c]> (conns w)) (panicked w).
Definition set_used (w : frameWorld) (u : Z) : frameWorld :=
  mkWorld (mkBudget (fb_max (budget w)) u) (conns w) (panicked w).

Inductive frame_step (w : frameWorld) : frameWorld → Prop :=
  | step_connect i :
      conns w !! i = None → frame_step w (set_conn w i (mkConnState 0 Idle []))
  | step_grow i c wire plain target :
      conns w !! i = Some c → phase c = Idle →
      growTarget (budget w) (held c) wire plain = OK target → held c < target →
      frame_step w (set_conn w i (mkConnState (held c) (Growing target (target -₆₄ held c)) (owed c)))
  | step_load i c target n :
      conns w !! i = Some c → phase c = Growing target n →
      frame_step w (set_conn w i (mkConnState (held c) (Loaded target n (fb_used (budget w))) (owed c)))
  | step_refuse i c target n used e :
      conns w !! i = Some c → phase c = Loaded target n used →
      growAttempt (fb_max (budget w)) used n = ERR e →
      frame_step w (set_conn w i (mkConnState (held c) Idle (owed c)))
  | step_cas_fail i c target n used u :
      conns w !! i = Some c → phase c = Loaded target n used →
      growAttempt (fb_max (budget w)) used n = OK u → fb_used (budget w) ≠ used →
      frame_step w (set_conn w i (mkConnState (held c) (Growing target n) (owed c)))
  | step_cas_ok i c target n used u :
      conns w !! i = Some c → phase c = Loaded target n used →
      growAttempt (fb_max (budget w)) used n = OK u → fb_used (budget w) = used →
      frame_step w (set_conn (set_used w u) i (mkConnState (held c) (Won target) (owed c)))
  | step_held i c target :
      conns w !! i = Some c → phase c = Won target →
      frame_step w (set_conn w i (mkConnState target Idle (owed c)))
  | step_shrink i c n :
      (* [retainInboundFrameBytes n] or, with n = 0, [releaseInboundFrame] *)
      conns w !! i = Some c → phase c = Idle → 0 ≤ n ≤ held c →
      frame_step w (set_conn w i (mkConnState n Idle (owed c ++ [held c -₆₄ n])))
  | step_release i c l1 n l2 :
      conns w !! i = Some c → owed c = l1 ++ n :: l2 →
      frame_step w
        (match release n (budget w) with
         | Some b => mkWorld b (<[i:=mkConnState (held c) (phase c) (l1 ++ l2)]> (conns w)) (panicked w)
         | None => mkWorld (budget w) (conns w) true
         end).

(** * Framing prefixes ([inboundFramePreflightReader]) *)

Definition Word : Z := 4.
Definition maxTransportMessageSize : Z := Z.shiftl 1 24.
Definition quickAckResponseFlag : Z := Z.shiftl 1 31.

Inductive inboundFrameCodecKind :=
  | CodecUnknown
  | CodecQuickAckAbridged
  | CodecAbridged
  | CodecIntermediate
  | CodecPaddedIntermediate
  | CodecFull
  | CodecCustom.

#[export] Instance codecKind_eq_dec : EqDecision inboundFrameCodecKind.
Proof. solve_decision. Defined.

(** The dynamic types [classifyInboundFrameCodec] tells apart; a nil interface or
    pointer inside [NoHeader] is [None]. *)
Inductive transportCodec :=
  | TQuickAckAbridged | TAbridged
  | TQuickAckIntermediate | TIntermediate
  | TQuickAckPaddedIntermediate | TPaddedIntermediate
  | TFull
  | TNoHeader (inner : option transportCodec)
  | TNoHeaderPtr (inner : option (option transportCodec))
  | TBudgeted
  | TOther.

Fixpoint classifyInboundFrameCodec (c : transportCodec) : inboundFrameCodecKind :=
  match c with
  | TQuickAckAbridged => CodecQuickAckAbridged
  | TAbridged => CodecAbridged
  | TQuickAckIntermediate | TIntermediate => CodecIntermediate
  | TQuickAckPaddedIntermediate | TPaddedIntermediate => CodecPaddedIntermediate
  | TFull => CodecFull
  | TNoHeader (Some v) => classifyInboundFrameCodec v
  | TNoHeader None => CodecUnknown
  | TNoHeaderPtr (Some (Some v)) => classifyInboundFrameCodec v
  | TNoHeaderPtr _ => CodecUnknown
  | TBudgeted => CodecCustom
  | TOther => CodecUnknown
  end.

(** [io.ReadFull] of [n] bytes from the unread input. *)
Definition readFull (n : nat) (input : list Z) : res frameErr (list Z * list Z) :=
  if decide (n ≤ length input)%nat then OK (take n input, drop n input)
  else match input with [] => ERR EOF | _ => ERR ErrUnexpectedEOF end.

Section preflight.
(** The [reserve] callback and the state it works on. *)
Context {St : Type} (reserveFn : Z → Z → St → res frameErr () * St).

Record preflightReader := mkReader {
  rd_kind : inboundFrameCodecKind;
  rd_firstDelivered : bool;
  rd_done : bool;
  rd_input : list Z;
}.

Definition reserveCompatFrame (wireBytes plaintextBytes : Z) (s : St)
    : res frameErr () * St :=
  if (wireBytes <=? 0) || (maxTransportMessageSize <? wireBytes)
  then (ERR (errInvalidLength wireBytes), s)
  else reserveFn wireBytes plaintextBytes s.

Definition readAbridgedPrefix (quickAck : bool) (r : preflightReader) (plen : nat) (s : St)
    : res frameErr (list Z) * preflightReader * St :=
  if negb (rd_firstDelivered r) then
    match readFull 1 (rd_input r) with
    | ERR e => (ERR e, r, s)
    | OK (first, rest) =>
        let b0 := default 0 (head first) in
        let lengthByte := if quickAck then Z.land b0 127 else b0 in
        let extended := if quickAck then lengthByte =? 127 else 127 <=? b0 in
        if extended then
          (OK [b0], mkReader (rd_kind r) true (rd_done r) rest, s)
        else
          let n := lengthByte *₆₄ Word in
          match reserveCompatFrame n n s with
          | (ERR e, s') => (ERR e, mkReader (rd_kind r) (rd_firstDelivered r) (rd_done r) rest, s')
          | (OK _, s') => (OK [b0], mkReader (rd_kind r) true true rest, s')
          end
    end
  else
    match readFull 3 (rd_input r) with
    | ERR e => (ERR e, r, s)
    | OK (tail, rest) =>
        let words := Z.lor (Z.lor (tail !!! 0%nat) (Z.shiftl (tail !!! 1%nat) 8))
                           (Z.shiftl (tail !!! 2%nat) 16) in
        let n := words *₆₄ Word in
        match reserveCompatFrame n n s with
        | (ERR e, s') => (ERR e, mkReader (rd_kind r) (rd_firstDelivered r) (rd_done r) rest, s')
        | (OK _, s') =>
            (OK (take plen tail), mkReader (rd_kind r) (rd_firstDelivered r) true rest, s')
        end
    end.

(** [binary.LittleEndian.Uint32] *)
Definition uint32LE (h : list Z) : Z :=
  Z.lor (Z.lor (Z.lor (h !!! 0%nat) (Z.shiftl (h !!! 1%nat) 8)) (Z.shiftl (h !!! 2%nat) 16))
        (Z.shiftl (h !!! 3%nat) 24).

Definition readWordPrefix (full : bool) (r : preflightReader) (plen : nat) (s : St)
    : res frameErr (list Z) * preflightReader * St :=
  match readFull 4 (rd_input r) with
  | ERR e => (ERR e, r, s)
  | OK (header, rest) =>
      let raw := uint32LE header in
      let r' := mkReader (rd_kind r) (rd_firstDelivered r) (rd_done r) rest in
      if full && ((raw <? 3 * Word) || (maxTransportMessageSize <? raw))
      then (ERR (errInvalidFullLength raw), r', s)
      else
        let wireBytes := if full then raw else Z.ldiff raw quickAckResponseFlag in
        let plaintextBytes := if full then raw -₆₄ 3 * Word else wireBytes in
        match reserveCompatFrame wireBytes plaintextBytes s with
        | (ERR e, s') => (ERR e, r', s')
        | (OK _, s') =>
            (OK (take plen header), mkReader (rd_kind r) (rd_firstDelivered r) true rest, s')
        end
  end.

(** [Read] with a buffer of [plen] bytes; once the prefix is through, the
    underlying reader fills the buffer with [avail] bytes at most. *)
Definition Read (r : preflightReader) (plen avail : nat) (s : St)
    : res frameErr (list Z) * preflightReader * St :=
  if decide (plen = 0%nat) then (OK [], r, s)
  else if rd_done r then
    let n := Nat.min plen avail in
    (OK (take n (rd_input r)),
     mkReader (rd_kind r) (rd_firstDelivered r) (rd_done r) (drop n (rd_input r)), s)
  else match rd_kind r with
       | CodecQuickAckAbridged => readAbridgedPrefix true r plen s
       | CodecAbridged => readAbridgedPrefix false r plen s
       | CodecIntermediate | CodecPaddedIntermediate => readWordPrefix false r plen s
       | CodecFull => readWordPrefix true r plen s
       | CodecUnknown | CodecCustom => (ERR errInboundFrameCodecUnsupported, r, s)
       end.
End preflight.
Arguments mkReader rd_kind rd_firstDelivered rd_done rd_input : assert.

(** ** [readInboundFrame]

    The codec is outside the repository: what matters of its run is the list of
    [reserve] calls it makes and whether it fails. *)

Record reserveClosure := mkClosure {
  reserveCalls : nat;
  reserved : bool;
  reserveErr : option frameErr;
}.

Definition reserveOnce (wireBytes plaintextBytes : Z)
    (s : reserveClosure * frameConn * inboundFrameBudget)
    : res frameErr () * (reserveClosure * frameConn * inboundFrameBudget) :=
  let '(k, c, b) := s in
  let calls := S (reserveCalls k) in
  if decide (calls ≠ 1%nat) then
    (ERR errReservedMoreThanOnce, (mkClosure calls (reserved k) (Some errReservedMoreThanOnce), c, b))
  else
    match reserveInboundFrame wireBytes plaintextBytes c b with
    | (OK _, c', b') => (OK tt, (mkClosure calls true None, c', b'))
    | (ERR e, c', b') => (ERR e, (mkClosure calls false (Some e), c', b'))
    end.

Definition runReserves (calls : list (Z * Z)) (s : reserveClosure * frameConn * inboundFrameBudget) :=
  foldl (λ s wp, snd (reserveOnce wp.1 wp.2 s)) s calls.

Definition readInboundFrame (kind : inboundFrameCodecKind) (budgetedCodec : bool)
    (calls : list (Z * Z)) (codecErr : option frameErr) (c : frameConn) (b : inboundFrameBudget)
    : res frameErr () * frameConn * inboundFrameBudget :=
  match kind with
  | CodecUnknown => (ERR errInboundFrameCodecUnsupported, c, b)
  | _ =>
      if bool_decide (kind = CodecCustom) && negb budgetedCodec
      then (ERR errInboundFrameCodecUnsupported, c, b)
      else
        let '(k, c', b') := runReserves calls (mkClosure 0 false None, c, b) in
        match codecErr with
        | Some e => (ERR e, c', b')
        | None =>
            match reserveErr k with
            | Some e => (ERR e, c', b')
            | None =>
                if negb (bool_decide (reserveCalls k = 1%nat)) || negb (reserved k)
                then (ERR errInboundFrameNotReserved, c', b')
                else let '(r, c'') := markInboundFrameDelivered c' in (r, c'', b')
            end
        end
  end.

Definition releaseOnError (e : frameErr) (c : frameConn) (b : inboundFrameBudget)
    : option (res frameErr () * frameConn * inboundFrameBudget) :=
  match releaseInboundFrame c b with
  | None => None
  | Some (c', b') => Some (ERR e, c', b')
  end.

(** [RecvDeadline]: any failure of the frame read gives the reservation back. *)
Definition recvFrame (kind : inboundFrameCodecKind) (budgetedCodec : bool)
    (calls : list (Z * Z)) (codecErr : option frameErr) (c : frameConn) (b : inboundFrameBudget)
    : option (res frameErr () * frameConn * inboundFrameBudget) :=
  match readInboundFrame kind budgetedCodec calls codecErr (beginInboundFrameRead c) b with
  | (OK r, c', b') => Some (OK r, c', b')
  | (ERR e, c', b') => releaseOnError e c' b'
  end.

(** * Sequential behaviour *)

Lemma growTarget_OK b cur wire plain target :
  budget_wf b → in_int64 plain → in_int64 wire →
  growTarget b cur wire plain = OK target ↔
  0 ≤ cur ∧ 0 < wire ∧ 0 ≤ plain ∧ wire + plain ≤ fb_max b ∧ target = wire + plain.
Proof.
  intros [Hmax Hused] Hp Hw. unfold growTarget.
  destruct ((cur <? 0) || (wire <=? 0) || (plain <? 0) || (fb_max b <? wire)) eqn:E1; simpl.
  - split; [done|]. intros (? & ? & ? & ? & ?). bool_facts. lia.
  - bool_facts. unwrap64. destruct (fb_max b - wire <? plain) eqn:E2; bool_facts.
    + split; [done|]. lia.
    + unwrap64. split; [intros [= <-]; lia | intros (? & ? & ? & ? & ->); done].
Qed.

Lemma growTarget_ERR b cur wire plain e :
  growTarget b cur wire plain = ERR e → e = ErrInboundFrameBudgetExceeded.
Proof. unfold growTarget. destruct (_ || _); congruence. Qed.

Lemma growAttempt_OK max used n u :
  0 < max ≤ max_int64 → 0 ≤ used ≤ max → 0 < n ≤ max →
  growAttempt max used n = OK u ↔ used + n ≤ max ∧ u = used + n.
Proof.
  intros. unfold growAttempt. unwrap64.
  destruct (max - used <? n) eqn:E; bool_facts.
  - split; [done|lia].
  - unwrap64. split; [intros [= <-]; lia | intros [? ->]; done].
Qed.

(** [growReservation] computes in exact arithmetic - the overflow-avoiding
    tests make every wrapped sum and difference exact - and it succeeds exactly
    when the frame fits the limit and the missing bytes fit what is left; it
    then holds the larger of the two charges and raises the counter by the
    difference, and a refusal leaves the counter alone. *)
Theorem growReservation_spec (b : inboundFrameBudget) (cur wire plain : Z)
    (Hwf : budget_wf b) (Hp : in_int64 plain) (Hw : in_int64 wire) (Hcur : in_int64 cur) :
  growReservation b cur wire plain =
  if bool_decide (0 ≤ cur ∧ 0 < wire ∧ 0 ≤ plain ∧ wire + plain ≤ fb_max b ∧
                  fb_used b + (wire + plain - cur) ≤ fb_max b)
  then (OK (cur `max` (wire + plain)),
        mkBudget (fb_max b) (fb_used b + (0 `max` (wire + plain - cur))))
  else (ERR ErrInboundFrameBudgetExceeded, b).
Proof.
  unfold growReservation.
  destruct (growTarget b cur wire plain) as [target|e] eqn:Et.
  - apply growTarget_OK in Et as (? & ? & ? & ? & ->); [|done..].
    destruct Hwf as [Hmax Hused].
    destruct (wire + plain <=? cur) eqn:Ec; bool_facts.
    + rewrite bool_decide_eq_true_2 by lia.
      rewrite !Z.max_l by lia. rewrite Z.add_0_r. by destruct b.
    + unwrap64.
      destruct (growAttempt _ _ _) as [u|e] eqn:Ea.
      * apply growAttempt_OK in Ea as [? ->]; [|lia..].
        rewrite bool_decide_eq_true_2 by lia. rewrite !Z.max_r by lia. done.
      * rewrite bool_decide_eq_false_2.
        -- unfold growAttempt in Ea. destruct (_ <? _); congruence.
        -- intros (? & ? & ? & ? & Hle).
           assert (growAttempt (fb_max b) (fb_used b) (wire + plain - cur)
                   = OK (fb_used b + (wire + plain - cur))) as Hok.
           { apply growAttempt_OK; lia. }
           congruence.
  - apply growTarget_ERR in Et as He. subst e.
    rewrite bool_decide_eq_false_2; [done|]. intros (? & ? & ? & ? & ?).
    assert (growTarget b cur wire plain = OK (wire + plain)) as Hok.
    { apply growTarget_OK; auto with lia. }
    congruence.
Qed.

Lemma growReservation_spec_witness :
  budget_wf (mkBudget 1000 900) ∧
  growReservation (mkBudget 1000 900) 40 60 60 = (OK 120, mkBudget 1000 980).
Proof.
  split; [unfold budget_wf, max_int64, two63; simpl; lia|].
  rewrite (growReservation_spec (mkBudget 1000 900) 40 60 60).
  - reflexivity.
  - unfold budget_wf, max_int64, two63; simpl; lia.
  - solve_int64.
  - solve_int64.
  - solve_int64.
Defined.

(** * Every interleaving

    [charge] is what a connection has really taken from the counter at each
    program point. *)

Definition phase_extra (h : Z) (p : conn_phase) : Z :=
  match p with Won target => target - h | _ => 0 end.

Definition charge (c : connState) : Z := held c + phase_extra (held c) (phase c) + sumZ (owed c).

Definition phase_ok (max h : Z) (p : conn_phase) : Prop :=
  match p with
  | Idle => True
  | Growing target n => n = target - h ∧ 0 < n ∧ target ≤ max
  | Loaded target n used => n = target - h ∧ 0 < n ∧ target ≤ max ∧ 0 ≤ used ≤ max
  | Won target => h < target ≤ max
  end.

Definition conn_ok (max : Z) (c : connState) : Prop :=
  0 ≤ held c ≤ max ∧ Forall (λ n, 0 ≤ n) (owed c) ∧ phase_ok max (held c) (phase c).

Record frame_inv (w : frameWorld) : Prop := {
  fi_max : 0 < fb_max (budget w) ≤ max_int64;
  fi_used : fb_used (budget w) = sum_map charge (conns w);
  fi_bound : fb_used (budget w) ≤ fb_max (budget w);
  fi_conns : map_Forall (λ _ c, conn_ok (fb_max (budget w)) c) (conns w);
  fi_ok : panicked w = false;
}.

Lemma charge_nonneg max c : conn_ok max c → 0 ≤ charge c.
Proof.
  intros (Hh & Ho & Hp). apply sumZ_nonneg in Ho. unfold charge.
  destruct (phase c); simpl in *; lia.
Qed.

Lemma frame_inv_charge w i c :
  frame_inv w → conns w !! i = Some c → 0 ≤ charge c ≤ fb_used (budget w).
Proof.
  intros H Hi. rewrite (fi_used w H). split.
  - by eapply charge_nonneg, (fi_conns w H).
  - eapply sum_map_ge; [|done]. intros j y Hj. by eapply charge_nonneg, (fi_conns w H).
Qed.

(** Replacing one connection's state while the counter moves by [d]. *)
Lemma frame_inv_update w i c c' u :
  frame_inv w → conns w !! i = Some c → conn_ok (fb_max (budget w)) c' →
  u = fb_used (budget w) + charge c' - charge c → u ≤ fb_max (budget w) →
  frame_inv (mkWorld (mkBudget (fb_max (budget w)) u) (<[i:=c']> (conns w)) (panicked w)).
Proof.
  intros [Hm Hu Hb Hc Hp] Hi Hok -> Hle. split; simpl; [done| |done| |done].
  - rewrite sum_map_insert, Hi. simpl. lia.
  - by apply map_Forall_insert_2.
Qed.

Lemma frame_inv_same w i c c' :
  frame_inv w → conns w !! i = Some c → conn_ok (fb_max (budget w)) c' →
  charge c' = charge c → frame_inv (set_conn w i c').
Proof.
  intros H Hi Hok Hc.
  pose proof (frame_inv_update w i c c' (fb_used (budget w)) H Hi Hok) as H'.
  unfold set_conn. destruct w as [[]]; simpl in *. apply H'; [lia|apply H].
Qed.

Lemma frame_inv_connect w i :
  frame_inv w → conns w !! i = None → frame_inv (set_conn w i (mkConnState 0 Idle [])).
Proof.
  intros [Hm Hu Hb Hc Hp] Hi. split; simpl; [done| |done| |done].
  - rewrite sum_map_insert_new by done.
    assert (charge (mkConnState 0 Idle []) = 0) as -> by done. lia.
  - apply map_Forall_insert_2; [|done]. unfold conn_ok; simpl. auto with lia.
Qed.

Lemma frame_inv_release w i c l1 n l2 :
  frame_inv w → conns w !! i = Some c → owed c = l1 ++ n :: l2 →
  frame_inv
    (match release n (budget w) with
     | Some b => mkWorld b (<[i:=mkConnState (held c) (phase c) (l1 ++ l2)]> (conns w)) (panicked w)
     | None => mkWorld (budget w) (conns w) true
     end).
Proof.
  intros H Hi Ho.
  pose proof (frame_inv_charge w i c H Hi) as Hc.
  pose proof (fi_conns w H i c Hi) as (Hh & Hf & Hp).
  pose proof (fi_bound w H) as Hb. pose proof (fi_max w H) as Hm.
  rewrite Ho in Hf. apply Forall_app in Hf as [Hf1 Hf2].
  apply Forall_cons in Hf2 as [Hn Hf2].
  pose proof (sumZ_nonneg _ Hf1). pose proof (sumZ_nonneg _ Hf2).
  assert (0 ≤ held c + phase_extra (held c) (phase c)) as Hhp
    by (destruct (phase c); simpl in *; lia).
  assert (charge c = held c + phase_extra (held c) (phase c) + (sumZ l1 + n + sumZ l2)) as Hch.
  { unfold charge. rewrite Ho, sumZ_app, sumZ_cons. lia. }
  set (c' := mkConnState (held c) (phase c) (l1 ++ l2)).
  assert (charge c' = charge c - n) as Hch'.
  { rewrite Hch. unfold charge, c'; simpl. rewrite sumZ_app. lia. }
  assert (conn_ok (fb_max (budget w)) c') as Hok.
  { split; [done|]. split; [by apply Forall_app|done]. }
  unfold release. destruct (n =? 0) eqn:En; bool_facts.
  - apply (frame_inv_same w i c c' H Hi Hok). lia.
  - unwrap64. replace (fb_used (budget w) - n <? 0) with false by (symmetry; apply Z.ltb_ge; lia).
    apply (frame_inv_update w i c c'); auto; lia.
Qed.

Lemma growTarget_gt b cur wire plain target :
  0 < fb_max b ≤ max_int64 → 0 ≤ cur →
  growTarget b cur wire plain = OK target → 0 < target ≤ fb_max b.
Proof.
  intros Hm Hcur. unfold growTarget.
  destruct (_ || _) eqn:E; [done|]. bool_facts. unwrap64. intros [= <-]. lia.
Qed.

Lemma frame_inv_step w w' : frame_step w w' → frame_inv w → frame_inv w'.
Proof.
  intros Hs H. pose proof (fi_max w H) as Hm. pose proof (fi_bound w H) as Hb.
  destruct Hs as
    [i Hi | i c wire plain target Hi Hp Ht Hlt | i c target n Hi Hp | i c target n used e Hi Hp Ha
    | i c target n used u Hi Hp Ha Hne | i c target n used u Hi Hp Ha He | i c target Hi Hp
    | i c n Hi Hp Hn | i c l1 n l2 Hi Ho];
    try (by eapply frame_inv_release || by apply frame_inv_connect);
    pose proof (fi_conns w H i c Hi) as (Hh & Hf & Hph);
    pose proof (frame_inv_charge w i c H Hi) as Hch;
    rewrite Hp in Hph; simpl in Hph.
  - apply growTarget_gt in Ht; [|done|lia]. unwrap64.
    apply (frame_inv_same w i c); [done..| |unfold charge; rewrite Hp; done].
    unfold conn_ok; simpl. auto with lia.
  - apply (frame_inv_same w i c); [done..| |unfold charge; rewrite Hp; done].
    unfold conn_ok; simpl. auto with lia.
  - apply (frame_inv_same w i c); [done..| |unfold charge; rewrite Hp; done].
    unfold conn_ok; simpl. auto with lia.
  - apply (frame_inv_same w i c); [done..| |unfold charge; rewrite Hp; done].
    unfold conn_ok; simpl. intuition lia.
  - apply growAttempt_OK in Ha as [Hle ->]; [|lia..].
    apply (frame_inv_update w i c); [done..| | |lia].
    + unfold conn_ok; simpl. intuition lia.
    + unfold charge; rewrite Hp; simpl. lia.
  - apply (frame_inv_same w i c); [done..| |unfold charge; rewrite Hp; simpl; lia].
    unfold conn_ok; simpl. intuition lia.
  - unwrap64. apply (frame_inv_same w i c); [done..| |].
    + unfold conn_ok; simpl. rewrite Forall_app, Forall_singleton. intuition lia.
    + unfold charge; rewrite Hp; simpl. rewrite sumZ_app, sumZ_cons; simpl. lia.
Qed.

Lemma newInboundFrameBudget_max max :
  max ≤ max_int64 → 0 < fb_max (newInboundFrameBudget max) ≤ max_int64.
Proof.
  unfold newInboundFrameBudget; simpl. destruct (max <=? 0) eqn:E; bool_facts; [|lia].
  intros _. vm_compute. split; congruence.
Qed.

(** C1: whatever the interleaving of connections that grow, retry, shrink and
    release reservations, the counter is exactly the sum of what they hold or
    are giving back, it never leaves [0, max], and the "released more than
    reserved" panic is unreachable. *)
Theorem frame_interleaving_safe (max : Z) (w : frameWorld)
    (Hmax : max ≤ max_int64)
    (Hreach : rtc frame_step (mkWorld (newInboundFrameBudget max) ∅ false) w) :
  panicked w = false ∧
  fb_used (budget w) = sum_map charge (conns w) ∧
  0 ≤ fb_used (budget w) ≤ fb_max (budget w) ∧
  (map_Forall (λ _ c, phase c = Idle ∧ owed c = []) (conns w) →
   fb_used (budget w) = sum_map held (conns w)).
Proof.
  assert (frame_inv w) as H.
  { eapply (rtc_invariant frame_step frame_inv); [|shelve|exact Hreach].
    intros x y ?. by apply frame_inv_step.
    Unshelve. unfold newInboundFrameBudget.
    split; simpl; [| | |apply map_Forall_empty|done].
    - by apply newInboundFrameBudget_max.
    - by rewrite sum_map_empty.
    - pose proof (newInboundFrameBudget_max max Hmax). unfold newInboundFrameBudget in *.
      simpl in *. lia. }
  split; [apply H|]. split; [apply H|]. split.
  - split; [|apply H]. rewrite (fi_used w H). apply sum_map_nonneg.
    intros i c Hi. by eapply charge_nonneg, (fi_conns w H).
  - intros Hq. rewrite (fi_used w H). apply sum_map_ext. intros i c Hi.
    destruct (Hq i c Hi) as [Hp Ho]. unfold charge. rewrite Hp, Ho. simpl. lia.
Qed.

(** The sequential operation is the loop without interference. *)
Lemma growReservation_steps w i c wire plain n b' :
  conns w !! i = Some c → phase c = Idle →
  growReservation (budget w) (held c) wire plain = (OK n, b') →
  rtc frame_step w (mkWorld b' (<[i:=mkConnState n Idle (owed c)]> (conns w)) (panicked w)).
Proof.
  intros Hi Hp. unfold growReservation.
  destruct (growTarget _ _ _ _) as [target|e] eqn:Et; [|done].
  destruct (target <=? held c) eqn:Ec; bool_facts.
  - intros [= <- <-]. destruct c as [h p o]; simpl in *; subst p.
    rewrite insert_id by done. destruct w; apply rtc_refl.
  - destruct (growAttempt _ _ _) as [u|e] eqn:Ea; [|done]. intros [= <- <-].
    eapply rtc_l; [by eapply (step_grow w i c)|].
    eapply rtc_l; [eapply (step_load _ i); [apply lookup_insert_eq|done]|].
    eapply rtc_l; [eapply (step_cas_ok _ i); simpl; [apply lookup_insert_eq|done|done|done]|].
    eapply rtc_l; [eapply (step_held _ i); simpl; [apply lookup_insert_eq|done]|].
    simpl. unfold set_conn; simpl. rewrite !insert_insert_eq. apply rtc_refl.
Qed.

Definition demoWorld : frameWorld :=
  mkWorld (mkBudget 1000 150) {[ 0%nat := mkConnState 100 Idle [50] ]} false.

Lemma frame_interleaving_safe_witness :
  panicked demoWorld = false ∧
  fb_used (budget demoWorld) = sum_map charge (conns demoWorld) ∧
  0 ≤ fb_used (budget demoWorld) ≤ fb_max (budget demoWorld) ∧
  (map_Forall (λ _ c, phase c = Idle ∧ owed c = []) (conns demoWorld) →
   fb_used (budget demoWorld) = sum_map held (conns demoWorld)).
Proof.
  apply (frame_interleaving_safe 1000 demoWorld).
  - vm_compute. discriminate.
  - eapply rtc_l; [apply (step_connect _ 0%nat); reflexivity|].
    etrans.
    + eapply (growReservation_steps _ 0%nat _ 75 75); reflexivity.
    + eapply rtc_l; [eapply (step_shrink _ 0%nat _ 100); [reflexivity..|vm_compute; split; congruence]|].
      apply rtc_refl.
Defined.

(** * Prefix parsing *)

(** The reservation callback of an arbitrary budget: it logs the announced sizes
    and answers by the oracle. *)
Definition oracleReserve (oracle : Z → Z → bool) (wire plain : Z) (log : list (Z * Z))
    : res frameErr () * list (Z * Z) :=
  (if oracle wire plain then OK tt else ERR ErrInboundFrameBudgetExceeded, log ++ [(wire, plain)]).

(** A codec pulling bytes through the reader until one [Read] fails. *)
Fixpoint runReads (oracle : Z → Z → bool) (reads : list (nat * nat)) (r : preflightReader)
    (log : list (Z * Z)) (acc : list Z) : list Z * preflightReader * list (Z * Z) * option frameErr :=
  match reads with
  | [] => (acc, r, log, None)
  | (plen, avail) :: reads' =>
      match Read (oracleReserve oracle) r plen avail log with
      | (OK bs, r', log') => runReads oracle reads' r' log' (acc ++ bs)
      | (ERR e, r', log') => (acc, r', log', Some e)
      end
  end.

Definition bounded_reserve (wp : Z * Z) : Prop :=
  0 < wp.1 ≤ maxTransportMessageSize ∧ 0 ≤ wp.2 ≤ wp.1.

Definition read_inv (oracle : Z → Z → bool) (r : preflightReader) (log : list (Z * Z))
    (acc : list Z) : Prop :=
  if rd_done r then ∃ wp, log = [wp] ∧ oracle wp.1 wp.2 = true ∧ bounded_reserve wp
  else log = [] ∧ length acc = (if rd_firstDelivered r then 1 else 0)%nat.

Definition failed_inv (oracle : Z → Z → bool) (r : preflightReader) (log : list (Z * Z))
    (acc : list Z) : Prop :=
  rd_done r = false ∧ (length acc ≤ 1)%nat ∧
  (log = [] ∨ ∃ wp, log = [wp] ∧ oracle wp.1 wp.2 = false ∧ bounded_reserve wp).

Lemma reserveCompatFrame_cases oracle wire plain log r log' :
  reserveCompatFrame (oracleReserve oracle) wire plain log = (r, log') →
  (0 < wire → 0 ≤ plain ≤ wire) →
  (∃ e, r = ERR e ∧ log' = log) ∨
  (bounded_reserve (wire, plain) ∧ log' = log ++ [(wire, plain)] ∧
   (oracle wire plain = true ∧ r = OK tt ∨
    oracle wire plain = false ∧ r = ERR ErrInboundFrameBudgetExceeded)).
Proof.
  unfold reserveCompatFrame, oracleReserve, bounded_reserve. intros Hr Hp.
  destruct (_ || _) eqn:E; bool_facts; simplify_eq; [eauto|right].
  simpl. split; [lia|]. split; [done|]. destruct (oracle wire plain); auto.
Qed.

(** What one [Read] before the end of the prefix leads to. *)
Definition read_outcome oracle (r' : preflightReader) log' acc (o : res frameErr (list Z)) : Prop :=
  match o with
  | OK bs => read_inv oracle r' log' (acc ++ bs)
  | ERR _ => failed_inv oracle r' log' acc
  end.

Lemma readFull_spec n input bs rest :
  readFull n input = OK (bs, rest) → length bs = n ∧ input = bs ++ rest.
Proof.
  unfold readFull. destruct (decide _) as [H|]; [|by destruct input].
  intros [= <- <-]. rewrite length_take, take_drop. split; [lia|done].
Qed.

Lemma reserve_outcome oracle wire plain log' o acc :
  (0 < wire → 0 ≤ plain ≤ wire) → (length acc ≤ 1)%nat →
  reserveCompatFrame (oracleReserve oracle) wire plain [] = (o, log') →
  match o with
  | ERR e => ∀ kind first rest, failed_inv oracle (mkReader kind first false rest) log' acc
  | OK _ => ∀ kind first rest bs, read_inv oracle (mkReader kind first true rest) log' (acc ++ bs)
  end.
Proof.
  intros Hp Ha Hr. apply reserveCompatFrame_cases in Hr as [(e & -> & ->)|(Hb & -> & Hc)]; [| |done].
  - intros. split; [done|]. eauto.
  - destruct Hc as [[Ho ->]|[Ho ->]]; simpl; intros.
    + by exists (wire, plain).
    + split; [done|]. split; [done|]. right. by exists (wire, plain).
Qed.

Lemma readAbridged_outcome oracle q r plen acc o r' log' :
  rd_done r = false → read_inv oracle r [] acc →
  readAbridgedPrefix (oracleReserve oracle) q r plen [] = (o, r', log') →
  read_outcome oracle r' log' acc o.
Proof.
  unfold read_inv. destruct r as [kind first done' input]; simpl. intros -> [_ Hlen].
  assert (length acc ≤ 1)%nat as Ha by (destruct first; lia).
  unfold readAbridgedPrefix; simpl. destruct first; simpl.
  - destruct (readFull 3 input) as [[tail rest]|e] eqn:Er; [|intros [= <- <- <-]; split; eauto].
    destruct (reserveCompatFrame _ _ _ _) as [[?|?] l] eqn:Ec; intros [= <- <- <-];
      (eapply reserve_outcome in Ec; [apply Ec|intros; split; [lia|done]|exact Ha]).
  - destruct (readFull 1 input) as [[f rest]|e] eqn:Er; [|intros [= <- <- <-]; split; eauto].
    destruct (if q then _ else _) eqn:Ex.
    + intros [= <- <- <-]. unfold read_outcome, read_inv; simpl.
      rewrite length_app; simpl. split; [done|lia].
    + destruct (reserveCompatFrame _ _ _ _) as [[?|?] l] eqn:Ec; intros [= <- <- <-];
        (eapply reserve_outcome in Ec; [apply Ec|intros; split; [lia|done]|exact Ha]).
Qed.

Lemma readWord_outcome oracle full r plen acc o r' log' :
  rd_done r = false → read_inv oracle r [] acc →
  readWordPrefix (oracleReserve oracle) full r plen [] = (o, r', log') →
  read_outcome oracle r' log' acc o.
Proof.
  unfold read_inv. destruct r as [kind first done' input]; simpl. intros -> [_ Hlen].
  assert (length acc ≤ 1)%nat as Ha by (destruct first; lia).
  unfold readWordPrefix; simpl.
  destruct (readFull 4 input) as [[h rest]|e] eqn:Er; [|intros [= <- <- <-]; split; eauto].
  destruct (full && _) eqn:Ef; [intros [= <- <- <-]; split; eauto|].
  assert (let wire := if full then uint32LE h else Z.ldiff (uint32LE h) quickAckResponseFlag in
          let plain := if full then uint32LE h -₆₄ 3 * Word else wire in
          0 < wire → 0 ≤ plain ≤ wire) as Hp.
  { change (3 * Word) with 12 in *. change maxTransportMessageSize with 16777216 in *.
    destruct full; simpl in *; [|lia]. intros _. bool_facts. unwrap64. lia. }
  destruct (reserveCompatFrame _ _ _ _) as [[?|?] l] eqn:Ec; intros [= <- <- <-];
    (eapply reserve_outcome in Ec; [apply Ec|exact Hp|exact Ha]).
Qed.

Lemma Read_outcome oracle r plen avail log acc o r' log' :
  read_inv oracle r log acc →
  Read (oracleReserve oracle) r plen avail log = (o, r', log') →
  read_outcome oracle r' log' acc o.
Proof.
  intros Hinv. unfold Read. destruct (decide (plen = 0%nat)).
  { intros [= <- <- <-]. simpl. by rewrite app_nil_r. }
  destruct (rd_done r) eqn:Ed.
  - intros [= <- <- <-]. simpl. unfold read_inv in *. simpl. by rewrite Ed in *.
  - assert (log = []) as -> by (unfold read_inv in Hinv; rewrite Ed in Hinv; tauto).
    destruct (rd_kind r) eqn:Ek;
      try (by apply readAbridged_outcome); try (by apply readWord_outcome);
      intros [= <- <- <-]; (split; [done|]); unfold read_inv in Hinv; rewrite Ed in Hinv;
      (split; [destruct (rd_firstDelivered r); lia|auto]).
Qed.

(** no payload byte reaches a codec before its frame is paid for.  After any
    sequence of reads, either the prefix is complete and exactly one reservation
    was made, granted, and within the bounds (0 < wire <= 2^24, 0 <= plaintext
    <= wire); or at most one prefix byte has been exposed and every reservation
    asked for (at most one) was refused. *)
Theorem preflight_reserves_before_payload (oracle : Z → Z → bool) (kind : inboundFrameCodecKind)
    (input : list Z) (reads : list (nat * nat)) :
  let '(delivered, r, log, err) := runReads oracle reads (mkReader kind false false input) [] [] in
  if rd_done r
  then ∃ wp, log = [wp] ∧ oracle wp.1 wp.2 = true ∧ bounded_reserve wp
  else (length delivered ≤ 1)%nat ∧
       (log = [] ∨ ∃ wp, log = [wp] ∧ oracle wp.1 wp.2 = false ∧ bounded_reserve wp).
Proof.
  assert (∀ r log acc, read_inv oracle r log acc →
    let '(delivered, r, log, err) := runReads oracle reads r log acc in
    if rd_done r
    then ∃ wp, log = [wp] ∧ oracle wp.1 wp.2 = true ∧ bounded_reserve wp
    else (length delivered ≤ 1)%nat ∧
         (log = [] ∨ ∃ wp, log = [wp] ∧ oracle wp.1 wp.2 = false ∧ bounded_reserve wp)) as Hgen.
  { induction reads as [|[plen avail] reads IH]; intros r log acc Hinv; simpl.
    - unfold read_inv in Hinv. destruct (rd_done r); [done|].
      destruct Hinv as [-> Hl]. split; [destruct (rd_firstDelivered r); lia|auto].
    - destruct (Read _ _ _ _ _) as [[[bs|e] r'] log'] eqn:Er;
        eapply Read_outcome in Er; try exact Hinv.
      + by apply (IH r').
      + destruct Er as (-> & ? & ?). done. }
  apply Hgen. done.
Qed.

Lemma uint32LE_le_bytes z : 0 ≤ z < 2 ^ 32 → uint32LE (le_bytes 4 z) = z.
Proof.
  intros Hz. unfold uint32LE. simpl.
  rewrite (lor_shiftl_add (z mod 256)) by (simpl; pose proof (Z.mod_pos_bound z 256); lia).
  rewrite (lor_shiftl_add _ _ 16)
    by (change (2 ^ 16) with 65536; change (2 ^ 8) with 256; Z.to_euclidean_division_equations; lia).
  rewrite (lor_shiftl_add _ _ 24)
    by (change (2 ^ 16) with 65536; change (2 ^ 8) with 256; change (2 ^ 24) with 16777216;
        Z.to_euclidean_division_equations; lia).
  change (2 ^ 16) with 65536; change (2 ^ 8) with 256; change (2 ^ 24) with 16777216.
  change (2 ^ 32) with 4294967296 in Hz.
  Z.to_euclidean_division_equations; lia.
Qed.

Lemma uint24_le_bytes z :
  0 ≤ z < 2 ^ 24 →
  let b := le_bytes 3 z in
  Z.lor (Z.lor (b !!! 0%nat) (Z.shiftl (b !!! 1%nat) 8)) (Z.shiftl (b !!! 2%nat) 16) = z.
Proof.
  intros Hz. simpl.
  rewrite (lor_shiftl_add (z mod 256)) by (simpl; pose proof (Z.mod_pos_bound z 256); lia).
  rewrite (lor_shiftl_add _ _ 16)
    by (change (2 ^ 16) with 65536; change (2 ^ 8) with 256; Z.to_euclidean_division_equations; lia).
  change (2 ^ 16) with 65536; change (2 ^ 8) with 256. change (2 ^ 24) with 16777216 in Hz.
  Z.to_euclidean_division_equations; lia.
Qed.

Lemma readFull_app n bs rest : length bs = n → readFull n (bs ++ rest) = OK (bs, rest).
Proof.
  intros <-. unfold readFull. rewrite decide_True by (rewrite length_app; lia).
  by rewrite take_app_length, drop_app_length.
Qed.

Lemma readFull_1 b rest : readFull 1 (b :: rest) = OK ([b], rest).
Proof. unfold readFull. rewrite decide_True by (simpl; lia). done. Qed.

Lemma reserveCompatFrame_ok oracle wire plain log :
  0 < wire ≤ maxTransportMessageSize → oracle wire plain = true →
  reserveCompatFrame (oracleReserve oracle) wire plain log = (OK tt, log ++ [(wire, plain)]).
Proof.
  intros Hw Ho. unfold reserveCompatFrame, oracleReserve.
  replace (_ || _) with false; [by rewrite Ho|].
  symmetry. apply orb_false_iff. rewrite Z.leb_gt, Z.ltb_ge. lia.
Qed.

(** The wire form of the length prefix of each built-in framing, for a payload of
    [n] bytes ([n] a multiple of four where the framing counts words); [quick]
    is the quick-ack request flag. *)
Definition framePrefix (kind : inboundFrameCodecKind) (quick : Z) (n : Z) : list Z :=
  match kind with
  | CodecAbridged => if n / 4 <? 127 then [n / 4] else 127 :: le_bytes 3 (n / 4)
  | CodecQuickAckAbridged =>
      if n / 4 <? 127 then [n / 4 + 128 * quick] else (127 + 128 * quick) :: le_bytes 3 (n / 4)
  | CodecIntermediate | CodecPaddedIntermediate => le_bytes 4 (n + quick * 2 ^ 31)
  | CodecFull => le_bytes 4 (n + 12)
  | _ => []
  end.

(** What a frame of [n] payload bytes must be charged: wire and plaintext. *)
Definition frameCharge (kind : inboundFrameCodecKind) (n : Z) : Z * Z :=
  match kind with CodecFull => (n + 12, n) | _ => (n, n) end.

Lemma read_word_prefix oracle kind full n q rest plen :
  0 ≤ q < 2 → (full = true → q = 0) →
  let header := if full then n + 12 else n in
  0 < header ≤ maxTransportMessageSize → 0 ≤ n → oracle header n = true →
  readWordPrefix (oracleReserve oracle) full
    (mkReader kind false false
       (le_bytes 4 (header + q * 2 ^ 31) ++ rest)) plen [] =
  (OK (take plen (le_bytes 4 (header + q * 2 ^ 31))),
   mkReader kind false true rest, [(header, n)]).
Proof.
  intros Hq Hf header Hh Hn Ho. unfold readWordPrefix. cbn [rd_input].
  change maxTransportMessageSize with 16777216 in *.
  rewrite readFull_app by apply le_bytes_length.
  rewrite uint32LE_le_bytes by (subst header; change (2 ^ 31) with 2147483648;
    change (2 ^ 32) with 4294967296; destruct full; lia).
  cbn [rd_kind rd_firstDelivered rd_done].
  change (3 * Word) with 12. change quickAckResponseFlag with (Z.shiftl 1 31).
  rewrite ldiff_flag by (change (2 ^ 31) with 2147483648; lia).
  replace (full && _) with false.
  2:{ symmetry. destruct full; simpl; [|done]. rewrite Hf by done. subst header.
      apply orb_false_iff. rewrite !Z.ltb_ge. change maxTransportMessageSize with 16777216. lia. }
  destruct full; subst header; [rewrite Hf by done; rewrite Z.mul_0_l, Z.add_0_r; unwrap64;
    replace (n + 12 - 12) with n by lia|];
    by rewrite reserveCompatFrame_ok.
Qed.

Lemma read_abridged_short oracle (q : bool) n b0 rest kind plen :
  0 ≤ b0 → (if q then Z.land b0 127 else b0) = n →
  0 < n < 127 → oracle (n * 4) (n * 4) = true →
  (if q then Z.land b0 127 =? 127 else 127 <=? b0) = false →
  readAbridgedPrefix (oracleReserve oracle) q (mkReader kind false false (b0 :: rest)) plen [] =
  (OK [b0], mkReader kind true true rest, [(n * 4, n * 4)]).
Proof.
  intros Hb Hn Hr Ho Hx. unfold readAbridgedPrefix. cbn [rd_firstDelivered rd_input rd_kind rd_done negb].
  rewrite readFull_1. cbn [head default].
  change (id b0) with b0. change Word with 4.
  destruct q; cbv zeta iota; rewrite Hx, ?Hn; subst; unwrap64;
    (rewrite reserveCompatFrame_ok; [done|change maxTransportMessageSize with 16777216; lia|done]).
Qed.

Lemma read_abridged_long oracle (q : bool) n b0 rest kind plen :
  0 < n < 2 ^ 24 → n * 4 ≤ maxTransportMessageSize → oracle (n * 4) (n * 4) = true →
  (if q then Z.land b0 127 =? 127 else 127 <=? b0) = true →
  ∃ r1, readAbridgedPrefix (oracleReserve oracle) q
          (mkReader kind false false (b0 :: le_bytes 3 n ++ rest)) plen [] = (OK [b0], r1, []) ∧
        rd_kind r1 = kind ∧ rd_done r1 = false ∧
        readAbridgedPrefix (oracleReserve oracle) q r1 plen [] =
        (OK (take plen (le_bytes 3 n)), mkReader kind true true rest, [(n * 4, n * 4)]).
Proof.
  intros Hn Hm Ho Hx. eexists. split_and!.
  - unfold readAbridgedPrefix. cbn [rd_firstDelivered rd_input rd_kind rd_done negb].
    rewrite readFull_1. cbn [head default].
    change (id b0) with b0. destruct q; cbv zeta iota; by rewrite Hx.
  - done.
  - done.
  - unfold readAbridgedPrefix. cbn [rd_firstDelivered rd_input rd_kind rd_done negb].
    rewrite readFull_app by apply le_bytes_length.
    rewrite uint24_le_bytes by lia. change (2 ^ 24) with 16777216 in Hn. change Word with 4. unwrap64.
    rewrite reserveCompatFrame_ok; [done|lia|done].
Qed.

Ltac big_lia :=
  change maxTransportMessageSize with 16777216 in *; change (2 ^ 24) with 16777216 in *; lia.

Definition builtin (kind : inboundFrameCodecKind) : Prop :=
  kind ≠ CodecUnknown ∧ kind ≠ CodecCustom.

(** The quick-ack flag exists in the framings that carry it. *)
Definition quick_ok (kind : inboundFrameCodecKind) (q : Z) : Prop :=
  match kind with CodecAbridged | CodecFull => q = 0 | _ => 0 ≤ q < 2 end.

Lemma land_127 n q : 0 ≤ n < 128 → 0 ≤ q → Z.land (n + 128 * q) 127 = n.
Proof.
  intros Hn Hq. change 127 with (Z.ones 7). rewrite Z.land_ones by lia.
  change (2 ^ 7) with 128. rewrite Z.mul_comm, Z.mod_add by lia. by apply Z.mod_small.
Qed.

(** The prefix step [Read] takes on an unfinished reader. *)
Definition prefixRead (oracle : Z → Z → bool) (r : preflightReader) (plen : nat) :=
  match rd_kind r with
  | CodecQuickAckAbridged => readAbridgedPrefix (oracleReserve oracle) true r plen
  | CodecAbridged => readAbridgedPrefix (oracleReserve oracle) false r plen
  | CodecFull => readWordPrefix (oracleReserve oracle) true r plen
  | _ => readWordPrefix (oracleReserve oracle) false r plen
  end.

Lemma Read_prefix oracle r plen avail log :
  (0 < plen)%nat → rd_done r = false → builtin (rd_kind r) →
  Read (oracleReserve oracle) r plen avail log = prefixRead oracle r plen log.
Proof.
  intros Hp Hd [Hk1 Hk2]. unfold Read, prefixRead. rewrite decide_False by lia. rewrite Hd.
  by destruct (rd_kind r).
Qed.

Lemma Read_done oracle r plen log :
  rd_done r = true → Read (oracleReserve oracle) r plen 0 log = (OK [], r, log).
Proof.
  intros Hd. unfold Read. destruct (decide _); [done|]. rewrite Hd, Nat.min_0_r.
  destruct r; simpl in *. by subst.
Qed.

Lemma runReads_whole oracle r plen bs kind first rest log :
  (0 < plen)%nat → (rd_done r = false ∧ builtin (rd_kind r)) →
  prefixRead oracle r plen [] = (OK bs, mkReader kind first true rest, log) →
  ∃ delivered fst, runReads oracle [(plen, 0%nat); (plen, 0%nat)] r [] [] =
                   (delivered, mkReader kind fst true rest, log, None).
Proof.
  intros Hp [Hd Hb] Hr. cbn [runReads]. rewrite Read_prefix, Hr by done.
  rewrite Read_done by done. eauto.
Qed.

Lemma runReads_halves oracle r r1 plen bs bs' kind first rest log :
  (0 < plen)%nat → (rd_done r = false ∧ builtin (rd_kind r)) →
  prefixRead oracle r plen [] = (OK bs, r1, []) → rd_done r1 = false → rd_kind r1 = rd_kind r →
  prefixRead oracle r1 plen [] = (OK bs', mkReader kind first true rest, log) →
  ∃ delivered fst, runReads oracle [(plen, 0%nat); (plen, 0%nat)] r [] [] =
                   (delivered, mkReader kind fst true rest, log, None).
Proof.
  intros Hp [Hd Hb] Hr Hd1 Hk Hr1. cbn [runReads]. rewrite Read_prefix, Hr by done.
  rewrite Read_prefix, Hr1 by (done || congruence). eauto.
Qed.

(** For every built-in framing, every admissible payload length and either
    quick-ack flag, reading the length prefix that announces the payload charges
    exactly the frame's wire and plaintext bytes, once, and consumes exactly the
    prefix: the first payload byte is the next one read. *)
Theorem framing_charge_roundtrip (oracle : Z → Z → bool) (kind : inboundFrameCodecKind)
    (q n : Z) (rest : list Z) (plen : nat)
    (Hkind : builtin kind) (Hq : quick_ok kind q) (Hn : 0 < n) (Hword : n mod 4 = 0)
    (Hmax : (frameCharge kind n).1 ≤ maxTransportMessageSize) (Hplen : (0 < plen)%nat)
    (Ho : oracle (frameCharge kind n).1 (frameCharge kind n).2 = true) :
  ∃ delivered first,
    runReads oracle [(plen, 0%nat); (plen, 0%nat)]
      (mkReader kind false false (framePrefix kind q n ++ rest)) [] [] =
    (delivered, mkReader kind first true rest, [frameCharge kind n], None).
Proof.
  assert (n / 4 * 4 = n) as H4 by (Z.to_euclidean_division_equations; lia).
  assert (0 < n / 4) as Hpos by lia.
  destruct Hkind as [Hk1 Hk2]. change maxTransportMessageSize with 16777216 in Hmax.
  destruct kind; try done; cbn [quick_ok frameCharge fst snd] in *; unfold framePrefix.
  - (* quick-ack abridged *)
    destruct (n / 4 <? 127) eqn:E; bool_facts; simpl app.
    + eapply runReads_whole; [done|done|]. unfold prefixRead; cbn [rd_kind].
      rewrite (read_abridged_short oracle true (n / 4))
        by (rewrite ?land_127, ?H4 by lia; (done || lia || (apply Z.eqb_neq; lia))).
      by rewrite H4.
    + destruct (read_abridged_long oracle true (n / 4) (127 + 128 * q) rest CodecQuickAckAbridged plen)
        as (r1 & Hr & Hk & Hd & Hr'); rewrite ?land_127, ?H4 by lia; try (done || big_lia).
      rewrite H4 in Hr'. eapply runReads_halves; [done|done|exact Hr|done|by rewrite Hk|].
      unfold prefixRead. rewrite Hk. exact Hr'.
  - (* abridged *)
    destruct (n / 4 <? 127) eqn:E; bool_facts; simpl app.
    + eapply runReads_whole; [done|done|]. unfold prefixRead; cbn [rd_kind].
      rewrite (read_abridged_short oracle false (n / 4))
        by (rewrite ?H4 by lia; (done || lia || (apply Z.leb_gt; lia))).
      by rewrite H4.
    + destruct (read_abridged_long oracle false (n / 4) 127 rest CodecAbridged plen)
        as (r1 & Hr & Hk & Hd & Hr'); rewrite ?H4 by lia; try (done || big_lia).
      rewrite H4 in Hr'. eapply runReads_halves; [done|done|exact Hr|done|by rewrite Hk|].
      unfold prefixRead. rewrite Hk. exact Hr'.
  - eapply runReads_whole; [done|done|]. unfold prefixRead; cbn [rd_kind].
    by rewrite (read_word_prefix oracle _ false n q) by (done || big_lia).
  - eapply runReads_whole; [done|done|]. unfold prefixRead; cbn [rd_kind].
    by rewrite (read_word_prefix oracle _ false n q) by (done || big_lia).
  - eapply runReads_whole; [done|done|]. unfold prefixRead; cbn [rd_kind].
    replace (n + 12) with (n + 12 + 0 * 2 ^ 31) at 1 by lia.
    by rewrite (read_word_prefix oracle _ true n 0) by (done || big_lia).
Qed.

Lemma framing_charge_roundtrip_witness :
  (frameCharge CodecFull 400).1 ≤ maxTransportMessageSize ∧
  ∃ delivered first,
    runReads (λ _ _, true) [(4%nat, 0%nat); (4%nat, 0%nat)]
      (mkReader CodecFull false false (framePrefix CodecFull 0 400 ++ [7; 8])) [] [] =
    (delivered, mkReader CodecFull first true [7; 8], [(412, 400)], None).
Proof.
  split; [vm_compute; congruence|].
  apply (framing_charge_roundtrip (λ _ _, true) CodecFull 0 400 [7; 8] 4%nat);
    try done; vm_compute; congruence || lia.
Defined.

(** * Receiving a frame *)

(** What every operation of a connection keeps of the counter. *)
Definition conn_accounts (c : frameConn) (b : inboundFrameBudget) (c' : frameConn)
    (b' : inboundFrameBudget) : Prop :=
  budget_wf b' ∧ 0 ≤ heldFrameBytes c' ≤ fb_used b' ∧
  fb_used b' - heldFrameBytes c' = fb_used b - heldFrameBytes c.

Lemma reserveInboundFrame_accounts w p c b r c' b' :
  budget_wf b → 0 ≤ heldFrameBytes c ≤ fb_used b → in_int64 w → in_int64 p →
  reserveInboundFrame w p c b = (r, c', b') →
  conn_accounts c b c' b' ∧ closed c' = closed c ∧
  (r = OK tt → 0 < w ∧ 0 ≤ p ∧ w + p ≤ heldFrameBytes c').
Proof.
  intros Hwf Hh Hw Hp. unfold reserveInboundFrame, conn_accounts.
  destruct (closed c) eqn:Ecl.
  { intros [= <- <- <-]. split_and!; auto; try lia; done. }
  pose proof Hwf as [Hm Hu].
  rewrite growReservation_spec; [|done..|solve_int64].
  case_bool_decide as Hd; intros [= <- <- <-]; simpl.
  - unfold budget_wf; simpl. split_and!; try (done || lia).
  - split_and!; auto; try lia; done.
Qed.

Lemma release_exact n b :
  budget_wf b → 0 ≤ n ≤ fb_used b →
  release n b = Some (mkBudget (fb_max b) (fb_used b - n)).
Proof.
  intros [Hm Hu] Hn. unfold release. destruct (n =? 0) eqn:E; bool_facts.
  - subst. rewrite Z.sub_0_r. by destruct b.
  - unwrap64. replace (fb_used b - n <? 0) with false by (symmetry; apply Z.ltb_ge; lia). done.
Qed.

Definition closure_ok (calls : list (Z * Z)) (k : reserveClosure) (c : frameConn) : Prop :=
  reserveCalls k = length calls ∧
  (reserveErr k = None → reserved k = true → reserveCalls k = 1%nat →
   ∃ w p, calls = [(w, p)] ∧ 0 < w ∧ 0 ≤ p ∧ w + p ≤ heldFrameBytes c).

Lemma runReserves_accounts calls c b :
  budget_wf b → 0 ≤ heldFrameBytes c ≤ fb_used b →
  Forall (λ wp, in_int64 wp.1 ∧ in_int64 wp.2) calls →
  let '(k, c', b') := runReserves calls (mkClosure 0 false None, c, b) in
  conn_accounts c b c' b' ∧ closed c' = closed c ∧ closure_ok calls k c'.
Proof.
  intros Hwf Hh. induction calls as [|[w p] calls IH] using rev_ind; intros Hc.
  { simpl. unfold conn_accounts, closure_ok. simpl. split_and!; auto; lia. }
  apply Forall_app in Hc as [Hc Hwp]. rewrite Forall_singleton in Hwp. specialize (IH Hc).
  unfold runReserves in *. rewrite foldl_app. simpl.
  destruct (foldl _ _ calls) as [[k c1] b1].
  destruct IH as ((Hwf1 & Hh1 & Hd1) & Hcl1 & Hlen & Hok). simpl in Hwp.
  unfold reserveOnce. destruct (decide (S (reserveCalls k) ≠ 1%nat)) as [Hne|He]; simpl.
  - unfold conn_accounts, closure_ok; simpl. rewrite length_app; simpl. split_and!; auto; lia || done.
  - assert (reserveCalls k = 0%nat) as H0 by lia.
    assert (calls = []) as -> by (apply length_zero_iff_nil; lia).
    destruct (reserveInboundFrame w p c1 b1) as [[r c2] b2] eqn:Er.
    apply reserveInboundFrame_accounts in Er as ((Hwf2 & Hh2 & Hd2) & Hcl2 & Hr2);
      [|done|done|apply Hwp|apply Hwp].
    destruct r as [[]|e]; simpl; unfold conn_accounts, closure_ok; simpl;
      (split_and!; auto; try (done || lia || congruence)).
    intros _ _ _. destruct (Hr2 eq_refl) as (? & ? & ?). eauto.
Qed.

Definition recv_result (calls : list (Z * Z)) (c : frameConn) (r : res frameErr ())
    (c' : frameConn) : Prop :=
  match r with
  | OK _ => frameDelivered c' = true ∧ closed c = false ∧
            ∃ w p, calls = [(w, p)] ∧ 0 < w ∧ 0 ≤ p ∧ w + p ≤ heldFrameBytes c'
  | ERR _ => frameDelivered c' = false ∧ heldFrameBytes c' = 0
  end.

(** receiving a frame never panics and keeps the counter exact whatever the
    codec does: the connection's share moves with what it holds; a delivered
    frame was reserved by exactly one call whose sizes are covered by what the
    connection holds; a failed read leaves it holding nothing. *)
Theorem recvFrame_accounts (kind : inboundFrameCodecKind) (budgeted : bool)
    (calls : list (Z * Z)) (codecErr : option frameErr) (c : frameConn) (b : inboundFrameBudget)
    (Hwf : budget_wf b) (Hheld : 0 ≤ heldFrameBytes c ≤ fb_used b)
    (Hcalls : Forall (λ wp, in_int64 wp.1 ∧ in_int64 wp.2) calls) :
  ∃ r c' b', recvFrame kind budgeted calls codecErr c b = Some (r, c', b') ∧
    conn_accounts c b c' b' ∧
    recv_result calls c r c'.
Proof.
  assert (∀ e c1 b1, conn_accounts c b c1 b1 →
    ∃ r c' b', releaseOnError e c1 b1 = Some (r, c', b') ∧
      conn_accounts c b c' b' ∧ recv_result calls c r c') as Hfail.
  { intros e c1 b1 (Hwf1 & Hh1 & Hd1). unfold releaseOnError, releaseInboundFrame.
    rewrite release_exact by done. do 3 eexists. split; [done|]. simpl.
    destruct Hwf1. unfold conn_accounts, budget_wf; simpl. lia. }
  assert (conn_accounts c b (beginInboundFrameRead c) b) as Hbegin by done.
  unfold recvFrame, readInboundFrame.
  pose proof (runReserves_accounts calls (beginInboundFrameRead c) b Hwf Hheld Hcalls) as Hrun.
  destruct (runReserves _ _) as [[k c1] b1]. destruct Hrun as (Hacc & Hcl & Hlen & Hok).
  destruct kind; [by apply Hfail|..];
    (destruct (bool_decide _ && _); [by apply Hfail|];
     destruct codecErr; [by apply Hfail|]; destruct (reserveErr k) eqn:Ee; [by apply Hfail|];
     destruct (_ || _) eqn:En; [by apply Hfail|]; bool_facts;
     unfold markInboundFrameDelivered; destruct (closed c1) eqn:Ec1; [by apply Hfail|];
     destruct (heldFrameBytes c1 =? 0); [by apply Hfail|];
     do 3 eexists; split; [done|]; split; [exact Hacc|]; simpl;
     split; [done|]; split; [exact (eq_sym Hcl)|]; by apply Hok).
Qed.

Lemma recvFrame_accounts_witness :
  ∃ r c' b', recvFrame CodecFull false [(100, 88)] None (mkConn 50 false false) (mkBudget 1000 70)
               = Some (r, c', b') ∧
    conn_accounts (mkConn 50 false false) (mkBudget 1000 70) c' b' ∧
    recv_result [(100, 88)] (mkConn 50 false false) r c'.
Proof.
  apply (recvFrame_accounts CodecFull false [(100, 88)] None (mkConn 50 false false) (mkBudget 1000 70)).
  - unfold budget_wf, max_int64, two63; simpl; lia.
  - simpl; lia.
  - apply Forall_singleton. simpl. split; solve_int64.
Defined.
