(* ===== verification/UsageMap.v ===== *)
(** Keyed counters: the interface the RPC budgets are written against, the flat
    map that specifies it and the hash-sharded table that implements it
    ([rpc_execution_budget.go], [rpc_result_subscriber_budget.go]: [authShard],
    [sessionShard]).

    Which of the 64 shards holds a key depends on a hash seeded at random when
    the server starts; the clients' theorems are proved from the laws alone, so
    they hold for every seed. *)

From S2P Require Import Prelude.

(** * The interface *)

Class UsageMap (K V M : Type) := {
  um_get : K → M → option V;
  um_set : K → V → M → M;
  um_del : K → M → M;
}.

Class UsageMapLaws (K V M : Type) `{EqDecision K} `{!UsageMap K V M} : Prop := {
  um_get_set k v m k' : um_get k' (um_set k v m) = if decide (k = k') then Some v else um_get k' m;
  um_get_del k m k' : um_get k' (um_del k m) = if decide (k = k') then None else um_get k' m;
}.

Section usage_facts.
Context `{UsageMapLaws K V M}.

Lemma um_get_set_eq k v m : um_get k (um_set k v m) = Some v.
Proof. rewrite um_get_set. by rewrite decide_True. Qed.
Lemma um_get_set_ne k v m k' : k ≠ k' → um_get k' (um_set k v m) = um_get k' m.
Proof. intros. rewrite um_get_set. by rewrite decide_False. Qed.
Lemma um_get_del_eq k m : um_get k (um_del k m) = None.
Proof. rewrite um_get_del. by rewrite decide_True. Qed.
Lemma um_get_del_ne k m k' : k ≠ k' → um_get k' (um_del k m) = um_get k' m.
Proof. intros. rewrite um_get_del. by rewrite decide_False. Qed.
End usage_facts.

(** * The specification: one map *)

#[export] Instance gmap_usage `{Countable K} {V} : UsageMap K V (gmap K V) := {|
  um_get := λ k m, m !! k;
  um_set := λ k v m, <[k:=v]> m;
  um_del := λ k m, delete k m;
|}.

#[export] Instance gmap_usage_laws `{Countable K} {V} : UsageMapLaws K V (gmap K V).
Proof.
  split; intros k; intros; simpl.
  - by rewrite lookup_insert.
  - by rewrite lookup_delete.
Qed.

(** * The implementation: an array of maps indexed by a hash *)

(** [maphash.Bytes(seed, key bytes)], for the seed drawn at start. *)
Class ShardHash (K : Type) := shard_hash : K → Z.

Definition rpcExecutionBudgetShards : Z := 64.

Record sharded (K V : Type) `{Countable K} := Sharded { shards : gmap nat (gmap K V) }.
Arguments Sharded {K V _ _} _.
Arguments shards {K V _ _} _.

Section sharded.
Context `{Countable K} `{!ShardHash K} {V : Type}.

(** [maphash.Bytes(...) & (rpcExecutionBudgetShards - 1)] *)
Definition shardIndex (k : K) : nat :=
  Z.to_nat (Z.land (shard_hash k) (rpcExecutionBudgetShards - 1)).

Definition shardOf (k : K) (s : sharded K V) : gmap K V := default ∅ (shards s !! shardIndex k).

#[export] Instance sharded_usage : UsageMap K V (sharded K V) := {|
  um_get := λ k s, shardOf k s !! k;
  um_set := λ k v s, Sharded (<[shardIndex k := <[k:=v]> (shardOf k s)]> (shards s));
  um_del := λ k s, Sharded (<[shardIndex k := delete k (shardOf k s)]> (shards s));
|}.

Lemma shardIndex_bound k : shardIndex k < 64.
Proof.
  unfold shardIndex, rpcExecutionBudgetShards. change (64 - 1)%Z with (Z.ones 6).
  rewrite Z.land_ones by lia. pose proof (Z.mod_pos_bound (shard_hash k) (2 ^ 6) eq_refl).
  change (2 ^ 6)%Z with 64%Z in *. lia.
Qed.

Lemma shardOf_update k k' g (s : sharded K V) :
  shardOf k' (Sharded (<[shardIndex k := g]> (shards s))) =
  if decide (shardIndex k = shardIndex k') then g else shardOf k' s.
Proof. unfold shardOf; simpl. rewrite lookup_insert. by destruct (decide _). Qed.

#[export] Instance sharded_usage_laws : UsageMapLaws K V (sharded K V).
Proof.
  split; intros; simpl; rewrite shardOf_update; destruct (decide (k = k')) as [->|Hne].
  - rewrite decide_True by done. by rewrite lookup_insert_eq.
  - destruct (decide _) as [He|]; [|done]. rewrite lookup_insert_ne by done.
    unfold shardOf. by rewrite He.
  - rewrite decide_True by done. by rewrite lookup_delete_eq.
  - destruct (decide _) as [He|]; [|done]. rewrite lookup_delete_ne by done.
    unfold shardOf. by rewrite He.
Qed.
End sharded.

(** Two tables are indistinguishable when every key reads the same. *)
Definition um_sim {K V M1 M2} `{!UsageMap K V M1, !UsageMap K V M2} (m1 : M1) (m2 : M2) : Prop :=
  ∀ k, um_get k m1 = um_get k m2.

Section sim.
Context `{UsageMapLaws K V M1} `{!UsageMap K V M2} `{!UsageMapLaws K V M2}.

Lemma um_sim_set k v (m1 : M1) (m2 : M2) : um_sim m1 m2 → um_sim (um_set k v m1) (um_set k v m2).
Proof. intros Hs k'. rewrite !um_get_set. by destruct (decide _). Qed.
Lemma um_sim_del k (m1 : M1) (m2 : M2) : um_sim m1 m2 → um_sim (um_del k m1) (um_del k m2).
Proof. intros Hs k'. rewrite !um_get_del. by destruct (decide _). Qed.
End sim.

Lemma um_get_sharded_empty `{Countable K} `{!ShardHash K} {V} (k : K) :
  um_get k (Sharded ∅ : sharded K V) = None.
Proof. simpl. unfold shardOf; simpl. by rewrite lookup_empty. Qed.

Lemma um_get_gmap_empty `{Countable K} {V} (k : K) : um_get k (∅ : gmap K V) = None.
Proof. apply lookup_empty. Qed.

#[global] Arguments um_get : simpl never.
#[global] Arguments um_set : simpl never.
#[global] Arguments um_del : simpl never.
