(* ===== verification/FairBudget.v ===== *)
(** RPC execution budgets: [rpc_execution_budget.go], the counter of
    [rpc_flight.go] ([rpcResultFlightLimit]) and
    [rpc_result_subscriber_budget.go].

    A request that is admitted charges one entry to three scopes at once: the
    whole process, its auth key and its session.  Reservations are heap objects
    the ledger passes from the pending flight to the completed receipt; a
    reservation is identified by its index in [bd_objs]. *)

From S2P Require Import Prelude UsageMap.

Open Scope Z_scope.

(** * The process-wide counter *)

Record rpcResultFlightLimit := mkLimit { lim_max : Z; lim_used : Z }.

Definition reserveN (delta : Z) (l : rpcResultFlightLimit) : bool * rpcResultFlightLimit :=
  if lim_max l <=? 0 then (false, l)
  else if delta <=? 0 then (false, l)
  else if (lim_used l <? 0) || (lim_max l -₆₄ delta <? lim_used l) then (false, l)
  else (true, mkLimit (lim_max l) (lim_used l +₆₄ delta)).

(** [None]: the panics on a non-positive release and on underflow. *)
Definition releaseN (delta : Z) (l : rpcResultFlightLimit) : option rpcResultFlightLimit :=
  if delta <=? 0 then None
  else let remaining := lim_used l -₆₄ delta in
       if remaining <? 0 then None else Some (mkLimit (lim_max l) remaining).

Definition limit_reserve := reserveN 1.
Definition limit_release := releaseN 1.
Definition snapshot (l : rpcResultFlightLimit) : Z := lim_used l.

Definition limit_wf (l : rpcResultFlightLimit) : Prop :=
  lim_max l ≤ max_int64 ∧ 0 ≤ lim_used l ∧ (lim_used l ≤ lim_max l ∨ lim_used l = 0).

Lemma reserveN_spec delta l :
  limit_wf l → in_int64 delta →
  reserveN delta l =
    if bool_decide (0 < delta ∧ lim_used l + delta ≤ lim_max l)
    then (true, mkLimit (lim_max l) (lim_used l + delta)) else (false, l).
Proof.
  intros (Hm & Hu & Hle) Hd. unfold reserveN.
  destruct (lim_max l <=? 0) eqn:E1; bool_facts; [by rewrite bool_decide_eq_false_2 by lia|].
  destruct (delta <=? 0) eqn:E2; bool_facts; [by rewrite bool_decide_eq_false_2 by lia|].
  unwrap64. destruct (_ || _) eqn:E3; bool_facts.
  - rewrite bool_decide_eq_false_2; [done|]. lia.
  - rewrite bool_decide_eq_true_2 by lia. unwrap64. done.
Qed.

Lemma releaseN_spec delta l :
  limit_wf l → 0 < delta ≤ lim_used l →
  releaseN delta l = Some (mkLimit (lim_max l) (lim_used l - delta)).
Proof.
  intros (Hm & Hu & Hle) Hd. unfold releaseN.
  replace (delta <=? 0) with false by (symmetry; apply Z.leb_gt; lia).
  unwrap64. replace (_ <? 0) with false by (symmetry; apply Z.ltb_ge; lia). done.
Qed.

(** * Keys and usage rows *)

(** An auth key id ([[8]byte]) is the integer its eight bytes spell. *)
Record rpcExecutionKey := mkKey { authKeyID : Z; sessionID : Z; reqMsgID : Z }.

#[export] Instance key_eq_dec : EqDecision rpcExecutionKey.
Proof. solve_decision. Defined.
#[export] Program Instance key_countable : Countable rpcExecutionKey :=
  inj_countable' (λ k, (authKeyID k, sessionID k, reqMsgID k))
                 (λ '(a, s, r), mkKey a s r) _.
Next Obligation. by intros []. Qed.

Definition sessionKey : Type := Z * Z.
Definition key_session (k : rpcExecutionKey) : sessionKey := (authKeyID k, sessionID k).

Record rpcExecutionBudgetUsage := mkUsage { us_entries : Z; us_pending : Z }.
#[export] Instance usage_eq_dec : EqDecision rpcExecutionBudgetUsage.
Proof. solve_decision. Defined.

(** The zero row a Go map read returns for an absent key. *)
Definition usage0 : rpcExecutionBudgetUsage := mkUsage 0 0.

Definition withinRPCExecutionBudget (used delta limit : Z) : bool :=
  (0 <=? delta) && (0 <? limit) && (0 <=? used) && (used <=? limit -₆₄ delta).

Record rpcExecutionBudgetReservation := mkRes {
  rs_key : rpcExecutionKey;
  rs_pending : bool;
  rs_released : bool;
}.

(** * The fair budget *)

Section fair_budget.
Context {MA MS : Type}.
Context `{!UsageMap Z rpcExecutionBudgetUsage MA}.
Context `{!UsageMap sessionKey rpcExecutionBudgetUsage MS}.

Record rpcExecutionFairBudget := mkFair {
  bd_global : rpcResultFlightLimit;
  bd_authLimit : Z;
  bd_sessionLimit : Z;
  bd_pendingPerAuth : Z;
  bd_auth : MA;
  bd_session : MS;
  bd_objs : gmap nat rpcExecutionBudgetReservation;
  bd_next : nat;
}.

Definition authSnapshot (a : Z) (b : rpcExecutionFairBudget) : rpcExecutionBudgetUsage :=
  default usage0 (um_get a (bd_auth b)).
Definition sessionSnapshot (sk : sessionKey) (b : rpcExecutionFairBudget) : rpcExecutionBudgetUsage :=
  default usage0 (um_get sk (bd_session b)).

(** [reserve]: both shard locks are held across the whole body. *)
Definition fair_reserve (key : rpcExecutionKey) (pending : bool) (b : rpcExecutionFairBudget)
    : option nat * rpcExecutionFairBudget :=
  let authUsage := authSnapshot (authKeyID key) b in
  let sessionUsage := sessionSnapshot (key_session key) b in
  let allowed :=
    withinRPCExecutionBudget (us_entries authUsage) 1 (bd_authLimit b)
    && withinRPCExecutionBudget (us_entries sessionUsage) 1 (bd_sessionLimit b)
    && (negb pending || withinRPCExecutionBudget (us_pending authUsage) 1 (bd_pendingPerAuth b)) in
  if negb allowed then (None, b)
  else
    let '(ok, global) := limit_reserve (bd_global b) in
    if negb ok then (None, b)
    else
      let authUsage' := mkUsage (us_entries authUsage +₆₄ 1)
        (if pending then us_pending authUsage +₆₄ 1 else us_pending authUsage) in
      let sessionUsage' := mkUsage (us_entries sessionUsage +₆₄ 1) (us_pending sessionUsage) in
      let r := bd_next b in
      (Some r,
       mkFair global (bd_authLimit b) (bd_sessionLimit b) (bd_pendingPerAuth b)
         (um_set (authKeyID key) authUsage' (bd_auth b))
         (um_set (key_session key) sessionUsage' (bd_session b))
         (<[r := mkRes key pending false]> (bd_objs b)) (S r)).

Definition reserveOwner (key : rpcExecutionKey) := fair_reserve key true.
Definition reserveCompleted (key : rpcExecutionKey) := fair_reserve key false.

Definition set_res (r : nat) (o : rpcExecutionBudgetReservation) (b : rpcExecutionFairBudget) :=
  mkFair (bd_global b) (bd_authLimit b) (bd_sessionLimit b) (bd_pendingPerAuth b)
    (bd_auth b) (bd_session b) (<[r := o]> (bd_objs b)) (bd_next b).

(** [None]: the underflow panic. *)
Definition releasePending (r : nat) (b : rpcExecutionFairBudget) : option rpcExecutionFairBudget :=
  match bd_objs b !! r with
  | None => Some b                                  (* nil reservation *)
  | Some o =>
      if rs_released o || negb (rs_pending o) then Some b
      else
        match um_get (authKeyID (rs_key o)) (bd_auth b) with
        | None => None
        | Some usage =>
            if us_pending usage <? 1 then None
            else Some (mkFair (bd_global b) (bd_authLimit b) (bd_sessionLimit b) (bd_pendingPerAuth b)
                   (um_set (authKeyID (rs_key o))
                      (mkUsage (us_entries usage) (us_pending usage -₆₄ 1)) (bd_auth b))
                   (bd_session b)
                   (<[r := mkRes (rs_key o) false (rs_released o)]> (bd_objs b)) (bd_next b))
        end
  end.

(** Write a row back, or drop it once it is zero. *)
Definition put_usage {K M} `{!UsageMap K rpcExecutionBudgetUsage M} (k : K)
    (u : rpcExecutionBudgetUsage) (m : M) : M :=
  if decide (u = usage0) then um_del k m else um_set k u m.

Definition fair_release (r : nat) (b : rpcExecutionFairBudget) : option rpcExecutionFairBudget :=
  match bd_objs b !! r with
  | None => Some b
  | Some o =>
      if rs_released o then Some b
      else
        let a := authKeyID (rs_key o) in
        let sk := key_session (rs_key o) in
        match um_get a (bd_auth b), um_get sk (bd_session b) with
        | Some authUsage, Some sessionUsage =>
            if (us_entries authUsage <? 1) || (us_entries sessionUsage <? 1)
               || (rs_pending o && (us_pending authUsage <? 1))
            then None
            else
              let authUsage' := mkUsage (us_entries authUsage -₆₄ 1)
                (if rs_pending o then us_pending authUsage -₆₄ 1 else us_pending authUsage) in
              let sessionUsage' := mkUsage (us_entries sessionUsage -₆₄ 1) (us_pending sessionUsage) in
              match limit_release (bd_global b) with
              | None => None
              | Some global =>
                  Some (mkFair global (bd_authLimit b) (bd_sessionLimit b) (bd_pendingPerAuth b)
                    (put_usage a authUsage' (bd_auth b)) (put_usage sk sessionUsage' (bd_session b))
                    (<[r := mkRes (rs_key o) false true]> (bd_objs b)) (bd_next b))
              end
        | _, _ => None
        end
  end.
End fair_budget.
Arguments rpcExecutionFairBudget : clear implicits.

(** ** The accounting invariant *)

Definition live (o : rpcExecutionBudgetReservation) : Z := b2z (negb (rs_released o)).
Definition live_auth (a : Z) (o : rpcExecutionBudgetReservation) : Z :=
  b2z (negb (rs_released o) && bool_decide (authKeyID (rs_key o) = a)).
Definition live_session (sk : sessionKey) (o : rpcExecutionBudgetReservation) : Z :=
  b2z (negb (rs_released o) && bool_decide (key_session (rs_key o) = sk)).
Definition pending_auth (a : Z) (o : rpcExecutionBudgetReservation) : Z :=
  b2z (rs_pending o && bool_decide (authKeyID (rs_key o) = a)).

Lemma live_unreleased o : rs_released o = false → live o = 1.
Proof. unfold live. by intros ->. Qed.
Lemma live_auth_unreleased a o :
  rs_released o = false → live_auth a o = b2z (bool_decide (authKeyID (rs_key o) = a)).
Proof. unfold live_auth. by intros ->. Qed.
Lemma live_session_unreleased sk o :
  rs_released o = false → live_session sk o = b2z (bool_decide (key_session (rs_key o) = sk)).
Proof. unfold live_session. by intros ->. Qed.
Lemma live_released k p : live (mkRes k p true) = 0.
Proof. done. Qed.
Lemma live_auth_released a k p : live_auth a (mkRes k p true) = 0.
Proof. done. Qed.
Lemma live_session_released sk k p : live_session sk (mkRes k p true) = 0.
Proof. done. Qed.

Lemma b2z_bounds b : 0 ≤ b2z b ≤ 1.
Proof. destruct b; simpl; lia. Qed.

Lemma sum_b2z_nonneg `{Countable K} {V} (f : V → bool) (m : gmap K V) :
  0 ≤ sum_map (λ v, b2z (f v)) m.
Proof. apply sum_map_nonneg. intros. apply b2z_bounds. Qed.

(** A count against its configured limit; a scope without a positive limit
    admits nothing. *)
Definition capped (n limit : Z) : Prop := 0 ≤ n ∧ (n ≤ limit ∨ n = 0).

Section fair_inv.
Context {MA MS : Type}.
Context `{!UsageMap Z rpcExecutionBudgetUsage MA} `{!UsageMapLaws Z rpcExecutionBudgetUsage MA}.
Context `{!UsageMap sessionKey rpcExecutionBudgetUsage MS}
        `{!UsageMapLaws sessionKey rpcExecutionBudgetUsage MS}.
Abbreviation fair := (rpcExecutionFairBudget MA MS).
Implicit Types b : fair.

Record fair_inv b : Prop := {
  bi_limits : bd_authLimit b ≤ max_int64 ∧ bd_sessionLimit b ≤ max_int64 ∧
              bd_pendingPerAuth b ≤ max_int64;
  bi_global : limit_wf (bd_global b);
  bi_live : lim_used (bd_global b) = sum_map live (bd_objs b);
  bi_auth a : us_entries (authSnapshot a b) = sum_map (live_auth a) (bd_objs b) ∧
              us_pending (authSnapshot a b) = sum_map (pending_auth a) (bd_objs b) ∧
              capped (us_entries (authSnapshot a b)) (bd_authLimit b) ∧
              capped (us_pending (authSnapshot a b)) (bd_pendingPerAuth b);
  bi_session sk : us_entries (sessionSnapshot sk b) = sum_map (live_session sk) (bd_objs b) ∧
                  us_pending (sessionSnapshot sk b) = 0 ∧
                  capped (us_entries (sessionSnapshot sk b)) (bd_sessionLimit b);
  bi_rows : (∀ a, um_get a (bd_auth b) ≠ Some usage0) ∧ (∀ sk, um_get sk (bd_session b) ≠ Some usage0);
  bi_objs : map_Forall (λ _ o, rs_released o = true → rs_pending o = false) (bd_objs b);
  bi_next r : (bd_next b ≤ r)%nat → bd_objs b !! r = None;
}.

(** A row read after a row was written back or dropped. *)
Lemma put_usage_snapshot {K M} `{UsageMapLaws K rpcExecutionBudgetUsage M} (k k' : K) u (m : M) :
  default usage0 (um_get k' (put_usage k u m)) =
  if decide (k = k') then u else default usage0 (um_get k' m).
Proof.
  unfold put_usage. destruct (decide (u = usage0)) as [->|].
  - rewrite um_get_del. by destruct (decide _).
  - rewrite um_get_set. by destruct (decide _).
Qed.

Lemma put_usage_rows {K M} `{UsageMapLaws K rpcExecutionBudgetUsage M} (k k' : K) u (m : M) :
  (∀ j, um_get j m ≠ Some usage0) → um_get k' (put_usage k u m) ≠ Some usage0.
Proof.
  intros Hm. unfold put_usage. destruct (decide (u = usage0)) as [->|].
  - rewrite um_get_del. by destruct (decide _).
  - rewrite um_get_set. destruct (decide _); [congruence|done].
Qed.

Lemma capped_within n limit :
  capped n limit → limit ≤ max_int64 →
  withinRPCExecutionBudget n 1 limit = bool_decide (n + 1 ≤ limit).
Proof.
  intros [H0 Hc] Hl. unfold withinRPCExecutionBudget. simpl.
  case_bool_decide as Hd.
  - unwrap64. rewrite !andb_true_iff, Z.ltb_lt, !Z.leb_le. lia.
  - destruct (0 <? limit) eqn:E1; [|done]. destruct (0 <=? n) eqn:E2; [|done]. simpl. bool_facts.
    unwrap64. apply Z.leb_gt. lia.
Qed.

Lemma limit_reserve_spec l :
  limit_wf l → limit_reserve l =
    if bool_decide (lim_used l + 1 ≤ lim_max l) then (true, mkLimit (lim_max l) (lim_used l + 1))
    else (false, l).
Proof.
  intros Hl. unfold limit_reserve. rewrite reserveN_spec by (done || solve_int64).
  repeat case_bool_decide; try done; lia.
Qed.

(** The three scopes have room for one more entry. *)
Definition has_room (key : rpcExecutionKey) (pending : bool) b : Prop :=
  sum_map live (bd_objs b) + 1 ≤ lim_max (bd_global b) ∧
  sum_map (live_auth (authKeyID key)) (bd_objs b) + 1 ≤ bd_authLimit b ∧
  sum_map (live_session (key_session key)) (bd_objs b) + 1 ≤ bd_sessionLimit b ∧
  (pending = true → sum_map (pending_auth (authKeyID key)) (bd_objs b) + 1 ≤ bd_pendingPerAuth b).
#[export] Instance has_room_dec key pending b : Decision (has_room key pending b).
Proof. unfold has_room. apply _. Defined.

Definition add_entry (pending : bool) (u : rpcExecutionBudgetUsage) : rpcExecutionBudgetUsage :=
  mkUsage (us_entries u + 1) (us_pending u + b2z pending).

Lemma fair_reserve_spec key pending b :
  fair_inv b →
  fair_reserve key pending b =
  if decide (has_room key pending b) then
    (Some (bd_next b),
     mkFair (mkLimit (lim_max (bd_global b)) (lim_used (bd_global b) + 1))
       (bd_authLimit b) (bd_sessionLimit b) (bd_pendingPerAuth b)
       (um_set (authKeyID key) (add_entry pending (authSnapshot (authKeyID key) b)) (bd_auth b))
       (um_set (key_session key) (add_entry false (sessionSnapshot (key_session key) b)) (bd_session b))
       (<[bd_next b := mkRes key pending false]> (bd_objs b)) (S (bd_next b)))
  else (None, b).
Proof.
  intros H. pose proof (bi_limits b H) as (Hla & Hls & Hlp).
  pose proof (bi_auth b H (authKeyID key)) as (He & Hp & Hce & Hcp).
  pose proof (bi_session b H (key_session key)) as (Hse & Hsp & Hcs).
  unfold fair_reserve.
  rewrite !capped_within, limit_reserve_spec, (bi_live b H) by (done || apply H).
  rewrite He, Hp, Hse in *.
  destruct (decide (has_room key pending b)) as [(H1 & H2 & H3 & H4)|Hno].
  - rewrite (bool_decide_eq_true_2 (_ + 1 ≤ bd_authLimit b)) by done.
    rewrite (bool_decide_eq_true_2 (_ + 1 ≤ bd_sessionLimit b)) by done.
    rewrite (bool_decide_eq_true_2 (_ + 1 ≤ lim_max _)) by done.
    assert (negb pending || bool_decide (sum_map (pending_auth (authKeyID key)) (bd_objs b) + 1
              ≤ bd_pendingPerAuth b) = true) as ->.
    { destruct pending; [|done]. simpl. apply bool_decide_eq_true_2. auto. }
    simpl. unfold capped in *. unwrap64. unfold add_entry. rewrite He, Hse, Hp, Hsp.
    assert ((if pending then sum_map (pending_auth (authKeyID key)) (bd_objs b) +₆₄ 1
             else sum_map (pending_auth (authKeyID key)) (bd_objs b)) =
            sum_map (pending_auth (authKeyID key)) (bd_objs b) + b2z pending) as ->.
    { destruct pending; simpl; [|lia]. specialize (H4 eq_refl). by unwrap64. }
    done.
  - destruct (negb (_ && _ && _)) eqn:E; [done|]. bool_facts.
    destruct (bool_decide (_ + 1 ≤ lim_max _)) eqn:E2; [|done]. bool_facts. exfalso. apply Hno.
    split_and!; try done. intros ->. destruct H1; by bool_facts.
Qed.
End fair_inv.

Section fair_steps.
Context {MA MS : Type}.
Context `{!UsageMap Z rpcExecutionBudgetUsage MA} `{!UsageMapLaws Z rpcExecutionBudgetUsage MA}.
Context `{!UsageMap sessionKey rpcExecutionBudgetUsage MS}
        `{!UsageMapLaws sessionKey rpcExecutionBudgetUsage MS}.
Abbreviation fair := (rpcExecutionFairBudget MA MS).
Implicit Types b : fair.

Lemma fair_reserve_inv key pending b : fair_inv b → fair_inv (fair_reserve key pending b).2.
Proof.
  intros H. rewrite fair_reserve_spec by done. destruct (decide _) as [(H1 & H2 & H3 & H4)|]; [|done].
  assert (bd_objs b !! bd_next b = None) as Hnew by (apply (bi_next b H); lia).
  destruct (bi_rows b H) as [Hra Hrs].
  split; simpl.
  - apply H.
  - pose proof (bi_global b H) as (? & ? & ?). pose proof (bi_live b H).
    unfold limit_wf; simpl. lia.
  - rewrite sum_map_insert_new by done. rewrite (bi_live b H). unfold live at 2; simpl. lia.
  - intros a. pose proof (bi_auth b H a) as (He & Hp & Hce & Hcp).
    unfold authSnapshot in *; simpl. rewrite um_get_set, !sum_map_insert_new by done.
    unfold live_auth at 1, pending_auth at 1; simpl.
    destruct (decide (authKeyID key = a)) as [<-|Hne]; simpl.
    + rewrite !bool_decide_eq_true_2 by done. rewrite andb_true_r.
      unfold capped in *. rewrite He, Hp in *. destruct pending; simpl in *; lia.
    + rewrite !bool_decide_eq_false_2 by done. rewrite andb_false_r. simpl. auto.
  - intros sk. pose proof (bi_session b H sk) as (He & Hp & Hce).
    unfold sessionSnapshot in *; simpl. rewrite um_get_set, !sum_map_insert_new by done.
    unfold live_session at 1; simpl.
    destruct (decide (key_session key = sk)) as [<-|Hne]; simpl.
    + rewrite !bool_decide_eq_true_2 by done.
      unfold capped in *. rewrite He, Hp in *. simpl in *; lia.
    + rewrite !bool_decide_eq_false_2 by done. simpl. auto.
  - split; intros k; rewrite um_get_set; (destruct (decide _); [|auto]).
    + intros [= Heq]. pose proof (bi_auth b H (authKeyID key)) as (_ & _ & [? _] & _). lia.
    + intros [= Heq]. pose proof (bi_session b H (key_session key)) as (_ & _ & [? _]). lia.
  - apply map_Forall_insert_2; [done|apply (bi_objs b H)].
  - intros r Hr. rewrite lookup_insert_ne by lia. apply (bi_next b H). lia.
Qed.

(** A live reservation is visible in the row of each of its scopes. *)
Lemma fair_live_rows b r o :
  fair_inv b → bd_objs b !! r = Some o → rs_released o = false →
  1 ≤ lim_used (bd_global b) ∧
  1 ≤ us_entries (authSnapshot (authKeyID (rs_key o)) b) ∧
  1 ≤ us_entries (sessionSnapshot (key_session (rs_key o)) b) ∧
  (rs_pending o = true → 1 ≤ us_pending (authSnapshot (authKeyID (rs_key o)) b)).
Proof.
  intros H Hr Ho.
  destruct (bi_auth b H (authKeyID (rs_key o))) as (-> & -> & _ & _).
  destruct (bi_session b H (key_session (rs_key o))) as (-> & _ & _).
  rewrite (bi_live b H). split_and!.
  - transitivity (live o); [unfold live; by rewrite Ho|].
    apply (sum_map_ge _ _ r); [intros; apply b2z_bounds|done].
  - transitivity (live_auth (authKeyID (rs_key o)) o).
    + unfold live_auth. by rewrite Ho, bool_decide_eq_true_2.
    + apply (sum_map_ge _ _ r); [intros; apply b2z_bounds|done].
  - transitivity (live_session (key_session (rs_key o)) o).
    + unfold live_session. by rewrite Ho, bool_decide_eq_true_2.
    + apply (sum_map_ge _ _ r); [intros; apply b2z_bounds|done].
  - intros Hp. transitivity (pending_auth (authKeyID (rs_key o)) o).
    + unfold pending_auth. by rewrite Hp, bool_decide_eq_true_2.
    + apply (sum_map_ge _ _ r); [intros; apply b2z_bounds|done].
Qed.

(** What no operation touches. *)
Definition fair_frame b b' : Prop :=
  bd_authLimit b' = bd_authLimit b ∧ bd_sessionLimit b' = bd_sessionLimit b ∧
  bd_pendingPerAuth b' = bd_pendingPerAuth b ∧ bd_next b' = bd_next b ∧
  lim_max (bd_global b') = lim_max (bd_global b).

Lemma snapshot_present {K M} `{!UsageMap K rpcExecutionBudgetUsage M} (k : K) (m : M) :
  1 ≤ us_entries (default usage0 (um_get k m)) →
  um_get k m = Some (default usage0 (um_get k m)).
Proof. destruct (um_get k m); simpl; [done|lia]. Qed.

Lemma fair_release_live b r o :
  fair_inv b → bd_objs b !! r = Some o → rs_released o = false →
  ∃ b', fair_release r b = Some b' ∧ fair_inv b' ∧ fair_frame b b' ∧
        bd_objs b' = <[r := mkRes (rs_key o) false true]> (bd_objs b).
Proof.
  intros H Hr Ho.
  destruct (fair_live_rows b r o H Hr Ho) as (Hg & Ha & Hs & Hp).
  unfold fair_release. rewrite Hr, Ho.
  rewrite (snapshot_present _ _ Ha), (snapshot_present _ _ Hs).
  change (default usage0 (um_get _ (bd_auth b))) with (authSnapshot (authKeyID (rs_key o)) b).
  change (default usage0 (um_get _ (bd_session b))) with (sessionSnapshot (key_session (rs_key o)) b).
  set (au := authSnapshot (authKeyID (rs_key o)) b) in *.
  set (su := sessionSnapshot (key_session (rs_key o)) b). fold su in Hs.
  replace (_ || _) with false.
  2:{ symmetry. rewrite !orb_false_iff, !Z.ltb_ge. split_and!; [lia..|].
      destruct (rs_pending o); [|done]. simpl. apply Z.ltb_ge. auto. }
  pose proof (bi_limits b H) as (Hl1 & Hl2 & Hl3).
  assert (us_entries au ≤ max_int64 ∧ us_pending au ≤ max_int64 ∧ us_entries su ≤ max_int64)
    as (Hb1 & Hb2 & Hb3).
  { pose proof (bi_auth b H (authKeyID (rs_key o))) as (_ & _ & [? ?] & [? ?]).
    pose proof (bi_session b H (key_session (rs_key o))) as (_ & _ & [? ?]). unfold au, su.
    assert (0 ≤ max_int64) by (vm_compute; congruence). lia. }
  unfold limit_release. rewrite releaseN_spec by (apply H || lia). unwrap64.
  assert ((if rs_pending o then us_pending au -₆₄ 1 else us_pending au) =
          us_pending au - b2z (rs_pending o)) as ->.
  { destruct (rs_pending o); simpl; [|lia]. specialize (Hp eq_refl). by unwrap64. }
  eexists. split; [done|]. split; [|by split_and!]. destruct (bi_rows b H) as [Hra Hrs].
  split; simpl.
  - done.
  - pose proof (bi_global b H) as (? & ? & ?). unfold limit_wf; simpl. lia.
  - rewrite sum_map_insert, Hr, (bi_live b H). cbn [wt].
    rewrite (live_unreleased o), live_released by done. lia.
  - intros a. pose proof (bi_auth b H a) as (He & Hpe & Hce & Hcp).
    unfold authSnapshot at 1 2 3 4; simpl. rewrite put_usage_snapshot, !sum_map_insert, Hr.
    cbn [wt].
    rewrite (live_auth_unreleased a o), live_auth_released by done.
    change (pending_auth a (mkRes (rs_key o) false true)) with 0. unfold pending_auth at 2.
    destruct (decide (authKeyID (rs_key o) = a)) as [<-|Hne]; simpl.
    + fold au in He, Hpe, Hce, Hcp. rewrite bool_decide_eq_true_2, andb_true_r by done.
      unfold capped in *. destruct (rs_pending o); simpl in *; [specialize (Hp eq_refl)|]; lia.
    + rewrite bool_decide_eq_false_2, andb_false_r by done. simpl.
      rewrite !Z.sub_0_r, !Z.add_0_r. auto.
  - intros sk. pose proof (bi_session b H sk) as (He & Hpe & Hce).
    unfold sessionSnapshot at 1 2 3; simpl. rewrite put_usage_snapshot, !sum_map_insert, Hr.
    cbn [wt].
    rewrite (live_session_unreleased sk o), live_session_released by done.
    destruct (decide (key_session (rs_key o) = sk)) as [<-|Hne]; simpl.
    + fold su in He, Hpe, Hce. rewrite bool_decide_eq_true_2 by done. unfold capped in *. simpl. lia.
    + rewrite bool_decide_eq_false_2 by done. simpl. rewrite !Z.sub_0_r, !Z.add_0_r. auto.
  - split; intros k; by apply put_usage_rows.
  - apply map_Forall_insert_2; [done|apply (bi_objs b H)].
  - intros r' Hr'. rewrite lookup_insert_ne by (intros <-; rewrite (bi_next b H r Hr') in Hr; done).
    by apply (bi_next b H).
Qed.

Lemma fair_releasePending_live b r o :
  fair_inv b → bd_objs b !! r = Some o → rs_released o = false → rs_pending o = true →
  ∃ b', releasePending r b = Some b' ∧ fair_inv b' ∧ fair_frame b b' ∧
        bd_objs b' = <[r := mkRes (rs_key o) false false]> (bd_objs b).
Proof.
  intros H Hr Ho Hpo.
  destruct (fair_live_rows b r o H Hr Ho) as (Hg & Ha & Hs & Hp). specialize (Hp Hpo).
  unfold releasePending. rewrite Hr, Ho, Hpo. simpl.
  rewrite (snapshot_present _ _ Ha).
  change (default usage0 (um_get _ (bd_auth b))) with (authSnapshot (authKeyID (rs_key o)) b).
  set (au := authSnapshot (authKeyID (rs_key o)) b) in *.
  replace (_ <? 1) with false by (symmetry; apply Z.ltb_ge; lia).
  pose proof (bi_limits b H) as (Hl1 & Hl2 & Hl3).
  assert (us_pending au ≤ max_int64).
  { pose proof (bi_auth b H (authKeyID (rs_key o))) as (_ & _ & _ & [? ?]). unfold au.
    assert (0 ≤ max_int64) by (vm_compute; congruence). lia. }
  unwrap64. eexists. split; [done|]. split; [|by split_and!]. destruct (bi_rows b H) as [Hra Hrs].
  split; simpl.
  - done.
  - apply H.
  - rewrite sum_map_insert, Hr, (bi_live b H). cbn [wt].
    rewrite (live_unreleased o), live_unreleased by done. lia.
  - intros a. pose proof (bi_auth b H a) as (He & Hpe & Hce & Hcp).
    unfold authSnapshot at 1 2 3 4; simpl. rewrite um_get_set, !sum_map_insert, Hr.
    cbn [wt].
    rewrite (live_auth_unreleased a o), live_auth_unreleased by done.
    change (pending_auth a (mkRes (rs_key o) false false)) with 0. unfold pending_auth at 2. rewrite Hpo. simpl.
    destruct (decide (authKeyID (rs_key o) = a)) as [<-|Hne]; simpl.
    + fold au in He, Hpe, Hce, Hcp. rewrite bool_decide_eq_true_2 by done.
      unfold capped in *. simpl in *. lia.
    + rewrite bool_decide_eq_false_2 by done. simpl.
      rewrite !Z.sub_0_r, !Z.add_0_r. auto.
  - intros sk. pose proof (bi_session b H sk) as (He & Hpe & Hce).
    unfold sessionSnapshot in *; simpl. rewrite !sum_map_insert, Hr.
    cbn [wt].
    rewrite (live_session_unreleased sk o), live_session_unreleased by done. simpl. split_and!; [lia|done|done].
  - split; intros k; [|done]. rewrite um_get_set. destruct (decide _); [|done].
    intros [= Heq ?]. lia.
  - apply map_Forall_insert_2; [done|apply (bi_objs b H)].
  - intros r' Hr'. rewrite lookup_insert_ne by (intros <-; rewrite (bi_next b H r Hr') in Hr; done).
    by apply (bi_next b H).
Qed.

(** Releasing is total on every reservation, in any state of it. *)
Lemma fair_release_total b r :
  fair_inv b → ∃ b', fair_release r b = Some b' ∧ fair_inv b' ∧ fair_frame b b' ∧
    bd_objs b' = alter (λ o, mkRes (rs_key o) false true) r (bd_objs b).
Proof.
  intros H. destruct (bd_objs b !! r) as [o|] eqn:Hr.
  - destruct (rs_released o) eqn:Ho.
    + exists b. unfold fair_release. rewrite Hr, Ho. split; [done|]. split; [done|].
      split; [done|]. symmetry. rewrite (alter_alt_Some _ _ _ o) by done.
      apply insert_id. rewrite Hr. pose proof (bi_objs b H r o Hr Ho).
      destruct o; simpl in *; by subst.
    + destruct (fair_release_live b r o H Hr Ho) as (b' & ? & ? & ? & Hobj).
      exists b'. split_and!; try done. rewrite Hobj. by rewrite (alter_alt_Some _ _ _ o).
  - exists b. unfold fair_release. rewrite Hr. split_and!; try done.
    symmetry. by apply alter_id'.
Qed.

Lemma fair_releasePending_total b r :
  fair_inv b → ∃ b', releasePending r b = Some b' ∧ fair_inv b' ∧ fair_frame b b' ∧
    bd_objs b' = alter (λ o, mkRes (rs_key o) false (rs_released o)) r (bd_objs b).
Proof.
  intros H. destruct (bd_objs b !! r) as [o|] eqn:Hr.
  - destruct (rs_released o || negb (rs_pending o)) eqn:Ho.
    + exists b. unfold releasePending. rewrite Hr, Ho. split_and!; try done.
      symmetry. rewrite (alter_alt_Some _ _ _ o) by done. apply insert_id. rewrite Hr.
      assert (rs_pending o = false) as Hp.
      { apply orb_true_iff in Ho as [Ho|Ho]; [by apply (bi_objs b H r o Hr)|by apply negb_true_iff]. }
      destruct o; simpl in *; by subst.
    + bool_facts. destruct (fair_releasePending_live b r o H Hr) as (b' & ? & ? & ? & Hobj); [done..|].
      exists b'. split_and!; try done. rewrite Hobj. symmetry. rewrite (alter_alt_Some _ _ _ o) by done.
      congruence.
  - exists b. unfold releasePending. rewrite Hr. split_and!; try done.
    symmetry. by apply alter_id'.
Qed.
End fair_steps.

(** ** Runs of the budget *)

Inductive fair_op :=
  | OpReserve (key : rpcExecutionKey) (pending : bool)
  | OpReleasePending (r : nat)
  | OpRelease (r : nat).

Section fair_run.
Context {MA MS : Type}.
Context `{!UsageMap Z rpcExecutionBudgetUsage MA} `{!UsageMap sessionKey rpcExecutionBudgetUsage MS}.
Abbreviation fair := (rpcExecutionFairBudget MA MS).

Definition fair_do (op : fair_op) (b : fair) : option (option nat * fair) :=
  match op with
  | OpReserve key pending => Some (fair_reserve key pending b)
  | OpReleasePending r => (λ b', (None, b')) <$> releasePending r b
  | OpRelease r => (λ b', (None, b')) <$> fair_release r b
  end.

(** The reservations handed out and the final budget; [None] after a panic. *)
Fixpoint fair_run (ops : list fair_op) (b : fair) : option (list (option nat) * fair) :=
  match ops with
  | [] => Some ([], b)
  | op :: ops' =>
      match fair_do op b with
      | None => None
      | Some (o, b') =>
          match fair_run ops' b' with
          | None => None
          | Some (os, b'') => Some (o :: os, b'')
          end
      end
  end.

(** [newRPCExecutionFairBudget] over empty tables. *)
Definition newRPCExecutionFairBudget (emptyA : MA) (emptyS : MS) (globalMax authLimit
    sessionLimit pendingPerAuth : Z) : fair :=
  mkFair (mkLimit globalMax 0) authLimit sessionLimit pendingPerAuth emptyA emptyS ∅ 0.
End fair_run.

Section fair_theorems.
Context {MA MS : Type}.
Context `{!UsageMap Z rpcExecutionBudgetUsage MA} `{!UsageMapLaws Z rpcExecutionBudgetUsage MA}.
Context `{!UsageMap sessionKey rpcExecutionBudgetUsage MS}
        `{!UsageMapLaws sessionKey rpcExecutionBudgetUsage MS}.
Abbreviation fair := (rpcExecutionFairBudget MA MS).

Lemma newFair_inv (ea : MA) (es : MS) g al sl pp :
  (∀ a, um_get a ea = None) → (∀ sk, um_get sk es = None) →
  g ≤ max_int64 → al ≤ max_int64 → sl ≤ max_int64 → pp ≤ max_int64 →
  fair_inv (newRPCExecutionFairBudget ea es g al sl pp).
Proof.
  intros Ha Hs ????. split; simpl.
  - done.
  - unfold limit_wf; simpl. lia.
  - by rewrite sum_map_empty.
  - intros a. unfold authSnapshot, capped; simpl. rewrite Ha, !sum_map_empty. simpl. lia.
  - intros sk. unfold sessionSnapshot, capped; simpl. rewrite Hs, !sum_map_empty. simpl. lia.
  - split; congruence.
  - apply map_Forall_empty.
  - done.
Qed.

Lemma fair_run_total ops (b : fair) :
  fair_inv b → ∃ os b', fair_run ops b = Some (os, b') ∧ fair_inv b' ∧
    bd_authLimit b' = bd_authLimit b ∧ bd_sessionLimit b' = bd_sessionLimit b ∧
    bd_pendingPerAuth b' = bd_pendingPerAuth b ∧ lim_max (bd_global b') = lim_max (bd_global b).
Proof.
  revert b. induction ops as [|op ops IH]; intros b H; [by do 2 eexists|].
  assert (∃ o b1, fair_do op b = Some (o, b1) ∧ fair_inv b1 ∧
    bd_authLimit b1 = bd_authLimit b ∧ bd_sessionLimit b1 = bd_sessionLimit b ∧
    bd_pendingPerAuth b1 = bd_pendingPerAuth b ∧ lim_max (bd_global b1) = lim_max (bd_global b))
    as (o & b1 & Hdo & H1 & Hf1 & Hf2 & Hf3 & Hf4).
  { destruct op as [key p|r|r]; simpl.
    - pose proof (fair_reserve_inv key p b H) as Hi. rewrite fair_reserve_spec in * by done.
      by destruct (decide _); do 2 eexists.
    - destruct (fair_releasePending_total b r H) as (b' & -> & ? & (? & ? & ? & ? & ?) & ?). by do 2 eexists.
    - destruct (fair_release_total b r H) as (b' & -> & ? & (? & ? & ? & ? & ?) & ?). by do 2 eexists. }
  destruct (IH b1 H1) as (os & b2 & Hrun & ? & ? & ? & ? & ?).
  simpl. rewrite Hdo, Hrun. do 2 eexists. split; [done|]. split; [done|]. split_and!; congruence.
Qed.
End fair_theorems.

Lemma sum_map_mono `{Countable K} {V} (f g : V → Z) (m : gmap K V) :
  map_Forall (λ _ v, f v ≤ g v) m → sum_map f m ≤ sum_map g m.
Proof.
  induction m as [|i x m Hi IH] using map_ind; intros Hf.
  - by rewrite !sum_map_empty.
  - rewrite !sum_map_insert_new by done. apply map_Forall_insert in Hf as [Hx Hm]; [|done].
    specialize (IH Hm). lia.
Qed.

Section fair_main.
Context (hashA : ShardHash Z) (hashS : ShardHash sessionKey).
Abbreviation shardedBudget :=
  (rpcExecutionFairBudget (sharded Z rpcExecutionBudgetUsage) (sharded sessionKey rpcExecutionBudgetUsage)).

Lemma fair_rows_gone (b : shardedBudget) :
  fair_inv b → sum_map live (bd_objs b) = 0 →
  (∀ a, um_get a (bd_auth b) = None) ∧ (∀ sk, um_get sk (bd_session b) = None).
Proof.
  intros H H0. destruct (bi_rows b H) as [Ha Hs]. split.
  - intros a. destruct (um_get a (bd_auth b)) as [u|] eqn:E; [|done]. exfalso.
    apply (Ha a). rewrite E. f_equal.
    pose proof (bi_auth b H a) as (He & Hp & [Hc1 _] & [Hc2 _]).
    unfold authSnapshot in *. rewrite E in *. simpl in *.
    assert (sum_map (live_auth a) (bd_objs b) ≤ sum_map live (bd_objs b)).
    { apply sum_map_mono. intros i o _. unfold live_auth, live.
      destruct (rs_released o), (bool_decide _); simpl; lia. }
    assert (sum_map (pending_auth a) (bd_objs b) ≤ sum_map live (bd_objs b)).
    { apply sum_map_mono. intros i o Ho. unfold pending_auth, live.
      pose proof (bi_objs b H i o Ho) as Hrel. simpl in Hrel.
      destruct (rs_released o); [rewrite (Hrel eq_refl); simpl; lia|].
      destruct (rs_pending o), (bool_decide _); simpl; lia. }
    destruct u; unfold usage0; simpl in *. f_equal; lia.
  - intros sk. destruct (um_get sk (bd_session b)) as [u|] eqn:E; [|done]. exfalso.
    apply (Hs sk). rewrite E. f_equal.
    pose proof (bi_session b H sk) as (He & Hp & [Hc1 _]).
    unfold sessionSnapshot in *. rewrite E in *. simpl in *.
    assert (sum_map (live_session sk) (bd_objs b) ≤ sum_map live (bd_objs b)).
    { apply sum_map_mono. intros i o _. unfold live_session, live.
      destruct (rs_released o), (bool_decide _); simpl; lia. }
    destruct u; unfold usage0; simpl in *. f_equal; lia.
Qed.

(** C2: the three-scope budget is exact and panic-free.  Whatever sequence of
    reservations, pending releases and releases is performed - repeated and
    stale releases included - and whatever the hash seed, no panic occurs;
    the process counter and every auth and session row equal the number of
    live reservations of that scope; no scope exceeds its limit; and once
    everything is released no table keeps a row. *)
Theorem fair_budget_safe (g al sl pp : Z) (ops : list fair_op)
    (Hg : g ≤ max_int64) (Ha : al ≤ max_int64) (Hs : sl ≤ max_int64) (Hp : pp ≤ max_int64) :
  ∃ os (b : shardedBudget),
    fair_run ops (newRPCExecutionFairBudget (Sharded ∅) (Sharded ∅) g al sl pp) = Some (os, b) ∧
    lim_used (bd_global b) = sum_map live (bd_objs b) ∧ capped (sum_map live (bd_objs b)) g ∧
    (∀ a, authSnapshot a b = mkUsage (sum_map (live_auth a) (bd_objs b))
                                     (sum_map (pending_auth a) (bd_objs b)) ∧
          capped (sum_map (live_auth a) (bd_objs b)) al ∧
          capped (sum_map (pending_auth a) (bd_objs b)) pp) ∧
    (∀ sk, sessionSnapshot sk b = mkUsage (sum_map (live_session sk) (bd_objs b)) 0 ∧
           capped (sum_map (live_session sk) (bd_objs b)) sl) ∧
    (sum_map live (bd_objs b) = 0 →
     (∀ a, um_get a (bd_auth b) = None) ∧ (∀ sk, um_get sk (bd_session b) = None)).
Proof.
  destruct (fair_run_total ops
    (newRPCExecutionFairBudget (MA:=sharded Z _) (MS:=sharded sessionKey _) (Sharded ∅) (Sharded ∅) g al sl pp))
    as (os & b & Hrun & H & Hl1 & Hl2 & Hl3 & Hl4).
  { apply newFair_inv; try done; intros k; apply um_get_sharded_empty. }
  simpl in Hl1, Hl2, Hl3, Hl4.
  exists os, b. split; [done|]. split; [apply H|]. split_and!.
  - pose proof (bi_global b H) as (_ & ? & ?). rewrite (bi_live b H) in *. unfold capped. lia.
  - intros a. pose proof (bi_auth b H a) as (He & Hpe & Hc & Hcp).
    rewrite He, Hpe, ?Hl1, ?Hl3 in *. split; [|done].
    destruct (authSnapshot a b); simpl in *; congruence.
  - intros sk. pose proof (bi_session b H sk) as (He & Hpe & Hc).
    rewrite He, ?Hl2 in *. split; [|done].
    destruct (sessionSnapshot sk b); simpl in *; congruence.
  - by apply fair_rows_gone.
Qed.

Definition flatBudget : Type :=
  rpcExecutionFairBudget (gmap Z rpcExecutionBudgetUsage) (gmap sessionKey rpcExecutionBudgetUsage).

Definition fair_sim (b1 : shardedBudget) (b2 : flatBudget) : Prop :=
  bd_global b1 = bd_global b2 ∧ bd_authLimit b1 = bd_authLimit b2 ∧
  bd_sessionLimit b1 = bd_sessionLimit b2 ∧ bd_pendingPerAuth b1 = bd_pendingPerAuth b2 ∧
  um_sim (bd_auth b1) (bd_auth b2) ∧ um_sim (bd_session b1) (bd_session b2) ∧
  bd_objs b1 = bd_objs b2 ∧ bd_next b1 = bd_next b2.

Definition opt_rel {A B} (R : A → B → Prop) (x : option A) (y : option B) : Prop :=
  match x, y with Some a, Some b => R a b | None, None => True | _, _ => False end.

Lemma put_usage_sim {K M1 M2} `{UsageMapLaws K rpcExecutionBudgetUsage M1}
    `{!UsageMap K rpcExecutionBudgetUsage M2} `{!UsageMapLaws K rpcExecutionBudgetUsage M2}
    k u (m1 : M1) (m2 : M2) : um_sim m1 m2 → um_sim (put_usage k u m1) (put_usage k u m2).
Proof. intros. unfold put_usage. destruct (decide _); [by apply um_sim_del|by apply um_sim_set]. Qed.

Lemma fair_do_sim op b1 b2 :
  fair_sim b1 b2 →
  opt_rel (λ r1 r2, r1.1 = r2.1 ∧ fair_sim r1.2 r2.2) (fair_do op b1) (fair_do op b2).
Proof.
  destruct b1 as [g1 al1 sl1 pp1 a1 s1 o1 n1], b2 as [g2 al2 sl2 pp2 a2 s2 o2 n2].
  intros (Hg & Hal & Hsl & Hpp & Ha & Hs & Ho & Hn); cbn in Hg, Hal, Hsl, Hpp, Ha, Hs, Ho, Hn; subst.
  destruct op as [key p|r|r]; unfold fair_do.
  - unfold fair_reserve, authSnapshot, sessionSnapshot; cbn [bd_auth bd_session bd_authLimit
      bd_sessionLimit bd_pendingPerAuth bd_global bd_next bd_objs].
    rewrite (Ha (authKeyID key)), (Hs (key_session key)).
    destruct (negb _); [by split|]. destruct (limit_reserve g2) as [[] g']; simpl; [|by split].
    split; [done|]. split_and!; cbn; try done; by apply um_sim_set.
  - unfold releasePending; cbn [bd_objs bd_auth bd_session bd_authLimit bd_sessionLimit
      bd_pendingPerAuth bd_global bd_next]. destruct (o2 !! r) as [o|]; [|by split].
    destruct (_ || _); [by split|]. rewrite (Ha (authKeyID (rs_key o))).
    destruct (um_get _ a2) as [u|]; [|done]. destruct (_ <? 1); [done|]. simpl.
    split; [done|]. split_and!; cbn; try done; by apply um_sim_set.
  - unfold fair_release; cbn [bd_objs bd_auth bd_session bd_authLimit bd_sessionLimit
      bd_pendingPerAuth bd_global bd_next]. destruct (o2 !! r) as [o|]; [|by split].
    destruct (rs_released o); [by split|].
    rewrite (Ha (authKeyID (rs_key o))), (Hs (key_session (rs_key o))).
    destruct (um_get _ a2) as [u|]; [|done]. destruct (um_get _ s2) as [v|]; [|done].
    destruct (_ || _); [done|]. destruct (limit_release g2); [|done]. simpl.
    split; [done|]. split_and!; cbn; try done; by apply put_usage_sim.
Qed.

(** The 64-way sharded tables refine the flat map.  For every hash seed and
    every sequence of operations the sharded budget hands out exactly the
    reservations (and panics exactly when) a budget over one map per scope
    does, and every row reads the same afterwards. *)
Theorem fair_budget_refines_flat (g al sl pp : Z) (ops : list fair_op) :
  opt_rel (λ r1 r2, r1.1 = r2.1 ∧ fair_sim r1.2 r2.2)
    (fair_run ops (newRPCExecutionFairBudget (Sharded ∅) (Sharded ∅) g al sl pp))
    (fair_run ops (newRPCExecutionFairBudget ∅ ∅ g al sl pp)).
Proof.
  assert (∀ b1 b2, fair_sim b1 b2 →
    opt_rel (λ r1 r2, r1.1 = r2.1 ∧ fair_sim r1.2 r2.2) (fair_run ops b1) (fair_run ops b2)) as Hgen.
  { induction ops as [|op ops' IH]; intros b1 b2 Hsim; [by split|]. cbn [fair_run].
    pose proof (fair_do_sim op b1 b2 Hsim) as Hdo.
    destruct (fair_do op b1) as [[o1 b1']|], (fair_do op b2) as [[o2 b2']|]; try done.
    destruct Hdo as [Ho Hsim']; simpl in Ho, Hsim'; subst o2.
    specialize (IH b1' b2' Hsim').
    destruct (fair_run ops' b1') as [[os1 c1]|], (fair_run ops' b2') as [[os2 c2]|]; try done.
    destruct IH as [Hos Hc]; simpl in *; subst. by split. }
  apply Hgen. split_and!; try done; intros k; cbn; by rewrite um_get_sharded_empty, um_get_gmap_empty.
Qed.
End fair_main.


Definition demoHashA : ShardHash Z := λ a, a * 7 + 3.
Definition demoHashS : ShardHash sessionKey := λ sk, sk.1 * 5 + sk.2.

Definition demoOps : list fair_op :=
  [OpReserve (mkKey 1 10 100) true; OpReserve (mkKey 1 10 101) true; OpReserve (mkKey 1 11 102) true;
   OpReleasePending 0; OpReserve (mkKey 1 11 103) true; OpRelease 0; OpRelease 0; OpRelease 3].

(** The run of [demoOps] under limits 3/3/2/2: the third request finds the auth
    key's two pending slots taken, and gets one once the first has completed. *)
Example demo_fair_run :
  fst <$> fair_run demoOps
    (newRPCExecutionFairBudget (MA:=gmap Z rpcExecutionBudgetUsage)
       (MS:=gmap sessionKey rpcExecutionBudgetUsage) ∅ ∅ 3 3 2 2)
  = Some [Some 0; Some 1; None; None; Some 2; None; None; None]%nat.
Proof. vm_compute. reflexivity. Qed.

Lemma fair_budget_safe_witness :
  3 ≤ max_int64 ∧
  ∃ os (b : rpcExecutionFairBudget (sharded Z rpcExecutionBudgetUsage)
              (sharded sessionKey rpcExecutionBudgetUsage)),
    @fair_run _ _ (@sharded_usage _ _ _ demoHashA _) (@sharded_usage _ _ _ demoHashS _) demoOps
      (newRPCExecutionFairBudget (Sharded ∅) (Sharded ∅) 3 3 2 2) = Some (os, b).
Proof.
  split; [vm_compute; congruence|].
  destruct (fair_budget_safe demoHashA demoHashS 3 3 2 2 demoOps) as (os & b & Hrun & _);
    [vm_compute; congruence..|].
  exists os, b. exact Hrun.
Defined.

(** * The subscriber budget

    Callbacks retained by pending flights, charged by the slot. *)

Section subscriber_budget.
Context {MA MS : Type}.
Context `{!UsageMap Z Z MA} `{!UsageMap sessionKey Z MS}.

Record rpcResultSubscriberBudget := mkSub {
  sb_global : rpcResultFlightLimit;
  sb_authLimit : Z;
  sb_sessionLimit : Z;
  sb_auth : MA;
  sb_session : MS;
}.

Definition newRPCResultSubscriberBudget (emptyA : MA) (emptyS : MS)
    (globalLimit authLimit sessionLimit : Z) : rpcResultSubscriberBudget :=
  mkSub (mkLimit globalLimit 0) authLimit sessionLimit emptyA emptyS.

Definition sub_authSnapshot (a : Z) (b : rpcResultSubscriberBudget) : Z :=
  default 0 (um_get a (sb_auth b)).
Definition sub_sessionSnapshot (sk : sessionKey) (b : rpcResultSubscriberBudget) : Z :=
  default 0 (um_get sk (sb_session b)).

Definition sub_reserve (key : rpcExecutionKey) (slots : Z) (b : rpcResultSubscriberBudget)
    : bool * rpcResultSubscriberBudget :=
  if slots <=? 0 then (false, b)
  else
    let authUsed := sub_authSnapshot (authKeyID key) b in
    let sessionUsed := sub_sessionSnapshot (key_session key) b in
    if negb (withinRPCExecutionBudget authUsed slots (sb_authLimit b))
       || negb (withinRPCExecutionBudget sessionUsed slots (sb_sessionLimit b))
    then (false, b)
    else
      let '(ok, global) := reserveN slots (sb_global b) in
      if negb ok then (false, b)
      else (true, mkSub global (sb_authLimit b) (sb_sessionLimit b)
              (um_set (authKeyID key) (authUsed +₆₄ slots) (sb_auth b))
              (um_set (key_session key) (sessionUsed +₆₄ slots) (sb_session b))).

Definition put_count {K M} `{!UsageMap K Z M} (k : K) (n : Z) (m : M) : M :=
  if n =? 0 then um_del k m else um_set k n m.

(** [None]: the panics on non-positive slots and on underflow. *)
Definition sub_release (key : rpcExecutionKey) (slots : Z) (b : rpcResultSubscriberBudget)
    : option rpcResultSubscriberBudget :=
  if slots <=? 0 then None
  else
    match um_get (authKeyID key) (sb_auth b), um_get (key_session key) (sb_session b) with
    | Some authUsed, Some sessionUsed =>
        if (authUsed <? slots) || (sessionUsed <? slots) then None
        else
          match releaseN slots (sb_global b) with
          | None => None
          | Some global =>
              Some (mkSub global (sb_authLimit b) (sb_sessionLimit b)
                (put_count (authKeyID key) (authUsed -₆₄ slots) (sb_auth b))
                (put_count (key_session key) (sessionUsed -₆₄ slots) (sb_session b)))
          end
    | _, _ => None
    end.
End subscriber_budget.
Arguments rpcResultSubscriberBudget : clear implicits.

Section subscriber_inv.
Context {MA MS : Type}.
Context `{!UsageMap Z Z MA} `{!UsageMapLaws Z Z MA}.
Context `{!UsageMap sessionKey Z MS} `{!UsageMapLaws sessionKey Z MS}.
Abbreviation subs := (rpcResultSubscriberBudget MA MS).
Implicit Types b : subs.

(** The rows are the charges [fa], [fs] of what is outstanding. *)
Record sub_inv (total : Z) (fa : Z → Z) (fs : sessionKey → Z) b : Prop := {
  si_limits : sb_authLimit b ≤ max_int64 ∧ sb_sessionLimit b ≤ max_int64;
  si_global : limit_wf (sb_global b) ∧ lim_used (sb_global b) = total;
  si_auth a : sub_authSnapshot a b = fa a ∧ capped (fa a) (sb_authLimit b) ∧
              um_get a (sb_auth b) ≠ Some 0;
  si_session sk : sub_sessionSnapshot sk b = fs sk ∧ capped (fs sk) (sb_sessionLimit b) ∧
                  um_get sk (sb_session b) ≠ Some 0;
}.

Lemma capped_within_n n limit d :
  capped n limit → limit ≤ max_int64 → 0 < d → in_int64 d →
  withinRPCExecutionBudget n d limit = bool_decide (n + d ≤ limit).
Proof.
  intros [H0 Hc] Hl Hd Hr. unfold withinRPCExecutionBudget.
  replace (0 <=? d) with true by (symmetry; apply Z.leb_le; lia). simpl.
  case_bool_decide as Hdec.
  - unwrap64. rewrite !andb_true_iff, Z.ltb_lt, !Z.leb_le. lia.
  - destruct (0 <? limit) eqn:E1; [|done]. destruct (0 <=? n) eqn:E2; [|done]. simpl. bool_facts.
    unwrap64. apply Z.leb_gt. lia.
Qed.

Lemma sub_reserve_spec total fa fs b key n :
  sub_inv total fa fs b → 0 < n → in_int64 n →
  let a := authKeyID key in let sk := key_session key in
  (sub_reserve key n b = (false, b) ∧
   ¬ (total + n ≤ lim_max (sb_global b) ∧ fa a + n ≤ sb_authLimit b ∧ fs sk + n ≤ sb_sessionLimit b)) ∨
  (total + n ≤ lim_max (sb_global b) ∧ fa a + n ≤ sb_authLimit b ∧ fs sk + n ≤ sb_sessionLimit b) ∧
  ∃ b', sub_reserve key n b = (true, b') ∧
    sub_inv (total + n) (λ a', if decide (a = a') then fa a' + n else fa a')
            (λ s', if decide (sk = s') then fs s' + n else fs s') b' ∧
    sb_authLimit b' = sb_authLimit b ∧ sb_sessionLimit b' = sb_sessionLimit b ∧
    lim_max (sb_global b') = lim_max (sb_global b).
Proof.
  intros H Hn Hi a sk. pose proof (si_limits _ _ _ b H) as [Hl1 Hl2].
  pose proof (si_global _ _ _ b H) as [Hg Ht].
  pose proof (si_auth _ _ _ b H a) as (Ha & Hca & Hra).
  pose proof (si_session _ _ _ b H sk) as (Hs & Hcs & Hrs).
  unfold sub_reserve. replace (n <=? 0) with false by (symmetry; apply Z.leb_gt; lia).
  fold a sk. rewrite Ha, Hs, !capped_within_n, reserveN_spec, Ht by done.
  destruct (bool_decide (fa a + n ≤ _)) eqn:E1; bool_facts; simpl; [|left; split; [done|lia]].
  destruct (bool_decide (fs sk + n ≤ _)) eqn:E2; bool_facts; simpl; [|left; split; [done|lia]].
  destruct (bool_decide (0 < n ∧ _)) eqn:E3; bool_facts; simpl; [|left; split; [done|lia]].
  right. split; [lia|]. eexists. split; [done|]. split; [|done].
  unfold capped in *. unwrap64.
  split; simpl; [done| | |].
  - split; [|lia]. destruct Hg as (? & ? & ?). unfold limit_wf; simpl. lia.
  - intros a'. pose proof (si_auth _ _ _ b H a') as (Ha' & Hca' & Hra').
    unfold sub_authSnapshot; simpl. rewrite um_get_set. destruct (decide (a = a')) as [<-|]; [|done].
    split; [done|]. unfold capped. split; [lia|]. intros [=]. lia.
  - intros s'. pose proof (si_session _ _ _ b H s') as (Hs' & Hcs' & Hrs').
    unfold sub_sessionSnapshot; simpl. rewrite um_get_set. destruct (decide (sk = s')) as [<-|]; [|done].
    split; [done|]. unfold capped. split; [lia|]. intros [=]. lia.
Qed.

Lemma put_count_get {K M} `{UsageMapLaws K Z M} (k k' : K) n (m : M) :
  um_get k' (put_count k n m) =
  if decide (k = k') then (if n =? 0 then None else Some n) else um_get k' m.
Proof.
  unfold put_count. destruct (n =? 0); [rewrite um_get_del|rewrite um_get_set]; by destruct (decide _).
Qed.

Lemma sub_release_spec total fa fs b key n :
  sub_inv total fa fs b → 0 < n → in_int64 n →
  let a := authKeyID key in let sk := key_session key in
  n ≤ total → n ≤ fa a → n ≤ fs sk →
  ∃ b', sub_release key n b = Some b' ∧
    sub_inv (total - n) (λ a', if decide (a = a') then fa a' - n else fa a')
            (λ s', if decide (sk = s') then fs s' - n else fs s') b' ∧
    sb_authLimit b' = sb_authLimit b ∧ sb_sessionLimit b' = sb_sessionLimit b ∧
    lim_max (sb_global b') = lim_max (sb_global b).
Proof.
  intros H Hn Hi a sk Hnt Hna Hns. pose proof (si_limits _ _ _ b H) as [Hl1 Hl2].
  pose proof (si_global _ _ _ b H) as [Hg Ht].
  pose proof (si_auth _ _ _ b H a) as (Ha & Hca & Hra).
  pose proof (si_session _ _ _ b H sk) as (Hs & Hcs & Hrs).
  assert (um_get a (sb_auth b) = Some (fa a)) as Hga.
  { unfold sub_authSnapshot in Ha. destruct (um_get a _); simpl in *; [congruence|lia]. }
  assert (um_get sk (sb_session b) = Some (fs sk)) as Hgs.
  { unfold sub_sessionSnapshot in Hs. destruct (um_get sk _); simpl in *; [congruence|lia]. }
  unfold sub_release. replace (n <=? 0) with false by (symmetry; apply Z.leb_gt; lia).
  fold a sk. rewrite Hga, Hgs.
  replace (_ || _) with false by (symmetry; rewrite orb_false_iff, !Z.ltb_ge; lia).
  rewrite releaseN_spec by (done || lia). eexists. split; [done|]. split; [|done].
  assert (0 ≤ max_int64) by (vm_compute; congruence).
  unfold capped in *. unwrap64. split; simpl; [done| | |].
  - split; [|lia]. destruct Hg as (? & ? & ?). unfold limit_wf; simpl. lia.
  - intros a'. pose proof (si_auth _ _ _ b H a') as (Ha' & Hca' & Hra').
    unfold sub_authSnapshot; simpl. rewrite put_count_get. destruct (decide (a = a')) as [<-|]; [|done].
    unfold capped. destruct (fa a - n =? 0) eqn:E; bool_facts; simpl;
      (split; [lia|split; [lia|]]); [done|]. intros [=]. lia.
  - intros s'. pose proof (si_session _ _ _ b H s') as (Hs' & Hcs' & Hrs').
    unfold sub_sessionSnapshot; simpl. rewrite put_count_get. destruct (decide (sk = s')) as [<-|]; [|done].
    unfold capped. destruct (fs sk - n =? 0) eqn:E; bool_facts; simpl;
      (split; [lia|split; [lia|]]); [done|]. intros [=]. lia.
Qed.
End subscriber_inv.
