(* ===== verification/AdmissionTracker.v ===== *)
(** Admission sequences: [internal/mtprotoedge/rpc_admission_tracker.go].

    Every identified request gets a sequence number from an atomic counter and
    stays registered, in one of 64 shards, until its owner completes or aborts.
    [stableSafeFloor] reports the lowest number that can still publish.  The
    allocation is not one atomic step - the counter moves before the number is
    registered - and the reader/writer barrier is what keeps the scan from
    missing a number in that gap; the file has both the sequential operations
    and the interleaved steps. *)

From S2P Require Import Prelude.

Open Scope Z_scope.

Definition rpcAdmissionTrackerShards : Z := 64.

(** [t.shards[i].active] for the shards that have one. *)
Record rpcAdmissionTracker := mkTracker { tr_shards : gmap nat (gset Z) }.

Definition tr_empty : rpcAdmissionTracker := mkTracker ∅.

Definition tr_index (sequence : Z) : nat :=
  Z.to_nat (Z.land sequence (rpcAdmissionTrackerShards - 1)).
Definition tr_shard (i : nat) (t : rpcAdmissionTracker) : gset Z := default ∅ (tr_shards t !! i).
Definition tr_active (t : rpcAdmissionTracker) (sequence : Z) : Prop :=
  sequence ∈ tr_shard (tr_index sequence) t.
#[export] Instance tr_active_dec t s : Decision (tr_active t s).
Proof. unfold tr_active. apply _. Defined.

Definition register (sequence : Z) (t : rpcAdmissionTracker) : rpcAdmissionTracker :=
  let i := tr_index sequence in mkTracker (<[i := {[sequence]} ∪ tr_shard i t]> (tr_shards t)).

(** The counter's step: [None] is [ErrRPCAdmissionSeqExhausted]. *)
Definition nextSequence (current : Z) : option Z :=
  if current =? max_uint64 then None else Some (current + 1).

(** Without interference the compare-and-swap succeeds at once. *)
Definition allocateAndRegister (next : Z) (t : rpcAdmissionTracker)
    : option (Z * rpcAdmissionTracker) :=
  match nextSequence next with
  | None => None
  | Some sequence => Some (sequence, register sequence t)
  end.

(** [None]: the panic on retiring a sequence that is not registered. *)
Definition retire (sequence : Z) (t : rpcAdmissionTracker) : option rpcAdmissionTracker :=
  if sequence =? 0 then Some t
  else
    let i := tr_index sequence in
    if decide (sequence ∈ tr_shard i t)
    then Some (mkTracker (<[i := tr_shard i t ∖ {[sequence]}]> (tr_shards t)))
    else None.

(** The body of the scan: keep the smallest, 0 meaning none yet. *)
Definition scan_min (minimum sequence : Z) : Z :=
  if (minimum =? 0) || (sequence <? minimum) then sequence else minimum.

Definition scan_shard (t : rpcAdmissionTracker) (minimum : Z) (i : nat) : Z :=
  foldl scan_min minimum (elements (tr_shard i t)).

Definition stableSafeFloor (next : Z) (t : rpcAdmissionTracker) : Z :=
  let minimum := foldl (scan_shard t) 0 (seq 0 64) in
  if negb (minimum =? 0) then minimum
  else if next =? max_uint64 then max_uint64 else next + 1.

(** * Sequential facts *)

Lemma tr_index_bound s : (tr_index s < 64)%nat.
Proof.
  unfold tr_index, rpcAdmissionTrackerShards. change (64 - 1) with (Z.ones 6).
  rewrite Z.land_ones by lia. pose proof (Z.mod_pos_bound s (2 ^ 6) eq_refl).
  change (2 ^ 6) with 64 in *. lia.
Qed.

Lemma tr_shard_update i j g t :
  tr_shard j (mkTracker (<[i := g]> (tr_shards t))) = if decide (i = j) then g else tr_shard j t.
Proof. unfold tr_shard; simpl. rewrite lookup_insert. by destruct (decide _). Qed.

Lemma register_active s t s' : tr_active (register s t) s' ↔ s' = s ∨ tr_active t s'.
Proof.
  unfold tr_active, register. rewrite tr_shard_update.
  destruct (decide (tr_index s = tr_index s')) as [He|Hne].
  - rewrite He. set_solver.
  - split; [auto|]. intros [->|]; done.
Qed.

Lemma retire_active s t t' :
  retire s t = Some t' → ∀ s', tr_active t' s' ↔ tr_active t s' ∧ (s = 0 ∨ s' ≠ s).
Proof.
  unfold retire. destruct (s =? 0) eqn:E0; bool_facts.
  { intros [= <-] s'. tauto. }
  destruct (decide _) as [Hin|]; [|done]. intros [= <-] s'. unfold tr_active.
  rewrite tr_shard_update. destruct (decide (tr_index s = tr_index s')) as [He|Hne].
  - rewrite He. set_solver.
  - split; [|tauto]. intros. split; [done|]. right. by intros ->.
Qed.

Lemma retire_Some s t : s = 0 ∨ tr_active t s → is_Some (retire s t).
Proof.
  unfold retire, tr_active. intros H. destruct (s =? 0) eqn:E0; bool_facts; [done|].
  rewrite decide_True by (by destruct H). done.
Qed.

(** ** The scan computes the minimum *)

(** [m] is the least positive element seen so far, 0 if none was. *)
Definition is_min (m : Z) (P : Z → Prop) : Prop :=
  (m = 0 ∧ ∀ s, ¬ P s) ∨ (P m ∧ 0 < m ∧ ∀ s, P s → m ≤ s).

Lemma is_min_ext m (P Q : Z → Prop) : (∀ s, P s ↔ Q s) → is_min m P → is_min m Q.
Proof. intros H [[-> Hn]|(Hm & Hp & Hl)]; [left|right]; naive_solver. Qed.

Lemma scan_list_min l m P :
  Forall (λ s, 0 < s) l → is_min m P → is_min (foldl scan_min m l) (λ s, P s ∨ s ∈ l).
Proof.
  revert m P. induction l as [|x l IH]; intros m P Hl Hm; simpl.
  { eapply is_min_ext; [|exact Hm]. set_solver. }
  apply Forall_cons in Hl as [Hx Hl].
  eapply is_min_ext; [|apply (IH _ (λ s, P s ∨ s = x)); [done|]].
  { set_solver. }
  unfold scan_min. destruct (_ || _) eqn:E; bool_facts.
  - right. split; [auto|]. split; [done|]. intros s [Hs| ->]; [|lia].
    destruct Hm as [[-> Hn]|(? & ? & Hle)]; [by destruct (Hn s)|].
    specialize (Hle s Hs). destruct E as [E|E]; bool_facts; lia.
  - destruct Hm as [[-> _]|(? & ? & Hle)]; [lia|].
    right. split; [auto|]. split; [done|]. intros s [Hs| ->]; [by apply Hle|lia].
Qed.

Lemma scan_shards_min t idx m P :
  (∀ i s, s ∈ tr_shard i t → 0 < s) → is_min m P →
  is_min (foldl (scan_shard t) m idx) (λ s, P s ∨ ∃ i, i ∈ idx ∧ s ∈ tr_shard i t).
Proof.
  intros Hpos. revert m P. induction idx as [|i idx IH]; intros m P Hm; simpl.
  { eapply is_min_ext; [|exact Hm]. set_solver. }
  eapply is_min_ext; [|apply (IH _ (λ s, P s ∨ s ∈ elements (tr_shard i t)))].
  { intros s. setoid_rewrite elem_of_elements. setoid_rewrite elem_of_cons. naive_solver. }
  apply scan_list_min; [|done]. apply Forall_forall. intros s Hs%elem_of_elements. eauto.
Qed.

(** Registered numbers are where their index says, and positive. *)
Definition tracker_wf (t : rpcAdmissionTracker) : Prop :=
  ∀ i s, s ∈ tr_shard i t → i = tr_index s ∧ 0 < s.

Lemma stableSafeFloor_spec next t :
  tracker_wf t → 0 ≤ next →
  let f := stableSafeFloor next t in
  (tr_active t f ∧ ∀ s, tr_active t s → f ≤ s) ∨
  ((∀ s, ¬ tr_active t s) ∧ f = if next =? max_uint64 then max_uint64 else next + 1).
Proof.
  intros Hwf Hn. unfold stableSafeFloor.
  assert (is_min (foldl (scan_shard t) 0 (seq 0 64)) (tr_active t)) as Hm.
  { eapply is_min_ext; [|apply (scan_shards_min t _ 0 (λ _, False))].
    - intros s. split.
      + intros [[]|(i & Hi & Hs)]. destruct (Hwf i s Hs) as [-> _]. done.
      + intros Hs. right. exists (tr_index s). split; [|done].
        apply elem_of_seq. pose proof (tr_index_bound s). lia.
    - intros i s Hs. by apply (Hwf i).
    - left. split; [done|]. tauto. }
  destruct Hm as [[-> Hnone]|(Ha & Hp & Hle)]; [by right|].
  replace (_ =? 0) with false by (symmetry; apply Z.eqb_neq; lia). simpl. by left.
Qed.

(** * Interleaved allocation and scanning *)

(** Where a goroutine stands inside [allocateAndRegister]; it holds the
    barrier for reading in all four. *)
Inductive alloc_phase :=
  | ALocked                        (* about to load the counter *)
  | ALoaded (current : Z)          (* about to compare-and-swap *)
  | AWon (sequence : Z)            (* swapped, not yet in a shard *)
  | ARegistered (sequence : Z).    (* in its shard, about to unlock *)

Record admissionWorld := mkAW {
  aw_next : Z;
  aw_tracker : rpcAdmissionTracker;
  aw_alloc : gmap nat alloc_phase;
  aw_scan : option (nat * Z);      (* the barrier's writer: shards done, minimum so far *)
  aw_issued : list Z;              (* the sequences swapped in, latest first *)
  aw_floors : list Z;              (* the floors returned, latest first *)
}.

Definition aw_init : admissionWorld := mkAW 0 tr_empty ∅ None [] [].

(** The value [stableSafeFloor] returns for a scan's minimum. *)
Definition floor_of (next minimum : Z) : Z :=
  if negb (minimum =? 0) then minimum
  else if next =? max_uint64 then max_uint64 else next + 1.

Inductive admission_step : admissionWorld → admissionWorld → Prop :=
  | a_rlock tid next t al iss fs :
      al !! tid = None →
      admission_step (mkAW next t al None iss fs) (mkAW next t (<[tid := ALocked]> al) None iss fs)
  | a_exhausted tid next t al sc iss fs :
      al !! tid = Some ALocked → nextSequence next = None →
      admission_step (mkAW next t al sc iss fs) (mkAW next t (delete tid al) sc iss fs)
  | a_load tid next t al sc iss fs s :
      al !! tid = Some ALocked → nextSequence next = Some s →
      admission_step (mkAW next t al sc iss fs) (mkAW next t (<[tid := ALoaded next]> al) sc iss fs)
  | a_swap tid next t al sc iss fs :
      al !! tid = Some (ALoaded next) →
      admission_step (mkAW next t al sc iss fs)
        (mkAW (next + 1) t (<[tid := AWon (next + 1)]> al) sc (next + 1 :: iss) fs)
  | a_lost tid next t al sc iss fs current :
      al !! tid = Some (ALoaded current) → current ≠ next →
      admission_step (mkAW next t al sc iss fs) (mkAW next t (<[tid := ALocked]> al) sc iss fs)
  | a_register tid next t al sc iss fs s :
      al !! tid = Some (AWon s) →
      admission_step (mkAW next t al sc iss fs)
        (mkAW next (register s t) (<[tid := ARegistered s]> al) sc iss fs)
  | a_runlock tid next t al sc iss fs s :
      al !! tid = Some (ARegistered s) →
      admission_step (mkAW next t al sc iss fs) (mkAW next t (delete tid al) sc iss fs)
  | a_retire next t t' al sc iss fs s :            (* takes its shard's lock only *)
      tr_active t s → retire s t = Some t' →
      admission_step (mkAW next t al sc iss fs) (mkAW next t' al sc iss fs)
  | a_lock next t iss fs :                         (* no reader is left *)
      admission_step (mkAW next t ∅ None iss fs) (mkAW next t ∅ (Some (0%nat, 0)) iss fs)
  | a_scan next t al iss fs i m :
      (i < 64)%nat →
      admission_step (mkAW next t al (Some (i, m)) iss fs)
        (mkAW next t al (Some (S i, scan_shard t m i)) iss fs)
  | a_return next t al iss fs m :
      admission_step (mkAW next t al (Some (64%nat, m)) iss fs)
        (mkAW next t al None iss (floor_of next m :: fs)).

(** The sequence a goroutine has won but not finished publishing. *)
Definition inflight (ph : alloc_phase) (s : Z) : Prop := ph = AWon s.

Record admission_inv (w : admissionWorld) : Prop := {
  ai_next : 0 ≤ aw_next w ≤ max_uint64;
  ai_wf : tracker_wf (aw_tracker w);
  ai_active s : tr_active (aw_tracker w) s → s ∈ aw_issued w;
  ai_issued s : s ∈ aw_issued w → 0 < s ≤ aw_next w;
  ai_fresh : NoDup (aw_issued w);
  ai_won tid s : aw_alloc w !! tid = Some (AWon s) → s ∈ aw_issued w;
  ai_loaded tid c : aw_alloc w !! tid = Some (ALoaded c) → 0 ≤ c < max_uint64;
  ai_floor f : f ∈ aw_floors w → f ≤ aw_next w + 1 ∧ f ≤ max_uint64;
  ai_floor_active f s : f ∈ aw_floors w → tr_active (aw_tracker w) s → f ≤ s;
  ai_floor_won f tid s : f ∈ aw_floors w → aw_alloc w !! tid = Some (AWon s) → f ≤ s;
  ai_sorted : StronglySorted Z.ge (aw_floors w);
  ai_scan i m : aw_scan w = Some (i, m) → aw_alloc w = ∅;
  ai_scan_min i m : aw_scan w = Some (i, m) →
    m = 0 ∨ (m ∈ aw_issued w ∧ ∀ f, f ∈ aw_floors w → f ≤ m);
  ai_scan_le i m s : aw_scan w = Some (i, m) →
    tr_active (aw_tracker w) s → (tr_index s < i)%nat → m ≠ 0 ∧ m ≤ s;
}.

Lemma admission_init : admission_inv aw_init.
Proof.
  assert (∀ i, tr_shard i tr_empty = ∅) as He.
  { intros. unfold tr_shard; simpl. by rewrite lookup_empty. }
  split; simpl; try solve [intros; set_solver].
  - vm_compute. split; congruence.
  - intros i s. rewrite He. set_solver.
  - intros s. unfold tr_active. rewrite He. set_solver.
  - constructor.
  - constructor.
Qed.

Lemma register_wf s t : 0 < s → tracker_wf t → tracker_wf (register s t).
Proof.
  intros Hs Hwf i s'. unfold register. rewrite tr_shard_update.
  destruct (decide (tr_index s = i)) as [<-|]; [|apply Hwf].
  intros [->%elem_of_singleton|Hin]%elem_of_union; [done|by apply Hwf].
Qed.

Lemma retire_wf s t t' : retire s t = Some t' → tracker_wf t → tracker_wf t'.
Proof.
  unfold retire. intros H Hwf i s'. destruct (s =? 0); [simplify_eq; apply Hwf|].
  destruct (decide _); [|done]. injection H as <-. rewrite tr_shard_update.
  destruct (decide (tr_index s = i)) as [<-|]; [|apply Hwf]. intros [? _]%elem_of_difference. by apply Hwf.
Qed.

Lemma scan_list_in l m : foldl scan_min m l = m ∨ foldl scan_min m l ∈ l.
Proof.
  revert m. induction l as [|x l IH]; intros m; simpl; [auto|].
  destruct (IH (scan_min m x)) as [->|]; [|set_solver].
  unfold scan_min. destruct (_ || _); set_solver.
Qed.

Lemma scan_list_le l m :
  0 ≤ m → Forall (λ s, 0 < s) l →
  let r := foldl scan_min m l in
  (m ≠ 0 → r ≠ 0 ∧ r ≤ m) ∧ ∀ s, s ∈ l → r ≠ 0 ∧ r ≤ s.
Proof.
  intros Hm Hl. assert (is_min m (λ s, m ≠ 0 ∧ s = m)) as H0.
  { destruct (decide (m = 0)) as [->|]; [left|right]; split; try lia. split; [lia|].
    intros s [_ ->]. lia. }
  pose proof (scan_list_min l m _ Hl H0) as [[Hr Hn]|(_ & Hp & Hle)]; simpl.
  - split.
    + intros Hm0. destruct (Hn m). by left.
    + intros s Hs. destruct (Hn s). by right.
  - split; intros; (split; [lia|apply Hle; auto]).
Qed.

(** A scan in progress excludes every step of the allocator. *)
Lemma scan_no_alloc w tid ph : admission_inv w → aw_alloc w !! tid = Some ph → aw_scan w = None.
Proof.
  intros H Ht. destruct (aw_scan w) as [[i m]|] eqn:E; [|done].
  rewrite (ai_scan w H i m E) in Ht. by rewrite lookup_empty in Ht.
Qed.

Ltac alloc_cases :=
  repeat match goal with
  | H : <[_ := _]> _ !! _ = Some _ |- _ =>
      apply lookup_insert_Some in H as [[? H]|[? H]]; [try discriminate H; simplify_eq|]
  | H : delete _ _ !! _ = Some _ |- _ => apply lookup_delete_Some in H as [? H]
  end.

Lemma nextSequence_Some n s : nextSequence n = Some s → n ≠ max_uint64 ∧ s = n + 1.
Proof. unfold nextSequence. destruct (_ =? _) eqn:E; bool_facts; [done|]. by intros [= <-]. Qed.

(** A step that only moves a goroutine, without a sequence changing hands. *)
Lemma admission_move next t al iss fs tid al' :
  (∀ tid' s, al' !! tid' = Some (AWon s) → al !! tid' = Some (AWon s)) →
  (∀ tid' c, al' !! tid' = Some (ALoaded c) →
     al !! tid' = Some (ALoaded c) ∨ (tid' = tid ∧ c = next ∧ next ≠ max_uint64)) →
  admission_inv (mkAW next t al None iss fs) → admission_inv (mkAW next t al' None iss fs).
Proof.
  intros Hwon Hloaded H. destruct H; simpl in *. constructor; simpl; eauto; [|naive_solver..].
  intros tid' c [?|(-> & -> & ?)]%Hloaded; [eauto|lia].
Qed.

Lemma admission_step_inv w w' : admission_step w w' → admission_inv w → admission_inv w'.
Proof.
  intros Hst H. pose proof (scan_no_alloc w) as Hsc.
  destruct Hst as [tid next t al iss fs Ha|tid next t al sc iss fs Ha Hx
    |tid next t al sc iss fs s Ha Hx|tid next t al sc iss fs Ha|tid next t al sc iss fs c Ha Hc
    |tid next t al sc iss fs s Ha|tid next t al sc iss fs s Ha|next t t' al sc iss fs s Hs Ht
    |next t iss fs|next t al iss fs i m Hi|next t al iss fs m]; simpl in *;
    try (pose proof (Hsc _ _ H Ha) as Hnone; simpl in Hnone; subst sc).
  1-3,5,7: eapply (admission_move _ _ _ _ _ tid); [..|exact H]; intros; alloc_cases; eauto.
  - apply nextSequence_Some in Hx as [? ->]. auto.
  - (* swap *) destruct H; simpl in *. pose proof (ai_loaded0 _ _ Ha) as Hb.
    constructor; simpl; try done.
    + lia.
    + intros s Hs. apply elem_of_cons. auto.
    + intros s [->|Hs%ai_issued0]%elem_of_cons; lia.
    + constructor; [|done]. intros Hin%ai_issued0. lia.
    + intros; alloc_cases; [left|right]; eauto.
    + intros; alloc_cases; eauto.
    + intros f [? ?]%ai_floor0. lia.
    + intros f tid' s Hf Hs. alloc_cases; [by apply ai_floor0|eauto].
  - (* register *) destruct H; simpl in *. pose proof (ai_issued0 s (ai_won0 _ _ Ha)) as Hb.
    constructor; simpl; try done.
    + apply register_wf; [lia|done].
    + intros s' [->|]%register_active; eauto.
    + intros; alloc_cases; eauto.
    + intros; alloc_cases; eauto.
    + intros f s' Hf [->|]%register_active; eauto.
    + intros; alloc_cases; eauto.
  - (* retire *) pose proof (retire_active s t t' Ht) as Hact. destruct H; simpl in *.
    constructor; simpl; try done.
    + by eapply retire_wf.
    + intros s' [? _]%Hact. auto.
    + intros f s' Hf [? _]%Hact. eauto.
    + intros i m s' Hi [? _]%Hact. eauto.
  - (* lock *) destruct H; simpl in *. constructor; simpl; try done.
    + intros ? ? [= <- <-]. by left.
    + intros ? ? ? [= <- <-]. lia.
  - (* one shard *) destruct H; simpl in *. constructor; simpl; try done.
    + intros ? ? _. eauto.
    + intros ? ? [= <- <-]. unfold scan_shard; destruct (scan_list_in (elements (tr_shard i t)) m) as [->|Hin]; [eauto|].
      right. apply elem_of_elements in Hin.
      destruct (ai_wf0 _ _ Hin) as [Hi' _].
      assert (tr_active t (foldl scan_min m (elements (tr_shard i t)))) as Hact.
      { unfold tr_active. by rewrite <- Hi'. }
      eauto.
    + intros ? ? s [= <- <-] Hs Hlt.
      assert (0 ≤ m) by (destruct (ai_scan_min0 i m eq_refl) as [->|[Hm%ai_issued0 _]]; lia).
      destruct (scan_list_le (elements (tr_shard i t)) m) as [Hle Hin]; [done| |].
      { apply Forall_forall. intros s' Hs'%elem_of_elements. by destruct (ai_wf0 _ _ Hs'). }
      fold (scan_shard t m i) in *. destruct (decide (tr_index s = i)) as [<-|].
      * apply Hin, elem_of_elements, Hs.
      * destruct (ai_scan_le0 i m s eq_refl Hs ltac:(lia)). destruct Hle; [done|]. lia.
  - (* return *) destruct H; simpl in *. pose proof (ai_scan_min0 _ m eq_refl) as Hmin.
    rewrite (ai_scan0 _ m eq_refl) in *.
    assert (∀ f, f ∈ fs → f ≤ floor_of next m) as Hge.
    { intros f Hf. unfold floor_of. destruct (m =? 0) eqn:Em; bool_facts; simpl.
      - specialize (ai_floor0 f Hf). destruct (_ =? _) eqn:En; bool_facts; lia.
      - destruct Hmin as [|[_ Hm]]; [lia|]. by apply Hm. }
    constructor; simpl; try done.
    + intros f [->|Hf]%elem_of_cons; [|by apply ai_floor0]. unfold floor_of.
      destruct (m =? 0) eqn:Em; bool_facts; simpl.
      * destruct (_ =? _) eqn:En; bool_facts; lia.
      * destruct Hmin as [|[Hm%ai_issued0 _]]; lia.
    + intros f s [->|Hf]%elem_of_cons Hs; [|by apply ai_floor_active0]. unfold floor_of.
      destruct (ai_scan_le0 _ m s eq_refl Hs (tr_index_bound s)) as [Hm Hle].
      replace (m =? 0) with false by (symmetry; by apply Z.eqb_neq). done.
    + constructor; [done|]. apply Forall_forall. intros f Hf%Hge. lia.
Qed.

(** Admission sequences and their floor are sound under every interleaving.
    However the counter's loads and swaps, the registrations, the retirements
    and the shard-by-shard scans of any number of goroutines are interleaved:
    no sequence is handed out twice; the floors [stableSafeFloor] returns never
    go down; and no floor it ever returned is above a sequence that can still
    publish - registered, won but not registered yet, or issued by a later swap. *)
Theorem safe_floor_sound (w : admissionWorld) :
  rtc admission_step aw_init w →
  NoDup (aw_issued w) ∧ StronglySorted Z.ge (aw_floors w) ∧
  ∀ f, f ∈ aw_floors w →
    (∀ s, tr_active (aw_tracker w) s → f ≤ s) ∧
    (∀ tid s, aw_alloc w !! tid = Some (AWon s) → f ≤ s) ∧
    (∀ w' s, admission_step w w' → s ∈ aw_issued w' → s ∉ aw_issued w → f ≤ s).
Proof.
  intros Hw. pose proof (rtc_invariant _ _ _ _ admission_step_inv admission_init Hw) as H.
  split; [apply ai_fresh, H|]. split; [apply ai_sorted, H|]. intros f Hf. split_and!.
  - intros s. by apply ai_floor_active.
  - intros tid s. by apply ai_floor_won.
  - intros w' s Hst Hs Hn. apply (ai_floor w H) in Hf as [Hf _].
    destruct Hst; simpl in *; try contradiction. apply elem_of_cons in Hs as [->|?]; [done|contradiction].
Qed.

(** One goroutine is between its swap and its registration while another waits
    for the scan; the scan runs after the first has registered. *)
Definition demo_admission : admissionWorld :=
  mkAW 2 (register 2 (register 1 tr_empty)) ∅ None [2; 1] [1].

Lemma safe_floor_sound_witness :
  rtc admission_step aw_init demo_admission ∧ NoDup (aw_issued demo_admission).
Proof.
  assert (rtc admission_step aw_init demo_admission) as Hr.
  { unfold aw_init, demo_admission.
    eapply rtc_l; [apply (a_rlock 0); done|]. eapply rtc_l; [by eapply (a_load 0)|].
    eapply rtc_l; [apply (a_rlock 1); done|]. eapply rtc_l; [by eapply (a_load 1)|].
    eapply rtc_l; [by eapply (a_swap 0)|]. eapply rtc_l; [by eapply (a_lost 1)|].
    eapply rtc_l; [by eapply (a_register 0)|]. eapply rtc_l; [by eapply (a_load 1)|].
    eapply rtc_l; [by eapply (a_swap 1)|]. eapply rtc_l; [by eapply (a_runlock 0)|].
    eapply rtc_l; [by eapply (a_register 1)|]. eapply rtc_l; [by eapply (a_runlock 1)|].
    match goal with |- rtc _ (mkAW ?n ?t ?al ?sc ?is' ?fs) _ => replace al with (∅ : gmap nat alloc_phase) by reflexivity end.
    eapply rtc_l; [apply a_lock|]. apply (rtc_l _ _ _ _ (a_scan _ _ _ _ _ 0 _ ltac:(lia))).
    do 63 (eapply rtc_l; [apply a_scan; lia|]).
    eapply rtc_l; [apply a_return|]. apply rtc_refl. }
  split; [exact Hr|]. exact (proj1 (safe_floor_sound _ Hr)).
Defined.
