(* ===== verification/Ledger.v ===== *)
(** The RPC execution ledger: [internal/mtprotoedge/rpc_execution_ledger.go] and
    [rpc_flight.go].

    The ledger decides, for every (auth key, session, request id), whether a
    request runs, joins a run in progress, or is answered from what a finished
    run left.  Flights, receipts and leases are pointers in the code and live in
    heaps here; each definition of the second half is one critical section of
    its shard's lock or a sequence of them.  Callbacks are numbers, and running
    one is an entry of [lg_trace]; the claims the ledger hands out and takes
    back are in the trace too. *)

From S2P Require Import Prelude UsageMap FairBudget AdmissionTracker.

Open Scope Z_scope.

Definition rpcExecutionReceiptTTL : Z := 331 * 1000000000.
Definition rpcExecutionLedgerShards : Z := 16.
Definition rpcExecutionReceiptBudgetBytes : Z := 384.
Definition rpcResultFlightDefaultMaxPending : Z := 32768.
Definition rpcExecutionMaxEntries : Z := Z.shiftl 1 18.

Definition rpcResultSubscriberMaxGlobal : Z := Z.shiftl 1 16.
Definition rpcResultSubscriberMaxAuth : Z := Z.shiftl 1 13.
Definition rpcResultSubscriberMaxSession : Z := Z.shiftl 1 11.
Definition rpcResultSubscriberMaxPerFlight : Z := Z.shiftl 1 7.

Inductive ledgerErr :=
  | ErrRPCResultFlightCapacity
  | ErrRPCResultSubscriberCapacity
  | ErrRPCResultFlightInvalid
  | ErrRPCResultIdentityMismatch (profile : Z) (hasProfile : bool)
  | ErrRPCResultReplayUnavailable
  | ErrRPCAdmissionSeqExhausted.

Inductive rpcResultAcquireState :=
  | rpcResultAcquireCompleted
  | rpcResultAcquireAcknowledged
  | rpcResultAcquirePending
  | rpcResultAcquireOwner.

Section ledger.
(** [tlprofile.PreparedIdentity] is opaque and comparable. *)
Context {Ident : Type} `{EqDecision Ident}.
(** [encodedOutboundMessage] *)
Context {Enc : Type}.
Context `{!ShardHash rpcExecutionKey}.
Context {FA FS SA SS : Type}.
Context `{!UsageMap Z rpcExecutionBudgetUsage FA} `{!UsageMap sessionKey rpcExecutionBudgetUsage FS}.
Context `{!UsageMap Z Z SA} `{!UsageMap sessionKey Z SS}.

(** The zero identity is [mkIdent None 0 false]. *)
Record rpcResultRequestIdentity := mkIdent {
  id_exact : option Ident;
  id_profile : Z;
  id_valid : bool;
}.

Definition noIdentity : rpcResultRequestIdentity := mkIdent None 0 false.

Definition matches (i requested : rpcResultRequestIdentity) : bool :=
  if negb (id_valid requested) then true
  else id_valid i && bool_decide (id_exact i = id_exact requested).

Definition identityMismatch (i : rpcResultRequestIdentity) : ledgerErr :=
  ErrRPCResultIdentityMismatch (id_profile i) (id_valid i && negb (id_profile i =? 0)).

Record rpcResultFlight := mkFlight {
  fl_key : rpcExecutionKey;        (* kept by its leases and waiters in the code *)
  fl_done : bool;
  fl_encoded : option Enc;
  fl_ok : bool;
  fl_subscribers : list nat;
  fl_executionDone : bool;
  fl_executionOK : bool;
  fl_executionSubscribers : list nat;
  fl_acknowledged : bool;
  fl_subscriberSlots : Z;
  fl_identity : rpcResultRequestIdentity;
  fl_admissionSeq : Z;
  fl_reservation : option nat;
}.

Record rpcExecutionReceipt := mkReceipt {
  rc_key : rpcExecutionKey;
  rc_expiresAt : Z;
  rc_identity : rpcResultRequestIdentity;
  rc_admissionSeq : Z;
  rc_executionKnown : bool;
  rc_executionOK : bool;
  rc_acknowledged : bool;
  rc_unavailable : bool;
  rc_reservation : option nat;
}.

Record rpcResultOwnerLease := mkLease {
  ls_key : rpcExecutionKey;
  ls_flight : nat;
  ls_abortHook : option nat;
  ls_handedOff : bool;
}.

Record rpcResultWaiter := mkWaiter { w_key : rpcExecutionKey; w_flight : nat }.

Record rpcExecutionLedgerShard := mkShard {
  sh_order : list nat;
  sh_byKey : gmap rpcExecutionKey nat;
  sh_pending : gmap rpcExecutionKey nat;
}.
Definition shard0 : rpcExecutionLedgerShard := mkShard [] ∅ ∅.

Inductive event :=
  | EvOwner (k : rpcExecutionKey)                       (* a lease was handed out *)
  | EvAborted (k : rpcExecutionKey)                     (* a claim was given back *)
  | EvForgotten (k : rpcExecutionKey)                   (* a receipt was removed *)
  | EvSubscribed (cbs : list nat)                       (* callbacks were accepted *)
  | EvResult (cb : nat) (encoded : option Enc) (ok : bool)
  | EvExecution (cb : nat) (ok : bool)
  | EvHook (h : nat).

Record rpcExecutionLedger := mkLedger {
  lg_shards : gmap nat rpcExecutionLedgerShard;
  lg_flights : gmap nat rpcResultFlight;
  lg_receipts : gmap nat rpcExecutionReceipt;
  lg_leases : gmap nat rpcResultOwnerLease;
  lg_next : nat;                     (* the next heap address *)
  lg_receiptCount : Z;
  lg_fairBudget : rpcExecutionFairBudget FA FS;
  lg_flightLimit : rpcResultFlightLimit;
  lg_subscriberBudget : rpcResultSubscriberBudget SA SS;
  lg_subscriberPerFlight : Z;
  lg_nextAdmissionSeq : Z;
  lg_activeAdmissions : rpcAdmissionTracker;
  lg_now : Z;
  lg_trace : list event;
}.

(** ** Field updates *)

Definition set_shards x l := mkLedger x (lg_flights l) (lg_receipts l) (lg_leases l) (lg_next l)
  (lg_receiptCount l) (lg_fairBudget l) (lg_flightLimit l) (lg_subscriberBudget l)
  (lg_subscriberPerFlight l) (lg_nextAdmissionSeq l) (lg_activeAdmissions l) (lg_now l) (lg_trace l).
Definition set_flights x l := mkLedger (lg_shards l) x (lg_receipts l) (lg_leases l) (lg_next l)
  (lg_receiptCount l) (lg_fairBudget l) (lg_flightLimit l) (lg_subscriberBudget l)
  (lg_subscriberPerFlight l) (lg_nextAdmissionSeq l) (lg_activeAdmissions l) (lg_now l) (lg_trace l).
Definition set_receipts x l := mkLedger (lg_shards l) (lg_flights l) x (lg_leases l) (lg_next l)
  (lg_receiptCount l) (lg_fairBudget l) (lg_flightLimit l) (lg_subscriberBudget l)
  (lg_subscriberPerFlight l) (lg_nextAdmissionSeq l) (lg_activeAdmissions l) (lg_now l) (lg_trace l).
Definition set_leases x l := mkLedger (lg_shards l) (lg_flights l) (lg_receipts l) x (lg_next l)
  (lg_receiptCount l) (lg_fairBudget l) (lg_flightLimit l) (lg_subscriberBudget l)
  (lg_subscriberPerFlight l) (lg_nextAdmissionSeq l) (lg_activeAdmissions l) (lg_now l) (lg_trace l).
Definition set_next x l := mkLedger (lg_shards l) (lg_flights l) (lg_receipts l) (lg_leases l) x
  (lg_receiptCount l) (lg_fairBudget l) (lg_flightLimit l) (lg_subscriberBudget l)
  (lg_subscriberPerFlight l) (lg_nextAdmissionSeq l) (lg_activeAdmissions l) (lg_now l) (lg_trace l).
Definition set_receiptCount x l := mkLedger (lg_shards l) (lg_flights l) (lg_receipts l) (lg_leases l)
  (lg_next l) x (lg_fairBudget l) (lg_flightLimit l) (lg_subscriberBudget l)
  (lg_subscriberPerFlight l) (lg_nextAdmissionSeq l) (lg_activeAdmissions l) (lg_now l) (lg_trace l).
Definition set_fairBudget x l := mkLedger (lg_shards l) (lg_flights l) (lg_receipts l) (lg_leases l)
  (lg_next l) (lg_receiptCount l) x (lg_flightLimit l) (lg_subscriberBudget l)
  (lg_subscriberPerFlight l) (lg_nextAdmissionSeq l) (lg_activeAdmissions l) (lg_now l) (lg_trace l).
Definition set_flightLimit x l := mkLedger (lg_shards l) (lg_flights l) (lg_receipts l) (lg_leases l)
  (lg_next l) (lg_receiptCount l) (lg_fairBudget l) x (lg_subscriberBudget l)
  (lg_subscriberPerFlight l) (lg_nextAdmissionSeq l) (lg_activeAdmissions l) (lg_now l) (lg_trace l).
Definition set_subscriberBudget x l := mkLedger (lg_shards l) (lg_flights l) (lg_receipts l)
  (lg_leases l) (lg_next l) (lg_receiptCount l) (lg_fairBudget l) (lg_flightLimit l) x
  (lg_subscriberPerFlight l) (lg_nextAdmissionSeq l) (lg_activeAdmissions l) (lg_now l) (lg_trace l).
Definition set_admissions n t l := mkLedger (lg_shards l) (lg_flights l) (lg_receipts l) (lg_leases l)
  (lg_next l) (lg_receiptCount l) (lg_fairBudget l) (lg_flightLimit l) (lg_subscriberBudget l)
  (lg_subscriberPerFlight l) n t (lg_now l) (lg_trace l).
Definition set_now x l := mkLedger (lg_shards l) (lg_flights l) (lg_receipts l) (lg_leases l)
  (lg_next l) (lg_receiptCount l) (lg_fairBudget l) (lg_flightLimit l) (lg_subscriberBudget l)
  (lg_subscriberPerFlight l) (lg_nextAdmissionSeq l) (lg_activeAdmissions l) x (lg_trace l).
Definition set_trace x l := mkLedger (lg_shards l) (lg_flights l) (lg_receipts l) (lg_leases l)
  (lg_next l) (lg_receiptCount l) (lg_fairBudget l) (lg_flightLimit l) (lg_subscriberBudget l)
  (lg_subscriberPerFlight l) (lg_nextAdmissionSeq l) (lg_activeAdmissions l) (lg_now l) x.

Abbreviation M := (GoM rpcExecutionLedger).

Definition emit (es : list event) : M () := modify (λ l, set_trace (lg_trace l ++ es) l).

Definition shardIndex (key : rpcExecutionKey) : nat :=
  Z.to_nat (Z.land (shard_hash key) (rpcExecutionLedgerShards - 1)).
Definition shardAt (i : nat) (l : rpcExecutionLedger) : rpcExecutionLedgerShard :=
  default shard0 (lg_shards l !! i).
Definition put_shard (i : nat) (s : rpcExecutionLedgerShard) (l : rpcExecutionLedger) :=
  set_shards (<[i := s]> (lg_shards l)) l.

(** Dereferencing a pointer to nothing panics. *)
Definition get_flight (f : nat) : M rpcResultFlight :=
  l ← gets (λ l, l); unwrap (lg_flights l !! f).
Definition get_receipt (e : nat) : M rpcExecutionReceipt :=
  l ← gets (λ l, l); unwrap (lg_receipts l !! e).
Definition get_lease (x : nat) : M rpcResultOwnerLease :=
  l ← gets (λ l, l); unwrap (lg_leases l !! x).
Definition put_flight (f : nat) (fl : rpcResultFlight) : M () :=
  modify (λ l, set_flights (<[f := fl]> (lg_flights l)) l).
Definition put_receipt (e : nat) (r : rpcExecutionReceipt) : M () :=
  modify (λ l, set_receipts (<[e := r]> (lg_receipts l)) l).
Definition put_lease (x : nat) (ls : rpcResultOwnerLease) : M () :=
  modify (λ l, set_leases (<[x := ls]> (lg_leases l)) l).
Definition alloc : M nat :=
  a ← gets lg_next; modify (set_next (S a)) ;; mret a.

Definition on_fair {A} (m : GoM (rpcExecutionFairBudget FA FS) A) : M A :=
  zoom lg_fairBudget set_fairBudget m.
Definition on_limit {A} (m : GoM rpcResultFlightLimit A) : M A :=
  zoom lg_flightLimit set_flightLimit m.
Definition on_subs {A} (m : GoM (rpcResultSubscriberBudget SA SS) A) : M A :=
  zoom lg_subscriberBudget set_subscriberBudget m.

(** ** Receipts *)

Definition incrementReceiptCount : M () :=
  modify (λ l, set_receiptCount (lg_receiptCount l +₆₄ 1) l).
Definition decrementReceiptCount : M () :=
  modify (λ l, set_receiptCount (lg_receiptCount l -₆₄ 1) l) ;;
  n ← gets lg_receiptCount;
  check (negb (n <? 0)).

Definition unlinkElement (i e : nat) : M rpcExecutionReceipt :=
  receipt ← get_receipt e;
  modify (λ l, let s := shardAt i l in
    put_shard i (mkShard (filter (λ x, x ≠ e) (sh_order s))
                   (delete (rc_key receipt) (sh_byKey s)) (sh_pending s)) l) ;;
  decrementReceiptCount ;;
  mret receipt.

Definition drop_reservation (r : rpcExecutionReceipt) : rpcExecutionReceipt :=
  mkReceipt (rc_key r) (rc_expiresAt r) (rc_identity r) (rc_admissionSeq r) (rc_executionKnown r)
    (rc_executionOK r) (rc_acknowledged r) (rc_unavailable r) None.

Definition removeElement (i e : nat) : M () :=
  receipt ← unlinkElement i e;
  emit [EvForgotten (rc_key receipt)] ;;
  match rc_reservation receipt with
  | None => mret tt
  | Some rv => on_fair (lift_upd (fair_release rv)) ;; put_receipt e (drop_reservation receipt)
  end.

Fixpoint expire_from (i : nat) (now : Z) (es : list nat) : M () :=
  match es with
  | [] => mret tt
  | e :: es' =>
      receipt ← get_receipt e;
      if now <? rc_expiresAt receipt then mret tt
      else removeElement i e ;; expire_from i now es'
  end.
Definition expireLocked (i : nat) (now : Z) : M () :=
  s ← gets (shardAt i); expire_from i now (sh_order s).

Definition expireShard (i : nat) : M () := now ← gets lg_now; expireLocked i now.
Fixpoint for_shards (body : nat → M ()) (n : nat) : M () :=
  match n with O => mret tt | S n' => for_shards body n' ;; body n' end.
Definition expireReceipts : M () := for_shards expireShard 16.

Fixpoint forget_from (i : nat) (sk : sessionKey) (es : list nat) : M () :=
  match es with
  | [] => mret tt
  | e :: es' =>
      receipt ← get_receipt e;
      (if decide (key_session (rc_key receipt) = sk) then removeElement i e else mret tt) ;;
      forget_from i sk es'
  end.
Definition forgetShard (sk : sessionKey) (i : nat) : M () :=
  s ← gets (shardAt i); forget_from i sk (sh_order s).
Definition forgetSession (sk : sessionKey) : M () := for_shards (forgetShard sk) 16.

Definition receiptBudgetBytes (l : rpcExecutionLedger) : Z :=
  lg_receiptCount l *₆₄ rpcExecutionReceiptBudgetBytes.

(** ** Claims *)

Record rpcResultAcquire := mkAcquire {
  acq_state : rpcResultAcquireState;
  acq_admissionSeq : Z;
  acq_encoded : option Enc;
  acq_waiter : option rpcResultWaiter;
  acq_owner : option nat;
  acq_executionKnown : bool;
  acq_executionOK : bool;
}.

(** One turn of [acquire]'s loop: its value, or [continue]. *)
Inductive attempt :=
  | Finished (r : res ledgerErr rpcResultAcquire)
  | Retry.

Definition finish (r : res ledgerErr rpcResultAcquire) : M attempt := mret (Finished r).

Definition allocateSeq (identity : rpcResultRequestIdentity) : M (option Z) :=
  if negb (id_valid identity) then mret (Some 0)
  else
    l ← gets (λ l, l);
    match allocateAndRegister (lg_nextAdmissionSeq l) (lg_activeAdmissions l) with
    | None => mret None
    | Some (seq, t) => modify (set_admissions seq t) ;; mret (Some seq)
    end.

Definition retireSeq (seq : Z) : M () :=
  l ← gets (λ l, l);
  t ← unwrap (retire seq (lg_activeAdmissions l));
  modify (set_admissions (lg_nextAdmissionSeq l) t).

Definition newFlight (key : rpcExecutionKey) (identity : rpcResultRequestIdentity) (seq : Z) (rv : nat) :=
  mkFlight key false None false [] false false [] false 0 identity seq (Some rv).

Definition install_owner (key : rpcExecutionKey) (identity : rpcResultRequestIdentity) (seq : Z) (rv : nat)
    : M attempt :=
  f ← alloc;
  put_flight f (newFlight key identity seq rv) ;;
  modify (λ l, let s := shardAt (shardIndex key) l in
    put_shard (shardIndex key) (mkShard (sh_order s) (sh_byKey s) (<[key := f]> (sh_pending s))) l) ;;
  x ← alloc;
  put_lease x (mkLease key f None false) ;;
  emit [EvOwner key] ;;
  finish (OK (mkAcquire rpcResultAcquireOwner seq None None (Some x) false false)).

Definition acquire_attempt (key : rpcExecutionKey) (identity : rpcResultRequestIdentity) (reclaimedExpired : bool)
    : M attempt :=
  let i := shardIndex key in
  expireShard i ;;
  s ← gets (shardAt i);
  match sh_byKey s !! key with
  | Some e =>
      entry ← get_receipt e;
      if negb (matches (rc_identity entry) identity)
      then finish (ERR (identityMismatch (rc_identity entry)))
      else if rc_acknowledged entry
      then finish (OK (mkAcquire rpcResultAcquireAcknowledged (rc_admissionSeq entry) None None None
                         (rc_executionKnown entry) (rc_executionOK entry)))
      else if rc_unavailable entry
      then finish (ERR ErrRPCResultFlightCapacity)
      else finish (OK (mkAcquire rpcResultAcquireCompleted (rc_admissionSeq entry) None None None
                         (rc_executionKnown entry) (rc_executionOK entry)))
  | None =>
  match sh_pending s !! key with
  | Some f =>
      flight ← get_flight f;
      if negb (matches (fl_identity flight) identity)
      then finish (ERR (identityMismatch (fl_identity flight)))
      else if fl_acknowledged flight
      then finish (OK (mkAcquire rpcResultAcquireAcknowledged (fl_admissionSeq flight) None None None
                         (fl_executionDone flight) (fl_executionOK flight)))
      else finish (OK (mkAcquire rpcResultAcquirePending (fl_admissionSeq flight) None
                         (Some (mkWaiter key f)) None false false))
  | None =>
      ok ← on_limit (lift_pure limit_reserve);
      if negb ok then finish (ERR ErrRPCResultFlightCapacity)
      else
        reservation ← on_fair (lift_pure (reserveOwner key));
        match reservation with
        | None =>
            on_limit (lift_upd limit_release) ;;
            if reclaimedExpired then finish (ERR ErrRPCResultFlightCapacity) else mret Retry
        | Some rv =>
            seq ← allocateSeq identity;
            match seq with
            | None =>
                on_fair (lift_upd (fair_release rv)) ;;
                on_limit (lift_upd limit_release) ;;
                finish (ERR ErrRPCAdmissionSeqExhausted)
            | Some admissionSeq => install_owner key identity admissionSeq rv
            end
        end
  end end.

(** The loop; [None] is running out of [fuel]. *)
Fixpoint acquire_loop (fuel : nat) (key : rpcExecutionKey) (identity : rpcResultRequestIdentity)
    (reclaimedExpired : bool) : M (option (res ledgerErr rpcResultAcquire)) :=
  match fuel with
  | O => mret None
  | S fuel' =>
      a ← acquire_attempt key identity reclaimedExpired;
      match a with
      | Finished r => mret (Some r)
      | Retry => expireReceipts ;; acquire_loop fuel' key identity true
      end
  end.

(** [rpcReplayStore.rpcResult], asked outside the shard lock. *)
Definition replayStore := rpcExecutionKey → option Enc.

Definition with_replay (rpcResult : replayStore) (key : rpcExecutionKey) (result : rpcResultAcquire)
    : res ledgerErr rpcResultAcquire :=
  match acq_state result with
  | rpcResultAcquireCompleted =>
      match rpcResult key with
      | None => ERR ErrRPCResultReplayUnavailable
      | Some encoded =>
          OK (mkAcquire rpcResultAcquireCompleted (acq_admissionSeq result) (Some encoded) None None
                (acq_executionKnown result) (acq_executionOK result))
      end
  | _ => OK result
  end.

Definition acquire (fuel : nat) (rpcResult : replayStore) (key : rpcExecutionKey)
    (identity : rpcResultRequestIdentity) : M (option (res ledgerErr rpcResultAcquire)) :=
  if reqMsgID key =? 0 then mret (Some (ERR ErrRPCResultFlightInvalid))
  else
    r ← acquire_loop fuel key identity false;
    mret (match r with
          | Some (OK result) => Some (with_replay rpcResult key result)
          | _ => r
          end).

Definition Acquire fuel rpcResult key := acquire fuel rpcResult key noIdentity.
Definition AcquireIdentified fuel rpcResult key (identity : Ident) :=
  acquire fuel rpcResult key (mkIdent (Some identity) 0 true).
Definition AcquireLayerIdentified fuel rpcResult key (profile : Z) (identity : Ident) :=
  acquire fuel rpcResult key (mkIdent (Some identity) profile true).

(** ** Completion *)

Definition releaseFlightSubscriberSlots (key : rpcExecutionKey) (f : nat) (slots : Z) : M () :=
  if slots =? 0 then mret tt
  else
    flight ← get_flight f;
    check (negb ((slots <? 0) || (fl_subscriberSlots flight <? slots))) ;;
    put_flight f (mkFlight (fl_key flight) (fl_done flight) (fl_encoded flight) (fl_ok flight)
      (fl_subscribers flight) (fl_executionDone flight) (fl_executionOK flight)
      (fl_executionSubscribers flight) (fl_acknowledged flight) (fl_subscriberSlots flight -₆₄ slots)
      (fl_identity flight) (fl_admissionSeq flight) (fl_reservation flight)) ;;
    on_subs (lift_upd (sub_release key slots)).

Definition len {A} (xs : list A) : Z := Z.of_nat (length xs).

(** The flight once its result is published or its claim given back, before
    its slots are released. *)
Definition detach (encoded : option Enc) (ok : bool) (fl : rpcResultFlight) : rpcResultFlight :=
  mkFlight (fl_key fl) true encoded ok [] true
    (if fl_executionDone fl then fl_executionOK fl else false) []
    (fl_acknowledged fl) (fl_subscriberSlots fl) (fl_identity fl) (fl_admissionSeq fl) None.

Definition delete_pending (key : rpcExecutionKey) : M () :=
  modify (λ l, let s := shardAt (shardIndex key) l in
    put_shard (shardIndex key) (mkShard (sh_order s) (sh_byKey s) (delete key (sh_pending s))) l).

Definition completeRPCResultFlight (key : rpcExecutionKey) (encoded : Enc)
    : M (list nat * list nat * bool) :=
  s ← gets (shardAt (shardIndex key));
  match sh_pending s !! key with
  | None => mret ([], [], false)
  | Some f =>
      delete_pending key ;;
      flight ← get_flight f;
      match fl_reservation flight with
      | None => mret tt
      | Some rv => on_fair (lift_upd (releasePending rv))
      end ;;
      on_limit (lift_upd limit_release) ;;
      retireSeq (fl_admissionSeq flight) ;;
      put_flight f (detach (Some encoded) true flight) ;;
      releaseFlightSubscriberSlots key f
        (len (fl_subscribers flight) + len (fl_executionSubscribers flight)) ;;
      mret (fl_subscribers flight, fl_executionSubscribers flight,
            if fl_executionDone flight then fl_executionOK flight else false)
  end.

Definition notify (encoded : option Enc) (ok : bool) (subscribers : list nat)
    (executionOK : bool) (executionSubscribers : list nat) : M () :=
  emit ((λ cb, EvResult cb encoded ok) <$> subscribers) ;;
  emit ((λ cb, EvExecution cb executionOK) <$> executionSubscribers).

Definition push_receipt (i : nat) (r : rpcExecutionReceipt) : M nat :=
  e ← alloc;
  put_receipt e r ;;
  modify (λ l, let s := shardAt i l in
    put_shard i (mkShard (sh_order s ++ [e]) (<[rc_key r := e]> (sh_byKey s)) (sh_pending s)) l) ;;
  incrementReceiptCount ;;
  mret e.

Definition flightMetadata (flight : option rpcResultFlight)
    : rpcResultRequestIdentity * Z * bool * bool * bool :=
  match flight with
  | Some fl => (fl_identity fl, fl_admissionSeq fl, fl_executionDone fl, fl_executionOK fl,
                fl_acknowledged fl)
  | None => (noIdentity, 0, false, false, false)
  end.

Definition deref {A} (get : nat → M A) (p : option nat) : M (option A) :=
  match p with None => mret None | Some a => x ← get a; mret (Some x) end.

Definition completeOnce (key : rpcExecutionKey) (encoded : Enc) (replayable : bool) : M bool :=
  let i := shardIndex key in
  now ← gets lg_now;
  expireLocked i now ;;
  s ← gets (shardAt i);
  oldReceipt ← deref get_receipt (sh_byKey s !! key);
  flight ← deref get_flight (sh_pending s !! key);
  match oldReceipt, flight with
  | Some _, None => mret true
  | _, _ =>
      let '(identity, admissionSeq, executionKnown, executionOK, acknowledged) := flightMetadata flight in
      reservation ← match flight, oldReceipt ≫= rc_reservation with
        | Some fl, _ => rv ← unwrap (fl_reservation fl); mret (Some rv)
        | None, Some rv => mret (Some rv)
        | None, None => on_fair (lift_pure (reserveCompleted key))
        end;
      match reservation with
      | None => mret false
      | Some rv =>
          match sh_byKey s !! key, oldReceipt with
          | Some old, Some r =>
              unlinkElement i old ;;
              match rc_reservation r with
              | Some rv' => if decide (rv' = rv) then mret tt
                            else on_fair (lift_upd (fair_release rv')) ;;
                                 put_receipt old (drop_reservation r)
              | None => mret tt
              end
          | _, _ => mret tt
          end ;;
          e ← push_receipt i (mkReceipt key (now + rpcExecutionReceiptTTL) identity admissionSeq
                executionKnown executionOK acknowledged (negb replayable) (Some rv));
          '(subscribers, executionSubscribers, terminalOK) ← completeRPCResultFlight key encoded;
          (if acknowledged then removeElement i e else mret tt) ;;
          notify (Some encoded) true subscribers terminalOK executionSubscribers ;;
          mret true
      end
  end.

Definition Complete (rpcResult : replayStore) (key : rpcExecutionKey) (encoded : option Enc)
    (replayable : bool) : M () :=
  match encoded with
  | None => mret tt
  | Some encoded =>
      if reqMsgID key =? 0 then mret tt
      else
        let replayable := replayable && bool_decide (is_Some (rpcResult key)) in
        done ← completeOnce key encoded replayable;
        if (done : bool) then mret tt
        else expireReceipts ;; completeOnce key encoded replayable ;; mret tt
  end.

(** ** Queries *)

Definition Replay (rpcResult : replayStore) (key : rpcExecutionKey) : M (option Enc) :=
  if reqMsgID key =? 0 then mret None
  else
    now ← gets lg_now;
    s ← gets (shardAt (shardIndex key));
    match sh_byKey s !! key with
    | None => mret None
    | Some e =>
        receipt ← get_receipt e;
        if negb (now <? rc_expiresAt receipt) then removeElement (shardIndex key) e ;; mret None
        else if rc_unavailable receipt || rc_acknowledged receipt then mret None
        else mret (rpcResult key)
    end.

Definition set_acknowledged (fl : rpcResultFlight) : rpcResultFlight :=
  mkFlight (fl_key fl) (fl_done fl) (fl_encoded fl) (fl_ok fl) (fl_subscribers fl)
    (fl_executionDone fl) (fl_executionOK fl) (fl_executionSubscribers fl) true
    (fl_subscriberSlots fl) (fl_identity fl) (fl_admissionSeq fl) (fl_reservation fl).

Definition Acknowledge (key : rpcExecutionKey) : M bool :=
  if reqMsgID key =? 0 then mret false
  else
    expireShard (shardIndex key) ;;
    s ← gets (shardAt (shardIndex key));
    match sh_byKey s !! key with
    | Some e => removeElement (shardIndex key) e ;; mret true
    | None =>
        match sh_pending s !! key with
        | Some f => flight ← get_flight f; put_flight f (set_acknowledged flight) ;; mret true
        | None => mret false
        end
    end.

Inductive rpcResultDependency :=
  | DepWaiter (w : rpcResultWaiter)
  | DepCompleted (success : bool).

Definition observePending (key : rpcExecutionKey) : M (option rpcResultDependency) :=
  s ← gets (shardAt (shardIndex key));
  match sh_pending s !! key with
  | None => mret None
  | Some f =>
      flight ← get_flight f;
      mret (Some (if fl_executionDone flight then DepCompleted (fl_executionOK flight)
                  else DepWaiter (mkWaiter key f)))
  end.

Definition ObserveDependency (key : rpcExecutionKey) : M (option rpcResultDependency) :=
  if reqMsgID key =? 0 then mret None
  else
    now ← gets lg_now;
    s ← gets (shardAt (shardIndex key));
    receipt ← deref get_receipt (sh_byKey s !! key);
    match sh_byKey s !! key, receipt with
    | Some e, Some r =>
        if now <? rc_expiresAt r
        then mret (if rc_executionKnown r then Some (DepCompleted (rc_executionOK r)) else None)
        else removeElement (shardIndex key) e ;; observePending key
    | _, _ => observePending key
    end.


(** The profile an exact claim was admitted under, if there is one. *)
Definition exactProfile (i : rpcResultRequestIdentity) : option Z :=
  if id_valid i && negb (id_profile i =? 0) then Some (id_profile i) else None.

Definition ExactAdmissionProfile (key : rpcExecutionKey) : M (option Z) :=
  if reqMsgID key =? 0 then mret None
  else
    now ← gets lg_now;
    s ← gets (shardAt (shardIndex key));
    receipt ← deref get_receipt (sh_byKey s !! key);
    flight ← deref get_flight (sh_pending s !! key);
    match sh_byKey s !! key, receipt with
    | Some e, Some r =>
        if now <? rc_expiresAt r then mret (exactProfile (rc_identity r))
        else removeElement (shardIndex key) e ;; mret (flight ≫= λ fl, exactProfile (fl_identity fl))
    | _, _ => mret (flight ≫= λ fl, exactProfile (fl_identity fl))
    end.

Definition stableAdmissionSafeFloor : M Z :=
  gets (λ l, stableSafeFloor (lg_nextAdmissionSeq l) (lg_activeAdmissions l)).

(** ** Waiters *)

(** What [Wait] returns once the flight's channel is closed. *)
Definition poll (w : rpcResultWaiter) : M (option (option Enc * bool)) :=
  flight ← get_flight (w_flight w);
  mret (if fl_done flight then Some (fl_encoded flight, fl_ok flight) else None).

Definition add_subscribers (rs es : list nat) (slots : Z) (fl : rpcResultFlight) : rpcResultFlight :=
  mkFlight (fl_key fl) (fl_done fl) (fl_encoded fl) (fl_ok fl) (fl_subscribers fl ++ rs)
    (fl_executionDone fl) (fl_executionOK fl) (fl_executionSubscribers fl ++ es) (fl_acknowledged fl)
    slots (fl_identity fl) (fl_admissionSeq fl) (fl_reservation fl).

Definition slot (p : option nat) : list nat := match p with Some cb => [cb] | None => [] end.

Definition subscribe (w : rpcResultWaiter) (resultFn executionFn : option nat) : M (option ledgerErr) :=
  match resultFn, executionFn with
  | None, None => mret (Some ErrRPCResultFlightInvalid)
  | _, _ =>
      l ← gets (λ l, l);
      flight ← get_flight (w_flight w);
      if decide (sh_pending (shardAt (shardIndex (w_key w)) l) !! w_key w = Some (w_flight w)) then
        let waiting := if fl_executionDone flight then [] else slot executionFn in
        let slots := len (slot resultFn) + len waiting in
        ok ← (if 0 <? slots then
                if lg_subscriberPerFlight l -₆₄ slots <? fl_subscriberSlots flight then mret false
                else on_subs (lift_pure (sub_reserve (w_key w) slots))
              else mret true);
        if negb (ok : bool) then mret (Some ErrRPCResultSubscriberCapacity)
        else
          put_flight (w_flight w)
            (add_subscribers (slot resultFn) waiting (fl_subscriberSlots flight +₆₄ slots) flight) ;;
          emit [EvSubscribed (slot resultFn ++ slot executionFn)] ;;
          (if fl_executionDone flight
           then notify None false [] (fl_executionOK flight) (slot executionFn) else mret tt) ;;
          mret None
      else
        let resultReady := match resultFn with Some _ => fl_done flight | None => true end in
        let executionReady := match executionFn with Some _ => fl_executionDone flight | None => true end in
        if negb resultReady || negb executionReady then mret (Some ErrRPCResultFlightInvalid)
        else
          emit [EvSubscribed (slot resultFn ++ slot executionFn)] ;;
          notify None false [] (fl_executionOK flight) (slot executionFn) ;;
          notify (fl_encoded flight) (fl_ok flight) (slot resultFn) false [] ;;
          mret None
  end.

Definition Subscribe w (fn : nat) := subscribe w (Some fn) None.
Definition SubscribeExecution w (fn : nat) := subscribe w None (Some fn).
Definition SubscribeResultAndExecution w (resultFn executionFn : nat) :=
  subscribe w (Some resultFn) (Some executionFn).

(** ** Leases *)

Definition owns (ls : rpcResultOwnerLease) (l : rpcExecutionLedger) : Prop :=
  sh_pending (shardAt (shardIndex (ls_key ls)) l) !! ls_key ls = Some (ls_flight ls).
#[export] Instance owns_dec ls l : Decision (owns ls l).
Proof. unfold owns. apply _. Defined.

Definition set_hook (h : option nat) (ls : rpcResultOwnerLease) : rpcResultOwnerLease :=
  mkLease (ls_key ls) (ls_flight ls) h (ls_handedOff ls).

Definition SetAbortHook (x : nat) (fn : option nat) : M () :=
  ls ← get_lease x; put_lease x (set_hook fn ls).

Definition InstallAbortHook (x : nat) (fn : nat) : M bool :=
  ls ← get_lease x;
  l ← gets (λ l, l);
  if decide (owns ls l) then put_lease x (set_hook (Some fn) ls) ;; mret true else mret false.

Definition Waiter (x : nat) : M rpcResultWaiter :=
  ls ← get_lease x; mret (mkWaiter (ls_key ls) (ls_flight ls)).

Definition HandOff (x : nat) : M bool :=
  ls ← get_lease x;
  l ← gets (λ l, l);
  if decide (owns ls l)
  then put_lease x (mkLease (ls_key ls) (ls_flight ls) (ls_abortHook ls) true) ;; mret true
  else mret false.

Definition execution_done (success : bool) (fl : rpcResultFlight) : rpcResultFlight :=
  mkFlight (fl_key fl) (fl_done fl) (fl_encoded fl) (fl_ok fl) (fl_subscribers fl) true success []
    (fl_acknowledged fl) (fl_subscriberSlots fl) (fl_identity fl) (fl_admissionSeq fl)
    (fl_reservation fl).

Definition CompleteExecution (x : nat) (success : bool) : M bool :=
  ls ← get_lease x;
  l ← gets (λ l, l);
  if decide (owns ls l) then
    flight ← get_flight (ls_flight ls);
    if fl_executionDone flight then mret false
    else
      put_flight (ls_flight ls) (execution_done success flight) ;;
      releaseFlightSubscriberSlots (ls_key ls) (ls_flight ls) (len (fl_executionSubscribers flight)) ;;
      notify None false [] success (fl_executionSubscribers flight) ;;
      mret true
  else mret false.

Definition Abort (x : nat) : M bool :=
  ls ← get_lease x;
  l ← gets (λ l, l);
  if ls_handedOff ls then mret false
  else if decide (owns ls l) then
    let f := ls_flight ls in
    delete_pending (ls_key ls) ;;
    flight ← get_flight f;
    match fl_reservation flight with
    | None => mret tt
    | Some rv => on_fair (lift_upd (fair_release rv))
    end ;;
    on_limit (lift_upd limit_release) ;;
    retireSeq (fl_admissionSeq flight) ;;
    put_flight f (detach None false flight) ;;
    releaseFlightSubscriberSlots (ls_key ls) f
      (len (fl_subscribers flight) + len (fl_executionSubscribers flight)) ;;
    emit [EvAborted (ls_key ls)] ;;
    put_lease x (set_hook None ls) ;;
    emit (EvHook <$> slot (ls_abortHook ls)) ;;
    notify None false (fl_subscribers flight) false (fl_executionSubscribers flight) ;;
    mret true
  else mret false.

(** ** Construction *)

Record rpcExecutionLedgerCapacity := mkCapacity {
  maxPending : Z;
  maxPendingPerAuth : Z;
  globalMaxEntries : Z;
  authMaxEntries : Z;
  sessionMaxEntries : Z;
  subscriberMaxGlobal : Z;
  subscriberMaxAuth : Z;
  subscriberMaxSession : Z;
  subscriberMaxPerFlight : Z;
}.

Definition positive_or (n d : Z) : Z := if n <=? 0 then d else n.

(** The capacities after the defaults are filled in. *)
Definition with_defaults (c : rpcExecutionLedgerCapacity) : rpcExecutionLedgerCapacity :=
  let pending := positive_or (maxPending c) rpcResultFlightDefaultMaxPending in
  let global := positive_or (globalMaxEntries c) rpcExecutionMaxEntries in
  let auth := positive_or (authMaxEntries c) global in
  mkCapacity pending (positive_or (maxPendingPerAuth c) pending) global auth
    (positive_or (sessionMaxEntries c) auth)
    (positive_or (subscriberMaxGlobal c) rpcResultSubscriberMaxGlobal)
    (positive_or (subscriberMaxAuth c) rpcResultSubscriberMaxAuth)
    (positive_or (subscriberMaxSession c) rpcResultSubscriberMaxSession)
    (positive_or (subscriberMaxPerFlight c) rpcResultSubscriberMaxPerFlight).

(** The sixteen shards start empty, which is what [shardAt] reads. *)
Definition newRPCExecutionLedger (fa : FA) (fs : FS) (sa : SA) (ss : SS) (now : Z)
    (capacity : rpcExecutionLedgerCapacity) : rpcExecutionLedger :=
  let c := with_defaults capacity in
  mkLedger ∅ ∅ ∅ ∅ 0 0
    (newRPCExecutionFairBudget fa fs (globalMaxEntries c) (authMaxEntries c) (sessionMaxEntries c)
       (maxPendingPerAuth c))
    (mkLimit (maxPending c) 0)
    (newRPCResultSubscriberBudget sa ss (subscriberMaxGlobal c) (subscriberMaxAuth c)
       (subscriberMaxSession c))
    (subscriberMaxPerFlight c) 0 tr_empty now [].
End ledger.
