(* ===== verification/LedgerInv.v ===== *)
(** The ledger's invariant: who owns what between two critical sections.

    It is split by concern - the shape of the claim tables, the counters, the
    admission sequences, the callback slots, the receipts' order and the trace -
    and each part has one lemma per kind of state change. *)

From S2P Require Import Prelude UsageMap FairBudget AdmissionTracker Ledger.

Open Scope Z_scope.

Lemma filter_ne_notin {A} `{EqDecision A} (x : A) (l : list A) : x ∉ l → filter (λ y, y ≠ x) l = l.
Proof.
  induction l as [|y l IH]; intros Hx; [done|]. apply not_elem_of_cons in Hx as [Hne Hx].
  rewrite filter_cons_True by congruence. by rewrite IH.
Qed.

Lemma filter_ne_length {A} `{EqDecision A} (x : A) (l : list A) :
  NoDup l → x ∈ l → S (length (filter (λ y, y ≠ x) l)) = length l.
Proof.
  induction 1 as [|y l Hy Hnd IH]; intros Hx; [by apply elem_of_nil in Hx|].
  apply elem_of_cons in Hx as [->|Hx].
  - rewrite filter_cons_False by (intros Hn; by apply Hn). by rewrite filter_ne_notin.
  - rewrite filter_cons_True by (intros ->; done). simpl. by rewrite IH.
Qed.

Section ledger_inv.
Context {Ident : Type} `{EqDecision Ident} {Enc : Type}.
Context `{!ShardHash rpcExecutionKey}.
Context {FA FS SA SS : Type}.
Context `{!UsageMap Z rpcExecutionBudgetUsage FA} `{!UsageMapLaws Z rpcExecutionBudgetUsage FA}.
Context `{!UsageMap sessionKey rpcExecutionBudgetUsage FS}
        `{!UsageMapLaws sessionKey rpcExecutionBudgetUsage FS}.
Context `{!UsageMap Z Z SA} `{!UsageMapLaws Z Z SA}.
Context `{!UsageMap sessionKey Z SS} `{!UsageMapLaws sessionKey Z SS}.
Abbreviation ledger := (@rpcExecutionLedger Ident Enc FA FS SA SS).
Abbreviation flight := (@rpcResultFlight Ident Enc).
Abbreviation receipt := (@rpcExecutionReceipt Ident).
Abbreviation shardmap := (gmap nat rpcExecutionLedgerShard).
Implicit Types (l : ledger) (ss : shardmap) (k : rpcExecutionKey).
Implicit Types (fs : gmap nat flight) (rs : gmap nat receipt).
Implicit Types (os : gmap nat rpcExecutionBudgetReservation).

(** ** Views of the shard tables *)

Definition sh ss (i : nat) : rpcExecutionLedgerShard := default shard0 (ss !! i).
Definition pend ss k : option nat := sh_pending (sh ss (shardIndex k)) !! k.
Definition rcpt ss k : option nat := sh_byKey (sh ss (shardIndex k)) !! k.
Definition ord ss (i : nat) : list nat := sh_order (sh ss i).

Definition claimed ss k : Prop := is_Some (pend ss k) ∨ is_Some (rcpt ss k).

Lemma sh_insert ss i s j : sh (<[i:=s]> ss) j = if decide (i = j) then s else sh ss j.
Proof. unfold sh. rewrite lookup_insert. by destruct (decide _). Qed.

(** The shard tables after each kind of update. *)
Definition unlinked (k : rpcExecutionKey) (e : nat) ss : shardmap :=
  let s := sh ss (shardIndex k) in
  <[shardIndex k := mkShard (filter (λ x, x ≠ e) (sh_order s)) (delete k (sh_byKey s)) (sh_pending s)]> ss.
Definition linked (k : rpcExecutionKey) (e : nat) ss : shardmap :=
  let s := sh ss (shardIndex k) in
  <[shardIndex k := mkShard (sh_order s ++ [e]) (<[k := e]> (sh_byKey s)) (sh_pending s)]> ss.
Definition claim (k : rpcExecutionKey) (f : nat) ss : shardmap :=
  let s := sh ss (shardIndex k) in
  <[shardIndex k := mkShard (sh_order s) (sh_byKey s) (<[k := f]> (sh_pending s))]> ss.
Definition unclaimed (k : rpcExecutionKey) ss : shardmap :=
  let s := sh ss (shardIndex k) in
  <[shardIndex k := mkShard (sh_order s) (sh_byKey s) (delete k (sh_pending s))]> ss.

Ltac view_lemma :=
  unfold pend, rcpt, ord, unlinked, linked, claim, unclaimed; rewrite sh_insert;
  repeat (case_decide; simpl; subst; try done);
  try (match goal with H : shardIndex _ = shardIndex _ |- _ => rewrite H in * end);
  rewrite ?lookup_delete_eq, ?lookup_insert_eq by done;
  rewrite ?lookup_delete_ne, ?lookup_insert_ne by done; done.

Lemma pend_unlinked k e ss k' : pend (unlinked k e ss) k' = pend ss k'.
Proof. view_lemma. Qed.
Lemma rcpt_unlinked k e ss k' :
  rcpt (unlinked k e ss) k' = if decide (k = k') then None else rcpt ss k'.
Proof. view_lemma. Qed.
Lemma ord_unlinked k e ss i :
  ord (unlinked k e ss) i = if decide (shardIndex k = i) then filter (λ x, x ≠ e) (ord ss i) else ord ss i.
Proof. view_lemma. Qed.
Lemma pend_linked k e ss k' : pend (linked k e ss) k' = pend ss k'.
Proof. view_lemma. Qed.
Lemma rcpt_linked k e ss k' :
  rcpt (linked k e ss) k' = if decide (k = k') then Some e else rcpt ss k'.
Proof. view_lemma. Qed.
Lemma ord_linked k e ss i :
  ord (linked k e ss) i = if decide (shardIndex k = i) then ord ss i ++ [e] else ord ss i.
Proof. view_lemma. Qed.
Lemma pend_claim k f ss k' : pend (claim k f ss) k' = if decide (k = k') then Some f else pend ss k'.
Proof. view_lemma. Qed.
Lemma rcpt_claim k f ss k' : rcpt (claim k f ss) k' = rcpt ss k'.
Proof. view_lemma. Qed.
Lemma ord_claim k f ss i : ord (claim k f ss) i = ord ss i.
Proof. view_lemma. Qed.
Lemma pend_unclaimed k ss k' : pend (unclaimed k ss) k' = if decide (k = k') then None else pend ss k'.
Proof. view_lemma. Qed.
Lemma rcpt_unclaimed k ss k' : rcpt (unclaimed k ss) k' = rcpt ss k'.
Proof. view_lemma. Qed.
Lemma ord_unclaimed k ss i : ord (unclaimed k ss) i = ord ss i.
Proof. view_lemma. Qed.

#[local] Create Rewrite HintDb views.
#[local] Hint Rewrite pend_unlinked rcpt_unlinked ord_unlinked pend_linked rcpt_linked ord_linked
  pend_claim rcpt_claim ord_claim pend_unclaimed rcpt_unclaimed ord_unclaimed : views.

(** ** The shape of the claim tables

    A key has at most one claim: a pending flight whose reservation still
    counts as pending, or a receipt in its shard's list.  Every reservation
    that is charged belongs to exactly one of them, but for the one [x] that a
    critical section has in hand. *)

Record shape_but (x : option nat) ss fs rs os : Prop := {
  sp_flight f fl : fs !! f = Some fl → fl_done fl = false →
    pend ss (fl_key fl) = Some f ∧ rcpt ss (fl_key fl) = None ∧
    ∃ rv, fl_reservation fl = Some rv ∧ os !! rv = Some (mkRes (fl_key fl) true false);
  sp_pend k f : pend ss k = Some f → ∃ fl, fs !! f = Some fl ∧ fl_key fl = k ∧ fl_done fl = false;
  sp_nodup i : NoDup (ord ss i);
  sp_elem i e : e ∈ ord ss i → ∃ r, rs !! e = Some r ∧ rcpt ss (rc_key r) = Some e ∧
    shardIndex (rc_key r) = i;
  sp_rcpt k e : rcpt ss k = Some e → e ∈ ord ss (shardIndex k) ∧ ∃ r rv, rs !! e = Some r ∧
    rc_key r = k ∧ rc_reservation r = Some rv ∧ os !! rv = Some (mkRes k false false);
  sp_objs rv o : Some rv ≠ x → os !! rv = Some o → rs_released o = false →
    if rs_pending o
    then ∃ f fl, pend ss (rs_key o) = Some f ∧ fs !! f = Some fl ∧ fl_reservation fl = Some rv
    else ∃ e r, rcpt ss (rs_key o) = Some e ∧ rs !! e = Some r ∧ rc_reservation r = Some rv;
}.

Abbreviation shape := (shape_but None).

Definition release_obj (rv : nat) os := alter (λ o, mkRes (rs_key o) false true) rv os.
Definition unpend_obj (rv : nat) os := alter (λ o, mkRes (rs_key o) false (rs_released o)) rv os.

(** The receipt a key points to, unfolded. *)
Lemma shape_receipt x ss fs rs os k e :
  shape_but x ss fs rs os → rcpt ss k = Some e →
  ∃ r rv, rs !! e = Some r ∧ rc_key r = k ∧ rc_reservation r = Some rv ∧
    os !! rv = Some (mkRes k false false) ∧ e ∈ ord ss (shardIndex k) ∧ pend ss k = None.
Proof.
  intros H Hk. destruct (sp_rcpt _ _ _ _ _ H k e Hk) as (Ho & r & rv & ? & ? & ? & ?).
  exists r, rv. split_and!; try done. destruct (pend ss k) as [f|] eqn:Hp; [|done].
  destruct (sp_pend _ _ _ _ _ H k f Hp) as (fl & Hf & <- & Hd).
  destruct (sp_flight _ _ _ _ _ H f fl Hf Hd) as (_ & Hn & _). congruence.
Qed.

Lemma shape_remove ss fs rs os k e r rv :
  shape ss fs rs os → rcpt ss k = Some e → rs !! e = Some r → rc_reservation r = Some rv →
  shape (unlinked k e ss) fs (<[e := drop_reservation r]> rs) (release_obj rv os).
Proof.
  intros H Hk Hr Hrv.
  destruct (shape_receipt _ _ _ _ _ _ _ H Hk) as (r' & rv' & Hr' & Hkey & Hrv' & Ho & He & Hp).
  rewrite Hr in Hr'; injection Hr' as <-. rewrite Hrv in Hrv'; injection Hrv' as <-.
  unfold release_obj. rewrite (alter_alt_Some _ _ _ _ Ho). simpl.
  split.
  - intros f fl Hf Hd. destruct (sp_flight _ _ _ _ _ H f fl Hf Hd) as (Hpf & Hn & rv' & Hres & Hobj).
    autorewrite with views. split; [done|]. split; [by case_decide|].
    exists rv'. split; [done|]. rewrite lookup_insert_ne; [done|]. intros <-. congruence.
  - intros k' f. autorewrite with views. apply (sp_pend _ _ _ _ _ H).
  - intros i. autorewrite with views. case_decide; [apply NoDup_filter|]; apply (sp_nodup _ _ _ _ _ H).
  - intros i e' He'. autorewrite with views in He'.
    assert (e' ≠ e ∧ e' ∈ ord ss i) as [Hne Hin].
    { case_decide as Hi; [by apply list_elem_of_filter in He'|]. split; [|done]. intros ->.
      destruct (sp_elem _ _ _ _ _ H i e He') as (r' & Hr' & _ & Hi'). congruence. }
    destruct (sp_elem _ _ _ _ _ H i e' Hin) as (r' & Hr' & Hb & Hi).
    exists r'. rewrite lookup_insert_ne by done. autorewrite with views.
    rewrite decide_False by congruence. done.
  - intros k' e' Hk'. autorewrite with views in Hk'. case_decide as Hkk; [done|].
    destruct (sp_rcpt _ _ _ _ _ H k' e' Hk') as (He' & r' & rv' & ? & ? & ? & Hob).
    assert (e' ≠ e) as Hne by congruence.
    split. { autorewrite with views. case_decide; [apply list_elem_of_filter|]; done. }
    exists r', rv'. rewrite !lookup_insert_ne; [done|intros <-; congruence|done].
  - intros rv' o _ Ho' Hrel. apply lookup_insert_Some in Ho' as [[<- <-]|[Hne Ho']]; [done|].
    pose proof (sp_objs _ _ _ _ _ H rv' o ltac:(done) Ho' Hrel) as Hown. destruct (rs_pending o).
    + destruct Hown as (f & fl & ? & ? & ?). exists f, fl. autorewrite with views. done.
    + destruct Hown as (e' & r' & Hk' & ? & ?). exists e', r'. autorewrite with views.
      rewrite decide_False by (intros ->; congruence). rewrite lookup_insert_ne by congruence. done.
Qed.

Lemma shape_install ss fs rs os k f rv fl :
  shape ss fs rs os → ¬ claimed ss k → fs !! f = None → os !! rv = None →
  fl_key fl = k → fl_done fl = false → fl_reservation fl = Some rv →
  shape (claim k f ss) (<[f := fl]> fs) rs (<[rv := mkRes k true false]> os).
Proof.
  intros H Hfree Hf Hrv Hkey Hdone Hres.
  assert (rcpt ss k = None) as Hnr.
  { apply eq_None_not_Some. intros ?. apply Hfree. by right. }
  assert (pend ss k = None) as Hnp.
  { apply eq_None_not_Some. intros ?. apply Hfree. by left. }
  split.
  - intros f' fl' Hf' Hd. autorewrite with views. apply lookup_insert_Some in Hf' as [[<- <-]|[Hne Hf']].
    + rewrite Hkey, decide_True by done. split_and!; [done|done|]. exists rv. by rewrite lookup_insert_eq.
    + destruct (sp_flight _ _ _ _ _ H f' fl' Hf' Hd) as (? & ? & rv' & ? & ?).
      rewrite decide_False by congruence. split_and!; [done|done|]. exists rv'.
      rewrite lookup_insert_ne by congruence. done.
  - intros k' f' Hp. autorewrite with views in Hp. case_decide as Hkk.
    + injection Hp as <-. subst k'. exists fl. by rewrite lookup_insert_eq.
    + destruct (sp_pend _ _ _ _ _ H k' f' Hp) as (fl' & ? & ? & ?). exists fl'.
      rewrite lookup_insert_ne by congruence. done.
  - intros i. autorewrite with views. apply (sp_nodup _ _ _ _ _ H).
  - intros i e. autorewrite with views. intros He.
    destruct (sp_elem _ _ _ _ _ H i e He) as (r & ? & ? & ?). exists r. autorewrite with views. done.
  - intros k' e. autorewrite with views. intros Hk'.
    destruct (sp_rcpt _ _ _ _ _ H k' e Hk') as (? & r & rv' & ? & ? & ? & ?).
    split; [done|]. exists r, rv'. rewrite lookup_insert_ne by congruence. done.
  - intros rv' o _ Ho Hrel. apply lookup_insert_Some in Ho as [[<- <-]|[Hne Ho]]; simpl.
    + exists f, fl. autorewrite with views. rewrite decide_True by done. by rewrite lookup_insert_eq.
    + pose proof (sp_objs _ _ _ _ _ H rv' o ltac:(done) Ho Hrel) as Hown. destruct (rs_pending o).
      * destruct Hown as (f' & fl' & ? & ? & ?). exists f', fl'. autorewrite with views.
        rewrite decide_False by congruence. rewrite lookup_insert_ne by congruence. done.
      * destruct Hown as (e & r & ? & ? & ?). exists e, r. autorewrite with views. done.
Qed.

(** A flight changes without changing hands. *)
Lemma shape_touch ss fs rs os f fl fl' :
  shape ss fs rs os → fs !! f = Some fl → fl_key fl' = fl_key fl → fl_done fl' = fl_done fl →
  fl_reservation fl' = fl_reservation fl → shape ss (<[f := fl']> fs) rs os.
Proof.
  intros H Hf Hk Hd Hr. split; try apply H.
  - intros f' fl'' Hf' Hd'. apply lookup_insert_Some in Hf' as [[<- <-]|[Hne Hf']].
    + rewrite Hk, Hr. apply (sp_flight _ _ _ _ _ H); congruence.
    + by apply (sp_flight _ _ _ _ _ H).
  - intros k f' Hp. destruct (sp_pend _ _ _ _ _ H k f' Hp) as (fl'' & Hf' & ? & ?).
    destruct (decide (f' = f)) as [->|]; [exists fl'|exists fl''].
    + rewrite lookup_insert_eq. split_and!; congruence.
    + by rewrite lookup_insert_ne.
  - intros rv o _ Ho Hrel. pose proof (sp_objs _ _ _ _ _ H rv o ltac:(done) Ho Hrel) as Hown.
    destruct (rs_pending o); [|done]. destruct Hown as (f' & fl'' & ? & ? & ?).
    destruct (decide (f' = f)) as [->|]; [exists f, fl'|exists f', fl''].
    + rewrite lookup_insert_eq. split_and!; congruence.
    + by rewrite lookup_insert_ne.
Qed.

Lemma shape_flight x ss fs rs os k f :
  shape_but x ss fs rs os → pend ss k = Some f →
  ∃ fl rv, fs !! f = Some fl ∧ fl_key fl = k ∧ fl_done fl = false ∧ fl_reservation fl = Some rv ∧
    os !! rv = Some (mkRes k true false) ∧ rcpt ss k = None.
Proof.
  intros H Hp. destruct (sp_pend _ _ _ _ _ H k f Hp) as (fl & Hf & <- & Hd).
  destruct (sp_flight _ _ _ _ _ H f fl Hf Hd) as (_ & Hn & rv & ? & ?). by exists fl, rv.
Qed.

(** The flights left once the one of [k] is closed. *)
Lemma shape_close x ss fs rs os k f fl fl' :
  shape_but x ss fs rs os → pend ss k = Some f → fs !! f = Some fl → fl_done fl' = true →
  (∀ f' fl'', <[f := fl']> fs !! f' = Some fl'' → fl_done fl'' = false →
     fs !! f' = Some fl'' ∧ f' ≠ f ∧ fl_key fl'' ≠ k) ∧
  (∀ k' f', k ≠ k' → pend ss k' = Some f' →
     ∃ fl'', <[f := fl']> fs !! f' = Some fl'' ∧ fl_key fl'' = k' ∧ fl_done fl'' = false).
Proof.
  intros H Hp Hf Hd. split.
  - intros f' fl'' Hf' Hd'. apply lookup_insert_Some in Hf' as [[<- <-]|[Hne Hf']]; [congruence|].
    split_and!; [done|done|]. intros Hk. destruct (sp_flight _ _ _ _ _ H f' fl'' Hf' Hd') as [Hp' _].
    congruence.
  - intros k' f' Hne Hp'. destruct (sp_pend _ _ _ _ _ H k' f' Hp') as (fl'' & ? & ? & ?).
    exists fl''. rewrite lookup_insert_ne; [done|]. intros <-.
    destruct (shape_flight _ _ _ _ _ _ _ H Hp) as (? & ? & ? & ? & _). congruence.
Qed.

(** The pending flight of [k] is closed; its reservation is in hand. *)
Lemma shape_detach ss fs rs os k f fl fl' rv o :
  shape ss fs rs os → pend ss k = Some f → fs !! f = Some fl → fl_done fl' = true →
  fl_reservation fl = Some rv →
  shape_but (Some rv) (unclaimed k ss) (<[f := fl']> fs) rs (<[rv := o]> os).
Proof.
  intros H Hp Hf Hd Hrv.
  destruct (shape_close _ _ _ _ _ _ _ _ _ H Hp Hf Hd) as [Hback Hfwd].
  destruct (shape_flight _ _ _ _ _ _ _ H Hp) as (fl0 & rv0 & ? & ? & ? & ? & Ho & Hn).
  assert (fl0 = fl) as -> by congruence. assert (rv0 = rv) as -> by congruence.
  split.
  - intros f' fl'' Hf' Hd'. destruct (Hback _ _ Hf' Hd') as (Hf'' & Hne & Hk).
    destruct (sp_flight _ _ _ _ _ H _ _ Hf'' Hd') as (? & ? & rv' & ? & ?).
    autorewrite with views. rewrite decide_False by done. split_and!; [done|done|].
    exists rv'. rewrite lookup_insert_ne by congruence. done.
  - intros k' f' Hp'. autorewrite with views in Hp'. case_decide; [done|]. eauto.
  - intros i. autorewrite with views. apply H.
  - intros i e. autorewrite with views. intros He.
    destruct (sp_elem _ _ _ _ _ H i e He) as (r & ? & ? & ?). exists r. autorewrite with views. done.
  - intros k' e. autorewrite with views. intros Hk'.
    destruct (sp_rcpt _ _ _ _ _ H k' e Hk') as (? & r & rv' & ? & ? & ? & ?).
    split; [done|]. exists r, rv'. rewrite lookup_insert_ne by congruence. done.
  - intros rv' o' Hx Ho' Hrel. assert (rv' ≠ rv) as Hne by congruence.
    rewrite lookup_insert_ne in Ho' by done.
    pose proof (sp_objs _ _ _ _ _ H rv' o' ltac:(done) Ho' Hrel) as Hown. destruct (rs_pending o').
    + destruct Hown as (f' & fl'' & ? & ? & ?). exists f', fl''. autorewrite with views.
      assert (f' ≠ f) by congruence.
      rewrite decide_False by (intros ->; congruence). rewrite lookup_insert_ne by done. done.
    + destruct Hown as (e & r & ? & ? & ?). exists e, r. autorewrite with views. done.
Qed.

(** The reservation in hand has been released. *)
Lemma shape_released ss fs rs os rv o :
  shape_but (Some rv) ss fs rs os → os !! rv = Some o → rs_released o = true → shape ss fs rs os.
Proof.
  intros H Ho Hrel. split; try apply H. intros rv' o' _ Ho' Hrel'.
  apply (sp_objs _ _ _ _ _ H); [|done|done]. intros [= ->]. congruence.
Qed.

(** A completed reservation is taken in hand. *)
Lemma shape_reserve ss fs rs os rv o :
  shape ss fs rs os → os !! rv = None → shape_but (Some rv) ss fs rs (<[rv := o]> os).
Proof.
  intros H Hrv. split; try apply H.
  - intros f fl Hf Hd. destruct (sp_flight _ _ _ _ _ H f fl Hf Hd) as (? & ? & rv' & ? & ?).
    split_and!; [done|done|]. exists rv'. rewrite lookup_insert_ne by congruence. done.
  - intros k e Hk. destruct (sp_rcpt _ _ _ _ _ H k e Hk) as (? & r & rv' & ? & ? & ? & ?).
    split; [done|]. exists r, rv'. rewrite lookup_insert_ne by congruence. done.
  - intros rv' o' Hx Ho'. rewrite lookup_insert_ne in Ho' by congruence. by apply (sp_objs _ _ _ _ _ H).
Qed.

(** The reservation in hand goes to a new receipt. *)
Lemma shape_link ss fs rs os k e r rv :
  shape_but (Some rv) ss fs rs os → ¬ claimed ss k → rs !! e = None →
  os !! rv = Some (mkRes k false false) →
  rc_key r = k → rc_reservation r = Some rv →
  shape (linked k e ss) fs (<[e := r]> rs) os.
Proof.
  intros H Hfree He Ho Hk Hrv.
  assert (∀ i, e ∉ ord ss i) as Hout.
  { intros i Hin. destruct (sp_elem _ _ _ _ _ H i e Hin) as (r' & ? & _). congruence. }
  split.
  - intros f fl Hf Hd. destruct (sp_flight _ _ _ _ _ H f fl Hf Hd) as (Hp & Hn & rv' & ? & ?).
    autorewrite with views. rewrite decide_False by (intros ->; apply Hfree; left; eauto).
    split_and!; [done|done|]. by exists rv'.
  - intros k' f. autorewrite with views. apply (sp_pend _ _ _ _ _ H).
  - intros i. autorewrite with views. case_decide; [|apply (sp_nodup _ _ _ _ _ H)].
    apply NoDup_app. split_and!; [apply (sp_nodup _ _ _ _ _ H)| |apply NoDup_singleton].
    intros e' He' ->%list_elem_of_singleton. by apply (Hout i).
  - intros i e'. autorewrite with views. intros He'.
    assert ((e' ∈ ord ss i) ∨ (e' = e ∧ shardIndex k = i)) as [Hin|[-> Hi]].
    { case_decide; [|by left]. apply elem_of_app in He' as [?|?%list_elem_of_singleton]; auto. }
    + destruct (sp_elem _ _ _ _ _ H i e' Hin) as (r' & Hr' & Hb & ?).
      exists r'. autorewrite with views. rewrite lookup_insert_ne by congruence.
      rewrite decide_False; [done|]. intros ->. apply Hfree. right. eauto.
    + exists r. rewrite lookup_insert_eq. autorewrite with views. by rewrite Hk, decide_True.
  - intros k' e'. autorewrite with views. case_decide as Hkk; [intros [= <-]; subst k'|].
    + split; [rewrite decide_True by done; apply elem_of_app; right; by apply list_elem_of_singleton|].
      exists r, rv. by rewrite lookup_insert_eq.
    + intros Hk'. destruct (sp_rcpt _ _ _ _ _ H k' e' Hk') as (Hin & r' & rv' & ? & ? & ? & ?).
      split. { case_decide; [apply elem_of_app; by left|done]. }
      exists r', rv'. rewrite lookup_insert_ne by congruence. done.
  - intros rv' o _ Ho' Hrel. destruct (decide (rv' = rv)) as [->|Hne].
    + assert (o = mkRes k false false) as -> by congruence. simpl. exists e, r.
      autorewrite with views. by rewrite decide_True, lookup_insert_eq.
    + pose proof (sp_objs _ _ _ _ _ H rv' o ltac:(congruence) Ho' Hrel) as Hown. destruct (rs_pending o).
      * destruct Hown as (f & fl & ? & ? & ?). exists f, fl. autorewrite with views. done.
      * destruct Hown as (e' & r' & Hk' & ? & ?). exists e', r'. autorewrite with views.
        rewrite decide_False by (intros ->; apply Hfree; right; by exists e').
        rewrite lookup_insert_ne by congruence. done.
Qed.

(** ** Counters *)

Definition open_flight (fl : flight) : Z := b2z (negb (fl_done fl)).
Definition shard_receipts (s : rpcExecutionLedgerShard) : Z := len (sh_order s).

Record counts ss fs (fair : rpcExecutionFairBudget FA FS) (limit : rpcResultFlightLimit) (n : Z) : Prop := {
  ct_fair : fair_inv fair;
  ct_limit : limit_wf limit;
  ct_used : lim_used limit = sum_map open_flight fs;
  ct_count : n = sum_map shard_receipts ss;
  ct_total : n + lim_used limit = lim_used (bd_global fair);
}.

Lemma open_flights_pos fs f fl :
  fs !! f = Some fl → fl_done fl = false → 1 ≤ sum_map open_flight fs.
Proof.
  intros Hf Hd. transitivity (open_flight fl); [unfold open_flight; by rewrite Hd|].
  apply (sum_map_ge _ _ f); [|done]. intros. apply b2z_bounds.
Qed.

Lemma shard_receipts_update ss i s :
  sum_map shard_receipts (<[i:=s]> ss) =
  sum_map shard_receipts ss - len (ord ss i) + len (sh_order s).
Proof. rewrite sum_map_insert. unfold ord, sh. by destruct (ss !! i). Qed.

Lemma shard_receipts_linked ss k e :
  sum_map shard_receipts (linked k e ss) = sum_map shard_receipts ss + 1.
Proof. unfold linked. rewrite shard_receipts_update. simpl. unfold ord, len. rewrite length_app. simpl. lia. Qed.

Lemma shard_receipts_unlinked ss fs rs os x k e :
  shape_but x ss fs rs os → rcpt ss k = Some e →
  sum_map shard_receipts (unlinked k e ss) = sum_map shard_receipts ss - 1.
Proof.
  intros H Hk. unfold unlinked. rewrite shard_receipts_update. simpl.
  destruct (sp_rcpt _ _ _ _ _ H k e Hk) as [Hin _].
  pose proof (filter_ne_length e _ (sp_nodup _ _ _ _ _ H (shardIndex k)) Hin). unfold ord, len in *. lia.
Qed.

Lemma shard_receipts_claim ss k f : sum_map shard_receipts (claim k f ss) = sum_map shard_receipts ss.
Proof. unfold claim. rewrite shard_receipts_update. simpl. unfold ord. lia. Qed.
Lemma shard_receipts_unclaimed ss k : sum_map shard_receipts (unclaimed k ss) = sum_map shard_receipts ss.
Proof. unfold unclaimed. rewrite shard_receipts_update. simpl. unfold ord. lia. Qed.

Lemma shard_receipts_nonneg ss : 0 ≤ sum_map shard_receipts ss.
Proof. apply sum_map_nonneg. intros. unfold shard_receipts, len. lia. Qed.

(** ** Admission sequences: registered exactly while their flight is open *)

Record seqs fs (next : Z) (t : rpcAdmissionTracker) : Prop := {
  sq_next : 0 ≤ next ≤ max_uint64;
  sq_wf : tracker_wf t;
  sq_bound f fl : fs !! f = Some fl → 0 ≤ fl_admissionSeq fl ≤ next;
  sq_active s : tr_active t s ↔
    ∃ f fl, fs !! f = Some fl ∧ fl_done fl = false ∧ fl_admissionSeq fl = s ∧ s ≠ 0;
  sq_uniq f1 f2 fl1 fl2 : fs !! f1 = Some fl1 → fs !! f2 = Some fl2 →
    fl_done fl1 = false → fl_done fl2 = false →
    fl_admissionSeq fl1 = fl_admissionSeq fl2 → fl_admissionSeq fl1 ≠ 0 → f1 = f2;
}.

Lemma seqs_touch fs next t f fl fl' :
  seqs fs next t → fs !! f = Some fl → fl_done fl' = fl_done fl →
  fl_admissionSeq fl' = fl_admissionSeq fl → seqs (<[f := fl']> fs) next t.
Proof.
  intros H Hf Hd Hs.
  assert (∀ f' fl1, <[f := fl']> fs !! f' = Some fl1 → ∃ fl0, fs !! f' = Some fl0 ∧
    fl_done fl1 = fl_done fl0 ∧ fl_admissionSeq fl1 = fl_admissionSeq fl0) as Hback.
  { intros f' fl1 [[<- <-]|[Hne Hf']]%lookup_insert_Some; eauto. }
  split; try apply H.
  - intros f' fl1 (fl0 & Hf' & _ & ->)%Hback. by apply (sq_bound _ _ _ H f').
  - intros s. rewrite (sq_active _ _ _ H). split.
    + intros (f' & fl0 & Hf' & ? & ? & ?). destruct (decide (f' = f)) as [->|].
      * exists f, fl'. rewrite lookup_insert_eq. split_and!; congruence.
      * exists f', fl0. by rewrite lookup_insert_ne.
    + intros (f' & fl1 & (fl0 & ? & ? & ?)%Hback & ? & ? & ?). exists f', fl0. split_and!; congruence.
  - intros f1 f2 fl1 fl2 (fl1' & ? & ? & ?)%Hback (fl2' & ? & ? & ?)%Hback ????.
    apply (sq_uniq _ _ _ H f1 f2 fl1' fl2'); congruence.
Qed.

(** The sequence of a flight that closes is retired. *)
Lemma seqs_close fs next t f fl fl' :
  seqs fs next t → fs !! f = Some fl → fl_done fl = false → fl_done fl' = true →
  fl_admissionSeq fl' = fl_admissionSeq fl →
  ∃ t', retire (fl_admissionSeq fl) t = Some t' ∧ seqs (<[f := fl']> fs) next t'.
Proof.
  intros H Hf Hd Hd' Hs.
  destruct (retire_Some (fl_admissionSeq fl) t) as [t' Ht].
  { destruct (decide (fl_admissionSeq fl = 0)); [by left|right].
    apply (sq_active _ _ _ H). by exists f, fl. }
  exists t'. split; [done|]. pose proof (retire_active _ _ _ Ht) as Hact.
  assert (∀ f' fl1, <[f := fl']> fs !! f' = Some fl1 → fl_done fl1 = false → fs !! f' = Some fl1 ∧ f' ≠ f)
    as Hback.
  { intros f' fl1 [[<- <-]|[Hne Hf']]%lookup_insert_Some; [congruence|done]. }
  split; try apply H.
  - eapply retire_wf; [done|apply H].
  - intros f' fl1 [[<- <-]|[Hne Hf']]%lookup_insert_Some; [rewrite Hs|]; by eapply (sq_bound _ _ _ H).
  - intros s. rewrite Hact, (sq_active _ _ _ H). split.
    + intros [(f' & fl0 & Hf' & ? & ? & ?) Hne]. exists f', fl0.
      rewrite lookup_insert_ne; [done|]. intros <-. destruct Hne; congruence.
    + intros (f' & fl1 & Hf' & Hd1 & Hs1 & Hs0). destruct (Hback _ _ Hf' Hd1) as [Hf'' Hne].
      split; [by exists f', fl1|]. destruct (decide (fl_admissionSeq fl = 0)); [by left|right].
      intros ->. apply Hne. apply (sq_uniq _ _ _ H f' f fl1 fl); congruence.
  - intros f1 f2 fl1 fl2 H1 H2 Hd1 Hd2. destruct (Hback _ _ H1 Hd1), (Hback _ _ H2 Hd2).
    by apply (sq_uniq _ _ _ H).
Qed.

(** A new flight without a sequence, or with the next one. *)
Lemma seqs_install fs next t f fl :
  seqs fs next t → fs !! f = None → fl_done fl = false → fl_admissionSeq fl = 0 →
  seqs (<[f := fl]> fs) next t.
Proof.
  intros H Hf Hd Hs. split; try apply H.
  - intros f' fl1 [[<- <-]|[Hne Hf']]%lookup_insert_Some; [|by eapply (sq_bound _ _ _ H)].
    pose proof (sq_next _ _ _ H). lia.
  - intros s. rewrite (sq_active _ _ _ H). split.
    + intros (f' & fl0 & Hf' & ?). exists f', fl0. rewrite lookup_insert_ne by congruence. done.
    + intros (f' & fl1 & [[<- <-]|[Hne Hf']]%lookup_insert_Some & ? & ? & ?); [congruence|].
      by exists f', fl1.
  - intros f1 f2 fl1 fl2 H1 H2 Hd1 Hd2 Heq Hne.
    apply lookup_insert_Some in H1 as [[<- <-]|[? H1]]; [congruence|].
    apply lookup_insert_Some in H2 as [[<- <-]|[? H2]]; [congruence|].
    by apply (sq_uniq _ _ _ H f1 f2 fl1 fl2).
Qed.

Lemma seqs_install_next fs next t f fl :
  seqs fs next t → fs !! f = None → fl_done fl = false → next ≠ max_uint64 →
  fl_admissionSeq fl = next + 1 →
  seqs (<[f := fl]> fs) (next + 1) (register (next + 1) t).
Proof.
  intros H Hf Hd Hmax Hs. pose proof (sq_next _ _ _ H) as Hn. split.
  - lia.
  - apply register_wf; [lia|apply H].
  - intros f' fl1 [[<- <-]|[Hne Hf']]%lookup_insert_Some; [lia|].
    pose proof (sq_bound _ _ _ H f' fl1 Hf'). lia.
  - intros s. rewrite register_active, (sq_active _ _ _ H). split.
    + intros [->|(f' & fl0 & Hf' & ?)].
      * exists f, fl. rewrite lookup_insert_eq. split_and!; [done|done|done|lia].
      * exists f', fl0. rewrite lookup_insert_ne by congruence. done.
    + intros (f' & fl1 & [[<- <-]|[Hne Hf']]%lookup_insert_Some & ? & ? & ?); [left; congruence|].
      right. by exists f', fl1.
  - intros f1 f2 fl1 fl2 H1 H2 Hd1 Hd2 Heq Hne.
    apply lookup_insert_Some in H1 as [[<- <-]|[? H1]], H2 as [[<- <-]|[? H2]]; [done| | |].
    + pose proof (sq_bound _ _ _ H f2 fl2 H2). lia.
    + pose proof (sq_bound _ _ _ H f1 fl1 H1). lia.
    + by apply (sq_uniq _ _ _ H f1 f2 fl1 fl2).
Qed.

(** ** Callback slots *)

Definition slots_auth (a : Z) (fl : flight) : Z :=
  if decide (authKeyID (fl_key fl) = a) then fl_subscriberSlots fl else 0.
Definition slots_session (sk : sessionKey) (fl : flight) : Z :=
  if decide (key_session (fl_key fl) = sk) then fl_subscriberSlots fl else 0.

Record flight_wf (fl : flight) : Prop := {
  fw_slots : fl_subscriberSlots fl = len (fl_subscribers fl) + len (fl_executionSubscribers fl);
  fw_executed : fl_executionDone fl = true → fl_executionSubscribers fl = [];
  fw_done : fl_done fl = true → fl_subscribers fl = [] ∧ fl_executionDone fl = true;
  fw_open : fl_done fl = false → fl_ok fl = false ∧ fl_encoded fl = None;
  fw_ok : fl_ok fl = true ↔ is_Some (fl_encoded fl);
}.

Record slots fs (sub : rpcResultSubscriberBudget SA SS) (perFlight : Z) : Prop := {
  sl_per : 0 < perFlight ≤ max_int64;
  sl_flight f fl : fs !! f = Some fl → flight_wf fl ∧ fl_subscriberSlots fl ≤ perFlight;
  sl_sub : sub_inv (sum_map fl_subscriberSlots fs) (λ a, sum_map (slots_auth a) fs)
             (λ sk, sum_map (slots_session sk) fs) sub;
}.

Lemma sub_inv_ext total total' fa fa' fb fb' (b : rpcResultSubscriberBudget SA SS) :
  total = total' → (∀ a, fa a = fa' a) → (∀ sk, fb sk = fb' sk) →
  sub_inv total fa fb b → sub_inv total' fa' fb' b.
Proof.
  intros <- Ha Hs H. split; [apply H|apply H| |].
  - intros a. rewrite <- Ha. apply H.
  - intros sk. rewrite <- Hs. apply H.
Qed.

Lemma flight_slots_nonneg fl : flight_wf fl → 0 ≤ fl_subscriberSlots fl.
Proof. intros [-> _ _ _ _]. unfold len. lia. Qed.

(** The budget covers what one flight holds. *)
Lemma slots_covered fs sub per f fl :
  slots fs sub per → fs !! f = Some fl →
  fl_subscriberSlots fl ≤ sum_map fl_subscriberSlots fs ∧
  fl_subscriberSlots fl ≤ sum_map (slots_auth (authKeyID (fl_key fl))) fs ∧
  fl_subscriberSlots fl ≤ sum_map (slots_session (key_session (fl_key fl))) fs.
Proof.
  intros H Hf. split_and!.
  - apply (sum_map_ge _ _ f); [|done]. intros j y Hj. by apply flight_slots_nonneg, (sl_flight _ _ _ H j).
  - transitivity (slots_auth (authKeyID (fl_key fl)) fl).
    { unfold slots_auth. by rewrite decide_True. }
    apply (sum_map_ge _ _ f); [|done]. intros j y Hj. unfold slots_auth. case_decide; [|done].
    by apply flight_slots_nonneg, (sl_flight _ _ _ H j).
  - transitivity (slots_session (key_session (fl_key fl)) fl).
    { unfold slots_session. by rewrite decide_True. }
    apply (sum_map_ge _ _ f); [|done]. intros j y Hj. unfold slots_session. case_decide; [|done].
    by apply flight_slots_nonneg, (sl_flight _ _ _ H j).
Qed.

(** A flight is replaced by one that holds [d] slots more. *)
Lemma slots_sums fs f fl fl' d :
  fs !! f = Some fl → fl_key fl' = fl_key fl →
  fl_subscriberSlots fl' = fl_subscriberSlots fl + d →
  sum_map fl_subscriberSlots (<[f := fl']> fs) = sum_map fl_subscriberSlots fs + d ∧
  (∀ a, sum_map (slots_auth a) (<[f := fl']> fs) =
     if decide (authKeyID (fl_key fl) = a) then sum_map (slots_auth a) fs + d else sum_map (slots_auth a) fs) ∧
  (∀ sk, sum_map (slots_session sk) (<[f := fl']> fs) =
     if decide (key_session (fl_key fl) = sk) then sum_map (slots_session sk) fs + d
     else sum_map (slots_session sk) fs).
Proof.
  intros Hf Hk Hs. split_and!; intros; rewrite sum_map_insert, Hf; simpl.
  - lia.
  - unfold slots_auth at 2 3. rewrite Hk. case_decide; lia.
  - unfold slots_session at 2 3. rewrite Hk. case_decide; lia.
Qed.

Lemma slots_replace fs sub sub' per f fl fl' d :
  slots fs sub per → fs !! f = Some fl → fl_key fl' = fl_key fl →
  fl_subscriberSlots fl' = fl_subscriberSlots fl + d →
  flight_wf fl' → fl_subscriberSlots fl' ≤ per →
  (let a0 := authKeyID (fl_key fl) in let sk0 := key_session (fl_key fl) in
   sub_inv (sum_map fl_subscriberSlots fs + d)
    (λ a, if decide (a0 = a) then sum_map (slots_auth a) fs + d else sum_map (slots_auth a) fs)
    (λ sk, if decide (sk0 = sk) then sum_map (slots_session sk) fs + d else sum_map (slots_session sk) fs)
    sub') →
  slots (<[f := fl']> fs) sub' per.
Proof.
  intros H Hf Hk Hs Hwf Hle Hsub. destruct (slots_sums fs f fl fl' d Hf Hk Hs) as (H1 & H2 & H3).
  split; [apply H| |].
  - intros f' fl1 [[<- <-]|[Hne Hf']]%lookup_insert_Some; [done|by eapply sl_flight].
  - eapply sub_inv_ext; [..|exact Hsub]; [done|by intros; rewrite H2|by intros; rewrite H3].
Qed.

(** Same slots: nothing is charged. *)
Lemma slots_touch fs sub per f fl fl' :
  slots fs sub per → fs !! f = Some fl → fl_key fl' = fl_key fl →
  fl_subscriberSlots fl' = fl_subscriberSlots fl → flight_wf fl' → slots (<[f := fl']> fs) sub per.
Proof.
  intros H Hf Hk Hs Hwf. eapply (slots_replace _ _ _ _ _ _ _ 0 H Hf Hk); [lia|done| |].
  - rewrite Hs. by eapply sl_flight.
  - simpl. eapply sub_inv_ext; [..|exact (sl_sub _ _ _ H)]; [lia|intros; case_decide; lia..].
Qed.

Lemma slots_install fs sub per f fl :
  slots fs sub per → fs !! f = None → fl_subscriberSlots fl = 0 → flight_wf fl →
  slots (<[f := fl]> fs) sub per.
Proof.
  intros H Hf Hs Hwf. split; [apply H| |].
  - intros f' fl1 [[<- <-]|[Hne Hf']]%lookup_insert_Some; [|by eapply sl_flight].
    split; [done|]. rewrite Hs. pose proof (sl_per _ _ _ H). lia.
  - eapply sub_inv_ext; [..|exact (sl_sub _ _ _ H)]; intros; rewrite sum_map_insert_new by done.
    + lia.
    + unfold slots_auth at 2. case_decide; lia.
    + unfold slots_session at 2. case_decide; lia.
Qed.

(** ** The receipts of a shard expire in order *)

Definition expiry rs (e : nat) : Z := from_option rc_expiresAt 0 (rs !! e).

Record expiries ss rs (now : Z) : Prop := {
  ex_sorted i : StronglySorted (λ e1 e2, expiry rs e1 ≤ expiry rs e2) (ord ss i);
  ex_bound i e : e ∈ ord ss i → expiry rs e ≤ now + rpcExecutionReceiptTTL;
}.

Lemma StronglySorted_weaken {A} (R R' : relation A) (xs : list A) :
  (∀ x y, x ∈ xs → y ∈ xs → R x y → R' x y) → StronglySorted R xs → StronglySorted R' xs.
Proof.
  intros HR. induction 1 as [|x xs Hs IH Hf]; constructor.
  - apply IH. intros y z ? ?. apply HR; by apply elem_of_cons; right.
  - rewrite Forall_forall in *. intros y Hy. apply HR; [..|auto].
    + apply elem_of_cons; by left.
    + apply elem_of_cons; by right.
Qed.

Lemma StronglySorted_keep {A} (R : relation A) P `{∀ x, Decision (P x)} (xs : list A) :
  StronglySorted R xs → StronglySorted R (filter P xs).
Proof.
  induction 1 as [|x xs Hs IH Hf]; [constructor|].
  rewrite filter_cons. case_decide; [|done]. constructor; [done|].
  rewrite Forall_forall in *. intros y [_ Hy]%list_elem_of_filter. auto.
Qed.

Lemma expiries_same ss ss' rs rs' now :
  expiries ss rs now → (∀ i, ord ss' i = ord ss i) →
  (∀ i e, e ∈ ord ss i → expiry rs' e = expiry rs e) → expiries ss' rs' now.
Proof.
  intros H Ho He. split; intros i; rewrite Ho.
  - eapply StronglySorted_weaken; [|apply H]. intros x y Hx Hy. by rewrite !(He i).
  - intros e Hin. rewrite (He i) by done. by eapply ex_bound.
Qed.

Lemma expiries_unlinked ss rs now k e r r' :
  expiries ss rs now → rs !! e = Some r → rc_expiresAt r' = rc_expiresAt r →
  expiries (unlinked k e ss) (<[e := r']> rs) now.
Proof.
  intros H Hr He.
  assert (∀ e', expiry (<[e := r']> rs) e' = expiry rs e') as Hex.
  { intros e'. unfold expiry. destruct (decide (e' = e)) as [->|].
    - rewrite lookup_insert_eq, Hr. done.
    - by rewrite lookup_insert_ne. }
  split; intros i; autorewrite with views.
  - assert (StronglySorted (λ e1 e2, expiry (<[e := r']> rs) e1 ≤ expiry (<[e := r']> rs) e2) (ord ss i)).
    { eapply StronglySorted_weaken; [|apply H]. intros. by rewrite !Hex. }
    case_decide; [by apply StronglySorted_keep|done].
  - intros e' Hin. rewrite Hex. apply (ex_bound _ _ _ H i). case_decide; [|done].
    by apply list_elem_of_filter in Hin as [_ Hin].
Qed.

Lemma expiries_linked ss rs now k e r :
  expiries ss rs now → rs !! e = None → (∀ i, e ∉ ord ss i) →
  rc_expiresAt r = now + rpcExecutionReceiptTTL →
  expiries (linked k e ss) (<[e := r]> rs) now.
Proof.
  intros H Hr Hout He.
  assert (∀ i e', e' ∈ ord ss i → expiry (<[e := r]> rs) e' = expiry rs e') as Hex.
  { intros i e' Hin. unfold expiry. rewrite lookup_insert_ne; [done|]. intros <-. by apply (Hout i). }
  assert (expiry (<[e := r]> rs) e = now + rpcExecutionReceiptTTL) as Hnew.
  { unfold expiry. by rewrite lookup_insert_eq. }
  split; intros i; autorewrite with views.
  - assert (StronglySorted (λ e1 e2, expiry (<[e := r]> rs) e1 ≤ expiry (<[e := r]> rs) e2) (ord ss i)) as Hs.
    { eapply StronglySorted_weaken; [|apply H]. intros x y Hx Hy. by rewrite !(Hex i). }
    case_decide; [|done]. apply StronglySorted_app_2; [|done|by repeat constructor].
    intros x y Hx ->%list_elem_of_singleton. rewrite Hnew, (Hex i) by done. by eapply ex_bound.
  - intros e' Hin.
    assert (e' ∈ ord ss i ∨ e' = e) as [Hin'| ->]; [|rewrite (Hex i) by done; by eapply ex_bound|lia].
    case_decide; [|by left]. apply elem_of_app in Hin as [?|?%list_elem_of_singleton]; auto.
Qed.

(** ** Addresses *)

Record heap fs rs (ls : gmap nat rpcResultOwnerLease) (next : nat) : Prop := {
  hp_flight a : (next ≤ a)%nat → fs !! a = None;
  hp_receipt a : (next ≤ a)%nat → rs !! a = None;
  hp_lease a : (next ≤ a)%nat → ls !! a = None;
  hp_owned a x : ls !! a = Some x → ∃ fl, fs !! ls_flight x = Some fl ∧ fl_key fl = ls_key x;
}.

Lemma heap_touch fs rs ls next f fl fl' :
  heap fs rs ls next → fs !! f = Some fl → fl_key fl' = fl_key fl → heap (<[f := fl']> fs) rs ls next.
Proof.
  intros H Hf Hk. split; try apply H.
  - intros a Ha. rewrite lookup_insert_ne; [by apply H|].
    intros <-. pose proof (hp_flight _ _ _ _ H _ Ha). congruence.
  - intros a x Hx. destruct (hp_owned _ _ _ _ H a x Hx) as (fl0 & Hfl & Hkey).
    destruct (decide (ls_flight x = f)) as [Heq|].
    + exists fl'. rewrite Heq, lookup_insert_eq. split; congruence.
    + exists fl0. by rewrite lookup_insert_ne.
Qed.

Lemma heap_receipt fs rs ls next e r : heap fs rs ls next → (e < next)%nat → heap fs (<[e := r]> rs) ls next.
Proof.
  intros H He. split; try apply H. intros a Ha. rewrite lookup_insert_ne by lia. by apply H.
Qed.

Lemma heap_lease fs rs ls next a x x' :
  heap fs rs ls next → ls !! a = Some x → ls_flight x' = ls_flight x → ls_key x' = ls_key x →
  heap fs rs (<[a := x']> ls) next.
Proof.
  intros H Hx Hf Hk. split; try apply H.
  - intros b Hb. rewrite lookup_insert_ne; [by apply H|].
    intros <-. pose proof (hp_lease _ _ _ _ H _ Hb). congruence.
  - intros b y [[<- <-]|[Hne Hy]]%lookup_insert_Some; [|by eapply hp_owned].
    rewrite Hf, Hk. by eapply hp_owned.
Qed.

Lemma heap_more fs rs ls next next' : heap fs rs ls next → (next ≤ next')%nat → heap fs rs ls next'.
Proof. intros H Hle. split; try apply H; intros a Ha; apply H; lia. Qed.

Lemma heap_install fs rs ls next fl x :
  heap fs rs ls next → ls_flight x = next → fl_key fl = ls_key x →
  heap (<[next := fl]> fs) rs (<[S next := x]> ls) (S (S next)).
Proof.
  intros H Hf Hk. split.
  - intros a Ha. rewrite lookup_insert_ne by lia. apply H; lia.
  - intros a Ha. apply H; lia.
  - intros a Ha. rewrite lookup_insert_ne by lia. apply H; lia.
  - intros a y [[<- <-]|[Hne Hy]]%lookup_insert_Some.
    + exists fl. by rewrite Hf, lookup_insert_eq.
    + destruct (hp_owned _ _ _ _ H a y Hy) as (fl0 & Hfl & ?). exists fl0.
      rewrite lookup_insert_ne; [done|]. intros Hn.
      pose proof (hp_flight _ _ _ _ H next (le_n _)). congruence.
Qed.

(** ** The trace *)

Abbreviation ledger_event := (@event Enc).
Implicit Types (tr : list ledger_event).

(** Whether [k]'s claim is out, read off the trace; [None] once a claim was
    handed out while it was. *)
Definition claim_event (k : rpcExecutionKey) (ev : ledger_event) (held : bool) : option bool :=
  match ev with
  | EvOwner k' => if decide (k' = k) then (if held then None else Some true) else Some held
  | EvAborted k' | EvForgotten k' => if decide (k' = k) then Some false else Some held
  | _ => Some held
  end.
Definition claim_run (k : rpcExecutionKey) tr : option bool :=
  foldl (λ o ev, o ≫= claim_event k ev) (Some false) tr.

Definition occ (cb : nat) (cbs : list nat) : Z := len (filter (λ c, c = cb) cbs).
Definition accepted1 (cb : nat) (ev : ledger_event) : Z :=
  match ev with EvSubscribed cbs => occ cb cbs | _ => 0 end.
Definition fired1 (cb : nat) (ev : ledger_event) : Z :=
  match ev with EvResult c _ _ | EvExecution c _ => occ cb [c] | _ => 0 end.
(** How often [cb] was accepted, how often it was run, how often it waits. *)
Definition accepted (cb : nat) tr : Z := sumZ (accepted1 cb <$> tr).
Definition fired (cb : nat) tr : Z := sumZ (fired1 cb <$> tr).
Definition waiting (cb : nat) (fl : flight) : Z :=
  occ cb (fl_subscribers fl) + occ cb (fl_executionSubscribers fl).

Lemma occ_app cb xs ys : occ cb (xs ++ ys) = occ cb xs + occ cb ys.
Proof. unfold occ, len. rewrite filter_app, length_app. lia. Qed.
Lemma occ_nonneg cb xs : 0 ≤ occ cb xs.
Proof. unfold occ, len. lia. Qed.
Lemma occ_cons cb c xs : occ cb (c :: xs) = occ cb [c] + occ cb xs.
Proof. apply (occ_app cb [c] xs). Qed.
Lemma accepted_app cb tr tr' : accepted cb (tr ++ tr') = accepted cb tr + accepted cb tr'.
Proof. unfold accepted. by rewrite fmap_app, sumZ_app. Qed.
Lemma fired_app cb tr tr' : fired cb (tr ++ tr') = fired cb tr + fired cb tr'.
Proof. unfold fired. by rewrite fmap_app, sumZ_app. Qed.
Lemma claim_run_app k tr tr' :
  claim_run k (tr ++ tr') = foldl (λ o ev, o ≫= claim_event k ev) (claim_run k tr) tr'.
Proof. unfold claim_run. by rewrite foldl_app. Qed.

(** The calls of a publication. *)
Definition calls (encoded : option Enc) (ok : bool) (rsub : list nat) (eok : bool) (esub : list nat)
    : list ledger_event :=
  ((λ cb, EvResult cb encoded ok) <$> rsub) ++ ((λ cb, EvExecution cb eok) <$> esub).

Lemma fired_calls cb encoded ok rsub eok esub :
  fired cb (calls encoded ok rsub eok esub) = occ cb rsub + occ cb esub.
Proof.
  unfold calls, fired. rewrite fmap_app, sumZ_app. f_equal.
  - induction rsub as [|c rsub IH]; [done|]. rewrite !fmap_cons, sumZ_cons, IH, (occ_cons cb c rsub). done.
  - induction esub as [|c esub IH]; [done|]. rewrite !fmap_cons, sumZ_cons, IH, (occ_cons cb c esub). done.
Qed.
Lemma accepted_calls cb encoded ok rsub eok esub : accepted cb (calls encoded ok rsub eok esub) = 0.
Proof.
  unfold calls, accepted. rewrite fmap_app, sumZ_app. change 0 with (0 + 0). f_equal.
  - induction rsub as [|c rsub IH]; [done|]. by rewrite !fmap_cons, sumZ_cons, IH.
  - induction esub as [|c esub IH]; [done|]. by rewrite !fmap_cons, sumZ_cons, IH.
Qed.

(** Events that are not about [k]'s claim. *)
Definition quiet (k : rpcExecutionKey) (ev : ledger_event) : Prop := ∀ held, claim_event k ev held = Some held.

Lemma claim_run_quiet k tr tr' : Forall (quiet k) tr' → claim_run k (tr ++ tr') = claim_run k tr.
Proof.
  rewrite claim_run_app. generalize (claim_run k tr). intros o Hq. revert o.
  induction Hq as [|ev tr' Hev Hq IH]; intros o; simpl; [done|]. rewrite IH.
  destruct o as [held|]; simpl; [apply Hev|done].
Qed.
Lemma quiet_calls k encoded ok rsub eok esub : Forall (quiet k) (calls encoded ok rsub eok esub).
Proof. apply Forall_app; split; apply Forall_forall; by intros ev (cb & -> & _)%list_elem_of_fmap. Qed.

(** [owed cb] counts the calls of [cb] a critical section has detached and
    not made yet. *)
Record traced_owing (owed : nat → Z) ss fs tr : Prop := {
  tc_claim k : ∃ held, claim_run k tr = Some held ∧ (held = true → claimed ss k) ∧
    (is_Some (pend ss k) → held = true);
  tc_notify cb : accepted cb tr = fired cb tr + sum_map (waiting cb) fs + owed cb;
}.

Definition nothing_owed : nat → Z := λ _, 0.
Abbreviation traced := (traced_owing nothing_owed).

(** The callbacks of a step: what it accepts, what it runs, what it leaves. *)
Definition balanced (owed owed' : nat → Z) fs fs' tr : Prop :=
  ∀ cb, accepted cb tr + sum_map (waiting cb) fs + owed cb =
        fired cb tr + sum_map (waiting cb) fs' + owed' cb.

(** [k]'s claim is given back: [ev] says so, the rest of [tr'] runs callbacks. *)
Lemma traced_release owed owed' ss ss' fs fs' tr k ev tr' :
  traced_owing owed ss fs tr → ev = EvAborted k ∨ ev = EvForgotten k →
  (∀ k', Forall (quiet k') tr') →
  pend ss' k = None → (∀ k', k ≠ k' → pend ss' k' = pend ss k' ∧ rcpt ss' k' = rcpt ss k') →
  balanced owed owed' fs fs' tr' →
  traced_owing owed' ss' fs' (tr ++ ev :: tr').
Proof.
  intros H Hev Hq Hp Hsame Hn. rewrite cons_middle, app_assoc. split.
  - intros k'. rewrite claim_run_quiet by done. rewrite claim_run_app; simpl.
    destruct (tc_claim _ _ _ _ H k') as (held & Hrun & Hheld & Hpend). rewrite Hrun; simpl.
    destruct (decide (k = k')) as [<-|Hne].
    + exists false. split; [destruct Hev as [-> | ->]; simpl; by rewrite decide_True|].
      split; [done|]. rewrite Hp. by intros [].
    + destruct (Hsame k' Hne) as [Hp' Hr'].
      exists held. split; [destruct Hev as [-> | ->]; simpl; by rewrite decide_False|].
      unfold claimed. by rewrite Hp', Hr'.
  - intros cb. rewrite !accepted_app, !fired_app, (tc_notify _ _ _ _ H). specialize (Hn cb).
    assert (accepted cb [ev] = 0 ∧ fired cb [ev] = 0) as [-> ->] by (destruct Hev as [-> | ->]; split; reflexivity).
    lia.
Qed.

(** [k]'s claim is handed out. *)
Lemma traced_owner ss ss' fs fs' tr k :
  traced ss fs tr → ¬ claimed ss k → is_Some (pend ss' k) →
  (∀ k', k ≠ k' → pend ss' k' = pend ss k' ∧ rcpt ss' k' = rcpt ss k') →
  (∀ cb, sum_map (waiting cb) fs = sum_map (waiting cb) fs') →
  traced ss' fs' (tr ++ [EvOwner k]).
Proof.
  intros H Hfree Hp Hsame Hn. split.
  - intros k'. rewrite claim_run_app; simpl.
    destruct (tc_claim _ _ _ _ H k') as (held & Hrun & Hheld & Hpend). rewrite Hrun; simpl.
    destruct (decide (k = k')) as [<-|Hne].
    + exists true. destruct held; [destruct Hfree; auto|]. split; [done|]. split; [|done]. by left.
    + destruct (Hsame k' Hne) as [Hp' Hr']. exists held. split; [done|]. unfold claimed. by rewrite Hp', Hr'.
  - intros cb. rewrite accepted_app, fired_app, (tc_notify _ _ _ _ H), (Hn cb).
    unfold accepted, fired; simpl. lia.
Qed.

(** No claim ends: flights become receipts, receipts appear, or only callbacks
    are involved. *)
Lemma traced_keep owed owed' ss ss' fs fs' tr tr' :
  traced_owing owed ss fs tr → (∀ k, claimed ss k → claimed ss' k) →
  (∀ k, is_Some (pend ss' k) → is_Some (pend ss k)) →
  (∀ k, Forall (quiet k) tr') → balanced owed owed' fs fs' tr' →
  traced_owing owed' ss' fs' (tr ++ tr').
Proof.
  intros H Hc Hp Hq Hn. split.
  - intros k. rewrite claim_run_quiet by done. destruct (tc_claim _ _ _ _ H k) as (held & ? & ? & ?).
    exists held. split; [done|]. split; auto.
  - intros cb. rewrite accepted_app, fired_app, (tc_notify _ _ _ _ H). specialize (Hn cb). lia.
Qed.

(** ** The invariant *)

Record core_owing (owed : nat → Z) l : Prop := {
  co_shape : shape (lg_shards l) (lg_flights l) (lg_receipts l) (bd_objs (lg_fairBudget l));
  co_counts : counts (lg_shards l) (lg_flights l) (lg_fairBudget l) (lg_flightLimit l) (lg_receiptCount l);
  co_seqs : seqs (lg_flights l) (lg_nextAdmissionSeq l) (lg_activeAdmissions l);
  co_slots : slots (lg_flights l) (lg_subscriberBudget l) (lg_subscriberPerFlight l);
  co_exp : expiries (lg_shards l) (lg_receipts l) (lg_now l);
  co_heap : heap (lg_flights l) (lg_receipts l) (lg_leases l) (lg_next l);
  co_traced : traced_owing owed (lg_shards l) (lg_flights l) (lg_trace l);
}.
Abbreviation core := (core_owing nothing_owed).

(** An acknowledged receipt exists only inside [completeOnce]. *)
Definition settled l : Prop :=
  ∀ k e r, rcpt (lg_shards l) k = Some e → lg_receipts l !! e = Some r → rc_acknowledged r = false.

Record ledger_inv l : Prop := { li_core : core l; li_settled : settled l }.

(** What every step keeps: the configuration. *)
Definition same_config l l' : Prop :=
  lg_subscriberPerFlight l' = lg_subscriberPerFlight l ∧
  lim_max (lg_flightLimit l') = lim_max (lg_flightLimit l) ∧
  lim_max (bd_global (lg_fairBudget l')) = lim_max (bd_global (lg_fairBudget l)) ∧
  bd_authLimit (lg_fairBudget l') = bd_authLimit (lg_fairBudget l) ∧
  bd_sessionLimit (lg_fairBudget l') = bd_sessionLimit (lg_fairBudget l) ∧
  bd_pendingPerAuth (lg_fairBudget l') = bd_pendingPerAuth (lg_fairBudget l) ∧
  lim_max (sb_global (lg_subscriberBudget l')) = lim_max (sb_global (lg_subscriberBudget l)) ∧
  sb_authLimit (lg_subscriberBudget l') = sb_authLimit (lg_subscriberBudget l) ∧
  sb_sessionLimit (lg_subscriberBudget l') = sb_sessionLimit (lg_subscriberBudget l).

#[export] Instance same_config_preorder : PreOrder same_config.
Proof. split; unfold same_config; [intros ?|intros ???]; intuition congruence. Qed.

(** Reaping receipts leaves everything else alone. *)
Record reaped l l' : Prop := {
  re_config : same_config l l';
  re_flights : lg_flights l' = lg_flights l;
  re_leases : lg_leases l' = lg_leases l;
  re_now : lg_now l' = lg_now l;
  re_limit : lg_flightLimit l' = lg_flightLimit l;
  re_admissions : lg_nextAdmissionSeq l' = lg_nextAdmissionSeq l ∧
                  lg_activeAdmissions l' = lg_activeAdmissions l;
  re_pend k : pend (lg_shards l') k = pend (lg_shards l) k;
  re_rcpt k : rcpt (lg_shards l') k = rcpt (lg_shards l) k ∨ rcpt (lg_shards l') k = None;
  re_receipts k e : rcpt (lg_shards l') k = Some e → lg_receipts l' !! e = lg_receipts l !! e;
  re_trace : ∃ ks, lg_trace l' = lg_trace l ++ (EvForgotten <$> ks) ∧
    Forall (λ k, is_Some (rcpt (lg_shards l) k) ∧ rcpt (lg_shards l') k = None) ks;
}.

#[export] Instance reaped_refl : Reflexive reaped.
Proof.
  intros l. split; try done; [by left|]. exists []. by rewrite app_nil_r.
Qed.

#[export] Instance reaped_trans : Transitive reaped.
Proof.
  intros l1 l2 l3 H H'. split.
  - etrans; [apply (re_config _ _ H)|apply (re_config _ _ H')].
  - rewrite (re_flights _ _ H'). apply H.
  - rewrite (re_leases _ _ H'). apply H.
  - rewrite (re_now _ _ H'). apply H.
  - rewrite (re_limit _ _ H'). apply H.
  - destruct (re_admissions _ _ H), (re_admissions _ _ H'). split; congruence.
  - intros k. rewrite (re_pend _ _ H'). apply H.
  - intros k. destruct (re_rcpt _ _ H' k) as [->|]; [apply H|by right].
  - intros k e Hk. rewrite (re_receipts _ _ H' k e Hk). apply (re_receipts _ _ H k).
    destruct (re_rcpt _ _ H' k); congruence.
  - destruct (re_trace _ _ H) as (ks & Ht & Hks), (re_trace _ _ H') as (ks' & Ht' & Hks').
    exists (ks ++ ks'). rewrite Ht', Ht, fmap_app, app_assoc. split; [done|].
    apply Forall_app; split; rewrite Forall_forall in *.
    + intros k Hk. destruct (Hks k Hk) as [? Hn]. split; [done|].
      destruct (re_rcpt _ _ H' k); congruence.
    + intros k Hk. destruct (Hks' k Hk) as [[e He] ?]. split; [|done].
      destruct (re_rcpt _ _ H k) as [<-|]; [eauto|congruence].
Qed.

Lemma reaped_settled l l' : reaped l l' → settled l → settled l'.
Proof.
  intros H Hs k e r Hk Hr. rewrite (re_receipts _ _ H k e Hk) in Hr.
  apply (Hs k e r); [|done]. destruct (re_rcpt _ _ H k); congruence.
Qed.
End ledger_inv.
