(* ===== verification/LedgerOps.v ===== *)
(** Every critical section of the ledger keeps the invariant and does not
    panic; what each returns and changes. *)

From S2P Require Import Prelude UsageMap FairBudget AdmissionTracker Ledger LedgerInv.

Open Scope Z_scope.

Section ledger_ops.
Context {Ident : Type} `{EqDecision Ident} {Enc : Type}.
Context `{!ShardHash rpcExecutionKey}.
Context {FA FS SA SS : Type}.
Context `{!UsageMap Z rpcExecutionBudgetUsage FA} `{!UsageMapLaws Z rpcExecutionBudgetUsage FA}.
Context `{!UsageMap sessionKey rpcExecutionBudgetUsage FS}
        `{!UsageMapLaws sessionKey rpcExecutionBudgetUsage FS}.
Context `{!UsageMap Z Z SA} `{!UsageMapLaws Z Z SA}.
Context `{!UsageMap sessionKey Z SS} `{!UsageMapLaws sessionKey Z SS}.
Abbreviation ledger := (@rpcExecutionLedger Ident Enc FA FS SA SS).
Abbreviation flight := (@rpcResultFlight Ident Enc).
Abbreviation receipt := (@rpcExecutionReceipt Ident).
Implicit Types (l : ledger) (k : rpcExecutionKey).
Abbreviation core := (core_owing nothing_owed).

#[local] Create Rewrite HintDb views.
#[local] Hint Rewrite @pend_unlinked @rcpt_unlinked @ord_unlinked @pend_linked @rcpt_linked @ord_linked
  @pend_claim @rcpt_claim @ord_claim @pend_unclaimed @rcpt_unclaimed @ord_unclaimed : views.

(** One step, through the names of the primitive updates. *)
Ltac lg_step :=
  unfold emit, put_flight, put_receipt, put_lease, finish, delete_pending, alloc,
    incrementReceiptCount; wp_step.

Lemma wp_get_receipt e r (Q : receipt → ledger → Prop) l :
  lg_receipts l !! e = Some r → Q r l → wp (get_receipt e) Q l.
Proof. intros Hr HQ. unfold get_receipt. repeat wp_step. eapply wp_unwrap; eauto. Qed.
Lemma wp_get_flight f fl (Q : flight → ledger → Prop) l :
  lg_flights l !! f = Some fl → Q fl l → wp (get_flight f) Q l.
Proof. intros Hr HQ. unfold get_flight. repeat wp_step. eapply wp_unwrap; eauto. Qed.
Lemma wp_get_lease x ls (Q : rpcResultOwnerLease → ledger → Prop) l :
  lg_leases l !! x = Some ls → Q ls l → wp (get_lease x) Q l.
Proof. intros Hr HQ. unfold get_lease. repeat wp_step. eapply wp_unwrap; eauto. Qed.

(** A budget operation that is total on the budget's invariant. *)
Lemma wp_fair_release rv (Q : () → ledger → Prop) l :
  fair_inv (lg_fairBudget l) →
  (∀ b', fair_inv b' → fair_frame (lg_fairBudget l) b' →
     bd_objs b' = release_obj rv (bd_objs (lg_fairBudget l)) → Q tt (set_fairBudget b' l)) →
  wp (on_fair (lift_upd (fair_release rv))) Q l.
Proof.
  intros Hf HQ. destruct (fair_release_total _ rv Hf) as (b' & Hb & ? & ? & ?).
  eapply wp_zoom; [unfold lift_upd; by rewrite Hb|]. by apply HQ.
Qed.

(** ** Removing a receipt *)

Lemma sh_shardAt l i : shardAt i l = sh (lg_shards l) i.
Proof. done. Qed.

Lemma wp_unlink owed k e r (Q : receipt → ledger → Prop) l :
  core_owing owed l → rcpt (lg_shards l) k = Some e → lg_receipts l !! e = Some r →
  Q r (set_receiptCount (lg_receiptCount l - 1) (set_shards (unlinked k e (lg_shards l)) l)) →
  wp (unlinkElement (shardIndex k) e) Q l.
Proof.
  intros H Hk Hr HQ. unfold unlinkElement. wp_step. eapply wp_get_receipt; [done|].
  destruct (shape_receipt _ _ _ _ _ _ _ (co_shape _ _ H) Hk) as (r' & rv & Hr' & Hkey & _).
  assert (r' = r) as -> by congruence.
  pose proof (shard_receipts_unlinked _ _ _ _ _ _ _ (co_shape _ _ H) Hk) as Hsum.
  pose proof (shard_receipts_nonneg (unlinked k e (lg_shards l))) as Hnn.
  pose proof (ct_count _ _ _ _ _ (co_counts _ _ H)) as Hc.
  pose proof (ct_total _ _ _ _ _ (co_counts _ _ H)) as Ht.
  pose proof (bi_global _ (ct_fair _ _ _ _ _ (co_counts _ _ H))) as (Hm & _ & Hu).
  pose proof (ct_limit _ _ _ _ _ (co_counts _ _ H)) as (_ & Hl & _).
  assert (0 ≤ max_int64) by (vm_compute; congruence).
  unfold decrementReceiptCount. repeat wp_step. rewrite Hkey. cbn.
  assert (wrap64 (lg_receiptCount l - 1) = lg_receiptCount l - 1) as -> by (unwrap64; lia).
  replace (_ <? 0) with false by (symmetry; apply Z.ltb_ge; lia).
  exact HQ.
Qed.

Lemma removeElement_ok owed k e l :
  core_owing owed l → rcpt (lg_shards l) k = Some e →
  wp (removeElement (shardIndex k) e) (λ _ l', core_owing owed l' ∧ reaped l l' ∧
    lg_shards l' = unlinked k e (lg_shards l) ∧
    (∀ e', e' ≠ e → lg_receipts l' !! e' = lg_receipts l !! e') ∧
    lg_trace l' = lg_trace l ++ [EvForgotten k]) l.
Proof.
  intros H Hk.
  destruct (shape_receipt _ _ _ _ _ _ _ (co_shape _ _ H) Hk) as (r & rv & Hr & Hkey & Hrv & Ho & Hin & Hp).
  unfold removeElement. wp_step. eapply wp_unlink; [done..|]. repeat lg_step. rewrite Hrv.
  lg_step. apply wp_fair_release; [apply H|]. cbn. intros b' Hb' Hframe Hobj. lg_step. rewrite Hkey.
  pose proof (co_heap _ _ H) as Hheap.
  assert (e < lg_next l)%nat as He.
  { apply Nat.nle_gt. intros Hle. pose proof (hp_receipt _ _ _ _ Hheap e Hle). congruence. }
  destruct Hframe as (Hf1 & Hf2 & Hf3 & Hf4 & Hf5).
  split_and!.
  - destruct H as [Hsh [Hc1 Hc2 Hc3 Hc4 Hc5] Hsq Hsl Hex Hhp Htr]. split; cbn.
    + rewrite Hobj. by apply (shape_remove _ _ _ _ k e r rv).
    + pose proof (shard_receipts_unlinked _ _ _ _ _ _ _ Hsh Hk) as Hsum. split; try done; [lia|].
      rewrite (bi_live _ Hb'), Hobj. unfold release_obj.
      rewrite (alter_alt_Some _ _ _ _ Ho), sum_map_insert, Ho, <- (bi_live _ Hc1). simpl.
      unfold live; simpl. lia.
    + done.
    + done.
    + by eapply expiries_unlinked.
    + by apply heap_receipt.
    + eapply (traced_release _ _ _ _ _ _ _ k _ []); [done|by right|by constructor|..].
      * by autorewrite with views.
      * intros k' Hne. autorewrite with views. by rewrite decide_False.
      * intros cb. done.
  - split; try done; cbn.
    + intros k'. by autorewrite with views.
    + intros k'. autorewrite with views. case_decide; auto.
    + intros k' e'. autorewrite with views. case_decide as Hkk; [done|]. intros Hk'.
      rewrite lookup_insert_ne; [done|]. intros <-.
      destruct (shape_receipt _ _ _ _ _ _ _ (co_shape _ _ H) Hk') as (? & ? & ? & ? & _). congruence.
    + exists [k]. split; [done|]. apply Forall_singleton. autorewrite with views.
      rewrite decide_True by done. split; [by exists e|done].
  - done.
  - intros e' Hne. cbn. by rewrite lookup_insert_ne.
  - done.
Qed.

(** ** Sweeping receipts *)

(** The receipts that satisfy [P] are gone, the others are where they were. *)
Definition swept (P : rpcExecutionKey → nat → receipt → Prop) l l' : Prop :=
  core l' ∧ reaped l l' ∧
  ∀ k e r, rcpt (lg_shards l) k = Some e → lg_receipts l !! e = Some r →
    (P k e r → rcpt (lg_shards l') k = None) ∧ (¬ P k e r → rcpt (lg_shards l') k = Some e).

Lemma core_receipt l k e : core l → rcpt (lg_shards l) k = Some e →
  ∃ r, lg_receipts l !! e = Some r ∧ rc_key r = k ∧ e ∈ ord (lg_shards l) (shardIndex k).
Proof.
  intros H Hk. destruct (shape_receipt _ _ _ _ _ _ _ (co_shape _ _ H) Hk) as (r & _ & ? & ? & _ & _ & ? & _).
  by exists r.
Qed.

Lemma core_elem l i e : core l → e ∈ ord (lg_shards l) i →
  ∃ r, lg_receipts l !! e = Some r ∧ rcpt (lg_shards l) (rc_key r) = Some e ∧ shardIndex (rc_key r) = i.
Proof. intros H. apply (sp_elem _ _ _ _ _ (co_shape _ _ H)). Qed.

Lemma swept_nothing (P : rpcExecutionKey → nat → receipt → Prop) l :
  core l → (∀ k e r, rcpt (lg_shards l) k = Some e → lg_receipts l !! e = Some r → ¬ P k e r) → swept P l l.
Proof.
  intros H HP. split; [done|]. split; [done|]. intros k e r Hk Hr. split; [|done].
  intros Hp. by destruct (HP k e r Hk Hr).
Qed.

(** [P1] first, then [P2] among what is left. *)
Lemma swept_trans (P1 P2 P : rpcExecutionKey → nat → receipt → Prop) l l1 l2 :
  swept P1 l l1 → swept P2 l1 l2 → (∀ k e r, Decision (P1 k e r)) →
  (∀ k e r, rcpt (lg_shards l) k = Some e → lg_receipts l !! e = Some r →
     P k e r ↔ P1 k e r ∨ P2 k e r) → swept P l l2.
Proof.
  intros (H1 & R1 & S1) (H2 & R2 & S2) Hdec HP. split; [done|]. split; [by etrans|].
  intros k e r Hk Hr. destruct (S1 k e r Hk Hr) as [Sy Sn]. rewrite HP by done.
  destruct (decide (P1 k e r)) as [Hp|Hp].
  - specialize (Sy Hp). split; [|tauto]. intros _. destruct (re_rcpt _ _ R2 k); congruence.
  - specialize (Sn Hp). pose proof (re_receipts _ _ R1 k e Sn) as Hr'. rewrite Hr in Hr'.
    destruct (S2 k e r Sn Hr'). tauto.
Qed.

Lemma swept_ext (P P' : rpcExecutionKey → nat → receipt → Prop) l l' :
  (∀ k e r, rcpt (lg_shards l) k = Some e → lg_receipts l !! e = Some r → P k e r ↔ P' k e r) →
  swept P l l' → swept P' l l'.
Proof.
  intros HP (? & ? & HS). split; [done|]. split; [done|]. intros k e r Hk Hr. rewrite <- HP by done.
  by apply HS.
Qed.

Lemma removeElement_swept k e l :
  core l → rcpt (lg_shards l) k = Some e →
  wp (removeElement (shardIndex k) e) (λ _ l', swept (λ _ e' _, e' = e) l l' ∧
    lg_shards l' = unlinked k e (lg_shards l) ∧
    (∀ e', e' ≠ e → lg_receipts l' !! e' = lg_receipts l !! e')) l.
Proof.
  intros H Hk. eapply wp_mono; [by apply removeElement_ok|].
  intros [] l' (Hc & Hre & Hss & Hrs & _). split; [|done]. split; [done|]. split; [done|].
  intros k' e' r' Hk' Hr'. rewrite Hss. autorewrite with views.
  destruct (core_receipt l k e H Hk) as (r & Hr & Hkey & _).
  destruct (core_receipt l k' e' H Hk') as (r'' & Hr'' & Hkey' & _).
  split.
  - intros ->. rewrite decide_True; [done|]. congruence.
  - intros Hne. rewrite decide_False; [done|]. congruence.
Qed.

(** The loop over the front of the list stops at the first live receipt. *)
Lemma expire_from_ok i now es l :
  core l → ord (lg_shards l) i = es →
  wp (expire_from i now es) (λ _, swept (λ k e r, e ∈ es ∧ rc_expiresAt r ≤ now) l) l.
Proof.
  revert l. induction es as [|e es IH]; intros l H Hes; simpl.
  { apply wp_ret, swept_nothing; [done|]. intros k e r _ _ [[]%elem_of_nil _]. }
  destruct (core_elem l i e H) as (r & Hr & Hk & Hi); [rewrite Hes; by apply elem_of_cons; left|].
  wp_step. eapply wp_get_receipt; [done|].
  destruct (now <? rc_expiresAt r) eqn:Hnow; bool_facts.
  - apply wp_ret, swept_nothing; [done|]. intros k e' r' Hk' Hr' [Hin Hle].
    pose proof (ex_sorted _ _ _ (co_exp _ _ H) i) as Hs. rewrite Hes in Hs.
    apply StronglySorted_inv in Hs as [_ Hs]. rewrite Forall_forall in Hs.
    apply elem_of_cons in Hin as [->|Hin]; [simplify_eq; lia|].
    specialize (Hs e' Hin). unfold expiry in Hs. rewrite Hr, Hr' in Hs. simpl in Hs. lia.
  - wp_step. rewrite <- Hi. eapply wp_mono; [by apply removeElement_swept|].
    intros [] l' (Hsw & Hss & Hrs). pose proof Hsw as (Hc & Hre & _). cbv beta.
    assert ((e ∉ es) ∧ ord (lg_shards l') i = es) as [Hnin Hes'].
    { pose proof (sp_nodup _ _ _ _ _ (co_shape _ _ H) i) as Hnd. rewrite Hes in Hnd.
      apply NoDup_cons in Hnd as [Hnin Hnd]. split; [done|]. rewrite Hss. autorewrite with views.
      rewrite decide_True by done. rewrite Hes, filter_cons_False by (intros Hn; by apply Hn).
      by apply filter_ne_notin. }
    rewrite Hi. eapply wp_mono; [by apply IH|]. intros [] l'' Hsw'. cbv beta in *.
    eapply swept_trans; [exact Hsw|exact Hsw'|intros; cbv beta; apply _|].
    intros k e' r' Hk' Hr'. cbv beta. rewrite elem_of_cons. split.
    + intros [[->|Hin] Hle]; auto.
    + intros [->|[Hin Hle]]; [|auto]. simplify_eq. auto.
Qed.

Lemma expireLocked_ok i now l :
  core l →
  wp (expireLocked i now) (λ _, swept (λ k _ r, shardIndex k = i ∧ rc_expiresAt r ≤ now) l) l.
Proof.
  intros H. unfold expireLocked. repeat wp_step. eapply wp_mono; [by apply expire_from_ok|].
  intros [] l'. apply swept_ext. intros k e r Hk Hr. cbv beta.
  destruct (core_receipt l k e H Hk) as (r' & Hr' & Hkey & Hin).
  fold (sh (lg_shards l) i). change (sh_order (shardAt i l)) with (ord (lg_shards l) i). split.
  - intros [Hin' Hle]. split; [|done]. destruct (core_elem l i e H Hin') as (r'' & ? & ? & <-). congruence.
  - intros [<- Hle]. done.
Qed.

Lemma expireShard_ok i l :
  core l →
  wp (expireShard i) (λ _, swept (λ k _ r, shardIndex k = i ∧ rc_expiresAt r ≤ lg_now l) l) l.
Proof. intros H. unfold expireShard. repeat wp_step. by apply expireLocked_ok. Qed.

Lemma for_shards_ok body (Q : rpcExecutionKey → receipt → Prop) n now l :
  (∀ k r, Decision (Q k r)) →
  (∀ i l, core l → lg_now l = now → wp (body i) (λ _, swept (λ k _ r, shardIndex k = i ∧ Q k r) l) l) →
  core l → lg_now l = now →
  wp (for_shards body n) (λ _, swept (λ k _ r, (shardIndex k < n)%nat ∧ Q k r) l) l.
Proof.
  intros Hdec Hbody H Hnow. induction n as [|n IH]; simpl.
  { apply wp_ret, swept_nothing; [done|]. intros; lia. }
  wp_step. eapply wp_mono; [exact IH|]. intros [] l1 Hsw1. cbv beta in *.
  eapply wp_mono; [apply Hbody; [apply Hsw1|]|].
  { rewrite <- Hnow. apply (re_now l l1), Hsw1. }
  intros [] l2 Hsw2. eapply swept_trans; [exact Hsw1|exact Hsw2|intros; cbv beta; apply _|].
  intros k e r _ _. cbv beta. assert (shardIndex k < S n ↔ shardIndex k < n ∨ shardIndex k = n)%nat by lia.
  tauto.
Qed.

Lemma ledger_shard_bound k : (shardIndex k < 16)%nat.
Proof.
  unfold shardIndex, rpcExecutionLedgerShards. change (16 - 1) with (Z.ones 4).
  rewrite Z.land_ones by lia. pose proof (Z.mod_pos_bound (shard_hash k) (2 ^ 4) eq_refl).
  change (2 ^ 4) with 16 in *. lia.
Qed.

Lemma expireReceipts_ok l :
  core l → wp expireReceipts (λ _, swept (λ _ _ r, rc_expiresAt r ≤ lg_now l) l) l.
Proof.
  intros H. unfold expireReceipts. eapply wp_mono.
  { apply (for_shards_ok _ (λ _ r, rc_expiresAt r ≤ lg_now l) 16 (lg_now l)); [apply _| |done|done].
    intros i l' H' Hn. rewrite <- Hn. by apply expireShard_ok. }
  intros [] l'. apply swept_ext. intros k e r _ _. cbv beta. pose proof (ledger_shard_bound k). tauto.
Qed.

Lemma forget_from_ok i sk es l :
  core l → NoDup es → (∀ e, e ∈ es → e ∈ ord (lg_shards l) i) →
  wp (forget_from i sk es) (λ _, swept (λ k e _, e ∈ es ∧ key_session k = sk) l) l.
Proof.
  revert l. induction es as [|e es IH]; intros l H Hnd Hes; simpl.
  { apply wp_ret, swept_nothing; [done|]. intros k e r _ _ [[]%elem_of_nil _]. }
  apply NoDup_cons in Hnd as [Hnin Hnd].
  destruct (core_elem l i e H) as (r & Hr & Hk & Hi); [apply Hes, elem_of_cons; by left|].
  wp_step. eapply wp_get_receipt; [done|]. wp_step.
  assert (wp (if decide (key_session (rc_key r) = sk) then removeElement i e else mret tt)
    (λ _ l', swept (λ k e' _, e' = e ∧ key_session k = sk) l l' ∧
             (∀ e', e' ∈ es → e' ∈ ord (lg_shards l') i)) l) as Hone.
  { destruct (decide _) as [Hsk|Hsk].
    - rewrite <- Hi. eapply wp_mono; [by apply removeElement_swept|]. intros [] l' (Hsw & Hss & _). split.
      + eapply swept_ext; [|exact Hsw]. intros k e' r' Hk' Hr'. cbv beta. split; [|tauto]. intros ->.
        split; [done|]. destruct (core_receipt l k e H Hk') as (? & ? & ? & _). congruence.
      + intros e' He'. rewrite Hss. autorewrite with views. rewrite decide_True by done.
        apply list_elem_of_filter. split; [congruence|]. rewrite Hi. apply Hes, elem_of_cons. by right.
    - apply wp_ret. split; [|intros; apply Hes, elem_of_cons; by right].
      apply swept_nothing; [done|]. intros k e' r' Hk' Hr' [-> ?].
      destruct (core_receipt l k e H Hk') as (? & ? & ? & _). congruence. }
  eapply wp_mono; [exact Hone|]. intros [] l1 [Hsw1 Hes1]. cbv beta.
  eapply wp_mono; [apply IH; [apply Hsw1|done|done]|]. intros [] l2 Hsw2.
  eapply swept_trans; [exact Hsw1|exact Hsw2|intros; cbv beta; apply _|].
  intros k e' r' _ _. cbv beta. rewrite elem_of_cons. tauto.
Qed.

Lemma forgetShard_ok sk i l :
  core l → wp (forgetShard sk i) (λ _, swept (λ k _ _, shardIndex k = i ∧ key_session k = sk) l) l.
Proof.
  intros H. unfold forgetShard. repeat wp_step. eapply wp_mono; [apply forget_from_ok|].
  - done.
  - apply (sp_nodup _ _ _ _ _ (co_shape _ _ H)).
  - done.
  - intros [] l'. apply swept_ext. intros k e r Hk Hr. cbv beta.
    destruct (core_receipt l k e H Hk) as (r' & Hr' & Hkey & Hin).
    change (sh_order (shardAt i l)) with (ord (lg_shards l) i). split.
    + intros [Hin' Hle]. split; [|done]. destruct (core_elem l i e H Hin') as (r'' & ? & ? & <-). congruence.
    + intros [<- Hle]. done.
Qed.

Lemma forgetSession_ok sk l :
  core l → wp (forgetSession sk) (λ _, swept (λ k _ _, key_session k = sk) l) l.
Proof.
  intros H. unfold forgetSession. eapply wp_mono.
  { apply (for_shards_ok _ (λ k _, key_session k = sk) 16 (lg_now l)); [apply _| |done|done].
    intros i l' H' Hn. by apply forgetShard_ok. }
  intros [] l'. apply swept_ext. intros k e r _ _. cbv beta. pose proof (ledger_shard_bound k). tauto.
Qed.

(** ** The budgets, from the ledger *)

Lemma set_flightLimit_id l : set_flightLimit (lg_flightLimit l) l = l.
Proof. by destruct l. Qed.
Lemma set_fairBudget_id l : set_fairBudget (lg_fairBudget l) l = l.
Proof. by destruct l. Qed.
Lemma set_subscriberBudget_id l : set_subscriberBudget (lg_subscriberBudget l) l = l.
Proof. by destruct l. Qed.

Lemma wp_limit_reserve (Q : bool → ledger → Prop) l :
  limit_wf (lg_flightLimit l) →
  (let m := lg_flightLimit l in
   if decide (lim_used m + 1 ≤ lim_max m)
   then Q true (set_flightLimit (mkLimit (lim_max m) (lim_used m + 1)) l) else Q false l) →
  wp (on_limit (lift_pure limit_reserve)) Q l.
Proof.
  intros Hwf HQ. simpl in HQ. pose proof (limit_reserve_spec _ Hwf) as Hspec.
  unfold on_limit, lift_pure. destruct (decide _) as [Hd|Hd].
  - rewrite bool_decide_eq_true_2 in Hspec by done. eapply wp_zoom; [by rewrite Hspec|done].
  - rewrite bool_decide_eq_false_2 in Hspec by done. eapply wp_zoom; [by rewrite Hspec|].
    by rewrite set_flightLimit_id.
Qed.

Lemma wp_limit_release (Q : () → ledger → Prop) l :
  limit_wf (lg_flightLimit l) → 1 ≤ lim_used (lg_flightLimit l) →
  Q tt (set_flightLimit (mkLimit (lim_max (lg_flightLimit l)) (lim_used (lg_flightLimit l) - 1)) l) →
  wp (on_limit (lift_upd limit_release)) Q l.
Proof.
  intros Hwf Hu HQ. eapply wp_zoom; [|exact HQ]. unfold lift_upd, limit_release.
  by rewrite releaseN_spec by (done || lia).
Qed.

Definition fair_config (b b' : rpcExecutionFairBudget FA FS) : Prop :=
  bd_authLimit b' = bd_authLimit b ∧ bd_sessionLimit b' = bd_sessionLimit b ∧
  bd_pendingPerAuth b' = bd_pendingPerAuth b ∧ lim_max (bd_global b') = lim_max (bd_global b).

Lemma wp_fair_reserve key p (Q : option nat → ledger → Prop) l :
  fair_inv (lg_fairBudget l) →
  (let b := lg_fairBudget l in
   if decide (has_room key p b)
   then ∀ b', fair_inv b' → fair_config b b' → bd_objs b !! bd_next b = None →
     bd_objs b' = <[bd_next b := mkRes key p false]> (bd_objs b) →
     Q (Some (bd_next b)) (set_fairBudget b' l)
   else Q None l) →
  wp (on_fair (lift_pure (fair_reserve key p))) Q l.
Proof.
  intros Hf HQ. pose proof (fair_reserve_inv key p _ Hf) as Hinv.
  pose proof (fair_reserve_spec key p _ Hf) as Hspec. simpl in HQ. unfold on_fair, lift_pure.
  rewrite Hspec in Hinv. destruct (decide _) as [Hroom|Hroom]; simpl in Hinv.
  - eapply wp_zoom; [by rewrite Hspec|]. apply HQ; [done|done|by apply (bi_next _ Hf)|done].
  - eapply wp_zoom; [by rewrite Hspec|]. by rewrite set_fairBudget_id.
Qed.

(** ** Acquiring *)

Definition receipt_answer (requested : rpcResultRequestIdentity) (r : receipt)
    : res ledgerErr (@rpcResultAcquire Enc) :=
  if matches (rc_identity r) requested then
    if rc_unavailable r then ERR ErrRPCResultFlightCapacity
    else OK (mkAcquire rpcResultAcquireCompleted (rc_admissionSeq r) None None None
               (rc_executionKnown r) (rc_executionOK r))
  else ERR (identityMismatch (rc_identity r)).

Definition flight_answer (key : rpcExecutionKey) (f : nat) (requested : rpcResultRequestIdentity)
    (fl : flight) : res ledgerErr (@rpcResultAcquire Enc) :=
  if matches (fl_identity fl) requested then
    if fl_acknowledged fl
    then OK (mkAcquire rpcResultAcquireAcknowledged (fl_admissionSeq fl) None None None
               (fl_executionDone fl) (fl_executionOK fl))
    else OK (mkAcquire rpcResultAcquirePending (fl_admissionSeq fl) None (Some (mkWaiter key f)) None
               false false)
  else ERR (identityMismatch (fl_identity fl)).

(** [l'] is [l] with a new owner for [key]; the flight is at [lg_next l], the
    lease right after it. *)
Record installed (key : rpcExecutionKey) (identity : @rpcResultRequestIdentity Ident) (seq : Z) l l' : Prop := {
  in_shards : lg_shards l' = claim key (lg_next l) (lg_shards l);
  in_flights : ∃ rv, lg_flights l' = <[lg_next l := newFlight key identity seq rv]> (lg_flights l);
  in_leases : lg_leases l' = <[S (lg_next l) := mkLease key (lg_next l) None false]> (lg_leases l);
  in_receipts : lg_receipts l' = lg_receipts l;
  in_now : lg_now l' = lg_now l;
  in_trace : lg_trace l' = lg_trace l ++ [EvOwner key];
  in_limit : lim_used (lg_flightLimit l') = lim_used (lg_flightLimit l) + 1;
  in_config : same_config l l';
}.

Definition room (key : rpcExecutionKey) l : Prop :=
  lim_used (lg_flightLimit l) + 1 ≤ lim_max (lg_flightLimit l) ∧ has_room key true (lg_fairBudget l).

(** What one turn of the loop does once the shard's expired receipts are gone. *)
Inductive attempt_spec (key : rpcExecutionKey) (identity : @rpcResultRequestIdentity Ident)
    (reclaimed : bool) l : @attempt Enc → ledger → Prop :=
  | as_receipt e r :
      rcpt (lg_shards l) key = Some e → lg_receipts l !! e = Some r →
      attempt_spec key identity reclaimed l (Finished (receipt_answer identity r)) l
  | as_flight f fl :
      rcpt (lg_shards l) key = None → pend (lg_shards l) key = Some f → lg_flights l !! f = Some fl →
      attempt_spec key identity reclaimed l (Finished (flight_answer key f identity fl)) l
  | as_full :
      ¬ claimed (lg_shards l) key → lim_max (lg_flightLimit l) < lim_used (lg_flightLimit l) + 1 →
      attempt_spec key identity reclaimed l (Finished (ERR ErrRPCResultFlightCapacity)) l
  | as_noroom :
      ¬ claimed (lg_shards l) key → ¬ has_room key true (lg_fairBudget l) →
      attempt_spec key identity reclaimed l
        (if reclaimed then Finished (ERR ErrRPCResultFlightCapacity) else Retry) l
  | as_exhausted b' :
      ¬ claimed (lg_shards l) key → room key l → id_valid identity = true →
      lg_nextAdmissionSeq l = max_uint64 → fair_config (lg_fairBudget l) b' →
      attempt_spec key identity reclaimed l (Finished (ERR ErrRPCAdmissionSeqExhausted))
        (set_fairBudget b' l)
  | as_owner seq l' :
      ¬ claimed (lg_shards l) key → room key l →
      seq = (if id_valid identity then lg_nextAdmissionSeq l + 1 else 0) →
      (id_valid identity = true → lg_nextAdmissionSeq l ≠ max_uint64) →
      installed key identity seq l l' →
      attempt_spec key identity reclaimed l
        (Finished (OK (mkAcquire rpcResultAcquireOwner seq None None (Some (S (lg_next l))) false false))) l'.

Lemma not_claimed l k : rcpt (lg_shards l) k = None → pend (lg_shards l) k = None → ¬ claimed (lg_shards l) k.
Proof. intros Hr Hp [Hc|Hc]; [rewrite Hp in Hc|rewrite Hr in Hc]; by destruct Hc. Qed.

(** The state after a reservation, with and without a sequence number. *)
Definition with_owner key identity seq rv b' n' t' l : ledger :=
  let f := lg_next l in
  mkLedger (claim key f (lg_shards l)) (<[f := newFlight key identity seq rv]> (lg_flights l))
    (lg_receipts l) (<[S f := mkLease key f None false]> (lg_leases l)) (S (S f)) (lg_receiptCount l)
    b' (mkLimit (lim_max (lg_flightLimit l)) (lim_used (lg_flightLimit l) + 1)) (lg_subscriberBudget l)
    (lg_subscriberPerFlight l) n' t' (lg_now l) (lg_trace l ++ [EvOwner key]).

Lemma core_with_owner key identity seq b' n' t' l :
  core l → ¬ claimed (lg_shards l) key →
  lim_used (lg_flightLimit l) + 1 ≤ lim_max (lg_flightLimit l) →
  let rv := bd_next (lg_fairBudget l) in
  let f := lg_next l in
  fair_inv b' → bd_objs (lg_fairBudget l) !! rv = None →
  bd_objs b' = <[rv := mkRes key true false]> (bd_objs (lg_fairBudget l)) →
  (lg_flights l !! f = None →
     seqs (<[f := newFlight key identity seq rv]> (lg_flights l)) n' t') →
  core (with_owner key identity seq rv b' n' t' l).
Proof.
  intros H Hfree Hle rv f Hb' Hrv Hobj Hseq. unfold with_owner.
  pose proof (hp_flight _ _ _ _ (co_heap _ _ H) f (le_n _)) as Hf.
  destruct H as [Hsh [Hc1 Hc2 Hc3 Hc4 Hc5] Hsq Hsl Hex Hhp Htr]. split; cbn.
  - rewrite Hobj. by apply shape_install.
  - split; try done.
    + destruct Hc2 as (? & ? & ?). unfold limit_wf; simpl. lia.
    + cbn. rewrite sum_map_insert_new, Hc3 by done. unfold open_flight at 2. simpl. lia.
    + by rewrite shard_receipts_claim.
    + rewrite (bi_live _ Hb'), Hobj, sum_map_insert_new by done.
      rewrite <- (bi_live _ Hc1). unfold live; simpl. lia.
  - by apply Hseq.
  - apply slots_install; [done|done|done|]. split; simpl; try done.
  - eapply expiries_same; [done| |done]. intros i. by autorewrite with views.
  - by apply heap_install.
  - eapply traced_owner; [done|done|..].
    + autorewrite with views. by rewrite decide_True.
    + intros k' Hne. autorewrite with views. by rewrite decide_False.
    + intros cb. rewrite sum_map_insert_new by done. done.
Qed.

(** A reservation made and given back at once. *)
Lemma core_reserved_released b' l :
  core l →
  (let b := lg_fairBudget l in
   fair_inv b' ∧ bd_objs b !! bd_next b = None ∧
   ∃ k p, bd_objs b' = <[bd_next b := mkRes k p true]> (bd_objs b)) →
  core (set_fairBudget b' l).
Proof.
  intros H (Hb' & Hnew & k & p & Hobj). destruct H as [Hsh [Hc1 Hc2 Hc3 Hc4 Hc5] Hsq Hsl Hex Hhp Htr].
  split; cbn; try done.
  - rewrite Hobj. eapply shape_released; [by apply shape_reserve|apply lookup_insert_eq|done].
  - split; try done. rewrite (bi_live _ Hb'), Hobj, sum_map_insert_new by done.
    rewrite <- (bi_live _ Hc1). unfold live; simpl. lia.
Qed.

Lemma allocateSeq_ok identity key rv b' fuelled l (Q : option Z → ledger → Prop) :
  core l →
  (id_valid identity = true → lg_nextAdmissionSeq l = max_uint64 → Q None fuelled) →
  (∀ seq n' t', seq = (if id_valid identity then lg_nextAdmissionSeq l + 1 else 0) →
     (id_valid identity = true → lg_nextAdmissionSeq l ≠ max_uint64) →
     (lg_flights l !! lg_next l = None →
      seqs (<[lg_next l := newFlight key identity seq rv]> (lg_flights l)) n' t') →
     Q (Some seq) (set_admissions n' t' fuelled)) →
  fuelled = set_fairBudget b' (set_flightLimit
    (mkLimit (lim_max (lg_flightLimit l)) (lim_used (lg_flightLimit l) + 1)) l) →
  wp (allocateSeq identity) Q fuelled.
Proof.
  intros H Hnone Hsome ->. unfold allocateSeq.
  destruct (id_valid identity) eqn:Hv; simpl.
  - repeat wp_step. unfold allocateAndRegister, nextSequence. cbn.
    destruct (lg_nextAdmissionSeq l =? max_uint64) eqn:E; bool_facts.
    + apply wp_ret. by apply Hnone.
    + repeat wp_step. apply Hsome; [done|done|]. intros Hf.
      by apply seqs_install_next; [apply H|..].
  - wp_step. specialize (Hsome 0 (lg_nextAdmissionSeq l) (lg_activeAdmissions l) eq_refl).
    apply Hsome; [done|]. intros Hf. by apply seqs_install; [apply H|..].
Qed.

Lemma install_owner_run key identity seq rv b' n' t' l :
  install_owner key identity seq rv (set_admissions n' t' (set_fairBudget b'
    (set_flightLimit (mkLimit (lim_max (lg_flightLimit l)) (lim_used (lg_flightLimit l) + 1)) l))) =
  Some (Finished (OK (mkAcquire rpcResultAcquireOwner seq None None (Some (S (lg_next l))) false false)),
        with_owner key identity seq rv b' n' t' l).
Proof. reflexivity. Qed.

Lemma with_owner_settled key identity seq rv b' n' t' l :
  settled l → settled (with_owner key identity seq rv b' n' t' l).
Proof. intros Hs k' e' r'. cbn. autorewrite with views. apply Hs. Qed.

Lemma with_owner_installed key identity seq rv b' n' t' l :
  fair_config (lg_fairBudget l) b' → installed key identity seq l (with_owner key identity seq rv b' n' t' l).
Proof. intros (? & ? & ? & ?). split; try done. by exists rv. Qed.

Lemma acquire_attempt_ok key identity reclaimed l :
  core l → settled l →
  wp (acquire_attempt key identity reclaimed)
    (λ a l', core l' ∧ settled l' ∧
       ∃ l1, swept (λ k _ r, shardIndex k = shardIndex key ∧ rc_expiresAt r ≤ lg_now l) l l1 ∧
             attempt_spec key identity reclaimed l1 a l') l.
Proof.
  intros H0 Hs0. unfold acquire_attempt. wp_step.
  eapply wp_mono; [by apply expireShard_ok|]. intros [] l1 Hsw. pose proof Hsw as (H & Hre & _).
  pose proof (reaped_settled _ _ Hre Hs0) as Hs. cbv beta. repeat wp_step.
  change (sh_byKey (shardAt (shardIndex key) l1) !! key) with (rcpt (lg_shards l1) key).
  change (sh_pending (shardAt (shardIndex key) l1) !! key) with (pend (lg_shards l1) key).
  destruct (rcpt (lg_shards l1) key) as [e|] eqn:Hr.
  { destruct (core_receipt l1 key e H Hr) as (r & He & Hkey & _). wp_step. eapply wp_get_receipt; [done|].
    pose proof (Hs key e r Hr He) as Hack.
    assert (attempt_spec key identity reclaimed l1 (Finished (receipt_answer identity r)) l1) as Hspec
      by by eapply as_receipt.
    rewrite Hack. unfold receipt_answer in Hspec.
    destruct (matches _ _); simpl; [destruct (rc_unavailable r)|]; apply wp_ret; eauto 10. }
  destruct (pend (lg_shards l1) key) as [f|] eqn:Hp.
  { destruct (shape_flight _ _ _ _ _ _ _ (co_shape _ _ H) Hp) as (fl & rv & Hf & Hkey & _).
    wp_step. eapply wp_get_flight; [done|].
    assert (attempt_spec key identity reclaimed l1 (Finished (flight_answer key f identity fl)) l1) as Hspec
      by by eapply as_flight.
    unfold flight_answer in Hspec.
    destruct (matches _ _); simpl; [destruct (fl_acknowledged fl)|]; apply wp_ret; eauto 10. }
  pose proof (not_claimed l1 key Hr Hp) as Hfree.
  pose proof (co_counts _ _ H) as [Hc1 Hc2 Hc3 Hc4 Hc5]. pose proof Hc2 as (Hm & Hu0 & _).
  wp_step. apply wp_limit_reserve; [done|]. cbv zeta. destruct (decide _) as [Hroom1|Hroom1]; simpl.
  2:{ apply wp_ret. do 2 (split; [done|]). exists l1. split; [done|]. apply as_full; [done|lia]. }
  wp_step. apply wp_fair_reserve; [done|]. cbv zeta. cbn.
  assert (limit_wf (mkLimit (lim_max (lg_flightLimit l1)) (lim_used (lg_flightLimit l1) + 1))) as Hwf.
  { unfold limit_wf; simpl. lia. }
  assert (mkLimit (lim_max (lg_flightLimit l1)) (lim_used (lg_flightLimit l1) + 1 - 1) = lg_flightLimit l1)
    as Hback by (destruct (lg_flightLimit l1); simpl; f_equal; lia).
  destruct (decide (has_room key true (lg_fairBudget l1))) as [Hroom2|Hroom2].
  - intros b' Hb' Hcfg Hnew Hobj. wp_step.
    eapply (allocateSeq_ok identity key (bd_next (lg_fairBudget l1)) b'); [exact H|..|reflexivity].
    + intros Hv Hmax. wp_step. apply wp_fair_release; [done|]. cbn. intros b2 Hb2 Hf2 Hobj2. wp_step.
      apply wp_limit_release; [done|simpl; lia|]. apply wp_ret. cbn.
      assert (set_flightLimit (mkLimit (lim_max (lg_flightLimit l1)) (lim_used (lg_flightLimit l1) + 1 - 1))
        (set_fairBudget b2 (set_fairBudget b' (set_flightLimit (mkLimit (lim_max (lg_flightLimit l1))
          (lim_used (lg_flightLimit l1) + 1)) l1))) = set_fairBudget b2 l1) as ->.
      { rewrite Hback. by destruct l1. }
      split; [|split; [done|]].
      * apply core_reserved_released; [done|]. split; [done|]. split; [done|].
        exists key, false. rewrite Hobj2, Hobj. unfold release_obj.
        rewrite (alter_alt_Some _ _ _ _ (lookup_insert_eq _ _ _)). by rewrite insert_insert_eq.
      * exists l1. split; [done|]. apply as_exhausted; [done|done|done|done|].
        destruct Hf2 as (? & ? & ? & ? & ?), Hcfg as (? & ? & ? & ?). unfold fair_config. split_and!; congruence.
    + intros seq n' t' -> Hmax Hseq. eapply wp_run; [apply install_owner_run|].
      split; [by apply core_with_owner|]. split; [by apply with_owner_settled|]. exists l1. split; [done|].
      eapply as_owner; [done|done|done|done|]. by apply with_owner_installed.
  - wp_step. apply wp_limit_release; [done|simpl; lia|]. cbn. rewrite Hback.
    assert (set_flightLimit (lg_flightLimit l1) (set_flightLimit (mkLimit (lim_max (lg_flightLimit l1))
          (lim_used (lg_flightLimit l1) + 1)) l1) = l1) as -> by (by destruct l1).
    assert (attempt_spec key identity reclaimed l1
      (if reclaimed then Finished (ERR ErrRPCResultFlightCapacity) else Retry) l1) by by apply as_noroom.
    destruct reclaimed; apply wp_ret; eauto 10.
Qed.

Lemma attempt_config key identity reclaimed l a l' :
  attempt_spec key identity reclaimed l a l' → same_config l l' ∧ lg_now l' = lg_now l.
Proof.
  intros [| | | |b' ??? ? (?&?&?&?)|seq l'' ? ? ? ? Hi]; try (split; reflexivity).
  - split; [|done]. by split_and!.
  - split; apply Hi.
Qed.

(** The loop turns at most twice: the second turn has reclaimed. *)
Lemma acquire_loop_ok n key identity l :
  core l → settled l →
  wp (acquire_loop (S (S n)) key identity false)
    (λ o l', core l' ∧ settled l' ∧ ∃ r l0 reclaimed, o = Some r ∧ reaped l l0 ∧
       (∀ e r0, rcpt (lg_shards l0) key = Some e → lg_receipts l0 !! e = Some r0 →
          lg_now l < rc_expiresAt r0) ∧
       (∀ k e r0, rcpt (lg_shards l) k = Some e → lg_receipts l !! e = Some r0 →
          lg_now l < rc_expiresAt r0 → rcpt (lg_shards l0) k = Some e) ∧
       attempt_spec key identity reclaimed l0 (Finished r) l') l.
Proof.
  intros H Hs. cbn [acquire_loop]. wp_step.
  assert (∀ l l1, swept (λ k _ r, shardIndex k = shardIndex key ∧ rc_expiresAt r ≤ lg_now l) l l1 →
    ∀ e r0, rcpt (lg_shards l1) key = Some e → lg_receipts l1 !! e = Some r0 → lg_now l < rc_expiresAt r0)
    as Hlive.
  { intros l2 l1 (Hc & Hre & Hsw) e r0 Hk Hr. apply Z.nle_gt. intros Hle.
    pose proof (re_receipts _ _ Hre key e Hk) as Hrs. rewrite Hr in Hrs.
    destruct (Hsw key e r0) as [Hy _]; [destruct (re_rcpt _ _ Hre key); congruence|done|].
    rewrite Hy in Hk; done. }
  eapply wp_mono; [by apply acquire_attempt_ok|]. intros a l' (H' & Hs' & l1 & Hsw & Hspec). cbv beta.
  destruct a as [r|].
  { apply wp_ret. do 2 (split; [done|]). exists r, l1, false. split; [done|]. split; [apply Hsw|].
    split; [by eapply Hlive|]. split; [|done]. intros k e r0 Hk Hr Hlt.
    destruct Hsw as (_ & _ & Hsw). apply (Hsw k e r0 Hk Hr). cbv beta. lia. }
  assert (l' = l1) as ->. { inversion Hspec; by subst. }
  wp_step. eapply wp_mono; [by apply expireReceipts_ok|]. intros [] l2 Hsw2. cbv beta. wp_step.
  pose proof (reaped_settled _ _ (proj1 (proj2 Hsw2)) Hs') as Hs2.
  eapply wp_mono; [apply acquire_attempt_ok; [apply Hsw2|done]|].
  intros a l3 (H3 & Hs3 & l4 & Hsw4 & Hspec4). cbv beta.
  destruct a as [r|]; [|exfalso; inversion Hspec4].
  apply wp_ret. do 2 (split; [done|]). exists r, l4, true. split; [done|].
  pose proof (re_now _ _ (proj1 (proj2 Hsw))) as Hn1. pose proof (re_now _ _ (proj1 (proj2 Hsw2))) as Hn2.
  split; [etrans; [apply Hsw|]; etrans; [apply Hsw2|apply Hsw4]|]. split; [|split; [|done]].
  - intros e r0 Hk Hr. rewrite <- Hn1, <- Hn2. by eapply Hlive.
  - intros k e r0 Hk Hr Hlt.
    pose proof Hsw as (_ & Hre1 & Hk1). pose proof Hsw2 as (_ & Hre2 & Hk2). pose proof Hsw4 as (_ & _ & Hk4).
    assert (rcpt (lg_shards l1) k = Some e) as He1 by (apply (Hk1 k e r0 Hk Hr); lia).
    pose proof (re_receipts _ _ Hre1 k e He1) as Hr1. rewrite Hr in Hr1.
    assert (rcpt (lg_shards l2) k = Some e) as He2 by (apply (Hk2 k e r0 He1 Hr1); lia).
    pose proof (re_receipts _ _ Hre2 k e He2) as Hr2. rewrite Hr1 in Hr2.
    apply (Hk4 k e r0 He2 Hr2). lia.
Qed.

(** ** Closing a flight *)

Definition closed (encoded : option Enc) (ok : bool) (fl : flight) : flight :=
  mkFlight (fl_key fl) true encoded ok [] true
    (if fl_executionDone fl then fl_executionOK fl else false) []
    (fl_acknowledged fl) 0 (fl_identity fl) (fl_admissionSeq fl) None.

Definition callbacks (fl : flight) : Z := len (fl_subscribers fl) + len (fl_executionSubscribers fl).

Definition sub_config (b b' : rpcResultSubscriberBudget SA SS) : Prop :=
  sb_authLimit b' = sb_authLimit b ∧ sb_sessionLimit b' = sb_sessionLimit b ∧
  lim_max (sb_global b') = lim_max (sb_global b).

(** [n] of a flight's slots are given back. *)
Lemma sub_release_flight (fs : gmap nat flight) (sub : rpcResultSubscriberBudget SA SS) per f (fl : flight) n :
  slots fs sub per → fs !! f = Some fl → 0 < n → n ≤ fl_subscriberSlots fl →
  ∃ sub', sub_release (fl_key fl) n sub = Some sub' ∧ sub_config sub sub' ∧
    ∀ fl' : flight, fl_key fl' = fl_key fl → fl_subscriberSlots fl' = fl_subscriberSlots fl - n → flight_wf fl' →
      slots (<[f := fl']> fs) sub' per.
Proof.
  intros H Hf Hn Hle. destruct (slots_covered _ _ _ _ _ H Hf) as (H1 & H2 & H3).
  destruct (sl_flight _ _ _ H f fl Hf) as [Hwf Hper]. pose proof (sl_per _ _ _ H) as Hp.
  destruct (sub_release_spec _ _ _ sub (fl_key fl) n (sl_sub _ _ _ H)) as (sub' & Hrel & Hinv & Hc);
    [lia|unfold in_int64, min_int64 in *; assert (0 ≤ two63) by (vm_compute; congruence); lia|lia..|].
  exists sub'. split; [done|]. split; [done|]. intros fl' Hk Hs Hwf'.
  eapply (slots_replace fs sub sub' per f fl fl' (- n)); done || lia.
Qed.

Lemma closed_wf (encoded : option Enc) ok (fl : flight) : (ok = true ↔ is_Some encoded) → flight_wf (closed encoded ok fl).
Proof. intros Hok. by split. Qed.

Definition with_slots (n : Z) (fl : flight) : flight :=
  mkFlight (fl_key fl) (fl_done fl) (fl_encoded fl) (fl_ok fl) (fl_subscribers fl) (fl_executionDone fl)
    (fl_executionOK fl) (fl_executionSubscribers fl) (fl_acknowledged fl) n (fl_identity fl)
    (fl_admissionSeq fl) (fl_reservation fl).

(** [fl] has become [fl1]; [n] of its slots are given back, leaving [fl2]. *)
Lemma release_slots_ok f (fl fl1 fl2 : flight) n (Q : () → ledger → Prop) s :
  slots (lg_flights s) (lg_subscriberBudget s) (lg_subscriberPerFlight s) →
  lg_flights s !! f = Some fl → fl_key fl1 = fl_key fl →
  fl_subscriberSlots fl1 = fl_subscriberSlots fl → 0 ≤ n ≤ fl_subscriberSlots fl →
  fl2 = with_slots (fl_subscriberSlots fl - n) fl1 → flight_wf fl2 →
  (∀ sub', sub_config (lg_subscriberBudget s) sub' →
     slots (<[f := fl2]> (lg_flights s)) sub' (lg_subscriberPerFlight s) →
     Q tt (set_subscriberBudget sub' (set_flights (<[f := fl2]> (lg_flights s)) s))) →
  wp (releaseFlightSubscriberSlots (fl_key fl) f n) Q (set_flights (<[f := fl1]> (lg_flights s)) s).
Proof.
  intros Hsl Hf Hk Hs Hn Hfl2 Hwf2 HQ.
  destruct (sl_flight _ _ _ Hsl f fl Hf) as [Hwf Hper]. pose proof (sl_per _ _ _ Hsl) as Hp.
  assert (fl_key fl2 = fl_key fl ∧ fl_subscriberSlots fl2 = fl_subscriberSlots fl - n) as [Hk2 Hs2]
    by (by subst fl2).
  unfold releaseFlightSubscriberSlots. destruct (n =? 0) eqn:E; bool_facts.
  - apply wp_ret. assert (fl1 = fl2) as ->.
    { rewrite Hfl2, <- Hs. destruct fl1. unfold with_slots. cbn. f_equal. lia. }
    specialize (HQ (lg_subscriberBudget s) ltac:(done)).
    assert (set_flights (<[f := fl2]> (lg_flights s)) s = set_subscriberBudget (lg_subscriberBudget s)
      (set_flights (<[f := fl2]> (lg_flights s)) s)) as -> by (by destruct s).
    apply HQ. eapply slots_touch; [done|done|done|lia|done].
  - destruct (sub_release_flight _ _ _ f fl n Hsl Hf) as (sub' & Hrel & Hcfg & Hsl'); [lia..|].
    wp_step. eapply wp_get_flight; [apply lookup_insert_eq|]. rewrite Hs. wp_step. unfold check.
    replace (_ || _) with false by (symmetry; rewrite orb_false_iff, !Z.ltb_ge; lia). simpl. repeat lg_step.
    unfold on_subs. eapply wp_zoom; [unfold lift_upd; cbn; by rewrite Hrel|]. cbn.
    rewrite insert_insert_eq, wrap64_id by (unfold in_int64, min_int64; assert (0 ≤ two63) by (vm_compute; congruence); lia).
    assert (mkFlight (fl_key fl1) (fl_done fl1) (fl_encoded fl1) (fl_ok fl1) (fl_subscribers fl1)
      (fl_executionDone fl1) (fl_executionOK fl1) (fl_executionSubscribers fl1) (fl_acknowledged fl1)
      (fl_subscriberSlots fl - n) (fl_identity fl1) (fl_admissionSeq fl1) (fl_reservation fl1) = fl2) as ->
      by (by subst fl2).
    by apply HQ, Hsl'.
Qed.

(** The common tail of [Abort] and [completeRPCResultFlightLocked]. *)
Definition close_tail (key : rpcExecutionKey) (f : nat) (fl : flight) (encoded : option Enc) (ok : bool)
    : GoM ledger () :=
  on_limit (lift_upd limit_release) ;;
  retireSeq (fl_admissionSeq fl) ;;
  put_flight f (detach encoded ok fl) ;;
  releaseFlightSubscriberSlots key f (len (fl_subscribers fl) + len (fl_executionSubscribers fl)).

Definition tail_state f (fl : flight) encoded ok t' sub' s : ledger :=
  set_subscriberBudget sub' (set_flights (<[f := closed encoded ok fl]> (lg_flights s))
    (set_admissions (lg_nextAdmissionSeq s) t'
      (set_flightLimit (mkLimit (lim_max (lg_flightLimit s)) (lim_used (lg_flightLimit s) - 1)) s))).

Lemma close_tail_ok f fl encoded ok (Q : () → ledger → Prop) s :
  lg_flights s !! f = Some fl → fl_done fl = false → (ok = true ↔ is_Some encoded) →
  seqs (lg_flights s) (lg_nextAdmissionSeq s) (lg_activeAdmissions s) →
  slots (lg_flights s) (lg_subscriberBudget s) (lg_subscriberPerFlight s) →
  limit_wf (lg_flightLimit s) → lim_used (lg_flightLimit s) = sum_map open_flight (lg_flights s) →
  (∀ t' sub',
     seqs (<[f := closed encoded ok fl]> (lg_flights s)) (lg_nextAdmissionSeq s) t' →
     slots (<[f := closed encoded ok fl]> (lg_flights s)) sub' (lg_subscriberPerFlight s) →
     sub_config (lg_subscriberBudget s) sub' →
     Q tt (tail_state f fl encoded ok t' sub' s)) →
  wp (close_tail (fl_key fl) f fl encoded ok) Q s.
Proof.
  intros Hf Hd Hok Hsq Hsl Hlw Hlu HQ. unfold close_tail.
  pose proof (open_flights_pos _ _ _ Hf Hd) as Hpos.
  destruct (seqs_close _ _ _ f fl (closed encoded ok fl) Hsq Hf Hd eq_refl eq_refl) as (t' & Ht & Hsq').
  wp_step. apply wp_limit_release; [done|lia|]. wp_step. unfold retireSeq. repeat wp_step.
  eapply wp_unwrap; [exact Ht|]. repeat lg_step. cbn.
  destruct (sl_flight _ _ _ Hsl f fl Hf) as [Hwf Hper]. pose proof (fw_slots _ Hwf) as Hslots.
  pose proof (flight_slots_nonneg _ Hwf) as Hnn. rewrite <- Hslots.
  eapply (release_slots_ok f fl (detach encoded ok fl) (closed encoded ok fl) _ _
    (set_admissions _ t' (set_flightLimit _ s))); [done|done|done|done|lia| |by apply closed_wf|].
  - unfold with_slots, closed. cbn. f_equal. lia.
  - intros sub' Hcfg Hsl'. by apply HQ.
Qed.

Lemma wp_close_tail_k {A} key f fl encoded ok (k : GoM ledger A) Q s :
  wp (close_tail key f fl encoded ok) (λ _ s', wp k Q s') s →
  wp (on_limit (lift_upd limit_release) ;;
      retireSeq (fl_admissionSeq fl) ;;
      put_flight f (detach encoded ok fl) ;;
      releaseFlightSubscriberSlots key f (len (fl_subscribers fl) + len (fl_executionSubscribers fl)) ;;
      k) Q s.
Proof.
  unfold close_tail, wp, mbind, GoM_bind.
  destruct (on_limit _ s) as [[[] s1]|]; [|done]. destruct (retireSeq _ s1) as [[[] s2]|]; [|done].
  destruct (put_flight _ _ s2) as [[[] s3]|]; [|done].
  by destruct (releaseFlightSubscriberSlots _ _ _ s3) as [[[] s4]|].
Qed.

Definition hooks (ls : rpcResultOwnerLease) : list (@event Enc) := EvHook <$> slot (ls_abortHook ls).

(** The ledger after [ls] gave its claim back. *)
Definition aborted x (ls : rpcResultOwnerLease) (fl : flight) b' t' sub' l : ledger :=
  let f := ls_flight ls in
  mkLedger (unclaimed (ls_key ls) (lg_shards l)) (<[f := closed None false fl]> (lg_flights l))
    (lg_receipts l) (<[x := set_hook None ls]> (lg_leases l)) (lg_next l) (lg_receiptCount l)
    b' (mkLimit (lim_max (lg_flightLimit l)) (lim_used (lg_flightLimit l) - 1)) sub'
    (lg_subscriberPerFlight l) (lg_nextAdmissionSeq l) t' (lg_now l)
    (lg_trace l ++ EvAborted (ls_key ls) ::
       hooks ls ++ calls None false (fl_subscribers fl) false (fl_executionSubscribers fl)).

Lemma waiting_closed (fs : gmap nat flight) f (fl : flight) encoded ok cb :
  fs !! f = Some fl →
  sum_map (waiting cb) fs =
  occ cb (fl_subscribers fl) + occ cb (fl_executionSubscribers fl) +
  sum_map (waiting cb) (<[f := closed encoded ok fl]> fs).
Proof. intros Hf. rewrite sum_map_insert, Hf. simpl. unfold waiting at 3 4; simpl. change (occ cb []) with 0. lia. Qed.

Lemma open_closed (fs : gmap nat flight) f (fl : flight) encoded ok :
  fs !! f = Some fl → fl_done fl = false →
  sum_map open_flight (<[f := closed encoded ok fl]> fs) = sum_map open_flight fs - 1.
Proof. intros Hf Hd. rewrite sum_map_insert, Hf. simpl. unfold open_flight at 2 3. rewrite Hd. simpl. lia. Qed.

Lemma limit_less m : limit_wf m → 1 ≤ lim_used m → limit_wf (mkLimit (lim_max m) (lim_used m - 1)).
Proof. intros (? & ? & ?) ?. unfold limit_wf; simpl. lia. Qed.

Lemma core_aborted x ls fl rv b' t' sub' l :
  core l → lg_leases l !! x = Some ls → pend (lg_shards l) (ls_key ls) = Some (ls_flight ls) →
  let f := ls_flight ls in let fs' := <[f := closed None false fl]> (lg_flights l) in
  lg_flights l !! f = Some fl → fl_reservation fl = Some rv →
  fair_inv b' → bd_objs b' = release_obj rv (bd_objs (lg_fairBudget l)) →
  seqs fs' (lg_nextAdmissionSeq l) t' → slots fs' sub' (lg_subscriberPerFlight l) →
  core (aborted x ls fl b' t' sub' l).
Proof.
  intros H Hx Hp f fs' Hf Hrv Hb' Hobj Hsq' Hsl'. subst f fs'. unfold aborted.
  destruct (shape_flight _ _ _ _ _ _ _ (co_shape _ _ H) Hp) as (fl0 & rv0 & Hf0 & Hk & Hd & Hrv0 & Ho & Hn).
  assert (fl0 = fl) as -> by congruence. assert (rv0 = rv) as -> by congruence.
  destruct H as [Hsh [Hc1 Hc2 Hc3 Hc4 Hc5] Hsq Hsl Hex Hhp Htr].
  pose proof (open_flights_pos _ _ _ Hf Hd) as Hpos.
  assert (release_obj rv (bd_objs (lg_fairBudget l)) =
    <[rv := mkRes (ls_key ls) false true]> (bd_objs (lg_fairBudget l))) as Hrel.
  { unfold release_obj. by rewrite (alter_alt_Some _ _ _ _ Ho). }
  split; cbn.
  - rewrite Hobj, Hrel. eapply shape_released; [|apply lookup_insert_eq|done].
    by apply (shape_detach _ _ _ _ _ _ fl).
  - split; try done; cbn.
    + apply limit_less; [done|lia].
    + rewrite (open_closed _ _ fl) by done. lia.
    + by rewrite shard_receipts_unclaimed.
    + rewrite (bi_live _ Hb'), Hobj, Hrel, sum_map_insert, Ho, <- (bi_live _ Hc1). unfold live; simpl. lia.
  - done.
  - done.
  - eapply expiries_same; [done| |done]. intros i. by autorewrite with views.
  - eapply heap_lease; [by apply (heap_touch _ _ _ _ _ fl)|done..].
  - eapply traced_release; [exact Htr|by left|..].
    + intros k'. apply Forall_app. split; [|apply quiet_calls]. unfold hooks.
      destruct (ls_abortHook ls); repeat constructor.
    + autorewrite with views. by rewrite decide_True.
    + intros k' Hne. autorewrite with views. by rewrite decide_False.
    + intros cb. rewrite accepted_app, fired_app, accepted_calls, fired_calls; unfold nothing_owed.
      rewrite (waiting_closed _ _ fl None false) by done.
      assert (accepted cb (hooks ls) = 0 ∧ fired cb (hooks ls) = 0) as [-> ->].
      { unfold hooks. by destruct (ls_abortHook ls). }
      lia.
Qed.

Lemma owns_pend ls l : owns ls l ↔ pend (lg_shards l) (ls_key ls) = Some (ls_flight ls).
Proof. done. Qed.

Lemma Abort_ok x ls l :
  core l → lg_leases l !! x = Some ls →
  wp (Abort x) (λ b l', core l' ∧
    if b : bool then
      ls_handedOff ls = false ∧ owns ls l ∧ ∃ fl b' t' sub', lg_flights l !! ls_flight ls = Some fl ∧
        fair_config (lg_fairBudget l) b' ∧ sub_config (lg_subscriberBudget l) sub' ∧
        l' = aborted x ls fl b' t' sub' l
    else l' = l ∧ (ls_handedOff ls = true ∨ ¬ owns ls l)) l.
Proof.
  intros H Hx. unfold Abort. wp_step. eapply wp_get_lease; [done|]. repeat wp_step.
  destruct (ls_handedOff ls) eqn:Hh; [apply wp_ret; auto|].
  destruct (decide (owns ls l)) as [Ho|Ho]; [|apply wp_ret; auto].
  destruct (shape_flight _ _ _ _ _ _ _ (co_shape _ _ H) Ho) as (fl & rv & Hf & Hk & Hd & Hrv & Hobj & Hn).
  repeat lg_step. eapply wp_get_flight; [exact Hf|]. rewrite Hrv. wp_step. apply wp_fair_release; [apply H|].
  intros b' Hb' (? & ? & ? & ? & ?) Hobj'. apply wp_close_tail_k. rewrite <- Hk.
  eapply (close_tail_ok _ fl None false); [exact Hf|exact Hd|split; [done|by intros []]|apply H|apply H|apply H|apply H|].
  intros t' sub' Hsq' Hsl' Hcfg. unfold notify. repeat lg_step. cbn in Hobj'. 
  assert (core (aborted x ls fl b' t' sub' l)) as Hcore.
  { by apply (core_aborted _ _ _ rv). }
  assert (∀ l0, l0 = aborted x ls fl b' t' sub' l → core l0 ∧ false = false ∧ owns ls l ∧
    ∃ fl0 b0 t0 sub0, lg_flights l !! ls_flight ls = Some fl0 ∧ fair_config (lg_fairBudget l) b0 ∧
      sub_config (lg_subscriberBudget l) sub0 ∧ l0 = aborted x ls fl0 b0 t0 sub0 l) as Hgoal.
  { intros l0 ->. do 3 (split; [done|]). exists fl, b', t', sub'. done. }
  apply Hgoal. unfold aborted, tail_state, hooks, calls. cbn. rewrite Hk.
  f_equal. by rewrite <- !app_assoc.
Qed.

(** ** Completing *)

Lemma unclaimed_linked k e (ss : gmap nat rpcExecutionLedgerShard) :
  unclaimed k (linked k e ss) = linked k e (unclaimed k ss).
Proof. unfold unclaimed, linked. rewrite !sh_insert, !decide_True by done. simpl. by rewrite !insert_insert_eq. Qed.

Definition exec_outcome (fl : flight) : bool := if fl_executionDone fl then fl_executionOK fl else false.

Definition owed_calls (fl : flight) (cb : nat) : Z :=
  occ cb (fl_subscribers fl) + occ cb (fl_executionSubscribers fl).

(** The receipt a finished flight leaves; [e] is its address. *)
Definition receipt_of (key : rpcExecutionKey) now (fl : flight) (replayable : bool) rv : receipt :=
  mkReceipt key (now + rpcExecutionReceiptTTL) (fl_identity fl) (fl_admissionSeq fl) (fl_executionDone fl)
    (fl_executionOK fl) (fl_acknowledged fl) (negb replayable) (Some rv).

Definition published key f (fl : flight) encoded r b' t' sub' l : ledger :=
  let e := lg_next l in
  mkLedger (unclaimed key (linked key e (lg_shards l))) (<[f := closed (Some encoded) true fl]> (lg_flights l))
    (<[e := r]> (lg_receipts l)) (lg_leases l) (S e) (lg_receiptCount l + 1)
    b' (mkLimit (lim_max (lg_flightLimit l)) (lim_used (lg_flightLimit l) - 1)) sub'
    (lg_subscriberPerFlight l) (lg_nextAdmissionSeq l) t' (lg_now l) (lg_trace l).

Lemma core_published key f fl encoded r rv b' t' sub' l :
  core l → pend (lg_shards l) key = Some f →
  let fs' := <[f := closed (Some encoded) true fl]> (lg_flights l) in
  lg_flights l !! f = Some fl → fl_reservation fl = Some rv →
  rc_key r = key → rc_reservation r = Some rv → rc_expiresAt r = lg_now l + rpcExecutionReceiptTTL →
  fair_inv b' → bd_objs b' = unpend_obj rv (bd_objs (lg_fairBudget l)) →
  seqs fs' (lg_nextAdmissionSeq l) t' → slots fs' sub' (lg_subscriberPerFlight l) →
  core_owing (owed_calls fl) (published key f fl encoded r b' t' sub' l).
Proof.
  intros H Hp fs' Hf Hrv Hrk Hrr Hre Hb' Hobj Hsq' Hsl'. subst fs'. unfold published.
  destruct (shape_flight _ _ _ _ _ _ _ (co_shape _ _ H) Hp) as (fl0 & rv0 & Hf0 & Hk & Hd & Hrv0 & Ho & Hn).
  assert (fl0 = fl) as -> by congruence. assert (rv0 = rv) as -> by congruence.
  destruct H as [Hsh [Hc1 Hc2 Hc3 Hc4 Hc5] Hsq Hsl Hex Hhp Htr].
  pose proof (open_flights_pos _ _ _ Hf Hd) as Hpos.
  assert (unpend_obj rv (bd_objs (lg_fairBudget l)) =
    <[rv := mkRes key false false]> (bd_objs (lg_fairBudget l))) as Hun.
  { unfold unpend_obj. by rewrite (alter_alt_Some _ _ _ _ Ho). }
  pose proof (hp_receipt _ _ _ _ Hhp _ (le_n _)) as Hnew.
  assert (∀ i, lg_next l ∉ ord (unclaimed key (lg_shards l)) i) as Hout.
  { intros i. autorewrite with views. intros Hin.
    destruct (sp_elem _ _ _ _ _ Hsh _ _ Hin) as (? & ? & _). congruence. }
  rewrite unclaimed_linked. split; cbn.
  - rewrite Hobj, Hun. apply (shape_link _ _ _ _ _ _ _ rv); try done.
    + by apply (shape_detach _ _ _ _ _ _ fl).
    + intros [Hc|Hc]; autorewrite with views in Hc; [rewrite decide_True in Hc by done|rewrite Hn in Hc]; by destruct Hc.
    + apply lookup_insert_eq.
  - split; try done; cbn.
    + apply limit_less; [done|lia].
    + rewrite (open_closed _ _ fl) by done. lia.
    + rewrite shard_receipts_linked, shard_receipts_unclaimed. lia.
    + rewrite (bi_live _ Hb'), Hobj, Hun, sum_map_insert, Ho, <- (bi_live _ Hc1). unfold live; simpl. lia.
  - done.
  - done.
  - apply expiries_linked; [|done|done|done].
    eapply expiries_same; [done| |done]. intros i. by autorewrite with views.
  - apply heap_receipt; [|lia]. eapply heap_more; [|apply Nat.le_succ_diag_r].
    by apply (heap_touch _ _ _ _ _ fl).
  - rewrite <- (app_nil_r (lg_trace l)). eapply traced_keep; [exact Htr|..].
    + intros k. unfold claimed. autorewrite with views. case_decide; [right; done|done].
    + intros k. autorewrite with views. case_decide; [by intros []|done].
    + constructor.
    + intros cb. rewrite (waiting_closed _ _ fl (Some encoded) true) by done.
      unfold nothing_owed, owed_calls, accepted, fired; simpl. lia.
Qed.

(** A completion nobody owned: the receipt takes a reservation of its own. *)
Definition recorded key r b' l : ledger :=
  let e := lg_next l in
  mkLedger (linked key e (lg_shards l)) (lg_flights l) (<[e := r]> (lg_receipts l)) (lg_leases l) (S e)
    (lg_receiptCount l + 1) b' (lg_flightLimit l) (lg_subscriberBudget l)
    (lg_subscriberPerFlight l) (lg_nextAdmissionSeq l) (lg_activeAdmissions l) (lg_now l) (lg_trace l).

Lemma core_recorded key r b' l :
  core l → ¬ claimed (lg_shards l) key →
  let rv := bd_next (lg_fairBudget l) in
  rc_key r = key → rc_reservation r = Some rv → rc_expiresAt r = lg_now l + rpcExecutionReceiptTTL →
  fair_inv b' → bd_objs (lg_fairBudget l) !! rv = None →
  bd_objs b' = <[rv := mkRes key false false]> (bd_objs (lg_fairBudget l)) →
  core (recorded key r b' l).
Proof.
  intros H Hfree rv Hrk Hrr Hre Hb' Hnone Hobj. unfold recorded.
  destruct H as [Hsh [Hc1 Hc2 Hc3 Hc4 Hc5] Hsq Hsl Hex Hhp Htr].
  pose proof (hp_receipt _ _ _ _ Hhp _ (le_n _)) as Hnew. split; cbn; try done.
  - rewrite Hobj. apply (shape_link _ _ _ _ _ _ _ rv); try done; [by apply shape_reserve|apply lookup_insert_eq].
  - split; try done; cbn.
    + rewrite shard_receipts_linked. lia.
    + rewrite (bi_live _ Hb'), Hobj, sum_map_insert_new, <- (bi_live _ Hc1) by done. unfold live; simpl. lia.
  - apply expiries_linked; [done|done| |done]. intros i Hin.
    destruct (sp_elem _ _ _ _ _ Hsh _ _ Hin) as (? & ? & _). congruence.
  - apply heap_receipt; [|lia]. eapply heap_more; [done|apply Nat.le_succ_diag_r].
  - rewrite <- (app_nil_r (lg_trace l)). eapply traced_keep; [exact Htr|..].
    + intros k. unfold claimed. autorewrite with views. case_decide; [right; done|done].
    + intros k. by autorewrite with views.
    + constructor.
    + done.
Qed.

Definition pushed key r l : ledger :=
  let e := lg_next l in
  mkLedger (linked key e (lg_shards l)) (lg_flights l) (<[e := r]> (lg_receipts l)) (lg_leases l) (S e)
    (lg_receiptCount l + 1) (lg_fairBudget l) (lg_flightLimit l) (lg_subscriberBudget l)
    (lg_subscriberPerFlight l) (lg_nextAdmissionSeq l) (lg_activeAdmissions l) (lg_now l) (lg_trace l).

Lemma wp_push key r (Q : nat → ledger → Prop) l :
  rc_key r = key → in_int64 (lg_receiptCount l + 1) → Q (lg_next l) (pushed key r l) →
  wp (push_receipt (shardIndex key) r) Q l.
Proof.
  intros <- Hc HQ. unfold push_receipt. repeat lg_step. cbn. rewrite wrap64_id by done. exact HQ.
Qed.

(** The count of receipts is far from overflow. *)
Lemma core_count_bound l :
  core l → 0 ≤ lg_receiptCount l ∧ lg_receiptCount l + lim_used (lg_flightLimit l) ≤ lim_used (bd_global (lg_fairBudget l))
    ∧ lim_used (bd_global (lg_fairBudget l)) ≤ max_int64.
Proof.
  intros H. destruct (co_counts _ _ H) as [Hc1 Hc2 Hc3 Hc4 Hc5]. rewrite Hc4 at 1.
  split; [apply shard_receipts_nonneg|]. split; [lia|]. destruct (bi_global _ Hc1) as (? & ? & [?| ->]); [lia|].
  by vm_compute.
Qed.

Lemma wp_releasePending rv (Q : () → ledger → Prop) l :
  fair_inv (lg_fairBudget l) →
  (∀ b', fair_inv b' → fair_frame (lg_fairBudget l) b' →
     bd_objs b' = unpend_obj rv (bd_objs (lg_fairBudget l)) → Q tt (set_fairBudget b' l)) →
  wp (on_fair (lift_upd (releasePending rv))) Q l.
Proof.
  intros Hf HQ. destruct (fair_releasePending_total _ rv Hf) as (b' & Hb & ? & ? & ?).
  eapply wp_zoom; [unfold lift_upd; by rewrite Hb|]. by apply HQ.
Qed.

(** Publishing to the flight of [key], right after its receipt was pushed. *)
Lemma publish_ok key f fl encoded r rv (Q : list nat * list nat * bool → ledger → Prop) l :
  core l → pend (lg_shards l) key = Some f → lg_flights l !! f = Some fl →
  fl_reservation fl = Some rv → rc_key r = key → rc_reservation r = Some rv →
  rc_expiresAt r = lg_now l + rpcExecutionReceiptTTL →
  (∀ b' t' sub', fair_config (lg_fairBudget l) b' → sub_config (lg_subscriberBudget l) sub' →
     core_owing (owed_calls fl) (published key f fl encoded r b' t' sub' l) →
     Q (fl_subscribers fl, fl_executionSubscribers fl, exec_outcome fl)
       (published key f fl encoded r b' t' sub' l)) →
  wp (completeRPCResultFlight key encoded) Q (pushed key r l).
Proof.
  intros H Hp Hf Hrv Hrk Hrr Hre HQ.
  destruct (shape_flight _ _ _ _ _ _ _ (co_shape _ _ H) Hp) as (fl0 & rv0 & Hf0 & Hk & Hd & Hrv0 & Ho & Hn).
  assert (fl0 = fl) as -> by congruence.
  unfold completeRPCResultFlight. repeat wp_step.
  change (sh_pending (shardAt (shardIndex key) (pushed key r l)) !! key)
    with (pend (linked key (lg_next l) (lg_shards l)) key).
  rewrite pend_linked, Hp. repeat lg_step. eapply wp_get_flight; [exact Hf|]. rewrite Hrv.
  wp_step. apply wp_releasePending; [apply H|]. intros b' Hb' (? & ? & ? & ? & ?) Hobj. cbn in Hobj.
  apply wp_close_tail_k. rewrite <- Hk.
  eapply (close_tail_ok _ fl (Some encoded) true); [exact Hf|exact Hd|done|apply H|apply H|apply H|apply H|].
  intros t' sub' Hsq' Hsl' Hcfg. apply wp_ret. rewrite Hk in *.
  assert (core_owing (owed_calls fl) (published key f fl encoded r b' t' sub' l)) as Hcore.
  { by apply (core_published _ _ _ _ _ rv). }
  specialize (HQ b' t' sub' ltac:(by split_and!) Hcfg Hcore).
  exact HQ.
Qed.

(** [l'] is [l] after the owner's completion. *)
Record completed key f (fl : flight) encoded (replayable : bool) l l' : Prop := {
  cp_flights : lg_flights l' = <[f := closed (Some encoded) true fl]> (lg_flights l);
  cp_pend k : pend (lg_shards l') k = if decide (key = k) then None else pend (lg_shards l) k;
  cp_rcpt k : rcpt (lg_shards l') k =
    if decide (key = k) then (if fl_acknowledged fl then None else Some (lg_next l))
    else rcpt (lg_shards l) k;
  cp_receipt : fl_acknowledged fl = false →
    ∃ rv, lg_receipts l' !! lg_next l = Some (receipt_of key (lg_now l) fl replayable rv);
  cp_receipts e : (e < lg_next l)%nat → lg_receipts l' !! e = lg_receipts l !! e;
  cp_leases : lg_leases l' = lg_leases l;
  cp_now : lg_now l' = lg_now l;
  cp_trace : lg_trace l' = lg_trace l ++ (if fl_acknowledged fl then [EvForgotten key] else []) ++
    calls (Some encoded) true (fl_subscribers fl) (exec_outcome fl) (fl_executionSubscribers fl);
  cp_limit : lim_used (lg_flightLimit l') = lim_used (lg_flightLimit l) - 1;
  cp_config : same_config l l';
}.

Inductive complete_spec key encoded replayable l : bool → ledger → Prop :=
  | cs_already e : rcpt (lg_shards l) key = Some e → complete_spec key encoded replayable l true l
  | cs_owner f fl l' :
      pend (lg_shards l) key = Some f → lg_flights l !! f = Some fl →
      completed key f fl encoded replayable l l' →
      complete_spec key encoded replayable l true l'
  | cs_noroom :
      ¬ claimed (lg_shards l) key → ¬ has_room key false (lg_fairBudget l) →
      complete_spec key encoded replayable l false l
  | cs_bare b' :
      ¬ claimed (lg_shards l) key → has_room key false (lg_fairBudget l) →
      fair_config (lg_fairBudget l) b' →
      complete_spec key encoded replayable l true
        (recorded key (mkReceipt key (lg_now l + rpcExecutionReceiptTTL) noIdentity 0 false false false
           (negb replayable) (Some (bd_next (lg_fairBudget l)))) b' l).

Lemma core_called fl encoded ok eok l :
  core_owing (owed_calls fl) l →
  core (set_trace (lg_trace l ++ calls encoded ok (fl_subscribers fl) eok (fl_executionSubscribers fl)) l).
Proof.
  intros [Hsh Hc Hsq Hsl Hex Hhp Htr]. split; cbn; try done.
  eapply traced_keep; [exact Htr|done|done|intros; apply quiet_calls|].
  intros cb. rewrite accepted_calls, fired_calls. unfold owed_calls, nothing_owed. lia.
Qed.

Lemma notify_run encoded ok rsub eok esub l :
  notify encoded ok rsub eok esub l =
  Some (tt, set_trace (lg_trace l ++ calls encoded ok rsub eok esub) l).
Proof.
  unfold notify, calls, emit, modify, mbind, GoM_bind. cbn. by rewrite <- app_assoc.
Qed.

Lemma pending_receipts l k e r : core l → rcpt (lg_shards l) k = Some e → lg_receipts l !! e = Some r → (e < lg_next l)%nat.
Proof.
  intros H Hk Hr. apply Nat.nle_gt. intros Hle. pose proof (hp_receipt _ _ _ _ (co_heap _ _ H) e Hle). congruence.
Qed.

(** The rest of [completeOnce] in the owner's case. *)
Lemma complete_owner_ok key f fl encoded replayable rv l :
  core l → settled l → pend (lg_shards l) key = Some f → lg_flights l !! f = Some fl →
  fl_reservation fl = Some rv →
  wp ('(subscribers, executionSubscribers, terminalOK) ← completeRPCResultFlight key encoded;
      (if fl_acknowledged fl then removeElement (shardIndex key) (lg_next l) else mret tt) ;;
      notify (Some encoded) true subscribers terminalOK executionSubscribers ;;
      mret true)
    (λ b l', core l' ∧ settled l' ∧ complete_spec key encoded replayable l b l')
    (pushed key (receipt_of key (lg_now l) fl replayable rv) l).
Proof.
  intros H Hs Hp Hf Hrv.
  destruct (shape_flight _ _ _ _ _ _ _ (co_shape _ _ H) Hp) as (fl0 & rv0 & Hf0 & Hk & Hd & Hrv0 & Ho & Hn).
  assert (fl0 = fl) as -> by congruence. clear Hf0.
  wp_step. eapply (publish_ok _ _ fl _ _ rv); [done|done|done|done|done|done|done|]. intros b' t' sub' (? & ? & ? & ?) (? & ? & ?) Hcore.
  wp_step. set (P := published key f fl encoded _ b' t' sub' l) in *.
  assert (∀ k, pend (lg_shards P) k = if decide (key = k) then None else pend (lg_shards l) k) as Hpp.
  { intros k. cbn. rewrite unclaimed_linked. by autorewrite with views. }
  assert (∀ k, rcpt (lg_shards P) k = if decide (key = k) then Some (lg_next l) else rcpt (lg_shards l) k) as Hpr.
  { intros k. cbn. rewrite unclaimed_linked. by autorewrite with views. }
  assert (∀ e, (e < lg_next l)%nat → lg_receipts P !! e = lg_receipts l !! e) as Hprs.
  { intros e He. cbn. rewrite lookup_insert_ne by lia. done. }
  destruct (fl_acknowledged fl) eqn:Hack.
  - eapply wp_mono; [apply (removeElement_ok _ key (lg_next l) _ Hcore); rewrite Hpr; by rewrite decide_True|].
    intros [] l2 (Hc2 & Hre & Hss & Hrs & Htr). cbv beta. wp_step.
    eapply wp_run; [apply notify_run|]. apply wp_ret.
    assert (∀ k, rcpt (lg_shards l2) k = if decide (key = k) then None else rcpt (lg_shards l) k) as Hr2.
    { intros k. rewrite Hss, rcpt_unlinked, Hpr. by case_decide. }
    split; [by apply core_called|]. split.
    + intros k e r. cbn. rewrite Hr2. case_decide; [done|]. intros Hke Hkr.
      destruct (core_receipt l k e H Hke) as (r' & Hr' & _).
      pose proof (pending_receipts l k e r' H Hke Hr'). rewrite Hrs in Hkr by lia. rewrite Hprs in Hkr by done.
      by apply (Hs k e).
    + eapply cs_owner; [done|done|]. pose proof (re_config _ _ Hre) as Hcfg.
      split; cbn; rewrite ?Hack.
      * by rewrite (re_flights _ _ Hre).
      * intros k. by rewrite (re_pend _ _ Hre).
      * done.
      * done.
      * intros e He. rewrite Hrs by lia. by apply Hprs.
      * by rewrite (re_leases _ _ Hre).
      * by rewrite (re_now _ _ Hre).
      * rewrite Htr. cbn. by rewrite <- !app_assoc.
      * by rewrite (re_limit _ _ Hre).
      * transitivity P; [by split_and!|]. exact Hcfg.
  - wp_step. wp_step. eapply wp_run; [apply notify_run|]. apply wp_ret.
    split; [by apply core_called|]. split.
    + intros k e r. cbn -[pend rcpt]. change (unclaimed key _) with (lg_shards P). rewrite Hpr.
      case_decide as Hkk.
      * intros [= <-]. rewrite lookup_insert_eq. by intros [= <-].
      * intros Hke. destruct (core_receipt l k e H Hke) as (r' & Hr' & _).
        pose proof (pending_receipts l k e r' H Hke Hr'). rewrite lookup_insert_ne by lia. exact (Hs k e r Hke).
    + eapply cs_owner; [done|done|]. split; cbn -[pend rcpt]; rewrite ?Hack; try done.
      * intros _. exists rv. apply lookup_insert_eq.
Qed.

Lemma completeOnce_ok key encoded replayable l :
  core l → settled l →
  wp (completeOnce key encoded replayable)
    (λ b l', core l' ∧ settled l' ∧
       ∃ l1, swept (λ k _ r, shardIndex k = shardIndex key ∧ rc_expiresAt r ≤ lg_now l) l l1 ∧
             complete_spec key encoded replayable l1 b l') l.
Proof.
  intros H0 Hs0. unfold completeOnce. repeat wp_step.
  eapply wp_mono; [by apply expireLocked_ok|]. intros [] l1 Hsw. pose proof Hsw as (H & Hre & _).
  pose proof (reaped_settled _ _ Hre Hs0) as Hs. cbv beta. repeat wp_step.
  change (sh_byKey (shardAt (shardIndex key) l1) !! key) with (rcpt (lg_shards l1) key).
  change (sh_pending (shardAt (shardIndex key) l1) !! key) with (pend (lg_shards l1) key).
  assert (∀ b l', core l' ∧ settled l' ∧ complete_spec key encoded replayable l1 b l' →
    core l' ∧ settled l' ∧ ∃ l1, swept (λ k _ r, shardIndex k = shardIndex key ∧ rc_expiresAt r ≤ lg_now l) l l1 ∧
      complete_spec key encoded replayable l1 b l') as Hwrap.
  { intros b l' (? & ? & ?). eauto. }
  pose proof (core_count_bound _ H) as (Hb0 & Hb1 & Hb2).
  pose proof (co_counts _ _ H) as Hcounts.
  destruct (rcpt (lg_shards l1) key) as [e|] eqn:Hr; unfold deref at 1.
  { destruct (shape_receipt _ _ _ _ _ _ _ (co_shape _ _ H) Hr) as (r & rv & He & _ & _ & _ & _ & Hp).
    wp_step. eapply wp_get_receipt; [done|]. wp_step. rewrite Hp. repeat wp_step.
    apply Hwrap. split; [done|]. split; [done|]. by eapply cs_already. }
  repeat wp_step. destruct (pend (lg_shards l1) key) as [f|] eqn:Hp; unfold deref at 1.
  - destruct (shape_flight _ _ _ _ _ _ _ (co_shape _ _ H) Hp) as (fl & rv & Hf & Hk & Hd & Hrv & _).
    wp_step. eapply wp_get_flight; [done|]. repeat wp_step. unfold flightMetadata. cbv beta iota zeta.
    rewrite Hrv. repeat wp_step. eapply wp_unwrap; [done|]. repeat wp_step.
    pose proof (open_flights_pos _ _ _ Hf Hd) as Hpos. pose proof (ct_used _ _ _ _ _ Hcounts) as Hused.
    apply wp_push; [done|unfold in_int64, min_int64; assert (0 ≤ two63) by (vm_compute; congruence); lia|].
    rewrite <- (re_now _ _ Hre).
    eapply wp_mono; [by apply (complete_owner_ok key f fl encoded replayable rv)|].
    intros b l' Hpost. rewrite (re_now _ _ Hre). by apply Hwrap.
  - repeat wp_step. unfold flightMetadata. cbv beta iota zeta.
    pose proof (not_claimed l1 key Hr Hp) as Hfree. wp_step.
    change (None ≫= rc_reservation) with (@None nat).
    apply wp_fair_reserve; [apply H|]. cbv zeta. destruct (decide _) as [Hroom|Hroom].
    2:{ apply wp_ret. apply Hwrap. split; [done|]. split; [done|]. by apply cs_noroom. }
    intros b' Hb' Hcfg Hnew Hobj. repeat wp_step.
    apply wp_push; [done|unfold in_int64, min_int64; assert (0 ≤ two63) by (vm_compute; congruence)|].
    { destruct Hroom as (Hroom & _). rewrite <- (bi_live _ (ct_fair _ _ _ _ _ Hcounts)) in Hroom.
      pose proof (bi_global _ (ct_fair _ _ _ _ _ Hcounts)) as (? & ? & ?).
      pose proof (ct_limit _ _ _ _ _ Hcounts) as (? & ? & ?). cbn. lia. }
    wp_step. unfold completeRPCResultFlight. repeat wp_step.
    match goal with |- context [sh_pending (shardAt _ ?L) !! key] =>
      change (sh_pending (shardAt (shardIndex key) L) !! key)
        with (pend (linked key (lg_next l1) (lg_shards l1)) key) end.
    rewrite pend_linked, Hp. repeat wp_step. apply wp_ret. apply Hwrap.
    rewrite <- (re_now _ _ Hre).
    set (r := mkReceipt key (lg_now l1 + rpcExecutionReceiptTTL) noIdentity 0 false false false
           (negb replayable) (Some (bd_next (lg_fairBudget l1)))).
    match goal with |- core_owing _ ?L ∧ _ =>
      assert (L = recorded key r b' l1) as -> by (unfold recorded; cbn; by rewrite !app_nil_r) end.
    split; [by apply core_recorded|]. split; [|by apply cs_bare].
    intros k e r'. cbn. rewrite rcpt_linked. case_decide as Hkk.
    + intros [= <-]. rewrite lookup_insert_eq. by intros [= <-].
    + intros Hke. destruct (core_receipt l1 k e H Hke) as (r0 & Hr0 & _).
      pose proof (pending_receipts l1 k e r0 H Hke Hr0). rewrite lookup_insert_ne by lia.
      exact (Hs k e r' Hke).
Qed.

Lemma complete_config key encoded replayable l b l' :
  complete_spec key encoded replayable l b l' → same_config l l' ∧ lg_now l' = lg_now l.
Proof.
  intros [| f fl l'' ? ? Hc | | b' ? ? (?&?&?&?)]; try (split; reflexivity).
  - split; apply Hc.
  - split; [|done]. by split_and!.
Qed.

(** ** Looking a receipt up drops it when it has expired *)

Definition dropped_expired key l l' : Prop := swept (λ k _ r, k = key ∧ rc_expiresAt r ≤ lg_now l) l l'.

(** The key's receipt, if it is there and has not expired. *)
Definition live_receipt key l : option receipt :=
  match rcpt (lg_shards l) key ≫= λ e, lg_receipts l !! e with
  | Some r => if lg_now l <? rc_expiresAt r then Some r else None
  | None => None
  end.

Lemma dropped_none key l : core l → rcpt (lg_shards l) key = None → dropped_expired key l l.
Proof. intros H Hk. apply swept_nothing; [done|]. intros k e r Hk' _ [-> _]. congruence. Qed.

Lemma dropped_live key l e r : core l → rcpt (lg_shards l) key = Some e → lg_receipts l !! e = Some r →
  lg_now l < rc_expiresAt r → dropped_expired key l l.
Proof. intros H Hk Hr Hlt. apply swept_nothing; [done|]. intros k e' r' Hk' Hr' [-> ?]. simplify_eq. lia. Qed.

Lemma wp_drop key e r (Q : () → ledger → Prop) l :
  core l → rcpt (lg_shards l) key = Some e → lg_receipts l !! e = Some r → rc_expiresAt r ≤ lg_now l →
  (∀ l', dropped_expired key l l' → rcpt (lg_shards l') key = None → Q tt l') →
  wp (removeElement (shardIndex key) e) Q l.
Proof.
  intros H Hk Hr Hle HQ. eapply wp_mono; [by apply removeElement_swept|].
  intros [] l' (Hsw & Hss & _). apply HQ.
  - eapply swept_ext; [|exact Hsw]. intros k e' r' Hk' Hr'. cbv beta.
    destruct (core_receipt l k e' H Hk') as (? & ? & ? & _).
    destruct (core_receipt l key e H Hk) as (? & ? & ? & _). split.
    + intros ->. simplify_eq. done.
    + intros [-> _]. congruence.
  - rewrite Hss. autorewrite with views. by rewrite decide_True.
Qed.

(** A request id of 0 is refused before anything is touched. *)
Definition guarded key l l' : Prop := if reqMsgID key =? 0 then l' = l else dropped_expired key l l'.

Ltac zero_guard :=
  destruct (reqMsgID _ =? 0); [apply wp_ret; done|]; repeat wp_step.

Lemma Replay_ok (rpcResult : rpcExecutionKey → option Enc) key l :
  core l →
  wp (Replay rpcResult key) (λ a l', guarded key l l' ∧
    a = if reqMsgID key =? 0 then None
        else match live_receipt key l with
             | Some r => if rc_unavailable r || rc_acknowledged r then None else rpcResult key
             | None => None
             end) l.
Proof.
  intros H. unfold Replay, live_receipt, guarded. zero_guard.
  change (sh_byKey (shardAt (shardIndex key) l) !! key) with (rcpt (lg_shards l) key).
  destruct (rcpt (lg_shards l) key) as [e|] eqn:Hk; simpl.
  2:{ apply wp_ret. split; [by apply dropped_none|done]. }
  destruct (core_receipt l key e H Hk) as (r & Hr & Hkey & _). rewrite Hr.
  wp_step. eapply wp_get_receipt; [done|]. destruct (_ <? _) eqn:Hlt; simpl; bool_facts.
  - destruct (_ || _); apply wp_ret; (split; [by eapply dropped_live|done]).
  - wp_step. eapply wp_drop; [done..|lia|]. intros l' Hd _. by apply wp_ret.
Qed.

(** What an observer of a dependency learns. *)
Definition dependency_of key l : option rpcResultDependency :=
  match live_receipt key l with
  | Some r => if rc_executionKnown r then Some (DepCompleted (rc_executionOK r)) else None
  | None =>
      match pend (lg_shards l) key with
      | None => None
      | Some f =>
          (λ fl : flight, if fl_executionDone fl then DepCompleted (fl_executionOK fl)
                 else DepWaiter (mkWaiter key f)) <$> lg_flights l !! f
      end
  end.

Lemma observePending_ok key l l' (Q : option rpcResultDependency → ledger → Prop) :
  core l' → lg_flights l' = lg_flights l → pend (lg_shards l') key = pend (lg_shards l) key →
  live_receipt key l = None → Q (dependency_of key l) l' →
  wp (observePending key) Q l'.
Proof.
  intros H Hf Hp Hn HQ. unfold observePending. repeat wp_step.
  change (sh_pending (shardAt (shardIndex key) l') !! key) with (pend (lg_shards l') key).
  rewrite Hp. unfold dependency_of in HQ. rewrite Hn in HQ.
  destruct (pend (lg_shards l) key) as [f|]; [|by apply wp_ret].
  destruct (shape_flight _ _ _ _ _ _ _ (co_shape _ _ H) Hp) as (fl & _ & Hfl & _).
  wp_step. eapply wp_get_flight; [done|]. rewrite Hf in Hfl. rewrite Hfl in HQ. by apply wp_ret.
Qed.

Lemma ObserveDependency_ok key l :
  core l →
  wp (ObserveDependency key) (λ a l', guarded key l l' ∧
    a = if reqMsgID key =? 0 then None else dependency_of key l) l.
Proof.
  intros H. unfold ObserveDependency, guarded. zero_guard.
  change (sh_byKey (shardAt (shardIndex key) l) !! key) with (rcpt (lg_shards l) key).
  destruct (rcpt (lg_shards l) key) as [e|] eqn:Hk; simpl.
  2:{ apply wp_ret. apply (observePending_ok key l); [done|done|done| |].
      - unfold live_receipt. by rewrite Hk.
      - split; [by apply dropped_none|done]. }
  destruct (core_receipt l key e H Hk) as (r & Hr & Hkey & _).
  assert (live_receipt key l = if lg_now l <? rc_expiresAt r then Some r else None) as Hl.
  { unfold live_receipt. rewrite Hk; simpl. by rewrite Hr. }
  wp_step. eapply wp_get_receipt; [done|]. wp_step. destruct (_ <? _) eqn:Hlt; bool_facts.
  - apply wp_ret. split; [by eapply dropped_live|]. unfold dependency_of. by rewrite Hl.
  - wp_step. eapply wp_drop; [done..|lia|]. intros l' Hd _.
    apply (observePending_ok key l); [apply Hd|apply Hd|apply Hd|done|done].
Qed.

Definition admission_profile_of key l : option Z :=
  match live_receipt key l with
  | Some r => exactProfile (rc_identity r)
  | None => pend (lg_shards l) key ≫= λ f, lg_flights l !! f ≫= λ fl, exactProfile (fl_identity fl)
  end.

Lemma ExactAdmissionProfile_ok key l :
  core l →
  wp (ExactAdmissionProfile key) (λ a l', guarded key l l' ∧
    a = if reqMsgID key =? 0 then None else admission_profile_of key l) l.
Proof.
  intros H. unfold ExactAdmissionProfile, guarded. zero_guard.
  change (sh_byKey (shardAt (shardIndex key) l) !! key) with (rcpt (lg_shards l) key).
  change (sh_pending (shardAt (shardIndex key) l) !! key) with (pend (lg_shards l) key).
  assert (∀ (Q : option flight → ledger → Prop),
    Q (pend (lg_shards l) key ≫= λ f, lg_flights l !! f) l → wp (deref get_flight (pend (lg_shards l) key)) Q l)
    as Hderef.
  { intros Q HQ. destruct (pend (lg_shards l) key) as [f|] eqn:Hp; simpl in *; [|by apply wp_ret].
    destruct (shape_flight _ _ _ _ _ _ _ (co_shape _ _ H) Hp) as (fl & _ & Hfl & _).
    rewrite Hfl in HQ. wp_step. eapply wp_get_flight; [done|]. by apply wp_ret. }
  assert (∀ o : option nat, (o ≫= λ f, lg_flights l !! f) ≫= (λ fl, exactProfile (fl_identity fl)) =
    o ≫= λ f, lg_flights l !! f ≫= λ fl, exactProfile (fl_identity fl)) as Hassoc by (by intros []).
  destruct (rcpt (lg_shards l) key) as [e|] eqn:Hk; unfold deref at 1.
  2:{ repeat wp_step. apply Hderef. apply wp_ret. split; [by apply dropped_none|].
      unfold admission_profile_of, live_receipt. rewrite Hk. simpl. by rewrite Hassoc. }
  destruct (core_receipt l key e H Hk) as (r & Hr & Hkey & _).
  assert (live_receipt key l = if lg_now l <? rc_expiresAt r then Some r else None) as Hl.
  { unfold live_receipt. rewrite Hk; simpl. by rewrite Hr. }
  wp_step. eapply wp_get_receipt; [done|]. repeat wp_step. apply Hderef.
  unfold admission_profile_of. rewrite Hl. destruct (_ <? _) eqn:Hlt; bool_facts.
  - apply wp_ret. split; [by eapply dropped_live|done].
  - wp_step. eapply wp_drop; [done..|lia|]. intros l' Hd _. apply wp_ret. split; [done|].
    by rewrite Hassoc.
Qed.

(** ** Acknowledging *)

(** An open flight is replaced by [fl'], which keeps its identity, and the
    trace grows by [tr']. *)
Definition touched f (fl' : flight) sub' tr' l : ledger :=
  set_trace (lg_trace l ++ tr') (set_subscriberBudget sub' (set_flights (<[f := fl']> (lg_flights l)) l)).

Record same_flight (fl fl' : flight) : Prop := {
  sf_key : fl_key fl' = fl_key fl;
  sf_done : fl_done fl' = fl_done fl;
  sf_seq : fl_admissionSeq fl' = fl_admissionSeq fl;
  sf_res : fl_reservation fl' = fl_reservation fl;
}.

Lemma core_touched f fl fl' sub' tr' l :
  core l → lg_flights l !! f = Some fl → same_flight fl fl' →
  slots (<[f := fl']> (lg_flights l)) sub' (lg_subscriberPerFlight l) →
  (∀ k, Forall (quiet k) tr') →
  (∀ cb, accepted cb tr' + waiting cb fl = fired cb tr' + waiting cb fl') →
  core (touched f fl' sub' tr' l).
Proof.
  intros H Hf [Hk Hd Hs Hr] Hsl Hq Hn. destruct H as [Hsh [Hc1 Hc2 Hc3 Hc4 Hc5] Hsq Hsl0 Hex Hhp Htr].
  unfold touched. split; cbn; try done.
  - by eapply shape_touch.
  - split; try done. rewrite sum_map_insert, Hf. simpl. unfold open_flight at 2 3. rewrite Hd. lia.
  - by eapply seqs_touch.
  - by eapply heap_touch.
  - eapply traced_keep; [exact Htr|done|done|done|]. intros cb. unfold nothing_owed.
    rewrite sum_map_insert, Hf. simpl. specialize (Hn cb). lia.
Qed.

Lemma ack_wf (fl : flight) : flight_wf fl → flight_wf (set_acknowledged fl).
Proof. intros [H1 H2 H3 H4 H5]. by split. Qed.

Definition acked f (fl : flight) l : ledger :=
  touched f (set_acknowledged fl) (lg_subscriberBudget l) [] l.

Inductive ack_spec key l : bool → ledger → Prop :=
  | ak_receipt e l' : rcpt (lg_shards l) key = Some e →
      swept (λ _ e' _, e' = e) l l' → rcpt (lg_shards l') key = None →
      ack_spec key l true l'
  | ak_flight f fl : rcpt (lg_shards l) key = None → pend (lg_shards l) key = Some f →
      lg_flights l !! f = Some fl → ack_spec key l true (acked f fl l)
  | ak_unknown : ¬ claimed (lg_shards l) key → ack_spec key l false l.

Lemma Acknowledge_ok key l :
  core l → settled l → reqMsgID key ≠ 0 →
  wp (Acknowledge key) (λ b l', core l' ∧ settled l' ∧
    ∃ l1, swept (λ k _ r, shardIndex k = shardIndex key ∧ rc_expiresAt r ≤ lg_now l) l l1 ∧
          ack_spec key l1 b l') l.
Proof.
  intros H0 Hs0 Hz. unfold Acknowledge. rewrite (proj2 (Z.eqb_neq _ _) Hz). wp_step.
  eapply wp_mono; [by apply expireShard_ok|]. intros [] l1 Hsw. pose proof Hsw as (H & Hre & _).
  pose proof (reaped_settled _ _ Hre Hs0) as Hs. cbv beta. repeat wp_step.
  change (sh_byKey (shardAt (shardIndex key) l1) !! key) with (rcpt (lg_shards l1) key).
  change (sh_pending (shardAt (shardIndex key) l1) !! key) with (pend (lg_shards l1) key).
  destruct (rcpt (lg_shards l1) key) as [e|] eqn:Hr.
  { wp_step. eapply wp_mono; [by apply removeElement_swept|]. intros [] l2 (Hsw2 & Hss & _).
    apply wp_ret. split; [apply Hsw2|]. split; [eapply reaped_settled; [apply Hsw2|done]|].
    exists l1. split; [done|]. eapply ak_receipt; [done|done|]. rewrite Hss. autorewrite with views.
    by rewrite decide_True. }
  destruct (pend (lg_shards l1) key) as [f|] eqn:Hp.
  - destruct (shape_flight _ _ _ _ _ _ _ (co_shape _ _ H) Hp) as (fl & rv & Hf & _).
    wp_step. eapply wp_get_flight; [done|]. repeat lg_step.
    assert (set_flights (<[f:=set_acknowledged fl]> (lg_flights l1)) l1 = acked f fl l1) as ->.
    { unfold acked, touched. rewrite app_nil_r. by destruct l1. }
    assert (core (acked f fl l1)) as Hcore.
    { apply (core_touched f fl); [done|done|done| |constructor|done].
      eapply slots_touch; [apply H|done|done|done|]. by apply ack_wf, (sl_flight _ _ _ (co_slots _ _ H) f). }
    split; [done|]. split; [exact Hs|]. exists l1. split; [done|]. by eapply ak_flight.
  - apply wp_ret. split; [done|]. split; [done|]. exists l1. split; [done|].
    apply ak_unknown. by apply not_claimed.
Qed.

(** ** Leases *)

Lemma core_lease x ls ls' l :
  core l → lg_leases l !! x = Some ls → ls_flight ls' = ls_flight ls → ls_key ls' = ls_key ls →
  core (set_leases (<[x := ls']> (lg_leases l)) l).
Proof.
  intros [Hsh Hc Hsq Hsl Hex Hhp Htr] Hx Hf Hk. split; cbn; try done. by eapply heap_lease.
Qed.

Lemma SetAbortHook_ok x fn ls l :
  core l → lg_leases l !! x = Some ls →
  wp (SetAbortHook x fn) (λ _ l', core l' ∧ l' = set_leases (<[x := set_hook fn ls]> (lg_leases l)) l) l.
Proof.
  intros H Hx. unfold SetAbortHook. wp_step. eapply wp_get_lease; [done|]. lg_step.
  split; [|done]. by eapply core_lease.
Qed.

Lemma InstallAbortHook_ok x fn ls l :
  core l → lg_leases l !! x = Some ls →
  wp (InstallAbortHook x fn) (λ b l', core l' ∧ b = bool_decide (owns ls l) ∧
    l' = if b : bool then set_leases (<[x := set_hook (Some fn) ls]> (lg_leases l)) l else l) l.
Proof.
  intros H Hx. unfold InstallAbortHook. wp_step. eapply wp_get_lease; [done|]. repeat wp_step.
  destruct (decide _) as [Ho|Ho].
  - repeat lg_step. rewrite bool_decide_eq_true_2 by done. split; [|done]. by eapply core_lease.
  - apply wp_ret. by rewrite bool_decide_eq_false_2.
Qed.

Lemma HandOff_ok x ls l :
  core l → lg_leases l !! x = Some ls →
  wp (HandOff x) (λ b l', core l' ∧ b = bool_decide (owns ls l) ∧
    l' = if b : bool
         then set_leases (<[x := mkLease (ls_key ls) (ls_flight ls) (ls_abortHook ls) true]> (lg_leases l)) l
         else l) l.
Proof.
  intros H Hx. unfold HandOff. wp_step. eapply wp_get_lease; [done|]. repeat wp_step.
  destruct (decide _) as [Ho|Ho].
  - repeat lg_step. rewrite bool_decide_eq_true_2 by done. split; [|done]. by eapply core_lease.
  - apply wp_ret. by rewrite bool_decide_eq_false_2.
Qed.

(** ** The handler's outcome *)

Definition executed success (fl : flight) : flight :=
  mkFlight (fl_key fl) (fl_done fl) (fl_encoded fl) (fl_ok fl) (fl_subscribers fl) true success []
    (fl_acknowledged fl) (len (fl_subscribers fl)) (fl_identity fl) (fl_admissionSeq fl)
    (fl_reservation fl).

Lemma executed_wf success (fl : flight) : flight_wf fl → flight_wf (executed success fl).
Proof.
  intros [H1 H2 H3 H4 H5]. split; simpl; try done.
  - change (len []) with 0. lia.
  - intros Hd. by destruct (H3 Hd).
Qed.

Lemma CompleteExecution_ok x success ls l :
  core l → lg_leases l !! x = Some ls →
  wp (CompleteExecution x success) (λ b l', core l' ∧
    if b : bool then owns ls l ∧ ∃ fl sub', lg_flights l !! ls_flight ls = Some fl ∧
      fl_executionDone fl = false ∧ sub_config (lg_subscriberBudget l) sub' ∧
      l' = touched (ls_flight ls) (executed success fl) sub'
             (calls None false [] success (fl_executionSubscribers fl)) l
    else l' = l ∧ (owns ls l → ∃ fl, lg_flights l !! ls_flight ls = Some fl ∧ fl_executionDone fl = true)) l.
Proof.
  intros H Hx. unfold CompleteExecution. wp_step. eapply wp_get_lease; [done|]. repeat wp_step.
  destruct (decide _) as [Ho|Ho]; [|by apply wp_ret].
  destruct (shape_flight _ _ _ _ _ _ _ (co_shape _ _ H) Ho) as (fl & rv & Hf & Hk & Hd & _).
  wp_step. eapply wp_get_flight; [done|]. destruct (fl_executionDone fl) eqn:He.
  { apply wp_ret. split; [done|]. split; [done|]. eauto. }
  repeat lg_step. rewrite <- Hk. destruct (sl_flight _ _ _ (co_slots _ _ H) _ fl Hf) as [Hwf Hper].
  pose proof (fw_slots _ Hwf) as Hslots. pose proof (sl_per _ _ _ (co_slots _ _ H)) as Hp.
  eapply (release_slots_ok _ fl (execution_done success fl) (executed success fl)); [apply H|done|done|done| | |by apply executed_wf|].
  - unfold len in *. lia.
  - unfold with_slots, executed, execution_done. cbn. f_equal. lia.
  - intros sub' Hcfg Hsl'. wp_step. eapply wp_run; [apply notify_run|]. apply wp_ret. split.
    + change (core (touched (ls_flight ls) (executed success fl) sub'
        (calls None false [] success (fl_executionSubscribers fl)) l)).
      apply (core_touched _ fl); [done|done|done|done| |].
      * intros. apply quiet_calls.
      * intros cb. rewrite accepted_calls, fired_calls. unfold waiting; simpl. change (occ cb []) with 0. lia.
    + split; [done|]. by exists fl, sub'.
Qed.

(** ** Subscribing *)

Lemma sub_reserve_flight (fs : gmap nat flight) (sub : rpcResultSubscriberBudget SA SS) per f (fl : flight) n :
  slots fs sub per → fs !! f = Some fl → 0 < n ≤ max_int64 →
  sub_reserve (fl_key fl) n sub = (false, sub) ∨
  ∃ sub', sub_reserve (fl_key fl) n sub = (true, sub') ∧ sub_config sub sub' ∧
    ∀ fl' : flight, fl_key fl' = fl_key fl → fl_subscriberSlots fl' = fl_subscriberSlots fl + n →
      flight_wf fl' → fl_subscriberSlots fl' ≤ per → slots (<[f := fl']> fs) sub' per.
Proof.
  intros H Hf Hn.
  destruct (sub_reserve_spec _ _ _ sub (fl_key fl) n (sl_sub _ _ _ H)) as
    [[Hres _]|(_ & sub' & Hres & Hinv & Hc)];
    [lia|unfold in_int64, min_int64; assert (0 ≤ two63) by (vm_compute; congruence); lia|by left|].
  right. exists sub'. split; [done|]. split; [done|]. intros fl' Hk Hs Hwf Hper.
  by apply (slots_replace fs sub sub' per f fl fl' n).
Qed.

(** The execution callback has to wait only while the handler runs. *)
Definition waiting_execution (fl : flight) (ef : option nat) : list nat :=
  if fl_executionDone fl then [] else slot ef.

Definition joined (fl : flight) (rf ef : option nat) : flight :=
  add_subscribers (slot rf) (waiting_execution fl ef)
    (fl_subscriberSlots fl + (len (slot rf) + len (waiting_execution fl ef))) fl.

Lemma joined_wf fl rf ef : flight_wf fl → fl_done fl = false → flight_wf (joined fl rf ef).
Proof.
  intros [H1 H2 H3 H4 H5] Hd. split; simpl.
  - rewrite H1. unfold len. rewrite !length_app. lia.
  - intros He. unfold waiting_execution. rewrite He, (H2 He). done.
  - congruence.
  - done.
  - done.
Qed.

Definition joined_trace (fl : flight) (rf ef : option nat) : list (@event Enc) :=
  [EvSubscribed (slot rf ++ slot ef)] ++
  (if fl_executionDone fl then calls None false [] (fl_executionOK fl) (slot ef) else []).

(** On a flight that is over, both callbacks run at once. *)
Definition late_trace (fl : flight) (rf ef : option nat) : list (@event Enc) :=
  [EvSubscribed (slot rf ++ slot ef)] ++ calls None false [] (fl_executionOK fl) (slot ef) ++
  calls (fl_encoded fl) (fl_ok fl) (slot rf) false [].

Inductive subscribe_spec f (fl : flight) (rf ef : option nat) l : option ledgerErr → ledger → Prop :=
  | su_joined sub' :
      fl_done fl = false → sub_config (lg_subscriberBudget l) sub' →
      subscribe_spec f fl rf ef l None (touched f (joined fl rf ef) sub' (joined_trace fl rf ef) l)
  | su_full :
      fl_done fl = false → 0 < len (slot rf) + len (waiting_execution fl ef) →
      subscribe_spec f fl rf ef l (Some ErrRPCResultSubscriberCapacity) l
  | su_late :
      fl_done fl = true →
      subscribe_spec f fl rf ef l None (set_trace (lg_trace l ++ late_trace fl rf ef) l).

Lemma quiet_subscribed k cbs : quiet k (EvSubscribed cbs : @event Enc).
Proof. done. Qed.

Lemma core_joined f fl rf ef sub' l :
  core l → lg_flights l !! f = Some fl → fl_done fl = false →
  slots (<[f := joined fl rf ef]> (lg_flights l)) sub' (lg_subscriberPerFlight l) →
  core (touched f (joined fl rf ef) sub' (joined_trace fl rf ef) l).
Proof.
  intros H Hf Hd Hsl. apply (core_touched _ fl); [done|done|done|done| |]; unfold joined_trace.
  - intros k. apply Forall_app. split; [by repeat constructor|].
    destruct (fl_executionDone fl); [apply quiet_calls|constructor].
  - intros cb. rewrite accepted_app, fired_app. unfold waiting, joined, waiting_execution; simpl.
    rewrite !occ_app. unfold accepted at 1, fired at 1; simpl. rewrite occ_app.
    destruct (fl_executionDone fl).
    + rewrite accepted_calls, fired_calls. change (occ cb []) with 0. lia.
    + unfold accepted, fired; simpl. lia.
Qed.

Lemma core_late f fl rf ef l :
  core l → lg_flights l !! f = Some fl → core (set_trace (lg_trace l ++ late_trace fl rf ef) l).
Proof.
  intros [Hsh Hc Hsq Hsl Hex Hhp Htr] Hf. split; cbn -[late_trace]; try done.
  eapply traced_keep; [exact Htr|done|done| |]; unfold late_trace.
  - intros k. apply Forall_app. split; [by repeat constructor|]. apply Forall_app; split; apply quiet_calls.
  - intros cb. rewrite !accepted_app, !fired_app, !accepted_calls, !fired_calls.
    unfold accepted, fired; simpl. rewrite occ_app. change (occ cb []) with 0. lia.
Qed.

Lemma slot_len (p : option nat) : 0 ≤ len (slot p) ≤ 1.
Proof. destruct p; unfold len; simpl; lia. Qed.

Lemma subscribe_ok w fl rf ef l :
  core l → lg_flights l !! w_flight w = Some fl → fl_key fl = w_key w →
  rf ≠ None ∨ ef ≠ None →
  wp (subscribe w rf ef) (λ a l', core l' ∧ subscribe_spec (w_flight w) fl rf ef l a l') l.
Proof.
  intros H Hf Hk Hsome. unfold subscribe.
  destruct (sl_flight _ _ _ (co_slots _ _ H) _ fl Hf) as [Hwf Hper].
  pose proof (sl_per _ _ _ (co_slots _ _ H)) as Hp. pose proof (flight_slots_nonneg _ Hwf) as Hnn.
  assert (∀ (m : GoM ledger (option ledgerErr)) Q, wp m Q l →
    wp match rf, ef with None, None => mret (Some ErrRPCResultFlightInvalid) | _, _ => m end Q l) as Hgo.
  { intros m Q Hm. destruct rf, ef; try done. by destruct Hsome. }
  apply Hgo. clear Hgo. repeat wp_step. eapply wp_get_flight; [done|].
  change (sh_pending (shardAt (shardIndex (w_key w)) l) !! w_key w) with (pend (lg_shards l) (w_key w)).
  destruct (decide _) as [Ho|Ho].
  - destruct (shape_flight _ _ _ _ _ _ _ (co_shape _ _ H) Ho) as (fl0 & rv & Hf0 & _ & Hd & _).
    assert (fl0 = fl) as -> by congruence. clear Hf0. fold (waiting_execution fl ef).
    set (n := len (slot rf) + len (waiting_execution fl ef)).
    assert (0 ≤ n ≤ 2) as Hn.
    { assert (0 ≤ len (waiting_execution fl ef) ≤ 1); [|pose proof (slot_len rf); unfold n; lia].
      unfold waiting_execution. destruct (fl_executionDone fl); [done|apply slot_len]. }
    assert (∀ sub', sub_config (lg_subscriberBudget l) sub' → in_int64 (fl_subscriberSlots fl + n) →
      slots (<[w_flight w := joined fl rf ef]> (lg_flights l)) sub' (lg_subscriberPerFlight l) →
      wp (put_flight (w_flight w)
            (add_subscribers (slot rf) (waiting_execution fl ef) (fl_subscriberSlots fl +₆₄ n) fl) ;;
          emit [EvSubscribed (slot rf ++ slot ef)] ;;
          (if fl_executionDone fl then notify None false [] (fl_executionOK fl) (slot ef) else mret tt) ;;
          mret None)
        (λ a l', core l' ∧ subscribe_spec (w_flight w) fl rf ef l a l') (set_subscriberBudget sub' l)) as Hdone.
    { intros sub' Hcfg Hi Hsl. repeat lg_step. rewrite wrap64_id by done.
      assert (∀ l', l' = touched (w_flight w) (joined fl rf ef) sub' (joined_trace fl rf ef) l →
        core l' ∧ subscribe_spec (w_flight w) fl rf ef l None l') as Hfin.
      { intros l' ->. split; [by apply core_joined|by apply su_joined]. }
      unfold joined_trace in Hfin. destruct (fl_executionDone fl).
      - eapply wp_run; [apply notify_run|]. apply wp_ret. apply Hfin. unfold touched. cbn.
        by rewrite <- app_assoc.
      - repeat lg_step. apply Hfin. done. }
    assert (∀ x, 0 ≤ x ≤ max_int64 → in_int64 x) as Hin64.
    { intros. unfold in_int64, min_int64. assert (0 ≤ two63) by (vm_compute; congruence). lia. }
    destruct (0 <? n) eqn:Hpos; bool_facts.
    + rewrite (wrap64_id (lg_subscriberPerFlight l - n)) by (unfold in_int64, min_int64, max_int64, two63 in *; lia).
      destruct (_ <? fl_subscriberSlots fl) eqn:Hcap; bool_facts.
      { repeat wp_step. simpl. apply wp_ret. split; [done|]. by apply su_full. }
      wp_step. unfold on_subs. rewrite <- Hk.
      destruct (sub_reserve_flight _ _ _ _ fl n (co_slots _ _ H) Hf) as [Hres|(sub' & Hres & Hcfg & Hsl)].
      { split; [lia|]. apply Z.le_trans with 2; [lia|by vm_compute]. }
      * eapply wp_zoom; [unfold lift_pure; by rewrite Hres|]. simpl. apply wp_ret.
        rewrite set_subscriberBudget_id. split; [done|]. by apply su_full.
      * eapply wp_zoom; [unfold lift_pure; by rewrite Hres|]. simpl. apply Hdone; [done|apply Hin64; lia|].
        apply Hsl; [done|done|by apply joined_wf|simpl; fold n; lia].
    + wp_step. wp_step. simpl. specialize (Hdone (lg_subscriberBudget l)). rewrite set_subscriberBudget_id in Hdone.
      apply Hdone; [done|apply Hin64; lia|].
      eapply slots_touch; [apply H|done|done|simpl; fold n; lia|by apply joined_wf].
  - assert (fl_done fl = true) as Hd.
    { destruct (fl_done fl) eqn:Hd; [done|].
      destruct (sp_flight _ _ _ _ _ (co_shape _ _ H) _ _ Hf Hd) as [Hpend _]. by rewrite Hk in Hpend. }
    destruct (fw_done _ Hwf Hd) as [_ He]. rewrite Hd, He.
    replace (negb _ || negb _) with false by (by destruct rf, ef).
    repeat lg_step. eapply wp_run; [apply notify_run|]. repeat lg_step. eapply wp_run; [apply notify_run|].
    apply wp_ret.
    match goal with |- core_owing _ ?L ∧ _ =>
      assert (L = set_trace (lg_trace l ++ late_trace fl rf ef) l) as ->
        by (unfold late_trace; cbn; by rewrite <- !app_assoc) end.
    split; [by eapply core_late|by apply su_late].
Qed.
End ledger_ops.
