(* ===== verification/LedgerRun.v ===== *)
(** Runs of the ledger: any interleaving of its critical sections, from a new
    ledger.  A step is one section of one caller; [acquire], [Complete],
    [expireReceipts] and [forgetSession] are sequences of such sections, and time
    may pass between any two. *)

From S2P Require Import Prelude UsageMap FairBudget AdmissionTracker Ledger LedgerInv LedgerOps.

Open Scope Z_scope.

Section ledger_run.
Context {Ident : Type} `{EqDecision Ident} {Enc : Type}.
Context `{!ShardHash rpcExecutionKey}.
Context {FA FS SA SS : Type}.
Context `{!UsageMap Z rpcExecutionBudgetUsage FA} `{!UsageMapLaws Z rpcExecutionBudgetUsage FA}.
Context `{!UsageMap sessionKey rpcExecutionBudgetUsage FS}
        `{!UsageMapLaws sessionKey rpcExecutionBudgetUsage FS}.
Context `{!UsageMap Z Z SA} `{!UsageMapLaws Z Z SA}.
Context `{!UsageMap sessionKey Z SS} `{!UsageMapLaws sessionKey Z SS}.
Abbreviation ledger := (@rpcExecutionLedger Ident Enc FA FS SA SS).
Abbreviation flight := (@rpcResultFlight Ident Enc).
Abbreviation core := (core_owing nothing_owed).
Implicit Types (l : ledger) (k key : rpcExecutionKey).

Inductive section :=
  | Elapse (d : N)
  | AcquireAttempt (key : rpcExecutionKey) (requested : @rpcResultRequestIdentity Ident) (reclaimed : bool)
  | ExpireShard (i : nat)
  | ForgetShard (sk : sessionKey) (i : nat)
  | CompleteOnce (key : rpcExecutionKey) (encoded : Enc) (replayable : bool)
  | DoReplay (rpcResult : rpcExecutionKey → option Enc) (key : rpcExecutionKey)
  | DoAcknowledge (key : rpcExecutionKey)
  | DoObserve (key : rpcExecutionKey)
  | DoProfile (key : rpcExecutionKey)
  | DoSubscribe (w : rpcResultWaiter) (resultFn executionFn : option nat)
  | DoSetHook (x : nat) (fn : option nat)
  | DoInstallHook (x fn : nat)
  | DoHandOff (x : nat)
  | DoCompleteExecution (x : nat) (success : bool)
  | DoAbort (x : nat).

Definition void {A} (m : GoM ledger A) : GoM ledger () := m ;; mret tt.

Definition run_section (c : section) : GoM ledger () :=
  match c with
  | Elapse d => modify (λ l, set_now (lg_now l + Z.of_N d) l)
  | AcquireAttempt key requested reclaimed => void (acquire_attempt key requested reclaimed)
  | ExpireShard i => expireShard i
  | ForgetShard sk i => forgetShard sk i
  | CompleteOnce key encoded replayable => void (completeOnce key encoded replayable)
  | DoReplay rpcResult key => void (Replay rpcResult key)
  | DoAcknowledge key => void (Acknowledge key)
  | DoObserve key => void (ObserveDependency key)
  | DoProfile key => void (ExactAdmissionProfile key)
  | DoSubscribe w rf ef => void (subscribe w rf ef)
  | DoSetHook x fn => SetAbortHook x fn
  | DoInstallHook x fn => void (InstallAbortHook x fn)
  | DoHandOff x => void (HandOff x)
  | DoCompleteExecution x success => void (CompleteExecution x success)
  | DoAbort x => void (Abort x)
  end.

(** Callers hold leases and waiters the ledger handed out. *)
Definition waiter_ok (w : rpcResultWaiter) l : bool :=
  match lg_flights l !! w_flight w with
  | Some fl => bool_decide (fl_key fl = w_key w)
  | None => false
  end.
Definition lease_ok (x : nat) l : bool := bool_decide (is_Some (lg_leases l !! x)).

Definition section_ok (c : section) l : bool :=
  match c with
  | DoSubscribe w _ _ => waiter_ok w l
  | DoSetHook x _ | DoInstallHook x _ | DoHandOff x | DoCompleteExecution x _ | DoAbort x => lease_ok x l
  | _ => true
  end.

Inductive ledger_step l : ledger → Prop :=
  | ledger_section c l' : section_ok c l = true → run_section c l = Some (tt, l') → ledger_step l l'.

(** What no section undoes. *)
Record evolves l l' : Prop := {
  ev_config : same_config l l';
  ev_now : lg_now l ≤ lg_now l';
  ev_flights f fl : lg_flights l !! f = Some fl →
    ∃ fl', lg_flights l' !! f = Some fl' ∧ fl_key fl' = fl_key fl ∧ fl_identity fl' = fl_identity fl ∧
      (fl_done fl = true → fl' = fl);
  ev_leases x ls : lg_leases l !! x = Some ls →
    ∃ ls', lg_leases l' !! x = Some ls' ∧ ls_key ls' = ls_key ls ∧ ls_flight ls' = ls_flight ls;
  ev_trace : ∃ tr, lg_trace l' = lg_trace l ++ tr;
}.

#[export] Instance evolves_preorder : PreOrder evolves.
Proof.
  split.
  - intros l. split; [reflexivity|done|eauto 10|eauto 10|]. exists []. by rewrite app_nil_r.
  - intros l1 l2 l3 H H'. split.
    + etrans; [apply H|apply H'].
    + etrans; [apply H|apply H'].
    + intros f fl Hf. destruct (ev_flights _ _ H f fl Hf) as (fl2 & Hf2 & Hk2 & Hi2 & Hd2).
      destruct (ev_flights _ _ H' f fl2 Hf2) as (fl3 & Hf3 & Hk3 & Hi3 & Hd3).
      exists fl3. split_and!; [done|congruence|congruence|]. intros Hd.
      specialize (Hd2 Hd). subst fl2. auto.
    + intros x ls Hx. destruct (ev_leases _ _ H x ls Hx) as (ls2 & Hx2 & ? & ?).
      destruct (ev_leases _ _ H' x ls2 Hx2) as (ls3 & ? & ? & ?). exists ls3. split_and!; congruence.
    + destruct (ev_trace _ _ H) as [t Ht], (ev_trace _ _ H') as [t' Ht'].
      exists (t ++ t'). by rewrite Ht', Ht, app_assoc.
Qed.

Lemma reaped_evolves l l' : reaped l l' → evolves l l'.
Proof.
  intros H. split.
  - apply H.
  - by rewrite (re_now _ _ H).
  - intros f fl Hf. exists fl. by rewrite (re_flights _ _ H).
  - intros x ls Hx. exists ls. by rewrite (re_leases _ _ H).
  - destruct (re_trace _ _ H) as (ks & -> & _). eauto.
Qed.

(** An open flight replaced by one with the same key. *)
Lemma flights_insert (fs : gmap nat flight) f (fl fl' : flight) :
  fs !! f = Some fl → fl_done fl = false → fl_key fl' = fl_key fl → fl_identity fl' = fl_identity fl →
  ∀ g flg, fs !! g = Some flg → ∃ flg', <[f := fl']> fs !! g = Some flg' ∧ fl_key flg' = fl_key flg ∧
    fl_identity flg' = fl_identity flg ∧ (fl_done flg = true → flg' = flg).
Proof.
  intros Hf Hd Hk Hi g flg Hg. destruct (decide (g = f)) as [->|].
  - exists fl'. rewrite lookup_insert_eq. assert (flg = fl) as -> by congruence. split_and!; congruence.
  - exists flg. by rewrite lookup_insert_ne.
Qed.

Lemma leases_insert (xs : gmap nat rpcResultOwnerLease) x (ls ls' : rpcResultOwnerLease) :
  xs !! x = Some ls → ls_key ls' = ls_key ls → ls_flight ls' = ls_flight ls →
  ∀ y lsy, xs !! y = Some lsy → ∃ lsy', <[x := ls']> xs !! y = Some lsy' ∧ ls_key lsy' = ls_key lsy ∧
    ls_flight lsy' = ls_flight lsy.
Proof.
  intros Hx Hk Hf y lsy Hy. destruct (decide (y = x)) as [->|].
  - exists ls'. rewrite lookup_insert_eq. assert (lsy = ls) as -> by congruence. by split_and!.
  - exists lsy. by rewrite lookup_insert_ne.
Qed.

Lemma lease_update_evolves x ls ls' l :
  lg_leases l !! x = Some ls → ls_key ls' = ls_key ls → ls_flight ls' = ls_flight ls →
  evolves l (set_leases (<[x := ls']> (lg_leases l)) l).
Proof.
  intros Hx Hk Hf. split; cbn.
  - done.
  - done.
  - intros f fl Hfl. by exists fl.
  - by apply (leases_insert _ x ls).
  - exists []. by rewrite app_nil_r.
Qed.

Lemma touched_evolves f fl fl' sub' tr' l :
  lg_flights l !! f = Some fl → fl_done fl = false → fl_key fl' = fl_key fl → fl_identity fl' = fl_identity fl →
  sub_config (lg_subscriberBudget l) sub' → evolves l (touched f fl' sub' tr' l).
Proof.
  intros Hf Hd Hk Hi (? & ? & ?). split; cbn.
  - by split_and!.
  - done.
  - by apply (flights_insert _ f fl).
  - intros x ls Hx. by exists ls.
  - by exists tr'.
Qed.

Lemma aborted_evolves x ls fl b' t' sub' l :
  lg_leases l !! x = Some ls → lg_flights l !! ls_flight ls = Some fl → fl_done fl = false →
  fair_config (lg_fairBudget l) b' → sub_config (lg_subscriberBudget l) sub' →
  evolves l (aborted x ls fl b' t' sub' l).
Proof.
  intros Hx Hf Hd (? & ? & ? & ?) (? & ? & ?). split; cbn.
  - by split_and!.
  - done.
  - by apply (flights_insert _ _ fl).
  - by apply (leases_insert _ x ls).
  - by eexists.
Qed.

Lemma installed_evolves key requested seq l l' :
  core l → installed key requested seq l l' → evolves l l'.
Proof.
  intros H Hi. split.
  - apply Hi.
  - by rewrite (in_now _ _ _ _ _ Hi).
  - destruct (in_flights _ _ _ _ _ Hi) as (rv & ->). intros f fl Hf. exists fl.
    rewrite lookup_insert_ne; [done|]. intros <-.
    pose proof (hp_flight _ _ _ _ (co_heap _ _ H) _ (le_n _)). congruence.
  - rewrite (in_leases _ _ _ _ _ Hi). intros x ls Hx. exists ls.
    rewrite lookup_insert_ne; [done|]. intros <-.
    pose proof (hp_lease _ _ _ _ (co_heap _ _ H) (S (lg_next l)) ltac:(lia)). congruence.
  - rewrite (in_trace _ _ _ _ _ Hi). by eexists.
Qed.

Lemma attempt_evolves key requested reclaimed l a l' :
  core l → attempt_spec key requested reclaimed l a l' → evolves l l'.
Proof.
  intros H [| | | |b' ??? ? (?&?&?&?)|seq l'' ? ? ? ? Hi]; try reflexivity.
  - split; cbn; [by split_and!|done|by eauto 10|by eauto 10|]. exists []. by rewrite app_nil_r.
  - by eapply installed_evolves.
Qed.

Lemma pend_open l key f fl :
  core l → pend (lg_shards l) key = Some f → lg_flights l !! f = Some fl → fl_done fl = false ∧ fl_key fl = key.
Proof.
  intros H Hp Hf. destruct (shape_flight _ _ _ _ _ _ _ (co_shape _ _ H) Hp) as (fl0 & ? & Hf0 & ? & ? & _).
  assert (fl0 = fl) as -> by congruence. done.
Qed.

Lemma complete_evolves key encoded replayable l b l' :
  core l → complete_spec key encoded replayable l b l' → evolves l l'.
Proof.
  intros H [e ? | f fl l'' Hp Hf Hc | | b' ? ? (?&?&?&?)]; try reflexivity.
  - destruct (pend_open _ _ _ _ H Hp Hf) as [Hd Hk]. split.
    + apply Hc.
    + by rewrite (cp_now _ _ _ _ _ _ _ Hc).
    + rewrite (cp_flights _ _ _ _ _ _ _ Hc). by apply (flights_insert _ f fl).
    + rewrite (cp_leases _ _ _ _ _ _ _ Hc). eauto 10.
    + rewrite (cp_trace _ _ _ _ _ _ _ Hc). by eexists.
  - split; cbn; [by split_and!|done|by eauto 10|by eauto 10|]. exists []. by rewrite app_nil_r.
Qed.

Lemma swept_evolves P l l' : swept P l l' → evolves l l'.
Proof. intros (_ & H & _). by apply reaped_evolves. Qed.

Lemma swept_inv P l l' : settled l → swept P l l' → ledger_inv l'.
Proof. intros Hs (H & Hre & _). split; [done|]. by eapply reaped_settled. Qed.

Lemma guarded_inv key l l' : ledger_inv l → guarded key l l' → ledger_inv l' ∧ evolves l l'.
Proof.
  intros [H Hs] Hg. unfold guarded in Hg. destruct (reqMsgID key =? 0); [subst; by split; [split|]|].
  split; [by eapply swept_inv|by eapply swept_evolves].
Qed.

(** A section that changes only a lease, only an open flight, or only the trace
    keeps [settled]. *)
Lemma settled_same l l' :
  settled l → (∀ k, rcpt (lg_shards l') k = rcpt (lg_shards l) k) → lg_receipts l' = lg_receipts l → settled l'.
Proof. intros Hs Hr Hrs k e r. rewrite Hr, Hrs. apply Hs. Qed.

Definition good l l' : Prop := ledger_inv l' ∧ evolves l l'.

Lemma wp_void {A} (m : GoM ledger A) (Q : () → ledger → Prop) l : wp m (λ _ l', Q tt l') l → wp (void m) Q l.
Proof. intros Hm. unfold void. wp_step. eapply wp_mono; [exact Hm|]. by intros. Qed.

Lemma good_Elapse d l : ledger_inv l → good l (set_now (lg_now l + Z.of_N d) l).
Proof.
  intros [[Hsh Hc Hsq Hsl Hex Hhp Htr] Hs]. split.
  - split; [|exact Hs]. split; cbn; try done. destruct Hex as [He1 He2]. split; [done|].
    intros i e Hin. specialize (He2 i e Hin). lia.
  - split; cbn; [done|lia|eauto 10|eauto 10|]. exists []. by rewrite app_nil_r.
Qed.

Lemma good_attempt key requested reclaimed l :
  ledger_inv l → wp (acquire_attempt key requested reclaimed) (λ _, good l) l.
Proof.
  intros [H Hs]. eapply wp_mono; [by apply acquire_attempt_ok|].
  intros a l' (H' & Hs' & l1 & Hsw & Hspec). split; [by split|].
  etrans; [by eapply swept_evolves|]. eapply attempt_evolves; [apply Hsw|done].
Qed.

Lemma good_complete key encoded replayable l :
  ledger_inv l → wp (completeOnce key encoded replayable) (λ _, good l) l.
Proof.
  intros [H Hs]. eapply wp_mono; [by apply completeOnce_ok|].
  intros a l' (H' & Hs' & l1 & Hsw & Hspec). split; [by split|].
  etrans; [by eapply swept_evolves|]. eapply complete_evolves; [apply Hsw|done].
Qed.

Lemma good_ack key l : ledger_inv l → wp (Acknowledge key) (λ _, good l) l.
Proof.
  intros [H Hs]. destruct (decide (reqMsgID key = 0)) as [Hz|Hz].
  { unfold Acknowledge. rewrite Hz. apply wp_ret. by split; [split|reflexivity]. }
  eapply wp_mono; [by apply Acknowledge_ok|]. intros a l' (H' & Hs' & l1 & Hsw & Hspec).
  split; [by split|]. etrans; [by eapply swept_evolves|].
  destruct Hspec as [e l'' ? Hsw2 ?|f fl Hr Hp Hf|]; [by eapply swept_evolves| |reflexivity].
  destruct (pend_open _ _ _ _ (proj1 Hsw) Hp Hf). by eapply touched_evolves.
Qed.

Lemma good_subscribe w rf ef l :
  ledger_inv l → waiter_ok w l = true → wp (subscribe w rf ef) (λ _, good l) l.
Proof.
  intros [H Hs] Hw. unfold waiter_ok in Hw.
  destruct (lg_flights l !! w_flight w) as [fl|] eqn:Hf; [|done]. bool_facts.
  destruct (decide (rf = None ∧ ef = None)) as [[-> ->]|Hne].
  { apply wp_ret. by split; [split|reflexivity]. }
  eapply wp_mono; [apply (subscribe_ok w fl); [done|done|done|]|].
  { destruct rf; [by left|]. destruct ef; [by right|]. by destruct Hne. }
  intros a l' [H' Hspec]. destruct Hspec as [sub' Hd Hc| |Hd].
  - split; [split; [done|]|].
    + by apply (settled_same l).
    + by eapply touched_evolves.
  - by split; [split|reflexivity].
  - split; [split; [done|by apply (settled_same l)]|].
    split; cbn; [done|done|eauto 10|eauto 10|by eexists].
Qed.

Lemma good_lease x ls ls' l :
  ledger_inv l → core (set_leases (<[x := ls']> (lg_leases l)) l) → lg_leases l !! x = Some ls →
  ls_key ls' = ls_key ls → ls_flight ls' = ls_flight ls → good l (set_leases (<[x := ls']> (lg_leases l)) l).
Proof. intros [H Hs] Hc Hx Hk Hf. split; [by split|]. by eapply lease_update_evolves. Qed.

Lemma lease_ok_Some x l : lease_ok x l = true → ∃ ls, lg_leases l !! x = Some ls.
Proof. unfold lease_ok. intros [ls ?]%bool_decide_eq_true_1. by exists ls. Qed.

Lemma good_refl l : ledger_inv l → good l l.
Proof. intros. by split; [|reflexivity]. Qed.

Lemma good_abort x ls l : ledger_inv l → lg_leases l !! x = Some ls → wp (Abort x) (λ _, good l) l.
Proof.
  intros [H Hs] Hx. eapply wp_mono; [by eapply Abort_ok|]. intros [] l' [H' Hpost].
  - destruct Hpost as (_ & Ho & fl & b' & t' & sub' & Hf & ? & ? & ->).
    destruct (pend_open _ _ _ _ H Ho Hf) as [Hd _]. split.
    + split; [done|]. apply (settled_same l); [done| |done]. intros k. cbn. by rewrite rcpt_unclaimed.
    + by apply aborted_evolves.
  - destruct Hpost as [-> _]. by apply good_refl.
Qed.

Lemma good_execution x success ls l :
  ledger_inv l → lg_leases l !! x = Some ls → wp (CompleteExecution x success) (λ _, good l) l.
Proof.
  intros [H Hs] Hx. eapply wp_mono; [by eapply CompleteExecution_ok|]. intros [] l' [H' Hpost].
  - destruct Hpost as (Ho & fl & sub' & Hf & Hd & ? & ->).
    destruct (pend_open _ _ _ _ H Ho Hf) as [Hdone _]. split.
    + split; [done|]. by apply (settled_same l).
    + by eapply touched_evolves.
  - destruct Hpost as [-> _]. by apply good_refl.
Qed.

(** Every section runs to the end and keeps the invariant. *)
Lemma section_good c l :
  ledger_inv l → section_ok c l = true → wp (run_section c) (λ _, good l) l.
Proof.
  intros Hinv Hok. pose proof Hinv as [H Hs]. destruct c; simpl in *.
  - apply wp_modify. by apply good_Elapse.
  - by apply wp_void, good_attempt.
  - eapply wp_mono; [by apply expireShard_ok|]. intros [] l' Hsw.
    split; [by eapply swept_inv|by eapply swept_evolves].
  - eapply wp_mono; [by apply forgetShard_ok|]. intros [] l' Hsw.
    split; [by eapply swept_inv|by eapply swept_evolves].
  - by apply wp_void, good_complete.
  - apply wp_void. eapply wp_mono; [by apply Replay_ok|]. intros a l' [Hg _]. by eapply guarded_inv.
  - by apply wp_void, good_ack.
  - apply wp_void. eapply wp_mono; [by apply ObserveDependency_ok|]. intros a l' [Hg _]. by eapply guarded_inv.
  - apply wp_void. eapply wp_mono; [by apply ExactAdmissionProfile_ok|]. intros a l' [Hg _].
    by eapply guarded_inv.
  - by apply wp_void, good_subscribe.
  - destruct (lease_ok_Some _ _ Hok) as [ls Hx]. eapply wp_mono; [by eapply SetAbortHook_ok|].
    intros [] l' [Hc ->]. by eapply good_lease.
  - destruct (lease_ok_Some _ _ Hok) as [ls Hx]. apply wp_void. eapply wp_mono; [by eapply InstallAbortHook_ok|].
    intros [] l' (Hc & _ & ->); [by eapply good_lease|by apply good_refl].
  - destruct (lease_ok_Some _ _ Hok) as [ls Hx]. apply wp_void. eapply wp_mono; [by eapply HandOff_ok|].
    intros [] l' (Hc & _ & ->); [by eapply good_lease|by apply good_refl].
  - destruct (lease_ok_Some _ _ Hok) as [ls Hx]. by eapply wp_void, good_execution.
  - destruct (lease_ok_Some _ _ Hok) as [ls Hx]. by eapply wp_void, good_abort.
Qed.

Lemma step_good l l' : ledger_step l l' → ledger_inv l → good l l'.
Proof.
  intros [c l'' Hok Hrun] Hinv. pose proof (section_good c l Hinv Hok) as Hwp.
  apply wp_Some in Hwp as ([] & l2 & Hrun2 & Hg). congruence.
Qed.

Lemma steps_good l l' : rtc ledger_step l l' → ledger_inv l → good l l'.
Proof.
  induction 1 as [l|l l1 l2 Hst Hrun IH]; intros Hinv; [by apply good_refl|].
  destruct (step_good _ _ Hst Hinv) as [Hinv1 He1]. destruct (IH Hinv1) as [Hinv2 He2].
  split; [done|]. by etrans.
Qed.

(** ** A new ledger *)

Definition capacity_ok (c : rpcExecutionLedgerCapacity) : Prop :=
  maxPending c ≤ max_int64 ∧ maxPendingPerAuth c ≤ max_int64 ∧ globalMaxEntries c ≤ max_int64 ∧
  authMaxEntries c ≤ max_int64 ∧ sessionMaxEntries c ≤ max_int64 ∧ subscriberMaxGlobal c ≤ max_int64 ∧
  subscriberMaxAuth c ≤ max_int64 ∧ subscriberMaxSession c ≤ max_int64 ∧ subscriberMaxPerFlight c ≤ max_int64.

Lemma positive_or_range n d : n ≤ max_int64 → 0 < d ≤ max_int64 → 0 < positive_or n d ≤ max_int64.
Proof. unfold positive_or. intros. destruct (n <=? 0) eqn:E; bool_facts; lia. Qed.

Lemma defaults_range c : capacity_ok c → let d := with_defaults c in
  (0 < maxPending d ≤ max_int64 ∧ 0 < maxPendingPerAuth d ≤ max_int64 ∧ 0 < globalMaxEntries d ≤ max_int64 ∧
   0 < authMaxEntries d ≤ max_int64 ∧ 0 < sessionMaxEntries d ≤ max_int64) ∧
  (0 < subscriberMaxGlobal d ≤ max_int64 ∧ 0 < subscriberMaxAuth d ≤ max_int64 ∧
   0 < subscriberMaxSession d ≤ max_int64 ∧ 0 < subscriberMaxPerFlight d ≤ max_int64).
Proof.
  intros (? & ? & ? & ? & ? & ? & ? & ? & ?). simpl.
  split_and!; repeat (apply positive_or_range; [done|]); done || (split; by vm_compute).
Qed.

Lemma new_ledger_inv (fa : FA) (fs : FS) (sa : SA) (ss : SS) now c :
  (∀ a, um_get a fa = None) → (∀ sk, um_get sk fs = None) →
  (∀ a, um_get a sa = None) → (∀ sk, um_get sk ss = None) → capacity_ok c →
  ledger_inv (newRPCExecutionLedger fa fs sa ss now c : ledger).
Proof.
  intros Hfa Hfs Hsa Hss Hc. pose proof (defaults_range c Hc) as [(? & ? & ? & ? & ?) (? & ? & ? & ?)].
  assert (∀ i, sh (∅ : gmap nat rpcExecutionLedgerShard) i = shard0) as Hsh.
  { intros i. unfold sh. by rewrite lookup_empty. }
  assert (∀ k, pend ∅ k = None ∧ rcpt ∅ k = None) as Hv.
  { intros k. unfold pend, rcpt. by rewrite Hsh. }
  assert (∀ i, ord ∅ i = []) as Ho. { intros i. unfold ord. by rewrite Hsh. }
  assert (∀ k, pend ∅ k = None) as Hp by apply Hv. assert (∀ k, rcpt ∅ k = None) as Hr by apply Hv.
  split; [|intros k e r; simpl; by rewrite Hr]. split; cbn.
  - split.
    + intros f fl. by rewrite lookup_empty.
    + intros k f. by rewrite Hp.
    + intros i. rewrite Ho. constructor.
    + intros i e. rewrite Ho. by intros []%elem_of_nil.
    + intros k e. by rewrite Hr.
    + intros rv o _. by rewrite lookup_empty.
  - split; cbn; try done.
    + apply newFair_inv; done || (simpl in *; lia).
    + unfold limit_wf; simpl in *. lia.
  - split.
    + by vm_compute.
    + intros i s. unfold tr_shard; simpl. rewrite lookup_empty. set_solver.
    + intros f fl. by rewrite lookup_empty.
    + intros s. unfold tr_active, tr_shard; simpl. rewrite lookup_empty. split; [set_solver|].
      intros (f & fl & Hf & _). by rewrite lookup_empty in Hf.
    + intros f1 f2 fl1 fl2 Hf. by rewrite lookup_empty in Hf.
  - split.
    + done.
    + intros f fl. by rewrite lookup_empty.
    + split; cbn.
      * simpl in *; lia.
      * unfold limit_wf; simpl in *. split; [lia|]. by rewrite sum_map_empty.
      * intros a. unfold sub_authSnapshot, capped; simpl. rewrite Hsa, sum_map_empty. simpl. split_and!; done || lia.
      * intros sk. unfold sub_sessionSnapshot, capped; simpl. rewrite Hss, sum_map_empty. simpl. split_and!; done || lia.
  - split; intros i; rewrite Ho; [constructor|by intros e []%elem_of_nil].
  - split; try (intros a; by rewrite lookup_empty).
  - split.
    + intros k. exists false. split; [done|]. split; [done|]. rewrite Hp. by intros [].
    + intros cb. unfold nothing_owed. by rewrite sum_map_empty.
Qed.

(** A concrete run; [None] when a section is not allowed or panics. *)
Fixpoint run_sections (cs : list section) l : option ledger :=
  match cs with
  | [] => Some l
  | c :: cs' =>
      if section_ok c l then
        match run_section c l with Some (_, l') => run_sections cs' l' | None => None end
      else None
  end.

Lemma run_sections_reachable cs l l' : run_sections cs l = Some l' → rtc ledger_step l l'.
Proof.
  revert l. induction cs as [|c cs IH]; intros l; simpl; [by intros [= ->]|].
  destruct (section_ok c l) eqn:Hok; [|done]. destruct (run_section c l) as [[[] l1]|] eqn:Hrun; [|done].
  intros Hr. eapply rtc_l; [by eapply ledger_section|by apply IH].
Qed.
End ledger_run.
