(* ===== verification/LedgerProps.v ===== *)
(** What the ledger promises: the theorems about every state a new ledger can
    reach, with its tables sharded by any hash. *)

From S2P Require Import Prelude UsageMap FairBudget AdmissionTracker Ledger LedgerInv LedgerOps LedgerRun.

Open Scope Z_scope.

Section ledger_props.
Context {Ident : Type} `{EqDecision Ident} {Enc : Type}.
Context `{!ShardHash rpcExecutionKey} `{!ShardHash Z} `{!ShardHash sessionKey}.
Abbreviation ledger := (@rpcExecutionLedger Ident Enc
  (sharded Z rpcExecutionBudgetUsage) (sharded sessionKey rpcExecutionBudgetUsage)
  (sharded Z Z) (sharded sessionKey Z)).
Abbreviation flight := (@rpcResultFlight Ident Enc).
Abbreviation core := (core_owing nothing_owed).
Implicit Types (l : ledger) (k key : rpcExecutionKey).

Definition new_ledger (now : Z) (c : rpcExecutionLedgerCapacity) : ledger :=
  newRPCExecutionLedger (Sharded ∅) (Sharded ∅) (Sharded ∅) (Sharded ∅) now c.

Definition reachable (now : Z) (c : rpcExecutionLedgerCapacity) l : Prop :=
  rtc ledger_step (new_ledger now c) l.

Lemma new_inv now c : capacity_ok c → ledger_inv (new_ledger now c).
Proof. intros. apply new_ledger_inv; try done; intros; apply um_get_sharded_empty. Qed.

Lemma reachable_inv now c l : capacity_ok c → reachable now c l → ledger_inv l.
Proof. intros Hc Hr. by apply (steps_good _ _ Hr), new_inv. Qed.

Lemma reachable_config now c l : capacity_ok c → reachable now c l → same_config (new_ledger now c) l.
Proof. intros Hc Hr. by apply (steps_good _ _ Hr), new_inv. Qed.

(** The number of callbacks a ledger retains. *)
Definition retained l : Z := sum_map fl_subscriberSlots (lg_flights l).

(** C4: the ledger never panics and keeps its capacities.  In every state any
    interleaving of its critical sections can reach, each further section - of
    any caller, on any key - runs to the end: no counter underflows, no
    sequence is retired twice, no pointer dangles.  Meanwhile open flights stay
    within [maxPending], flights and receipts together within
    [globalMaxEntries], every auth key and session within its rows, and the
    retained callbacks within theirs. *)
Theorem ledger_never_panics now (c : rpcExecutionLedgerCapacity) l :
  capacity_ok c → reachable now c l →
  (∀ s, section_ok s l = true → ∃ l', run_section s l = Some (tt, l')) ∧
  let d := with_defaults c in
  sum_map open_flight (lg_flights l) ≤ maxPending d ∧
  sum_map open_flight (lg_flights l) + sum_map shard_receipts (lg_shards l) ≤ globalMaxEntries d ∧
  (∀ a, us_entries (authSnapshot a (lg_fairBudget l)) ≤ authMaxEntries d ∧
        us_pending (authSnapshot a (lg_fairBudget l)) ≤ maxPendingPerAuth d) ∧
  (∀ sk, us_entries (sessionSnapshot sk (lg_fairBudget l)) ≤ sessionMaxEntries d) ∧
  retained l ≤ subscriberMaxGlobal d ∧
  (∀ f fl, lg_flights l !! f = Some fl →
     len (fl_subscribers fl) + len (fl_executionSubscribers fl) ≤ subscriberMaxPerFlight d).
Proof.
  intros Hc Hr. pose proof (reachable_inv _ _ _ Hc Hr) as Hinv.
  split.
  { intros s Hok. pose proof (section_good s l Hinv Hok) as Hwp.
    apply wp_Some in Hwp as ([] & l' & ? & _). by exists l'. }
  destruct Hinv as [H _].
  pose proof (reachable_config _ _ _ Hc Hr) as (E1 & E2 & E3 & E4 & E5 & E6 & E7 & E8 & E9).
  simpl in E1, E2, E3, E4, E5, E6, E7, E8, E9.
  destruct (co_counts _ _ H) as [Hfair Hlim Hused Hcount Htotal].
  pose proof (defaults_range c Hc) as [(P1 & P2 & P3 & P4 & P5) (P6 & P7 & P8 & P9)].
  assert (∀ n m, capped n m → 0 < m → n ≤ m) as Hcap by (intros n m [? [?|?]] ?; lia).
  split_and!.
  - rewrite <- Hused. destruct Hlim as (_ & _ & Hl). simpl in *. lia.
  - rewrite <- Hused, <- Hcount. destruct (bi_global _ Hfair) as (_ & _ & Hl). simpl in *. lia.
  - intros a. destruct (bi_auth _ Hfair a) as (_ & _ & Ha & Hp). rewrite E4 in Ha. rewrite E6 in Hp.
    split; apply Hcap; done || (simpl in *; lia).
  - intros sk. destruct (bi_session _ Hfair sk) as (_ & _ & Hs). rewrite E5 in Hs.
    apply Hcap; done || (simpl in *; lia).
  - unfold retained. destruct (si_global _ _ _ _ (sl_sub _ _ _ (co_slots _ _ H))) as [(_ & _ & Hl) <-].
    simpl in *. lia.
  - intros f fl Hf. destruct (sl_flight _ _ _ (co_slots _ _ H) f fl Hf) as [Hwf Hle].
    rewrite <- (fw_slots _ Hwf). simpl in *. lia.
Qed.

(** ** Claims *)

Lemma claim_fold_None k (tr : list (@event Enc)) : foldl (λ o ev, o ≫= claim_event k ev) None tr = None.
Proof. by induction tr. Qed.

(** A held claim is handed out again only after it was given back. *)
Lemma claim_fold_released k (tr tr' : list (@event Enc)) held :
  foldl (λ o ev, o ≫= claim_event k ev) (Some true) (tr ++ EvOwner k :: tr') = Some held →
  EvAborted k ∈ tr ∨ EvForgotten k ∈ tr.
Proof.
  induction tr as [|ev tr IH]; simpl.
  { rewrite decide_True by done. by rewrite claim_fold_None. }
  rewrite !elem_of_cons.
  assert (ev = EvAborted k ∨ ev = EvForgotten k ∨ claim_event k ev true = Some true ∨
          claim_event k ev true = None) as [-> |[-> |[-> | ->]]].
  { destruct ev; simpl; auto; case_decide; subst; auto. }
  - auto.
  - auto.
  - intros Hrun. destruct (IH Hrun); auto.
  - by rewrite claim_fold_None.
Qed.

(** C3: a request is claimed by one owner at a time.  In the trace of any
    reachable ledger, between two hand-outs of the same key's claim the first
    owner's was given back, by its [Abort] or by the removal of the receipt its
    completion left - the business handler never runs twice otherwise. *)
Theorem claims_are_exclusive now (c : rpcExecutionLedgerCapacity) l k t1 t2 t3 :
  capacity_ok c → reachable now c l →
  lg_trace l = t1 ++ EvOwner k :: t2 ++ EvOwner k :: t3 →
  EvAborted k ∈ t2 ∨ EvForgotten k ∈ t2.
Proof.
  intros Hc Hr Ht. destruct (reachable_inv _ _ _ Hc Hr) as [H _].
  destruct (tc_claim _ _ _ _ (co_traced _ _ H) k) as (held & Hrun & _).
  unfold claim_run in Hrun. rewrite Ht, foldl_app in Hrun. simpl in Hrun.
  destruct (foldl _ (Some false) t1) as [[]|]; simpl in Hrun; rewrite ?decide_True in Hrun by done;
    rewrite ?claim_fold_None in Hrun; [done| |done].
  by eapply claim_fold_released.
Qed.

(** ** Acquiring *)

(** What a caller of [acquire] learns, against the state before and after. *)
Definition acquire_outcome (rpcResult : rpcExecutionKey → option Enc) key
    (requested : @rpcResultRequestIdentity Ident) l l' (r : res ledgerErr (@rpcResultAcquire Enc)) : Prop :=
  match r with
  | OK a =>
      match acq_state a with
      | rpcResultAcquireOwner =>
          (* nobody runs it and no live receipt answers it; now this caller does *)
          pend (lg_shards l) key = None ∧ live_receipt key l = None ∧
          ∃ f x rv, acq_owner a = Some x ∧ pend (lg_shards l') key = Some f ∧
            lg_flights l' !! f = Some (newFlight key requested (acq_admissionSeq a) rv) ∧
            lg_leases l' !! x = Some (mkLease key f None false)
      | rpcResultAcquirePending =>
          ∃ f fl, pend (lg_shards l) key = Some f ∧ lg_flights l !! f = Some fl ∧
            matches (fl_identity fl) requested = true ∧ fl_acknowledged fl = false ∧
            acq_waiter a = Some (mkWaiter key f) ∧ acq_admissionSeq a = fl_admissionSeq fl
      | rpcResultAcquireAcknowledged =>
          ∃ f fl, pend (lg_shards l) key = Some f ∧ lg_flights l !! f = Some fl ∧
            matches (fl_identity fl) requested = true ∧ fl_acknowledged fl = true ∧
            acq_executionKnown a = fl_executionDone fl ∧ acq_executionOK a = fl_executionOK fl
      | rpcResultAcquireCompleted =>
          ∃ r encoded, live_receipt key l = Some r ∧ matches (rc_identity r) requested = true ∧
            rc_unavailable r = false ∧ rpcResult key = Some encoded ∧ acq_encoded a = Some encoded ∧
            acq_executionKnown a = rc_executionKnown r ∧ acq_executionOK a = rc_executionOK r
      end
  | ERR e =>
      lg_flights l' = lg_flights l ∧ pend (lg_shards l') key = pend (lg_shards l) key ∧
      match e with
      | ErrRPCResultIdentityMismatch _ _ =>
          (∃ r, live_receipt key l = Some r ∧ matches (rc_identity r) requested = false) ∨
          (∃ f fl, pend (lg_shards l) key = Some f ∧ lg_flights l !! f = Some fl ∧
             matches (fl_identity fl) requested = false)
      | ErrRPCResultReplayUnavailable => rpcResult key = None ∧ is_Some (live_receipt key l)
      | ErrRPCResultFlightCapacity =>
          (∃ r, live_receipt key l = Some r ∧ rc_unavailable r = true) ∨
          (pend (lg_shards l) key = None ∧ live_receipt key l = None)
      | ErrRPCAdmissionSeqExhausted =>
          id_valid requested = true ∧ lg_nextAdmissionSeq l = max_uint64 ∧
          pend (lg_shards l) key = None ∧ live_receipt key l = None
      | _ => False
      end
  end.

(** A receipt left after reaping was live, and the other way round. *)
Lemma live_receipt_reaped key l l0 :
  reaped l l0 → core l →
  (∀ e r0, rcpt (lg_shards l0) key = Some e → lg_receipts l0 !! e = Some r0 → lg_now l < rc_expiresAt r0) →
  (∀ k e r0, rcpt (lg_shards l) k = Some e → lg_receipts l !! e = Some r0 →
     lg_now l < rc_expiresAt r0 → rcpt (lg_shards l0) k = Some e) →
  live_receipt key l = rcpt (lg_shards l0) key ≫= λ e, lg_receipts l0 !! e.
Proof.
  intros Hre H Hlive Hkept. unfold live_receipt.
  destruct (rcpt (lg_shards l) key) as [e|] eqn:Hk; simpl.
  - destruct (core_receipt l key e H Hk) as (r & Hr & _). rewrite Hr.
    destruct (lg_now l <? rc_expiresAt r) eqn:Hlt; bool_facts.
    + pose proof (Hkept key e r Hk Hr Hlt) as Hk0. rewrite Hk0. simpl.
      by rewrite (re_receipts _ _ Hre key e Hk0).
    + destruct (rcpt (lg_shards l0) key) as [e'|] eqn:Hk0; [|done]. simpl.
      destruct (re_rcpt _ _ Hre key) as [Hs|Hs]; [|congruence].
      rewrite Hk0, Hk in Hs. injection Hs as ->.
      pose proof (re_receipts _ _ Hre key e Hk0) as Hr0.
      assert (lg_now l < rc_expiresAt r); [|lia]. apply (Hlive e r); congruence.
  - destruct (re_rcpt _ _ Hre key) as [-> | ->]; [by rewrite Hk|done].
Qed.

(** [acquire] returns, within two turns of its loop, and what it returns
    is true.  It makes the caller the owner only when no flight is pending and no
    unexpired receipt answers, and then the caller's lease is the pending claim;
    it lets the caller wait only on the pending flight of the same request; it
    reports a result only with the payload the outbox still holds; each error
    leaves every flight and the key's claim as they were and has its cause. *)
Theorem acquire_answers now (c : rpcExecutionLedgerCapacity) l rpcResult key requested (n : nat) :
  capacity_ok c → reachable now c l → reqMsgID key ≠ 0 →
  ∃ r l', acquire (2 + n) rpcResult key requested l = Some (Some r, l') ∧
    ledger_inv l' ∧ acquire_outcome rpcResult key requested l l' r.
Proof.
  intros Hc Hr Hz. destruct (reachable_inv _ _ _ Hc Hr) as [H Hs].
  pose proof (acquire_loop_ok n key requested l H Hs) as Hwp.
  apply wp_Some in Hwp as (o & l' & Hrun & H' & Hs' & r & l0 & reclaimed & -> & Hre & Hlive & Hkept & Hspec).
  unfold acquire. rewrite (proj2 (Z.eqb_neq _ _) Hz). unfold mbind, GoM_bind. simpl plus. rewrite Hrun.
  exists (match r with OK a => with_replay rpcResult key a | ERR e => ERR e end), l'.
  split; [by destruct r|]. split; [by split|].
  pose proof (live_receipt_reaped key l l0 Hre H Hlive Hkept) as Hlr.
  pose proof (re_pend _ _ Hre key) as Hp0. pose proof (re_flights _ _ Hre) as Hf0.
  assert (¬ claimed (lg_shards l0) key → pend (lg_shards l) key = None ∧ live_receipt key l = None) as Hfree.
  { intros Hn. rewrite Hlr, <- Hp0. destruct (pend _ key) eqn:?; [destruct Hn; left; eauto|].
    destruct (rcpt _ key) eqn:?; [destruct Hn; right; eauto|done]. }
  inversion Hspec as [e rr Hk Hrr|f fl Hk Hp Hf|Hn Hfull|Hn Hroom Heq|b' Hn Hroom Hv Hmax Hcfg|seq l'' Hn Hroom Hseq Hne Hin];
    subst; simpl.
  - rewrite Hk in Hlr; simpl in Hlr. rewrite Hrr in Hlr. unfold receipt_answer.
    destruct (matches _ _) eqn:Hm; simpl; [|rewrite Hp0, Hf0; eauto 10].
    destruct (rc_unavailable rr) eqn:Hu; simpl; [rewrite Hp0, Hf0; eauto 10|].
    unfold with_replay; simpl. destruct (rpcResult key) as [encoded|] eqn:He; simpl; [|rewrite Hp0, Hf0; eauto 10].
    exists rr, encoded. by split_and!.
  - rewrite Hp0 in Hp. rewrite Hf0 in Hf. unfold flight_answer.
    destruct (matches _ _) eqn:Hm; simpl; [|rewrite Hp0, Hf0; eauto 10].
    destruct (fl_acknowledged fl) eqn:Ha; simpl; exists f, fl; by split_and!.
  - rewrite Hp0, Hf0. auto.
  - destruct reclaimed; [|done]. simplify_eq. simpl. rewrite Hp0, Hf0. auto.
  - rewrite Hp0, Hf0. destruct (Hfree Hn), (re_admissions _ _ Hre) as [? _]. split_and!; congruence.
  - destruct (Hfree Hn). split; [done|]. split; [done|].
    destruct (in_flights _ _ _ _ _ Hin) as (rv & Hfl). exists (lg_next l0), (S (lg_next l0)), rv.
    split; [done|]. rewrite (in_shards _ _ _ _ _ Hin), pend_claim, decide_True by done. split; [done|].
    rewrite Hfl, lookup_insert_eq. split; [done|]. rewrite (in_leases _ _ _ _ _ Hin). apply lookup_insert_eq.
Qed.

(** ** What is over stays over *)

Lemma run_of_wp {A} (m : GoM ledger A) (Q : A → ledger → Prop) l :
  wp m Q l → ∃ a l', m l = Some (a, l') ∧ Q a l'.
Proof. apply wp_Some. Qed.

(** A lease that does not hold the pending claim has a flight that is over. *)
Lemma stale_done x ls l :
  core l → lg_leases l !! x = Some ls → ¬ owns ls l →
  ∃ fl, lg_flights l !! ls_flight ls = Some fl ∧ fl_done fl = true.
Proof.
  intros H Hx Ho. destruct (hp_owned _ _ _ _ (co_heap _ _ H) x ls Hx) as (fl & Hf & Hk).
  exists fl. split; [done|]. destruct (fl_done fl) eqn:Hd; [done|].
  destruct (sp_flight _ _ _ _ _ (co_shape _ _ H) _ _ Hf Hd) as [Hp _]. destruct Ho. unfold owns.
  by rewrite Hk in Hp.
Qed.

(** what is over stays over.  Once a lease has lost its claim - aborted or
    completed - it never holds one again, even after the same key is claimed
    anew: from then on its [Abort], [HandOff], [CompleteExecution] and
    [InstallAbortHook] return false and change nothing.  And once a flight is
    done, what its waiters read never changes. *)
Theorem finished_is_final now (c : rpcExecutionLedgerCapacity) l l' :
  capacity_ok c → reachable now c l → rtc ledger_step l l' →
  (∀ x ls ls', lg_leases l !! x = Some ls → ¬ owns ls l → lg_leases l' !! x = Some ls' →
     ¬ owns ls' l' ∧
     Abort x l' = Some (false, l') ∧ HandOff x l' = Some (false, l') ∧
     (∀ success, CompleteExecution x success l' = Some (false, l')) ∧
     (∀ fn, InstallAbortHook x fn l' = Some (false, l'))) ∧
  (∀ w fl, lg_flights l !! w_flight w = Some fl → fl_done fl = true →
     poll w l' = Some (Some (fl_encoded fl, fl_ok fl), l')).
Proof.
  intros Hc Hr Hst. pose proof (reachable_inv _ _ _ Hc Hr) as Hinv.
  destruct (steps_good _ _ Hst Hinv) as [[H' Hs'] Hev]. destruct Hinv as [H Hs].
  assert (∀ f fl, lg_flights l !! f = Some fl → fl_done fl = true → lg_flights l' !! f = Some fl) as Hfinal.
  { intros f fl Hf Hd. destruct (ev_flights _ _ Hev f fl Hf) as (fl' & Hf' & _ & _ & Heq).
    by rewrite <- (Heq Hd). }
  split.
  - intros x ls ls' Hx Ho Hx'. destruct (stale_done x ls l H Hx Ho) as (fl & Hf & Hd).
    destruct (ev_leases _ _ Hev x ls Hx) as (ls2 & Hx2 & Hk & Hfl).
    rewrite Hx' in Hx2; injection Hx2 as <-.
    assert (¬ owns ls' l') as Ho'.
    { intros Hp. destruct (shape_flight _ _ _ _ _ _ _ (co_shape _ _ H') Hp) as (fl' & rv & Hf' & _ & Hd' & _).
      rewrite Hfl, (Hfinal _ _ Hf Hd) in Hf'. congruence. }
    split; [done|]. split_and!.
    + destruct (run_of_wp _ _ _ (Abort_ok x ls' l' H' Hx')) as ([] & l2 & Hrun & _ & Hpost).
      * by destruct Hpost as (_ & ? & _).
      * destruct Hpost as [-> _]. done.
    + destruct (run_of_wp _ _ _ (HandOff_ok x ls' l' H' Hx')) as (b & l2 & Hrun & _ & -> & ->).
      by rewrite bool_decide_eq_false_2 in Hrun.
    + intros success.
      destruct (run_of_wp _ _ _ (CompleteExecution_ok x success ls' l' H' Hx')) as ([] & l2 & Hrun & _ & Hpost).
      * by destruct Hpost as (? & _).
      * destruct Hpost as [-> _]. done.
    + intros fn. destruct (run_of_wp _ _ _ (InstallAbortHook_ok x fn ls' l' H' Hx')) as (b & l2 & Hrun & _ & -> & ->).
      by rewrite bool_decide_eq_false_2 in Hrun.
  - intros w fl Hf Hd. unfold poll, get_flight, mbind, GoM_bind, gets, unwrap.
    rewrite (Hfinal _ _ Hf Hd). unfold mret, GoM_ret. by rewrite Hd.
Qed.

(** ** Callbacks *)

(** C5: every accepted callback runs exactly once.  In every reachable state,
    a callback has been accepted as often as it has run plus as often as it
    waits in an open flight; a flight that is over has none left; so when no
    flight is open, each accepted callback has run exactly once - whatever the
    order of completions, aborts, acknowledgements and late subscriptions. *)
Theorem callbacks_run_exactly_once now (c : rpcExecutionLedgerCapacity) l :
  capacity_ok c → reachable now c l →
  (∀ cb, accepted cb (lg_trace l) = fired cb (lg_trace l) + sum_map (waiting cb) (lg_flights l)) ∧
  (∀ f fl, lg_flights l !! f = Some fl → fl_done fl = true →
     fl_subscribers fl = [] ∧ fl_executionSubscribers fl = []) ∧
  (sum_map open_flight (lg_flights l) = 0 → ∀ cb, accepted cb (lg_trace l) = fired cb (lg_trace l)).
Proof.
  intros Hc Hr. destruct (reachable_inv _ _ _ Hc Hr) as [H _].
  assert (∀ f fl, lg_flights l !! f = Some fl → fl_done fl = true →
     fl_subscribers fl = [] ∧ fl_executionSubscribers fl = []) as Hdone.
  { intros f fl Hf Hd. destruct (sl_flight _ _ _ (co_slots _ _ H) f fl Hf) as [Hwf _].
    destruct (fw_done _ Hwf Hd) as [? He]. split; [done|]. by apply (fw_executed _ Hwf). }
  assert (∀ cb, accepted cb (lg_trace l) = fired cb (lg_trace l) + sum_map (waiting cb) (lg_flights l)) as Hn.
  { intros cb. rewrite (tc_notify _ _ _ _ (co_traced _ _ H) cb). unfold nothing_owed. lia. }
  split; [done|]. split; [done|]. intros Hopen cb. rewrite Hn.
  assert (sum_map (waiting cb) (lg_flights l) = 0); [|lia].
  transitivity (sum_map (λ _ : flight, 0) (lg_flights l)).
  - apply sum_map_ext. intros f fl Hf. destruct (fl_done fl) eqn:Hd.
    + unfold waiting. destruct (Hdone f fl Hf Hd) as [-> ->]. done.
    + pose proof (open_flights_pos _ _ _ Hf Hd). lia.
  - apply sum_map_zero.
Qed.

(** ** Completion *)

(** Completing a pending request settles it.  The flight's waiters get the
    encoded result, its result callbacks then its execution callbacks run, in
    the order they subscribed, with that result and the handler's outcome; the
    claim becomes a receipt that lives for the TTL and is replayable only if
    asked - unless the client acknowledged first: then no receipt is left. *)
Theorem completion_settles now (c : rpcExecutionLedgerCapacity) l key f fl encoded replayable :
  capacity_ok c → reachable now c l →
  pend (lg_shards l) key = Some f → lg_flights l !! f = Some fl →
  ∃ l' ks, completeOnce key encoded replayable l = Some (true, l') ∧ ledger_inv l' ∧
    poll (mkWaiter key f) l' = Some (Some (Some encoded, true), l') ∧
    pend (lg_shards l') key = None ∧
    lg_trace l' = lg_trace l ++ (EvForgotten <$> ks) ++ (if fl_acknowledged fl then [EvForgotten key] else []) ++
      ((λ cb, EvResult cb (Some encoded) true) <$> fl_subscribers fl) ++
      ((λ cb, EvExecution cb (fl_executionDone fl && fl_executionOK fl)) <$> fl_executionSubscribers fl) ∧
    if fl_acknowledged fl then rcpt (lg_shards l') key = None
    else ∃ r, live_receipt key l' = Some r ∧ rc_expiresAt r = lg_now l' + rpcExecutionReceiptTTL ∧
      rc_identity r = fl_identity fl ∧ rc_admissionSeq r = fl_admissionSeq fl ∧
      rc_executionKnown r = fl_executionDone fl ∧ rc_executionOK r = fl_executionOK fl ∧
      rc_unavailable r = negb replayable.
Proof.
  intros Hc Hr Hp Hf. destruct (reachable_inv _ _ _ Hc Hr) as [H Hs].
  destruct (run_of_wp _ _ _ (completeOnce_ok key encoded replayable l H Hs))
    as (b & l' & Hrun & H' & Hs' & l1 & (H1 & Hre & _) & Hspec).
  assert (pend (lg_shards l1) key = Some f) as Hp1 by (by rewrite (re_pend _ _ Hre)).
  assert (lg_flights l1 !! f = Some fl) as Hf1 by (by rewrite (re_flights _ _ Hre)).
  destruct (re_trace _ _ Hre) as (ks & Htr1 & _).
  destruct Hspec as [e He|f' fl' l'' Hp' Hf' Hcp|Hn Hroom|b' Hn Hroom Hcfg].
  - destruct (shape_receipt _ _ _ _ _ _ _ (co_shape _ _ H1) He) as (? & ? & ? & ? & ? & ? & ? & ?). congruence.
  - assert (f' = f) as -> by congruence. assert (fl' = fl) as -> by congruence.
    exists l'', ks. split; [done|]. split; [by split|].
    split. { unfold poll, get_flight, mbind, GoM_bind, gets, unwrap. simpl.
             rewrite (cp_flights _ _ _ _ _ _ _ Hcp), lookup_insert_eq. done. }
    split. { rewrite (cp_pend _ _ _ _ _ _ _ Hcp). by rewrite decide_True. }
    split. { rewrite (cp_trace _ _ _ _ _ _ _ Hcp), Htr1, <- app_assoc. unfold calls, exec_outcome.
             by destruct (fl_executionDone fl). }
    pose proof (cp_rcpt _ _ _ _ _ _ _ Hcp key) as Hrc. rewrite decide_True in Hrc by done.
    destruct (fl_acknowledged fl) eqn:Ha; [done|].
    destruct (cp_receipt _ _ _ _ _ _ _ Hcp Ha) as (rv & Hrec).
    exists (receipt_of key (lg_now l1) fl replayable rv). unfold live_receipt. rewrite Hrc; simpl. rewrite Hrec.
    simpl. rewrite (cp_now _ _ _ _ _ _ _ Hcp).
    replace (_ <? _) with true by (symmetry; apply Z.ltb_lt; unfold rpcExecutionReceiptTTL; lia). done.
  - destruct Hn. left. rewrite Hp1. done.
  - destruct Hn. left. rewrite Hp1. done.
Qed.

(** ** Reaping *)

(** reaping is exact and leaks nothing.  [expireReceipts] removes every
    receipt whose TTL has passed and no other, [forgetSession] every receipt of
    the session and no other; neither touches a flight or a pending claim.  And
    whenever no flight is open and no receipt is left, every counter - flights,
    entries, auth keys, sessions, callbacks - is back to zero. *)
Theorem reaping_is_exact now (c : rpcExecutionLedgerCapacity) l sk :
  capacity_ok c → reachable now c l →
  (∃ l', expireReceipts l = Some (tt, l') ∧ ledger_inv l' ∧ lg_flights l' = lg_flights l ∧
     ∀ k, pend (lg_shards l') k = pend (lg_shards l) k ∧
          live_receipt k l' = live_receipt k l ∧ (rcpt (lg_shards l') k = None ↔ live_receipt k l = None)) ∧
  (∃ l', forgetSession sk l = Some (tt, l') ∧ ledger_inv l' ∧ lg_flights l' = lg_flights l ∧
     ∀ k, pend (lg_shards l') k = pend (lg_shards l) k ∧
          rcpt (lg_shards l') k = if decide (key_session k = sk) then None else rcpt (lg_shards l) k) ∧
  (sum_map open_flight (lg_flights l) = 0 → sum_map shard_receipts (lg_shards l) = 0 →
     lim_used (lg_flightLimit l) = 0 ∧ lg_receiptCount l = 0 ∧ lim_used (bd_global (lg_fairBudget l)) = 0 ∧
     (∀ a, authSnapshot a (lg_fairBudget l) = usage0) ∧ (∀ s, sessionSnapshot s (lg_fairBudget l) = usage0) ∧
     retained l = 0).
Proof.
  intros Hc Hr. destruct (reachable_inv _ _ _ Hc Hr) as [H Hs]. split; [|split].
  - destruct (run_of_wp _ _ _ (expireReceipts_ok l H)) as ([] & l' & Hrun & Hsw).
    pose proof Hsw as (H' & Hre & Hkeep). exists l'. split; [done|]. split; [by eapply swept_inv|].
    split; [apply Hre|]. intros k. split; [apply Hre|].
    unfold live_receipt. rewrite (re_now _ _ Hre).
    destruct (rcpt (lg_shards l) k) as [e|] eqn:Hk; simpl.
    + destruct (core_receipt l k e H Hk) as (r & Hr' & _). rewrite Hr'.
      destruct (Hkeep k e r Hk Hr') as [Hgone Hleft].
      destruct (_ <? _) eqn:Hlt; bool_facts.
      * rewrite Hleft by lia. simpl. rewrite (re_receipts _ _ Hre k e) by (apply Hleft; lia). rewrite Hr'.
        rewrite (proj2 (Z.ltb_lt _ _)) by lia. done.
      * rewrite Hgone by lia. done.
    + destruct (re_rcpt _ _ Hre k) as [-> | ->]; by rewrite ?Hk.
  - destruct (run_of_wp _ _ _ (forgetSession_ok sk l H)) as ([] & l' & Hrun & Hsw).
    pose proof Hsw as (H' & Hre & Hkeep). exists l'. split; [done|]. split; [by eapply swept_inv|].
    split; [apply Hre|]. intros k. split; [apply Hre|].
    destruct (rcpt (lg_shards l) k) as [e|] eqn:Hk.
    + destruct (core_receipt l k e H Hk) as (r & Hr' & _). destruct (Hkeep k e r Hk Hr') as [Hgone Hleft].
      by case_decide; auto.
    + destruct (re_rcpt _ _ Hre k) as [-> | ->]; rewrite ?Hk; by case_decide.
  - intros Hf Hn. destruct (co_counts _ _ H) as [Hfair Hlim Hused Hcount Htotal].
    assert (lim_used (bd_global (lg_fairBudget l)) = 0) as Hg by lia.
    assert (∀ rv o, bd_objs (lg_fairBudget l) !! rv = Some o → rs_released o = true) as Hrel.
    { intros rv o Ho. rewrite (bi_live _ Hfair) in Hg. destruct (rs_released o) eqn:Hro; [done|].
      assert (live o ≤ sum_map live (bd_objs (lg_fairBudget l))) as Hle.
      { apply (sum_map_ge _ _ rv); [|done]. intros. apply b2z_bounds. }
      unfold live in Hle at 1. rewrite Hro in Hle. simpl in Hle. lia. }
    split; [lia|]. split; [lia|]. split; [done|]. split; [|split].
    + intros a. destruct (bi_auth _ Hfair a) as (He & Hp & _).
      assert (us_entries (authSnapshot a (lg_fairBudget l)) = 0) as Hz1.
      { rewrite He, <- (sum_map_zero (bd_objs (lg_fairBudget l))). apply sum_map_ext. intros rv o Ho.
        unfold live_auth. by rewrite (Hrel rv o Ho). }
      assert (us_pending (authSnapshot a (lg_fairBudget l)) = 0) as Hz2.
      { rewrite Hp, <- (sum_map_zero (bd_objs (lg_fairBudget l))). apply sum_map_ext. intros rv o Ho.
        unfold pending_auth. by rewrite (bi_objs _ Hfair rv o Ho (Hrel rv o Ho)). }
      destruct (authSnapshot _ _); unfold usage0; simpl in *; congruence.
    + intros s. destruct (bi_session _ Hfair s) as (He & Hp & _).
      assert (us_entries (sessionSnapshot s (lg_fairBudget l)) = 0) as Hz1.
      { rewrite He, <- (sum_map_zero (bd_objs (lg_fairBudget l))). apply sum_map_ext. intros rv o Ho.
        unfold live_session. by rewrite (Hrel rv o Ho). }
      destruct (sessionSnapshot _ _); unfold usage0; simpl in *; congruence.
    + unfold retained. rewrite <- (sum_map_zero (lg_flights l)). apply sum_map_ext. intros f fl Hfl.
      destruct (sl_flight _ _ _ (co_slots _ _ H) f fl Hfl) as [Hwf _]. rewrite (fw_slots _ Hwf).
      destruct (fl_done fl) eqn:Hd.
      * destruct (fw_done _ Hwf Hd) as [-> He]. by rewrite (fw_executed _ Hwf He).
      * pose proof (open_flights_pos _ _ _ Hfl Hd). lia.
Qed.

(** ** Admission order *)

(** The ledger's admission floor is safe.  In every reachable state, a
    flight whose sequence is below [stableAdmissionSafeFloor] is over; and no
    later section hands out a sequence below it. *)
Theorem admission_floor_safe now (c : rpcExecutionLedgerCapacity) l :
  capacity_ok c → reachable now c l →
  ∃ floor, stableAdmissionSafeFloor l = Some (floor, l) ∧
    (∀ f fl, lg_flights l !! f = Some fl → fl_admissionSeq fl ≠ 0 → fl_admissionSeq fl < floor →
       fl_done fl = true) ∧
    (∀ key requested reclaimed a l', acquire_attempt key requested reclaimed l = Some (a, l') →
       ∀ r, a = Finished (OK r) → acq_state r = rpcResultAcquireOwner → id_valid requested = true →
       floor ≤ acq_admissionSeq r).
Proof.
  intros Hc Hr. destruct (reachable_inv _ _ _ Hc Hr) as [H Hs].
  destruct (co_seqs _ _ H) as [Hn Hwf Hb Hact Huniq].
  exists (stableSafeFloor (lg_nextAdmissionSeq l) (lg_activeAdmissions l)). split; [reflexivity|].
  generalize (stableSafeFloor_spec (lg_nextAdmissionSeq l) (lg_activeAdmissions l) Hwf ltac:(lia)). cbv zeta.
  generalize (stableSafeFloor (lg_nextAdmissionSeq l) (lg_activeAdmissions l)). intros flr Hfloor.
  assert (flr ≤ lg_nextAdmissionSeq l + 1 ∧
    ∀ s, tr_active (lg_activeAdmissions l) s → flr ≤ s) as [Hnext Hle].
  { destruct Hfloor as [[Ha Hmin]|[Hnone Hf]].
    - split; [|done]. apply Hact in Ha as (f & fl & Hf & _ & <- & _). specialize (Hb f fl Hf). lia.
    - split; [|by intros s ?%Hnone]. rewrite Hf. destruct (_ =? _) eqn:E; bool_facts; lia. }
  split.
  - intros f fl Hf Hne Hlt. destruct (fl_done fl) eqn:Hd; [done|].
    assert (tr_active (lg_activeAdmissions l) (fl_admissionSeq fl)) as Ha.
    { apply Hact. by exists f, fl. }
    specialize (Hle _ Ha). lia.
  - intros key requested reclaimed a l' Hrun r -> Ho Hv.
    pose proof (acquire_attempt_ok key requested reclaimed l H Hs) as Hwp. unfold wp in Hwp. rewrite Hrun in Hwp.
    destruct Hwp as (_ & _ & l1 & (_ & Hre & _) & Hspec).
    destruct (re_admissions _ _ Hre) as [Hadm _].
    inversion Hspec as [e rr ? ? Heq|f fl ? ? ? Heq| |? ? Heq| |seq l'' ? ? Hseq ? ? Heq]; subst.
    + unfold receipt_answer in Heq. destruct (matches _ _); [|done]. destruct (rc_unavailable _); [done|].
      by simplify_eq.
    + unfold flight_answer in Heq. destruct (matches _ _); [|done]. destruct (fl_acknowledged _); by simplify_eq.
    + by destruct reclaimed.
    + simpl. rewrite Hv. lia.
Qed.

(** ** Observers and subscribers *)

(** Queries tell the truth and claim nothing.  [Replay] returns a payload
    only for an unexpired, replayable receipt, [ObserveDependency] the handler's
    outcome of a receipt or flight or the waiter of a running one,
    [ExactAdmissionProfile] the profile the claim was admitted under; at most
    they drop the key's expired receipt, and the pending claims and flights stay
    as they were. *)
Theorem queries_are_truthful now (c : rpcExecutionLedgerCapacity) l rpcResult key :
  capacity_ok c → reachable now c l → reqMsgID key ≠ 0 →
  (∃ l', Replay rpcResult key l =
     Some (match live_receipt key l with
           | Some r => if rc_unavailable r || rc_acknowledged r then None else rpcResult key
           | None => None
           end, l') ∧ dropped_expired key l l' ∧ lg_flights l' = lg_flights l) ∧
  (∃ l', ObserveDependency key l = Some (dependency_of key l, l') ∧ dropped_expired key l l' ∧
     lg_flights l' = lg_flights l) ∧
  (∃ l', ExactAdmissionProfile key l = Some (admission_profile_of key l, l') ∧ dropped_expired key l l' ∧
     lg_flights l' = lg_flights l).
Proof.
  intros Hc Hr Hz. destruct (reachable_inv _ _ _ Hc Hr) as [H Hs].
  pose proof (proj2 (Z.eqb_neq _ _) Hz) as Hzb. split_and!.
  - destruct (run_of_wp _ _ _ (Replay_ok rpcResult key l H)) as (a & l' & Hrun & Hg & ->).
    unfold guarded in Hg. rewrite Hzb in *. exists l'. split; [done|]. split; [done|apply Hg].
  - destruct (run_of_wp _ _ _ (ObserveDependency_ok key l H)) as (a & l' & Hrun & Hg & ->).
    unfold guarded in Hg. rewrite Hzb in *. exists l'. split; [done|]. split; [done|apply Hg].
  - destruct (run_of_wp _ _ _ (ExactAdmissionProfile_ok key l H)) as (a & l' & Hrun & Hg & ->).
    unfold guarded in Hg. rewrite Hzb in *. exists l'. split; [done|]. split; [done|apply Hg].
Qed.

(** A subscription is all or nothing.  On an open flight either every
    requested callback is retained - an execution callback whose handler is done
    runs at once instead - or the call reports exhausted capacity and nothing
    changed; on a flight that is over every callback runs at once with the final
    result.  [ErrRPCResultFlightInvalid] never comes back. *)
Theorem subscription_is_atomic now (c : rpcExecutionLedgerCapacity) l w fl rf ef :
  capacity_ok c → reachable now c l →
  lg_flights l !! w_flight w = Some fl → fl_key fl = w_key w → rf ≠ None ∨ ef ≠ None →
  ∃ a l', subscribe w rf ef l = Some (a, l') ∧ ledger_inv l' ∧
    match a with
    | None =>
        lg_trace l' = lg_trace l ++ EvSubscribed (slot rf ++ slot ef) ::
          ((λ cb, EvExecution cb (fl_executionOK fl)) <$> (if fl_executionDone fl then slot ef else [])) ++
          ((λ cb, EvResult cb (fl_encoded fl) (fl_ok fl)) <$> (if fl_done fl then slot rf else [])) ∧
        ∃ fl', lg_flights l' !! w_flight w = Some fl' ∧
          fl_subscribers fl' = fl_subscribers fl ++ (if fl_done fl then [] else slot rf) ∧
          fl_executionSubscribers fl' =
            fl_executionSubscribers fl ++ (if fl_executionDone fl then [] else slot ef)
    | Some e => e = ErrRPCResultSubscriberCapacity ∧ l' = l ∧ fl_done fl = false
    end.
Proof.
  intros Hc Hr Hf Hk Hsome. destruct (reachable_inv _ _ _ Hc Hr) as [H Hs].
  destruct (run_of_wp _ _ _ (subscribe_ok w fl rf ef l H Hf Hk Hsome)) as (a & l' & Hrun & H' & Hspec).
  exists a, l'. split; [done|]. destruct (sl_flight _ _ _ (co_slots _ _ H) _ fl Hf) as [Hwf _].
  destruct Hspec as [sub' Hd Hcfg|Hd Hpos|Hd].
  - split; [split; [done|by apply (settled_same l)]|]. split.
    + unfold touched, joined_trace. cbn. rewrite Hd. by destruct (fl_executionDone fl); rewrite ?app_nil_r.
    + exists (joined fl rf ef). cbn. rewrite lookup_insert_eq, Hd. unfold waiting_execution.
      by destruct (fl_executionDone fl).
  - by split; [split|].
  - destruct (fw_done _ Hwf Hd) as [_ He]. split; [split; [done|by apply (settled_same l)]|]. split.
    + unfold late_trace, calls. cbn. rewrite Hd, He, app_nil_r. done.
    + exists fl. rewrite Hd, He, !app_nil_r. done.
Qed.
End ledger_props.

(** * A run

    Two callers ask for the same request, the first owner aborts, the second
    completes; a third request is left running. *)

Definition demoHashK : ShardHash rpcExecutionKey := λ k, authKeyID k * 31 + sessionID k * 7 + reqMsgID k.

Module Demo.
#[local] Existing Instance demoHashK.
#[local] Existing Instance demoHashA.
#[local] Existing Instance demoHashS.

Definition cap : rpcExecutionLedgerCapacity := mkCapacity 2 2 4 4 4 4 4 4 2.
Definition k1 := mkKey 1 10 100.
Definition k2 := mkKey 1 10 104.
Definition ident (n : nat) : @rpcResultRequestIdentity nat := mkIdent (Some n) 3 true.

(** Flight 0 with lease 1 is aborted; flight 2 with lease 3 completes; flight 5
    with lease 6 runs on. *)
Definition script : list (@section nat nat) :=
  [AcquireAttempt k1 (ident 7) false; DoSubscribe (mkWaiter k1 0) (Some 50%nat) (Some 51%nat);
   DoInstallHook 1 90; DoAbort 1; AcquireAttempt k1 (ident 7) false;
   DoSubscribe (mkWaiter k1 2) (Some 52%nat) (Some 53%nat); DoCompleteExecution 3 true; DoHandOff 3;
   CompleteOnce k1 77%nat true; AcquireAttempt k2 (ident 8) false;
   DoSubscribe (mkWaiter k2 5) (Some 54%nat) None].

Definition start := new_ledger (Ident:=nat) (Enc:=nat) 0 cap.
Definition state := default start (run_sections script start).

Lemma state_reachable : reachable 0 cap state.
Proof. apply (run_sections_reachable script). vm_compute. reflexivity. Qed.

Lemma cap_ok : capacity_ok cap.
Proof. unfold capacity_ok. split_and!; vm_compute; congruence. Qed.

Example state_trace :
  lg_trace state =
    [EvOwner k1; EvSubscribed [50; 51]; EvAborted k1; EvHook 90; EvResult 50 None false; EvExecution 51 false;
     EvOwner k1; EvSubscribed [52; 53]; EvExecution 53 true; EvResult 52 (Some 77) true;
     EvOwner k2; EvSubscribed [54]]%nat.
Proof. vm_compute. reflexivity. Qed.

Lemma ledger_never_panics_witness :
  capacity_ok cap ∧ reachable 0 cap state ∧ ∃ l', run_section (DoAbort 6) state = Some (tt, l').
Proof.
  split; [exact cap_ok|]. split; [exact state_reachable|].
  apply (proj1 (ledger_never_panics 0 cap state cap_ok state_reachable)). vm_compute. reflexivity.
Defined.

Definition between : list (@event nat) :=
  [EvSubscribed [50; 51]; EvAborted k1; EvHook 90; EvResult 50 None false; EvExecution 51 false]%nat.

Lemma claims_are_exclusive_witness :
  reachable 0 cap state ∧ (EvAborted k1 ∈ between ∨ EvForgotten k1 ∈ between).
Proof.
  split; [exact state_reachable|].
  apply (claims_are_exclusive 0 cap state k1 [] between
    [EvSubscribed [52; 53]; EvExecution 53 true; EvResult 52 (Some 77) true; EvOwner k2; EvSubscribed [54]]%nat
    cap_ok state_reachable).
  vm_compute. reflexivity.
Defined.

Lemma acquire_answers_witness :
  reqMsgID k1 ≠ 0 ∧
  ∃ r l', acquire 2 (λ _, Some 77%nat) k1 (ident 7) state = Some (Some r, l') ∧
    ledger_inv l' ∧ acquire_outcome (λ _, Some 77%nat) k1 (ident 7) state l' r.
Proof.
  split; [by vm_compute|].
  exact (acquire_answers 0 cap state (λ _, Some 77%nat) k1 (ident 7) 0 cap_ok state_reachable ltac:(by vm_compute)).
Defined.

Lemma finished_is_final_witness :
  ∃ ls, lg_leases state !! 1%nat = Some ls ∧ ¬ owns ls state ∧ Abort 1 state = Some (false, state).
Proof.
  exists (mkLease k1 0 None false). split; [vm_compute; reflexivity|].
  assert (¬ owns (mkLease k1 0 None false) state) as Ho.
  { intros Ho. vm_compute in Ho. discriminate Ho. }
  split; [exact Ho|].
  destruct (finished_is_final 0 cap state state cap_ok state_reachable (rtc_refl _ _)) as [Hl _].
  destruct (Hl 1%nat (mkLease k1 0 None false) (mkLease k1 0 None false)) as (_ & Ha & _);
    [vm_compute; reflexivity|exact Ho|vm_compute; reflexivity|exact Ha].
Defined.

Lemma callbacks_run_exactly_once_witness :
  reachable 0 cap state ∧ accepted 54 (lg_trace state) = fired 54 (lg_trace state) + sum_map (waiting 54) (lg_flights state).
Proof.
  split; [exact state_reachable|].
  exact (proj1 (callbacks_run_exactly_once 0 cap state cap_ok state_reachable) 54%nat).
Defined.

Lemma completion_settles_witness :
  pend (lg_shards state) k2 = Some 5%nat ∧ ∃ l', completeOnce k2 78%nat false state = Some (true, l').
Proof.
  split; [vm_compute; reflexivity|].
  assert (∃ fl, lg_flights state !! 5%nat = Some fl) as [fl Hfl] by (eexists; vm_compute; reflexivity).
  destruct (completion_settles 0 cap state k2 5 fl 78%nat false cap_ok state_reachable) as (l' & ks & Hrun & _);
    [vm_compute; reflexivity|exact Hfl|].
  exists l'. exact Hrun.
Defined.

Lemma reaping_is_exact_witness : reachable 0 cap state ∧ ∃ l', expireReceipts state = Some (tt, l').
Proof.
  split; [exact state_reachable|].
  destruct (reaping_is_exact 0 cap state (1, 10) cap_ok state_reachable) as [(l' & Hrun & _) _].
  exists l'. exact Hrun.
Defined.

Lemma admission_floor_safe_witness :
  reachable 0 cap state ∧ ∃ floor, stableAdmissionSafeFloor state = Some (floor, state).
Proof.
  split; [exact state_reachable|].
  destruct (admission_floor_safe 0 cap state cap_ok state_reachable) as (floor & Hf & _). exists floor. exact Hf.
Defined.

Lemma queries_are_truthful_witness :
  reqMsgID k1 ≠ 0 ∧ ∃ l', Replay (λ _, Some 77%nat) k1 state = Some (Some 77%nat, l').
Proof.
  split; [by vm_compute|].
  destruct (queries_are_truthful 0 cap state (λ _, Some 77%nat) k1 cap_ok state_reachable ltac:(by vm_compute))
    as [(l' & Hrun & _) _].
  exists l'. rewrite Hrun. vm_compute. reflexivity.
Defined.

Lemma subscription_is_atomic_witness :
  waiter_ok (mkWaiter k1 2) state = true ∧ ∃ a l', subscribe (mkWaiter k1 2) (Some 60%nat) None state = Some (a, l').
Proof.
  split; [vm_compute; reflexivity|].
  assert (∃ fl, lg_flights state !! 2%nat = Some fl ∧ fl_key fl = k1) as (fl & Hfl & Hk)
    by (eexists; split; [vm_compute; reflexivity|reflexivity]).
  destruct (subscription_is_atomic 0 cap state (mkWaiter k1 2) fl (Some 60%nat) None cap_ok state_reachable Hfl Hk)
    as (a & l' & Hrun & _); [by left|].
  exists a, l'. exact Hrun.
Defined.
End Demo.
