(* ===== verification/Phone.v ===== *)
(** Private phone calls: [internal/domain/phone.go] and [internal/app/phone].

    The signalling state machine of one-to-one calls and the in-process
    registry that holds it ([registry.go]), and the service that drives it
    ([service.go]).  Every method of the service
    runs under the registry mutex and is one function on [registry]; [Signal]
    drops the mutex before it takes the lock of the call's signalling window,
    so it is two functions, and the signalling half of an entry lives in a
    store of its own ([sigs]) where it survives the removal of the entry.
    Clock readings, random draws and the iteration order of Go maps are
    arguments; SHA-256 is an arbitrary function on byte lists. *)

From S2P Require Import Prelude.

Open Scope Z_scope.
Import Strings.Ascii.

(** * Data *)

Inductive PhoneCallState :=
  | PhoneCallStateRequested
  | PhoneCallStateRinging
  | PhoneCallStateAccepted
  | PhoneCallStateConfirmed
  | PhoneCallStateDiscarded.

#[export] Instance PhoneCallState_eq_dec : EqDecision PhoneCallState.
Proof. solve_decision. Defined.

(** Reasons are strings in the source; the RPC layer may pass any, including
    the empty one. *)
Definition PhoneCallDiscardReason := string.
Definition PhoneCallDiscardReasonMissed : PhoneCallDiscardReason := "missed"%string.
Definition PhoneCallDiscardReasonDisconnect : PhoneCallDiscardReason := "disconnect"%string.
Definition PhoneCallDiscardReasonHangup : PhoneCallDiscardReason := "hangup"%string.
Definition PhoneCallDiscardReasonMigrateConference : PhoneCallDiscardReason :=
  "migrate_conference"%string.

Record PhoneCallProtocol := Protocol_of {
  UDPP2P : bool;
  UDPReflector : bool;
  MinLayer : Z;
  MaxLayer : Z;
  LibraryVersions : list string;
}.

Record SessionRef := SessionRef_of {
  RawAuthKeyID : list Z;
  SessionID : Z;
}.

Definition SessionRef_zero : SessionRef := SessionRef_of (replicate 8 0) 0.

Record PhoneCallConnection := {
  conn_ID : Z;
  conn_IP : string;
  conn_Port : Z;
  conn_Username : string;
  conn_Password : string;
  conn_Stun : bool;
  conn_Turn : bool;
}.

Record PhoneCallRequest := {
  req_CalleeID : Z;
  req_RandomID : Z;
  req_GAHash : list Z;
  req_Video : bool;
  req_Protocol : PhoneCallProtocol;
  req_CallerDevice : SessionRef;
  req_PrivacyP2P : bool;
  req_Connections : list PhoneCallConnection;
}.

(** The fields that never change once the call is filed come first. *)
Record CallOrigin := {
  ID : Z;
  AccessHash : Z;
  AdminID : Z;
  ParticipantID : Z;
  Video : bool;
  Date : Z;
  GAHash : list Z;
  CallerProtocol : PhoneCallProtocol;
  PrivacyP2P : bool;
  Connections : list PhoneCallConnection;
  RandomID : Z;
  CallerDevice : SessionRef;
}.

Record PhoneCall := {
  origin : CallOrigin;
  State : PhoneCallState;
  ReceiveDate : Z;
  StartDate : Z;
  DiscardedAt : Z;
  GB : list Z;
  GA : list Z;
  KeyFingerprint : Z;
  Protocol : PhoneCallProtocol;
  CalleeProtocol : PhoneCallProtocol;
  P2PAllowed : bool;
  DiscardReason : PhoneCallDiscardReason;
  DiscardReasonSlug : string;
  Duration : Z;
  CalleeDevice : SessionRef;
}.
Coercion origin : PhoneCall >-> CallOrigin.

Definition Terminal (c : PhoneCall) : bool :=
  bool_decide (State c = PhoneCallStateDiscarded).

Definition PeerOf (c : PhoneCall) (userID : Z) : Z :=
  if userID =? AdminID c then ParticipantID c
  else if userID =? ParticipantID c then AdminID c
  else 0.

Definition HasParticipant (c : PhoneCall) (userID : Z) : bool :=
  negb (userID =? 0) && ((userID =? AdminID c) || (userID =? ParticipantID c)).

(** In-place updates of the four transitions. *)
Definition set_ringing (c : PhoneCall) (now : Z) : PhoneCall := {|
  origin := origin c; State := PhoneCallStateRinging; ReceiveDate := now;
  StartDate := StartDate c; DiscardedAt := DiscardedAt c; GB := GB c; GA := GA c;
  KeyFingerprint := KeyFingerprint c; Protocol := Protocol c;
  CalleeProtocol := CalleeProtocol c; P2PAllowed := P2PAllowed c;
  DiscardReason := DiscardReason c; DiscardReasonSlug := DiscardReasonSlug c;
  Duration := Duration c; CalleeDevice := CalleeDevice c |}.

Definition set_accepted (c : PhoneCall) (gb : list Z) (proto negotiated : PhoneCallProtocol)
    (device : SessionRef) : PhoneCall := {|
  origin := origin c; State := PhoneCallStateAccepted; ReceiveDate := ReceiveDate c;
  StartDate := StartDate c; DiscardedAt := DiscardedAt c; GB := gb; GA := GA c;
  KeyFingerprint := KeyFingerprint c; Protocol := negotiated;
  CalleeProtocol := proto; P2PAllowed := P2PAllowed c;
  DiscardReason := DiscardReason c; DiscardReasonSlug := DiscardReasonSlug c;
  Duration := Duration c; CalleeDevice := device |}.

Definition set_confirmed (c : PhoneCall) (ga : list Z) (keyFingerprint now : Z) : PhoneCall := {|
  origin := origin c; State := PhoneCallStateConfirmed; ReceiveDate := ReceiveDate c;
  StartDate := now; DiscardedAt := DiscardedAt c; GB := GB c; GA := ga;
  KeyFingerprint := keyFingerprint; Protocol := Protocol c;
  CalleeProtocol := CalleeProtocol c;
  P2PAllowed := UDPP2P (CallerProtocol c) && UDPP2P (CalleeProtocol c) && PrivacyP2P c;
  DiscardReason := DiscardReason c; DiscardReasonSlug := DiscardReasonSlug c;
  Duration := Duration c; CalleeDevice := CalleeDevice c |}.

Definition set_discarded (c : PhoneCall) (reason : PhoneCallDiscardReason) (slug : string)
    (duration now : Z) : PhoneCall := {|
  origin := origin c; State := PhoneCallStateDiscarded; ReceiveDate := ReceiveDate c;
  StartDate := StartDate c; DiscardedAt := now; GB := GB c; GA := GA c;
  KeyFingerprint := KeyFingerprint c; Protocol := Protocol c;
  CalleeProtocol := CalleeProtocol c; P2PAllowed := P2PAllowed c;
  DiscardReason := reason; DiscardReasonSlug := slug;
  Duration := duration; CalleeDevice := CalleeDevice c |}.

Inductive phone_error :=
  | ErrPeerInvalid
  | ErrAlreadyAccepted
  | ErrAlreadyDeclined
  | ErrOccupyFailed
  | ErrProtocolLayerInvalid
  | ErrProtocolCompatLayerInvalid
  | ErrProtocolFlagsInvalid
  | ErrGAHashMismatch
  | ErrRandom              (* rand.Read failed *)
  | ErrExhausted.          (* 32 colliding call ids *)

#[export] Instance phone_error_eq_dec : EqDecision phone_error.
Proof. solve_decision. Defined.

(** * Configuration *)

Definition Second : Z := 1000000000.

Record Config := {
  RingTimeout : Z;           (* nanoseconds *)
  TombstoneTTL : Z;          (* nanoseconds *)
  MaxActivePerUser : Z;
  MaxRegistryEntries : Z;
  SignalingRatePerSecond : Z;
}.

Definition withDefaults (c : Config) : Config := {|
  RingTimeout := if RingTimeout c <=? 0 then 90 * Second else RingTimeout c;
  TombstoneTTL := if TombstoneTTL c <=? 0 then 60 * Second else TombstoneTTL c;
  MaxActivePerUser := if MaxActivePerUser c <=? 0 then 4 else MaxActivePerUser c;
  MaxRegistryEntries := if MaxRegistryEntries c <=? 0 then 10000 else MaxRegistryEntries c;
  SignalingRatePerSecond :=
    if SignalingRatePerSecond c <=? 0 then 50 else SignalingRatePerSecond c;
|}.

Definition ringSec (c : Config) : Z := Z.quot (RingTimeout c) Second.
Definition tombstoneTTLSec (c : Config) : Z := Z.quot (TombstoneTTL c) Second.

(** * Protocol negotiation *)

Definition minSupportedLayer : Z := 65.
Definition gaHashSize : nat := 32.
Definition dhPubSize : nat := 256.

Definition validateProtocol (p : PhoneCallProtocol) : option phone_error :=
  if MaxLayer p <? MinLayer p then Some ErrProtocolLayerInvalid
  else if MaxLayer p <? minSupportedLayer then Some ErrProtocolCompatLayerInvalid
  else if negb (UDPP2P p) && negb (UDPReflector p) then Some ErrProtocolFlagsInvalid
  else match LibraryVersions p with
       | [] => Some ErrProtocolFlagsInvalid
       | _ :: _ => None
       end.

(** [strings.Split(s, ".")]. *)
Fixpoint split_dot (s : string) : list string :=
  match s with
  | EmptyString => [""%string]
  | String c s' =>
      match split_dot s' with
      | [] => []
      | h :: t => if Ascii.eqb c "."%char then ""%string :: h :: t else String c h :: t
      end
  end.

(** [strconv.Atoi]: an optional sign, at least one decimal digit, and a value
    that fits an [int]. *)
Definition digit_of (c : ascii) : option Z :=
  let n := Z.of_N (N_of_ascii c) in
  if (48 <=? n) && (n <=? 57) then Some (n - 48) else None.

Fixpoint digits_value (acc : Z) (s : string) : option Z :=
  match s with
  | EmptyString => Some acc
  | String c s' =>
      match digit_of c with
      | Some d => digits_value (acc * 10 + d) s'
      | None => None
      end
  end.

Definition unsigned_value (s : string) : option Z :=
  match s with EmptyString => None | _ => digits_value 0 s end.

Definition Atoi (s : string) : option Z :=
  let signed :=
    match s with
    | String c s' =>
        if Ascii.eqb c "-"%char then option_map Z.opp (unsigned_value s')
        else if Ascii.eqb c "+"%char then unsigned_value s'
        else unsigned_value s
    | EmptyString => None
    end in
  match signed with
  | Some v => if (min_int64 <=? v) && (v <=? max_int64) then Some v else None
  | None => None
  end.

(** [strings.Compare]: bytewise lexicographic order as -1, 0 or 1. *)
Definition string_compare (a b : string) : Z :=
  match String.compare a b with Lt => -1 | Eq => 0 | Gt => 1 end.

(** One iteration of the loop of [compareVersion]; zero lets the loop go on. *)
Definition compareSegment (av bv : string) : Z :=
  match Atoi av, Atoi bv with
  | Some an, Some bn => if an =? bn then 0 else an -₆₄ bn
  | _, _ => string_compare av bv
  end.

Fixpoint compareSegments (n : nat) (l1 l2 : list string) : Z :=
  match n with
  | O => 0
  | S n' =>
      let c := compareSegment (default ""%string (head l1)) (default ""%string (head l2)) in
      if c =? 0 then compareSegments n' (tail l1) (tail l2) else c
  end.

Definition compareVersion (a b : string) : Z :=
  let l1 := split_dot a in
  let l2 := split_dot b in
  compareSegments (Nat.max (length l1) (length l2)) l1 l2.

Definition preferredVersions : list string := ["9.0.0"; "8.0.0"; "7.0.0"]%string.

(** The loop [for v := range inBoth] keeps the first version it meets and
    replaces it by any later one that compares greater. *)
Definition take_best (best : option string) (v : string) : option string :=
  match best with
  | None => Some v
  | Some b => if 0 <? compareVersion v b then Some v else best
  end.

(** [order] is the order in which the runtime iterates over the set. *)
Definition bestCommonVersion (order : gset string → list string) (a b : list string)
    : option string :=
  let inBoth := (list_to_set a ∩ list_to_set b : gset string) in
  match List.find (λ v, bool_decide (v ∈ inBoth)) preferredVersions with
  | Some v => Some v
  | None => fold_left take_best (order inBoth) None
  end.

Definition maxInt (a b : Z) : Z := if b <? a then a else b.
Definition minInt (a b : Z) : Z := if a <? b then a else b.

Definition negotiateProtocol (order : gset string → list string)
    (caller callee : PhoneCallProtocol) : res phone_error PhoneCallProtocol :=
  let minLayer := maxInt (MinLayer caller) (MinLayer callee) in
  let maxLayer := minInt (MaxLayer caller) (MaxLayer callee) in
  if maxLayer <? minLayer then ERR ErrProtocolCompatLayerInvalid
  else OK {|
    UDPP2P := UDPP2P caller && UDPP2P callee;
    UDPReflector := UDPReflector caller || UDPReflector callee;
    MinLayer := minLayer;
    MaxLayer := maxLayer;
    LibraryVersions :=
      match bestCommonVersion order (LibraryVersions caller) (LibraryVersions callee) with
      | Some best => [best]
      | None => LibraryVersions callee
      end |}.

(** * The registry *)

(** The signalling half of an entry, guarded by its own lock. *)
Record sigwin := {
  sigWindowSec : Z;
  sigCount : Z;
}.

Record entry := {
  call : PhoneCall;
  sig : nat;                 (* where the signalling half lives *)
}.

Definition randomKey := (Z * Z)%type.

Record registry := {
  byID : gmap Z entry;
  byRandom : gmap randomKey Z;
  active : gmap Z Z;
  sigs : gmap nat sigwin;
}.

Definition newRegistry : registry :=
  {| byID := ∅; byRandom := ∅; active := ∅; sigs := ∅ |}.

Definition set_call (e : entry) (c : PhoneCall) : entry := {| call := c; sig := sig e |}.
Definition callKey (c : PhoneCall) : randomKey := (AdminID c, RandomID c).
Definition activeOf (r : registry) (userID : Z) : Z := default 0 (active r !! userID).

Definition with_byID (m : gmap Z entry) (r : registry) : registry :=
  {| byID := m; byRandom := byRandom r; active := active r; sigs := sigs r |}.
Definition with_byRandom (m : gmap randomKey Z) (r : registry) : registry :=
  {| byID := byID r; byRandom := m; active := active r; sigs := sigs r |}.
Definition with_active (m : gmap Z Z) (r : registry) : registry :=
  {| byID := byID r; byRandom := byRandom r; active := m; sigs := sigs r |}.
Definition with_sigs (m : gmap nat sigwin) (r : registry) : registry :=
  {| byID := byID r; byRandom := byRandom r; active := active r; sigs := m |}.

Definition decActiveLocked (userID : Z) (r : registry) : registry :=
  let n := activeOf r userID in
  if n <=? 1 then with_active (delete userID (active r)) r
  else with_active (<[userID := n -₆₄ 1]> (active r)) r.

Definition removeLocked (id : Z) (e : entry) (wasActive : bool) (r : registry) : registry :=
  let r1 := with_byID (delete id (byID r)) r in
  let key := callKey (call e) in
  let r2 :=
    match byRandom r1 !! key with
    | Some indexedID =>
        if indexedID =? id then with_byRandom (delete key (byRandom r1)) r1 else r1
    | None => r1
    end in
  if wasActive then decActiveLocked (AdminID (call e)) r2 else r2.

Definition tombstone_due (nowUnix ttl : Z) (c : PhoneCall) : bool :=
  Terminal c && (ttl <? nowUnix -₆₄ DiscardedAt c).

(** One iteration of [for id, e := range r.byID]. *)
Definition sweepOne (nowUnix ttl : Z) (r : registry) (id : Z) : registry :=
  match byID r !! id with
  | Some e => if tombstone_due nowUnix ttl (call e) then removeLocked id e false r else r
  | None => r
  end.

(** [ids] is the order in which the runtime iterates over [byID]. *)
Definition sweepTombstonesLocked (nowUnix ttl : Z) (ids : list Z) (r : registry) : registry :=
  fold_left (sweepOne nowUnix ttl) ids r.

(** [e] is the entry filed under [id]; the source holds a pointer to it. *)
Definition markDiscardedWithSlugLocked (id : Z) (e : entry) (reason : PhoneCallDiscardReason)
    (slug : string) (duration nowUnix : Z) (r : registry) : registry :=
  if Terminal (call e) then r
  else decActiveLocked (AdminID (call e))
         (with_byID (<[id := set_call e (set_discarded (call e) reason slug duration nowUnix)]>
                       (byID r)) r).

Definition markDiscardedLocked (id : Z) (e : entry) (reason : PhoneCallDiscardReason)
    (duration nowUnix : Z) (r : registry) : registry :=
  markDiscardedWithSlugLocked id e reason "" duration nowUnix r.

(** The call filed under [id] after an update, as the snapshot returned. *)
Definition snapshot (r : registry) (id : Z) (otherwise : PhoneCall) : PhoneCall :=
  match byID r !! id with Some e => call e | None => otherwise end.

(** A random draw is the 64-bit value read from eight random bytes, or the
    failure of the read. *)
Definition randomPositiveInt64 (draw : option Z) : res phone_error Z :=
  match draw with
  | None => ERR ErrRandom
  | Some u => let v := Z.shiftr u 1 in OK (if v =? 0 then 1 else v)
  end.

(** [draw i] is the [i]-th draw of the request; the result carries the number
    of draws consumed. *)
Fixpoint newIDFrom (attempts : nat) (i : nat) (draw : nat → option Z) (r : registry)
    : res phone_error (Z * nat) :=
  match attempts with
  | O => ERR ErrExhausted
  | S attempts' =>
      match randomPositiveInt64 (draw i) with
      | ERR err => ERR err
      | OK id =>
          match byID r !! id with
          | Some _ => newIDFrom attempts' (S i) draw r
          | None => OK (id, S i)
          end
      end
  end.

Definition newIDLocked (draw : nat → option Z) (r : registry) : res phone_error (Z * nat) :=
  newIDFrom 32 0 draw r.

(** * The service *)

Definition lookupLocked (r : registry) (callID accessHash : Z) : res phone_error entry :=
  match byID r !! callID with
  | Some e => if AccessHash (call e) =? accessHash then OK e else ERR ErrPeerInvalid
  | None => ERR ErrPeerInvalid
  end.

Definition new_call (callerID id accessHash nowUnix : Z) (req : PhoneCallRequest) : PhoneCall := {|
  origin := {|
    ID := id; AccessHash := accessHash; AdminID := callerID;
    ParticipantID := req_CalleeID req; Video := req_Video req; Date := nowUnix;
    GAHash := req_GAHash req; CallerProtocol := req_Protocol req;
    PrivacyP2P := req_PrivacyP2P req; Connections := req_Connections req;
    RandomID := req_RandomID req; CallerDevice := req_CallerDevice req |};
  State := PhoneCallStateRequested; ReceiveDate := 0; StartDate := 0; DiscardedAt := 0;
  GB := []; GA := []; KeyFingerprint := 0; Protocol := req_Protocol req;
  CalleeProtocol := Protocol_of false false 0 0 []; P2PAllowed := false;
  DiscardReason := ""; DiscardReasonSlug := ""; Duration := 0;
  CalleeDevice := SessionRef_zero |}.

(** Filing a call: the entry, the idempotence index and the quota. *)
Definition insert_call (callerID id : Z) (c : PhoneCall) (r : registry) : registry :=
  let p := fresh (dom (sigs r)) in
  {| byID := <[id := {| call := c; sig := p |}]> (byID r);
     byRandom := <[callKey c := id]> (byRandom r);
     active := <[callerID := activeOf r callerID +₆₄ 1]> (active r);
     sigs := <[p := {| sigWindowSec := 0; sigCount := 0 |}]> (sigs r) |}.

(** The non-terminal call already filed under the idempotence key. *)
Definition pendingDuplicate (r : registry) (key : randomKey) : option PhoneCall :=
  match byRandom r !! key with
  | Some id =>
      match byID r !! id with
      | Some e => if Terminal (call e) then None else Some (call e)
      | None => None
      end
  | None => None
  end.

Definition RequestCall (cfg : Config) (callerID : Z) (req : PhoneCallRequest) (nowUnix : Z)
    (ids : list Z) (draw : nat → option Z) (r0 : registry)
    : res phone_error PhoneCall * registry :=
  match validateProtocol (req_Protocol req) with
  | Some err => (ERR err, r0)
  | None =>
      if negb (length (req_GAHash req) =? gaHashSize)%nat then (ERR ErrProtocolFlagsInvalid, r0)
      else
        let r := sweepTombstonesLocked nowUnix (tombstoneTTLSec cfg) ids r0 in
        match pendingDuplicate r (callerID, req_RandomID req) with
        | Some c => (OK c, r)
        | None =>
            if MaxRegistryEntries cfg <=? Z.of_nat (size (byID r)) then (ERR ErrOccupyFailed, r)
            else if MaxActivePerUser cfg <=? activeOf r callerID then (ERR ErrOccupyFailed, r)
            else
              match newIDLocked draw r with
              | ERR err => (ERR err, r)
              | OK (id, i) =>
                  match randomPositiveInt64 (draw i) with
                  | ERR err => (ERR err, r)
                  | OK accessHash =>
                      let c := new_call callerID id accessHash nowUnix req in
                      (OK c, insert_call callerID id c r)
                  end
              end
        end
  end.

Definition ReceivedCall (userID callID accessHash now : Z) (r : registry)
    : res phone_error (PhoneCall * bool) * registry :=
  match lookupLocked r callID accessHash with
  | ERR err => (ERR err, r)
  | OK e =>
      if negb (userID =? ParticipantID (call e)) then (ERR ErrPeerInvalid, r)
      else if decide (State (call e) = PhoneCallStateRequested) then
        let c := set_ringing (call e) now in
        (OK (c, true), with_byID (<[callID := set_call e c]> (byID r)) r)
      else (OK (call e, false), r)
  end.

Definition allZero (b : list Z) : bool := forallb (λ v, v =? 0) b.

Definition AcceptCall (order : gset string → list string) (userID callID accessHash : Z)
    (gb : list Z) (proto : PhoneCallProtocol) (device : SessionRef) (r : registry)
    : res phone_error PhoneCall * registry :=
  match validateProtocol proto with
  | Some err => (ERR err, r)
  | None =>
      if negb (length gb =? dhPubSize)%nat || allZero gb then (ERR ErrProtocolFlagsInvalid, r)
      else
        match lookupLocked r callID accessHash with
        | ERR err => (ERR err, r)
        | OK e =>
            if negb (userID =? ParticipantID (call e)) then (ERR ErrPeerInvalid, r)
            else
              match State (call e) with
              | PhoneCallStateAccepted | PhoneCallStateConfirmed => (ERR ErrAlreadyAccepted, r)
              | PhoneCallStateDiscarded => (ERR ErrAlreadyDeclined, r)
              | PhoneCallStateRequested | PhoneCallStateRinging =>
                  match negotiateProtocol order (CallerProtocol (call e)) proto with
                  | ERR err => (ERR err, r)
                  | OK negotiated =>
                      let c := set_accepted (call e) gb proto negotiated device in
                      (OK c, with_byID (<[callID := set_call e c]> (byID r)) r)
                  end
              end
        end
  end.

(** Results of [ConfirmCall]: the source returns a snapshot next to the error
    when the commitment fails. *)
Definition confirm_result : Type := (option PhoneCall * bool * option phone_error).

Definition sha256Mismatch (sha256 : list Z → list Z) (data want : list Z) : bool :=
  negb (bool_decide (sha256 data = want)).

Definition ConfirmCall (sha256 : list Z → list Z) (userID callID accessHash : Z) (ga : list Z)
    (keyFingerprint : Z) (proto : PhoneCallProtocol) (now : Z) (r : registry)
    : confirm_result * registry :=
  match lookupLocked r callID accessHash with
  | ERR err => ((None, false, Some err), r)
  | OK e =>
      if negb (userID =? AdminID (call e)) then ((None, false, Some ErrPeerInvalid), r)
      else
        match State (call e) with
        | PhoneCallStateConfirmed => ((None, false, Some ErrAlreadyAccepted), r)
        | PhoneCallStateDiscarded => ((None, false, Some ErrAlreadyDeclined), r)
        | PhoneCallStateRequested | PhoneCallStateRinging =>
            ((None, false, Some ErrPeerInvalid), r)
        | PhoneCallStateAccepted =>
            match validateProtocol proto with
            | Some err => ((None, false, Some err), r)
            | None =>
                if negb (length ga =? dhPubSize)%nat
                   || sha256Mismatch sha256 ga (GAHash (call e)) then
                  let r' :=
                    markDiscardedLocked callID e PhoneCallDiscardReasonDisconnect 0 now r in
                  ((Some (snapshot r' callID (call e)), true, Some ErrGAHashMismatch), r')
                else
                  let c := set_confirmed (call e) ga keyFingerprint now in
                  ((Some c, false, None), with_byID (<[callID := set_call e c]> (byID r)) r)
            end
        end
  end.

Definition DiscardCallWithSlug (userID callID accessHash : Z) (reason : PhoneCallDiscardReason)
    (slug : string) (duration now : Z) (r : registry)
    : res phone_error (PhoneCall * bool) * registry :=
  match lookupLocked r callID accessHash with
  | ERR err => (ERR err, r)
  | OK e =>
      if negb (HasParticipant (call e) userID) then (ERR ErrPeerInvalid, r)
      else if Terminal (call e) then (OK (call e, true), r)
      else
        let reason := if decide (reason = ""%string) then PhoneCallDiscardReasonHangup else reason in
        let slug :=
          if decide (reason = PhoneCallDiscardReasonMigrateConference) then slug else ""%string in
        let duration := if (StartDate (call e) =? 0) || (duration <? 0) then 0 else duration in
        let r' := markDiscardedWithSlugLocked callID e reason slug duration now r in
        (OK (snapshot r' callID (call e), false), r')
  end.

Definition DiscardCall (userID callID accessHash : Z) (reason : PhoneCallDiscardReason)
    (duration now : Z) (r : registry) : res phone_error (PhoneCall * bool) * registry :=
  DiscardCallWithSlug userID callID accessHash reason "" duration now r.

Definition expire_reason (s : PhoneCallState) : PhoneCallDiscardReason :=
  if decide (s = PhoneCallStateAccepted) then PhoneCallDiscardReasonDisconnect
  else PhoneCallDiscardReasonMissed.

Definition ring_due (nowUnix ring : Z) (c : PhoneCall) : bool :=
  negb (Terminal c || bool_decide (State c = PhoneCallStateConfirmed))
  && negb (nowUnix -₆₄ Date c <=? ring).

(** One iteration of the loop of [ExpireDue]. *)
Definition expireOne (nowUnix ring : Z) (acc : list PhoneCall * registry) (id : Z)
    : list PhoneCall * registry :=
  let '(expired, r) := acc in
  match byID r !! id with
  | None => acc
  | Some e =>
      if ring_due nowUnix ring (call e) then
        let r' := markDiscardedLocked id e (expire_reason (State (call e))) 0 nowUnix r in
        (expired ++ [snapshot r' id (call e)], r')
      else acc
  end.

(** [ids1] and [ids2]: the iteration orders of the two loops over [byID]. *)
Definition ExpireDue (cfg : Config) (nowUnix : Z) (ids1 ids2 : list Z) (r : registry)
    : list PhoneCall * registry :=
  let '(expired, r1) := fold_left (expireOne nowUnix (ringSec cfg)) ids1 ([], r) in
  (expired, sweepTombstonesLocked nowUnix (tombstoneTTLSec cfg) ids2 r1).

(** ** Signalling *)

(** What the part of [Signal] under the registry mutex decides. *)
Inductive signal_route :=
  | SignalFail (err : phone_error)
  | SignalDrop
  | SignalForward (p : nat) (peer : Z) (device : SessionRef).

Definition Signal_route (userID callID accessHash : Z) (r : registry) : signal_route :=
  match lookupLocked r callID accessHash with
  | ERR err => SignalFail err
  | OK e =>
      if negb (HasParticipant (call e) userID) then SignalFail ErrPeerInvalid
      else
        let peer := PeerOf (call e) userID in
        let device := if peer =? AdminID (call e) then CallerDevice (call e)
                      else CalleeDevice (call e) in
        match State (call e) with
        | PhoneCallStateAccepted | PhoneCallStateConfirmed => SignalForward (sig e) peer device
        | PhoneCallStateDiscarded => SignalDrop
        | PhoneCallStateRequested | PhoneCallStateRinging => SignalFail ErrPeerInvalid
        end
  end.

(** The part under the lock of the window: [true] when the packet is
    forwarded, [false] when it is dropped. *)
Definition sig_admit (cfg : Config) (nowSec : Z) (w : sigwin) : bool * sigwin :=
  let w := if sigWindowSec w =? nowSec then w
           else {| sigWindowSec := nowSec; sigCount := 0 |} in
  if SignalingRatePerSecond cfg <=? sigCount w then (false, w)
  else (true, {| sigWindowSec := sigWindowSec w; sigCount := sigCount w +₆₄ 1 |}).

Definition Signal_send (cfg : Config) (p : nat) (nowSec : Z) (r : registry) : bool * registry :=
  match sigs r !! p with
  | Some w => let '(b, w') := sig_admit cfg nowSec w in
              (b, with_sigs (<[p := w']> (sigs r)) r)
  | None => (false, r)
  end.

Definition Lookup (callID accessHash : Z) (r : registry) : option PhoneCall :=
  match lookupLocked r callID accessHash with OK e => Some (call e) | ERR _ => None end.
