(* ===== verification/PhoneInv.v ===== *)
(** The invariant of the call registry and how single operations move it.

    [registry_ok] relates the four maps of the registry; [advances] is what an
    operation may do to the calls on file.  Both are proved for the primitive
    updates ([removeLocked], an in-place transition, [markDiscarded],
    [insert_call]) and lifted to the operations of the service and to runs. *)

From S2P Require Import Prelude Phone.

Open Scope Z_scope.

(** Clock readings: seconds since the epoch, far from the end of [int64]. *)
Definition sane (t : Z) : Prop := 0 < t < 2 ^ 62.

Lemma sane_sub t1 t2 : 0 ≤ t1 < 2 ^ 62 → 0 ≤ t2 < 2 ^ 62 → t1 -₆₄ t2 = t1 - t2.
Proof. intros. apply wrap64_id. solve_int64. Qed.

(** The order of the life of a call. *)
Definition rank (s : PhoneCallState) : nat :=
  match s with
  | PhoneCallStateRequested => 0
  | PhoneCallStateRinging => 1
  | PhoneCallStateAccepted => 2
  | PhoneCallStateConfirmed => 3
  | PhoneCallStateDiscarded => 4
  end.

Lemma Terminal_spec c : Terminal c = true ↔ State c = PhoneCallStateDiscarded.
Proof. apply bool_decide_eq_true. Qed.

Lemma not_Terminal_spec c : Terminal c = false ↔ State c ≠ PhoneCallStateDiscarded.
Proof. apply bool_decide_eq_false. Qed.

(** The configuration the service runs with. *)
Record good_config (cfg : Config) : Prop := {
  gc_active : 0 < MaxActivePerUser cfg ≤ max_int64;
  gc_entries : 0 < MaxRegistryEntries cfg ≤ max_int64;
  gc_rate : 0 < SignalingRatePerSecond cfg ≤ max_int64;
  gc_ttl : 0 < TombstoneTTL cfg;
  gc_ring : 0 < RingTimeout cfg;
}.

Definition int64_config (cfg : Config) : Prop :=
  in_int64 (MaxActivePerUser cfg) ∧ in_int64 (MaxRegistryEntries cfg)
  ∧ in_int64 (SignalingRatePerSecond cfg) ∧ in_int64 (TombstoneTTL cfg)
  ∧ in_int64 (RingTimeout cfg).

Lemma withDefaults_good c : int64_config c → good_config (withDefaults c).
Proof.
  intros (H1 & H2 & H3 & H4 & H5). destruct c as [a b d e f]; simpl in *.
  split; simpl.
  - destruct (Z.leb_spec d 0); solve_int64.
  - destruct (Z.leb_spec e 0); solve_int64.
  - destruct (Z.leb_spec f 0); solve_int64.
  - destruct (Z.leb_spec b 0); [done | lia].
  - destruct (Z.leb_spec a 0); [done | lia].
Qed.

Lemma ttl_nonneg cfg : good_config cfg → 0 ≤ tombstoneTTLSec cfg.
Proof. intros H. apply Z.quot_pos; [pose proof (gc_ttl _ H); lia | done]. Qed.

(** * One call *)

(** What the fields of a call on file say about its past. *)
Record call_ok (sha256 : list Z → list Z) (c : PhoneCall) : Prop := {
  co_date : sane (Date c);
  co_hash : length (GAHash c) = gaHashSize;
  co_answered : State c = PhoneCallStateAccepted ∨ State c = PhoneCallStateConfirmed →
    length (GB c) = dhPubSize ∧ allZero (GB c) = false;
  co_unstarted : (rank (State c) < 3)%nat → StartDate c = 0;
  co_started : State c = PhoneCallStateConfirmed → StartDate c ≠ 0;
  co_revealed : StartDate c ≠ 0 →
    length (GA c) = dhPubSize ∧ sha256 (GA c) = GAHash c
    ∧ length (GB c) = dhPubSize ∧ allZero (GB c) = false;
  co_p2p : P2PAllowed c = true → StartDate c ≠ 0
    ∧ UDPP2P (CallerProtocol c) = true ∧ UDPP2P (CalleeProtocol c) = true ∧ PrivacyP2P c = true;
  co_duration : 0 ≤ Duration c ∧ (Duration c ≠ 0 → StartDate c ≠ 0 ∧ Terminal c = true);
  co_discarded : Terminal c = true → sane (DiscardedAt c);
}.

(** How a call may change while it stays on file. *)
Record call_le (c c' : PhoneCall) : Prop := {
  cl_origin : origin c' = origin c;
  cl_rank : (rank (State c) ≤ rank (State c'))%nat;
  cl_final : Terminal c = true → c' = c;
  cl_answer : (2 ≤ rank (State c))%nat →
    GB c' = GB c ∧ Protocol c' = Protocol c ∧ CalleeDevice c' = CalleeDevice c;
  cl_key : (3 ≤ rank (State c))%nat →
    GA c' = GA c ∧ KeyFingerprint c' = KeyFingerprint c ∧ StartDate c' = StartDate c
    ∧ P2PAllowed c' = P2PAllowed c;
}.

#[export] Instance call_le_preorder : PreOrder call_le.
Proof.
  split.
  - intros c. by split.
  - intros a b c [o1 r1 f1 a1 k1] [o2 r2 f2 a2 k2]. split; [congruence | lia | | |].
    + intros H. rewrite f2; [auto|]. by rewrite f1.
    + intros H. destruct a2 as (-> & -> & ->); [lia | auto].
    + intros H. destruct k2 as (-> & -> & -> & ->); [lia | auto].
Qed.

Section transitions.
Context (sha256 : list Z → list Z).
Implicit Types (c : PhoneCall).

Lemma new_call_ok callerID id h now req :
  sane now → length (req_GAHash req) = gaHashSize →
  call_ok sha256 (new_call callerID id h now req).
Proof. intros. split; simpl; try done; by intros [|]. Qed.

Lemma ringing_ok c now :
  State c = PhoneCallStateRequested → call_ok sha256 c →
  call_ok sha256 (set_ringing c now) ∧ call_le c (set_ringing c now).
Proof.
  intros Hs [H1 H2 H3 H4 H5 H6 H7 H8 H9].
  assert (Terminal c = false) as Ht by (apply not_Terminal_spec; congruence).
  assert (StartDate c = 0) as H0 by (apply H4; rewrite Hs; simpl; lia).
  split.
  - split; simpl; try done; [by intros [|] |].
    destruct H8 as [H8 H8']. split; [done|]. intros Hd. by destruct (H8' Hd).
  - split; simpl; rewrite ?Hs; simpl; [done | lia | congruence | lia | lia].
Qed.

Lemma accepted_ok c gb proto negotiated device :
  (rank (State c) < 2)%nat → call_ok sha256 c →
  length gb = dhPubSize → allZero gb = false →
  call_ok sha256 (set_accepted c gb proto negotiated device)
  ∧ call_le c (set_accepted c gb proto negotiated device).
Proof.
  intros Hs [H1 H2 H3 H4 H5 H6 H7 H8 H9] Hg Hz.
  assert (Terminal c = false) as Ht.
  { apply not_Terminal_spec. intros Hd. rewrite Hd in Hs. simpl in Hs. lia. }
  assert (StartDate c = 0) as H0 by (apply H4; lia).
  split.
  - split; simpl; try done.
    + intros Hp. by destruct (H7 Hp).
    + destruct H8 as [H8 H8']. split; [done|]. intros Hd. by destruct (H8' Hd).
  - split; simpl; [done | lia | congruence | lia | lia].
Qed.

Lemma confirmed_ok c ga fp now :
  State c = PhoneCallStateAccepted → call_ok sha256 c → sane now →
  length ga = dhPubSize → sha256 ga = GAHash c →
  call_ok sha256 (set_confirmed c ga fp now) ∧ call_le c (set_confirmed c ga fp now).
Proof.
  intros Hs [H1 H2 H3 H4 H5 H6 H7 H8 H9] Hn Hl Hh.
  assert (Terminal c = false) as Ht by (apply not_Terminal_spec; congruence).
  assert (StartDate c = 0) as H0 by (apply H4; rewrite Hs; simpl; lia).
  assert (now ≠ 0) as Hn0 by (unfold sane in Hn; lia).
  split.
  - split; simpl; try done; try lia.
    + intros _. by apply H3; left.
    + intros _. split_and!; [done | done | apply H3; by left | apply H3; by left].
    + intros Hp. bool_facts. done.
  - split; simpl; rewrite ?Hs; simpl; [done | lia | congruence | done | lia].
Qed.

Lemma discarded_ok c reason slug duration now :
  Terminal c = false → call_ok sha256 c → sane now →
  0 ≤ duration → (duration ≠ 0 → StartDate c ≠ 0) →
  call_ok sha256 (set_discarded c reason slug duration now)
  ∧ call_le c (set_discarded c reason slug duration now).
Proof.
  intros Ht [H1 H2 H3 H4 H5 H6 H7 H8 H9] Hn Hd Hd0.
  split.
  - split; simpl; try done; try lia.
    + by intros [|].
    + split; [done|]. intros. split; auto.
  - split; simpl; [done | destruct (State c); simpl; lia | congruence | done | done].
Qed.
End transitions.

(** * The registry *)

Definition live (e : entry) : bool := negb (Terminal (call e)).
Definition live_of (userID : Z) (e : entry) : Z :=
  b2z (live e && (AdminID (call e) =? userID)).

Record registry_ok (cfg : Config) (sha256 : list Z → list Z) (r : registry) : Prop := {
  ro_id : ∀ id e, byID r !! id = Some e → ID (call e) = id;
  ro_call : ∀ id e, byID r !! id = Some e → call_ok sha256 (call e);
  ro_active : ∀ u, activeOf r u = sum_map (live_of u) (byID r);
  ro_quota : ∀ u, activeOf r u ≤ MaxActivePerUser cfg;
  ro_random : ∀ k id, byRandom r !! k = Some id →
    ∃ e, byID r !! id = Some e ∧ callKey (call e) = k;
  ro_live : ∀ id e, byID r !! id = Some e → live e = true →
    byRandom r !! callKey (call e) = Some id;
  ro_size : Z.of_nat (size (byID r)) ≤ MaxRegistryEntries cfg;
  ro_sig : ∀ id e, byID r !! id = Some e → sig e ∈ dom (sigs r);
  ro_sig_inj : ∀ id1 id2 e1 e2, byID r !! id1 = Some e1 → byID r !! id2 = Some e2 →
    sig e1 = sig e2 → id1 = id2;
  ro_window : ∀ p w, sigs r !! p = Some w →
    0 ≤ sigCount w ≤ SignalingRatePerSecond cfg;
}.

(** [advances r r']: entries of [r'] are entries of [r] that moved forward, or
    new requests on a window of their own; no live entry is lost. *)
Record advances (r r' : registry) : Prop := {
  adv_back : ∀ id e', byID r' !! id = Some e' →
    (∃ e, byID r !! id = Some e ∧ sig e = sig e' ∧ call_le (call e) (call e'))
    ∨ sig e' ∉ dom (sigs r);
  adv_live : ∀ id e, byID r !! id = Some e → live e = true →
    ∃ e', byID r' !! id = Some e' ∧ sig e' = sig e;
  adv_sigs : dom (sigs r) ⊆ dom (sigs r');
}.

Lemma advances_refl r : advances r r.
Proof. split; eauto. intros id e He. left. by exists e. Qed.

(** Advancing composes when the second half loses no entry that was live
    before the first. *)
Lemma advances_trans r1 r2 r3 :
  advances r1 r2 → advances r2 r3 →
  (∀ id e, byID r1 !! id = Some e → live e = true →
     ∃ e', byID r3 !! id = Some e' ∧ sig e' = sig e) →
  advances r1 r3.
Proof.
  intros [b1 l1 s1] [b2 l2 s2] Hl. split; [|done|set_solver].
  intros id e3 He3. destruct (b2 _ _ He3) as [(e2 & He2 & Hs & Hle)|Hs].
  - destruct (b1 _ _ He2) as [(e1 & He1 & Hs1 & Hle1)|Hs1].
    + left. exists e1. split_and!; [done | congruence | by etrans].
    + right. by rewrite <- Hs.
  - right. set_solver.
Qed.

Section registry.
Context (cfg : Config) (sha256 : list Z → list Z) (Hcfg : good_config cfg).
Implicit Types (r : registry) (e : entry) (c : PhoneCall).
Local Notation ok := (registry_ok cfg sha256).

Lemma newRegistry_ok : ok newRegistry.
Proof.
  pose proof (gc_active _ Hcfg). pose proof (gc_entries _ Hcfg).
  split; unfold activeOf; simpl; try done; intros.
  - rewrite lookup_empty. simpl. lia.
  - rewrite map_size_empty. lia.
Qed.

Lemma live_of_nonneg u e : 0 ≤ live_of u e ≤ 1.
Proof. unfold live_of. destruct (_ && _); simpl; lia. Qed.

Lemma live_of_le_active r id e : ok r → byID r !! id = Some e → live e = true →
  1 ≤ activeOf r (AdminID (call e)).
Proof.
  intros Hok He Hl. rewrite (ro_active _ _ _ Hok).
  transitivity (live_of (AdminID (call e)) e).
  - unfold live_of. rewrite Hl, Z.eqb_refl. done.
  - eapply (sum_map_ge (live_of _)); [|done]. intros. apply live_of_nonneg.
Qed.

(** ** Quota counters *)

Lemma activeOf_dec r u v :
  1 ≤ activeOf r u → activeOf r u ≤ MaxActivePerUser cfg →
  activeOf (decActiveLocked u r) v = activeOf r v - b2z (u =? v).
Proof.
  intros H1 H2. pose proof (gc_active _ Hcfg) as Hm.
  assert (in_int64 (activeOf r u - 1)) as Hr by solve_int64.
  unfold decActiveLocked, activeOf at 1. fold (activeOf r u).
  destruct (Z.leb_spec (activeOf r u) 1); simpl.
  - destruct (Z.eqb_spec u v) as [->|Hne].
    + rewrite lookup_delete_eq. simpl. lia.
    + rewrite lookup_delete_ne by done. fold (activeOf r v). simpl. lia.
  - destruct (Z.eqb_spec u v) as [->|Hne].
    + rewrite lookup_insert_eq. simpl. rewrite wrap64_id by done. lia.
    + rewrite lookup_insert_ne by done. fold (activeOf r v). simpl. lia.
Qed.

Lemma decActive_byID u r : byID (decActiveLocked u r) = byID r.
Proof. unfold decActiveLocked. by destruct (_ <=? _). Qed.
Lemma decActive_byRandom u r : byRandom (decActiveLocked u r) = byRandom r.
Proof. unfold decActiveLocked. by destruct (_ <=? _). Qed.
Lemma decActive_sigs u r : sigs (decActiveLocked u r) = sigs r.
Proof. unfold decActiveLocked. by destruct (_ <=? _). Qed.

(** ** In-place transitions *)

(** An update of the call filed under [id] that keeps its origin; the quota
    drops by one when the call ends. *)
Record transition (id : Z) (e : entry) (c' : PhoneCall) (r r' : registry) : Prop := {
  tr_found : byID r !! id = Some e;
  tr_live : live e = true;
  tr_ok : call_ok sha256 c';
  tr_le : call_le (call e) c';
  tr_byID : byID r' = <[id := set_call e c']> (byID r);
  tr_byRandom : byRandom r' = byRandom r;
  tr_sigs : sigs r' = sigs r;
  tr_active : ∀ u, activeOf r' u =
    activeOf r u - b2z (Terminal c' && (AdminID (call e) =? u));
}.

Lemma transition_ok id e c' r r' : transition id e c' r r' → ok r → ok r'.
Proof.
  intros [Hf Hl Hc Hle HI HR HS HA] [i1 i2 i3 i4 i5 i6 i7 i8 i9 i10].
  pose proof (cl_origin _ _ Hle) as Ho.
  split; rewrite ?HI, ?HR, ?HS; try done.
  - intros id' e' [[<- <-]|[Hne He']]%lookup_insert_Some; [|eauto].
    simpl. rewrite Ho. eauto.
  - intros id' e' [[<- <-]|[Hne He']]%lookup_insert_Some; eauto.
  - intros u. rewrite HA, i3, sum_map_insert, Hf. unfold live_of, live in *. simpl.
    rewrite Ho. apply negb_true_iff in Hl. rewrite Hl.
    destruct (Terminal c'), (AdminID (call e) =? u); simpl; lia.
  - intros u. rewrite HA. pose proof (i4 u). destruct (_ && _); simpl; lia.
  - intros k id' Hk. destruct (i5 _ _ Hk) as (e1 & He1 & Hk1).
    destruct (decide (id = id')) as [<-|Hne].
    + rewrite lookup_insert_eq. eexists. split; [done|]. simpl.
      unfold callKey. rewrite Ho. rewrite Hf in He1. by simplify_eq.
    + rewrite lookup_insert_ne by done. eauto.
  - intros id' e' [[<- <-]|[Hne He']]%lookup_insert_Some Hl'; [|eauto].
    unfold callKey. simpl. rewrite Ho. by apply i6.
  - by rewrite map_size_insert_Some by (by rewrite Hf).
  - intros id' e' [[<- <-]|[Hne He']]%lookup_insert_Some; simpl; eauto.
  - intros a b ea eb [[<- <-]|[Hna Ha]]%lookup_insert_Some
      [[<- <-]|[Hnb Hb]]%lookup_insert_Some; simpl; eauto.
Qed.

Lemma transition_advances id e c' r r' : transition id e c' r r' → advances r r'.
Proof.
  intros [Hf Hl Hc Hle HI HR HS HA]. split; rewrite ?HI, ?HS; [| |done].
  - intros id' e' [[<- <-]|[Hne He']]%lookup_insert_Some; left.
    + exists e. done.
    + by exists e'.
  - intros id' e' He' _. destruct (decide (id = id')) as [<-|Hne].
    + rewrite lookup_insert_eq. eexists. split; [done|]. simpl. by simplify_eq.
    + rewrite lookup_insert_ne by done. by exists e'.
Qed.

(** A transition between two live states only touches the entry. *)
Lemma replace_transition id e c' r :
  byID r !! id = Some e → live e = true → Terminal c' = false →
  call_ok sha256 c' → call_le (call e) c' →
  transition id e c' r (with_byID (<[id := set_call e c']> (byID r)) r).
Proof.
  intros. split; try done. intros u. replace (Terminal c') with false by done. simpl.
  unfold activeOf. simpl. lia.
Qed.

Lemma markDiscarded_transition id e reason slug d now r :
  ok r → byID r !! id = Some e → live e = true → sane now →
  0 ≤ d → (d ≠ 0 → StartDate (call e) ≠ 0) →
  transition id e (set_discarded (call e) reason slug d now) r
    (markDiscardedWithSlugLocked id e reason slug d now r).
Proof.
  intros Hok He Hl Hn Hd Hd0.
  assert (Terminal (call e) = false) as Ht by by apply negb_true_iff in Hl.
  destruct (discarded_ok sha256 (call e) reason slug d now) as [Hc Hle];
    [done | by eapply ro_call | done | done | done |].
  unfold markDiscardedWithSlugLocked. rewrite Ht.
  split; rewrite ?decActive_byID, ?decActive_byRandom, ?decActive_sigs; try done.
  intros u. rewrite activeOf_dec.
  - unfold activeOf. simpl. done.
  - by apply (live_of_le_active r id).
  - apply (ro_quota _ _ _ Hok).
Qed.

Lemma markDiscarded_snapshot id e reason slug d now r c :
  live e = true →
  snapshot (markDiscardedWithSlugLocked id e reason slug d now r) id c
  = set_discarded (call e) reason slug d now.
Proof.
  intros Hl. assert (Terminal (call e) = false) as Ht by by apply negb_true_iff in Hl.
  unfold markDiscardedWithSlugLocked, snapshot. rewrite Ht, decActive_byID. simpl.
  by rewrite lookup_insert_eq.
Qed.

(** ** The tombstone sweep *)

Lemma removeLocked_byID id e r : byID (removeLocked id e false r) = delete id (byID r).
Proof. unfold removeLocked. simpl. by repeat case_match. Qed.
Lemma removeLocked_sigs id e r : sigs (removeLocked id e false r) = sigs r.
Proof. unfold removeLocked. simpl. by repeat case_match. Qed.
Lemma removeLocked_active id e r : active (removeLocked id e false r) = active r.
Proof. unfold removeLocked. simpl. by repeat case_match. Qed.

Lemma removeLocked_byRandom id e r k :
  byRandom (removeLocked id e false r) !! k =
  if bool_decide (k = callKey (call e) ∧ byRandom r !! k = Some id) then None else byRandom r !! k.
Proof.
  unfold removeLocked. simpl.
  destruct (byRandom r !! callKey (call e)) as [id'|] eqn:Hk.
  - destruct (Z.eqb_spec id' id) as [->|Hne]; simpl.
    + case_bool_decide as Hd.
      * destruct Hd as [-> _]. apply lookup_delete_eq.
      * rewrite lookup_delete_ne; [done|]. intros <-. tauto.
    + case_bool_decide as Hd; [|done]. destruct Hd as [-> Hd]. congruence.
  - case_bool_decide as Hd; [|done]. destruct Hd as [-> Hd]. congruence.
Qed.

Lemma removeLocked_ok id e r :
  ok r → byID r !! id = Some e → live e = false → ok (removeLocked id e false r).
Proof.
  intros [i1 i2 i3 i4 i5 i6 i7 i8 i9 i10] He Hl.
  assert (∀ u, activeOf (removeLocked id e false r) u = activeOf r u) as HA
    by (intros; unfold activeOf; by rewrite removeLocked_active).
  split; rewrite ?removeLocked_byID, ?removeLocked_sigs; try done.
  - intros id' e' [_ H]%lookup_delete_Some. eauto.
  - intros id' e' [_ H]%lookup_delete_Some. eauto.
  - intros u. rewrite HA, i3, sum_map_delete, He. simpl.
    replace (live_of u e) with 0; [lia|]. unfold live_of. by rewrite Hl.
  - intros u. by rewrite HA.
  - intros k id'. rewrite removeLocked_byRandom. case_bool_decide as Hd; [done|].
    intros Hk. destruct (i5 _ _ Hk) as (e' & He' & Hk').
    exists e'. split; [|done]. rewrite lookup_delete_ne; [done|].
    intros <-. simplify_eq. tauto.
  - intros id' e' [Hne H]%lookup_delete_Some Hl'.
    rewrite removeLocked_byRandom, (i6 _ _ H Hl').
    case_bool_decide as Hd; [|done]. destruct Hd as [_ Hd]. simplify_eq.
  - pose proof (map_size_delete_Some id (byID r)) as Hsz. rewrite Hsz by (by rewrite He). lia.
  - intros id' e' [_ H]%lookup_delete_Some. eauto.
  - intros a b ea eb [_ Ha]%lookup_delete_Some [_ Hb]%lookup_delete_Some. eauto.
Qed.

(** What remains of an entry after a sweep that visits [ids]. *)
Definition swept (now ttl : Z) (ids : list Z) (id : Z) (e : entry) : option entry :=
  if bool_decide (id ∈ ids) && tombstone_due now ttl (call e) then None else Some e.

Lemma sweepOne_ok now ttl r id :
  ok r → ok (sweepOne now ttl r id) ∧ sigs (sweepOne now ttl r id) = sigs r
  ∧ active (sweepOne now ttl r id) = active r
  ∧ ∀ id', byID (sweepOne now ttl r id) !! id' = byID r !! id' ≫= swept now ttl [id] id'.
Proof.
  intros Hok. unfold sweepOne, swept.
  assert (∀ id', byID r !! id' = byID r !! id' ≫= Some) as Hid
    by (intros id'; by destruct (byID r !! id')).
  destruct (byID r !! id) as [e|] eqn:He; [|].
  - destruct (tombstone_due now ttl (call e)) eqn:Ht.
    + rewrite removeLocked_sigs, removeLocked_active, removeLocked_byID.
      split_and!; [|done|done|].
      * apply removeLocked_ok; [done|done|]. unfold tombstone_due in Ht. bool_facts.
        unfold live. apply negb_false_iff. done.
      * intros id'. destruct (decide (id' = id)) as [->|Hne].
        -- rewrite lookup_delete_eq, He. simpl.
           rewrite bool_decide_true by apply list_elem_of_here. by rewrite Ht.
        -- rewrite lookup_delete_ne by done.
           rewrite bool_decide_false by (rewrite list_elem_of_singleton; done). apply Hid.
    + split_and!; [done..|]. intros id'. case_bool_decide as Hd; [|apply Hid].
      apply list_elem_of_singleton in Hd as ->. rewrite He. simpl. by rewrite Ht.
  - split_and!; [done..|]. intros id'. case_bool_decide as Hd; [|apply Hid].
    apply list_elem_of_singleton in Hd as ->. by rewrite He.
Qed.

Lemma sweep_ok now ttl ids r :
  ok r → let r' := sweepTombstonesLocked now ttl ids r in
  ok r' ∧ sigs r' = sigs r ∧ active r' = active r
  ∧ ∀ id, byID r' !! id = byID r !! id ≫= swept now ttl ids id.
Proof.
  revert r. induction ids as [|i ids IH]; intros r Hok; simpl.
  - split_and!; [done..|]. intros id. by destruct (byID r !! id).
  - destruct (sweepOne_ok now ttl r i Hok) as (Hok1 & Hs1 & Ha1 & H1).
    destruct (IH _ Hok1) as (Hok2 & Hs2 & Ha2 & H2).
    split_and!; [done | congruence | congruence |].
    intros id. rewrite H2, H1. destruct (byID r !! id) as [e|]; [|done].
    simpl. unfold swept.
    destruct (tombstone_due now ttl (call e)) eqn:Ht;
      repeat case_bool_decide; simpl; rewrite ?Ht; simpl; try done; set_solver.
Qed.

Lemma sweep_live now ttl ids r id e :
  ok r → byID r !! id = Some e → live e = true →
  byID (sweepTombstonesLocked now ttl ids r) !! id = Some e.
Proof.
  intros Hok He Hl. destruct (sweep_ok now ttl ids r Hok) as (_ & _ & _ & H).
  rewrite H, He. simpl. unfold swept, tombstone_due, live in *. bool_facts.
  by rewrite Hl, andb_false_r.
Qed.

Lemma sweep_advances now ttl ids r :
  ok r → advances r (sweepTombstonesLocked now ttl ids r).
Proof.
  intros Hok. destruct (sweep_ok now ttl ids r Hok) as (_ & Hs & _ & H).
  split; [| |by rewrite Hs].
  - intros id e'. rewrite H. intros (e & He & Hsw)%option.bind_Some. left. exists e.
    unfold swept in Hsw. destruct (_ && _); [done|]. by simplify_eq.
  - intros id e He Hl. exists e. split; [|done]. by apply sweep_live.
Qed.

(** ** Filing a call *)

Lemma insert_call_ok caller id h now req r :
  let c := new_call caller id h now req in
  ok r → byID r !! id = None → sane now → length (req_GAHash req) = gaHashSize →
  pendingDuplicate r (callKey c) = None →
  Z.of_nat (size (byID r)) < MaxRegistryEntries cfg → activeOf r caller < MaxActivePerUser cfg →
  ok (insert_call caller id c r).
Proof.
  intros c [i1 i2 i3 i4 i5 i6 i7 i8 i9 i10] Hnew Hn Hh Hdup Hsz Hq.
  pose proof (gc_active _ Hcfg) as Hma. pose proof (gc_rate _ Hcfg) as Hmr.
  set (p := fresh (dom (sigs r))).
  assert (p ∉ dom (sigs r)) as Hp by apply is_fresh.
  assert (∀ id' e', byID r !! id' = Some e' → sig e' ≠ p) as Hpe
    by (intros id' e' He' Heq; apply Hp; rewrite <- Heq; eauto).
  assert (∀ u, activeOf (insert_call caller id c r) u
               = activeOf r u + b2z (caller =? u)) as HA.
  { intros u. unfold activeOf at 1. simpl.
    assert (0 ≤ activeOf r caller).
    { rewrite i3. apply sum_map_nonneg. intros. apply live_of_nonneg. }
    destruct (Z.eqb_spec caller u) as [->|Hne].
    - rewrite lookup_insert_eq. simpl. rewrite wrap64_id; [done|]. solve_int64.
    - rewrite lookup_insert_ne by done. fold (activeOf r u). simpl. lia. }
  split.
  - simpl. intros id' e' [[<- <-]|[Hne He']]%lookup_insert_Some; [done|eauto].
  - simpl. intros id' e' [[<- <-]|[Hne He']]%lookup_insert_Some; [by apply new_call_ok|eauto].
  - intros u. rewrite HA, i3. simpl. rewrite sum_map_insert, Hnew. simpl. unfold live_of at 3.
    simpl. lia.
  - intros u. rewrite HA. pose proof (i4 u). destruct (Z.eqb_spec caller u) as [->|]; simpl; lia.
  - simpl. intros k id' [[<- <-]|[Hne Hk]]%lookup_insert_Some.
    + rewrite lookup_insert_eq. by eexists.
    + destruct (i5 _ _ Hk) as (e' & He' & Hk'). exists e'.
      rewrite lookup_insert_ne; [done|]. intros <-. congruence.
  - simpl. intros id' e' [[<- <-]|[Hne He']]%lookup_insert_Some Hl; [apply lookup_insert_eq|].
    rewrite lookup_insert_ne; [by apply i6|]. intros Heq.
    unfold pendingDuplicate in Hdup. rewrite Heq, (i6 _ _ He' Hl), He' in Hdup.
    unfold live in Hl. bool_facts. by rewrite Hl in Hdup.
  - simpl. rewrite map_size_insert_None by done. lia.
  - simpl. intros id' e' [[<- <-]|[Hne He']]%lookup_insert_Some; [set_solver|].
    apply i8 in He'. set_solver.
  - simpl. intros a b ea eb [[<- <-]|[Hna Ha]]%lookup_insert_Some
      [[<- <-]|[Hnb Hb]]%lookup_insert_Some; simpl; eauto.
    + intros Heq. by destruct (Hpe _ _ Hb).
    + intros Heq. by destruct (Hpe _ _ Ha).
  - simpl. intros q w [[<- <-]|[Hne Hw]]%lookup_insert_Some; [simpl; lia|eauto].
Qed.

Lemma insert_call_advances caller id c r :
  ok r → byID r !! id = None → advances r (insert_call caller id c r).
Proof.
  intros Hok Hnew. split; simpl; [| |set_solver].
  - intros id' e' [[<- <-]|[Hne He']]%lookup_insert_Some.
    + right. simpl. apply is_fresh.
    + left. by exists e'.
  - intros id' e' He' _. exists e'. rewrite lookup_insert_ne; [done|]. intros <-. congruence.
Qed.
End registry.
