(* ===== verification/PhoneRun.v ===== *)
(** Runs of the call service: every method as a step on the registry, and the
    lemma that each of them keeps the invariant and only advances calls. *)

From S2P Require Import Prelude Phone PhoneInv.

Open Scope Z_scope.

(** The ids on file, in the order a loop over the map visits them. *)
Definition keys_of (r : registry) : list Z := (map_to_list (byID r)).*1.
Definition iterates (ids : list Z) (r : registry) : Prop := ids ≡ₚ keys_of r.

Lemma iterates_elem ids r id : iterates ids r → id ∈ ids ↔ is_Some (byID r !! id).
Proof.
  intros ->. unfold keys_of. rewrite list_elem_of_fmap. split.
  - intros ([id' e] & -> & H%elem_of_map_to_list). by exists e.
  - intros [e He]. exists (id, e). split; [done|]. by apply elem_of_map_to_list.
Qed.

Lemma iterates_NoDup ids r : iterates ids r → NoDup ids.
Proof. intros ->. apply NoDup_fst_map_to_list. Qed.

Lemma lookupLocked_OK r id h e :
  lookupLocked r id h = OK e ↔ byID r !! id = Some e ∧ AccessHash (call e) = h.
Proof.
  unfold lookupLocked. destruct (byID r !! id) as [e'|]; [|naive_solver].
  destruct (Z.eqb_spec (AccessHash (call e')) h); naive_solver.
Qed.

Lemma validateProtocol_None p :
  validateProtocol p = None ↔
  MinLayer p ≤ MaxLayer p ∧ minSupportedLayer ≤ MaxLayer p
  ∧ (UDPP2P p = true ∨ UDPReflector p = true) ∧ LibraryVersions p ≠ [].
Proof.
  unfold validateProtocol.
  destruct (Z.ltb_spec (MaxLayer p) (MinLayer p)), (Z.ltb_spec (MaxLayer p) minSupportedLayer);
    destruct (UDPP2P p), (UDPReflector p), (LibraryVersions p); simpl; naive_solver lia.
Qed.

(** * Steps *)

Inductive phone_op :=
  | DoRequestCall (caller : Z) (req : PhoneCallRequest) (now : Z) (ids : list Z)
      (draw : nat → option Z)
  | DoReceivedCall (user id hash now : Z)
  | DoAcceptCall (order : gset string → list string) (user id hash : Z) (gb : list Z)
      (proto : PhoneCallProtocol) (device : SessionRef)
  | DoConfirmCall (user id hash : Z) (ga : list Z) (fp : Z) (proto : PhoneCallProtocol) (now : Z)
  | DoDiscardCall (user id hash : Z) (reason : PhoneCallDiscardReason) (slug : string)
      (duration now : Z)
  | DoExpireDue (now : Z) (ids1 ids2 : list Z)
  | DoSend (p : nat) (now : Z).

Definition run_op (cfg : Config) (sha256 : list Z → list Z) (op : phone_op) (r : registry)
    : registry :=
  match op with
  | DoRequestCall caller req now ids draw => (RequestCall cfg caller req now ids draw r).2
  | DoReceivedCall user id hash now => (ReceivedCall user id hash now r).2
  | DoAcceptCall order user id hash gb proto device =>
      (AcceptCall order user id hash gb proto device r).2
  | DoConfirmCall user id hash ga fp proto now =>
      (ConfirmCall sha256 user id hash ga fp proto now r).2
  | DoDiscardCall user id hash reason slug duration now =>
      (DiscardCallWithSlug user id hash reason slug duration now r).2
  | DoExpireDue now ids1 ids2 => (ExpireDue cfg now ids1 ids2 r).2
  | DoSend p now => (Signal_send cfg p now r).2
  end.

(** What the runtime guarantees: sane clock readings and loops that visit
    every entry once. *)
Definition op_ok (op : phone_op) (r : registry) : Prop :=
  match op with
  | DoRequestCall _ _ now ids _ => sane now ∧ iterates ids r
  | DoExpireDue now ids1 ids2 => sane now ∧ iterates ids1 r ∧ iterates ids2 r
  | DoReceivedCall _ _ _ now | DoConfirmCall _ _ _ _ _ _ now
  | DoDiscardCall _ _ _ _ _ _ now | DoSend _ now => sane now
  | DoAcceptCall order _ _ _ _ _ _ => ∀ s, order s ≡ₚ elements s
  end.

Definition phone_step (cfg : Config) (sha256 : list Z → list Z) (r r' : registry) : Prop :=
  ∃ op, op_ok op r ∧ r' = run_op cfg sha256 op r.

(** * Expiry *)

(** The call [ExpireDue] leaves behind for a call whose time is up. *)
Definition expire_call (now : Z) (c : PhoneCall) : PhoneCall :=
  set_discarded c (expire_reason (State c)) "" 0 now.

Definition expire_entry (now ring : Z) (e : entry) : entry :=
  if ring_due now ring (call e) then set_call e (expire_call now (call e)) else e.

Definition expired_call (now ring : Z) (r : registry) (id : Z) : option PhoneCall :=
  e ← byID r !! id; if ring_due now ring (call e) then Some (expire_call now (call e)) else None.

Section ops.
Context (cfg : Config) (sha256 : list Z → list Z) (Hcfg : good_config cfg).
Implicit Types (r : registry) (e : entry).
Local Notation ok := (registry_ok cfg sha256).

Definition good_move r r' : Prop := ok r' ∧ advances r r'.

Lemma call_stay_good r : ok r → good_move r r.
Proof. split; [done | apply advances_refl]. Qed.

Lemma transition_good id e c' r r' :
  transition sha256 id e c' r r' → ok r → good_move r r'.
Proof. intros Ht Hok. split; [by eapply transition_ok | by eapply transition_advances]. Qed.

Lemma ring_due_live now ring e : ring_due now ring (call e) = true → live e = true.
Proof. unfold ring_due, live. destruct (Terminal _); [done|]. by intros. Qed.

Lemma expireOne_ok now ring out r id :
  ok r → sane now →
  let res := expireOne now ring (out, r) id in
  res.1 = out ++ option_list (expired_call now ring r id)
  ∧ good_move r res.2 ∧ sigs res.2 = sigs r
  ∧ ∀ id', byID res.2 !! id' =
      (if bool_decide (id' = id) then expire_entry now ring <$> byID r !! id else byID r !! id').
Proof.
  intros Hok Hn. unfold expireOne, expired_call, expire_entry.
  assert (∀ id', byID r !! id' = if bool_decide (id' = id) then byID r !! id else byID r !! id')
    as Hid by (intros id'; by case_bool_decide; subst).
  destruct (byID r !! id) as [e|] eqn:He; simpl; [|rewrite app_nil_r; eauto using call_stay_good].
  destruct (ring_due now ring (call e)) eqn:Hd; simpl;
    [|rewrite app_nil_r; eauto using call_stay_good].
  pose proof (ring_due_live _ _ _ Hd) as Hl.
  assert (transition sha256 id e (expire_call now (call e)) r
            (markDiscardedLocked id e (expire_reason (State (call e))) 0 now r)) as Ht
    by (eapply markDiscarded_transition; eauto; lia).
  split_and!.
  - unfold markDiscardedLocked. by rewrite markDiscarded_snapshot.
  - by eapply transition_good.
  - by rewrite (tr_sigs _ _ _ _ _ _ Ht).
  - intros id'. rewrite (tr_byID _ _ _ _ _ _ Ht). case_bool_decide as Hi.
    + subst. by rewrite lookup_insert_eq.
    + by rewrite lookup_insert_ne.
Qed.

#[local] Arguments expireOne : simpl never.

(** The loop of [ExpireDue]: its output and its effect, entry by entry. *)
Lemma expire_loop_ok now ring ids out r :
  ok r → sane now → NoDup ids →
  let res := fold_left (expireOne now ring) ids (out, r) in
  res.1 = out ++ omap (expired_call now ring r) ids
  ∧ good_move r res.2 ∧ sigs res.2 = sigs r
  ∧ ∀ id, byID res.2 !! id =
      (if bool_decide (id ∈ ids) then expire_entry now ring <$> byID r !! id else byID r !! id).
Proof.
  intros Hok Hn. revert out r Hok.
  induction ids as [|i ids IH]; intros out r Hok Hnd; simpl.
  { rewrite app_nil_r. eauto using call_stay_good. }
  apply NoDup_cons in Hnd as [Hi Hnd].
  destruct (expireOne_ok now ring out r i Hok Hn) as (Ho1 & [Hok1 Ha1] & Hs1 & H1).
  destruct (expireOne now ring (out, r) i) as [out1 r1]. simpl in *. subst out1.
  destruct (IH (out ++ option_list (expired_call now ring r i)) r1 Hok1 Hnd)
    as (Ho2 & [Hok2 Ha2] & Hs2 & H2).
  assert (∀ id, id ∈ ids → byID r1 !! id = byID r !! id) as Hsame
    by (intros id Hid; rewrite H1, bool_decide_false; [done | by intros ->]).
  split_and!.
  - rewrite Ho2, <- app_assoc. f_equal.
    rewrite (list_omap_ext _ (expired_call now ring r) ids ids).
    + by destruct (expired_call now ring r i).
    + apply Forall_Forall2_diag, Forall_forall. intros id Hid.
      unfold expired_call. by rewrite Hsame.
  - split; [done|]. apply (advances_trans _ r1); [done|done|].
    intros id e He _. rewrite H2, H1. repeat case_bool_decide; subst; rewrite ?He; simpl;
      (eexists; split; [done|]); unfold expire_entry; repeat case_match; done.
  - congruence.
  - intros id. rewrite H2. destruct (decide (id ∈ ids)) as [Hin|Hin].
    + rewrite !bool_decide_true by set_solver. by rewrite Hsame.
    + rewrite (bool_decide_false (id ∈ ids)) by done. rewrite H1.
      destruct (decide (id = i)) as [->|Hne].
      * rewrite !bool_decide_true by set_solver. done.
      * rewrite !bool_decide_false by set_solver. done.
Qed.

(** The entry [id] after [ExpireDue]. *)
Definition after_expiry (now : Z) (e : entry) : option entry :=
  if ring_due now (ringSec cfg) (call e) then Some (set_call e (expire_call now (call e)))
  else if tombstone_due now (tombstoneTTLSec cfg) (call e) then None
  else Some e.

Lemma fresh_tombstone now e :
  tombstone_due now (tombstoneTTLSec cfg) (expire_call now (call e)) = false.
Proof.
  unfold tombstone_due. simpl. rewrite Z.sub_diag.
  change (wrap64 0) with 0. pose proof (ttl_nonneg _ Hcfg).
  destruct (Z.ltb_spec (tombstoneTTLSec cfg) 0); lia.
Qed.

Lemma ExpireDue_ok now ids1 ids2 r :
  ok r → sane now → iterates ids1 r → iterates ids2 r →
  let '(out, r') := ExpireDue cfg now ids1 ids2 r in
  out = omap (expired_call now (ringSec cfg) r) ids1
  ∧ good_move r r' ∧ sigs r' = sigs r
  ∧ ∀ id, byID r' !! id = byID r !! id ≫= after_expiry now.
Proof.
  intros Hok Hn Hi1 Hi2. unfold ExpireDue.
  destruct (expire_loop_ok now (ringSec cfg) ids1 [] r Hok Hn)
    as (Ho & [Hok1 Ha1] & Hs1 & H1); [by eapply iterates_NoDup|].
  destruct (fold_left _ ids1 ([], r)) as [out r1]. simpl in *.
  destruct (sweep_ok cfg sha256 Hcfg now (tombstoneTTLSec cfg) ids2 r1 Hok1)
    as (Hok2 & Hs2 & _ & H2).
  assert (∀ id, byID r1 !! id = expire_entry now (ringSec cfg) <$> byID r !! id) as H1'.
  { intros id. rewrite H1. case_bool_decide as Hin; [done|].
    rewrite (iterates_elem _ _ _ Hi1), <- eq_None_not_Some in Hin. by rewrite Hin. }
  assert (∀ id, byID (sweepTombstonesLocked now (tombstoneTTLSec cfg) ids2 r1) !! id
                = byID r !! id ≫= after_expiry now) as Hfin.
  { intros id. rewrite H2, H1'. destruct (byID r !! id) as [e|] eqn:He; [|done]. simpl.
    unfold swept. rewrite bool_decide_true by (apply (iterates_elem _ _ _ Hi2); by eexists).
    unfold after_expiry, expire_entry. simpl.
    destruct (ring_due now (ringSec cfg) (call e)); [|done]. simpl. by rewrite fresh_tombstone. }
  split_and!; [done | | congruence | done].
  split; [done|]. apply (advances_trans _ r1); [done | by eapply sweep_advances|].
  intros id e He Hl. rewrite Hfin, He. simpl. unfold after_expiry, tombstone_due.
  destruct (ring_due _ _ _); [by eexists|].
  unfold live in Hl. apply negb_true_iff in Hl. rewrite Hl. simpl. by eexists.
Qed.

(** * The other operations *)

Lemma newIDFrom_OK n i draw r id j :
  newIDFrom n i draw r = OK (id, j) → byID r !! id = None.
Proof.
  revert i. induction n as [|n IH]; intros i; simpl; [done|].
  destruct (randomPositiveInt64 (draw i)) as [v|]; [|done].
  destruct (byID r !! v) eqn:Hv; [eauto | naive_solver].
Qed.

Lemma RequestCall_ok caller req now ids draw r :
  ok r → sane now → good_move r (RequestCall cfg caller req now ids draw r).2.
Proof.
  intros Hok Hn. unfold RequestCall.
  destruct (validateProtocol _); [by apply call_stay_good|].
  destruct (Nat.eqb_spec (length (req_GAHash req)) gaHashSize) as [Hh|]; [|by apply call_stay_good].
  simpl. set (r1 := sweepTombstonesLocked now (tombstoneTTLSec cfg) ids r).
  destruct (sweep_ok cfg sha256 Hcfg now (tombstoneTTLSec cfg) ids r Hok) as (Hok1 & Hs1 & _ & _).
  pose proof (sweep_advances cfg sha256 Hcfg now (tombstoneTTLSec cfg) ids r Hok) as Ha1.
  fold r1 in Hok1, Hs1, Ha1.
  destruct (pendingDuplicate r1 _) eqn:Hdup; [done|].
  destruct (Z.leb_spec (MaxRegistryEntries cfg) (Z.of_nat (size (byID r1)))); [done|].
  destruct (Z.leb_spec (MaxActivePerUser cfg) (activeOf r1 caller)); [done|].
  destruct (newIDLocked draw r1) as [[id i]|] eqn:Hid; [|done].
  apply newIDFrom_OK in Hid.
  destruct (randomPositiveInt64 (draw i)) as [h|]; [|done]. simpl. split.
  - by apply insert_call_ok.
  - apply (advances_trans _ r1); [done | by eapply insert_call_advances |].
    intros id' e He Hl. exists e. split; [|done]. simpl.
    assert (byID r1 !! id' = Some e) by by eapply sweep_live.
    rewrite lookup_insert_ne; [done|]. intros <-. congruence.
Qed.

Lemma ReceivedCall_ok user id hash now r :
  ok r → good_move r (ReceivedCall user id hash now r).2.
Proof.
  intros Hok. unfold ReceivedCall.
  destruct (lookupLocked r id hash) as [e|] eqn:Hlk; [|by apply call_stay_good].
  apply lookupLocked_OK in Hlk as [He _].
  destruct (negb _); [by apply call_stay_good|].
  destruct (decide _) as [Hs|]; [|by apply call_stay_good]. simpl.
  destruct (ringing_ok sha256 (call e) now) as [Hc Hle]; [done | by eapply ro_call|].
  eapply transition_good; [|done]. apply replace_transition; try done.
  unfold live. apply negb_true_iff, not_Terminal_spec. congruence.
Qed.

Lemma AcceptCall_ok order user id hash gb proto device r :
  ok r → good_move r (AcceptCall order user id hash gb proto device r).2.
Proof.
  intros Hok. unfold AcceptCall.
  destruct (validateProtocol proto); [by apply call_stay_good|].
  destruct (Nat.eqb_spec (length gb) dhPubSize) as [Hg|]; simpl; [|by apply call_stay_good].
  destruct (allZero gb) eqn:Hz; [by apply call_stay_good|].
  destruct (lookupLocked r id hash) as [e|] eqn:Hlk; [|by apply call_stay_good].
  apply lookupLocked_OK in Hlk as [He _].
  destruct (negb _); [by apply call_stay_good|].
  assert ((rank (State (call e)) < 2)%nat →
    ∀ neg, good_move r (with_byID (<[id := set_call e (set_accepted (call e) gb proto neg device)]>
                                   (byID r)) r)) as Hacc.
  { intros Hr neg. destruct (accepted_ok sha256 (call e) gb proto neg device) as [Hc Hle];
      [done | by eapply ro_call | done | done|].
    eapply transition_good; [|done]. apply replace_transition; try done.
    unfold live. apply negb_true_iff, not_Terminal_spec. intros Hs. rewrite Hs in Hr.
    simpl in Hr. lia. }
  destruct (State (call e)); try (by apply call_stay_good);
    (destruct (negotiateProtocol _ _ _); [|by apply call_stay_good]);
    apply Hacc; simpl; lia.
Qed.

Lemma ConfirmCall_ok user id hash ga fp proto now r :
  ok r → sane now → good_move r (ConfirmCall sha256 user id hash ga fp proto now r).2.
Proof.
  intros Hok Hn. unfold ConfirmCall.
  destruct (lookupLocked r id hash) as [e|] eqn:Hlk; [|by apply call_stay_good].
  apply lookupLocked_OK in Hlk as [He _].
  destruct (negb _); [by apply call_stay_good|].
  destruct (State (call e)) eqn:Hs; try (by apply call_stay_good).
  destruct (validateProtocol proto); [by apply call_stay_good|].
  assert (live e = true) as Hl
    by (unfold live; apply negb_true_iff, not_Terminal_spec; congruence).
  unfold sha256Mismatch. destruct (_ || _) eqn:Hm; simpl.
  - eapply transition_good; [|done]. eapply markDiscarded_transition; eauto; lia.
  - bool_facts. apply Nat.eqb_eq in H.
    destruct (confirmed_ok sha256 (call e) ga fp now) as [Hc Hle];
      [done | by eapply ro_call | done | done | done|].
    eapply transition_good; [|done]. by apply replace_transition.
Qed.

Lemma DiscardCall_ok user id hash reason slug duration now r :
  ok r → sane now →
  good_move r (DiscardCallWithSlug user id hash reason slug duration now r).2.
Proof.
  intros Hok Hn. unfold DiscardCallWithSlug.
  destruct (lookupLocked r id hash) as [e|] eqn:Hlk; [|by apply call_stay_good].
  apply lookupLocked_OK in Hlk as [He _].
  destruct (negb _); [by apply call_stay_good|].
  destruct (Terminal (call e)) eqn:Ht; [by apply call_stay_good|]. simpl.
  eapply transition_good; [|done]. eapply markDiscarded_transition; eauto.
  - unfold live. by rewrite Ht.
  - destruct (Z.eqb_spec (StartDate (call e)) 0), (Z.ltb_spec duration 0); simpl; lia.
  - destruct (Z.eqb_spec (StartDate (call e)) 0); simpl; [done|]. by intros.
Qed.

Lemma sig_admit_ok now w :
  0 ≤ sigCount w ≤ SignalingRatePerSecond cfg →
  let '(b, w') := sig_admit cfg now w in
  sigWindowSec w' = now ∧ 0 ≤ sigCount w' ≤ SignalingRatePerSecond cfg
  ∧ sigCount w' = (if sigWindowSec w =? now then sigCount w else 0) + b2z b
  ∧ (b = false → sigCount w' = SignalingRatePerSecond cfg).
Proof.
  intros Hw. pose proof (gc_rate _ Hcfg). unfold sig_admit.
  destruct (Z.eqb_spec (sigWindowSec w) now) as [Heq|Hne].
  - destruct (Z.leb_spec (SignalingRatePerSecond cfg) (sigCount w)); simpl.
    + split_and!; [done | lia | lia | lia | lia].
    + rewrite wrap64_id by solve_int64. split_and!; [done | lia | lia | lia | done].
  - simpl. destruct (Z.leb_spec (SignalingRatePerSecond cfg) 0); simpl; [lia|].
    rewrite wrap64_id by solve_int64. split_and!; [done | lia | lia | lia | done].
Qed.

Lemma Signal_send_ok p now r : ok r → good_move r (Signal_send cfg p now r).2.
Proof.
  intros Hok. unfold Signal_send.
  destruct (sigs r !! p) as [w|] eqn:Hw; [|by apply call_stay_good].
  pose proof (sig_admit_ok now w (ro_window _ _ _ Hok _ _ Hw)) as Hadm.
  destruct (sig_admit cfg now w) as [b w']. simpl. destruct Hadm as (_ & Hb & _).
  assert (dom (<[p:=w']> (sigs r)) = dom (sigs r)) as Hdom.
  { rewrite dom_insert_L. assert (p ∈ dom (sigs r)) by by apply elem_of_dom. set_solver. }
  destruct Hok as [i1 i2 i3 i4 i5 i6 i7 i8 i9 i10]. split.
  - split; simpl; try done; [by rewrite Hdom|].
    intros q v [[<- <-]|[Hne Hv]]%lookup_insert_Some; [done | eauto].
  - split; simpl; [| |by rewrite Hdom].
    + intros id e He. left. by exists e.
    + intros id e He _. by exists e.
Qed.

(** Every step keeps the invariant and only advances calls. *)
Lemma phone_step_good r r' : ok r → phone_step cfg sha256 r r' → good_move r r'.
Proof.
  intros Hok (op & Hop & ->). destruct op; simpl in *.
  - destruct Hop. by apply RequestCall_ok.
  - by apply ReceivedCall_ok.
  - by apply AcceptCall_ok.
  - by apply ConfirmCall_ok.
  - by apply DiscardCall_ok.
  - destruct Hop as (Hn & H1 & H2).
    pose proof (ExpireDue_ok now ids1 ids2 r Hok Hn H1 H2) as H.
    destruct (ExpireDue _ _ _ _ _). by destruct H as (_ & ? & _).
  - by apply Signal_send_ok.
Qed.

Lemma phone_steps_ok r r' : ok r → rtc (phone_step cfg sha256) r r' → ok r'.
Proof.
  intros Hok. apply rtc_invariant; [|done]. intros x y Hxy Hx. by apply (phone_step_good x y).
Qed.

(** While the entry filed under [id] with window [p] stays on file, it only
    moves forward. *)
Lemma phone_steps_le r r' id e e' :
  ok r → rtc (phone_step cfg sha256) r r' →
  byID r !! id = Some e → byID r' !! id = Some e' → sig e' = sig e →
  call_le (call e) (call e').
Proof.
  intros Hok Hrun He He' Hsig.
  set (P := λ r', ok r' ∧ sig e ∈ dom (sigs r') ∧ ∀ e', byID r' !! id = Some e' →
              sig e' = sig e → call_le (call e) (call e')).
  assert (P r') as (_ & _ & H); [|by apply H].
  refine (rtc_invariant (phone_step cfg sha256) P r r' _ _ Hrun).
  - intros x y Hxy (Hx & Hd & Hle).
    destruct (phone_step_good x y Hx Hxy) as [Hy [Hb _ Hs]].
    split_and!; [done | set_solver|]. intros e1' He1' Hsig1.
    destruct (Hb _ _ He1') as [(e1 & He1 & Hs1 & Hle1)|Hfresh]; [|by rewrite Hsig1 in Hfresh].
    etrans; [apply Hle; [done|congruence] | done].
  - split_and!; [done | by eapply ro_sig|]. intros e1' He1' _. by simplify_eq.
Qed.
End ops.
