(* ===== verification/PhoneProps.v ===== *)
(** What the call service guarantees: the invariant of every reachable
    registry, the life of a call, answer and confirmation, retries, expiry,
    protocol negotiation and the signalling rate. *)

From S2P Require Import Prelude Phone PhoneInv PhoneRun.

Open Scope Z_scope.

Definition reachable (cfg : Config) (sha256 : list Z → list Z) (r : registry) : Prop :=
  rtc (phone_step cfg sha256) newRegistry r.

Lemma call_reachable_ok cfg sha256 r :
  good_config cfg → reachable cfg sha256 r → registry_ok cfg sha256 r.
Proof. intros Hcfg. apply phone_steps_ok; [done|]. by apply newRegistry_ok. Qed.

(** * Version negotiation *)

Lemma in_both (a b : list string) v :
  v ∈ (list_to_set a ∩ list_to_set b : gset string) ↔ v ∈ a ∧ v ∈ b.
Proof. set_solver. Qed.

Lemma take_best_mem l : ∀ best v,
  fold_left take_best l best = Some v → best = Some v ∨ v ∈ l.
Proof.
  induction l as [|x l IH]; simpl; intros best v Hf; [by left|].
  destruct (IH _ _ Hf) as [Hb|Hin]; [|set_solver].
  unfold take_best in Hb. destruct best as [b|]; [|set_solver].
  destruct (0 <? compareVersion x b); set_solver.
Qed.

Lemma take_best_None l : ∀ best,
  fold_left take_best l best = None ↔ best = None ∧ l = [].
Proof.
  induction l as [|x l IH]; simpl; intros best; [naive_solver|].
  rewrite IH. unfold take_best. destruct best as [b|]; [destruct (0 <? _)|]; naive_solver.
Qed.

Section versions.
Context (order : gset string → list string) (Horder : ∀ s, order s ≡ₚ elements s).

Lemma bestCommonVersion_Some a b v :
  bestCommonVersion order a b = Some v → v ∈ a ∧ v ∈ b.
Proof.
  unfold bestCommonVersion. destruct (List.find _ preferredVersions) as [p|] eqn:Hf.
  - apply List.find_some in Hf as [_ Hin]. intros [= <-].
    apply bool_decide_eq_true in Hin. by apply in_both.
  - intros [?|Hin]%take_best_mem; [done|]. rewrite Horder in Hin.
    apply elem_of_elements in Hin. by apply in_both.
Qed.

Lemma bestCommonVersion_None a b :
  bestCommonVersion order a b = None → ∀ v, v ∈ a → v ∉ b.
Proof.
  unfold bestCommonVersion. destruct (List.find _ preferredVersions) as [p|] eqn:Hf; [done|].
  intros [_ Hnil]%take_best_None v Ha Hb.
  assert (v ∈ order (list_to_set a ∩ list_to_set b)) as Hin
    by (rewrite Horder; apply elem_of_elements; by apply in_both).
  rewrite Hnil in Hin. set_solver.
Qed.

Lemma bestCommonVersion_preferred a b i v :
  preferredVersions !! i = Some v → v ∈ a → v ∈ b →
  (∀ j u, (j < i)%nat → preferredVersions !! j = Some u → ¬ (u ∈ a ∧ u ∈ b)) →
  bestCommonVersion order a b = Some v.
Proof.
  intros Hi Ha Hb Hfirst. unfold bestCommonVersion.
  set (s := (list_to_set a ∩ list_to_set b : gset string)).
  assert (bool_decide (v ∈ s) = true) as Hv by (apply bool_decide_eq_true; by apply in_both).
  assert (∀ j u, (j < i)%nat → preferredVersions !! j = Some u → bool_decide (u ∈ s) = false)
    as Hu by (intros j u Hj Hu; apply bool_decide_eq_false; unfold s; rewrite in_both; eauto).
  destruct i as [|[|[|i]]]; simpl in Hi; simplify_eq; simpl.
  - by rewrite Hv.
  - rewrite (Hu 0%nat "9.0.0"%string) by (done || lia). by rewrite Hv.
  - rewrite (Hu 0%nat "9.0.0"%string), (Hu 1%nat "8.0.0"%string) by (done || lia). by rewrite Hv.
Qed.
End versions.

(** ** Versions made of plain numbers *)

(** [version_key v k]: every dot-separated part of [v] is a number, and these
    are [k].  The bound keeps differences of parts inside an [int]. *)
Definition version_key (v : string) (k : list Z) : Prop :=
  Forall2 (λ s n, Atoi s = Some n ∧ - 2 ^ 62 < n < 2 ^ 62) (split_dot v) k.

(** The numeric order: part by part, a proper prefix first. *)
Fixpoint key_lt (k1 k2 : list Z) : Prop :=
  match k1, k2 with
  | _, [] => False
  | [], _ :: _ => True
  | x :: k1', y :: k2' => x < y ∨ (x = y ∧ key_lt k1' k2')
  end.

Lemma key_lt_trans k1 k2 k3 : key_lt k1 k2 → key_lt k2 k3 → key_lt k1 k3.
Proof.
  revert k2 k3. induction k1 as [|x k1 IH]; intros [|y k2] [|z k3]; simpl; try tauto.
  intros [H1|[-> H1]] [H2|[-> H2]]; [left; lia | by left | by left | right; eauto].
Qed.

Lemma key_lt_irrefl k : ¬ key_lt k k.
Proof. induction k; simpl; [tauto|]. naive_solver lia. Qed.

Lemma compareSegment_num s1 s2 n1 n2 :
  Atoi s1 = Some n1 → Atoi s2 = Some n2 →
  - 2 ^ 62 < n1 < 2 ^ 62 → - 2 ^ 62 < n2 < 2 ^ 62 →
  compareSegment s1 s2 = n1 - n2.
Proof.
  intros H1 H2 B1 B2. unfold compareSegment. rewrite H1, H2.
  destruct (Z.eqb_spec n1 n2); [lia|]. rewrite wrap64_id; [done|]. solve_int64.
Qed.

Lemma compareSegment_missing s n :
  Atoi s = Some n → compareSegment "" s = -1 ∧ compareSegment s "" = 1.
Proof.
  intros H. unfold compareSegment, string_compare. rewrite H. destruct s; [done|]. done.
Qed.

Lemma compareSegments_num n l1 l2 k1 k2 :
  Forall2 (λ s n, Atoi s = Some n ∧ - 2 ^ 62 < n < 2 ^ 62) l1 k1 →
  Forall2 (λ s n, Atoi s = Some n ∧ - 2 ^ 62 < n < 2 ^ 62) l2 k2 →
  (length l1 ≤ n)%nat → (length l2 ≤ n)%nat →
  (compareSegments n l1 l2 < 0 ∧ key_lt k1 k2)
  ∨ (compareSegments n l1 l2 = 0 ∧ k1 = k2)
  ∨ (0 < compareSegments n l1 l2 ∧ key_lt k2 k1).
Proof.
  intros H1. revert n l2 k2. induction H1 as [|s1 n1 l1 k1 [Ha1 Hb1] H1 IH];
    intros n l2 k2 H2 L1 L2; destruct H2 as [|s2 n2 l2 k2 [Ha2 Hb2] H2]; simpl in *.
  - right. left. split; [|done]. clear. induction n; [done|]. simpl. by rewrite IHn.
  - destruct n; [lia|]. simpl. destruct (compareSegment_missing _ _ Ha2) as [-> _].
    by left.
  - destruct n; [lia|]. simpl. destruct (compareSegment_missing _ _ Ha1) as [_ ->].
    by right; right.
  - destruct n; [lia|]. simpl. rewrite (compareSegment_num _ _ _ _ Ha1 Ha2 Hb1 Hb2).
    destruct (Z.eqb_spec (n1 - n2) 0) as [He|He].
    + assert (n1 = n2) as -> by lia.
      destruct (IH n l2 k2 H2) as [[? ?]|[[? ->]|[? ?]]]; [lia | lia | | |]; auto 6.
    + destruct (Z.lt_total n1 n2) as [|[|]]; [left | lia | right; right]; split; auto; lia.
Qed.

Lemma compareVersion_num a b ka kb :
  version_key a ka → version_key b kb → 0 < compareVersion a b ↔ key_lt kb ka.
Proof.
  intros Ha Hb. unfold compareVersion.
  destruct (compareSegments_num (Nat.max (length (split_dot a)) (length (split_dot b)))
    _ _ _ _ Ha Hb) as [[H Hk]|[[H Hk]|[H Hk]]]; [lia | lia | | |].
  - split; [lia|]. intros Hk'. pose proof (key_lt_trans _ _ _ Hk Hk') as Hirr.
    by destruct (key_lt_irrefl _ Hirr).
  - subst. split; [lia|]. intros Hirr. by destruct (key_lt_irrefl _ Hirr).
  - split; [done|lia].
Qed.

Lemma version_key_fun v k1 k2 : version_key v k1 → version_key v k2 → k1 = k2.
Proof.
  unfold version_key. intros H1. revert k2. induction H1 as [|s n l k [Hs _] _ IH];
    inversion 1 as [|? n' ? k' [Hs' _]]; subst; [done|]. f_equal; [congruence | eauto].
Qed.

(** The running best is never beaten by a version already seen. *)
Lemma take_best_max l : ∀ b kb,
  version_key b kb → (∀ v, v ∈ l → ∃ k, version_key v k) →
  ∃ w kw, fold_left take_best l (Some b) = Some w ∧ version_key w kw
    ∧ (kw = kb ∨ key_lt kb kw) ∧ ∀ v k, v ∈ l → version_key v k → ¬ key_lt kw k.
Proof.
  induction l as [|x l IH]; simpl; intros b kb Hb Hl.
  { exists b, kb. split_and!; auto. intros v k Hv. set_solver. }
  destruct (Hl x) as [kx Hx]; [set_solver|].
  pose proof (compareVersion_num x b kx kb Hx Hb) as Hc.
  destruct (Z.ltb_spec 0 (compareVersion x b)) as [Hlt|Hge].
  - destruct (IH x kx Hx) as (w & kw & Hw & Hkw & Hord & Hmax); [set_solver|].
    exists w, kw. split_and!; [done | done | |].
    + right. destruct Hord as [->|]; [by apply Hc|].
      eapply key_lt_trans; [by apply Hc | done].
    + intros v k [->|Hv]%elem_of_cons Hk; [|by eapply Hmax].
      rewrite (version_key_fun _ _ _ Hk Hx).
      destruct Hord as [->|Hord]; intros Hlt'.
      * by apply (key_lt_irrefl kx).
      * by apply (key_lt_irrefl kx), (key_lt_trans _ kw).
  - destruct (IH b kb Hb) as (w & kw & Hw & Hkw & Hord & Hmax); [set_solver|].
    exists w, kw. split_and!; [done | done | done |].
    intros v k [->|Hv]%elem_of_cons Hk; [|by eapply Hmax].
    rewrite (version_key_fun _ _ _ Hk Hx).
    assert (¬ key_lt kb kx) as Hn by (rewrite <- Hc; lia).
    destruct Hord as [->|Hord]; [done|]. intros Hlt'. apply Hn.
    by eapply key_lt_trans.
Qed.

(** The protocol both sides end up with: the intersection of the layer
    windows, P2P only when both allow it, one library version common to both
    (the highest-ranked preferred one when one is common) or the callee's whole
    list when they share none; negotiation fails exactly when the layer windows
    are disjoint, never because of versions. *)
Theorem negotiation_is_sound order caller callee :
  (∀ s, order s ≡ₚ elements s) →
  match negotiateProtocol order caller callee with
  | ERR err => err = ErrProtocolCompatLayerInvalid
      ∧ ∀ l, ¬ (MinLayer caller ≤ l ≤ MaxLayer caller ∧ MinLayer callee ≤ l ≤ MaxLayer callee)
  | OK p =>
      (∀ l, MinLayer p ≤ l ≤ MaxLayer p ↔
        MinLayer caller ≤ l ≤ MaxLayer caller ∧ MinLayer callee ≤ l ≤ MaxLayer callee)
      ∧ MinLayer p ≤ MaxLayer p
      ∧ (UDPP2P p = true ↔ UDPP2P caller = true ∧ UDPP2P callee = true)
      ∧ (UDPReflector p = true ↔ UDPReflector caller = true ∨ UDPReflector callee = true)
      ∧ ((∃ v, LibraryVersions p = [v] ∧ v ∈ LibraryVersions caller ∧ v ∈ LibraryVersions callee)
         ∨ (LibraryVersions p = LibraryVersions callee
            ∧ ∀ v, v ∈ LibraryVersions caller → v ∉ LibraryVersions callee))
      ∧ ∀ i v, preferredVersions !! i = Some v →
          v ∈ LibraryVersions caller → v ∈ LibraryVersions callee →
          (∀ j u, (j < i)%nat → preferredVersions !! j = Some u →
             ¬ (u ∈ LibraryVersions caller ∧ u ∈ LibraryVersions callee)) →
          LibraryVersions p = [v]
  end.
Proof.
  intros Horder. unfold negotiateProtocol.
  set (lo := maxInt (MinLayer caller) (MinLayer callee)).
  set (hi := minInt (MaxLayer caller) (MaxLayer callee)).
  assert (∀ l, lo ≤ l ≤ hi ↔
    MinLayer caller ≤ l ≤ MaxLayer caller ∧ MinLayer callee ≤ l ≤ MaxLayer callee) as Hwin.
  { intros l. unfold lo, hi, maxInt, minInt. destruct (Z.ltb_spec (MinLayer callee) (MinLayer caller)),
      (Z.ltb_spec (MaxLayer caller) (MaxLayer callee)); lia. }
  destruct (Z.ltb_spec hi lo) as [Hlt|Hge].
  { split; [done|]. intros l Hl%Hwin. lia. }
  simpl. split_and!; [done | done | by rewrite andb_true_iff | by rewrite orb_true_iff | |].
  - destruct (bestCommonVersion order _ _) as [v|] eqn:Hb.
    + left. exists v. split; [done|]. by apply (bestCommonVersion_Some order).
    + right. split; [done|]. by apply (bestCommonVersion_None order).
  - intros i v Hi Ha Hb Hfirst.
    by rewrite (bestCommonVersion_preferred order _ _ i v).
Qed.

(** Outside the preferred versions, among common versions that are
    dot-separated numbers the one chosen is the greatest in numeric order,
    whatever the order in which the runtime iterates over the set. *)
Theorem numeric_version_is_greatest order a b :
  (∀ s, order s ≡ₚ elements s) →
  (∀ v, v ∈ preferredVersions → ¬ (v ∈ a ∧ v ∈ b)) →
  (∀ v, v ∈ a → v ∈ b → ∃ k, version_key v k) →
  (∃ v, v ∈ a ∧ v ∈ b) →
  ∃ w kw, bestCommonVersion order a b = Some w ∧ w ∈ a ∧ w ∈ b ∧ version_key w kw
    ∧ ∀ v k, v ∈ a → v ∈ b → version_key v k → v ≠ w → k = kw ∨ key_lt k kw.
Proof.
  intros Horder Hpref Hnum [v0 [Ha0 Hb0]].
  assert (∀ v, v ∈ order (list_to_set a ∩ list_to_set b) ↔ v ∈ a ∧ v ∈ b) as Hin
    by (intros v; rewrite Horder, elem_of_elements; apply in_both).
  assert (∃ w kw, bestCommonVersion order a b = Some w ∧ version_key w kw
    ∧ ∀ v k, v ∈ a → v ∈ b → version_key v k → ¬ key_lt kw k) as (w & kw & Hw & Hkw & Hmax).
  { unfold bestCommonVersion. destruct (List.find _ preferredVersions) as [p|] eqn:Hf.
    { apply List.find_some in Hf as [Hp Hc]. apply bool_decide_eq_true in Hc.
      destruct (Hpref p); [by apply list_elem_of_In in Hp | by apply in_both]. }
    destruct (order _) as [|x l] eqn:Ho.
    { assert (v0 ∈ @nil string) as Hn by by apply Hin. set_solver. }
    destruct (Hnum x) as [kx Hkx]; [apply Hin; set_solver | apply Hin; set_solver |].
    destruct (take_best_max l x kx Hkx) as (w & kw & Hw & Hkw & Hord & Hmax).
    { intros v Hv. apply Hnum; apply Hin; set_solver. }
    exists w, kw. split_and!; [done | done |]. intros v k Hva Hvb Hk.
    assert (v ∈ x :: l) as [->|Hvl]%elem_of_cons by (by apply Hin); [|by apply (Hmax v)].
    rewrite (version_key_fun _ _ _ Hk Hkx). destruct Hord as [->|Hord].
    - apply key_lt_irrefl.
    - intros Hlt. by apply (key_lt_irrefl kx), (key_lt_trans _ kw). }
  exists w, kw. destruct (bestCommonVersion_Some order Horder _ _ _ Hw).
  split_and!; [done..|]. intros v k Hva Hvb Hk Hne.
  specialize (Hmax v k Hva Hvb Hk). clear -Hmax.
  revert kw Hmax. induction k as [|x k IH]; intros [|y kw]; simpl; try tauto.
  intros Hn. destruct (Z.lt_total x y) as [|[->|]]; [by right; left | | tauto].
  destruct (IH kw) as [->|]; [tauto | by left | by right; right].
Qed.

(** outside that case [compareVersion] is not transitive: "10.0" beats "9.0"
    as numbers, "9.0" beats "1a.0" and "1a.0" beats "10.0" as strings, so the
    version chosen depends on the iteration order of a Go map. *)
Theorem version_choice_depends_on_order :
  let vs := ["10.0"; "9.0"; "1a.0"]%string in
  ∃ order1 order2 : gset string → list string,
    (∀ s, order1 s ≡ₚ elements s) ∧ (∀ s, order2 s ≡ₚ elements s)
    ∧ bestCommonVersion order1 vs vs = Some "1a.0"%string
    ∧ bestCommonVersion order2 vs vs = Some "10.0"%string.
Proof.
  intros vs.
  assert (elements (list_to_set vs ∩ list_to_set vs : gset string)
          ≡ₚ ["10.0"; "9.0"; "1a.0"]%string) as Hel.
  { apply NoDup_Permutation; [apply NoDup_elements | by apply (bool_decide_unpack _) |].
    intros v. rewrite elem_of_elements, in_both. unfold vs. set_solver. }
  set (s := (list_to_set vs ∩ list_to_set vs : gset string)) in *.
  set (pick := λ (l : list string) (s' : gset string), if decide (s' = s) then l else elements s').
  exists (pick ["10.0"; "9.0"; "1a.0"]%string), (pick ["9.0"; "1a.0"; "10.0"]%string).
  assert (∀ l, l ≡ₚ ["10.0"; "9.0"; "1a.0"]%string → ∀ s', pick l s' ≡ₚ elements s') as Hpick.
  { intros l Hl s'. unfold pick. destruct (decide _) as [->|]; [|done]. by rewrite Hl, Hel. }
  split_and!; [by apply Hpick | | by vm_compute | by vm_compute].
  apply Hpick. apply (Permutation_app_comm ["9.0"; "1a.0"]%string ["10.0"]%string).
Qed.

(** * The registry *)

(** C6: in every reachable registry the quota counter of a user counts that
    user's live calls and stays within the quota, the number of calls on file
    stays within its limit, a live call is the one its idempotence key points
    to, and a call that was ever confirmed had its key half revealed under the
    hash the caller had committed to. *)
Theorem call_registry_invariant cfg sha256 r :
  good_config cfg → reachable cfg sha256 r →
  (∀ u, activeOf r u = sum_map (live_of u) (byID r) ∧ activeOf r u ≤ MaxActivePerUser cfg)
  ∧ Z.of_nat (size (byID r)) ≤ MaxRegistryEntries cfg
  ∧ ∀ id e, byID r !! id = Some e →
      let c := call e in
      ID c = id
      ∧ (Terminal c = false → byRandom r !! (AdminID c, RandomID c) = Some id)
      ∧ (StartDate c ≠ 0 → sha256 (GA c) = GAHash c ∧ length (GA c) = dhPubSize
           ∧ length (GB c) = dhPubSize ∧ allZero (GB c) = false)
      ∧ (State c = PhoneCallStateConfirmed → StartDate c ≠ 0)
      ∧ (P2PAllowed c = true → StartDate c ≠ 0 ∧ UDPP2P (CallerProtocol c) = true
           ∧ UDPP2P (CalleeProtocol c) = true ∧ PrivacyP2P c = true)
      ∧ (Duration c ≠ 0 → StartDate c ≠ 0 ∧ Terminal c = true).
Proof.
  intros Hcfg Hr. pose proof (call_reachable_ok _ _ _ Hcfg Hr) as Hok. split_and!.
  - intros u. split; [by apply (ro_active _ _ _ Hok) | by apply (ro_quota _ _ _ Hok)].
  - by apply (ro_size _ _ _ Hok).
  - intros id e He c. destruct (ro_call _ _ _ Hok _ _ He) as [H1 H2 H3 H4 H5 H6 H7 [_ H8] H9].
    split_and!; [by eapply ro_id | | naive_solver | done | done | done].
    intros Ht. apply (ro_live _ _ _ Hok _ _ He). unfold live. subst c. by rewrite Ht.
Qed.

(** One step of the service never loses a live call, never changes what was
    fixed when the call was filed, never moves a call backwards, and leaves an
    ended call exactly as it ended; a call that appears is a new entry. *)
Theorem calls_only_advance cfg sha256 r r' :
  good_config cfg → reachable cfg sha256 r → phone_step cfg sha256 r r' →
  (∀ id e, byID r !! id = Some e → Terminal (call e) = false →
     ∃ e', byID r' !! id = Some e' ∧ sig e' = sig e)
  ∧ ∀ id e', byID r' !! id = Some e' →
      sig e' ∉ dom (sigs r)
      ∨ ∃ e, byID r !! id = Some e ∧ sig e = sig e'
          ∧ origin (call e') = origin (call e)
          ∧ (rank (State (call e)) ≤ rank (State (call e')))%nat
          ∧ (Terminal (call e) = true → call e' = call e)
          ∧ (State (call e) = PhoneCallStateConfirmed →
               GA (call e') = GA (call e) ∧ KeyFingerprint (call e') = KeyFingerprint (call e)).
Proof.
  intros Hcfg Hr Hstep. pose proof (call_reachable_ok _ _ _ Hcfg Hr) as Hok.
  destruct (phone_step_good _ _ Hcfg _ _ Hok Hstep) as [_ [Hb Hl _]]. split.
  - intros id e He Ht. apply Hl; [done|]. unfold live. by rewrite Ht.
  - intros id e' He'. destruct (Hb _ _ He') as [(e & He & Hs & [H1 H2 H3 H4 H5])|]; [right|by left].
    exists e. split_and!; try done. intros Hc. rewrite Hc in H5.
    destruct H5 as (? & ? & _); [simpl; lia | done].
Qed.

(** The first device that answers wins: once [AcceptCall] succeeded on a
    call, every later [AcceptCall] on it fails without effect, and the answer,
    the negotiated protocol and the answering device never change again. *)
Theorem first_answer_wins cfg sha256 r order user id hash gb proto device c r1 :
  good_config cfg → reachable cfg sha256 r →
  AcceptCall order user id hash gb proto device r = (OK c, r1) →
  GB c = gb ∧ CalleeDevice c = device
  ∧ ∃ e1, byID r1 !! id = Some e1 ∧ call e1 = c
    ∧ ∀ r2 e2, rtc (phone_step cfg sha256) r1 r2 → byID r2 !! id = Some e2 → sig e2 = sig e1 →
        GB (call e2) = gb ∧ Protocol (call e2) = Protocol c ∧ CalleeDevice (call e2) = device
        ∧ ∀ order' user' hash' gb' proto' device',
            ∃ err, AcceptCall order' user' id hash' gb' proto' device' r2 = (ERR err, r2).
Proof.
  intros Hcfg Hr Hacc. pose proof (call_reachable_ok _ _ _ Hcfg Hr) as Hok.
  pose proof (AcceptCall_ok cfg sha256 order user id hash gb proto device r Hok) as [Hok1 _].
  rewrite Hacc in Hok1. simpl in Hok1.
  assert (∃ e, State c = PhoneCallStateAccepted ∧ GB c = gb ∧ CalleeDevice c = device
            ∧ r1 = with_byID (<[id := set_call e c]> (byID r)) r) as (e & Hs & Hg & Hd & ->).
  { revert Hacc. unfold AcceptCall. repeat case_match; naive_solver. }
  split_and!; [done..|]. eexists. simpl. rewrite lookup_insert_eq. split_and!; [done..|].
  intros r2 e2 Hrun He2 Hsig.
  assert (call_le c (call e2)) as Hle.
  { apply (phone_steps_le cfg sha256 Hcfg _ r2 id (set_call e c) e2 Hok1 Hrun); [|done|done].
    apply lookup_insert_eq. }
  destruct (cl_answer _ _ Hle) as (-> & -> & ->); [rewrite Hs; simpl; lia|].
  split_and!; [done..|]. intros order' user' hash' gb' proto' device'.
  pose proof (cl_rank _ _ Hle) as Hrank. rewrite Hs in Hrank. simpl in Hrank.
  unfold AcceptCall, lookupLocked. rewrite He2.
  destruct (validateProtocol proto'); [by eexists|]. destruct (_ || _); [by eexists|].
  destruct (_ =? hash'); [|by eexists]. destruct (negb _); [by eexists|].
  destruct (State (call e2)); simpl in *; try lia; by eexists.
Qed.

(** C7: confirmation opens the commitment: the caller of an accepted call who
    reveals a 256-byte value with the committed hash moves it to confirmed;
    any other value ends the call as disconnected, and the ended call is handed
    back for both sides to be told. *)
Theorem confirm_verifies_commitment cfg sha256 r id e ga fp proto now :
  good_config cfg → reachable cfg sha256 r → sane now →
  byID r !! id = Some e → State (call e) = PhoneCallStateAccepted →
  validateProtocol proto = None →
  let c := call e in
  let '(result, r') := ConfirmCall sha256 (AdminID c) id (AccessHash c) ga fp proto now r in
  if decide (length ga = dhPubSize ∧ sha256 ga = GAHash c) then
    ∃ c', result = (Some c', false, None) ∧ byID r' = <[id := set_call e c']> (byID r)
      ∧ State c' = PhoneCallStateConfirmed ∧ GA c' = ga ∧ KeyFingerprint c' = fp
      ∧ StartDate c' = now ∧ origin c' = origin c ∧ activeOf r' (AdminID c) = activeOf r (AdminID c)
  else
    ∃ c', result = (Some c', true, Some ErrGAHashMismatch)
      ∧ byID r' = <[id := set_call e c']> (byID r)
      ∧ State c' = PhoneCallStateDiscarded ∧ DiscardReason c' = PhoneCallDiscardReasonDisconnect
      ∧ Duration c' = 0 ∧ activeOf r' (AdminID c) = activeOf r (AdminID c) - 1.
Proof.
  intros Hcfg Hr Hn He Hs Hv c. pose proof (call_reachable_ok _ _ _ Hcfg Hr) as Hok.
  assert (live e = true) as Hl
    by (unfold live; apply negb_true_iff, not_Terminal_spec; congruence).
  subst c. unfold ConfirmCall, lookupLocked. rewrite He, Z.eqb_refl. rewrite Z.eqb_refl. simpl.
  rewrite Hs, Hv. unfold sha256Mismatch.
  destruct (decide _) as [[Hlen Hsha]|Hbad].
  - rewrite Hlen, Nat.eqb_refl, bool_decide_true by done. simpl.
    eexists. split_and!; done.
  - replace (negb (length ga =? dhPubSize)%nat || negb (bool_decide (sha256 ga = GAHash (call e))))
      with true.
    2: { destruct (Nat.eqb_spec (length ga) dhPubSize); simpl; [|done].
         symmetry. apply negb_true_iff, bool_decide_eq_false. tauto. }
    simpl. pose proof (markDiscarded_transition cfg sha256 Hcfg id e
      PhoneCallDiscardReasonDisconnect "" 0 now r Hok He Hl Hn ltac:(lia) ltac:(lia)) as Ht.
    unfold markDiscardedLocked. rewrite markDiscarded_snapshot by done.
    eexists. rewrite (tr_byID _ _ _ _ _ _ Ht). split_and!; try done.
    rewrite (tr_active _ _ _ _ _ _ Ht). rewrite Z.eqb_refl. done.
Qed.

(** a retried request is answered with the call it filed: as long as that
    call is live, a request of the same caller under the same random id returns
    the call as it stands and files nothing new. *)
Theorem retried_request_is_answered cfg sha256 r id e req now ids draw :
  good_config cfg → reachable cfg sha256 r →
  byID r !! id = Some e → Terminal (call e) = false →
  req_RandomID req = RandomID (call e) →
  validateProtocol (req_Protocol req) = None → length (req_GAHash req) = gaHashSize →
  let '(result, r') := RequestCall cfg (AdminID (call e)) req now ids draw r in
  result = OK (call e) ∧ byID r' !! id = Some e ∧ byID r' ⊆ byID r ∧ active r' = active r.
Proof.
  intros Hcfg Hr He Ht Hid Hv Hh. pose proof (call_reachable_ok _ _ _ Hcfg Hr) as Hok.
  assert (live e = true) as Hl by (unfold live; by rewrite Ht).
  unfold RequestCall. rewrite Hv, Hh, Nat.eqb_refl. simpl.
  set (r1 := sweepTombstonesLocked now (tombstoneTTLSec cfg) ids r).
  destruct (sweep_ok cfg sha256 Hcfg now (tombstoneTTLSec cfg) ids r Hok) as (Hok1 & _ & Ha & Hsw).
  assert (byID r1 !! id = Some e) as He1 by by eapply sweep_live.
  fold r1 in Hok1, Ha, Hsw.
  unfold pendingDuplicate. rewrite Hid.
  pose proof (ro_live _ _ _ Hok1 _ _ He1 Hl) as Hk. unfold callKey in Hk.
  rewrite Hk, He1, Ht. split_and!; [done..| |done].
  apply map_subseteq_spec. intros id' e'. rewrite Hsw.
  intros (e1 & He1' & Hsw')%option.bind_Some. unfold swept in Hsw'.
  destruct (_ && _); [done|]. by simplify_eq.
Qed.

(** Expiry is exact: a ringing or requested call older than the ring
    timeout becomes missed, an accepted one becomes disconnected, each is
    reported once; an ended call past its retention is forgotten; everything
    else, confirmed calls in particular, stays as it was. *)
Theorem expiry_is_exact cfg sha256 r now ids1 ids2 :
  good_config cfg → reachable cfg sha256 r → sane now → iterates ids1 r → iterates ids2 r →
  let '(expired, r') := ExpireDue cfg now ids1 ids2 r in
  let overdue c := bool_decide (State c ∈ [PhoneCallStateRequested; PhoneCallStateRinging;
                                           PhoneCallStateAccepted])
                   && (ringSec cfg <? now - Date c) in
  let forgotten c := Terminal c && (tombstoneTTLSec cfg <? now - DiscardedAt c) in
  let ended c := set_discarded c
    (if decide (State c = PhoneCallStateAccepted) then PhoneCallDiscardReasonDisconnect
     else PhoneCallDiscardReasonMissed) "" 0 now in
  expired ≡ₚ ended <$> filter overdue (call <$> (map_to_list (byID r)).*2)
  ∧ ∀ id, byID r' !! id =
      (e ← byID r !! id;
       if overdue (call e) then Some (set_call e (ended (call e)))
       else if forgotten (call e) then None else Some e).
Proof.
  intros Hcfg Hr Hn Hi1 Hi2. pose proof (call_reachable_ok _ _ _ Hcfg Hr) as Hok.
  pose proof (ExpireDue_ok cfg sha256 Hcfg now ids1 ids2 r Hok Hn Hi1 Hi2) as H.
  destruct (ExpireDue cfg now ids1 ids2 r) as [expired r'].
  destruct H as (-> & _ & _ & Hfin). cbv zeta.
  assert (∀ id e, byID r !! id = Some e →
    ring_due now (ringSec cfg) (call e)
    = bool_decide (State (call e) ∈ [PhoneCallStateRequested; PhoneCallStateRinging;
                                      PhoneCallStateAccepted])
      && (ringSec cfg <? now - Date (call e))) as Hdue.
  { intros id e He. pose proof (co_date _ _ (ro_call _ _ _ Hok _ _ He)) as Hd.
    unfold ring_due, Terminal. rewrite sane_sub by (unfold sane in *; lia).
    rewrite Z.leb_antisym, negb_involutive. destruct (State (call e)); done. }
  split.
  - rewrite Hi1. unfold keys_of.
    assert (∀ l, (∀ id e, (id, e) ∈ l → byID r !! id = Some e) →
      omap (expired_call now (ringSec cfg) r) l.*1
      = (λ c, set_discarded c (if decide (State c = PhoneCallStateAccepted)
            then PhoneCallDiscardReasonDisconnect else PhoneCallDiscardReasonMissed) "" 0 now)
        <$> filter (λ c, bool_decide (State c ∈ [PhoneCallStateRequested; PhoneCallStateRinging;
                                        PhoneCallStateAccepted])
                         && (ringSec cfg <? now - Date c)) (call <$> l.*2)) as Hl.
    { induction l as [|[id e] l IH]; intros Hl; [done|]. csimpl.
      assert (byID r !! id = Some e) as He by (apply Hl; set_solver).
      unfold expired_call at 1. rewrite He. csimpl. rewrite (Hdue id e He), IH by set_solver.
      rewrite filter_cons. destruct (_ && _) eqn:Hb; csimpl; rewrite ?Hb; done. }
    rewrite Hl; [done|]. intros id e. apply elem_of_map_to_list.
  - intros id. rewrite Hfin. destruct (byID r !! id) as [e|] eqn:He; [|done]. simpl.
    unfold after_expiry. rewrite (Hdue id e He). destruct (_ && _); [done|].
    unfold tombstone_due. destruct (Terminal (call e)) eqn:Ht; [|done]. simpl.
    pose proof (co_discarded _ _ (ro_call _ _ _ Hok _ _ He) Ht).
    rewrite sane_sub by (unfold sane in *; lia). done.
Qed.

(** * Signalling *)

(** Packets of one call, each with the second it is admitted in. *)
Fixpoint sig_run (cfg : Config) (w : sigwin) (ts : list Z) : list (Z * bool) :=
  match ts with
  | [] => []
  | t :: ts' => let '(b, w') := sig_admit cfg t w in (t, b) :: sig_run cfg w' ts'
  end.

Definition sent_in (t : Z) (l : list (Z * bool)) : Z :=
  sumZ ((λ p : Z * bool, b2z ((p.1 =? t) && p.2)) <$> l).
Definition offered_in (t : Z) (ts : list Z) : Z := sumZ ((λ s, b2z (s =? t)) <$> ts).

Lemma offered_nonneg t ts : 0 ≤ offered_in t ts.
Proof.
  apply sumZ_nonneg, Forall_fmap, Forall_true. intros s. simpl. destruct (s =? t); simpl; lia.
Qed.

(** A second already past gets nothing more. *)
Lemma sig_run_past cfg w ts t : Forall (λ s, t < s) ts → sent_in t (sig_run cfg w ts) = 0.
Proof.
  intros H. revert w. induction H as [|s ts Hs _ IH]; intros w; simpl; [done|].
  destruct (sig_admit cfg s w) as [b w']. unfold sent_in. simpl.
  destruct (Z.eqb_spec s t); [lia|]. simpl. apply IH.
Qed.

Lemma sig_run_count cfg w ts t :
  good_config cfg → 0 ≤ sigCount w ≤ SignalingRatePerSecond cfg →
  StronglySorted Z.le ts → sigWindowSec w ≤ t → Forall (λ s, sigWindowSec w ≤ s) ts →
  sent_in t (sig_run cfg w ts)
  = (if sigWindowSec w =? t then
       Z.min (SignalingRatePerSecond cfg - sigCount w) (offered_in t ts)
     else Z.min (SignalingRatePerSecond cfg) (offered_in t ts)).
Proof.
  intros Hcfg Hw Hs. revert w Hw. pose proof (gc_rate _ Hcfg) as Hr.
  induction Hs as [|s ts Hs IH Hle]; intros w Hw Ht Hall; simpl.
  { unfold sent_in, offered_in. simpl. destruct (_ =? _); lia. }
  apply Forall_cons in Hall as [Hws _].
  pose proof (sig_admit_ok cfg Hcfg s w Hw) as Hadm.
  destruct (sig_admit cfg s w) as [b w']. destruct Hadm as (Hsec & Hcnt & Heq & Hfull).
  change (sent_in t ((s, b) :: sig_run cfg w' ts))
    with (b2z ((s =? t) && b) + sent_in t (sig_run cfg w' ts)).
  change (offered_in t (s :: ts)) with (b2z (s =? t) + offered_in t ts).
  pose proof (offered_nonneg t ts) as Hoff.
  destruct (Z.lt_trichotomy s t) as [Hst|[->|Hst]].
  - rewrite (IH w' Hcnt) by (rewrite ?Hsec; done || lia). rewrite Hsec.
    destruct (Z.eqb_spec s t); [lia|]. destruct (Z.eqb_spec (sigWindowSec w) t); simpl; lia.
  - rewrite (IH w' Hcnt) by (rewrite ?Hsec; done || lia). rewrite Hsec, Z.eqb_refl. simpl.
    destruct (Z.eqb_spec (sigWindowSec w) t), b; simpl in *; try specialize (Hfull eq_refl); lia.
  - rewrite sig_run_past by (eapply Forall_impl; [done|]; simpl; lia).
    assert (offered_in t ts = 0) as ->.
    { unfold offered_in. clear -Hle Hst. induction Hle as [|u ts Hu _ IH]; simpl; [done|].
      destruct (Z.eqb_spec u t); [lia|]. simpl. done. }
    destruct (Z.eqb_spec s t); [lia|]. cbn [b2z andb]. destruct (sigWindowSec w =? t); lia.
Qed.

(** The signalling limit is exact: of the packets of one call offered in
    one second, as long as the clock does not go back, as many are forwarded as
    the rate allows and no more; the others are dropped. *)
Theorem signalling_rate_is_exact cfg ts t :
  good_config cfg → Forall (λ s, 0 < s) ts → StronglySorted Z.le ts → 0 < t →
  sent_in t (sig_run cfg {| sigWindowSec := 0; sigCount := 0 |} ts)
  = Z.min (SignalingRatePerSecond cfg) (offered_in t ts).
Proof.
  intros Hcfg Hpos Hs Ht. pose proof (gc_rate _ Hcfg).
  assert (Forall (λ s, 0 <= s) ts) by (eapply Forall_impl; [done|]; simpl; lia).
  pose proof (sig_run_count cfg {| sigWindowSec := 0; sigCount := 0 |} ts t Hcfg) as Hrun.
  cbn [sigWindowSec sigCount] in Hrun. rewrite Hrun by (done || lia).
  destruct (Z.eqb_spec 0 t); [lia|done].
Qed.

(** * A call, end to end *)

Module PhoneDemo.
Definition cfg : Config := withDefaults
  {| RingTimeout := 0; TombstoneTTL := 0; MaxActivePerUser := 0; MaxRegistryEntries := 0;
     SignalingRatePerSecond := 2 |}.
Definition sha256 (l : list Z) : list Z := replicate 32 (sumZ l mod 256).
Definition draw (i : nat) : option Z := Some (10 + 4 * Z.of_nat i).
Definition proto (vs : list string) : PhoneCallProtocol := Protocol_of true true 65 92 vs.
Definition key_half (x : Z) : list Z := x :: replicate 255 0.
Definition req : PhoneCallRequest := {|
  req_CalleeID := 20; req_RandomID := 77; req_GAHash := replicate 32 9; req_Video := true;
  req_Protocol := proto ["9.0.0"; "11.0.0"]%string; req_CallerDevice := SessionRef_zero;
  req_PrivacyP2P := true; req_Connections := [] |}.

Definition do_request (now : Z) (r : registry) := DoRequestCall 10 req now (keys_of r) draw.
Definition do_accept := DoAcceptCall elements 20 5 7 (key_half 3)
  (proto ["11.0.0"; "9.0.0"]%string) SessionRef_zero.
Definition do_confirm := DoConfirmCall 10 5 7 (key_half 9) 123 (proto ["9.0.0"]%string) 1010.

Definition r1 := run_op cfg sha256 (do_request 1000 newRegistry) newRegistry.
Definition r2 := run_op cfg sha256 do_accept r1.
Definition r3 := run_op cfg sha256 do_confirm r2.

Lemma cfg_good : good_config cfg.
Proof. apply withDefaults_good. repeat split; by vm_compute. Qed.

Lemma reachable_run op r :
  reachable cfg sha256 r → op_ok op r → reachable cfg sha256 (run_op cfg sha256 op r).
Proof. intros Hr Hop. eapply rtc_r; [done|]. by exists op. Qed.

Lemma order_ok (s : gset string) : elements s ≡ₚ elements s.
Proof. done. Qed.

Lemma r1_reachable : reachable cfg sha256 r1.
Proof. apply reachable_run; [apply rtc_refl|]. split; [done | by apply Permutation_refl]. Qed.
Lemma r2_reachable : reachable cfg sha256 r2.
Proof. apply reachable_run; [apply r1_reachable|]. exact order_ok. Qed.
Lemma r3_reachable : reachable cfg sha256 r3.
Proof. apply reachable_run; [apply r2_reachable | done]. Qed.

Definition e1 : entry := default {| call := new_call 0 0 0 0 req; sig := 0 |} (byID r1 !! 5).
Definition e2 : entry := default e1 (byID r2 !! 5).

Example call_states :
  ((λ e, State (call e)) <$> byID r1 !! 5) = Some PhoneCallStateRequested
  ∧ ((λ e, State (call e)) <$> byID r2 !! 5) = Some PhoneCallStateAccepted
  ∧ ((λ e, (State (call e), LibraryVersions (Protocol (call e)))) <$> byID r3 !! 5)
    = Some (PhoneCallStateConfirmed, ["9.0.0"%string]).
Proof. by vm_compute. Qed.

Lemma negotiation_is_sound_witness :
  (∀ s : gset string, elements s ≡ₚ elements s)
  ∧ ∃ p, negotiateProtocol elements (proto ["8.0.0"; "9.0.0"]) (proto ["9.0.0"; "8.0.0"]) = OK p
      ∧ LibraryVersions p = ["9.0.0"%string].
Proof.
  split; [exact order_ok|].
  pose proof (negotiation_is_sound elements (proto ["8.0.0"; "9.0.0"]) (proto ["9.0.0"; "8.0.0"])
    order_ok) as H.
  destruct (negotiateProtocol _ _ _) as [p|err] eqn:Hn; [|by vm_compute in Hn].
  exists p. split; [done|]. destruct H as (_ & _ & _ & _ & _ & H).
  apply (H 0%nat); [done | | | intros j u Hj; lia].
  - apply list_elem_of_further, list_elem_of_here.
  - apply list_elem_of_here.
Defined.

Lemma numeric_version_is_greatest_witness :
  (∀ s : gset string, elements s ≡ₚ elements s)
  ∧ ∃ w kw, bestCommonVersion elements ["10.1"; "11"]%string ["11"; "10.1"]%string = Some w
      ∧ version_key w kw ∧ ([10; 1] = kw ∨ key_lt [10; 1] kw).
Proof.
  split; [exact order_ok|].
  assert (version_key "10.1" [10; 1] ∧ version_key "11" [11]) as [K1 K2]
    by (split; repeat constructor).
  destruct (numeric_version_is_greatest elements ["10.1"; "11"]%string ["11"; "10.1"]%string)
    as (w & kw & Hw & _ & _ & Hk & Hmax).
  - exact order_ok.
  - intros v Hv [Ha _]. unfold preferredVersions in Hv. set_solver.
  - intros v Ha _. apply elem_of_cons in Ha as [->|Ha]; [by exists [10; 1]|].
    apply list_elem_of_singleton in Ha as ->. by exists [11].
  - exists "11"%string. set_solver.
  - exists w, kw. split_and!; [done | done|].
    destruct (decide ("10.1"%string = w)) as [Heq|Hne].
    + subst w. left. exact (version_key_fun _ _ _ K1 Hk).
    + apply (Hmax "10.1"%string); [apply list_elem_of_here | | exact K1 | exact Hne].
      apply list_elem_of_further, list_elem_of_here.
Defined.

Lemma call_registry_invariant_witness :
  reachable cfg sha256 r3 ∧ size (byID r3) = 1%nat ∧ Z.of_nat (size (byID r3)) ≤ 10000.
Proof.
  split; [exact r3_reachable|]. split; [by vm_compute|].
  apply (call_registry_invariant cfg sha256 r3 cfg_good r3_reachable).
Defined.

Lemma calls_only_advance_witness :
  phone_step cfg sha256 r2 r3 ∧ ∃ e', byID r3 !! 5 = Some e' ∧ sig e' = sig e2.
Proof.
  assert (phone_step cfg sha256 r2 r3) as Hstep by by exists do_confirm.
  split; [exact Hstep|].
  apply (calls_only_advance cfg sha256 r2 r3 cfg_good r2_reachable Hstep); by vm_compute.
Defined.

Lemma first_answer_wins_witness :
  AcceptCall elements 20 5 7 (key_half 3) (proto ["11.0.0"; "9.0.0"]%string) SessionRef_zero r1
  = (OK (call e2), r2)
  ∧ ∃ err, AcceptCall elements 20 5 7 (key_half 4) (proto ["9.0.0"]%string) SessionRef_zero r3
           = (ERR err, r3).
Proof.
  assert (AcceptCall elements 20 5 7 (key_half 3) (proto ["11.0.0"; "9.0.0"]%string)
            SessionRef_zero r1 = (OK (call e2), r2)) as Hacc by by vm_compute.
  split; [exact Hacc|].
  destruct (first_answer_wins _ _ _ _ _ _ _ _ _ _ _ _ cfg_good r1_reachable Hacc)
    as (_ & _ & e & He & _ & Hlater).
  assert (byID r2 !! 5 = Some e2) as He2 by by vm_compute.
  rewrite He2 in He. injection He as <-.
  eapply (Hlater r3); [apply rtc_once; by exists do_confirm | by vm_compute | by vm_compute].
Defined.

Lemma confirm_verifies_commitment_witness :
  State (call e2) = PhoneCallStateAccepted
  ∧ ∃ c' r', ConfirmCall sha256 10 5 7 (key_half 8) 123 (proto ["9.0.0"]%string) 1010 r2
             = ((Some c', true, Some ErrGAHashMismatch), r')
        ∧ State c' = PhoneCallStateDiscarded.
Proof.
  split; [by vm_compute|].
  pose proof (confirm_verifies_commitment cfg sha256 r2 5 e2 (key_half 8) 123
    (proto ["9.0.0"]%string) 1010 cfg_good r2_reachable) as H.
  specialize (H ltac:(done) ltac:(by vm_compute) ltac:(by vm_compute) ltac:(by vm_compute)).
  change (AdminID (call e2)) with 10 in H. change (AccessHash (call e2)) with 7 in H.
  cbv zeta in H. destruct (ConfirmCall _ _ _ _ _ _ _ _ _) as [result r'].
  destruct (decide _) as [[_ Hsha]|_]; [by vm_compute in Hsha|].
  destruct H as (c' & -> & _ & Hs & _). by exists c', r'.
Defined.

Lemma retried_request_is_answered_witness :
  Terminal (call e1) = false ∧ (RequestCall cfg 10 req 1003 (keys_of r1) draw r1).1 = OK (call e1).
Proof.
  split; [by vm_compute|].
  pose proof (retried_request_is_answered cfg sha256 r1 5 e1 req 1003 (keys_of r1) draw
    cfg_good r1_reachable ltac:(by vm_compute) ltac:(by vm_compute) ltac:(by vm_compute)
    ltac:(by vm_compute) ltac:(by vm_compute)) as H.
  change (AdminID (call e1)) with 10 in H.
  destruct (RequestCall _ _ _ _ _ _ _) as [result r']. apply H.
Defined.

Lemma expiry_is_exact_witness :
  iterates (keys_of r1) r1 ∧ byID (ExpireDue cfg 1200 (keys_of r1) (keys_of r1) r1).2 !! 5
  = Some (set_call e1 (set_discarded (call e1) PhoneCallDiscardReasonMissed "" 0 1200)).
Proof.
  assert (iterates (keys_of r1) r1) as Hi by (unfold iterates; reflexivity).
  split; [exact Hi|].
  pose proof (expiry_is_exact cfg sha256 r1 1200 (keys_of r1) (keys_of r1)
    cfg_good r1_reachable ltac:(done) Hi Hi) as H.
  destruct (ExpireDue _ _ _ _ _) as [expired r']. destruct H as [_ H]. simpl.
  rewrite H. by vm_compute.
Defined.

Lemma signalling_rate_is_exact_witness :
  StronglySorted Z.le [7; 8; 8; 8; 9]
  ∧ sent_in 8 (sig_run cfg {| sigWindowSec := 0; sigCount := 0 |} [7; 8; 8; 8; 9]) = 2.
Proof.
  assert (StronglySorted Z.le [7; 8; 8; 8; 9]) as Hs
    by (repeat constructor; by vm_compute).
  split; [exact Hs|]. rewrite signalling_rate_is_exact; [by vm_compute | exact cfg_good | | exact Hs | lia].
  repeat constructor; lia.
Defined.
End PhoneDemo.
