(* ===== verification/Dh.v ===== *)
(** Diffie-Hellman parameters: [internal/app/phone/dh.go] and
    [internal/app/secretchat/dh.go].

    The 2048-bit prime is decoded from the hexadecimal string of the source;
    public values are byte strings, read big-endian, checked against the
    bounds and padded to their wire length. *)

From S2P Require Import Prelude.

Open Scope Z_scope.
Import Strings.Ascii.

(** * Parameters handed out ([messages.getDhConfig]) *)

Definition DHConfigVersion : Z := 20260811.
Definition DHG : Z := 3.

Definition dhPrimeHex : string :=
  "c71caeb9c6b1c9048e6c522f70f13f73980d40238e3e21c14934d037563d930f48198a0aa7c14058229493d22530f4dbfa336f6e0ac925139543aed44cce7c3720fd51f69458705ac68cd4fe6b6b13abdc9746512969328454f18faf8c595f642477fe96bb2a941d5bcd1d4ac8cc49880708fa9b378e3c4f3a9060bee67cf9a4a4a695811051907e162753b56b0f6b410dba74d8a84b2a14b3144e0ef1284754fd17ed950d5965b4b9dd46582db1178d169c6bc465b0d6ff9ca3928fef5b9ae4e418fc15e83ebea0f87fa9ff5eed70050ded2849f47bf959d956850ce929851f0d8115f635b105ee2e4e15d04b2454bf6f4fadf034b10403119cd8e3b92fcc5b".

Definition hex_digit (c : ascii) : option Z :=
  let n := Z.of_N (N_of_ascii c) in
  if (48 <=? n) && (n <=? 57) then Some (n - 48)
  else if (97 <=? n) && (n <=? 102) then Some (n - 87)
  else if (65 <=? n) && (n <=? 70) then Some (n - 55)
  else None.

(** [mustDecodeHex]: two digits a byte; [None] where the source panics. *)
Fixpoint mustDecodeHex (s : string) : option (list Z) :=
  match s with
  | EmptyString => Some []
  | String h (String l s') =>
      match hex_digit h, hex_digit l, mustDecodeHex s' with
      | Some a, Some b, Some rest => Some (16 * a + b :: rest)
      | _, _, _ => None
      end
  | String _ EmptyString => None
  end.

(** [DHPrime] copies the decoded prime; decoding succeeds, so the package
    initialiser does not panic ([DHPrime_decodes]). *)
Definition DHPrime : list Z := default [] (mustDecodeHex dhPrimeHex).

Definition maxDHRandomLength : Z := 1024.

Inductive dh_error := ErrDHRandom | ErrGAInvalid.

#[export] Instance dh_error_eq_dec : EqDecision dh_error.
Proof. solve_decision. Defined.

(** [read n] is the source of randomness asked for [n] bytes. *)
Definition DHRandom (read : nat → option (list Z)) (n : Z) : res dh_error (list Z) :=
  let n := if n <? 0 then 0 else n in
  let n := if maxDHRandomLength <? n then maxDHRandomLength else n in
  match read (Z.to_nat n) with
  | Some buf => OK buf
  | None => ERR ErrDHRandom
  end.

(** * Validation of public values *)

Definition dhPubSize : nat := 256.

(** [big.Int.SetBytes]. *)
Definition be_value (l : list Z) : Z := fold_left (λ acc b, acc * 256 + b) l 0.

Definition dhOne : Z := 1.
Definition dhPrimeMinusOne : Z := be_value DHPrime - 1.
Definition dhLowerBound : Z := Z.shiftl 1 (2048 - 64).
Definition dhUpperBound : Z := be_value DHPrime - Z.shiftl 1 (2048 - 64).

Definition leftPad256 (b : list Z) : list Z :=
  if (length b =? dhPubSize)%nat then b
  else replicate (dhPubSize - length b) 0 ++ b.

Definition validateDHParam (g : list Z) : res dh_error (list Z) :=
  if (length g =? 0)%nat || (dhPubSize <? length g)%nat then ERR ErrGAInvalid
  else
    let x := be_value g in
    if (x <=? dhOne) || (dhPrimeMinusOne <=? x) then ERR ErrGAInvalid
    else if (x <=? dhLowerBound) || (dhUpperBound <=? x) then ERR ErrGAInvalid
    else OK (leftPad256 g).

(** * Properties *)

Lemma DHPrime_decodes : mustDecodeHex dhPrimeHex = Some DHPrime ∧ length DHPrime = dhPubSize.
Proof. by vm_compute. Qed.

Lemma be_value_from acc l :
  fold_left (λ acc b, acc * 256 + b) l acc = acc * 256 ^ Z.of_nat (length l) + be_value l.
Proof.
  unfold be_value. revert acc. induction l as [|b l IH]; intros acc; cbn [fold_left length].
  - lia.
  - rewrite IH, (IH (0 * 256 + b)), Nat2Z.inj_succ, Z.pow_succ_r by lia. ring.
Qed.

Lemma be_value_pad n l : be_value (replicate n 0 ++ l) = be_value l.
Proof. induction n as [|n IH]; [done|]. unfold be_value in *. simpl. apply IH. Qed.

Lemma leftPad256_length l : (length l ≤ dhPubSize)%nat → length (leftPad256 l) = dhPubSize.
Proof.
  intros H. unfold leftPad256. destruct (Nat.eqb_spec (length l) dhPubSize); [done|].
  rewrite length_app, length_replicate. lia.
Qed.

Lemma leftPad256_value l : be_value (leftPad256 l) = be_value l.
Proof. unfold leftPad256. destruct (_ =? _)%nat; [done | apply be_value_pad]. Qed.

Lemma dh_bounds :
  dhLowerBound = 2 ^ 1984 ∧ dhUpperBound = be_value DHPrime - 2 ^ 1984
  ∧ 1 < 2 ^ 1984 ∧ 1 < be_value DHPrime - 2 ^ 1984
  ∧ be_value DHPrime - 2 ^ 1984 <= dhPrimeMinusOne.
Proof.
  split; [vm_compute; reflexivity|]. split; [vm_compute; reflexivity|].
  split; [apply Z.ltb_lt; vm_compute; reflexivity|].
  split; [apply Z.ltb_lt; vm_compute; reflexivity|].
  apply Z.leb_le. vm_compute. reflexivity.
Qed.

(** The accepted range. *)
Definition dh_range (g : list Z) : Prop :=
  (0 < length g ≤ dhPubSize)%nat ∧ 2 ^ 1984 < be_value g < be_value DHPrime - 2 ^ 1984.

Lemma validateDHParam_OK g g' : validateDHParam g = OK g' ↔ dh_range g ∧ g' = leftPad256 g.
Proof.
  unfold dh_range, validateDHParam, dhOne. destruct dh_bounds as (HL & HU & H1 & H2 & H3).
  rewrite HL, HU. revert H1 H2 H3. clear HL HU.
  generalize (2 ^ 1984) (be_value DHPrime) dhPrimeMinusOne (leftPad256 g). intros B P M pad H1 H2 H3.
  destruct (Nat.eqb_spec (length g) 0); simpl; [split; [done | lia]|].
  destruct (Nat.ltb_spec dhPubSize (length g)); simpl; [split; [done | lia]|].
  destruct (Z.leb_spec (be_value g) 1); simpl; [split; [done | lia]|].
  destruct (Z.leb_spec M (be_value g)); simpl; [split; [done | lia]|].
  destruct (Z.leb_spec (be_value g) B); simpl; [split; [done | lia]|].
  destruct (Z.leb_spec (P - B) (be_value g)); simpl; [split; [done | lia]|].
  split; [intros [= <-]; split; [lia | done] | by intros [_ ->]].
Qed.

Lemma dh_range_pad g : dh_range g → dh_range (leftPad256 g) ∧ leftPad256 (leftPad256 g) = leftPad256 g.
Proof.
  intros [Hl Hv]. pose proof (leftPad256_length g ltac:(lia)) as Hp. split.
  - split; [rewrite Hp; unfold dhPubSize; lia | by rewrite leftPad256_value].
  - unfold leftPad256 at 1. by rewrite Hp.
Qed.

Lemma validateDHParam_idem g g' : validateDHParam g = OK g' → validateDHParam g' = OK g'.
Proof.
  intros [Hr ->]%validateDHParam_OK. apply validateDHParam_OK.
  by destruct (dh_range_pad g Hr).
Qed.

(** A public value is accepted exactly when it has between 1 and 256 bytes
    and lies strictly between 2^1984 and p - 2^1984 (which implies the bounds 1
    and p - 1); the accepted value comes back unchanged at 256 bytes, and
    validating it again changes nothing. *)
Theorem validateDHParam_exact g :
  (0 < length g ≤ dhPubSize)%nat ∧ 2 ^ 1984 < be_value g < be_value DHPrime - 2 ^ 1984 ↔
  ∃ g', validateDHParam g = OK g' ∧ length g' = dhPubSize ∧ be_value g' = be_value g
        ∧ validateDHParam g' = OK g'.
Proof.
  split.
  - intros Hr. assert (validateDHParam g = OK (leftPad256 g)) as Hv by by apply validateDHParam_OK.
    exists (leftPad256 g). split_and!; [done | apply leftPad256_length; lia |
      apply leftPad256_value | by eapply validateDHParam_idem].
  - by intros (g' & [Hr _]%validateDHParam_OK & _).
Qed.

(** [DHRandom] asks for exactly the number of bytes requested, cut to the
    range from 0 to 1024, and fails only when the source of randomness does. *)
Theorem DHRandom_clamps read n :
  ∃ k, (k ≤ 1024)%nat ∧ (0 <= n <= 1024 → Z.of_nat k = n)
    ∧ DHRandom read n = match read k with Some buf => OK buf | None => ERR ErrDHRandom end.
Proof.
  unfold DHRandom, maxDHRandomLength. eexists. split_and!; [| |done].
  - destruct (Z.ltb_spec n 0); simpl; [lia|]. destruct (Z.ltb_spec 1024 n); lia.
  - intros. destruct (Z.ltb_spec n 0); [lia|]. destruct (Z.ltb_spec 1024 n); lia.
Qed.
