(* ===== verification/SecretChat.v ===== *)
(** Secret chats: [internal/domain/secretchat.go], the in-process stores of
    [internal/store/memory/secretchat.go] and the service of
    [internal/app/secretchat/service.go].

    The two stores are plain state transformers, one per method, each run under
    the store's mutex.  A service method calls several of them without holding
    a lock in between, so it is a program ([prog]) whose calls are the atomic
    steps; [run] executes it alone and [pool_step] interleaves any number of
    them.  Random draws are replies of the environment. *)

From S2P Require Import Prelude Dh.

Open Scope Z_scope.

(** * Data *)

Inductive SecretChatState :=
  | SecretChatStateUnset           (* the empty string *)
  | SecretChatStateRequested
  | SecretChatStateNormal
  | SecretChatStateDiscarded.

#[export] Instance SecretChatState_eq_dec : EqDecision SecretChatState.
Proof. solve_decision. Defined.

Inductive secret_error :=
  | ErrSecretChatNotFound
  | ErrSecretChatAlreadyAccepted
  | ErrSecretChatAlreadyDeclined
  | ErrSecretChatRandomIDDuplicate
  | ErrDH (err : dh_error)
  | ErrAccessHashRand.

#[export] Instance secret_error_eq_dec : EqDecision secret_error.
Proof. solve_decision. Defined.

Record SecretChat := {
  ID : Z;
  AdminAccessHash : Z;
  ParticipantAccessHash : Z;
  AdminUserID : Z;
  ParticipantUserID : Z;
  AdminAuthKeyID : Z;
  ParticipantAuthKeyID : Z;
  State : SecretChatState;
  GA : list Z;
  GB : list Z;
  KeyFingerprint : Z;
  Layer : Z;
  FolderID : Z;
  HistoryDeleted : bool;
  RandomID : Z;
  Date : Z;
}.

Definition Terminal (c : SecretChat) : bool :=
  bool_decide (State c = SecretChatStateDiscarded).

Definition HasParticipant (c : SecretChat) (userID : Z) : bool :=
  negb (userID =? 0) && ((userID =? AdminUserID c) || (userID =? ParticipantUserID c)).

Definition IsAdmin (c : SecretChat) (userID : Z) : bool :=
  negb (userID =? 0) && (userID =? AdminUserID c).

(** The switch the four per-viewer projections share: the admin's case is
    tested first. *)
Definition by_viewer (c : SecretChat) (userID admin participant : Z) : Z :=
  if userID =? AdminUserID c then admin
  else if userID =? ParticipantUserID c then participant
  else 0.

Definition PeerOf (c : SecretChat) (userID : Z) : Z :=
  by_viewer c userID (ParticipantUserID c) (AdminUserID c).
Definition PeerAuthKeyOf (c : SecretChat) (userID : Z) : Z :=
  by_viewer c userID (ParticipantAuthKeyID c) (AdminAuthKeyID c).
Definition AuthKeyOf (c : SecretChat) (userID : Z) : Z :=
  by_viewer c userID (AdminAuthKeyID c) (ParticipantAuthKeyID c).
Definition AccessHashFor (c : SecretChat) (userID : Z) : Z :=
  by_viewer c userID (AdminAccessHash c) (ParticipantAccessHash c).

Record EncryptedFileRef := {
  file_ID : Z;
  file_AccessHash : Z;
  file_Size : Z;
  file_DCID : Z;
  file_KeyFingerprint : Z;
}.

Record SecretChatMessage := {
  ReceiverAuthKeyID : Z;
  Qts : Z;
  ReceiverUserID : Z;
  msg_ChatID : Z;
  msg_RandomID : Z;
  msg_Date : Z;
  IsService : bool;
  Bytes : list Z;
  File : option EncryptedFileRef;
}.

Inductive EncryptedStateEventType :=
  | EncryptedStateEventEncryption
  | EncryptedStateEventRead.

Record EncryptedStateEvent := {
  ev_ID : Z;
  TargetUserID : Z;
  TargetAuthKeyID : Z;
  ev_ChatID : Z;
  ev_Type : EncryptedStateEventType;
  ev_MaxDate : Z;
  ev_Date : Z;
}.

Record SecretMessageDelivery := {
  del_RandomID : Z;
  del_Bytes : list Z;
  del_IsService : bool;
  del_File : option EncryptedFileRef;
  del_Date : Z;
}.

Record SecretChatRequest := {
  req_AdminUserID : Z;
  req_AdminAuthKeyID : Z;
  req_ParticipantUserID : Z;
  req_RandomID : Z;
  req_GA : list Z;
  req_Date : Z;
}.

(** * The stores *)

Definition emqDedupKey := (Z * Z * Z)%type.

Record EncryptedQueueStore := {
  byDevice : gmap Z (list SecretChatMessage);
  reserved : gmap Z Z;
  confirmed : gmap Z Z;
  dedup : gmap emqDedupKey Z;
  stateEvents : list EncryptedStateEvent;
  delivered : gset (Z * Z);                   (* event, device *)
  nextEventID : Z;
  files : gmap Z EncryptedFileRef;
}.

Record world := {
  chats : gmap Z SecretChat;
  queue : EncryptedQueueStore;
}.

Definition empty_queue : EncryptedQueueStore := {|
  byDevice := ∅; reserved := ∅; confirmed := ∅; dedup := ∅; stateEvents := [];
  delivered := ∅; nextEventID := 0; files := ∅ |}.
Definition empty_world : world := {| chats := ∅; queue := empty_queue |}.

Definition with_chats (m : gmap Z SecretChat) (w : world) : world :=
  {| chats := m; queue := queue w |}.
Definition with_queue (q : EncryptedQueueStore) (w : world) : world :=
  {| chats := chats w; queue := q |}.

(** ** Chats *)

Definition set_State (s : SecretChatState) (c : SecretChat) : SecretChat := {|
  ID := ID c; AdminAccessHash := AdminAccessHash c;
  ParticipantAccessHash := ParticipantAccessHash c; AdminUserID := AdminUserID c;
  ParticipantUserID := ParticipantUserID c; AdminAuthKeyID := AdminAuthKeyID c;
  ParticipantAuthKeyID := ParticipantAuthKeyID c; State := s; GA := GA c; GB := GB c;
  KeyFingerprint := KeyFingerprint c; Layer := Layer c; FolderID := FolderID c;
  HistoryDeleted := HistoryDeleted c; RandomID := RandomID c; Date := Date c |}.

Definition set_accepted (participantAuthKeyID : Z) (gb : list Z) (fp : Z) (c : SecretChat)
    : SecretChat := {|
  ID := ID c; AdminAccessHash := AdminAccessHash c;
  ParticipantAccessHash := ParticipantAccessHash c; AdminUserID := AdminUserID c;
  ParticipantUserID := ParticipantUserID c; AdminAuthKeyID := AdminAuthKeyID c;
  ParticipantAuthKeyID := participantAuthKeyID; State := SecretChatStateNormal;
  GA := GA c; GB := gb; KeyFingerprint := fp; Layer := Layer c; FolderID := FolderID c;
  HistoryDeleted := HistoryDeleted c; RandomID := RandomID c; Date := Date c |}.

Definition set_discarded (historyDeleted : bool) (c : SecretChat) : SecretChat := {|
  ID := ID c; AdminAccessHash := AdminAccessHash c;
  ParticipantAccessHash := ParticipantAccessHash c; AdminUserID := AdminUserID c;
  ParticipantUserID := ParticipantUserID c; AdminAuthKeyID := AdminAuthKeyID c;
  ParticipantAuthKeyID := ParticipantAuthKeyID c; State := SecretChatStateDiscarded;
  GA := GA c; GB := GB c; KeyFingerprint := KeyFingerprint c; Layer := Layer c;
  FolderID := FolderID c; HistoryDeleted := historyDeleted; RandomID := RandomID c;
  Date := Date c |}.

Definition CreateSecretChat (c : SecretChat) (w : world) : option secret_error * world :=
  if (ID c =? 0) || negb (ID c =? RandomID c) then (Some ErrSecretChatRandomIDDuplicate, w)
  else
    match chats w !! ID c with
    | Some _ => (Some ErrSecretChatRandomIDDuplicate, w)
    | None =>
        let c := if decide (State c = SecretChatStateUnset)
                 then set_State SecretChatStateRequested c else c in
        (None, with_chats (<[ID c := c]> (chats w)) w)
    end.

Definition GetSecretChat (chatID : Z) (w : world) : option SecretChat * world :=
  (chats w !! chatID, w).

Definition AcceptSecretChat (chatID participantAuthKeyID : Z) (gb : list Z) (fp : Z) (w : world)
    : res secret_error SecretChat * world :=
  match chats w !! chatID with
  | None => (ERR ErrSecretChatNotFound, w)
  | Some c =>
      match State c with
      | SecretChatStateNormal => (ERR ErrSecretChatAlreadyAccepted, w)
      | SecretChatStateDiscarded => (ERR ErrSecretChatAlreadyDeclined, w)
      | SecretChatStateUnset | SecretChatStateRequested =>
          if negb (ParticipantAuthKeyID c =? 0) then (ERR ErrSecretChatAlreadyAccepted, w)
          else
            let c := set_accepted participantAuthKeyID gb fp c in
            (OK c, with_chats (<[chatID := c]> (chats w)) w)
      end
  end.

Definition DiscardSecretChat (chatID : Z) (historyDeleted : bool) (w : world)
    : res secret_error (SecretChat * bool) * world :=
  match chats w !! chatID with
  | None => (ERR ErrSecretChatNotFound, w)
  | Some c =>
      if decide (State c = SecretChatStateDiscarded) then (OK (c, true), w)
      else
        let c := set_discarded historyDeleted c in
        (OK (c, false), with_chats (<[chatID := c]> (chats w)) w)
  end.

(** [sort.Slice] by chat id; the ids are the distinct keys of the map. *)
Definition chat_le (c1 c2 : SecretChat) : Prop := ID c1 <= ID c2.
#[export] Instance chat_le_dec : RelDecision chat_le.
Proof. intros c1 c2. unfold chat_le. apply _. Defined.

Definition ListActiveSecretChatsByAuthKey (authKeyID : Z) (w : world) : list SecretChat * world :=
  if authKeyID =? 0 then ([], w)
  else
    (merge_sort chat_le
       (filter (λ c, negb (Terminal c)
                     && ((AdminAuthKeyID c =? authKeyID) || (ParticipantAuthKeyID c =? authKeyID)))
          (map_to_list (chats w)).*2), w).

(** ** The per-device message queue *)

Definition device_queue (q : EncryptedQueueStore) (dev : Z) : list SecretChatMessage :=
  default [] (byDevice q !! dev).
Definition reservedOf (q : EncryptedQueueStore) (dev : Z) : Z := default 0 (reserved q !! dev).
Definition confirmedOf (q : EncryptedQueueStore) (dev : Z) : Z := default 0 (confirmed q !! dev).

Definition set_Qts (qts : Z) (m : SecretChatMessage) : SecretChatMessage := {|
  ReceiverAuthKeyID := ReceiverAuthKeyID m; Qts := qts; ReceiverUserID := ReceiverUserID m;
  msg_ChatID := msg_ChatID m; msg_RandomID := msg_RandomID m; msg_Date := msg_Date m;
  IsService := IsService m; Bytes := Bytes m; File := File m |}.

Definition dedup_key (m : SecretChatMessage) : emqDedupKey :=
  (ReceiverAuthKeyID m, msg_ChatID m, msg_RandomID m).

Definition append_queue (m : SecretChatMessage) (q : EncryptedQueueStore)
    : SecretChatMessage * EncryptedQueueStore :=
  let dev := ReceiverAuthKeyID m in
  let qts := reservedOf q dev +₆₄ 1 in
  let m := set_Qts qts m in
  (m, {| byDevice := <[dev := device_queue q dev ++ [m]]> (byDevice q);
         reserved := <[dev := qts]> (reserved q);
         confirmed := confirmed q;
         dedup := <[dedup_key m := qts]> (dedup q);
         stateEvents := stateEvents q; delivered := delivered q;
         nextEventID := nextEventID q; files := files q |}).

(** The earlier message under the same key, when there is one. *)
Definition find_duplicate (m : SecretChatMessage) (q : EncryptedQueueStore)
    : option SecretChatMessage :=
  qts ← dedup q !! dedup_key m;
  List.find (λ m', Qts m' =? qts) (device_queue q (ReceiverAuthKeyID m)).

Definition AppendEncryptedMessage (m : SecretChatMessage) (w : world)
    : (SecretChatMessage * bool) * world :=
  match find_duplicate m (queue w) with
  | Some m' => ((m', true), w)
  | None => let '(m', q) := append_queue m (queue w) in ((m', false), with_queue q w)
  end.

(** [for _, m := range l { if f(m) { out = append(out, m); if len(out) >= limit { break } } }] *)
Fixpoint collect {A} (f : A → bool) (limit : Z) (out : list A) (l : list A) : list A :=
  match l with
  | [] => out
  | m :: l' =>
      if f m then
        let out := out ++ [m] in
        if limit <=? Z.of_nat (length out) then out else collect f limit out l'
      else collect f limit out l'
  end.

Definition default_limit (limit : Z) : Z := if limit <=? 0 then 1000 else limit.

Definition ListEncryptedMessagesSince (dev sinceQts limit : Z) (w : world)
    : list SecretChatMessage * world :=
  (collect (λ m, sinceQts <? Qts m) (default_limit limit) [] (device_queue (queue w) dev), w).

Definition ReservedQts (dev : Z) (w : world) : Z * world := (reservedOf (queue w) dev, w).

Definition AckEncryptedMessages (dev maxQts : Z) (w : world) : () * world :=
  if confirmedOf (queue w) dev <? maxQts then
    let q := queue w in
    (tt, with_queue {| byDevice := byDevice q; reserved := reserved q;
                       confirmed := <[dev := maxQts]> (confirmed q); dedup := dedup q;
                       stateEvents := stateEvents q; delivered := delivered q;
                       nextEventID := nextEventID q; files := files q |} w)
  else (tt, w).

(** ** State events *)

Definition set_ev_ID (id : Z) (ev : EncryptedStateEvent) : EncryptedStateEvent := {|
  ev_ID := id; TargetUserID := TargetUserID ev; TargetAuthKeyID := TargetAuthKeyID ev;
  ev_ChatID := ev_ChatID ev; ev_Type := ev_Type ev; ev_MaxDate := ev_MaxDate ev;
  ev_Date := ev_Date ev |}.

Definition AppendStateEvent (ev : EncryptedStateEvent) (w : world) : Z * world :=
  let q := queue w in
  let id := nextEventID q +₆₄ 1 in
  (id, with_queue {| byDevice := byDevice q; reserved := reserved q; confirmed := confirmed q;
                     dedup := dedup q; stateEvents := stateEvents q ++ [set_ev_ID id ev];
                     delivered := delivered q; nextEventID := id; files := files q |} w).

Definition event_visible (q : EncryptedQueueStore) (user dev : Z) (ev : EncryptedStateEvent) : bool :=
  (TargetUserID ev =? user)
  && negb (negb (TargetAuthKeyID ev =? 0) && negb (TargetAuthKeyID ev =? dev))
  && negb (bool_decide ((ev_ID ev, dev) ∈ delivered q)).

Definition ListUndeliveredStateEvents (user dev limit : Z) (w : world)
    : list EncryptedStateEvent * world :=
  (collect (event_visible (queue w) user dev) (default_limit limit) [] (stateEvents (queue w)), w).

Definition MarkStateEventsDelivered (dev : Z) (ids : list Z) (w : world) : () * world :=
  let q := queue w in
  (tt, with_queue {| byDevice := byDevice q; reserved := reserved q; confirmed := confirmed q;
                     dedup := dedup q; stateEvents := stateEvents q;
                     delivered := fold_left (λ d id, {[(id, dev)]} ∪ d) ids (delivered q);
                     nextEventID := nextEventID q; files := files q |} w).

Definition PutEncryptedFile (ref : EncryptedFileRef) (w : world) : () * world :=
  let q := queue w in
  (tt, with_queue {| byDevice := byDevice q; reserved := reserved q; confirmed := confirmed q;
                     dedup := dedup q; stateEvents := stateEvents q; delivered := delivered q;
                     nextEventID := nextEventID q; files := <[file_ID ref := ref]> (files q) |} w).

Definition GetEncryptedFile (id accessHash : Z) (w : world) : option EncryptedFileRef * world :=
  (match files (queue w) !! id with
   | Some ref => if file_AccessHash ref =? accessHash then Some ref else None
   | None => None
   end, w).

(** * Programs: sequences of store calls *)

Inductive prog (A : Type) : Type :=
  | Ret (a : A)
  | Step {B : Type} (f : world → B * world) (k : B → prog A).
Arguments Ret {A} a.
Arguments Step {A B} f k.

Fixpoint prog_bind {A B} (k : A → prog B) (p : prog A) : prog B :=
  match p with
  | Ret a => k a
  | Step f k' => Step f (λ b, prog_bind k (k' b))
  end.

#[export] Instance prog_ret : MRet prog := @Ret.
#[export] Instance prog_mbind : MBind prog := λ A B k p, prog_bind k p.
#[export] Instance prog_fmap : FMap prog := λ A B f p, prog_bind (λ a, Ret (f a)) p.

Definition store_call {A} (f : world → A * world) : prog A := Step f Ret.

(** Running a program with nothing in between its calls. *)
Fixpoint run {A} (p : prog A) (w : world) : A * world :=
  match p with
  | Ret a => (a, w)
  | Step f k => let '(b, w') := f w in run (k b) w'
  end.

(** * The service *)

Definition randomAccessHash (draw : option Z) : res secret_error Z :=
  match draw with
  | None => ERR ErrAccessHashRand
  | Some u => let v := Z.shiftr u 1 in OK (if v =? 0 then 1 else v)
  end.

Definition sameSecretChatRequest (c : SecretChat) (req : SecretChatRequest) (ga : list Z) : bool :=
  (ID c =? req_RandomID req) && (RandomID c =? req_RandomID req)
  && (AdminUserID c =? req_AdminUserID req) && (AdminAuthKeyID c =? req_AdminAuthKeyID req)
  && (ParticipantUserID c =? req_ParticipantUserID req) && bool_decide (GA c = ga).

Definition request_chat (req : SecretChatRequest) (ga : list Z) (adminAH participantAH : Z)
    : SecretChat := {|
  ID := req_RandomID req; AdminAccessHash := adminAH; ParticipantAccessHash := participantAH;
  AdminUserID := req_AdminUserID req; ParticipantUserID := req_ParticipantUserID req;
  AdminAuthKeyID := req_AdminAuthKeyID req; ParticipantAuthKeyID := 0;
  State := SecretChatStateRequested; GA := ga; GB := []; KeyFingerprint := 0; Layer := 0;
  FolderID := 0; HistoryDeleted := false; RandomID := req_RandomID req; Date := req_Date req |}.

(** Whether the chat found under the id is a replay of this request. *)
Definition answer_existing (req : SecretChatRequest) (ga : list Z) (existing : option SecretChat)
    : res secret_error SecretChat :=
  match existing with
  | Some c =>
      if sameSecretChatRequest c req ga && negb (Terminal c) then OK c
      else ERR ErrSecretChatRandomIDDuplicate
  | None => ERR ErrSecretChatRandomIDDuplicate
  end.

(** [draw1], [draw2]: the two random draws, when they are reached. *)
Definition RequestEncryption (req : SecretChatRequest) (draw1 draw2 : option Z)
    : prog (res secret_error SecretChat) :=
  if (req_AdminUserID req =? 0) || (req_ParticipantUserID req =? 0) || (req_AdminAuthKeyID req =? 0)
  then mret (ERR (ErrDH ErrGAInvalid))
  else if req_RandomID req =? 0 then mret (ERR ErrSecretChatRandomIDDuplicate)
  else
    match validateDHParam (req_GA req) with
    | ERR err => mret (ERR (ErrDH err))
    | OK ga =>
        existing ← store_call (GetSecretChat (req_RandomID req));
        match existing with
        | Some _ => mret (answer_existing req ga existing)
        | None =>
            match randomAccessHash draw1, randomAccessHash draw2 with
            | ERR err, _ => mret (ERR err)
            | OK _, ERR err => mret (ERR err)
            | OK adminAH, OK participantAH =>
                let c := request_chat req ga adminAH participantAH in
                err ← store_call (CreateSecretChat c);
                match err with
                | None => mret (OK c)
                | Some ErrSecretChatRandomIDDuplicate =>
                    existing ← store_call (GetSecretChat (req_RandomID req));
                    mret (answer_existing req ga existing)
                | Some err => mret (ERR err)
                end
            end
        end
    end.

Definition AcceptEncryption (chatID viewerUserID participantAuthKeyID accessHash : Z)
    (gb : list Z) (fp : Z) : prog (res secret_error SecretChat) :=
  match validateDHParam gb with
  | ERR err => mret (ERR (ErrDH err))
  | OK gbPadded =>
      found ← store_call (GetSecretChat chatID);
      match found with
      | None => mret (ERR ErrSecretChatNotFound)
      | Some c =>
          if negb (ParticipantUserID c =? viewerUserID) || negb (ParticipantAccessHash c =? accessHash)
          then mret (ERR ErrSecretChatNotFound)
          else
            match State c with
            | SecretChatStateNormal => mret (ERR ErrSecretChatAlreadyAccepted)
            | SecretChatStateDiscarded => mret (ERR ErrSecretChatAlreadyDeclined)
            | SecretChatStateUnset | SecretChatStateRequested =>
                store_call (AcceptSecretChat chatID participantAuthKeyID gbPadded fp)
            end
      end
  end.

(** Who may discard: a participant, from the device its side is bound to, or
    from any device while its side is not bound yet. *)
Definition may_discard (c : SecretChat) (viewerUserID viewerAuthKeyID : Z) : bool :=
  let bound := AuthKeyOf c viewerUserID in
  HasParticipant c viewerUserID && negb (viewerAuthKeyID =? 0)
  && negb (negb (bound =? 0) && negb (bound =? viewerAuthKeyID))
  && negb ((bound =? 0) && negb (viewerUserID =? ParticipantUserID c)).

Definition DiscardEncryption (chatID viewerUserID viewerAuthKeyID : Z) (deleteHistory : bool)
    : prog (res secret_error (SecretChat * bool)) :=
  found ← store_call (GetSecretChat chatID);
  match found with
  | None => mret (ERR ErrSecretChatNotFound)
  | Some c =>
      if may_discard c viewerUserID viewerAuthKeyID
      then store_call (DiscardSecretChat chatID deleteHistory)
      else mret (ERR ErrSecretChatNotFound)
  end.

Fixpoint discard_all (l : list SecretChat) (discarded : list SecretChat)
    : prog (list SecretChat * option secret_error) :=
  match l with
  | [] => mret (discarded, None)
  | c :: l' =>
      r ← store_call (DiscardSecretChat (ID c) false);
      match r with
      | ERR ErrSecretChatNotFound => discard_all l' discarded
      | ERR err => mret (discarded, Some err)
      | OK (updated, already) =>
          discard_all l' (if already : bool then discarded else discarded ++ [updated])
      end
  end.

Definition DiscardForAuthKey (authKeyID : Z) : prog (list SecretChat * option secret_error) :=
  if authKeyID =? 0 then mret ([], None)
  else
    l ← store_call (ListActiveSecretChatsByAuthKey authKeyID);
    discard_all l [].

Definition may_send (c : SecretChat) (viewerUserID viewerAuthKeyID accessHash : Z) : bool :=
  HasParticipant c viewerUserID && negb (viewerAuthKeyID =? 0)
  && (AuthKeyOf c viewerUserID =? viewerAuthKeyID) && (AccessHashFor c viewerUserID =? accessHash).

Definition receiver_key (c : SecretChat) (viewerUserID : Z) : Z :=
  if IsAdmin c viewerUserID then ParticipantAuthKeyID c else AdminAuthKeyID c.

Definition outgoing (chatID receiverUserID receiverAuthKeyID : Z) (d : SecretMessageDelivery)
    : SecretChatMessage := {|
  ReceiverAuthKeyID := receiverAuthKeyID; Qts := 0; ReceiverUserID := receiverUserID;
  msg_ChatID := chatID; msg_RandomID := del_RandomID d; msg_Date := del_Date d;
  IsService := del_IsService d; Bytes := del_Bytes d; File := del_File d |}.

Definition SendEncrypted (chatID viewerUserID viewerAuthKeyID accessHash : Z)
    (d : SecretMessageDelivery) : prog (res secret_error (SecretChat * SecretChatMessage)) :=
  found ← store_call (GetSecretChat chatID);
  match found with
  | None => mret (ERR ErrSecretChatNotFound)
  | Some c =>
      if negb (may_send c viewerUserID viewerAuthKeyID accessHash)
      then mret (ERR ErrSecretChatNotFound)
      else if negb (bool_decide (State c = SecretChatStateNormal))
      then mret (ERR ErrSecretChatNotFound)
      else
        let receiverUserID := PeerOf c viewerUserID in
        let receiverAuthKeyID := receiver_key c viewerUserID in
        if (receiverUserID =? 0) || (receiverAuthKeyID =? 0)
        then mret (ERR ErrSecretChatNotFound)
        else
          stored ← store_call (AppendEncryptedMessage
                     (outgoing chatID receiverUserID receiverAuthKeyID d));
          mret (OK (c, stored.1))
  end.

Definition ListNewMessages (dev sinceQts limit : Z) : prog (list SecretChatMessage) :=
  if dev =? 0 then mret [] else store_call (ListEncryptedMessagesSince dev sinceQts limit).

Definition DeviceReservedQts (dev : Z) : prog Z :=
  if dev =? 0 then mret 0 else store_call (ReservedQts dev).

Definition AckQueue (dev maxQts : Z) : prog () :=
  if (dev =? 0) || (maxQts <=? 0) then mret tt else store_call (AckEncryptedMessages dev maxQts).

Definition state_event (t : EncryptedStateEventType) (chatID user key maxDate date : Z)
    : EncryptedStateEvent := {|
  ev_ID := 0; TargetUserID := user; TargetAuthKeyID := key; ev_ChatID := chatID; ev_Type := t;
  ev_MaxDate := maxDate; ev_Date := date |}.

Definition RecordEncryptionEvent (chatID user key date : Z) : prog () :=
  if user =? 0 then mret tt
  else
    _ ← store_call (AppendStateEvent (state_event EncryptedStateEventEncryption chatID user key 0 date));
    mret tt.

Definition RecordReadEvent (chatID user key maxDate date : Z) : prog () :=
  if user =? 0 then mret tt
  else
    _ ← store_call (AppendStateEvent (state_event EncryptedStateEventRead chatID user key maxDate date));
    mret tt.

Definition ListStateEvents (user dev limit : Z) : prog (list EncryptedStateEvent) :=
  if (user =? 0) || (dev =? 0) then mret []
  else store_call (ListUndeliveredStateEvents user dev limit).

Definition MarkDelivered (dev : Z) (ids : list Z) : prog () :=
  if (dev =? 0) || bool_decide (ids = []) then mret tt
  else store_call (MarkStateEventsDelivered dev ids).

Definition PutFile (ref : EncryptedFileRef) : prog () :=
  if file_ID ref =? 0 then mret tt else store_call (PutEncryptedFile ref).

(** * Interleaving *)

(** The calls a client can make and the answers they give. *)
Inductive request :=
  | Request (req : SecretChatRequest) (draw1 draw2 : option Z)
  | Accept (chatID user key accessHash : Z) (gb : list Z) (fp : Z)
  | Discard (chatID user key : Z) (deleteHistory : bool)
  | DiscardDevice (key : Z)
  | Send (chatID user key accessHash : Z) (d : SecretMessageDelivery)
  | Ack (dev maxQts : Z)
  | EncryptionEvent (chatID user key date : Z)
  | ReadEvent (chatID user key maxDate date : Z)
  | Delivered (dev : Z) (ids : list Z)
  | Upload (ref : EncryptedFileRef).

Inductive reply :=
  | Requested (r : res secret_error SecretChat)
  | Accepted (r : res secret_error SecretChat)
  | Discarded (r : res secret_error (SecretChat * bool))
  | DeviceDiscarded (r : list SecretChat * option secret_error)
  | Sent (r : res secret_error (SecretChat * SecretChatMessage))
  | Done.

Definition serve (q : request) : prog reply :=
  match q with
  | Request req d1 d2 => Requested <$> RequestEncryption req d1 d2
  | Accept id user key hash gb fp => Accepted <$> AcceptEncryption id user key hash gb fp
  | Discard id user key del => Discarded <$> DiscardEncryption id user key del
  | DiscardDevice key => DeviceDiscarded <$> DiscardForAuthKey key
  | Send id user key hash d => Sent <$> SendEncrypted id user key hash d
  | Ack dev qts => (λ _, Done) <$> AckQueue dev qts
  | EncryptionEvent id user key date => (λ _, Done) <$> RecordEncryptionEvent id user key date
  | ReadEvent id user key maxDate date => (λ _, Done) <$> RecordReadEvent id user key maxDate date
  | Delivered dev ids => (λ _, Done) <$> MarkDelivered dev ids
  | Upload ref => (λ _, Done) <$> PutFile ref
  end.

Record pool := {
  threads : list (prog reply);
  store : world;
}.

(** A client call arrives, or some call in progress makes its next store call. *)
Inductive pool_step : pool → pool → Prop :=
  | pool_arrive ts w q :
      pool_step {| threads := ts; store := w |} {| threads := ts ++ [serve q]; store := w |}
  | pool_call ts w i B (f : world → B * world) k b w' :
      ts !! i = Some (Step f k) → f w = (b, w') →
      pool_step {| threads := ts; store := w |} {| threads := <[i := k b]> ts; store := w' |}.
