(* ===== verification/SecretInv.v ===== *)
(** The invariant of the secret-chat stores and what every store call of the
    service does to them, whatever runs in between.

    [world_ok] is the invariant of one snapshot, [moves] the preorder in which
    the stores evolve.  [good_prog] says that every store call of a program
    keeps the first and respects the second; [leads] is the view of one client
    call in the middle of all the others. *)

From S2P Require Import Prelude Dh SecretChat.

Open Scope Z_scope.

(** * Chats *)

Definition rank (s : SecretChatState) : nat :=
  match s with
  | SecretChatStateUnset | SecretChatStateRequested => 0
  | SecretChatStateNormal => 1
  | SecretChatStateDiscarded => 2
  end.

Definition dh_valid (g : list Z) : Prop := validateDHParam g = OK g.

Record chat_ok (id : Z) (c : SecretChat) : Prop := {
  ck_id : ID c = id;
  ck_random : ID c = RandomID c;
  ck_users : AdminUserID c ≠ 0 ∧ ParticipantUserID c ≠ 0 ∧ AdminAuthKeyID c ≠ 0;
  ck_set : State c ≠ SecretChatStateUnset;
  ck_ga : dh_valid (GA c);
  ck_open : State c = SecretChatStateRequested → ParticipantAuthKeyID c = 0 ∧ GB c = [];
  ck_normal : State c = SecretChatStateNormal → dh_valid (GB c);
}.

Record chat_moves (c c' : SecretChat) : Prop := {
  cm_ids : ID c' = ID c ∧ AdminAccessHash c' = AdminAccessHash c
    ∧ ParticipantAccessHash c' = ParticipantAccessHash c;
  cm_users : AdminUserID c' = AdminUserID c ∧ ParticipantUserID c' = ParticipantUserID c
    ∧ AdminAuthKeyID c' = AdminAuthKeyID c ∧ GA c' = GA c;
  cm_rank : (rank (State c) ≤ rank (State c'))%nat;
  cm_bound : (1 ≤ rank (State c))%nat →
    ParticipantAuthKeyID c' = ParticipantAuthKeyID c ∧ GB c' = GB c
    ∧ KeyFingerprint c' = KeyFingerprint c;
  cm_final : Terminal c = true → c' = c;
}.

#[export] Instance chat_moves_preorder : PreOrder chat_moves.
Proof.
  split.
  - intros c. by split.
  - intros a b c [(i1 & i2 & i3) (u1 & u2 & u3 & u4) r1 b1 f1]
      [(j1 & j2 & j3) (v1 & v2 & v3 & v4) r2 b2 f2].
    split; [split_and!; congruence | split_and!; congruence | lia | |].
    + intros H. destruct b2 as (-> & -> & ->); [lia | auto].
    + intros H. rewrite f2; [auto|]. by rewrite f1.
Qed.

(** * The queue *)

Record queue_ok (q : EncryptedQueueStore) : Prop := {
  qo_reserved : ∀ dev, reservedOf q dev = Z.of_nat (length (device_queue q dev));
  qo_entry : ∀ dev i m, device_queue q dev !! i = Some m →
    Qts m = Z.of_nat i + 1 ∧ ReceiverAuthKeyID m = dev
    ∧ dedup q !! dedup_key m = Some (Z.of_nat i + 1);
  qo_dedup : ∀ k n, dedup q !! k = Some n →
    ∃ m i, device_queue q k.1.1 !! i = Some m ∧ n = Z.of_nat i + 1 ∧ dedup_key m = k;
  qo_events : ∀ i ev, stateEvents q !! i = Some ev → ev_ID ev = Z.of_nat i + 1;
  qo_next : nextEventID q = Z.of_nat (length (stateEvents q));
}.

(** Memory cannot hold 2^63 messages: the counters do not wrap. *)
Definition room (w : world) : Prop :=
  (∀ dev, Z.of_nat (length (device_queue (queue w) dev)) < max_int64)
  ∧ Z.of_nat (length (stateEvents (queue w))) < max_int64.

Record queue_moves (q q' : EncryptedQueueStore) : Prop := {
  qm_messages : ∀ dev, device_queue q dev `prefix_of` device_queue q' dev;
  qm_events : stateEvents q `prefix_of` stateEvents q';
  qm_delivered : delivered q ⊆ delivered q';
  qm_confirmed : ∀ dev, confirmedOf q dev <= confirmedOf q' dev;
}.

#[export] Instance queue_moves_preorder : PreOrder queue_moves.
Proof.
  split.
  - intros q. by split.
  - intros a b c [m1 e1 d1 c1] [m2 e2 d2 c2]. split.
    + intros dev. etrans; [apply m1 | apply m2].
    + by etrans.
    + by etrans.
    + intros dev. etrans; [apply c1 | apply c2].
Qed.

(** * Worlds *)

Record world_ok (w : world) : Prop := {
  wo_chat : ∀ id c, chats w !! id = Some c → chat_ok id c;
  wo_queue : queue_ok (queue w);
}.

Record moves (w w' : world) : Prop := {
  mv_chat : ∀ id c, chats w !! id = Some c → ∃ c', chats w' !! id = Some c' ∧ chat_moves c c';
  mv_queue : queue_moves (queue w) (queue w');
}.

#[export] Instance moves_preorder : PreOrder moves.
Proof.
  split.
  - intros w. split; [|done]. intros id c Hc. by exists c.
  - intros a b c [c1 q1] [c2 q2]. split; [|by etrans].
    intros id x Hx. destruct (c1 _ _ Hx) as (y & Hy & Hxy). destruct (c2 _ _ Hy) as (z & Hz & Hyz).
    exists z. split; [done|]. by etrans.
Qed.

Definition good_move (w w' : world) : Prop := world_ok w' ∧ moves w w'.

Lemma stay_good w : world_ok w → good_move w w.
Proof. by split. Qed.

Lemma empty_world_ok : world_ok empty_world.
Proof. split; [done|]. by split. Qed.

(** ** Updating one chat *)

Lemma update_chat_good w id c c' :
  world_ok w → chats w !! id = Some c → chat_ok id c' → chat_moves c c' →
  good_move w (with_chats (<[id := c']> (chats w)) w).
Proof.
  intros [Hc Hq] Hid Hok Hle. split; split; simpl; try done.
  - intros id' x [[<- <-]|[_ Hx]]%lookup_insert_Some; eauto.
  - intros id' x Hx. destruct (decide (id = id')) as [<-|Hne].
    + rewrite lookup_insert_eq. exists c'. split; [done|]. by simplify_eq.
    + rewrite lookup_insert_ne by done. by exists x.
Qed.

Lemma create_chat_good w c :
  world_ok w → chat_ok (ID c) c → good_move w (CreateSecretChat c w).2.
Proof.
  intros Hw Hok. unfold CreateSecretChat. destruct (_ || _); [by apply stay_good|].
  destruct (chats w !! ID c) eqn:Hnew; [by apply stay_good|].
  rewrite decide_False by apply (ck_set _ _ Hok). destruct Hw as [Hc Hq].
  split; split; simpl; try done.
  - intros id' x [[<- <-]|[_ Hx]]%lookup_insert_Some; eauto.
  - intros id' x Hx. exists x. split; [|done]. rewrite lookup_insert_ne; [done|congruence].
Qed.

Lemma AcceptSecretChat_good w id key gb fp :
  world_ok w → dh_valid gb → good_move w (AcceptSecretChat id key gb fp w).2.
Proof.
  intros Hw Hg. unfold AcceptSecretChat. destruct (chats w !! id) as [c|] eqn:Hc; [|by apply stay_good].
  pose proof (wo_chat _ Hw _ _ Hc) as [h1 h2 h3 h4 h5 h6 h7].
  destruct (State c) eqn:Hs; try (by apply stay_good); [done|].
  destruct (negb _); [by apply stay_good|]. simpl.
  apply (update_chat_good w id c); try done; split; simpl; try done.
  - rewrite Hs. simpl. lia.
  - rewrite Hs. simpl. lia.
  - intros Ht%bool_decide_eq_true. congruence.
Qed.

Lemma DiscardSecretChat_good w id del :
  world_ok w → good_move w (DiscardSecretChat id del w).2.
Proof.
  intros Hw. unfold DiscardSecretChat. destruct (chats w !! id) as [c|] eqn:Hc; [|by apply stay_good].
  pose proof (wo_chat _ Hw _ _ Hc) as [h1 h2 h3 h4 h5 h6 h7].
  destruct (decide _) as [Hs|Hs]; [by apply stay_good|]. simpl.
  apply (update_chat_good w id c); try done; split; simpl; try done.
  - destruct (State c); simpl; lia.
  - intros Ht%bool_decide_eq_true. congruence.
Qed.

(** ** Appending a message *)

Lemma find_duplicate_Some q m m' :
  queue_ok q → find_duplicate m q = Some m' →
  dedup_key m' = dedup_key m ∧ m' ∈ device_queue q (ReceiverAuthKeyID m).
Proof.
  intros Hq. unfold find_duplicate. intros (n & Hn & Hf)%option.bind_Some.
  apply List.find_some in Hf as [Hin Hm]. apply list_elem_of_In in Hin. split; [|done].
  destruct (qo_dedup _ Hq _ _ Hn) as (m1 & i & Hm1 & -> & Hk).
  apply list_elem_of_lookup in Hin as [j Hj]. apply Z.eqb_eq in Hm.
  destruct (qo_entry _ Hq _ _ _ Hj) as (Hq1 & _ & _).
  assert (i = j) as -> by lia. simpl in Hm1. rewrite Hj in Hm1. by injection Hm1 as ->.
Qed.

Lemma find_duplicate_None q m :
  queue_ok q → find_duplicate m q = None → dedup q !! dedup_key m = None.
Proof.
  intros Hq. unfold find_duplicate. destruct (dedup q !! dedup_key m) as [n|] eqn:Hn; [|done].
  simpl. intros Hf. exfalso. destruct (qo_dedup _ Hq _ _ Hn) as (m1 & i & Hm1 & -> & Hk).
  simpl in Hm1. destruct (qo_entry _ Hq _ _ _ Hm1) as (Hq1 & _ & _).
  assert (m1 ∈ device_queue q (ReceiverAuthKeyID m)) as Hin by by eapply list_elem_of_lookup_2.
  apply list_elem_of_In in Hin. pose proof (List.find_none _ _ Hf _ Hin) as Hne.
  apply Z.eqb_neq in Hne. lia.
Qed.

Lemma device_queue_append m q dev :
  device_queue (append_queue m q).2 dev
  = if decide (dev = ReceiverAuthKeyID m)
    then device_queue q dev ++ [set_Qts (reservedOf q dev +₆₄ 1) m] else device_queue q dev.
Proof.
  unfold device_queue, append_queue. simpl. destruct (decide _) as [->|Hne].
  - by rewrite lookup_insert_eq.
  - by rewrite lookup_insert_ne.
Qed.

Lemma append_queue_good q m :
  queue_ok q → find_duplicate m q = None →
  Z.of_nat (length (device_queue q (ReceiverAuthKeyID m))) < max_int64 →
  queue_ok (append_queue m q).2 ∧ queue_moves q (append_queue m q).2.
Proof.
  intros Hq Hdup Hroom. apply find_duplicate_None in Hdup; [|done].
  set (dev := ReceiverAuthKeyID m) in *. set (n := length (device_queue q dev)) in *.
  assert (reservedOf q dev +₆₄ 1 = Z.of_nat n + 1) as Hqts
    by (rewrite (qo_reserved _ Hq); apply wrap64_id; solve_int64).
  destruct Hq as [r e d ev nx]. split; split; try done.
  - intros dev'. rewrite device_queue_append. unfold reservedOf, append_queue. simpl. fold dev.
    destruct (decide _) as [->|Hne].
    + rewrite lookup_insert_eq, length_app. simpl. fold dev. rewrite Hqts. fold n. lia.
    + rewrite lookup_insert_ne by done. apply r.
  - intros dev' i m'. rewrite device_queue_append. fold dev. simpl.
    destruct (decide _) as [->|Hne].
    + intros [Hm'|[Hge Hm']]%lookup_app_Some.
      * destruct (e _ _ _ Hm') as (h1 & h2 & h3). split_and!; [done..|].
        rewrite lookup_insert_ne; [done|]. change (dedup_key m ≠ dedup_key m'). congruence.
      * fold n in Hge. apply list_lookup_singleton_Some in Hm' as [Hi <-].
        assert (i = n) as -> by (unfold n in *; lia). fold dev. rewrite Hqts.
        split_and!; [done | done |]. by rewrite lookup_insert_eq.
    + intros Hm'. destruct (e _ _ _ Hm') as (h1 & h2 & h3). split_and!; [done..|].
      rewrite lookup_insert_ne; [done|]. intros [= Heq _ _]. unfold dev in Hne. congruence.
  - intros k n'.
    change (dedup (append_queue m q).2) with (<[dedup_key m := reservedOf q dev +₆₄ 1]> (dedup q)).
    intros [[<- <-]|[Hne Hk]]%lookup_insert_Some.
    + exists (set_Qts (Z.of_nat n + 1) m), n. rewrite device_queue_append. simpl. fold dev.
      rewrite decide_True, Hqts by done. split_and!; [by apply list_lookup_middle|lia|done].
    + destruct (d _ _ Hk) as (m1 & i & Hm1 & -> & Hk1). exists m1, i. split_and!; [|done|done].
      rewrite device_queue_append. destruct (decide _); [|done]. by apply lookup_app_l_Some.
  - intros dev'. rewrite device_queue_append. destruct (decide _); [|done]. by apply prefix_app_r.
Qed.

Lemma AppendEncryptedMessage_good w m :
  world_ok w → room w → good_move w (AppendEncryptedMessage m w).2.
Proof.
  intros Hw [Hr _]. unfold AppendEncryptedMessage.
  destruct (find_duplicate m (queue w)) as [m'|] eqn:Hd; [by apply stay_good|].
  destruct (append_queue_good (queue w) m) as [Hq Hm]; [by apply wo_queue | done | done |].
  destruct (append_queue m (queue w)) as [m' q]. simpl in *.
  split; split; simpl; [by apply wo_chat | done | | done]. intros id c Hc. by exists c.
Qed.

(** ** The other store calls *)

Lemma queue_only_good w q :
  world_ok w → queue_ok q → queue_moves (queue w) q → good_move w (with_queue q w).
Proof.
  intros [Hc _] Hq Hm. split; split; simpl; try done. intros id c Hid. by exists c.
Qed.

Lemma AckEncryptedMessages_good w dev qts :
  world_ok w → good_move w (AckEncryptedMessages dev qts w).2.
Proof.
  intros Hw. unfold AckEncryptedMessages. destruct (Z.ltb_spec (confirmedOf (queue w) dev) qts);
    [|by apply stay_good]. simpl. pose proof (wo_queue _ Hw) as [r e d ev nx].
  apply queue_only_good; [done | by split |]. split; simpl; try done.
  intros dev'. unfold confirmedOf at 2. simpl. destruct (decide (dev = dev')) as [<-|Hne].
  - rewrite lookup_insert_eq. simpl. lia.
  - rewrite lookup_insert_ne by done. done.
Qed.

Lemma AppendStateEvent_good w ev :
  world_ok w → room w → good_move w (AppendStateEvent ev w).2.
Proof.
  intros Hw [_ Hr]. pose proof (wo_queue _ Hw) as [r e d evs nx]. unfold AppendStateEvent.
  assert (nextEventID (queue w) +₆₄ 1 = Z.of_nat (length (stateEvents (queue w))) + 1) as Hid
    by (rewrite nx; apply wrap64_id; solve_int64).
  rewrite Hid. simpl. apply queue_only_good; [done | | split; simpl; try done; by apply prefix_app_r].
  split; simpl; try done.
  - intros i x [Hx|[Hge Hx]]%lookup_app_Some; [by apply evs|].
    apply list_lookup_singleton_Some in Hx as [Hi <-]. simpl. lia.
  - rewrite length_app. simpl. lia.
Qed.

Lemma delivered_fold dev ids d :
  fold_left (λ d id, {[(id, dev)]} ∪ d) ids d
  = list_to_set ((λ id, (id, dev)) <$> ids) ∪ d :> gset (Z * Z).
Proof.
  revert d. induction ids as [|id ids IH]; intros d; csimpl; [set_solver|].
  rewrite IH. set_solver.
Qed.

Lemma MarkStateEventsDelivered_good w dev ids :
  world_ok w → good_move w (MarkStateEventsDelivered dev ids w).2.
Proof.
  intros Hw. pose proof (wo_queue _ Hw) as [r e d evs nx]. simpl.
  apply queue_only_good; [done | by split |]. split; simpl; try done.
  rewrite delivered_fold. set_solver.
Qed.

Lemma PutEncryptedFile_good w ref : world_ok w → good_move w (PutEncryptedFile ref w).2.
Proof.
  intros Hw. pose proof (wo_queue _ Hw) as [r e d evs nx]. simpl.
  apply queue_only_good; [done | by split | by split].
Qed.
