(* ===== verification/SecretProps.v ===== *)
(** What the secret-chat service guarantees to concurrent clients. *)

From S2P Require Import Prelude Dh SecretChat SecretInv.

Open Scope Z_scope.

(** * Programs whose store calls are good *)

(** This call is the one that turned the requested chat [c] into a normal one. *)
Definition won (c : SecretChat) (w w' : world) : Prop :=
  ∃ c0, chats w !! ID c = Some c0 ∧ State c0 = SecretChatStateRequested
    ∧ chats w' !! ID c = Some c ∧ State c = SecretChatStateNormal.

Fixpoint good_prog (p : prog reply) : Prop :=
  match p with
  | Ret _ => True
  | Step f k =>
      (∀ w, world_ok w → room w → good_move w (f w).2)
      ∧ (∀ w c, world_ok w → k (f w).1 = Ret (Accepted (OK c)) → won c w (f w).2)
      ∧ ∀ b, good_prog (k b)
  end.

(** The common case: a call that keeps the invariant and whose continuation
    does not end in a successful acceptance. *)
Lemma good_prog_step {B} (f : world → B * world) k :
  (∀ w, world_ok w → room w → good_move w (f w).2) →
  (∀ b c, k b ≠ Ret (Accepted (OK c))) → (∀ b, good_prog (k b)) → good_prog (Step f k).
Proof. intros Hf Hne Hk. simpl. split_and!; [done | | done]. intros w c _ Heq. by destruct (Hne _ _ Heq). Qed.

Lemma good_prog_read {B} (f : world → B * world) k :
  (∀ w, (f w).2 = w) →
  (∀ b c, k b ≠ Ret (Accepted (OK c))) → (∀ b, good_prog (k b)) → good_prog (Step f k).
Proof. intros Hf. apply good_prog_step. intros w Hw _. rewrite Hf. by apply stay_good. Qed.

Lemma good_read_last {B} (f : world → B * world) (g : B → reply) :
  (∀ w, (f w).2 = w) → (∀ b c, g b ≠ Accepted (OK c)) → good_prog (Step f (λ b, Ret (g b))).
Proof. intros Hf Hg. apply good_prog_read; [done | | done]. intros b c [= H]. by apply (Hg b c). Qed.

Lemma good_write_last {B} (f : world → B * world) (g : B → reply) :
  (∀ w, world_ok w → room w → good_move w (f w).2) →
  (∀ b c, g b ≠ Accepted (OK c)) → good_prog (Step f (λ b, Ret (g b))).
Proof. intros Hf Hg. apply good_prog_step; [done | | done]. intros b c [= H]. by apply (Hg b c). Qed.

#[local] Arguments good_prog : simpl never.

Lemma validate_valid g g' : validateDHParam g = OK g' → dh_valid g'.
Proof.
  intros H. pose proof (validateDHParam_idem g g' H). done.
Qed.

Lemma request_chat_ok req ga a1 a2 :
  req_AdminUserID req ≠ 0 → req_ParticipantUserID req ≠ 0 → req_AdminAuthKeyID req ≠ 0 →
  dh_valid ga → chat_ok (ID (request_chat req ga a1 a2)) (request_chat req ga a1 a2).
Proof. intros. by split. Qed.

Lemma serve_request_good req d1 d2 : good_prog (serve (Request req d1 d2)).
Proof.
  simpl. unfold RequestEncryption.
  destruct (_ || _) eqn:Hids; [done|].
  apply orb_false_iff in Hids as [[Hu1%Z.eqb_neq Hu2%Z.eqb_neq]%orb_false_iff Hk%Z.eqb_neq].
  destruct (req_RandomID req =? 0); [done|].
  destruct (validateDHParam (req_GA req)) as [ga|] eqn:Hga; [|done].
  apply validate_valid in Hga.
  apply good_prog_read; [done | |].
  { intros [c0|] c; simpl; [done|]. by destruct (randomAccessHash d1), (randomAccessHash d2). }
  intros [c0|]; simpl; [done|].
  destruct (randomAccessHash d1) as [a1|]; [|done].
  destruct (randomAccessHash d2) as [a2|]; [|done].
  apply good_prog_step.
  - intros w Hw _. apply create_chat_good; [done|]. by apply request_chat_ok.
  - intros [[]|] c; done.
  - intros [[]|]; simpl; done.
Qed.

Lemma serve_accept_good id user key hash gb fp : good_prog (serve (Accept id user key hash gb fp)).
Proof.
  simpl. unfold AcceptEncryption. destruct (validateDHParam gb) as [gb'|] eqn:Hg; [|done].
  apply validate_valid in Hg. apply good_prog_read; [done | |].
  { intros [c0|] c; simpl; [|done]. destruct (_ || _); [done|]. by destruct (State c0). }
  intros [c0|]; simpl; [|done]. destruct (_ || _); [done|].
  assert (good_prog (Step (AcceptSecretChat id key gb' fp) (λ r, Ret (Accepted r)))) as Hacc.
  { cbn [good_prog]. split_and!; [| |done].
    - intros w Hw _. by apply AcceptSecretChat_good.
    - intros w c Hw [= Hr]. revert Hr. unfold AcceptSecretChat, won.
      destruct (chats w !! id) as [c1|] eqn:Hc1; [|done].
      pose proof (wo_chat _ Hw _ _ Hc1) as Hok.
      destruct (State c1) eqn:Hs; try done; [by destruct (ck_set _ _ Hok)|].
      destruct (negb _); [done|]. simpl. intros [= <-]. simpl. rewrite (ck_id _ _ Hok).
      exists c1. by rewrite lookup_insert_eq. }
  by destruct (State c0).
Qed.

Lemma discard_all_good l out :
  good_prog (DeviceDiscarded <$> discard_all l out).
Proof.
  revert out. induction l as [|c l IH]; intros out; [done|].
  apply good_prog_step.
  - intros w Hw _. by apply DiscardSecretChat_good.
  - intros [[u already]|e] c'; [|destruct e; try done]; by destruct l.
  - intros [[u already]|e]; [|destruct e; try done]; apply IH.
Qed.

Lemma serve_good q : good_prog (serve q).
Proof.
  destruct q; [apply serve_request_good | apply serve_accept_good | ..]; simpl.
  - apply good_prog_read; [done | |].
    + intros [c0|] c; simpl; [|done]. by destruct (may_discard _ _ _).
    + intros [c0|]; simpl; [|done]. destruct (may_discard _ _ _); [|done].
      apply good_write_last; [|done]. intros w Hw _. by apply DiscardSecretChat_good.
  - unfold DiscardForAuthKey. destruct (key =? 0); [done|].
    apply good_prog_read.
    + intros w. unfold ListActiveSecretChatsByAuthKey. by destruct (key =? 0).
    + intros [|c0 l] c; done.
    + intros l. apply discard_all_good.
  - apply good_prog_read; [done | |].
    + intros [c0|] c; simpl; [|done]. destruct (negb _); [done|]. destruct (negb _); [done|].
      by destruct (_ || _).
    + intros [c0|]; simpl; [|done]. destruct (negb _); [done|]. destruct (negb _); [done|].
      destruct (_ || _); [done|]. apply good_write_last; [|done].
      intros w Hw Hr. by apply AppendEncryptedMessage_good.
  - unfold AckQueue. destruct (_ || _); [done|]. apply good_write_last; [|done].
    intros w Hw _. by apply AckEncryptedMessages_good.
  - unfold RecordEncryptionEvent. destruct (_ =? _); [done|]. apply good_write_last; [|done].
    intros w Hw Hr. by apply AppendStateEvent_good.
  - unfold RecordReadEvent. destruct (_ =? _); [done|]. apply good_write_last; [|done].
    intros w Hw Hr. by apply AppendStateEvent_good.
  - unfold MarkDelivered. destruct (_ || _); [done|]. apply good_write_last; [|done].
    intros w Hw _. by apply MarkStateEventsDelivered_good.
  - unfold PutFile. destruct (_ =? _); [done|]. apply good_write_last; [|done].
    intros w Hw _. by apply PutEncryptedFile_good.
Qed.

(** No call is over before its first store call with an acceptance. *)
Lemma serve_not_accepted q c : serve q ≠ Ret (Accepted (OK c)).
Proof.
  destruct q; simpl; try done.
  - unfold RequestEncryption. repeat case_match; done.
  - unfold AcceptEncryption. repeat case_match; done.
  - unfold DiscardForAuthKey. repeat case_match; done.
  - unfold AckQueue. repeat case_match; done.
  - unfold RecordEncryptionEvent. repeat case_match; done.
  - unfold RecordReadEvent. repeat case_match; done.
  - unfold MarkDelivered. repeat case_match; done.
  - unfold PutFile. repeat case_match; done.
Qed.

(** * Interleaved executions *)

Definition sized_step (p p' : pool) : Prop := room (store p) ∧ pool_step p p'.
Definition executes : pool → pool → Prop := rtc sized_step.
Definition start : pool := {| threads := []; store := empty_world |}.
Definition reachable (p : pool) : Prop := executes start p.

Lemma executes_trans p q r : executes p q → executes q r → executes p r.
Proof. unfold executes. intros. by etrans. Qed.

Definition over (p : pool) (i : nat) (r : reply) : Prop := threads p !! i = Some (Ret r).

Record pool_ok (p : pool) : Prop := {
  po_world : world_ok (store p);
  po_good : ∀ i t, threads p !! i = Some t → good_prog t;
  po_accepted : ∀ i c, over p i (Accepted (OK c)) → State c = SecretChatStateNormal
    ∧ ∃ c', chats (store p) !! ID c = Some c' ∧ chat_moves c c';
  po_unique : ∀ i j c c', over p i (Accepted (OK c)) → over p j (Accepted (OK c')) →
    ID c = ID c' → i = j;
}.

Lemma pool_step_ok p p' : pool_ok p → sized_step p p' → pool_ok p' ∧ moves (store p) (store p').
Proof.
  intros [hw hg ha hu] [Hroom Hstep].
  destruct Hstep as [ts w q | ts w i B f k b w' Hi Hf]; simpl in *.
  - split; [|done]. unfold over in *. simpl in *.
    assert (∀ j c, (ts ++ [serve q]) !! j = Some (Ret (Accepted (OK c))) →
              ts !! j = Some (Ret (Accepted (OK c)))) as Hold.
    { intros j c [H|[_ [_ H]%list_lookup_singleton_Some]]%lookup_app_Some; [done|].
      by destruct (serve_not_accepted q c). }
    split; unfold over; simpl.
    + done.
    + intros j t [H|[_ [_ <-]%list_lookup_singleton_Some]]%lookup_app_Some; [eauto|].
      apply serve_good.
    + intros j c H. by apply (ha j), Hold.
    + intros j1 j2 c c' H1 H2. apply (hu j1 j2 c c'); by apply Hold.
  - pose proof (hg _ _ Hi) as (Hgood & Hwon & Hk).
    destruct (Hgood w hw Hroom) as [Hw' Hm]. specialize (Hwon w). rewrite Hf in Hw', Hm, Hwon.
    simpl in *. split; [|done].
    pose proof (lookup_lt_Some _ _ _ Hi) as Hlt.
    assert (∀ j r, over {| threads := <[i:=k b]> ts; store := w' |} j r →
      (j = i ∧ k b = Ret r) ∨ (j ≠ i ∧ over {| threads := ts; store := w |} j r)) as Hover.
    { unfold over. simpl. intros j r [(<- & <- & _)|[Hne H]]%list_lookup_insert_Some; auto. }
    assert (∀ c, k b = Ret (Accepted (OK c)) → ∀ j c', over {| threads := ts; store := w |} j
              (Accepted (OK c')) → ID c = ID c' → False) as Hfirst.
    { intros c Hc j c' Hj Hid. destruct (Hwon c hw Hc) as (c0 & H0 & Hs0 & _).
      destruct (ha _ _ Hj) as (Hs' & c1 & H1 & Hmv). rewrite Hid in H0. simplify_eq.
      pose proof (cm_rank _ _ Hmv) as Hr. rewrite Hs', Hs0 in Hr. simpl in Hr. lia. }
    split; simpl.
    + done.
    + intros j t [(<- & <- & _)|[Hne H]]%list_lookup_insert_Some; eauto.
    + intros j c [[-> Hc]|[Hne Hc]]%Hover.
      * destruct (Hwon c hw Hc) as (_ & _ & _ & Hc' & Hs). split; [done|]. by exists c.
      * destruct (ha _ _ Hc) as (Hs & c1 & H1 & Hmv). split; [done|].
        destruct (mv_chat _ _ Hm _ _ H1) as (c2 & H2 & Hmv2). exists c2. split; [done|]. by etrans.
    + intros j1 j2 c c' [[-> H1]|[Hn1 H1]]%Hover [[-> H2]|[Hn2 H2]]%Hover Hid.
      * done.
      * by destruct (Hfirst _ H1 _ _ H2).
      * by destruct (Hfirst _ H2 _ _ H1).
      * by apply (hu j1 j2 c c').
Qed.

Lemma start_ok : pool_ok start.
Proof. split; simpl; [apply empty_world_ok | done..]. Qed.

Lemma executes_ok p p' :
  pool_ok p → executes p p' → pool_ok p' ∧ moves (store p) (store p').
Proof.
  intros Hok Hrun. revert Hok. induction Hrun as [p|p p1 p2 Hstep _ IH]; intros Hok; [done|].
  destruct (pool_step_ok _ _ Hok Hstep) as [Hok1 Hm1]. destruct (IH Hok1) as [Hok2 Hm2].
  split; [done|]. by etrans.
Qed.

Lemma reachable_ok p : reachable p → pool_ok p.
Proof. intros Hr. by destruct (executes_ok _ _ start_ok Hr). Qed.

(** ** One client call among the others *)

(** [leads t w r w']: starting at [w], the program [t] ends with [r] at [w'],
    with any good moves of the others between its store calls. *)
Fixpoint leads (t : prog reply) (w : world) (r : reply) (w' : world) : Prop :=
  match t with
  | Ret a => a = r ∧ good_move w w'
  | Step f k => ∃ w1, good_move w w1 ∧ room w1 ∧ leads (k (f w1).1) (f w1).2 r w'
  end.

Lemma good_move_trans w1 w2 w3 : good_move w1 w2 → good_move w2 w3 → good_move w1 w3.
Proof. intros [_ H1] [Hw H2]. split; [done|]. by etrans. Qed.

Lemma leads_before t w w1 r w' : good_move w w1 → leads t w1 r w' → leads t w r w'.
Proof.
  intros Hm. destruct t as [a|B f k]; simpl.
  - intros [-> H]. split; [done|]. by eapply good_move_trans.
  - intros (w2 & H1 & H2). exists w2. split; [|done]. by eapply good_move_trans.
Qed.

Lemma executes_leads p p' i t r :
  pool_ok p → executes p p' → threads p !! i = Some t → over p' i r →
  leads t (store p) r (store p').
Proof.
  intros Hok Hrun. revert t Hok. induction Hrun as [p|p p1 p2 Hstep _ IH]; intros t Hok Hi Hr.
  - unfold over in Hr. rewrite Hi in Hr. injection Hr as ->. split; [done|].
    apply stay_good, Hok.
  - destruct (pool_step_ok _ _ Hok Hstep) as [Hok1 Hm1].
    assert (good_move (store p) (store p1)) as Hgm by (split; [apply Hok1 | done]).
    destruct Hstep as [Hroom Hstep].
    destruct Hstep as [ts w q | ts w j B f k b w1 Hj Hf]; simpl in *.
    + apply (IH t); [done | by apply lookup_app_l_Some | done].
    + destruct (decide (i = j)) as [->|Hne].
      * rewrite Hi in Hj. injection Hj as ->. simpl. exists w.
        split_and!; [apply stay_good, Hok | done |]. rewrite Hf. simpl.
        apply IH; [done | | done]. apply list_lookup_insert_eq. by eapply lookup_lt_Some.
      * eapply leads_before; [done|]. apply IH; [done | by rewrite list_lookup_insert_ne | done].
Qed.

(** What a finished client call has seen and done. *)
Lemma client_call_leads p0 p i q r :
  reachable p0 → threads p0 !! i = Some (serve q) → executes p0 p → over p i r →
  leads (serve q) (store p0) r (store p).
Proof. intros Hr Hi Hrun Hover. eapply executes_leads; eauto. by apply reachable_ok. Qed.

Lemma good_move_chat w w' id c :
  good_move w w' → chats w !! id = Some c →
  ∃ c', chats w' !! id = Some c' ∧ chat_moves c c' ∧ chat_ok id c'.
Proof.
  intros [Hw Hm] Hc. destruct (mv_chat _ _ Hm _ _ Hc) as (c' & Hc' & Hmv).
  exists c'. split_and!; [done..|]. by apply (wo_chat _ Hw).
Qed.

Lemma leads_ret a w r w' : leads (Ret a) w r w' → a = r ∧ good_move w w'.
Proof. done. Qed.

(** * Accepting *)

Lemma accept_leads id user key hash gb fp w c w' :
  leads (serve (Accept id user key hash gb fp)) w (Accepted (OK c)) w' →
  ParticipantUserID c = user ∧ ParticipantAccessHash c = hash ∧ validateDHParam gb = OK (GB c)
  ∧ ParticipantAuthKeyID c = key ∧ KeyFingerprint c = fp
  ∧ ∃ w2, good_move w2 w' ∧ chats w2 !! id = Some c ∧ ID c = id ∧ State c = SecretChatStateNormal.
Proof.
  simpl. unfold AcceptEncryption. destruct (validateDHParam gb) as [gb'|]; [|by intros [? _]].
  simpl. intros (w1 & Hw1 & _ & Hl). destruct (chats w1 !! id) as [c0|] eqn:Hc0; [|by destruct Hl].
  destruct (negb _ || negb _) eqn:Hv; [by destruct Hl|].
  apply orb_false_iff in Hv as [Hu%negb_false_iff%Z.eqb_eq Hh%negb_false_iff%Z.eqb_eq].
  assert (leads (Accepted <$> store_call (AcceptSecretChat id key gb' fp)) w1 (Accepted (OK c)) w')
    as (w2 & Hw2 & _ & [Hr Hw']) by (destruct (State c0); done || by destruct Hl).
  clear Hl. destruct (good_move_chat w1 w2 id c0 Hw2 Hc0) as (c1 & Hc1 & Hmv & Hok).
  revert Hr Hw'. unfold AcceptSecretChat. rewrite Hc1.
  destruct (cm_ids _ _ Hmv) as (_ & _ & Hh1). destruct (cm_users _ _ Hmv) as (_ & Hu1 & _).
  destruct (State c1); try done;
    (destruct (negb _); [done|]; simpl; intros [= <-] Hw'; simpl; split_and!; try congruence;
     eexists; split_and!; [done | simpl; by rewrite lookup_insert_eq | apply (ck_id _ _ Hok) | done]).
Qed.

(** C8: however client calls interleave, at most one device's acceptance of a
    secret chat succeeds; it is a device of the invited user that knew the
    access hash, its public value is in range, and the chat stays bound to that
    device, public value and fingerprint for good. *)
Theorem one_device_accepts p0 p i id user key hash gb fp c :
  reachable p0 → threads p0 !! i = Some (serve (Accept id user key hash gb fp)) →
  executes p0 p → over p i (Accepted (OK c)) →
  ParticipantUserID c = user ∧ ParticipantAccessHash c = hash ∧ validateDHParam gb = OK (GB c)
  ∧ (∃ c', chats (store p) !! id = Some c' ∧ ParticipantUserID c' = user
       ∧ ParticipantAuthKeyID c' = key ∧ GB c' = GB c ∧ KeyFingerprint c' = fp
       ∧ State c' ≠ SecretChatStateRequested)
  ∧ ∀ j c', over p j (Accepted (OK c')) → ID c' = id → j = i.
Proof.
  intros Hr Hi Hrun Hover.
  destruct (accept_leads _ _ _ _ _ _ _ _ _ (client_call_leads _ _ _ _ _ Hr Hi Hrun Hover))
    as (Hu & Hh & Hg & Hk & Hf & w2 & Hmv & Hc2 & Hid & Hs).
  destruct (good_move_chat _ _ _ _ Hmv Hc2) as (c' & Hc' & Hle & Hok).
  destruct (cm_bound _ _ Hle) as (Hk' & Hg' & Hf'); [rewrite Hs; simpl; lia|].
  destruct (cm_users _ _ Hle) as (_ & Hu' & _).
  split_and!; [done..| |].
  - exists c'. split_and!; [done | congruence.. |]. intros Hreq.
    pose proof (cm_rank _ _ Hle) as Hrk. rewrite Hs, Hreq in Hrk. simpl in Hrk. lia.
  - intros j cj Hj Hidj. assert (reachable p) as Hrp by (by apply (executes_trans _ p0)).
    apply (po_unique _ (reachable_ok _ Hrp) j i cj c Hj Hover). congruence.
Qed.

(** * The life of a chat *)

(** Every chat on file keeps the identity, access hashes, users and public
    value it was filed with, only moves from requested over normal to discarded,
    is bound to at most one accepting device, and once discarded never changes. *)
Theorem secret_chats_only_advance p p' id c :
  reachable p → sized_step p p' → chats (store p) !! id = Some c →
  ID c = id ∧ RandomID c = id ∧ validateDHParam (GA c) = OK (GA c)
  ∧ (State c = SecretChatStateRequested → ParticipantAuthKeyID c = 0)
  ∧ (State c = SecretChatStateNormal → validateDHParam (GB c) = OK (GB c))
  ∧ ∃ c', chats (store p') !! id = Some c'
      ∧ AdminAccessHash c' = AdminAccessHash c ∧ ParticipantAccessHash c' = ParticipantAccessHash c
      ∧ AdminUserID c' = AdminUserID c ∧ ParticipantUserID c' = ParticipantUserID c
      ∧ AdminAuthKeyID c' = AdminAuthKeyID c ∧ GA c' = GA c
      ∧ (rank (State c) ≤ rank (State c'))%nat
      ∧ (State c ≠ SecretChatStateRequested →
           ParticipantAuthKeyID c' = ParticipantAuthKeyID c ∧ GB c' = GB c)
      ∧ (Terminal c = true → c' = c).
Proof.
  intros Hr Hstep Hc. pose proof (reachable_ok _ Hr) as Hok.
  destruct (wo_chat _ (po_world _ Hok) _ _ Hc) as [h1 h2 h3 h4 h5 h6 h7].
  destruct (pool_step_ok _ _ Hok Hstep) as [_ Hm].
  destruct (mv_chat _ _ Hm _ _ Hc) as (c' & Hc' & [(i1 & i2 & i3) (u1 & u2 & u3 & u4) hr hb hf]).
  split_and!; [done | congruence | done | naive_solver | done |].
  exists c'. split_and!; try done. intros Hne.
  destruct hb as (? & ? & _); [|done]. destruct (State c); simpl; done || lia.
Qed.

(** * Requesting *)

Lemma answer_existing_OK req ga e c :
  answer_existing req ga e = OK c → e = Some c ∧ sameSecretChatRequest c req ga = true.
Proof.
  unfold answer_existing. destruct e as [c0|]; [|done].
  destruct (sameSecretChatRequest c0 req ga) eqn:Hs; [|done]. simpl.
  destruct (negb _); [|done]. by intros [= ->].
Qed.

Lemma sameSecretChatRequest_spec c req ga :
  sameSecretChatRequest c req ga = true ↔
  ID c = req_RandomID req ∧ RandomID c = req_RandomID req ∧ AdminUserID c = req_AdminUserID req
  ∧ AdminAuthKeyID c = req_AdminAuthKeyID req ∧ ParticipantUserID c = req_ParticipantUserID req
  ∧ GA c = ga.
Proof.
  unfold sameSecretChatRequest.
  rewrite !andb_true_iff, !Z.eqb_eq, bool_decide_eq_true. tauto.
Qed.

Lemma request_leads req d1 d2 w c w' :
  leads (serve (Request req d1 d2)) w (Requested (OK c)) w' →
  ∃ ga w2, validateDHParam (req_GA req) = OK ga ∧ sameSecretChatRequest c req ga = true
    ∧ good_move w2 w' ∧ chats w2 !! req_RandomID req = Some c.
Proof.
  cbn [serve]. unfold RequestEncryption. destruct (_ || _); [by intros [? _]|].
  destruct (req_RandomID req =? 0); [by intros [? _]|].
  destruct (validateDHParam (req_GA req)) as [ga|]; [|by intros [? _]].
  intros (w1 & Hw1 & _ & Hl). exists ga. simpl in Hl.
  destruct (chats w1 !! req_RandomID req) as [c0|] eqn:Hc0.
  { destruct Hl as [Ha Hw']. injection Ha as Ha.
    apply (answer_existing_OK req ga (Some c0)) in Ha as [[= ->] Hs]. by exists w1. }
  destruct (randomAccessHash d1) as [a1|]; [|by destruct Hl].
  destruct (randomAccessHash d2) as [a2|]; [|by destruct Hl].
  destruct Hl as (w2 & Hw2 & _ & Hl). revert Hl. unfold CreateSecretChat. simpl.
  destruct (_ || _).
  { intros (w3 & Hw3 & _ & [Ha Hw']). injection Ha as Ha.
    apply answer_existing_OK in Ha as [He Hs]. by exists w3. }
  destruct (chats w2 !! req_RandomID req) eqn:Hc2.
  { intros (w3 & Hw3 & _ & [Ha Hw']). injection Ha as Ha.
    apply answer_existing_OK in Ha as [He Hs]. by exists w3. }
  intros [[= <-] Hw']. eexists. split_and!; [done | by apply sameSecretChatRequest_spec | done |].
  simpl. apply lookup_insert_eq.
Qed.

(** a requested chat carries the random id of the request as its chat id,
    and all successful requests under one id, concurrent or repeated, are the
    same intent and are answered with the same chat and access hashes. *)
Theorem replayed_requests_agree p p1 p2 i1 i2 req1 req2 d1 d2 d3 d4 c1 c2 :
  reachable p1 → threads p1 !! i1 = Some (serve (Request req1 d1 d2)) → executes p1 p →
  over p i1 (Requested (OK c1)) →
  reachable p2 → threads p2 !! i2 = Some (serve (Request req2 d3 d4)) → executes p2 p →
  over p i2 (Requested (OK c2)) → req_RandomID req1 = req_RandomID req2 →
  ID c1 = req_RandomID req1 ∧ ID c2 = ID c1
  ∧ AdminAccessHash c2 = AdminAccessHash c1 ∧ ParticipantAccessHash c2 = ParticipantAccessHash c1
  ∧ req_AdminUserID req1 = req_AdminUserID req2 ∧ req_AdminAuthKeyID req1 = req_AdminAuthKeyID req2
  ∧ req_ParticipantUserID req1 = req_ParticipantUserID req2
  ∧ validateDHParam (req_GA req1) = validateDHParam (req_GA req2).
Proof.
  intros Hr1 Hi1 Hx1 Ho1 Hr2 Hi2 Hx2 Ho2 Hid.
  destruct (request_leads _ _ _ _ _ _ (client_call_leads _ _ _ _ _ Hr1 Hi1 Hx1 Ho1))
    as (ga1 & w1 & Hg1 & Hs1 & Hm1 & Hc1).
  destruct (request_leads _ _ _ _ _ _ (client_call_leads _ _ _ _ _ Hr2 Hi2 Hx2 Ho2))
    as (ga2 & w2 & Hg2 & Hs2 & Hm2 & Hc2).
  apply sameSecretChatRequest_spec in Hs1 as (h1 & _ & h3 & h4 & h5 & h6).
  apply sameSecretChatRequest_spec in Hs2 as (k1 & _ & k3 & k4 & k5 & k6).
  destruct (good_move_chat _ _ _ _ Hm1 Hc1) as (c & Hc & [(a1 & a2 & a3) (a4 & a5 & a6 & a7) _ _ _] & _).
  destruct (good_move_chat _ _ _ _ Hm2 Hc2) as (c' & Hc' & [(b1 & b2 & b3) (b4 & b5 & b6 & b7) _ _ _] & _).
  rewrite <- Hid, Hc in Hc'. injection Hc' as <-.
  split_and!; congruence.
Qed.

(** * Sending and receiving *)

#[local] Arguments append_queue : simpl never.

Lemma send_leads id user key hash d w c m w' :
  leads (serve (Send id user key hash d)) w (Sent (OK (c, m))) w' → world_ok w →
  may_send c user key hash = true ∧ State c = SecretChatStateNormal
  ∧ PeerOf c user ≠ 0 ∧ receiver_key c user ≠ 0
  ∧ dedup_key m = (receiver_key c user, id, del_RandomID d)
  ∧ ∃ w2, good_move w2 w' ∧ m ∈ device_queue (queue w2) (receiver_key c user).
Proof.
  cbn [serve]. unfold SendEncrypted. intros (w1 & Hw1 & _ & Hl) Hw. simpl in Hl.
  destruct (chats w1 !! id) as [c0|] eqn:Hc0; [|by destruct Hl].
  destruct (may_send c0 user key hash) eqn:Hms; [|by destruct Hl]. simpl in Hl.
  destruct (negb _) eqn:Hn in Hl; [by destruct Hl|].
  apply negb_false_iff, bool_decide_eq_true in Hn.
  destruct (_ || _) eqn:Hz in Hl; [by destruct Hl|].
  apply orb_false_iff in Hz as [Hz1%Z.eqb_neq Hz2%Z.eqb_neq].
  destruct Hl as (w2 & [Hok2 Hmv2] & Hroom & [Ha Hw']). injection Ha as <- Hm.
  revert Hm Hw'. unfold AppendEncryptedMessage.
  pose proof (AppendEncryptedMessage_good w2
    (outgoing id (PeerOf c0 user) (receiver_key c0 user) d) Hok2 Hroom) as Hgood.
  unfold AppendEncryptedMessage in Hgood.
  destruct (find_duplicate _ (queue w2)) as [m'|] eqn:Hd.
  - simpl. intros <- Hw'. apply find_duplicate_Some in Hd as [Hk Hin]; [|by apply wo_queue].
    split_and!; [done..|]. by exists w2.
  - destruct (append_queue _ (queue w2)) as [m' q] eqn:Happ. cbn [fst snd]. intros <- Hw'.
    assert (m' = (append_queue (outgoing id (PeerOf c0 user) (receiver_key c0 user) d)
                    (queue w2)).1 ∧
            q = (append_queue (outgoing id (PeerOf c0 user) (receiver_key c0 user) d)
                    (queue w2)).2) as [-> ->] by by rewrite Happ.
    split_and!; [done..|]. eexists. split; [done|].
    cbn [queue with_queue]. rewrite device_queue_append, decide_True by done.
    apply elem_of_app. right. apply list_elem_of_here.
Qed.

(** A message reported as sent was sent from the device its sender's side is
    bound to, with that side's access hash, in an established chat, and it is in
    the queue of the device the other side is bound to, once: a retry under the
    same random id finds the very same entry. *)
Theorem sent_message_is_queued_once p0 p i id user key hash d c m :
  reachable p0 → threads p0 !! i = Some (serve (Send id user key hash d)) →
  executes p0 p → over p i (Sent (OK (c, m))) →
  HasParticipant c user = true ∧ AuthKeyOf c user = key ∧ AccessHashFor c user = hash ∧ key ≠ 0
  ∧ State c = SecretChatStateNormal
  ∧ ReceiverAuthKeyID m = receiver_key c user ∧ ReceiverAuthKeyID m ≠ 0
  ∧ msg_ChatID m = id ∧ msg_RandomID m = del_RandomID d
  ∧ ∃ n, device_queue (queue (store p)) (ReceiverAuthKeyID m) !! n = Some m
      ∧ Qts m = Z.of_nat n + 1
      ∧ ∀ n' m', device_queue (queue (store p)) (ReceiverAuthKeyID m) !! n' = Some m' →
          msg_ChatID m' = id → msg_RandomID m' = del_RandomID d → n' = n ∧ m' = m.
Proof.
  intros Hr Hi Hrun Hover. pose proof (reachable_ok _ Hr) as Hok0.
  destruct (send_leads _ _ _ _ _ _ _ _ _ (client_call_leads _ _ _ _ _ Hr Hi Hrun Hover)
    (po_world _ Hok0)) as (Hms & Hs & Hp & Hk & Hd & w2 & [Hw2 Hmv] & Hin).
  unfold may_send in Hms. rewrite !andb_true_iff, negb_true_iff, Z.eqb_neq, !Z.eqb_eq in Hms.
  destruct Hms as [[[Hpart Hkey] Hbound] Hhash]. injection Hd as Hdev Hcid Hrid.
  rewrite <- Hdev in Hin. apply list_elem_of_lookup in Hin as [n Hn].
  assert (device_queue (queue (store p)) (ReceiverAuthKeyID m) !! n = Some m) as Hn'
    by (eapply prefix_lookup_Some; [done | apply (qm_messages _ _ (mv_queue _ _ Hmv))]).
  pose proof (wo_queue _ Hw2) as Hq. destruct (qo_entry _ Hq _ _ _ Hn') as (Hqts & _ & Hdd).
  split_and!; [done | done | done | done | done | done | congruence | done | done |].
  exists n. split_and!; [done | done |]. intros n' m' Hm' Hcid' Hrid'.
  destruct (qo_entry _ Hq _ _ _ Hm') as (_ & Hdev' & Hdd').
  assert (dedup_key m' = dedup_key m) as Heq
    by (unfold dedup_key; rewrite Hdev', Hcid', Hrid', Hcid, Hrid; done).
  rewrite Heq, Hdd in Hdd'. assert (n' = n) as -> by (injection Hdd'; lia).
  rewrite Hn' in Hm'. by injection Hm' as <-.
Qed.

(** ** Pages *)

Lemma collect_take {A} (f : A → bool) limit out l :
  Z.of_nat (length out) < limit →
  collect f limit out l = out ++ take (Z.to_nat limit - length out) (filter f l).
Proof.
  revert out. induction l as [|x l IH]; intros out Hlt; simpl.
  { by rewrite filter_nil, take_nil, app_nil_r. }
  rewrite filter_cons. destruct (f x) eqn:Hf; simpl; [|by apply IH].
  rewrite length_app. simpl. destruct (Z.leb_spec limit (Z.of_nat (length out + 1))).
  - replace (Z.to_nat limit - length out)%nat with 1%nat by lia.
    simpl. by rewrite take_0.
  - rewrite IH, length_app by (rewrite length_app; simpl; lia). simpl.
    rewrite <- app_assoc. f_equal. simpl.
    by replace (Z.to_nat limit - length out)%nat
      with (S (Z.to_nat limit - (length out + 1)))%nat by lia.
Qed.

Lemma default_limit_pos limit : 0 < default_limit limit.
Proof. unfold default_limit. destruct (Z.leb_spec limit 0); lia. Qed.

Lemma page_take {A} (f : A → bool) limit l :
  collect f (default_limit limit) [] l = take (Z.to_nat (default_limit limit)) (filter f l).
Proof.
  pose proof (default_limit_pos limit). rewrite collect_take by (simpl; lia).
  simpl. by rewrite Nat.sub_0_r.
Qed.

(** Numbering a list from one turns "above [s]" into "drop [s]". *)
Lemma filter_numbered {A} (num : A → Z) (l : list A) k s :
  (∀ i x, l !! i = Some x → num x = Z.of_nat (k + i) + 1) → Z.of_nat k <= s →
  filter (λ x, s <? num x) l = drop (Z.to_nat s - k) l.
Proof.
  revert k. induction l as [|x l IH]; intros k Hn Hs; [by rewrite drop_nil|].
  assert (num x = Z.of_nat k + 1) as Hx by (rewrite (Hn 0%nat x) by done; lia).
  rewrite filter_cons. rewrite Hx.
  destruct (Z.ltb_spec s (Z.of_nat k + 1)); simpl.
  - replace (Z.to_nat s - k)%nat with 0%nat by lia. simpl. f_equal.
    rewrite filter_all; [done|]. apply Forall_forall. intros y Hy.
    apply list_elem_of_lookup in Hy as [i Hi]. rewrite (Hn (S i) y Hi).
    destruct (Z.ltb_spec s (Z.of_nat (k + S i) + 1)); [done|lia].
  - replace (Z.to_nat s - k)%nat with (S (Z.to_nat s - S k)) by lia. simpl.
    apply IH; [|lia]. intros i y Hy. rewrite (Hn (S i) y Hy). lia.
Qed.

(** A client that asks for page after page, each time from the last position it
    received. *)
Fixpoint fetch_all (fuel : nat) (dev since limit : Z) (w : world) : list SecretChatMessage :=
  match fuel with
  | O => []
  | S fuel' =>
      let page := (run (ListNewMessages dev since limit) w).1 in
      match last page with
      | None => []
      | Some m => page ++ fetch_all fuel' dev (Qts m) limit w
      end
  end.

Lemma list_messages_page w dev since limit :
  queue_ok (queue w) → dev ≠ 0 → 0 <= since →
  run (ListNewMessages dev since limit) w
  = (take (Z.to_nat (default_limit limit)) (drop (Z.to_nat since) (device_queue (queue w) dev)), w).
Proof.
  intros Hq Hd Hs. unfold ListNewMessages.
  destruct (Z.eqb_spec dev 0); [done|]. simpl. unfold ListEncryptedMessagesSince.
  rewrite page_take. f_equal. f_equal.
  rewrite (filter_numbered Qts _ 0); [by rewrite Nat.sub_0_r | | lia].
  intros i m Hm. by destruct (qo_entry _ Hq _ _ _ Hm) as (-> & _).
Qed.

Lemma fetch_all_drop w dev since limit fuel :
  queue_ok (queue w) → dev ≠ 0 → 0 <= since →
  (length (device_queue (queue w) dev) - Z.to_nat since < fuel)%nat →
  fetch_all fuel dev since limit w = drop (Z.to_nat since) (device_queue (queue w) dev).
Proof.
  intros Hq Hd. revert since. induction fuel as [|fuel IH]; intros since Hs Hf; [lia|].
  cbn [fetch_all]. rewrite list_messages_page by done. cbn [fst].
  set (l := device_queue (queue w) dev) in *.
  set (k := Z.to_nat (default_limit limit)).
  assert (0 < k)%nat by (pose proof (default_limit_pos limit); unfold k; lia).
  set (page := take k (drop (Z.to_nat since) l)).
  assert (length page = k `min` (length l - Z.to_nat since))%nat as Hlen
    by (unfold page; by rewrite length_take, length_drop).
  destruct (last page) as [m|] eqn:Hlast.
  - rewrite last_lookup in Hlast.
    assert (0 < length page)%nat by (apply lookup_lt_Some in Hlast; lia).
    assert (l !! (Z.to_nat since + pred (length page))%nat = Some m) as Hm.
    { rewrite <- lookup_drop. unfold page in Hlast at 2. by apply lookup_take_Some in Hlast as [? _]. }
    destruct (qo_entry _ Hq _ _ _ Hm) as (Hqts & _).
    assert (Z.to_nat (Qts m) = Z.to_nat since + length page)%nat as Hto by lia.
    rewrite IH by lia. fold l. rewrite Hto, <- drop_drop. unfold page.
    destruct (decide (k <= length (drop (Z.to_nat since) l))%nat) as [Hk|Hk].
    + rewrite length_take, Nat.min_l by done. apply take_drop.
    + rewrite (take_ge (drop _ _)) by lia. rewrite drop_all. apply app_nil_r.
  - apply last_None in Hlast. rewrite Hlast in Hlen. simpl in Hlen.
    symmetry. apply nil_length_inv. rewrite length_drop. lia.
Qed.

(** C9: the queue of a device is numbered 1, 2, 3, ... without gaps in the order
    of arrival, its counter is its length, and a client that fetches page after
    page from position [since], with any page size, gets every later message
    exactly once, in order, and stops. *)
Theorem device_queue_is_gap_free p dev since limit fuel :
  reachable p → dev ≠ 0 → 0 <= since →
  let l := device_queue (queue (store p)) dev in
  (length l - Z.to_nat since < fuel)%nat →
  (∀ i m, l !! i = Some m → Qts m = Z.of_nat i + 1)
  ∧ (run (DeviceReservedQts dev) (store p)).1 = Z.of_nat (length l)
  ∧ fetch_all fuel dev since limit (store p) = drop (Z.to_nat since) l.
Proof.
  intros Hr Hd Hs l Hf. pose proof (wo_queue _ (po_world _ (reachable_ok _ Hr))) as Hq.
  split_and!.
  - intros i m Hm. by destruct (qo_entry _ Hq _ _ _ Hm) as (? & _).
  - unfold DeviceReservedQts. destruct (Z.eqb_spec dev 0); [done|]. apply (qo_reserved _ Hq).
  - by apply fetch_all_drop.
Qed.

(** ** State events *)

(** A device that lists its undelivered events and acknowledges each page. *)
Fixpoint drain_events (fuel : nat) (user dev limit : Z) (w : world)
    : list EncryptedStateEvent * world :=
  match fuel with
  | O => ([], w)
  | S fuel' =>
      let page := (run (ListStateEvents user dev limit) w).1 in
      match page with
      | [] => ([], w)
      | _ =>
          let w1 := (run (MarkDelivered dev (ev_ID <$> page)) w).2 in
          let '(rest, w2) := drain_events fuel' user dev limit w1 in
          (page ++ rest, w2)
      end
  end.

Definition visible_events (user dev : Z) (w : world) : list EncryptedStateEvent :=
  filter (event_visible (queue w) user dev) (stateEvents (queue w)).

Lemma list_events_page w user dev limit :
  user ≠ 0 → dev ≠ 0 →
  (run (ListStateEvents user dev limit) w).1
  = take (Z.to_nat (default_limit limit)) (visible_events user dev w).
Proof.
  intros Hu Hd. unfold ListStateEvents.
  destruct (Z.eqb_spec user 0), (Z.eqb_spec dev 0); try done. simpl. apply page_take.
Qed.

(** What is left of the visible elements of a list when the first [k] of them
    are hidden by their keys. *)
Lemma filter_take_drop {A} (key : A → Z) (f g : A → bool) k l :
  NoDup (key <$> l) →
  (∀ x, x ∈ l → g x = f x && negb (bool_decide (key x ∈ key <$> take k (filter f l)))) →
  filter g l = drop k (filter f l).
Proof.
  intros Hnd Hg. rewrite (filter_bool_ext _ _ _ Hg), <- (filter_filter_bool _ f).
  assert (NoDup (key <$> filter f l)) as Hnd'
    by (eapply sublist_NoDup; [done | by apply fmap_sublist, sublist_filter]).
  revert Hnd'. generalize (filter f l). clear. intros l Hnd.
  transitivity (filter (λ x, negb (bool_decide (key x ∈ key <$> take k l))) (take k l ++ drop k l));
    [by rewrite take_drop|].
  rewrite <- (take_drop k l), fmap_app in Hnd. apply NoDup_app in Hnd as (_ & Hdis & _).
  rewrite filter_app, filter_none, filter_all; [done | |]; apply Forall_forall; intros x Hx.
  - rewrite bool_decide_false; [done|]. intros Ht.
    apply (Hdis (key x)); [done|]. by apply list_elem_of_fmap_2.
  - rewrite bool_decide_true; [done|]. by apply list_elem_of_fmap_2.
Qed.

Lemma event_ids_NoDup q : queue_ok q → NoDup (ev_ID <$> stateEvents q).
Proof.
  intros Hq. apply NoDup_alt. intros i j id. rewrite !list_lookup_fmap.
  intros (x & Hx & ->)%fmap_Some (y & Hy & Heq)%fmap_Some.
  rewrite (qo_events _ Hq _ _ Hx), (qo_events _ Hq _ _ Hy) in Heq. lia.
Qed.

(** Acknowledging hides exactly the events named, from this device only. *)
Lemma mark_visible w dev ids user' dev' ev :
  dev ≠ 0 →
  event_visible (queue (run (MarkDelivered dev ids) w).2) user' dev' ev
  = event_visible (queue w) user' dev' ev && negb (bool_decide (dev' = dev ∧ ev_ID ev ∈ ids)).
Proof.
  intros Hd. unfold MarkDelivered. destruct (Z.eqb_spec dev 0); [done|]. simpl.
  destruct (bool_decide (ids = [])) eqn:Hids.
  - apply bool_decide_eq_true in Hids as ->. simpl. rewrite bool_decide_false by set_solver.
    by rewrite andb_true_r.
  - unfold event_visible. simpl. rewrite delivered_fold, <- !andb_assoc. do 2 f_equal.
    rewrite <- negb_orb. f_equal. apply eq_bool_prop_intro.
    rewrite !Is_true_true, orb_true_iff, !bool_decide_eq_true. set_solver.
Qed.

Lemma mark_store w dev ids :
  world_ok w →
  let w' := (run (MarkDelivered dev ids) w).2 in
  world_ok w' ∧ stateEvents (queue w') = stateEvents (queue w) ∧ chats w' = chats w.
Proof.
  intros Hw. unfold MarkDelivered. destruct (_ || _); [done|]. cbn [run].
  pose proof (MarkStateEventsDelivered_good w dev ids Hw) as [Hok _]. done.
Qed.

(** C10: state events wait for every device until it acknowledges them: a page
    holds the first visible events in order of recording; a device that lists
    and acknowledges page after page, with any page size, receives every event
    addressed to it exactly once and then sees none, while other devices still
    see theirs. *)
Theorem state_events_reach_every_device p user dev limit fuel :
  reachable p → user ≠ 0 → dev ≠ 0 →
  let w := store p in
  (length (visible_events user dev w) < fuel)%nat →
  let '(got, w') := drain_events fuel user dev limit w in
  got = visible_events user dev w ∧ visible_events user dev w' = []
  ∧ ∀ user' dev', dev' ≠ dev → visible_events user' dev' w' = visible_events user' dev' w.
Proof.
  intros Hr Hu Hd w Hf. pose proof (po_world _ (reachable_ok _ Hr)) as Hw. fold w in Hw.
  clearbody w. clear Hr p. revert w Hw Hf.
  induction fuel as [|fuel IH]; intros w Hw Hf; [lia|].
  cbn [drain_events]. rewrite list_events_page by done.
  set (k := Z.to_nat (default_limit limit)).
  assert (0 < k)%nat by (pose proof (default_limit_pos limit); unfold k; lia).
  destruct (take k (visible_events user dev w)) as [|ev page] eqn:Hpage.
  { assert (visible_events user dev w = []) as Hnone.
    { apply nil_length_inv. apply (f_equal length) in Hpage. rewrite length_take in Hpage.
      simpl in Hpage. lia. }
    rewrite Hnone. done. }
  rewrite <- Hpage. set (ids := ev_ID <$> take k (visible_events user dev w)).
  destruct (mark_store w dev ids Hw) as (Hw1 & Hev1 & _).
  pose proof (mark_visible w dev ids) as Hmark.
  set (w1 := (run (MarkDelivered dev ids) w).2) in *.
  assert (visible_events user dev w1 = drop k (visible_events user dev w)) as Hrest.
  { unfold visible_events at 1. rewrite Hev1. apply (filter_take_drop ev_ID).
    - apply event_ids_NoDup, Hw.
    - intros x _. rewrite Hmark by done. do 2 f_equal. apply bool_decide_ext. tauto. }
  specialize (IH w1 Hw1). rewrite Hrest, length_drop in IH.
  assert (0 < length (visible_events user dev w))%nat
    by (apply (f_equal length) in Hpage; rewrite length_take in Hpage; simpl in Hpage; lia).
  destruct (drain_events fuel user dev limit w1) as [rest w2].
  destruct IH as (-> & Hnone & Hothers); [lia|].
  split_and!; [apply take_drop | done |].
  intros user' dev' Hne. rewrite Hothers by done. unfold visible_events. rewrite Hev1.
  apply filter_bool_ext. intros x _. rewrite Hmark by done.
  rewrite bool_decide_false by tauto. by rewrite andb_true_r.
Qed.

(** * Logging a device out *)

Lemma discard_all_run l : ∀ out w,
  (∀ c, c ∈ l → chats w !! ID c = Some c ∧ Terminal c = false) → NoDup (ID <$> l) →
  let '((res, err), w') := run (discard_all l out) w in
  err = None ∧ res = out ++ (set_discarded false <$> l) ∧ queue w' = queue w
  ∧ ∀ id, chats w' !! id =
      if bool_decide (id ∈ ID <$> l) then set_discarded false <$> chats w !! id else chats w !! id.
Proof.
  induction l as [|c l IH]; intros out w Hl Hnd; csimpl.
  { rewrite app_nil_r. by split_and!. }
  apply NoDup_cons in Hnd as [Hc Hnd].
  destruct (Hl c) as [Hcw Ht]; [set_solver|].
  unfold DiscardSecretChat. rewrite Hcw. unfold Terminal in Ht. apply bool_decide_eq_false in Ht.
  rewrite decide_False by done. cbn [prog_bind run].
  set (w1 := with_chats (<[ID c := set_discarded false c]> (chats w)) w).
  specialize (IH (out ++ [set_discarded false c]) w1).
  fold (run (discard_all l (out ++ [set_discarded false c])) w1).
  destruct (run (discard_all l (out ++ [set_discarded false c])) w1) as [[res err] w2].
  destruct IH as (-> & -> & Hq & Hch).
  - intros c' Hin. destruct (Hl c') as [Hcw' Ht']; [set_solver|]. split; [|done].
    simpl. rewrite lookup_insert_ne; [done|]. intros Heq. apply Hc. rewrite Heq.
    by apply list_elem_of_fmap_2.
  - done.
  - split_and!; [done | by rewrite <- app_assoc | done |]. intros id. rewrite Hch. simpl.
    destruct (decide (id = ID c)) as [->|Hne].
    + rewrite (bool_decide_false (ID c ∈ ID <$> l)) by done.
      rewrite bool_decide_true by set_solver. by rewrite lookup_insert_eq, Hcw.
    + rewrite lookup_insert_ne by done.
      destruct (decide (id ∈ ID <$> l)).
      * rewrite !bool_decide_true by set_solver. done.
      * rewrite !bool_decide_false by set_solver. done.
Qed.

Lemma discarded_sorted l : StronglySorted chat_le l → StronglySorted chat_le (set_discarded false <$> l).
Proof.
  induction 1 as [|c l _ IH Hle]; csimpl; constructor; [done|]. by apply Forall_fmap.
Qed.

(** Logging a device out discards exactly the active chats bound to it, on
    either side, reports each of them once in order of chat id, keeps history
    flags untouched, and leaves every other chat and all queues as they were. *)
Theorem logout_discards_device_chats p key :
  reachable p → key ≠ 0 →
  let w := store p in
  let bound c := negb (Terminal c) && ((AdminAuthKeyID c =? key) || (ParticipantAuthKeyID c =? key)) in
  let '((out, err), w') := run (DiscardForAuthKey key) w in
  err = None ∧ queue w' = queue w
  ∧ StronglySorted chat_le out
  ∧ out ≡ₚ set_discarded false <$> filter bound (map_to_list (chats w)).*2
  ∧ ∀ id, chats w' !! id = (λ c, if bound c then set_discarded false c else c) <$> chats w !! id.
Proof.
  intros Hr Hk w bound. pose proof (po_world _ (reachable_ok _ Hr)) as Hw. fold w in Hw.
  clearbody w. unfold DiscardForAuthKey. destruct (Z.eqb_spec key 0); [done|].
  cbn [run store_call mbind prog_mbind prog_bind]. unfold ListActiveSecretChatsByAuthKey.
  destruct (Z.eqb_spec key 0); [done|].
  set (act := filter bound (map_to_list (chats w)).*2).
  change (filter _ (map_to_list (chats w)).*2) with act.
  assert (merge_sort chat_le act ≡ₚ act) as Hperm by apply merge_sort_Permutation.
  assert (∀ c, c ∈ act ↔ chats w !! ID c = Some c ∧ bound c = true) as Hact.
  { intros c. unfold act. rewrite elem_of_filter_bool, list_elem_of_fmap. split.
    - intros [Hb ([id c'] & -> & Hin%elem_of_map_to_list)]. simpl in *.
      by rewrite (ck_id _ _ (wo_chat _ Hw _ _ Hin)).
    - intros [Hc Hb]. split; [done|]. exists (ID c, c). split; [done|].
      by apply elem_of_map_to_list. }
  assert (NoDup (ID <$> act)) as Hnd.
  { eapply sublist_NoDup; [|apply fmap_sublist, sublist_filter].
    replace (ID <$> (map_to_list (chats w)).*2) with (map_to_list (chats w)).*1.
    - apply NoDup_fst_map_to_list.
    - rewrite <- list_fmap_compose. apply list_fmap_ext. intros i [id c] Hi. simpl.
      apply list_elem_of_lookup_2, elem_of_map_to_list in Hi.
      symmetry. apply (ck_id _ _ (wo_chat _ Hw _ _ Hi)). }
  pose proof (discard_all_run (merge_sort chat_le act) [] w) as Hrun.
  destruct (run (discard_all (merge_sort chat_le act) []) w) as [[out err] w'].
  destruct Hrun as (-> & -> & Hq & Hch).
  - intros c. rewrite Hperm, Hact. intros [Hc Hb]. split; [done|].
    unfold bound in Hb. by bool_facts.
  - by rewrite Hperm.
  - simpl. split_and!; [done | done | | by rewrite Hperm |].
    + apply discarded_sorted, Sorted_StronglySorted; [intros a b c; unfold chat_le; lia|].
      apply Sorted_merge_sort. intros a b. unfold chat_le. lia.
    + intros id. rewrite Hch. destruct (chats w !! id) as [c|] eqn:Hc; [|by case_bool_decide].
      simpl. pose proof (ck_id _ _ (wo_chat _ Hw _ _ Hc)) as Hid.
      rewrite (bool_decide_ext _ (bound c = true)).
      * by destruct (bound c).
      * rewrite Hperm, list_elem_of_fmap. split.
        -- intros (c' & -> & [Hc' Hb]%Hact). rewrite Hc in Hc'. by injection Hc' as ->.
        -- intros Hb. exists c. split; [done|]. apply Hact. by rewrite Hid.
Qed.

(** * An execution *)

Module SecretDemo.
Definition room_b (w : world) : bool :=
  forallb (λ l, Z.of_nat (length l) <? max_int64) (map_to_list (byDevice (queue w))).*2
  && (Z.of_nat (length (stateEvents (queue w))) <? max_int64).

Lemma room_b_room w : room_b w = true → room w.
Proof.
  intros [Hl He]%andb_true_iff. split; [|by apply Z.ltb_lt]. intros dev. unfold device_queue.
  destruct (byDevice (queue w) !! dev) as [l|] eqn:Hd; [|done]. simpl.
  rewrite forallb_forall in Hl. apply Z.ltb_lt, Hl, list_elem_of_In, list_elem_of_fmap.
  exists (dev, l). split; [done|]. by apply elem_of_map_to_list.
Qed.

(** Thread [i] makes its next store call. *)
Definition call (i : nat) (p : pool) : option pool :=
  if room_b (store p) then
    match threads p !! i with
    | Some (Step f k) =>
        let '(b, w) := f (store p) in Some {| threads := <[i := k b]> (threads p); store := w |}
    | _ => None
    end
  else None.

Fixpoint calls (l : list nat) (p : pool) : option pool :=
  match l with
  | [] => Some p
  | i :: l' => match call i p with Some p' => calls l' p' | None => None end
  end.

Definition arrive (q : request) (p : pool) : pool :=
  {| threads := threads p ++ [serve q]; store := store p |}.

Lemma arrive_executes q p : room_b (store p) = true → executes p (arrive q p).
Proof.
  intros H. apply rtc_once. split; [by apply room_b_room|]. destruct p. apply pool_arrive.
Qed.

Lemma arrive_thread q p : threads (arrive q p) !! length (threads p) = Some (serve q).
Proof. simpl. by apply list_lookup_middle. Qed.

Lemma call_step i p p' : call i p = Some p' → sized_step p p'.
Proof.
  unfold call. destruct (room_b (store p)) eqn:Hr; [|done]. intros Hc.
  split; [by apply room_b_room|]. destruct p as [ts w]. simpl in *.
  destruct (ts !! i) as [[a|B f k]|] eqn:Hi; [done | | done].
  destruct (f w) as [b w'] eqn:Hf. injection Hc as <-. by eapply pool_call.
Qed.

Lemma call_default i p :
  match call i p with Some _ => True | None => False end → sized_step p (default p (call i p)).
Proof. destruct (call i p) eqn:Hc; [|done]. intros _. by apply (call_step i). Qed.

Lemma calls_executes l p :
  match calls l p with Some _ => True | None => False end → executes p (default p (calls l p)).
Proof.
  revert p. induction l as [|i l IH]; intros p; simpl; [by intros _; apply rtc_refl|].
  destruct (call i p) as [p1|] eqn:Hc; [|done]. intros H.
  specialize (IH p1 H). destruct (calls l p1) as [p2|]; [|done].
  eapply rtc_l; [by eapply call_step | done].
Qed.

Definition half (x : Z) : list Z := x :: replicate 255 0.
Definition req : SecretChatRequest := {|
  req_AdminUserID := 10; req_AdminAuthKeyID := 200; req_ParticipantUserID := 20;
  req_RandomID := 77; req_GA := half 1; req_Date := 1000 |}.
Definition delivery : SecretMessageDelivery := {|
  del_RandomID := 9; del_Bytes := [1; 2; 3]; del_IsService := false; del_File := None;
  del_Date := 1001 |}.

(** The chat is requested twice; two devices race to accept it: both look it up
    before either takes it. *)
Definition request1 := Request req (Some 10) (Some 14).
Definition q1 := arrive request1 start.
Definition p1 := default q1 (calls [0; 0]%nat q1).
Definition q1' := arrive request1 p1.
Definition p1' := default q1' (calls [1]%nat q1').
Definition accept1 := Accept 77 20 300 7 (half 2) 55.
Definition q2 := arrive accept1 p1'.
Definition q3 := arrive (Accept 77 20 301 7 (half 3) 56) q2.
Definition p3 := default q3 (calls [2; 3; 2; 3]%nat q3).
Definition send1 := Send 77 10 200 5 delivery.
Definition q4 := arrive send1 p3.
Definition p4 := default q4 (calls [4; 4]%nat q4).
Definition q5 := arrive (EncryptionEvent 77 20 0 1002) p4.
Definition p5 := default q5 (calls [5]%nat q5).

Definition nobody : SecretChat := request_chat req [] 0 0.
Definition requested : SecretChat := default nobody (chats (store p1) !! 77).
Definition accepted : SecretChat := default nobody (chats (store p3) !! 77).
Definition message : SecretChatMessage :=
  default (outgoing 0 0 0 delivery) (head (device_queue (queue (store p4)) 300)).

Lemma q1_reachable : reachable q1.
Proof. apply arrive_executes. by vm_compute. Qed.
Lemma q1_p1 : executes q1 p1.
Proof. apply calls_executes. by vm_compute. Qed.
Lemma p1_q1' : executes p1 q1'.
Proof. apply arrive_executes. by vm_compute. Qed.
Lemma q1'_p1' : executes q1' p1'.
Proof. apply calls_executes. by vm_compute. Qed.
Lemma p1'_q2 : executes p1' q2.
Proof. apply arrive_executes. by vm_compute. Qed.
Lemma q2_q3 : executes q2 q3.
Proof. apply arrive_executes. by vm_compute. Qed.
Lemma q3_p3 : executes q3 p3.
Proof. apply calls_executes. by vm_compute. Qed.
Lemma p3_q4 : executes p3 q4.
Proof. apply arrive_executes. by vm_compute. Qed.
Lemma q4_p4 : executes q4 p4.
Proof. apply calls_executes. by vm_compute. Qed.
Lemma p4_p5 : executes p4 p5.
Proof.
  apply (executes_trans _ q5); [apply arrive_executes | apply calls_executes]; by vm_compute.
Qed.

Lemma q1'_reachable : reachable q1'.
Proof. apply (executes_trans _ q1); [apply q1_reachable|]. apply (executes_trans _ p1); [apply q1_p1 | apply p1_q1']. Qed.
Lemma p1'_reachable : reachable p1'.
Proof. apply (executes_trans _ q1'); [apply q1'_reachable | apply q1'_p1']. Qed.
Lemma q2_reachable : reachable q2.
Proof. apply (executes_trans _ p1'); [apply p1'_reachable | apply p1'_q2]. Qed.
Lemma q3_reachable : reachable q3.
Proof. apply (executes_trans _ q2); [apply q2_reachable | apply q2_q3]. Qed.
Lemma q4_reachable : reachable q4.
Proof.
  apply (executes_trans _ q3); [apply q3_reachable|]. apply (executes_trans _ p3); [apply q3_p3 | apply p3_q4].
Qed.
Lemma p4_reachable : reachable p4.
Proof. apply (executes_trans _ q4); [apply q4_reachable | apply q4_p4]. Qed.
Lemma p5_reachable : reachable p5.
Proof. apply (executes_trans _ p4); [apply p4_reachable | apply p4_p5]. Qed.

Lemma one_device_accepts_witness :
  over p3 2 (Accepted (OK accepted)) ∧ over p3 3 (Accepted (ERR ErrSecretChatAlreadyAccepted))
  ∧ (∃ c', chats (store p3) !! 77 = Some c' ∧ ParticipantAuthKeyID c' = 300).
Proof.
  assert (over p3 2 (Accepted (OK accepted))) as Ho by (vm_compute; reflexivity).
  split; [exact Ho|]. split; [vm_compute; reflexivity|].
  destruct (one_device_accepts q2 p3 2 77 20 300 7 (half 2) 55 accepted q2_reachable)
    as (_ & _ & _ & (c' & Hc' & _ & Hk & _) & _).
  - exact (arrive_thread accept1 p1').
  - apply (executes_trans _ q3); [exact q2_q3 | exact q3_p3].
  - exact Ho.
  - exists c'. split; [exact Hc' | exact Hk].
Defined.

Lemma secret_chats_only_advance_witness :
  sized_step q3 (default q3 (call 2 q3)) ∧ ID requested = 77.
Proof.
  assert (sized_step q3 (default q3 (call 2 q3))) as Hs by (apply call_default; by vm_compute).
  split; [exact Hs|].
  assert (chats (store q3) !! 77 = Some requested) as Hc by (vm_compute; reflexivity).
  exact (proj1 (secret_chats_only_advance q3 _ 77 requested q3_reachable Hs Hc)).
Defined.

Lemma replayed_requests_agree_witness :
  over p1' 0 (Requested (OK requested)) ∧ over p1' 1 (Requested (OK requested))
  ∧ ID requested = 77.
Proof.
  assert (over p1' 0 (Requested (OK requested))) as H0 by (vm_compute; reflexivity).
  assert (over p1' 1 (Requested (OK requested))) as H1 by (vm_compute; reflexivity).
  split; [exact H0|]. split; [exact H1|].
  destruct (replayed_requests_agree p1' q1 q1' 0 1 req req (Some 10) (Some 14) (Some 10) (Some 14)
    requested requested) as [Hid _].
  - exact q1_reachable.
  - exact (arrive_thread request1 start).
  - apply (executes_trans _ p1); [exact q1_p1|]. apply (executes_trans _ q1'); [exact p1_q1' | exact q1'_p1'].
  - exact H0.
  - exact q1'_reachable.
  - exact (arrive_thread request1 p1).
  - exact q1'_p1'.
  - exact H1.
  - reflexivity.
  - exact Hid.
Defined.

Lemma sent_message_is_queued_once_witness :
  over p4 4 (Sent (OK (accepted, message)))
  ∧ ∃ n, device_queue (queue (store p4)) 300 !! n = Some message.
Proof.
  assert (over p4 4 (Sent (OK (accepted, message)))) as Ho by (vm_compute; reflexivity).
  split; [exact Ho|].
  destruct (sent_message_is_queued_once q4 p4 4 77 10 200 5 delivery accepted message q4_reachable)
    as (_ & _ & _ & _ & _ & _ & _ & _ & _ & n & Hn & _).
  - exact (arrive_thread send1 p3).
  - exact q4_p4.
  - exact Ho.
  - exists n. exact Hn.
Defined.

Lemma device_queue_is_gap_free_witness :
  reachable p4 ∧ fetch_all 2 300 0 50 (store p4) = [message].
Proof.
  split; [exact p4_reachable|].
  destruct (device_queue_is_gap_free p4 300 0 50 2 p4_reachable) as (_ & _ & H).
  - done.
  - done.
  - vm_compute. lia.
  - rewrite H. vm_compute. reflexivity.
Defined.

Lemma state_events_reach_every_device_witness :
  reachable p5 ∧ length (drain_events 3 20 300 1 (store p5)).1 = 1%nat
  ∧ visible_events 20 300 (drain_events 3 20 300 1 (store p5)).2 = [].
Proof.
  split; [exact p5_reachable|].
  pose proof (state_events_reach_every_device p5 20 300 1 3 p5_reachable) as H.
  specialize (H ltac:(done) ltac:(done) ltac:(vm_compute; lia)).
  destruct (drain_events 3 20 300 1 (store p5)) as [got w']. destruct H as (-> & H & _).
  split; [vm_compute; reflexivity | exact H].
Defined.

Lemma logout_discards_device_chats_witness :
  reachable p4 ∧ chats (run (DiscardForAuthKey 300) (store p4)).2 !! 77
                 = Some (set_discarded false accepted).
Proof.
  split; [exact p4_reachable|].
  pose proof (logout_discards_device_chats p4 300 p4_reachable ltac:(done)) as H.
  cbv zeta in H. destruct (run (DiscardForAuthKey 300) (store p4)) as [[out err] w'].
  destruct H as (_ & _ & _ & _ & H). cbn [snd]. rewrite H. vm_compute. reflexivity.
Defined.
End SecretDemo.
