(* ===== verification/Programs.v ===== *)
(** Concurrent programs over a shared state: sequences of atomic steps that may
    block, pools that interleave any number of them, and the rely-guarantee
    rule that lifts what one program guarantees to all runs of a pool. *)

From S2P Require Import Prelude.

(** * Programs *)

Section prog.
Context {W : Type}.

(** [Step f k]: in one atomic step apply [f] to the shared state and go on with
    [k]; the step is blocked where [f] is [None]. *)
Inductive prog (A : Type) : Type :=
  | Ret (a : A)
  | Step {B : Type} (f : W → option (B * W)) (k : B → prog A).
Arguments Ret {A} a.
Arguments Step {A B} f k.

Fixpoint prog_bind {A B} (k : A → prog B) (p : prog A) : prog B :=
  match p with
  | Ret a => k a
  | Step f k' => Step f (λ b, prog_bind k (k' b))
  end.

#[export] Instance prog_ret : MRet prog := @Ret.
#[export] Instance prog_mbind : MBind prog := λ A B k p, prog_bind k p.
#[export] Instance prog_fmap : FMap prog := λ A B f p, prog_bind (λ a, Ret (f a)) p.

(** A critical section, and a wait for something to become available. *)
Definition atomically {A} (f : W → A * W) : prog A := Step (λ w, Some (f w)) Ret.
Definition await {A} (f : W → option A) : prog A := Step (λ w, (λ a, (a, w)) <$> f w) Ret.

(** Running a program with nothing in between its steps. *)
Fixpoint run {A} (p : prog A) (w : W) : option (A * W) :=
  match p with
  | Ret a => Some (a, w)
  | Step f k => match f w with Some (b, w') => run (k b) w' | None => None end
  end.

Lemma run_bind {A B} (p : prog A) (k : A → prog B) w :
  run (p ≫= k) w = match run p w with Some (a, w') => run (k a) w' | None => None end.
Proof.
  revert w. induction p as [a|C f k' IH]; intros w; [done|].
  cbn. destruct (f w) as [[b w']|]; [apply IH | done].
Qed.

(** * Rely and guarantee

    [safe Q p w]: started from [w], while the environment keeps [I] and moves
    the state along [R], every step of [p] keeps [I] and moves along [R] too,
    and [p] can only end with [Q]. *)

Section safe.
Context (I : W → Prop) (R : relation W) `{!PreOrder R}.

Fixpoint safe {A} (Q : A → W → Prop) (p : prog A) (w : W) : Prop :=
  match p with
  | Ret a => Q a w
  | Step f k => ∀ w1, I w1 → R w w1 → ∀ b w2, f w1 = Some (b, w2) →
      I w2 ∧ R w1 w2 ∧ safe Q (k b) w2
  end.

Lemma safe_mono {A} (P Q : A → W → Prop) p w :
  I w → safe P p w → (∀ a w', I w' → R w w' → P a w' → Q a w') → safe Q p w.
Proof.
  revert w. induction p as [a|B f k IH]; intros w HI Hp HPQ; cbn in *; [by apply HPQ|].
  intros w1 HI1 HR b w2 Hf. destruct (Hp w1 HI1 HR b w2 Hf) as (HI2 & HR2 & Hk).
  split_and!; [done..|]. apply (IH b w2 HI2 Hk). intros a w' HI' Hw' HP.
  apply HPQ; [done| |done]. etrans; [done|]. by etrans.
Qed.

Lemma safe_bind {A B} (Q : B → W → Prop) (k : A → prog B) p w :
  safe (λ a, safe Q (k a)) p w → safe Q (p ≫= k) w.
Proof.
  revert w. induction p as [a|C f k' IH]; intros w Hp; cbn in *; [done|].
  intros w1 HI HR b w2 Hf. destruct (Hp w1 HI HR b w2 Hf) as (HI2 & HR2 & Hk). auto.
Qed.

(** Sequencing: the first program, then the second from wherever it ends. *)
Lemma safe_seq {A B} (P : A → W → Prop) (Q : B → W → Prop) (k : A → prog B) p w :
  I w → safe P p w → (∀ a w', I w' → R w w' → P a w' → safe Q (k a) w') → safe Q (p ≫= k) w.
Proof. intros HI Hp Hk. apply safe_bind. by eapply safe_mono. Qed.

(** The environment may move before the program starts. *)
Lemma safe_later {A} (Q : A → W → Prop) p w w' :
  (∀ a w1 w2, Q a w1 → R w1 w2 → Q a w2) → safe Q p w → R w w' → safe Q p w'.
Proof.
  intros HQ. destruct p as [a|B f k]; cbn; [eauto|].
  intros Hp HR w1 HI HR' b w2. apply Hp; [done|]. by etrans.
Qed.

Lemma safe_atomically {A} (Q : A → W → Prop) f w :
  (∀ w1, I w1 → R w w1 → I (f w1).2 ∧ R w1 (f w1).2 ∧ Q (f w1).1 (f w1).2) →
  safe Q (atomically f) w.
Proof. cbn. intros Hf w1 HI HR b w2 [= Heq]. specialize (Hf w1 HI HR). by rewrite Heq in Hf. Qed.

Lemma safe_await {A} (Q : A → W → Prop) (f : W → option A) w :
  (∀ w1 a, I w1 → R w w1 → f w1 = Some a → Q a w1) → safe Q (await f) w.
Proof.
  cbn. intros Hf w1 HI HR b w2 Ha. destruct (f w1) as [a|] eqn:Hfa; [|done]. injection Ha as <- <-.
  split_and!; [done..|]. cbn. auto.
Qed.
End safe.

(** * Pools

    An [allowed] client call arrives and becomes a thread, or a thread takes a step.  A
    thread remembers its call and the state in which it arrived. *)

Section pool.
Context {call reply : Type} (serve : call → prog reply) (allowed : call → Prop).

Record thread := mkThread {
  th_call : call;
  th_start : W;
  th_body : prog reply;
}.

Record pool := mkPool {
  threads : list thread;
  shared : W;
}.

Inductive pool_step : pool → pool → Prop :=
  | pool_arrive ts w q :
      allowed q →
      pool_step (mkPool ts w) (mkPool (ts ++ [mkThread q w (serve q)]) w)
  | pool_turn ts w i q w0 B (f : W → option (B * W)) k b w' :
      ts !! i = Some (mkThread q w0 (Step f k)) → f w = Some (b, w') →
      pool_step (mkPool ts w) (mkPool (<[i := mkThread q w0 (k b)]> ts) w').

(** One step of a pool as a function: thread [i] moves. *)
Definition turn (i : nat) (p : pool) : option pool :=
  match threads p !! i with
  | Some (mkThread q w0 (Step f k)) =>
      match f (shared p) with
      | Some (b, w') => Some (mkPool (<[i := mkThread q w0 (k b)]> (threads p)) w')
      | None => None
      end
  | _ => None
  end.
Definition arrive (q : call) (p : pool) : pool :=
  mkPool (threads p ++ [mkThread q (shared p) (serve q)]) (shared p).

(** Thread [i] moves up to [n] times, as far as it can. *)
Fixpoint go (n i : nat) (p : pool) : pool :=
  match n with
  | O => p
  | S n => match turn i p with Some p' => go n i p' | None => p end
  end.

Lemma turn_step i p p' : turn i p = Some p' → pool_step p p'.
Proof.
  unfold turn. destruct p as [ts w]. cbn. destruct (ts !! i) as [[q w0 [a|B f k]]|] eqn:Hi; [done| |done].
  destruct (f w) as [[b w']|] eqn:Hf; [|done]. intros [= <-]. by eapply pool_turn.
Qed.

Lemma go_rtc n i p : rtc pool_step p (go n i p).
Proof.
  revert p. induction n as [|n IH]; intros p; cbn [go]; [done|].
  destruct (turn i p) as [p1|] eqn:Hp1; [|done]. eapply rtc_l; [by eapply turn_step | done].
Qed.

Lemma arrive_step q p : allowed q → pool_step p (arrive q p).
Proof. destruct p. apply pool_arrive. Qed.

(** A call arrives and moves up to [n] times. *)
Definition play (n : nat) (q : call) (p : pool) : pool := go n (length (threads p)) (arrive q p).

Lemma play_rtc n q p : allowed q → rtc pool_step p (play n q p).
Proof. intros Hq. eapply rtc_l; [by apply arrive_step | apply go_rtc]. Qed.

Context (I : W → Prop) (R : relation W) `{!PreOrder R}.
Context (spec : call → W → reply → W → Prop).

Definition thread_ok (w : W) (t : thread) : Prop :=
  R (th_start t) w ∧ safe I R (spec (th_call t) (th_start t)) (th_body t) w.

Record pool_ok (p : pool) : Prop := {
  po_shared : I (shared p);
  po_threads : Forall (thread_ok (shared p)) (threads p);
}.

Context (serve_safe : ∀ q w, allowed q → I w → safe I R (spec q w) (serve q) w).
Context (spec_stable : ∀ q w r w1 w2, spec q w r w1 → R w1 w2 → spec q w r w2).

(** Threads that are added start in a state that the first one has led to. *)
Definition started_later (p p' : pool) : Prop :=
  R (shared p) (shared p')
  ∧ ∀ j t, threads p' !! j = Some t →
      (∃ t0, threads p !! j = Some t0 ∧ th_call t0 = th_call t ∧ th_start t0 = th_start t)
      ∨ R (shared p) (th_start t).

Lemma pool_one_step p p' : pool_step p p' → pool_ok p → pool_ok p' ∧ started_later p p'.
Proof using PreOrder0 serve_safe spec_stable.
  intros Hstep [HI Hall]. destruct Hstep as [ts w q Hq | ts w i q w1 B f k b w' Hi Hf]; cbn in *.
  - split; split; cbn.
    + done.
    + apply Forall_app. split; [done|]. constructor; [|constructor]. split; [done|]. by apply serve_safe.
    + done.
    + intros j t [Ht|[_ Ht]]%lookup_app_Some; [eauto|]. right.
      destruct (j - length ts)%nat as [|[]]; simplify_eq/=. done.
  - pose proof (Forall_lookup_1 _ _ _ _ Hall Hi) as [Hs Hsafe]. cbn in Hs, Hsafe.
    destruct (Hsafe w HI ltac:(reflexivity) b w' Hf) as (HI' & HR' & Hk).
    split; split; cbn; [done| |done|].
    + apply Forall_insert.
      * eapply Forall_impl; [exact Hall|]. intros t [Ht Hts]. split; [by etrans|].
        apply (safe_later I R _ _ w); [exact (λ a w1 w2, spec_stable _ _ a w1 w2)|exact Hts|exact HR'].
      * split; [by etrans|done].
    + intros j t Hj. left. destruct (decide (i = j)) as [<-|Hne].
      * rewrite list_lookup_insert_eq in Hj by (by eapply lookup_lt_Some). simplify_eq. eexists. by split.
      * rewrite list_lookup_insert_ne in Hj by done. eauto.
Qed.

(** If every allowed call alone is safe for a specification that the environment
    cannot break, then in every run all threads end as specified. *)
Lemma pool_safe p p' : rtc pool_step p p' → pool_ok p → pool_ok p' ∧ started_later p p'.
Proof using PreOrder0 serve_safe spec_stable.
  induction 1 as [p|p p1 p' Hstep _ IH]; intros Hp.
  { split; [done|]. split; [done|]. eauto. }
  destruct (pool_one_step p p1 Hstep Hp) as [Hp1 [HR1 Hold1]].
  destruct (IH Hp1) as [Hp' [HR' Hold']]. split; [done|]. split; [by etrans|].
  intros j t [(t1 & Ht1 & Hc & Hs)|HR]%Hold'; [|right; by etrans].
  destruct (Hold1 j t1 Ht1) as [(t0 & ? & ? & ?)|HR]; [left|right; congruence].
  exists t0. split_and!; congruence.
Qed.

Lemma pool_finished p i q w0 r :
  pool_ok p → threads p !! i = Some (mkThread q w0 (Ret r)) → R w0 (shared p) ∧ spec q w0 r (shared p).
Proof. intros [_ Hall] Hi. by apply (Forall_lookup_1 _ _ _ _ Hall Hi). Qed.
End pool.
End prog.

Arguments prog : clear implicits.
Arguments Ret {W A} a.
Arguments Step {W A B} f k.
Arguments thread : clear implicits.
Arguments pool : clear implicits.
