(* ===== verification/Cache.v ===== *)
(** The read-model cache: [internal/readmodelcache/cache.go].

    A bounded in-process cache of facts read from the database, shared by the
    services.  Its parts here: the entries with their recency list, each method
    that runs under [c.mu] as a function on [Cache]; the flights that let
    overlapping batches share their loads, under [c.batchMu]; and the two
    loading methods, which take several critical sections and call back into
    their caller, as programs over a shared [world].

    An element of [container/list] is identified by the key of its entry.  The
    epoch counts invalidations and is not wrapped at 2^64.  The callbacks
    [OnStore] and [OnRemove] run under the lock and cannot fail: their calls are
    the list [events].  A nil cache, which [New] returns for [MaxEntries <= 0],
    has no state and only calls the loader; it is not modelled beyond [New]. *)

From S2P Require Import Prelude Programs.

Open Scope Z_scope.

#[local] Set Warnings "-notation-for-abbreviation".

(** * Entries *)

Record Config (V : Type) := mkConfig {
  MaxEntries : Z;
  MaxWeight : Z;
  cfg_Weight : option (V → Z);
  TTL : Z;
  Clone : option (V → V);
}.
Arguments mkConfig {V} _ _ _ _ _.
Arguments MaxEntries {V} _.
Arguments MaxWeight {V} _.
Arguments cfg_Weight {V} _.
Arguments TTL {V} _.
Arguments Clone {V} _.

Record lruEntry (V : Type) := mkEntry {
  ent_value : V;
  ent_hash : Z;
  ent_expireAt : option Z;
  ent_weight : Z;
}.
Arguments mkEntry {V} _ _ _ _.
Arguments ent_value {V} _.
Arguments ent_hash {V} _.
Arguments ent_expireAt {V} _.
Arguments ent_weight {V} _.

(** A call of [OnStore] or [OnRemove]. *)
Inductive cache_event (K V : Type) :=
  | OnStore (key : K) (value : V)
  | OnRemove (key : K) (value : V).
Arguments OnStore {K V} _ _.
Arguments OnRemove {K V} _ _.

Record Cache (K V : Type) `{Countable K} := mkCache {
  ll : list K;
  items : gmap K (lruEntry V);
  weight : Z;
  epoch : nat;
  events : list (cache_event K V);
}.
Arguments mkCache {K V _ _} _ _ _ _ _.
Arguments ll {K V _ _} _.
Arguments items {K V _ _} _.
Arguments weight {K V _ _} _.
Arguments epoch {K V _ _} _.
Arguments events {K V _ _} _.

Section cache.
Context {K V : Type} `{Countable K} (cfg : Config V).
Implicit Types (c : Cache K V) (key : K) (v : V) (ent : lruEntry V).

Definition New : option (Cache K V) :=
  if MaxEntries cfg <=? 0 then None
  else Some {| ll := []; items := ∅; weight := 0; epoch := 0%nat; events := [] |}.

(** [expireAt] is the zero time where the cache has no TTL. *)
Definition expired (now : Z) ent : bool :=
  (0 <? TTL cfg) && match ent_expireAt ent with Some t => t <=? now | None => false end.

Definition expireAt (now : Z) : option Z := if TTL cfg <=? 0 then None else Some (now + TTL cfg).

Definition valueWeight v : Z :=
  match cfg_Weight cfg with
  | Some weigh =>
      if MaxWeight cfg <=? 0 then 1 else if weigh v <=? 0 then 1 else weigh v
  | None => 1
  end.

Definition cloneValue v : V := match Clone cfg with Some clone => clone v | None => v end.

Definition notify (e : cache_event K V) c : Cache K V :=
  {| ll := ll c; items := items c; weight := weight c; epoch := epoch c; events := events c ++ [e] |}.

(** Taking an element out of the list, and putting one in front. *)
Definition unlink key (l : list K) : list K := filter (λ k, k ≠ key) l.
Definition MoveToFront key (l : list K) : list K := key :: unlink key l.

Definition removeElement key c : Cache K V :=
  match items c !! key with
  | None => c
  | Some ent =>
      let c := notify (OnRemove key (ent_value ent)) c in
      {| ll := unlink key (ll c); items := delete key (items c);
         weight := weight c -₆₄ ent_weight ent; epoch := epoch c; events := events c |}
  end.

Definition evictOldest c : Cache K V :=
  match last (ll c) with Some key => removeElement key c | None => c end.

Definition overflows c : bool :=
  (MaxEntries cfg <? Z.of_nat (length (ll c))) || ((0 <? MaxWeight cfg) && (MaxWeight cfg <? weight c)).

(** Every turn removes an element, so the length of the list bounds the turns;
    see [evict_loop_Some]. *)
Fixpoint evict_loop (fuel : nat) c : option (Cache K V) :=
  if overflows c then
    match last (ll c) with
    | None => Some c
    | Some _ => match fuel with O => None | S fuel => evict_loop fuel (evictOldest c) end
    end
  else Some c.

Definition evictOverflow c : Cache K V := default c (evict_loop (length (ll c)) c).

Definition cache_lookup (now : Z) key (currentHash : Z) (versioned : bool) c : option V * Cache K V :=
  match items c !! key with
  | None => (None, c)
  | Some ent =>
      if expired now ent then (None, removeElement key c)
      else if versioned && negb (currentHash =? 0) && negb (ent_hash ent =? currentHash) then (None, c)
      else
        (Some (cloneValue (ent_value ent)),
         {| ll := MoveToFront key (ll c); items := items c; weight := weight c; epoch := epoch c;
            events := events c |})
  end.

Definition storeLocked (now : Z) key v (hash : Z) c : Cache K V :=
  let w := valueWeight v in
  if (0 <? MaxWeight cfg) && (MaxWeight cfg <? w) then removeElement key c
  else
    let ent := {| ent_value := cloneValue v; ent_hash := hash; ent_expireAt := expireAt now; ent_weight := w |} in
    match items c !! key with
    | Some old =>
        let c := notify (OnRemove key (ent_value old)) c in
        let c := {| ll := ll c; items := <[key := ent]> (items c);
                    weight := (weight c -₆₄ ent_weight old) +₆₄ w; epoch := epoch c; events := events c |} in
        let c := notify (OnStore key (ent_value ent)) c in
        evictOverflow {| ll := MoveToFront key (ll c); items := items c; weight := weight c;
                         epoch := epoch c; events := events c |}
    | None =>
        let c := {| ll := key :: ll c; items := <[key := ent]> (items c); weight := weight c +₆₄ w;
                    epoch := epoch c; events := events c |} in
        evictOverflow (notify (OnStore key (ent_value ent)) c)
    end.

Definition storeIfEpoch (now : Z) key v (hash : Z) (loadEpoch : nat) c : bool * Cache K V :=
  if negb (epoch c =? loadEpoch)%nat then (false, c) else (true, storeLocked now key v hash c).

Definition Store (now : Z) key v c : Cache K V := storeLocked now key v 0 c.

Definition LoadEpoch c : nat := epoch c.

Definition StoreIfEpoch (now : Z) key v (loadEpoch : nat) c : Cache K V :=
  (storeIfEpoch now key v 0 loadEpoch c).2.

Definition StoreVersioned (now : Z) key (hash : Z) v c : Cache K V := storeLocked now key v hash c.

Definition Peek (now : Z) key c : option V :=
  match items c !! key with
  | None => None
  | Some ent => if expired now ent then None else Some (cloneValue (ent_value ent))
  end.

Definition bumpEpoch c : Cache K V :=
  {| ll := ll c; items := items c; weight := weight c; epoch := S (epoch c); events := events c |}.

Definition removeAll (keys : list K) c : Cache K V := fold_left (λ c key, removeElement key c) keys c.

Definition Invalidate (keys : list K) c : Cache K V :=
  if bool_decide (keys = []) then c else removeAll keys (bumpEpoch c).

(** The loops over the map visit its keys in some order. *)
Definition InvalidateWhere (pred : K → bool) (order : list K) c : Cache K V :=
  fold_left (λ c key, if pred key then removeElement key c else c) order (bumpEpoch c).

Definition InvalidateWhereValue (pred : K → V → bool) (order : list K) c : Cache K V :=
  fold_left (λ c key, match items c !! key with
                      | Some ent => if pred key (ent_value ent) then removeElement key c else c
                      | None => c
                      end) order (bumpEpoch c).

Definition Flush c : Cache K V :=
  let c := bumpEpoch c in
  let removed := omap (λ key, (λ ent, OnRemove key (ent_value ent)) <$> items c !! key) (ll c) in
  {| ll := []; items := ∅; weight := 0; epoch := epoch c; events := events c ++ removed |}.

Definition Len c : Z := Z.of_nat (length (ll c)).
Definition Weight c : Z := weight c.
Definition cacheEpoch c : nat := epoch c.

(** * Flights *)

Record batchMiss := mkMiss {
  miss_key : K;
  miss_hash : Z;
  miss_cacheable : bool;
}.

(** [batchStoreEntry]: key, value and hash. *)
Notation batchStoreEntry := (K * V * Z)%type.

Definition storeBatchIfEpoch (now : Z) (entries : list batchStoreEntry) (expected : nat) c : bool * Cache K V :=
  if negb (epoch c =? expected)%nat then (false, c)
  else (true, fold_left (λ c '(key, value, hash), storeLocked now key value hash c) entries c).
End cache.
Arguments mkMiss {K} _ _ _.
Arguments miss_key {K} _.
Arguments miss_hash {K} _.
Arguments miss_cacheable {K} _.
Arguments batchMiss : clear implicits.

(** [batchFlightKey]: the miss and the epoch under which it is loaded. *)
Notation batchFlightKey K := (K * Z * bool * nat)%type.

(** Flights are shared by pointer: a flight is an index of the heap of flights.
    [fl_key] is the key under which it was claimed, kept for the theorems. *)
Record batchFlight (K V E : Type) := mkFlight {
  fl_key : batchFlightKey K;
  fl_done : bool;
  fl_value : option V;
  fl_ok : bool;
  fl_err : option E;
  fl_retry : bool;
}.
Arguments mkFlight {K V E} _ _ _ _ _ _.
Arguments fl_key {K V E} _.
Arguments fl_done {K V E} _.
Arguments fl_value {K V E} _.
Arguments fl_ok {K V E} _.
Arguments fl_err {K V E} _.
Arguments fl_retry {K V E} _.

Record batchWait (K : Type) := mkWait {
  wait_miss : batchMiss K;
  wait_key : batchFlightKey K;
  wait_flight : nat;
}.
Arguments mkWait {K} _ _ _.
Arguments wait_miss {K} _.
Arguments wait_key {K} _.
Arguments wait_flight {K} _.

Section flights.
Context {K V E : Type} `{Countable K} (cfg : Config V).
Notation flights := (gmap (batchFlightKey K) nat * list (batchFlight K V E))%type.

Definition claim_one (epoch : nat) (acc : list (batchWait K) * list (batchWait K) * flights) (miss : batchMiss K)
    : list (batchWait K) * list (batchWait K) * flights :=
  let '(waits, owned, (batchFlights, heap)) := acc in
  let key := (miss_key miss, miss_hash miss, miss_cacheable miss, epoch) in
  match batchFlights !! key with
  | Some flight => (waits ++ [mkWait miss key flight], owned, (batchFlights, heap))
  | None =>
      let flight := length heap in
      let wait := mkWait miss key flight in
      (waits ++ [wait], owned ++ [wait],
       (<[key := flight]> batchFlights, heap ++ [mkFlight key false None false None false]))
  end.

Definition claimBatchFlights (missing : list (batchMiss K)) (epoch : nat) (f : flights)
    : list (batchWait K) * list (batchWait K) * flights :=
  fold_left (claim_one epoch) missing ([], [], f).

Definition completeBatchFlight (key : batchFlightKey K) (flight : nat) (value : option V) (ok : bool)
    (err : option E) (retry : bool) (f : flights) : flights :=
  let '(batchFlights, heap) := f in
  (if bool_decide (batchFlights !! key = Some flight) then delete key batchFlights else batchFlights,
   alter (λ fl, mkFlight (fl_key fl) true (cloneValue cfg <$> value) ok err retry) flight heap).
End flights.
