(* ===== verification/CacheInv.v ===== *)
(** The read-model cache: what single critical sections do to the entries, the
    recency list, the weights and the mirrored index. *)

From S2P Require Import Prelude Programs Cache.

Open Scope Z_scope.

(** * Entries *)

Section entries.
Context {K V : Type} `{Countable K} (cfg : Config V).
Implicit Types (c : Cache K V) (key : K) (v : V).

Lemma removeElement_items key c : items (removeElement key c) = delete key (items c).
Proof.
  unfold removeElement. destruct (items c !! key) eqn:E; [done|]. by rewrite delete_id.
Qed.

Lemma removeElement_epoch key c : epoch (removeElement key c) = epoch c.
Proof. unfold removeElement. by destruct (items c !! key). Qed.

(** [c'] has no entries but those of [c]. *)
Definition drops c c' : Prop := items c' ⊆ items c ∧ epoch c' = epoch c.

#[export] Instance drops_preorder : PreOrder drops.
Proof. split; [done|]. intros x y z [? ?] [? ?]. split; [by etrans | congruence]. Qed.

Lemma drops_remove key c : drops c (removeElement key c).
Proof. split; [rewrite removeElement_items; apply delete_subseteq | apply removeElement_epoch]. Qed.

Lemma drops_evictOldest c : drops c (evictOldest c).
Proof. unfold evictOldest. destruct (last (ll c)); [apply drops_remove | done]. Qed.

Lemma drops_evict_loop fuel c c' : evict_loop cfg fuel c = Some c' → drops c c'.
Proof.
  revert c. induction fuel as [|fuel IH]; intros c; cbn [evict_loop];
    destruct (overflows cfg c); [|by intros [= <-]| |by intros [= <-]];
    (destruct (last (ll c)) eqn:Hl; [|by intros [= <-]]); [done|].
  intros Hc%IH. etrans; [apply drops_evictOldest | done].
Qed.

Lemma drops_evictOverflow c : drops c (evictOverflow cfg c).
Proof.
  unfold evictOverflow. destruct (evict_loop _ _ _) as [c'|] eqn:E; [|done].
  by apply drops_evict_loop in E.
Qed.

Lemma drops_lookup now key hash versioned c : drops c (cache_lookup cfg now key hash versioned c).2.
Proof.
  unfold cache_lookup. destruct (items c !! key); [|done].
  destruct (expired _ _ _); [apply drops_remove|]. by destruct (_ && _).
Qed.

Lemma lookup_hit now key hash versioned c v :
  (cache_lookup cfg now key hash versioned c).1 = Some v →
  ∃ ent, items c !! key = Some ent ∧ v = cloneValue cfg (ent_value ent) ∧ expired cfg now ent = false
    ∧ (versioned = true → hash ≠ 0 → ent_hash ent = hash).
Proof.
  unfold cache_lookup. destruct (items c !! key) as [ent|]; [|done].
  destruct (expired _ _ _) eqn:He; [done|].
  destruct (versioned && _ && _) eqn:Hv; [done|]. intros [= <-]. exists ent. split_and!; [done..|].
  intros -> Hh. apply Z.eqb_neq in Hh. rewrite Hh in Hv. cbn in Hv.
  by destruct (Z.eqb_spec (ent_hash ent) hash).
Qed.

(** An entry that a store leaves was there before or is the stored one. *)
Definition stores (key : K) (v : V) (c c' : Cache K V) : Prop :=
  epoch c' = epoch c ∧ ∀ k ent, items c' !! k = Some ent →
    items c !! k = Some ent ∨ (k = key ∧ ent_value ent = cloneValue cfg v).

Lemma drops_stores key v c c' : drops c c' → stores key v c c'.
Proof. intros [Hsub He]. split; [done|]. intros k ent Hk. left. by eapply lookup_weaken. Qed.

Lemma stores_drops key v c c' c'' : stores key v c c' → drops c' c'' → stores key v c c''.
Proof.
  intros [He Hs] [Hsub He']. split; [congruence|]. intros k ent Hk. apply Hs. by eapply lookup_weaken.
Qed.

Lemma storeLocked_stores now key v hash c : stores key v c (storeLocked cfg now key v hash c).
Proof.
  unfold storeLocked. cbv zeta. destruct (_ && _); [apply drops_stores, drops_remove|].
  destruct (items c !! key) as [old|]; (eapply stores_drops; [|apply drops_evictOverflow]);
    (split; [done|]); cbn [items notify]; intros k ent [[<- <-]|[? ?]]%lookup_insert_Some; auto.
Qed.

Lemma storeBatch_stores now entries c k ent :
  items (fold_left (λ c '(key, value, hash), storeLocked cfg now key value hash c) entries c) !! k = Some ent →
  items c !! k = Some ent ∨ ∃ value hash, (k, value, hash) ∈ entries ∧ ent_value ent = cloneValue cfg value.
Proof.
  revert c. induction entries as [|[[key value] hash] entries IH]; intros c; cbn [fold_left]; [by left|].
  intros [Hk|(value' & hash' & Hin & He)]%IH.
  - destruct (storeLocked_stores now key value hash c) as [_ Hs].
    destruct (Hs k ent Hk) as [?|[-> ?]]; [by left|]. right. exists value, hash. split; [apply list_elem_of_here | done].
  - right. exists value', hash'. split; [by apply list_elem_of_further | done].
Qed.

Lemma storeBatch_epoch now entries c :
  epoch (fold_left (λ c '(key, value, hash), storeLocked cfg now key value hash c) entries c) = epoch c.
Proof.
  revert c. induction entries as [|[[key value] hash] entries IH]; intros c; cbn [fold_left]; [done|].
  rewrite IH. apply storeLocked_stores.
Qed.

(** An invalidating method drops entries and moves the epoch by one, or does
    nothing. *)
Definition invalidates (f : Cache K V → Cache K V) : Prop :=
  ∀ c, items (f c) ⊆ items c ∧ (epoch (f c) = S (epoch c) ∨ f c = c).

Lemma fold_drops {A} (g : Cache K V → A → Cache K V) l c :
  (∀ c a, drops c (g c a)) → drops c (fold_left g l c).
Proof. intros Hg. revert c. induction l as [|a l IH]; intros c; [done|]. cbn. etrans; [apply Hg | apply IH]. Qed.

Lemma drops_invalidates (f : Cache K V → Cache K V) : (∀ c, drops (bumpEpoch c) (f c)) → invalidates f.
Proof. intros Hf c. destruct (Hf c) as [? He]. auto. Qed.

Lemma Invalidate_invalidates keys : invalidates (Invalidate (V := V) keys).
Proof.
  intros c. unfold Invalidate. case_bool_decide; [by split; [|right]|].
  apply (drops_invalidates (λ c, removeAll keys (bumpEpoch c))). intros c'.
  apply fold_drops. intros. apply drops_remove.
Qed.

Lemma InvalidateWhere_invalidates pred order : invalidates (InvalidateWhere (V := V) pred order).
Proof.
  apply drops_invalidates. intros c. apply fold_drops. intros c' a. destruct (pred a); [apply drops_remove | done].
Qed.

Lemma InvalidateWhereValue_invalidates pred order : invalidates (InvalidateWhereValue (V := V) pred order).
Proof.
  apply drops_invalidates. intros c. apply fold_drops. intros c' a.
  destruct (items c' !! a); [|done]. destruct (pred _ _); [apply drops_remove | done].
Qed.

Lemma Flush_invalidates : invalidates (Flush (K := K) (V := V)).
Proof. apply drops_invalidates. intros c. split; [apply map_empty_subseteq | done]. Qed.

(** What an invalidating method removes for sure. *)
Definition removes (f : Cache K V → Cache K V) (P : K → Prop) : Prop :=
  ∀ c k, P k → epoch (f c) ≠ epoch c ∧ items (f c) !! k = None.

Lemma drops_None c c' key : drops c c' → items c !! key = None → items c' !! key = None.
Proof. intros [Hsub _] Hk. by eapply lookup_weaken_None. Qed.

Lemma fold_removes {A} (g : Cache K V → A → Cache K V) l a key c :
  (∀ c a, drops c (g c a)) → (∀ c, items (g c a) !! key = None) → a ∈ l → items (fold_left g l c) !! key = None.
Proof.
  intros Hd Ha. revert c. induction l as [|b l IH]; intros c; [by intros ?%not_elem_of_nil|].
  cbn [fold_left]. intros [->|?]%elem_of_cons; [|by apply IH].
  eapply drops_None; [by apply fold_drops | apply Ha].
Qed.

Lemma Invalidate_removes keys : removes (Invalidate (V := V) keys) (.∈ keys).
Proof.
  intros c k Hk. unfold Invalidate. case_bool_decide; [subst; by apply not_elem_of_nil in Hk|]. split.
  - destruct (fold_drops (λ c key, removeElement (V := V) key c) keys (bumpEpoch c)) as [_ He];
      [intros; apply drops_remove|]. unfold removeAll. rewrite He. cbn. lia.
  - apply (fold_removes _ _ k); [intros; apply drops_remove| |done].
    intros c'. by rewrite removeElement_items, lookup_delete_eq.
Qed.

Lemma InvalidateWhere_removes pred order :
  removes (InvalidateWhere (V := V) pred order) (λ k, k ∈ order ∧ pred k = true).
Proof.
  intros c k [Hk Hp].
  assert (∀ (c : Cache K V) a, drops c (if pred a then removeElement a c else c)) as Hd
    by (intros c' a; destruct (pred a); [apply drops_remove | done]).
  split.
  - destruct (fold_drops (λ c key, if pred key then removeElement (V := V) key c else c) order (bumpEpoch c)) as [_ He];
      [apply Hd|]. unfold InvalidateWhere. rewrite He. cbn. lia.
  - apply (fold_removes _ _ k); [apply Hd| |done].
    intros c'. by rewrite Hp, removeElement_items, lookup_delete_eq.
Qed.

Lemma Flush_removes : removes (Flush (K := K) (V := V)) (λ _, True).
Proof. intros c k _. split; [cbn; lia | apply lookup_empty]. Qed.
End entries.
