(* ===== verification/CacheLoad.v ===== *)
(** The read-model cache: its loading methods [GetOrLoad], [GetOrLoadVersioned]
    and [GetOrLoadBatch], as programs that interleave with each other and with
    invalidations.

    The database is the environment: [w_hist] has every value committed for a
    key so far.  A loader is any program; what the theorems ask of it is said
    where they need it.  [w_floors] is bookkeeping for the theorems: for every
    epoch and key, the version that the last invalidation found. *)

From stdpp Require Import pretty.
From S2P Require Import Prelude Programs Cache.

Open Scope Z_scope.

#[local] Set Warnings "-notation-for-abbreviation".

(** [golang.org/x/sync/singleflight]: [Do] runs its function, or, while a call
    under the same key is in flight, waits for that call and takes its result.
    [sf_enter] says whether the caller is to run and names the flight;
    [sf_leave] ends a flight with its result. *)
Class SingleFlight (G R : Type) := {
  sf_enter : string → G → (bool * nat) * G;
  sf_leave : nat → R → G → G;
  sf_result : G → nat → option R;
}.

Inductive load_error (E : Type) :=
  | LoadErr (e : E)
  | CtxErr
  | OutOfFuel.
Arguments LoadErr {E} e.
Arguments CtxErr {E}.
Arguments OutOfFuel {E}.

Record world (K V E G : Type) `{Countable K} := mkWorld {
  w_now : Z;
  w_cache : Cache K V;
  w_flights : gmap (batchFlightKey K) nat;
  w_heap : list (batchFlight K V E);
  w_sf : G;
  w_cancelled : gset nat;
  w_coin : bool;
  w_hist : K → list V;
  w_floors : list (K → nat);
}.
Arguments mkWorld {K V E G _ _} _ _ _ _ _ _ _ _ _.
Arguments w_now {K V E G _ _} _.
Arguments w_cache {K V E G _ _} _.
Arguments w_flights {K V E G _ _} _.
Arguments w_heap {K V E G _ _} _.
Arguments w_sf {K V E G _ _} _.
Arguments w_cancelled {K V E G _ _} _.
Arguments w_coin {K V E G _ _} _.
Arguments w_hist {K V E G _ _} _.
Arguments w_floors {K V E G _ _} _.

Section load.
Context {K V E G : Type} `{Countable K} `{SingleFlight G (res E (V * bool))}.
Context (cfg : Config V) (keyString : K → string).
Notation W := (world K V E G).
Implicit Types (w : W) (key : K).

Definition set_cache (c : Cache K V) w : W :=
  mkWorld (w_now w) c (w_flights w) (w_heap w) (w_sf w) (w_cancelled w) (w_coin w) (w_hist w) (w_floors w).
Definition set_flights (f : gmap (batchFlightKey K) nat * list (batchFlight K V E)) w : W :=
  mkWorld (w_now w) (w_cache w) f.1 f.2 (w_sf w) (w_cancelled w) (w_coin w) (w_hist w) (w_floors w).
Definition set_sf (g : G) w : W :=
  mkWorld (w_now w) (w_cache w) (w_flights w) (w_heap w) g (w_cancelled w) (w_coin w) (w_hist w) (w_floors w).

(** One critical section of [c.mu], with the clock it reads. *)
Definition on_cache {A} (f : Z → Cache K V → A * Cache K V) : prog W A :=
  atomically (λ w, let '(a, c) := f (w_now w) (w_cache w) in (a, set_cache c w)).

(** One critical section of [c.batchMu]. *)
Definition on_flights {A} (f : gmap (batchFlightKey K) nat * list (batchFlight K V E) →
    A * (gmap (batchFlightKey K) nat * list (batchFlight K V E))) : prog W A :=
  atomically (λ w, let '(a, fs) := f (w_flights w, w_heap w) in (a, set_flights fs w)).

Definition cancelled (ctx : nat) w : bool := bool_decide (ctx ∈ w_cancelled w).

(** [ctx.Err() != nil]. *)
Definition ctx_err (ctx : nat) : prog W bool := atomically (λ w, (cancelled ctx w, w)).

(** * Single keys *)

Definition singleflightKey key (hash : Z) (versioned : bool) : string :=
  if versioned && negb (hash =? 0) then keyString key +:+ "@" +:+ pretty hash else keyString key.

(** [c.sf.Do].  The second component, which the source ignores, says that the
    result is that of another caller's run. *)
Definition Do (s : string) (fn : prog W (res E (V * bool))) : prog W (res E (V * bool) * bool) :=
  '(first, id) ← atomically (λ w, let '(r, g) := sf_enter s (w_sf w) in (r, set_sf g w));
  if first : bool then
    r ← fn;
    _ ← atomically (λ w, (tt, set_sf (sf_leave id r (w_sf w)) w));
    mret (r, false)
  else
    r ← await (λ w, sf_result (w_sf w) id);
    mret (r, true).

(** The function that [getOrLoad] hands to [Do]. *)
Definition load_once key (currentHash : Z) (versioned : bool) (load : prog W (res E V))
    : prog W (res E (V * bool)) :=
  hit ← on_cache (λ now, cache_lookup cfg now key currentHash versioned);
  match hit with
  | Some v => mret (OK (v, true))
  | None =>
      loadEpoch ← on_cache (λ _ c, (cacheEpoch c, c));
      r ← load;
      match r with
      | ERR e => mret (ERR e)
      | OK v =>
          stored ← on_cache (λ now, storeIfEpoch cfg now key v currentHash loadEpoch);
          mret (OK (cloneValue cfg v, stored))
      end
  end.

(** The loop of [getOrLoad]; a turn is repeated when an invalidation came
    between a load and its store.  The answer carries the flag of [Do]. *)
Fixpoint getOrLoad (fuel ctx : nat) key (currentHash : Z) (versioned : bool) (load : prog W (res E V))
    : prog W (res (load_error E) V * bool) :=
  match fuel with
  | O => mret (ERR OutOfFuel, false)
  | S fuel =>
      hit ← on_cache (λ now, cache_lookup cfg now key currentHash versioned);
      match hit with
      | Some v => mret (OK v, false)
      | None =>
          '(r, joined) ← Do (singleflightKey key currentHash versioned)
            (load_once key currentHash versioned load);
          match r with
          | ERR e => mret (ERR (LoadErr e), joined)
          | OK (v, true) => mret (OK v, joined)
          | OK (_, false) =>
              stop ← ctx_err ctx;
              if stop : bool then mret (ERR CtxErr, joined)
              else getOrLoad fuel ctx key currentHash versioned load
          end
      end
  end.

Definition GetOrLoad (fuel ctx : nat) key (load : prog W (res E V)) : prog W (res (load_error E) V * bool) :=
  getOrLoad fuel ctx key 0 false load.

Definition GetOrLoadVersioned (fuel ctx : nat) key (currentHash : Z) (load : prog W (res E V))
    : prog W (res (load_error E) V * bool) :=
  getOrLoad fuel ctx key currentHash true load.

(** Building a value outside of the cache: [LoadEpoch], then [StoreIfEpoch]. *)
Definition build_and_store key (build : prog W (res E V)) : prog W (res E V) :=
  loadEpoch ← on_cache (λ _ c, (LoadEpoch c, c));
  r ← build;
  match r with
  | ERR e => mret (ERR e)
  | OK v => _ ← on_cache (λ now c, (tt, StoreIfEpoch cfg now key v loadEpoch c)); mret (OK v)
  end.

(** * Batches *)

(** The loop over the keys: hits go to [out], misses to [missing], and the
    version of a miss is the one read here. *)
Fixpoint batch_scan (versionOf : K → prog W (Z * bool)) (keys : list K) (seen : gset K) (out : gmap K V)
    (missing : list (batchMiss K)) : prog W (gmap K V * list (batchMiss K)) :=
  match keys with
  | [] => mret (out, missing)
  | key :: keys =>
      if bool_decide (key ∈ seen) then batch_scan versionOf keys seen out missing
      else
        '(hash, cacheable) ← versionOf key;
        hit ← (if cacheable : bool
               then on_cache (λ now, cache_lookup cfg now key hash (negb (hash =? 0)))
               else mret None);
        match hit with
        | Some v => batch_scan versionOf keys ({[key]} ∪ seen) (<[key := v]> out) missing
        | None => batch_scan versionOf keys ({[key]} ∪ seen) out (missing ++ [mkMiss key hash cacheable])
        end
  end.

Definition store_entries (owned : list (batchWait K)) (loaded : gmap K V) : list (K * V * Z) :=
  omap (λ owner, match loaded !! miss_key (wait_miss owner) with
                 | Some value =>
                     if miss_cacheable (wait_miss owner)
                     then Some (miss_key (wait_miss owner), value, miss_hash (wait_miss owner))
                     else None
                 | None => None
                 end) owned.

Fixpoint batch_complete (owned : list (batchWait K)) (r : res E (gmap K V)) (retry : bool) : prog W () :=
  match owned with
  | [] => mret tt
  | owner :: owned =>
      let loaded := match r with OK m => m | ERR _ => ∅ end in
      let value := loaded !! miss_key (wait_miss owner) in
      _ ← on_flights (λ fs, (tt, completeBatchFlight cfg (wait_key owner) (wait_flight owner) value
             (bool_decide (is_Some value)) (match r with OK _ => None | ERR e => Some e end) retry fs));
      batch_complete owned r retry
  end.

(** The part of a turn in which the caller loads the misses that it owns. *)
Definition batch_load (loadMissing : list K → prog W (res E (gmap K V))) (loadEpoch : nat)
    (owned : list (batchWait K)) : prog W () :=
  if bool_decide (owned = []) then mret tt
  else
    r ← loadMissing ((λ owner, miss_key (wait_miss owner)) <$> owned);
    retry ← match r with
            | ERR _ => mret false
            | OK loaded =>
                on_cache (λ now c, let '(stored, c) := storeBatchIfEpoch cfg now (store_entries owned loaded) loadEpoch c in
                                   (negb stored, c))
            end;
    batch_complete owned r retry.

(** The [select] of one wait; when both cases are ready Go takes either. *)
Definition batch_wait_one (ctx : nat) (wait : batchWait K) : prog W (option (batchFlight K V E)) :=
  await (λ w, match w_heap w !! wait_flight wait with
              | Some fl =>
                  if fl_done fl then Some (if cancelled ctx w && w_coin w then None else Some fl)
                  else if cancelled ctx w then Some None else None
              | None => None
              end).

Fixpoint batch_wait (ctx : nat) (waits : list (batchWait K)) (out : gmap K V) (retry : bool)
    : prog W (res (load_error E) (gmap K V * bool)) :=
  match waits with
  | [] => mret (OK (out, retry))
  | wait :: waits =>
      r ← batch_wait_one ctx wait;
      match r with
      | None => mret (ERR CtxErr)
      | Some fl =>
          match fl_err fl with
          | Some e => mret (ERR (LoadErr e))
          | None =>
              if fl_retry fl then batch_wait ctx waits out true
              else
                let out := match fl_value fl with
                           | Some v => if fl_ok fl then <[miss_key (wait_miss wait) := cloneValue cfg v]> out else out
                           | None => out
                           end in
                batch_wait ctx waits out retry
          end
      end
  end.

Fixpoint GetOrLoadBatch (fuel ctx : nat) (keys : list K) (versionOf : K → prog W (Z * bool))
    (loadMissing : list K → prog W (res E (gmap K V))) : prog W (res (load_error E) (gmap K V)) :=
  if bool_decide (keys = []) then mret (OK ∅)
  else match fuel with
  | O => mret (ERR OutOfFuel)
  | S fuel =>
      loadEpoch ← on_cache (λ _ c, (cacheEpoch c, c));
      '(out, missing) ← batch_scan versionOf keys ∅ ∅ [];
      if bool_decide (missing = []) then mret (OK out)
      else
        '(waits, owned) ← on_flights (claimBatchFlights missing loadEpoch);
        _ ← batch_load loadMissing loadEpoch owned;
        r ← batch_wait ctx waits out false;
        match r with
        | ERR e => mret (ERR e)
        | OK (out, false) => mret (OK out)
        | OK (_, true) =>
            stop ← ctx_err ctx;
            if stop : bool then mret (ERR CtxErr)
            else GetOrLoadBatch fuel ctx keys versionOf loadMissing
        end
  end.

(** * Writers and the environment *)

(** The version of [key] that the database has. *)
Definition version w key : nat := pred (length (w_hist w key)).

(** [floor w e key]: the version that the last of the first [e] invalidations
    after which [key] was not cached has found. *)
Definition floor w (e : nat) key : nat := match w_floors w !! e with Some f => f key | None => 0%nat end.

(** An invalidating method; a key that is not cached afterwards will only be
    served from loads that start later. *)
Definition invalidated (f : Cache K V → Cache K V) w : W :=
  let c := f (w_cache w) in
  let floors :=
    if (epoch c =? epoch (w_cache w))%nat then w_floors w
    else w_floors w ++ [λ key, if bool_decide (is_Some (items c !! key))
                               then floor w (epoch (w_cache w)) key else version w key] in
  mkWorld (w_now w) c (w_flights w) (w_heap w) (w_sf w) (w_cancelled w) (w_coin w) (w_hist w) floors.

Definition invalidate (f : Cache K V → Cache K V) : prog W () := atomically (λ w, (tt, invalidated f w)).

Definition commit key (v : V) : prog W () :=
  atomically (λ w, (tt, mkWorld (w_now w) (w_cache w) (w_flights w) (w_heap w) (w_sf w) (w_cancelled w)
    (w_coin w) (λ k, if decide (k = key) then w_hist w k ++ [v] else w_hist w k) (w_floors w))).

Definition set_clock (now : Z) (coin : bool) : prog W () :=
  atomically (λ w, (tt, mkWorld now (w_cache w) (w_flights w) (w_heap w) (w_sf w) (w_cancelled w) coin
    (w_hist w) (w_floors w))).

Definition cancel (ctx : nat) : prog W () :=
  atomically (λ w, (tt, mkWorld (w_now w) (w_cache w) (w_flights w) (w_heap w) (w_sf w)
    ({[ctx]} ∪ w_cancelled w) (w_coin w) (w_hist w) (w_floors w))).

(** The calls of a pool. *)
Inductive cache_call :=
  | CallGet (fuel ctx : nat) (key : K) (hash : Z) (versioned : bool) (load : prog W (res E V))
  | CallBatch (fuel ctx : nat) (keys : list K) (versionOf : K → prog W (Z * bool))
      (loadMissing : list K → prog W (res E (gmap K V)))
  | CallBuild (key : K) (build : prog W (res E V))
  | CallPeek (key : K)
  | CallInvalidate (keys : list K)
  | CallInvalidateWhere (pred : K → bool) (order : list K)
  | CallInvalidateWhereValue (pred : K → V → bool) (order : list K)
  | CallFlush
  | CallCommit (key : K) (v : V)
  | CallClock (now : Z) (coin : bool)
  | CallCancel (ctx : nat).

Inductive cache_reply :=
  | Got (r : res (load_error E) V) (joined : bool)
  | GotBatch (r : res (load_error E) (gmap K V))
  | Built (r : res E V)
  | Peeked (r : option V)
  | Done.

Definition serve_cache (q : cache_call) : prog W cache_reply :=
  match q with
  | CallGet fuel ctx key hash versioned load =>
      '(r, joined) ← getOrLoad fuel ctx key hash versioned load; mret (Got r joined)
  | CallBatch fuel ctx keys versionOf loadMissing =>
      r ← GetOrLoadBatch fuel ctx keys versionOf loadMissing; mret (GotBatch r)
  | CallBuild key build => r ← build_and_store key build; mret (Built r)
  | CallPeek key => r ← on_cache (λ now c, (Peek cfg now key c, c)); mret (Peeked r)
  | CallInvalidate keys => _ ← invalidate (Invalidate keys); mret Done
  | CallInvalidateWhere pred order => _ ← invalidate (InvalidateWhere pred order); mret Done
  | CallInvalidateWhereValue pred order => _ ← invalidate (InvalidateWhereValue pred order); mret Done
  | CallFlush => _ ← invalidate Flush; mret Done
  | CallCommit key v => _ ← commit key v; mret Done
  | CallClock now coin => _ ← set_clock now coin; mret Done
  | CallCancel ctx => _ ← cancel ctx; mret Done
  end.
End load.
