(* ===== verification/CacheAlone.v ===== *)
(** The read-model cache: [GetOrLoadBatch] of a call that runs alone.

    A service that is modelled one request at a time uses the batch loader
    without other calls in between.  [GetOrLoadBatch_alone] is what the call
    does then, as a function on the cache, for a client whose entries carry no
    version; [GetOrLoadBatch_runs_alone] shows that it is the program of
    [CacheLoad] run with nothing in between. *)

From S2P Require Import Prelude Programs Cache CacheInv CacheLoad.

Open Scope Z_scope.

(** * The call as a function *)

Section alone.
Context {K V E : Type} `{Countable K} (cfg : Config V).
Implicit Types (c : Cache K V) (key : K) (keys missing : list K) (out loaded : gmap K V).

(** The loop over the keys: hits go to [out], misses to [missing]. *)
Fixpoint scan_alone (now : Z) keys (seen : gset K) out missing c : gmap K V * list K * Cache K V :=
  match keys with
  | [] => (out, missing, c)
  | key :: keys =>
      if bool_decide (key ∈ seen) then scan_alone now keys seen out missing c
      else
        match cache_lookup cfg now key 0 false c with
        | (Some v, c) => scan_alone now keys ({[key]} ∪ seen) (<[key := v]> out) missing c
        | (None, c) => scan_alone now keys ({[key]} ∪ seen) out (missing ++ [key]) c
        end
  end.

(** What was loaded for a key is answered through its flight. *)
Definition answer_key loaded out key : gmap K V :=
  match loaded !! key with
  | Some v => <[key := cloneValue cfg (cloneValue cfg v)]> out
  | None => out
  end.

Definition loaded_entries loaded missing : list (K * V * Z) :=
  omap (λ key, (λ v, (key, v, 0)) <$> loaded !! key) missing.

Definition GetOrLoadBatch_alone (now : Z) keys (loadMissing : list K → res E (gmap K V)) c
    : res E (gmap K V) * Cache K V :=
  if bool_decide (keys = []) then (OK ∅, c)
  else
    let '(out, missing, c) := scan_alone now keys ∅ ∅ [] c in
    if bool_decide (missing = []) then (OK out, c)
    else
      match loadMissing missing with
      | ERR e => (ERR e, c)
      | OK loaded =>
          (OK (fold_left (answer_key loaded) missing out),
           (storeBatchIfEpoch cfg now (loaded_entries loaded missing) (epoch c) c).2)
      end.

(** ** What it answers and keeps *)

(** Every entry has a value that [P] allows for its key. *)
Definition cache_all (P : K → V → Prop) c : Prop := ∀ k ent, items c !! k = Some ent → P k (ent_value ent).

Lemma drops_all P c c' : drops c c' → cache_all P c → cache_all P c'.
Proof. intros [Hsub _] Hc k ent Hk. eapply Hc, lookup_weaken; done. Qed.

Lemma scan_alone_spec now keys seen out missing c out' missing' c' :
  scan_alone now keys seen out missing c = (out', missing', c') →
  drops c c'
  ∧ (∀ k v, out' !! k = Some v → out !! k = Some v
       ∨ k ∈ keys ∧ ∃ ent, items c !! k = Some ent ∧ v = cloneValue cfg (ent_value ent))
  ∧ (∀ k, k ∈ missing' → k ∈ missing ∨ (k ∈ keys ∧ k ∉ seen))
  ∧ (∀ k, is_Some (out !! k) ∨ k ∈ missing ∨ (k ∈ keys ∧ k ∉ seen) → is_Some (out' !! k) ∨ k ∈ missing')
  ∧ ((∀ k, k ∈ missing → k ∈ seen) → NoDup missing → NoDup missing').
Proof.
  revert seen out missing c. induction keys as [|key keys IH]; intros seen out missing c; cbn [scan_alone].
  { intros [= <- <- <-]. split_and!; [done | by left | by left | set_solver | done]. }
  case_bool_decide as Hs.
  { intros (Hd & Ho & Hm & Ha & Hn)%IH. split_and!; [done| | | |done].
    - intros k v Hk. destruct (Ho k v Hk) as [|[? ?]]; [by left|right; set_solver].
    - intros k Hk. destruct (Hm k Hk) as [|[? ?]]; [by left|right; set_solver].
    - intros k Hk. apply Ha. set_solver. }
  pose proof (drops_lookup cfg now key 0 false c) as Hd1.
  pose proof (lookup_hit cfg now key 0 false c) as Hhit.
  destruct (cache_lookup cfg now key 0 false c) as [[v|] c1] eqn:Hl; cbn [fst snd] in *;
    intros (Hd & Ho & Hm & Ha & Hn)%IH; (split_and!; [by etrans| | | |]).
  - intros k v' Hk. destruct (Ho k v' Hk) as [Hk'|(Hin & ent & Hent & ->)].
    + apply lookup_insert_Some in Hk' as [[<- <-]|[_ Hk']]; [|by left]. right. split; [set_solver|].
      destruct (Hhit v eq_refl) as (ent & Hent & -> & _). by exists ent.
    + right. split; [set_solver|]. exists ent. split; [by eapply lookup_weaken, Hd1 | done].
  - intros k Hk. destruct (Hm k Hk) as [|[? ?]]; [by left|right; set_solver].
  - intros k Hk. apply Ha. destruct (decide (k = key)) as [->|Hne]; [rewrite lookup_insert_eq; eauto|].
    rewrite lookup_insert_ne by done. set_solver.
  - intros Hsub Hnd. apply Hn; [set_solver | done].
  - intros k v' Hk. destruct (Ho k v' Hk) as [|(Hin & ent & Hent & ->)]; [by left|].
    right. split; [set_solver|]. exists ent. split; [by eapply lookup_weaken, Hd1 | done].
  - intros k Hk. destruct (Hm k Hk) as [[?|?%list_elem_of_singleton]%elem_of_app|[? ?]]; [by left|right; set_solver..].
  - intros k Hk. apply Ha. destruct (decide (k = key)) as [->|Hne]; set_solver.
  - intros Hsub Hnd. apply Hn; [set_solver|]. apply NoDup_app. split_and!; [done| |apply NoDup_singleton].
    intros k Hk Hk'. set_solver.
Qed.

Lemma answer_keys_lookup loaded missing out k :
  fold_left (answer_key loaded) missing out !! k =
    match loaded !! k with
    | Some v => if decide (k ∈ missing) then Some (cloneValue cfg (cloneValue cfg v)) else out !! k
    | None => out !! k
    end.
Proof.
  revert out. induction missing as [|key missing IH]; intros out; cbn [fold_left].
  { destruct (loaded !! k); [|done]. by rewrite decide_False by set_solver. }
  rewrite IH. unfold answer_key. destruct (decide (k = key)) as [->|Hne].
  - destruct (loaded !! key) as [v|]; [|done]. rewrite (decide_True (P := key ∈ key :: missing)) by set_solver.
    case_decide; [done|]. by rewrite lookup_insert_eq.
  - destruct (loaded !! k) as [v|].
    + destruct (loaded !! key); (destruct (decide (k ∈ missing));
        [by rewrite decide_True by set_solver|rewrite decide_False by set_solver]); [|done].
      by rewrite lookup_insert_ne.
    + destruct (loaded !! key); [|done]. by rewrite lookup_insert_ne.
Qed.

(** A loader that fails makes the call fail.  Otherwise the call answers asked
    keys only, every one of them that is cached or loaded; and where cache and
    loader give values that [P] allows, so do the answer and the cache after. *)
Lemma GetOrLoadBatch_alone_spec (P : K → V → Prop) now keys loadMissing c :
  (∀ v, cloneValue cfg v = v) → cache_all P c →
  (∀ ks loaded, (∀ k, k ∈ ks → k ∈ keys) → loadMissing ks = OK loaded →
     (∀ k, k ∈ ks → is_Some (loaded !! k)) ∧ ∀ k v, k ∈ ks → loaded !! k = Some v → P k v) →
  let r := GetOrLoadBatch_alone now keys loadMissing c in
  cache_all P r.2
  ∧ (∀ out, r.1 = OK out → (∀ k, is_Some (out !! k) ↔ k ∈ keys) ∧ ∀ k v, out !! k = Some v → P k v)
  ∧ ∀ e, r.1 = ERR e → ∃ ks, ks ≠ [] ∧ loadMissing ks = ERR e.
Proof.
  intros Hclone Hc Hload. unfold GetOrLoadBatch_alone. case_bool_decide as Hkeys; cbn [fst snd].
  { subst keys. split_and!; [done| |done]. intros out [= <-]. split; [|done].
    intros k. rewrite lookup_empty. split; [by intros []|]. set_solver. }
  destruct (scan_alone now keys ∅ ∅ [] c) as [[out missing] c1] eqn:Hs.
  apply scan_alone_spec in Hs as (Hd & Ho & Hm & Ha & _).
  assert (∀ k v, out !! k = Some v → k ∈ keys ∧ P k v) as Hout.
  { intros k v Hk. destruct (Ho k v Hk) as [|(Hin & ent & Hent & ->)]; [done|].
    split; [done|]. rewrite Hclone. by eapply Hc. }
  assert (∀ k, k ∈ missing → k ∈ keys) as Hmiss by set_solver.
  pose proof (drops_all P _ _ Hd Hc) as Hc1.
  case_bool_decide as Hnil; cbn [fst snd].
  { split_and!; [done| |done]. intros out' [= <-]. split; [|intros k v Hk; by apply Hout].
    intros k. split; [intros [v Hk]; by eapply Hout|]. intros Hk. destruct (Ha k); set_solver. }
  destruct (loadMissing missing) as [loaded|e] eqn:Hl; cbn [fst snd].
  2: { split_and!; [done | done |]. intros e' [= <-]. eauto. }
  destruct (Hload missing loaded Hmiss Hl) as [Hall HP]. split_and!; [| |done].
  - unfold storeBatchIfEpoch. rewrite Nat.eqb_refl. cbn. intros k ent [Hk|(v & h & Hin & Hv)]%storeBatch_stores.
    + by eapply Hc1.
    + rewrite Hv, Hclone. apply list_elem_of_omap in Hin as (k' & Hk' & Hv').
      destruct (loaded !! k') as [v'|] eqn:Hlk; [|done]. simplify_eq/=. by apply HP.
  - intros out' [= <-]. setoid_rewrite answer_keys_lookup. split.
    + intros k. split.
      * intros [v Hk]. destruct (loaded !! k); [case_decide; [by apply Hmiss|]|]; by eapply Hout.
      * intros Hk. destruct (Ha k ltac:(set_solver)) as [Hk'|Hk'].
        -- destruct (loaded !! k); [case_decide|]; eauto.
        -- destruct (Hall k Hk') as [v ->]. rewrite decide_True by done. eauto.
    + intros k v Hk. destruct (loaded !! k) as [v'|] eqn:Hlk; [|by apply Hout].
      case_decide as Hin; [|by apply Hout]. injection Hk as <-. rewrite !Hclone. by apply HP.
Qed.
End alone.

(** * The call as the program *)

Section link.
Context {K V E G : Type} `{Countable K} `{SingleFlight G (res E (V * bool))} (cfg : Config V).
Notation W := (world K V E G).
Implicit Types (w : W) (key : K) (keys missing : list K).

Definition unversioned (_ : K) : prog W (Z * bool) := mret (0, true).
Definition loading (load : list K → res E (gmap K V)) (ks : list K) : prog W (res E (gmap K V)) := mret (load ks).

Definition alone_reply (r : res E (gmap K V)) : res (load_error E) (gmap K V) :=
  match r with OK out => OK out | ERR e => ERR (LoadErr e) end.

Definition plain_miss key : batchMiss K := mkMiss key 0 true.

Lemma set_cache_id w : set_cache (w_cache w) w = w.
Proof. by destruct w. Qed.

Lemma run_on_cache {A} (f : Z → Cache K V → A * Cache K V) w :
  run (on_cache f) w = Some ((f (w_now w) (w_cache w)).1, set_cache (f (w_now w) (w_cache w)).2 w).
Proof. unfold on_cache, atomically. cbn. by destruct (f _ _). Qed.

Lemma run_scan keys seen out missing w :
  run (batch_scan cfg unversioned keys seen out (plain_miss <$> missing)) w =
    let '(out', missing', c) := scan_alone cfg (w_now w) keys seen out missing (w_cache w) in
    Some ((out', plain_miss <$> missing'), set_cache c w).
Proof.
  revert seen out missing w. induction keys as [|key keys IH]; intros seen out missing w; cbn [batch_scan scan_alone].
  { cbn. by rewrite set_cache_id. }
  case_bool_decide; [apply IH|]. rewrite run_bind. change (run (unversioned key) w) with (Some ((0, true), w)). cbn iota beta.
  rewrite run_bind, run_on_cache. cbn [negb Z.eqb].
  destruct (cache_lookup cfg (w_now w) key 0 false (w_cache w)) as [[v|] c] eqn:Hl; cbn [fst snd].
  - rewrite IH. cbn. by destruct (scan_alone _ _ _ _ _ _ _) as [[??]?].
  - change (?l ++ [mkMiss key 0 true]) with (l ++ (plain_miss <$> [key])). rewrite <- fmap_app, IH. cbn.
    by destruct (scan_alone _ _ _ _ _ _ _) as [[??]?].
Qed.

(** The flights that a call claims for its misses. *)
Fixpoint waits_for (e n : nat) missing : list (batchWait K) :=
  match missing with
  | [] => []
  | key :: missing => mkWait (plain_miss key) (key, 0, true, e) n :: waits_for e (S n) missing
  end.

Lemma claim_alone e missing waits owned fl (heap : list (batchFlight K V E)) :
  NoDup missing → (∀ k, k ∈ missing → fl !! (k, 0, true, e) = None) →
  ∃ fl', fold_left (claim_one e) (plain_miss <$> missing) (waits, owned, (fl, heap)) =
    (waits ++ waits_for e (length heap) missing, owned ++ waits_for e (length heap) missing,
     (fl', heap ++ ((λ k, mkFlight (k, 0, true, e) false None false None false) <$> missing))).
Proof.
  revert waits owned fl heap. induction missing as [|key missing IH]; intros waits owned fl heap Hnd Hfl; cbn.
  { exists fl. by rewrite !app_nil_r. }
  apply NoDup_cons in Hnd as [Hni Hnd]. rewrite Hfl by set_solver.
  edestruct (IH (waits ++ [mkWait (plain_miss key) (key, 0, true, e) (length heap)])
    (owned ++ [mkWait (plain_miss key) (key, 0, true, e) (length heap)])
    (<[(key, 0, true, e) := length heap]> fl)
    (heap ++ [mkFlight (key, 0, true, e) false None false None false]) Hnd) as [fl' Hfold].
  { intros k Hk. rewrite lookup_insert_ne by (intros [=]; subst; set_solver). apply Hfl. set_solver. }
  exists fl'. cbn in Hfold |- *. rewrite length_app in Hfold. cbn [length] in Hfold.
  rewrite Nat.add_1_r in Hfold. rewrite Hfold. by rewrite <- !app_assoc.
Qed.

Lemma waits_for_lookup e n missing i wait :
  waits_for e n missing !! i = Some wait →
  ∃ key, missing !! i = Some key ∧ wait = mkWait (plain_miss key) (key, 0, true, e) (n + i).
Proof.
  revert n i. induction missing as [|key missing IH]; intros n [|i] Hw; cbn in *; [done|done| |].
  - injection Hw as <-. exists key. by rewrite Nat.add_0_r.
  - destruct (IH _ _ Hw) as (k & Hk & ->). exists k. split; [done|]. f_equal. lia.
Qed.

(** Every claimed flight is on the heap, with the result [fl] of its key. *)
Definition landed (n : nat) missing (fl : K → batchFlight K V E) (heap : list (batchFlight K V E)) : Prop :=
  ∀ i key, missing !! i = Some key → heap !! (n + i)%nat = Some (fl key).

Definition result_of e (r : res E (gmap K V)) (retry : bool) key : batchFlight K V E :=
  let value := match r with OK m => m | ERR _ => ∅ end !! key in
  mkFlight (key, 0, true, e) true (cloneValue cfg <$> value) (bool_decide (is_Some value))
    (match r with OK _ => None | ERR x => Some x end) retry.

Definition same_but_flights w w' : Prop :=
  w_now w' = w_now w ∧ w_cache w' = w_cache w ∧ w_cancelled w' = w_cancelled w ∧ w_coin w' = w_coin w.

Lemma run_complete e n missing r retry w :
  landed n missing (λ k, mkFlight (k, 0, true, e) false None false None false) (w_heap w) →
  ∃ w', run (batch_complete cfg (waits_for e n missing) r retry) w = Some (tt, w')
    ∧ same_but_flights w w' ∧ landed n missing (result_of e r retry) (w_heap w')
    ∧ ∀ j, (j < n)%nat → w_heap w' !! j = w_heap w !! j.
Proof.
  revert n w. induction missing as [|key missing IH]; intros n w Hl; cbn [waits_for batch_complete].
  { exists w. split_and!; [done|done|by intros i key|done]. }
  rewrite run_bind. unfold on_flights, atomically. cbn [run].
  set (w1 := set_flights _ w) in *.
  assert (w_heap w !! n = Some (mkFlight (key, 0, true, e) false None false None false)) as Hn.
  { pose proof (Hl 0%nat key eq_refl) as Hn. by rewrite Nat.add_0_r in Hn. }
  destruct (IH (S n) w1) as (w' & Hrun & Hsame & Hl' & Hold).
  { intros i k Hk. unfold w1. cbn. rewrite list_lookup_alter_ne by lia.
    rewrite <- Nat.add_succ_r. by apply (Hl (S i)). }
  exists w'. split_and!; [exact Hrun | done | | ].
  - intros [|i] k Hk; cbn in Hk.
    + injection Hk as <-. rewrite Nat.add_0_r, Hold by lia. unfold w1. cbn.
      rewrite list_lookup_alter_eq, Hn. reflexivity.
    + replace (n + S i)%nat with (S n + i)%nat by lia. by apply Hl'.
  - intros j Hj. rewrite Hold by lia. unfold w1. cbn. by rewrite list_lookup_alter_ne by lia.
Qed.

Lemma run_wait ctx e n missing loaded out w :
  landed n missing (result_of e (OK loaded) false) (w_heap w) → ctx ∉ w_cancelled w →
  run (batch_wait cfg ctx (waits_for e n missing) out false) w =
    Some (OK (fold_left (answer_key cfg loaded) missing out, false), w).
Proof.
  revert n out. induction missing as [|key missing IH]; intros n out Hl Hctx; cbn [waits_for batch_wait fold_left]; [done|].
  rewrite run_bind. unfold batch_wait_one, await. cbn [run wait_flight].
  pose proof (Hl 0%nat key eq_refl) as Hn. rewrite Nat.add_0_r in Hn. rewrite Hn. unfold cancelled. rewrite bool_decide_false by done.
  cbn [result_of fl_done andb fmap option_fmap option_map fl_err fl_retry fl_value fl_ok].
  unfold answer_key at 2. cbn [wait_miss plain_miss miss_key].
  destruct (loaded !! key) as [v|]; cbn; apply IH; try done;
    intros i k Hk; replace (S n + i)%nat with (n + S i)%nat by lia; by apply (Hl (S i)).
Qed.

Lemma run_wait_error ctx e n key missing x out w :
  landed n (key :: missing) (result_of e (ERR x) false) (w_heap w) → ctx ∉ w_cancelled w →
  run (batch_wait cfg ctx (waits_for e n (key :: missing)) out false) w = Some (ERR (LoadErr x), w).
Proof.
  intros Hl Hctx. cbn [waits_for batch_wait]. rewrite run_bind. unfold batch_wait_one, await. cbn [run wait_flight].
  pose proof (Hl 0%nat key eq_refl) as Hn. rewrite Nat.add_0_r in Hn. rewrite Hn. unfold cancelled. by rewrite bool_decide_false by done.
Qed.

Lemma alone_missing_NoDup now keys c :
  NoDup (scan_alone cfg now keys ∅ ∅ [] c).1.2.
Proof.
  destruct (scan_alone cfg now keys ∅ ∅ [] c) as [[out missing] c'] eqn:Hs.
  apply scan_alone_spec in Hs as (_ & _ & _ & _ & Hn). apply Hn; [set_solver | constructor].
Qed.

Lemma store_entries_alone e n missing (loaded : gmap K V) :
  store_entries (waits_for e n missing) loaded = loaded_entries loaded missing.
Proof.
  revert n. induction missing as [|key missing IH]; intros n; [done|]. cbn.
  destruct (loaded !! key); cbn; [f_equal|]; apply (IH (S n)).
Qed.

Lemma waits_for_keys e n missing : (λ owner, miss_key (wait_miss owner)) <$> waits_for e n missing = missing.
Proof. revert n. induction missing as [|key missing IH]; intros n; [done|]. cbn. by rewrite IH. Qed.

(** A call that no other call meets and that nobody cancels makes one turn of
    its loop, and is the function of this file. *)
Lemma GetOrLoadBatch_runs_alone fuel ctx keys load w :
  w_flights w = ∅ → ctx ∉ w_cancelled w →
  let r := GetOrLoadBatch_alone cfg (w_now w) keys load (w_cache w) in
  ∃ w', run (GetOrLoadBatch cfg (S fuel) ctx keys unversioned (loading load)) w = Some (alone_reply r.1, w')
    ∧ w_cache w' = r.2.
Proof.
  intros Hfl Hctx. unfold GetOrLoadBatch_alone. cbn [GetOrLoadBatch]. case_bool_decide; [by exists w|].
  rewrite run_bind, run_on_cache. cbn [fst snd]. rewrite set_cache_id, run_bind.
  change (@nil (batchMiss K)) with (plain_miss <$> []). rewrite run_scan.
  pose proof (alone_missing_NoDup (w_now w) keys (w_cache w)) as Hnd.
  destruct (scan_alone cfg (w_now w) keys ∅ ∅ [] (w_cache w)) as [[out missing] c] eqn:Hs. cbn [fst snd] in Hnd.
  assert (epoch c = epoch (w_cache w)) as He by (by apply scan_alone_spec in Hs as [[_ ?] _]).
  destruct missing as [|key missing]; [cbn; eauto|].
  rewrite !bool_decide_false by done. rewrite run_bind. unfold on_flights, atomically. cbn [run].
  set (w1 := set_cache c w). change (w_flights w1) with (w_flights w). rewrite Hfl. unfold claimBatchFlights.
  destruct (claim_alone (cacheEpoch (w_cache w)) (key :: missing) [] [] ∅ (w_heap w1) Hnd) as [fl' ->].
  { intros k _. apply lookup_empty. }
  cbn [fst snd app]. set (e := cacheEpoch (w_cache w)). set (n := length (w_heap w1)).
  set (w2 := set_flights _ w1).
  assert (landed n (key :: missing) (λ k, mkFlight (k, 0, true, e) false None false None false) (w_heap w2)) as Hl.
  { intros i k Hk. unfold w2. cbn [w_heap set_flights snd]. rewrite lookup_app_r by (unfold n; lia).
    replace (n + i - length (w_heap w1))%nat with i by (unfold n; lia). by rewrite list_lookup_fmap, Hk. }
  rewrite run_bind. unfold batch_load. rewrite bool_decide_false by done. rewrite run_bind, waits_for_keys.
  change (run (loading load (key :: missing)) w2) with (Some (load (key :: missing), w2)). cbn iota beta.
  rewrite run_bind. destruct (load (key :: missing)) as [loaded|x].
  - rewrite run_on_cache, store_entries_alone. change (w_now w2) with (w_now w). change (w_cache w2) with c.
    unfold storeBatchIfEpoch. rewrite He, !Nat.eqb_refl. cbn [fst snd negb].
    set (c3 := fold_left _ _ c).
    destruct (run_complete e n (key :: missing) (OK loaded) false (set_cache c3 w2) Hl)
      as (w' & -> & (_ & Hc & Hcan & _) & Hl' & _).
    rewrite run_bind, (run_wait ctx e n (key :: missing) loaded out w' Hl') by (rewrite Hcan; done).
    exists w'. split; [done|]. exact Hc.
  - cbn [run mret prog_ret].
    destruct (run_complete e n (key :: missing) (ERR x) false w2 Hl) as (w' & -> & (_ & Hc & Hcan & _) & Hl' & _).
    rewrite run_bind, (run_wait_error ctx e n key missing x out w' Hl') by (rewrite Hcan; done).
    exists w'. split; [done|]. exact Hc.
Qed.
End link.
