(* ===== verification/Contacts.v ===== *)
(** Address books: the in-process contact store of
    [internal/store/memory/contacts.go].

    A user's contact list is a list of rows; a row's [User] snapshot is kept to
    the columns that the store itself writes (id, names, phone and the two
    relation flags), its other profile columns and the note's entities are
    carried through by the source and do not appear.  List hashes are derived
    from the rows on every read and are not modelled. *)

From S2P Require Import Prelude.

Open Scope Z_scope.

#[local] Set Warnings "-notation-for-abbreviation".

Record Contact := {
  User_ID : Z;
  User_Phone : string;
  User_FirstName : string;
  User_LastName : string;
  User_Mutual : bool;
  User_CloseFriend : bool;
  FirstName : string;
  LastName : string;
  Phone : string;
  Note : string;
  Mutual : bool;
  CloseFriend : bool;
}.

Record ContactInput := {
  ContactUserID : Z;
  in_Phone : string;
  in_FirstName : string;
  in_LastName : string;
  in_Note : string;
}.

Notation ContactStore := (gmap Z (list Contact)).

Definition contacts_of (s : ContactStore) (userID : Z) : list Contact := default [] (s !! userID).

Definition set_mutual (b : bool) (c : Contact) : Contact := {|
  User_ID := User_ID c; User_Phone := User_Phone c; User_FirstName := User_FirstName c;
  User_LastName := User_LastName c; User_Mutual := b; User_CloseFriend := User_CloseFriend c;
  FirstName := FirstName c; LastName := LastName c; Phone := Phone c; Note := Note c;
  Mutual := b; CloseFriend := CloseFriend c |}.

Definition set_close (b : bool) (c : Contact) : Contact := {|
  User_ID := User_ID c; User_Phone := User_Phone c; User_FirstName := User_FirstName c;
  User_LastName := User_LastName c; User_Mutual := User_Mutual c; User_CloseFriend := b;
  FirstName := FirstName c; LastName := LastName c; Phone := Phone c; Note := Note c;
  Mutual := Mutual c; CloseFriend := b |}.

Definition set_note (note : string) (c : Contact) : Contact := {|
  User_ID := User_ID c; User_Phone := User_Phone c; User_FirstName := User_FirstName c;
  User_LastName := User_LastName c; User_Mutual := User_Mutual c;
  User_CloseFriend := User_CloseFriend c; FirstName := FirstName c; LastName := LastName c;
  Phone := Phone c; Note := note; Mutual := Mutual c; CloseFriend := CloseFriend c |}.

(** * Reading *)

(** The first row about [id]. *)
Definition find_contact (id : Z) (l : list Contact) : option Contact :=
  List.find (λ c, User_ID c =? id) l.

Definition Get (s : ContactStore) (userID contactUserID : Z) : option Contact :=
  find_contact contactUserID (contacts_of s userID).

Definition nonzero_set (ids : list Z) : gset Z :=
  list_to_set (filter (λ id, negb (id =? 0)) ids).

Definition GetMany (s : ContactStore) (userID : Z) (ids : list Z) : gmap Z Contact :=
  if (userID =? 0) || bool_decide (ids = []) then ∅
  else
    let want := nonzero_set ids in
    fold_left (λ out c, if decide (User_ID c ∈ want) then <[User_ID c := c]> out else out)
      (contacts_of s userID) ∅.

(** What one owner's list adds to the answer of [GetReverseContacts]. *)
Definition reverse_row (s : ContactStore) (userID owner : Z) (out : gmap Z Contact) : gmap Z Contact :=
  match find_contact userID (contacts_of s owner) with
  | Some c => <[owner := c]> out
  | None => out
  end.

(** The loop over the set of owners writes one key each, in any order. *)
Definition GetReverseContacts (s : ContactStore) (userID : Z) (owners : list Z) : gmap Z Contact :=
  if (userID =? 0) || bool_decide (owners = []) then ∅
  else
    set_fold (reverse_row s userID) ∅ (nonzero_set owners).

(** The row the sparse projection hands out: a bare user and the two flags
    joined with those of the user snapshot. *)
Definition projected (c : Contact) : Contact := {|
  User_ID := User_ID c; User_Phone := ""; User_FirstName := ""; User_LastName := "";
  User_Mutual := false; User_CloseFriend := false; FirstName := FirstName c;
  LastName := LastName c; Phone := Phone c; Note := Note c;
  Mutual := Mutual c || User_Mutual c; CloseFriend := CloseFriend c || User_CloseFriend c |}.

(** One viewer's part of [ContactProjectionForViewerUserIDs]. *)
Definition project_rows (want : gset Z) (l : list Contact) : gmap Z Contact :=
  fold_left (λ out c, if decide (User_ID c ∈ want) then <[User_ID c := projected c]> out else out)
    l ∅.

Definition ContactProjectionForViewerUserIDs (s : ContactStore) (byViewer : gmap Z (list Z))
    : gmap Z (gmap Z Contact) :=
  map_imap (λ viewer ids,
    if (viewer =? 0) || bool_decide (ids = []) then None
    else
      let rows := project_rows (nonzero_set ids) (contacts_of s viewer) in
      if decide (rows = ∅) then None else Some rows) byViewer.

(** * Writing *)

(** Overwrite the flag of the first row about [id]. *)
Fixpoint update_first (id : Z) (f : Contact → Contact) (l : list Contact) : list Contact :=
  match l with
  | [] => []
  | c :: l' => if User_ID c =? id then f c :: l' else c :: update_first id f l'
  end.

Definition new_contact (input : ContactInput) (mutual : bool) : Contact := {|
  User_ID := ContactUserID input; User_Phone := in_Phone input;
  User_FirstName := in_FirstName input; User_LastName := in_LastName input;
  User_Mutual := mutual; User_CloseFriend := false; FirstName := in_FirstName input;
  LastName := in_LastName input; Phone := in_Phone input; Note := in_Note input;
  Mutual := mutual; CloseFriend := false |}.

(** The row that replaces an existing one. *)
Definition merge_contact (c existing : Contact) : Contact := {|
  User_ID := User_ID c; User_Phone := User_Phone c;
  User_FirstName := if decide (FirstName c = ""%string) then User_FirstName existing
                    else User_FirstName c;
  User_LastName := if decide (LastName c = ""%string) then User_LastName existing
                   else User_LastName c;
  User_Mutual := User_Mutual c;
  User_CloseFriend := CloseFriend existing || User_CloseFriend existing;
  FirstName := FirstName c; LastName := LastName c; Phone := Phone c; Note := Note c;
  Mutual := Mutual c; CloseFriend := CloseFriend existing |}.

(** The reverse row is marked in place, so when a user files itself the list it
    then edits already carries the mark. *)
Definition Upsert (userID : Z) (input : ContactInput) (s : ContactStore) : Contact * ContactStore :=
  let target := ContactUserID input in
  let reverse := contacts_of s target in
  let mutual := bool_decide (is_Some (find_contact userID reverse)) in
  let s1 := if mutual then <[target := update_first userID (set_mutual true) reverse]> s else s in
  let l := contacts_of s1 userID in
  let c := new_contact input mutual in
  match find_contact target l with
  | Some existing =>
      let c' := merge_contact c existing in
      (c', <[userID := update_first target (λ _, c') l]> s1)
  | None => (c, <[userID := l ++ [c]]> s1)
  end.

Fixpoint UpsertMany (userID : Z) (inputs : list ContactInput) (s : ContactStore)
    : list Contact * ContactStore :=
  match inputs with
  | [] => ([], s)
  | input :: inputs' =>
      let '(c, s1) := Upsert userID input s in
      let '(cs, s2) := UpsertMany userID inputs' s1 in
      (c :: cs, s2)
  end.

Definition UpdateNote (userID contactUserID : Z) (note : string) (s : ContactStore)
    : option Contact * ContactStore :=
  let l := contacts_of s userID in
  match find_contact contactUserID l with
  | Some c => (Some (set_note note c), <[userID := update_first contactUserID (set_note note) l]> s)
  | None => (None, s)
  end.

Record CloseFriendsEditResult := {
  AddedUserIDs : list Z;
  RemovedUserIDs : list Z;
}.

Definition was_close (c : Contact) : bool := CloseFriend c || User_CloseFriend c.

Definition SetCloseFriends (userID : Z) (ids : list Z) (s : ContactStore)
    : CloseFriendsEditResult * ContactStore :=
  let want := (list_to_set (filter (λ id, (0 <? id) && negb (id =? userID)) ids) : gset Z) in
  let wanted c := bool_decide (User_ID c ∈ want) in
  let touched c := negb (bool_decide (CloseFriend c = wanted c) && bool_decide (User_CloseFriend c = wanted c)) in
  let l := contacts_of s userID in
  let added := filter (λ c, touched c && negb (was_close c) && wanted c) l in
  let removed := filter (λ c, touched c && was_close c && negb (wanted c)) l in
  ({| AddedUserIDs := merge_sort Z.le (User_ID <$> added);
      RemovedUserIDs := merge_sort Z.le (User_ID <$> removed) |},
   if existsb touched l then <[userID := (λ c, if touched c then set_close (wanted c) c else c) <$> l]> s
   else s).

(** Removing one row clears the mark of the reverse rows. *)
Definition clear_reverse (userID : Z) (s : ContactStore) (c : Contact) : ContactStore :=
  match contacts_of s (User_ID c) with
  | [] => s
  | reverse => <[User_ID c := (λ r, if User_ID r =? userID then set_mutual false r else r) <$> reverse]> s
  end.

(** The rows are filtered in place while the reverse rows are being cleared. *)
Definition Delete (userID : Z) (ids : list Z) (s : ContactStore) : Z * ContactStore :=
  let remove := nonzero_set ids in
  if decide (remove = ∅) then (0, s)
  else
    let l := contacts_of s userID in
    let gone := filter (λ c, bool_decide (User_ID c ∈ remove)) l in
    let kept := filter (λ c, negb (bool_decide (User_ID c ∈ remove))) l in
    (Z.of_nat (length gone), <[userID := kept]> (fold_left (clear_reverse userID) gone s)).

(** * The invariant *)

(** Every list has one row per contact, the relation flags of a row and of its
    user snapshot agree, and outside self-contacts a row is marked mutual
    exactly when the contact's list has a row about the owner. *)
Record contacts_ok (s : ContactStore) : Prop := {
  ct_unique : ∀ u, NoDup (User_ID <$> contacts_of s u);
  ct_flags : ∀ u c, c ∈ contacts_of s u →
    User_Mutual c = Mutual c ∧ User_CloseFriend c = CloseFriend c;
  ct_mutual : ∀ u c, c ∈ contacts_of s u → User_ID c ≠ u →
    Mutual c = bool_decide (u ∈ User_ID <$> contacts_of s (User_ID c));
}.

Lemma find_contact_Some id l c : find_contact id l = Some c → c ∈ l ∧ User_ID c = id.
Proof.
  intros [Hin Heq]%List.find_some. split; [by apply list_elem_of_In | by apply Z.eqb_eq].
Qed.

Lemma find_contact_None id l : find_contact id l = None ↔ id ∉ User_ID <$> l.
Proof.
  unfold find_contact. induction l as [|c l IH]; csimpl; [set_solver|].
  destruct (Z.eqb_spec (User_ID c) id); set_solver.
Qed.

Lemma find_contact_is_Some id l : is_Some (find_contact id l) ↔ id ∈ User_ID <$> l.
Proof.
  destruct (decide (id ∈ User_ID <$> l)) as [Hin|Hin].
  - split; [done|]. intros _. destruct (find_contact id l) eqn:Hf; [done|].
    by apply find_contact_None in Hf.
  - split; [|done]. intros [c Hc]. apply find_contact_Some in Hc as [Hc <-].
    by apply list_elem_of_fmap_2.
Qed.

Lemma update_first_ids id f l :
  (∀ c, User_ID (f c) = User_ID c) → User_ID <$> update_first id f l = User_ID <$> l.
Proof.
  intros Hf. induction l as [|c l IH]; csimpl; [done|].
  destruct (Z.eqb_spec (User_ID c) id); csimpl; congruence.
Qed.

Lemma update_first_const_ids id c0 l :
  User_ID c0 = id → User_ID <$> update_first id (λ _, c0) l = User_ID <$> l.
Proof.
  intros Hf. induction l as [|c l IH]; csimpl; [done|].
  destruct (Z.eqb_spec (User_ID c) id); csimpl; congruence.
Qed.

Lemma elem_of_update_first id f l x :
  NoDup (User_ID <$> l) → x ∈ update_first id f l →
  (∃ c, c ∈ l ∧ User_ID c = id ∧ x = f c) ∨ (x ∈ l ∧ User_ID x ≠ id).
Proof.
  induction l as [|c l IH]; csimpl; [set_solver|]. intros [Hc Hnd]%NoDup_cons.
  destruct (Z.eqb_spec (User_ID c) id) as [<-|Hne].
  - intros [->|Hx]%elem_of_cons; [left; exists c; set_solver|].
    right. split; [set_solver|]. intros Heq. apply Hc. rewrite <- Heq. by apply list_elem_of_fmap_2.
  - intros [->|Hx]%elem_of_cons; [right; set_solver|].
    destruct (IH Hnd Hx) as [(c' & Hc' & He & ->)|[Hx' Hne']]; [left | right]; set_solver.
Qed.

Lemma contacts_of_insert s u l v :
  contacts_of (<[u := l]> s) v = if decide (v = u) then l else contacts_of s v.
Proof.
  unfold contacts_of. destruct (decide _) as [->|Hne].
  - by rewrite lookup_insert_eq.
  - by rewrite lookup_insert_ne.
Qed.

Definition ids_of (s : ContactStore) (u : Z) : list Z := User_ID <$> contacts_of s u.

(** [ct_mutual] only looks at lists of ids. *)
Lemma mutual_ids (s : ContactStore) u c :
  contacts_ok s → c ∈ contacts_of s u → User_ID c ≠ u → Mutual c = bool_decide (u ∈ ids_of s (User_ID c)).
Proof. intros Hok. by apply ct_mutual. Qed.

(** * Upsert *)

Section upsert.
Context (s : ContactStore) (u : Z) (input : ContactInput) (Hok : contacts_ok s).
Let t := ContactUserID input.
Let mutual := bool_decide (is_Some (find_contact u (contacts_of s t))).
Let s1 := if mutual then <[t := update_first u (set_mutual true) (contacts_of s t)]> s else s.

Lemma mutual_spec : mutual = bool_decide (u ∈ ids_of s t).
Proof. apply bool_decide_ext. apply find_contact_is_Some. Qed.

Lemma marked_ids v : User_ID <$> contacts_of s1 v = ids_of s v.
Proof.
  unfold s1, ids_of. destruct mutual; [|done]. rewrite contacts_of_insert.
  destruct (decide (v = t)) as [->|]; [|done]. by apply update_first_ids.
Qed.

Lemma marked_rows v c :
  c ∈ contacts_of s1 v →
  (v = t ∧ User_ID c = u ∧ mutual = true ∧ ∃ c0, c0 ∈ contacts_of s v ∧ c = set_mutual true c0)
  ∨ (c ∈ contacts_of s v ∧ ¬ (v = t ∧ User_ID c = u)).
Proof.
  unfold s1. destruct mutual eqn:Hm.
  - rewrite contacts_of_insert. destruct (decide (v = t)) as [->|]; [|tauto].
    intros [(c0 & Hc0 & He & ->)|[Hc Hne]]%elem_of_update_first; [left | right; tauto |];
      [by eauto 6 | apply Hok].
  - intros Hc. right. split; [done|]. intros [-> Hid].
    assert (u ∈ ids_of s t) by (rewrite <- Hid; by apply list_elem_of_fmap_2).
    rewrite mutual_spec in Hm. by apply bool_decide_eq_false in Hm.
Qed.

(** The row [Upsert] leaves behind. *)
Definition upserted : Contact := (Upsert u input s).1.

Lemma upserted_spec :
  User_ID upserted = t ∧ Mutual upserted = mutual ∧ User_Mutual upserted = mutual
  ∧ User_CloseFriend upserted = CloseFriend upserted
  ∧ CloseFriend upserted = match find_contact t (contacts_of s1 u) with
                           | Some e => CloseFriend e | None => false end.
Proof.
  unfold upserted, Upsert. fold t mutual s1.
  destruct (find_contact t (contacts_of s1 u)) as [e|] eqn:He; simpl; [|done].
  split_and!; try done.
  apply find_contact_Some in He as [Hin _].
  assert (User_CloseFriend e = CloseFriend e) as ->; [|by destruct (CloseFriend e)].
  destruct (marked_rows _ _ Hin) as [(_ & _ & _ & c0 & Hc0 & ->)|[Hc0 _]];
    by apply (ct_flags _ Hok) in Hc0 as [_ ?].
Qed.

Lemma upsert_rows v c :
  c ∈ contacts_of (Upsert u input s).2 v →
  (v = u ∧ c = upserted) ∨ (c ∈ contacts_of s1 v ∧ ¬ (v = u ∧ User_ID c = t)).
Proof.
  unfold upserted, Upsert. fold t mutual s1.
  destruct (find_contact t (contacts_of s1 u)) as [e|] eqn:He; simpl; rewrite contacts_of_insert;
    (destruct (decide (v = u)) as [->|]; [|tauto]).
  - intros [(c0 & _ & _ & ->)|[Hc Hne]]%elem_of_update_first; [left; done | right; tauto |].
    rewrite marked_ids. apply Hok.
  - apply find_contact_None in He. rewrite elem_of_app, list_elem_of_singleton.
    intros [Hc| ->]; [right | by left]. split; [done|]. intros [_ Hid]. apply He.
    rewrite <- Hid. by apply list_elem_of_fmap_2.
Qed.

Lemma upsert_ids v :
  ids_of (Upsert u input s).2 v =
  if decide (v = u) then (if decide (t ∈ ids_of s u) then ids_of s u else ids_of s u ++ [t])
  else ids_of s v.
Proof.
  unfold Upsert. fold t mutual s1. unfold ids_of at 1.
  destruct (find_contact t (contacts_of s1 u)) as [e|] eqn:He; simpl; rewrite contacts_of_insert;
    (destruct (decide (v = u)) as [->|]; [|apply marked_ids]).
  - rewrite update_first_const_ids, marked_ids by done. rewrite decide_True; [done|].
    rewrite <- marked_ids. apply find_contact_is_Some. by eexists.
  - rewrite fmap_app, marked_ids. rewrite decide_False; [done|].
    rewrite <- marked_ids. by apply find_contact_None.
Qed.

Lemma Upsert_ok : contacts_ok (Upsert u input s).2.
Proof.
  pose proof upserted_spec as (Hid & Hmu & Hum & Hcl & _). split.
  - intros v. fold (ids_of (Upsert u input s).2 v). rewrite upsert_ids.
    destruct (decide (v = u)) as [->|]; [|apply Hok]. case_decide as Ht; [apply Hok|].
    apply NoDup_app. split_and!; [apply Hok | set_solver | apply NoDup_singleton].
  - intros v c [[-> ->]|[Hc _]]%upsert_rows; [split; congruence|].
    destruct (marked_rows _ _ Hc) as [(_ & _ & _ & c0 & Hc0 & ->)|[Hc0 _]].
    + apply (ct_flags _ Hok) in Hc0 as [_ ?]. done.
    + by apply (ct_flags _ Hok) in Hc0.
  - intros v c Hc Hne. fold (ids_of (Upsert u input s).2 (User_ID c)). rewrite upsert_ids.
    apply upsert_rows in Hc as [[-> ->]|[Hc Hnu]].
    + rewrite Hmu, mutual_spec, Hid. rewrite Hid in Hne. by rewrite decide_False.
    + destruct (marked_rows _ _ Hc) as [(-> & Hcu & Hm & c0 & _ & ->)|[Hc0 Hnt]].
      * simpl in Hcu. simpl. rewrite Hcu, decide_True by done.
        rewrite bool_decide_true; [done|]. case_decide; set_solver.
      * rewrite (ct_mutual _ Hok v c Hc0 Hne). apply bool_decide_ext.
        fold (ids_of s (User_ID c)). destruct (decide (User_ID c = u)) as [Heq|]; [|done].
        rewrite Heq. case_decide; [done|].
        assert (v ≠ t) by tauto. set_solver.
Qed.
End upsert.

(** * The other writers *)

Lemma contacts_of_touch (s : ContactStore) u (f : Contact → Contact) v :
  contacts_of (<[u := f <$> contacts_of s u]> s) v
  = if decide (v = u) then f <$> contacts_of s v else contacts_of s v.
Proof. rewrite contacts_of_insert. by case_decide; subst. Qed.

(** Rewriting rows in place keeps the invariant when ids and marks stay and the
    flags still agree. *)
Lemma touch_ok (s : ContactStore) u (f : Contact → Contact) :
  contacts_ok s →
  (∀ c, User_ID (f c) = User_ID c ∧ Mutual (f c) = Mutual c) →
  (∀ c, c ∈ contacts_of s u →
     User_Mutual (f c) = Mutual (f c) ∧ User_CloseFriend (f c) = CloseFriend (f c)) →
  contacts_ok (<[u := f <$> contacts_of s u]> s).
Proof.
  intros Hok Hf Hflags.
  assert (∀ v, ids_of (<[u := f <$> contacts_of s u]> s) v = ids_of s v) as Hids.
  { intros v. unfold ids_of. rewrite contacts_of_touch. case_decide; [|done].
    rewrite <- list_fmap_compose. apply list_fmap_ext. intros i c _. apply Hf. }
  split.
  - intros v. fold (ids_of (<[u := f <$> contacts_of s u]> s) v). rewrite Hids. apply Hok.
  - intros v c. rewrite contacts_of_touch. case_decide; subst; [|by apply Hok].
    intros (c0 & -> & Hc0)%list_elem_of_fmap. by apply Hflags.
  - intros v c Hc Hne. fold (ids_of (<[u := f <$> contacts_of s u]> s) (User_ID c)). rewrite Hids.
    rewrite contacts_of_touch in Hc. case_decide; subst; [|by apply Hok].
    apply list_elem_of_fmap in Hc as (c0 & -> & Hc0). destruct (Hf c0) as [Hi Hm].
    rewrite Hi in Hne |- *. rewrite Hm. by apply Hok.
Qed.

Lemma SetCloseFriends_ok u ids (s : ContactStore) : contacts_ok s → contacts_ok (SetCloseFriends u ids s).2.
Proof.
  intros Hok. unfold SetCloseFriends. simpl. destruct (existsb _ _); [|done].
  apply touch_ok; [done | |].
  - intros c. by destruct (negb _).
  - intros c Hc. destruct (negb _); [|by apply (ct_flags _ Hok u)].
    simpl. split; [by apply (ct_flags _ Hok u) | done].
Qed.

Lemma update_first_map id f l :
  NoDup (User_ID <$> l) → update_first id f l = (λ c, if User_ID c =? id then f c else c) <$> l.
Proof.
  induction l as [|c l IH]; csimpl; [done|]. intros [Hc Hnd]%NoDup_cons.
  destruct (Z.eqb_spec (User_ID c) id) as [<-|]; [|by rewrite IH]. f_equal.
  rewrite <- (list_fmap_id l) at 1. apply list_fmap_ext. intros i x Hx. simpl.
  destruct (Z.eqb_spec (User_ID x) (User_ID c)) as [Heq|]; [|done].
  destruct Hc. rewrite <- Heq. apply list_elem_of_fmap_2. by eapply list_elem_of_lookup_2.
Qed.

Lemma UpdateNote_ok u id note (s : ContactStore) : contacts_ok s → contacts_ok (UpdateNote u id note s).2.
Proof.
  intros Hok. unfold UpdateNote. destruct (find_contact _ _); [|done]. simpl.
  rewrite update_first_map by apply Hok. apply touch_ok; [done | |].
  - intros c'. by destruct (_ =? _).
  - intros c' Hc. destruct (_ =? _); simpl; by apply (ct_flags _ Hok u).
Qed.

(** ** Delete *)

Lemma clear_reverse_rows u (s : ContactStore) c v :
  contacts_of (clear_reverse u s c) v
  = (λ r, if (v =? User_ID c) && (User_ID r =? u) then set_mutual false r else r) <$> contacts_of s v.
Proof.
  unfold clear_reverse. destruct (contacts_of s (User_ID c)) as [|r l] eqn:Hr.
  - destruct (Z.eqb_spec v (User_ID c)) as [->|]; [by rewrite Hr|]. simpl. by rewrite list_fmap_id.
  - rewrite contacts_of_insert. destruct (decide (v = User_ID c)) as [->|Hne].
    + rewrite Z.eqb_refl, Hr. done.
    + destruct (Z.eqb_spec v (User_ID c)); [done|]. simpl. by rewrite list_fmap_id.
Qed.

Lemma clear_all_rows u gone (s : ContactStore) v :
  contacts_of (fold_left (clear_reverse u) gone s) v
  = (λ r, if bool_decide (v ∈ User_ID <$> gone) && (User_ID r =? u) then set_mutual false r else r)
    <$> contacts_of s v.
Proof.
  revert s. induction gone as [|c gone IH]; intros s; csimpl; [by rewrite list_fmap_id|].
  rewrite IH, clear_reverse_rows, <- list_fmap_compose. apply list_fmap_ext. intros i r _. simpl.
  destruct (Z.eqb_spec v (User_ID c)) as [->|Hne]; simpl.
  - rewrite (bool_decide_true (User_ID c ∈ _ :: _)) by set_solver. simpl.
    destruct (Z.eqb_spec (User_ID r) u) as [He|He]; simpl.
    + destruct (_ && _); done.
    + destruct (Z.eqb_spec (User_ID r) u); [done|]. by rewrite andb_false_r.
  - destruct (decide (v ∈ User_ID <$> gone)).
    + rewrite !bool_decide_true by set_solver. done.
    + rewrite !bool_decide_false by set_solver. done.
Qed.

(** The lists of ids after a deletion. *)
Lemma Delete_ids u ids (s : ContactStore) v :
  ids_of (Delete u ids s).2 v
  = if decide (v = u) then filter (λ id, negb (bool_decide (id ∈ nonzero_set ids))) (ids_of s u)
    else ids_of s v.
Proof.
  assert (∀ l : list Contact, User_ID <$> filter (λ c, negb (bool_decide (User_ID c ∈ nonzero_set ids))) l
            = filter (λ id, negb (bool_decide (id ∈ nonzero_set ids))) (User_ID <$> l)) as Hfl.
  { induction l as [|c l IH]; csimpl; [done|]. rewrite !filter_bool_cons.
    destruct (negb _); csimpl; by rewrite IH. }
  unfold Delete. destruct (decide (nonzero_set ids = ∅)) as [He|He]; simpl.
  - destruct (decide (v = u)) as [->|]; [|done]. rewrite He. symmetry. apply filter_all.
    apply Forall_forall. intros x _. by rewrite bool_decide_false by set_solver.
  - unfold ids_of. rewrite contacts_of_insert. destruct (decide (v = u)) as [->|]; [apply Hfl|].
    rewrite clear_all_rows, <- list_fmap_compose. apply list_fmap_ext. intros i r _. simpl.
    by destruct (_ && _).
Qed.

Lemma Delete_rows u ids (s : ContactStore) v c :
  nonzero_set ids ≠ ∅ → c ∈ contacts_of (Delete u ids s).2 v →
  (v = u ∧ c ∈ contacts_of s u ∧ User_ID c ∉ nonzero_set ids)
  ∨ (v ≠ u ∧ ∃ c0, c0 ∈ contacts_of s v
      ∧ c = if bool_decide (v ∈ ids_of s u ∧ v ∈ nonzero_set ids) && (User_ID c0 =? u)
            then set_mutual false c0 else c0).
Proof.
  intros He. unfold Delete. rewrite decide_False by done. simpl. rewrite contacts_of_insert.
  destruct (decide (v = u)) as [->|Hne].
  - intros [Hk Hc]%elem_of_filter_bool. left. split_and!; [done..|].
    by apply negb_true_iff, bool_decide_eq_false in Hk.
  - rewrite clear_all_rows, list_elem_of_fmap. intros (c0 & -> & Hc0). right. split; [done|].
    exists c0. split; [done|].
    rewrite (bool_decide_ext _ (v ∈ ids_of s u ∧ v ∈ nonzero_set ids)); [done|].
    unfold ids_of. rewrite !list_elem_of_fmap. setoid_rewrite elem_of_filter_bool.
    setoid_rewrite bool_decide_eq_true. naive_solver.
Qed.

Lemma Delete_ok u ids (s : ContactStore) : contacts_ok s → contacts_ok (Delete u ids s).2.
Proof.
  intros Hok. destruct (decide (nonzero_set ids = ∅)) as [He|He].
  { unfold Delete. by rewrite decide_True. }
  split.
  - intros v. fold (ids_of (Delete u ids s).2 v). rewrite Delete_ids.
    case_decide; [apply NoDup_filter|]; apply Hok.
  - intros v c [(-> & Hc & _)|(_ & c0 & Hc0 & ->)]%Delete_rows; [by apply (ct_flags _ Hok u)| |done].
    pose proof (ct_flags _ Hok v c0 Hc0) as Hf.
    destruct Hf. by destruct (_ && _).
  - intros v c Hc Hne. fold (ids_of (Delete u ids s).2 (User_ID c)). rewrite Delete_ids.
    apply Delete_rows in Hc as [(-> & Hc & Hn)|(Hvu & c0 & Hc0 & ->)]; [| |done].
    + rewrite decide_False by done. by apply (ct_mutual _ Hok).
    + assert (User_ID (if bool_decide (v ∈ ids_of s u ∧ v ∈ nonzero_set ids) && (User_ID c0 =? u)
                       then set_mutual false c0 else c0) = User_ID c0) as Hid by by destruct (_ && _).
      rewrite Hid in Hne |- *. clear Hid.
      destruct (Z.eqb_spec (User_ID c0) u) as [Hu|Hu].
      * rewrite andb_true_r, decide_True by done. case_bool_decide as Hb; simpl.
        -- symmetry. apply bool_decide_eq_false. rewrite elem_of_filter_bool.
           rewrite negb_true_iff, bool_decide_eq_false. tauto.
        -- rewrite (ct_mutual _ Hok v c0 Hc0 Hne), Hu. apply bool_decide_ext. fold (ids_of s u).
           rewrite elem_of_filter_bool, negb_true_iff, bool_decide_eq_false. tauto.
      * rewrite andb_false_r, decide_False by done. by apply (ct_mutual _ Hok).
Qed.

(** * Sequences of writes *)

Inductive contact_op :=
  | DoUpsert (userID : Z) (inputs : list ContactInput)
  | DoUpdateNote (userID contactUserID : Z) (note : string)
  | DoSetCloseFriends (userID : Z) (ids : list Z)
  | DoDelete (userID : Z) (ids : list Z).

Definition run_contact_op (s : ContactStore) (op : contact_op) : ContactStore :=
  match op with
  | DoUpsert u inputs => (UpsertMany u inputs s).2
  | DoUpdateNote u id note => (UpdateNote u id note s).2
  | DoSetCloseFriends u ids => (SetCloseFriends u ids s).2
  | DoDelete u ids => (Delete u ids s).2
  end.

Definition run_contact_ops (ops : list contact_op) : ContactStore := fold_left run_contact_op ops ∅.

Lemma UpsertMany_ok u inputs (s : ContactStore) : contacts_ok s → contacts_ok (UpsertMany u inputs s).2.
Proof.
  revert s. induction inputs as [|input inputs IH]; intros s Hok; simpl; [done|].
  pose proof (Upsert_ok s u input Hok) as H1. destruct (Upsert u input s) as [c s1]. simpl in H1.
  specialize (IH s1 H1). by destruct (UpsertMany u inputs s1).
Qed.

Lemma empty_contacts_ok : contacts_ok ∅.
Proof.
  assert (∀ u, contacts_of ∅ u = []) as He by (intros u; unfold contacts_of; by rewrite lookup_empty).
  split; intros u; rewrite He; [constructor| |]; intros c Hc; by apply elem_of_nil in Hc.
Qed.

Lemma run_contact_ops_ok ops : contacts_ok (run_contact_ops ops).
Proof.
  unfold run_contact_ops. generalize empty_contacts_ok. generalize (∅ : ContactStore).
  induction ops as [|op ops IH]; intros s Hok; simpl; [done|]. apply IH.
  destruct op; simpl; [by apply UpsertMany_ok | by apply UpdateNote_ok |
    by apply SetCloseFriends_ok | by apply Delete_ok].
Qed.

(** * The readers agree *)

Lemma last_write {B} (P : Contact → Prop) `{∀ c, Decision (P c)} (g : Contact → B) l id (out : gmap Z B) :
  NoDup (User_ID <$> l) →
  fold_left (λ out c, if decide (P c) then <[User_ID c := g c]> out else out) l out !! id
  = match find_contact id l with
    | Some c => if decide (P c) then Some (g c) else out !! id
    | None => out !! id
    end.
Proof.
  revert out. induction l as [|c l IH]; intros out; csimpl; [done|]. intros [Hc Hnd]%NoDup_cons.
  rewrite IH by done. unfold find_contact. simpl.
  fold (find_contact id l). destruct (Z.eqb_spec (User_ID c) id) as [<-|Hne].
  - rewrite (proj2 (find_contact_None _ _) Hc). case_decide; [|done]. apply lookup_insert_eq.
  - destruct (find_contact id l) as [c'|]; [destruct (decide (P c')); [done|]|];
      (case_decide; [by apply lookup_insert_ne | done]).
Qed.

Lemma elem_of_nonzero_set id ids : id ∈ nonzero_set ids ↔ id ≠ 0 ∧ id ∈ ids.
Proof.
  unfold nonzero_set. rewrite elem_of_list_to_set, elem_of_filter_bool, negb_true_iff, Z.eqb_neq.
  done.
Qed.

Lemma GetMany_lookup (s : ContactStore) u ids id :
  contacts_ok s → u ≠ 0 → id ≠ 0 → id ∈ ids → GetMany s u ids !! id = Get s u id.
Proof.
  intros Hok Hu Hid Hin. unfold GetMany, Get. destruct (Z.eqb_spec u 0); [done|]. simpl.
  rewrite bool_decide_false by (intros ->; set_solver).
  rewrite (last_write (λ c, User_ID c ∈ nonzero_set ids) (λ c, c)) by apply Hok.
  destruct (find_contact id _) as [c|] eqn:Hf; [|done].
  rewrite decide_True; [done|]. apply find_contact_Some in Hf as [_ ->].
  by apply elem_of_nonzero_set.
Qed.

Lemma GetReverseContacts_lookup (s : ContactStore) u owners o :
  u ≠ 0 → o ≠ 0 → o ∈ owners → GetReverseContacts s u owners !! o = Get s o u.
Proof.
  intros Hu Ho Hin. unfold GetReverseContacts. destruct (Z.eqb_spec u 0); [done|]. simpl.
  rewrite bool_decide_false by (intros ->; set_solver).
  assert (o ∈ nonzero_set owners) as Hw by by apply elem_of_nonzero_set.
  revert Hw. generalize (nonzero_set owners). intros X Hw.
  enough ((o ∈ X → set_fold (reverse_row s u) ∅ X !! o = Get s o u)
          ∧ (o ∉ X → set_fold (reverse_row s u) ∅ X !! o = None)) as [HX _] by by apply HX.
  apply (set_fold_ind_L (λ out Y, (o ∈ Y → out !! o = Get s o u) ∧ (o ∉ Y → out !! o = None))).
  - split; [set_solver|]. intros _. apply lookup_empty.
  - intros x Y out Hx [Hin' Hout]. unfold reverse_row, Get in *.
    destruct (decide (x = o)) as [->|Hne].
    + split; [|set_solver]. intros _.
      destruct (find_contact u (contacts_of s o)); [apply lookup_insert_eq | by apply Hout].
    + assert ((match find_contact u (contacts_of s x) with
               | Some c => <[x:=c]> out | None => out end) !! o = out !! o) as ->.
      { destruct (find_contact u (contacts_of s x)); [by apply lookup_insert_ne | done]. }
      split; intros HY; [apply Hin' | apply Hout]; set_solver.
Qed.

Lemma Projection_lookup (s : ContactStore) m o ids v :
  contacts_ok s → m !! o = Some ids → o ≠ 0 → v ≠ 0 → v ∈ ids →
  default ∅ (ContactProjectionForViewerUserIDs s m !! o) !! v = projected <$> Get s o v.
Proof.
  intros Hok Hm Ho Hv Hin. unfold ContactProjectionForViewerUserIDs, Get.
  rewrite map_lookup_imap, Hm. simpl. destruct (Z.eqb_spec o 0); [done|]. simpl.
  rewrite bool_decide_false by (intros ->; set_solver).
  set (rows := project_rows _ _).
  assert (rows !! v = projected <$> find_contact v (contacts_of s o)) as Hr.
  { unfold rows, project_rows.
    rewrite (last_write (λ c, User_ID c ∈ nonzero_set ids) projected) by apply Hok.
    destruct (find_contact v _) as [c|] eqn:Hf; [|done].
    rewrite decide_True; [done|]. apply find_contact_Some in Hf as [_ ->].
    by apply elem_of_nonzero_set. }
  rewrite <- Hr. case_decide as He; [|done]. simpl. by rewrite He.
Qed.

Lemma Get_close (s : ContactStore) u id c : contacts_ok s → Get s u id = Some c → CloseFriend (projected c) = CloseFriend c.
Proof.
  intros Hok Hg. apply find_contact_Some in Hg as [Hin _]. simpl.
  apply (ct_flags _ Hok) in Hin as [_ ->]. by destruct (CloseFriend c).
Qed.

(** C11: after any sequence of additions, notes, close-friend edits and removals,
    a user's list has one row per contact; the mutual and close-friend flags of a
    row and of its user snapshot are equal; a row about somebody else is marked
    mutual exactly when that user's list has a row back; and for users with a
    non-zero id all readers of the store see the same row. *)
Theorem contact_lists_are_consistent ops u v w ids :
  let s := run_contact_ops ops in
  NoDup (User_ID <$> contacts_of s u)
  ∧ (∀ c, c ∈ contacts_of s u → User_Mutual c = Mutual c ∧ User_CloseFriend c = CloseFriend c)
  ∧ (u ≠ v → ∀ c, Get s u v = Some c → Mutual c = bool_decide (is_Some (Get s v u)))
  ∧ (u ≠ 0 → v ≠ 0 → v ∈ ids →
       GetMany s u ids !! v = Get s u v
       ∧ (u ∈ ids → GetReverseContacts s v ids !! u = Get s u v)
       ∧ (w !! u = Some ids →
            default ∅ (ContactProjectionForViewerUserIDs s w !! u) !! v = projected <$> Get s u v
            ∧ ∀ c, Get s u v = Some c → CloseFriend (projected c) = CloseFriend c
                ∧ Mutual (projected c) = Mutual c)).
Proof.
  intros s. pose proof (run_contact_ops_ok ops) as Hok. fold s in Hok. split_and!.
  - apply Hok.
  - apply Hok.
  - intros Hne c [Hc Hid]%find_contact_Some. rewrite (ct_mutual _ Hok u c Hc) by congruence.
    apply bool_decide_ext. rewrite Hid. symmetry. apply find_contact_is_Some.
  - intros Hu Hv Hin. split_and!; [by apply GetMany_lookup | |].
    + intros Huin. by apply GetReverseContacts_lookup.
    + intros Hw. split; [by eapply Projection_lookup|]. intros c Hg.
      split; [by eapply Get_close|]. apply find_contact_Some in Hg as [Hc _]. simpl.
      apply (ct_flags _ Hok) in Hc as [-> _]. by destruct (Mutual c).
Qed.

Definition demo_input (id : Z) : ContactInput := {|
  ContactUserID := id; in_Phone := ""; in_FirstName := "a"; in_LastName := ""; in_Note := "" |}.

(** Users 1 and 2 add each other, 1 makes 2 a close friend, 2 adds 3. *)
Definition demo_ops : list contact_op :=
  [DoUpsert 1 [demo_input 2]; DoUpsert 2 [demo_input 1; demo_input 3]; DoSetCloseFriends 1 [2; 3]].

Lemma contact_lists_are_consistent_witness :
  (1 : Z) ≠ 2 ∧ ∃ c, Get (run_contact_ops demo_ops) 1 2 = Some c ∧ Mutual c = true ∧ CloseFriend c = true.
Proof.
  split; [done|].
  destruct (contact_lists_are_consistent demo_ops 1 2 ∅ []) as (_ & _ & Hm & _).
  destruct (Get (run_contact_ops demo_ops) 1 2) as [c|] eqn:Hg; [|by vm_compute in Hg].
  exists c. split; [done|]. rewrite (Hm ltac:(done) c eq_refl). split; [by vm_compute|].
  vm_compute in Hg. by injection Hg as <-.
Defined.
