(* ===== verification/Privacy.v ===== *)
(** Account privacy: rules, their store and their evaluation
    ([internal/domain/privacy.go], [internal/domain/privacy_evaluate.go],
    [internal/store/memory/privacy.go]) and the service that answers who may
    see what ([internal/app/privacy/service.go], [facts.go],
    [service_sparse.go]).

    The service reads address books through the class [ContactSource], which
    the store of [Contacts] implements, and users and channel memberships
    through the two provider interfaces of [facts.go], behind the two fact
    caches, which are caches of [Cache]: a request is a computation in the state
    monad [FactsM] of the caches, in which no other request comes between its
    steps.  Copies that the
    source makes to avoid sharing slices are plain values here.  The iteration
    order of a Go map is an argument of the definitions whose loop ranges over
    one. *)

From S2P Require Import Prelude Programs Cache CacheInv CacheLoad CacheAlone Contacts.

Open Scope Z_scope.

#[local] Set Warnings "-notation-for-abbreviation".

(** * Rules *)

Notation PrivacyKey := string.

Definition PrivacyKeyStatusTimestamp : PrivacyKey := "status_timestamp".
Definition PrivacyKeyChatInvite : PrivacyKey := "chat_invite".
Definition PrivacyKeyPhoneCall : PrivacyKey := "phone_call".
Definition PrivacyKeyPhoneP2P : PrivacyKey := "phone_p2p".
Definition PrivacyKeyForwards : PrivacyKey := "forwards".
Definition PrivacyKeyProfilePhoto : PrivacyKey := "profile_photo".
Definition PrivacyKeyPhoneNumber : PrivacyKey := "phone_number".
Definition PrivacyKeyAddedByPhone : PrivacyKey := "added_by_phone".
Definition PrivacyKeyVoiceMessages : PrivacyKey := "voice_messages".
Definition PrivacyKeyAbout : PrivacyKey := "about".
Definition PrivacyKeyBirthday : PrivacyKey := "birthday".
Definition PrivacyKeyStarGiftsAutoSave : PrivacyKey := "star_gifts_auto_save".
Definition PrivacyKeyNoPaidMessages : PrivacyKey := "no_paid_messages".
Definition PrivacyKeySavedMusic : PrivacyKey := "saved_music".

(** The Go type is a string; strings outside the declared constants are
    [PrivacyRuleUnknown]. *)
Inductive PrivacyRuleKind :=
  | PrivacyRuleAllowContacts
  | PrivacyRuleAllowAll
  | PrivacyRuleAllowUsers
  | PrivacyRuleDisallowContacts
  | PrivacyRuleDisallowAll
  | PrivacyRuleDisallowUsers
  | PrivacyRuleAllowChatParticipants
  | PrivacyRuleDisallowChatParticipants
  | PrivacyRuleAllowCloseFriends
  | PrivacyRuleAllowPremium
  | PrivacyRuleAllowBots
  | PrivacyRuleDisallowBots
  | PrivacyRuleUnknown (kind : string).

Record PrivacyRule := {
  Kind : PrivacyRuleKind;
  UserIDs : list Z;
  ChatIDs : list Z;
}.

Record PrivacyRules := {
  OwnerUserID : Z;
  Key : PrivacyKey;
  Rules : list PrivacyRule;
}.

Record PrivacyContext := {
  ctx_OwnerUserID : Z;
  ctx_ViewerUserID : Z;
  ViewerIsContact : bool;
  ViewerIsBot : bool;
  ViewerIsPremium : bool;
  ViewerCloseFriend : bool;
  SharedChatIDs : list Z;
}.

Inductive privacy_error :=
  | ErrPrivacyKeyInvalid
  | ErrPrivacyRuleInvalid
  | ErrActiveChannelMemberPairsLimit
  | ErrSparseUnsupported
  | LoadError.

#[export] Instance PrivacyRuleKind_eq_dec : EqDecision PrivacyRuleKind.
Proof. solve_decision. Defined.
#[export] Instance PrivacyRule_eq_dec : EqDecision PrivacyRule.
Proof. solve_decision. Defined.
#[export] Instance PrivacyRules_eq_dec : EqDecision PrivacyRules.
Proof. solve_decision. Defined.
#[export] Instance privacy_error_eq_dec : EqDecision privacy_error.
Proof. solve_decision. Defined.

Definition bare_rule (kind : PrivacyRuleKind) : PrivacyRule := {| Kind := kind; UserIDs := []; ChatIDs := [] |}.

Definition DefaultPrivacyRules (key : PrivacyKey) : list PrivacyRule :=
  if decide (key = PrivacyKeyPhoneNumber) then [bare_rule PrivacyRuleDisallowAll]
  else if decide (key = PrivacyKeyNoPaidMessages) then [bare_rule PrivacyRuleDisallowAll]
  else if decide (key = PrivacyKeyBirthday) then [bare_rule PrivacyRuleAllowContacts]
  else [bare_rule PrivacyRuleAllowAll].

(** * Evaluation *)

(** One of the lists is turned into a set before the other is searched. *)
Definition intersects (a b : list Z) : bool :=
  if bool_decide (a = []) || bool_decide (b = []) then false
  else let set := (list_to_set a : gset Z) in existsb (λ id, bool_decide (id ∈ set)) b.

Definition explicitDisallowMatches (rule : PrivacyRule) (ctx : PrivacyContext) : bool :=
  match Kind rule with
  | PrivacyRuleDisallowUsers => bool_decide (ctx_ViewerUserID ctx ∈ UserIDs rule)
  | PrivacyRuleDisallowChatParticipants => intersects (ChatIDs rule) (SharedChatIDs ctx)
  | PrivacyRuleDisallowBots => ViewerIsBot ctx
  | _ => false
  end.

Definition explicitAllowMatches (rule : PrivacyRule) (ctx : PrivacyContext) : bool :=
  match Kind rule with
  | PrivacyRuleAllowUsers => bool_decide (ctx_ViewerUserID ctx ∈ UserIDs rule)
  | PrivacyRuleAllowChatParticipants => intersects (ChatIDs rule) (SharedChatIDs ctx)
  | PrivacyRuleAllowCloseFriends => ViewerCloseFriend ctx
  | PrivacyRuleAllowPremium => ViewerIsPremium ctx
  | PrivacyRuleAllowBots => ViewerIsBot ctx
  | _ => false
  end.

(** The third loop: the first contact rule decides, for a contact. *)
Fixpoint contacts_pass (rules : list PrivacyRule) (ctx : PrivacyContext) : option bool :=
  match rules with
  | [] => None
  | rule :: rules' =>
      match Kind rule with
      | PrivacyRuleDisallowContacts =>
          if ViewerIsContact ctx then Some false else contacts_pass rules' ctx
      | PrivacyRuleAllowContacts =>
          if ViewerIsContact ctx then Some true else contacts_pass rules' ctx
      | _ => contacts_pass rules' ctx
      end
  end.

(** The fourth loop, with the final [return false]. *)
Fixpoint all_pass (rules : list PrivacyRule) : bool :=
  match rules with
  | [] => false
  | rule :: rules' =>
      match Kind rule with
      | PrivacyRuleDisallowAll => false
      | PrivacyRuleAllowAll => true
      | _ => all_pass rules'
      end
  end.

Definition EvaluatePrivacy (rules : PrivacyRules) (ctx : PrivacyContext) : bool :=
  if negb (ctx_OwnerUserID ctx =? 0) && (ctx_OwnerUserID ctx =? ctx_ViewerUserID ctx) then true
  else
    let rs := if decide (Rules rules = []) then DefaultPrivacyRules (Key rules) else Rules rules in
    if existsb (λ rule, explicitDisallowMatches rule ctx) rs then false
    else if existsb (λ rule, explicitAllowMatches rule ctx) rs then true
    else match contacts_pass rs ctx with
         | Some b => b
         | None => all_pass rs
         end.

Definition Evaluate (rules : PrivacyRules) (ctx : PrivacyContext) : bool := EvaluatePrivacy rules ctx.

(** * The store *)

Notation privacyStoreKey := (Z * PrivacyKey)%type.
Notation PrivacyStore := (gmap privacyStoreKey PrivacyRules).

Definition GetPrivacyRules (s : PrivacyStore) (ownerUserID : Z) (key : PrivacyKey) : option PrivacyRules :=
  s !! (ownerUserID, key).

Definition SetPrivacyRules (rules : PrivacyRules) (s : PrivacyStore) : PrivacyStore :=
  <[(OwnerUserID rules, Key rules) := rules]> s.

(** [order] is the order in which the map of rules is visited. *)
Definition ListPrivacyRules (order : list (privacyStoreKey * PrivacyRules)) (ownerUserIDs : list Z)
    (keys : list PrivacyKey) : list PrivacyRules :=
  if bool_decide (ownerUserIDs = []) || bool_decide (keys = []) then []
  else
    let owners := (list_to_set ownerUserIDs : gset Z) in
    let keySet := (list_to_set keys : gset PrivacyKey) in
    snd <$> filter (λ entry, bool_decide (entry.1.1 ∈ owners) && bool_decide (entry.1.2 ∈ keySet)) order.

(** * Keys and rules on entry *)

Definition maxPrivacyRules : Z := 100.
Definition maxPrivacyRuleIDs : Z := 5000.

Definition ValidKey (key : PrivacyKey) : bool :=
  bool_decide (key ∈ [PrivacyKeyStatusTimestamp; PrivacyKeyChatInvite; PrivacyKeyPhoneCall;
    PrivacyKeyPhoneP2P; PrivacyKeyForwards; PrivacyKeyProfilePhoto; PrivacyKeyPhoneNumber;
    PrivacyKeyAddedByPhone; PrivacyKeyVoiceMessages; PrivacyKeyAbout; PrivacyKeyBirthday;
    PrivacyKeyStarGiftsAutoSave; PrivacyKeyNoPaidMessages; PrivacyKeySavedMusic]).

Definition known_kind (kind : PrivacyRuleKind) : bool :=
  match kind with PrivacyRuleUnknown _ => false | _ => true end.

(** The loop of [validateRules], with its running total. *)
Fixpoint validate_from (totalIDs : Z) (rules : list PrivacyRule) : res privacy_error () :=
  match rules with
  | [] => OK tt
  | rule :: rules' =>
      if negb (known_kind (Kind rule)) then ERR ErrPrivacyRuleInvalid
      else
        let totalIDs' := totalIDs + (Z.of_nat (length (UserIDs rule)) + Z.of_nat (length (ChatIDs rule))) in
        if maxPrivacyRuleIDs <? totalIDs' then ERR ErrPrivacyRuleInvalid
        else if existsb (λ id, id <=? 0) (UserIDs rule) then ERR ErrPrivacyRuleInvalid
        else if existsb (λ id, id <=? 0) (ChatIDs rule) then ERR ErrPrivacyRuleInvalid
        else validate_from totalIDs' rules'
  end.

Definition validateRules (rules : list PrivacyRule) : res privacy_error () :=
  if maxPrivacyRules <? Z.of_nat (length rules) then ERR ErrPrivacyRuleInvalid
  else validate_from 0 rules.

Definition defaultRules (ownerUserID : Z) (key : PrivacyKey) : PrivacyRules :=
  {| OwnerUserID := ownerUserID; Key := key; Rules := DefaultPrivacyRules key |}.

Definition normalizedRules (ownerUserID : Z) (key : PrivacyKey) (rules : list PrivacyRule)
    : res privacy_error PrivacyRules :=
  if negb (ValidKey key) then ERR ErrPrivacyKeyInvalid
  else
    let rules' := if decide (rules = []) then DefaultPrivacyRules key else rules in
    validateRules rules' ≫= λ _,
    OK {| OwnerUserID := ownerUserID; Key := key; Rules := rules' |}.

(** The loop over [ids] that keeps first occurrences of non-zero ids. *)
Fixpoint dedup_from (seen : gset Z) (ids : list Z) : list Z :=
  match ids with
  | [] => []
  | id :: ids' =>
      if (id =? 0) || bool_decide (id ∈ seen) then dedup_from seen ids'
      else id :: dedup_from ({[id]} ∪ seen) ids'
  end.

Definition dedupNonZero (ids : list Z) : list Z := dedup_from ∅ ids.

(** * Interfaces *)

(** The part of [store.ContactStore] that the service calls.  A store that does
    not implement [store.SparseContactProjectionStore] has no projection. *)
Class ContactSource (C : Type) := {
  contact_Get : C → Z → Z → option Contact;
  contact_GetMany : C → Z → list Z → gmap Z Contact;
  contact_GetReverse : C → Z → list Z → gmap Z Contact;
  contact_Projection : option (C → gmap Z (list Z) → gmap Z (gmap Z Contact));
}.

(** What the service relies on: the batch readers agree with [Get] on whether
    there is a row and on its close-friend mark. *)
Definition same_contact (a b : option Contact) : Prop := (CloseFriend <$> a) = (CloseFriend <$> b).

Class ContactSourceLaws (C : Type) `{ContactSource C} (ok : C → Prop) := {
  contact_GetMany_law c o ids v :
    ok c → o ≠ 0 → v ≠ 0 → v ∈ ids → same_contact (contact_GetMany c o ids !! v) (contact_Get c o v);
  contact_GetReverse_law c v owners o :
    ok c → v ≠ 0 → o ≠ 0 → o ∈ owners →
    same_contact (contact_GetReverse c v owners !! o) (contact_Get c o v);
  contact_Projection_law proj c m o ids v :
    contact_Projection = Some proj → ok c → m !! o = Some ids → o ≠ 0 → v ≠ 0 → v ∈ ids →
    same_contact (default ∅ (proj c m !! o) !! v) (contact_Get c o v);
}.

#[export] Instance ContactStore_source : ContactSource ContactStore := {|
  contact_Get := Get;
  contact_GetMany := GetMany;
  contact_GetReverse := GetReverseContacts;
  contact_Projection := Some ContactProjectionForViewerUserIDs;
|}.

#[export] Instance ContactStore_laws : ContactSourceLaws ContactStore contacts_ok.
Proof.
  split; simpl.
  - intros s o ids v Hok Ho Hv Hin. unfold same_contact. by rewrite GetMany_lookup.
  - intros s v owners o Hok Hv Ho Hin. unfold same_contact. by rewrite GetReverseContacts_lookup.
  - intros proj s m o ids v [= <-] Hok Hm Ho Hv Hin. unfold same_contact.
    rewrite (Projection_lookup s m o ids v) by done.
    destruct (Get s o v) as [c|] eqn:Hg; [|done]. simpl. f_equal. by eapply Get_close.
Qed.

(** The columns of [domain.User] that [loadViewerFacts] reads. *)
Record BaseUser := {
  user_ID : Z;
  user_Bot : bool;
  user_PremiumUntil : Z;
}.

(** [baseUserProvider] and [channelMembershipProvider]: a nil provider is
    [None], and a provider answers [None] when its load fails. *)
Record ReadModels := {
  PrivacyBaseUsers : option (list Z → option (list BaseUser));
  FilterActiveChannelMemberPairs : option (gmap Z (list Z) → option (gmap Z (list Z)));
}.

Definition loaded {A} (o : option A) : res privacy_error A :=
  match o with Some a => OK a | None => ERR LoadError end.

(** * Facts about viewers *)

Record viewerFacts := {
  Found : bool;
  facts_Bot : bool;
  facts_PremiumUntil : Z;
}.

Notation membershipKey := (Z * Z)%type.

(** The two fact caches, a nil one being [None], and the clock (nanoseconds)
    that a call of theirs reads. *)
Record FactCaches := {
  clock : Z;
  viewerFactsCache : option (Cache Z viewerFacts);
  membershipFactsCache : option (Cache membershipKey bool);
}.

Definition defaultPrivacyViewerFactsTTL : Z := 10 * 60 * 1000000000.
Definition defaultPrivacyMembershipTTL : Z := 24 * 3600 * 1000000000.
Definition privacyViewerFactsMaxEntries : Z := 8192.
Definition privacyMembershipMaxEntries : Z := 65536.
Definition privacyMembershipBatchAdmissionMaxPairs : Z := privacyMembershipMaxEntries / 4.

Definition viewerFactsConfig : Config viewerFacts :=
  mkConfig privacyViewerFactsMaxEntries 0 None defaultPrivacyViewerFactsTTL None.
Definition membershipConfig : Config bool :=
  mkConfig privacyMembershipMaxEntries 0 None defaultPrivacyMembershipTTL None.

Definition newViewerFactsCache : option (Cache Z viewerFacts) := New viewerFactsConfig.
Definition newMembershipCache : option (Cache membershipKey bool) := New membershipConfig.

(** The caches that [NewService] installs. *)
Definition new_caches (now : Z) : FactCaches :=
  {| clock := now; viewerFactsCache := newViewerFactsCache; membershipFactsCache := newMembershipCache |}.

Definition set_viewerFacts (c : option (Cache Z viewerFacts)) (fc : FactCaches) : FactCaches :=
  {| clock := clock fc; viewerFactsCache := c; membershipFactsCache := membershipFactsCache fc |}.
Definition set_membershipFacts (c : option (Cache membershipKey bool)) (fc : FactCaches) : FactCaches :=
  {| clock := clock fc; viewerFactsCache := viewerFactsCache fc; membershipFactsCache := c |}.

(** Requests: they read and fill the fact caches, and may fail. *)
Definition FactsM (A : Type) : Type := FactCaches → res privacy_error A * FactCaches.

#[export] Instance FactsM_ret : MRet FactsM := λ A a fc, (OK a, fc).
#[export] Instance FactsM_bind : MBind FactsM := λ A B k m fc,
  match m fc with
  | (OK a, fc) => k a fc
  | (ERR e, fc) => (ERR e, fc)
  end.

Definition lift {A} (r : res privacy_error A) : FactsM A := λ fc, (r, fc).

Record evaluationNeeds := {
  viewerBase : bool;
  chatIDs : list Z;
}.

Definition MaxActiveChannelMemberPairs : Z := 65536.

Definition no_facts : viewerFacts := {| Found := false; facts_Bot := false; facts_PremiumUntil := 0 |}.

(** One chat id of a rule: seen once, kept once. *)
Definition need_chat (st : gset Z * list Z) (chatID : Z) : gset Z * list Z :=
  let '(seenChats, ids) := st in
  if chatID <=? 0 then st
  else if bool_decide (chatID ∈ seenChats) then st
  else ({[chatID]} ∪ seenChats, ids ++ [chatID]).

Definition need_rule (st : bool * (gset Z * list Z)) (rule : PrivacyRule) : bool * (gset Z * list Z) :=
  match Kind rule with
  | PrivacyRuleAllowPremium | PrivacyRuleAllowBots | PrivacyRuleDisallowBots => (true, st.2)
  | PrivacyRuleAllowChatParticipants | PrivacyRuleDisallowChatParticipants =>
      (st.1, fold_left need_chat (ChatIDs rule) st.2)
  | _ => st
  end.

Definition needsForRules (rules : PrivacyRules) : evaluationNeeds :=
  let st := fold_left need_rule (Rules rules) (false, (∅, [])) in
  {| viewerBase := st.1; chatIDs := st.2.2 |}.

Definition merge_chat (st : gset Z * list Z) (id : Z) : gset Z * list Z :=
  let '(seen, ids) := st in
  if bool_decide (id ∈ seen) then st else ({[id]} ∪ seen, ids ++ [id]).

Definition mergeNeeds (dst src : evaluationNeeds) : evaluationNeeds :=
  let base := if viewerBase src then true else viewerBase dst in
  if bool_decide (chatIDs src = []) then {| viewerBase := base; chatIDs := chatIDs dst |}
  else
    {| viewerBase := base;
       chatIDs := (fold_left merge_chat (chatIDs src) (list_to_set (chatIDs dst), chatIDs dst)).2 |}.

Definition no_needs : evaluationNeeds := {| viewerBase := false; chatIDs := [] |}.

Definition facts_of_user (user : BaseUser) : viewerFacts :=
  {| Found := true; facts_Bot := user_Bot user; facts_PremiumUntil := user_PremiumUntil user |}.

(** The closure [loadMissing] of [loadViewerFacts]. *)
Definition load_users (m : ReadModels) (missing : list Z) : res privacy_error (gmap Z viewerFacts) :=
  let out := fold_left (λ out id, <[id := no_facts]> out) missing ∅ in
  match PrivacyBaseUsers m with
  | None => OK out
  | Some load =>
      loaded (load missing) ≫= λ users,
      OK (fold_left (λ out user,
            if user_ID user =? 0 then out else <[user_ID user := facts_of_user user]> out) users out)
  end.

Definition loadViewerFacts (m : ReadModels) (viewerUserIDs : list Z) : FactsM (gmap Z viewerFacts) := λ fc,
  let ids := dedupNonZero viewerUserIDs in
  if bool_decide (ids = []) then (OK ∅, fc)
  else
    match viewerFactsCache fc with
    | None => (load_users m ids, fc)
    | Some c =>
        let '(facts, c) := GetOrLoadBatch_alone viewerFactsConfig (clock fc) ids (load_users m) c in
        (facts, set_viewerFacts (Some c) fc)
    end.

Definition activeChannelMembershipPairsAllowed (current channelCount userCount : Z) : bool :=
  if (current <? 0) || (channelCount <? 0) || (userCount <? 0) || (MaxActiveChannelMemberPairs <? current)
  then false
  else if (channelCount =? 0) || (userCount =? 0) then true
  else channelCount <=? (MaxActiveChannelMemberPairs - current) / userCount.

(** The first loop of [loadMembershipFactsForKeys]. *)
Fixpoint dedup_keys (seen : gset membershipKey) (keys : list membershipKey) (input : list membershipKey)
    : res privacy_error (list membershipKey) :=
  match input with
  | [] => OK keys
  | key :: input' =>
      if (key.1 =? 0) || (key.2 =? 0) then dedup_keys seen keys input'
      else if bool_decide (key ∈ seen) then dedup_keys seen keys input'
      else if MaxActiveChannelMemberPairs <=? Z.of_nat (length keys) then ERR ErrActiveChannelMemberPairsLimit
      else dedup_keys ({[key]} ∪ seen) (keys ++ [key]) input'
  end.

Definition group_key (byChat : gmap Z (list Z)) (key : membershipKey) : gmap Z (list Z) :=
  <[key.1 := default [] (byChat !! key.1) ++ [key.2]]> byChat.

(** An active pair is reported when it was asked for. *)
Definition mark_active (out : gmap membershipKey bool) (key : membershipKey) : gmap membershipKey bool :=
  if bool_decide (is_Some (out !! key)) then <[key := true]> out else out.

Definition pairs_of (activeByChat : gmap Z (list Z)) : list membershipKey :=
  map_to_list activeByChat ≫= λ '(chatID, userIDs), pair chatID <$> userIDs.

(** The closure [loadMissing] of [loadMembershipFactsForKeys]. *)
Definition load_memberships (m : ReadModels) (missing : list membershipKey)
    : res privacy_error (gmap membershipKey bool) :=
  let out := fold_left (λ out key, <[key := false]> out) missing ∅ in
  match FilterActiveChannelMemberPairs m with
  | None => OK out
  | Some load =>
      loaded (load (fold_left group_key missing ∅)) ≫= λ activeByChat,
      OK (fold_left mark_active (pairs_of activeByChat) out)
  end.

(** The part of [loadMembershipFactsForKeys] after its first loop.  A batch that
    the cache does not admit is loaded anew and kept out of it; the loop around
    that load ends after one turn, since the epoch moves only by an invalidation
    and none comes between the steps of a request here. *)
Definition load_keys (m : ReadModels) (keys : list membershipKey) : FactsM (gmap membershipKey bool) := λ fc,
  if bool_decide (keys = []) then (OK ∅, fc)
  else
    match membershipFactsCache fc with
    | None => (load_memberships m keys, fc)
    | Some c =>
        if privacyMembershipBatchAdmissionMaxPairs <? Z.of_nat (length keys) then (load_memberships m keys, fc)
        else
          let '(facts, c) := GetOrLoadBatch_alone membershipConfig (clock fc) keys (load_memberships m) c in
          (facts, set_membershipFacts (Some c) fc)
    end.

Definition loadMembershipFactsForKeys (m : ReadModels) (input : list membershipKey)
    : FactsM (gmap membershipKey bool) :=
  lift (dedup_keys ∅ [] input) ≫= load_keys m.

Definition loadMembershipFacts (m : ReadModels) (chatIDs viewerUserIDs : list Z)
    : FactsM (gmap membershipKey bool) :=
  let chats := dedupNonZero chatIDs in
  let viewers := dedupNonZero viewerUserIDs in
  if bool_decide (chats = []) || bool_decide (viewers = []) then mret ∅
  else if negb (activeChannelMembershipPairsAllowed 0 (Z.of_nat (length chats)) (Z.of_nat (length viewers)))
  then lift (ERR ErrActiveChannelMemberPairsLimit)
  else loadMembershipFactsForKeys m (chats ≫= λ chatID, pair chatID <$> viewers).

Definition InvalidateViewerFacts (userIDs : list Z) (fc : FactCaches) : FactCaches :=
  set_viewerFacts (Invalidate (dedupNonZero userIDs) <$> viewerFactsCache fc) fc.

Definition InvalidateMembership (channelID userID : Z) (fc : FactCaches) : FactCaches :=
  if (channelID =? 0) || (userID =? 0) then fc
  else set_membershipFacts (Invalidate [(channelID, userID)] <$> membershipFactsCache fc) fc.

(** [order] is the order in which the cached pairs are visited. *)
Definition InvalidateChannelMemberships (order : list membershipKey) (channelID : Z) (fc : FactCaches) : FactCaches :=
  if channelID =? 0 then fc
  else set_membershipFacts
         (InvalidateWhere (λ key, key.1 =? channelID) order <$> membershipFactsCache fc) fc.

Definition flushFactCaches (fc : FactCaches) : FactCaches :=
  set_membershipFacts (Flush <$> membershipFactsCache fc)
    (set_viewerFacts (Flush <$> viewerFactsCache fc) fc).

Definition applyViewerFacts (facts : viewerFacts) (now : Z) (ctx : PrivacyContext) : PrivacyContext :=
  if negb (Found facts) then ctx
  else {| ctx_OwnerUserID := ctx_OwnerUserID ctx; ctx_ViewerUserID := ctx_ViewerUserID ctx;
          ViewerIsContact := ViewerIsContact ctx; ViewerIsBot := facts_Bot facts;
          ViewerIsPremium := negb (facts_Bot facts) && (now <? facts_PremiumUntil facts);
          ViewerCloseFriend := ViewerCloseFriend ctx; SharedChatIDs := SharedChatIDs ctx |}.

Definition applyMembershipFacts (chatIDs : list Z) (facts : gmap membershipKey bool)
    (ctx : PrivacyContext) : PrivacyContext :=
  {| ctx_OwnerUserID := ctx_OwnerUserID ctx; ctx_ViewerUserID := ctx_ViewerUserID ctx;
     ViewerIsContact := ViewerIsContact ctx; ViewerIsBot := ViewerIsBot ctx;
     ViewerIsPremium := ViewerIsPremium ctx; ViewerCloseFriend := ViewerCloseFriend ctx;
     SharedChatIDs := SharedChatIDs ctx ++
       filter (λ chatID, default false (facts !! (chatID, ctx_ViewerUserID ctx))) chatIDs |}.

(** * The service *)

(** [m[k] = f(k)] for every [k] of a list. *)
Definition fill `{Countable K} {V} (f : K → V) (ks : list K) (m : gmap K V) : gmap K V :=
  fold_left (λ m k, <[k := f k]> m) ks m.

Notation visibility := (gmap PrivacyKey bool).

Definition all_true (keys : list PrivacyKey) : visibility := fill (λ _, true) keys ∅.

Record Service (C : Type) := {
  rules : PrivacyStore;
  contacts : C;
  read_models : ReadModels;
}.
Arguments rules {C} s : rename.
Arguments contacts {C} s : rename.
Arguments read_models {C} s : rename.

Section service.
Context {C : Type} `{ContactSource C}.
Implicit Type s : Service C.

Definition with_rules (r : PrivacyStore) s : Service C :=
  {| rules := r; contacts := contacts s; read_models := read_models s |}.

Definition normal_rules (r : PrivacyRules) : PrivacyRules :=
  {| OwnerUserID := OwnerUserID r; Key := Key r;
     Rules := if decide (Rules r = []) then DefaultPrivacyRules (Key r) else Rules r |}.

Definition GetRules s (ownerUserID : Z) (key : PrivacyKey) : res privacy_error PrivacyRules :=
  if negb (ValidKey key) then ERR ErrPrivacyKeyInvalid
  else match GetPrivacyRules (rules s) ownerUserID key with
       | None => OK (defaultRules ownerUserID key)
       | Some r => OK (normal_rules {| OwnerUserID := ownerUserID; Key := key; Rules := Rules r |})
       end.

Definition SetRules s (ownerUserID : Z) (key : PrivacyKey) (rs : list PrivacyRule)
    : res privacy_error (PrivacyRules * Service C) :=
  normalizedRules ownerUserID key rs ≫= λ out,
  OK (out, with_rules (SetPrivacyRules out (rules s)) s).

(** The loop of [AddAllowUser]: the first allow-users rule decides.  [None]
    when there is none, [Some None] when it lists the user already, and
    otherwise the rules with the user appended to it. *)
Fixpoint allow_in (targetUserID : Z) (rs : list PrivacyRule) : option (option (list PrivacyRule)) :=
  match rs with
  | [] => None
  | rule :: rs' =>
      if decide (Kind rule = PrivacyRuleAllowUsers) then
        if bool_decide (targetUserID ∈ UserIDs rule) then Some None
        else Some (Some ({| Kind := Kind rule; UserIDs := UserIDs rule ++ [targetUserID];
                            ChatIDs := ChatIDs rule |} :: rs'))
      else match allow_in targetUserID rs' with
           | Some (Some rs'') => Some (Some (rule :: rs''))
           | o => o
           end
  end.

Definition AddAllowUser s (ownerUserID : Z) (key : PrivacyKey) (targetUserID : Z)
    : res privacy_error (PrivacyRules * bool * Service C) :=
  if targetUserID =? 0 then ERR ErrPrivacyRuleInvalid
  else
    GetRules s ownerUserID key ≫= λ r,
    match allow_in targetUserID (Rules r) with
    | Some None => OK (r, false, s)
    | Some (Some rs) =>
        SetRules s ownerUserID key rs ≫= λ '(next, s'), OK (next, true, s')
    | None =>
        SetRules s ownerUserID key
          ({| Kind := PrivacyRuleAllowUsers; UserIDs := [targetUserID]; ChatIDs := [] |} :: Rules r)
        ≫= λ '(next, s'), OK (next, true, s')
    end.

(** The evaluation context built from an optional contact row. *)
Definition contact_context (owner viewer : Z) (contact : option Contact) : PrivacyContext :=
  {| ctx_OwnerUserID := owner; ctx_ViewerUserID := viewer;
     ViewerIsContact := bool_decide (is_Some contact); ViewerIsBot := false; ViewerIsPremium := false;
     ViewerCloseFriend := default false (CloseFriend <$> contact); SharedChatIDs := [] |}.

(** The two loads of [CanSee], made when the rules need them. *)
Definition with_viewer_facts s (now : Z) (needs : evaluationNeeds) (ctx : PrivacyContext)
    : FactsM PrivacyContext :=
  if viewerBase needs then
    loadViewerFacts (read_models s) [ctx_ViewerUserID ctx] ≫= λ facts,
    mret (applyViewerFacts (default no_facts (facts !! ctx_ViewerUserID ctx)) now ctx)
  else mret ctx.

Definition with_membership_facts s (needs : evaluationNeeds) (ctx : PrivacyContext)
    : FactsM PrivacyContext :=
  if bool_decide (chatIDs needs = []) then mret ctx
  else
    loadMembershipFacts (read_models s) (chatIDs needs) [ctx_ViewerUserID ctx] ≫= λ facts,
    mret (applyMembershipFacts (chatIDs needs) facts ctx).

Definition CanSee s (now ownerUserID viewerUserID : Z) (key : PrivacyKey) : FactsM bool :=
  if (ownerUserID =? 0) || (viewerUserID =? 0) then mret false
  else if ownerUserID =? viewerUserID then mret true
  else
    lift (GetRules s ownerUserID key) ≫= λ r,
    let needs := needsForRules r in
    let contact := contact_Get (contacts s) ownerUserID viewerUserID in
    with_viewer_facts s now needs (contact_context ownerUserID viewerUserID contact) ≫= λ ctx,
    with_membership_facts s needs ctx ≫= λ ctx,
    mret (Evaluate r ctx).

Definition CanSeeAnonymous s (ownerUserID : Z) (key : PrivacyKey) : res privacy_error bool :=
  if ownerUserID =? 0 then OK false
  else
    GetRules s ownerUserID key ≫= λ r,
    OK (Evaluate r (contact_context ownerUserID 0 None)).

Notation rulesByOwner := (gmap Z (gmap PrivacyKey PrivacyRules)).

(** The loop that files the listed rules by owner and key. *)
Definition index_rule (m : rulesByOwner) (r : PrivacyRules) : rulesByOwner :=
  if negb (ValidKey (Key r)) then m
  else <[OwnerUserID r := <[Key r := normal_rules r]> (default ∅ (m !! OwnerUserID r))]> m.

Definition index_rules (l : list PrivacyRules) : rulesByOwner := fold_left index_rule l ∅.

Definition rules_for (m : rulesByOwner) (owner : Z) (key : PrivacyKey) : PrivacyRules :=
  default (defaultRules owner key) (m !! owner ≫= (.!! key)).

(** The loop that merges what the rules of some owners need. *)
Definition needs_for (m : rulesByOwner) (owners : list Z) (keys : list PrivacyKey) : evaluationNeeds :=
  fold_left (λ needs owner,
    fold_left (λ needs key, mergeNeeds needs (needsForRules (rules_for m owner key))) keys needs)
  owners no_needs.

Definition evaluate_pair (m : rulesByOwner) (now owner viewer : Z) (contact : option Contact)
    (baseFacts : gmap Z viewerFacts) (chatIDs : list Z) (membershipFacts : gmap membershipKey bool)
    (keys : list PrivacyKey) : visibility :=
  fill (λ k,
    Evaluate (rules_for m owner k)
      (applyMembershipFacts chatIDs membershipFacts
        (applyViewerFacts (default no_facts (baseFacts !! viewer)) now
          (contact_context owner viewer contact)))) keys ∅.

(** The first loop of [CanSeeBatch]: seen owners, visibility of oneself, and
    the other owners in order. *)
Fixpoint split_owners (viewer : Z) (keys : list PrivacyKey) (seen : gset Z) (out : gmap Z visibility)
    (owners : list Z) (ids : list Z) : gmap Z visibility * list Z :=
  match ids with
  | [] => (out, owners)
  | id :: ids' =>
      if (id =? 0) || bool_decide (id ∈ seen) then split_owners viewer keys seen out owners ids'
      else if id =? viewer
      then split_owners viewer keys ({[id]} ∪ seen) (<[id := all_true keys]> out) owners ids'
      else split_owners viewer keys ({[id]} ∪ seen) out (owners ++ [id]) ids'
  end.

Definition load_if {A} (b : bool) (l : FactsM (gmap Z A)) : FactsM (gmap Z A) :=
  if b then l else mret ∅.

Definition load_chats_if (s : Service C) (ids viewers : list Z) : FactsM (gmap membershipKey bool) :=
  if bool_decide (ids = []) then mret ∅ else loadMembershipFacts (read_models s) ids viewers.

Definition CanSeeBatch s (order : list (privacyStoreKey * PrivacyRules)) (now : Z)
    (ownerUserIDs : list Z) (viewerUserID : Z) (keys : list PrivacyKey)
    : FactsM (gmap Z visibility) :=
  if (viewerUserID =? 0) || bool_decide (ownerUserIDs = []) || bool_decide (keys = []) then mret ∅
  else if negb (forallb ValidKey keys) then lift (ERR ErrPrivacyKeyInvalid)
  else
    let '(out, owners) := split_owners viewerUserID keys ∅ ∅ [] ownerUserIDs in
    if bool_decide (owners = []) then mret out
    else
      let m := index_rules (ListPrivacyRules order owners keys) in
      let needs := needs_for m owners keys in
      let reverse := contact_GetReverse (contacts s) viewerUserID owners in
      load_if (viewerBase needs) (loadViewerFacts (read_models s) [viewerUserID]) ≫= λ baseFacts,
      load_chats_if s (chatIDs needs) [viewerUserID] ≫= λ membershipFacts,
      mret (fill (λ owner,
            evaluate_pair m now owner viewerUserID (reverse !! owner) baseFacts (chatIDs needs)
              membershipFacts keys) owners out).

Definition CanContactForFreeBatch s (order : list (privacyStoreKey * PrivacyRules)) (now : Z)
    (ownerUserIDs : list Z) (viewerUserID : Z) : FactsM (gmap Z bool) :=
  let owners := dedupNonZero ownerUserIDs in
  if (viewerUserID =? 0) || bool_decide (owners = []) then mret ∅
  else
    CanSeeBatch s order now owners viewerUserID [PrivacyKeyNoPaidMessages] ≫= λ vis,
    let known := contact_GetReverse (contacts s) viewerUserID owners in
    mret (fill (λ owner,
          (owner =? viewerUserID) || bool_decide (is_Some (known !! owner))
          || default false (vis !! owner ≫= (.!! PrivacyKeyNoPaidMessages))) owners ∅).

Definition ViewerIsPremium_now s (now viewerUserID : Z) : FactsM bool :=
  if viewerUserID =? 0 then mret false
  else
    loadViewerFacts (read_models s) [viewerUserID] ≫= λ facts,
    let fact := default no_facts (facts !! viewerUserID) in
    mret (Found fact && negb (facts_Bot fact) && (now <? facts_PremiumUntil fact)).

Definition CanSeeMatrix s (order : list (privacyStoreKey * PrivacyRules)) (now : Z)
    (ownerUserIDs viewerUserIDs : list Z) (keys : list PrivacyKey)
    : FactsM (gmap Z (gmap Z visibility)) :=
  if bool_decide (ownerUserIDs = []) || bool_decide (viewerUserIDs = []) || bool_decide (keys = [])
  then mret ∅
  else if negb (forallb ValidKey keys) then lift (ERR ErrPrivacyKeyInvalid)
  else
    let owners := dedupNonZero ownerUserIDs in
    let viewers := dedupNonZero viewerUserIDs in
    if bool_decide (owners = []) || bool_decide (viewers = []) then mret ∅
    else
      let m := index_rules (ListPrivacyRules order owners keys) in
      let needs := needs_for m owners keys in
      load_if (viewerBase needs) (loadViewerFacts (read_models s) viewers) ≫= λ baseFacts,
      load_chats_if s (chatIDs needs) viewers ≫= λ membershipFacts,
      let contactsByOwner :=
        (λ proj, proj (contacts s) (fill (λ _, viewers) owners ∅)) <$> contact_Projection in
      mret (fill (λ owner,
            let ownerContacts :=
              match contactsByOwner with
              | Some batch => default ∅ (batch !! owner)
              | None => contact_GetMany (contacts s) owner viewers
              end in
            fill (λ viewer,
              if owner =? viewer then all_true keys
              else evaluate_pair m now owner viewer (ownerContacts !! viewer) baseFacts
                     (chatIDs needs) membershipFacts keys) viewers ∅) owners ∅).

(** ** Sparse visibility *)

(** One viewer of the request map: it is appended to each of its owners, once. *)
Definition add_viewer (st : gmap Z (list Z) * gset Z) (entry : Z * list Z) : gmap Z (list Z) * gset Z :=
  let '(viewerID, ownerIDs) := entry in
  if viewerID =? 0 then st
  else
    fold_left (λ '(viewersByOwner, viewerSet) ownerID,
      (<[ownerID := default [] (viewersByOwner !! ownerID) ++ [viewerID]]> viewersByOwner,
       {[viewerID]} ∪ viewerSet)) (dedupNonZero ownerIDs) st.

Record sparseNeeds := {
  needsByOwner : gmap Z evaluationNeeds;
  needsViewerFacts : bool;
  membershipPairCount : Z;
}.

Definition needsOf (n : sparseNeeds) (owner : Z) : evaluationNeeds :=
  default no_needs (needsByOwner n !! owner).

(** The loop that adds up what each owner's rules need, and stops when the
    pairs to be loaded exceed the limit. *)
Fixpoint sparse_needs (m : rulesByOwner) (viewersByOwner : gmap Z (list Z)) (keys : list PrivacyKey)
    (n : sparseNeeds) (owners : list Z) : res privacy_error sparseNeeds :=
  match owners with
  | [] => OK n
  | ownerID :: owners' =>
      let needs := needs_for m [ownerID] keys in
      let viewerCount := Z.of_nat (length (default [] (viewersByOwner !! ownerID))) in
      let chatCount := Z.of_nat (length (chatIDs needs)) in
      if negb (activeChannelMembershipPairsAllowed (membershipPairCount n) chatCount viewerCount)
      then ERR ErrActiveChannelMemberPairsLimit
      else sparse_needs m viewersByOwner keys
             {| needsByOwner := <[ownerID := needs]> (needsByOwner n);
                needsViewerFacts := needsViewerFacts n || viewerBase needs;
                membershipPairCount := membershipPairCount n + chatCount * viewerCount |} owners'
  end.

(** [owners] and [viewers] are the orders in which the map of owners and the
    set of viewers are visited. *)
Definition CanSeeForViewerUserIDs s (order : list (privacyStoreKey * PrivacyRules))
    (ownersOrder : gmap Z (list Z) → list Z) (viewersOrder : gset Z → list Z) (now : Z)
    (ownerUserIDsByViewer : list (Z * list Z)) (keys : list PrivacyKey)
    (contactsByOwner : option (gmap Z (gmap Z Contact)))
    : FactsM (gmap Z (gmap Z visibility)) :=
  if bool_decide (ownerUserIDsByViewer = []) || bool_decide (keys = []) then mret ∅
  else if negb (forallb ValidKey keys) then lift (ERR ErrPrivacyKeyInvalid)
  else
    let '(viewersByOwner, viewerSet) := fold_left add_viewer ownerUserIDsByViewer (∅, ∅) in
    if bool_decide (viewersByOwner = ∅) then mret ∅
    else
      lift match contactsByOwner, contact_Projection with
           | Some rows, _ => OK rows
           | None, Some proj => OK (proj (contacts s) viewersByOwner)
           | None, None => ERR ErrSparseUnsupported
           end ≫= λ rows,
      let owners := ownersOrder viewersByOwner in
      let viewersOf owner := default [] (viewersByOwner !! owner) in
      let m := index_rules (ListPrivacyRules order owners keys) in
      lift (sparse_needs m viewersByOwner keys
        {| needsByOwner := ∅; needsViewerFacts := false; membershipPairCount := 0 |} owners) ≫= λ n,
      let membershipKeys :=
        owners ≫= λ owner, chatIDs (needsOf n owner) ≫= λ chatID, pair chatID <$> viewersOf owner in
      load_if (needsViewerFacts n) (loadViewerFacts (read_models s) (viewersOrder viewerSet)) ≫= λ baseFacts,
      loadMembershipFactsForKeys (read_models s) membershipKeys ≫= λ membershipFacts,
      mret (fill (λ owner,
            fill (λ viewer,
              if owner =? viewer then all_true keys
              else evaluate_pair m now owner viewer (default ∅ (rows !! owner) !! viewer) baseFacts
                     (chatIDs (needsOf n owner)) membershipFacts keys) (viewersOf owner) ∅) owners ∅).
End service.
