(* ===== verification/PrivacyInv.v ===== *)
(** Privacy: lemmas about rule evaluation, the loading of facts and the
    indexing of rules, and the evaluation contexts they lead to. *)

From S2P Require Import Prelude Programs Cache CacheInv CacheLoad CacheAlone Contacts Privacy.

Open Scope Z_scope.

(** * Loops over lists *)

Lemma fill_lookup `{Countable K} {V} (f : K → V) ks (m : gmap K V) k :
  fill f ks m !! k = if decide (k ∈ ks) then Some (f k) else m !! k.
Proof.
  unfold fill. revert m. induction ks as [|k' ks IH]; intros m; cbn [fold_left];
    [by rewrite decide_False by set_solver|].
  rewrite IH. destruct (decide (k ∈ ks)) as [Hk|Hk]; [by rewrite decide_True by set_solver|].
  destruct (decide (k = k')) as [->|Hne].
  - rewrite lookup_insert_eq. by rewrite decide_True by set_solver.
  - rewrite lookup_insert_ne by done. by rewrite decide_False by set_solver.
Qed.

Lemma fill_is_Some `{Countable K} {V} (f : K → V) ks k : is_Some (fill f ks ∅ !! k) ↔ k ∈ ks.
Proof.
  rewrite fill_lookup. destruct (decide (k ∈ ks)) as [|Hk]; [done|].
  rewrite lookup_empty. split; [intros [? [=]] | done].
Qed.

Lemma elem_of_dedup_from seen ids id :
  (id ∈ dedup_from seen ids) ↔ (id ≠ 0 ∧ (id ∉ seen) ∧ id ∈ ids).
Proof.
  revert seen. induction ids as [|x ids IH]; intros seen; simpl; [set_solver|].
  destruct (Z.eqb_spec x 0) as [->|Hx]; simpl; [rewrite IH; set_solver|].
  case_bool_decide as Hs; [rewrite IH; set_solver|]. rewrite elem_of_cons, IH.
  destruct (decide (id = x)) as [->|]; set_solver.
Qed.

Lemma elem_of_dedupNonZero ids id : id ∈ dedupNonZero ids ↔ id ≠ 0 ∧ id ∈ ids.
Proof. unfold dedupNonZero. rewrite elem_of_dedup_from. set_solver. Qed.

Lemma NoDup_dedup_from seen ids : NoDup (dedup_from seen ids).
Proof.
  revert seen. induction ids as [|x ids IH]; intros seen; simpl; [constructor|].
  destruct (_ || _); [done|]. constructor; [|done]. rewrite elem_of_dedup_from. set_solver.
Qed.

Lemma dedupNonZero_subset_length ids1 ids2 :
  (∀ x, x ∈ ids1 → x ∈ ids2) → (length (dedupNonZero ids1) ≤ length (dedupNonZero ids2))%nat.
Proof.
  intros Hsub. apply submseteq_length, NoDup_submseteq; [apply NoDup_dedup_from|].
  intros x. rewrite !elem_of_dedupNonZero. naive_solver.
Qed.

(** * What rules need *)

Definition chat_kind (kind : PrivacyRuleKind) : Prop :=
  kind = PrivacyRuleAllowChatParticipants ∨ kind = PrivacyRuleDisallowChatParticipants.

Definition base_kind (kind : PrivacyRuleKind) : Prop :=
  kind = PrivacyRuleAllowPremium ∨ kind = PrivacyRuleAllowBots ∨ kind = PrivacyRuleDisallowBots.

Definition seen_ok (st : gset Z * list Z) : Prop := ∀ x, x ∈ st.1 ↔ x ∈ st.2.

Lemma need_chats_spec cs st :
  seen_ok st → seen_ok (fold_left need_chat cs st)
  ∧ ∀ x, x ∈ (fold_left need_chat cs st).2 ↔ x ∈ st.2 ∨ (0 < x ∧ x ∈ cs).
Proof.
  revert st. induction cs as [|c cs IH]; intros [seen ids] Hok; simpl; [set_solver|].
  unfold seen_ok in *. simpl in *. destruct (Z.leb_spec c 0) as [Hc|Hc].
  - destruct (IH (seen, ids) Hok) as [H1 H2]. split; [done|]. intros x. rewrite H2.
    rewrite elem_of_cons. simpl. destruct (decide (x = c)) as [->|]; [|tauto]. intuition lia.
  - case_bool_decide as Hs.
    + destruct (IH (seen, ids) Hok) as [H1 H2]. split; [done|]. intros x. rewrite H2.
      rewrite elem_of_cons. simpl. apply Hok in Hs. intuition congruence.
    + destruct (IH ({[c]} ∪ seen, ids ++ [c])) as [H1 H2]; [set_solver|]. split; [done|].
      intros x. rewrite H2. simpl. rewrite elem_of_cons, elem_of_app, list_elem_of_singleton.
      intuition (subst; auto).
Qed.

Lemma need_rules_spec rs st :
  seen_ok st.2 →
  ((fold_left need_rule rs st).1 = true ↔ st.1 = true ∨ ∃ r, r ∈ rs ∧ base_kind (Kind r))
  ∧ ∀ x, x ∈ (fold_left need_rule rs st).2.2 ↔
      x ∈ st.2.2 ∨ (0 < x ∧ ∃ r, r ∈ rs ∧ chat_kind (Kind r) ∧ x ∈ ChatIDs r).
Proof.
  revert st. induction rs as [|r rs IH]; intros st Hok; simpl; [set_solver|].
  assert (seen_ok (need_rule st r).2) as Hok'.
  { unfold need_rule. destruct (Kind r); try done; by apply need_chats_spec. }
  destruct (IH _ Hok') as [Hb Hc]. rewrite Hb. setoid_rewrite Hc. setoid_rewrite elem_of_cons. clear IH Hb Hc.
  assert ((need_rule st r).1 = true ↔ st.1 = true ∨ base_kind (Kind r)) as ->.
  { unfold need_rule, base_kind. destruct (Kind r); simpl; intuition congruence. }
  assert (∀ x, x ∈ (need_rule st r).2.2 ↔ x ∈ st.2.2 ∨ (0 < x ∧ chat_kind (Kind r) ∧ x ∈ ChatIDs r)) as Hx.
  { intros x. unfold need_rule, chat_kind. pose proof (need_chats_spec (ChatIDs r) st.2 Hok) as [_ Hs].
    destruct (Kind r); simpl; rewrite ?Hs; intuition congruence. }
  setoid_rewrite Hx. split; [|intros x]; naive_solver.
Qed.

Lemma needs_base r : viewerBase (needsForRules r) = true ↔ ∃ rule, rule ∈ Rules r ∧ base_kind (Kind rule).
Proof.
  unfold needsForRules. cbn [viewerBase].
  rewrite (proj1 (need_rules_spec (Rules r) (false, (∅, [])) ltac:(unfold seen_ok; set_solver))). naive_solver.
Qed.

Lemma needs_chats r x :
  x ∈ chatIDs (needsForRules r) ↔ 0 < x ∧ ∃ rule, rule ∈ Rules r ∧ chat_kind (Kind rule) ∧ x ∈ ChatIDs rule.
Proof.
  unfold needsForRules. cbn [chatIDs].
  rewrite (proj2 (need_rules_spec (Rules r) (false, (∅, [])) ltac:(unfold seen_ok; set_solver))). simpl.
  set_solver.
Qed.

Lemma merge_chats_spec cs st x :
  seen_ok st → x ∈ (fold_left merge_chat cs st).2 ↔ x ∈ st.2 ∨ x ∈ cs.
Proof.
  revert st. induction cs as [|c cs IH]; intros [seen ids] Hok; simpl; [set_solver|].
  unfold seen_ok in *. simpl in *. case_bool_decide as Hs; rewrite IH by set_solver; simpl.
  - rewrite elem_of_cons. apply Hok in Hs. intuition congruence.
  - rewrite elem_of_cons, elem_of_app, list_elem_of_singleton. tauto.
Qed.

Lemma mergeNeeds_base dst src : viewerBase (mergeNeeds dst src) = viewerBase dst || viewerBase src.
Proof. unfold mergeNeeds. case_bool_decide; simpl; destruct (viewerBase src), (viewerBase dst); done. Qed.

Lemma mergeNeeds_chats dst src x :
  x ∈ chatIDs (mergeNeeds dst src) ↔ x ∈ chatIDs dst ∨ x ∈ chatIDs src.
Proof.
  unfold mergeNeeds. case_bool_decide as He; cbn [chatIDs]; [rewrite He; set_solver|].
  rewrite merge_chats_spec; [done|]. unfold seen_ok. set_solver.
Qed.

Section needs_for.
Context (m : gmap Z (gmap PrivacyKey PrivacyRules)).

Lemma needs_keys owner keys n :
  let n' := fold_left (λ needs key, mergeNeeds needs (needsForRules (rules_for m owner key))) keys n in
  (viewerBase n' = true ↔ viewerBase n = true ∨ ∃ k, k ∈ keys ∧ viewerBase (needsForRules (rules_for m owner k)) = true)
  ∧ ∀ x, x ∈ chatIDs n' ↔ x ∈ chatIDs n ∨ ∃ k, k ∈ keys ∧ x ∈ chatIDs (needsForRules (rules_for m owner k)).
Proof.
  revert n. induction keys as [|k keys IH]; intros n; simpl; [set_solver|].
  destruct (IH (mergeNeeds n (needsForRules (rules_for m owner k)))) as [Hb Hc].
  rewrite Hb. setoid_rewrite Hc. setoid_rewrite elem_of_cons.
  setoid_rewrite mergeNeeds_chats. rewrite mergeNeeds_base, orb_true_iff.
  split; [|intros x]; naive_solver.
Qed.

Lemma exists_cons {A B} (P : A → B → Prop) o os (ks : list B) :
  (∃ x k, (x ∈ o :: os) ∧ k ∈ ks ∧ P x k)
  ↔ (∃ k, k ∈ ks ∧ P o k) ∨ (∃ x k, x ∈ os ∧ k ∈ ks ∧ P x k).
Proof.
  setoid_rewrite elem_of_cons. split.
  - intros (x & k & [->|Hx] & Hk & HP); [left; eauto | right; eauto].
  - intros [(k & Hk & HP)|(x & k & Hx & Hk & HP)]; eauto 6.
Qed.

Lemma needs_for_from owners keys n :
  let n' := fold_left (λ needs owner,
    fold_left (λ needs key, mergeNeeds needs (needsForRules (rules_for m owner key))) keys needs) owners n in
  (viewerBase n' = true ↔ viewerBase n = true
     ∨ ∃ o k, o ∈ owners ∧ k ∈ keys ∧ viewerBase (needsForRules (rules_for m o k)) = true)
  ∧ ∀ x, x ∈ chatIDs n' ↔ x ∈ chatIDs n
     ∨ ∃ o k, o ∈ owners ∧ k ∈ keys ∧ x ∈ chatIDs (needsForRules (rules_for m o k)).
Proof.
  revert n. induction owners as [|o owners IH]; intros n; simpl; [set_solver|].
  destruct (needs_keys o keys n) as [Hb Hc].
  destruct (IH (fold_left (λ needs key, mergeNeeds needs (needsForRules (rules_for m o key))) keys n)) as [Hb' Hc'].
  split.
  - rewrite Hb', Hb, (exists_cons (λ o k, viewerBase (needsForRules (rules_for m o k)) = true)). tauto.
  - intros x. rewrite Hc', Hc, (exists_cons (λ o k, x ∈ chatIDs (needsForRules (rules_for m o k)))). tauto.
Qed.

Lemma needs_for_base owners keys o k :
  o ∈ owners → k ∈ keys → viewerBase (needsForRules (rules_for m o k)) = true →
  viewerBase (needs_for m owners keys) = true.
Proof. intros Ho Hk Hb. apply (needs_for_from owners keys no_needs). right. eauto. Qed.

Lemma needs_for_chats owners keys x :
  x ∈ chatIDs (needs_for m owners keys)
  ↔ ∃ o k, o ∈ owners ∧ k ∈ keys ∧ x ∈ chatIDs (needsForRules (rules_for m o k)).
Proof.
  destruct (needs_for_from owners keys no_needs) as [_ Hc]. unfold needs_for. rewrite Hc. simpl. set_solver.
Qed.

Lemma needs_for_positive owners keys x : x ∈ chatIDs (needs_for m owners keys) → 0 < x.
Proof. rewrite needs_for_chats. intros (o & k & _ & _ & Hx). by apply needs_chats in Hx as [? _]. Qed.
End needs_for.

(** * Rules by owner and key *)

(** Every row of the store is filed under its own owner and key, which
    [SetPrivacyRules] ensures. *)
Definition rules_keyed (s : PrivacyStore) : Prop :=
  ∀ o k r, s !! (o, k) = Some r → OwnerUserID r = o ∧ Key r = k.

Lemma rules_keyed_empty : rules_keyed ∅.
Proof. intros o k r. by rewrite lookup_empty. Qed.

Lemma SetPrivacyRules_keyed (r : PrivacyRules) (s : PrivacyStore) : rules_keyed s → rules_keyed (SetPrivacyRules r s).
Proof.
  intros Hs o k r'. unfold SetPrivacyRules.
  intros [[[= <- <-] <-]|[_ Hl]]%lookup_insert_Some; [done|]. by apply Hs.
Qed.

Lemma index_rules_lookup l o k :
  ValidKey k = true →
  match index_rules l !! o ≫= (.!! k) with
  | Some r => ∃ r0, r0 ∈ l ∧ OwnerUserID r0 = o ∧ Key r0 = k ∧ r = normal_rules r0
  | None => ∀ r0, r0 ∈ l → OwnerUserID r0 = o → Key r0 ≠ k
  end.
Proof.
  intros Hk. unfold index_rules.
  induction l as [|r l IH] using rev_ind;
    [cbn [fold_left]; rewrite lookup_empty; intros r0 Hr0; by apply elem_of_nil in Hr0|].
  rewrite fold_left_app. simpl. revert IH. generalize (fold_left index_rule l ∅). intros m IH.
  assert (match m !! o ≫= (.!! k) with
          | Some r' => ∃ r0, r0 ∈ l ++ [r] ∧ OwnerUserID r0 = o ∧ Key r0 = k ∧ r' = normal_rules r0
          | None => (OwnerUserID r = o → Key r ≠ k) →
              ∀ r0, r0 ∈ l ++ [r] → OwnerUserID r0 = o → Key r0 ≠ k
          end) as IH'.
  { destruct (m !! o ≫= (.!! k)) as [r'|].
    - destruct IH as (r0 & Hin & Hr0). exists r0. split; [|done]. apply elem_of_app. by left.
    - intros Hr r0 [Hin| ->%list_elem_of_singleton]%elem_of_app; [by apply IH | done]. }
  clear IH. unfold index_rule. destruct (ValidKey (Key r)) eqn:Hv; simpl.
  - destruct (decide (OwnerUserID r = o)) as [<-|Ho].
    + rewrite lookup_insert_eq. simpl. destruct (decide (Key r = k)) as [<-|Hne].
      * rewrite lookup_insert_eq. exists r. rewrite elem_of_app, list_elem_of_singleton. auto.
      * rewrite lookup_insert_ne by done.
        replace (default ∅ (m !! OwnerUserID r) !! k) with (m !! OwnerUserID r ≫= (.!! k))
          by (destruct (m !! OwnerUserID r); done).
        destruct (m !! OwnerUserID r ≫= (.!! k)); [done | by apply IH'].
    + rewrite lookup_insert_ne by done. destruct (m !! o ≫= (.!! k)); [done | by apply IH'].
  - destruct (m !! o ≫= (.!! k)); [done|]. apply IH'. congruence.
Qed.

Lemma elem_of_ListPrivacyRules (s : PrivacyStore) order owners keys r :
  order ≡ₚ map_to_list s →
  (r ∈ ListPrivacyRules order owners keys)
  ↔ ∃ o k, o ∈ owners ∧ k ∈ keys ∧ s !! (o, k) = Some r.
Proof.
  intros Hord. unfold ListPrivacyRules.
  destruct (decide (owners = [])) as [->|Ho]; [simpl; set_solver|].
  destruct (decide (keys = [])) as [->|Hk]; [rewrite orb_true_r; set_solver|].
  rewrite !bool_decide_false by done. simpl. rewrite list_elem_of_fmap.
  assert (∀ e, e ∈ order ↔ s !! e.1 = Some e.2) as He.
  { intros [[o k] r']. rewrite Hord. apply elem_of_map_to_list. }
  split.
  - intros ([[o k] r'] & -> & Hin). apply elem_of_filter_bool in Hin as [Hb Hin].
    apply andb_true_iff in Hb as [H1%bool_decide_eq_true H2%bool_decide_eq_true].
    apply He in Hin. simpl in *. exists o, k. set_solver.
  - intros (o & k & Hoin & Hkin & Hl). exists ((o, k), r). split; [done|]. apply elem_of_filter_bool.
    split; [|by apply He]. rewrite !bool_decide_true by set_solver. done.
Qed.

Lemma rules_for_GetRules {C} (s : Service C) order owners keys o k :
  rules_keyed (rules s) → order ≡ₚ map_to_list (rules s) →
  o ∈ owners → k ∈ keys → ValidKey k = true →
  GetRules s o k = OK (rules_for (index_rules (ListPrivacyRules order owners keys)) o k).
Proof.
  intros Hkeyed Hord Ho Hk Hv. unfold GetRules, rules_for. rewrite Hv. simpl. unfold GetPrivacyRules.
  pose proof (index_rules_lookup (ListPrivacyRules order owners keys) o k Hv) as Hi.
  destruct (_ ≫= _) as [r|] eqn:Hr; simpl.
  - destruct Hi as (r0 & Hin & <- & <- & ->). apply (elem_of_ListPrivacyRules (rules s)) in Hin as (o' & k' & _ & _ & Hl); [|done].
    destruct (Hkeyed _ _ _ Hl) as [-> ->]. rewrite Hl. f_equal. unfold normal_rules. simpl.
    by destruct (Hkeyed _ _ _ Hl) as [-> ->].
  - destruct (rules s !! (o, k)) as [r|] eqn:Hl; [|done].
    destruct (Hkeyed _ _ _ Hl) as [H1 H2]. destruct (Hi r); [|done..].
    apply (elem_of_ListPrivacyRules (rules s)); eauto.
Qed.

Lemma GetRules_nonempty {C} (s : Service C) o k r : GetRules s o k = OK r → Rules r ≠ [].
Proof.
  assert (∀ key, DefaultPrivacyRules key ≠ []) as Hd.
  { intros key. unfold DefaultPrivacyRules. by repeat case_decide. }
  unfold GetRules. destruct (ValidKey k); simpl; [|done].
  destruct (GetPrivacyRules _ _ _) as [r0|]; intros [= <-]; simpl; [|apply Hd].
  case_decide; [apply Hd | done].
Qed.

(** * Loading facts *)

(** The providers answer from one view of users and memberships: every answer
    about a requested id or pair is what the view says. *)
Class ReadModelsOk (m : ReadModels) := {
  user_view : Z → option BaseUser;
  member_view : Z → Z → bool;
  users_nil : PrivacyBaseUsers m = None → ∀ id, user_view id = None;
  users_law load ids users :
    PrivacyBaseUsers m = Some load → load ids = Some users →
    (∀ u, u ∈ users → user_ID u ≠ 0 → user_view (user_ID u) = Some u)
    ∧ ∀ id u, id ∈ ids → user_view id = Some u → user_ID u = id ∧ u ∈ users;
  members_nil : FilterActiveChannelMemberPairs m = None → ∀ c u, member_view c u = false;
  members_law load request active c u :
    FilterActiveChannelMemberPairs m = Some load → load request = Some active →
    u ∈ default [] (request !! c) →
    (u ∈ default [] (active !! c)) ↔ member_view c u = true;
}.

Lemma fold_const_lookup `{Countable K} {V} (v : V) ks (m : gmap K V) k :
  fold_left (λ m k, <[k := v]> m) ks m !! k = if decide (k ∈ ks) then Some v else m !! k.
Proof. apply (fill_lookup (λ _, v)). Qed.

Lemma fold_users_lookup (users : list BaseUser) (out : gmap Z viewerFacts) id :
  let out' := fold_left (λ out user,
    if user_ID user =? 0 then out else <[user_ID user := facts_of_user user]> out) users out in
  (out' !! id = out !! id ∧ ∀ u, u ∈ users → user_ID u = id → id = 0)
  ∨ (id ≠ 0 ∧ ∃ u, u ∈ users ∧ user_ID u = id ∧ out' !! id = Some (facts_of_user u)).
Proof.
  revert out. induction users as [|u users IH]; intros out; simpl; [left; set_solver|].
  destruct (IH (if user_ID u =? 0 then out else <[user_ID u:=facts_of_user u]> out))
    as [[Hl Hno]|(Hid & u' & Hin & Heq & Hl)]; [|right; set_solver].
  rewrite Hl. destruct (Z.eqb_spec (user_ID u) 0) as [H0|H0].
  - left. split; [done|]. intros u'. rewrite elem_of_cons. intros [->|Hu']; [congruence | by apply Hno].
  - destruct (decide (user_ID u = id)) as [<-|Hne].
    + right. split; [done|]. exists u. rewrite lookup_insert_eq. set_solver.
    + left. split; [by rewrite lookup_insert_ne|]. intros u'. rewrite elem_of_cons.
      intros [->|Hu']; [done | by apply Hno].
Qed.

Definition fact_view `{ReadModelsOk m} (id : Z) : viewerFacts :=
  from_option facts_of_user no_facts (user_view id).

(** No load fails. *)
Definition models_answer (m : ReadModels) : Prop :=
  (∀ load ids, PrivacyBaseUsers m = Some load → is_Some (load ids))
  ∧ ∀ load req, FilterActiveChannelMemberPairs m = Some load → is_Some (load req).

(** A request whose load failed. *)
Definition load_failed (m : ReadModels) (e : privacy_error) : Prop := e = LoadError ∧ ¬ models_answer m.

(** ** Requests

    The caches are fresh when every entry is what the read models say.  A
    request [gives Q] or fails with [F] when it does so from all fresh caches,
    and leaves them fresh. *)
Section requests.
Context (m : ReadModels) `{Hm : !ReadModelsOk m}.

Definition caches_fresh (fc : FactCaches) : Prop :=
  (∀ c, viewerFactsCache fc = Some c → cache_all (λ id facts, facts = fact_view id) c)
  ∧ ∀ c, membershipFactsCache fc = Some c → cache_all (λ key b, b = member_view key.1 key.2) c.

Definition gives {A} (p : FactsM A) (Q : A → Prop) (F : privacy_error → Prop) : Prop :=
  ∀ fc, caches_fresh fc →
    caches_fresh (p fc).2 ∧ match (p fc).1 with OK a => Q a | ERR e => F e end.

Lemma gives_ret {A} (a : A) (Q : A → Prop) F : Q a → gives (mret a) Q F.
Proof. by intros HQ fc Hfc. Qed.

Lemma gives_lift {A} (r : res privacy_error A) (Q : A → Prop) F :
  match r with OK a => Q a | ERR e => F e end → gives (lift r) Q F.
Proof. by intros HQ fc Hfc. Qed.

Lemma gives_bind {A B} (p : FactsM A) (k : A → FactsM B) P Q F :
  gives p P F → (∀ a, P a → gives (k a) Q F) → gives (p ≫= k) Q F.
Proof.
  intros Hp Hk fc Hfc. specialize (Hp fc Hfc). unfold mbind, FactsM_bind.
  destruct (p fc) as [[a|e] fc']; cbn [fst snd] in *; [|done]. destruct Hp as [Hc HP]. exact (Hk a HP fc' Hc).
Qed.

Lemma gives_mono {A} (p : FactsM A) (P Q : A → Prop) (F G : privacy_error → Prop) :
  gives p P F → (∀ a, P a → Q a) → (∀ e, F e → G e) → gives p Q G.
Proof.
  intros Hp HQ HG fc Hfc. destruct (Hp fc Hfc) as [Hc Hr]. split; [done|].
  destruct (p fc).1; auto.
Qed.

(** Writes of the caches. *)
Lemma cache_all_drops {K V} `{Countable K} (P : K → V → Prop) (f : Cache K V → Cache K V) c :
  invalidates f → cache_all P c → cache_all P (f c).
Proof. intros Hf Hc k ent Hk. eapply Hc, lookup_weaken; [done | apply Hf]. Qed.

Lemma new_caches_fresh now : caches_fresh (new_caches now).
Proof.
  split; intros c Hc; (assert (items c = ∅) as He by (injection Hc as <-; reflexivity));
    intros k ent; by rewrite He, lookup_empty.
Qed.

Lemma InvalidateViewerFacts_fresh ids fc : caches_fresh fc → caches_fresh (InvalidateViewerFacts ids fc).
Proof.
  intros [H1 H2]. split; [|done]. intros c (c0 & Hc & ->)%fmap_Some.
  apply (cache_all_drops _ (Invalidate _)); [apply Invalidate_invalidates | by apply H1].
Qed.

Lemma InvalidateMembership_fresh channelID userID fc :
  caches_fresh fc → caches_fresh (InvalidateMembership channelID userID fc).
Proof.
  intros [H1 H2]. unfold InvalidateMembership. destruct (_ || _); [done|]. split; [done|].
  intros c (c0 & Hc & ->)%fmap_Some.
  apply (cache_all_drops _ (Invalidate _)); [apply Invalidate_invalidates | by apply H2].
Qed.

Lemma InvalidateChannelMemberships_fresh order channelID fc :
  caches_fresh fc → caches_fresh (InvalidateChannelMemberships order channelID fc).
Proof.
  intros [H1 H2]. unfold InvalidateChannelMemberships. destruct (_ =? _); [done|]. split; [done|].
  intros c (c0 & Hc & ->)%fmap_Some.
  apply (cache_all_drops _ (InvalidateWhere _ order)); [apply InvalidateWhere_invalidates | by apply H2].
Qed.

Lemma flushFactCaches_fresh fc : caches_fresh fc → caches_fresh (flushFactCaches fc).
Proof.
  intros [H1 H2]. split; intros c (c0 & Hc & ->)%fmap_Some k ent; cbn; by rewrite lookup_empty.
Qed.
End requests.

(** After a change of the database and its invalidation the caches are fresh
    for the new facts. *)
Lemma InvalidateViewerFacts_refreshes m m' `{!ReadModelsOk m, !ReadModelsOk m'} ids fc :
  (∀ id, id ∉ dedupNonZero ids → fact_view (m := m') id = fact_view (m := m) id) →
  (∀ c u, member_view (m := m') c u = member_view (m := m) c u) →
  caches_fresh m fc → caches_fresh m' (InvalidateViewerFacts ids fc).
Proof.
  intros Hf Hm [H1 H2]. split.
  - intros c (c0 & Hc & ->)%fmap_Some id ent Hid.
    rewrite Hf.
    + eapply (H1 c0 Hc), lookup_weaken; [exact Hid | apply Invalidate_invalidates].
    + intros Hin. destruct (Invalidate_removes (V := viewerFacts) (dedupNonZero ids) c0 id Hin). congruence.
  - intros c Hc key ent Hkey. rewrite Hm. by eapply H2.
Qed.

Section facts.
Context (m : ReadModels) `{Hm : !ReadModelsOk m}.

Lemma load_users_lookup ids facts id :
  load_users m ids = OK facts → id ∈ ids → id ≠ 0 → default no_facts (facts !! id) = fact_view id.
Proof.
  unfold load_users, fact_view. intros Hl Hin Hid.
  destruct (PrivacyBaseUsers m) as [load|] eqn:Hp.
  - destruct (load ids) as [users|] eqn:Hu; simpl in Hl; [|done]. injection Hl as <-.
    destruct (users_law load ids users Hp Hu) as [H1 H2].
    destruct (fold_users_lookup users (fold_left (λ out id, <[id:=no_facts]> out) ids ∅) id)
      as [[-> Hno]|(_ & u & Huin & Heq & ->)].
    + rewrite fold_const_lookup, decide_True by done. simpl.
      destruct (user_view id) as [u|] eqn:Hv; [|done]. destruct (H2 id u Hin Hv) as [Heq Huin].
      by destruct (Hno u Huin Heq).
    + simpl. subst id. by rewrite (H1 u Huin Hid).
  - injection Hl as <-. rewrite fold_const_lookup, decide_True by done.
    by rewrite (users_nil Hp).
Qed.

Lemma load_users_answers ids :
  match load_users m ids with
  | OK facts => ∀ id, id ∈ ids → is_Some (facts !! id)
  | ERR e => load_failed m e
  end.
Proof.
  unfold load_users. destruct (PrivacyBaseUsers m) as [load|] eqn:Hp.
  - destruct (load ids) as [users|] eqn:Hu; cbn.
    + intros id Hin. destruct (fold_users_lookup users (fold_left (λ out id, <[id:=no_facts]> out) ids ∅) id)
        as [[-> _]|(_ & u & _ & _ & ->)]; [|done]. by rewrite fold_const_lookup, decide_True.
    + split; [done|]. intros [Ha _]. destruct (Ha load ids Hp). congruence.
  - intros id Hin. by rewrite fold_const_lookup, decide_True.
Qed.

Lemma loadViewerFacts_gives ids :
  gives m (loadViewerFacts m ids)
    (λ facts, ∀ id, id ∈ ids → id ≠ 0 → default no_facts (facts !! id) = fact_view id) (load_failed m).
Proof.
  intros fc Hfc. unfold loadViewerFacts. case_bool_decide as Hd.
  { split; [done|]. cbn. intros id Hin Hid.
    assert (id ∈ dedupNonZero ids) as Hdd by by apply elem_of_dedupNonZero. rewrite Hd in Hdd. set_solver. }
  assert (∀ id, id ∈ ids → id ≠ 0 → id ∈ dedupNonZero ids) as Hin by (intros; by apply elem_of_dedupNonZero).
  destruct (viewerFactsCache fc) as [c|] eqn:Hc; cbn [fst snd].
  - pose proof (GetOrLoadBatch_alone_spec viewerFactsConfig (λ id facts, facts = fact_view id) (clock fc)
      (dedupNonZero ids) (load_users m) c (λ _, eq_refl) (proj1 Hfc c Hc)) as Hspec.
    destruct Hspec as (Hc' & Hok & Herr).
    { intros ks loaded Hks Hl. pose proof (load_users_answers ks) as Ha. rewrite Hl in Ha. split; [done|].
      intros k v Hk Hv. pose proof (load_users_lookup ks loaded k Hl Hk) as Hlk. rewrite Hv in Hlk. apply Hlk.
      by apply Hks, elem_of_dedupNonZero in Hk as []. }
    destruct (GetOrLoadBatch_alone _ _ _ _ _) as [r c'] eqn:Hr. cbn [fst snd] in *. split.
    { split; [|apply Hfc]. by intros ? [= <-]. }
    destruct r as [facts|e].
    + intros id Hid H0. destruct (Hok facts eq_refl) as [Hdom HP].
      destruct (proj2 (Hdom id) (Hin id Hid H0)) as [f Hf]. rewrite Hf. by apply HP.
    + destruct (Herr e eq_refl) as (ks & _ & Hl). pose proof (load_users_answers ks) as Ha. by rewrite Hl in Ha.
  - split; [done|]. pose proof (load_users_answers (dedupNonZero ids)) as Ha.
    destruct (load_users m (dedupNonZero ids)) as [facts|e] eqn:Hl; [|done].
    intros id Hid H0. eapply load_users_lookup; eauto.
Qed.

Lemma group_keys_elem (keys : list membershipKey) (byChat : gmap Z (list Z)) c u :
  (u ∈ default [] (fold_left group_key keys byChat !! c)) ↔ (u ∈ default [] (byChat !! c)) ∨ (c, u) ∈ keys.
Proof.
  revert byChat. induction keys as [|[c' u'] keys IH]; intros byChat; simpl; [set_solver|].
  rewrite IH. unfold group_key. simpl. destruct (decide (c' = c)) as [->|Hne].
  - rewrite lookup_insert_eq. simpl. set_solver.
  - rewrite lookup_insert_ne by done. set_solver.
Qed.

Lemma elem_of_pairs active c u : (c, u) ∈ pairs_of active ↔ u ∈ default [] (active !! c).
Proof.
  unfold pairs_of. rewrite list_elem_of_bind. split.
  - intros ([c' us] & Hin & Hl). apply list_elem_of_fmap in Hin as (u' & [= <- <-] & Hu).
    apply elem_of_map_to_list in Hl. by rewrite Hl.
  - destruct (active !! c) as [us|] eqn:Hl; simpl; [|set_solver]. intros Hu.
    exists (c, us). split; [by apply list_elem_of_fmap_2 | by apply elem_of_map_to_list].
Qed.

Lemma mark_active_lookup (pairs : list membershipKey) (out : gmap membershipKey bool) key :
  fold_left mark_active pairs out !! key = (λ b, b || bool_decide (key ∈ pairs)) <$> out !! key.
Proof.
  revert out. induction pairs as [|p pairs IH]; intros out; cbn [fold_left].
  - rewrite bool_decide_false by set_solver. destruct (out !! key) as [b|]; simpl; [by rewrite orb_false_r | done].
  - rewrite IH. unfold mark_active.
    destruct (bool_decide_reflect (is_Some (out !! p))) as [Hp|Hp].
    + destruct (decide (p = key)) as [->|Hne].
      * rewrite lookup_insert_eq. destruct Hp as [b ->]. simpl.
        rewrite (bool_decide_true (key ∈ key :: pairs)) by set_solver. by rewrite orb_true_r.
      * rewrite lookup_insert_ne by done. destruct (out !! key); simpl; [|done].
        do 2 f_equal. apply bool_decide_ext. set_solver.
    + destruct (out !! key) eqn:Hk; simpl; [|done]. do 2 f_equal. apply bool_decide_ext.
      rewrite elem_of_cons. split; [auto|]. intros [->|]; [|done]. by rewrite Hk in Hp; destruct Hp.
Qed.

Lemma load_memberships_lookup keys facts key :
  load_memberships m keys = OK facts →
  default false (facts !! key) = bool_decide (key ∈ keys) && member_view key.1 key.2.
Proof.
  unfold load_memberships. intros Hl.
  destruct (FilterActiveChannelMemberPairs m) as [load|] eqn:Hp.
  - destruct (load _) as [active|] eqn:Hu; simpl in Hl; [|done]. injection Hl as <-.
    rewrite mark_active_lookup, fold_const_lookup, lookup_empty. case_decide as Hin; simpl.
    + rewrite (bool_decide_true (key ∈ keys)) by done. simpl. destruct key as [c u]. simpl.
      pose proof (members_law load _ active c u Hp Hu) as Hlaw. rewrite group_keys_elem in Hlaw.
      specialize (Hlaw (or_intror Hin)). rewrite <- elem_of_pairs in Hlaw.
      case_bool_decide as Hb; [symmetry; by apply Hlaw|].
      destruct (member_view c u); [|done]. by destruct Hb; apply Hlaw.
    + by rewrite bool_decide_false.
  - injection Hl as <-. rewrite fold_const_lookup, lookup_empty. rewrite (members_nil Hp), andb_false_r.
    by case_decide.
Qed.

Lemma dedup_keys_elem seen keys input l :
  (∀ k, k ∈ seen ↔ k ∈ keys) → dedup_keys seen keys input = OK l →
  ∀ k, k ∈ l ↔ k ∈ keys ∨ (k ∈ input ∧ k.1 ≠ 0 ∧ k.2 ≠ 0).
Proof.
  revert seen keys. induction input as [|key input IH]; intros seen keys Hseen Hd k; simpl in Hd.
  - injection Hd as ->. set_solver.
  - rewrite elem_of_cons. destruct (Z.eqb_spec key.1 0) as [H1|H1]; simpl in Hd.
    { rewrite (IH _ _ Hseen Hd). intuition congruence. }
    destruct (Z.eqb_spec key.2 0) as [H2|H2]; simpl in Hd.
    { rewrite (IH _ _ Hseen Hd). intuition congruence. }
    case_bool_decide as Hs.
    { rewrite (IH _ _ Hseen Hd). apply Hseen in Hs. intuition congruence. }
    destruct (_ <=? _); [done|]. rewrite (IH ({[key]} ∪ seen) (keys ++ [key]) ltac:(set_solver) Hd).
    rewrite elem_of_app, list_elem_of_singleton. intuition congruence.
Qed.

Lemma load_memberships_answers keys :
  match load_memberships m keys with
  | OK facts => ∀ key, key ∈ keys → is_Some (facts !! key)
  | ERR e => load_failed m e
  end.
Proof.
  unfold load_memberships. destruct (FilterActiveChannelMemberPairs m) as [load|] eqn:Hp.
  - destruct (load _) as [active|] eqn:Hu; cbn.
    + intros key Hin. rewrite mark_active_lookup, fold_const_lookup, decide_True by done. done.
    + split; [done|]. intros [_ Ha]. destruct (Ha load (fold_left group_key keys ∅) Hp). congruence.
  - intros key Hin. by rewrite fold_const_lookup, decide_True.
Qed.

Lemma load_keys_gives keys :
  gives m (load_keys m keys)
    (λ facts, ∀ key, key ∈ keys → default false (facts !! key) = member_view key.1 key.2) (load_failed m).
Proof.
  assert (match load_memberships m keys with
    | OK facts => ∀ key, key ∈ keys → default false (facts !! key) = member_view key.1 key.2
    | ERR e => load_failed m e end) as Hdirect.
  { pose proof (load_memberships_answers keys) as Ha.
    destruct (load_memberships m keys) as [facts|e] eqn:Hl; [|done].
    intros key Hin. by rewrite (load_memberships_lookup _ _ _ Hl), bool_decide_true. }
  intros fc Hfc. unfold load_keys. case_bool_decide as Hd; [split; [done|]; subst; cbn; set_solver|].
  destruct (membershipFactsCache fc) as [c|] eqn:Hc; cbn [fst snd]; [|done].
  destruct (_ <? _); [done|].
  pose proof (GetOrLoadBatch_alone_spec membershipConfig (λ key b, b = member_view key.1 key.2) (clock fc)
    keys (load_memberships m) c (λ _, eq_refl) (proj2 Hfc c Hc)) as Hspec.
  destruct Hspec as (Hc' & Hok & Herr).
  { intros ks loaded _ Hl. pose proof (load_memberships_answers ks) as Ha. rewrite Hl in Ha. split; [done|].
    intros k v Hk Hv. pose proof (load_memberships_lookup ks loaded k Hl) as Hlk.
    by rewrite Hv, bool_decide_true in Hlk. }
  destruct (GetOrLoadBatch_alone _ _ _ _ _) as [r c'] eqn:Hr. cbn [fst snd] in *. split.
  { split; [apply Hfc|]. by intros ? [= <-]. }
  destruct r as [facts|e].
  - intros key Hin. destruct (Hok facts eq_refl) as [Hdom HP].
    destruct (proj2 (Hdom key) Hin) as [b Hb]. rewrite Hb. by apply HP.
  - destruct (Herr e eq_refl) as (ks & _ & Hl). pose proof (load_memberships_answers ks) as Ha. by rewrite Hl in Ha.
Qed.

(** ** Limits *)

Lemma pairs_allowed current chats users :
  0 ≤ current ≤ MaxActiveChannelMemberPairs → 0 ≤ chats → 0 ≤ users →
  activeChannelMembershipPairsAllowed current chats users = true
  ↔ current + chats * users ≤ MaxActiveChannelMemberPairs.
Proof.
  intros Hc Hch Hu. unfold activeChannelMembershipPairsAllowed.
  rewrite !(proj2 (Z.ltb_ge _ _)) by lia. simpl.
  destruct (Z.eqb_spec chats 0) as [->|Hch0]; simpl; [split; [lia | done]|].
  destruct (Z.eqb_spec users 0) as [->|Hu0]; simpl; [split; [lia | done]|].
  rewrite Z.leb_le. split; intros Hle.
  - pose proof (Z.mul_div_le (MaxActiveChannelMemberPairs - current) users ltac:(lia)). nia.
  - apply Z.div_le_lower_bound; lia.
Qed.

Lemma dedup_keys_OK seen keys input :
  Z.of_nat (length keys) + Z.of_nat (length input) ≤ MaxActiveChannelMemberPairs →
  ∃ l, dedup_keys seen keys input = OK l.
Proof.
  revert seen keys. induction input as [|key input IH]; intros seen keys Hle; simpl in *; [eauto|].
  destruct (_ || _); [apply IH; lia|]. case_bool_decide; [apply IH; lia|].
  rewrite (proj2 (Z.leb_gt _ _)) by lia. apply IH. rewrite length_app. simpl. lia.
Qed.

Lemma dedup_keys_error seen keys input e :
  dedup_keys seen keys input = ERR e → e = ErrActiveChannelMemberPairsLimit.
Proof.
  revert seen keys. induction input as [|key input IH]; intros seen keys; simpl; [done|].
  destruct (_ || _); [apply IH|]. case_bool_decide; [apply IH|]. destruct (_ <=? _); [congruence | apply IH].
Qed.

(** Too many pairs were asked for. *)
Definition over_limit (n : Z) (e : privacy_error) : Prop :=
  e = ErrActiveChannelMemberPairsLimit ∧ MaxActiveChannelMemberPairs < n.

Lemma loadMembershipFactsForKeys_gives input :
  gives m (loadMembershipFactsForKeys m input)
    (λ facts, ∀ c u, (c, u) ∈ input → c ≠ 0 → u ≠ 0 → default false (facts !! (c, u)) = member_view c u)
    (λ e, load_failed m e ∨ over_limit (Z.of_nat (length input)) e).
Proof.
  eapply gives_bind; [apply (gives_lift _ _ (λ keys, dedup_keys ∅ [] input = OK keys))|].
  - destruct (dedup_keys ∅ [] input) as [keys|e] eqn:Hd; [done|]. right.
    split; [by eapply dedup_keys_error|]. apply Z.nle_gt. intros Hle.
    destruct (dedup_keys_OK ∅ [] input) as [keys Hk]; [simpl; lia | congruence].
  - intros keys Hd. eapply gives_mono; [apply load_keys_gives| |by left].
    intros facts Hf c u Hin Hc Hu. apply (Hf (c, u)).
    apply (dedup_keys_elem ∅ [] input keys ltac:(set_solver) Hd). auto.
Qed.

Lemma length_pairs (chats viewers : list Z) :
  length (chats ≫= λ chatID, pair chatID <$> viewers) = (length chats * length viewers)%nat.
Proof.
  induction chats as [|c chats IH]; csimpl; [done|]. rewrite length_app, IH, length_fmap. done.
Qed.

Lemma loadMembershipFacts_gives chats viewers :
  let n := Z.of_nat (length (dedupNonZero chats)) * Z.of_nat (length (dedupNonZero viewers)) in
  gives m (loadMembershipFacts m chats viewers)
    (λ facts, n ≤ MaxActiveChannelMemberPairs
       ∧ ∀ c u, c ∈ chats → u ∈ viewers → c ≠ 0 → u ≠ 0 → default false (facts !! (c, u)) = member_view c u)
    (λ e, load_failed m e ∨ over_limit n e).
Proof.
  intros n. unfold loadMembershipFacts.
  assert (∀ l x, x ∈ l → x ≠ 0 → x ∈ dedupNonZero l) as Hin by (intros; by apply elem_of_dedupNonZero).
  destruct (decide (dedupNonZero chats = [])) as [Hc|Hc].
  { rewrite Hc. apply gives_ret. split; [unfold n; rewrite Hc; done|].
    intros c u Hcin _ Hc0 _. specialize (Hin chats c Hcin Hc0). rewrite Hc in Hin. set_solver. }
  destruct (decide (dedupNonZero viewers = [])) as [Hv|Hv].
  { rewrite Hv, orb_true_r. apply gives_ret. split; [unfold n; rewrite Hv; cbn [length]; by rewrite Z.mul_0_r|].
    intros c u _ Hu _ Hu0. specialize (Hin viewers u Hu Hu0). rewrite Hv in Hin. set_solver. }
  rewrite !bool_decide_false by done. cbn [orb].
  pose proof (pairs_allowed 0 (Z.of_nat (length (dedupNonZero chats)))
    (Z.of_nat (length (dedupNonZero viewers))) ltac:(done) ltac:(lia) ltac:(lia)) as Ha.
  fold n in Ha. destruct (activeChannelMembershipPairsAllowed _ _ _); cbn [negb].
  - assert (n ≤ MaxActiveChannelMemberPairs) as Hn by (apply Ha; done).
    eapply gives_mono; [apply loadMembershipFactsForKeys_gives| |].
    + intros facts Hf. split; [done|]. intros c u Hcin Hu Hc0 Hu0. apply Hf; [|done..].
      apply list_elem_of_bind. exists c. split; [apply list_elem_of_fmap_2|]; auto.
    + intros e [?|[-> Hlim]]; [by left|]. right. split; [done|]. by rewrite length_pairs, Nat2Z.inj_mul in Hlim.
  - apply gives_lift. right. split; [done|]. apply Z.nle_gt. intros Hle. by apply Ha in Hle.
Qed.
End facts.

(** * Evaluation contexts *)

Lemma intersects_true a b : intersects a b = true ↔ ∃ id, id ∈ a ∧ id ∈ b.
Proof.
  unfold intersects.
  destruct (decide (a = [])) as [->|Ha]; [simpl; set_solver|].
  destruct (decide (b = [])) as [->|Hb]; [rewrite orb_true_r; set_solver|].
  rewrite !bool_decide_false by done. simpl. rewrite existsb_exists.
  setoid_rewrite <- list_elem_of_In. setoid_rewrite bool_decide_eq_true. set_solver.
Qed.

Section contexts.
Context {C : Type} `{ContactSource C}.
Context (s : Service C) `{Hm : !ReadModelsOk (read_models s)} (now : Z).

(** A context that states the facts about a viewer which a rule set needs. *)
Record right_context (o v : Z) (r : PrivacyRules) (ctx : PrivacyContext) : Prop := {
  rc_owner : ctx_OwnerUserID ctx = o;
  rc_viewer : ctx_ViewerUserID ctx = v;
  rc_contact : ViewerIsContact ctx = bool_decide (is_Some (contact_Get (contacts s) o v));
  rc_close : ViewerCloseFriend ctx = default false (CloseFriend <$> contact_Get (contacts s) o v);
  rc_base : viewerBase (needsForRules r) = true →
    ViewerIsBot ctx = facts_Bot (fact_view v)
    ∧ ViewerIsPremium ctx = negb (facts_Bot (fact_view v)) && (now <? facts_PremiumUntil (fact_view v)) && Found (fact_view v);
  rc_shared : ∀ c, c ∈ chatIDs (needsForRules r) → (c ∈ SharedChatIDs ctx) ↔ member_view c v = true;
  rc_positive : ∀ c, c ∈ SharedChatIDs ctx → 0 < c;
}.

Lemma shared_agree o v r ctx1 ctx2 rule :
  right_context o v r ctx1 → right_context o v r ctx2 → rule ∈ Rules r → chat_kind (Kind rule) →
  intersects (ChatIDs rule) (SharedChatIDs ctx1) = intersects (ChatIDs rule) (SharedChatIDs ctx2).
Proof.
  intros R1 R2 Hin Hk. apply eq_true_iff_eq. rewrite !intersects_true.
  assert (∀ ctx ctx', right_context o v r ctx → right_context o v r ctx' →
    ∀ c, c ∈ ChatIDs rule → c ∈ SharedChatIDs ctx → c ∈ SharedChatIDs ctx') as Hsub.
  { intros ctx ctx' R R' c Hc Hs. assert (c ∈ chatIDs (needsForRules r)) as Hn.
    { apply needs_chats. split; [by apply (rc_positive _ _ _ _ R) | eauto]. }
    apply (rc_shared _ _ _ _ R'); [done|]. by apply (rc_shared _ _ _ _ R). }
  split; intros (c & Hc & Hs); exists c; eauto.
Qed.

Lemma base_agree o v r ctx1 ctx2 rule :
  right_context o v r ctx1 → right_context o v r ctx2 → rule ∈ Rules r → base_kind (Kind rule) →
  ViewerIsBot ctx1 = ViewerIsBot ctx2 ∧ ViewerIsPremium ctx1 = ViewerIsPremium ctx2.
Proof.
  intros R1 R2 Hin Hk. assert (viewerBase (needsForRules r) = true) as Hb by (apply needs_base; eauto).
  destruct (rc_base _ _ _ _ R1 Hb) as [-> ->]. by destruct (rc_base _ _ _ _ R2 Hb) as [-> ->].
Qed.

Lemma existsb_ext' {A} (f g : A → bool) l : (∀ x, x ∈ l → f x = g x) → existsb f l = existsb g l.
Proof.
  induction l as [|x l IH]; intros Hfg; simpl; [done|]. rewrite (Hfg x) by set_solver.
  f_equal. apply IH. set_solver.
Qed.

Lemma contacts_pass_ext rs ctx1 ctx2 :
  ViewerIsContact ctx1 = ViewerIsContact ctx2 → contacts_pass rs ctx1 = contacts_pass rs ctx2.
Proof. intros Hc. induction rs as [|rule rs IH]; simpl; [done|]. by rewrite Hc, IH. Qed.

Lemma Evaluate_right o v r ctx1 ctx2 :
  Rules r ≠ [] → right_context o v r ctx1 → right_context o v r ctx2 →
  Evaluate r ctx1 = Evaluate r ctx2.
Proof.
  intros Hr R1 R2. unfold Evaluate, EvaluatePrivacy. rewrite decide_False by done.
  rewrite (rc_owner _ _ _ _ R1), (rc_owner _ _ _ _ R2), (rc_viewer _ _ _ _ R1), (rc_viewer _ _ _ _ R2).
  destruct (_ && _); [done|].
  assert (∀ rule, rule ∈ Rules r →
    explicitDisallowMatches rule ctx1 = explicitDisallowMatches rule ctx2
    ∧ explicitAllowMatches rule ctx1 = explicitAllowMatches rule ctx2) as Hrule.
  { intros rule Hin. pose proof (shared_agree _ _ _ _ _ rule R1 R2 Hin) as Hs.
    pose proof (base_agree _ _ _ _ _ rule R1 R2 Hin) as Hb.
    unfold explicitDisallowMatches, explicitAllowMatches, chat_kind, base_kind in *.
    rewrite (rc_viewer _ _ _ _ R1), (rc_viewer _ _ _ _ R2), (rc_close _ _ _ _ R1), (rc_close _ _ _ _ R2).
    destruct (Kind rule); naive_solver. }
  rewrite (existsb_ext' _ (λ rule, explicitDisallowMatches rule ctx2)) by (intros; by apply Hrule).
  rewrite (existsb_ext' (λ rule, explicitAllowMatches rule ctx1) (λ rule, explicitAllowMatches rule ctx2))
    by (intros; by apply Hrule).
  rewrite (contacts_pass_ext _ ctx1 ctx2); [done|].
  by rewrite (rc_contact _ _ _ _ R1), (rc_contact _ _ _ _ R2).
Qed.

(** The context every visibility routine builds. *)
Lemma built_context o v r contact facts cs ms :
  same_contact contact (contact_Get (contacts s) o v) →
  (viewerBase (needsForRules r) = true → facts = fact_view v) →
  (∀ c, c ∈ chatIDs (needsForRules r) → c ∈ cs) →
  (∀ c, c ∈ cs → 0 < c ∧ default false (ms !! (c, v)) = member_view c v) →
  right_context o v r (applyMembershipFacts cs ms (applyViewerFacts facts now (contact_context o v contact))).
Proof.
  intros Hc Hf Hcs Hms.
  assert (∀ ctx c, (c ∈ SharedChatIDs (applyMembershipFacts cs ms ctx)) ↔
    (c ∈ SharedChatIDs ctx) ∨ (default false (ms !! (c, ctx_ViewerUserID ctx)) = true ∧ c ∈ cs)) as Hsh.
  { intros ctx c. cbn [SharedChatIDs applyMembershipFacts]. by rewrite elem_of_app, elem_of_filter_bool. }
  assert (∀ f, ctx_ViewerUserID (applyViewerFacts f now (contact_context o v contact)) = v
    ∧ SharedChatIDs (applyViewerFacts f now (contact_context o v contact)) = []) as Hap.
  { intros f. unfold applyViewerFacts. by destruct (negb _). }
  destruct (Hap facts) as [Hv Hs].
  split; try (unfold applyMembershipFacts, applyViewerFacts; destruct (negb (Found facts)); done).
  - unfold applyMembershipFacts, applyViewerFacts.
    assert (is_Some contact ↔ is_Some (contact_Get (contacts s) o v)) as Hi.
    { unfold same_contact in Hc. rewrite <- (fmap_is_Some CloseFriend contact), Hc. apply fmap_is_Some. }
    destruct (negb (Found facts)); simpl; by apply bool_decide_ext.
  - unfold applyMembershipFacts, applyViewerFacts. unfold same_contact in Hc. rewrite <- Hc.
    by destruct (negb (Found facts)).
  - intros Hb. rewrite <- (Hf Hb). unfold applyMembershipFacts, applyViewerFacts.
    destruct (Found facts) eqn:Hfound; simpl; [by rewrite andb_true_r|].
    rewrite andb_false_r. assert (facts = no_facts) as ->; [|done].
    rewrite (Hf Hb) in Hfound |- *. unfold fact_view in *. by destruct (user_view v).
  - intros c Hc'. rewrite Hsh, Hv, Hs. specialize (Hcs c Hc'). destruct (Hms c Hcs) as [_ ->]. set_solver.
  - intros c. rewrite Hsh, Hs. intros [Hin|[_ Hin]]; [set_solver|]. by apply Hms.
Qed.
End contexts.
