(* ===== verification/PrivacyVis.v ===== *)
(** Privacy: every batch routine answers each pair as [CanSee] does. *)

From S2P Require Import Prelude Programs Cache CacheInv CacheLoad CacheAlone Contacts Privacy PrivacyInv.

Open Scope Z_scope.

#[local] Set Warnings "-notation-for-abbreviation".

Section visibility.
Context {C : Type} `{HL : ContactSourceLaws C ok}.
Context (s : Service C) `{Hm : !ReadModelsOk (read_models s)} (now : Z).
Context (order : list (privacyStoreKey * PrivacyRules)).
Context (Hkeyed : rules_keyed (rules s)) (Hok : ok (contacts s)).
Context (Hord : order ≡ₚ map_to_list (rules s)).

Notation gives := (gives (read_models s)).
Notation load_failed := (load_failed (read_models s)).

(** The single-pair check answers [b] from all fresh caches, unless a load of
    its own fails; an answer [a] of a batch agrees with it. *)
Definition sees (o v : Z) (k : PrivacyKey) (b : bool) : Prop :=
  gives (CanSee s now o v k) (λ b', b' = b) load_failed.
Definition agrees (o v : Z) (k : PrivacyKey) (a : option bool) : Prop := ∃ b, a = Some b ∧ sees o v k b.

(** A table that answers the asked triples of owner, viewer and key, each as
    the single-pair check does, and nothing else. *)
Definition answers_exactly (asked : Z → Z → PrivacyKey → Prop) (out : gmap Z (gmap Z visibility)) : Prop :=
  (∀ o v k, asked o v k → agrees o v k ((out !! o ≫= (.!! v)) ≫= (.!! k)))
  ∧ (∀ o, is_Some (out !! o) → ∃ v k, asked o v k)
  ∧ (∀ o v, is_Some (out !! o ≫= (.!! v)) → ∃ k, asked o v k)
  ∧ ∀ o v k, is_Some ((out !! o ≫= (.!! v)) ≫= (.!! k)) → asked o v k.

Lemma with_viewer_facts_gives needs o v contact :
  v ≠ 0 →
  gives (with_viewer_facts s now needs (contact_context o v contact))
    (λ ctx, ∃ facts, ctx = applyViewerFacts facts now (contact_context o v contact)
       ∧ (viewerBase needs = true → facts = fact_view v)) load_failed.
Proof.
  intros Hv. unfold with_viewer_facts. destruct (viewerBase needs); [|apply gives_ret; by exists no_facts].
  eapply gives_bind; [apply loadViewerFacts_gives|]. intros facts Hf. apply gives_ret.
  eexists. split; [done|]. intros _. apply Hf; [by left | done].
Qed.

Lemma with_membership_facts_gives needs ctx v :
  ctx_ViewerUserID ctx = v → v ≠ 0 → SharedChatIDs ctx = [] → (∀ c, c ∈ chatIDs needs → 0 < c) →
  Z.of_nat (length (dedupNonZero (chatIDs needs))) ≤ MaxActiveChannelMemberPairs →
  gives (with_membership_facts s needs ctx)
    (λ ctx', ∃ ms, ctx' = applyMembershipFacts (chatIDs needs) ms ctx
       ∧ ∀ c, c ∈ chatIDs needs → default false (ms !! (c, v)) = member_view c v) load_failed.
Proof.
  intros Hcv Hv Hsh Hpos Hlim. unfold with_membership_facts. rewrite Hcv. case_bool_decide as Hch.
  - apply gives_ret. exists ∅. rewrite Hch. split; [|by intros c Hc%not_elem_of_nil]. unfold applyMembershipFacts. simpl.
    rewrite app_nil_r. by destruct ctx.
  - assert (dedupNonZero [v] = [v]) as Hd.
    { unfold dedupNonZero. simpl. by rewrite (proj2 (Z.eqb_neq _ _) Hv). }
    eapply gives_bind.
    + eapply gives_mono; [apply (loadMembershipFacts_gives _ (chatIDs needs) [v])|intros ms Hms; exact Hms|].
      rewrite Hd. intros e [?|[_ Hn]]; [done|]. exfalso. simpl length in Hn. lia.
    + intros ms [_ Hms]. apply gives_ret. eexists. split; [done|]. intros c Hc. pose proof (Hpos c Hc).
      apply Hms; [done|by left|lia|done].
Qed.

(** What [CanSee] answers for two different users. *)
Lemma CanSee_right o v k r :
  o ≠ 0 → v ≠ 0 → o ≠ v → GetRules s o k = OK r →
  Z.of_nat (length (dedupNonZero (chatIDs (needsForRules r)))) ≤ MaxActiveChannelMemberPairs →
  gives (CanSee s now o v k) (λ b, ∃ ctx, right_context s now o v r ctx ∧ b = Evaluate r ctx) load_failed.
Proof.
  intros Ho Hv Hov Hr Hlim. unfold CanSee.
  rewrite (proj2 (Z.eqb_neq _ _) Ho), (proj2 (Z.eqb_neq _ _) Hv), (proj2 (Z.eqb_neq _ _) Hov), Hr. cbn [orb].
  eapply gives_bind; [by apply (gives_lift _ _ (λ r', r' = r))|]. intros r' ->. cbv zeta.
  eapply gives_bind; [by apply with_viewer_facts_gives|]. intros ctx (facts & -> & Hf).
  assert (∀ c, c ∈ chatIDs (needsForRules r) → 0 < c) as Hpos by (intros c Hc; by apply needs_chats in Hc as [? _]).
  eapply gives_bind; [apply (with_membership_facts_gives _ _ v); try done|].
  1-2: unfold applyViewerFacts; by destruct (negb _).
  intros ctx' (ms & -> & Hms). apply gives_ret. eexists. split; [|done].
  apply built_context; [done|done|done|]. intros c Hc. auto.
Qed.

Section pair.
Context (m : gmap Z (gmap PrivacyKey PrivacyRules)) (keys : list PrivacyKey).
Context (base : gmap Z viewerFacts) (cs : list Z) (ms : gmap membershipKey bool).

(** The batch's answer about one pair. *)
Lemma evaluate_pair_agrees o v k contact :
  GetRules s o k = OK (rules_for m o k) → o ≠ 0 → v ≠ 0 → o ≠ v → k ∈ keys →
  same_contact contact (contact_Get (contacts s) o v) →
  (viewerBase (needsForRules (rules_for m o k)) = true → default no_facts (base !! v) = fact_view v) →
  (∀ c, c ∈ chatIDs (needsForRules (rules_for m o k)) → c ∈ cs) →
  (∀ c, c ∈ cs → 0 < c ∧ default false (ms !! (c, v)) = member_view c v) →
  Z.of_nat (length (dedupNonZero cs)) ≤ MaxActiveChannelMemberPairs →
  agrees o v k (evaluate_pair m now o v contact base cs ms keys !! k).
Proof.
  intros Hr Ho Hv Hov Hk Hc Hb Hcs Hms Hlim. unfold evaluate_pair, agrees.
  rewrite fill_lookup, decide_True by done. eexists. split; [done|].
  eapply gives_mono; [apply (CanSee_right o v k _ Ho Hv Hov Hr)| |done].
  - pose proof (dedupNonZero_subset_length _ _ Hcs). lia.
  - intros b (ctx & Hctx & ->). eapply Evaluate_right; [by eapply GetRules_nonempty | exact Hctx |].
    by apply built_context.
Qed.

Lemma evaluate_pair_keys o v k contact : is_Some (evaluate_pair m now o v contact base cs ms keys !! k) ↔ k ∈ keys.
Proof. apply fill_is_Some. Qed.
End pair.

Lemma self_agrees o k : o ≠ 0 → agrees o o k (Some true).
Proof.
  intros Ho. exists true. split; [done|]. unfold sees, CanSee.
  rewrite (proj2 (Z.eqb_neq _ _) Ho), Z.eqb_refl. by apply gives_ret.
Qed.

Lemma all_true_lookup keys k : k ∈ keys → all_true keys !! k = Some true.
Proof. intros Hk. unfold all_true. by rewrite fill_lookup, decide_True. Qed.

Lemma all_true_keys keys k : is_Some (all_true keys !! k) ↔ k ∈ keys.
Proof. apply fill_is_Some. Qed.

(** ** What the loads of a batch give *)

Lemma load_if_gives b ids :
  gives (load_if b (loadViewerFacts (read_models s) ids))
    (λ facts, ∀ v, v ∈ ids → v ≠ 0 → b = true → default no_facts (facts !! v) = fact_view v) load_failed.
Proof.
  destruct b; [|by apply gives_ret]. eapply gives_mono; [apply loadViewerFacts_gives| |done]. auto.
Qed.

Lemma length_dedup_le (l : list Z) : (length (dedupNonZero l) ≤ length l)%nat.
Proof.
  unfold dedupNonZero. generalize (∅ : gset Z). induction l as [|x l IH]; intros seen; simpl; [lia|].
  destruct (_ || _); simpl; [specialize (IH seen) | specialize (IH ({[x]} ∪ seen))]; lia.
Qed.

Lemma load_chats_if_gives cs viewers l :
  (∀ c, c ∈ cs → c ∈ l) →
  gives (load_chats_if s cs viewers)
    (λ ms, (∀ v, v ∈ viewers → v ≠ 0 → Z.of_nat (length (dedupNonZero cs)) ≤ MaxActiveChannelMemberPairs)
       ∧ ∀ c v, c ∈ cs → v ∈ viewers → c ≠ 0 → v ≠ 0 → default false (ms !! (c, v)) = member_view c v)
    (λ e, load_failed e ∨ over_limit (Z.of_nat (length l) * Z.of_nat (length viewers)) e).
Proof.
  intros Hsub. unfold load_chats_if. case_bool_decide as Hc.
  { apply gives_ret. subst. split; [done | set_solver]. }
  eapply gives_mono; [apply loadMembershipFacts_gives| |].
  - intros ms [Hle Hms]. split; [|done]. intros v Hv Hv0.
    assert (v ∈ dedupNonZero viewers) as Hd by by apply elem_of_dedupNonZero.
    destruct (dedupNonZero viewers); [set_solver|]. simpl length in Hle. lia.
  - intros e [?|[-> Hn]]; [by left|]. right. split; [done|]. eapply Z.lt_le_trans; [exact Hn|].
    pose proof (dedupNonZero_subset_length cs l Hsub).
    pose proof (length_dedup_le l). pose proof (length_dedup_le viewers).
    apply Z.mul_le_mono_nonneg; lia.
Qed.

(** [l] lists every chat that the rules of some owners name. *)
Definition names_chats (ids : list Z) (keys : list PrivacyKey) (l : list Z) : Prop :=
  ∀ o k r c, o ∈ ids → k ∈ keys → GetRules s o k = OK r → c ∈ chatIDs (needsForRules r) → c ∈ l.

Lemma valid_key keys k : forallb ValidKey keys = true → k ∈ keys → ValidKey k = true.
Proof. rewrite forallb_forall. intros Hv Hk. by apply Hv, list_elem_of_In. Qed.

Lemma merged_named owners ids keys l :
  (∀ o, o ∈ owners → o ∈ ids) → forallb ValidKey keys = true → names_chats ids keys l →
  ∀ c, c ∈ chatIDs (needs_for (index_rules (ListPrivacyRules order owners keys)) owners keys) → c ∈ l.
Proof.
  intros Hsub Hv Hn c (o & k & Ho & Hk & Hc)%needs_for_chats. pose proof (valid_key _ _ Hv Hk).
  eapply (Hn o k); [by apply Hsub|done|by apply rules_for_GetRules|done].
Qed.

(** The loads of a batch over merged needs, and the answers made of them. *)
Lemma merged_loads_give {A} (owners ids viewers : list Z) (keys : list PrivacyKey)
    (k : gmap Z viewerFacts → gmap membershipKey bool → FactsM A) (Q : A → Prop) (F : privacy_error → Prop) :
  let m := index_rules (ListPrivacyRules order owners keys) in
  let needs := needs_for m owners keys in
  (∀ o, o ∈ owners → o ∈ ids) → forallb ValidKey keys = true →
  (∀ base ms, (∀ o v key contact, o ≠ 0 → v ≠ 0 → o ≠ v → o ∈ owners → v ∈ viewers → key ∈ keys →
       same_contact contact (contact_Get (contacts s) o v) →
       agrees o v key (evaluate_pair m now o v contact base (chatIDs needs) ms keys !! key)) →
     gives (k base ms) Q F) →
  (∀ e, load_failed e
     ∨ (∀ l, names_chats ids keys l → over_limit (Z.of_nat (length l) * Z.of_nat (length viewers)) e) → F e) →
  gives (load_if (viewerBase needs) (loadViewerFacts (read_models s) viewers) ≫= λ base,
         load_chats_if s (chatIDs needs) viewers ≫= λ ms, k base ms) Q F.
Proof.
  intros m needs Hsub Hvalid Hk HF.
  eapply gives_bind.
  { eapply gives_mono; [apply load_if_gives | intros base Hb; exact Hb | intros e He; apply HF; by left]. }
  intros base Hb. eapply gives_bind.
  { eapply gives_mono; [|intros ms Hms; exact Hms | exact HF]. intros fc Hfc. assert (∀ l, names_chats ids keys l → ∀ c, c ∈ chatIDs needs → c ∈ l) as Hnamed.
    { intros l Hl. by apply (merged_named owners ids). }
    destruct (load_chats_if_gives (chatIDs needs) viewers (chatIDs needs) ltac:(done) fc Hfc) as [Hc Hr].
    split; [done|]. destruct (load_chats_if s (chatIDs needs) viewers fc).1 as [ms|e] eqn:He; [exact Hr|].
    destruct Hr as [?|[-> Hn]]; [by left|]. right. intros l Hl.
    destruct (load_chats_if_gives (chatIDs needs) viewers l (Hnamed l Hl) fc Hfc) as [_ Hr'].
    rewrite He in Hr'. destruct Hr' as [[? _]|?]; [congruence | done]. }
  intros ms [Hlim Hms]. apply Hk.
  intros o v key contact Ho Hv Hov Hoin Hvin Hkey Hc. pose proof (valid_key _ _ Hvalid Hkey).
  apply evaluate_pair_agrees; try done.
  - by apply rules_for_GetRules.
  - intros Hneed. apply Hb; [done|done|]. by eapply needs_for_base.
  - intros c Hneed. apply needs_for_chats. eauto.
  - intros c Hneed. pose proof (needs_for_positive m owners keys c Hneed) as Hpos. split; [done|].
    apply Hms; [done..| lia | done].
  - by eapply Hlim.
Qed.

Lemma split_owners_spec v keys seen out owners ids out' owners' :
  split_owners v keys seen out owners ids = (out', owners') →
  (∀ o, o ∈ owners' ↔ o ∈ owners ∨ (o ∈ ids ∧ o ≠ 0 ∧ (o ∉ seen) ∧ o ≠ v))
  ∧ ∀ o, out' !! o = if decide (o = v ∧ v ≠ 0 ∧ (v ∉ seen) ∧ v ∈ ids) then Some (all_true keys) else out !! o.
Proof.
  revert seen out owners. induction ids as [|id ids IH]; intros seen out owners; cbn [split_owners].
  { intros [= <- <-]. split; [set_solver|]. intros o. by rewrite decide_False by set_solver. }
  destruct (Z.eqb_spec id 0) as [->|H0]; simpl.
  { intros [Ho Hout]%IH. split; intros o; [rewrite Ho; set_solver|]. rewrite Hout.
    apply decide_ext. set_solver. }
  case_bool_decide as Hs; simpl.
  { intros [Ho Hout]%IH. split; intros o; [rewrite Ho; set_solver|]. rewrite Hout.
    apply decide_ext. set_solver. }
  destruct (Z.eqb_spec id v) as [->|Hne]; simpl; intros [Ho Hout]%IH.
  - split; intros o; [rewrite Ho; set_solver|]. rewrite Hout. rewrite decide_False by set_solver.
    destruct (decide (o = v)) as [->|Hov].
    + rewrite lookup_insert_eq. by rewrite decide_True by set_solver.
    + rewrite lookup_insert_ne by done. by rewrite decide_False by naive_solver.
  - split; intros o.
    + rewrite Ho. rewrite elem_of_app, list_elem_of_singleton, elem_of_cons, not_elem_of_union, not_elem_of_singleton.
      destruct (decide (o = id)) as [->|]; tauto.
    + rewrite Hout. apply decide_ext. rewrite not_elem_of_union, not_elem_of_singleton, elem_of_cons.
      intuition congruence.
Qed.

(** How a batch may fail: on keys it does not know, in a load, or on too many
    pairs of chats and [n] viewers. *)
Definition batch_failed (ids : list Z) (n : nat) (keys : list PrivacyKey) (e : privacy_error) : Prop :=
  (e = ErrPrivacyKeyInvalid ∧ forallb ValidKey keys = false)
  ∨ load_failed e
  ∨ ∀ l, names_chats ids keys l → over_limit (Z.of_nat (length l) * Z.of_nat n) e.

(** The batch for one viewer, as a table. *)
Definition for_viewer (v : Z) (out : gmap Z visibility) : gmap Z (gmap Z visibility) :=
  (λ vis, {[v := vis]}) <$> out.

Lemma for_viewer_lookup v out o u : (for_viewer v out !! o ≫= (.!! u)) = if decide (u = v) then out !! o else None.
Proof.
  unfold for_viewer. rewrite lookup_fmap. destruct (out !! o) as [vis|]; cbn; [|by case_decide].
  case_decide as Hu; [subst; apply lookup_singleton_eq | by apply lookup_singleton_ne].
Qed.

Lemma answers_for_viewer v (asked : Z → PrivacyKey → Prop) out :
  (∀ o k, asked o k → agrees o v k (out !! o ≫= (.!! k))) →
  (∀ o, is_Some (out !! o) → ∃ k, asked o k) →
  (∀ o k, is_Some (out !! o ≫= (.!! k)) → asked o k) →
  answers_exactly (λ o u k, u = v ∧ asked o k) (for_viewer v out).
Proof.
  intros H1 H2 H3. split_and!.
  - intros o u k [-> Ha]. rewrite for_viewer_lookup, decide_True by done. by apply H1.
  - intros o Ho. unfold for_viewer in Ho. rewrite lookup_fmap, fmap_is_Some in Ho. destruct (H2 o Ho). eauto.
  - intros o u. rewrite for_viewer_lookup. case_decide as Hu; [|by intros []]. intros Ho. destruct (H2 o Ho). eauto.
  - intros o u k. rewrite for_viewer_lookup. case_decide as Hu; [|by intros []]. auto.
Qed.

Lemma answers_nothing asked : (∀ o v k, ¬ asked o v k) → answers_exactly asked ∅.
Proof.
  intros Ha. split_and!.
  - intros o v k Hk. by destruct (Ha o v k).
  - intros o. rewrite lookup_empty. by intros [].
  - intros o v. rewrite lookup_empty. by intros [].
  - intros o v k. rewrite lookup_empty. by intros [].
Qed.

Lemma CanSeeBatch_gives ids v keys :
  gives (CanSeeBatch s order now ids v keys)
    (λ out, answers_exactly (λ o u k, u = v ∧ v ≠ 0 ∧ o ≠ 0 ∧ o ∈ ids ∧ k ∈ keys) (for_viewer v out))
    (batch_failed ids 1 keys).
Proof.
  unfold CanSeeBatch.
  destruct (Z.eqb_spec v 0) as [->|Hv].
  { apply gives_ret. apply answers_nothing. naive_solver. }
  destruct (bool_decide_reflect (ids = [])) as [->|Hids].
  { apply gives_ret. apply answers_nothing. set_solver. }
  destruct (bool_decide_reflect (keys = [])) as [->|Hkeys].
  { apply gives_ret. apply answers_nothing. set_solver. }
  cbn [orb]. destruct (forallb ValidKey keys) eqn:Hvalid; cbn [negb]; [|apply gives_lift; by left].
  destruct (split_owners v keys ∅ ∅ [] ids) as [out0 owners] eqn:Hs.
  apply split_owners_spec in Hs as [Howners Hout0].
  assert (∃ k, k ∈ keys) as [k0 Hk0] by (destruct keys; [done|]; eexists; by left).
  assert (∀ o, o ∈ ids → o ≠ 0 → o = v → out0 !! o = Some (all_true keys)) as Hself.
  { intros o Hin Ho ->. rewrite Hout0. apply decide_True. set_solver. }
  assert (∀ o vis, out0 !! o = Some vis → o = v ∧ o ∈ ids ∧ o ≠ 0 ∧ vis = all_true keys) as Hshape.
  { intros o vis. rewrite Hout0, lookup_empty.
    destruct (decide (o = v ∧ v ≠ 0 ∧ (v ∉ ∅) ∧ v ∈ ids)); [naive_solver | done]. }
  destruct (bool_decide_reflect (owners = [])) as [->|Hne].
  { apply gives_ret, answers_for_viewer.
    - intros o k (_ & Ho & Hin & Hk). destruct (decide (o = v)) as [->|Hov].
      + rewrite Hself by done. cbn. rewrite all_true_lookup by done. by apply self_agrees.
      + assert (o ∈ []) as Hnil by (apply Howners; set_solver). set_solver.
    - intros o [vis Ho]. apply Hshape in Ho. exists k0. naive_solver.
    - intros o k. destruct (out0 !! o) as [vis|] eqn:Ho; cbn; [|by intros []].
      apply Hshape in Ho as (-> & ? & ? & ->). rewrite all_true_keys. naive_solver. }
  apply (merged_loads_give owners ids [v] keys).
  - intros o Ho. apply Howners in Ho. set_solver.
  - done.
  - intros base ms Hpair. apply gives_ret. apply answers_for_viewer.
    + intros o k (_ & Ho & Hin & Hk). rewrite fill_lookup. destruct (decide (o = v)) as [->|Hov].
      * rewrite decide_False by (rewrite Howners; set_solver). rewrite Hself by done. cbn.
        rewrite all_true_lookup by done. by apply self_agrees.
      * assert (o ∈ owners) as Hoin by (apply Howners; set_solver).
        rewrite decide_True by done. cbn [mbind option_bind].
        apply Hpair; try done; [set_solver|]. by apply contact_GetReverse_law.
    + intros o. rewrite fill_lookup. destruct (decide (o ∈ owners)) as [Hoin|_].
      * intros _. apply Howners in Hoin. exists k0. set_solver.
      * intros [vis Ho]. apply Hshape in Ho. exists k0. naive_solver.
    + intros o k. rewrite fill_lookup. destruct (decide (o ∈ owners)) as [Hoin|_].
      * cbn [mbind option_bind]. rewrite evaluate_pair_keys. apply Howners in Hoin. set_solver.
      * destruct (out0 !! o) as [vis|] eqn:Ho; cbn; [|by intros []].
        apply Hshape in Ho as (-> & ? & ? & ->). rewrite all_true_keys. naive_solver.
  - intros e [?|?]; [right; by left|right; by right].
Qed.

Lemma CanContactForFreeBatch_gives ids v :
  gives (CanContactForFreeBatch s order now ids v)
    (λ out, (∀ o, is_Some (out !! o) ↔ v ≠ 0 ∧ o ≠ 0 ∧ o ∈ ids)
       ∧ ∀ o, v ≠ 0 → o ≠ 0 → o ∈ ids → ∃ b,
           out !! o = Some ((o =? v) || bool_decide (is_Some (contact_Get (contacts s) o v)) || b)
           ∧ sees o v PrivacyKeyNoPaidMessages b)
    (batch_failed ids 1 [PrivacyKeyNoPaidMessages]).
Proof.
  unfold CanContactForFreeBatch.
  assert (∀ o, o ∈ dedupNonZero ids ↔ o ≠ 0 ∧ o ∈ ids) as Hd by (intros; apply elem_of_dedupNonZero).
  destruct (Z.eqb_spec v 0) as [->|Hv].
  { apply gives_ret. split; [|done]. intros o. rewrite lookup_empty. split; [by intros []|]. naive_solver. }
  destruct (bool_decide_reflect (dedupNonZero ids = [])) as [Hnil|_].
  { apply gives_ret. rewrite Hnil in Hd. split; [|set_solver].
    intros o. rewrite lookup_empty. split; [by intros []|]. intros (_ & ? & ?). set_solver. }
  cbn [orb]. eapply gives_bind.
  { eapply gives_mono; [apply CanSeeBatch_gives | intros vis Hvis; exact Hvis|].
    intros e [?|[?|Hl]]; [by left|right; by left|]. right. right. intros l Hn. apply Hl.
    intros o k r c Ho. apply Hn. by apply Hd in Ho as []. }
  intros vis (Hag & _). apply gives_ret. split.
  - intros o. rewrite fill_is_Some, Hd. naive_solver.
  - intros o _ Ho Hin. assert (o ∈ dedupNonZero ids) as Hdo by by apply Hd.
    destruct (Hag o v PrivacyKeyNoPaidMessages) as (b & Hb & Hsee); [set_solver|].
    rewrite for_viewer_lookup, decide_True in Hb by done.
    exists b. split; [|done]. rewrite fill_lookup, decide_True by done. rewrite Hb. simpl. do 3 f_equal.
    pose proof (contact_GetReverse_law (contacts s) v (dedupNonZero ids) o Hok Hv Ho Hdo) as Hc.
    unfold same_contact in Hc. apply bool_decide_ext.
    by rewrite <- (fmap_is_Some CloseFriend), Hc, fmap_is_Some.
Qed.

Lemma CanSeeMatrix_gives ids vs keys :
  gives (CanSeeMatrix s order now ids vs keys)
    (answers_exactly (λ o v k, o ≠ 0 ∧ v ≠ 0 ∧ o ∈ ids ∧ v ∈ vs ∧ k ∈ keys))
    (batch_failed ids (length vs) keys).
Proof.
  unfold CanSeeMatrix.
  destruct (bool_decide_reflect (ids = [])) as [->|_]; [apply gives_ret, answers_nothing; set_solver|].
  destruct (bool_decide_reflect (vs = [])) as [->|_]; [apply gives_ret, answers_nothing; set_solver|].
  destruct (bool_decide_reflect (keys = [])) as [->|Hkeys]; [apply gives_ret, answers_nothing; set_solver|].
  assert (∃ k, k ∈ keys) as [k0 Hk0] by (destruct keys; [done|]; eexists; by left).
  cbn [orb]. destruct (forallb ValidKey keys) eqn:Hvalid; cbn [negb]; [|apply gives_lift; by left].
  assert (∀ l x, x ∈ dedupNonZero l ↔ x ≠ 0 ∧ x ∈ l) as Hd by (intros; apply elem_of_dedupNonZero).
  destruct (bool_decide_reflect (dedupNonZero ids = [])) as [Hnil|_].
  { apply gives_ret, answers_nothing. intros o v k (? & _ & ? & _). pose proof (Hd ids o). rewrite Hnil in *. set_solver. }
  destruct (bool_decide_reflect (dedupNonZero vs = [])) as [Hnil|Hvs].
  { apply gives_ret, answers_nothing. intros o v k (_ & ? & _ & ? & _). pose proof (Hd vs v). rewrite Hnil in *. set_solver. }
  assert (∃ v, v ∈ dedupNonZero vs) as [v0 Hv0] by (destruct (dedupNonZero vs); [done|]; eexists; by left).
  cbn [orb]. apply (merged_loads_give (dedupNonZero ids) ids (dedupNonZero vs) keys).
  - intros o Ho. by apply Hd in Ho as [].
  - done.
  - intros base ms Hpair. apply gives_ret. split_and!.
    + intros o v k (Ho & Hv & Hoin & Hvin & Hk).
      assert (o ∈ dedupNonZero ids) as Hod by by apply Hd. assert (v ∈ dedupNonZero vs) as Hvd by by apply Hd.
      rewrite fill_lookup, decide_True by done. cbn -[evaluate_pair dedupNonZero].
      rewrite fill_lookup, decide_True by done. cbn -[evaluate_pair dedupNonZero].
      destruct (Z.eqb_spec o v) as [->|Hov]; [rewrite all_true_lookup by done; by apply self_agrees|].
      apply Hpair; try done. destruct contact_Projection as [proj|] eqn:Hproj; cbn -[dedupNonZero].
      * apply (contact_Projection_law proj _ _ _ (dedupNonZero vs)); try done.
        by rewrite fill_lookup, decide_True.
      * by apply contact_GetMany_law.
    + intros o [Ho Hin]%fill_is_Some%Hd. apply Hd in Hv0 as []. exists v0, k0. auto.
    + intros o v. rewrite fill_lookup. destruct (decide (o ∈ dedupNonZero ids)) as [Ho|_]; cbn -[evaluate_pair dedupNonZero]; [|by intros []].
      rewrite fill_is_Some. rewrite !Hd in *. exists k0. naive_solver.
    + intros o v k. rewrite fill_lookup. destruct (decide (o ∈ dedupNonZero ids)) as [Ho|_]; cbn -[evaluate_pair dedupNonZero]; [|by intros []].
      rewrite fill_lookup. destruct (decide (v ∈ dedupNonZero vs)) as [Hv|_]; cbn -[evaluate_pair dedupNonZero]; [|by intros []].
      rewrite !Hd in *. destruct (o =? v); [rewrite all_true_keys | rewrite evaluate_pair_keys]; naive_solver.
  - intros e [?|Hl]; [right; by left|]. right. right. intros l Hn. destruct (Hl l Hn) as [-> Hlt].
    split; [done|]. eapply Z.lt_le_trans; [exact Hlt|]. pose proof (length_dedup_le vs).
    apply Z.mul_le_mono_nonneg_l; lia.
Qed.

(** ** The sparse routine *)

Definition add_to_owner (v : Z) (st : gmap Z (list Z) * gset Z) (o : Z) : gmap Z (list Z) * gset Z :=
  (<[o := default [] (st.1 !! o) ++ [v]]> st.1, {[v]} ∪ st.2).

Lemma add_owners_spec v os st :
  let st' := fold_left (add_to_owner v) os st in
  (∀ o u, u ∈ default [] (st'.1 !! o) ↔ (u ∈ default [] (st.1 !! o)) ∨ (u = v ∧ o ∈ os))
  ∧ (∀ o, is_Some (st'.1 !! o) ↔ is_Some (st.1 !! o) ∨ o ∈ os)
  ∧ (∀ u, u ∈ st'.2 ↔ u ∈ st.2 ∨ (u = v ∧ os ≠ [])).
Proof.
  revert st. induction os as [|o os IH]; intros st; cbn [fold_left].
  { split_and!; intros; set_solver. }
  destruct (IH (add_to_owner v st o)) as (H1 & H2 & H3). unfold add_to_owner in *. simpl in *.
  split_and!.
  - intros o' u. rewrite H1. destruct (decide (o' = o)) as [->|Hne].
    + rewrite lookup_insert_eq. simpl. set_solver.
    + rewrite lookup_insert_ne by done. set_solver.
  - intros o'. rewrite H2. rewrite lookup_insert_is_Some'. set_solver.
  - intros u. rewrite H3. set_solver.
Qed.

Lemma add_owners_fold v os st :
  fold_left (λ '(viewersByOwner, viewerSet) ownerID,
    (<[ownerID:=default [] (viewersByOwner !! ownerID) ++ [v]]> viewersByOwner, {[v]} ∪ viewerSet)) os st
  = fold_left (add_to_owner v) os st.
Proof. revert st. induction os as [|o os IH]; intros [vbo vs]; [done|]. simpl. apply IH. Qed.

Lemma add_viewers_spec entries st :
  let st' := fold_left add_viewer entries st in
  (∀ o u, u ∈ default [] (st'.1 !! o) ↔ (u ∈ default [] (st.1 !! o))
     ∨ (u ≠ 0 ∧ o ≠ 0 ∧ ∃ ids, (u, ids) ∈ entries ∧ o ∈ ids))
  ∧ (∀ o, is_Some (st'.1 !! o) ↔ is_Some (st.1 !! o)
     ∨ (o ≠ 0 ∧ ∃ u ids, u ≠ 0 ∧ (u, ids) ∈ entries ∧ o ∈ ids))
  ∧ (∀ u, u ∈ st'.2 ↔ u ∈ st.2 ∨ (u ≠ 0 ∧ ∃ ids o, (u, ids) ∈ entries ∧ o ≠ 0 ∧ o ∈ ids)).
Proof.
  revert st. induction entries as [|[v ids] entries IH]; intros st; cbn [fold_left].
  { split_and!; intros; set_solver. }
  destruct (IH (add_viewer st (v, ids))) as (H1 & H2 & H3). clear IH.
  setoid_rewrite H1. setoid_rewrite H2. setoid_rewrite H3. clear H1 H2 H3.
  assert (let st1 := add_viewer st (v, ids) in
    (∀ o u, u ∈ default [] (st1.1 !! o) ↔ (u ∈ default [] (st.1 !! o)) ∨ (u = v ∧ v ≠ 0 ∧ o ≠ 0 ∧ o ∈ ids))
    ∧ (∀ o, is_Some (st1.1 !! o) ↔ is_Some (st.1 !! o) ∨ (v ≠ 0 ∧ o ≠ 0 ∧ o ∈ ids))
    ∧ (∀ u, u ∈ st1.2 ↔ u ∈ st.2 ∨ (u = v ∧ v ≠ 0 ∧ ∃ o, o ≠ 0 ∧ o ∈ ids))) as Hadd.
  { unfold add_viewer. destruct (Z.eqb_spec v 0) as [->|Hv].
    { simpl. split_and!; intros; tauto. }
    assert (dedupNonZero ids ≠ [] ↔ ∃ o, o ≠ 0 ∧ o ∈ ids) as Hne.
    { setoid_rewrite <- elem_of_dedupNonZero. destruct (dedupNonZero ids); [set_solver|].
      split; [|done]. intros _. eexists. by left. }
    destruct (add_owners_spec v (dedupNonZero ids) st) as (H1 & H2 & H3).
    rewrite add_owners_fold.
    setoid_rewrite elem_of_dedupNonZero in H1. setoid_rewrite elem_of_dedupNonZero in H2.
    split_and!; intros; [rewrite H1; tauto | rewrite H2; tauto | rewrite H3, Hne; tauto]. }
  simpl in Hadd. destruct Hadd as (H1 & H2 & H3).
  setoid_rewrite H1. setoid_rewrite H2. setoid_rewrite H3. setoid_rewrite elem_of_cons.
  split_and!; intros; naive_solver.
Qed.

(** The pairs of owner and viewer. *)
Definition pair_total (vbo : gmap Z (list Z)) : Z := sum_map (λ vs, Z.of_nat (length vs)) vbo.

Lemma add_owners_total v os st :
  pair_total (fold_left (add_to_owner v) os st).1 = pair_total st.1 + Z.of_nat (length os).
Proof.
  revert st. induction os as [|o os IH]; intros st; cbn [fold_left]; [simpl; lia|]. rewrite IH.
  unfold add_to_owner, pair_total. cbn [fst]. rewrite sum_map_insert. cbn [length].
  destruct (st.1 !! o) as [vs|]; cbn [wt default from_option]; rewrite length_app; simpl length; lia.
Qed.

Lemma add_viewers_total entries st :
  pair_total (fold_left add_viewer entries st).1 ≤ pair_total st.1 + Z.of_nat (length (entries ≫= snd)).
Proof.
  revert st. induction entries as [|[v ids] entries IH]; intros st; cbn [fold_left]; [simpl; lia|].
  etrans; [apply IH|]. csimpl. rewrite length_app. unfold add_viewer. destruct (v =? 0); [lia|].
  rewrite add_owners_fold, add_owners_total. pose proof (length_dedup_le ids). lia.
Qed.

Lemma pair_total_owners vbo :
  sumZ ((λ o, Z.of_nat (length (default [] (vbo !! o)))) <$> (map_to_list vbo).*1) = pair_total vbo.
Proof.
  unfold pair_total. induction vbo as [|o vs vbo Ho IH] using map_ind; [by rewrite map_to_list_empty|].
  rewrite sum_map_insert_new by done. rewrite <- IH.
  assert (∀ l l', l ≡ₚ l' → sumZ l = sumZ l') as Hperm.
  { intros l l'. induction 1; cbn [sumZ]; lia. }
  rewrite (Hperm _ ((λ o', Z.of_nat (length (default [] (<[o:=vs]> vbo !! o')))) <$> ((o, vs) :: map_to_list vbo).*1))
    by (by do 2 apply fmap_Permutation; apply map_to_list_insert).
  csimpl. rewrite lookup_insert_eq. cbn [default from_option id]. f_equal. f_equal. apply list_fmap_ext.
  intros i o' Hi. rewrite list_lookup_fmap in Hi. destruct (map_to_list vbo !! i) as [[o1 vs1]|] eqn:Hl; [|done].
  cbn in Hi. injection Hi as <-. apply list_elem_of_lookup_2, elem_of_map_to_list in Hl.
  by rewrite lookup_insert_ne by congruence.
Qed.

Lemma merge_chats_NoDup cs st :
  NoDup st.2 → seen_ok st → NoDup (fold_left merge_chat cs st).2.
Proof.
  revert st. induction cs as [|c cs IH]; intros [seen l] Hn Hs; cbn [fold_left]; [done|].
  apply IH; unfold merge_chat; case_bool_decide as Hc; cbn [fst snd]; try done.
  - apply NoDup_app. split_and!; [done| |apply NoDup_singleton]. intros x Hx ->%list_elem_of_singleton.
    apply Hc. by apply Hs.
  - intros x. cbn. specialize (Hs x). cbn in Hs. set_solver.
Qed.

Lemma mergeNeeds_NoDup dst src : NoDup (chatIDs dst) → NoDup (chatIDs (mergeNeeds dst src)).
Proof.
  intros Hn. unfold mergeNeeds. case_bool_decide; cbn [chatIDs]; [done|].
  apply merge_chats_NoDup; [done|]. intros x. cbn. by rewrite elem_of_list_to_set.
Qed.

Lemma needs_for_NoDup m owners keys : NoDup (chatIDs (needs_for m owners keys)).
Proof.
  unfold needs_for. assert (∀ n, NoDup (chatIDs n) → NoDup (chatIDs (fold_left (λ needs owner,
    fold_left (λ needs key, mergeNeeds needs (needsForRules (rules_for m owner key))) keys needs) owners n))) as Hgen.
  2: { apply Hgen. constructor. }
  induction owners as [|o owners IH]; intros n Hn; cbn [fold_left]; [done|]. apply IH. clear IH.
  revert n Hn. induction keys as [|k keys IHk]; intros n Hn; cbn [fold_left]; [done|].
  apply IHk. by apply mergeNeeds_NoDup.
Qed.

Definition pairs_needed m (vbo : gmap Z (list Z)) keys (o : Z) : Z :=
  Z.of_nat (length (chatIDs (needs_for m [o] keys))) * Z.of_nat (length (default [] (vbo !! o))).

Lemma pairs_needed_nonneg m vbo keys o : 0 ≤ pairs_needed m vbo keys o.
Proof. apply Z.mul_nonneg_nonneg; lia. Qed.

Lemma sparse_needs_spec m vbo keys n owners :
  0 ≤ membershipPairCount n ≤ MaxActiveChannelMemberPairs →
  match sparse_needs m vbo keys n owners with
  | OK n' =>
      (∀ o, o ∈ owners →
         needsOf n' o = needs_for m [o] keys
         ∧ pairs_needed m vbo keys o ≤ MaxActiveChannelMemberPairs
         ∧ (viewerBase (needs_for m [o] keys) = true → needsViewerFacts n' = true))
      ∧ (∀ o, o ∉ owners → needsOf n' o = needsOf n o)
      ∧ (needsViewerFacts n = true → needsViewerFacts n' = true)
      ∧ membershipPairCount n + sumZ (pairs_needed m vbo keys <$> owners) ≤ MaxActiveChannelMemberPairs
  | ERR e => over_limit (membershipPairCount n + sumZ (pairs_needed m vbo keys <$> owners)) e
  end.
Proof.
  revert n. induction owners as [|o owners IH]; intros n Hcount; cbn [sparse_needs].
  { cbn. split_and!; [set_solver | done | done | lia]. }
  set (chats := Z.of_nat (length (chatIDs (needs_for m [o] keys)))) in *.
  set (viewers := Z.of_nat (length (default [] (vbo !! o)))) in *.
  assert (pairs_needed m vbo keys o = chats * viewers) as Hpair by done.
  assert (0 ≤ sumZ (pairs_needed m vbo keys <$> owners)) as Hrest.
  { apply sumZ_nonneg, Forall_fmap, Forall_forall. intros o' _. apply pairs_needed_nonneg. }
  pose proof (pairs_allowed (membershipPairCount n) chats viewers Hcount ltac:(lia) ltac:(lia)) as Hal.
  rewrite fmap_cons, sumZ_cons, Hpair. cbv zeta.
  destruct (activeChannelMembershipPairsAllowed _ _ _); cbn [negb].
  2: { split; [done|]. apply Z.nle_gt. intros Hle. assert (false = true); [|done]. apply Hal. lia. }
  assert (membershipPairCount n + chats * viewers ≤ MaxActiveChannelMemberPairs) as Hle by by apply Hal.
  assert (0 ≤ chats * viewers) by (apply Z.mul_nonneg_nonneg; lia).
  match goal with |- context [sparse_needs m vbo keys ?n1 owners] => specialize (IH n1) end.
  cbn [membershipPairCount] in IH. specialize (IH ltac:(lia)).
  destruct (sparse_needs _ _ _ _ _) as [n'|e].
  2: { destruct IH as [-> Hlt]. split; [done | lia]. }
  destruct IH as (H1 & H2 & H3 & H4). cbn [needsViewerFacts needsByOwner] in H3. split_and!.
  - intros o' Hin. destruct (decide (o' ∈ owners)) as [Ho|Ho]; [by apply H1|].
    assert (o' = o) as -> by set_solver. split_and!.
    + rewrite H2 by done. unfold needsOf. simpl. by rewrite lookup_insert_eq.
    + lia.
    + intros Hb. apply H3. by rewrite Hb, orb_true_r.
  - intros o' Ho'. rewrite H2 by set_solver. unfold needsOf. simpl.
    by rewrite lookup_insert_ne by set_solver.
  - intros Hb. apply H3. by rewrite Hb.
  - lia.
Qed.

(** The rows a caller may hand over: what the store would have said. *)
Definition prefetched (entries : list (Z * list Z)) (rows : option (gmap Z (gmap Z Contact))) : Prop :=
  ∀ rs v ids o, rows = Some rs → (v, ids) ∈ entries → o ∈ ids →
    same_contact (default ∅ (rs !! o) !! v) (contact_Get (contacts s) o v).

(** The keys that the sparse routine loads, and how many they are. *)
Lemma membership_keys_length n m (vbo : gmap Z (list Z)) keys owners :
  (∀ o, o ∈ owners → needsOf n o = needs_for m [o] keys) →
  Z.of_nat (length (owners ≫= λ owner, chatIDs (needsOf n owner) ≫= λ chatID, pair chatID <$> default [] (vbo !! owner)))
    = sumZ (pairs_needed m vbo keys <$> owners).
Proof.
  intros Hn. induction owners as [|o owners IH]; csimpl; [done|]. rewrite length_app, Nat2Z.inj_add, IH by set_solver.
  f_equal. rewrite length_pairs, Nat2Z.inj_mul, Hn by set_solver. done.
Qed.

Lemma pairs_needed_named owners keys l vbo os :
  (∀ o, o ∈ owners → o ∈ os) → forallb ValidKey keys = true → names_chats os keys l →
  sumZ (pairs_needed (index_rules (ListPrivacyRules order owners keys)) vbo keys <$> owners)
    ≤ Z.of_nat (length l) * sumZ ((λ o, Z.of_nat (length (default [] (vbo !! o)))) <$> owners).
Proof.
  intros Hsub Hvalid Hl. set (m := index_rules _).
  assert (∀ os', (∀ o, o ∈ os' → o ∈ owners) → sumZ (pairs_needed m vbo keys <$> os')
    ≤ Z.of_nat (length l) * sumZ ((λ o, Z.of_nat (length (default [] (vbo !! o)))) <$> os')) as Hgen; [|by apply Hgen].
  induction os' as [|o os' IH]; intros Hos; csimpl; [lia|].
  rewrite Z.mul_add_distr_l. apply Z.add_le_mono; [|apply IH; set_solver].
  unfold pairs_needed. apply Z.mul_le_mono_nonneg_r; [lia|].
  enough (length (chatIDs (needs_for m [o] keys)) ≤ length l)%nat by lia.
  apply submseteq_length, NoDup_submseteq; [apply needs_for_NoDup|].
  intros c (o' & k & ->%list_elem_of_singleton & Hk & Hc)%needs_for_chats. pose proof (valid_key _ _ Hvalid Hk).
  eapply (Hl o k); [apply Hsub, Hos; by left|done| |exact Hc].
  apply rules_for_GetRules; try done. apply Hos. by left.
Qed.

(** How the sparse routine may fail besides: when it has no rows and the store
    of contacts has no projection. *)
Definition sparse_failed (entries : list (Z * list Z)) (keys : list PrivacyKey)
    (rows : option (gmap Z (gmap Z Contact))) (e : privacy_error) : Prop :=
  (e = ErrSparseUnsupported ∧ rows = None ∧ contact_Projection (C := C) = None)
  ∨ batch_failed (entries ≫= snd) (length (entries ≫= snd)) keys e.

Lemma CanSeeForViewerUserIDs_gives ownersOrder viewersOrder entries keys rows :
  (∀ vbo, ownersOrder vbo ≡ₚ (map_to_list vbo).*1) → (∀ X, viewersOrder X ≡ₚ elements X) →
  prefetched entries rows →
  gives (CanSeeForViewerUserIDs s order ownersOrder viewersOrder now entries keys rows)
    (answers_exactly (λ o v k, o ≠ 0 ∧ v ≠ 0 ∧ (∃ ids, (v, ids) ∈ entries ∧ o ∈ ids) ∧ k ∈ keys))
    (sparse_failed entries keys rows).
Proof.
  intros Hoo Hvo Hpre. unfold CanSeeForViewerUserIDs.
  destruct (bool_decide_reflect (entries = [])) as [->|_]; [apply gives_ret, answers_nothing; set_solver|].
  destruct (bool_decide_reflect (keys = [])) as [->|Hkeys]; [apply gives_ret, answers_nothing; set_solver|].
  assert (∃ k, k ∈ keys) as [k0 Hk0] by (destruct keys; [done|]; eexists; by left).
  cbn [orb]. destruct (forallb ValidKey keys) eqn:Hvalid; cbn [negb]; [|apply gives_lift; right; by left].
  pose proof (add_viewers_spec entries (∅, ∅)) as Hadd. simpl in Hadd. destruct Hadd as (Hvof & Hown & Hvs).
  pose proof (add_viewers_total entries (∅, ∅)) as Htotal. cbn [fst] in Htotal.
  destruct (fold_left add_viewer entries (∅, ∅)) as [vbo vset]. simpl in Hvof, Hown, Hvs. cbn [fst] in Htotal.
  assert (∀ o v, v ∈ default [] (vbo !! o) ↔ v ≠ 0 ∧ o ≠ 0 ∧ ∃ ids, (v, ids) ∈ entries ∧ o ∈ ids) as Hviewers.
  { intros o v. rewrite Hvof. set_solver. }
  assert (∀ o, o ∈ ownersOrder vbo ↔ is_Some (vbo !! o)) as Hin.
  { intros o. rewrite (Hoo vbo), list_elem_of_fmap. split.
    - intros ([o' vs] & -> & Hl). apply elem_of_map_to_list in Hl. by eexists.
    - intros [vs Hl]. exists (o, vs). split; [done|]. by apply elem_of_map_to_list. }
  destruct (bool_decide_reflect (vbo = ∅)) as [->|_].
  { apply gives_ret, answers_nothing. intros o v k (Ho & Hv & He & _).
    assert (v ∈ default [] ((∅ : gmap Z (list Z)) !! o)) as Hx by (apply Hviewers; auto).
    rewrite lookup_empty in Hx. set_solver. }
  eapply (gives_bind _ _ _ (λ rs, ∀ o v, o ≠ 0 → v ≠ 0 → v ∈ default [] (vbo !! o) →
    same_contact (default ∅ (rs !! o) !! v) (contact_Get (contacts s) o v))).
  { apply gives_lift. destruct rows as [rs|].
    - intros o v Ho Hv (_ & _ & ids & Hent & Hoin)%Hviewers. by eapply Hpre.
    - destruct contact_Projection as [proj|] eqn:Hproj; [|left; auto].
      intros o v Ho Hv Hx. destruct (vbo !! o) as [vs|] eqn:Hvs'; cbn in Hx; [|set_solver].
      by eapply contact_Projection_law. }
  intros rs Hrows. set (owners := ownersOrder vbo) in *. cbv zeta.
  set (m := index_rules (ListPrivacyRules order owners keys)).
  assert (∀ o, o ∈ owners → o ∈ entries ≫= snd) as Hasked.
  { intros o Ho. apply Hin, Hown in Ho as [[? Hx]|(_ & v & ids & _ & He & Ho)]; [by rewrite lookup_empty in Hx|].
    apply list_elem_of_bind. exists (v, ids). auto. }
  assert (∀ l, names_chats (entries ≫= snd) keys l → sumZ (pairs_needed m vbo keys <$> owners)
    ≤ Z.of_nat (length l) * Z.of_nat (length (entries ≫= snd))) as Hbound.
  { intros l Hl. etrans; [by apply (pairs_needed_named owners keys l vbo (entries ≫= snd))|].
    apply Z.mul_le_mono_nonneg_l; [lia|]. unfold owners.
    assert (∀ l l', l ≡ₚ l' → sumZ l = sumZ l') as Hperm by (intros ??; induction 1; cbn [sumZ]; lia).
    rewrite (Hperm _ _ (fmap_Permutation _ _ _ (Hoo vbo))), pair_total_owners.
    unfold pair_total in *. rewrite sum_map_empty in Htotal. lia. }
  pose proof (sparse_needs_spec m vbo keys
    {| needsByOwner := ∅; needsViewerFacts := false; membershipPairCount := 0 |} owners) as Hn.
  cbn [membershipPairCount] in Hn. specialize (Hn ltac:(unfold MaxActiveChannelMemberPairs; lia)).
  destruct (sparse_needs _ _ _ _ _) as [n|e].
  2: { intros fc Hfc. split; [done|]. cbn. right. right. right. intros l Hl. destruct Hn as [-> Hlt].
       split; [done|]. specialize (Hbound l Hl). lia. }
  eapply gives_bind; [by apply (gives_lift _ _ (λ n', n' = n))|]. intros n' ->.
  destruct Hn as (Hneeds & _ & _ & Hcount).
  eapply gives_bind.
  { eapply gives_mono; [apply load_if_gives | intros base Hb; exact Hb | intros e He; right; right; by left]. }
  intros base Hb. eapply gives_bind.
  { eapply gives_mono; [apply loadMembershipFactsForKeys_gives | intros ms Hms; exact Hms |].
    intros e [He|[_ Hlt]]; [right; right; by left|]. exfalso.
    rewrite (membership_keys_length n m vbo keys) in Hlt by (intros; by apply Hneeds). lia. }
  intros ms Hms. apply gives_ret. split_and!.
  - intros o v k (Ho & Hv & He & Hk).
    assert (v ∈ default [] (vbo !! o)) as Hvin by (by apply Hviewers).
    assert (o ∈ owners) as Hoin.
    { apply Hin. destruct (vbo !! o); [by eexists|]. set_solver. }
    destruct (Hneeds o Hoin) as (Hno & Hlim & Hbase).
    rewrite fill_lookup, decide_True by done. cbn -[evaluate_pair].
    rewrite fill_lookup, decide_True by done. cbn -[evaluate_pair].
    destruct (Z.eqb_spec o v) as [->|Hov]; [rewrite all_true_lookup by done; by apply self_agrees|].
    pose proof (valid_key _ _ Hvalid Hk). rewrite Hno. apply evaluate_pair_agrees; try done.
    + by apply rules_for_GetRules.
    + by apply Hrows.
    + intros Hneed. apply Hb; [|done|].
      * rewrite (Hvo vset). apply elem_of_elements, Hvs. right. naive_solver.
      * apply Hbase. eapply needs_for_base; [by apply list_elem_of_singleton|done|done].
    + intros c Hc. apply needs_for_chats. exists o, k. by rewrite list_elem_of_singleton.
    + intros c Hc. pose proof (needs_for_positive m [o] keys c Hc). split; [done|].
      apply Hms; [|lia|done].
      apply list_elem_of_bind. exists o. split; [|done]. rewrite Hno.
      apply list_elem_of_bind. exists c. split; [by apply list_elem_of_fmap_2 | done].
    + pose proof (length_dedup_le (chatIDs (needs_for m [o] keys))). unfold pairs_needed in Hlim.
      destruct (default [] (vbo !! o)); [set_solver|]. simpl length in Hlim. nia.
  - intros o Ho. apply fill_is_Some, Hin, Hown in Ho as [[? Hx]|(Ho & v & ids & Hv & He & Hoin)];
      [by rewrite lookup_empty in Hx|]. exists v, k0. eauto 10.
  - intros o v. rewrite fill_lookup. destruct (decide (o ∈ owners)) as [Ho|_]; cbn -[evaluate_pair]; [|by intros []].
    intros (? & ? & ?)%fill_is_Some%Hviewers. eauto.
  - intros o v k. rewrite fill_lookup. destruct (decide (o ∈ owners)) as [Ho|_]; cbn -[evaluate_pair]; [|by intros []].
    rewrite fill_lookup. destruct (decide (v ∈ default [] (vbo !! o))) as [Hv|_]; cbn -[evaluate_pair]; [|by intros []].
    apply Hviewers in Hv. destruct (o =? v); [rewrite all_true_keys | rewrite evaluate_pair_keys]; naive_solver.
Qed.
End visibility.
