(* ===== verification/PrivacyProps.v ===== *)
(** Privacy: the evaluation order of rules, the agreement of the batch routines
    with single answers, and the settings operations. *)

From S2P Require Import Prelude Programs Cache CacheInv CacheLoad CacheAlone Contacts Privacy PrivacyInv PrivacyVis.

Open Scope Z_scope.

(** * Evaluation as precedence *)

(** What one rule says about a viewer: its rank and its verdict, [None] when it
    does not apply.  Explicit exclusions come before explicit permissions,
    these before contact rules, these before the rules for everybody. *)
Definition applies (ctx : PrivacyContext) (rule : PrivacyRule) : option (nat * bool) :=
  match Kind rule with
  | PrivacyRuleDisallowUsers => if decide (ctx_ViewerUserID ctx ∈ UserIDs rule) then Some (0%nat, false) else None
  | PrivacyRuleDisallowChatParticipants =>
      if decide (Exists (λ id, id ∈ SharedChatIDs ctx) (ChatIDs rule)) then Some (0%nat, false) else None
  | PrivacyRuleDisallowBots => if ViewerIsBot ctx then Some (0%nat, false) else None
  | PrivacyRuleAllowUsers => if decide (ctx_ViewerUserID ctx ∈ UserIDs rule) then Some (1%nat, true) else None
  | PrivacyRuleAllowChatParticipants =>
      if decide (Exists (λ id, id ∈ SharedChatIDs ctx) (ChatIDs rule)) then Some (1%nat, true) else None
  | PrivacyRuleAllowCloseFriends => if ViewerCloseFriend ctx then Some (1%nat, true) else None
  | PrivacyRuleAllowPremium => if ViewerIsPremium ctx then Some (1%nat, true) else None
  | PrivacyRuleAllowBots => if ViewerIsBot ctx then Some (1%nat, true) else None
  | PrivacyRuleDisallowContacts => if ViewerIsContact ctx then Some (2%nat, false) else None
  | PrivacyRuleAllowContacts => if ViewerIsContact ctx then Some (2%nat, true) else None
  | PrivacyRuleDisallowAll => Some (3%nat, false)
  | PrivacyRuleAllowAll => Some (3%nat, true)
  | PrivacyRuleUnknown _ => None
  end.

(** The first applicable rule of least rank. *)
Fixpoint strongest (ctx : PrivacyContext) (rs : list PrivacyRule) : option (nat * bool) :=
  match rs with
  | [] => None
  | rule :: rs' =>
      match applies ctx rule, strongest ctx rs' with
      | None, o => o
      | Some a, None => Some a
      | Some a, Some b => Some (if decide (b.1 < a.1)%nat then b else a)
      end
  end.

(** The fourth loop without its default. *)
Fixpoint all_verdict (rs : list PrivacyRule) : option bool :=
  match rs with
  | [] => None
  | rule :: rs' =>
      match Kind rule with
      | PrivacyRuleDisallowAll => Some false
      | PrivacyRuleAllowAll => Some true
      | _ => all_verdict rs'
      end
  end.

Lemma all_pass_verdict rs : all_pass rs = default false (all_verdict rs).
Proof. induction rs as [|rule rs IH]; simpl; [done|]. by destruct (Kind rule). Qed.

Lemma intersects_Exists a b : intersects a b = bool_decide (Exists (λ id, id ∈ b) a).
Proof.
  apply eq_true_iff_eq. rewrite intersects_true, bool_decide_eq_true, Exists_exists. done.
Qed.

(** The verdict of the four loops over [rs]. *)
Definition loops (ctx : PrivacyContext) (rs : list PrivacyRule) : option (nat * bool) :=
  if existsb (λ rule, explicitDisallowMatches rule ctx) rs then Some (0%nat, false)
  else if existsb (λ rule, explicitAllowMatches rule ctx) rs then Some (1%nat, true)
  else match contacts_pass rs ctx with
       | Some b => Some (2%nat, b)
       | None => pair 3%nat <$> all_verdict rs
       end.

Lemma explicit_applies ctx rule :
  explicitDisallowMatches rule ctx = bool_decide (applies ctx rule = Some (0%nat, false))
  ∧ explicitAllowMatches rule ctx = bool_decide (applies ctx rule = Some (1%nat, true)).
Proof.
  unfold explicitDisallowMatches, explicitAllowMatches, applies. rewrite intersects_Exists.
  destruct (Kind rule);
    try destruct (ViewerIsContact ctx); try destruct (ViewerIsBot ctx);
    try destruct (ViewerIsPremium ctx); try destruct (ViewerCloseFriend ctx);
    split; repeat first [case_decide | case_bool_decide]; done.
Qed.

Lemma applies_shape ctx rule :
  applies ctx rule = Some (0%nat, false) ∨ applies ctx rule = Some (1%nat, true)
  ∨ (Kind rule = PrivacyRuleDisallowContacts ∧ applies ctx rule = if ViewerIsContact ctx then Some (2%nat, false) else None)
  ∨ (Kind rule = PrivacyRuleAllowContacts ∧ applies ctx rule = if ViewerIsContact ctx then Some (2%nat, true) else None)
  ∨ (Kind rule = PrivacyRuleDisallowAll ∧ applies ctx rule = Some (3%nat, false))
  ∨ (Kind rule = PrivacyRuleAllowAll ∧ applies ctx rule = Some (3%nat, true))
  ∨ (applies ctx rule = None ∧ Kind rule ∉ [PrivacyRuleDisallowContacts; PrivacyRuleAllowContacts;
       PrivacyRuleDisallowAll; PrivacyRuleAllowAll]).
Proof.
  unfold applies. destruct (Kind rule); try destruct (decide _);
    try destruct (ViewerIsBot ctx); try destruct (ViewerIsPremium ctx);
    try destruct (ViewerCloseFriend ctx); auto 10;
    do 6 right; (split; [done|]); rewrite !elem_of_cons, elem_of_nil; naive_solver.
Qed.

Lemma strongest_loops ctx rs : strongest ctx rs = loops ctx rs.
Proof.
  induction rs as [|rule rs IH]; [done|]. cbn [strongest]. rewrite IH. unfold loops.
  cbn [existsb contacts_pass all_verdict]. destruct (explicit_applies ctx rule) as [-> ->].
  destruct (existsb (λ rule, explicitDisallowMatches rule ctx) rs);
    destruct (existsb (λ rule, explicitAllowMatches rule ctx) rs);
    destruct (applies_shape ctx rule) as [->|[->|[[Hk ->]|[[Hk ->]|[[Hk ->]|[[Hk ->]|[-> Hk]]]]]]];
    rewrite ?Hk; try destruct (ViewerIsContact ctx); simpl;
    try (destruct (contacts_pass rs ctx) as [b|]); try (destruct (all_verdict rs) as [b'|]); simpl; try done;
    destruct (Kind rule); try done; set_solver.
Qed.

(** A rule set is evaluated by precedence: owners see their own data, and
    otherwise the first applicable rule of the strongest rank decides (explicit
    exclusion, explicit permission, contacts, everybody), nobody else sees
    anything, and an empty rule set stands for the defaults of its key. *)
Theorem evaluation_is_precedence rules ctx :
  EvaluatePrivacy rules ctx =
    if decide (ctx_OwnerUserID ctx ≠ 0 ∧ ctx_OwnerUserID ctx = ctx_ViewerUserID ctx) then true
    else default false (snd <$> strongest ctx
           (if decide (Rules rules = []) then DefaultPrivacyRules (Key rules) else Rules rules)).
Proof.
  unfold EvaluatePrivacy.
  destruct (decide (ctx_OwnerUserID ctx ≠ 0 ∧ ctx_OwnerUserID ctx = ctx_ViewerUserID ctx)) as [[Hne Heq]|Hself].
  - by rewrite (proj2 (Z.eqb_neq _ _) Hne), (proj2 (Z.eqb_eq _ _) Heq).
  - assert (negb (ctx_OwnerUserID ctx =? 0) && (ctx_OwnerUserID ctx =? ctx_ViewerUserID ctx) = false) as ->.
    { destruct (Z.eqb_spec (ctx_OwnerUserID ctx) 0), (Z.eqb_spec (ctx_OwnerUserID ctx) (ctx_ViewerUserID ctx));
        simpl; tauto. }
    rewrite strongest_loops. unfold loops. generalize (if decide (Rules rules = []) then DefaultPrivacyRules (Key rules) else Rules rules).
    intros rs. destruct (existsb _ rs); [done|]. destruct (existsb _ rs); [done|].
    rewrite all_pass_verdict. destruct (contacts_pass rs ctx); simpl; [done|]. by destruct (all_verdict rs).
Qed.

(** * Settings *)

(** Rules that may be stored. *)
Definition rules_allowed (rs : list PrivacyRule) : Prop :=
  Z.of_nat (length rs) ≤ maxPrivacyRules
  ∧ Forall (λ rule, known_kind (Kind rule) = true
      ∧ Forall (λ id, 0 < id) (UserIDs rule) ∧ Forall (λ id, 0 < id) (ChatIDs rule)) rs
  ∧ sumZ ((λ rule, Z.of_nat (length (UserIDs rule)) + Z.of_nat (length (ChatIDs rule))) <$> rs) ≤ maxPrivacyRuleIDs.

Lemma existsb_nonpositive ids : existsb (λ id, id <=? 0) ids = false ↔ Forall (λ id, 0 < id) ids.
Proof.
  induction ids as [|id ids IH]; simpl; [done|]. rewrite orb_false_iff, IH, Forall_cons, Z.leb_gt. done.
Qed.

Lemma validate_from_spec total rs :
  0 ≤ total →
  validate_from total rs = (if decide (Forall (λ rule, known_kind (Kind rule) = true
      ∧ Forall (λ id, 0 < id) (UserIDs rule) ∧ Forall (λ id, 0 < id) (ChatIDs rule)) rs
    ∧ (rs = [] ∨ total + sumZ ((λ rule, Z.of_nat (length (UserIDs rule)) + Z.of_nat (length (ChatIDs rule))) <$> rs)
        ≤ maxPrivacyRuleIDs)) then OK tt else ERR ErrPrivacyRuleInvalid).
Proof.
  revert total. induction rs as [|rule rs IH]; intros total Ht; cbn [validate_from fmap list_fmap].
  { rewrite decide_True; [done|]. split; [constructor | by left]. }
  rewrite sumZ_cons. set (n := Z.of_nat (length (UserIDs rule)) + Z.of_nat (length (ChatIDs rule))).
  set (rest := (λ rule, _) <$> rs) in *.
  assert (0 ≤ sumZ rest).
  { apply sumZ_nonneg. unfold rest. apply Forall_fmap, Forall_forall. intros r _. simpl. lia. }
  destruct (known_kind (Kind rule)) eqn:Hk; simpl.
  2: { rewrite decide_False; [done|]. intros [[(? & _) _]%Forall_cons _]. congruence. }
  destruct (Z.ltb_spec maxPrivacyRuleIDs (total + n)) as [Hgt|Hle].
  { rewrite decide_False; [done|]. intros [_ [?|?]]; [done | lia]. }
  destruct (existsb _ (UserIDs rule)) eqn:Hu.
  { rewrite decide_False; [done|]. intros [[(_ & Hf%existsb_nonpositive & _) _]%Forall_cons _]. congruence. }
  destruct (existsb _ (ChatIDs rule)) eqn:Hc.
  { rewrite decide_False; [done|]. intros [[(_ & _ & Hf%existsb_nonpositive) _]%Forall_cons _]. congruence. }
  rewrite IH by lia. apply existsb_nonpositive in Hu, Hc.
  apply decide_ext. rewrite Forall_cons. split.
  - intros [Hf [->|Hs]]; (split; [done|right]); [unfold rest; simpl; lia | lia].
  - intros [[_ Hf] [?|Hs]]; [done|]. split; [done|]. right. lia.
Qed.

Lemma validateRules_spec rs :
  (validateRules rs = OK tt ↔ rules_allowed rs)
  ∧ (validateRules rs = OK tt ∨ validateRules rs = ERR ErrPrivacyRuleInvalid).
Proof.
  unfold validateRules, rules_allowed.
  destruct (Z.ltb_spec maxPrivacyRules (Z.of_nat (length rs))) as [Hgt|Hle].
  { split; [|by right]. split; [done|]. intros [? _]. lia. }
  rewrite validate_from_spec by done. case_decide as Hv.
  - split; [|by left]. split; [intros _|done]. destruct Hv as [Hf Hs]. split_and!; [done|done|].
    destruct Hs as [->|Hs]; [unfold maxPrivacyRuleIDs; simpl; lia | done].
  - split; [|by right]. split; [done|]. intros (_ & Hf & Hs). destruct Hv. auto.
Qed.

Lemma default_rules_allowed key : rules_allowed (DefaultPrivacyRules key).
Proof.
  unfold DefaultPrivacyRules, rules_allowed, maxPrivacyRules, maxPrivacyRuleIDs.
  repeat case_decide; (split_and!; [simpl; lia | by repeat constructor | simpl; lia]).
Qed.

Section settings.
Context {C : Type}.
Implicit Type s : Service C.

Lemma SetRules_cases s o k rs :
  let rs' := if decide (rs = []) then DefaultPrivacyRules k else rs in
  let out := {| OwnerUserID := o; Key := k; Rules := rs' |} in
  (ValidKey k = true ∧ rules_allowed rs' ∧ SetRules s o k rs = OK (out, with_rules (SetPrivacyRules out (rules s)) s))
  ∨ (ValidKey k = false ∧ SetRules s o k rs = ERR ErrPrivacyKeyInvalid)
  ∨ (¬ rules_allowed rs' ∧ SetRules s o k rs = ERR ErrPrivacyRuleInvalid).
Proof.
  intros rs' out. unfold SetRules, normalizedRules.
  destruct (ValidKey k); simpl; [|auto]. fold rs'.
  destruct (validateRules_spec rs') as [Hv [Hok|Hok]]; rewrite Hok; simpl.
  - left. split_and!; [done | by apply Hv | done].
  - right. right. split; [|done]. rewrite <- Hv, Hok. done.
Qed.

Lemma GetRules_set s o k rs :
  ValidKey k = true → rs ≠ [] →
  let out := {| OwnerUserID := o; Key := k; Rules := rs |} in
  GetRules (with_rules (SetPrivacyRules out (rules s)) s) o k = OK out.
Proof.
  intros Hk Hrs out. unfold GetRules, GetPrivacyRules, SetPrivacyRules. rewrite Hk. simpl.
  rewrite lookup_insert_eq. simpl. unfold normal_rules. simpl. by rewrite decide_False.
Qed.

Lemma GetRules_other s o k o' k' out :
  OwnerUserID out = o → Key out = k → (o', k') ≠ (o, k) →
  GetRules (with_rules (SetPrivacyRules out (rules s)) s) o' k' = GetRules s o' k'.
Proof.
  intros <- <- Hne. unfold GetRules, GetPrivacyRules, SetPrivacyRules. simpl.
  by rewrite lookup_insert_ne by congruence.
Qed.

Lemma SetRules_get s o k rs r s' :
  SetRules s o k rs = OK (r, s') →
  ValidKey k = true ∧ GetRules s' o k = OK r
  ∧ r = {| OwnerUserID := o; Key := k; Rules := if decide (rs = []) then DefaultPrivacyRules k else rs |}
  ∧ ∀ o' k', (o', k') ≠ (o, k) → GetRules s' o' k' = GetRules s o' k'.
Proof.
  intros HS. destruct (SetRules_cases s o k rs) as [(Hk & Ha & HS')|[(_ & HS')|(_ & HS')]];
    rewrite HS' in HS; [|done..]. injection HS as <- <-. split_and!; [done| |done|].
  - apply GetRules_set; [done|]. case_decide; [|done].
    unfold DefaultPrivacyRules. by repeat case_decide.
  - intros o' k' Hne. by eapply GetRules_other.
Qed.

(** What the loop of [AddAllowUser] does to the four loops of the evaluation. *)
Definition same_passes (rs rs' : list PrivacyRule) (ctx : PrivacyContext) : Prop :=
  existsb (λ rule, explicitDisallowMatches rule ctx) rs' = existsb (λ rule, explicitDisallowMatches rule ctx) rs
  ∧ existsb (λ rule, explicitAllowMatches rule ctx) rs' = existsb (λ rule, explicitAllowMatches rule ctx) rs
  ∧ contacts_pass rs' ctx = contacts_pass rs ctx ∧ all_pass rs' = all_pass rs.

Definition lists_user (t : Z) (rs : list PrivacyRule) : Prop :=
  ∃ rule, rule ∈ rs ∧ Kind rule = PrivacyRuleAllowUsers ∧ t ∈ UserIDs rule.

Lemma allow_in_spec t rs :
  match allow_in t rs with
  | None => True
  | Some None => lists_user t rs
  | Some (Some rs') =>
      rs' ≠ [] ∧ lists_user t rs' ∧ allow_in t rs' = Some None
      ∧ ∀ ctx, ctx_ViewerUserID ctx ≠ t → same_passes rs rs' ctx
  end.
Proof.
  induction rs as [|rule rs IH]; cbn [allow_in]; [done|]. case_decide as Hk.
  - case_bool_decide as Hin; [exists rule; set_solver|].
    set (rule' := {| Kind := Kind rule; UserIDs := UserIDs rule ++ [t]; ChatIDs := ChatIDs rule |}).
    split_and!; [done| | |].
    + exists rule'. unfold rule'. simpl. rewrite Hk. set_solver.
    + cbn [allow_in]. rewrite decide_True by done. rewrite bool_decide_true; [done|]. simpl. set_solver.
    + intros ctx Hne. unfold same_passes. cbn [existsb contacts_pass all_pass].
      unfold explicitDisallowMatches at 1 3, explicitAllowMatches at 1 3.
      unfold rule'. cbn [Kind UserIDs]. rewrite Hk. split_and!; [done| |done|done].
      f_equal. apply bool_decide_ext. set_solver.
  - destruct (allow_in t rs) as [[rs'|]|] eqn:Hrs; [| |done].
    + destruct IH as (Hne' & Hl & Hagain & Hsame). split_and!; [done| | |].
      * destruct Hl as (r & Hr & Hl). exists r. set_solver.
      * cbn [allow_in]. by rewrite decide_False, Hagain.
      * intros ctx Hne. destruct (Hsame ctx Hne) as (H1 & H2 & H3 & H4). unfold same_passes.
        cbn [existsb contacts_pass all_pass]. by rewrite H1, H2, H3, H4.
    + destruct IH as (r & Hr & Hl). exists r. set_solver.
Qed.

Lemma same_passes_Evaluate r r' ctx :
  Rules r ≠ [] → Rules r' ≠ [] →
  same_passes (Rules r) (Rules r') ctx → Evaluate r' ctx = Evaluate r ctx.
Proof.
  intros Hr Hr' (H1 & H2 & H3 & H4). unfold Evaluate, EvaluatePrivacy.
  rewrite !decide_False by done. by rewrite H1, H2, H3, H4.
Qed.

Lemma AddAllowUser_spec s o k t r changed s' :
  AddAllowUser s o k t = OK (r, changed, s') →
  GetRules s' o k = OK r ∧ lists_user t (Rules r) ∧ AddAllowUser s' o k t = OK (r, false, s')
  ∧ (∀ o' k', (o', k') ≠ (o, k) → GetRules s' o' k' = GetRules s o' k')
  ∧ ∃ r0, GetRules s o k = OK r0 ∧ ∀ ctx, ctx_ViewerUserID ctx ≠ t → Evaluate r ctx = Evaluate r0 ctx.
Proof.
  unfold AddAllowUser. destruct (Z.eqb_spec t 0) as [|Ht]; [done|].
  destruct (GetRules s o k) as [r0|] eqn:Hr0; [|done]. cbn -[SetRules].
  pose proof (GetRules_nonempty _ _ _ _ Hr0) as Hne0.
  pose proof (allow_in_spec t (Rules r0)) as Ha.
  destruct (allow_in t (Rules r0)) as [[rs'|]|] eqn:Hal.
  - destruct Ha as (Hne & Hl & Hagain & Hsame).
    destruct (SetRules s o k rs') as [[next s1]|] eqn:HS; [|done]. cbn -[SetRules]. intros [= <- <- <-].
    destruct (SetRules_get _ _ _ _ _ _ HS) as (_ & Hget & -> & Hother). rewrite decide_False in * by done.
    rewrite Hget. cbn -[SetRules]. rewrite Hagain. split_and!; [done|done|done|done|].
    exists r0. split; [done|]. intros ctx Hctx.
    apply same_passes_Evaluate; [done | done | by apply Hsame].
  - intros [= <- <- <-]. rewrite Hr0. cbn -[SetRules]. rewrite Hal. split_and!; [done..|]. by exists r0.
  - set (rs' := {| Kind := PrivacyRuleAllowUsers; UserIDs := [t]; ChatIDs := [] |} :: Rules r0).
    destruct (SetRules s o k rs') as [[next s1]|] eqn:HS; [|done]. cbn -[SetRules]. intros [= <- <- <-].
    destruct (SetRules_get _ _ _ _ _ _ HS) as (_ & Hget & -> & Hother). rewrite decide_False in * by done.
    rewrite Hget. cbn -[SetRules bool_decide]. rewrite bool_decide_true by set_solver.
    split_and!; [done| |done|done|].
    + exists {| Kind := PrivacyRuleAllowUsers; UserIDs := [t]; ChatIDs := [] |}. set_solver.
    + exists r0. split; [done|]. intros ctx Hctx. unfold Evaluate, EvaluatePrivacy.
      rewrite !decide_False by done. simpl. unfold rs'. cbn [existsb contacts_pass all_pass].
      unfold explicitDisallowMatches at 1, explicitAllowMatches at 1. simpl.
      rewrite bool_decide_false by set_solver. done.
Qed.
End settings.

(** Storing settings succeeds exactly for a known key and an admissible rule
    list (at most 100 rules and 5000 positive ids, known kinds), what was stored
    is what is read back, and other settings stay as they were.  Allowing one
    user more is idempotent, makes the user visible unless a rule excludes the
    user explicitly, and changes the answer for nobody else. *)
Theorem privacy_settings_are_kept {C} (s : Service C) o k rs t :
  ((∃ r s', SetRules s o k rs = OK (r, s'))
     ↔ ValidKey k = true ∧ rules_allowed (if decide (rs = []) then DefaultPrivacyRules k else rs))
  ∧ (∀ r s', SetRules s o k rs = OK (r, s') →
       GetRules s' o k = OK r
       ∧ Rules r = (if decide (rs = []) then DefaultPrivacyRules k else rs)
       ∧ ∀ o' k', (o', k') ≠ (o, k) → GetRules s' o' k' = GetRules s o' k')
  ∧ (∀ r changed s', AddAllowUser s o k t = OK (r, changed, s') →
       GetRules s' o k = OK r ∧ AddAllowUser s' o k t = OK (r, false, s')
       ∧ (∀ o' k', (o', k') ≠ (o, k) → GetRules s' o' k' = GetRules s o' k')
       ∧ (∀ ctx, ctx_ViewerUserID ctx = t →
            existsb (λ rule, explicitDisallowMatches rule ctx) (Rules r) = false → Evaluate r ctx = true)
       ∧ ∃ r0, GetRules s o k = OK r0 ∧ ∀ ctx, ctx_ViewerUserID ctx ≠ t → Evaluate r ctx = Evaluate r0 ctx).
Proof.
  split_and!.
  - destruct (SetRules_cases s o k rs) as [(Hk & Ha & HS)|[(Hk & HS)|(Hn & HS)]]; rewrite HS.
    + split; [done|]. eauto.
    + split; [by intros (? & ? & ?)|]. intros [? _]. congruence.
    + split; [by intros (? & ? & ?)|]. by intros [_ ?].
  - intros r s' HS. destruct (SetRules_get _ _ _ _ _ _ HS) as (_ & Hg & -> & Ho). auto.
  - intros r changed s' HA. destruct (AddAllowUser_spec _ _ _ _ _ _ _ HA) as (Hg & Hl & Hagain & Ho & Hother).
    split_and!; [done..| |done]. intros ctx Hctx Hdis. unfold Evaluate, EvaluatePrivacy.
    destruct (_ && _); [done|].
    rewrite decide_False by by eapply GetRules_nonempty. rewrite Hdis.
    assert (existsb (λ rule, explicitAllowMatches rule ctx) (Rules r) = true) as ->; [|done].
    destruct Hl as (rule & Hin & Hk & Ht). apply existsb_exists. exists rule.
    split; [by apply list_elem_of_In|]. unfold explicitAllowMatches. rewrite Hk, Hctx. by apply bool_decide_eq_true.
Qed.

(** * Agreement *)

Lemma CanSee_gives {C} `{ContactSourceLaws C ok} (s : Service C) `{!ReadModelsOk (read_models s)} now o v k :
  gives (read_models s) (CanSee s now o v k) (λ _, True) (batch_failed s [o] 1 [k]).
Proof.
  unfold CanSee. destruct (Z.eqb_spec o 0) as [_|_]; [by apply gives_ret|].
  destruct (Z.eqb_spec v 0) as [_|Hv]; [by apply gives_ret|]. cbn [orb].
  destruct (Z.eqb_spec o v) as [_|_]; [by apply gives_ret|].
  eapply gives_bind; [apply (gives_lift _ _ (λ r, GetRules s o k = OK r))|].
  { unfold GetRules. destruct (ValidKey k) eqn:Hk; cbn [negb].
    - by destruct (GetPrivacyRules _ _ _).
    - left. cbn. by rewrite Hk. }
  intros r Hr. cbv zeta. set (cs := chatIDs (needsForRules r)).
  eapply gives_bind.
  { eapply gives_mono; [by apply with_viewer_facts_gives | intros ctx Hctx; exact Hctx | intros e He; right; by left]. }
  intros ctx (facts & -> & _). apply (gives_bind _ _ _ (λ _, True)); [|by intros; apply gives_ret].
  unfold with_membership_facts. case_bool_decide; [by apply gives_ret|]. fold cs.
  apply (gives_bind _ _ _ (λ _, True)); [|by intros; apply gives_ret].
  eapply gives_mono; [apply loadMembershipFacts_gives| by intros ms _ |].
  intros e [?|[-> Hn]]; [right; by left|]. right. right. intros l Hl. split; [done|].
  eapply Z.lt_le_trans; [exact Hn|].
  assert (∀ c, c ∈ cs → c ∈ l) as Hsub by (intros c Hc; eapply (Hl o k); [by left|by left|exact Hr|exact Hc]).
  pose proof (dedupNonZero_subset_length _ _ Hsub). pose proof (length_dedup_le l).
  match goal with |- context [dedupNonZero [?u]] => pose proof (length_dedup_le [u]) as Hone end.
  cbn [length] in Hone. apply Z.mul_le_mono_nonneg; cbn [length]; lia.
Qed.

(** C12: from fact caches whose entries are what the read models say, every
    batch routine ([CanSeeBatch], [CanContactForFreeBatch], [CanSeeMatrix] and
    [CanSeeForViewerUserIDs]) answers exactly what it was asked for: every asked
    pair of non-zero users and every key, and nothing else, each as the
    single-pair check answers on the same data from any such caches, unless a
    load of that check fails.  It leaves the caches so, and it can fail only on
    an unknown key, in a load that fails, when more than 65536 pairs of viewers
    and chats named by the rules would be needed, or, for the sparse routine,
    without contact rows and a store that can fetch them. *)
Theorem batches_answer_as_CanSee
    {C} `{ContactSourceLaws C ok} (s : Service C) `{!ReadModelsOk (read_models s)}
    order now ownersOrder viewersOrder :
  rules_keyed (rules s) → ok (contacts s) → order ≡ₚ map_to_list (rules s) →
  (∀ vbo, ownersOrder vbo ≡ₚ (map_to_list vbo).*1) → (∀ X, viewersOrder X ≡ₚ elements X) →
  (∀ ids v keys,
     gives (read_models s) (CanSeeBatch s order now ids v keys)
       (λ out, answers_exactly s now (λ o u k, u = v ∧ v ≠ 0 ∧ o ≠ 0 ∧ o ∈ ids ∧ k ∈ keys) (for_viewer v out))
       (batch_failed s ids 1 keys))
  ∧ (∀ ids v,
     gives (read_models s) (CanContactForFreeBatch s order now ids v)
       (λ out, (∀ o, is_Some (out !! o) ↔ v ≠ 0 ∧ o ≠ 0 ∧ o ∈ ids)
          ∧ ∀ o, v ≠ 0 → o ≠ 0 → o ∈ ids → ∃ b,
              out !! o = Some ((o =? v) || bool_decide (is_Some (contact_Get (contacts s) o v)) || b)
              ∧ sees s now o v PrivacyKeyNoPaidMessages b)
       (batch_failed s ids 1 [PrivacyKeyNoPaidMessages]))
  ∧ (∀ ids vs keys,
     gives (read_models s) (CanSeeMatrix s order now ids vs keys)
       (answers_exactly s now (λ o v k, o ≠ 0 ∧ v ≠ 0 ∧ o ∈ ids ∧ v ∈ vs ∧ k ∈ keys))
       (batch_failed s ids (length vs) keys))
  ∧ (∀ entries keys rows, prefetched s entries rows →
     gives (read_models s) (CanSeeForViewerUserIDs s order ownersOrder viewersOrder now entries keys rows)
       (answers_exactly s now (λ o v k, o ≠ 0 ∧ v ≠ 0 ∧ (∃ ids, (v, ids) ∈ entries ∧ o ∈ ids) ∧ k ∈ keys))
       (sparse_failed s entries keys rows))
  ∧ ∀ o v k, gives (read_models s) (CanSee s now o v k) (λ _, True) (batch_failed s [o] 1 [k]).
Proof.
  intros Hkeyed Hok Hord Hoo Hvo. split_and!; intros.
  - by eapply CanSeeBatch_gives.
  - by eapply CanContactForFreeBatch_gives.
  - by eapply CanSeeMatrix_gives.
  - by eapply CanSeeForViewerUserIDs_gives.
  - by eapply CanSee_gives.
Qed.

(** * Example *)

Module PrivacyDemo.

(** User 5 is premium, everybody called 2 is a member of every chat. *)
Definition demo_user (id : Z) : option BaseUser :=
  if id =? 5 then Some {| user_ID := 5; user_Bot := false; user_PremiumUntil := 100 |} else None.

Definition demo_models : ReadModels := {|
  PrivacyBaseUsers := Some (λ ids, Some (omap demo_user ids));
  FilterActiveChannelMemberPairs := Some (λ req, Some (filter (λ u, u =? 2) <$> req));
|}.

#[local] Instance demo_models_ok : ReadModelsOk demo_models.
Proof.
  refine {| user_view := demo_user; member_view := λ _ u, u =? 2 |}; simpl; try done.
  - intros load ids users [= <-] [= <-]. split.
    + intros u (id & Hin & Hu)%list_elem_of_omap Hid. unfold demo_user in *.
      destruct (Z.eqb_spec id 5); simplify_eq. done.
    + intros id u Hin Hu. split; [|apply list_elem_of_omap; eauto].
      unfold demo_user in Hu. destruct (Z.eqb_spec id 5); simplify_eq. done.
  - intros load req active c u [= <-] [= <-] Hu. rewrite lookup_fmap.
    destruct (req !! c) as [us|]; simpl in *; [|set_solver]. rewrite elem_of_filter_bool. tauto.
Defined.

(** User 1 shows the phone number to premium users, to the members of chat 7
    and to contacts, but not to user 3. *)
Definition demo_service : Service ContactStore := {|
  rules := SetPrivacyRules {| OwnerUserID := 1; Key := PrivacyKeyPhoneNumber; Rules :=
    [bare_rule PrivacyRuleAllowPremium;
     {| Kind := PrivacyRuleAllowChatParticipants; UserIDs := []; ChatIDs := [7] |};
     {| Kind := PrivacyRuleDisallowUsers; UserIDs := [3]; ChatIDs := [] |};
     bare_rule PrivacyRuleAllowContacts] |} ∅;
  contacts := run_contact_ops demo_ops;
  read_models := demo_models;
|}.

Definition demo_order := map_to_list (rules demo_service).

Definition owners_of (vbo : gmap Z (list Z)) : list Z := (map_to_list vbo).*1.

(** Caches that answered other requests before. *)
Definition demo_caches : FactCaches :=
  (CanSeeBatch demo_service demo_order 50 [1] 2 [PrivacyKeyPhoneNumber] (new_caches 0)).2.

Lemma batches_answer_as_CanSee_witness :
  (∃ out, (CanSeeBatch demo_service demo_order 50 [1; 0; 4] 5 [PrivacyKeyPhoneNumber] demo_caches).1 = OK out
     ∧ agrees demo_service 50 1 5 PrivacyKeyPhoneNumber (out !! 1 ≫= (.!! PrivacyKeyPhoneNumber)))
  ∧ (∃ out, (CanSeeForViewerUserIDs demo_service demo_order owners_of elements 50 [(5, [1; 4]); (2, [1])]
       [PrivacyKeyPhoneNumber] None demo_caches).1 = OK out
     ∧ agrees demo_service 50 1 2 PrivacyKeyPhoneNumber ((out !! 1 ≫= (.!! 2)) ≫= (.!! PrivacyKeyPhoneNumber)))
  ∧ (CanSee demo_service 50 1 5 PrivacyKeyPhoneNumber demo_caches).1 = OK true
  ∧ (CanSee demo_service 50 1 2 PrivacyKeyPhoneNumber demo_caches).1 = OK true
  ∧ (CanSee demo_service 50 1 3 PrivacyKeyPhoneNumber demo_caches).1 = OK false.
Proof.
  destruct (batches_answer_as_CanSee demo_service demo_order 50 owners_of elements) as (Hb & _ & _ & Hsp & _).
  { apply SetPrivacyRules_keyed, rules_keyed_empty. }
  { apply run_contact_ops_ok. }
  { done. }
  { done. }
  { done. }
  destruct (Hb [1] 2 [PrivacyKeyPhoneNumber] (new_caches 0) (new_caches_fresh _ 0)) as [Hfresh _].
  fold demo_caches in Hfresh. split_and!; [| |by vm_compute..].
  - destruct (Hb [1; 0; 4] 5 [PrivacyKeyPhoneNumber] demo_caches Hfresh) as [_ Ha].
    destruct (CanSeeBatch demo_service demo_order 50 [1; 0; 4] 5 [PrivacyKeyPhoneNumber] demo_caches).1 as [out|] eqn:Hout;
      [|by vm_compute in Hout].
    exists out. split; [done|]. destruct Ha as [Ha _].
    specialize (Ha 1 5 PrivacyKeyPhoneNumber). rewrite for_viewer_lookup, decide_True in Ha by done.
    apply Ha. split_and!; [done..|apply list_elem_of_here|apply list_elem_of_here].
  - destruct (Hsp [(5, [1; 4]); (2, [1])] [PrivacyKeyPhoneNumber] None) with (fc := demo_caches) as [_ Ha]; [done|done|].
    destruct (CanSeeForViewerUserIDs _ _ _ _ _ _ _ _ demo_caches).1 as [out|] eqn:Hout; [|by vm_compute in Hout].
    exists out. split; [done|]. destruct Ha as [Ha _]. apply Ha. split_and!; [done..| |apply list_elem_of_here].
    exists [1]. split; [apply list_elem_of_further, list_elem_of_here | apply list_elem_of_here].
Defined.

Lemma privacy_settings_are_kept_witness :
  ∃ r s', AddAllowUser demo_service 1 PrivacyKeyPhoneNumber 9 = OK (r, true, s')
    ∧ GetRules s' 1 PrivacyKeyPhoneNumber = OK r ∧ Evaluate r (contact_context 1 9 None) = true.
Proof.
  destruct (AddAllowUser demo_service 1 PrivacyKeyPhoneNumber 9) as [[[r b] s']|] eqn:HA; [|by vm_compute in HA].
  destruct (privacy_settings_are_kept demo_service 1 PrivacyKeyPhoneNumber [] 9) as (_ & _ & Hadd).
  destruct (Hadd r b s' HA) as (Hg & _ & _ & Hsee & _).
  exists r, s'. vm_compute in HA. injection HA as <- <- <-. split_and!; [done | exact Hg |].
  apply Hsee; by vm_compute.
Defined.

End PrivacyDemo.
