(* ===== verification/Updates.v ===== *)
(** The account's update log and the devices' cursors: events and their types
    ([internal/domain/update_event.go], [internal/domain/update.go]), the
    in-process stores ([internal/store/memory/updates.go]) and the service that
    records events and answers [updates.getDifference]
    ([internal/app/updates/service.go]).

    Positions ([pts]) are Go [int]s that grow by the counts of the events of one
    account; they are unbounded integers here.  An event keeps the columns that
    the service fills in itself; the snapshots it only carries through (message
    bodies, stories, folders, settings) are one field of an abstract type
    [Body].  The logger is left out, and both stores are configured (the
    [s.states == nil] and [s.events == nil] set-ups of unit tests are not
    modelled).  Every store call is atomic, as it is under the stores' locks. *)

From S2P Require Import Prelude.

Open Scope Z_scope.

#[local] Set Warnings "-notation-for-abbreviation".

(** * Data *)

Notation AuthKey := Z.

Record UpdateState := {
  st_Pts : Z;
  st_Qts : Z;
  st_Date : Z;
  st_Seq : Z;
}.

Definition zero_state : UpdateState := {| st_Pts := 0; st_Qts := 0; st_Date := 0; st_Seq := 0 |}.

#[export] Instance UpdateState_eq_dec : EqDecision UpdateState.
Proof. solve_decision. Defined.

(** [UpdateStateCommitMode] is a byte; every other value is invalid. *)
Inductive UpdateStateCommitMode :=
  | UpdateStateCommitDeliveredOnly
  | UpdateStateCommitDeliveredAndObservedBaseline
  | CommitModeInvalid (mode : Z).

Notation PeerType := string.
Definition PeerTypeUser : PeerType := "user".
Definition PeerTypeChannel : PeerType := "channel".

Record Peer := {
  peer_Type : PeerType;
  peer_ID : Z;
}.

Definition no_peer : Peer := {| peer_Type := ""; peer_ID := 0 |}.

(** The Go type is a string; the constructors are its declared constants. *)
Inductive UpdateEventType :=
  | UpdateEventNewMessage
  | UpdateEventReadHistoryInbox
  | UpdateEventReadHistoryOutbox
  | UpdateEventReadChannelDiscussionInbox
  | UpdateEventReadChannelDiscussionOutbox
  | UpdateEventReadMessageContents
  | UpdateEventEditMessage
  | UpdateEventBotCallbackQuery
  | UpdateEventWebPage
  | UpdateEventMessagePoll
  | UpdateEventContactsReset
  | UpdateEventDialogPinned
  | UpdateEventPinnedDialogs
  | UpdateEventDialogUnreadMark
  | UpdateEventPeerSettings
  | UpdateEventPeerStoryBlocked
  | UpdateEventUserPhone
  | UpdateEventUserEmojiStatus
  | UpdateEventDeleteMessages
  | UpdateEventPinnedMessages
  | UpdateEventDialogFilter
  | UpdateEventDialogFilterOrder
  | UpdateEventDialogFilters
  | UpdateEventFolderPeers
  | UpdateEventChannelViewForum
  | UpdateEventStory
  | UpdateEventReadStories
  | UpdateEventSentStoryReaction
  | UpdateEventNewStoryReaction
  | UpdateEventQuickReplies
  | UpdateEventNewQuickReply
  | UpdateEventDeleteQuickReply
  | UpdateEventQuickReplyMessage
  | UpdateEventDeleteQuickReplyMessages
  | UpdateEventChannelState
  | UpdateEventDraftMessage
  | UpdateEventSavedDialogPinned
  | UpdateEventPinnedSavedDialogs
  | UpdateEventNoop.

#[export] Instance UpdateEventType_eq_dec : EqDecision UpdateEventType.
Proof. solve_decision. Defined.

(** The columns of [domain.Message], [domain.Story], [domain.StoryReadResult],
    [domain.StoryReactionResult] and [domain.ReadHistoryResult] that are read. *)
Record Message (Body : Type) := {
  msg_ID : Z;
  msg_OwnerUserID : Z;
  msg_Peer : Peer;
  msg_Date : Z;
  msg_Body : Body;
}.
Arguments msg_ID {Body} _.
Arguments msg_OwnerUserID {Body} _.
Arguments msg_Peer {Body} _.
Arguments msg_Date {Body} _.
Arguments msg_Body {Body} _.

Record Story (Body : Type) := {
  story_Owner : Peer;
  story_ID : Z;
  story_Date : Z;
  story_Body : Body;
}.
Arguments story_Owner {Body} _.
Arguments story_ID {Body} _.
Arguments story_Date {Body} _.
Arguments story_Body {Body} _.

Record StoryReadResult := {
  read_ViewerID : Z;
  read_Peer : Peer;
  read_MaxReadID : Z;
  read_Date : Z;
}.

Record StoryReactionResult (Body : Type) := {
  reaction_ViewerID : Z;
  reaction_Peer : Peer;
  reaction_StoryID : Z;
  reaction_Reaction : option Body;
  reaction_Story : Story Body;
  reaction_Date : Z;
}.
Arguments reaction_ViewerID {Body} _.
Arguments reaction_Peer {Body} _.
Arguments reaction_StoryID {Body} _.
Arguments reaction_Reaction {Body} _.
Arguments reaction_Story {Body} _.
Arguments reaction_Date {Body} _.

Record ReadHistoryResult := {
  history_OwnerUserID : Z;
  history_Peer : Peer;
  history_MaxID : Z;
  history_StillUnreadCount : Z;
  history_ChannelPts : Z;
}.

Record UpdateEvent (Body : Type) := {
  UserID : Z;
  Type_ : UpdateEventType;
  Pts : Z;
  PtsCount : Z;
  Date : Z;
  ev_Message : option (Message Body);
  ev_Story : option (Story Body);
  ev_Peer : Peer;
  Peers : list Peer;
  Bool : bool;
  MaxID : Z;
  StillUnreadCount : Z;
  ChannelPts : Z;
  TopMsgID : Z;
  FilterID : Z;
  FolderID : Z;
  FilterOrder : list Z;
  Reaction : option Body;
  Snapshot : option Body;
}.
Arguments UserID {Body} _.
Arguments Type_ {Body} _.
Arguments Pts {Body} _.
Arguments PtsCount {Body} _.
Arguments Date {Body} _.
Arguments ev_Message {Body} _.
Arguments ev_Story {Body} _.
Arguments ev_Peer {Body} _.
Arguments Peers {Body} _.
Arguments Bool {Body} _.
Arguments MaxID {Body} _.
Arguments StillUnreadCount {Body} _.
Arguments ChannelPts {Body} _.
Arguments TopMsgID {Body} _.
Arguments FilterID {Body} _.
Arguments FolderID {Body} _.
Arguments FilterOrder {Body} _.
Arguments Reaction {Body} _.
Arguments Snapshot {Body} _.

Inductive update_error :=
  | ErrDispatchExclusion
  | ErrInvalidCommitMode (mode : Z)
  | ErrEventUserMismatch
  | ErrStoryPeerInvalid.

Section events.
Context {Body : Type}.
Implicit Types (e : UpdateEvent Body) (l : list (UpdateEvent Body)).

(** A composite literal that names only the type and the count. *)
Definition event_of (type : UpdateEventType) : UpdateEvent Body := {|
  UserID := 0; Type_ := type; Pts := 0; PtsCount := 1; Date := 0; ev_Message := None;
  ev_Story := None; ev_Peer := no_peer; Peers := []; Bool := false; MaxID := 0;
  StillUnreadCount := 0; ChannelPts := 0; TopMsgID := 0; FilterID := 0; FolderID := 0;
  FilterOrder := []; Reaction := None; Snapshot := None |}.

(** The position columns, which the stores and the service overwrite. *)
Definition placed (userID pts count date : Z) e : UpdateEvent Body := {|
  UserID := userID; Type_ := Type_ e; Pts := pts; PtsCount := count; Date := date;
  ev_Message := ev_Message e; ev_Story := ev_Story e; ev_Peer := ev_Peer e; Peers := Peers e;
  Bool := Bool e; MaxID := MaxID e; StillUnreadCount := StillUnreadCount e;
  ChannelPts := ChannelPts e; TopMsgID := TopMsgID e; FilterID := FilterID e;
  FolderID := FolderID e; FilterOrder := FilterOrder e; Reaction := Reaction e;
  Snapshot := Snapshot e |}.

Definition LacksWirePts e : bool :=
  match Type_ e with
  | UpdateEventMessagePoll | UpdateEventDraftMessage | UpdateEventChannelState
  | UpdateEventContactsReset | UpdateEventDialogPinned | UpdateEventPinnedDialogs
  | UpdateEventSavedDialogPinned | UpdateEventPinnedSavedDialogs | UpdateEventDialogUnreadMark
  | UpdateEventPeerSettings | UpdateEventPeerStoryBlocked | UpdateEventUserPhone
  | UpdateEventUserEmojiStatus | UpdateEventDialogFilter | UpdateEventDialogFilterOrder
  | UpdateEventDialogFilters | UpdateEventChannelViewForum | UpdateEventStory
  | UpdateEventReadStories | UpdateEventSentStoryReaction | UpdateEventNewStoryReaction
  | UpdateEventQuickReplies | UpdateEventNewQuickReply | UpdateEventDeleteQuickReply
  | UpdateEventQuickReplyMessage | UpdateEventDeleteQuickReplyMessages => true
  | UpdateEventReadChannelDiscussionInbox | UpdateEventReadChannelDiscussionOutbox => true
  | UpdateEventReadHistoryInbox | UpdateEventReadHistoryOutbox =>
      bool_decide (peer_Type (ev_Peer e) = PeerTypeChannel)
  | _ => false
  end.

(** * The event store *)

Record memoryUpdateDispatch := {
  dispatch_Pts : Z;
  ExcludeAuthKeyID : AuthKey;
  ExcludeSessionID : Z;
}.

Record UpdateEventStore := {
  events : gmap Z (list (UpdateEvent Body));
  dispatches : gmap Z (list memoryUpdateDispatch);
}.

Definition NewUpdateEventStore : UpdateEventStore := {| events := ∅; dispatches := ∅ |}.

Definition eventsOf (s : UpdateEventStore) (userID : Z) : list (UpdateEvent Body) :=
  default [] (events s !! userID).

(** A missing count is one. *)
Definition wire_count e : Z := if PtsCount e <=? 0 then 1 else PtsCount e.

Definition max_pts l : Z := fold_left (λ current item, if current <? Pts item then Pts item else current) l 0.

Definition appendLocked (userID : Z) e (allocate : bool) (s : UpdateEventStore)
    : UpdateEvent Body * UpdateEventStore :=
  let count := wire_count e in
  let pts := if allocate then max_pts (eventsOf s userID) + count else Pts e in
  let e := placed userID pts count (Date e) e in
  (e, {| events := <[userID := eventsOf s userID ++ [e]]> (events s); dispatches := dispatches s |}).

Definition append_event (userID : Z) e (allocate withDispatch : bool) (excludeAuthKeyID : AuthKey)
    (excludeSessionID : Z) (s : UpdateEventStore) : res update_error (UpdateEvent Body) * UpdateEventStore :=
  if withDispatch && negb (Bool.eqb (excludeAuthKeyID =? 0) (excludeSessionID =? 0))
  then (ERR ErrDispatchExclusion, s)
  else
    let '(e, s) := appendLocked userID e allocate s in
    let s := if withDispatch
      then {| events := events s;
              dispatches := <[userID := default [] (dispatches s !! userID) ++
                [{| dispatch_Pts := Pts e; ExcludeAuthKeyID := excludeAuthKeyID;
                    ExcludeSessionID := excludeSessionID |}]]> (dispatches s) |}
      else s in
    (OK e, s).

Definition Append (userID : Z) e (s : UpdateEventStore) : res update_error (UpdateEvent Body) * UpdateEventStore :=
  append_event userID e false false 0 0 s.

Definition AppendAllocated (userID : Z) e (s : UpdateEventStore)
    : res update_error (UpdateEvent Body) * UpdateEventStore :=
  append_event userID e true false 0 0 s.

Definition AppendAllocatedWithDispatch (userID : Z) e (excludeAuthKeyID : AuthKey) (excludeSessionID : Z)
    (s : UpdateEventStore) : res update_error (UpdateEvent Body) * UpdateEventStore :=
  append_event userID e true true excludeAuthKeyID excludeSessionID s.

(** The loop of [ListAfter]. *)
Fixpoint list_after (pts limit : Z) (out l : list (UpdateEvent Body)) : list (UpdateEvent Body) :=
  match l with
  | [] => out
  | e :: l' =>
      if Pts e <=? pts then list_after pts limit out l'
      else
        let out := out ++ [e] in
        if (0 <? limit) && (limit <=? Z.of_nat (length out)) then out
        else list_after pts limit out l'
  end.

Definition ListAfter (s : UpdateEventStore) (userID pts limit : Z) : list (UpdateEvent Body) :=
  list_after pts limit [] (eventsOf s userID).

Definition FindNewMessageEvent (s : UpdateEventStore) (userID messageBoxID : Z) : option (UpdateEvent Body) :=
  if (userID =? 0) || (messageBoxID <=? 0) then None
  else List.find (λ e, bool_decide (Type_ e = UpdateEventNewMessage)
         && (default 0 (msg_ID <$> ev_Message e) =? messageBoxID)) (eventsOf s userID).

(** The loop of [MaxContiguousPts] follows the positions from 0; every turn
    leaves a key of the map, so the size of the map bounds the turns. *)
Fixpoint follow (fuel : nat) (nextByStart : gmap Z Z) (contiguous : Z) : option Z :=
  match nextByStart !! contiguous with
  | None => Some contiguous
  | Some next =>
      match fuel with
      | O => None
      | S fuel' => follow fuel' nextByStart next
      end
  end.

Definition starts l : gmap Z Z := fold_left (λ m e, <[Pts e - wire_count e := Pts e]> m) l ∅.

Definition MaxContiguousPts (s : UpdateEventStore) (userID : Z) : option Z :=
  let m := starts (eventsOf s userID) in follow (size m) m 0.
End events.
Arguments UpdateEventStore : clear implicits.

(** * Device states *)

Notation updateStateKey := (AuthKey * Z)%type.

Record UpdateStateStore := {
  states : gmap (AuthKey * Z) UpdateState;
  observed : gmap (AuthKey * Z) UpdateState;
}.

Definition NewUpdateStateStore : UpdateStateStore := {| states := ∅; observed := ∅ |}.

Definition Get (s : UpdateStateStore) (id : AuthKey) (userID : Z) : option UpdateState := states s !! (id, userID).

Definition monotonicUpdateState (prev next : UpdateState) : UpdateState := {|
  st_Pts := if st_Pts next <? st_Pts prev then st_Pts prev else st_Pts next;
  st_Qts := if st_Qts next <? st_Qts prev then st_Qts prev else st_Qts next;
  st_Date := if st_Date next <? st_Date prev then st_Date prev else st_Date next;
  st_Seq := if st_Seq next <? st_Seq prev then st_Seq prev else st_Seq next |}.

(** The four comparisons of [Save] are those of [monotonicUpdateState]. *)
Definition Save (id : AuthKey) (userID : Z) (st : UpdateState) (s : UpdateStateStore) : UpdateStateStore :=
  let prev := default zero_state (states s !! (id, userID)) in
  {| states := <[(id, userID) := monotonicUpdateState prev st]> (states s); observed := observed s |}.

Definition ObserveClientState (id : AuthKey) (userID : Z) (st : UpdateState) (s : UpdateStateStore)
    : UpdateStateStore :=
  let prev := default zero_state (observed s !! (id, userID)) in
  {| states := states s; observed := <[(id, userID) := monotonicUpdateState prev st]> (observed s) |}.

Definition CommitDeliveredState (id : AuthKey) (userID : Z) (st : UpdateState)
    (mode : UpdateStateCommitMode) (s : UpdateStateStore) : option update_error * UpdateStateStore :=
  match mode with
  | CommitModeInvalid m => (Some (ErrInvalidCommitMode m), s)
  | UpdateStateCommitDeliveredOnly => (None, Save id userID st s)
  | UpdateStateCommitDeliveredAndObservedBaseline =>
      (None, ObserveClientState id userID st (Save id userID st s))
  end.

Definition ObservedClientState (s : UpdateStateStore) (id : AuthKey) (userID : Z) : option UpdateState :=
  observed s !! (id, userID).

Definition Delete (id : AuthKey) (userID : Z) (s : UpdateStateStore) : UpdateStateStore :=
  {| states := delete (id, userID) (states s); observed := delete (id, userID) (observed s) |}.

(** The deletions of the two loops do not depend on the order of the maps. *)
Definition DeleteAuthKey (id : AuthKey) (s : UpdateStateStore) : UpdateStateStore :=
  {| states := filter (λ kv, kv.1.1 ≠ id) (states s); observed := filter (λ kv, kv.1.1 ≠ id) (observed s) |}.

(** * The service *)

(** What the service reads from an event store.  A store that does not
    implement [userUpdateRetentionCheckpointStore] has no checkpoint. *)
Class EventSource (Body E : Type) := {
  source_MaxContiguousPts : E → Z → Z;
  source_ListAfter : E → Z → Z → Z → list (UpdateEvent Body);
  source_Checkpoint : option (E → AuthKey → Z → option (Z * Z));
}.

(** The in-process store; its loop always ends, see [MaxContiguousPts_Some]. *)
#[export] Instance memory_source {Body} : EventSource Body (UpdateEventStore Body) := {|
  source_MaxContiguousPts s userID := default 0 (MaxContiguousPts s userID);
  source_ListAfter := ListAfter;
  source_Checkpoint := None;
|}.

Record UpdateDifference (Body : Type) := {
  diff_State : UpdateState;
  diff_Events : list (UpdateEvent Body);
  Partial : bool;
}.
Arguments diff_State {Body} _.
Arguments diff_Events {Body} _.
Arguments Partial {Body} _.

Definition getDifferenceLimit : Z := 100.

Definition with_Pts (pts : Z) (st : UpdateState) : UpdateState :=
  {| st_Pts := pts; st_Qts := st_Qts st; st_Date := st_Date st; st_Seq := st_Seq st |}.
Definition with_Date (date : Z) (st : UpdateState) : UpdateState :=
  {| st_Pts := st_Pts st; st_Qts := st_Qts st; st_Date := date; st_Seq := st_Seq st |}.
Definition with_Seq (seq : Z) (st : UpdateState) : UpdateState :=
  {| st_Pts := st_Pts st; st_Qts := st_Qts st; st_Date := st_Date st; st_Seq := seq |}.

Definition clampDifferenceState (from current : UpdateState) : UpdateState :=
  let pts := if st_Pts from <? 0 then 0 else st_Pts from in
  let pts := if st_Pts current <? pts then st_Pts current else pts in
  with_Seq 0 (with_Pts pts from).

Section difference.
Context {Body E : Type} `{EventSource Body E}.
Implicit Types (ev : UpdateEvent Body) (s : E).

(** [sort.Slice] by position; equal positions may come out in any order. *)
Context (sort_by_pts : list (UpdateEvent Body) → list (UpdateEvent Body)).

Definition currentState s (now userID : Z) : UpdateState :=
  {| st_Pts := source_MaxContiguousPts s userID; st_Qts := 0; st_Date := now; st_Seq := 0 |}.

(** The loop of [contiguousPrefixAndGap]. *)
Fixpoint contiguous_from (cursor : Z) (out sorted : list (UpdateEvent Body))
    : list (UpdateEvent Body) * option (UpdateEvent Body) * Z :=
  match sorted with
  | [] => (out, None, 0)
  | ev :: sorted' =>
      let expected := cursor + wire_count ev in
      if negb (Pts ev =? expected) then (out, Some ev, expected)
      else contiguous_from (Pts ev) (out ++ [ev]) sorted'
  end.

Definition contiguousPrefixAndGap (events : list (UpdateEvent Body)) (from : Z)
    : list (UpdateEvent Body) * option (UpdateEvent Body) * Z :=
  if bool_decide (length events = 0%nat) then ([], None, 0)
  else contiguous_from from [] (sort_by_pts events).

Definition contiguousPrefix (events : list (UpdateEvent Body)) (from : Z) : list (UpdateEvent Body) :=
  (contiguousPrefixAndGap events from).1.1.

Definition retainedPrefixCheckpoint s (authKeyID : AuthKey) (userID : Z) (from current : UpdateState)
    : option (UpdateDifference Body) :=
  match source_Checkpoint with
  | None => None
  | Some checkpoints =>
      match checkpoints s authKeyID userID with
      | None => None
      | Some (pts, date) =>
          if pts <=? st_Pts from then None
          else
            let checkpoint := with_Seq 0 (with_Pts pts from) in
            let checkpoint :=
              if 0 <? date then with_Date date checkpoint
              else if st_Date checkpoint =? 0 then with_Date (st_Date current) checkpoint
              else checkpoint in
            Some {| diff_State := checkpoint; diff_Events := []; Partial := true |}
      end
  end.

(** The store may move between the reads; [s], [s1], [s2] and [s3] are its
    states at the four reads, in order. *)
Definition GetDifference s s1 s2 s3 (now : Z) (authKeyID : AuthKey) (userID : Z) (from : UpdateState)
    : UpdateDifference Body :=
  let st := currentState s now userID in
  let from := clampDifferenceState from st in
  match retainedPrefixCheckpoint s1 authKeyID userID from st with
  | Some checkpoint => checkpoint
  | None =>
      if st_Pts st <=? st_Pts from then
        {| diff_State := if negb (st_Date from =? 0) then with_Date (st_Date from) st else st;
           diff_Events := []; Partial := false |}
      else
        let events := source_ListAfter s2 userID (st_Pts from) getDifferenceLimit in
        let contiguous := contiguousPrefix events (st_Pts from) in
        match (if bool_decide (length contiguous = 0%nat) && (st_Pts from <? st_Pts st)
               then retainedPrefixCheckpoint s3 authKeyID userID from st else None) with
        | Some checkpoint => checkpoint
        | None =>
            let out := with_Seq 0 (with_Pts (default (st_Pts from) (Pts <$> last contiguous)) st) in
            {| diff_State := default out ((λ ev, with_Date (Date ev) out) <$> last contiguous);
               diff_Events := contiguous;
               Partial := Z.of_nat (length contiguous) =? getDifferenceLimit |}
        end
  end.
End difference.

(** ** Recording *)

(** The service over the in-process stores. *)
Record Service (Body : Type) := {
  svc_states : UpdateStateStore;
  svc_events : UpdateEventStore Body;
}.
Arguments svc_states {Body} _.
Arguments svc_events {Body} _.

Section service.
Context {Body : Type}.
Implicit Types (s : Service Body) (ev : UpdateEvent Body).

Definition with_states (f : UpdateStateStore → UpdateStateStore) s : Service Body :=
  {| svc_states := f (svc_states s); svc_events := svc_events s |}.
Definition with_events (e : UpdateEventStore Body) s : Service Body :=
  {| svc_states := svc_states s; svc_events := e |}.

Definition GetState (now : Z) (authKeyID : AuthKey) (userID : Z) s : UpdateState * Service Body :=
  match Get (svc_states s) authKeyID userID with
  | Some st =>
      let st := with_Seq 0 st in
      (if st_Date st =? 0 then with_Date now st else st, s)
  | None =>
      let st := currentState (svc_events s) now userID in
      (st, with_states (Save authKeyID userID st) s)
  end.

Definition CurrentState (now userID : Z) s : UpdateState := currentState (svc_events s) now userID.

Definition ConfirmedState (authKeyID : AuthKey) (userID : Z) s : option UpdateState :=
  with_Seq 0 <$> Get (svc_states s) authKeyID userID.

Definition saveConfirmedState (authKeyID : AuthKey) (userID : Z) (st : UpdateState) s : Service Body :=
  with_states (Save authKeyID userID (with_Seq 0 st)) s.

Definition observeClientState (authKeyID : AuthKey) (userID : Z) (st : UpdateState) s : Service Body :=
  with_states (ObserveClientState authKeyID userID (with_Seq 0 st)) s.

Definition ConfirmEvent (now : Z) (authKeyID : AuthKey) (userID : Z) ev s : option update_error * Service Body :=
  if negb (UserID ev =? 0) && negb (UserID ev =? userID) then (Some ErrEventUserMismatch, s)
  else if Pts ev <=? 0 then (None, s)
  else
    let date := if Date ev =? 0 then now else Date ev in
    (None, saveConfirmedState authKeyID userID
             {| st_Pts := Pts ev; st_Qts := 0; st_Date := date; st_Seq := 0 |} s).

Definition ObserveDifferenceRequest (now : Z) (authKeyID : AuthKey) (userID : Z) (from : UpdateState) s
    : UpdateState * Service Body :=
  let current := currentState (svc_events s) now userID in
  let from := clampDifferenceState from current in
  (from, observeClientState authKeyID userID from s).

Definition CommitDelivered (authKeyID : AuthKey) (userID : Z) (st : UpdateState)
    (mode : UpdateStateCommitMode) s : option update_error * Service Body :=
  match mode with
  | CommitModeInvalid m => (Some (ErrInvalidCommitMode m), s)
  | _ =>
      let '(err, states) := CommitDeliveredState authKeyID userID (with_Seq 0 st) mode (svc_states s) in
      (err, with_states (λ _, states) s)
  end.

Definition ClearAuthKey (authKeyID : AuthKey) s : Service Body := with_states (DeleteAuthKey authKeyID) s.

Definition recorded : Type := res update_error (UpdateEvent Body * UpdateState) * Service Body.

(** The first half of [recordEventCore]: the event is appended. *)
Definition append_recorded (excludeAuthKeyID : AuthKey) (now userID : Z) ev (dispatch : bool)
    (excludeSessionID : Z) s : res update_error (UpdateEvent Body) * Service Body :=
  let date := if Date ev =? 0 then now else Date ev in
  let count := if PtsCount ev =? 0 then 1 else PtsCount ev in
  let ev := placed userID (Pts ev) count date ev in
  let '(r, events) :=
    if dispatch then AppendAllocatedWithDispatch userID ev excludeAuthKeyID excludeSessionID (svc_events s)
    else AppendAllocated userID ev (svc_events s) in
  (r, with_events events s).

(** Its second half: the acting device's confirmed state is saved, in a second
    store call. *)
Definition save_recorded (stateAuthKeyID : AuthKey) (userID : Z) (saveState : bool) ev s
    : UpdateState * Service Body :=
  let st := {| st_Pts := Pts ev; st_Qts := 0; st_Date := Date ev; st_Seq := 0 |} in
  (st, if saveState then with_states (Save stateAuthKeyID userID st) s else s).

Definition recordEventCore (stateAuthKeyID excludeAuthKeyID : AuthKey) (now userID : Z) ev (dispatch : bool)
    (excludeSessionID : Z) (saveState : bool) s : recorded :=
  let '(r, s) := append_recorded excludeAuthKeyID now userID ev dispatch excludeSessionID s in
  match r with
  | ERR err => (ERR err, s)
  | OK ev =>
      let '(st, s) := save_recorded stateAuthKeyID userID saveState ev s in
      (OK (ev, st), s)
  end.

Definition recordEvent (stateAuthKeyID excludeAuthKeyID : AuthKey) (now userID : Z) ev (dispatch : bool)
    (excludeSessionID : Z) s : recorded :=
  recordEventCore stateAuthKeyID excludeAuthKeyID now userID ev dispatch excludeSessionID true s.

Definition recordEventWithoutState (now userID : Z) ev s : recorded :=
  recordEventCore 0 0 now userID ev false 0 false s.
End service.

(** ** The recorded events *)

Section record.
Context {Body : Type}.
Implicit Types (s : Service Body).

(** The fields of the composite literals, one setter each. *)
Definition dated (x : Z) (e : UpdateEvent Body) : UpdateEvent Body := {|
  UserID := UserID e; Type_ := Type_ e; Pts := Pts e; PtsCount := PtsCount e; Date := x;
  ev_Message := ev_Message e; ev_Story := ev_Story e; ev_Peer := ev_Peer e; Peers := Peers e;
  Bool := Bool e; MaxID := MaxID e; StillUnreadCount := StillUnreadCount e;
  ChannelPts := ChannelPts e; TopMsgID := TopMsgID e; FilterID := FilterID e;
  FolderID := FolderID e; FilterOrder := FilterOrder e; Reaction := Reaction e;
  Snapshot := Snapshot e |}.

Definition about_message (x : Message Body) (e : UpdateEvent Body) : UpdateEvent Body := {|
  UserID := UserID e; Type_ := Type_ e; Pts := Pts e; PtsCount := PtsCount e; Date := Date e;
  ev_Message := Some x; ev_Story := ev_Story e; ev_Peer := ev_Peer e; Peers := Peers e;
  Bool := Bool e; MaxID := MaxID e; StillUnreadCount := StillUnreadCount e;
  ChannelPts := ChannelPts e; TopMsgID := TopMsgID e; FilterID := FilterID e;
  FolderID := FolderID e; FilterOrder := FilterOrder e; Reaction := Reaction e;
  Snapshot := Snapshot e |}.

Definition about_story (x : Story Body) (e : UpdateEvent Body) : UpdateEvent Body := {|
  UserID := UserID e; Type_ := Type_ e; Pts := Pts e; PtsCount := PtsCount e; Date := Date e;
  ev_Message := ev_Message e; ev_Story := Some x; ev_Peer := ev_Peer e; Peers := Peers e;
  Bool := Bool e; MaxID := MaxID e; StillUnreadCount := StillUnreadCount e;
  ChannelPts := ChannelPts e; TopMsgID := TopMsgID e; FilterID := FilterID e;
  FolderID := FolderID e; FilterOrder := FilterOrder e; Reaction := Reaction e;
  Snapshot := Snapshot e |}.

Definition about_peer (x : Peer) (e : UpdateEvent Body) : UpdateEvent Body := {|
  UserID := UserID e; Type_ := Type_ e; Pts := Pts e; PtsCount := PtsCount e; Date := Date e;
  ev_Message := ev_Message e; ev_Story := ev_Story e; ev_Peer := x; Peers := Peers e;
  Bool := Bool e; MaxID := MaxID e; StillUnreadCount := StillUnreadCount e;
  ChannelPts := ChannelPts e; TopMsgID := TopMsgID e; FilterID := FilterID e;
  FolderID := FolderID e; FilterOrder := FilterOrder e; Reaction := Reaction e;
  Snapshot := Snapshot e |}.

Definition about_peers (x : list Peer) (e : UpdateEvent Body) : UpdateEvent Body := {|
  UserID := UserID e; Type_ := Type_ e; Pts := Pts e; PtsCount := PtsCount e; Date := Date e;
  ev_Message := ev_Message e; ev_Story := ev_Story e; ev_Peer := ev_Peer e; Peers := x;
  Bool := Bool e; MaxID := MaxID e; StillUnreadCount := StillUnreadCount e;
  ChannelPts := ChannelPts e; TopMsgID := TopMsgID e; FilterID := FilterID e;
  FolderID := FolderID e; FilterOrder := FilterOrder e; Reaction := Reaction e;
  Snapshot := Snapshot e |}.

Definition flagged (x : bool) (e : UpdateEvent Body) : UpdateEvent Body := {|
  UserID := UserID e; Type_ := Type_ e; Pts := Pts e; PtsCount := PtsCount e; Date := Date e;
  ev_Message := ev_Message e; ev_Story := ev_Story e; ev_Peer := ev_Peer e; Peers := Peers e;
  Bool := x; MaxID := MaxID e; StillUnreadCount := StillUnreadCount e;
  ChannelPts := ChannelPts e; TopMsgID := TopMsgID e; FilterID := FilterID e;
  FolderID := FolderID e; FilterOrder := FilterOrder e; Reaction := Reaction e;
  Snapshot := Snapshot e |}.

Definition up_to (x : Z) (e : UpdateEvent Body) : UpdateEvent Body := {|
  UserID := UserID e; Type_ := Type_ e; Pts := Pts e; PtsCount := PtsCount e; Date := Date e;
  ev_Message := ev_Message e; ev_Story := ev_Story e; ev_Peer := ev_Peer e; Peers := Peers e;
  Bool := Bool e; MaxID := x; StillUnreadCount := StillUnreadCount e;
  ChannelPts := ChannelPts e; TopMsgID := TopMsgID e; FilterID := FilterID e;
  FolderID := FolderID e; FilterOrder := FilterOrder e; Reaction := Reaction e;
  Snapshot := Snapshot e |}.

Definition still_unread (x : Z) (e : UpdateEvent Body) : UpdateEvent Body := {|
  UserID := UserID e; Type_ := Type_ e; Pts := Pts e; PtsCount := PtsCount e; Date := Date e;
  ev_Message := ev_Message e; ev_Story := ev_Story e; ev_Peer := ev_Peer e; Peers := Peers e;
  Bool := Bool e; MaxID := MaxID e; StillUnreadCount := x; ChannelPts := ChannelPts e;
  TopMsgID := TopMsgID e; FilterID := FilterID e; FolderID := FolderID e;
  FilterOrder := FilterOrder e; Reaction := Reaction e; Snapshot := Snapshot e |}.

Definition at_channel_pts (x : Z) (e : UpdateEvent Body) : UpdateEvent Body := {|
  UserID := UserID e; Type_ := Type_ e; Pts := Pts e; PtsCount := PtsCount e; Date := Date e;
  ev_Message := ev_Message e; ev_Story := ev_Story e; ev_Peer := ev_Peer e; Peers := Peers e;
  Bool := Bool e; MaxID := MaxID e; StillUnreadCount := StillUnreadCount e; ChannelPts := x;
  TopMsgID := TopMsgID e; FilterID := FilterID e; FolderID := FolderID e;
  FilterOrder := FilterOrder e; Reaction := Reaction e; Snapshot := Snapshot e |}.

Definition in_topic (x : Z) (e : UpdateEvent Body) : UpdateEvent Body := {|
  UserID := UserID e; Type_ := Type_ e; Pts := Pts e; PtsCount := PtsCount e; Date := Date e;
  ev_Message := ev_Message e; ev_Story := ev_Story e; ev_Peer := ev_Peer e; Peers := Peers e;
  Bool := Bool e; MaxID := MaxID e; StillUnreadCount := StillUnreadCount e;
  ChannelPts := ChannelPts e; TopMsgID := x; FilterID := FilterID e; FolderID := FolderID e;
  FilterOrder := FilterOrder e; Reaction := Reaction e; Snapshot := Snapshot e |}.

Definition for_filter (x : Z) (e : UpdateEvent Body) : UpdateEvent Body := {|
  UserID := UserID e; Type_ := Type_ e; Pts := Pts e; PtsCount := PtsCount e; Date := Date e;
  ev_Message := ev_Message e; ev_Story := ev_Story e; ev_Peer := ev_Peer e; Peers := Peers e;
  Bool := Bool e; MaxID := MaxID e; StillUnreadCount := StillUnreadCount e;
  ChannelPts := ChannelPts e; TopMsgID := TopMsgID e; FilterID := x; FolderID := FolderID e;
  FilterOrder := FilterOrder e; Reaction := Reaction e; Snapshot := Snapshot e |}.

Definition in_folder (x : Z) (e : UpdateEvent Body) : UpdateEvent Body := {|
  UserID := UserID e; Type_ := Type_ e; Pts := Pts e; PtsCount := PtsCount e; Date := Date e;
  ev_Message := ev_Message e; ev_Story := ev_Story e; ev_Peer := ev_Peer e; Peers := Peers e;
  Bool := Bool e; MaxID := MaxID e; StillUnreadCount := StillUnreadCount e;
  ChannelPts := ChannelPts e; TopMsgID := TopMsgID e; FilterID := FilterID e; FolderID := x;
  FilterOrder := FilterOrder e; Reaction := Reaction e; Snapshot := Snapshot e |}.

Definition ordered (x : list Z) (e : UpdateEvent Body) : UpdateEvent Body := {|
  UserID := UserID e; Type_ := Type_ e; Pts := Pts e; PtsCount := PtsCount e; Date := Date e;
  ev_Message := ev_Message e; ev_Story := ev_Story e; ev_Peer := ev_Peer e; Peers := Peers e;
  Bool := Bool e; MaxID := MaxID e; StillUnreadCount := StillUnreadCount e;
  ChannelPts := ChannelPts e; TopMsgID := TopMsgID e; FilterID := FilterID e;
  FolderID := FolderID e; FilterOrder := x; Reaction := Reaction e; Snapshot := Snapshot e |}.

Definition reacting (x : option Body) (e : UpdateEvent Body) : UpdateEvent Body := {|
  UserID := UserID e; Type_ := Type_ e; Pts := Pts e; PtsCount := PtsCount e; Date := Date e;
  ev_Message := ev_Message e; ev_Story := ev_Story e; ev_Peer := ev_Peer e; Peers := Peers e;
  Bool := Bool e; MaxID := MaxID e; StillUnreadCount := StillUnreadCount e;
  ChannelPts := ChannelPts e; TopMsgID := TopMsgID e; FilterID := FilterID e;
  FolderID := FolderID e; FilterOrder := FilterOrder e; Reaction := x; Snapshot := Snapshot e |}.

Definition carrying (x : option Body) (e : UpdateEvent Body) : UpdateEvent Body := {|
  UserID := UserID e; Type_ := Type_ e; Pts := Pts e; PtsCount := PtsCount e; Date := Date e;
  ev_Message := ev_Message e; ev_Story := ev_Story e; ev_Peer := ev_Peer e; Peers := Peers e;
  Bool := Bool e; MaxID := MaxID e; StillUnreadCount := StillUnreadCount e;
  ChannelPts := ChannelPts e; TopMsgID := TopMsgID e; FilterID := FilterID e;
  FolderID := FolderID e; FilterOrder := FilterOrder e; Reaction := Reaction e; Snapshot := x |}.

Definition if_zero (id alternative : Z) : Z := if id =? 0 then alternative else id.

Definition user_peer (id : Z) : Peer := {| peer_Type := PeerTypeUser; peer_ID := id |}.
Definition channel_peer (id : Z) : Peer := {| peer_Type := PeerTypeChannel; peer_ID := id |}.

Definition new_message_event (now : Z) (msg : Message Body) : UpdateEvent Body :=
  dated (if_zero (msg_Date msg) now) (about_message msg (event_of UpdateEventNewMessage)).

Definition RecordNewMessage (now : Z) (authKeyID : AuthKey) (userID : Z) (msg : Message Body) s : recorded :=
  recordEvent authKeyID 0 now (if_zero userID (msg_OwnerUserID msg)) (new_message_event now msg) false 0 s.

Definition PublishNewMessage (now userID : Z) (msg : Message Body) s : recorded :=
  let userID := if_zero userID (msg_OwnerUserID msg) in
  match (if 0 <? msg_ID msg then FindNewMessageEvent (svc_events s) userID (msg_ID msg) else None) with
  | Some event => (OK (event, currentState (svc_events s) now userID), s)
  | None => recordEventCore 0 0 now userID (new_message_event now msg) true 0 false s
  end.

Definition RecordMessagePoll (now userID : Z) (msg : Message Body) s : recorded :=
  recordEventWithoutState now (if_zero userID (msg_OwnerUserID msg))
    (dated (if_zero (msg_Date msg) now)
      (about_message msg (about_peer (msg_Peer msg) (event_of UpdateEventMessagePoll)))) s.

Definition story_event (story : Story Body) : UpdateEvent Body :=
  dated (story_Date story) (about_peer (story_Owner story) (about_story story (event_of UpdateEventStory))).

Definition RecordStory (now : Z) (stateAuthKeyID : AuthKey) (userID : Z) (story : Story Body)
    (excludeAuthKeyID : AuthKey) (excludeSessionID : Z) s : recorded :=
  let userID := if (userID =? 0) && bool_decide (peer_Type (story_Owner story) = PeerTypeUser)
                then peer_ID (story_Owner story) else userID in
  recordEvent stateAuthKeyID excludeAuthKeyID now userID (story_event story) true excludeSessionID s.

Definition RecordStoryFanout (now userID : Z) (story : Story Body) s : recorded :=
  if userID =? 0 then (ERR ErrStoryPeerInvalid, s)
  else recordEventCore 0 0 now userID (story_event story) true 0 false s.

Definition RecordReadStories (now : Z) (stateAuthKeyID : AuthKey) (userID : Z) (read : StoryReadResult)
    (excludeAuthKeyID : AuthKey) (excludeSessionID : Z) s : recorded :=
  recordEvent stateAuthKeyID excludeAuthKeyID now (if_zero userID (read_ViewerID read))
    (dated (read_Date read) (about_peer (read_Peer read)
      (up_to (read_MaxReadID read) (event_of UpdateEventReadStories)))) true excludeSessionID s.

Definition RecordSentStoryReaction (now : Z) (stateAuthKeyID : AuthKey) (userID : Z)
    (reaction : StoryReactionResult Body) (excludeAuthKeyID : AuthKey) (excludeSessionID : Z) s : recorded :=
  recordEvent stateAuthKeyID excludeAuthKeyID now (if_zero userID (reaction_ViewerID reaction))
    (dated (reaction_Date reaction) (about_peer (reaction_Peer reaction)
      (up_to (reaction_StoryID reaction) (about_story (reaction_Story reaction)
        (reacting (reaction_Reaction reaction) (event_of UpdateEventSentStoryReaction))))))
    true excludeSessionID s.

Definition RecordNewStoryReaction (now : Z) (stateAuthKeyID : AuthKey) (ownerUserID : Z)
    (reaction : StoryReactionResult Body) (excludeAuthKeyID : AuthKey) (excludeSessionID : Z) s : recorded :=
  let owner := story_Owner (reaction_Story reaction) in
  let ownerUserID := if (ownerUserID =? 0) && bool_decide (peer_Type owner = PeerTypeUser)
                     then peer_ID owner else ownerUserID in
  let ownerUserID :=
    if (ownerUserID =? 0) && bool_decide (peer_Type (reaction_Peer reaction) = PeerTypeUser)
    then peer_ID (reaction_Peer reaction) else ownerUserID in
  if (ownerUserID =? 0) || (reaction_ViewerID reaction =? 0)
     || bool_decide (reaction_Reaction reaction = None)
  then (ERR ErrStoryPeerInvalid, s)
  else
    recordEventCore stateAuthKeyID excludeAuthKeyID now ownerUserID
      (dated (reaction_Date reaction) (about_peer (user_peer (reaction_ViewerID reaction))
        (up_to (reaction_StoryID reaction) (about_story (reaction_Story reaction)
          (reacting (reaction_Reaction reaction) (event_of UpdateEventNewStoryReaction))))))
      true excludeSessionID false s.

Definition RecordReadHistory (now : Z) (stateAuthKeyID : AuthKey) (userID : Z) (read : ReadHistoryResult)
    (excludeAuthKeyID : AuthKey) (excludeSessionID : Z) s : recorded :=
  recordEvent stateAuthKeyID excludeAuthKeyID now (if_zero userID (history_OwnerUserID read))
    (dated now (about_peer (history_Peer read) (up_to (history_MaxID read)
      (still_unread (history_StillUnreadCount read) (at_channel_pts (history_ChannelPts read)
        (event_of UpdateEventReadHistoryInbox)))))) true excludeSessionID s.

(** The remaining methods differ in the event that they file. *)
Definition record_settings (now : Z) (stateAuthKeyID : AuthKey) (userID : Z) (event : UpdateEvent Body)
    (excludeAuthKeyID : AuthKey) (excludeSessionID : Z) s : recorded :=
  recordEvent stateAuthKeyID excludeAuthKeyID now userID event true excludeSessionID s.

Definition RecordChannelState (channelID : Z) : UpdateEvent Body :=
  about_peer (channel_peer channelID) (event_of UpdateEventChannelState).
Definition RecordContactsReset : UpdateEvent Body := event_of UpdateEventContactsReset.
Definition RecordDraftMessage (peer : Peer) (topMsgID : Z) : UpdateEvent Body :=
  about_peer peer (up_to topMsgID (event_of UpdateEventDraftMessage)).
Definition RecordDialogPinned (peer : Peer) (pinned : bool) (folderID : Z) : UpdateEvent Body :=
  about_peer peer (flagged pinned (in_folder folderID (event_of UpdateEventDialogPinned))).
Definition RecordPinnedDialogs (folderID : Z) (order : list Peer) : UpdateEvent Body :=
  about_peers order (in_folder folderID (event_of UpdateEventPinnedDialogs)).
Definition RecordSavedDialogPinned (peer : Peer) (pinned : bool) : UpdateEvent Body :=
  about_peer peer (flagged pinned (event_of UpdateEventSavedDialogPinned)).
Definition RecordPinnedSavedDialogs (order : list Peer) : UpdateEvent Body :=
  about_peers order (event_of UpdateEventPinnedSavedDialogs).
Definition RecordDialogUnreadMark (peer : Peer) (unread : bool) : UpdateEvent Body :=
  about_peer peer (flagged unread (event_of UpdateEventDialogUnreadMark)).
Definition RecordChannelViewForumAsMessages (channelID : Z) (enabled : bool) : UpdateEvent Body :=
  about_peer (channel_peer channelID) (flagged enabled (event_of UpdateEventChannelViewForum)).
Definition RecordChannelDiscussionInbox (channelID topicID maxID : Z) : UpdateEvent Body :=
  about_peer (channel_peer channelID) (in_topic topicID (up_to maxID
    (event_of UpdateEventReadChannelDiscussionInbox))).
Definition RecordPeerSettings (peer : Peer) (settings : Body) : UpdateEvent Body :=
  about_peer peer (carrying (Some settings) (event_of UpdateEventPeerSettings)).
Definition RecordPeerStoryBlocked (peer : Peer) (blocked : bool) : UpdateEvent Body :=
  about_peer peer (flagged blocked (event_of UpdateEventPeerStoryBlocked)).
Definition RecordDialogFilter (folderID : Z) (folder : option Body) : UpdateEvent Body :=
  for_filter folderID (carrying folder (event_of UpdateEventDialogFilter)).
Definition RecordDialogFilterOrder (order : list Z) : UpdateEvent Body :=
  ordered order (event_of UpdateEventDialogFilterOrder).
Definition RecordDialogFiltersReload : UpdateEvent Body := event_of UpdateEventDialogFilters.
Definition RecordFolderPeers (peers : Body) : UpdateEvent Body :=
  carrying (Some peers) (event_of UpdateEventFolderPeers).
End record.
