(* ===== verification/UpdatesInv.v ===== *)
(** The update log: chains of events, the answers of the in-process store on
    them, and the event-source interface with its laws. *)

From S2P Require Import Prelude Updates.

Open Scope Z_scope.

Section chains.
Context {Body : Type}.
Implicit Types (e : UpdateEvent Body) (l : list (UpdateEvent Body)).

(** The events of [l] follow each other without gap from position [start]. *)
Fixpoint chained (start : Z) l : Prop :=
  match l with
  | [] => True
  | e :: l' => Pts e = start + wire_count e ∧ chained (Pts e) l'
  end.

Lemma wire_count_pos e : 0 < wire_count e.
Proof. unfold wire_count. destruct (Z.leb_spec (PtsCount e) 0); lia. Qed.

(** Where a chain ends. *)
Definition end_of (start : Z) l : Z := default start (Pts <$> last l).

Lemma end_of_nil start : end_of start [] = start.
Proof. done. Qed.

Lemma end_of_cons start e l : end_of start (e :: l) = end_of (Pts e) l.
Proof. unfold end_of. rewrite last_cons. destruct (last l); done. Qed.

Lemma end_of_app start l1 l2 : end_of start (l1 ++ l2) = end_of (end_of start l1) l2.
Proof.
  revert start. induction l1 as [|e l1 IH]; intros start; simpl; [done|].
  by rewrite !end_of_cons, IH.
Qed.

Lemma chained_app start l1 l2 : chained start (l1 ++ l2) ↔ chained start l1 ∧ chained (end_of start l1) l2.
Proof.
  revert start. induction l1 as [|e l1 IH]; intros start; simpl; [rewrite end_of_nil; tauto|].
  rewrite end_of_cons, IH. tauto.
Qed.

Lemma chained_ge start l e : chained start l → e ∈ l → start < Pts e ≤ end_of start l.
Proof.
  revert start. induction l as [|e' l IH]; intros start; simpl; [set_solver|].
  intros (Hp & Hch). rewrite end_of_cons. pose proof (wire_count_pos e'). intros [->|Hin]%elem_of_cons.
  - assert (Pts e' ≤ end_of (Pts e') l); [|lia].
    clear -Hch. revert Hch. generalize (Pts e'). induction l as [|e l IH]; intros p; simpl; [rewrite end_of_nil; lia|].
    intros (? & Hch). rewrite end_of_cons. specialize (IH _ Hch). pose proof (wire_count_pos e). lia.
  - specialize (IH _ Hch Hin). lia.
Qed.

Lemma chained_end_ge start l : chained start l → start ≤ end_of start l.
Proof.
  intros Hch. destruct l as [|e l]; [rewrite end_of_nil; lia|].
  pose proof (chained_ge start (e :: l) e Hch ltac:(set_solver)). lia.
Qed.

(** Strictly increasing positions. *)
Lemma chained_sorted start l : chained start l → StronglySorted (λ a b, Pts a < Pts b) l.
Proof.
  revert start. induction l as [|e l IH]; intros start; simpl; [constructor|].
  intros (_ & Hch). constructor; [by eapply IH|]. apply Forall_forall. intros e' Hin.
  pose proof (chained_ge _ _ _ Hch Hin). lia.
Qed.

(** The events after a position on the chain. *)
Lemma after_boundary start l p :
  chained start l → start ≤ p → (p = start ∨ p ∈ Pts <$> l) →
  ∃ l1 l2, l = l1 ++ l2 ∧ end_of start l1 = p ∧ chained p l2
    ∧ filter (λ e, negb (Pts e <=? p)) l = l2.
Proof.
  intros Hch Hge Hp.
  assert (∃ l1 l2, l = l1 ++ l2 ∧ end_of start l1 = p) as (l1 & l2 & -> & Hend).
  { destruct Hp as [->|(e & -> & Hin)%list_elem_of_fmap]; [by exists [], l|].
    apply list_elem_of_split in Hin as (l1 & l2 & ->). exists (l1 ++ [e]), l2.
    rewrite <- app_assoc. split; [done|]. by rewrite end_of_app, end_of_cons, end_of_nil. }
  exists l1, l2. apply chained_app in Hch as [Hch1 Hch2]. rewrite Hend in Hch2.
  split_and!; [done..|]. rewrite filter_app. rewrite filter_none, filter_all; [done| |].
  - apply Forall_forall. intros e Hin. pose proof (chained_ge _ _ _ Hch2 Hin).
    apply negb_true_iff, Z.leb_gt. lia.
  - apply Forall_forall. intros e Hin. pose proof (chained_ge _ _ _ Hch1 Hin).
    apply negb_false_iff, Z.leb_le. lia.
Qed.

Lemma list_after_spec pts limit out l :
  Z.of_nat (length out) < limit →
  list_after pts limit out l = out ++ take (Z.to_nat limit - length out) (filter (λ e, negb (Pts e <=? pts)) l).
Proof.
  revert out. induction l as [|e l IH]; intros out Hlt; [by rewrite filter_nil, take_nil, app_nil_r|].
  cbn [list_after]. rewrite filter_bool_cons. destruct (Pts e <=? pts); simpl; [by apply IH|].
  rewrite (proj2 (Z.ltb_lt 0 limit)) by lia. simpl. rewrite length_app. simpl.
  destruct (Z.leb_spec limit (Z.of_nat (length out + 1))) as [Hle|Hgt].
  - replace (Z.to_nat limit - length out)%nat with 1%nat by lia. simpl. by rewrite take_0.
  - rewrite IH by (rewrite length_app; simpl; lia). rewrite length_app. simpl.
    replace (Z.to_nat limit - length out)%nat with (S (Z.to_nat limit - (length out + 1))) by lia.
    simpl. by rewrite <- app_assoc.
Qed.

(** ** The contiguous position *)

Lemma follow_mono fuel (m : gmap Z Z) c r : follow fuel m c = Some r → follow (S fuel) m c = Some r.
Proof.
  revert c. induction fuel as [|fuel IH]; intros c; cbn [follow].
  - destruct (m !! c); [done|]. intros [= <-]. done.
  - destruct (m !! c) as [next|] eqn:Hn; [|done]. apply IH.
Qed.

(** When every link goes up, the links that remain ahead bound the turns. *)
Lemma follow_ends fuel (m : gmap Z Z) c :
  (∀ a b, m !! a = Some b → a < b) →
  (size (filter (λ kv, Z.le c kv.1) m) ≤ fuel)%nat → is_Some (follow fuel m c).
Proof.
  intros Hup. revert c. induction fuel as [|fuel IH]; intros c Hsize.
  - cbn [follow]. destruct (m !! c) as [next|] eqn:Hn; [|done].
    exfalso. assert (size (filter (λ kv : Z * Z, Z.le c kv.1) m) = 0%nat) as H0 by lia.
    apply map_size_empty_iff in H0.
    assert (filter (λ kv : Z * Z, c ≤ kv.1) m !! c = Some next) as Hl.
    { apply map_lookup_filter_Some. split; [done | simpl; lia]. }
    rewrite H0 in Hl. by rewrite lookup_empty in Hl.
  - cbn [follow]. destruct (m !! c) as [next|] eqn:Hn; [|done]. apply IH.
    pose proof (Hup _ _ Hn) as Hlt.
    assert (filter (λ kv : Z * Z, next ≤ kv.1) m ⊆ delete c (filter (λ kv : Z * Z, c ≤ kv.1) m)) as Hsub.
    { apply map_subseteq_spec. intros a b [Hab Hle]%map_lookup_filter_Some. simpl in Hle.
      rewrite lookup_delete_ne by lia. apply map_lookup_filter_Some. split; [done | simpl; lia]. }
    apply map_subseteq_size in Hsub.
    rewrite map_size_delete_Some in Hsub; [lia|]. exists next.
    apply map_lookup_filter_Some. split; [done | simpl; lia].
Qed.

Lemma starts_snoc l e : starts (l ++ [e]) = <[Pts e - wire_count e := Pts e]> (starts l).
Proof. unfold starts. by rewrite fold_left_app. Qed.

Lemma starts_up l a b : starts l !! a = Some b → a < b.
Proof.
  induction l as [|e l IH] using rev_ind; [done|]. rewrite starts_snoc.
  intros [[<- <-]|[_ Hl]]%lookup_insert_Some; [|by apply IH].
  pose proof (wire_count_pos e). lia.
Qed.

Lemma starts_origin l a b : starts l !! a = Some b → ∃ e, e ∈ l ∧ Pts e = b ∧ a = b - wire_count e.
Proof.
  induction l as [|e l IH] using rev_ind; [done|]. rewrite starts_snoc.
  intros [[<- <-]|[_ Hl]]%lookup_insert_Some; [exists e; set_solver|].
  destruct (IH Hl) as (e' & Hin & ?). exists e'. set_solver.
Qed.

(** The loop of [MaxContiguousPts] ends, whatever the log contains. *)
Lemma MaxContiguousPts_Some (s : UpdateEventStore Body) u : is_Some (MaxContiguousPts s u).
Proof.
  unfold MaxContiguousPts. apply follow_ends; [apply starts_up|].
  apply map_subseteq_size, map_filter_subseteq.
Qed.

Lemma starts_fold_other l q (m : gmap Z Z) k :
  chained q l → k < q → fold_left (λ m e, <[Pts e - wire_count e := Pts e]> m) l m !! k = m !! k.
Proof.
  revert q m. induction l as [|e l IH]; intros q m; [done|]. simpl. intros (Hp & Hch) Hlt.
  pose proof (wire_count_pos e). rewrite (IH (Pts e)) by (done || lia). rewrite lookup_insert_ne; [done | lia].
Qed.

Lemma starts_lookup start l1 e l2 :
  chained start (l1 ++ e :: l2) → starts (l1 ++ e :: l2) !! (end_of start l1) = Some (Pts e).
Proof.
  intros Hch. apply chained_app in Hch as [Hch1 (Hp & Hch2)]. pose proof (wire_count_pos e).
  unfold starts. rewrite fold_left_app. simpl. rewrite (starts_fold_other _ (Pts e)) by (done || lia).
  replace (Pts e - wire_count e) with (end_of start l1) by lia. apply lookup_insert_eq.
Qed.

Lemma follow_chain l1 l2 fuel :
  chained 0 (l1 ++ l2) → (length l2 ≤ fuel)%nat →
  follow fuel (starts (l1 ++ l2)) (end_of 0 l1) = Some (end_of 0 (l1 ++ l2)).
Proof.
  revert l1 fuel. induction l2 as [|e l2 IH]; intros l1 fuel Hch Hf.
  - rewrite app_nil_r in *.
    assert (starts l1 !! end_of 0 l1 = None) as Hn; [|destruct fuel; cbn [follow]; by rewrite Hn].
    destruct (starts l1 !! end_of 0 l1) as [b|] eqn:Hb; [|done]. exfalso.
    pose proof (starts_up _ _ _ Hb). apply starts_origin in Hb as (e & Hin & <- & _).
    pose proof (chained_ge _ _ _ Hch Hin). lia.
  - simpl in Hf. destruct fuel as [|fuel]; [lia|]. cbn [follow].
    rewrite (starts_lookup 0) by done.
    specialize (IH (l1 ++ [e]) fuel). rewrite <- app_assoc in IH. simpl in IH.
    rewrite end_of_app, end_of_cons, end_of_nil in IH. apply IH; [done | lia].
Qed.

Lemma starts_size start l : chained start l → size (starts l) = length l.
Proof.
  induction l as [|e l IH] using rev_ind; [done|]. rewrite starts_snoc. intros Hch.
  apply chained_app in Hch as [Hch (Hp & _)]. pose proof (wire_count_pos e). rewrite length_app. simpl.
  rewrite map_size_insert_None; [rewrite IH by done; lia|].
  destruct (starts l !! (Pts e - wire_count e)) as [b|] eqn:Hb; [|done]. exfalso.
  pose proof (starts_up _ _ _ Hb). apply starts_origin in Hb as (e' & Hin & <- & _).
  pose proof (chained_ge _ _ _ Hch Hin). lia.
Qed.

Lemma MaxContiguousPts_chained (s : UpdateEventStore Body) u :
  chained 0 (eventsOf s u) → MaxContiguousPts s u = Some (end_of 0 (eventsOf s u)).
Proof.
  intros Hch. unfold MaxContiguousPts. rewrite (starts_size 0) by done.
  by apply (follow_chain [] (eventsOf s u)).
Qed.

Lemma max_pts_chained l : chained 0 l → max_pts l = end_of 0 l.
Proof.
  unfold max_pts. induction l as [|e l IH] using rev_ind; [done|].
  intros Hch. apply chained_app in Hch as [Hch (Hp & _)]. pose proof (wire_count_pos e).
  rewrite fold_left_app, end_of_app, end_of_cons, end_of_nil. simpl. rewrite IH by done.
  by rewrite (proj2 (Z.ltb_lt _ _)) by lia.
Qed.
End chains.
