(* ===== verification/UpdatesDiff.v ===== *)
(** Fetching differences: what one page contains, and that following pages
    deliver the whole log. *)

From S2P Require Import Prelude Updates UpdatesInv.

Open Scope Z_scope.

(** * Event sources *)

(** A source keeps, for every account, a chain of events above the position up
    to which old events were removed. *)
Class EventLog (Body E : Type) `{EventSource Body E} := {
  source_log : E → Z → list (UpdateEvent Body);
  source_floor : E → Z → Z;
}.

Record source_ok {Body E} `{EventLog Body E} (s : E) : Prop := {
  so_floor u : 0 ≤ source_floor s u;
  so_chained u : chained (source_floor s u) (source_log s u);
  so_contiguous u : source_MaxContiguousPts s u = end_of (source_floor s u) (source_log s u);
  so_list u pts limit : 0 < limit →
    source_ListAfter s u pts limit
    = take (Z.to_nat limit) (filter (λ e, negb (Pts e <=? pts)) (source_log s u));
  so_checkpoint f d u pts date : source_Checkpoint = Some f → f s d u = Some (pts, date) →
    pts = source_floor s u;
}.

(** The device is served: it may skip what was removed. *)
Definition serves {Body E} `{EventLog Body E} (s : E) (d : AuthKey) (u : Z) : Prop :=
  source_floor s u = 0 ∨
  ∃ f date, source_Checkpoint = Some f ∧ f s d u = Some (source_floor s u, date).

#[export] Instance memory_log {Body} : EventLog Body (UpdateEventStore Body) := {|
  source_log := eventsOf;
  source_floor _ _ := 0;
|}.

Lemma memory_source_ok {Body} (s : UpdateEventStore Body) :
  (∀ u, chained 0 (eventsOf s u)) → source_ok s.
Proof.
  intros Hch. split; simpl; try done.
  - intros u. by rewrite MaxContiguousPts_chained.
  - intros u pts limit Hl. unfold ListAfter. rewrite list_after_spec by (simpl; lia). simpl.
    by rewrite Nat.sub_0_r.
Qed.

(** * One page *)

(** What [sort.Slice] may do. *)
Definition sorts {Body} (sort_by_pts : list (UpdateEvent Body) → list (UpdateEvent Body)) : Prop :=
  ∀ l, sort_by_pts l ≡ₚ l ∧ StronglySorted (λ a b, Pts a ≤ Pts b) (sort_by_pts l).

Section page.
Context {Body : Type}.
Implicit Types (e : UpdateEvent Body) (l : list (UpdateEvent Body)).

Lemma sorted_unique l1 l2 :
  l1 ≡ₚ l2 → StronglySorted (λ a b, Pts a ≤ Pts b) l1 → StronglySorted (λ a b, Pts a < Pts b) l2 → l1 = l2.
Proof.
  revert l2. induction l1 as [|x l1 IH]; intros l2 Hp H1 H2.
  { by apply Permutation_nil_l in Hp. }
  destruct l2 as [|y l2]; [by apply Permutation_nil_r in Hp|].
  apply StronglySorted_inv in H1 as [H1 Hx]. apply StronglySorted_inv in H2 as [H2 Hy].
  rewrite Forall_forall in Hx. rewrite Forall_forall in Hy.
  assert (x = y) as ->.
  { assert (y ∈ x :: l1) as Hyin by (rewrite Hp; by left).
    assert (x ∈ y :: l2) as Hxin by (rewrite <- Hp; by left).
    apply elem_of_cons in Hyin as [->|Hyin]; [done|]. apply elem_of_cons in Hxin as [->|Hxin]; [done|].
    specialize (Hx y Hyin). specialize (Hy x Hxin). lia. }
  f_equal. apply IH; [|done..]. by apply Permutation_cons_inv in Hp.
Qed.

Lemma sorts_chained sort_by_pts start l : sorts sort_by_pts → chained start l → sort_by_pts l = l.
Proof.
  intros Hs Hch. destruct (Hs l) as [Hp Hss]. apply sorted_unique; [done..|].
  by eapply chained_sorted.
Qed.

(** The loop keeps a contiguous run, for any input. *)
Lemma contiguous_from_chained cursor (out sorted evs : list (UpdateEvent Body)) gap expected start :
  chained start out → end_of start out = cursor →
  contiguous_from cursor out sorted = (evs, gap, expected) →
  chained start evs ∧ ∃ more, evs = out ++ more ∧ more `prefix_of` sorted.
Proof.
  revert cursor out. induction sorted as [|e sorted IH]; intros cursor out Hch Hend Hc.
  { injection Hc as <- <- <-. split; [done|]. exists []. by rewrite app_nil_r. }
  cbn [contiguous_from] in Hc.
  destruct (Z.eqb_spec (Pts e) (cursor + wire_count e)) as [Heq|Hne]; simpl in Hc.
  - apply IH in Hc as (Hch' & more & -> & Hpre).
    + split; [done|]. exists (e :: more). rewrite <- app_assoc. split; [done | by apply prefix_cons].
    + apply chained_app. simpl. rewrite Hend. split_and!; [done|lia|done].
    + by rewrite end_of_app, end_of_cons, end_of_nil.
  - injection Hc as <- <- <-. split; [done|]. exists []. rewrite app_nil_r. split; [done | apply prefix_nil].
Qed.

Lemma contiguous_from_all cursor (out l : list (UpdateEvent Body)) :
  chained cursor l → contiguous_from cursor out l = (out ++ l, None, 0).
Proof.
  revert cursor out. induction l as [|e l IH]; intros cursor out; [by rewrite app_nil_r|].
  intros (Hp & Hch). cbn [contiguous_from].
  rewrite <- Hp, Z.eqb_refl. simpl. rewrite IH by done. by rewrite <- app_assoc.
Qed.

Lemma contiguousPrefix_all sort_by_pts start l :
  sorts sort_by_pts → chained start l → contiguousPrefix sort_by_pts l start = l.
Proof.
  intros Hs Hch. unfold contiguousPrefix, contiguousPrefixAndGap.
  destruct l as [|e l]; [done|]. rewrite bool_decide_false by done.
  rewrite (sorts_chained sort_by_pts start) by done. by rewrite contiguous_from_all.
Qed.

Lemma chained_take start n l : chained start l → chained start (take n l).
Proof. rewrite <- (take_drop n l) at 1. rewrite chained_app. tauto. Qed.
End page.

Section difference.
Context {Body E : Type} `{EL : EventLog Body E}.
Context (sort_by_pts : list (UpdateEvent Body) → list (UpdateEvent Body)) (Hsort : sorts sort_by_pts).
Implicit Types (s : E) (st from : UpdateState).

(** The position a request is answered from. *)
Definition clamped s (u : Z) from : Z := Z.min (Z.max 0 (st_Pts from)) (source_MaxContiguousPts s u).

Lemma clamp_Pts s now u from :
  0 ≤ source_MaxContiguousPts s u →
  st_Pts (clampDifferenceState from (currentState s now u)) = clamped s u from.
Proof.
  intros Hge. unfold clamped, clampDifferenceState, currentState. simpl.
  destruct (Z.ltb_spec (st_Pts from) 0); destruct (Z.ltb_spec (source_MaxContiguousPts s u) 0);
    destruct (Z.ltb_spec (source_MaxContiguousPts s u) (st_Pts from)); lia.
Qed.

Lemma checkpoint_Some s d u from current diff :
  source_ok s → retainedPrefixCheckpoint s d u from current = Some diff →
  st_Pts from < source_floor s u ∧ st_Pts (diff_State diff) = source_floor s u
  ∧ diff_Events diff = [] ∧ Partial diff = true.
Proof.
  intros Hs. unfold retainedPrefixCheckpoint. destruct source_Checkpoint as [f|] eqn:Hf; [|done].
  destruct (f s d u) as [[pts date]|] eqn:Hc; [|done].
  rewrite (so_checkpoint _ Hs _ _ _ _ _ Hf Hc). destruct (Z.leb_spec (source_floor s u) (st_Pts from)); [done|].
  intros [= <-]. split_and!; [done| |done|done]. simpl.
  destruct (0 <? date); [done|]. by destruct (_ =? _).
Qed.

Lemma checkpoint_None s d u from current :
  source_ok s → serves s d u → retainedPrefixCheckpoint s d u from current = None →
  0 ≤ st_Pts from → source_floor s u ≤ st_Pts from.
Proof.
  intros Hs [Hf|(f & date & Hf & Hc)] Hn Hge; [lia|].
  unfold retainedPrefixCheckpoint in Hn. rewrite Hf, Hc in Hn.
  by destruct (Z.leb_spec (source_floor s u) (st_Pts from)).
Qed.

(** A cursor that a response may have carried. *)
Definition known_cursor s (u p : Z) : Prop :=
  p ≤ source_floor s u ∨ source_MaxContiguousPts s u ≤ p ∨ p ∈ Pts <$> source_log s u.

(** The log above a position. *)
Definition above s (u p : Z) : list (UpdateEvent Body) :=
  filter (λ e, negb (Pts e <=? p)) (source_log s u).

Definition page s (now : Z) (d : AuthKey) (u : Z) from : UpdateDifference Body :=
  GetDifference sort_by_pts s s s s now d u from.

(** The three kinds of pages of a source at rest. *)
Lemma page_cases s now d u from :
  source_ok s → serves s d u → known_cursor s u (clamped s u from) →
  let p := clamped s u from in
  let diff := page s now d u from in
  (p < source_floor s u ∧ st_Pts (diff_State diff) = source_floor s u
     ∧ diff_Events diff = [] ∧ Partial diff = true)
  ∨ (source_MaxContiguousPts s u ≤ p ∧ source_floor s u ≤ p
     ∧ st_Pts (diff_State diff) = p ∧ diff_Events diff = [] ∧ Partial diff = false)
  ∨ (source_floor s u ≤ p < source_MaxContiguousPts s u
     ∧ diff_Events diff = take (Z.to_nat getDifferenceLimit) (above s u p)
     ∧ chained p (above s u p) ∧ end_of p (above s u p) = source_MaxContiguousPts s u
     ∧ st_Pts (diff_State diff) = end_of p (diff_Events diff)
     ∧ Partial diff = (Z.of_nat (length (diff_Events diff)) =? getDifferenceLimit)).
Proof.
  intros Hs Hserve Hknown p diff.
  assert (0 ≤ source_MaxContiguousPts s u) as Hge.
  { rewrite (so_contiguous _ Hs). pose proof (chained_end_ge _ _ (so_chained _ Hs u)).
    pose proof (so_floor _ Hs u). lia. }
  assert (0 ≤ p ≤ source_MaxContiguousPts s u) as Hp by (unfold p, clamped; lia).
  pose proof (clamp_Pts s now u from Hge) as Hclamp.
  unfold diff, page, GetDifference. cbv zeta. clear diff.
  destruct (retainedPrefixCheckpoint _ _ _ _ _) as [cp|] eqn:Hcp.
  { left. apply checkpoint_Some in Hcp as (H1 & H2 & H3 & H4); [|done]. rewrite Hclamp in H1. auto. }
  apply checkpoint_None in Hcp as Hfl; [|done|done|rewrite Hclamp; lia]. rewrite Hclamp in Hfl. right.
  rewrite Hclamp. change (st_Pts (currentState s now u)) with (source_MaxContiguousPts s u). fold p.
  destruct (Z.leb_spec (source_MaxContiguousPts s u) p) as [Hle|Hgt].
  { left. split_and!; [done|done| |done|done]. simpl. destruct (negb _); simpl; lia. }
  right.
  destruct (after_boundary (source_floor s u) (source_log s u) p) as (l1 & l2 & Hlog & Hend1 & Hch2 & Hab).
  { apply (so_chained _ Hs). }
  { done. }
  { destruct Hknown as [?|[?|?]]; [left; unfold p in *; lia | unfold p in *; lia | by right]. }
  assert (above s u p = l2) as Hab' by done.
  assert (end_of p l2 = source_MaxContiguousPts s u) as Hend.
  { by rewrite (so_contiguous _ Hs), Hlog, end_of_app, Hend1. }
  rewrite (so_list _ Hs) by done. fold (above s u p). rewrite Hab'.
  set (evs := take (Z.to_nat getDifferenceLimit) l2).
  assert (chained p evs) as Hche by by apply chained_take.
  assert (contiguousPrefix sort_by_pts evs p = evs) as Hcont by by apply contiguousPrefix_all.
  rewrite Hcont.
  assert (evs ≠ []) as Hne.
  { intros He. unfold evs in He. destruct l2; [|done]. rewrite end_of_nil in Hend. lia. }
  rewrite bool_decide_false by (by destruct evs). cbn [andb].
  split_and!; [done|lia|done|done|done| |done].
  simpl. unfold end_of. by destruct (last evs).
Qed.

(** A client that follows the pages; [None] when the fuel runs out. *)
Fixpoint sync (fuel : nat) s (now : Z) (d : AuthKey) (u : Z) from
    : option (list (UpdateEvent Body) * UpdateState) :=
  match fuel with
  | O => None
  | S fuel' =>
      let diff := page s now d u from in
      if Partial diff then
        '(evs, st) ← sync fuel' s now d u (diff_State diff);
        Some (diff_Events diff ++ evs, st)
      else Some (diff_Events diff, diff_State diff)
  end.

Lemma clamped_known s u p :
  source_ok s → source_floor s u ≤ p ≤ source_MaxContiguousPts s u → ∀ from, st_Pts from = p → clamped s u from = p.
Proof. intros Hs Hp from <-. pose proof (so_floor _ Hs u). unfold clamped. lia. Qed.

Lemma above_above s u p q : p ≤ q → above s u q = filter (λ e, negb (Pts e <=? q)) (above s u p).
Proof.
  intros Hle. unfold above. rewrite filter_filter_bool. apply filter_bool_ext. intros e _.
  destruct (Z.leb_spec (Pts e) p), (Z.leb_spec (Pts e) q); simpl; try done. lia.
Qed.

(** Above the floor, the log that remains bounds the pages. *)
Lemma sync_above s now d u fuel from :
  source_ok s → serves s d u → known_cursor s u (clamped s u from) →
  source_floor s u ≤ clamped s u from →
  (length (above s u (clamped s u from)) < fuel * Z.to_nat getDifferenceLimit)%nat →
  ∃ st, sync fuel s now d u from = Some (above s u (clamped s u from), st)
    ∧ st_Pts st = source_MaxContiguousPts s u.
Proof.
  intros Hs Hserve. revert from. induction fuel as [|fuel IH]; intros from Hk Hfl Hlen; [lia|].
  set (p := clamped s u from) in *. cbn [sync].
  assert (p ≤ source_MaxContiguousPts s u) as Hpm by (unfold p, clamped; lia).
  destruct (page_cases s now d u from Hs Hserve Hk) as [(Hlt & _)|[(Hge & _ & Hst & Hev & ->)|
    (Hr & Hev & Hch & Hend & Hst & Hpart)]]; [unfold p in *; lia|fold p in Hge, Hst|fold p in Hr, Hev, Hch, Hend, Hst].
  - eexists. split; [|rewrite Hst; lia]. do 2 f_equal. rewrite Hev.
    unfold above. symmetry. apply filter_none, Forall_forall. intros e Hin.
    pose proof (chained_ge _ _ _ (so_chained _ Hs u) Hin). rewrite <- (so_contiguous _ Hs) in *.
    apply negb_false_iff, Z.leb_le. lia.
  - set (evs := diff_Events _) in *. set (q := end_of p evs) in *.
    assert (above s u p = evs ++ drop (Z.to_nat getDifferenceLimit) (above s u p)) as Hsplit.
    { rewrite Hev. by rewrite take_drop. }
    destruct (Z.eqb_spec (Z.of_nat (length evs)) getDifferenceLimit) as [Hfull|Hshort]; rewrite Hpart.
    + assert (chained p evs ∧ chained q (drop (Z.to_nat getDifferenceLimit) (above s u p))) as [Hc1 Hc2].
      { rewrite Hsplit in Hch. by apply chained_app in Hch. }
      assert (p ≤ q ∧ q ≤ source_MaxContiguousPts s u) as [Hpq Hqm].
      { pose proof (chained_end_ge _ _ Hc1). split; [done|]. rewrite <- Hend, Hsplit, end_of_app.
        by apply chained_end_ge. }
      assert (clamped s u (diff_State (page s now d u from)) = q) as Hq.
      { apply clamped_known; [done|lia|done]. }
      assert (above s u q = drop (Z.to_nat getDifferenceLimit) (above s u p)) as Habq.
      { rewrite (above_above s u p q) by done. rewrite Hsplit at 1. rewrite filter_app.
        rewrite filter_none, filter_all; [done| |]; apply Forall_forall; intros e Hin.
        - pose proof (chained_ge _ _ _ Hc2 Hin). apply negb_true_iff, Z.leb_gt. lia.
        - pose proof (chained_ge _ _ _ Hc1 Hin). apply negb_false_iff, Z.leb_le. unfold q. lia. }
      destruct (IH (diff_State (page s now d u from))) as (st & Hsync & Hst').
      * rewrite Hq. right. right. unfold q. destruct (last evs) as [e|] eqn:Hl; unfold end_of; rewrite Hl; simpl.
        -- apply list_elem_of_fmap_2. apply last_Some_elem_of in Hl.
           assert (e ∈ above s u p) as Hin by (rewrite Hsplit; by apply elem_of_app; left).
           by apply elem_of_filter_bool in Hin as [_ ?].
        -- apply last_None in Hl. rewrite Hl in Hfull. done.
      * rewrite Hq. lia.
      * rewrite Hq, Habq, length_drop. rewrite Hev, length_take in Hfull.
        change (Z.to_nat getDifferenceLimit) with 100%nat in *. unfold getDifferenceLimit in Hfull. lia.
      * exists st. rewrite Hsync. simpl. split; [|done]. do 2 f_equal. rewrite Hq, Habq. by rewrite <- Hsplit.
    + exists (diff_State (page s now d u from)). split.
      * do 2 f_equal. rewrite Hev. apply take_ge. fold evs in Hev. rewrite Hev in Hshort.
        rewrite length_take in Hshort. unfold getDifferenceLimit in *. lia.
      * rewrite Hst. rewrite <- Hend. unfold q. f_equal. rewrite Hev. apply take_ge.
        rewrite Hev in Hshort. rewrite length_take in Hshort. unfold getDifferenceLimit in *. lia.
Qed.
End difference.
