(* ===== verification/UpdatesProps.v ===== *)
(** The update log and its cursors: properties. *)

From S2P Require Import Prelude Updates UpdatesInv UpdatesDiff.

Open Scope Z_scope.

(** * Pages *)

Section pages.
Context {Body E : Type} `{EventSource Body E}.
Context (sort_by_pts : list (UpdateEvent Body) → list (UpdateEvent Body)).
Implicit Types (s : E).

Lemma clamp_le s now u from :
  st_Pts (clampDifferenceState from (currentState s now u)) ≤ source_MaxContiguousPts s u.
Proof.
  unfold clampDifferenceState, currentState. simpl.
  destruct (Z.ltb_spec (st_Pts from) 0); destruct (Z.ltb_spec (source_MaxContiguousPts s u) 0);
    destruct (Z.ltb_spec (source_MaxContiguousPts s u) (st_Pts from)); lia.
Qed.

(** [diff] answers with the checkpoint at which the log [s] keeps its events
    again: no events, more to come, and the cursor at the checkpoint. *)
Definition answers_checkpoint s d u (from : UpdateState) (diff : UpdateDifference Body) : Prop :=
  ∃ f pts date, source_Checkpoint = Some f ∧ f s d u = Some (pts, date) ∧ st_Pts from < pts
    ∧ diff_Events diff = [] ∧ Partial diff = true
    ∧ st_Pts (diff_State diff) = pts ∧ st_Qts (diff_State diff) = st_Qts from
    ∧ (0 < date → st_Date (diff_State diff) = date).

Lemma checkpoint_shape s d u from current diff :
  retainedPrefixCheckpoint s d u from current = Some diff → answers_checkpoint s d u from diff.
Proof.
  unfold retainedPrefixCheckpoint, answers_checkpoint. destruct source_Checkpoint as [f|]; [|done].
  destruct (f s d u) as [[pts date]|] eqn:Hf; [|done].
  destruct (Z.leb_spec pts (st_Pts from)); [done|]. intros [= <-]. exists f, pts, date. cbn [diff_Events Partial diff_State].
  split_and!; try done; destruct (Z.ltb_spec 0 date); try done; try lia; by destruct (_ =? _).
Qed.

(** C13: whatever the event log contains and however it grows while a request is
    being answered, a page of [GetDifference] never skips a position: it is
    either the checkpoint that the log names for the removed prefix, ahead of
    the (clamped) cursor of the request, or a run of stored events without gap
    from that cursor to the cursor that is returned; and a page that announces
    more has moved the cursor. *)
Theorem difference_never_skips s s1 s2 s3 now d u from :
  sorts sort_by_pts →
  let from' := clampDifferenceState from (currentState s now u) in
  let p := st_Pts from' in
  let diff := GetDifference sort_by_pts s s1 s2 s3 now d u from in
  (Partial diff = true → p < st_Pts (diff_State diff))
  ∧ (answers_checkpoint s1 d u from' diff ∨ answers_checkpoint s3 d u from' diff
     ∨ (chained p (diff_Events diff) ∧ st_Pts (diff_State diff) = end_of p (diff_Events diff)
        ∧ ∀ e, e ∈ diff_Events diff → e ∈ source_ListAfter s2 u p getDifferenceLimit)).
Proof.
  intros Hsort from' p diff. unfold diff, GetDifference. cbv zeta. fold from' p. clear diff.
  assert (∀ s' cp, retainedPrefixCheckpoint s' d u from' (currentState s now u) = Some cp →
    answers_checkpoint s' d u from' cp ∧ p < st_Pts (diff_State cp)) as Hcheck.
  { intros s' cp Hcp%checkpoint_shape. split; [done|]. by destruct Hcp as (f & pts & date & _ & _ & Hlt & _ & _ & -> & _). }
  destruct (retainedPrefixCheckpoint s1 _ _ _ _) as [cp|] eqn:Hcp.
  { apply Hcheck in Hcp as []. auto. }
  change (st_Pts (currentState s now u)) with (source_MaxContiguousPts s u).
  destruct (Z.leb_spec (source_MaxContiguousPts s u) p) as [Hle|Hgt].
  { split; [done|]. right. right. cbn [diff_State diff_Events]. split_and!; [done| |set_solver]. rewrite end_of_nil.
    pose proof (clamp_le s now u from) as Hcl. fold from' p in Hcl. destruct (negb _); simpl; lia. }
  set (evs := contiguousPrefix _ _ _).
  assert (chained p evs ∧ ∀ e, e ∈ evs → e ∈ source_ListAfter s2 u p getDifferenceLimit) as [Hch Hin].
  { unfold evs, contiguousPrefix, contiguousPrefixAndGap. case_bool_decide; [set_solver|].
    destruct (contiguous_from _ _ _) as [[out gap] expected] eqn:Hc.
    apply (contiguous_from_chained _ _ _ _ _ _ p) in Hc as (Hch & more & -> & Hpre); [|done|done].
    split; [done|]. intros e He. simpl in He. destruct (Hsort (source_ListAfter s2 u p getDifferenceLimit)) as [Hperm _].
    rewrite <- Hperm. destruct Hpre as [rest ->]. set_solver. }
  destruct (if bool_decide _ && _ then _ else _) as [cp|] eqn:Hcp3.
  { destruct (bool_decide _ && _); [|done]. apply Hcheck in Hcp3 as []. auto. }
  assert (st_Pts (default (with_Seq 0 (with_Pts (default p (Pts <$> last evs)) (currentState s now u)))
    ((λ ev, with_Date (Date ev) (with_Seq 0 (with_Pts (default p (Pts <$> last evs)) (currentState s now u))))
      <$> last evs)) = end_of p evs) as Hend.
  { unfold end_of. by destruct (last evs). }
  cbn [diff_State diff_Events Partial]. rewrite Hend. split; [|right; right; auto].
  intros Hfull%Z.eqb_eq. destruct evs as [|e evs']; [done|].
  pose proof (chained_ge p (e :: evs') e Hch ltac:(by left)). lia.
Qed.
End pages.

Section complete.
Context {Body E : Type} `{EL : EventLog Body E}.
Context (sort_by_pts : list (UpdateEvent Body) → list (UpdateEvent Body)).

(** C14: a client that follows the pages of a log at rest receives exactly the
    events above its cursor (or above the removed prefix, which its device may
    skip), each once and in order, and ends at the account's current position
    after at most one page per hundred events and two more. *)
Theorem difference_pages_are_complete (s : E) now d u from fuel :
  sorts sort_by_pts → source_ok s → serves s d u → known_cursor s u (clamped s u from) →
  (length (above s u (clamped s u from)) / 100 + 2 ≤ fuel)%nat →
  ∃ st, sync sort_by_pts fuel s now d u from
      = Some (above s u (Z.max (clamped s u from) (source_floor s u)), st)
    ∧ st_Pts st = source_MaxContiguousPts s u.
Proof.
  intros Hsort Hs Hserve Hk Hfuel. set (p := clamped s u from) in *.
  pose proof (Nat.div_mod_eq (length (above s u p)) 100) as Hdiv.
  pose proof (Nat.mod_upper_bound (length (above s u p)) 100 ltac:(done)) as Hmod.
  destruct (Z.le_gt_cases (source_floor s u) p) as [Hle|Hgt].
  - rewrite Z.max_l by done. apply sync_above; [done..|].
    change (Z.to_nat getDifferenceLimit) with 100%nat. fold p. lia.
  - rewrite Z.max_r by lia.
    destruct fuel as [|fuel]; [lia|]. cbn [sync].
    destruct (page_cases sort_by_pts Hsort s now d u from Hs Hserve Hk) as [(_ & Hst & Hev & Hpart)|
      [(_ & Hge & _)|(Hr & _)]]; [|fold p in Hge; lia|fold p in Hr; lia].
    rewrite Hpart, Hev.
    assert (source_floor s u ≤ source_MaxContiguousPts s u) as Hfm.
    { rewrite (so_contiguous _ Hs). apply chained_end_ge, (so_chained _ Hs). }
    set (from' := diff_State (page sort_by_pts s now d u from)) in *.
    assert (clamped s u from' = source_floor s u) as Hq by (apply clamped_known; [done|lia|done]).
    destruct (sync_above sort_by_pts Hsort s now d u fuel from') as (st & Hsync & Hst'); [done|done| | | |].
    + rewrite Hq. left. lia.
    + rewrite Hq. lia.
    + rewrite Hq. change (Z.to_nat getDifferenceLimit) with 100%nat.
      assert (length (above s u (source_floor s u)) ≤ length (above s u p))%nat; [|lia].
      rewrite (above_above s u p (source_floor s u)) by lia.
      apply length_filter.
    + exists st. rewrite Hsync, Hq. done.
Qed.
End complete.

(** * The log and the cursors over time *)

Section world.
Context {Body : Type}.
Implicit Types (ev : UpdateEvent Body) (s : Service Body).

(** The service, the confirmations that are still to be saved after an append,
    and the states that responses have carried. *)
Record world := mkWorld {
  w_svc : Service Body;
  w_pending : list (AuthKey * Z * UpdateEvent Body);
  w_answered : list (Z * UpdateState);
}.

Definition current s (u : Z) : Z := source_MaxContiguousPts (svc_events s) u.

Inductive update_step : world → world → Prop :=
  | u_append s pending answered auth excl now u ev dispatch sess (saveState : bool) r s' :
      append_recorded excl now u ev dispatch sess s = (r, s') →
      update_step (mkWorld s pending answered)
        (mkWorld s' (match r with OK ev' => if saveState then (auth, u, ev') :: pending else pending
                     | ERR _ => pending end) answered)
  | u_save s l1 l2 answered auth u ev :
      update_step (mkWorld s (l1 ++ (auth, u, ev) :: l2) answered)
        (mkWorld (save_recorded auth u true ev s).2 (l1 ++ l2) answered)
  | u_getstate s pending answered now auth u :
      update_step (mkWorld s pending answered)
        (mkWorld (GetState now auth u s).2 pending ((u, (GetState now auth u s).1) :: answered))
  | u_answer s pending answered u st :
      st_Pts st ≤ current s u →
      update_step (mkWorld s pending answered) (mkWorld s pending ((u, st) :: answered))
  | u_observe s pending answered now auth u from :
      update_step (mkWorld s pending answered)
        (mkWorld (ObserveDifferenceRequest now auth u from s).2 pending answered)
  | u_commit s pending answered auth u st mode :
      (u, st) ∈ answered →
      update_step (mkWorld s pending answered) (mkWorld (CommitDelivered auth u st mode s).2 pending answered)
  | u_confirm s pending answered now auth u ev :
      ev ∈ eventsOf (svc_events s) u →
      update_step (mkWorld s pending answered) (mkWorld (ConfirmEvent now auth u ev s).2 pending answered)
  | u_clear s pending answered auth :
      update_step (mkWorld s pending answered) (mkWorld (ClearAuthKey auth s) pending answered).

Definition initial : world :=
  mkWorld {| svc_states := NewUpdateStateStore; svc_events := NewUpdateEventStore |} [] [].

Definition log s (u : Z) : list (UpdateEvent Body) := eventsOf (svc_events s) u.
Definition cursors_below (m : gmap (AuthKey * Z) UpdateState) s : Prop :=
  ∀ a u st, m !! (a, u) = Some st → st_Pts st ≤ end_of 0 (log s u).

Record world_ok (w : world) : Prop := {
  wo_log u : chained 0 (log (w_svc w) u);
  wo_states : cursors_below (states (svc_states (w_svc w))) (w_svc w);
  wo_observed : cursors_below (observed (svc_states (w_svc w))) (w_svc w);
  wo_pending a u ev : (a, u, ev) ∈ w_pending w → Pts ev ≤ end_of 0 (log (w_svc w) u);
  wo_answered u st : (u, st) ∈ w_answered w → st_Pts st ≤ end_of 0 (log (w_svc w) u);
  wo_dispatches u d : d ∈ default [] (dispatches (svc_events (w_svc w)) !! u) →
    dispatch_Pts d ∈ Pts <$> log (w_svc w) u;
}.

Definition cursor_le (a b : UpdateState) : Prop :=
  st_Pts a ≤ st_Pts b ∧ st_Qts a ≤ st_Qts b ∧ st_Date a ≤ st_Date b ∧ st_Seq a ≤ st_Seq b.

(** Cursors of a table go forward, or the device's row is gone. *)
Definition cursors_forward (m m' : gmap (AuthKey * Z) UpdateState) : Prop :=
  ∀ k st, m !! k = Some st → m' !! k = None ∨ ∃ st', m' !! k = Some st' ∧ cursor_le st st'.

Lemma monotonic_le prev next : cursor_le prev (monotonicUpdateState prev next).
Proof.
  unfold cursor_le, monotonicUpdateState. simpl.
  destruct (Z.ltb_spec (st_Pts next) (st_Pts prev)), (Z.ltb_spec (st_Qts next) (st_Qts prev)),
    (Z.ltb_spec (st_Date next) (st_Date prev)), (Z.ltb_spec (st_Seq next) (st_Seq prev)); lia.
Qed.

Lemma monotonic_Pts prev next : st_Pts (monotonicUpdateState prev next) = Z.max (st_Pts prev) (st_Pts next).
Proof. simpl. destruct (Z.ltb_spec (st_Pts next) (st_Pts prev)); lia. Qed.

Lemma cursor_le_refl st : cursor_le st st.
Proof. unfold cursor_le. lia. Qed.

Lemma forward_refl m : cursors_forward m m.
Proof. intros k st Hk. right. exists st. split; [done | apply cursor_le_refl]. Qed.

Lemma forward_insert m k st :
  cursors_forward m (<[k := monotonicUpdateState (default zero_state (m !! k)) st]> m).
Proof.
  intros k' st' Hk. right. destruct (decide (k' = k)) as [->|Hne].
  - rewrite lookup_insert_eq. eexists. split; [done|]. rewrite Hk. apply monotonic_le.
  - rewrite lookup_insert_ne by done. exists st'. split; [done | apply cursor_le_refl].
Qed.

Lemma forward_filter (P : (AuthKey * Z) * UpdateState → Prop) `{∀ x, Decision (P x)} m :
  cursors_forward m (filter P m).
Proof.
  intros k st Hk. destruct (filter P m !! k) as [st'|] eqn:Hf; [|by left].
  apply map_lookup_filter_Some in Hf as [Hf _]. right. exists st'. split; [done|].
  simplify_eq. apply cursor_le_refl.
Qed.

Lemma below_insert (m : gmap (AuthKey * Z) UpdateState) s a u st :
  cursors_below m s → st_Pts st ≤ end_of 0 (log s u) → 0 ≤ end_of 0 (log s u) →
  cursors_below (<[(a, u) := monotonicUpdateState (default zero_state (m !! (a, u))) st]> m) s.
Proof.
  intros Hm Hst H0 a' u' st' [[[= <- <-] <-]|[_ Hl]]%lookup_insert_Some; [|by eapply Hm].
  rewrite monotonic_Pts. destruct (m !! (a, u)) as [prev|] eqn:Hp; simpl; [|lia].
  specialize (Hm _ _ _ Hp). lia.
Qed.

Lemma current_end s u : chained 0 (log s u) → current s u = end_of 0 (log s u).
Proof. intros Hch. unfold current. simpl. by rewrite MaxContiguousPts_chained. Qed.

(** ** Each store call *)

Lemma below_extend m s s' : cursors_below m s → (∀ u, end_of 0 (log s u) ≤ end_of 0 (log s' u)) → cursors_below m s'.
Proof. intros Hm Hle a u st Hl. specialize (Hm _ _ _ Hl). specialize (Hle u). lia. Qed.

(** What appending does to the log. *)
Lemma append_recorded_spec excl now u ev dispatch sess s r s' :
  chained 0 (log s u) → append_recorded excl now u ev dispatch sess s = (r, s') →
  svc_states s' = svc_states s
  ∧ match r with
    | ERR _ => svc_events s' = svc_events s
    | OK ev' =>
        Pts ev' = end_of 0 (log s u) + wire_count ev' ∧ UserID ev' = u
        ∧ log s' u = log s u ++ [ev'] ∧ (∀ v, v ≠ u → log s' v = log s v)
        ∧ ∀ v d, d ∈ default [] (dispatches (svc_events s') !! v) →
            d ∈ default [] (dispatches (svc_events s) !! v) ∨ (v = u ∧ dispatch_Pts d = Pts ev')
    end.
Proof.
  intros Hch. unfold append_recorded, AppendAllocatedWithDispatch, AppendAllocated, append_event.
  set (ev0 := placed u _ _ _ ev). destruct dispatch; cbn [andb].
  - destruct (negb (Bool.eqb _ _)); intros [= <- <-]; [done|]. cbn [svc_states with_events]. split; [done|].
    cbn [appendLocked fst snd]. unfold log, eventsOf. simpl. split_and!.
    + rewrite max_pts_chained by done. unfold wire_count. simpl. destruct (_ <=? 0) eqn:Hc; [done|]. by rewrite Hc.
    + done.
    + by rewrite lookup_insert_eq.
    + intros v Hv. by rewrite lookup_insert_ne.
    + intros v d. destruct (decide (v = u)) as [->|Hv].
      * rewrite lookup_insert_eq. simpl. rewrite elem_of_app, list_elem_of_singleton.
        intros [?| ->]; [by left | by right].
      * rewrite lookup_insert_ne by done. by left.
  - intros [= <- <-]. cbn [svc_states with_events]. split; [done|].
    unfold log, eventsOf. simpl. split_and!.
    + rewrite max_pts_chained by done. unfold wire_count. simpl. destruct (_ <=? 0) eqn:Hc; [done|]. by rewrite Hc.
    + done.
    + by rewrite lookup_insert_eq.
    + intros v Hv. by rewrite lookup_insert_ne.
    + auto.
Qed.

(** Steps that only touch the cursors. *)
Lemma states_step s pending answered f answered' pending' :
  world_ok (mkWorld s pending answered) →
  (∀ a u ev, (a, u, ev) ∈ pending' → (a, u, ev) ∈ pending) →
  (∀ u st, (u, st) ∈ answered' → (u, st) ∈ answered ∨ st_Pts st ≤ end_of 0 (log s u)) →
  cursors_below (states (f (svc_states s))) s → cursors_below (observed (f (svc_states s))) s →
  world_ok (mkWorld (with_states f s) pending' answered').
Proof.
  intros Hok Hp Ha Hs Ho. split; simpl; try done.
  - apply (wo_log _ Hok).
  - intros a u ev Hin%Hp. by apply (wo_pending _ Hok a).
  - intros u st [Hin|Hle]%Ha; [by apply (wo_answered _ Hok) | done].
  - apply (wo_dispatches _ Hok).
Qed.

Definition forward (s s' : Service Body) : Prop :=
  (∀ u, log s u `prefix_of` log s' u)
  ∧ cursors_forward (states (svc_states s)) (states (svc_states s'))
  ∧ cursors_forward (observed (svc_states s)) (observed (svc_states s')).

Lemma forward_states s f :
  cursors_forward (states (svc_states s)) (states (f (svc_states s))) →
  cursors_forward (observed (svc_states s)) (observed (f (svc_states s))) →
  forward s (with_states f s).
Proof. intros Hs Ho. by split_and!. Qed.

Lemma forward_same s : forward s s.
Proof. split_and!; [done | apply forward_refl | apply forward_refl]. Qed.

Lemma save_step s pending answered pending' answered' a u st :
  world_ok (mkWorld s pending answered) →
  (∀ a u ev, (a, u, ev) ∈ pending' → (a, u, ev) ∈ pending) →
  (∀ u st, (u, st) ∈ answered' → (u, st) ∈ answered ∨ st_Pts st ≤ end_of 0 (log s u)) →
  st_Pts st ≤ end_of 0 (log s u) →
  world_ok (mkWorld (with_states (Save a u st) s) pending' answered') ∧ forward s (with_states (Save a u st) s).
Proof.
  intros Hok Hp Ha Hst. split.
  - eapply states_step; [done..| |apply (wo_observed _ Hok)].
    apply below_insert; [apply (wo_states _ Hok) | done | apply (chained_end_ge 0), (wo_log _ Hok)].
  - apply forward_states; [apply forward_insert | apply forward_refl].
Qed.

Lemma observe_step s pending answered a u st :
  world_ok (mkWorld s pending answered) → st_Pts st ≤ end_of 0 (log s u) →
  world_ok (mkWorld (with_states (ObserveClientState a u st) s) pending answered)
  ∧ forward s (with_states (ObserveClientState a u st) s).
Proof.
  intros Hok Hst. split.
  - eapply states_step; [done|done|by left|apply (wo_states _ Hok)|].
    apply below_insert; [apply (wo_observed _ Hok) | done | apply (chained_end_ge 0), (wo_log _ Hok)].
  - apply forward_states; [apply forward_refl | apply forward_insert].
Qed.

Lemma append_step s pending answered auth excl now u ev dispatch sess (saveState : bool) r s' :
  world_ok (mkWorld s pending answered) →
  append_recorded excl now u ev dispatch sess s = (r, s') →
  world_ok (mkWorld s' (match r with OK ev' => if saveState then (auth, u, ev') :: pending else pending
                        | ERR _ => pending end) answered) ∧ forward s s'.
Proof.
  intros Hok Ha. pose proof (wo_log _ Hok u) as Hch. simpl in Hch.
  apply append_recorded_spec in Ha as [Hst Hr]; [|done].
  destruct r as [ev'|err].
  - destruct Hr as (Hp & _ & Hl & Hother & Hd).
    pose proof (wire_count_pos ev') as Hw.
    assert (∀ v, log s v `prefix_of` log s' v) as Hpre.
    { intros v. destruct (decide (v = u)) as [->|Hv]; [rewrite Hl; by eexists | by rewrite Hother]. }
    assert (∀ v, end_of 0 (log s v) ≤ end_of 0 (log s' v)) as Hend.
    { intros v. destruct (decide (v = u)) as [->|Hv]; [|by rewrite Hother].
      rewrite Hl, end_of_app, end_of_cons, end_of_nil. lia. }
    split; [|split_and!; [done | rewrite Hst; apply forward_refl..]].
    split; simpl.
    + intros v. destruct (decide (v = u)) as [->|Hv]; [|rewrite Hother by done; apply (wo_log _ Hok)].
      rewrite Hl. apply chained_app. by split_and!.
    + rewrite Hst. eapply below_extend; [apply (wo_states _ Hok) | done].
    + rewrite Hst. eapply below_extend; [apply (wo_observed _ Hok) | done].
    + intros a v ev1 Hin. assert ((a, v, ev1) ∈ pending ∨ (v = u ∧ ev1 = ev')) as [Hin'|[-> ->]].
      { destruct saveState; [|by left]. apply elem_of_cons in Hin as [[= -> -> ->]|?]; auto. }
      * pose proof (wo_pending _ Hok _ _ _ Hin') as Hle. simpl in Hle. specialize (Hend v). lia.
      * rewrite Hl, end_of_app, end_of_cons, end_of_nil. lia.
    + intros v st Hin. pose proof (wo_answered _ Hok _ _ Hin) as Hle. simpl in Hle. specialize (Hend v). lia.
    + intros v d [Hin|[-> Hdp]]%Hd.
      * pose proof (wo_dispatches _ Hok v d Hin) as Hi. simpl in Hi. destruct (Hpre v) as [rest ->].
        rewrite fmap_app. apply elem_of_app. by left.
      * rewrite Hl, fmap_app, Hdp. apply elem_of_app. right. by left.
  - assert (∀ v, log s' v = log s v) as Hlog by (intros v; unfold log; by rewrite Hr).
    split; [|split_and!; [intros v; by rewrite Hlog | rewrite Hst; apply forward_refl..]].
    split; simpl.
    + intros v. rewrite Hlog. apply (wo_log _ Hok).
    + rewrite Hst. intros a v st Hl. rewrite Hlog. by apply (wo_states _ Hok) in Hl.
    + rewrite Hst. intros a v st Hl. rewrite Hlog. by apply (wo_observed _ Hok) in Hl.
    + intros a v ev1 Hin. rewrite Hlog. by apply (wo_pending _ Hok a).
    + intros v st Hin. rewrite Hlog. by apply (wo_answered _ Hok).
    + intros v d. rewrite Hr, Hlog. apply (wo_dispatches _ Hok).
Qed.

Lemma step_ok w w' : world_ok w → update_step w w' → world_ok w' ∧ forward (w_svc w) (w_svc w').
Proof.
  intros Hok Hstep. destruct Hstep as
    [s pending answered auth excl now u ev dispatch sess saveState r s' Ha
    |s l1 l2 answered auth u ev |s pending answered now auth u|s pending answered u st Hst
    |s pending answered now auth u from|s pending answered auth u st mode Hin
    |s pending answered now auth u ev Hin|s pending answered auth]; simpl.
  - by eapply append_step.
  - refine (save_step s _ answered (l1 ++ l2) answered auth u
      {| st_Pts := Pts ev; st_Qts := 0; st_Date := Date ev; st_Seq := 0 |} Hok _ _ _);
      [set_solver | by left |].
    simpl. apply (wo_pending _ Hok auth). simpl. set_solver.
  - unfold GetState. destruct (Get (svc_states s) auth u) as [st|] eqn:Hg.
    + cbn [fst snd]. split; [|apply forward_same].
      assert (with_states (λ m, m) s = s) as Hid by by destruct s.
      rewrite <- Hid. eapply states_step; [done|done| |apply (wo_states _ Hok)|apply (wo_observed _ Hok)].
      intros v st' [[= -> ->]|?]%elem_of_cons; [right|by left].
      pose proof (wo_states _ Hok _ _ _ Hg) as Hle. simpl in Hle. by destruct (_ =? 0).
    + pose proof (current_end s u (wo_log _ Hok u)) as Hcur. unfold current in Hcur.
      refine (save_step s _ _ pending ((u, currentState (svc_events s) now u) :: answered) auth u
        (currentState (svc_events s) now u) Hok _ _ _); [done | |].
      * intros v st' [[= -> ->]|?]%elem_of_cons; [right|by left]. simpl st_Pts. rewrite <- Hcur. done.
      * simpl st_Pts. rewrite <- Hcur. done.
  - split; [|apply forward_same]. assert (with_states (λ m, m) s = s) as Hid by by destruct s.
    rewrite <- Hid. eapply states_step; [done|done| |apply (wo_states _ Hok)|apply (wo_observed _ Hok)].
    intros v st' [[= -> ->]|?]%elem_of_cons; [right|by left].
    rewrite <- (current_end s u (wo_log _ Hok u)). done.
  - eapply observe_step; [done|]. rewrite <- (current_end s u (wo_log _ Hok u)).
    exact (clamp_le (svc_events s) now u from).
  - pose proof (wo_answered _ Hok _ _ Hin) as Hle. simpl in Hle.
    destruct mode as [| |m]; cbn [CommitDelivered CommitDeliveredState fst snd].
    + apply (save_step s pending answered pending answered auth u (with_Seq 0 st)); [done|done|by left|done].
    + destruct (save_step s pending answered pending answered auth u (with_Seq 0 st) Hok) as [Hok1 (Hf1 & Hf2 & Hf3)];
        [done|by left|done|].
      destruct (observe_step _ _ _ auth u (with_Seq 0 st) Hok1) as [Hok2 (Hg1 & Hg2 & Hg3)]; [done|].
      split; [exact Hok2|]. split_and!; [done | | ].
      * apply forward_insert.
      * apply forward_insert.
    + split; [done | apply forward_same].
  - unfold ConfirmEvent. destruct (_ && _); [split; [done | apply forward_same]|].
    destruct (_ <=? 0); [split; [done | apply forward_same]|]. cbn [snd].
    eapply (save_step s pending answered pending answered auth u); [done|done|by left|]. simpl.
    pose proof (chained_ge _ _ _ (wo_log _ Hok u) Hin) as Hge. simpl in Hge. apply Hge.
  - split.
    + eapply states_step; [done|done|by left| |]; intros a u st [Hl _]%map_lookup_filter_Some;
        [by apply (wo_states _ Hok) in Hl | by apply (wo_observed _ Hok) in Hl].
    + apply forward_states; apply forward_filter.
Qed.

Lemma initial_ok : world_ok initial.
Proof.
  split; unfold initial, cursors_below, log, eventsOf, NewUpdateStateStore, NewUpdateEventStore;
    cbn [w_svc svc_states svc_events states observed events dispatches w_pending w_answered].
  - intros u. by rewrite lookup_empty.
  - intros a u st. by rewrite lookup_empty.
  - intros a u st. by rewrite lookup_empty.
  - intros a u ev Hin. by apply elem_of_nil in Hin.
  - intros u st Hin. by apply elem_of_nil in Hin.
  - intros u d. rewrite lookup_empty. simpl. intros Hin. by apply elem_of_nil in Hin.
Qed.

Lemma updates_reachable_ok w : rtc update_step initial w → world_ok w.
Proof.
  intros Hr. apply (rtc_invariant update_step world_ok initial w); [|apply initial_ok|done].
  intros w1 w2 Hok Hstep. by eapply step_ok.
Qed.

(** ** Publishing *)

Lemma find_last_new (P : UpdateEvent Body → bool) l ev :
  List.find P l = None → P ev = true → List.find P (l ++ [ev]) = Some ev.
Proof. induction l as [|x l IH]; simpl; [by intros _ ->|]. by destruct (P x). Qed.

(** A message that was published is found again. *)
Lemma publish_again now now' u (msg : Message Body) s ev st s' :
  chained 0 (log s (if_zero u (msg_OwnerUserID msg))) →
  0 < msg_ID msg → if_zero u (msg_OwnerUserID msg) ≠ 0 →
  PublishNewMessage now u msg s = (OK (ev, st), s') →
  ∃ st', PublishNewMessage now' u msg s' = (OK (ev, st'), s').
Proof.
  intros Hch Hid Hu Hp. unfold PublishNewMessage in *. cbv zeta in Hp |- *.
  set (owner := if_zero u (msg_OwnerUserID msg)) in *.
  rewrite (proj2 (Z.ltb_lt _ _) Hid) in Hp |- *.
  destruct (FindNewMessageEvent (svc_events s) owner (msg_ID msg)) as [ev0|] eqn:Hf.
  { injection Hp as <- <- <-. rewrite Hf. eauto. }
  unfold recordEventCore in Hp.
  destruct (append_recorded _ _ _ _ _ _ _) as [r s1] eqn:Ha. cbv zeta in Ha.
  assert (∃ ev1, r = OK ev1 ∧ Type_ ev1 = UpdateEventNewMessage ∧ ev_Message ev1 = Some msg) as (ev1 & -> & Hty & Hmsg).
  { revert Ha. unfold append_recorded, AppendAllocatedWithDispatch, append_event. simpl.
    intros [= <- _]. eexists. split; [done|]. done. }
  injection Hp as -> <- <-. apply append_recorded_spec in Ha as [_ (_ & _ & Hl & _)]; [|done].
  unfold FindNewMessageEvent in *.
  rewrite (proj2 (Z.eqb_neq _ _) Hu), (proj2 (Z.leb_gt _ _) Hid) in Hf |- *. simpl in Hf |- *.
  unfold log in Hl. rewrite Hl, find_last_new; [eauto|done|]. rewrite Hty, Hmsg. simpl.
  apply Z.eqb_refl.
Qed.

(** However appends, the saves that follow them, requests, deliveries and
    logouts interleave, every account's log is one gap-free chain from 0 whose
    end [MaxContiguousPts] finds, every confirmed, observed, answered or
    dispatched position lies on it, the log only grows at its end, a device's
    cursors never go back (they may be removed), and publishing a message again
    files nothing. *)
Theorem update_log_and_cursors (w : world) :
  rtc update_step initial w →
  world_ok w ∧ (∀ u, MaxContiguousPts (svc_events (w_svc w)) u = Some (end_of 0 (log (w_svc w) u)))
  ∧ (∀ w', update_step w w' → forward (w_svc w) (w_svc w'))
  ∧ ∀ now now' u msg ev st s', 0 < msg_ID msg → if_zero u (msg_OwnerUserID msg) ≠ 0 →
      PublishNewMessage now u msg (w_svc w) = (OK (ev, st), s') →
      ∃ st', PublishNewMessage now' u msg s' = (OK (ev, st'), s').
Proof.
  intros Hr. apply updates_reachable_ok in Hr as Hok. split_and!; [done| | |].
  - intros u. apply MaxContiguousPts_chained, (wo_log _ Hok).
  - intros w' Hstep. by apply step_ok.
  - intros now now' u msg ev st s' Hid Hu Hp. eapply publish_again; [apply (wo_log _ Hok)|done..].
Qed.
End world.
Arguments world : clear implicits.

(** * Example *)

Module UpdatesDemo.

#[local] Instance by_pts_dec : RelDecision (λ a b : UpdateEvent string, Pts a ≤ Pts b).
Proof. intros a b. apply _. Defined.

Definition by_pts : list (UpdateEvent string) → list (UpdateEvent string) := merge_sort (λ a b, Pts a ≤ Pts b).

Lemma by_pts_sorts : sorts by_pts.
Proof.
  intros l. split; [apply merge_sort_Permutation|].
  apply StronglySorted_merge_sort.
  - intros a b c. lia.
  - intros a b. lia.
Qed.

(** User 5 receives a message, the settings of two dialogs change. *)
Definition demo_message : Message string :=
  {| msg_ID := 1; msg_OwnerUserID := 5; msg_Peer := user_peer 6; msg_Date := 90; msg_Body := "hi" |}.

Definition demo_service : Service string :=
  let s := {| svc_states := NewUpdateStateStore; svc_events := NewUpdateEventStore |} in
  let s := (PublishNewMessage 100 0 demo_message s).2 in
  let s := (record_settings 101 77 5 (RecordDialogPinned (user_peer 6) true 0) 0 0 s).2 in
  (record_settings 102 77 5 RecordContactsReset 0 0 s).2.

Definition from_zero : UpdateState := zero_state.

Lemma difference_never_skips_witness :
  let diff := GetDifference by_pts (svc_events demo_service) (svc_events demo_service)
    (svc_events demo_service) (svc_events demo_service) 103 88 5 from_zero in
  Pts <$> diff_Events diff = [1; 2; 3] ∧ Partial diff = false ∧ chained 0 (diff_Events diff).
Proof.
  intros diff. split; [by vm_compute|]. split; [by vm_compute|].
  destruct (difference_never_skips by_pts (svc_events demo_service) (svc_events demo_service)
    (svc_events demo_service) (svc_events demo_service) 103 88 5 from_zero by_pts_sorts)
    as [_ [(f & _ & _ & Hf & _)|[(f & _ & _ & Hf & _)|(Hch & _)]]]; [done..|].
  exact Hch.
Defined.

Lemma demo_chained u : chained 0 (eventsOf (svc_events demo_service) u).
Proof.
  destruct (decide (u = 5)) as [->|Hu]; [by vm_compute|].
  unfold eventsOf.
  assert (events (svc_events demo_service) = {[5 := eventsOf (svc_events demo_service) 5]}) as ->.
  { by vm_compute. }
  by rewrite lookup_singleton_ne.
Qed.

Lemma difference_pages_are_complete_witness :
  ∃ st, sync by_pts 3 (svc_events demo_service) 103 88 5 from_zero
      = Some (eventsOf (svc_events demo_service) 5, st) ∧ st_Pts st = 3.
Proof.
  destruct (difference_pages_are_complete by_pts (svc_events demo_service) 103 88 5 from_zero 3) as (st & Hs & Hst).
  - apply by_pts_sorts.
  - apply memory_source_ok, demo_chained.
  - by left.
  - left. by vm_compute.
  - vm_compute. lia.
  - exists st. rewrite Hs, Hst. split; [|by vm_compute]. do 2 f_equal.
Defined.

Lemma update_log_and_cursors_witness :
  ∃ w : world string, rtc update_step initial w
    ∧ MaxContiguousPts (svc_events (w_svc w)) 5 = Some 1 ∧ world_ok w.
Proof.
  set (ev := new_message_event 100 demo_message).
  destruct (append_recorded 0 100 5 ev true 0 (w_svc (initial (Body:=string)))) as [r s] eqn:Ha.
  assert (rtc update_step (initial (Body:=string)) (mkWorld s (match r with OK ev' => [(77, 5, ev')] | ERR _ => [] end) [])) as Hr.
  { eapply rtc_l; [|apply rtc_refl]. exact (u_append _ [] [] 77 0 100 5 ev true 0 true r s Ha). }
  destruct (update_log_and_cursors _ Hr) as (Hok & Hmax & _).
  eexists. split; [exact Hr|]. split; [|exact Hok]. rewrite Hmax. f_equal.
  vm_compute in Ha. injection Ha as <- <-. by vm_compute.
Defined.

End UpdatesDemo.
