(* ===== verification/Messages.v ===== *)
(** Private messages: message boxes, the dialogs that show them and the
    allocators of box ids and positions ([internal/store/memory/message_*.go],
    [upsertMemoryDialog] of [dialogs.go], [internal/domain/message.go],
    [internal/store/private_send_idempotency.go]).

    Every user owns a box; a message that is sent has one copy in the sender's
    box and one in the recipient's, which share a logical id ([UID]).  An
    operation runs under the store's lock, so it is a function of the store; it
    returns what the code returns, update events included, which the caller
    sends on.  Positions and ids are Go [int]s that grow by what is allocated;
    they are unbounded integers here, and the theorems name the bound that the
    wire sets on box ids.

    Columns that are only carried along have an abstract type [P] with a zero
    value.  Parameters: [encoding/json] and SHA-256, and the summary of a
    message's reactions, which another part of the store keeps.  The clock is
    an argument.  Both companion stores (dialogs, update events) are attached,
    as they are wherever messages are served; clones are values here, because
    the store never shares what it returns.

    Not modelled: [Create] (it files the login message of a sign-up without event,
    position and dialog), the delivery of login codes, the no-forwards switch with
    the mark that it leaves on an answered request, reactions, saved tags and
    polls. *)

From S2P Require Import Prelude GoStrings Updates.

Open Scope Z_scope.

#[local] Set Default Proof Using "Type".
#[local] Set Warnings "-notation-for-abbreviation".

(** * Data *)

#[export] Instance Peer_eq_dec : EqDecision Peer.
Proof. solve_decision. Defined.

Definition user_peer (id : Z) : Peer := {| peer_Type := PeerTypeUser; peer_ID := id |}.

Definition MaxMessageBoxID : Z := 2147483647.
Definition MaxStoryID : Z := MaxMessageBoxID.
Definition MaxMessageTextLength : Z := 4096.
Definition MaxMessageReplyQuoteLength : Z := 1024.
Definition MaxMessageReplyQuoteOffset : Z := 8192.
Definition MaxMessageEntityCount : Z := 256.
Definition MaxMessageReplyExternalBytes : Z := 1048576.
Definition MaxDeleteMessageIDs : Z := 1000.
Definition MaxGetMessageIDs : Z := 100.
Definition MaxDeleteHistoryBatch : Z := 1000.
Definition MaxForwardMessageIDs : Z := 100.
Definition MaxUnpinAllBatch : nat := 1000.
Definition MaxMessageHistoryAddOffset : Z := 100.
Definition SavedHiddenAuthorUserID : Z := 2666000.
Definition DialogMainFolderID : Z := 0.

Notation MessageMediaKind := string.
Definition MessageMediaKindNone : MessageMediaKind := "".
Definition MessageMediaKindDocument : MessageMediaKind := "document".
Definition MessageMediaKindService : MessageMediaKind := "service".
Definition MessageMediaKindTodo : MessageMediaKind := "todo".
Definition MessageMediaKindWebPage : MessageMediaKind := "web_page".
Definition MessageServiceActionHistoryClear : string := "history_clear".
Definition MessageServiceActionPinMessage : string := "pin_message".
Definition MessageWebPageStatePending : string := "pending".

Inductive message_error :=
  | ErrMessageEmpty
  | ErrMessageIDInvalid
  | ErrMessageRandomIDDuplicate
  | ErrMessageAuthorRequired
  | ErrMessageNotModified
  | ErrMessageNotReadYet
  | ErrReplyMessageIDInvalid
  | ErrChatForwardsRestricted
  | ErrQuoteTextInvalid
  | ErrExternalReply
  | ErrFingerprint
  | ErrReplayScope
  | ErrSnapshot
  | ErrSenderCopyAbsent
  | ErrTooManyIDs
  | ErrMissingOwner.

#[export] Instance message_error_eq_dec : EqDecision message_error.
Proof. solve_decision. Defined.

Section data.
Context {P : Type}.

(** Columns that are compared or measured have a name. *)
Record MessageEntity := {
  ent_Offset : Z;
  ent_Length : Z;
  ent_rest : P;
}.

Record MessageMedia := {
  md_Kind : MessageMediaKind;
  md_ServiceAction : option string;
  md_WebPage : option (Z * string);
  md_Todo : bool;
  md_TTLSeconds : Z;
  md_Voice : bool;
  md_Round : bool;
  md_Document : option (list (string * bool));
  md_rest : P;
}.

Record MessageForward := {
  fwd_From : Peer;
  fwd_FromName : string;
  fwd_Date : Z;
  fwd_ChannelPost : Z;
  fwd_SavedFrom : Peer;
  fwd_SavedFromMsgID : Z;
}.

Record MessageReplyExternal := {
  ext_From : MessageForward;
  ext_Text : string;
  ext_Entities : list MessageEntity;
  ext_Media : option MessageMedia;
}.

Record MessageReply := {
  rp_MessageID : Z;
  rp_Peer : Peer;
  rp_TopMessageID : Z;
  rp_ForumTopic : bool;
  rp_QuoteText : string;
  rp_QuoteEntities : list MessageEntity;
  rp_QuoteOffset : Z;
  rp_External : option MessageReplyExternal;
  rp_StoryID : Z;
}.

Record MessageRichMessage := {
  rich_Blocks : list Z;
  rich_Photos : list P;
  rich_Documents : list P;
  rich_rest : P;
}.

Record ChannelMessageReactions := {
  rx_AsTags : bool;
  rx_ResultKeys : list string;
  rx_Recent : list P;
  rx_rest : P;
}.

Record Message := {
  m_ID : Z;
  m_UID : Z;
  m_RandomID : Z;
  m_OwnerUserID : Z;
  m_Peer : Peer;
  m_From : Peer;
  m_Date : Z;
  m_EditDate : Z;
  m_HideEdited : bool;
  m_Out : bool;
  m_Silent : bool;
  m_NoForwards : bool;
  m_Body : string;
  m_Entities : list MessageEntity;
  m_ReplyTo : option MessageReply;
  m_Forward : option MessageForward;
  m_Reactions : option ChannelMessageReactions;
  m_Pts : Z;
  m_Media : option MessageMedia;
  m_MediaUnread : bool;
  m_ReactionUnread : bool;
  m_ViaBotID : Z;
  m_GroupedID : Z;
  m_Effect : Z;
  m_ReplyMarkup : option P;
  m_RichMessage : option MessageRichMessage;
  m_Pinned : bool;
  m_SavedPeer : Peer;
}.

(** The zero value of the Go type. *)
Definition no_message : Message := {|
  m_ID := 0; m_UID := 0; m_RandomID := 0; m_OwnerUserID := 0; m_Peer := no_peer; m_From := no_peer;
  m_Date := 0; m_EditDate := 0; m_HideEdited := false; m_Out := false; m_Silent := false;
  m_NoForwards := false; m_Body := ""; m_Entities := []; m_ReplyTo := None; m_Forward := None;
  m_Reactions := None; m_Pts := 0; m_Media := None; m_MediaUnread := false; m_ReactionUnread := false;
  m_ViaBotID := 0; m_GroupedID := 0; m_Effect := 0; m_ReplyMarkup := None; m_RichMessage := None;
  m_Pinned := false; m_SavedPeer := no_peer |}.

(** What an update event carries beside its own columns: a message, or ids. *)
Inductive content :=
  | CMessage (m : Message)
  | CMessageIDs (ids : list Z).

Definition event := UpdateEvent content.

(** The dialogs of a user ([domain.Dialog]; the columns of channels are one). *)
Record Dialog := {
  d_Peer : Peer;
  d_FolderID : Z;
  d_TopMessage : Z;
  d_TopMessageDate : Z;
  d_ReadInboxMaxID : Z;
  d_ReadOutboxMaxID : Z;
  d_UnreadCount : Z;
  d_UnreadMentions : Z;
  d_UnreadReactions : Z;
  d_TTLPeriod : Z;
  d_ThemeEmoticon : string;
  d_HasScheduled : bool;
  d_Pinned : bool;
  d_PinnedOrder : Z;
  d_UnreadMark : bool;
  d_ViewForumAsMessages : bool;
  d_PeerSettingsBarHidden : bool;
  d_Draft : option P;
  d_channel : option P;
}.

(** A composite literal that names only the peer. *)
Definition dialog_of (p : Peer) : Dialog := {|
  d_Peer := p; d_FolderID := 0; d_TopMessage := 0; d_TopMessageDate := 0; d_ReadInboxMaxID := 0;
  d_ReadOutboxMaxID := 0; d_UnreadCount := 0; d_UnreadMentions := 0; d_UnreadReactions := 0;
  d_TTLPeriod := 0; d_ThemeEmoticon := ""; d_HasScheduled := false; d_Pinned := false;
  d_PinnedOrder := 0; d_UnreadMark := false; d_ViewForumAsMessages := false;
  d_PeerSettingsBarHidden := false; d_Draft := None; d_channel := None |}.

Record DialogList := {
  l_Dialogs : list Dialog;
  l_Messages : list Message;
}.

Definition no_dialogs : DialogList := {| l_Dialogs := []; l_Messages := [] |}.
End data.

Arguments MessageEntity P : clear implicits.
Arguments MessageMedia P : clear implicits.
Arguments MessageReplyExternal P : clear implicits.
Arguments MessageReply P : clear implicits.
Arguments MessageRichMessage P : clear implicits.
Arguments ChannelMessageReactions P : clear implicits.
Arguments Message P : clear implicits.
Arguments content P : clear implicits.
Arguments event P : clear implicits.
Arguments Dialog P : clear implicits.
Arguments DialogList P : clear implicits.

#[export] Instance MessageEntity_eq_dec `{EqDecision P} : EqDecision (MessageEntity P).
Proof. solve_decision. Defined.

#[export] Instance MessageRichMessage_eq_dec `{EqDecision P} : EqDecision (MessageRichMessage P).
Proof. solve_decision. Defined.

(** * Text *)

(** [utf16.Encode([]rune(s))]. *)
Definition utf16_units (s : string) : list Z :=
  r ← utf8_runes (bytes_of s);
  let r := default 65533 r in
  if r <? 65536 then [r] else [55296 + (r - 65536) / 1024; 56320 + (r - 65536) mod 1024].

(** * Requests, receipts and results *)

Section requests.
Context {P : Type}.

Record SendPrivateTextRequest := {
  sr_SenderUserID : Z;
  sr_RecipientUserID : Z;
  sr_RandomID : Z;
  sr_Message : string;
  sr_Entities : list (MessageEntity P);
  sr_Media : option (MessageMedia P);
  sr_Silent : bool;
  sr_NoForwards : bool;
  sr_ReplyTo : option (MessageReply P);
  sr_Forward : option MessageForward;
  sr_Date : Z;
  sr_OriginAuthKeyID : Z;
  sr_OriginSessionID : Z;
  sr_OriginUserID : Z;
  sr_RecipientBlocked : bool;
  sr_IdempotencyFingerprint : list Z;
  sr_TTLPeriod : Z;
  sr_ViaBotID : Z;
  sr_GroupedID : Z;
  sr_Effect : Z;
  sr_ReplyMarkup : option P;
  sr_RichMessage : option (MessageRichMessage P);
}.

(** [privateSendFingerprintPayload]: what makes two requests the same send. *)
Record fingerprintPayload := {
  fp_Version : Z;
  fp_RecipientUserID : Z;
  fp_Message : string;
  fp_Entities : list (MessageEntity P);
  fp_Media : option (MessageMedia P);
  fp_Silent : bool;
  fp_NoForwards : bool;
  fp_ReplyTo : option (MessageReply P);
  fp_Forward : option MessageForward;
  fp_TTLPeriod : Z;
  fp_ViaBotID : Z;
  fp_GroupedID : Z;
  fp_Effect : Z;
  fp_ReplyMarkup : option P;
  fp_RichMessage : option (MessageRichMessage P);
}.

Record SendPrivateTextResult := {
  SenderMessage : Message P;
  RecipientMessage : Message P;
  SenderEvent : option (event P);
  RecipientEvent : option (event P);
  Duplicate : bool;
  ReplayDeleteEvent : option (event P);
}.

Record EditMessageRequest := {
  ed_OwnerUserID : Z;
  ed_Peer : Peer;
  ed_ID : Z;
  ed_Message : string;
  ed_Entities : list (MessageEntity P);
  ed_Media : option (MessageMedia P);
  ed_EditDate : Z;
  ed_HideEdited : bool;
  ed_SetReplyMarkup : bool;
  ed_ReplyMarkup : option P;
  ed_SetRichMessage : bool;
  ed_RichMessage : option (MessageRichMessage P);
  ed_ViaBotEditBotID : Z;
  ed_AllowTodoParticipantMutation : bool;
  ed_WebPageResolve : bool;
  ed_ExpectedWebPageID : Z;
}.

Record EditedMessageForUser := {
  edited_UserID : Z;
  edited_Message : Message P;
  edited_Event : option (event P);
}.

Record DeletedMessagesForUser := {
  deleted_UserID : Z;
  deleted_MessageIDs : list Z;
  deleted_Event : option (event P);
  deleted_Events : list (event P);
  deleted_Pts : Z;
  deleted_PtsCount : Z;
}.

Record DeleteMessagesResult := {
  Deleted : list DeletedMessagesForUser;
  Offset : Z;
}.

Record ReadHistoryResult := {
  rh_MaxID : Z;
  rh_StillUnreadCount : Z;
  rh_Changed : bool;
  rh_InboxEvent : option (event P);
  rh_OutboxEvent : option (event P);
}.

Record ReadMessageContentsResult := {
  rc_MessageIDs : list Z;
  rc_Event : option (event P);
  rc_SenderEvents : list (event P);
}.

Record PinnedMessagesForUser := {
  pin_UserID : Z;
  pin_Peer : Peer;
  pin_MessageIDs : list Z;
  pin_Pinned : bool;
  pin_Event : event P;
}.

Record PinPrivateMessageResult := {
  pin_Updated : list PinnedMessagesForUser;
  pin_ServiceMessage : option SendPrivateTextResult;
  pin_Offset : Z;
}.
End requests.

Arguments SendPrivateTextRequest P : clear implicits.
Arguments fingerprintPayload P : clear implicits.
Arguments SendPrivateTextResult P : clear implicits.
Arguments EditMessageRequest P : clear implicits.
Arguments EditedMessageForUser P : clear implicits.
Arguments DeletedMessagesForUser P : clear implicits.
Arguments DeleteMessagesResult P : clear implicits.
Arguments ReadHistoryResult P : clear implicits.
Arguments ReadMessageContentsResult P : clear implicits.
Arguments PinnedMessagesForUser P : clear implicits.
Arguments PinPrivateMessageResult P : clear implicits.

Record DeleteMessagesRequest := {
  dm_OwnerUserID : Z;
  dm_IDs : list Z;
  dm_Revoke : bool;
  dm_Date : Z;
}.

Record DeleteHistoryRequest := {
  dh_OwnerUserID : Z;
  dh_Peer : Peer;
  dh_MaxID : Z;
  dh_MinDate : Z;
  dh_MaxDate : Z;
  dh_JustClear : bool;
  dh_Revoke : bool;
  dh_Date : Z;
}.

Record ReadHistoryRequest := {
  rr_OwnerUserID : Z;
  rr_Peer : Peer;
  rr_MaxID : Z;
  rr_Date : Z;
}.

Record ReadMessageContentsRequest := {
  rc_OwnerUserID : Z;
  rc_IDs : list Z;
  rc_Date : Z;
}.

Record PinPrivateMessageRequest := {
  pp_OwnerUserID : Z;
  pp_Peer : Peer;
  pp_MessageID : Z;
  pp_Pinned : bool;
  pp_PmOneside : bool;
  pp_Silent : bool;
  pp_RecipientBlocked : bool;
  pp_Date : Z;
  pp_OriginAuthKeyID : Z;
  pp_OriginSessionID : Z;
}.

(** [encoding/json], SHA-256 and the reactions that are kept elsewhere: the
    digest of an intent, the bytes of a snapshot (with its version) and what
    they decode to, the size of an encoded reply snapshot. *)
Class Codecs (P Bytes : Type) := {
  no_column : P;
  intent_digest : fingerprintPayload P → option (list Z);
  marshal_snapshot : Z * Message P → option Bytes;
  unmarshal_snapshot : Bytes → option (Z * Message P);
  external_size : MessageReplyExternal P → option Z;
  reactions_of : Message P → ChannelMessageReactions P;
}.

(** * The store *)

Section store.
Context {P Bytes : Type} `{!Codecs P Bytes} `{!EqDecision P}.

Abbreviation Message := (Message P).
Abbreviation event := (event P).
Abbreviation media := (MessageMedia P).
Abbreviation reply := (MessageReply P).
Implicit Types (m : Message) (u id pts : Z) (p : Peer).

Record privateSendDedupRecord := {
  dd_recipientUserID : Z;
  dd_senderSnapshot : Bytes;
  dd_recipientMessage : Message;
  dd_fingerprint : list Z;
  dd_senderDeleteEvent : option event;
}.

Record MessageStore := mkStore {
  boxes : gmap Z (list Message);
  nextUID : Z;
  nextBox : gmap Z Z;
  nextPts : gmap Z Z;
  readOutboxDates : gmap (Z * Z * Z) Z;
  savedMessageTags : gmap Z (gmap Z (list P));
  privateSendDedup : gmap (Z * Z) privateSendDedupRecord;
  dialogs : gmap Z (DialogList P);
  updateEvents : @UpdateEventStore (content P);
  privateNoForwards : gmap (Z * Z) Z;
}.

Definition NewMessageStore : MessageStore := mkStore ∅ 1 ∅ ∅ ∅ ∅ ∅ ∅ NewUpdateEventStore ∅.

Implicit Types (s : MessageStore).

Definition boxOf s u : list Message := default [] (boxes s !! u).
Definition nextBoxOf s u : Z := default 0 (nextBox s !! u).
Definition nextPtsOf s u : Z := default 0 (nextPts s !! u).
Definition dialogsOf s u : DialogList P := default no_dialogs (dialogs s !! u).

Definition set_boxes (b : gmap Z (list Message)) s : MessageStore :=
  mkStore b (nextUID s) (nextBox s) (nextPts s) (readOutboxDates s) (savedMessageTags s) (privateSendDedup s)
    (dialogs s) (updateEvents s) (privateNoForwards s).
Definition set_box u (l : list Message) s : MessageStore := set_boxes (<[u := l]> (boxes s)) s.
Definition set_counters (uid : Z) (b n : gmap Z Z) s : MessageStore :=
  mkStore (boxes s) uid b n (readOutboxDates s) (savedMessageTags s) (privateSendDedup s) (dialogs s)
    (updateEvents s) (privateNoForwards s).
Definition set_nextPts (n : gmap Z Z) s : MessageStore := set_counters (nextUID s) (nextBox s) n s.
Definition set_readDates (r : gmap (Z * Z * Z) Z) s : MessageStore :=
  mkStore (boxes s) (nextUID s) (nextBox s) (nextPts s) r (savedMessageTags s) (privateSendDedup s) (dialogs s)
    (updateEvents s) (privateNoForwards s).
Definition set_tags (t : gmap Z (gmap Z (list P))) s : MessageStore :=
  mkStore (boxes s) (nextUID s) (nextBox s) (nextPts s) (readOutboxDates s) t (privateSendDedup s) (dialogs s)
    (updateEvents s) (privateNoForwards s).
Definition set_dedup (d : gmap (Z * Z) privateSendDedupRecord) s : MessageStore :=
  mkStore (boxes s) (nextUID s) (nextBox s) (nextPts s) (readOutboxDates s) (savedMessageTags s) d (dialogs s)
    (updateEvents s) (privateNoForwards s).
Definition set_dialogs (d : gmap Z (DialogList P)) s : MessageStore :=
  mkStore (boxes s) (nextUID s) (nextBox s) (nextPts s) (readOutboxDates s) (savedMessageTags s)
    (privateSendDedup s) d (updateEvents s) (privateNoForwards s).
Definition set_events (e : @UpdateEventStore (content P)) s : MessageStore :=
  mkStore (boxes s) (nextUID s) (nextBox s) (nextPts s) (readOutboxDates s) (savedMessageTags s)
    (privateSendDedup s) (dialogs s) e (privateNoForwards s).

(** ** Messages and events *)

Definition IsZero_media (o : option media) : bool :=
  match o with None => true | Some md => bool_decide (md_Kind md = MessageMediaKindNone) end.

Definition HasUnreadPayload (o : option media) : bool :=
  match o with
  | None => false
  | Some md =>
      if IsZero_media o || negb (bool_decide (md_Kind md = MessageMediaKindDocument)) then false
      else md_Voice md || md_Round md
  end.

Definition IsPendingWebPageMedia (o : option media) id : bool :=
  match o with
  | None => false
  | Some md =>
      bool_decide (md_Kind md = MessageMediaKindWebPage)
      && match md_WebPage md with
         | None => false
         | Some (wid, state) => bool_decide (state = MessageWebPageStatePending) && (wid =? id)
         end
  end.

Definition IsZero_rich (o : option (MessageRichMessage P)) : bool :=
  match o with
  | None => true
  | Some r => bool_decide (rich_Blocks r = []) && (Z.of_nat (length (rich_Photos r)) =? 0)
              && (Z.of_nat (length (rich_Documents r)) =? 0)
  end.

Definition richMessagesEqual (a b : option (MessageRichMessage P)) : bool :=
  if IsZero_rich a && IsZero_rich b then true else bool_decide (a = b).

Definition service_media (action : string) : media := {|
  md_Kind := MessageMediaKindService; md_ServiceAction := Some action; md_WebPage := None; md_Todo := false;
  md_TTLSeconds := 0; md_Voice := false; md_Round := false; md_Document := None; md_rest := no_column |}.

Definition NewHistoryClearMessage u p (boxID uid date pts : Z) : Message := {|
  m_ID := boxID; m_UID := uid; m_RandomID := 0; m_OwnerUserID := u; m_Peer := p; m_From := user_peer u;
  m_Date := date; m_EditDate := 0; m_HideEdited := false; m_Out := true; m_Silent := false;
  m_NoForwards := false; m_Body := ""; m_Entities := []; m_ReplyTo := None; m_Forward := None;
  m_Reactions := None; m_Pts := pts; m_Media := Some (service_media MessageServiceActionHistoryClear);
  m_MediaUnread := false; m_ReactionUnread := false; m_ViaBotID := 0; m_GroupedID := 0; m_Effect := 0;
  m_ReplyMarkup := None; m_RichMessage := None; m_Pinned := false; m_SavedPeer := no_peer |}.

Definition IsHistoryClearServiceMessage m : bool :=
  match m_Media m with
  | None => false
  | Some md =>
      bool_decide (md_Kind md = MessageMediaKindService)
      && bool_decide (md_ServiceAction md = Some MessageServiceActionHistoryClear)
  end.

Definition SavedPeerForSelfChat (selfUserID : Z) (forward : option MessageForward) : Peer :=
  match forward with
  | Some f =>
      if negb (peer_ID (fwd_SavedFrom f) =? 0) then fwd_SavedFrom f
      else if (peer_ID (fwd_From f) =? 0) && negb (bool_decide (fwd_FromName f = "")) then
        user_peer SavedHiddenAuthorUserID
      else user_peer selfUserID
  | None => user_peer selfUserID
  end.

(** In-place changes of a message. *)
Definition set_flags (mediaUnread reactionUnread pinned : bool) (random : Z)
    (reactions : option (ChannelMessageReactions P)) m : Message := {|
  m_ID := m_ID m; m_UID := m_UID m; m_RandomID := random; m_OwnerUserID := m_OwnerUserID m;
  m_Peer := m_Peer m; m_From := m_From m; m_Date := m_Date m; m_EditDate := m_EditDate m;
  m_HideEdited := m_HideEdited m; m_Out := m_Out m; m_Silent := m_Silent m; m_NoForwards := m_NoForwards m;
  m_Body := m_Body m; m_Entities := m_Entities m; m_ReplyTo := m_ReplyTo m; m_Forward := m_Forward m;
  m_Reactions := reactions; m_Pts := m_Pts m; m_Media := m_Media m; m_MediaUnread := mediaUnread;
  m_ReactionUnread := reactionUnread; m_ViaBotID := m_ViaBotID m; m_GroupedID := m_GroupedID m;
  m_Effect := m_Effect m; m_ReplyMarkup := m_ReplyMarkup m; m_RichMessage := m_RichMessage m;
  m_Pinned := pinned; m_SavedPeer := m_SavedPeer m |}.

Definition with_RandomID (random : Z) m : Message :=
  set_flags (m_MediaUnread m) (m_ReactionUnread m) (m_Pinned m) random (m_Reactions m) m.
Definition with_Pinned (b : bool) m : Message :=
  set_flags (m_MediaUnread m) (m_ReactionUnread m) b (m_RandomID m) (m_Reactions m) m.
Definition contents_read (media reaction : bool) m : Message :=
  set_flags media reaction (m_Pinned m) (m_RandomID m) (m_Reactions m) m.
Definition with_Reactions (r : ChannelMessageReactions P) m : Message :=
  set_flags (m_MediaUnread m) (m_ReactionUnread m) (m_Pinned m) (m_RandomID m) (Some r) m.

(** An event literal; the columns it does not name are zero. *)
Definition mkEvent (type : UpdateEventType) u pts (count date : Z) (msg : option Message) p (b : bool)
    (maxID still : Z) (ids : list Z) : event := {|
  UserID := u; Type_ := type; Pts := pts; PtsCount := count; Date := date;
  ev_Message := (λ m, {| msg_ID := m_ID m; msg_OwnerUserID := m_OwnerUserID m; msg_Peer := m_Peer m;
                         msg_Date := m_Date m; msg_Body := CMessage m |}) <$> msg;
  ev_Story := None; ev_Peer := p; Peers := []; Bool := b; MaxID := maxID; StillUnreadCount := still;
  ChannelPts := 0; TopMsgID := 0; FilterID := 0; FolderID := 0; FilterOrder := []; Reaction := None;
  Snapshot := match ids with [] => None | _ => Some (CMessageIDs ids) end |}.

Definition message_event (type : UpdateEventType) (date : Z) m : option event :=
  if m_ID m =? 0 then None
  else Some (mkEvent type (m_OwnerUserID m) (m_Pts m) 1 date (Some m) no_peer false 0 0 []).

Definition newMessageEvent m : option event := message_event UpdateEventNewMessage (m_Date m) m.
Definition editMessageEvent m : option event := message_event UpdateEventEditMessage (m_EditDate m) m.
Definition webPageEvent m : option event := message_event UpdateEventWebPage (m_Date m) m.

(** ** Allocators *)

Definition nextPtsNLocked u (count : Z) s : Z * MessageStore :=
  let count := if count <=? 0 then 1 else count in
  let next := nextPtsOf s u + count in
  (next, set_nextPts (<[u := next]> (nextPts s)) s).

Definition nextPtsLocked u s : Z * MessageStore :=
  let next := nextPtsOf s u + 1 in
  (next, set_nextPts (<[u := next]> (nextPts s)) s).

(** The highest position of a user: of this store and of the update log. *)
Definition current_pts s u : Z :=
  fold_left (λ current e, if current <? Pts e then Pts e else current) (eventsOf (updateEvents s) u) (nextPtsOf s u).

Definition nextPtsWithEventsLocked u s : Z * MessageStore :=
  let current := current_pts s u + 1 in
  (current, set_nextPts (<[u := current]> (nextPts s)) s).

Definition appendMemorySendEventLocked u (e : event) (excludeAuthKeyID excludeSessionID : Z) s : MessageStore :=
  let '(e, es) := appendLocked u e false (updateEvents s) in
  set_events {| events := events es;
    dispatches := <[u := default [] (dispatches es !! u) ++
      [{| dispatch_Pts := Pts e; ExcludeAuthKeyID := excludeAuthKeyID; ExcludeSessionID := excludeSessionID |}]]>
      (dispatches es) |} s.

Definition append_opt u (e : option event) (auth session : Z) s : MessageStore :=
  match e with None => s | Some e => appendMemorySendEventLocked u e auth session s end.

(** ** Replies *)

Definition ValidateMessageReplyBounds (r : reply) : res message_error () :=
  if (rp_MessageID r <? 0) || (MaxMessageBoxID <? rp_MessageID r) then ERR ErrReplyMessageIDInvalid
  else if (rp_TopMessageID r <? 0) || (MaxMessageBoxID <? rp_TopMessageID r) then ERR ErrReplyMessageIDInvalid
  else if (rp_StoryID r <? 0) || (MaxStoryID <? rp_StoryID r) then ERR ErrReplyMessageIDInvalid
  else if (rp_MessageID r =? 0) && (rp_TopMessageID r =? 0) && (rp_StoryID r =? 0)
          && match rp_External r with None => true | Some _ => false end then ERR ErrReplyMessageIDInvalid
  else if (rp_QuoteOffset r <? 0) || (MaxMessageReplyQuoteOffset <? rp_QuoteOffset r)
       then ERR ErrReplyMessageIDInvalid
  else OK tt.

Definition EncodeMessageReplyExternal (v : MessageReplyExternal P) : res message_error () :=
  let f := ext_From v in
  if (fwd_Date f <=? 0) || (peer_ID (fwd_From f) <=? 0)
     || (negb (bool_decide (peer_Type (fwd_From f) = PeerTypeUser))
         && negb (bool_decide (peer_Type (fwd_From f) = PeerTypeChannel)))
     || negb (peer_ID (fwd_SavedFrom f) =? 0) || negb (fwd_SavedFromMsgID f =? 0)
     || (MaxMessageEntityCount <? Z.of_nat (length (ext_Entities v)))
     || negb (ValidString (ext_Text v)) || (MaxMessageTextLength <? RuneCountInString (ext_Text v))
  then ERR ErrExternalReply
  else match external_size v with
       | None => ERR ErrExternalReply
       | Some n => if MaxMessageReplyExternalBytes <? n then ERR ErrExternalReply else OK tt
       end.

Definition NewMessageReplyExternal (source : Message) : res message_error (MessageReplyExternal P) :=
  let v := {| ext_From := {| fwd_From := m_From source; fwd_FromName := ""; fwd_Date := m_Date source;
                             fwd_ChannelPost := 0; fwd_SavedFrom := no_peer; fwd_SavedFromMsgID := 0 |};
              ext_Text := m_Body source; ext_Entities := m_Entities source; ext_Media := m_Media source |} in
  _ ← EncodeMessageReplyExternal v; OK v.

Definition ValidateExternalReplyQuote (r : reply) (text : string) : res message_error () :=
  if (MaxMessageReplyQuoteLength <? Z.of_nat (String.length (rp_QuoteText r)))
     || negb (ValidString (rp_QuoteText r))
     || (MaxMessageEntityCount <? Z.of_nat (length (rp_QuoteEntities r))) then ERR ErrQuoteTextInvalid
  else if bool_decide (rp_QuoteText r = "") then
    if negb (rp_QuoteOffset r =? 0) || negb (Z.of_nat (length (rp_QuoteEntities r)) =? 0)
    then ERR ErrQuoteTextInvalid else OK tt
  else
    let source := utf16_units text in
    let quote := utf16_units (rp_QuoteText r) in
    let start := rp_QuoteOffset r in
    let n := Z.of_nat (length quote) in
    if (start <? 0) || (Z.of_nat (length source) <? start) || (Z.of_nat (length source) - start <? n)
    then ERR ErrQuoteTextInvalid
    else if negb (bool_decide (take (length quote) (drop (Z.to_nat start) source) = quote))
    then ERR ErrQuoteTextInvalid
    else if existsb (λ e, (ent_Offset e <? 0) || (ent_Length e <=? 0) || (n <? ent_Offset e)
                          || (n - ent_Offset e <? ent_Length e)) (rp_QuoteEntities r)
    then ERR ErrQuoteTextInvalid else OK tt.

Definition noForwardsPair (a b : Z) : option (Z * Z) :=
  if (a <=? 0) || (b <=? 0) || (a =? b) then None
  else if b <? a then Some (b, a) else Some (a, b).

Definition privateNoForwardsEnabled s (a b : Z) : bool :=
  match noForwardsPair a b with
  | None => false
  | Some key => negb (default 0 (privateNoForwards s !! key) =? 0)
  end.

Definition reply_to (messageID topMessageID : Z) p (ext : option (MessageReplyExternal P)) (r : reply) : reply := {|
  rp_MessageID := messageID; rp_Peer := p; rp_TopMessageID := topMessageID; rp_ForumTopic := rp_ForumTopic r;
  rp_QuoteText := rp_QuoteText r; rp_QuoteEntities := rp_QuoteEntities r; rp_QuoteOffset := rp_QuoteOffset r;
  rp_External := ext; rp_StoryID := rp_StoryID r |}.

Definition story_reply p (storyID : Z) : reply := {|
  rp_MessageID := 0; rp_Peer := p; rp_TopMessageID := 0; rp_ForumTopic := false; rp_QuoteText := "";
  rp_QuoteEntities := []; rp_QuoteOffset := 0; rp_External := None; rp_StoryID := storyID |}.

(** The message of [u]'s conversation with [p] that has the box id [id]. *)
Definition is_message p id m : bool := bool_decide (m_Peer m = p) && (m_ID m =? id).

Definition find_message s u p id : option Message := List.find (is_message p id) (boxOf s u).

(** The reply headers of the sender's copy and of the recipient's copy. *)
Definition resolveMemoryReplyLocked s (req : SendPrivateTextRequest P)
    : res message_error (option reply * option reply) :=
  match sr_ReplyTo req with
  | None => OK (None, None)
  | Some r =>
      _ ← ValidateMessageReplyBounds r;
      let recipient := user_peer (sr_RecipientUserID req) in
      if 0 <? rp_StoryID r then
        let sr := story_reply recipient (rp_StoryID r) in OK (Some sr, Some sr)
      else
        let peer := if peer_ID (rp_Peer r) =? 0 then recipient else rp_Peer r in
        if negb (bool_decide (peer_Type peer = PeerTypeUser))
           || match rp_External r with None => false | Some _ => true end then ERR ErrReplyMessageIDInvalid
        else match find_message s (sr_SenderUserID req) peer (rp_MessageID r) with
        | None => ERR ErrReplyMessageIDInvalid
        | Some target =>
            if m_ID target =? 0 then ERR ErrReplyMessageIDInvalid
            else if negb (peer_ID peer =? sr_RecipientUserID req) then
              if m_NoForwards target
                 || match m_Media target with Some md => 0 <? md_TTLSeconds md | None => false end
                 || privateNoForwardsEnabled s (sr_SenderUserID req) (peer_ID peer)
              then ERR ErrChatForwardsRestricted
              else
                _ ← ValidateExternalReplyQuote r (m_Body target);
                ext ← NewMessageReplyExternal target;
                let sender := reply_to (m_ID target) (rp_TopMessageID r) peer (Some ext) r in
                OK (Some sender,
                    Some (if negb (sr_SenderUserID req =? sr_RecipientUserID req)
                          then reply_to 0 0 peer (Some ext) r else sender))
            else
              let sender := reply_to (m_ID target) (rp_TopMessageID r) peer (rp_External r) r in
              if sr_SenderUserID req =? sr_RecipientUserID req then OK (Some sender, Some sender)
              else
                OK (Some sender,
                    (λ c, reply_to (m_ID c) (rp_TopMessageID r) (user_peer (sr_SenderUserID req)) (rp_External r) r)
                      <$> List.find (λ c, m_UID c =? m_UID target) (boxOf s (sr_RecipientUserID req)))
        end
  end.

(** ** Dialogs *)

Definition or_zero (new old : Z) : Z := if new =? 0 then old else new.

Definition merge_dialog (d old : Dialog P) : Dialog P := {|
  d_Peer := d_Peer d;
  d_FolderID := if (d_FolderID d =? DialogMainFolderID) && negb (d_FolderID old =? DialogMainFolderID)
                then d_FolderID old else d_FolderID d;
  d_TopMessage := d_TopMessage d;
  d_TopMessageDate := d_TopMessageDate d;
  d_ReadInboxMaxID := or_zero (d_ReadInboxMaxID d) (d_ReadInboxMaxID old);
  d_ReadOutboxMaxID := or_zero (d_ReadOutboxMaxID d) (d_ReadOutboxMaxID old);
  d_UnreadCount := or_zero (d_UnreadCount d) (d_UnreadCount old);
  d_UnreadMentions := or_zero (d_UnreadMentions d) (d_UnreadMentions old);
  d_UnreadReactions := or_zero (d_UnreadReactions d) (d_UnreadReactions old);
  d_TTLPeriod := or_zero (d_TTLPeriod d) (d_TTLPeriod old);
  d_ThemeEmoticon := if bool_decide (d_ThemeEmoticon d = "") then d_ThemeEmoticon old else d_ThemeEmoticon d;
  d_HasScheduled := d_HasScheduled d || d_HasScheduled old;
  d_Pinned := d_Pinned d || d_Pinned old;
  d_PinnedOrder := if negb (d_Pinned d) && d_Pinned old then d_PinnedOrder old else d_PinnedOrder d;
  d_UnreadMark := d_UnreadMark d || d_UnreadMark old;
  d_ViewForumAsMessages := d_ViewForumAsMessages d || d_ViewForumAsMessages old;
  d_PeerSettingsBarHidden := d_PeerSettingsBarHidden d || d_PeerSettingsBarHidden old;
  d_Draft := match d_Draft d with None => d_Draft old | Some x => Some x end;
  d_channel := d_channel d |}.

Fixpoint upsert_dialog (d : Dialog P) (l : list (Dialog P)) : list (Dialog P) :=
  match l with
  | [] => [d]
  | old :: l => if bool_decide (d_Peer old = d_Peer d) then merge_dialog d old :: l else old :: upsert_dialog d l
  end.

Definition upsertMemoryDialog (l : DialogList P) (d : Dialog P) : DialogList P :=
  {| l_Dialogs := upsert_dialog d (l_Dialogs l); l_Messages := l_Messages l |}.

(** The first dialog with a peer is changed. *)
Fixpoint alter_dialog p (f : Dialog P → Dialog P) (l : list (Dialog P)) : list (Dialog P) :=
  match l with
  | [] => []
  | d :: l => if bool_decide (d_Peer d = p) then f d :: l else d :: alter_dialog p f l
  end.

Definition find_dialog p (l : list (Dialog P)) : option (Dialog P) := List.find (λ d, bool_decide (d_Peer d = p)) l.

(** The counters of a dialog. *)
Definition with_counters (top topDate readIn readOut unread mentions reactions : Z) (mark : bool) (d : Dialog P) : Dialog P := {|
  d_Peer := d_Peer d; d_FolderID := d_FolderID d; d_TopMessage := top; d_TopMessageDate := topDate;
  d_ReadInboxMaxID := readIn; d_ReadOutboxMaxID := readOut; d_UnreadCount := unread;
  d_UnreadMentions := mentions; d_UnreadReactions := reactions; d_TTLPeriod := d_TTLPeriod d;
  d_ThemeEmoticon := d_ThemeEmoticon d; d_HasScheduled := d_HasScheduled d; d_Pinned := d_Pinned d;
  d_PinnedOrder := d_PinnedOrder d; d_UnreadMark := mark; d_ViewForumAsMessages := d_ViewForumAsMessages d;
  d_PeerSettingsBarHidden := d_PeerSettingsBarHidden d; d_Draft := d_Draft d; d_channel := d_channel d |}.

Definition mark_read (d : Dialog P) : Dialog P :=
  with_counters (d_TopMessage d) (d_TopMessageDate d) (d_ReadInboxMaxID d) (d_ReadOutboxMaxID d)
    (d_UnreadCount d) (d_UnreadMentions d) (d_UnreadReactions d) false d.

Definition dialog_top p (top topDate unread : Z) : Dialog P :=
  with_counters top topDate 0 0 unread 0 0 false (dialog_of p).

(** An incoming message of the conversation beyond [readMax]. *)
Definition is_unread p (readMax : Z) m : bool :=
  bool_decide (m_Peer m = p) && negb (m_Out m) && (readMax <? m_ID m).

Definition count_unread p (readMax : Z) (l : list Message) : Z :=
  Z.of_nat (length (List.filter (is_unread p readMax) l)).

Definition privateUnreadCountLocked s u p : Z :=
  let readMax := default 0 (d_ReadInboxMaxID <$> find_dialog p (l_Dialogs (dialogsOf s u))) in
  count_unread p readMax (boxOf s u).

Definition set_dialog_list u (l : DialogList P) s : MessageStore := set_dialogs (<[u := l]> (dialogs s)) s.

Definition upsertMemoryDialogsLocked (sender recipient : Message) s : MessageStore :=
  let list := upsertMemoryDialog (dialogsOf s (m_OwnerUserID sender))
                (dialog_top (m_Peer sender) (m_ID sender) (m_Date sender) 0) in
  let s := set_dialog_list (m_OwnerUserID sender)
             {| l_Dialogs := alter_dialog (m_Peer sender) mark_read (l_Dialogs list);
                l_Messages := l_Messages list ++ [sender] |} s in
  if negb (m_OwnerUserID recipient =? m_OwnerUserID sender) then
    let list := upsertMemoryDialog (dialogsOf s (m_OwnerUserID recipient))
                  (dialog_top (m_Peer recipient) (m_ID recipient) (m_Date recipient)
                     (privateUnreadCountLocked s (m_OwnerUserID recipient) (m_Peer recipient))) in
    set_dialog_list (m_OwnerUserID recipient)
      {| l_Dialogs := l_Dialogs list; l_Messages := l_Messages list ++ [recipient] |} s
  else s.

(** ** Sending *)

Definition PrivateSendFingerprint (req : SendPrivateTextRequest P) : res message_error (list Z) :=
  if 0 <? Z.of_nat (length (sr_IdempotencyFingerprint req)) then
    if negb (Z.of_nat (length (sr_IdempotencyFingerprint req)) =? 32) then ERR ErrFingerprint
    else OK (sr_IdempotencyFingerprint req)
  else
    match intent_digest {|
      fp_Version := 1; fp_RecipientUserID := sr_RecipientUserID req; fp_Message := sr_Message req;
      fp_Entities := sr_Entities req; fp_Media := sr_Media req; fp_Silent := sr_Silent req;
      fp_NoForwards := sr_NoForwards req; fp_ReplyTo := sr_ReplyTo req; fp_Forward := sr_Forward req;
      fp_TTLPeriod := sr_TTLPeriod req; fp_ViaBotID := sr_ViaBotID req; fp_GroupedID := sr_GroupedID req;
      fp_Effect := sr_Effect req; fp_ReplyMarkup := sr_ReplyMarkup req; fp_RichMessage := sr_RichMessage req |}
    with None => ERR ErrFingerprint | Some sum => OK sum end.

Definition ValidateSendFingerprint (fp : list Z) : res message_error () :=
  if negb (Z.of_nat (length fp) =? 32) then ERR ErrFingerprint else OK tt.

Definition SameSendFingerprint (stored expected : list Z) : bool :=
  (Z.of_nat (length stored) =? 32) && (Z.of_nat (length expected) =? 32) && bool_decide (stored = expected).

Definition valid_snapshot m : bool :=
  negb ((m_ID m <=? 0) || (m_UID m <=? 0) || (m_RandomID m =? 0) || (m_OwnerUserID m =? 0) || (m_Pts m <=? 0)).

Definition valid_external m : res message_error () :=
  match m_ReplyTo m ≫= rp_External with
  | None => OK tt
  | Some v => EncodeMessageReplyExternal v
  end.

Definition EncodePrivateSendSnapshot m : res message_error Bytes :=
  if negb (valid_snapshot m) then ERR ErrSnapshot
  else
    _ ← valid_external m;
    match marshal_snapshot (1, m) with None => ERR ErrSnapshot | Some raw => OK raw end.

Definition DecodePrivateSendSnapshot (raw : Bytes) : res message_error Message :=
  match unmarshal_snapshot raw with
  | None => ERR ErrSnapshot
  | Some (version, m) =>
      if negb (version =? 1) || negb (valid_snapshot m) then ERR ErrSnapshot
      else _ ← valid_external m; OK m
  end.

Definition immutablePrivateSendReceipt m : Message :=
  if m_ID m =? 0 then no_message
  else {|
    m_ID := m_ID m; m_UID := m_UID m; m_RandomID := m_RandomID m; m_OwnerUserID := m_OwnerUserID m;
    m_Peer := m_Peer m; m_From := m_From m; m_Date := m_Date m; m_EditDate := 0; m_HideEdited := false;
    m_Out := m_Out m; m_Silent := false; m_NoForwards := false; m_Body := ""; m_Entities := [];
    m_ReplyTo := None; m_Forward := None; m_Reactions := None; m_Pts := m_Pts m; m_Media := None;
    m_MediaUnread := false; m_ReactionUnread := false; m_ViaBotID := 0; m_GroupedID := 0; m_Effect := 0;
    m_ReplyMarkup := None; m_RichMessage := None; m_Pinned := false; m_SavedPeer := no_peer |}.

(** The answer to a repeated request, if the random id was used before. *)
Definition lookupPrivateSendReplayLocked s (sender recipient random : Z) (fingerprint : list Z)
    : res message_error (option (SendPrivateTextResult P)) :=
  match privateSendDedup s !! (sender, random) with
  | None => OK None
  | Some r =>
      if negb (dd_recipientUserID r =? recipient) || negb (SameSendFingerprint (dd_fingerprint r) fingerprint)
      then ERR ErrMessageRandomIDDuplicate
      else
        first ← DecodePrivateSendSnapshot (dd_senderSnapshot r);
        let current := List.find (λ c, (m_UID c =? m_UID first) && (m_ID c =? m_ID first)) (boxOf s sender) in
        match current, dd_senderDeleteEvent r with
        | None, None => ERR ErrSenderCopyAbsent
        | _, del =>
            OK (Some {|
              SenderMessage := match current with Some c => with_RandomID (m_RandomID first) c | None => first end;
              RecipientMessage := dd_recipientMessage r;
              SenderEvent := newMessageEvent first;
              RecipientEvent := newMessageEvent (dd_recipientMessage r);
              Duplicate := true;
              ReplayDeleteEvent := del |})
        end
  end.

Definition LookupPrivateSendReplay s (sender recipient random : Z) (fingerprint : list Z)
    : res message_error (option (SendPrivateTextResult P)) :=
  if (sender =? 0) || (recipient =? 0) || (random =? 0) then ERR ErrReplayScope
  else
    _ ← ValidateSendFingerprint fingerprint;
    lookupPrivateSendReplayLocked s sender recipient random fingerprint.

(** The positions of one send are staged in [alloc] until it commits. *)
Definition nextPTS s u (alloc : gmap Z Z) : Z * gmap Z Z :=
  let current := match alloc !! u with Some c => c | None => current_pts s u end in
  (current + 1, <[u := current + 1]> alloc).

Fixpoint stage_prefix s (es : list event) (alloc : gmap Z Z) : list event * gmap Z Z :=
  match es with
  | [] => ([], alloc)
  | e :: es =>
      let '(pts, alloc) := nextPTS s (UserID e) alloc in
      let '(rest, alloc) := stage_prefix s es alloc in
      (placed (UserID e) pts (PtsCount e) (Date e) e :: rest, alloc)
  end.

Definition sender_copy (req : SendPrivateTextRequest P) (id uid pts date : Z) (rp : option reply) : Message := {|
  m_ID := id; m_UID := uid; m_RandomID := sr_RandomID req; m_OwnerUserID := sr_SenderUserID req;
  m_Peer := user_peer (sr_RecipientUserID req); m_From := user_peer (sr_SenderUserID req); m_Date := date;
  m_EditDate := 0; m_HideEdited := false; m_Out := true; m_Silent := sr_Silent req;
  m_NoForwards := sr_NoForwards req; m_Body := sr_Message req; m_Entities := sr_Entities req; m_ReplyTo := rp;
  m_Forward := sr_Forward req; m_Reactions := None; m_Pts := pts; m_Media := sr_Media req;
  m_MediaUnread := HasUnreadPayload (sr_Media req) && negb (sr_SenderUserID req =? sr_RecipientUserID req);
  m_ReactionUnread := false; m_ViaBotID := sr_ViaBotID req; m_GroupedID := sr_GroupedID req;
  m_Effect := sr_Effect req; m_ReplyMarkup := sr_ReplyMarkup req; m_RichMessage := sr_RichMessage req;
  m_Pinned := false;
  m_SavedPeer := if sr_SenderUserID req =? sr_RecipientUserID req
                 then SavedPeerForSelfChat (sr_SenderUserID req) (sr_Forward req) else no_peer |}.

Definition recipient_copy (req : SendPrivateTextRequest P) (id pts : Z) (rp : option reply) (sender : Message) : Message := {|
  m_ID := id; m_UID := m_UID sender; m_RandomID := m_RandomID sender; m_OwnerUserID := sr_RecipientUserID req;
  m_Peer := user_peer (sr_SenderUserID req); m_From := m_From sender; m_Date := m_Date sender;
  m_EditDate := m_EditDate sender; m_HideEdited := m_HideEdited sender; m_Out := false;
  m_Silent := m_Silent sender; m_NoForwards := m_NoForwards sender; m_Body := m_Body sender;
  m_Entities := m_Entities sender; m_ReplyTo := rp; m_Forward := m_Forward sender;
  m_Reactions := m_Reactions sender; m_Pts := pts; m_Media := m_Media sender;
  m_MediaUnread := HasUnreadPayload (sr_Media req); m_ReactionUnread := m_ReactionUnread sender;
  m_ViaBotID := m_ViaBotID sender; m_GroupedID := m_GroupedID sender; m_Effect := m_Effect sender;
  m_ReplyMarkup := m_ReplyMarkup sender; m_RichMessage := m_RichMessage sender; m_Pinned := m_Pinned sender;
  m_SavedPeer := m_SavedPeer sender |}.

(** Who started the request is not told about it by the dispatcher. *)
Definition excluded (req : SendPrivateTextRequest P) u : Z * Z :=
  let origin := if sr_OriginUserID req =? 0 then sr_SenderUserID req else sr_OriginUserID req in
  if origin =? u then (sr_OriginAuthKeyID req, sr_OriginSessionID req) else (0, 0).

Fixpoint append_prefix (req : SendPrivateTextRequest P) (es : list event) s : MessageStore :=
  match es with
  | [] => s
  | e :: es =>
      let '(auth, session) :=
        if UserID e =? sr_SenderUserID req then (sr_OriginAuthKeyID req, sr_OriginSessionID req) else (0, 0) in
      append_prefix req es (appendMemorySendEventLocked (UserID e) e auth session s)
  end.

(** Both copies, their events and the receipt are filed together. *)
Definition commit_send (req : SendPrivateTextRequest P) (alloc : gmap Z Z) (sender recipient : Message)
    (receipt : option privateSendDedupRecord) s : MessageStore :=
  let from := sr_SenderUserID req in
  let to := sr_RecipientUserID req in
  let nb := <[from := m_ID sender]> (nextBox s) in
  let nb := if negb (m_ID recipient =? 0) then <[m_OwnerUserID recipient := m_ID recipient]> nb else nb in
  let s := set_counters (nextUID s + 1) nb (alloc ∪ nextPts s) s in
  let s := set_box from (boxOf s from ++ [sender]) s in
  let s := if negb (from =? to) && negb (sr_RecipientBlocked req) then set_box to (boxOf s to ++ [recipient]) s else s in
  let s := match receipt with
           | Some r => set_dedup (<[(from, sr_RandomID req) := r]> (privateSendDedup s)) s
           | None => s
           end in
  let s := upsertMemoryDialogsLocked sender (if negb (m_ID recipient =? 0) then recipient else sender) s in
  let '(auth, session) := excluded req from in
  let s := append_opt from (newMessageEvent sender) auth session s in
  if negb (m_ID recipient =? 0) && negb (m_OwnerUserID recipient =? m_OwnerUserID sender) then
    let '(auth, session) := excluded req to in append_opt to (newMessageEvent recipient) auth session s
  else s.

(** The result, the staged events of the prefix and the store. *)
Definition sendPrivateTextLocked (now : Z) (req : SendPrivateTextRequest P) (fingerprint : list Z)
    (prefix : list event) (apply : list event → MessageStore → MessageStore) s
    : res message_error (SendPrivateTextResult P * list event * MessageStore) :=
  replay ← lookupPrivateSendReplayLocked s (sr_SenderUserID req) (sr_RecipientUserID req) (sr_RandomID req) fingerprint;
  match replay with
  | Some r => OK (r, [], s)
  | None =>
      let date := if sr_Date req =? 0 then now else sr_Date req in
      replies ← resolveMemoryReplyLocked s req;
      let '(prefixEvents, alloc) := stage_prefix s prefix ∅ in
      let from := sr_SenderUserID req in
      let to := sr_RecipientUserID req in
      let '(pts, alloc) := nextPTS s from alloc in
      let sender := sender_copy req (nextBoxOf s from + 1) (nextUID s) pts date replies.1 in
      let '(recipient, alloc) :=
        if from =? to then (sender, alloc)
        else if sr_RecipientBlocked req then (no_message, alloc)
        else let '(pts, alloc) := nextPTS s to alloc in
             (recipient_copy req (nextBoxOf s to + 1) pts replies.2 sender, alloc) in
      receipt ← (if negb (sr_RandomID req =? 0) then
                   raw ← EncodePrivateSendSnapshot sender;
                   OK (Some {| dd_recipientUserID := to; dd_senderSnapshot := raw;
                               dd_recipientMessage := immutablePrivateSendReceipt recipient;
                               dd_fingerprint := fingerprint; dd_senderDeleteEvent := None |})
                 else OK None);
      let s := apply prefixEvents s in
      let s := append_prefix req prefixEvents s in
      OK ({| SenderMessage := sender; RecipientMessage := recipient; SenderEvent := newMessageEvent sender;
             RecipientEvent := newMessageEvent recipient; Duplicate := false; ReplayDeleteEvent := None |},
          prefixEvents, commit_send req alloc sender recipient receipt s)
  end.

Definition HasContent (req : SendPrivateTextRequest P) : bool :=
  negb (bool_decide (sr_Message req = "")) || negb (IsZero_media (sr_Media req))
  || negb (IsZero_rich (sr_RichMessage req)).

Definition SendPrivateText (now : Z) (req : SendPrivateTextRequest P) s
    : res message_error (SendPrivateTextResult P) * MessageStore :=
  if negb (HasContent req) then (ERR ErrMessageEmpty, s)
  else
    match (fp ← PrivateSendFingerprint req; sendPrivateTextLocked now req fp [] (λ _ s, s) s) with
    | ERR e => (ERR e, s)
    | OK (r, _, s') => (OK r, s')
    end.

(** ** Reading *)

(** The latest incoming message in (oldRead, readMax]. *)
Definition latest_incoming p (oldRead readMax : Z) (l : list Message) : option Message :=
  fold_left (λ latest m,
    if bool_decide (m_Peer m = p) && negb (m_Out m) && (m_ID m <=? readMax) && (oldRead <? m_ID m)
       && (default 0 (m_ID <$> latest) <? m_ID m) then Some m else latest) l None.

Definition read_dates (u peerID oldOutbox boxID date : Z) (l : list Message) (r : gmap (Z * Z * Z) Z)
    : gmap (Z * Z * Z) Z :=
  fold_left (λ r m,
    if bool_decide (m_Peer m = user_peer peerID) && m_Out m && (oldOutbox <? m_ID m) && (m_ID m <=? boxID)
    then <[(u, peerID, m_ID m) := date]> r else r) l r.

(** The sender of what was read sees it as read. *)
Definition read_outbox (owner date : Z) (latest : option Message) s : option event * MessageStore :=
  match latest with
  | None => (None, s)
  | Some l =>
      let sender := peer_ID (m_From l) in
      if (m_ID l =? 0) || (sender =? 0) || (sender =? owner) then (None, s)
      else
        let boxID := default 0 (m_ID <$> List.find (λ m, (m_UID m =? m_UID l) && m_Out m) (boxOf s sender)) in
        if boxID <=? 0 then (None, s)
        else match find_dialog (user_peer owner) (l_Dialogs (dialogsOf s sender)) with
        | None => (None, s)
        | Some d =>
            if boxID <=? d_ReadOutboxMaxID d then (None, s)
            else
              let list := dialogsOf s sender in
              let s := set_dialog_list sender
                {| l_Dialogs := alter_dialog (user_peer owner) (λ d,
                     with_counters (d_TopMessage d) (d_TopMessageDate d) (d_ReadInboxMaxID d) boxID
                       (d_UnreadCount d) (d_UnreadMentions d) (d_UnreadReactions d) (d_UnreadMark d) d) (l_Dialogs list);
                   l_Messages := l_Messages list |} s in
              let s := set_readDates (read_dates sender owner (d_ReadOutboxMaxID d) boxID date (boxOf s sender)
                                        (readOutboxDates s)) s in
              let '(pts, s) := nextPtsLocked sender s in
              (Some (mkEvent UpdateEventReadHistoryOutbox sender pts 1 date None (user_peer owner) false boxID 0 []), s)
        end
  end.

Definition ReadHistory (now : Z) (req : ReadHistoryRequest) s : ReadHistoryResult P * MessageStore :=
  let u := rr_OwnerUserID req in
  let p := rr_Peer req in
  let unchanged maxID still := {| rh_MaxID := maxID; rh_StillUnreadCount := still; rh_Changed := false;
                                  rh_InboxEvent := None; rh_OutboxEvent := None |} in
  if (u =? 0) || (peer_ID p =? 0) then (unchanged (rr_MaxID req) 0, s)
  else
    let date := if rr_Date req =? 0 then now else rr_Date req in
    let list := dialogsOf s u in
    match find_dialog p (l_Dialogs list) with
    | None => (unchanged (rr_MaxID req) 0, s)
    | Some d =>
        let readMax := if rr_MaxID req <=? 0 then d_TopMessage d else rr_MaxID req in
        let readMax := if d_TopMessage d <? readMax then d_TopMessage d else readMax in
        let oldRead := d_ReadInboxMaxID d in
        let put readIn unread :=
          set_dialog_list u {| l_Dialogs := alter_dialog p (λ d,
            with_counters (d_TopMessage d) (d_TopMessageDate d) readIn (d_ReadOutboxMaxID d) unread 0
              (d_UnreadReactions d) false d) (l_Dialogs list); l_Messages := l_Messages list |} s in
        if readMax <=? oldRead then
          if 0 <? d_UnreadCount d then
            let unread := count_unread p oldRead (boxOf s u) in
            (unchanged oldRead unread, put oldRead unread)
          else (unchanged readMax 0, s)
        else
          let unread := count_unread p readMax (boxOf s u) in
          let latest := latest_incoming p oldRead readMax (boxOf s u) in
          let '(pts, s') := nextPtsLocked u (put readMax unread) in
          let '(out, s') := read_outbox u date latest s' in
          ({| rh_MaxID := readMax; rh_StillUnreadCount := unread; rh_Changed := true;
              rh_InboxEvent := Some (mkEvent UpdateEventReadHistoryInbox u pts 1 date None p false readMax unread []);
              rh_OutboxEvent := out |}, s')
    end.

Definition GetOutboxReadDate s u p id : res message_error Z :=
  if (u =? 0) || negb (bool_decide (peer_Type p = PeerTypeUser)) || (peer_ID p =? 0) || (id <=? 0)
     || (MaxMessageBoxID <? id) then ERR ErrMessageIDInvalid
  else if negb (existsb (λ m, is_message p id m && m_Out m) (boxOf s u)) then ERR ErrMessageIDInvalid
  else
    let date := default 0 (readOutboxDates s !! (u, peer_ID p, id)) in
    if date =? 0 then ERR ErrMessageNotReadYet else OK date.

(** A summary is attached to a message when it has reactions. *)
Definition enriched m : Message :=
  let r := reactions_of m in
  if (0 <? Z.of_nat (length (rx_ResultKeys r))) || (0 <? Z.of_nat (length (rx_Recent r))) then with_Reactions r m else m.

Definition countPrivateUnreadReactionsLocked s u p : Z :=
  Z.of_nat (length (List.filter (λ m, bool_decide (m_Peer m = p) && m_ReactionUnread m) (boxOf s u))).

(** One owner's turn of [refreshPrivateReactionDialogSnapshotsLocked]. *)
Definition refresh_owner (uid : Z) s u (l : list Message) (list : DialogList P) : DialogList P :=
  fold_left (λ list m,
    if negb (m_UID m =? uid) then list
    else {|
      l_Dialogs := alter_dialog (m_Peer m) (λ d,
        with_counters (d_TopMessage d) (d_TopMessageDate d) (d_ReadInboxMaxID d) (d_ReadOutboxMaxID d)
          (d_UnreadCount d) (d_UnreadMentions d) (countPrivateUnreadReactionsLocked s u (m_Peer m))
          (d_UnreadMark d) d) (l_Dialogs list);
      l_Messages := (λ c, if (m_UID c =? uid) && (m_OwnerUserID c =? u) then enriched m else c)
                      <$> l_Messages list |}) l list.

Definition refreshPrivateReactionDialogSnapshotsLocked (uid : Z) s : MessageStore :=
  if uid =? 0 then s
  else set_dialogs (map_imap (λ u list, Some (refresh_owner uid s u (boxOf s u) list)) (dialogs s)) s.

(** The contents that the owner has now seen: only voice and video notes and
    reactions have such a state. *)
Definition content_unread (ids : list Z) m : bool :=
  bool_decide (m_ID m ∈ ids) && (m_MediaUnread m || m_ReactionUnread m).

(** The senders that learn of it, with their messages. *)
Definition notes_sender (owner : Z) m : bool :=
  m_MediaUnread m && negb (m_Out m) && bool_decide (peer_Type (m_From m) = PeerTypeUser)
  && negb (peer_ID (m_From m) =? 0) && negb (peer_ID (m_From m) =? owner).

Definition note_read (uids : list Z) m : bool := bool_decide (m_UID m ∈ uids) && m_Out m && m_MediaUnread m.

Definition sort_ids (ids : list Z) : list Z := merge_sort Z.le ids.

Fixpoint read_notes (date : Z) (read : list Message) (senders : list Z) s : list event * MessageStore :=
  match senders with
  | [] => ([], s)
  | sender :: senders =>
      let uids := m_UID <$> List.filter (λ m, peer_ID (m_From m) =? sender) read in
      let l := boxOf s sender in
      let ids := sort_ids (m_ID <$> List.filter (note_read uids) l) in
      if Z.of_nat (length ids) =? 0 then read_notes date read senders s
      else
        let s := set_box sender ((λ m, if note_read uids m then contents_read false (m_ReactionUnread m) m else m) <$> l) s in
        let '(pts, s) := nextPtsNLocked sender (Z.of_nat (length ids)) s in
        let e := mkEvent UpdateEventReadMessageContents sender pts (Z.of_nat (length ids)) date None no_peer false 0 0 ids in
        let '(es, s) := read_notes date read senders s in
        (e :: es, s)
  end.

Definition ReadMessageContents (now : Z) (req : ReadMessageContentsRequest) s
    : res message_error (ReadMessageContentsResult P) * MessageStore :=
  let u := rc_OwnerUserID req in
  let nothing := {| rc_MessageIDs := []; rc_Event := None; rc_SenderEvents := [] |} in
  if u =? 0 then (ERR ErrMissingOwner, s)
  else if MaxGetMessageIDs <? Z.of_nat (length (rc_IDs req)) then (ERR ErrMessageIDInvalid, s)
  else if existsb (λ id, (id <=? 0) || (MaxMessageBoxID <? id)) (rc_IDs req) then (ERR ErrMessageIDInvalid, s)
  else
    let date := if rc_Date req =? 0 then now else rc_Date req in
    let l := boxOf s u in
    let seen := List.filter (content_unread (rc_IDs req)) l in
    let ids := sort_ids (m_ID <$> seen) in
    if Z.of_nat (length ids) =? 0 then (OK nothing, s)
    else
      let s := set_box u ((λ m, if content_unread (rc_IDs req) m then contents_read false false m else m) <$> l) s in
      let notes := List.filter (notes_sender u) seen in
      let '(es, s) := read_notes date notes (sort_ids (remove_dups ((λ m, peer_ID (m_From m)) <$> notes))) s in
      let reactionUIDs := m_UID <$> List.filter (λ m, m_ReactionUnread m && negb (peer_ID (m_Peer m) =? 0)) seen in
      let s := fold_left (λ s uid, refreshPrivateReactionDialogSnapshotsLocked uid s) (remove_dups reactionUIDs) s in
      let '(pts, s) := nextPtsNLocked u (Z.of_nat (length ids)) s in
      (OK {| rc_MessageIDs := ids;
             rc_Event := Some (mkEvent UpdateEventReadMessageContents u pts (Z.of_nat (length ids)) date None no_peer
                                 false 0 0 ids);
             rc_SenderEvents := es |}, s).

(** ** Deleting *)

Record deletedMemoryMessage := {
  dr_userID : Z;
  dr_peer : Peer;
  dr_id : Z;
  dr_privateMessageID : Z;
  dr_messageSenderID : Z;
  dr_randomID : Z;
}.

Definition deleted_row u m : deletedMemoryMessage := {|
  dr_userID := u; dr_peer := m_Peer m; dr_id := m_ID m; dr_privateMessageID := m_UID m;
  dr_messageSenderID := peer_ID (m_From m); dr_randomID := m_RandomID m |}.

Fixpoint dedup_ids (seen ids : list Z) : list Z :=
  match ids with
  | [] => []
  | id :: ids =>
      if (id <=? 0) || (MaxMessageBoxID <? id) || bool_decide (id ∈ seen) then dedup_ids seen ids
      else id :: dedup_ids (id :: seen) ids
  end.

Definition normalizeMemoryMessageIDs (ids : list Z) : list Z := sort_ids (dedup_ids [] ids).

(** What is kept, what is removed (at most [limit] messages if that is
    positive), and whether more would have to go. *)
Fixpoint delete_matching (limit : Z) (matches : Message → bool) (gone : Z) (l : list Message)
    : list Message * list Message * bool :=
  match l with
  | [] => ([], [], false)
  | m :: l =>
      if matches m then
        if (0 <? limit) && (limit <=? gone) then
          let '(kept, del, _) := delete_matching limit matches gone l in (m :: kept, del, true)
        else
          let '(kept, del, more) := delete_matching limit matches (gone + 1) l in (kept, m :: del, more)
      else
        let '(kept, del, more) := delete_matching limit matches gone l in (m :: kept, del, more)
  end.

(** The rows, the logical ids and whether more is left. *)
Definition deleteMemoryMessagesLocked u (limit : Z) (matches : Message → bool) s
    : list deletedMemoryMessage * list Z * bool * MessageStore :=
  let '(kept, del, more) := delete_matching limit matches 0 (boxOf s u) in
  (deleted_row u <$> del, List.filter (λ uid, negb (uid =? 0)) (m_UID <$> del), more, set_box u kept s).

Definition shares_uid (uids : list Z) m : bool := bool_decide (m_UID m ∈ uids).

(** The copies in all other boxes. *)
Definition deleteMemoryMessagesByUIDLocked (uids : list Z) (excludeUserID : Z) s
    : list deletedMemoryMessage * MessageStore :=
  (ub ← map_to_list (boxes s);
     if ub.1 =? excludeUserID then [] else deleted_row ub.1 <$> List.filter (shares_uid uids) ub.2,
   set_boxes (map_imap (λ u l, Some (if u =? excludeUserID then l else List.filter (λ m, negb (shares_uid uids m)) l))
                (boxes s)) s).

Record memoryHistoryClearAnchor := {
  ha_message : Message;
  ha_materialized : bool;
}.

Definition memoryHistoryClearAnchorLocked s u p : option memoryHistoryClearAnchor :=
  let top := fold_left (λ top m,
    if bool_decide (m_Peer m = p) && (default 0 (m_ID <$> top) <? m_ID m) then Some m else top) (boxOf s u) None in
  match top with
  | None => None
  | Some top => Some {| ha_message := top; ha_materialized := IsHistoryClearServiceMessage top |}
  end.

(** The top message of a conversation and its date. *)
Definition top_message p (l : list Message) : Z * Z :=
  fold_left (λ top m, if bool_decide (m_Peer m = p) && (top.1 <? m_ID m) then (m_ID m, m_Date m) else top) l (0, 0).

Fixpoint rebuild_dialogs p (box : list Message) (unread : Z) (l : list (Dialog P)) : list (Dialog P) :=
  match l with
  | [] => []
  | d :: l =>
      if negb (bool_decide (d_Peer d = p)) then d :: rebuild_dialogs p box unread l
      else
        let '(topID, topDate) := top_message p box in
        if topID =? 0 then rebuild_dialogs p box unread l
        else
          let unread := unread + count_unread p (d_ReadInboxMaxID d) box in
          with_counters topID topDate (d_ReadInboxMaxID d) (d_ReadOutboxMaxID d) unread 0 0 (d_UnreadMark d) d
            :: rebuild_dialogs p box unread l
  end.

Definition rebuildMemoryDialogLocked u s p : MessageStore :=
  set_dialog_list u {| l_Dialogs := rebuild_dialogs p (boxOf s u) 0 (l_Dialogs (dialogsOf s u));
                       l_Messages := boxOf s u |} s.

Definition advanceMemoryHistoryClearDialogLocked u p (maxID : Z) s : MessageStore :=
  let list := dialogsOf s u in
  set_dialog_list u {| l_Dialogs := alter_dialog p (λ d,
      with_counters (d_TopMessage d) (d_TopMessageDate d)
        (if d_ReadInboxMaxID d <? maxID then maxID else d_ReadInboxMaxID d) (d_ReadOutboxMaxID d) 0 0 0 false d)
      (l_Dialogs list);
    l_Messages := l_Messages list |} s.

Definition forget_tag u id s : MessageStore :=
  match savedMessageTags s !! u with
  | None => s
  | Some byMessage =>
      let byMessage := delete id byMessage in
      set_tags (if bool_decide (byMessage = ∅) then delete u (savedMessageTags s)
                else <[u := byMessage]> (savedMessageTags s)) s
  end.

(** The receipt of a send remembers that the sender deleted the message. *)
Definition note_deletion u (e : event) s (row : deletedMemoryMessage) : MessageStore :=
  if negb (dr_userID row =? u) || negb (dr_messageSenderID row =? u) || (dr_randomID row =? 0)
     || (dr_privateMessageID row =? 0) then s
  else match privateSendDedup s !! (u, dr_randomID row) with
  | None => s
  | Some r =>
      set_dedup (<[(u, dr_randomID row) := {| dd_recipientUserID := dd_recipientUserID r;
        dd_senderSnapshot := dd_senderSnapshot r; dd_recipientMessage := dd_recipientMessage r;
        dd_fingerprint := dd_fingerprint r; dd_senderDeleteEvent := Some e |}]> (privateSendDedup s)) s
  end.

Fixpoint replace_first (id : Z) p (new : Message) (l : list Message) : list Message :=
  match l with
  | [] => []
  | m :: l => if (m_ID m =? id) && bool_decide (m_Peer m = p) then new :: l else m :: replace_first id p new l
  end.

(** The anchor turns into a service message; the owner is told that it is read
    and edited. *)
Definition materialize_anchor u (cursor date : Z) (anchor : Message) s : list event * MessageStore :=
  let readPts := cursor + 1 in
  let editPts := readPts + 1 in
  let msg := NewHistoryClearMessage u (m_Peer anchor) (m_ID anchor) (m_UID anchor) (m_Date anchor) editPts in
  let s := set_box u (replace_first (m_ID anchor) (m_Peer anchor) msg (boxOf s u)) s in
  let s := forget_tag u (m_ID anchor) s in
  ([mkEvent UpdateEventReadHistoryInbox u readPts 1 date None (m_Peer anchor) false (m_ID anchor) 0 [];
    mkEvent UpdateEventEditMessage u editPts 1 date (Some msg) no_peer false 0 0 []], s).

(** One owner's turn of [finishMemoryDeleteLocked]; [None] is the panic. *)
Definition finish_owner (deleted : list deletedMemoryMessage) (date : Z) (anchors : gmap Z memoryHistoryClearAnchor)
    u s : option (option (DeletedMessagesForUser P) * MessageStore) :=
  let rows := List.filter (λ r, dr_userID r =? u) deleted in
  let ids := normalizeMemoryMessageIDs (dr_id <$> rows) in
  let anchor := a ← anchors !! u; if ha_materialized a then None else Some (ha_message a) in
  let total := Z.of_nat (length ids) + (match anchor with Some _ => 2 | None => 0 end) in
  if total =? 0 then Some (None, s)
  else
    let '(pts, s) := nextPtsNLocked u total s in
    let cursor := pts - total in
    let '(cursor, e, s) :=
      if 0 <? Z.of_nat (length ids) then
        let cursor := cursor + Z.of_nat (length ids) in
        let e := mkEvent UpdateEventDeleteMessages u cursor (Z.of_nat (length ids)) date None no_peer false 0 0 ids in
        (cursor, Some e, fold_left (note_deletion u e) deleted s)
      else (cursor, None, s) in
    let '(cursor, es, s) :=
      match anchor with
      | Some a => let '(es, s) := materialize_anchor u cursor date a s in (cursor + 2, es, s)
      | None => (cursor, [], s)
      end in
    let peers := remove_dups ((dr_peer <$> rows) ++ match anchors !! u with Some a => [m_Peer (ha_message a)] | None => [] end) in
    let s := fold_left (rebuildMemoryDialogLocked u) peers s in
    let s := match anchor with
             | Some a => advanceMemoryHistoryClearDialogLocked u (m_Peer a) (m_ID a) s
             | None => s
             end in
    if negb (cursor =? pts) then None
    else Some (Some {| deleted_UserID := u; deleted_MessageIDs := ids; deleted_Event := e;
                       deleted_Events := match e with Some e => [e] | None => [] end ++ es;
                       deleted_Pts := pts; deleted_PtsCount := total |}, s).

Fixpoint finish_owners (deleted : list deletedMemoryMessage) (date : Z) (anchors : gmap Z memoryHistoryClearAnchor)
    (owners : list Z) s : option (list (DeletedMessagesForUser P) * MessageStore) :=
  match owners with
  | [] => Some ([], s)
  | u :: owners =>
      '(item, s) ← finish_owner deleted date anchors u s;
      '(items, s) ← finish_owners deleted date anchors owners s;
      Some (match item with Some i => i :: items | None => items end, s)
  end.

Definition finishMemoryDeleteLocked (deleted : list deletedMemoryMessage) (date : Z)
    (anchors : gmap Z memoryHistoryClearAnchor) s : option (list (DeletedMessagesForUser P) * MessageStore) :=
  let s := fold_left (λ s r, forget_tag (dr_userID r) (dr_id r) s) deleted s in
  let owners := (dr_userID <$> deleted)
                ++ (List.filter (λ ua, negb (ha_materialized ua.2)) (map_to_list anchors)).*1 in
  finish_owners deleted date anchors (sort_ids (remove_dups owners)) s.

Definition DeleteMessages (now : Z) (req : DeleteMessagesRequest) s
    : option (res message_error (DeleteMessagesResult P) * MessageStore) :=
  let u := dm_OwnerUserID req in
  let ids := normalizeMemoryMessageIDs (dm_IDs req) in
  if (u =? 0) || (Z.of_nat (length ids) =? 0) then Some (OK {| Deleted := []; Offset := 0 |}, s)
  else if MaxDeleteMessageIDs <? Z.of_nat (length ids) then Some (ERR ErrTooManyIDs, s)
  else
    let date := if dm_Date req =? 0 then now else dm_Date req in
    let '(deleted, uids, _, s) := deleteMemoryMessagesLocked u 0 (λ m, bool_decide (m_ID m ∈ ids)) s in
    let '(others, s) :=
      if dm_Revoke req && negb (bool_decide (uids = [])) then deleteMemoryMessagesByUIDLocked uids u s else ([], s) in
    '(items, s) ← finishMemoryDeleteLocked (deleted ++ others) date ∅ s;
    Some (OK {| Deleted := items; Offset := 0 |}, s).

Definition add_anchor s u p (anchors : gmap Z memoryHistoryClearAnchor) : gmap Z memoryHistoryClearAnchor :=
  match memoryHistoryClearAnchorLocked s u p with Some a => <[u := a]> anchors | None => anchors end.

Definition is_anchor (anchors : gmap Z memoryHistoryClearAnchor) u m : bool :=
  match anchors !! u with Some a => m_ID m =? m_ID (ha_message a) | None => false end.

Definition inDateRange (req : DeleteHistoryRequest) m : bool :=
  negb ((0 <? dh_MinDate req) && (m_Date m <? dh_MinDate req))
  && negb ((0 <? dh_MaxDate req) && (dh_MaxDate req <? m_Date m)).

Definition DeleteHistory (now : Z) (req : DeleteHistoryRequest) s : option (DeleteMessagesResult P * MessageStore) :=
  let u := dh_OwnerUserID req in
  let p := dh_Peer req in
  if (u =? 0) || (peer_ID p =? 0) then Some ({| Deleted := []; Offset := 0 |}, s)
  else
    let date := if dh_Date req =? 0 then now else dh_Date req in
    let fullJustClear := dh_JustClear req && (dh_MaxID req <=? 0) && (dh_MinDate req <=? 0) && (dh_MaxDate req <=? 0) in
    let anchors :=
      if fullJustClear then
        let a := add_anchor s u p ∅ in
        if dh_Revoke req && negb (peer_ID p =? u) then add_anchor s (peer_ID p) (user_peer u) a else a
      else ∅ in
    let '(deleted, uids, more, s) :=
      deleteMemoryMessagesLocked u MaxDeleteHistoryBatch (λ m,
        negb (is_anchor anchors u m) && bool_decide (m_Peer m = p)
        && ((dh_MaxID req <=? 0) || (m_ID m <=? dh_MaxID req)) && inDateRange req m) s in
    let '(deleted, s) :=
      if dh_Revoke req && (0 <? dh_MaxID req) && negb (bool_decide (uids = [])) then
        let '(others, s) := deleteMemoryMessagesByUIDLocked uids u s in (deleted ++ others, s)
      else (deleted, s) in
    let '(deleted, more, s) :=
      if dh_Revoke req && (dh_MaxID req <=? 0) && negb (peer_ID p =? u) then
        let '(others, _, peerMore, s) :=
          deleteMemoryMessagesLocked (peer_ID p) MaxDeleteHistoryBatch (λ m,
            negb (is_anchor anchors (peer_ID p) m) && bool_decide (m_Peer m = user_peer u) && inDateRange req m) s in
        (deleted ++ others, more || peerMore, s)
      else (deleted, more, s) in
    '(items, s) ← finishMemoryDeleteLocked deleted date anchors s;
    Some ({| Deleted := items; Offset := if more : bool then 1 else 0 |}, s).

(** ** Editing *)

Definition validMemoryTodoParticipantEdit (req : EditMessageRequest P) (target : Message) : bool :=
  if negb (ed_AllowTodoParticipantMutation req) || ed_SetReplyMarkup req
     || negb match ed_Media req with
             | Some md => bool_decide (md_Kind md = MessageMediaKindTodo) && md_Todo md
             | None => false
             end then false
  else if peer_ID (m_From target) =? ed_OwnerUserID req then false
  else if negb (bool_decide (m_Body target = ed_Message req))
       || negb (bool_decide (m_Entities target = ed_Entities req)) then false
  else match m_Media target with
       | Some md => bool_decide (md_Kind md = MessageMediaKindTodo) && md_Todo md
       | None => false
       end.

Definition edit_copy (req : EditMessageRequest P) (editDate pts : Z) m : Message := {|
  m_ID := m_ID m; m_UID := m_UID m; m_RandomID := m_RandomID m; m_OwnerUserID := m_OwnerUserID m;
  m_Peer := m_Peer m; m_From := m_From m; m_Date := m_Date m;
  m_EditDate := if ed_WebPageResolve req then m_EditDate m else editDate;
  m_HideEdited := if ed_WebPageResolve req then m_HideEdited m else ed_HideEdited req;
  m_Out := m_Out m; m_Silent := m_Silent m; m_NoForwards := m_NoForwards m;
  m_Body := if ed_WebPageResolve req then m_Body m else ed_Message req;
  m_Entities := if ed_WebPageResolve req then m_Entities m else ed_Entities req;
  m_ReplyTo := m_ReplyTo m; m_Forward := m_Forward m; m_Reactions := m_Reactions m; m_Pts := pts;
  m_Media := match ed_Media req with Some md => Some md | None => m_Media m end;
  m_MediaUnread := m_MediaUnread m; m_ReactionUnread := m_ReactionUnread m; m_ViaBotID := m_ViaBotID m;
  m_GroupedID := m_GroupedID m; m_Effect := m_Effect m;
  m_ReplyMarkup := if negb (ed_WebPageResolve req) && ed_SetReplyMarkup req then ed_ReplyMarkup req else m_ReplyMarkup m;
  m_RichMessage := if negb (ed_WebPageResolve req) && ed_SetRichMessage req then ed_RichMessage req else m_RichMessage m;
  m_Pinned := m_Pinned m; m_SavedPeer := m_SavedPeer m |}.

(** The copies in one box; each takes the next position of its owner. *)
Fixpoint edit_box (req : EditMessageRequest P) (editDate uid sender u next : Z) (l : list Message)
    : list Message * list (EditedMessageForUser P) * Z :=
  match l with
  | [] => ([], [], next)
  | m :: l =>
      if (m_UID m =? uid) && (peer_ID (m_From m) =? sender) then
        let m' := edit_copy req editDate (next + 1) m in
        let '(l', edited, next') := edit_box req editDate uid sender u (next + 1) l in
        (m' :: l',
         {| edited_UserID := u; edited_Message := m';
            edited_Event := if ed_WebPageResolve req then webPageEvent m' else editMessageEvent m' |} :: edited,
         next')
      else
        let '(l', edited, next') := edit_box req editDate uid sender u next l in (m :: l', edited, next')
  end.

Fixpoint edit_boxes (req : EditMessageRequest P) (editDate uid sender : Z) (bs : list (Z * list Message)) s
    : list (EditedMessageForUser P) * MessageStore :=
  match bs with
  | [] => ([], s)
  | (u, l) :: bs =>
      let '(l', edited, next) := edit_box req editDate uid sender u (nextPtsOf s u) l in
      let s := match edited with [] => s | _ => set_nextPts (<[u := next]> (nextPts s)) (set_box u l' s) end in
      let '(rest, s) := edit_boxes req editDate uid sender bs s in
      (edited ++ rest, s)
  end.

Definition by_user (a b : EditedMessageForUser P) : Prop := edited_UserID a ≤ edited_UserID b.

#[export] Instance by_user_dec : RelDecision by_user.
Proof. intros a b. unfold by_user. apply _. Defined.

(** Why an edit of [target] is refused. *)
Definition edit_refused (req : EditMessageRequest P) (target : Message) : option message_error :=
  let authorEdit := m_Out target && (peer_ID (m_From target) =? ed_OwnerUserID req) in
  let viaBotEdit := negb (ed_ViaBotEditBotID req =? 0) && (m_ViaBotID target =? ed_ViaBotEditBotID req) in
  if negb authorEdit && negb viaBotEdit && negb (ed_WebPageResolve req)
     && negb (validMemoryTodoParticipantEdit req target) then Some ErrMessageAuthorRequired
  else if ed_WebPageResolve req
          && (match ed_Media req with None => true | Some _ => false end
              || negb (IsPendingWebPageMedia (m_Media target) (ed_ExpectedWebPageID req))) then Some ErrMessageNotModified
  else
    let finalMedia := match ed_Media req with Some md => Some md | None => m_Media target end in
    let finalRich := if ed_SetRichMessage req then ed_RichMessage req else m_RichMessage target in
    if bool_decide (ed_Message req = "") && IsZero_media finalMedia && IsZero_rich finalRich then Some ErrMessageEmpty
    else
      let richChanged := ed_SetRichMessage req && negb (richMessagesEqual (m_RichMessage target) (ed_RichMessage req)) in
      if match ed_Media req with None => true | Some _ => false end && negb (ed_SetReplyMarkup req) && negb richChanged
         && bool_decide (m_Body target = ed_Message req) && Bool.eqb (m_HideEdited target) (ed_HideEdited req)
         && bool_decide (m_Entities target = ed_Entities req) then Some ErrMessageNotModified
      else None.

Definition EditMessage (now : Z) (req : EditMessageRequest P) s
    : res message_error (list (EditedMessageForUser P)) * MessageStore :=
  if (ed_OwnerUserID req =? 0) || (peer_ID (ed_Peer req) =? 0) || (ed_ID req <=? 0) || (MaxMessageBoxID <? ed_ID req)
  then (ERR ErrMessageIDInvalid, s)
  else
    let editDate := if ed_EditDate req =? 0 then now else ed_EditDate req in
    match find_message s (ed_OwnerUserID req) (ed_Peer req) (ed_ID req) with
    | None => (ERR ErrMessageIDInvalid, s)
    | Some target =>
        match edit_refused req target with
        | Some err => (ERR err, s)
        | None =>
            let '(edited, s) :=
              edit_boxes req editDate (m_UID target) (peer_ID (m_From target)) (map_to_list (boxes s)) s in
            let s := set_dialogs (map_imap (λ u l, Some {| l_Dialogs := l_Dialogs l; l_Messages := boxOf s u |})
                                    (dialogs s)) s in
            (OK (merge_sort by_user edited), s)
        end
    end.

(** ** Pinning *)

(** The code changes a message at its index; box ids are unique. *)
Definition flip_pin u (id : Z) (b : bool) s : MessageStore :=
  set_box u ((λ m, if m_ID m =? id then with_Pinned b m else m) <$> boxOf s u) s.

(** A side of the conversation: the user, the peer and the message there. *)
Definition pin_sides (req : PinPrivateMessageRequest) (owned : Message) s : list (Z * Peer * Message) :=
  (pp_OwnerUserID req, pp_Peer req, owned) ::
  (if negb (peer_ID (pp_Peer req) =? pp_OwnerUserID req) && (negb (pp_Pinned req) || negb (pp_PmOneside req)) then
     match List.find (λ m, m_UID m =? m_UID owned) (boxOf s (peer_ID (pp_Peer req))) with
     | Some m => [(peer_ID (pp_Peer req), user_peer (pp_OwnerUserID req), m)]
     | None => []
     end
   else []).

Definition pin_event (req : PinPrivateMessageRequest) (date : Z) (side : Z * Peer * Message) : event :=
  mkEvent UpdateEventPinnedMessages side.1.1 0 1 date None side.1.2 (pp_Pinned req) 0 0 [m_ID side.2].

Definition apply_pins (b : bool) (changes : list (Z * Peer * Message)) s : MessageStore :=
  fold_left (λ s side, flip_pin side.1.1 (m_ID side.2) b s) changes s.

Definition pin_updates (b : bool) (changes : list (Z * Peer * Message)) (es : list event)
    : list (PinnedMessagesForUser P) :=
  zip_with (λ side e, {| pin_UserID := side.1.1; pin_Peer := side.1.2; pin_MessageIDs := [m_ID side.2];
                         pin_Pinned := b; pin_Event := e |}) changes es.

Definition PrivatePinServiceRequest (req : PinPrivateMessageRequest) (random date : Z) : SendPrivateTextRequest P := {|
  sr_SenderUserID := pp_OwnerUserID req; sr_RecipientUserID := peer_ID (pp_Peer req); sr_RandomID := random;
  sr_Message := ""; sr_Entities := []; sr_Media := Some (service_media MessageServiceActionPinMessage);
  sr_Silent := pp_Silent req; sr_NoForwards := false;
  sr_ReplyTo := Some {| rp_MessageID := pp_MessageID req; rp_Peer := pp_Peer req; rp_TopMessageID := 0;
                        rp_ForumTopic := false; rp_QuoteText := ""; rp_QuoteEntities := []; rp_QuoteOffset := 0;
                        rp_External := None; rp_StoryID := 0 |};
  sr_Forward := None; sr_Date := date; sr_OriginAuthKeyID := pp_OriginAuthKeyID req;
  sr_OriginSessionID := pp_OriginSessionID req; sr_OriginUserID := 0;
  sr_RecipientBlocked := pp_RecipientBlocked req; sr_IdempotencyFingerprint := []; sr_TTLPeriod := 0;
  sr_ViaBotID := 0; sr_GroupedID := 0; sr_Effect := 0; sr_ReplyMarkup := None; sr_RichMessage := None |}.

(** Events of a state change that has no message of its own. *)
Fixpoint append_pins (req : PinPrivateMessageRequest) (es : list event) s : list event * MessageStore :=
  match es with
  | [] => ([], s)
  | e :: es =>
      let '(pts, s) := nextPtsWithEventsLocked (UserID e) s in
      let e := placed (UserID e) pts (PtsCount e) (Date e) e in
      let '(auth, session) :=
        if UserID e =? pp_OwnerUserID req then (pp_OriginAuthKeyID req, pp_OriginSessionID req) else (0, 0) in
      let s := appendMemorySendEventLocked (UserID e) e auth session s in
      let '(rest, s) := append_pins req es s in
      (e :: rest, s)
  end.

(** [random] is the fresh key that the code draws for the service message. *)
Definition PinPrivateMessage (now random : Z) (req : PinPrivateMessageRequest) s
    : res message_error (PinPrivateMessageResult P) * MessageStore :=
  let u := pp_OwnerUserID req in
  let p := pp_Peer req in
  let nothing := {| pin_Updated := []; pin_ServiceMessage := None; pin_Offset := 0 |} in
  if (u =? 0) || negb (bool_decide (peer_Type p = PeerTypeUser)) || (peer_ID p =? 0) then (ERR ErrMessageIDInvalid, s)
  else if (pp_MessageID req <=? 0) || (MaxMessageBoxID <? pp_MessageID req) then (ERR ErrMessageIDInvalid, s)
  else
    let date := if pp_Date req =? 0 then now else pp_Date req in
    match find_message s u p (pp_MessageID req) with
    | None => (ERR ErrMessageIDInvalid, s)
    | Some owned =>
        if match m_Media owned with Some md => bool_decide (md_Kind md = MessageMediaKindService) | None => false end
        then (ERR ErrMessageIDInvalid, s)
        else
          let changes := List.filter (λ side, negb (Bool.eqb (m_Pinned side.2) (pp_Pinned req))) (pin_sides req owned s) in
          match changes with
          | [] => (OK nothing, s)
          | _ =>
              let es := pin_event req date <$> changes in
              if pp_Pinned req && negb (pp_PmOneside req) && negb (peer_ID p =? u) then
                let sendReq := PrivatePinServiceRequest req random date in
                match (fp ← PrivateSendFingerprint sendReq;
                       sendPrivateTextLocked now sendReq fp es (λ _ s, apply_pins (pp_Pinned req) changes s) s) with
                | ERR ErrReplyMessageIDInvalid => (ERR ErrMessageIDInvalid, s)
                | ERR e => (ERR e, s)
                | OK (sent, es, s) =>
                    (OK {| pin_Updated := pin_updates (pp_Pinned req) changes es; pin_ServiceMessage := Some sent;
                           pin_Offset := 0 |}, s)
                end
              else
                let '(es, s) := append_pins req es s in
                (OK {| pin_Updated := pin_updates (pp_Pinned req) changes es; pin_ServiceMessage := None; pin_Offset := 0 |},
                 apply_pins (pp_Pinned req) changes s)
          end
    end.

Record UnpinAllPrivateMessagesRequest := {
  ua_OwnerUserID : Z;
  ua_Peer : Peer;
  ua_Date : Z;
  ua_OriginAuthKeyID : Z;
  ua_OriginSessionID : Z;
}.

Definition later_first (a b : Message) : Prop := m_ID b ≤ m_ID a.

#[export] Instance later_first_dec : RelDecision later_first.
Proof. intros a b. unfold later_first. apply _. Defined.

Definition unpin_side (req : UnpinAllPrivateMessagesRequest) (date : Z) u p (ids : list Z) s
    : PinnedMessagesForUser P * MessageStore :=
  let '(pts, s) := nextPtsWithEventsLocked u s in
  let e := mkEvent UpdateEventPinnedMessages u pts 1 date None p false 0 0 ids in
  let '(auth, session) :=
    if u =? ua_OwnerUserID req then (ua_OriginAuthKeyID req, ua_OriginSessionID req) else (0, 0) in
  ({| pin_UserID := u; pin_Peer := p; pin_MessageIDs := ids; pin_Pinned := false; pin_Event := e |},
   appendMemorySendEventLocked u e auth session s).

Definition unpin_messages u (f : Message → bool) s : MessageStore :=
  set_box u ((λ m, if f m then with_Pinned false m else m) <$> boxOf s u) s.

Definition UnpinAllPrivateMessages (now : Z) (req : UnpinAllPrivateMessagesRequest) s
    : res message_error (PinPrivateMessageResult P) * MessageStore :=
  let u := ua_OwnerUserID req in
  let p := ua_Peer req in
  let peer := peer_ID p in
  if (u =? 0) || negb (bool_decide (peer_Type p = PeerTypeUser)) || (peer =? 0) then (ERR ErrMessageIDInvalid, s)
  else
    let date := if ua_Date req =? 0 then now else ua_Date req in
    let pinned := merge_sort later_first (List.filter (λ m, bool_decide (m_Peer m = p) && m_Pinned m) (boxOf s u)) in
    let batch := take MaxUnpinAllBatch pinned in
    let offset := if (MaxUnpinAllBatch <? length pinned)%nat then 1 else 0 in
    let ids := m_ID <$> batch in
    let uids := m_UID <$> batch in
    match ids with
    | [] => (OK {| pin_Updated := []; pin_ServiceMessage := None; pin_Offset := offset |}, s)
    | _ =>
        let s := unpin_messages u (λ m, bool_decide (m_ID m ∈ ids)) s in
        let '(own, s) := unpin_side req date u p ids s in
        if peer =? u then (OK {| pin_Updated := [own]; pin_ServiceMessage := None; pin_Offset := offset |}, s)
        else
          let theirs := m_ID <$> List.filter (λ m, shares_uid uids m && m_Pinned m) (boxOf s peer) in
          let s := unpin_messages peer (λ m, shares_uid uids m && m_Pinned m) s in
          match theirs with
          | [] => (OK {| pin_Updated := [own]; pin_ServiceMessage := None; pin_Offset := offset |}, s)
          | _ =>
              let '(other, s) := unpin_side req date peer (user_peer u) theirs s in
              (OK {| pin_Updated := [own; other]; pin_ServiceMessage := None; pin_Offset := offset |}, s)
          end
    end.

(** ** Forwarding *)

Record ForwardPrivateMessagesRequest := {
  fw_OwnerUserID : Z;
  fw_FromPeer : Peer;
  fw_ToUserID : Z;
  fw_MessageIDs : list Z;
  fw_RandomIDs : list Z;
  fw_Silent : bool;
  fw_NoForwards : bool;
  fw_DropAuthor : bool;
  fw_ReplyTo : option reply;
  fw_Date : Z;
  fw_OriginAuthKeyID : Z;
  fw_OriginSessionID : Z;
  fw_RecipientBlocked : bool;
}.

Fixpoint forward_sources s u p (ids : list Z) : res message_error (list Message) :=
  match ids with
  | [] => OK []
  | id :: ids =>
      if (id <=? 0) || (MaxMessageBoxID <? id) then ERR ErrMessageIDInvalid
      else match find_message s u p id with
      | None => ERR ErrMessageIDInvalid
      | Some source =>
          if m_ID source =? 0 then ERR ErrMessageIDInvalid
          else if m_NoForwards source then ERR ErrChatForwardsRestricted
          else rest ← forward_sources s u p ids; OK (source :: rest)
      end
  end.

Definition forward_request (req : ForwardPrivateMessagesRequest) (date : Z) (source : Message) (id random : Z)
    : SendPrivateTextRequest P :=
  let forward :=
    if fw_DropAuthor req then None
    else
      let f := match m_Forward source with
               | Some f => f
               | None => {| fwd_From := m_From source; fwd_FromName := ""; fwd_Date := m_Date source;
                            fwd_ChannelPost := 0; fwd_SavedFrom := no_peer; fwd_SavedFromMsgID := 0 |}
               end in
      Some (if fw_ToUserID req =? fw_OwnerUserID req then
        {| fwd_From := fwd_From f; fwd_FromName := fwd_FromName f; fwd_Date := fwd_Date f;
           fwd_ChannelPost := fwd_ChannelPost f; fwd_SavedFrom := fw_FromPeer req; fwd_SavedFromMsgID := id |}
      else f) in
  {| sr_SenderUserID := fw_OwnerUserID req; sr_RecipientUserID := fw_ToUserID req; sr_RandomID := random;
     sr_Message := m_Body source; sr_Entities := m_Entities source; sr_Media := m_Media source;
     sr_Silent := fw_Silent req; sr_NoForwards := fw_NoForwards req; sr_ReplyTo := fw_ReplyTo req;
     sr_Forward := forward; sr_Date := date; sr_OriginAuthKeyID := fw_OriginAuthKeyID req;
     sr_OriginSessionID := fw_OriginSessionID req; sr_OriginUserID := 0;
     sr_RecipientBlocked := fw_RecipientBlocked req; sr_IdempotencyFingerprint := []; sr_TTLPeriod := 0;
     sr_ViaBotID := 0; sr_GroupedID := 0; sr_Effect := 0; sr_ReplyMarkup := None; sr_RichMessage := None |}.

(** The sends follow one another; what was sent before an error stays sent. *)
Fixpoint forward_each (now : Z) (req : ForwardPrivateMessagesRequest) (date : Z)
    (items : list (Message * (Z * Z))) s : list (SendPrivateTextResult P) * option message_error * MessageStore :=
  match items with
  | [] => ([], None, s)
  | (source, (id, random)) :: items =>
      if random =? 0 then ([], Some ErrMessageIDInvalid, s)
      else match SendPrivateText now (forward_request req date source id random) s with
      | (ERR e, s) => ([], Some e, s)
      | (OK r, s) => let '(rs, err, s) := forward_each now req date items s in (r :: rs, err, s)
      end
  end.

Definition ForwardPrivateMessages (now : Z) (req : ForwardPrivateMessagesRequest) s
    : list (SendPrivateTextResult P) * option message_error * MessageStore :=
  let u := fw_OwnerUserID req in
  let p := fw_FromPeer req in
  let fail e := ([], Some e, s) in
  if (u =? 0) || (fw_ToUserID req =? 0) || negb (bool_decide (peer_Type p = PeerTypeUser)) || (peer_ID p =? 0)
  then fail ErrMessageIDInvalid
  else if bool_decide (fw_MessageIDs req = []) || negb (length (fw_MessageIDs req) =? length (fw_RandomIDs req))%nat
  then fail ErrMessageIDInvalid
  else if MaxForwardMessageIDs <? Z.of_nat (length (fw_MessageIDs req)) then fail ErrMessageIDInvalid
  else
    let date := if fw_Date req =? 0 then now else fw_Date req in
    if privateNoForwardsEnabled s u (peer_ID p) then fail ErrChatForwardsRestricted
    else match forward_sources s u p (fw_MessageIDs req) with
    | ERR e => fail e
    | OK sources => forward_each now req date (zip sources (zip (fw_MessageIDs req) (fw_RandomIDs req))) s
    end.
End store.
