(* ===== verification/MessagesInv.v ===== *)
(** What holds of the message boxes between any two operations: ids in a box
    grow, a logical message has at most one copy per box, and the copies of one
    message mirror each other.  The invariant speaks of the boxes and the two
    allocators alone, so it is kept by every elementary change of a box:
    appending the copies of a new message, removing messages, changing flags,
    editing all copies, and turning a message into a history-clear anchor. *)

From S2P Require Import Prelude GoStrings Updates Messages.

Open Scope Z_scope.

#[local] Set Default Proof Using "Type".

Lemma bind_OK {E A B} (r : res E A) (k : A → res E B) b : r ≫= k = OK b → ∃ a, r = OK a ∧ k a = OK b.
Proof. destruct r as [a|]; [by exists a|done]. Qed.

(** [List.filter], the executable loop. *)
Section lfilter.
Context {A : Type}.
Implicit Types (f g : A → bool) (l : list A).

Lemma lfilter_all f l : Forall (λ x, f x = true) l → List.filter f l = l.
Proof. induction 1 as [|x l Hx Hl IH]; simpl; [done|]. by rewrite Hx, IH. Qed.

Lemma lfilter_none f l : Forall (λ x, f x = false) l → List.filter f l = [].
Proof. induction 1 as [|x l Hx Hl IH]; simpl; [done|]. by rewrite Hx, IH. Qed.

Lemma elem_of_lfilter f l x : x ∈ List.filter f l ↔ f x = true ∧ x ∈ l.
Proof. rewrite !list_elem_of_In, List.filter_In. tauto. Qed.

Lemma lfilter_ext f g l : (∀ x, x ∈ l → f x = g x) → List.filter f l = List.filter g l.
Proof. intros H. apply List.filter_ext_in. intros x Hx. apply H. by apply list_elem_of_In. Qed.

Lemma lfilter_filter f g l : List.filter f (List.filter g l) = List.filter (λ x, g x && f x) l.
Proof.
  induction l as [|x l IH]; simpl; [done|]. destruct (g x); simpl; [|done]. destruct (f x); by rewrite IH.
Qed.

#[export] Instance lfilter_Permutation f : Proper ((≡ₚ) ==> (≡ₚ)) (List.filter f).
Proof.
  intros l k. induction 1 as [|x l k Hl IH|x y l|l k j H1 IH1 H2 IH2]; simpl.
  - done.
  - destruct (f x); [by constructor|done].
  - destruct (f x), (f y); done || constructor.
  - by etrans.
Qed.
End lfilter.

Section inv.
Context {P Bytes : Type} `{!Codecs P Bytes} `{!EqDecision P}.

Abbreviation Message := (Message P).
Abbreviation event := (event P).
Abbreviation store := (@MessageStore P Bytes).
Implicit Types (m c : Message) (u v id uid pts : Z) (p : Peer) (s : store) (l : list Message).

(** * Copies of one message *)

Definition same_content m c : Prop :=
  m_Body m = m_Body c ∧ m_Entities m = m_Entities c ∧ m_Media m = m_Media c.

(** What no change of a copy touches. *)
Definition same_place m c : Prop :=
  m_ID m = m_ID c ∧ m_UID m = m_UID c ∧ m_OwnerUserID m = m_OwnerUserID c ∧ m_Peer m = m_Peer c
  ∧ m_Date m = m_Date c.

(** The owner [u] wrote [m] and has cleared it. *)
Definition cleared u m : Prop := IsHistoryClearServiceMessage m = true ∧ peer_ID (m_From m) = u.

(** [m] in the box of [u] mirrors [c] in the box of [v].  Clearing a history
    makes the owner the author of what is left, so copies of different authors
    are no longer compared. *)
Definition mirrors u v m c : Prop :=
  m_Peer m = user_peer v ∧ m_Date m = m_Date c ∧
  (m_From m = m_From c → cleared u m ∨ cleared v c ∨ same_content m c).

(** A message alone: its id and logical id are in use, it is the owner's, and it
    is outgoing exactly if the owner wrote it. *)
Record message_ok (nextUID bound : Z) u m : Prop := {
  mo_id : 1 ≤ m_ID m ≤ bound;
  mo_uid : 1 ≤ m_UID m < nextUID;
  mo_owner : m_OwnerUserID m = u;
  mo_peer : m_Peer m = user_peer (peer_ID (m_Peer m));
  mo_from : m_From m = user_peer (peer_ID (m_From m));
  mo_out : m_Out m = (peer_ID (m_From m) =? u);
  mo_party : peer_ID (m_From m) = u ∨ m_From m = m_Peer m;
}.

Record boxes_ok (nextUID : Z) (nb : Z → Z) (b : Z → list Message) : Prop := {
  bo_uid : 1 ≤ nextUID;
  bo_next u : 0 ≤ nb u;
  bo_messages u : Forall (message_ok nextUID (nb u) u) (b u);
  bo_sorted u : StronglySorted Z.lt (m_ID <$> b u);
  bo_uids u : NoDup (m_UID <$> b u);
  bo_mirror u v m c : u ≠ v → m ∈ b u → c ∈ b v → m_UID m = m_UID c → mirrors u v m c;
}.

Definition store_ok s : Prop := boxes_ok (nextUID s) (nextBoxOf s) (boxOf s).

Lemma boxes_ok_ext n n' nb nb' (b b' : Z → list Message) :
  n = n' → (∀ u, nb u = nb' u) → (∀ u, b u = b' u) → boxes_ok n nb b → boxes_ok n' nb' b'.
Proof.
  intros <- Hn Hb [H1 H2 H3 H4 H5 H6]. split.
  - done.
  - intros u. rewrite <- Hn. apply H2.
  - intros u. rewrite <- Hb, <- Hn. apply H3.
  - intros u. rewrite <- Hb. apply H4.
  - intros u. rewrite <- Hb. apply H5.
  - intros u v m c. rewrite <- !Hb. apply H6.
Qed.

Lemma sorted_lt_NoDup (l : list Z) : StronglySorted Z.lt l → NoDup l.
Proof.
  induction 1 as [|x l Hs IH Hx]; constructor; [|done].
  intros Hin. rewrite Forall_forall in Hx. specialize (Hx x Hin). lia.
Qed.

Lemma box_ids n nb b u : boxes_ok n nb b → NoDup (m_ID <$> b u).
Proof. intros H. apply sorted_lt_NoDup, H. Qed.

Lemma fmap_inj_in {A} (f : Message → A) l m c : NoDup (f <$> l) → m ∈ l → c ∈ l → f m = f c → m = c.
Proof.
  intros Hnd [i Hi]%list_elem_of_lookup_1 [j Hj]%list_elem_of_lookup_1 Hf.
  assert (i = j) as ->; [|congruence].
  eapply (NoDup_lookup _ _ _ (f m) Hnd); rewrite list_lookup_fmap; [by rewrite Hi|by rewrite Hj, Hf].
Qed.

Lemma box_id_inj n nb b u m c : boxes_ok n nb b → m ∈ b u → c ∈ b u → m_ID m = m_ID c → m = c.
Proof. intros H. apply fmap_inj_in. by eapply box_ids. Qed.

Lemma message_in_ok s u m : store_ok s → m ∈ boxOf s u → message_ok (nextUID s) (nextBoxOf s u) u m.
Proof. intros H Hm. pose proof (bo_messages _ _ _ H u) as HM. rewrite Forall_forall in HM. by apply HM. Qed.

(** ** Removing messages *)

Lemma sublist_sorted (l k : list Z) : l `sublist_of` k → StronglySorted Z.lt k → StronglySorted Z.lt l.
Proof.
  induction 1 as [|x l k Hs IH|x l k Hs IH]; intros Hk; [done| |].
  - apply StronglySorted_inv in Hk as [Hk Hx]. constructor; [by apply IH|].
    rewrite Forall_forall in Hx |- *. intros y Hy. apply Hx. eapply elem_of_submseteq; [done|]. by apply sublist_submseteq.
  - apply StronglySorted_inv in Hk as [Hk _]. by apply IH.
Qed.

Lemma boxes_ok_sub n nb (b b' : Z → list Message) :
  (∀ u, b' u `sublist_of` b u) → boxes_ok n nb b → boxes_ok n nb b'.
Proof.
  intros Hsub [H1 H2 H3 H4 H5 H6].
  assert (∀ u m, m ∈ b' u → m ∈ b u) as Hin.
  { intros u m Hm. eapply elem_of_submseteq; [done|]. apply sublist_submseteq, Hsub. }
  split; try done.
  - intros u. apply Forall_forall. intros m Hm. specialize (H3 u). rewrite Forall_forall in H3. auto.
  - intros u. apply (sublist_sorted _ (m_ID <$> b u)); [|done]. by apply fmap_sublist.
  - intros u. apply (sublist_NoDup _ (m_UID <$> b u)); [done|]. by apply fmap_sublist.
  - intros u v m c Huv Hm Hc. apply (H6 u v); auto.
Qed.

Lemma filter_sublist (f : Message → bool) l : List.filter f l `sublist_of` l.
Proof.
  induction l as [|x l IH]; simpl; [constructor|]. destruct (f x); by constructor.
Qed.

(** ** Changing messages in place *)

(** [b'] has the messages of [b] in their places, with what [message_ok] reads. *)
Definition revised (b b' : Z → list Message) : Prop :=
  ∀ u, Forall2 (λ m m', same_place m m' ∧ m_From m' = user_peer (peer_ID (m_From m'))
                        ∧ m_Out m' = (peer_ID (m_From m') =? u)
                        ∧ (peer_ID (m_From m') = u ∨ m_From m' = m_Peer m')) (b u) (b' u).

Lemma Forall2_fmap_eq {A} (R : Message → Message → Prop) (f : Message → A) l l' :
  (∀ m m', R m m' → f m = f m') → Forall2 R l l' → f <$> l = f <$> l'.
Proof. intros Hf. induction 1; simpl; [done|]. f_equal; auto. Qed.

Lemma Forall2_elem_r (R : Message → Message → Prop) l l' m' :
  Forall2 R l l' → m' ∈ l' → ∃ m, m ∈ l ∧ R m m'.
Proof.
  induction 1 as [|x y l l' Hxy Hl IH]; intros Hm; [by apply elem_of_nil in Hm|].
  apply elem_of_cons in Hm as [->|Hm]; [exists x; split; [by left|done]|].
  destruct (IH Hm) as (m & ? & ?). exists m. split; [by right|done].
Qed.

Lemma revised_ids b b' u : revised b b' → m_ID <$> b u = m_ID <$> b' u.
Proof. intros H. eapply Forall2_fmap_eq; [|apply H]. by intros m m' [[? _] _]. Qed.

Lemma revised_uids b b' u : revised b b' → m_UID <$> b u = m_UID <$> b' u.
Proof. intros H. eapply Forall2_fmap_eq; [|apply H]. by intros m m' [(_ & ? & _) _]. Qed.

Lemma boxes_ok_revised n nb (b b' : Z → list Message) :
  boxes_ok n nb b → revised b b' →
  (∀ u v m c, u ≠ v → m ∈ b' u → c ∈ b' v → m_UID m = m_UID c → mirrors u v m c) →
  boxes_ok n nb b'.
Proof.
  intros [H1 H2 H3 H4 H5 H6] Hr Hm. split; try done.
  - intros u. specialize (Hr u). apply Forall_forall. intros m' Hm'.
    destruct (Forall2_elem_r _ _ _ _ Hr Hm') as (m & Hin & (E1 & E2 & E3 & E4 & E5) & Hf & Ho & Hp).
    specialize (H3 u). rewrite Forall_forall in H3. destruct (H3 m Hin) as [? ? ? ? ? ? ?].
    split; try done; [by rewrite <- E1|by rewrite <- E2|by rewrite <- E3|by rewrite <- E4].
  - intros u. rewrite <- (revised_ids _ _ u Hr). apply H4.
  - intros u. rewrite <- (revised_uids _ _ u Hr). apply H5.
Qed.

Lemma Forall2_refl_in (R : Message → Message → Prop) l : (∀ m, m ∈ l → R m m) → Forall2 R l l.
Proof.
  induction l as [|x l IH]; intros H; constructor; [apply H; by left|]. apply IH. intros m Hm. apply H. by right.
Qed.

Lemma Forall2_fmap_in (R : Message → Message → Prop) (f : Message → Message) l :
  (∀ m, m ∈ l → R m (f m)) → Forall2 R l (f <$> l).
Proof.
  induction l as [|x l IH]; intros H; constructor; [apply H; by left|]. apply IH. intros m Hm. apply H. by right.
Qed.

(** Flags: nothing that the invariant reads changes. *)
Definition only_flags (f : Message → Message) : Prop :=
  ∀ m, same_place m (f m) ∧ m_From (f m) = m_From m ∧ m_Out (f m) = m_Out m ∧ same_content m (f m).

Lemma set_flags_only mu ru pin random rx : only_flags (set_flags mu ru pin random rx).
Proof. by intros m. Qed.

Lemma only_flags_if (g : Message → bool) f : only_flags f → only_flags (λ m, if g m then f m else m).
Proof. intros Hf m. destruct (g m); [apply Hf|by split_and!]. Qed.

Lemma boxes_ok_flags n nb (b : Z → list Message) (f : Z → Message → Message) :
  boxes_ok n nb b → (∀ u, only_flags (f u)) → boxes_ok n nb (λ u, f u <$> b u).
Proof.
  intros H Hf. apply (boxes_ok_revised n nb b); [done| |].
  - intros u. apply Forall2_fmap_in. intros m Hm. destruct (Hf u m) as (Hs & Hfr & Ho & _).
    pose proof (bo_messages _ _ _ H u) as HM. rewrite Forall_forall in HM. destruct (HM m Hm).
    rewrite Hfr, Ho. split_and!; try done. destruct Hs as (_ & _ & _ & <- & _). done.
  - intros u v m' c' Huv Hm Hc Huid.
    apply list_elem_of_fmap in Hm as (m & -> & Hm). apply list_elem_of_fmap in Hc as (c & -> & Hc).
    destruct (Hf u m) as ((E1 & E2 & E3 & E4 & E5) & Hfr & Ho & (C1 & C2 & C3)).
    destruct (Hf v c) as ((F1 & F2 & F3 & F4 & F5) & Hfr' & Ho' & (D1 & D2 & D3)).
    destruct (bo_mirror _ _ _ H u v m c Huv Hm Hc) as (Hp & Hd & Hc'); [congruence|].
    split_and!; [congruence|congruence|]. rewrite Hfr, Hfr'. intros Heq.
    unfold cleared, IsHistoryClearServiceMessage, same_content in *.
    rewrite Hfr, Hfr', <- C1, <- C2, <- C3, <- D1, <- D2, <- D3. auto.
Qed.

(** ** A new message *)

Lemma message_ok_mono n n' k k' u m : n ≤ n' → k ≤ k' → message_ok n k u m → message_ok n' k' u m.
Proof. intros Hn Hk []. split; try done; lia. Qed.

Lemma sorted_snoc (l : list Z) x : StronglySorted Z.lt l → Forall (λ y, y < x) l → StronglySorted Z.lt (l ++ [x]).
Proof.
  induction 1 as [|y l Hs IH Hy]; intros Hx; simpl; [by repeat constructor|].
  apply Forall_cons in Hx as [Hyx Hx]. constructor; [by apply IH|]. apply Forall_app. split; [done|by constructor].
Qed.

Definition new_copy (n : Z) (nb : Z → Z) (add : Z → option Message) : Prop :=
  ∀ u m, add u = Some m → message_ok (n + 1) (nb u + 1) u m ∧ m_ID m = nb u + 1 ∧ m_UID m = n.

Lemma boxes_ok_add n nb (b : Z → list Message) (add : Z → option Message) :
  boxes_ok n nb b → new_copy n nb add →
  (∀ u v m c, u ≠ v → add u = Some m → add v = Some c → mirrors u v m c) →
  boxes_ok (n + 1) (λ u, match add u with Some _ => nb u + 1 | None => nb u end) (λ u, b u ++ option_list (add u)).
Proof.
  intros [H1 H2 H3 H4 H5 H6] Hadd Hm.
  assert (∀ u m, m ∈ b u ++ option_list (add u) → m ∈ b u ∧ m_UID m < n ∨ add u = Some m ∧ m_UID m = n) as Hin.
  { intros u m [Hb|Ha]%elem_of_app.
    - left. split; [done|]. specialize (H3 u). rewrite Forall_forall in H3. by destruct (H3 m Hb) as [_ [_ ?]].
    - right. destruct (add u) as [a|] eqn:E; [|by apply elem_of_nil in Ha].
      apply list_elem_of_singleton in Ha as ->. split; [done|]. by apply (Hadd u a E). }
  split.
  - lia.
  - intros u. specialize (H2 u). destruct (add u); lia.
  - intros u. specialize (H2 u). apply Forall_app. split.
    + eapply Forall_impl; [apply H3|]. intros m. apply message_ok_mono; [lia|]. destruct (add u); lia.
    + destruct (add u) as [a|] eqn:E; [|constructor]. constructor; [|constructor]. by apply Hadd.
  - intros u. rewrite fmap_app. destruct (add u) as [a|] eqn:E; simpl; [|rewrite app_nil_r; apply H4].
    destruct (Hadd u a E) as (_ & -> & _). apply sorted_snoc; [apply H4|]. apply Forall_fmap.
    eapply Forall_impl; [apply H3|]. intros m [[_ ?]]. simpl. lia.
  - intros u. rewrite fmap_app. destruct (add u) as [a|] eqn:E; simpl; [|rewrite app_nil_r; apply H5].
    destruct (Hadd u a E) as (_ & _ & ->). apply NoDup_app. split_and!; [apply H5| |apply NoDup_singleton].
    intros x Hx ->%list_elem_of_singleton. apply list_elem_of_fmap in Hx as (m & Hmx & Hmb).
    specialize (H3 u). rewrite Forall_forall in H3. destruct (H3 m Hmb) as [_ [_ ?]]. lia.
  - intros u v m c Huv Hmu Hcv Huid.
    destruct (Hin u m Hmu) as [[Hb Hlt]|[Ha He]], (Hin v c Hcv) as [[Hb' Hlt']|[Ha' He']]; try lia; eauto.
Qed.

(** ** Edits *)

Definition edit_matches uid sender m : bool := (m_UID m =? uid) && (peer_ID (m_From m) =? sender).

Definition edits (req : EditMessageRequest P) (date uid sender : Z) m m' : Prop :=
  if edit_matches uid sender m then ∃ pts, m' = edit_copy req date pts m else m' = m.

Lemma edit_copy_place req date pts m :
  same_place m (edit_copy req date pts m) ∧ m_From (edit_copy req date pts m) = m_From m
  ∧ m_Out (edit_copy req date pts m) = m_Out m.
Proof. by split_and!. Qed.

Lemma edits_place req date uid sender m m' :
  edits req date uid sender m m' → same_place m m' ∧ m_From m' = m_From m ∧ m_Out m' = m_Out m.
Proof. unfold edits. destruct (edit_matches _ _ _); [intros [pts ->]; apply edit_copy_place|by intros ->]. Qed.

(** Two copies of the same author are edited alike.  A preview replaces media
    only, so it must not reach a copy that its author has cleared. *)
Lemma edits_mirror req date uid sender u v m c m' c' :
  edits req date uid sender m m' → edits req date uid sender c c' → mirrors u v m c → m_UID m = m_UID c →
  (ed_WebPageResolve req = true → edit_matches uid sender m = true → edit_matches uid sender c = true →
     is_Some (ed_Media req) ∧ ¬ cleared u m ∧ ¬ cleared v c) →
  mirrors u v m' c'.
Proof.
  intros Hm Hc (Hp & Hd & Hsame) Huid Hweb.
  destruct (edits_place _ _ _ _ _ _ Hm) as ((_ & _ & _ & Em & Dm) & Fm & _).
  destruct (edits_place _ _ _ _ _ _ Hc) as ((_ & _ & _ & Ec & Dc) & Fc & _).
  split_and!; [congruence|congruence|]. rewrite Fm, Fc. intros Hf. specialize (Hsame Hf).
  unfold edits in Hm, Hc.
  assert (edit_matches uid sender m = edit_matches uid sender c) as Hsm by (unfold edit_matches; congruence).
  rewrite <- Hsm in Hc, Hweb. destruct (edit_matches uid sender m); [|by subst].
  destruct Hm as [pts ->], Hc as [pts' ->]. unfold cleared, IsHistoryClearServiceMessage, same_content in *. simpl in *.
  destruct (ed_WebPageResolve req).
  - destruct (Hweb eq_refl eq_refl eq_refl) as ([md Emd] & Hm & Hc). rewrite Emd.
    destruct Hsame as [?|[?|(E1 & E2 & _)]]; [done|done|]. right. right. by split_and!.
  - destruct (ed_Media req); [by right; right|]. destruct Hsame as [?|[?|(_ & _ & E)]]; [by left|by right; left|].
    right. right. by split_and!.
Qed.

Lemma boxes_ok_edit n nb (b b' : Z → list Message) req date uid sender :
  boxes_ok n nb b → (∀ u, Forall2 (edits req date uid sender) (b u) (b' u)) →
  (ed_WebPageResolve req = true → is_Some (ed_Media req) ∧
     ∀ u m, m ∈ b u → edit_matches uid sender m = true → ¬ cleared u m) →
  boxes_ok n nb b'.
Proof.
  intros H He Hweb. apply (boxes_ok_revised n nb b); [done| |].
  - intros u. pose proof (bo_messages _ _ _ H u) as HM. revert HM. specialize (He u).
    induction He as [|m m' l l' Hm Hl IH]; intros HM; [constructor|]. apply Forall_cons in HM as [HM HL].
    constructor; [|by apply IH]. destruct (edits_place _ _ _ _ _ _ Hm) as (Hp & Hf & Ho). destruct HM.
    rewrite Hf, Ho. split_and!; try done. destruct Hp as (_ & _ & _ & <- & _). done.
  - intros u v m' c' Huv Hm Hc Huid.
    destruct (Forall2_elem_r _ _ _ _ (He u) Hm) as (m & Hmb & Em).
    destruct (Forall2_elem_r _ _ _ _ (He v) Hc) as (c & Hcb & Ec).
    assert (m_UID m = m_UID c) as Hu.
    { destruct (edits_place _ _ _ _ _ _ Em) as ((_ & ? & _) & _), (edits_place _ _ _ _ _ _ Ec) as ((_ & ? & _) & _).
      congruence. }
    eapply edits_mirror; [done|done|by eapply (bo_mirror _ _ _ H u v)|done|].
    intros Hw Hmm Hmc. destruct (Hweb Hw) as [? Hcl]. eauto.
Qed.

(** ** Clearing a history *)

Lemma fmap_same (f : Message → Message) l : (∀ m, m ∈ l → f m = m) → f <$> l = l.
Proof.
  induction l as [|x l IH]; intros H; [done|]. simpl. rewrite (H x) by by left. f_equal.
  apply IH. intros m Hm. apply H. by right.
Qed.

Lemma replace_first_in id p new l :
  NoDup (m_ID <$> l) → (∀ m, m ∈ l → m_ID m = id → m_Peer m = p) →
  replace_first id p new l = (λ m, if m_ID m =? id then new else m) <$> l.
Proof.
  induction l as [|m l IH]; intros Hnd Hp; [done|]. simpl in *. apply NoDup_cons in Hnd as [Hn Hnd].
  destruct (Z.eqb_spec (m_ID m) id) as [E|E]; simpl.
  - rewrite bool_decide_true by (apply Hp; [by left|done]). f_equal.
    symmetry. apply fmap_same. intros c Hc.
    destruct (Z.eqb_spec (m_ID c) id) as [E'|]; [|done]. exfalso. apply Hn. rewrite E, <- E'.
    apply list_elem_of_fmap. by exists c.
  - f_equal. apply IH; [done|]. intros c Hc. apply Hp. by right.
Qed.

(** The copy that [anchor] becomes. *)
Definition clear_copy u pts (anchor : Message) : Message :=
  NewHistoryClearMessage u (m_Peer anchor) (m_ID anchor) (m_UID anchor) (m_Date anchor) pts.

Lemma boxes_ok_clear n nb (b b' : Z → list Message) u anchor pts :
  boxes_ok n nb b → anchor ∈ b u →
  b' u = (λ m, if m_ID m =? m_ID anchor then clear_copy u pts anchor else m) <$> b u →
  (∀ v, v ≠ u → b' v = b v) → boxes_ok n nb b'.
Proof.
  intros H Ha Hu Hv. pose proof (bo_messages _ _ _ H) as HM.
  assert (∀ v m', m' ∈ b' v → m' ∈ b v ∨ v = u ∧ m' = clear_copy u pts anchor) as Hin.
  { intros v m' Hm. destruct (decide (v = u)) as [->|Hne]; [|rewrite Hv in Hm by done; by left].
    rewrite Hu in Hm. apply list_elem_of_fmap in Hm as (m & -> & Hm). destruct (_ =? _); [by right|by left]. }
  assert (message_ok n (nb u) u anchor) as Hok.
  { specialize (HM u). rewrite Forall_forall in HM. by apply HM. }
  destruct Hok as [? ? Ho Hp Hf Hout Hparty].
  apply (boxes_ok_revised n nb b); [done| |].
  - intros v. destruct (decide (v = u)) as [->|Hne].
    + rewrite Hu. apply Forall2_fmap_in. intros m Hm. destruct (Z.eqb_spec (m_ID m) (m_ID anchor)) as [E|E].
      * rewrite (box_id_inj _ _ _ _ _ _ H Hm Ha E). simpl. rewrite Z.eqb_refl. split_and!; try done. by left.
      * specialize (HM u). rewrite Forall_forall in HM. destruct (HM m Hm). by split_and!.
    + rewrite Hv by done. apply Forall2_refl_in. intros m Hm. specialize (HM v). rewrite Forall_forall in HM.
      destruct (HM m Hm). by split_and!.
  - intros v w m c Hvw Hm Hc Huid.
    destruct (Hin v m Hm) as [Hmb|[-> ->]], (Hin w c Hc) as [Hcb|[-> ->]].
    + by apply (bo_mirror _ _ _ H v w).
    + destruct (bo_mirror _ _ _ H v u m anchor Hvw Hmb Ha) as (? & ? & _); [done|]. split_and!; [done..|].
      intros _. right. by left.
    + destruct (bo_mirror _ _ _ H u w anchor c Hvw Ha Hcb) as (? & ? & _); [done|]. split_and!; [done..|].
      intros _. by left.
    + done.
Qed.
End inv.
