(* ===== verification/MessagesPage.v ===== *)
(** Reading a history ([internal/store/memory/message_history.go]): the filter,
    the page around an offset and the lookups by id.  The summary of users and
    the hash of the answer are left out.  Parameters: the polls, which another
    store keeps, and the case table of Unicode beyond ASCII. *)

From S2P Require Import Prelude GoStrings Updates Messages MessagesInv.

Open Scope Z_scope.

#[local] Set Default Proof Using "Type".

(** [strings.ToLower] maps ASCII letters and leaves the rest to the tables. *)
Definition lower_ascii (a : Ascii.ascii) : Ascii.ascii :=
  let n := Ascii.N_of_ascii a in
  if ((65 <=? n) && (n <=? 90))%N then Ascii.ascii_of_N (n + 32) else a.

Fixpoint map_string (f : Ascii.ascii → Ascii.ascii) (s : string) : string :=
  match s with
  | EmptyString => EmptyString
  | String.String a s => String.String (f a) (map_string f s)
  end.

Definition isASCII (s : string) : bool := forallb (λ b, b <? 128) (bytes_of s).

Class Tables (P : Type) := {
  unicode_lower : string → string;
  poll_of : Z → Z → MessageMedia P → MessageMedia P;
}.

Section page.
Context {P Bytes : Type} `{!Codecs P Bytes} `{!EqDecision P} `{!Tables P}.

Abbreviation Message := (Message P).
Abbreviation store := (@MessageStore P Bytes).
Implicit Types (m c : Message) (u id : Z) (s : store) (l base : list Message).

Definition ToLower (s : string) : string := if isASCII s then map_string lower_ascii s else unicode_lower s.

Definition Contains (s substr : string) : bool := bool_decide (is_Some (String.index 0 substr s)).

Record MessageFilter := {
  HasPeer : bool;
  f_Peer : Peer;
  Query : string;
  OffsetID : Z;
  OffsetDate : Z;
  MinDate : Z;
  MaxDate : Z;
  AddOffset : Z;
  Limit : Z;
  f_MaxID : Z;
  MinID : Z;
  f_SenderUserID : Z;
  CountOnly : bool;
  PinnedOnly : bool;
  MusicOnly : bool;
  f_SavedPeer : Peer;
  SavedReactions : list string;
  PeerIDs : list Z;
  RestrictPeerIDs : bool;
}.

Implicit Types (filter : MessageFilter).

Record MessageList := {
  Messages : list Message;
  Count : Z;
}.

Definition ClampMessageHistoryAddOffset (v : Z) : Z :=
  if MaxMessageHistoryAddOffset <? v then MaxMessageHistoryAddOffset
  else if v <? - MaxMessageHistoryAddOffset then - MaxMessageHistoryAddOffset
  else v.

Definition with_AddOffset (v : Z) filter : MessageFilter := {|
  HasPeer := HasPeer filter; f_Peer := f_Peer filter; Query := Query filter; OffsetID := OffsetID filter;
  OffsetDate := OffsetDate filter; MinDate := MinDate filter; MaxDate := MaxDate filter; AddOffset := v;
  Limit := Limit filter; f_MaxID := f_MaxID filter; MinID := MinID filter; f_SenderUserID := f_SenderUserID filter;
  CountOnly := CountOnly filter; PinnedOnly := PinnedOnly filter; MusicOnly := MusicOnly filter;
  f_SavedPeer := f_SavedPeer filter; SavedReactions := SavedReactions filter; PeerIDs := PeerIDs filter;
  RestrictPeerIDs := RestrictPeerIDs filter |}.

Definition DocAttrAudio : string := "audio".

(** [Document.IsMusic] over the kinds and voice flags of the attributes. *)
Definition document_IsMusic (attributes : list (string * bool)) : bool :=
  existsb (λ a, bool_decide (a.1 = DocAttrAudio) && negb a.2) attributes.

Definition IsMusic (o : option (MessageMedia P)) : bool :=
  match o with
  | None => false
  | Some md =>
      bool_decide (md_Kind md = MessageMediaKindDocument)
      && match md_Document md with
         | None => false
         | Some attributes => negb (md_Voice md) && document_IsMusic attributes
         end
  end.

Definition messageHasAnySavedTag m (wanted : list string) : bool :=
  match m_Reactions m with
  | None => false
  | Some r => rx_AsTags r && existsb (λ w, bool_decide (w ∈ rx_ResultKeys r)) wanted
  end.

(** The messages that the loop of [filterMessageList] keeps. *)
Definition passes filter m : bool :=
  let query := ToLower (Query filter) in
  if HasPeer filter && negb (bool_decide (m_Peer m = f_Peer filter)) then false
  else if negb (f_SenderUserID filter =? 0) && negb (bool_decide (m_From m = user_peer (f_SenderUserID filter))) then false
  else if RestrictPeerIDs filter && negb (bool_decide (peer_Type (m_Peer m) = PeerTypeUser)) then false
  else if RestrictPeerIDs filter && negb (bool_decide (peer_ID (m_Peer m) ∈ PeerIDs filter)) then false
  else if negb (bool_decide (query = ""%string)) && negb (Contains (ToLower (m_Body m)) query) then false
  else if (0 <? MinDate filter) && (m_Date m <=? MinDate filter) then false
  else if (0 <? MaxDate filter) && (MaxDate filter <=? m_Date m) then false
  else if (0 <? f_MaxID filter) && (f_MaxID filter <=? m_ID m) then false
  else if (0 <? MinID filter) && (m_ID m <=? MinID filter) then false
  else if PinnedOnly filter && negb (m_Pinned m) then false
  else if MusicOnly filter && negb (IsMusic (m_Media m)) then false
  else if negb (peer_ID (f_SavedPeer filter) =? 0) && negb (bool_decide (m_SavedPeer m = f_SavedPeer filter)) then false
  else if (0 <? Z.of_nat (length (SavedReactions filter))) && negb (messageHasAnySavedTag m (SavedReactions filter)) then false
  else true.

Inductive messageHistoryLoad := messageHistoryLoadBackward | messageHistoryLoadForward | messageHistoryLoadAround.

Definition messageHistoryLoadType (addOffset limit : Z) : messageHistoryLoad :=
  if 0 <=? addOffset then messageHistoryLoadBackward
  else if 0 <? addOffset + limit then messageHistoryLoadAround
  else messageHistoryLoadForward.

Definition messageBeforeHistoryOffset filter m : bool :=
  if 0 <? OffsetDate filter then m_Date m <? OffsetDate filter
  else if OffsetID filter <=? 0 then true
  else m_ID m <? OffsetID filter.

Definition messageAfterHistoryOffset filter m : bool :=
  if 0 <? OffsetDate filter then OffsetDate filter <=? m_Date m
  else if OffsetID filter <=? 0 then false
  else OffsetID filter <=? m_ID m.

(** The first [limit] matches. *)
Fixpoint collect (matches : Message → bool) (limit : Z) l : list Message :=
  match l with
  | [] => []
  | m :: l =>
      if negb (matches m) then collect matches limit l
      else if limit =? 1 then [m] else m :: collect matches (limit - 1) l
  end.

Definition backwardMessageHistory base filter (limit : Z) : list Message :=
  if limit <=? 0 then [] else collect (messageBeforeHistoryOffset filter) limit base.

Fixpoint collect_after (matches : Message → bool) (limit skip : Z) l : list Message :=
  match l with
  | [] => []
  | m :: l =>
      if negb (matches m) then collect_after matches limit skip l
      else if 0 <? skip then collect_after matches limit (skip - 1) l
      else if limit =? 1 then [m] else m :: collect_after matches (limit - 1) skip l
  end.

Definition forwardMessageHistory base filter (limit skip : Z) : list Message :=
  if limit <=? 0 then []
  else merge_sort later_first (collect_after (messageAfterHistoryOffset filter) limit skip (reverse base)).

Definition pageMessageHistory base filter (limit : Z) : list Message :=
  if (limit <=? 0) || (Z.of_nat (length base) =? 0) then []
  else match messageHistoryLoadType (AddOffset filter) limit with
  | messageHistoryLoadForward => forwardMessageHistory base filter limit (- AddOffset filter - limit)
  | messageHistoryLoadAround =>
      let forwardLimit := if limit <? - AddOffset filter then limit else - AddOffset filter in
      let backwardLimit := if limit + AddOffset filter <? 0 then 0 else limit + AddOffset filter in
      merge_sort later_first (forwardMessageHistory base filter forwardLimit 0
                              ++ backwardMessageHistory base filter backwardLimit)
  | messageHistoryLoadBackward =>
      let start := if AddOffset filter <? 0 then 0 else AddOffset filter in
      let candidates := backwardMessageHistory base filter (limit + start) in
      if Z.of_nat (length candidates) <=? start then [] else drop (Z.to_nat start) candidates
  end.

Definition page_limit filter : Z :=
  let limit := if Limit filter <=? 0 then 100 else Limit filter in
  if 500 <? limit then 500 else limit.

Definition filterMessageList l filter : MessageList :=
  let filter := with_AddOffset (ClampMessageHistoryAddOffset (AddOffset filter)) filter in
  let base := List.filter (passes filter) (merge_sort later_first l) in
  if CountOnly filter then {| Messages := []; Count := Z.of_nat (length base) |}
  else {| Messages := pageMessageHistory base filter (page_limit filter); Count := Z.of_nat (length base) |}.

Definition enrich_poll (now : Z) m : Message := {|
  m_ID := m_ID m; m_UID := m_UID m; m_RandomID := m_RandomID m; m_OwnerUserID := m_OwnerUserID m;
  m_Peer := m_Peer m; m_From := m_From m; m_Date := m_Date m; m_EditDate := m_EditDate m;
  m_HideEdited := m_HideEdited m; m_Out := m_Out m; m_Silent := m_Silent m; m_NoForwards := m_NoForwards m;
  m_Body := m_Body m; m_Entities := m_Entities m; m_ReplyTo := m_ReplyTo m; m_Forward := m_Forward m;
  m_Reactions := m_Reactions m; m_Pts := m_Pts m;
  m_Media := poll_of (m_OwnerUserID m) now <$> m_Media m; m_MediaUnread := m_MediaUnread m;
  m_ReactionUnread := m_ReactionUnread m; m_ViaBotID := m_ViaBotID m; m_GroupedID := m_GroupedID m;
  m_Effect := m_Effect m; m_ReplyMarkup := m_ReplyMarkup m; m_RichMessage := m_RichMessage m;
  m_Pinned := m_Pinned m; m_SavedPeer := m_SavedPeer m |}.

(** What a reader gets to see of a message. *)
Definition shown (now : Z) m : Message := enrich_poll now (enriched m).

Definition ListByUser (now : Z) s u filter : MessageList := filterMessageList (shown now <$> boxOf s u) filter.

Definition GetByIDs (now : Z) s u (ids : list Z) : list Message :=
  if (u =? 0) || (Z.of_nat (length ids) =? 0) then []
  else
    let byID := fold_left (λ (b : gmap Z Message) m, <[m_ID m := enriched m]> b) (boxOf s u) ∅ in
    enrich_poll now <$> omap (λ id, byID !! id) ids.

Definition GetByUID (now : Z) s u (uid : Z) : option Message :=
  if (u =? 0) || (uid =? 0) then None
  else match List.find (λ m, m_UID m =? uid) (boxOf s u) with
  | None => None
  | Some found => if m_ID found =? 0 then None else Some (shown now found)
  end.

(** * A page is a window of the filtered history *)

Definition window (lo n : Z) l : list Message := drop (Z.to_nat lo) (take (Z.to_nat (lo + n)) l).

(** How many messages are at or after the offset. *)
Definition position filter base : Z := Z.of_nat (length (List.filter (messageAfterHistoryOffset filter) base)).

Definition newest_first l : Prop := StronglySorted (λ m c, m_ID c < m_ID m) l.

Lemma before_not_after filter m : messageBeforeHistoryOffset filter m = negb (messageAfterHistoryOffset filter m).
Proof.
  unfold messageBeforeHistoryOffset, messageAfterHistoryOffset. destruct (0 <? OffsetDate filter).
  - by rewrite Z.ltb_antisym.
  - destruct (OffsetID filter <=? 0); [done|]. by rewrite Z.ltb_antisym.
Qed.

Lemma page_collect_take (f : Message → bool) limit l : 0 < limit → collect f limit l = take (Z.to_nat limit) (List.filter f l).
Proof.
  revert limit. induction l as [|m l IH]; intros limit Hl; cbn [collect List.filter]; [by rewrite take_nil|].
  destruct (f m); cbn [negb]; [|by apply IH]. destruct (Z.eqb_spec limit 1) as [->|Hne]; [done|].
  replace (Z.to_nat limit) with (S (Z.to_nat (limit - 1))) by lia. cbn [take]. by rewrite IH by lia.
Qed.

Lemma collect_after_take (f : Message → bool) limit skip l : 0 < limit →
  collect_after f limit skip l = take (Z.to_nat limit) (drop (Z.to_nat skip) (List.filter f l)).
Proof.
  revert limit skip. induction l as [|m l IH]; intros limit skip Hl; cbn [collect_after List.filter]; [by rewrite drop_nil, take_nil|].
  destruct (f m); cbn [negb]; [|by apply IH]. destruct (Z.ltb_spec 0 skip) as [Hs|Hs].
  - replace (Z.to_nat skip) with (S (Z.to_nat (skip - 1))) by lia. cbn [drop]. by apply IH.
  - replace (Z.to_nat skip) with 0%nat by lia. rewrite drop_0. destruct (Z.eqb_spec limit 1) as [->|Hne]; [done|].
    replace (Z.to_nat limit) with (S (Z.to_nat (limit - 1))) by lia. cbn [take]. rewrite IH by lia.
    by replace (Z.to_nat skip) with 0%nat by lia.
Qed.

Lemma lfilter_reverse (f : Message → bool) l : List.filter f (reverse l) = reverse (List.filter f l).
Proof.
  induction l as [|m l IH]; [done|]. rewrite reverse_cons, List.filter_app, IH. cbn [List.filter].
  destruct (f m); [by rewrite reverse_cons|by rewrite app_nil_r].
Qed.

Lemma newest_first_sublist l k : l `sublist_of` k → newest_first k → newest_first l.
Proof.
  unfold newest_first. induction 1 as [|x l k Hs IH|x l k Hs IH]; intros Hk; [done| |].
  - apply StronglySorted_inv in Hk as [Hk Hx]. constructor; [by apply IH|].
    rewrite Forall_forall in Hx |- *. intros y Hy. apply Hx. eapply elem_of_submseteq; [done|]. by apply sublist_submseteq.
  - apply StronglySorted_inv in Hk as [Hk _]. by apply IH.
Qed.

Lemma newest_first_ids l : newest_first l → NoDup (m_ID <$> l).
Proof.
  induction 1 as [|m l Hs IH Hm]; constructor; [|done]. intros (c & Hc & Hin)%list_elem_of_fmap.
  rewrite Forall_forall in Hm. specialize (Hm c Hin). lia.
Qed.

#[local] Instance later_first_trans : Transitive (later_first (P := P)).
Proof. intros m c d. unfold later_first. lia. Qed.

#[local] Instance later_first_total : Total (later_first (P := P)).
Proof. intros m c. unfold later_first. lia. Qed.

(** Sorting finds the one order of messages with different ids. *)
Lemma merge_sort_newest l k : newest_first k → l ≡ₚ k → merge_sort later_first l = k.
Proof.
  intros Hk Hp. apply (StronglySorted_unique_strong later_first).
  - intros m c Hm Hc H1 H2. rewrite merge_sort_Permutation, Hp in Hm. unfold later_first in *.
    apply (fmap_inj_in m_ID k); [by apply newest_first_ids|done|done|lia].
  - apply StronglySorted_merge_sort; [exact later_first_trans|exact later_first_total].
  - clear Hp. induction Hk as [|m c Hs IH Hm]; constructor; [done|]. eapply Forall_impl; [exact Hm|]. intros d. unfold later_first. lia.
  - by rewrite merge_sort_Permutation.
Qed.

Lemma drop_take_sublist {A} (i j : nat) (l : list A) : drop i (take j l) `sublist_of` l.
Proof. etrans; [apply sublist_drop|apply sublist_take]. Qed.

Lemma take_length_take {A} (n : nat) (l : list A) : take (length (take n l)) l = take n l.
Proof.
  rewrite length_take. destruct (Nat.le_gt_cases n (length l)); [by rewrite Nat.min_l by lia|].
  by rewrite Nat.min_r, !take_ge by lia.
Qed.

Lemma reverse_window {A} (i j : nat) (l : list A) :
  reverse (take i (drop j (reverse l))) = drop (length l - j - i) (take (length l - j) l).
Proof.
  rewrite drop_reverse, take_reverse, reverse_involutive, length_take. by replace (Nat.min (length l - j) (length l)) with (length l - j)%nat by lia.
Qed.

Section halves.
Context (filter : MessageFilter) (after before : list Message).
Hypothesis (Hafter : Forall (λ m, messageAfterHistoryOffset filter m = true) after).
Hypothesis (Hbefore : Forall (λ m, messageAfterHistoryOffset filter m = false) before).
Hypothesis (Hsorted : newest_first (after ++ before)).

Lemma forward_window limit skip : 0 < limit → 0 ≤ skip →
  forwardMessageHistory (after ++ before) filter limit skip
  = drop (length after - Z.to_nat skip - Z.to_nat limit) (take (length after - Z.to_nat skip) after).
Proof using Hafter Hbefore Hsorted.
  intros Hl Hs. unfold forwardMessageHistory. rewrite (proj2 (Z.leb_gt _ _)) by lia.
  rewrite collect_after_take by done. rewrite lfilter_reverse, List.filter_app, (lfilter_all _ after Hafter), (lfilter_none _ before Hbefore), app_nil_r.
  rewrite <- reverse_window. apply merge_sort_newest; [|by symmetry; apply reverse_Permutation].
  rewrite reverse_window. eapply newest_first_sublist; [|exact Hsorted]. etrans; [apply drop_take_sublist|]. by apply sublist_inserts_r.
Qed.

Lemma backward_window limit : backwardMessageHistory (after ++ before) filter limit = take (Z.to_nat limit) before.
Proof using Hafter Hbefore.
  unfold backwardMessageHistory. destruct (Z.leb_spec limit 0) as [Hl|Hl]; [by replace (Z.to_nat limit) with 0%nat by lia|].
  rewrite page_collect_take by done. rewrite List.filter_app, (lfilter_none _ after), (lfilter_all _ before); [done|..].
  - eapply Forall_impl; [exact Hbefore|]. intros m Hm. by rewrite before_not_after, Hm.
  - eapply Forall_impl; [exact Hafter|]. intros m Hm. by rewrite before_not_after, Hm.
Qed.

Lemma page_halves limit : 0 < limit →
  pageMessageHistory (after ++ before) filter limit = window (Z.of_nat (length after) + AddOffset filter) limit (after ++ before).
Proof using Hafter Hbefore Hsorted.
  intros Hl. unfold pageMessageHistory, window. rewrite (proj2 (Z.leb_gt limit 0)) by lia. cbn [orb].
  destruct (Z.eqb_spec (Z.of_nat (length (after ++ before))) 0) as [E|_].
  { destruct (after ++ before); [by rewrite take_nil, drop_nil|simpl in E; lia]. }
  set (ao := AddOffset filter). unfold messageHistoryLoadType. destruct (Z.leb_spec 0 ao) as [Hao|Hao].
  - rewrite (proj2 (Z.ltb_ge ao 0)) by lia. rewrite backward_window.
    replace (Z.to_nat (Z.of_nat (length after) + ao)) with (length after + Z.to_nat ao)%nat by lia.
    replace (Z.to_nat (Z.of_nat (length after) + ao + limit)) with (length after + Z.to_nat (limit + ao))%nat by lia.
    rewrite take_app_add, drop_app_add.
    destruct (Z.leb_spec (Z.of_nat (length (take (Z.to_nat (limit + ao)) before))) ao); [|done]. by rewrite drop_ge by lia.
  - destruct (Z.ltb_spec 0 (ao + limit)) as [Har|Har].
    + rewrite (proj2 (Z.ltb_ge limit (- ao))) by lia. rewrite (proj2 (Z.ltb_ge (limit + ao) 0)) by lia.
      rewrite forward_window, backward_window by lia. rewrite Nat.sub_0_r, firstn_all.
      replace (Z.to_nat (Z.of_nat (length after) + ao + limit)) with (length after + Z.to_nat (limit + ao))%nat by lia.
      rewrite take_app_add. replace (Z.to_nat (Z.of_nat (length after) + ao)) with (length after - Z.to_nat (- ao))%nat by lia.
      rewrite drop_app_le by lia. apply merge_sort_newest; [|done].
      eapply newest_first_sublist; [|exact Hsorted]. apply sublist_app; [apply sublist_drop|apply sublist_take].
    + rewrite forward_window by lia.
      replace (Z.to_nat (Z.of_nat (length after) + ao + limit)) with (length after - Z.to_nat (- ao - limit))%nat by lia.
      rewrite take_app_le by lia. f_equal. lia.
Qed.
End halves.

(** What is at or after the offset comes first, if the order respects it. *)
Lemma after_first filter (R : Message → Message → Prop) base :
  StronglySorted R base →
  (∀ m c, R m c → messageAfterHistoryOffset filter c = true → messageAfterHistoryOffset filter m = true) →
  base = List.filter (messageAfterHistoryOffset filter) base ++ List.filter (λ m, negb (messageAfterHistoryOffset filter m)) base.
Proof.
  intros Hs HR. induction Hs as [|m l Hs IH Hm]; [done|]. cbn [List.filter].
  destruct (messageAfterHistoryOffset filter m) eqn:Em; cbn [negb]; [by rewrite <- app_comm_cons, <- IH|].
  assert (List.filter (messageAfterHistoryOffset filter) l = []) as E.
  { apply lfilter_none, Forall_forall. intros c Hc. rewrite Forall_forall in Hm.
    destruct (messageAfterHistoryOffset filter c) eqn:Ec; [|done]. rewrite (HR m c (Hm c Hc) Ec) in Em. done. }
  rewrite E in IH |- *. simpl in *. by rewrite <- IH.
Qed.

(** Dates are ordered as ids, which only an offset by date relies on. *)
Definition ordered_dates filter base : Prop :=
  0 < OffsetDate filter → StronglySorted (λ m c, m_Date c ≤ m_Date m) base.

Lemma page_is_window filter base limit : 0 < limit → newest_first base → ordered_dates filter base →
  pageMessageHistory base filter limit = window (position filter base + AddOffset filter) limit base.
Proof.
  intros Hl Hs Hd.
  assert (base = List.filter (messageAfterHistoryOffset filter) base ++ List.filter (λ m, negb (messageAfterHistoryOffset filter m)) base) as E.
  { destruct (Z.ltb_spec 0 (OffsetDate filter)) as [Hpos|Hpos].
    - apply (after_first filter _ base (Hd Hpos)). intros m c Hmc. unfold messageAfterHistoryOffset.
      rewrite (proj2 (Z.ltb_lt _ _) Hpos). rewrite !Z.leb_le. lia.
    - apply (after_first filter _ base Hs). intros m c Hmc. unfold messageAfterHistoryOffset.
      rewrite (proj2 (Z.ltb_ge _ _)) by lia. destruct (OffsetID filter <=? 0); [done|]. rewrite !Z.leb_le. lia. }
  set (A := List.filter (messageAfterHistoryOffset filter) base) in *.
  set (B := List.filter (λ m, negb (messageAfterHistoryOffset filter m)) base) in *.
  assert (Forall (λ m, messageAfterHistoryOffset filter m = true) A) as HA.
  { apply Forall_forall. by intros m [Hm _]%elem_of_lfilter. }
  assert (Forall (λ m, messageAfterHistoryOffset filter m = false) B) as HB.
  { apply Forall_forall. intros m [Hm _]%elem_of_lfilter. by apply negb_true_iff. }
  pose proof (page_halves filter A B HA HB) as Hp. rewrite <- E in Hp. unfold position. fold A. by apply Hp.
Qed.

(** ** The whole history *)

(** What the filter leaves of a box, newest first. *)
Definition filtered (now : Z) s u filter : list Message :=
  List.filter (passes filter) (reverse (shown now <$> boxOf s u)).

Lemma shown_id now m : m_ID (shown now m) = m_ID m.
Proof. unfold shown, enriched. by destruct (_ || _). Qed.

Lemma box_newest_first now s u : store_ok s → newest_first (reverse (shown now <$> boxOf s u)).
Proof.
  intros Hok. pose proof (bo_sorted _ _ _ Hok u) as Hs. unfold newest_first. revert Hs. induction (boxOf s u) as [|m l IH]; intros Hs; [constructor|].
  rewrite fmap_cons in Hs. rewrite fmap_cons. apply StronglySorted_inv in Hs as [Hs Hm]. rewrite reverse_cons.
  apply StronglySorted_app_2; [|by apply IH|by repeat constructor].
  intros c d Hc ->%list_elem_of_singleton. rewrite elem_of_reverse in Hc. apply list_elem_of_fmap in Hc as (c' & -> & Hc).
  rewrite !shown_id. rewrite Forall_fmap, Forall_forall in Hm. by apply (Hm c').
Qed.

Lemma filtered_newest_first now s u filter : store_ok s → newest_first (filtered now s u filter).
Proof. intros Hok. eapply newest_first_sublist; [apply filter_sublist|]. by apply box_newest_first. Qed.

Lemma page_limit_pos filter : 0 < page_limit filter.
Proof.
  unfold page_limit. destruct (Z.leb_spec (Limit filter) 0); [done|]. destruct (Z.ltb_spec 500 (Limit filter)); lia.
Qed.

Lemma ListByUser_window now s u filter :
  store_ok s → CountOnly filter = false → ordered_dates filter (filtered now s u filter) →
  ListByUser now s u filter = {|
    Messages := window (position filter (filtered now s u filter) + ClampMessageHistoryAddOffset (AddOffset filter))
                  (page_limit filter) (filtered now s u filter);
    Count := Z.of_nat (length (filtered now s u filter)) |}.
Proof.
  intros Hok Hc Hd. unfold ListByUser, filterMessageList. cbv zeta. cbn [CountOnly with_AddOffset]. rewrite Hc.
  rewrite (merge_sort_newest _ (reverse (shown now <$> boxOf s u))); [|by apply box_newest_first|by symmetry; apply reverse_Permutation].
  set (f' := with_AddOffset _ filter).
  change (List.filter (passes f') (reverse (shown now <$> boxOf s u))) with (filtered now s u filter).
  rewrite page_is_window; [done|apply page_limit_pos|by apply filtered_newest_first|exact Hd].
Qed.

Definition with_OffsetID (id : Z) filter : MessageFilter := {|
  HasPeer := HasPeer filter; f_Peer := f_Peer filter; Query := Query filter; OffsetID := id;
  OffsetDate := OffsetDate filter; MinDate := MinDate filter; MaxDate := MaxDate filter; AddOffset := AddOffset filter;
  Limit := Limit filter; f_MaxID := f_MaxID filter; MinID := MinID filter; f_SenderUserID := f_SenderUserID filter;
  CountOnly := CountOnly filter; PinnedOnly := PinnedOnly filter; MusicOnly := MusicOnly filter;
  f_SavedPeer := f_SavedPeer filter; SavedReactions := SavedReactions filter; PeerIDs := PeerIDs filter;
  RestrictPeerIDs := RestrictPeerIDs filter |}.

(** A client that asks for the page after the last message it has. *)
Fixpoint pages (fuel : nat) (now : Z) s u filter : list (list Message) :=
  match fuel with
  | O => []
  | S fuel =>
      let page := Messages (ListByUser now s u filter) in
      match last page with
      | None => []
      | Some m => page :: pages fuel now s u (with_OffsetID (m_ID m) filter)
      end
  end.

Lemma offset_position now s u filter (k : nat) m :
  store_ok s → OffsetDate filter ≤ 0 → filtered now s u filter !! k = Some m →
  position (with_OffsetID (m_ID m) filter) (filtered now s u filter) = Z.of_nat (S k).
Proof.
  intros Hok Hd Hk. pose proof (filtered_newest_first now s u filter Hok) as Hs. unfold position. f_equal.
  assert (1 ≤ m_ID m) as Hid.
  { apply list_elem_of_lookup_2, elem_of_lfilter in Hk as [_ Hk]. rewrite elem_of_reverse in Hk.
    apply list_elem_of_fmap in Hk as (c & -> & Hc). rewrite shown_id. by destruct (message_in_ok s u c Hok Hc) as [[? _] _ _ _ _ _ _]. }
  set (f' := with_OffsetID (m_ID m) filter).
  assert (∀ c, messageAfterHistoryOffset f' c = (m_ID m <=? m_ID c)) as Ha.
  { intros c. unfold messageAfterHistoryOffset. simpl. rewrite (proj2 (Z.ltb_ge _ _)) by lia. by rewrite (proj2 (Z.leb_gt _ _)) by lia. }
  rewrite (lfilter_ext _ (λ c, m_ID m <=? m_ID c)) by done. clear Ha f' Hid.
  revert k Hk. induction Hs as [|c l Hs IH Hc]; intros k Hk; [done|]. cbn [List.filter].
  rewrite Forall_forall in Hc. destruct k as [|k]; simpl in Hk.
  - injection Hk as ->. rewrite Z.leb_refl. simpl. f_equal. rewrite lfilter_none; [done|]. apply Forall_forall.
    intros d Hd'. apply Z.leb_gt. by apply Hc.
  - specialize (Hc m (list_elem_of_lookup_2 _ _ _ Hk)). rewrite (proj2 (Z.leb_le _ _)) by lia. simpl. f_equal. by apply IH.
Qed.

Lemma pages_from fuel now s u : ∀ filter (k : nat),
  store_ok s → OffsetDate filter ≤ 0 → AddOffset filter = 0 → CountOnly filter = false →
  position filter (filtered now s u filter) = Z.of_nat k → (length (filtered now s u filter) < fuel + k)%nat →
  concat (pages fuel now s u filter) = drop k (filtered now s u filter).
Proof.
  induction fuel as [|fuel IH]; intros filter k Hok Hd Ha Hc Hp Hf; cbn [pages]; [simpl; by rewrite drop_ge by lia|].
  set (base := filtered now s u filter) in *.
  assert (Messages (ListByUser now s u filter) = take (Z.to_nat (page_limit filter)) (drop k base)) as Hpage.
  { rewrite ListByUser_window; [|done|done|intros ?; lia]. fold base. rewrite Hp, Ha. cbn [Messages]. unfold window. simpl.
    rewrite Z.add_0_r, Nat2Z.id. pose proof (page_limit_pos filter).
    replace (Z.to_nat (Z.of_nat k + page_limit filter)) with (k + Z.to_nat (page_limit filter))%nat by lia.
    by rewrite take_drop_commute. }
  rewrite Hpage. set (page := take _ _). destruct (last page) as [m|] eqn:El.
  - cbn [concat]. assert (1 ≤ length page)%nat by (destruct page; [done|simpl; lia]).
    assert (length page ≤ length base - k)%nat by (unfold page; rewrite length_take, length_drop; lia).
    assert (base !! (k + pred (length page))%nat = Some m) as Hm.
    { rewrite last_lookup in El. unfold page in El at 2. rewrite lookup_take, decide_True, lookup_drop in El; [done|].
      unfold page. rewrite length_take. pose proof (page_limit_pos filter). lia. }
    assert (position (with_OffsetID (m_ID m) filter) base = Z.of_nat (k + length page)) as Hp'.
    { etrans; [apply (offset_position now s u filter _ m Hok Hd Hm)|]. lia. }
    rewrite (IH (with_OffsetID (m_ID m) filter) (k + length page)%nat); try done.
    + change (filtered now s u (with_OffsetID (m_ID m) filter)) with base. rewrite <- drop_drop.
      pose proof (take_length_take (Z.to_nat (page_limit filter)) (drop k base)) as Ep. fold page in Ep. rewrite <- Ep at 1. by rewrite take_drop.
    + change (filtered now s u (with_OffsetID (m_ID m) filter)) with base. lia.
  - apply last_None in El. simpl. unfold page in El. pose proof (page_limit_pos filter).
    destruct (drop k base) as [|x l]; [done|]. by replace (Z.to_nat (page_limit filter)) with (S (Z.to_nat (page_limit filter - 1))) in El by lia.
Qed.
End page.
