(* ===== verification/MessagesBox.v ===== *)
(** What each operation does to the boxes, and that the events it returns say
    the same: a client that applies the events addressed to its user to its copy
    of the box has the new box.  Positions of one user's events follow one
    another. *)

From S2P Require Import Prelude GoStrings Updates Messages MessagesInv.

Open Scope Z_scope.

#[local] Set Default Proof Using "Type".

Section box.
Context {P Bytes : Type} `{!Codecs P Bytes} `{!EqDecision P}.

Abbreviation Message := (Message P).
Abbreviation event := (event P).
Abbreviation store := (@MessageStore P Bytes).
Implicit Types (m c : Message) (u v id uid pts : Z) (p : Peer) (s : store) (l : list Message) (e : event).

(** * A client's copy of a box *)

Definition event_ids e : list Z := match Snapshot e with Some (CMessageIDs ids) => ids | _ => [] end.

Definition event_message e : option Message :=
  match ev_Message e with Some em => match msg_Body em with CMessage m => Some m | _ => None end | None => None end.

(** The marker of unread reactions is not told by these events. *)
Definition seen m : Message := contents_read (m_MediaUnread m) false m.

Definition client_apply l e : list Message :=
  match Type_ e with
  | UpdateEventNewMessage => l ++ (seen <$> option_list (event_message e))
  | UpdateEventEditMessage | UpdateEventWebPage =>
      match event_message e with
      | Some m => (λ c, if m_ID c =? m_ID m then seen m else c) <$> l
      | None => l
      end
  | UpdateEventDeleteMessages => List.filter (λ c, negb (bool_decide (m_ID c ∈ event_ids e))) l
  | UpdateEventReadMessageContents =>
      (λ c, if bool_decide (m_ID c ∈ event_ids e) then contents_read false false c else c) <$> l
  | UpdateEventPinnedMessages =>
      (λ c, if bool_decide (m_ID c ∈ event_ids e) then with_Pinned (Bool e) c else c) <$> l
  | _ => l
  end.

Definition ev_for u (es : list event) : list event := List.filter (λ e, UserID e =? u) es.

Definition replay u (es : list event) l : list Message := fold_left client_apply (ev_for u es) l.

(** The events take the places after [lo], one after the other, up to [hi]. *)
Fixpoint positions (lo : Z) (es : list event) (hi : Z) : Prop :=
  match es with
  | [] => lo ≤ hi
  | e :: es => lo ≤ Pts e - PtsCount e ∧ 0 < PtsCount e ∧ positions (Pts e) es hi
  end.

Definition delivered s s' (es : list event) : Prop :=
  ∀ u, seen <$> boxOf s' u = replay u es (seen <$> boxOf s u)
       ∧ positions (nextPtsOf s u) (ev_for u es) (nextPtsOf s' u).

Lemma ev_for_app u es es' : ev_for u (es ++ es') = ev_for u es ++ ev_for u es'.
Proof. apply List.filter_app. Qed.

Lemma replay_app u es es' l : replay u (es ++ es') l = replay u es' (replay u es l).
Proof. unfold replay. by rewrite ev_for_app, fold_left_app. Qed.

Lemma positions_weaken lo lo' es hi hi' : lo' ≤ lo → hi ≤ hi' → positions lo es hi → positions lo' es hi'.
Proof.
  revert lo lo'. induction es as [|e es IH]; intros lo lo' Hlo Hhi H; simpl in *; [lia|].
  destruct H as (? & ? & ?). split_and!; [lia|done|]. by eapply IH; [| |done].
Qed.

Lemma positions_app lo es mid es' hi : positions lo es mid → positions mid es' hi → positions lo (es ++ es') hi.
Proof.
  revert lo. induction es as [|e es IH]; intros lo H H'; simpl in *; [by eapply positions_weaken|].
  destruct H as (? & ? & ?). split_and!; auto.
Qed.

Lemma positions_le lo es hi : positions lo es hi → lo ≤ hi.
Proof.
  revert lo. induction es as [|e es IH]; intros lo H; simpl in *; [done|].
  destruct H as (? & ? & H%IH). lia.
Qed.

Lemma delivered_refl s : delivered s s [].
Proof. intros u. split; [done|]. simpl. lia. Qed.

Lemma delivered_app s s' s'' es es' : delivered s s' es → delivered s' s'' es' → delivered s s'' (es ++ es').
Proof.
  intros H H' u. destruct (H u) as [Hb Hp], (H' u) as [Hb' Hp']. rewrite replay_app, <- Hb, ev_for_app.
  split; [done|]. by eapply positions_app.
Qed.

(** ** Frames: what companion stores do not touch *)

(** Boxes and allocators. *)
Definition core s : gmap Z (list Message) * Z * gmap Z Z * gmap Z Z := (boxes s, nextUID s, nextBox s, nextPts s).

Lemma core_boxOf s s' u : core s = core s' → boxOf s u = boxOf s' u.
Proof. intros [= E _ _ _]. unfold boxOf. by rewrite E. Qed.

Lemma core_nextPts s s' u : core s = core s' → nextPtsOf s u = nextPtsOf s' u.
Proof. intros [= _ _ _ E]. unfold nextPtsOf. by rewrite E. Qed.

Lemma core_nextBox s s' u : core s = core s' → nextBoxOf s u = nextBoxOf s' u.
Proof. intros [= _ _ E _]. unfold nextBoxOf. by rewrite E. Qed.

Lemma core_ok s s' : core s = core s' → store_ok s → store_ok s'.
Proof.
  intros E. apply boxes_ok_ext; [by injection E|intros u; by apply core_nextBox|intros u; by apply core_boxOf].
Qed.

Lemma append_core u e a b s : core (appendMemorySendEventLocked u e a b s) = core s.
Proof. done. Qed.

Lemma append_opt_core u o a b s : core (append_opt u o a b s) = core s.
Proof. by destruct o. Qed.

Lemma append_prefix_core req es s : core (append_prefix req es s) = core s.
Proof.
  revert s. induction es as [|e es IH]; intros s; simpl; [done|]. destruct (_ =? _); by rewrite IH.
Qed.

Lemma set_dialogs_core d s : core (set_dialogs d s) = core s.
Proof. done. Qed.

Lemma upsertMemoryDialogsLocked_core m c s : core (upsertMemoryDialogsLocked m c s) = core s.
Proof. unfold upsertMemoryDialogsLocked. by destruct (negb _). Qed.

Lemma boxOf_set_box u v l s : boxOf (set_box u l s) v = if v =? u then l else boxOf s v.
Proof.
  unfold boxOf, set_box. simpl. destruct (Z.eqb_spec v u) as [->|]; [by rewrite lookup_insert_eq|].
  by rewrite lookup_insert_ne.
Qed.

Lemma nextPtsOf_set u v n s :
  nextPtsOf (set_nextPts (<[u := n]> (nextPts s)) s) v = if v =? u then n else nextPtsOf s v.
Proof.
  unfold nextPtsOf. simpl. destruct (Z.eqb_spec v u) as [->|]; [by rewrite lookup_insert_eq|].
  by rewrite lookup_insert_ne.
Qed.

Lemma current_pts_ge s u : nextPtsOf s u ≤ current_pts s u.
Proof.
  unfold current_pts. generalize (nextPtsOf s u). induction (eventsOf (updateEvents s) u) as [|e es IH]; intros n; simpl; [lia|].
  specialize (IH (if n <? Pts e then Pts e else n)). destruct (Z.ltb_spec n (Pts e)); lia.
Qed.

(** ** Sending *)

(** The staged positions and the events that took them. *)
Definition staged s (alloc : gmap Z Z) (es : list event) : Prop :=
  ∀ u, match alloc !! u with
       | None => ev_for u es = []
       | Some n => positions (current_pts s u) (ev_for u es) n
       end.

Lemma staged_nil s : staged s ∅ [].
Proof. intros u. by rewrite lookup_empty. Qed.

Lemma staged_step s u alloc pts alloc' es e :
  staged s alloc es → nextPTS s u alloc = (pts, alloc') → UserID e = u → Pts e = pts → PtsCount e = 1 →
  staged s alloc' (es ++ [e]).
Proof.
  intros H E Hu Hp Hc v. unfold nextPTS in E. simpl in E. injection E as Epts <-. specialize (H v). rewrite ev_for_app.
  assert (ev_for v [e] = if u =? v then [e] else []) as -> by (simpl; rewrite Hu; done).
  destruct (Z.eqb_spec u v) as [<-|Hne].
  - rewrite lookup_insert_eq. destruct (alloc !! u) as [n|].
    + eapply positions_app; [done|]. simpl. lia.
    + rewrite H. simpl. lia.
  - rewrite lookup_insert_ne by done. by rewrite app_nil_r.
Qed.

Definition restaged e e' : Prop := e' = placed (UserID e) (Pts e') (PtsCount e) (Date e) e.

Lemma stage_prefix_spec s es alloc acc es' alloc' :
  staged s alloc acc → Forall (λ e, PtsCount e = 1) es → stage_prefix s es alloc = (es', alloc') →
  staged s alloc' (acc ++ es') ∧ Forall2 restaged es es'.
Proof.
  revert alloc acc es'. induction es as [|e es IH]; intros alloc acc es' Hs Hc E; cbn [stage_prefix] in E.
  { injection E as <- <-. by rewrite app_nil_r. }
  apply Forall_cons in Hc as [Hc1 Hc]. destruct (nextPTS s (UserID e) alloc) as [pts a1] eqn:En.
  destruct (stage_prefix s es a1) as [rest a2] eqn:Er. injection E as <- <-.
  destruct (IH a1 (acc ++ [placed (UserID e) pts (PtsCount e) (Date e) e]) rest) as [H1 H2]; [|done|done|].
  { by eapply staged_step. }
  rewrite <- app_assoc in H1. split; [exact H1|]. by constructor.
Qed.

Lemma client_apply_restaged l e e' : restaged e e' → client_apply l e' = client_apply l e.
Proof. by intros ->. Qed.

Lemma replay_restaged u es es' l : Forall2 restaged es es' → replay u es' l = replay u es l.
Proof.
  intros H. revert l. induction H as [|e e' es es' He Hes IH]; intros l; [done|]. unfold replay in *. simpl.
  assert (UserID e' = UserID e) as -> by by rewrite He.
  destruct (UserID e =? u); simpl; [|apply IH]. by rewrite (client_apply_restaged l e e' He), IH.
Qed.

(** The copies that a send adds. *)
Definition sent_copies (req : SendPrivateTextRequest P) (sender recipient : Message) u : option Message :=
  if u =? sr_SenderUserID req then Some sender
  else if (u =? sr_RecipientUserID req) && negb (sr_RecipientBlocked req) then Some recipient else None.

Lemma commit_send_core req alloc sender recipient receipt s :
  core (commit_send req alloc sender recipient receipt s) =
  core (let s' := set_counters (nextUID s + 1)
          (let nb := <[sr_SenderUserID req := m_ID sender]> (nextBox s) in
           if negb (m_ID recipient =? 0) then <[m_OwnerUserID recipient := m_ID recipient]> nb else nb)
          (alloc ∪ nextPts s) s in
        let s' := set_box (sr_SenderUserID req) (boxOf s (sr_SenderUserID req) ++ [sender]) s' in
        if negb (sr_SenderUserID req =? sr_RecipientUserID req) && negb (sr_RecipientBlocked req)
        then set_box (sr_RecipientUserID req) (boxOf s' (sr_RecipientUserID req) ++ [recipient]) s' else s').
Proof.
  unfold commit_send. cbv zeta. destruct (excluded req (sr_SenderUserID req)), (excluded req (sr_RecipientUserID req)).
  destruct (negb (m_ID recipient =? 0) && negb (m_OwnerUserID recipient =? m_OwnerUserID sender));
    rewrite ?append_opt_core, upsertMemoryDialogsLocked_core; by destruct receipt.
Qed.

(** The three kinds of send: to oneself, to a user who blocks the sender, to
    another user. *)
Inductive send_kind (req : SendPrivateTextRequest P) (sender recipient : Message) : Prop :=
  | ToSelf : sr_SenderUserID req = sr_RecipientUserID req → recipient = sender → send_kind req sender recipient
  | ToBlocker : sr_SenderUserID req ≠ sr_RecipientUserID req → sr_RecipientBlocked req = true →
      recipient = no_message → send_kind req sender recipient
  | ToUser : sr_SenderUserID req ≠ sr_RecipientUserID req → sr_RecipientBlocked req = false →
      m_ID recipient ≠ 0 → m_OwnerUserID recipient = sr_RecipientUserID req → send_kind req sender recipient.

Section commit.
Context (req : SendPrivateTextRequest P) (alloc : gmap Z Z) (sender recipient : Message)
  (receipt : option (privateSendDedupRecord (P := P) (Bytes := Bytes))) (s : store).
Hypothesis (Hkind : send_kind req sender recipient).
Hypothesis (Hid : m_ID sender ≠ 0) (Howner : m_OwnerUserID sender = sr_SenderUserID req).

Let s' := commit_send req alloc sender recipient receipt s.

Lemma commit_boxOf u : boxOf s' u = boxOf s u ++ option_list (sent_copies req sender recipient u).
Proof using Hkind Hid Howner.
  unfold s'. rewrite (core_boxOf _ _ u (commit_send_core _ _ _ _ _ _)). unfold sent_copies. cbv zeta.
  destruct (Z.eqb_spec (sr_SenderUserID req) (sr_RecipientUserID req)) as [E|E]; simpl.
  - rewrite boxOf_set_box. destruct (Z.eqb_spec u (sr_SenderUserID req)) as [->|Hu]; [done|].
    rewrite <- E. rewrite (proj2 (Z.eqb_neq _ _) Hu). by rewrite app_nil_r.
  - destruct (sr_RecipientBlocked req); simpl; rewrite !boxOf_set_box.
    + rewrite andb_false_r. destruct (Z.eqb_spec u (sr_SenderUserID req)) as [->|]; [done|by rewrite app_nil_r].
    + rewrite andb_true_r. rewrite (proj2 (Z.eqb_neq (sr_RecipientUserID req) (sr_SenderUserID req))) by congruence.
      destruct (Z.eqb_spec u (sr_RecipientUserID req)) as [->|].
      * by rewrite (proj2 (Z.eqb_neq (sr_RecipientUserID req) (sr_SenderUserID req))) by congruence.
      * destruct (Z.eqb_spec u (sr_SenderUserID req)) as [->|]; [done|by rewrite app_nil_r].
Qed.

Lemma commit_counters :
  nextUID s' = nextUID s + 1 ∧ (∀ u, nextPtsOf s' u = default (nextPtsOf s u) (alloc !! u)) ∧
  (∀ u, nextBoxOf s' u = match sent_copies req sender recipient u with Some m => m_ID m | None => nextBoxOf s u end).
Proof using Hkind Hid Howner.
  unfold s'. pose proof (commit_send_core req alloc sender recipient receipt s) as Ec. split_and!.
  - pose proof (f_equal (λ x, x.1.1.2) Ec) as E. simpl in E. rewrite E. by destruct (_ && _).
  - intros u. rewrite (core_nextPts _ _ u Ec). cbv zeta.
    assert (default 0 ((alloc ∪ nextPts s) !! u) = default (nextPtsOf s u) (alloc !! u)) as <-; [|by destruct (_ && _)].
    unfold nextPtsOf. rewrite lookup_union. by destruct (alloc !! u), (nextPts s !! u).
  - intros u. rewrite (core_nextBox _ _ u Ec). cbv zeta. unfold sent_copies, nextBoxOf.
    destruct Hkind as [E ->|E -> ->|E -> Hr Ho].
    + rewrite (proj2 (Z.eqb_eq _ _) E). simpl. rewrite (proj2 (Z.eqb_neq _ _) Hid), Howner. simpl.
      rewrite insert_insert_eq. destruct (Z.eqb_spec u (sr_SenderUserID req)) as [->|Hu]; [by rewrite lookup_insert_eq|].
      rewrite <- E, (proj2 (Z.eqb_neq _ _) Hu). by rewrite lookup_insert_ne.
    + rewrite (proj2 (Z.eqb_neq _ _) E), andb_false_r. simpl.
      destruct (Z.eqb_spec u (sr_SenderUserID req)) as [->|Hu]; [by rewrite lookup_insert_eq|].
      by rewrite lookup_insert_ne, andb_false_r.
    + rewrite (proj2 (Z.eqb_neq _ _) E), andb_true_r, (proj2 (Z.eqb_neq _ _) Hr), Ho. simpl.
      destruct (Z.eqb_spec u (sr_SenderUserID req)) as [->|Hu].
      * by rewrite lookup_insert_ne, lookup_insert_eq.
      * destruct (Z.eqb_spec u (sr_RecipientUserID req)) as [->|Hu']; [by rewrite lookup_insert_eq|].
        by rewrite !lookup_insert_ne.
Qed.

Lemma commit_dedup :
  privateSendDedup s' = match receipt with
                        | Some r => <[(sr_SenderUserID req, sr_RandomID req) := r]> (privateSendDedup s)
                        | None => privateSendDedup s
                        end.
Proof using.
  unfold s', commit_send. cbv zeta. destruct (excluded req (sr_SenderUserID req)), (excluded req (sr_RecipientUserID req)).
  destruct (negb (m_ID recipient =? 0) && negb (m_OwnerUserID recipient =? m_OwnerUserID sender)), receipt,
    (newMessageEvent sender), (newMessageEvent recipient); unfold upsertMemoryDialogsLocked; simpl;
    by repeat (destruct (negb _); simpl).
Qed.
End commit.

(** What precedes the message of a send changes flags only, and says so. *)
Record harmless (prefix : list event) (apply : list event → store → store) s : Prop := {
  hl_count : Forall (λ e, PtsCount e = 1) prefix;
  hl_ok es : Forall2 restaged prefix es → store_ok (apply es s);
  hl_uid es : nextUID (apply es s) = nextUID s;
  hl_next es : nextBox (apply es s) = nextBox s;
  hl_pts es : nextPts (apply es s) = nextPts s;
  hl_dedup es : privateSendDedup (apply es s) = privateSendDedup s;
  hl_box es u : Forall2 restaged prefix es →
    seen <$> boxOf (apply es s) u = replay u prefix (seen <$> boxOf s u);
}.

Lemma harmless_nil s : store_ok s → harmless [] (λ _ s, s) s.
Proof. intros H. by split. Qed.

Definition send_events (r : SendPrivateTextResult P) : list event :=
  if Duplicate r then []
  else option_list (SenderEvent r)
       ++ (if m_OwnerUserID (RecipientMessage r) =? m_OwnerUserID (SenderMessage r) then []
           else option_list (RecipientEvent r)).

Lemma newMessageEvent_Some m : m_ID m ≠ 0 →
  newMessageEvent m = Some (mkEvent UpdateEventNewMessage (m_OwnerUserID m) (m_Pts m) 1 (m_Date m) (Some m) no_peer false 0 0 []).
Proof. intros H. unfold newMessageEvent, message_event. by rewrite (proj2 (Z.eqb_neq _ _) H). Qed.

Lemma client_apply_new m e l : newMessageEvent m = Some e → client_apply l e = l ++ [seen m].
Proof. unfold newMessageEvent, message_event. destruct (_ =? _); [done|]. intros [= <-]. done. Qed.

Definition fresh_result (sender recipient : Message) : SendPrivateTextResult P := {|
  SenderMessage := sender; RecipientMessage := recipient; SenderEvent := newMessageEvent sender;
  RecipientEvent := newMessageEvent recipient; Duplicate := false; ReplayDeleteEvent := None |}.

Lemma replay_send_events req sender recipient u l :
  send_kind req sender recipient → m_ID sender ≠ 0 → m_OwnerUserID sender = sr_SenderUserID req →
  replay u (send_events (fresh_result sender recipient)) l
  = l ++ (seen <$> option_list (sent_copies req sender recipient u)).
Proof.
  intros Hk Hid Ho. unfold send_events, sent_copies. simpl. rewrite (newMessageEvent_Some sender Hid). simpl.
  unfold replay. destruct Hk as [E ->|E Eb ->|E Eb Hr Hor].
  - rewrite Z.eqb_refl. simpl. rewrite Ho, Z.eqb_sym, <- E. destruct (u =? sr_SenderUserID req); simpl; [done|].
    by rewrite app_nil_r.
  - rewrite Eb, andb_false_r. replace (if m_OwnerUserID no_message =? m_OwnerUserID sender then [] else option_list (newMessageEvent no_message)) with ([] : list event) by by destruct (_ =? _).
    simpl. rewrite Ho, Z.eqb_sym. destruct (u =? sr_SenderUserID req); simpl; [done|by rewrite app_nil_r].
  - rewrite Eb, andb_true_r, Hor, Ho, (proj2 (Z.eqb_neq (sr_RecipientUserID req) (sr_SenderUserID req))) by congruence.
    rewrite (newMessageEvent_Some recipient Hr). simpl. rewrite Hor, (Z.eqb_sym (sr_SenderUserID req) u), (Z.eqb_sym (sr_RecipientUserID req) u).
    destruct (Z.eqb_spec u (sr_SenderUserID req)) as [->|Hu]; simpl.
    + by rewrite (proj2 (Z.eqb_neq _ _) E).
    + destruct (u =? sr_RecipientUserID req); simpl; [done|by rewrite app_nil_r].
Qed.

(** The copies of one send are new and mirror each other. *)
Section copies.
Context (req : SendPrivateTextRequest P) (s : store) (pts pts' date : Z) (rp rp' : option (MessageReply P)).

Let sender := sender_copy req (nextBoxOf s (sr_SenderUserID req) + 1) (nextUID s) pts date rp.
Let recipient := recipient_copy req (nextBoxOf s (sr_RecipientUserID req) + 1) pts' rp' sender.

Lemma sender_copy_ok : store_ok s →
  message_ok (nextUID s + 1) (nextBoxOf s (sr_SenderUserID req) + 1) (sr_SenderUserID req) sender.
Proof using.
  intros H. pose proof (bo_uid _ _ _ H). pose proof (bo_next _ _ _ H (sr_SenderUserID req)).
  split; simpl; try done; [lia|lia|by rewrite Z.eqb_refl|by left].
Qed.

Lemma recipient_copy_ok : store_ok s → sr_SenderUserID req ≠ sr_RecipientUserID req →
  message_ok (nextUID s + 1) (nextBoxOf s (sr_RecipientUserID req) + 1) (sr_RecipientUserID req) recipient.
Proof using.
  intros H E. pose proof (bo_uid _ _ _ H). pose proof (bo_next _ _ _ H (sr_RecipientUserID req)).
  split; simpl; try done; [lia|lia| |by right]. by rewrite (proj2 (Z.eqb_neq _ _) E).
Qed.

Lemma copies_mirror : mirrors (sr_SenderUserID req) (sr_RecipientUserID req) sender recipient
  ∧ mirrors (sr_RecipientUserID req) (sr_SenderUserID req) recipient sender.
Proof using. split; (split_and!; [done|done|]); intros _; by right; right. Qed.
End copies.

(** A send that is not a repetition. *)
Inductive fresh_send (req : SendPrivateTextRequest P) (fp : list Z) (prefix : list event)
    (apply : list event → store → store) s : SendPrivateTextResult P → list event → store → Prop :=
  | Fresh pts date rp rp' es alloc0 alloc1 alloc recipient receipt :
      let sender := sender_copy req (nextBoxOf s (sr_SenderUserID req) + 1) (nextUID s) pts date rp in
      stage_prefix s prefix ∅ = (es, alloc0) →
      nextPTS s (sr_SenderUserID req) alloc0 = (pts, alloc1) →
      (sr_SenderUserID req = sr_RecipientUserID req ∧ recipient = sender ∧ alloc = alloc1
       ∨ sr_SenderUserID req ≠ sr_RecipientUserID req ∧ sr_RecipientBlocked req = true ∧ recipient = no_message
         ∧ alloc = alloc1
       ∨ sr_SenderUserID req ≠ sr_RecipientUserID req ∧ sr_RecipientBlocked req = false ∧
         ∃ pts', nextPTS s (sr_RecipientUserID req) alloc1 = (pts', alloc) ∧
           recipient = recipient_copy req (nextBoxOf s (sr_RecipientUserID req) + 1) pts' rp' sender) →
      (sr_RandomID req = 0 ∧ receipt = None
       ∨ sr_RandomID req ≠ 0 ∧ ∃ raw, EncodePrivateSendSnapshot sender = OK raw ∧
         receipt = Some {| dd_recipientUserID := sr_RecipientUserID req; dd_senderSnapshot := raw;
                           dd_recipientMessage := immutablePrivateSendReceipt recipient;
                           dd_fingerprint := fp; dd_senderDeleteEvent := None |}) →
      fresh_send req fp prefix apply s (fresh_result sender recipient) es
        (commit_send req alloc sender recipient receipt (append_prefix req es (apply es s))).

Lemma send_locked_cases now req fp prefix apply s r es s' :
  sendPrivateTextLocked now req fp prefix apply s = OK (r, es, s') →
  (lookupPrivateSendReplayLocked s (sr_SenderUserID req) (sr_RecipientUserID req) (sr_RandomID req) fp = OK (Some r)
   ∧ es = [] ∧ s' = s) ∨
  (lookupPrivateSendReplayLocked s (sr_SenderUserID req) (sr_RecipientUserID req) (sr_RandomID req) fp = OK None
   ∧ fresh_send req fp prefix apply s r es s').
Proof.
  intros E. unfold sendPrivateTextLocked in E. apply bind_OK in E as (replay & El & E). rewrite El.
  destruct replay as [r0|]; [left; by injection E as -> -> ->|].
  right. split; [done|]. cbv zeta in E. apply bind_OK in E as ([rp rp'] & Er & E). cbn [fst snd] in E.
  destruct (stage_prefix s prefix ∅) as [es0 alloc0] eqn:Es.
  destruct (nextPTS s (sr_SenderUserID req) alloc0) as [pts alloc1] eqn:Ep.
  set (date := if sr_Date req =? 0 then now else sr_Date req) in E.
  set (sender := sender_copy req (nextBoxOf s (sr_SenderUserID req) + 1) (nextUID s) pts date rp) in E.
  match type of E with (let '(_, _) := ?x in _) = _ => destruct x as [recipient alloc] eqn:Erec end.
  apply bind_OK in E as (receipt & Erc & E).
  injection E as <- <- <-. apply (Fresh req fp prefix apply s pts date rp rp' es0 alloc0 alloc1 alloc recipient receipt).
  - done.
  - done.
  - destruct (Z.eqb_spec (sr_SenderUserID req) (sr_RecipientUserID req)) as [Eq|Ne].
    { left. by injection Erec as <- <-. }
    destruct (sr_RecipientBlocked req); [right; left; by injection Erec as <- <-|].
    right. right. destruct (nextPTS s (sr_RecipientUserID req) alloc1) as [pts' a2] eqn:Ep'.
    injection Erec as <- <-. by eauto.
  - destruct (Z.eqb_spec (sr_RandomID req) 0) as [E0|E0]; cbn [negb] in Erc; [left; by injection Erc as <-|].
    right. split; [done|]. apply bind_OK in Erc as (raw & Eraw & Erc). injection Erc as <-. by exists raw.
Qed.

Lemma sent_copies_inv req sender recipient u m :
  sent_copies req sender recipient u = Some m →
  u = sr_SenderUserID req ∧ m = sender ∨
  u ≠ sr_SenderUserID req ∧ u = sr_RecipientUserID req ∧ sr_RecipientBlocked req = false ∧ m = recipient.
Proof.
  unfold sent_copies. destruct (Z.eqb_spec u (sr_SenderUserID req)) as [->|Hu]; [intros [= <-]; by left|].
  destruct (Z.eqb_spec u (sr_RecipientUserID req)) as [->|Hu'], (sr_RecipientBlocked req); simpl; try done.
  intros [= <-]. by right.
Qed.

Lemma fresh_send_kind req fp prefix apply s r es s' :
  store_ok s → fresh_send req fp prefix apply s r es s' →
  ∃ alloc receipt, let sender := SenderMessage r in let recipient := RecipientMessage r in
    r = fresh_result sender recipient ∧ send_kind req sender recipient
    ∧ s' = commit_send req alloc sender recipient receipt (append_prefix req es (apply es s))
    ∧ m_ID sender = nextBoxOf s (sr_SenderUserID req) + 1 ∧ m_OwnerUserID sender = sr_SenderUserID req
    ∧ new_copy (nextUID s) (nextBoxOf s) (sent_copies req sender recipient)
    ∧ (∀ u v m c, u ≠ v → sent_copies req sender recipient u = Some m → sent_copies req sender recipient v = Some c →
         mirrors u v m c)
    ∧ (Forall (λ e, PtsCount e = 1) prefix → staged s alloc (es ++ send_events r) ∧ Forall2 restaged prefix es).
Proof.
  intros Hok [pts date rp rp' es0 alloc0 alloc1 alloc recipient receipt sender Es Ep Hrec Hrc].
  exists alloc, receipt. cbn [SenderMessage RecipientMessage fresh_result]. cbv zeta.
  pose proof (bo_next _ _ _ Hok (sr_SenderUserID req)) as Hn. pose proof (bo_next _ _ _ Hok (sr_RecipientUserID req)) as Hn'.
  assert (m_ID sender = nextBoxOf s (sr_SenderUserID req) + 1) as Hid by done.
  pose proof (sender_copy_ok req s pts date rp Hok) as Hsok. fold sender in Hsok.
  assert (newMessageEvent sender = Some (mkEvent UpdateEventNewMessage (sr_SenderUserID req) pts 1 date (Some sender) no_peer false 0 0 [])) as Hev.
  { apply newMessageEvent_Some. lia. }
  assert (Forall (λ e, PtsCount e = 1) prefix → staged s alloc1 (es0 ++ option_list (newMessageEvent sender))) as Hst1.
  { intros Hc. destruct (stage_prefix_spec s prefix ∅ [] es0 alloc0 (staged_nil s) Hc Es) as [Hst _].
    rewrite Hev. by eapply staged_step. }
  assert (Forall (λ e, PtsCount e = 1) prefix → Forall2 restaged prefix es0) as Hre.
  { intros Hc. by destruct (stage_prefix_spec s prefix ∅ [] es0 alloc0 (staged_nil s) Hc Es). }
  destruct Hrec as [(E & -> & ->)|[(E & Eb & -> & ->)|(E & Eb & pts' & Ep' & ->)]].
  - split; [done|]. split; [by apply ToSelf|]. split_and!; try done.
    + by intros u m [[-> ->]|(? & -> & _)]%sent_copies_inv.
    + by intros u v m c Huv [[-> ->]|(? & -> & _)]%sent_copies_inv [[-> ->]|(? & -> & _)]%sent_copies_inv.
    + intros Hc. split; [|by apply Hre]. unfold send_events. simpl. rewrite Z.eqb_refl, app_nil_r. by apply Hst1.
  - split; [done|]. split; [by apply ToBlocker|]. split_and!; try done.
    + intros u m [[-> ->]|(? & -> & ? & _)]%sent_copies_inv; [done|congruence].
    + intros u v m c Huv [[-> ->]|(? & -> & ? & _)]%sent_copies_inv [[-> ->]|(? & -> & ? & _)]%sent_copies_inv; congruence.
    + intros Hc. split; [|by apply Hre]. unfold send_events. cbn [fresh_result Duplicate SenderEvent RecipientEvent].
      replace (if m_OwnerUserID (RecipientMessage (fresh_result sender no_message)) =? _ then [] else _) with ([] : list event)
        by by destruct (_ =? _).
      rewrite app_nil_r. by apply Hst1.
  - set (recipient := recipient_copy req (nextBoxOf s (sr_RecipientUserID req) + 1) pts' rp' sender) in *.
    pose proof (recipient_copy_ok req s pts pts' date rp rp' Hok E) as Hrok.
    destruct (copies_mirror req s pts pts' date rp rp') as [Hm1 Hm2].
    split; [done|]. split; [apply ToUser; try done; simpl; lia|]. split_and!; try done.
    + by intros u m [[-> ->]|(? & -> & _ & ->)]%sent_copies_inv.
    + by intros u v m c Huv [[-> ->]|(? & -> & _ & ->)]%sent_copies_inv [[-> ->]|(? & -> & _ & ->)]%sent_copies_inv.
    + intros Hc. split; [|by apply Hre]. unfold send_events. cbn [fresh_result Duplicate SenderEvent RecipientEvent RecipientMessage SenderMessage].
      change (m_OwnerUserID recipient) with (sr_RecipientUserID req). change (m_OwnerUserID sender) with (sr_SenderUserID req).
      rewrite (proj2 (Z.eqb_neq (sr_RecipientUserID req) (sr_SenderUserID req))) by congruence.
      rewrite app_assoc, (newMessageEvent_Some recipient) by (simpl; lia). eapply staged_step; [by apply Hst1|done|done|done|done].
Qed.

Lemma fresh_send_spec req fp prefix apply s r es s' :
  store_ok s → harmless prefix apply s → fresh_send req fp prefix apply s r es s' →
  store_ok s' ∧ delivered s s' (es ++ send_events r).
Proof.
  intros Hok Hh Hf. destruct (fresh_send_kind _ _ _ _ _ _ _ _ Hok Hf)
    as (alloc & receipt & Er & Hk & -> & Hid & Ho & Hnew & Hmir & Hst).
  set (sender := SenderMessage r) in *. set (recipient := RecipientMessage r) in *.
  destruct (Hst (hl_count _ _ _ Hh)) as [Hst' Hre]. clear Hst.
  set (s0 := append_prefix req es (apply es s)).
  assert (core s0 = core (apply es s)) as Ec by apply append_prefix_core.
  assert (nextUID s0 = nextUID s) as Eu by (injection Ec as _ -> _ _; apply Hh).
  assert (∀ u, nextBoxOf s0 u = nextBoxOf s u) as En.
  { intros u. rewrite (core_nextBox _ _ u Ec). unfold nextBoxOf. by rewrite (hl_next _ _ _ Hh). }
  assert (∀ u, nextPtsOf s0 u = nextPtsOf s u) as Ep.
  { intros u. rewrite (core_nextPts _ _ u Ec). unfold nextPtsOf. by rewrite (hl_pts _ _ _ Hh). }
  assert (store_ok s0) as Hok0 by (apply (core_ok (apply es s)); [done|by apply Hh]).
  pose proof (bo_next _ _ _ Hok (sr_SenderUserID req)). assert (m_ID sender ≠ 0) as Hid0 by lia.
  destruct (commit_counters req alloc sender recipient receipt s0 Hk Hid0 Ho) as (Cu & Cp & Cn).
  split.
  - apply (boxes_ok_ext (nextUID s0 + 1) _ (λ u, match sent_copies req sender recipient u with Some _ => nextBoxOf s0 u + 1 | None => nextBoxOf s0 u end)
      _ (λ u, boxOf s0 u ++ option_list (sent_copies req sender recipient u))).
    + done.
    + intros u. rewrite Cn. destruct (sent_copies req sender recipient u) as [m|] eqn:E; [|done].
      destruct (Hnew u m E) as (_ & -> & _). by rewrite En.
    + intros u. symmetry. by apply commit_boxOf.
    + apply boxes_ok_add; [exact Hok0| |done]. intros u m E. rewrite Eu, En. by apply Hnew.
  - intros u. split.
    + rewrite commit_boxOf, fmap_app, replay_app, (replay_restaged u prefix es _ Hre) by done.
      rewrite Er, (replay_send_events req) by done. f_equal. rewrite (core_boxOf _ _ u Ec). by apply Hh.
    + rewrite Cp, Ep. specialize (Hst' u). destruct (alloc !! u) as [n|]; simpl.
      * eapply positions_weaken; [apply current_pts_ge|reflexivity|done].
      * rewrite Hst'. simpl. lia.
Qed.
End box.
