(* ===== verification/MessagesOps.v ===== *)
(** The boxes and the events of edits, reads, deletions and pins. *)

From S2P Require Import Prelude GoStrings Updates Messages MessagesInv MessagesBox.

Open Scope Z_scope.

#[local] Set Default Proof Using "Type".

Section ops.
Context {P Bytes : Type} `{!Codecs P Bytes} `{!EqDecision P}.

Abbreviation Message := (Message P).
Abbreviation event := (event P).
Abbreviation store := (@MessageStore P Bytes).
Implicit Types (m c : Message) (u v id uid pts : Z) (p : Peer) (s : store) (l : list Message) (e : event).

(** ** Edits *)

Definition edit_events (ed : list (EditedMessageForUser P)) : list event := omap edited_Event ed.

Lemma edit_event_Some (req : EditMessageRequest P) m : m_ID m ≠ 0 →
  ∃ e, (if ed_WebPageResolve req then webPageEvent m else editMessageEvent m) = Some e
    ∧ UserID e = m_OwnerUserID m ∧ Pts e = m_Pts m ∧ PtsCount e = 1
    ∧ ∀ l, client_apply l e = (λ c, if m_ID c =? m_ID m then seen m else c) <$> l.
Proof.
  intros H. unfold webPageEvent, editMessageEvent, message_event. rewrite (proj2 (Z.eqb_neq _ _) H).
  by destruct (ed_WebPageResolve req); eexists; split_and!.
Qed.

Lemma replace_absent (x : Message) l : m_ID x ∉ (m_ID <$> l) → (λ c, if m_ID c =? m_ID x then seen x else c) <$> l = l.
Proof.
  intros Hx. apply fmap_same. intros c Hc. destruct (Z.eqb_spec (m_ID c) (m_ID x)) as [E|]; [|done].
  exfalso. apply Hx. rewrite <- E. apply list_elem_of_fmap. by exists c.
Qed.

Lemma seen_ids l : m_ID <$> (seen <$> l) = m_ID <$> l.
Proof. rewrite <- list_fmap_compose. by apply list_fmap_ext. Qed.

Lemma edit_box_spec req date uid sender u l : ∀ pre next l' ed next',
  edit_box req date uid sender u next l = (l', ed, next') →
  Forall (λ m, 1 ≤ m_ID m ∧ m_OwnerUserID m = u) l → NoDup (m_ID <$> l) →
  (∀ i, i ∈ (m_ID <$> pre) → i ∉ (m_ID <$> l)) →
  Forall2 (edits req date uid sender) l l' ∧ positions next (edit_events ed) next'
  ∧ fold_left client_apply (edit_events ed) (pre ++ (seen <$> l)) = pre ++ (seen <$> l')
  ∧ Forall (λ e, UserID e = u) (edit_events ed)
  ∧ Forall (λ x, edited_UserID x = u ∧ ∀ e, edited_Event x = Some e → UserID e = u) ed.
Proof.
  induction l as [|m l IH]; intros pre next l' ed next' E Hok Hnd Hpre; simpl in E.
  { injection E as <- <- <-. split_and!; [constructor|simpl; lia|done|constructor|constructor]. }
  apply Forall_cons in Hok as [[Hid Ho] Hok]. simpl in Hnd. apply NoDup_cons in Hnd as [Hn Hnd].
  unfold edits. fold (edit_matches uid sender m) in E. destruct (edit_matches uid sender m) eqn:Em.
  - destruct (edit_box req date uid sender u (next + 1) l) as [[l1 ed1] n1] eqn:E1. injection E as <- <- <-.
    set (m' := edit_copy req date (next + 1) m) in *.
    destruct (edit_event_Some req m') as (e & Ee & Eu & Ep & Ec & Ea); [simpl; lia|].
    destruct (IH (pre ++ [seen m']) (next + 1) l1 ed1 n1 E1 Hok Hnd) as (H1 & H2 & H3 & H4 & H5).
    { intros i. rewrite fmap_app, elem_of_app. intros [Hi|Hi] Hl.
      - apply (Hpre i Hi). by right.
      - simpl in Hi. apply list_elem_of_singleton in Hi as ->. done. }
    unfold edit_events in *. simpl. rewrite Ee. simpl. split_and!.
    + constructor; [|done]. rewrite Em. by exists (next + 1).
    + rewrite Ep, Ec. simpl. lia.
    + lia.
    + rewrite Ep. done.
    + rewrite Ea, fmap_app. rewrite replace_absent.
      * simpl. rewrite Z.eqb_refl. rewrite (replace_absent m').
        -- rewrite <- !app_assoc in H3. exact H3.
        -- by rewrite seen_ids.
      * intros Hi. eapply Hpre; [exact Hi|]. by left.
    + constructor; [by rewrite Eu|done].
    + constructor; [|done]. split; [done|]. intros e' [= <-]. by rewrite Eu.
  - destruct (edit_box req date uid sender u next l) as [[l1 ed1] n1] eqn:E1. injection E as <- <- <-.
    destruct (IH (pre ++ [seen m]) next l1 ed1 n1 E1 Hok Hnd) as (H1 & H2 & H3 & H4 & H5).
    { intros i. rewrite fmap_app, elem_of_app. intros [Hi|Hi] Hl.
      - apply (Hpre i Hi). by right.
      - simpl in Hi. apply list_elem_of_singleton in Hi as ->. done. }
    split_and!; try done.
    + constructor; [by rewrite Em|done].
    + rewrite <- !app_assoc in H3. done.
Qed.

(** A box has at most one copy of a message. *)
Lemma edit_box_once req date uid sender u next l l' ed next' :
  edit_box req date uid sender u next l = (l', ed, next') → NoDup (m_UID <$> l) → (length ed ≤ 1)%nat
  ∧ (uid ∉ (m_UID <$> l) → ed = []).
Proof.
  revert next l' ed next'. induction l as [|m l IH]; intros next l' ed next' E Hnd; simpl in E.
  { injection E as <- <- <-. simpl. split; [lia|done]. }
  simpl in Hnd. apply NoDup_cons in Hnd as [Hn Hnd]. destruct (_ && _) eqn:Em.
  - destruct (edit_box _ _ _ _ _ _ _) as [[l1 ed1] n1] eqn:E1. injection E as <- <- <-.
    destruct (IH _ _ _ _ E1 Hnd) as [_ H]. apply andb_true_iff in Em as [Em%Z.eqb_eq _].
    rewrite H by by rewrite <- Em. split; [done|]. intros Hu. exfalso. apply Hu. rewrite <- Em. by left.
  - destruct (edit_box _ _ _ _ _ _ _) as [[l1 ed1] n1] eqn:E1. injection E as <- <- <-.
    destruct (IH _ _ _ _ E1 Hnd) as [H1 H2]. split; [done|]. intros Hu. apply H2. intros Hl. apply Hu. by right.
Qed.

Lemma edit_box_nil req date uid sender u next l l' next' :
  edit_box req date uid sender u next l = (l', [], next') → l' = l ∧ next' = next.
Proof.
  revert l'. induction l as [|m l IH]; intros l' E; simpl in E; [by injection E as <- <-|].
  destruct (_ && _); [by destruct (edit_box req date uid sender u (next + 1) l) as [[l1 ed1] n1]|].
  destruct (edit_box req date uid sender u next l) as [[l1 ed1] n1] eqn:E1.
  injection E as <- -> ->. by destruct (IH _ eq_refl) as [-> ->].
Qed.

(** What the loop over the users does to one of them. *)
Definition edited_user req date uid sender s s' (ed : list (EditedMessageForUser P)) u : Prop :=
  Forall2 (edits req date uid sender) (boxOf s u) (boxOf s' u)
  ∧ positions (nextPtsOf s u) (ev_for u (edit_events ed)) (nextPtsOf s' u)
  ∧ seen <$> boxOf s' u = replay u (edit_events ed) (seen <$> boxOf s u)
  ∧ (length (List.filter (λ x, (edited_UserID x =? u)%Z) ed) ≤ 1)%nat.

Lemma ev_for_all u es : Forall (λ e, UserID e = u) es → ev_for u es = es.
Proof. intros H. unfold ev_for. apply lfilter_all. eapply Forall_impl; [exact H|]. intros e ->. apply Z.eqb_refl. Qed.

Lemma ev_for_none u v es : u ≠ v → Forall (λ e, UserID e = u) es → ev_for v es = [].
Proof.
  intros Hne H. unfold ev_for. apply lfilter_none. eapply Forall_impl; [exact H|]. intros e ->. by apply Z.eqb_neq.
Qed.

Lemma edit_boxes_spec req date uid sender bs : ∀ s ed s',
  edit_boxes req date uid sender bs s = (ed, s') → NoDup bs.*1 →
  (∀ u l, (u, l) ∈ bs → boxOf s u = l ∧ Forall (λ m, 1 ≤ m_ID m ∧ m_OwnerUserID m = u) l
                        ∧ NoDup (m_ID <$> l) ∧ NoDup (m_UID <$> l)) →
  (∀ u, if bool_decide (u ∈ bs.*1) then edited_user req date uid sender s s' ed u
        else boxOf s' u = boxOf s u ∧ nextPtsOf s' u = nextPtsOf s u ∧ ev_for u (edit_events ed) = []
             ∧ List.filter (λ x, edited_UserID x =? u) ed = [])
  ∧ nextUID s' = nextUID s ∧ nextBox s' = nextBox s ∧ privateSendDedup s' = privateSendDedup s
  ∧ dialogs s' = dialogs s ∧ updateEvents s' = updateEvents s
  ∧ Forall (λ x, ∀ e, edited_Event x = Some e → UserID e = edited_UserID x) ed.
Proof.
  induction bs as [|[u l] bs IH]; intros s ed s' E Hnd Hbs; cbn [edit_boxes] in E.
  { injection E as <- <-. by split_and!. }
  destruct (edit_box req date uid sender u (nextPtsOf s u) l) as [[l1 ed1] n1] eqn:E1.
  set (s1 := match ed1 with [] => s | _ => set_nextPts (<[u := n1]> (nextPts s)) (set_box u l1 s) end) in E.
  destruct (edit_boxes req date uid sender bs s1) as [ed2 s2] eqn:E2. injection E as <- <-.
  simpl in Hnd. apply NoDup_cons in Hnd as [Hu Hnd]. destruct (Hbs u l) as (Hl & HM & Hids & Huids); [by left|]. subst l.
  destruct (edit_box_spec req date uid sender u (boxOf s u) [] (nextPtsOf s u) l1 ed1 n1 E1 HM Hids) as (H1 & H2 & H3 & H4 & H5).
  { intros i Hi. by apply elem_of_nil in Hi. }
  destruct (edit_box_once _ _ _ _ _ _ _ _ _ _ E1 Huids) as [Hone _].
  assert ((∀ v, boxOf s1 v = if v =? u then l1 else boxOf s v) ∧ (∀ v, nextPtsOf s1 v = if v =? u then n1 else nextPtsOf s v)
    ∧ nextUID s1 = nextUID s ∧ nextBox s1 = nextBox s ∧ privateSendDedup s1 = privateSendDedup s ∧ dialogs s1 = dialogs s
    ∧ updateEvents s1 = updateEvents s) as (Hb1 & Hp1 & Hr1).
  { unfold s1. destruct ed1 as [|x ed1].
    - apply edit_box_nil in E1 as [-> ->]. split_and!; try done; intros v; by destruct (Z.eqb_spec v u) as [->|].
    - split_and!; try done; intros v; [apply boxOf_set_box|apply (nextPtsOf_set u v n1 s)]. }
  destruct (IH s1 ed2 s2 E2) as (Hall & Hrest).
  { done. }
  { intros v l Hv. rewrite Hb1. destruct (Z.eqb_spec v u) as [->|]; [|apply Hbs; by right].
    exfalso. apply Hu. apply list_elem_of_fmap. by exists (u, l). }
  split; [|split_and!; try (intuition congruence)]; last first.
  { apply Forall_app. split; [|apply Hrest]. eapply Forall_impl; [exact H5|]. intros x [-> Hx]. done. }
  intros v. specialize (Hall v). change (((u, boxOf s u) :: bs).*1) with (u :: bs.*1).
  assert (∀ x, edit_events (ed1 ++ x) = edit_events ed1 ++ edit_events x) as Happ by (intros x; apply omap_app).
  destruct (decide (v = u)) as [->|Hne].
  - rewrite bool_decide_true by by left. rewrite bool_decide_false in Hall by done. destruct Hall as (Eb & Ep & Ee & Ef).
    unfold edited_user. rewrite Happ, ev_for_app, Ee, app_nil_r, Eb, Ep, Hb1, Hp1, Z.eqb_refl.
    rewrite (ev_for_all u _ H4), List.filter_app, Ef, app_nil_r. unfold replay. rewrite ev_for_app, Ee, app_nil_r, (ev_for_all u _ H4).
    split_and!; try done. rewrite lfilter_all; [done|]. eapply Forall_impl; [exact H5|]. intros x [-> _]. apply Z.eqb_refl.
  - assert (bool_decide (v ∈ u :: bs.*1) = bool_decide (v ∈ bs.*1)) as -> by (apply bool_decide_ext; rewrite elem_of_cons; naive_solver).
    assert (ev_for v (edit_events ed1) = []) as Hno by (by eapply ev_for_none).
    assert (List.filter (λ x, edited_UserID x =? v) ed1 = []) as Hno'.
    { apply lfilter_none. eapply Forall_impl; [exact H5|]. intros x [-> _]. by apply Z.eqb_neq. }
    rewrite Happ, !ev_for_app, Hno, List.filter_app, Hno'. simpl.
    rewrite Hb1, Hp1, (proj2 (Z.eqb_neq _ _) Hne) in Hall. destruct (bool_decide (v ∈ bs.*1)).
    + destruct Hall as (A1 & A2 & A3 & A4). rewrite Hb1, (proj2 (Z.eqb_neq _ _) Hne) in A1, A3.
      rewrite Hp1, (proj2 (Z.eqb_neq _ _) Hne) in A2. unfold edited_user.
      rewrite Happ, ev_for_app, Hno, List.filter_app, Hno'. simpl. split_and!; try done.
      unfold replay in *. by rewrite ev_for_app, Hno.
    + done.
Qed.

(** A preview is put in by the author of the message
    ([rpc/webpage_resolver.go] calls with the sender's id). *)
Definition resolved_by_author (req : EditMessageRequest P) s : Prop :=
  ed_WebPageResolve req = true →
  ∀ target, find_message s (ed_OwnerUserID req) (ed_Peer req) (ed_ID req) = Some target →
    peer_ID (m_From target) = ed_OwnerUserID req.

Lemma find_message_in s u p id m : find_message s u p id = Some m → m ∈ boxOf s u ∧ m_Peer m = p ∧ m_ID m = id.
Proof.
  intros [Hin Hm]%List.find_some. unfold is_message in Hm. apply andb_true_iff in Hm as [Hp Hi].
  apply bool_decide_eq_true in Hp. apply Z.eqb_eq in Hi. by rewrite list_elem_of_In.
Qed.

(** Copies of one author: the author's and at most one other. *)
Lemma preview_reaches_no_cleared s u target :
  store_ok s → target ∈ boxOf s u → peer_ID (m_From target) = u → ¬ cleared u target →
  ∀ v m, m ∈ boxOf s v → edit_matches (m_UID target) (peer_ID (m_From target)) m = true → ¬ cleared v m.
Proof.
  intros Hok Ht Hf Hc v m Hm Hmat [Hh Hv]. apply andb_true_iff in Hmat as [Hu%Z.eqb_eq Hs%Z.eqb_eq].
  assert (v = u) as -> by congruence. apply Hc.
  rewrite <- (fmap_inj_in m_UID (boxOf s u) m target); [by split|apply Hok|done|done|done].
Qed.

Lemma pending_not_cleared u m id : IsPendingWebPageMedia (m_Media m) id = true → ¬ cleared u m.
Proof.
  unfold IsPendingWebPageMedia, cleared, IsHistoryClearServiceMessage. destruct (m_Media m) as [md|]; [|done].
  intros [Hk%bool_decide_eq_true _]%andb_true_iff [Hh _]. rewrite Hk in Hh. done.
Qed.

Lemma small_permutation {A} (l k : list A) : l ≡ₚ k → (length l ≤ 1)%nat → k = l.
Proof.
  intros H Hl. destruct l as [|x [|y l]]; simpl in Hl; [by apply Permutation_nil_l in H|by apply Permutation_singleton_l in H|lia].
Qed.

Lemma ev_for_edits u (ed : list (EditedMessageForUser P)) :
  Forall (λ x, ∀ e, edited_Event x = Some e → UserID e = edited_UserID x) ed →
  ev_for u (edit_events ed) = edit_events (List.filter (λ x, edited_UserID x =? u) ed).
Proof.
  unfold edit_events, ev_for. induction 1 as [|x ed Hx Hed IH]; simpl; [done|].
  destruct (edited_Event x) as [e|] eqn:Ee; simpl.
  - rewrite (Hx e eq_refl). destruct (edited_UserID x =? u); simpl; rewrite ?Ee; [f_equal|]; exact IH.
  - destruct (edited_UserID x =? u); simpl; rewrite ?Ee; exact IH.
Qed.

(** The loop over all boxes. *)
Lemma edit_all_spec req date uid sender s ed s' :
  store_ok s → edit_boxes req date uid sender (map_to_list (boxes s)) s = (ed, s') →
  (∀ u, edited_user req date uid sender s s' ed u)
  ∧ nextUID s' = nextUID s ∧ nextBox s' = nextBox s ∧ privateSendDedup s' = privateSendDedup s
  ∧ dialogs s' = dialogs s ∧ updateEvents s' = updateEvents s
  ∧ ∀ u, ev_for u (edit_events (merge_sort by_user ed)) = ev_for u (edit_events ed).
Proof.
  intros Hok E. destruct (edit_boxes_spec _ _ _ _ _ _ _ _ E) as (Hall & Hu & Hn & Hd & Hdi & He & Hev).
  { apply NoDup_fst_map_to_list. }
  { intros u l Hl%elem_of_map_to_list. assert (boxOf s u = l) as <- by (unfold boxOf; by rewrite Hl).
    split_and!; [done| |by eapply box_ids|apply Hok].
    eapply Forall_impl; [apply (bo_messages _ _ _ Hok u)|]. intros m []. lia. }
  assert (∀ u, edited_user req date uid sender s s' ed u) as Hed.
  { intros u. specialize (Hall u). destruct (decide (u ∈ (map_to_list (boxes s)).*1)) as [Hin|Hin].
    - by rewrite bool_decide_true in Hall by done.
    - rewrite bool_decide_false in Hall by done. destruct Hall as (Eb & Ep & Hev0 & Hf0).
      unfold edited_user, replay. rewrite Eb, Ep, Hev0, Hf0. split_and!; [|simpl; lia|done|simpl; lia].
      assert (boxOf s u = []) as ->; [|constructor]. unfold boxOf. destruct (boxes s !! u) as [l|] eqn:El; [|done].
      exfalso. apply Hin. apply list_elem_of_fmap. exists (u, l). by rewrite elem_of_map_to_list. }
  repeat (split; [done|]). intros u. rewrite !ev_for_edits; [|done|by rewrite merge_sort_Permutation]. f_equal.
  apply small_permutation; [by rewrite merge_sort_Permutation|apply Hed].
Qed.

(** The edit that an accepted request performs. *)
Lemma EditMessage_cases now req s ed s' :
  EditMessage now req s = (OK ed, s') →
  ∃ date target ed0 s1, find_message s (ed_OwnerUserID req) (ed_Peer req) (ed_ID req) = Some target
    ∧ edit_refused req target = None
    ∧ edit_boxes req date (m_UID target) (peer_ID (m_From target)) (map_to_list (boxes s)) s = (ed0, s1)
    ∧ ed = merge_sort by_user ed0
    ∧ s' = set_dialogs (map_imap (λ u L, Some {| l_Dialogs := l_Dialogs L; l_Messages := boxOf s1 u |}) (dialogs s1)) s1.
Proof.
  intros E. unfold EditMessage in E. destruct (_ || _) in E; [done|].
  destruct (find_message s _ _ _) as [target|] eqn:Et; [|done].
  destruct (edit_refused req target) eqn:Er; [done|]. cbv zeta in E.
  set (date := if ed_EditDate req =? 0 then now else ed_EditDate req) in E.
  destruct (edit_boxes req date _ _ _ s) as [ed0 s1] eqn:Eb. injection E as <- <-. by exists date, target, ed0, s1.
Qed.

Lemma EditMessage_spec now req s ed s' :
  store_ok s → resolved_by_author req s → EditMessage now req s = (OK ed, s') →
  store_ok s' ∧ delivered s s' (edit_events ed) ∧ privateSendDedup s' = privateSendDedup s
  ∧ nextBox s' = nextBox s ∧ updateEvents s' = updateEvents s.
Proof.
  intros Hok Hweb E. destruct (EditMessage_cases _ _ _ _ _ E) as (date & target & ed0 & s1 & Et & Er & Eb & -> & ->).
  destruct (find_message_in _ _ _ _ _ Et) as (Htin & _ & _).
  destruct (edit_all_spec _ _ _ _ _ _ _ Hok Eb) as (Hed & Hu & Hn & Hd & _ & He & Hsort).
  split_and!; [|intros u; unfold replay; rewrite Hsort; by split; apply Hed|done|done|done].
  apply (boxes_ok_edit (nextUID s) (nextBoxOf s) (boxOf s) (boxOf s1) req date (m_UID target) (peer_ID (m_From target))) in Hok.
  - eapply boxes_ok_ext; [| | |exact Hok]; [by simpl; rewrite Hu| |done]. intros u. unfold nextBoxOf. simpl. by rewrite Hn.
  - intros u. apply Hed.
  - intros Hw. specialize (Hweb Hw _ Et). unfold edit_refused in Er. rewrite Hw in Er.
    destruct (ed_Media req) as [md|]; [|by destruct (negb _ && _ && _ && _) in Er].
    destruct (IsPendingWebPageMedia (m_Media target) (ed_ExpectedWebPageID req)) eqn:Ep;
      [|by destruct (negb _ && _ && _ && _) in Er].
    split; [done|]. intros u m. eapply (preview_reaches_no_cleared s (ed_OwnerUserID req)); try done.
    by eapply pending_not_cleared.
Qed.

(** ** Reads *)

(** An operation that leaves the boxes alone and gives [u] one event. *)
Lemma delivered_event s s' u e :
  (∀ v, boxOf s' v = boxOf s v) → (∀ v, nextPtsOf s' v = if v =? u then nextPtsOf s u + 1 else nextPtsOf s v) →
  UserID e = u → Pts e = nextPtsOf s u + 1 → PtsCount e = 1 → (∀ l, client_apply l e = l) → delivered s s' [e].
Proof.
  intros Hb Hp Hu Hpts Hc Ha v. unfold replay. simpl. rewrite Hu, Hb, Hp, (Z.eqb_sym u v).
  destruct (Z.eqb_spec v u) as [->|]; simpl; [rewrite Ha|]; split; try done; lia.
Qed.

Lemma delivered_nothing s s' :
  (∀ v, boxOf s' v = boxOf s v) → (∀ v, nextPtsOf s' v = nextPtsOf s v) → delivered s s' [].
Proof. intros Hb Hp v. rewrite Hb, Hp. split; [done|simpl; lia]. Qed.

Definition read_events (r : ReadHistoryResult P) : list event :=
  option_list (rh_InboxEvent r) ++ option_list (rh_OutboxEvent r).

Definition same_boxes s s' : Prop :=
  boxes s' = boxes s ∧ nextUID s' = nextUID s ∧ nextBox s' = nextBox s ∧ privateSendDedup s' = privateSendDedup s
  ∧ updateEvents s' = updateEvents s.

Lemma same_boxes_ok s s' : same_boxes s s' → store_ok s → store_ok s'.
Proof.
  intros (E1 & E2 & E3 & _). apply boxes_ok_ext; [done|intros u; unfold nextBoxOf; by rewrite E3|].
  intros u. unfold boxOf. by rewrite E1.
Qed.

Lemma same_boxes_boxOf s s' u : same_boxes s s' → boxOf s' u = boxOf s u.
Proof. intros (E1 & _). unfold boxOf. by rewrite E1. Qed.

Lemma read_outbox_spec owner date latest s out s' :
  read_outbox owner date latest s = (out, s') → same_boxes s s' ∧ delivered s s' (option_list out).
Proof.
  intros E. unfold read_outbox in E. destruct latest as [l|]; [|injection E as <- <-; split; [done|apply delivered_refl]].
  destruct (_ || _); [injection E as <- <-; split; [done|apply delivered_refl]|].
  destruct (_ <=? 0); [injection E as <- <-; split; [done|apply delivered_refl]|].
  destruct (find_dialog _ _) as [d|]; [|injection E as <- <-; split; [done|apply delivered_refl]].
  destruct (_ <=? d_ReadOutboxMaxID d); [injection E as <- <-; split; [done|apply delivered_refl]|].
  injection E as <- <-. split; [done|].
  eapply delivered_event; [done| |done|done|done|done]. intros v. apply (nextPtsOf_set _ v _ s).
Qed.

Lemma ReadHistory_spec now req s r s' :
  ReadHistory now req s = (r, s') → same_boxes s s' ∧ delivered s s' (read_events r).
Proof.
  intros E. unfold ReadHistory in E. cbv zeta in E.
  destruct (_ || _); [injection E as <- <-; split; [done|apply delivered_refl]|].
  destruct (find_dialog _ _) as [d|]; [|injection E as <- <-; split; [done|apply delivered_refl]].
  destruct (_ <=? d_ReadInboxMaxID d).
  { destruct (0 <? d_UnreadCount d); injection E as <- <-; (split; [done|]); by apply delivered_nothing. }
  destruct (nextPtsLocked (rr_OwnerUserID req) _) as [pts s1] eqn:E1.
  destruct (read_outbox _ _ _ s1) as [out s2] eqn:E2. injection E as <- <-.
  apply read_outbox_spec in E2 as [(B1 & B2 & B3 & B4 & B5) Hd]. injection E1 as <- <-.
  split; [done|]. eapply delivered_app; [|exact Hd].
  eapply delivered_event; [done| |done|done|done|done]. intros v. apply (nextPtsOf_set _ v _ s).
Qed.

Lemma sort_ids_elem ids i : i ∈ sort_ids ids ↔ i ∈ ids.
Proof. unfold sort_ids. by rewrite merge_sort_Permutation. Qed.

Lemma seen_flags (g : Message → bool) l (reaction : Message → bool) :
  seen <$> ((λ m, if g m then contents_read false (reaction m) m else m) <$> l)
  = (λ m, if g m then contents_read false false (seen m) else seen m) <$> l.
Proof.
  rewrite <- list_fmap_compose. apply list_fmap_ext. intros _ m _. simpl. by destruct (g m).
Qed.

(** The ids of the messages that satisfy [g] say which they are. *)
Lemma client_reads (g : Message → bool) l ids e :
  NoDup (m_ID <$> l) → Type_ e = UpdateEventReadMessageContents → event_ids e = ids →
  (∀ i, i ∈ ids ↔ i ∈ (m_ID <$> List.filter g l)) →
  client_apply (seen <$> l) e = (λ m, if g m then contents_read false false (seen m) else seen m) <$> l.
Proof.
  intros Hnd Ht He Hids. unfold client_apply. rewrite Ht, He, <- list_fmap_compose.
  apply list_fmap_ext. intros i m Hm%list_elem_of_lookup_2. simpl.
  destruct (g m) eqn:Eg.
  - rewrite bool_decide_true; [done|]. apply Hids, list_elem_of_fmap. exists m. by rewrite elem_of_lfilter.
  - rewrite bool_decide_false; [done|]. intros (c & Hc & [Hgc Hcl]%elem_of_lfilter)%Hids%list_elem_of_fmap.
    assert (m = c) as -> by by eapply (fmap_inj_in m_ID). congruence.
Qed.

(** One user is told which of its messages were seen. *)
Lemma delivered_reads s s' u (g reaction : Message → bool) ids e :
  store_ok s → boxOf s' u = (λ m, if g m then contents_read false (reaction m) m else m) <$> boxOf s u →
  (∀ v, v ≠ u → boxOf s' v = boxOf s v) →
  (∀ i, i ∈ ids ↔ i ∈ (m_ID <$> List.filter g (boxOf s u))) → ids ≠ [] →
  (∀ v, nextPtsOf s' v = if v =? u then nextPtsOf s u + Z.of_nat (length ids) else nextPtsOf s v) →
  UserID e = u → Type_ e = UpdateEventReadMessageContents → event_ids e = ids →
  Pts e = nextPtsOf s u + Z.of_nat (length ids) → PtsCount e = Z.of_nat (length ids) → delivered s s' [e].
Proof.
  intros Hok Hu Hv Hids Hne Hp Eu Et Ee Ep Ec v. unfold replay. simpl. rewrite Eu, (Z.eqb_sym u v), Hp.
  destruct (Z.eqb_spec v u) as [->|Hvu]; simpl.
  - split; [|destruct ids; simpl in *; [done|lia]]. rewrite Hu, seen_flags. symmetry. eapply client_reads; eauto.
    by eapply box_ids.
  - rewrite Hv by done. split; [done|lia].
Qed.

(** ** Contents *)

(** What an operation leaves alone beside the boxes and positions. *)
Definition same_ids s s' : Prop :=
  nextUID s' = nextUID s ∧ nextBox s' = nextBox s ∧ privateSendDedup s' = privateSendDedup s.

Lemma same_ids_trans s s' s'' : same_ids s s' → same_ids s' s'' → same_ids s s''.
Proof. intros (E1 & E2 & E3) (F1 & F2 & F3). split_and!; congruence. Qed.

Lemma flags_ok u f s s' :
  store_ok s → only_flags f → same_ids s s' → boxOf s' u = f <$> boxOf s u → (∀ v, v ≠ u → boxOf s' v = boxOf s v) →
  store_ok s'.
Proof.
  intros Hok Hf (E1 & E2 & _) Hu Hv.
  apply (boxes_ok_ext (nextUID s) _ (nextBoxOf s) _ (λ v, (λ m, if v =? u then f m else m) <$> boxOf s v)).
  - done.
  - intros v. unfold nextBoxOf. by rewrite E2.
  - intros v. destruct (Z.eqb_spec v u) as [->|Hne]; [done|]. rewrite Hv by done. by rewrite list_fmap_id.
  - apply boxes_ok_flags; [done|]. intros v. destruct (v =? u); [done|]. by intros m; split_and!.
Qed.

Lemma contents_read_only (g : Message → bool) (media reaction : Message → bool) :
  only_flags (λ m, if g m then contents_read (media m) (reaction m) m else m).
Proof. intros m. destruct (g m); by split_and!. Qed.

Lemma sort_ids_length ids : length (sort_ids ids) = length ids.
Proof. unfold sort_ids. apply Permutation_length, merge_sort_Permutation. Qed.

Lemma read_notes_spec date read senders : ∀ s es s',
  store_ok s → read_notes date read senders s = (es, s') →
  store_ok s' ∧ delivered s s' es ∧ same_ids s s' ∧ Forall (λ e, UserID e ∈ senders) es
  ∧ (∀ u, u ∉ senders → boxOf s' u = boxOf s u ∧ nextPtsOf s' u = nextPtsOf s u).
Proof.
  induction senders as [|u senders IH]; intros s es s' Hok E; cbn [read_notes] in E.
  { injection E as <- <-. split_and!; try done. apply delivered_refl. }
  cbv zeta in E. set (uids := m_UID <$> _) in E. set (ids := sort_ids _) in E.
  destruct (Z.eqb_spec (Z.of_nat (length ids)) 0) as [E0|E0].
  - destruct (IH s es s' Hok E) as (H1 & H2 & H3 & H4 & H5). split_and!; try done.
    + eapply Forall_impl; [exact H4|]. intros e He. by right.
    + intros v Hv. apply H5. intros Hin. apply Hv. by right.
  - set (s1 := set_box u _ s) in E.
    destruct (nextPtsNLocked u _ s1) as [pts s2] eqn:E2. unfold nextPtsNLocked in E2.
    rewrite (proj2 (Z.leb_gt _ _)) in E2 by lia. injection E2 as <- <-.
    match type of E with (let '(_, _) := read_notes _ _ _ ?t in _) = _ => set (s2 := t) in E end.
    destruct (read_notes date read senders s2) as [es' s3] eqn:E3. injection E as <- <-.
    assert (∀ v, boxOf s2 v = boxOf s1 v) as Hb by done.
    assert (store_ok s2) as Hok2.
    { apply (flags_ok u (λ m, if note_read uids m then contents_read false (m_ReactionUnread m) m else m) s); try done.
      - by apply (contents_read_only _ (λ _, false)).
      - rewrite Hb. unfold s1. by rewrite boxOf_set_box, Z.eqb_refl.
      - intros v Hv. rewrite Hb. unfold s1. by rewrite boxOf_set_box, (proj2 (Z.eqb_neq _ _) Hv). }
    destruct (IH s2 es' s3 Hok2 E3) as (H1 & H2 & H3 & H4 & H5). split_and!; try done.
    + change (?e :: es') with ([e] ++ es'). eapply delivered_app; [|exact H2].
      apply (delivered_reads s s2 u (note_read uids) m_ReactionUnread ids); try done.
      * rewrite Hb. unfold s1. by rewrite boxOf_set_box, Z.eqb_refl.
      * intros v Hv. rewrite Hb. unfold s1. by rewrite boxOf_set_box, (proj2 (Z.eqb_neq _ _) Hv).
      * intros i. unfold ids. by rewrite sort_ids_elem.
      * by intros ->.
      * intros v. apply (nextPtsOf_set u v _ s1).
      * unfold event_ids. simpl. by destruct ids.
    + constructor; [by left|]. eapply Forall_impl; [exact H4|]. intros e He. by right.
    + intros v Hv. apply not_elem_of_cons in Hv as [Hvu Hv]. destruct (H5 v Hv) as [-> ->]. split.
      * rewrite Hb. unfold s1. by rewrite boxOf_set_box, (proj2 (Z.eqb_neq _ _) Hvu).
      * etrans; [apply (nextPtsOf_set u v _ s1)|]. by rewrite (proj2 (Z.eqb_neq _ _) Hvu).
Qed.

Lemma refresh_core uids s :
  core (fold_left (λ s uid, refreshPrivateReactionDialogSnapshotsLocked uid s) uids s) = core s
  ∧ privateSendDedup (fold_left (λ s uid, refreshPrivateReactionDialogSnapshotsLocked uid s) uids s) = privateSendDedup s.
Proof.
  revert s. induction uids as [|uid uids IH]; intros s; simpl; [done|]. destruct (IH (refreshPrivateReactionDialogSnapshotsLocked uid s)) as [-> ->].
  unfold refreshPrivateReactionDialogSnapshotsLocked. by destruct (uid =? 0).
Qed.

Lemma core_same_ids s s' : core s' = core s → privateSendDedup s' = privateSendDedup s → same_ids s s'.
Proof. intros [= _ ? ? _] ?. done. Qed.

(** The owner's box changes first and the owner is told last. *)
Lemma delivered_last s s1 s2 s' u es e :
  delivered s1 s2 es → ev_for u es = [] → UserID e = u → 0 < PtsCount e →
  (∀ v, v ≠ u → boxOf s1 v = boxOf s v) → (∀ v, nextPtsOf s1 v = nextPtsOf s v) →
  seen <$> boxOf s1 u = client_apply (seen <$> boxOf s u) e →
  (∀ v, boxOf s' v = boxOf s2 v) →
  (∀ v, nextPtsOf s' v = if v =? u then nextPtsOf s2 u + PtsCount e else nextPtsOf s2 v) →
  Pts e = nextPtsOf s2 u + PtsCount e → delivered s s' (es ++ [e]).
Proof.
  intros Hd Hno Hu Hc Hv Hp Hbox Hb' Hp' Hpts v. destruct (Hd v) as [Db Dp]. rewrite Hb', Hp', Db, replay_app, ev_for_app.
  assert (ev_for v [e] = if u =? v then [e] else []) as He by (unfold ev_for; simpl; rewrite Hu; by destruct (u =? v)).
  unfold replay at 2. rewrite He, <- Hp. rewrite (Z.eqb_sym u v). destruct (Z.eqb_spec v u) as [->|Hne]; simpl.
  - unfold replay. rewrite Hno. simpl. split; [done|]. rewrite Hno in Dp. apply positions_le in Dp. lia.
  - rewrite Hv by done. by rewrite app_nil_r.
Qed.

Definition contents_events (r : ReadMessageContentsResult P) : list event := rc_SenderEvents r ++ option_list (rc_Event r).

Lemma ev_for_none' u (senders : list Z) es :
  Forall (λ e, UserID e ∈ senders) es → (∀ v, v ∈ senders → v ≠ u) → ev_for u es = [].
Proof.
  intros H Hne. unfold ev_for. apply lfilter_none. eapply Forall_impl; [exact H|]. intros e He. by apply Z.eqb_neq, Hne.
Qed.

Lemma notes_senders_elem u v (l : list Message) :
  v ∈ sort_ids (remove_dups ((λ m, peer_ID (m_From m)) <$> List.filter (notes_sender u) l)) → v ≠ u.
Proof.
  rewrite sort_ids_elem, elem_of_remove_dups, list_elem_of_fmap. intros (m & -> & [Hm _]%elem_of_lfilter).
  unfold notes_sender in Hm. rewrite !andb_true_iff in Hm. destruct Hm as [_ Hm]. by apply negb_true_iff, Z.eqb_neq in Hm.
Qed.

Lemma ReadMessageContents_spec now req s r s' :
  store_ok s → ReadMessageContents now req s = (OK r, s') →
  store_ok s' ∧ delivered s s' (contents_events r) ∧ same_ids s s'.
Proof.
  intros Hok E. unfold ReadMessageContents in E. cbv zeta in E.
  destruct (_ =? 0); [done|]. destruct (_ <? _); [done|]. destruct (existsb _ _); [done|].
  set (u := rc_OwnerUserID req) in *. set (date := if rc_Date req =? 0 then now else rc_Date req) in E.
  set (f := content_unread (rc_IDs req)) in *. set (ids := sort_ids (m_ID <$> List.filter f (boxOf s u))) in *.
  destruct (Z.eqb_spec (Z.of_nat (length ids)) 0) as [E0|E0].
  { injection E as <- <-. split_and!; try done. apply delivered_refl. }
  set (s1 := set_box u _ s) in E.
  destruct (read_notes _ _ _ s1) as [es s2] eqn:E2.
  set (s3 := fold_left _ _ s2) in E.
  destruct (nextPtsNLocked u _ s3) as [pts s4] eqn:E4. unfold nextPtsNLocked in E4.
  rewrite (proj2 (Z.leb_gt _ _)) in E4 by lia. injection E4 as <- <-.
  match type of E with (OK _, ?t) = _ => set (s4 := t) in E end. injection E as <- <-.
  assert (∀ v, boxOf s1 v = if v =? u then (λ m, if f m then contents_read false false m else m) <$> boxOf s u else boxOf s v) as Hb1
    by (intros v; apply boxOf_set_box).
  assert (store_ok s1) as Hok1.
  { apply (flags_ok u (λ m, if f m then contents_read false false m else m) s); try done.
    - by apply (contents_read_only f (λ _, false) (λ _, false)).
    - by rewrite Hb1, Z.eqb_refl.
    - intros v Hv. by rewrite Hb1, (proj2 (Z.eqb_neq _ _) Hv). }
  destruct (read_notes_spec _ _ _ _ _ _ Hok1 E2) as (Hok2 & Hd & Hids & Hev & _).
  destruct (refresh_core (remove_dups (m_UID <$> List.filter (λ m, m_ReactionUnread m && negb (peer_ID (m_Peer m) =? 0)) (List.filter f (boxOf s u)))) s2) as [Hcore Hded].
  fold s3 in Hcore, Hded.
  assert (∀ v, boxOf s4 v = boxOf s2 v) as Hb4 by (intros v; exact (core_boxOf _ _ v Hcore)).
  assert (same_ids s2 s4) as Hids4 by (by apply (core_same_ids _ s3)).
  split_and!.
  - eapply boxes_ok_ext; [| | |exact Hok2]; [by rewrite (proj1 Hids4)| |done].
    intros v. unfold nextBoxOf. by rewrite (proj1 (proj2 Hids4)).
  - unfold contents_events. simpl. eapply (delivered_last s s1 s2 s4 u); [exact Hd| |done|simpl; lia|..].
    + eapply ev_for_none'; [exact Hev|]. intros v. apply notes_senders_elem.
    + intros v Hv. by rewrite Hb1, (proj2 (Z.eqb_neq _ _) Hv).
    + done.
    + rewrite Hb1, Z.eqb_refl, (seen_flags f _ (λ _, false)). symmetry. apply (client_reads f (boxOf s u) ids).
      * by eapply box_ids.
      * done.
      * unfold event_ids. simpl. by destruct ids.
      * intros i. unfold ids. by rewrite sort_ids_elem.
    + done.
    + intros v. rewrite <- !(core_nextPts _ _ _ Hcore). apply (nextPtsOf_set u v _ s3).
    + by rewrite <- (core_nextPts _ _ _ Hcore).
  - eapply same_ids_trans; [by apply (conj eq_refl (conj eq_refl eq_refl) : same_ids s s1)|]. by eapply same_ids_trans.
Qed.
End ops.
