(* ===== verification/MessagesDelete.v ===== *)
(** The boxes and the events of deletions: the messages that leave a box are
    those that its owner is told about, and an anchor of a cleared history is
    told as read and edited.  The check of the positions at the end of
    [finishMemoryDeleteLocked] never fails. *)

From S2P Require Import Prelude GoStrings Updates Messages MessagesInv MessagesBox MessagesOps.

Open Scope Z_scope.

#[local] Set Default Proof Using "Type".

Section delete.
Context {P Bytes : Type} `{!Codecs P Bytes} `{!EqDecision P}.

Abbreviation Message := (Message P).
Abbreviation event := (event P).
Abbreviation store := (@MessageStore P Bytes).
Implicit Types (m c : Message) (u v id uid pts : Z) (p : Peer) (s : store) (l : list Message) (e : event).

(** ** Receipts *)

Definition same_receipt (r r' : privateSendDedupRecord (P := P) (Bytes := Bytes)) : Prop :=
  dd_recipientUserID r' = dd_recipientUserID r ∧ dd_senderSnapshot r' = dd_senderSnapshot r
  ∧ dd_recipientMessage r' = dd_recipientMessage r ∧ dd_fingerprint r' = dd_fingerprint r
  ∧ (is_Some (dd_senderDeleteEvent r) → is_Some (dd_senderDeleteEvent r')).

(** A receipt is never lost and never rewritten; it only learns of a deletion. *)
Definition receipts_kept s s' : Prop :=
  ∀ k r, privateSendDedup s !! k = Some r → ∃ r', privateSendDedup s' !! k = Some r' ∧ same_receipt r r'.

Lemma receipts_kept_eq s s' : privateSendDedup s' = privateSendDedup s → receipts_kept s s'.
Proof. intros E k r H. exists r. rewrite E. split; [done|]. by split_and!. Qed.

Lemma receipts_kept_trans s s' s'' : receipts_kept s s' → receipts_kept s' s'' → receipts_kept s s''.
Proof.
  intros H H' k r Hr. destruct (H k r Hr) as (r1 & Hr1 & E1 & E2 & E3 & E4 & E5).
  destruct (H' k r1 Hr1) as (r2 & Hr2 & F1 & F2 & F3 & F4 & F5). exists r2. split; [done|]. split_and!; try congruence. auto.
Qed.

Lemma note_deletion_core u e s row : core (note_deletion u e s row) = core s.
Proof. unfold note_deletion. destruct (_ || _); [done|]. by destruct (privateSendDedup s !! _). Qed.

Lemma note_deletion_receipts u e s row : receipts_kept s (note_deletion u e s row).
Proof.
  unfold note_deletion. destruct (_ || _); [by apply receipts_kept_eq|].
  destruct (privateSendDedup s !! _) as [r|] eqn:Er; [|by apply receipts_kept_eq].
  intros k r' Hr. simpl. destruct (decide (k = (u, dr_randomID row))) as [->|Hne].
  - rewrite lookup_insert_eq. eexists. split; [done|]. assert (r' = r) as -> by congruence. by split_and!.
  - rewrite lookup_insert_ne by done. exists r'. split; [done|]. by split_and!.
Qed.

Lemma notes_kept u e rows s :
  core (fold_left (note_deletion u e) rows s) = core s ∧ receipts_kept s (fold_left (note_deletion u e) rows s).
Proof.
  revert s. induction rows as [|r rows IH]; intros s; simpl; [split; [done|by apply receipts_kept_eq]|].
  destruct (IH (note_deletion u e s r)) as [-> H]. split; [apply note_deletion_core|].
  eapply receipts_kept_trans; [apply note_deletion_receipts|done].
Qed.

Lemma forget_tag_core u id s : core (forget_tag u id s) = core s ∧ privateSendDedup (forget_tag u id s) = privateSendDedup s.
Proof. unfold forget_tag. destruct (savedMessageTags s !! u); [|done]. by case_bool_decide. Qed.

Lemma forget_tags_core (rows : list deletedMemoryMessage) s :
  core (fold_left (λ s r, forget_tag (dr_userID r) (dr_id r) s) rows s) = core s
  ∧ privateSendDedup (fold_left (λ s r, forget_tag (dr_userID r) (dr_id r) s) rows s) = privateSendDedup s.
Proof.
  revert s. induction rows as [|r rows IH]; intros s; simpl; [done|]. destruct (IH (forget_tag (dr_userID r) (dr_id r) s)) as [-> ->].
  apply forget_tag_core.
Qed.

Lemma rebuilds_core u ps s :
  core (fold_left (rebuildMemoryDialogLocked u) ps s) = core s
  ∧ privateSendDedup (fold_left (rebuildMemoryDialogLocked u) ps s) = privateSendDedup s.
Proof. revert s. induction ps as [|p ps IH]; intros s; simpl; [done|]. by destruct (IH (rebuildMemoryDialogLocked u s p)) as [-> ->]. Qed.

(** ** Rows *)

Definition ids_of (rows : list deletedMemoryMessage) u : list Z := dr_id <$> List.filter (λ r, dr_userID r =? u) rows.

Lemma ids_of_app rows rows' u : ids_of (rows ++ rows') u = ids_of rows u ++ ids_of rows' u.
Proof. unfold ids_of. by rewrite List.filter_app, fmap_app. Qed.

Lemma ids_of_rows u v (del : list Message) : ids_of (deleted_row u <$> del) v = if u =? v then m_ID <$> del else [].
Proof.
  unfold ids_of. destruct (Z.eqb_spec u v) as [->|Hne].
  - rewrite lfilter_all; [by rewrite <- list_fmap_compose|]. apply Forall_fmap, Forall_true. intros m. simpl. by rewrite Z.eqb_refl.
  - rewrite lfilter_none; [done|]. apply Forall_fmap, Forall_true. intros m. simpl. by apply Z.eqb_neq.
Qed.

Definition peers_of (rows : list deletedMemoryMessage) u : list Peer := dr_peer <$> List.filter (λ r, dr_userID r =? u) rows.

Lemma peers_of_elem rows u p : p ∈ peers_of rows u ↔ ∃ r, r ∈ rows ∧ dr_userID r = u ∧ dr_peer r = p.
Proof.
  unfold peers_of. rewrite list_elem_of_fmap. split.
  - intros (r & -> & [E%Z.eqb_eq Hr]%elem_of_lfilter). by exists r.
  - intros (r & Hr & <- & <-). exists r. split; [done|]. apply elem_of_lfilter. by rewrite Z.eqb_refl.
Qed.

Definition keep (ids : list Z) m : bool := negb (bool_decide (m_ID m ∈ ids)).

Lemma keep_app ids ids' l : List.filter (keep ids') (List.filter (keep ids) l) = List.filter (keep (ids ++ ids')) l.
Proof.
  rewrite lfilter_filter. apply lfilter_ext. intros m _. unfold keep.
  rewrite <- negb_orb, <- bool_decide_or. f_equal. apply bool_decide_ext. by rewrite elem_of_app.
Qed.

Lemma keep_ext ids ids' l : (∀ i, i ∈ ids ↔ i ∈ ids') → List.filter (keep ids) l = List.filter (keep ids') l.
Proof. intros H. apply lfilter_ext. intros m _. unfold keep. f_equal. by apply bool_decide_ext. Qed.

Lemma keep_nil l : List.filter (keep []) l = l.
Proof. apply lfilter_all, Forall_true. intros m. unfold keep. rewrite bool_decide_false; [done|]. apply not_elem_of_nil. Qed.

Lemma keep_seen ids l : List.filter (keep ids) (seen <$> l) = seen <$> List.filter (keep ids) l.
Proof.
  induction l as [|m l IH]; [done|]. rewrite fmap_cons. cbn [List.filter].
  change (keep ids (seen m)) with (keep ids m). destruct (keep ids m); [|done]. rewrite fmap_cons. by f_equal.
Qed.

(** What left the boxes between [s] and [s']: the rows. *)
Record removed s s' (rows : list deletedMemoryMessage) : Prop := {
  rm_box u : boxOf s' u = List.filter (keep (ids_of rows u)) (boxOf s u);
  rm_was u i : i ∈ ids_of rows u → i ∈ (m_ID <$> boxOf s u);
  rm_peers u m : m ∈ boxOf s u → m_ID m ∈ ids_of rows u → m_Peer m ∈ peers_of rows u;
  rm_pts : nextPts s' = nextPts s;
  rm_ids : same_ids s s';
  rm_dialogs : dialogs s' = dialogs s;
}.

Lemma removed_app s s' s'' rows rows' : removed s s' rows → removed s' s'' rows' → removed s s'' (rows ++ rows').
Proof.
  intros [B1 W1 R1 P1 I1 D1] [B2 W2 R2 P2 I2 D2]. split.
  - intros u. rewrite B2, B1, ids_of_app. apply keep_app.
  - intros u i. rewrite ids_of_app, elem_of_app. intros [H|H]; [by apply W1|]. apply W2 in H. rewrite B1 in H.
    apply list_elem_of_fmap in H as (m & -> & [_ Hm]%elem_of_lfilter). apply list_elem_of_fmap. by exists m.
  - intros u m Hm. rewrite ids_of_app, elem_of_app. intros Hid.
    assert (∀ q, q ∈ peers_of rows u ∨ q ∈ peers_of rows' u → q ∈ peers_of (rows ++ rows') u) as Hq.
    { intros q. rewrite !peers_of_elem. setoid_rewrite elem_of_app. intros [(r & ? & ?)|(r & ? & ?)]; exists r; tauto. }
    apply Hq. destruct (decide (m_ID m ∈ ids_of rows u)) as [Hin|Hout]; [left; by apply R1|right].
    destruct Hid as [?|Hid]; [done|]. apply R2; [|done]. rewrite B1. apply elem_of_lfilter. split; [|done].
    unfold keep. by rewrite bool_decide_false.
  - congruence.
  - by eapply same_ids_trans.
  - congruence.
Qed.

Lemma removed_refl s : removed s s [].
Proof. split; try done; [intros u; by rewrite keep_nil|by intros u i ?%not_elem_of_nil|by intros u m _ ?%not_elem_of_nil]. Qed.

Lemma removed_ok s s' rows : removed s s' rows → store_ok s → store_ok s'.
Proof.
  intros [B W _ Pt (I1 & I2 & I3) _] Hok. apply (boxes_ok_ext (nextUID s) _ (nextBoxOf s) _ (λ u, List.filter (keep (ids_of rows u)) (boxOf s u))).
  - done.
  - intros u. unfold nextBoxOf. by rewrite I2.
  - intros u. by rewrite B.
  - apply (boxes_ok_sub _ _ (boxOf s)); [|done]. intros u. apply filter_sublist.
Qed.

Lemma delete_matching_spec limit f l : ∀ gone kept del more,
  delete_matching limit f gone l = (kept, del, more) → NoDup (m_ID <$> l) →
  Forall (λ m, f m = true ∧ m ∈ l) del ∧ kept = List.filter (keep (m_ID <$> del)) l.
Proof.
  induction l as [|m l IH]; intros gone kept del more E Hnd; cbn [delete_matching] in E.
  { injection E as <- <- <-. by split; [constructor|]. }
  rewrite fmap_cons in Hnd. apply NoDup_cons in Hnd as [Hm Hnd].
  assert (∀ g kept del more, delete_matching limit f g l = (kept, del, more) →
    Forall (λ m0, f m0 = true ∧ m0 ∈ m :: l) del ∧ m :: kept = List.filter (keep (m_ID <$> del)) (m :: l)) as Hkeep.
  { intros g k d mo E'. destruct (IH _ _ _ _ E' Hnd) as [Hd ->]. split.
    - eapply Forall_impl; [exact Hd|]. intros c [? ?]. split; [done|by right].
    - cbn [List.filter]. unfold keep at 2. rewrite bool_decide_false; [done|].
      intros (c & Hc & Hin)%list_elem_of_fmap. apply Hm. rewrite Forall_forall in Hd. apply list_elem_of_fmap. exists c.
      split; [done|]. by apply Hd. }
  destruct (f m) eqn:Ef; [destruct (_ && _)|].
  - destruct (delete_matching limit f gone l) as [[k d] mo] eqn:E'. injection E as <- <- <-. by eapply Hkeep.
  - destruct (delete_matching limit f (gone + 1) l) as [[k d] mo] eqn:E'. injection E as <- <- <-.
    destruct (IH _ _ _ _ E' Hnd) as [Hd ->]. split.
    + constructor; [split; [done|by left]|]. eapply Forall_impl; [exact Hd|]. intros c [? ?]. split; [done|by right].
    + rewrite fmap_cons. cbn [List.filter]. unfold keep at 2. rewrite bool_decide_true by by left.
      apply lfilter_ext. intros c Hc. unfold keep. f_equal. apply bool_decide_ext. rewrite elem_of_cons.
      split; [by right|]. intros [E|]; [|done]. exfalso. apply Hm. rewrite <- E. apply list_elem_of_fmap. by exists c.
  - destruct (delete_matching limit f gone l) as [[k d] mo] eqn:E'. injection E as <- <- <-. by eapply Hkeep.
Qed.

Lemma deleteMemoryMessagesLocked_spec u limit f s rows uids more s' :
  store_ok s → deleteMemoryMessagesLocked u limit f s = (rows, uids, more, s') →
  removed s s' rows ∧ ∃ del, rows = deleted_row u <$> del ∧ Forall (λ m, f m = true ∧ m ∈ boxOf s u) del
                            ∧ (∀ i, i ∈ uids → i ∈ (m_UID <$> del)).
Proof.
  intros Hok E. unfold deleteMemoryMessagesLocked in E.
  destruct (delete_matching limit f 0 (boxOf s u)) as [[k d] mo] eqn:E'. injection E as <- <- <- <-.
  destruct (delete_matching_spec _ _ _ _ _ _ _ E' (box_ids _ _ _ u Hok)) as [Hd ->]. split; [split; try done|].
  - intros v. rewrite boxOf_set_box, ids_of_rows, (Z.eqb_sym u v). destruct (Z.eqb_spec v u) as [->|]; [done|by rewrite keep_nil].
  - intros v i. rewrite ids_of_rows. destruct (Z.eqb_spec u v) as [->|]; [|by intros ?%not_elem_of_nil].
    intros (m & -> & Hm)%list_elem_of_fmap. rewrite Forall_forall in Hd. apply list_elem_of_fmap. exists m. split; [done|]. by apply Hd.
  - intros v m Hm. rewrite ids_of_rows. destruct (Z.eqb_spec u v) as [->|]; [|by intros ?%elem_of_nil].
    intros (c & Hid & Hc)%list_elem_of_fmap. rewrite Forall_forall in Hd. destruct (Hd c Hc) as [_ Hcb].
    assert (m = c) as -> by by eapply box_id_inj. apply peers_of_elem. exists (deleted_row v c).
    split; [by apply list_elem_of_fmap_2|done].
  - exists d. split_and!; [done|done|]. intros i [_ Hi]%elem_of_lfilter. done.
Qed.

Lemma ids_of_elem rows u i : i ∈ ids_of rows u ↔ ∃ r, r ∈ rows ∧ dr_userID r = u ∧ dr_id r = i.
Proof.
  unfold ids_of. rewrite list_elem_of_fmap. split.
  - intros (r & -> & [E%Z.eqb_eq Hr]%elem_of_lfilter). by exists r.
  - intros (r & Hr & <- & <-). exists r. split; [done|]. apply elem_of_lfilter. by rewrite Z.eqb_refl.
Qed.

Lemma deleteMemoryMessagesByUIDLocked_spec uids x s rows s' :
  store_ok s → deleteMemoryMessagesByUIDLocked uids x s = (rows, s') →
  removed s s' rows
  ∧ (∀ r, r ∈ rows → ∃ v m, v ≠ x ∧ m ∈ boxOf s v ∧ m_UID m ∈ uids ∧ r = deleted_row v m).
Proof.
  intros Hok E. unfold deleteMemoryMessagesByUIDLocked in E. injection E as <- <-.
  set (rows := mbind _ _).
  assert (∀ r, r ∈ rows ↔ ∃ v m, v ≠ x ∧ m ∈ boxOf s v ∧ shares_uid uids m = true ∧ r = deleted_row v m) as Hrows.
  { intros r. unfold rows. rewrite list_elem_of_bind. split.
    - intros ([v l] & Hr & Hl%elem_of_map_to_list). simpl in Hr. destruct (Z.eqb_spec v x) as [|Hv]; [by apply elem_of_nil in Hr|].
      apply list_elem_of_fmap in Hr as (m & -> & [Hs Hm]%elem_of_lfilter). exists v, m. split_and!; try done.
      unfold boxOf. by rewrite Hl.
    - intros (v & m & Hv & Hm & Hs & ->). unfold boxOf in Hm. destruct (boxes s !! v) as [l|] eqn:El; [|by apply elem_of_nil in Hm].
      exists (v, l). rewrite elem_of_map_to_list. split; [|done]. simpl. rewrite (proj2 (Z.eqb_neq _ _) Hv).
      apply list_elem_of_fmap. exists m. by rewrite elem_of_lfilter. }
  assert (∀ u m, m ∈ boxOf s u → m_ID m ∈ ids_of rows u ↔ u ≠ x ∧ shares_uid uids m = true) as Hids.
  { intros u m Hm. rewrite ids_of_elem. split.
    - intros (r & (v & c & Hv & Hc & Hs & ->)%Hrows & <- & Hid). simpl in *. assert (m = c) as -> by by eapply box_id_inj. done.
    - intros [Hu Hs]. exists (deleted_row u m). rewrite Hrows. split; [by exists u, m|done]. }
  split; [split; try done|].
  - intros u. unfold boxOf at 1. simpl. rewrite map_lookup_imap. unfold boxOf.
    destruct (boxes s !! u) as [l|] eqn:El; simpl; [|done].
    assert (∀ m, m ∈ l → m_ID m ∈ ids_of rows u ↔ u ≠ x ∧ shares_uid uids m = true) as Hl.
    { intros m Hm. apply Hids. unfold boxOf. by rewrite El. }
    destruct (Z.eqb_spec u x) as [->|Hu].
    + symmetry. apply lfilter_all, Forall_forall. intros m Hm. unfold keep. rewrite bool_decide_false; [done|].
      intros [? _]%Hl; done.
    + apply lfilter_ext. intros m Hm. unfold keep. f_equal. destruct (shares_uid uids m) eqn:Es.
      * by rewrite bool_decide_true by by apply Hl.
      * rewrite bool_decide_false; [done|]. intros [_ ?]%Hl; [congruence|done].
  - intros u i (r & (v & m & _ & Hm & _ & ->)%Hrows & <- & <-)%ids_of_elem. apply list_elem_of_fmap. by exists m.
  - intros u m Hm Hid. destruct (proj1 (Hids u m Hm) Hid) as [Hu Hs]. apply peers_of_elem. exists (deleted_row u m).
    split; [|done]. apply Hrows. by exists u, m.
  - intros r (v & m & Hv & Hm & Hs & ->)%Hrows. exists v, m. split_and!; try done. by apply bool_decide_eq_true in Hs.
Qed.

(** ** The owners are told *)

Lemma dedup_ids_elem seen ids i :
  i ∈ dedup_ids seen ids ↔ i ∈ ids ∧ 1 ≤ i ≤ MaxMessageBoxID ∧ i ∉ seen.
Proof.
  revert seen. induction ids as [|id ids IH]; intros seen; simpl; [by rewrite elem_of_nil; naive_solver|].
  destruct (Z.leb_spec id 0), (Z.ltb_spec MaxMessageBoxID id); simpl; rewrite ?IH, ?elem_of_cons;
    [split; [tauto|intros ([->|] & ? & ?); [lia|tauto]]..|].
  case_bool_decide as Hs; rewrite ?IH, ?elem_of_cons, ?IH, ?not_elem_of_cons.
  - split; [tauto|]. intros ([->|] & ? & ?); tauto.
  - split; [intros [->|(? & ? & ? & ?)]; split_and!; try tauto; lia|]. intros ([->|] & ? & ?); [by left|].
    destruct (decide (i = id)) as [->|]; [by left|]. right. tauto.
Qed.

Lemma normalize_elem ids i : i ∈ normalizeMemoryMessageIDs ids ↔ i ∈ ids ∧ 1 ≤ i ≤ MaxMessageBoxID.
Proof.
  unfold normalizeMemoryMessageIDs. rewrite sort_ids_elem, dedup_ids_elem.
  split; [tauto|]. intros [? ?]. split_and!; try lia; [done|]. apply not_elem_of_nil.
Qed.

Definition in_range_ids (ids : list Z) : Prop := ∀ i, i ∈ ids → 1 ≤ i ≤ MaxMessageBoxID.

Lemma client_deletes ids ids' e l :
  Type_ e = UpdateEventDeleteMessages → event_ids e = ids' → (∀ i, i ∈ ids ↔ i ∈ ids') →
  client_apply l e = List.filter (keep ids) l.
Proof. intros Ht He H. unfold client_apply. rewrite Ht, He. symmetry. by apply keep_ext. Qed.

Definition anchored u pts (anchor : option Message) l : list Message :=
  match anchor with Some a => (λ m, if m_ID m =? m_ID a then clear_copy u pts a else m) <$> l | None => l end.

Lemma anchored_client u pts a e l :
  Type_ e = UpdateEventEditMessage → event_message e = Some (clear_copy u pts a) →
  client_apply (seen <$> l) e = seen <$> anchored u pts (Some a) l.
Proof.
  intros Ht Hm. unfold client_apply. rewrite Ht, Hm. simpl. rewrite <- !list_fmap_compose.
  apply list_fmap_ext. intros _ m _. simpl. by destruct (m_ID m =? m_ID a).
Qed.

Definition item_events (item : option (DeletedMessagesForUser P)) : list event :=
  match item with Some i => deleted_Events i | None => [] end.

Lemma materialize_spec u cursor date a s es s' :
  store_ok s → a ∈ boxOf s u → materialize_anchor u cursor date a s = (es, s') →
  (∀ v, boxOf s' v = if v =? u then anchored u (cursor + 2) (Some a) (boxOf s u) else boxOf s v)
  ∧ same_ids s s' ∧ nextPts s' = nextPts s ∧ store_ok s'
  ∧ Forall (λ e, UserID e = u) es ∧ positions cursor es (cursor + 2)
  ∧ fold_left client_apply es (seen <$> boxOf s u) = seen <$> boxOf s' u.
Proof.
  intros Hok Ha E. unfold materialize_anchor in E. injection E as <- <-.
  set (msg := NewHistoryClearMessage _ _ _ _ _ _). set (s1 := set_box u _ s).
  destruct (forget_tag_core u (m_ID a) s1) as [Hc Hd]. set (s2 := forget_tag u (m_ID a) s1) in *.
  assert (∀ v, boxOf s2 v = if v =? u then anchored u (cursor + 2) (Some a) (boxOf s u) else boxOf s v) as Hb.
  { intros v. rewrite (core_boxOf _ _ v Hc). unfold s1. rewrite boxOf_set_box. destruct (v =? u); [|done].
    rewrite (replace_first_in (m_ID a) (m_Peer a)); [|by eapply box_ids|].
    - unfold anchored, clear_copy. by replace (cursor + 2) with (cursor + 1 + 1) by lia.
    - intros m Hm Hid. by rewrite (box_id_inj _ _ _ _ _ _ Hok Hm Ha Hid). }
  assert (same_ids s s2) as Hids by (by apply (core_same_ids s1 s2)).
  split_and!; try done.
  - by injection Hc as _ _ _ ->.
  - eapply boxes_ok_ext; [| | |eapply (boxes_ok_clear _ _ (boxOf s) (boxOf s2) u a (cursor + 2) Hok Ha)]; try done.
    + by rewrite (proj1 Hids).
    + intros v. unfold nextBoxOf. by rewrite (proj1 (proj2 Hids)).
    + by rewrite Hb, Z.eqb_refl.
    + intros v Hv. by rewrite Hb, (proj2 (Z.eqb_neq _ _) Hv).
  - by repeat constructor.
  - simpl. lia.
  - rewrite Hb, Z.eqb_refl. cbn [fold_left]. apply anchored_client; [done|].
    unfold event_message. simpl. unfold msg, clear_copy. by replace (cursor + 2) with (cursor + 1 + 1) by lia.
Qed.

Definition anchor_in (anchors : gmap Z (memoryHistoryClearAnchor (P := P))) s u : Prop :=
  ∀ a, anchors !! u = Some a → ha_message a ∈ boxOf s u.

Lemma finish_dialogs u ps (anchor : option Message) s :
  let s' := fold_left (rebuildMemoryDialogLocked u) ps s in
  let s' := match anchor with Some a => advanceMemoryHistoryClearDialogLocked u (m_Peer a) (m_ID a) s' | None => s' end in
  core s' = core s ∧ privateSendDedup s' = privateSendDedup s.
Proof. cbv zeta. destruct (rebuilds_core u ps s) as [Hc Hd]. by destruct anchor. Qed.

(** One owner's turn: the messages are gone from its box already. *)
Definition told u (ids : list Z) s s' (es : list event) : Prop :=
  Forall (λ e, UserID e = u) es ∧ positions (nextPtsOf s u) es (nextPtsOf s' u)
  ∧ ∀ l, List.filter (keep ids) l = seen <$> boxOf s u → fold_left client_apply es l = seen <$> boxOf s' u.

Definition deletion_event u base date (ids : list Z) : option event :=
  if 0 <? Z.of_nat (length ids) then
    Some (mkEvent UpdateEventDeleteMessages u (base + Z.of_nat (length ids)) (Z.of_nat (length ids)) date None no_peer false 0 0 ids)
  else None.

Lemma deletion_told u base date ids ids' : (∀ i, i ∈ ids' ↔ i ∈ ids) →
  Forall (λ e, UserID e = u) (option_list (deletion_event u base date ids))
  ∧ positions base (option_list (deletion_event u base date ids)) (base + Z.of_nat (length ids))
  ∧ ∀ l, fold_left client_apply (option_list (deletion_event u base date ids)) l = List.filter (keep ids') l.
Proof.
  intros Hids. unfold deletion_event. destruct (Z.ltb_spec 0 (Z.of_nat (length ids))) as [Hn|Hn]; simpl.
  - split_and!; [by repeat constructor|lia|lia|lia|]. intros l. apply (client_deletes ids' ids); [done| |done].
    unfold event_ids. simpl. by destruct ids.
  - split_and!; [constructor|lia|]. intros l. rewrite <- (keep_nil l) at 1. apply keep_ext. intros i.
    rewrite Hids. destruct ids; [done|simpl in Hn; lia].
Qed.

(** The events of [es0] delete and those of [es1] materialize the anchor. *)
Lemma told_app u ids s s1 s2 s' es0 es1 lo mid :
  Forall (λ e, UserID e = u) es0 → positions lo es0 mid → (∀ l, fold_left client_apply es0 l = List.filter (keep ids) l) →
  Forall (λ e, UserID e = u) es1 → positions mid es1 (nextPtsOf s' u) →
  fold_left client_apply es1 (seen <$> boxOf s1 u) = seen <$> boxOf s2 u →
  nextPtsOf s u = lo → boxOf s1 u = boxOf s u → boxOf s' u = boxOf s2 u → told u ids s s' (es0 ++ es1).
Proof.
  intros U0 P0 A0 U1 P1 A1 <- Hb1 Hb'. split_and!; [by apply Forall_app|by eapply positions_app|].
  intros l Hl. rewrite fold_left_app, A0, Hl, <- Hb1, A1. by rewrite Hb'.
Qed.

Lemma core_trans_ids s s' : core s' = core s → nextUID s' = nextUID s ∧ nextBox s' = nextBox s.
Proof. by intros [= _ ? ? _]. Qed.

Section finish.
Context (deleted : list deletedMemoryMessage) (date : Z) (anchors : gmap Z (memoryHistoryClearAnchor (P := P))).

Let open_anchor u : option Message := a ← anchors !! u; if ha_materialized a then None else Some (ha_message a).

(** What is left when the position is allocated and the deletion is told. *)
Lemma finish_anchor u (cursor : Z) (anchor : option Message) ps s :
  store_ok s → (∀ a, anchor = Some a → a ∈ boxOf s u) →
  ∃ es s3, (match anchor with
            | Some a => let '(es, s) := materialize_anchor u cursor date a s in (cursor + 2, es, s)
            | None => (cursor, [], s)
            end) = (cursor + match anchor with Some _ => 2 | None => 0 end, es, s3)
    ∧ let s4 := fold_left (rebuildMemoryDialogLocked u) ps s3 in
      let s4 := match anchor with Some a => advanceMemoryHistoryClearDialogLocked u (m_Peer a) (m_ID a) s4 | None => s4 end in
      store_ok s4 ∧ same_ids s s4 ∧ nextPts s4 = nextPts s ∧ (∀ v, v ≠ u → boxOf s4 v = boxOf s v)
      ∧ Forall (λ e, UserID e = u) es ∧ positions cursor es (cursor + match anchor with Some _ => 2 | None => 0 end)
      ∧ fold_left client_apply es (seen <$> boxOf s u) = seen <$> boxOf s4 u.
Proof.
  intros Hok Ha. destruct anchor as [a|].
  - destruct (materialize_anchor u cursor date a s) as [es s3] eqn:Em. exists es, s3. split; [done|].
    destruct (materialize_spec _ _ _ _ _ _ _ Hok (Ha a eq_refl) Em) as (Hb & Hi & Hp & Hok3 & HU & HP & HA).
    destruct (finish_dialogs u ps (Some a) s3) as [Hc Hd]. cbv zeta in Hc, Hd |- *. set (s4 := advanceMemoryHistoryClearDialogLocked _ _ _ _) in *.
    split_and!; try done.
    + by apply (core_ok s3).
    + eapply same_ids_trans; [exact Hi|]. by apply core_same_ids.
    + rewrite <- Hp. exact (f_equal snd Hc).
    + intros v Hv. by rewrite (core_boxOf _ _ v Hc), Hb, (proj2 (Z.eqb_neq _ _) Hv).
    + by rewrite (core_boxOf _ _ u Hc).
  - exists [], s. split; [by rewrite Z.add_0_r|]. destruct (finish_dialogs u ps None s) as [Hc Hd]. cbv zeta in Hc, Hd |- *.
    set (s4 := fold_left _ _ _) in *. split_and!; try done.
    + by apply (core_ok s).
    + by apply core_same_ids.
    + exact (f_equal snd Hc).
    + intros v _. apply (core_boxOf _ _ v Hc).
    + simpl. lia.
    + by rewrite (core_boxOf _ _ u Hc).
Qed.

Lemma finish_owner_spec u s :
  store_ok s → in_range_ids (ids_of deleted u) → anchor_in anchors s u →
  ∃ item s', finish_owner deleted date anchors u s = Some (item, s')
    ∧ store_ok s' ∧ receipts_kept s s' ∧ nextUID s' = nextUID s ∧ nextBox s' = nextBox s
    ∧ (∀ v, v ≠ u → boxOf s' v = boxOf s v ∧ nextPtsOf s' v = nextPtsOf s v)
    ∧ told u (ids_of deleted u) s s' (item_events item).
Proof.
  intros Hok Hr Ha. unfold finish_owner. cbv zeta. fold (ids_of deleted u). fold (open_anchor u).
  set (ids := normalizeMemoryMessageIDs (ids_of deleted u)).
  assert (∀ i, i ∈ ids_of deleted u ↔ i ∈ ids) as Hids.
  { intros i. unfold ids. rewrite normalize_elem. split; [intros Hi; split; [done|by apply Hr]|tauto]. }
  assert (∀ a, open_anchor u = Some a → a ∈ boxOf s u) as Hanchor.
  { intros a. unfold open_anchor. destruct (anchors !! u) as [x|] eqn:Ex; [|done]. simpl. destruct (ha_materialized x); [done|].
    intros [= <-]. by apply Ha. }
  set (ps := remove_dups _). set (anchor := open_anchor u) in *. clearbody anchor ps ids.
  set (more := match anchor with Some _ => 2 | None => 0 end). set (total := Z.of_nat (length ids) + more).
  destruct (Z.eqb_spec total 0) as [E0|E0].
  { assert (ids = [] ∧ anchor = None) as [Eids ->] by (unfold total, more in E0; destruct anchor, ids; simpl in E0; try lia; done).
    exists None, s. split_and!; try done; [by apply receipts_kept_eq|]. split_and!; [constructor|simpl; lia|].
    intros l <-. simpl. rewrite <- (keep_nil l) at 1. apply keep_ext. intros i. by rewrite Hids, Eids. }
  unfold nextPtsNLocked. assert (0 ≤ more) by (unfold more; destruct anchor; lia).
  rewrite (proj2 (Z.leb_gt total 0)) by lia. cbv beta iota zeta.
  set (s1 := set_nextPts _ s). set (base := nextPtsOf s u). replace (base + total - total) with base by lia.
  set (s2 := match deletion_event u base date ids with Some e => fold_left (note_deletion u e) deleted s1 | None => s1 end).
  match goal with |- context [if 0 <? Z.of_nat (length ids) then ?x else _] => set (d := x) end.
  assert ((if 0 <? Z.of_nat (length ids) then d else (base, None, s1)) = (base + Z.of_nat (length ids), deletion_event u base date ids, s2)) as ->.
  { unfold d, s2, deletion_event. destruct (Z.ltb_spec 0 (Z.of_nat (length ids))); [done|]. repeat f_equal. lia. }
  assert (core s2 = core s1 ∧ receipts_kept s1 s2) as [Hc2 Hk2].
  { unfold s2. destruct (deletion_event u base date ids); [apply notes_kept|split; [done|by apply receipts_kept_eq]]. }
  assert (store_ok s2) as Hok2 by (by apply (core_ok s1)).
  assert (∀ v, boxOf s2 v = boxOf s v) as Hb2 by (intros v; by rewrite (core_boxOf _ _ v Hc2)).
  destruct (finish_anchor u (base + Z.of_nat (length ids)) anchor ps s2 Hok2) as (es & s3 & -> & Hok4 & Hi4 & Hp4 & Hb4 & HU & HP & HA).
  { intros a Ea. rewrite Hb2. by apply Hanchor. }
  fold more in HP |- *. match type of HA with _ = seen <$> boxOf ?t u => set (s4 := t) in * end.
  rewrite (proj2 (Z.eqb_eq (base + Z.of_nat (length ids) + more) (base + total))) by lia. cbn [negb].
  assert (∀ v, nextPtsOf s4 v = if v =? u then base + total else nextPtsOf s v) as Hpts.
  { intros v. unfold nextPtsOf at 1. rewrite Hp4. change (nextPtsOf s2 v = if v =? u then base + total else nextPtsOf s v).
    rewrite (core_nextPts _ _ v Hc2). apply nextPtsOf_set. }
  destruct (core_trans_ids _ _ Hc2) as [Eu2 En2]. destruct Hi4 as (Eu4 & En4 & Ed4).
  eexists _, s4. split; [done|]. split; [done|]. split.
  { eapply receipts_kept_trans; [exact (Hk2 : receipts_kept s s2)|by apply receipts_kept_eq]. }
  split; [exact (eq_trans Eu4 Eu2)|]. split; [exact (eq_trans En4 En2)|]. split.
  - intros v Hv. rewrite Hb4, Hb2, Hpts, (proj2 (Z.eqb_neq _ _) Hv) by done. done.
  - destruct (deletion_told u base date ids (ids_of deleted u) Hids) as (U0 & P0 & A0).
    change (item_events _) with (option_list (deletion_event u base date ids) ++ es).
    eapply told_app; [exact U0|exact P0|exact A0|exact HU| |exact HA|done|by rewrite Hb2|done].
    rewrite Hpts, Z.eqb_refl. by replace (base + total) with (base + Z.of_nat (length ids) + more) by lia.
Qed.

Definition delete_events (items : list (DeletedMessagesForUser P)) : list event := items ≫= deleted_Events.

Lemma finish_owners_spec owners : ∀ s,
  store_ok s → (∀ u, in_range_ids (ids_of deleted u)) → (∀ u, u ∈ owners → anchor_in anchors s u) → NoDup owners →
  ∃ items s', finish_owners deleted date anchors owners s = Some (items, s')
    ∧ store_ok s' ∧ receipts_kept s s' ∧ nextUID s' = nextUID s ∧ nextBox s' = nextBox s
    ∧ (∀ u, u ∈ owners → told u (ids_of deleted u) s s' (ev_for u (delete_events items)))
    ∧ (∀ u, u ∉ owners → boxOf s' u = boxOf s u ∧ nextPtsOf s' u = nextPtsOf s u ∧ ev_for u (delete_events items) = []).
Proof.
  induction owners as [|u owners IH]; intros s Hok Hr Ha Hnd; cbn [finish_owners].
  { exists [], s. split_and!; try done; [by apply receipts_kept_eq|]. by intros u ?%not_elem_of_nil. }
  apply NoDup_cons in Hnd as [Hu Hnd].
  destruct (finish_owner_spec u s Hok (Hr u) (Ha u ltac:(by left))) as (item & s1 & -> & Hok1 & Hk1 & Eu1 & En1 & Hv1 & Ht1).
  destruct (IH s1 Hok1 Hr) as (items & s2 & E2 & Hok2 & Hk2 & Eu2 & En2 & Hin2 & Hout2); [|done|].
  { intros v Hv a Ea. destruct (Hv1 v) as [-> _]; [by intros ->|]. apply (Ha v); [by right|done]. }
  cbn [mbind option_bind]. rewrite E2. eexists _, s2. split; [done|]. split; [done|].
  split; [by eapply receipts_kept_trans|]. split; [congruence|]. split; [congruence|].
  assert (delete_events (match item with Some i => i :: items | None => items end) = item_events item ++ delete_events items) as ->
    by by destruct item.
  destruct Ht1 as (HU & HP & HA). split.
  - intros v Hv. rewrite ev_for_app. destruct (decide (v = u)) as [->|Hne].
    + destruct (Hout2 u Hu) as (Eb & Ep & Ee). rewrite Ee, app_nil_r, (ev_for_all u _ HU). unfold told. rewrite Ep, Eb. by split_and!.
    + rewrite (ev_for_none u v) by done. destruct (Hv1 v Hne) as [Eb Ep]. apply elem_of_cons in Hv as [?|Hv]; [done|].
      specialize (Hin2 v Hv). unfold told in *. rewrite <- Eb, <- Ep. done.
  - intros v [Hne Hv]%not_elem_of_cons. destruct (Hout2 v Hv) as (Eb & Ep & Ee). destruct (Hv1 v Hne) as [Eb1 Ep1].
    rewrite ev_for_app, (ev_for_none u v), Ee by done. split_and!; [by rewrite Eb|by rewrite Ep|done].
Qed.

Lemma finishMemoryDeleteLocked_spec s s1 :
  store_ok s → (∀ u, nextBoxOf s u ≤ MaxMessageBoxID) → removed s s1 deleted → (∀ u, anchor_in anchors s1 u) →
  ∃ items s', finishMemoryDeleteLocked deleted date anchors s1 = Some (items, s')
    ∧ store_ok s' ∧ receipts_kept s s' ∧ nextUID s' = nextUID s ∧ nextBox s' = nextBox s
    ∧ delivered s s' (delete_events items).
Proof.
  intros Hok Hmax Hrm Ha. unfold finishMemoryDeleteLocked. cbv zeta.
  destruct (forget_tags_core deleted s1) as [Hc Hd]. set (s2 := fold_left _ deleted s1) in *.
  pose proof (removed_ok _ _ _ Hrm Hok) as Hok1. destruct Hrm as [B W _ Pt (I1 & I2 & I3) _].
  destruct (core_trans_ids _ _ Hc) as [Eu2 En2].
  set (owners := sort_ids _).
  destruct (finish_owners_spec owners s2) as (items & s' & E & Hok' & Hk & Eu & En & Hin & Hout).
  - by apply (core_ok s1).
  - intros u i Hi%W. apply list_elem_of_fmap in Hi as (m & -> & Hm). pose proof (message_in_ok s u m Hok Hm) as [Hid _ _ _ _ _ _].
    specialize (Hmax u). lia.
  - intros u _ a Ea. rewrite (core_boxOf _ _ u Hc). by apply Ha.
  - unfold owners, sort_ids. rewrite merge_sort_Permutation. apply NoDup_remove_dups.
  - exists items, s'. split; [exact E|]. split; [done|]. split.
    { eapply receipts_kept_trans; [apply receipts_kept_eq; exact (eq_trans Hd I3)|done]. }
    split; [congruence|]. split; [congruence|]. intros u.
    assert (nextPtsOf s2 u = nextPtsOf s u) as Ep by (rewrite (core_nextPts _ _ u Hc); unfold nextPtsOf; by rewrite Pt).
    unfold replay. destruct (decide (u ∈ owners)) as [Hu|Hu].
    + destruct (Hin u Hu) as (_ & HP & HA). rewrite <- Ep. split; [|done]. symmetry. apply HA.
      by rewrite keep_seen, (core_boxOf _ _ u Hc), B.
    + destruct (Hout u Hu) as (-> & -> & ->). rewrite Ep, (core_boxOf _ _ u Hc), B. simpl. split; [|lia].
      assert (ids_of deleted u = []) as ->; [|by rewrite keep_nil].
      unfold ids_of. rewrite lfilter_none; [done|]. apply Forall_forall. intros r Hr. apply Z.eqb_neq. intros E'. apply Hu.
      unfold owners. rewrite sort_ids_elem, elem_of_remove_dups, elem_of_app. left. rewrite <- E'. apply list_elem_of_fmap. by exists r.
Qed.
End finish.

Definition deletion_events (r : DeleteMessagesResult P) : list event := delete_events (Deleted r).

Lemma DeleteMessages_cases now req s : store_ok s →
  (∃ r, DeleteMessages now req s = Some (r, s) ∧ match r with OK r => Deleted r = [] | ERR _ => True end)
  ∨ ∃ rows date s1, removed s s1 rows ∧ DeleteMessages now req s
      = ('(items, s') ← finishMemoryDeleteLocked rows date ∅ s1; Some (OK {| Deleted := items; Offset := 0 |}, s')).
Proof.
  intros Hok. unfold DeleteMessages. cbv zeta. destruct (_ || _); [left; by eexists|]. destruct (_ <? _); [left; by eexists|]. right.
  destruct (deleteMemoryMessagesLocked _ _ _ _) as [[[rows uids] more] s1] eqn:E1.
  destruct (deleteMemoryMessagesLocked_spec _ _ _ _ _ _ _ _ Hok E1) as [Hrm1 _].
  destruct (if _ : bool then deleteMemoryMessagesByUIDLocked _ _ s1 else _) as [others s2] eqn:E2.
  exists (rows ++ others), (if dm_Date req =? 0 then now else dm_Date req), s2. split; [|done]. eapply removed_app; [exact Hrm1|].
  destruct (_ && _); [|injection E2 as <- <-; apply removed_refl].
  by destruct (deleteMemoryMessagesByUIDLocked_spec _ _ _ _ _ (removed_ok _ _ _ Hrm1 Hok) E2).
Qed.

Lemma DeleteMessages_spec now req s :
  store_ok s → (∀ u, nextBoxOf s u ≤ MaxMessageBoxID) →
  ∃ r s', DeleteMessages now req s = Some (r, s')
    ∧ store_ok s' ∧ receipts_kept s s' ∧ nextUID s' = nextUID s ∧ nextBox s' = nextBox s
    ∧ delivered s s' (match r with OK r => deletion_events r | ERR _ => [] end).
Proof.
  intros Hok Hmax. destruct (DeleteMessages_cases now req s Hok) as [(r & -> & Hr)|(rows & date & s1 & Hrm & ->)].
  - exists r, s. split; [done|]. split_and!; try done; [by apply receipts_kept_eq|]. unfold deletion_events.
    destruct r as [r|]; [rewrite Hr|]; apply delivered_refl.
  - destruct (finishMemoryDeleteLocked_spec rows date ∅ s s1) as (items & s' & -> & H); [done|done|done|by intros u a|].
    cbn. by eexists _, s'.
Qed.

(** ** Anchors *)

Lemma clear_anchor_in u p s a : memoryHistoryClearAnchorLocked s u p = Some a → ha_message a ∈ boxOf s u.
Proof.
  unfold memoryHistoryClearAnchorLocked. cbv zeta.
  set (f := λ (top : option Message) m, if bool_decide (m_Peer m = p) && (default 0 (m_ID <$> top) <? m_ID m) then Some m else top).
  assert (∀ l top m, fold_left f l top = Some m → m ∈ l ∨ top = Some m) as H.
  { induction l as [|c l IH]; intros top m; simpl; [by right|]. intros [Hm|Hm]%IH; [left; by right|].
    unfold f in Hm. destruct (_ && _); [|by right]. injection Hm as ->. left. by left. }
  destruct (fold_left f (boxOf s u) None) as [top|] eqn:E; [|done]. intros [= <-]. simpl. by destruct (H _ _ _ E).
Qed.

Lemma add_anchor_in s u p anchors v : anchor_in anchors s v → anchor_in (add_anchor s u p anchors) s v.
Proof.
  intros H a. unfold add_anchor. destruct (memoryHistoryClearAnchorLocked s u p) as [x|] eqn:Ex; [|apply H].
  destruct (decide (v = u)) as [->|Hne]; [|rewrite lookup_insert_ne by done; apply H].
  rewrite lookup_insert_eq. intros [= <-]. by eapply clear_anchor_in.
Qed.

Lemma anchor_kept anchors u limit f s rows uids more s' v :
  store_ok s → deleteMemoryMessagesLocked u limit f s = (rows, uids, more, s') →
  (∀ m, f m = true → is_anchor anchors u m = false) → anchor_in anchors s v → anchor_in anchors s' v.
Proof.
  intros Hok E Hf Ha a Ea. destruct (deleteMemoryMessagesLocked_spec _ _ _ _ _ _ _ _ Hok E) as ([B _ _ _ _ _] & del & -> & Hd & _).
  rewrite B. apply elem_of_lfilter. split; [|by apply Ha]. unfold keep. rewrite bool_decide_false; [done|].
  rewrite ids_of_rows. destruct (Z.eqb_spec u v) as [->|]; [|apply not_elem_of_nil].
  intros (m & Hm & Hin)%list_elem_of_fmap. rewrite Forall_forall in Hd. destruct (Hd m Hin) as [Hfm%Hf _].
  unfold is_anchor in Hfm. rewrite Ea in Hfm. apply Z.eqb_neq in Hfm. congruence.
Qed.

Definition history_anchors (req : DeleteHistoryRequest) s : gmap Z (memoryHistoryClearAnchor (P := P)) :=
  if dh_JustClear req && (dh_MaxID req <=? 0) && (dh_MinDate req <=? 0) && (dh_MaxDate req <=? 0) then
    let a := add_anchor s (dh_OwnerUserID req) (dh_Peer req) ∅ in
    if dh_Revoke req && negb (peer_ID (dh_Peer req) =? dh_OwnerUserID req)
    then add_anchor s (peer_ID (dh_Peer req)) (user_peer (dh_OwnerUserID req)) a else a
  else ∅.

Lemma history_anchors_in req s u : anchor_in (history_anchors req s) s u.
Proof.
  unfold history_anchors. destruct (_ && _ && _ && _); [|done]. cbv zeta.
  destruct (_ && _); repeat apply add_anchor_in; done.
Qed.

Lemma history_anchors_bounded req s : 0 < dh_MaxID req → history_anchors req s = ∅.
Proof. intros H. unfold history_anchors. rewrite (proj2 (Z.leb_gt (dh_MaxID req) 0)) by lia. by rewrite andb_false_r. Qed.

Lemma DeleteHistory_cases now req s : store_ok s →
  (∃ r, DeleteHistory now req s = Some (r, s) ∧ Deleted r = [])
  ∨ ∃ rows date off s1, removed s s1 rows ∧ (∀ u, anchor_in (history_anchors req s) s1 u) ∧ DeleteHistory now req s
      = ('(items, s') ← finishMemoryDeleteLocked rows date (history_anchors req s) s1; Some ({| Deleted := items; Offset := off |}, s')).
Proof.
  intros Hok. unfold DeleteHistory. cbv zeta. destruct (_ || _); [left; by eexists|]. right.
  fold (history_anchors req s). set (anchors := history_anchors req s).
  pose proof (history_anchors_in req s) as Ha. fold anchors in Ha.
  destruct (deleteMemoryMessagesLocked _ _ _ _) as [[[rows1 uids] more] s1] eqn:E1.
  destruct (deleteMemoryMessagesLocked_spec _ _ _ _ _ _ _ _ Hok E1) as [Hrm1 _].
  assert (∀ v, anchor_in anchors s1 v) as Ha1.
  { intros v. eapply (anchor_kept anchors _ _ _ _ _ _ _ _ v Hok E1); [|done]. intros m Hm. rewrite !andb_true_iff in Hm.
    by apply negb_true_iff, Hm. }
  destruct (if dh_Revoke req && (0 <? dh_MaxID req) && _ then _ else _) as [rows2 s2] eqn:E2.
  assert (removed s s2 rows2 ∧ ∀ v, anchor_in anchors s2 v) as [Hrm2 Ha2].
  { destruct (dh_Revoke req && (0 <? dh_MaxID req) && _) eqn:Ec; [|by injection E2 as <- <-].
    rewrite !andb_true_iff in Ec. destruct Ec as [[_ Hpos%Z.ltb_lt] _].
    destruct (deleteMemoryMessagesByUIDLocked _ _ _) as [others s2'] eqn:E2'. injection E2 as <- <-.
    destruct (deleteMemoryMessagesByUIDLocked_spec _ _ _ _ _ (removed_ok _ _ _ Hrm1 Hok) E2') as [Hrm' _].
    split; [by eapply removed_app|]. intros v a. unfold anchors. by rewrite history_anchors_bounded by done. }
  destruct (if dh_Revoke req && (dh_MaxID req <=? 0) && _ then _ else _) as [[rows3 more3] s3] eqn:E3.
  assert (removed s s3 rows3 ∧ ∀ v, anchor_in anchors s3 v) as [Hrm3 Ha3].
  { destruct (dh_Revoke req && (dh_MaxID req <=? 0) && _); [|by injection E3 as <- <- <-].
    destruct (deleteMemoryMessagesLocked (peer_ID (dh_Peer req)) _ _ s2) as [[[others uids'] more'] s3'] eqn:E3'.
    injection E3 as <- <- <-. pose proof (removed_ok _ _ _ Hrm2 Hok) as Hok2.
    destruct (deleteMemoryMessagesLocked_spec _ _ _ _ _ _ _ _ Hok2 E3') as [Hrm' _]. split; [by eapply removed_app|].
    intros v. eapply (anchor_kept anchors _ _ _ _ _ _ _ _ v Hok2 E3'); [|done]. intros m Hm. rewrite !andb_true_iff in Hm.
    by apply negb_true_iff, Hm. }
  by eexists rows3, _, _, s3.
Qed.

Lemma DeleteHistory_spec now req s :
  store_ok s → (∀ u, nextBoxOf s u ≤ MaxMessageBoxID) →
  ∃ r s', DeleteHistory now req s = Some (r, s')
    ∧ store_ok s' ∧ receipts_kept s s' ∧ nextUID s' = nextUID s ∧ nextBox s' = nextBox s
    ∧ delivered s s' (deletion_events r).
Proof.
  intros Hok Hmax. destruct (DeleteHistory_cases now req s Hok) as [(r & -> & Hr)|(rows & date & off & s1 & Hrm & Ha & ->)].
  - exists r, s. split; [done|]. split_and!; try done; [by apply receipts_kept_eq|]. unfold deletion_events. rewrite Hr. apply delivered_refl.
  - destruct (finishMemoryDeleteLocked_spec rows date (history_anchors req s) s s1) as (items & s' & -> & H); [done..|].
    cbn. by eexists _, s'.
Qed.
End delete.
