(* ===== verification/MessagesSteps.v ===== *)
(** Sends, forwards and pins, and what every operation has in common: it keeps
    the invariant of the boxes, its events say what it did, and no receipt is
    lost. *)

From S2P Require Import Prelude GoStrings Updates Messages MessagesInv MessagesBox MessagesOps MessagesDelete.

Open Scope Z_scope.

#[local] Set Default Proof Using "Type".

Section steps.
Context {P Bytes : Type} `{!Codecs P Bytes} `{!EqDecision P}.

Abbreviation Message := (Message P).
Abbreviation event := (event P).
Abbreviation store := (@MessageStore P Bytes).
Implicit Types (m c : Message) (u v id uid pts : Z) (p : Peer) (s : store) (l : list Message) (e : event).

(** What an operation that returns the events [es] does to a good store. *)
Record step_ok s s' (es : list event) : Prop := {
  st_ok : store_ok s';
  st_delivered : delivered s s' es;
  st_receipts : receipts_kept s s';
  st_next u : nextBoxOf s u ≤ nextBoxOf s' u;
}.

Lemma step_refl s : store_ok s → step_ok s s [].
Proof. intros H. split; [done|apply delivered_refl|by apply receipts_kept_eq|done]. Qed.

Lemma step_app s s' s'' es es' : step_ok s s' es → step_ok s' s'' es' → step_ok s s'' (es ++ es').
Proof.
  intros [O1 D1 R1 N1] [O2 D2 R2 N2]. split; [done|by eapply delivered_app|by eapply receipts_kept_trans|].
  intros u. specialize (N1 u). specialize (N2 u). lia.
Qed.

Lemma step_same s s' es : store_ok s' → delivered s s' es → nextBox s' = nextBox s → receipts_kept s s' → step_ok s s' es.
Proof. intros H1 H2 H3 H4. split; try done. intros u. unfold nextBoxOf. by rewrite H3. Qed.

Lemma boxes_boxOf s s' u : boxes s' = boxes s → boxOf s' u = boxOf s u.
Proof. intros E. unfold boxOf. by rewrite E. Qed.

Lemma boxes_store_ok s s' : boxes s' = boxes s → same_ids s s' → store_ok s → store_ok s'.
Proof.
  intros E (I1 & I2 & _). apply boxes_ok_ext; [done|intros u; unfold nextBoxOf; by rewrite I2|].
  intros u. symmetry. by apply boxes_boxOf.
Qed.

(** ** Sending *)

Lemma lookup_duplicate s u v random fp r :
  lookupPrivateSendReplayLocked s u v random fp = OK (Some r) → Duplicate r = true.
Proof.
  unfold lookupPrivateSendReplayLocked. destruct (privateSendDedup s !! (u, random)) as [rec|]; [|done].
  destruct (_ || _); [done|]. intros (first & _ & H)%bind_OK. cbv zeta in H.
  destruct (List.find _ _), (dd_senderDeleteEvent rec); try done; by injection H as <-.
Qed.

Lemma lookup_absent s u v random fp :
  lookupPrivateSendReplayLocked s u v random fp = OK None → privateSendDedup s !! (u, random) = None.
Proof.
  unfold lookupPrivateSendReplayLocked. destruct (privateSendDedup s !! (u, random)) as [rec|]; [|done].
  destruct (_ || _); [done|]. intros (first & _ & H)%bind_OK. cbv zeta in H.
  by destruct (List.find _ _), (dd_senderDeleteEvent rec).
Qed.

Lemma append_prefix_dedup (req : SendPrivateTextRequest P) es s : privateSendDedup (append_prefix req es s) = privateSendDedup s.
Proof. revert s. induction es as [|e es IH]; intros s; simpl; [done|]. destruct (_ =? _); by rewrite IH. Qed.

Lemma sendPrivateTextLocked_step now req fp prefix apply s r es s' :
  store_ok s → harmless prefix apply s → sendPrivateTextLocked now req fp prefix apply s = OK (r, es, s') →
  step_ok s s' (es ++ send_events r).
Proof.
  intros Hok Hh E. destruct (send_locked_cases _ _ _ _ _ _ _ _ _ E) as [(El & -> & ->)|[El Hf]].
  - unfold send_events. rewrite (lookup_duplicate _ _ _ _ _ _ El). by apply step_refl.
  - destruct (fresh_send_spec _ _ _ _ _ _ _ _ Hok Hh Hf) as [H1 H2].
    destruct (fresh_send_kind _ _ _ _ _ _ _ _ Hok Hf) as (alloc & receipt & _ & Hk & -> & Hid & Ho & Hnew & _ & _).
    pose proof (bo_next _ _ _ Hok (sr_SenderUserID req)).
    assert (m_ID (SenderMessage r) ≠ 0) as Hid0 by lia. split; try done.
    + intros k rec Hrec. exists rec. split; [|by split_and!].
      rewrite (commit_dedup req alloc (SenderMessage r) (RecipientMessage r) receipt _), append_prefix_dedup, (hl_dedup _ _ _ Hh).
      destruct receipt as [rc|]; [|done]. rewrite lookup_insert_ne; [done|]. intros <-. apply lookup_absent in El. congruence.
    + intros u. destruct (commit_counters req alloc (SenderMessage r) (RecipientMessage r) receipt (append_prefix req es (apply es s)) Hk Hid0 Ho) as (_ & _ & ->).
      destruct (sent_copies req _ _ u) as [m|] eqn:Em; [destruct (Hnew u m Em) as (_ & -> & _); lia|].
      rewrite (core_nextBox _ _ u (append_prefix_core _ _ _)). unfold nextBoxOf. by rewrite (hl_next _ _ _ Hh).
Qed.

Lemma SendPrivateText_step now req s r s' :
  store_ok s → SendPrivateText now req s = (r, s') → step_ok s s' (match r with OK r => send_events r | ERR _ => [] end).
Proof.
  intros Hok E. unfold SendPrivateText in E. destruct (negb _); [injection E as <- <-; by apply step_refl|].
  destruct (PrivateSendFingerprint req) as [fp|]; cbn [mbind res_bind] in E; [|injection E as <- <-; by apply step_refl].
  destruct (sendPrivateTextLocked now req fp [] (λ _ s, s) s) as [[[r0 es] s0]|] eqn:Es;
    [|injection E as <- <-; by apply step_refl]. injection E as <- <-.
  assert (es = []) as ->.
  { destruct (send_locked_cases _ _ _ _ _ _ _ _ _ Es) as [(_ & -> & _)|[_ Hf]]; [done|]. inversion Hf as [????? alloc0 ????? Hst]; subst.
    by injection Hst. }
  by apply (sendPrivateTextLocked_step now req fp [] (λ _ s, s) s r0 [] s0 Hok (harmless_nil s Hok)).
Qed.

Definition forward_events (rs : list (SendPrivateTextResult P)) : list event := rs ≫= send_events.

Lemma forward_each_step now req date items : ∀ s rs err s',
  store_ok s → forward_each now req date items s = (rs, err, s') → step_ok s s' (forward_events rs).
Proof.
  induction items as [|[source [id random]] items IH]; intros s rs err s' Hok E; cbn [forward_each] in E.
  { injection E as <- <- <-. by apply step_refl. }
  destruct (random =? 0); [injection E as <- <- <-; by apply step_refl|].
  destruct (SendPrivateText now (forward_request req date source id random) s) as [r s1] eqn:E1.
  apply SendPrivateText_step in E1; [|done]. destruct r as [r|].
  - destruct (forward_each now req date items s1) as [[rs2 err2] s2] eqn:E2. injection E as <- <- <-.
    change (forward_events (r :: rs2)) with (send_events r ++ forward_events rs2).
    eapply step_app; [exact E1|]. eapply IH; [|exact E2]. apply E1.
  - by injection E as <- <- <-.
Qed.

Lemma ForwardPrivateMessages_step now req s rs err s' :
  store_ok s → ForwardPrivateMessages now req s = (rs, err, s') → step_ok s s' (forward_events rs).
Proof.
  intros Hok E. unfold ForwardPrivateMessages in E. cbv zeta in E.
  destruct (_ || _); [injection E as <- <- <-; by apply step_refl|].
  destruct (_ || _); [injection E as <- <- <-; by apply step_refl|].
  destruct (_ <? _); [injection E as <- <- <-; by apply step_refl|].
  destruct (privateNoForwardsEnabled _ _ _); [injection E as <- <- <-; by apply step_refl|].
  destruct (forward_sources _ _ _ _) as [sources|]; [by eapply forward_each_step|injection E as <- <- <-; by apply step_refl].
Qed.

(** ** Pinning *)

Lemma flip_pin_boxOf u id b s v :
  boxOf (flip_pin u id b s) v = if v =? u then (λ m, if m_ID m =? id then with_Pinned b m else m) <$> boxOf s u else boxOf s v.
Proof. apply boxOf_set_box. Qed.

Lemma flip_pin_ok u id b s : store_ok s → store_ok (flip_pin u id b s).
Proof.
  intros Hok. apply (flags_ok u (λ m, if m_ID m =? id then with_Pinned b m else m) s); try done.
  - apply only_flags_if. by intros m.
  - by rewrite flip_pin_boxOf, Z.eqb_refl.
  - intros v Hv. by rewrite flip_pin_boxOf, (proj2 (Z.eqb_neq _ _) Hv).
Qed.

Lemma client_pins (g : Message → bool) b l ids e :
  Type_ e = UpdateEventPinnedMessages → event_ids e = ids → Bool e = b → (∀ m, m ∈ l → m_ID m ∈ ids ↔ g m = true) →
  client_apply (seen <$> l) e = seen <$> ((λ m, if g m then with_Pinned b m else m) <$> l).
Proof.
  intros Ht He Hb H. unfold client_apply. rewrite Ht, He, Hb, <- !list_fmap_compose.
  apply list_fmap_ext. intros i m Hm%list_elem_of_lookup_2. simpl. destruct (g m) eqn:Eg.
  - by rewrite bool_decide_true by by apply H.
  - rewrite bool_decide_false; [done|]. intros ?%H; [congruence|done].
Qed.

Lemma apply_pins_facts (b : bool) (changes : list (Z * Peer * Message)) : ∀ s,
  nextUID (apply_pins b changes s) = nextUID s ∧ nextBox (apply_pins b changes s) = nextBox s
  ∧ nextPts (apply_pins b changes s) = nextPts s ∧ privateSendDedup (apply_pins b changes s) = privateSendDedup s
  ∧ (store_ok s → store_ok (apply_pins b changes s)).
Proof.
  induction changes as [|[[u p] m] changes IH]; intros s; [done|]. change (apply_pins b ((u, p, m) :: changes) s)
    with (apply_pins b changes (flip_pin u (m_ID m) b s)).
  destruct (IH (flip_pin u (m_ID m) b s)) as (-> & -> & -> & -> & H). split_and!; try done. intros Hok. by apply H, flip_pin_ok.
Qed.

Lemma apply_pins_replay req date (changes : list (Z * Peer * Message)) : ∀ s u,
  seen <$> boxOf (apply_pins (pp_Pinned req) changes s) u = replay u (pin_event req date <$> changes) (seen <$> boxOf s u).
Proof.
  induction changes as [|[[w p] m] changes IH]; intros s u; [done|].
  change (apply_pins (pp_Pinned req) ((w, p, m) :: changes) s) with (apply_pins (pp_Pinned req) changes (flip_pin w (m_ID m) (pp_Pinned req) s)).
  rewrite fmap_cons, IH. change (?x :: ?y) with ([x] ++ y). rewrite replay_app. f_equal.
  rewrite flip_pin_boxOf. unfold replay. simpl. rewrite (Z.eqb_sym w u). destruct (Z.eqb_spec u w) as [->|]; [|done]. cbn [fold_left].
  symmetry. apply (client_pins (λ c, m_ID c =? m_ID m) (pp_Pinned req) _ [m_ID m]); [done..|].
  intros c _. by rewrite list_elem_of_singleton, Z.eqb_eq.
Qed.

Lemma pins_harmless req date changes s : store_ok s →
  harmless (pin_event req date <$> changes) (λ _ s, apply_pins (pp_Pinned req) changes s) s.
Proof.
  intros Hok. destruct (apply_pins_facts (pp_Pinned req) changes s) as (E1 & E2 & E3 & E4 & H). split; try done.
  - apply Forall_fmap, Forall_true. done.
  - intros es _. by apply H.
  - intros es u _. apply apply_pins_replay.
Qed.

Lemma append_pins_spec req es : ∀ s es' s',
  append_pins req es s = (es', s') → Forall (λ e, PtsCount e = 1) es →
  Forall2 restaged es es' ∧ boxes s' = boxes s ∧ same_ids s s'
  ∧ ∀ u, positions (nextPtsOf s u) (ev_for u es') (nextPtsOf s' u).
Proof.
  induction es as [|e es IH]; intros s es' s' E Hc; cbn [append_pins] in E.
  { injection E as <- <-. split_and!; try done. intros u. simpl. lia. }
  apply Forall_cons in Hc as [Hc1 Hc]. unfold nextPtsWithEventsLocked in E.
  set (pts := current_pts s (UserID e) + 1) in E. set (e' := placed _ _ _ _ e) in E.
  destruct (if UserID e =? pp_OwnerUserID req then _ else _) as [auth session].
  set (s1 := appendMemorySendEventLocked _ _ _ _ _) in E.
  destruct (append_pins req es s1) as [rest s2] eqn:E2. injection E as <- <-.
  destruct (IH _ _ _ E2 Hc) as (H1 & H2 & H3 & H4). split; [by constructor|]. split; [done|]. split; [done|].
  intros u. specialize (H4 u). rewrite (ev_for_app u [e'] rest : ev_for u (e' :: rest) = _).
  assert (nextPtsOf s1 u = if u =? UserID e then pts else nextPtsOf s u) as Ep by apply nextPtsOf_set.
  eapply positions_app; [|exact H4]. rewrite Ep. unfold ev_for. simpl. rewrite (Z.eqb_sym u).
  destruct (Z.eqb_spec (UserID e) u) as [<-|]; simpl; [|lia]. pose proof (current_pts_ge s (UserID e)). unfold pts. lia.
Qed.

Definition pin_events (r : PinPrivateMessageResult P) : list event :=
  (pin_Event <$> pin_Updated r) ++ match pin_ServiceMessage r with Some sent => send_events sent | None => [] end.

Lemma pin_updates_events b changes es : length es = length changes → pin_Event <$> pin_updates (P := P) b changes es = es.
Proof.
  revert es. induction changes as [|x changes IH]; intros [|e es] H; try done. unfold pin_updates in *. simpl. f_equal.
  apply IH. by injection H.
Qed.

Lemma send_locked_prefix now req fp prefix apply s r es s' :
  sendPrivateTextLocked now req fp prefix apply s = OK (r, es, s') → es = [] ∨ length es = length prefix.
Proof.
  intros E. destruct (send_locked_cases _ _ _ _ _ _ _ _ _ E) as [(_ & -> & _)|[_ Hf]]; [by left|]. right.
  inversion Hf as [????? alloc0 ????? Hst]; subst. clear -Hst. revert es alloc0 Hst. generalize (∅ : gmap Z Z).
  induction prefix as [|e prefix IH]; intros a es alloc0 E; cbn [stage_prefix] in E; [by injection E as <- <-|].
  destruct (nextPTS s (UserID e) a) as [pts a1]. destruct (stage_prefix s prefix a1) as [rest a2] eqn:Er.
  injection E as <- <-. simpl. f_equal. by eapply IH.
Qed.

Lemma PinPrivateMessage_step now random req s r s' :
  store_ok s → PinPrivateMessage now random req s = (r, s') →
  step_ok s s' (match r with OK r => pin_events r | ERR _ => [] end).
Proof.
  intros Hok E. unfold PinPrivateMessage in E. cbv zeta in E.
  destruct (_ || _ || _); [injection E as <- <-; by apply step_refl|].
  destruct (_ || _); [injection E as <- <-; by apply step_refl|].
  destruct (find_message _ _ _ _) as [owned|]; [|injection E as <- <-; by apply step_refl].
  destruct (match m_Media owned with Some _ => _ | None => _ end); [injection E as <- <-; by apply step_refl|].
  set (changes := List.filter _ _) in E. set (date := if pp_Date req =? 0 then now else pp_Date req) in E.
  assert (changes = [] ∨ changes ≠ []) as [Ec|Ec] by (destruct changes; [by left|by right]).
  { rewrite Ec in E. injection E as <- <-. by apply step_refl. }
  destruct changes as [|x xs] eqn:Ech; [done|]. rewrite <- Ech in E. clear Ec x xs Ech.
  destruct (pp_Pinned req && negb (pp_PmOneside req) && negb (peer_ID (pp_Peer req) =? pp_OwnerUserID req)).
  - destruct (PrivateSendFingerprint _) as [fp|]; cbn [mbind res_bind] in E;
      [|destruct e; injection E as <- <-; by apply step_refl].
    destruct (sendPrivateTextLocked _ _ _ _ _ _) as [[[sent es] s1]|err] eqn:Es;
      [|destruct err; injection E as <- <-; by apply step_refl].
    injection E as <- <-. pose proof (send_locked_prefix _ _ _ _ _ _ _ _ _ Es) as Hlen.
    apply sendPrivateTextLocked_step in Es; [|done|by apply pins_harmless].
    unfold pin_events. cbn [pin_Updated pin_ServiceMessage].
    destruct Hlen as [->|Hlen]; [by destruct changes|]. rewrite length_fmap in Hlen. by rewrite pin_updates_events.
  - destruct (append_pins req _ s) as [es s1] eqn:Es. injection E as <- <-.
    destruct (append_pins_spec _ _ _ _ _ Es) as (Hre & Hb & Hi & Hp); [by apply Forall_fmap, Forall_true|].
    unfold pin_events. cbn [pin_Updated pin_ServiceMessage]. rewrite app_nil_r.
    pose proof (Forall2_length _ _ _ Hre) as Hlen. rewrite length_fmap in Hlen. rewrite pin_updates_events by done.
    destruct (apply_pins_facts (pp_Pinned req) changes s1) as (F1 & F2 & F3 & F4 & Fok).
    destruct Hi as (I1 & I2 & I3). apply step_same.
    + apply Fok. by apply (boxes_store_ok s).
    + intros u. rewrite (apply_pins_replay req date), (replay_restaged u _ _ _ Hre). split; [by rewrite (boxes_boxOf s s1)|].
      unfold nextPtsOf at 2. rewrite F3. apply Hp.
    + by rewrite F2.
    + apply receipts_kept_eq. by rewrite F4.
Qed.

Lemma unpin_step date req u p (g : Message → bool) (ids : list Z) s item s' :
  store_ok s → unpin_side req date u p ids (unpin_messages u g s) = (item, s') →
  (∀ m, m ∈ boxOf s u → m_ID m ∈ ids ↔ g m = true) → step_ok s s' [pin_Event item].
Proof.
  intros Hok E Hids. unfold unpin_side in E. set (s1 := unpin_messages u g s) in E.
  unfold nextPtsWithEventsLocked in E. set (pts := current_pts s1 u + 1) in E.
  destruct (if u =? ua_OwnerUserID req then _ else _) as [auth session]. injection E as <- <-.
  assert (∀ v, boxOf s1 v = if v =? u then (λ m, if g m then with_Pinned false m else m) <$> boxOf s u else boxOf s v) as Hb
    by (intros v; apply boxOf_set_box).
  set (s2 := appendMemorySendEventLocked _ _ _ _ _). cbn [pin_Event].
  assert (∀ v, boxOf s2 v = boxOf s1 v) as Hb2 by done.
  apply step_same; [| |done|by apply receipts_kept_eq].
  - apply (flags_ok u (λ m, if g m then with_Pinned false m else m) s); try done.
    + apply only_flags_if. by intros m.
    + by rewrite Hb2, Hb, Z.eqb_refl.
    + intros v Hv. by rewrite Hb2, Hb, (proj2 (Z.eqb_neq _ _) Hv).
  - intros v. assert (nextPtsOf s2 v = if v =? u then pts else nextPtsOf s v) as -> by apply (nextPtsOf_set u v pts s1).
    rewrite Hb2, Hb. unfold replay, ev_for. simpl. rewrite (Z.eqb_sym u). pose proof (current_pts_ge s1 u) as Hge.
    change (nextPtsOf s1 u) with (nextPtsOf s u) in Hge.
    destruct (Z.eqb_spec v u) as [->|]; simpl; [|split; [done|lia]]. split; [|unfold pts; lia].
    symmetry. apply (client_pins g false _ ids); [done| |done|done]. unfold event_ids. simpl. by destruct ids.
Qed.

Lemma unpin_nothing u (g : Message → bool) s :
  store_ok s → (∀ m, m ∈ boxOf s u → g m = false) → step_ok s (unpin_messages u g s) [].
Proof.
  intros Hok Hg. assert (∀ v, boxOf (unpin_messages u g s) v = boxOf s v) as Hb.
  { intros v. unfold unpin_messages. rewrite boxOf_set_box. destruct (Z.eqb_spec v u) as [->|]; [|done].
    apply fmap_same. intros m Hm. by rewrite Hg. }
  apply step_same; [| |done|by apply receipts_kept_eq].
  - eapply boxes_ok_ext; [| | |exact Hok]; done.
  - by apply delivered_nothing.
Qed.

Lemma UnpinAllPrivateMessages_step now req s r s' :
  store_ok s → UnpinAllPrivateMessages now req s = (r, s') →
  step_ok s s' (match r with OK r => pin_events r | ERR _ => [] end).
Proof.
  intros Hok E. unfold UnpinAllPrivateMessages in E. cbv zeta in E.
  destruct (_ || _ || _); [injection E as <- <-; by apply step_refl|].
  set (batch := take _ _) in E. set (date := if ua_Date req =? 0 then now else ua_Date req) in E.
  set (u := ua_OwnerUserID req) in *. set (peer := peer_ID (ua_Peer req)) in *.
  assert (∀ m, m ∈ batch → m ∈ boxOf s u ∧ m_Pinned m = true) as Hbatch.
  { intros m Hm. unfold batch in Hm. apply elem_of_take in Hm as (i & Hi & _). apply list_elem_of_lookup_2 in Hi.
    rewrite merge_sort_Permutation in Hi. apply elem_of_lfilter in Hi as [Hf Hi]. split; [done|].
    by apply andb_true_iff in Hf as [_ ?]. }
  set (ids := m_ID <$> batch) in E.
  destruct ids as [|i0 is0] eqn:Ei; [injection E as <- <-; by apply step_refl|]. rewrite <- Ei in E. clear i0 is0 Ei.
  destruct (unpin_side req date u (ua_Peer req) ids _) as [own s1] eqn:E1.
  apply unpin_step in E1; [|done|intros m _; by rewrite bool_decide_eq_true].
  destruct (peer =? u); [injection E as <- <-; exact E1|].
  set (g := λ m, shares_uid (m_UID <$> batch) m && m_Pinned m) in E.
  destruct (m_ID <$> List.filter g (boxOf s1 peer)) as [|i0 is0] eqn:Ei.
  - injection E as <- <-. unfold pin_events. cbn [pin_Updated pin_ServiceMessage fmap list_fmap app].
    rewrite <- (app_nil_r [_]). eapply step_app; [exact E1|]. apply unpin_nothing; [apply E1|].
    intros m Hm. destruct (g m) eqn:Eg; [|done]. exfalso. apply fmap_nil_inv in Ei.
    apply (not_elem_of_nil m). rewrite <- Ei. by apply elem_of_lfilter.
  - rewrite <- Ei in E. clear i0 is0 Ei.
    destruct (unpin_side req date peer (user_peer u) _ _) as [other s2] eqn:E2. injection E as <- <-.
    apply unpin_step in E2; [exact (step_app _ _ _ _ _ E1 E2)|apply E1|].
    intros m Hm. rewrite list_elem_of_fmap. split.
    + intros (c & Hid & [Hg Hc]%elem_of_lfilter). assert (m = c) as -> by (eapply box_id_inj; [apply E1| | |]; done). done.
    + intros Hg. exists m. by rewrite elem_of_lfilter.
Qed.

(** ** All operations *)

Lemma EditMessage_step now req s r s' :
  store_ok s → resolved_by_author req s → EditMessage now req s = (r, s') →
  step_ok s s' (match r with OK ed => edit_events ed | ERR _ => [] end).
Proof.
  intros Hok Hw E. destruct r as [ed|err].
  - destruct (EditMessage_spec _ _ _ _ _ Hok Hw E) as (H1 & H2 & H3 & H4 & _). apply step_same; try done. by apply receipts_kept_eq.
  - unfold EditMessage in E. destruct (_ || _ || _ || _); [injection E as _ <-; by apply step_refl|].
    destruct (find_message _ _ _ _) as [t|]; [|injection E as _ <-; by apply step_refl].
    destruct (edit_refused req t); [injection E as _ <-; by apply step_refl|].
    by destruct (edit_boxes _ _ _ _ _ _) as [ed s1].
Qed.

Lemma ReadHistory_step now req s r s' :
  store_ok s → ReadHistory now req s = (r, s') → step_ok s s' (read_events r).
Proof.
  intros Hok E. destruct (ReadHistory_spec _ _ _ _ _ E) as [Hs Hd]. pose proof (same_boxes_ok _ _ Hs Hok).
  destruct Hs as (_ & _ & ? & ? & _). apply step_same; try done. by apply receipts_kept_eq.
Qed.

Lemma ReadMessageContents_step now req s r s' :
  store_ok s → ReadMessageContents now req s = (r, s') →
  step_ok s s' (match r with OK r => contents_events r | ERR _ => [] end).
Proof.
  intros Hok E. destruct r as [r|err].
  - destruct (ReadMessageContents_spec _ _ _ _ _ Hok E) as (H1 & H2 & _ & ? & ?). apply step_same; try done. by apply receipts_kept_eq.
  - unfold ReadMessageContents in E. cbv zeta in E.
    destruct (_ =? 0); [injection E as _ <-; by apply step_refl|].
    destruct (_ <? _); [injection E as _ <-; by apply step_refl|].
    destruct (existsb _ _); [injection E as _ <-; by apply step_refl|].
    destruct (_ =? 0); [done|]. destruct (read_notes _ _ _ _) as [es s1]. by destruct (nextPtsNLocked _ _ _).
Qed.

Lemma DeleteMessages_step now req s :
  store_ok s → (∀ u, nextBoxOf s u ≤ MaxMessageBoxID) →
  ∃ r s', DeleteMessages now req s = Some (r, s')
    ∧ step_ok s s' (match r with OK r => deletion_events r | ERR _ => [] end).
Proof.
  intros Hok Hm. destruct (DeleteMessages_spec now req s Hok Hm) as (r & s' & E & H1 & H2 & _ & H3 & H4).
  exists r, s'. split; [done|]. by apply step_same.
Qed.

Lemma DeleteHistory_step now req s :
  store_ok s → (∀ u, nextBoxOf s u ≤ MaxMessageBoxID) →
  ∃ r s', DeleteHistory now req s = Some (r, s') ∧ step_ok s s' (deletion_events r).
Proof.
  intros Hok Hm. destruct (DeleteHistory_spec now req s Hok Hm) as (r & s' & E & H1 & H2 & _ & H3 & H4).
  exists r, s'. split; [done|]. by apply step_same.
Qed.
End steps.
