(* ===== verification/MessagesDialog.v ===== *)
(** The dialogs that messages keep: a dialog shows the last message of its
    conversation and counts the incoming messages beyond the read mark, as long
    as only messages change it. *)

From S2P Require Import Prelude GoStrings Updates Messages MessagesInv MessagesBox MessagesOps MessagesDelete MessagesSteps.

Open Scope Z_scope.

#[local] Set Default Proof Using "Type".

Section dialog.
Context {P Bytes : Type} `{!Codecs P Bytes} `{!EqDecision P}.

Abbreviation Message := (Message P).
Abbreviation Dialog := (Dialog P).
Abbreviation event := (event P).
Abbreviation store := (@MessageStore P Bytes).
Implicit Types (m c : Message) (d : Dialog) (u v id uid pts nb : Z) (p q : Peer) (s : store) (l b : list Message) (D : list Dialog).

(** * What dialogs read of a box *)

Definition vkey m : Z * Peer * bool * Z := (m_ID m, m_Peer m, m_Out m, m_Date m).

Definition dkey d : Peer * Z * Z * Z * Z :=
  (d_Peer d, d_TopMessage d, d_TopMessageDate d, d_ReadInboxMaxID d, d_UnreadCount d).

(** A dialog tells the truth about the box [b], in which [nb] ids were given. *)
Record dialog_fits nb b d : Prop := {
  df_unread : d_UnreadCount d = count_unread (d_Peer d) (d_ReadInboxMaxID d) b;
  df_top : (d_TopMessage d, d_TopMessageDate d) = top_message (d_Peer d) b;
  df_some : d_TopMessage d ≠ 0;
  df_read : 0 ≤ d_ReadInboxMaxID d ≤ nb;
}.

Record dialogs_fit nb b D : Prop := {
  ds_peers : NoDup (d_Peer <$> D);
  ds_fit d : d ∈ D → dialog_fits nb b d;
  ds_all m : m ∈ b → m_Peer m ∈ (d_Peer <$> D);
}.

Definition dialogs_ok s : Prop := ∀ u, dialogs_fit (nextBoxOf s u) (boxOf s u) (l_Dialogs (dialogsOf s u)).

(** ** Unread messages and the top *)

Lemma count_unread_view p r b b' : vkey <$> b = vkey <$> b' → count_unread p r b = count_unread p r b'.
Proof.
  unfold count_unread. intros H. f_equal. revert b' H. induction b as [|m b IH]; intros [|m' b'] H; try done.
  simpl in H. injection H as H1 H2 H3 H4 H. assert (is_unread p r m = is_unread p r m') as E by (unfold is_unread; by rewrite H1, H2, H3).
  cbn [List.filter]. rewrite E. specialize (IH b' H). destruct (is_unread p r m'); simpl; lia.
Qed.

Lemma top_message_view p b b' : vkey <$> b = vkey <$> b' → top_message p b = top_message p b'.
Proof.
  unfold top_message. generalize (0, 0). revert b'. induction b as [|m b IH]; intros [|m' b'] t H; try done.
  simpl in H. injection H as H1 H2 H3 H4 H. simpl. rewrite H1, H2, H4. by apply IH.
Qed.

Lemma top_message_app p b m : top_message p (b ++ [m]) =
  if bool_decide (m_Peer m = p) && ((top_message p b).1 <? m_ID m) then (m_ID m, m_Date m) else top_message p b.
Proof. unfold top_message. by rewrite fold_left_app. Qed.

Lemma count_unread_app p r b m : count_unread p r (b ++ [m]) = count_unread p r b + (if is_unread p r m then 1 else 0).
Proof. unfold count_unread. rewrite List.filter_app, length_app. simpl. destruct (is_unread p r m); simpl; lia. Qed.

Lemma count_unread_nonneg p r b : 0 ≤ count_unread p r b.
Proof. unfold count_unread. lia. Qed.

(** The top is a message of the conversation, if there is one. *)
Lemma top_message_spec p b :
  Forall (λ m, 1 ≤ m_ID m) b →
  ((top_message p b).1 = 0 ∧ (∀ m, m ∈ b → m_Peer m ≠ p))
  ∨ (∃ m, m ∈ b ∧ m_Peer m = p ∧ top_message p b = (m_ID m, m_Date m)) ∧ (∀ m, m ∈ b → m_Peer m = p → m_ID m ≤ (top_message p b).1).
Proof.
  intros Hb. induction b as [|m b IH] using rev_ind; [left; split; [done|by intros m ?%elem_of_nil]|].
  apply Forall_app in Hb as [Hb Hm]. apply Forall_cons in Hm as [Hm _]. rewrite top_message_app.
  destruct (bool_decide_reflect (m_Peer m = p)) as [E|E]; cbn [andb].
  - destruct (Z.ltb_spec (top_message p b).1 (m_ID m)) as [Hlt|Hge].
    + right. split; [exists m; split_and!; try done; apply elem_of_app; right; by left|].
      intros c [Hc| ->%list_elem_of_singleton]%elem_of_app Hp; [|done]. simpl.
      destruct (IH Hb) as [[_ Hno]|[_ Hmax]]; [by destruct (Hno c Hc)|]. specialize (Hmax c Hc Hp). lia.
    + destruct (IH Hb) as [[H0 _]|[(c & Hc & Hp & Ht) Hmax]]; [lia|]. right. split.
      * exists c. split_and!; try done. apply elem_of_app. by left.
      * intros d [Hd| ->%list_elem_of_singleton]%elem_of_app Hpd; [by apply Hmax|done].
  - destruct (IH Hb) as [[H0 Hno]|[(c & Hc & Hp & Ht) Hmax]].
    + left. split; [done|]. intros d [Hd| ->%list_elem_of_singleton]%elem_of_app; [by apply Hno|done].
    + right. split; [exists c; split_and!; try done; apply elem_of_app; by left|].
      intros d [Hd| ->%list_elem_of_singleton]%elem_of_app Hpd; [by apply Hmax|done].
Qed.

(** Messages of other conversations do not matter. *)
Lemma count_unread_filter p r (f : Message → bool) b :
  (∀ m, m ∈ b → m_Peer m = p → f m = true) → count_unread p r (List.filter f b) = count_unread p r b.
Proof.
  intros H. unfold count_unread. do 2 f_equal. rewrite lfilter_filter. apply lfilter_ext. intros m Hm.
  unfold is_unread. destruct (bool_decide_reflect (m_Peer m = p)) as [E|E]; [by rewrite (H m Hm E)|]. by rewrite andb_false_r.
Qed.

Lemma top_message_filter p (f : Message → bool) b :
  (∀ m, m ∈ b → m_Peer m = p → f m = true) → top_message p (List.filter f b) = top_message p b.
Proof.
  unfold top_message. generalize (0, 0). induction b as [|m b IH]; intros t H; [done|]. cbn [List.filter fold_left].
  assert (∀ c, c ∈ b → m_Peer c = p → f c = true) as Hb by (intros c Hc; apply H; by right).
  destruct (bool_decide_reflect (m_Peer m = p)) as [E|E].
  - rewrite (H m ltac:(by left) E). cbn [fold_left]. rewrite bool_decide_true by done. by apply IH.
  - cbn [andb]. destruct (f m); [cbn [fold_left]; rewrite bool_decide_false by done; cbn [andb]|]; by apply IH.
Qed.

(** ** Dialogs that say the same *)

Lemma dialog_fits_same nb nb' b b' d d' :
  nb ≤ nb' → vkey <$> b = vkey <$> b' → dkey d = dkey d' → dialog_fits nb b d → dialog_fits nb' b' d'.
Proof.
  intros Hn Hv [= K1 K2 K3 K4 K5] [H1 H2 H3 H4]. split.
  - by rewrite <- K5, <- K1, <- K4, H1, (count_unread_view _ _ b b').
  - by rewrite <- K1, <- K2, <- K3, H2, (top_message_view _ b b').
  - by rewrite <- K2.
  - rewrite <- K4. lia.
Qed.

Lemma dkey_peers D D' : dkey <$> D = dkey <$> D' → d_Peer <$> D = d_Peer <$> D'.
Proof.
  intros H. assert (∀ X, d_Peer <$> X = (λ k : Peer * Z * Z * Z * Z, k.1.1.1.1) <$> (dkey <$> X)) as E
    by (intros X; by rewrite <- list_fmap_compose). by rewrite !E, H.
Qed.

Lemma dialogs_fit_same nb nb' b b' D D' :
  nb ≤ nb' → vkey <$> b = vkey <$> b' → dkey <$> D = dkey <$> D' → dialogs_fit nb b D → dialogs_fit nb' b' D'.
Proof.
  intros Hn Hv Hd [H1 H2 H3]. split.
  - by rewrite <- (dkey_peers D D').
  - intros d' [i Hi]%list_elem_of_lookup_1. assert ((dkey <$> D) !! i = Some (dkey d')) as Hk by (rewrite Hd, list_lookup_fmap; by rewrite Hi).
    rewrite list_lookup_fmap in Hk. destruct (D !! i) as [d|] eqn:Ed; [|done]. injection Hk as Hk.
    eapply dialog_fits_same; [exact Hn|exact Hv| |apply H2; by eapply list_elem_of_lookup_2]. unfold dkey. congruence.
  - intros m' [i Hi]%list_elem_of_lookup_1. assert ((vkey <$> b) !! i = Some (vkey m')) as Hk by (rewrite Hv, list_lookup_fmap; by rewrite Hi).
    rewrite list_lookup_fmap in Hk. destruct (b !! i) as [m|] eqn:Em; [|done]. injection Hk as _ Hp _ _.
    rewrite <- (dkey_peers D D') by done. rewrite <- Hp. apply H3. by eapply list_elem_of_lookup_2.
Qed.

(** ** Changing one dialog *)

Lemma alter_dialog_peers p (f : Dialog → Dialog) D :
  (∀ d, d_Peer (f d) = d_Peer d) → d_Peer <$> alter_dialog p f D = d_Peer <$> D.
Proof.
  intros Hf. induction D as [|d D IH]; [done|]. cbn [alter_dialog]. case_bool_decide; rewrite !fmap_cons; [by rewrite Hf|by rewrite IH].
Qed.

Lemma elem_of_alter_dialog p (f : Dialog → Dialog) D d :
  NoDup (d_Peer <$> D) → d ∈ alter_dialog p f D → d ∈ D ∧ d_Peer d ≠ p ∨ ∃ d0, d0 ∈ D ∧ d_Peer d0 = p ∧ d = f d0.
Proof.
  induction D as [|d0 D IH]; intros Hnd Hd; [by apply elem_of_nil in Hd|]. simpl in Hnd, Hd. apply NoDup_cons in Hnd as [Hn Hnd].
  case_bool_decide as E; apply elem_of_cons in Hd as [->|Hd].
  - right. exists d0. split; [by left|done].
  - left. split; [by right|]. intros E'. apply Hn. rewrite E, <- E'. apply list_elem_of_fmap. by exists d.
  - left. split; [by left|done].
  - destruct (IH Hnd Hd) as [[? ?]|(d1 & ? & ? & ?)]; [left; split; [by right|done]|right; exists d1; split; [by right|done]].
Qed.

Lemma dialogs_fit_alter nb b p (f : Dialog → Dialog) D :
  (∀ d, d_Peer (f d) = d_Peer d) → dialogs_fit nb b D →
  (∀ d, d ∈ D → d_Peer d = p → dialog_fits nb b d → dialog_fits nb b (f d)) → dialogs_fit nb b (alter_dialog p f D).
Proof.
  intros Hf [H1 H2 H3] Hp. split.
  - by rewrite alter_dialog_peers.
  - intros d [[Hd _]|(d0 & Hd & E & ->)]%elem_of_alter_dialog; [by apply H2| |done]. apply Hp; auto.
  - rewrite alter_dialog_peers by done. exact H3.
Qed.

Lemma alter_dialog_keys p (f : Dialog → Dialog) D : (∀ d, dkey (f d) = dkey d) → dkey <$> alter_dialog p f D = dkey <$> D.
Proof. intros Hf. induction D as [|d D IH]; [done|]. cbn [alter_dialog]. case_bool_decide; rewrite !fmap_cons; [by rewrite Hf|by rewrite IH]. Qed.

(** ** A new message *)

Lemma elem_of_upsert d D x :
  NoDup (d_Peer <$> D) → x ∈ upsert_dialog d D →
  x ∈ D ∧ d_Peer x ≠ d_Peer d ∨ (∃ old, old ∈ D ∧ d_Peer old = d_Peer d ∧ x = merge_dialog d old)
  ∨ x = d ∧ d_Peer d ∉ (d_Peer <$> D).
Proof.
  induction D as [|d0 D IH]; intros Hnd Hx; cbn [upsert_dialog] in Hx.
  { apply list_elem_of_singleton in Hx as ->. right. right. split; [done|apply not_elem_of_nil]. }
  rewrite fmap_cons in Hnd. apply NoDup_cons in Hnd as [Hn Hnd]. case_bool_decide as E; apply elem_of_cons in Hx as [->|Hx].
  - right. left. exists d0. split; [by left|done].
  - left. split; [by right|]. intros E'. apply Hn. rewrite E, <- E'. apply list_elem_of_fmap. by exists x.
  - left. split; [by left|done].
  - destruct (IH Hnd Hx) as [[? ?]|[(old & ? & ? & ?)|[-> ?]]].
    + left. split; [by right|done].
    + right. left. exists old. split; [by right|done].
    + right. right. split; [done|]. rewrite fmap_cons. apply not_elem_of_cons. by split.
Qed.

Lemma upsert_peers d D : d_Peer <$> upsert_dialog d D =
  if bool_decide (d_Peer d ∈ (d_Peer <$> D)) then d_Peer <$> D else (d_Peer <$> D) ++ [d_Peer d].
Proof.
  induction D as [|d0 D IH]; [done|]. cbn [upsert_dialog].
  destruct (bool_decide_reflect (d_Peer d0 = d_Peer d)) as [E|E]; rewrite !fmap_cons.
  - rewrite bool_decide_true by (rewrite E; by left). simpl. by rewrite E.
  - rewrite IH. destruct (bool_decide_reflect (d_Peer d ∈ (d_Peer <$> D))) as [Hin|Hin].
    + by rewrite bool_decide_true by by right.
    + rewrite bool_decide_false; [done|]. apply not_elem_of_cons. split; [congruence|done].
Qed.

Lemma find_dialog_Some p D d : NoDup (d_Peer <$> D) → d ∈ D → d_Peer d = p → find_dialog p D = Some d.
Proof.
  unfold find_dialog. induction D as [|d0 D IH]; intros Hnd Hd Hp; [by apply elem_of_nil in Hd|]. cbn [List.find].
  rewrite fmap_cons in Hnd. apply NoDup_cons in Hnd as [Hn Hnd]. apply elem_of_cons in Hd as [->|Hd]; [by rewrite bool_decide_true|].
  rewrite bool_decide_false; [by apply IH|]. intros E. apply Hn. rewrite E, <- Hp. apply list_elem_of_fmap. by exists d.
Qed.

Lemma find_dialog_None p D : p ∉ (d_Peer <$> D) → find_dialog p D = None.
Proof.
  unfold find_dialog. induction D as [|d0 D IH]; intros H; [done|]. cbn [List.find]. rewrite fmap_cons, not_elem_of_cons in H.
  destruct H as [H1 H2]. rewrite bool_decide_false by congruence. by apply IH.
Qed.

Lemma find_dialog_in p D d : find_dialog p D = Some d → d ∈ D ∧ d_Peer d = p.
Proof. intros [H1 H2]%List.find_some. apply bool_decide_eq_true in H2. by rewrite list_elem_of_In. Qed.

(** The count that the dialog of a new message gets. *)
Definition new_unread b m D : Z :=
  if m_Out m then 0 else count_unread (m_Peer m) (default 0 (d_ReadInboxMaxID <$> find_dialog (m_Peer m) D)) (b ++ [m]).

Lemma dialogs_fit_send nb b m D :
  dialogs_fit nb b D → Forall (λ c, 1 ≤ m_ID c ≤ nb) b → m_ID m = nb + 1 → 0 ≤ nb →
  dialogs_fit (nb + 1) (b ++ [m]) (upsert_dialog (dialog_top (m_Peer m) (m_ID m) (m_Date m) (new_unread b m D)) D).
Proof.
  intros [H1 H2 H3] Hb Hid Hnb.
  assert ((top_message (m_Peer m) (b ++ [m])) = (m_ID m, m_Date m)) as Htop.
  { rewrite top_message_app, bool_decide_true by done. cbn [andb]. destruct (Z.ltb_spec (top_message (m_Peer m) b).1 (m_ID m)) as [|Hge]; [done|].
    destruct (top_message_spec (m_Peer m) b) as [[H0 _]|[(c & Hc & _ & Ht) _]]; [|lia|].
    - eapply Forall_impl; [exact Hb|]. simpl. lia.
    - rewrite Ht in Hge. simpl in Hge. rewrite Forall_forall in Hb. specialize (Hb c Hc). lia. }
  split.
  - rewrite upsert_peers. case_bool_decide as Hin; [done|]. apply NoDup_app. split_and!; [done| |apply NoDup_singleton].
    intros x Hx ->%list_elem_of_singleton. done.
  - intros x [[Hx Hne]|[(old & Hold & Ep & ->)|[-> Hno]]]%elem_of_upsert; [| | |done].
    + destruct (H2 x Hx) as [U T S R]. simpl in Hne. split; try done; [| |lia].
      * rewrite count_unread_app. unfold is_unread. rewrite bool_decide_false by congruence. simpl. lia.
      * by rewrite top_message_app, bool_decide_false by congruence.
    + simpl in Ep. destruct (H2 old Hold) as [U T S R]. split; simpl; [|by rewrite Htop|lia|unfold or_zero; simpl; lia].
      unfold or_zero. simpl. unfold new_unread. rewrite (find_dialog_Some (m_Peer m) D old) by done. simpl.
      rewrite count_unread_app. unfold is_unread. rewrite bool_decide_true by done. rewrite Ep in U.
      destruct (m_Out m); cbn [negb andb]; [simpl; lia|]. rewrite (proj2 (Z.ltb_lt _ _)) by lia.
      pose proof (count_unread_nonneg (m_Peer m) (d_ReadInboxMaxID old) b).
      rewrite (proj2 (Z.eqb_neq _ _)) by lia. lia.
    + simpl in Hno. split; simpl; [|by rewrite Htop|lia|lia]. unfold new_unread. rewrite (find_dialog_None (m_Peer m) D) by done. simpl.
      destruct (m_Out m) eqn:Eo; [|done]. unfold count_unread. rewrite lfilter_none; [done|]. apply Forall_app. split.
      * apply Forall_forall. intros c Hc. unfold is_unread. rewrite bool_decide_false; [done|]. intros E. apply Hno. rewrite <- E. by apply H3.
      * constructor; [|constructor]. unfold is_unread. rewrite Eo. by rewrite andb_false_r.
  - intros c [Hc| ->%list_elem_of_singleton]%elem_of_app; rewrite upsert_peers; simpl.
    + specialize (H3 c Hc). case_bool_decide; [done|]. apply elem_of_app. by left.
    + case_bool_decide; [done|]. apply elem_of_app. right. by left.
Qed.

Lemma append_opt_dialogs u o a x s : dialogs (append_opt u o a x s) = dialogs s.
Proof. by destruct o. Qed.

Lemma dialogsOf_set u v (L : DialogList P) s : dialogsOf (set_dialog_list u L s) v = if v =? u then L else dialogsOf s v.
Proof.
  unfold dialogsOf, set_dialog_list. simpl. destruct (Z.eqb_spec v u) as [->|]; [by rewrite lookup_insert_eq|].
  by rewrite lookup_insert_ne.
Qed.

Lemma upsertMemoryDialogsLocked_dialogs sender recipient s u :
  l_Dialogs (dialogsOf (upsertMemoryDialogsLocked sender recipient s) u) =
  if u =? m_OwnerUserID sender then
    alter_dialog (m_Peer sender) mark_read
      (upsert_dialog (dialog_top (m_Peer sender) (m_ID sender) (m_Date sender) 0) (l_Dialogs (dialogsOf s u)))
  else if u =? m_OwnerUserID recipient then
    upsert_dialog (dialog_top (m_Peer recipient) (m_ID recipient) (m_Date recipient)
                     (privateUnreadCountLocked s u (m_Peer recipient))) (l_Dialogs (dialogsOf s u))
  else l_Dialogs (dialogsOf s u).
Proof.
  unfold upsertMemoryDialogsLocked. cbv zeta.
  destruct (Z.eqb_spec (m_OwnerUserID recipient) (m_OwnerUserID sender)) as [E|E]; cbn [negb]; rewrite !dialogsOf_set.
  - rewrite E. destruct (Z.eqb_spec u (m_OwnerUserID sender)) as [->|]; done.
  - destruct (Z.eqb_spec u (m_OwnerUserID recipient)) as [->|Hr].
    + rewrite (proj2 (Z.eqb_neq _ _) E). unfold privateUnreadCountLocked. by rewrite !dialogsOf_set, (proj2 (Z.eqb_neq _ _) E).
    + destruct (Z.eqb_spec u (m_OwnerUserID sender)) as [->|]; done.
Qed.

(** ** Sends *)

Lemma commit_dialogs req alloc sender recipient receipt s u :
  send_kind req sender recipient → m_ID sender ≠ 0 → m_OwnerUserID sender = sr_SenderUserID req → m_Out sender = true →
  (sr_SenderUserID req ≠ sr_RecipientUserID req → m_Out recipient = false) →
  let D := l_Dialogs (dialogsOf s u) in
  l_Dialogs (dialogsOf (commit_send req alloc sender recipient receipt s) u) =
  match sent_copies req sender recipient u with
  | Some m =>
      let D' := upsert_dialog (dialog_top (m_Peer m) (m_ID m) (m_Date m) (new_unread (boxOf s u) m D)) D in
      if u =? sr_SenderUserID req then alter_dialog (m_Peer m) mark_read D' else D'
  | None => D
  end.
Proof.
  intros Hk Hid Ho Hout Hin D. pose proof (commit_boxOf req alloc sender recipient receipt s Hk Hid Ho u) as Hb.
  revert Hb. unfold commit_send. cbv zeta.
  set (s1 := set_counters _ _ _ s). set (s2 := set_box _ _ s1). set (s3 := if _ && _ then set_box _ _ s2 else s2).
  set (s4 := match receipt with Some r => _ | None => s3 end).
  assert (dialogs s4 = dialogs s) as Hd by (unfold s4, s3; by destruct receipt, (negb _ && negb _)).
  set (s5 := upsertMemoryDialogsLocked _ _ s4).
  intros Hb. match goal with |- l_Dialogs (dialogsOf ?t u) = _ => assert (dialogs t = dialogs s5 ∧ boxes t = boxes s4) as [Ht Hbt] end.
  { destruct (excluded req (sr_SenderUserID req)), (excluded req (sr_RecipientUserID req)).
    assert (boxes s5 = boxes s4) as E5 by (exact (f_equal (λ x, x.1.1.1) (upsertMemoryDialogsLocked_core _ _ s4))).
    destruct (negb (m_ID recipient =? 0) && negb _); unfold append_opt; by destruct (newMessageEvent sender), (newMessageEvent recipient). }
  assert (∀ t t' : store, dialogs t = dialogs t' → dialogsOf t u = dialogsOf t' u) as Hdo by (intros t t' E; unfold dialogsOf; by rewrite E).
  rewrite (Hdo _ _ Ht). rewrite (boxes_boxOf s4 _ u Hbt) in Hb. unfold s5. rewrite upsertMemoryDialogsLocked_dialogs, (Hdo _ _ Hd).
  fold D. unfold sent_copies in *. rewrite Ho. unfold new_unread.
  destruct (Z.eqb_spec u (sr_SenderUserID req)) as [->|Hu]; [by rewrite Hout|].
  destruct Hk as [E ->|E Eb ->|E Eb Hr Hor].
  - rewrite E in Hu. rewrite (proj2 (Z.eqb_neq (m_ID sender) 0) Hid). cbn [negb]. rewrite Ho, E.
    by rewrite (proj2 (Z.eqb_neq _ _) Hu).
  - cbn [no_message m_ID Z.eqb negb]. rewrite Ho, (proj2 (Z.eqb_neq _ _) Hu), Eb. by rewrite andb_false_r.
  - rewrite (proj2 (Z.eqb_neq _ _) Hr). cbn [negb]. rewrite Hor, Eb in *. cbn [negb] in *. rewrite andb_true_r in *.
    destruct (Z.eqb_spec u (sr_RecipientUserID req)) as [->|]; [|done]. rewrite (Hin E). cbn [option_list] in Hb.
    unfold privateUnreadCountLocked. by rewrite (Hdo _ _ Hd), Hb.
Qed.

Lemma sent_copy_out req fp prefix apply s r es s' :
  fresh_send req fp prefix apply s r es s' →
  m_Out (SenderMessage r) = true ∧ (sr_SenderUserID req ≠ sr_RecipientUserID req → m_Out (RecipientMessage r) = false).
Proof.
  intros [pts date rp rp' es0 a0 a1 alloc recipient receipt sender _ _ Hrec _]. split; [done|]. intros Hne. simpl.
  by destruct Hrec as [[? _]|[(_ & _ & -> & _)|(_ & _ & pts' & _ & ->)]].
Qed.

Lemma store_ids_range s u : store_ok s → Forall (λ c, 1 ≤ m_ID c ≤ nextBoxOf s u) (boxOf s u).
Proof. intros Hok. eapply Forall_impl; [apply (bo_messages _ _ _ Hok u)|]. by intros c []. Qed.

Lemma ids_view b b' n : vkey <$> b' = vkey <$> b → Forall (λ c, 1 ≤ m_ID c ≤ n) b → Forall (λ c, 1 ≤ m_ID c ≤ n) b'.
Proof.
  revert b'. induction b as [|m b IH]; intros [|m' b'] E H; try done. apply Forall_cons in H as [H1 H]. injection E as E1 _ _ _ E.
  constructor; [by rewrite E1|by apply IH].
Qed.

(** What an operation that leaves the dialogs and what they read alone. *)
Definition same_view s s' : Prop :=
  (∀ u, vkey <$> boxOf s' u = vkey <$> boxOf s u) ∧ (∀ u, nextBoxOf s u ≤ nextBoxOf s' u)
  ∧ ∀ u, dkey <$> l_Dialogs (dialogsOf s' u) = dkey <$> l_Dialogs (dialogsOf s u).

Lemma same_view_ok s s' : same_view s s' → dialogs_ok s → dialogs_ok s'.
Proof. intros (Hv & Hn & Hd) Hok u. eapply dialogs_fit_same; [apply Hn|by symmetry; apply Hv|by symmetry; apply Hd|apply Hok]. Qed.

Lemma append_prefix_dialogs (req : SendPrivateTextRequest P) es s : dialogs (append_prefix req es s) = dialogs s.
Proof. revert s. induction es as [|e es IH]; intros s; simpl; [done|]. destruct (_ =? _); by rewrite IH. Qed.

Lemma fresh_send_dialogs req fp prefix apply s r es s' :
  store_ok s → harmless prefix apply s → dialogs_ok s →
  (∀ u, vkey <$> boxOf (apply es s) u = vkey <$> boxOf s u) → dialogs (apply es s) = dialogs s →
  fresh_send req fp prefix apply s r es s' → dialogs_ok s'.
Proof.
  intros Hok Hh Hdok Hview Hdia Hf. destruct (sent_copy_out _ _ _ _ _ _ _ _ Hf) as [Hout Hin].
  destruct (fresh_send_kind _ _ _ _ _ _ _ _ Hok Hf) as (alloc & receipt & _ & Hk & -> & Hid & Ho & Hnew & _ & _).
  set (sender := SenderMessage r) in *. set (recipient := RecipientMessage r) in *. set (s0 := append_prefix req es (apply es s)).
  pose proof (append_prefix_core req es (apply es s)) as Hc. fold s0 in Hc.
  pose proof (bo_next _ _ _ Hok (sr_SenderUserID req)). assert (m_ID sender ≠ 0) as Hid0 by lia.
  assert (dialogs s0 = dialogs s) as Hd0.
  { rewrite <- Hdia. apply append_prefix_dialogs. }
  assert (∀ u, nextBoxOf s0 u = nextBoxOf s u) as Hn0.
  { intros u. rewrite (core_nextBox _ _ u Hc). unfold nextBoxOf. by rewrite (hl_next _ _ _ Hh). }
  assert (dialogs_ok s0) as Hdok0.
  { apply (same_view_ok s); [|done]. split_and!; [|intros u; by rewrite Hn0|intros u; unfold dialogsOf; by rewrite Hd0].
    intros u. by rewrite (core_boxOf _ _ u Hc), Hview. }
  destruct (commit_counters req alloc sender recipient receipt s0 Hk Hid0 Ho) as (_ & _ & Cn).
  intros u. rewrite Cn, commit_boxOf, commit_dialogs by done.
  destruct (sent_copies req sender recipient u) as [m|] eqn:Em; [|rewrite app_nil_r; apply Hdok0].
  destruct (Hnew u m Em) as (_ & Hidm & _). cbn [option_list].
  assert (dialogs_fit (m_ID m) (boxOf s0 u ++ [m]) (upsert_dialog (dialog_top (m_Peer m) (m_ID m) (m_Date m)
    (new_unread (boxOf s0 u) m (l_Dialogs (dialogsOf s0 u)))) (l_Dialogs (dialogsOf s0 u)))) as Hfit.
  { rewrite Hidm at 1. rewrite <- Hn0. apply dialogs_fit_send; [apply Hdok0| |by rewrite Hn0|rewrite Hn0; apply Hok].
    rewrite Hn0. apply (ids_view (boxOf s u)); [by rewrite (core_boxOf _ _ u Hc), Hview|by apply store_ids_range]. }
  cbv zeta. destruct (u =? sr_SenderUserID req); [|exact Hfit].
  eapply dialogs_fit_same; [done|done| |exact Hfit]. by rewrite alter_dialog_keys.
Qed.

Lemma sendPrivateTextLocked_dialogs now req fp prefix apply s r es s' :
  store_ok s → harmless prefix apply s → dialogs_ok s →
  (∀ es u, vkey <$> boxOf (apply es s) u = vkey <$> boxOf s u) → (∀ es, dialogs (apply es s) = dialogs s) →
  sendPrivateTextLocked now req fp prefix apply s = OK (r, es, s') → dialogs_ok s'.
Proof.
  intros Hok Hh Hd Hv Hdia E. destruct (send_locked_cases _ _ _ _ _ _ _ _ _ E) as [(_ & _ & ->)|[_ Hf]]; [done|].
  by eapply fresh_send_dialogs.
Qed.

Lemma SendPrivateText_dialogs now req s r s' :
  store_ok s → dialogs_ok s → SendPrivateText now req s = (r, s') → dialogs_ok s'.
Proof.
  intros Hok Hd E. unfold SendPrivateText in E. destruct (negb _); [by injection E as _ <-|].
  destruct (PrivateSendFingerprint req) as [fp|]; cbn [mbind res_bind] in E; [|by injection E as _ <-].
  destruct (sendPrivateTextLocked now req fp [] (λ _ s, s) s) as [[[r0 es] s0]|] eqn:Es; [|by injection E as _ <-].
  injection E as _ <-. by apply (sendPrivateTextLocked_dialogs now req fp [] (λ _ s, s) s r0 es s0 Hok (harmless_nil s Hok)).
Qed.

Lemma forward_each_dialogs now req date items : ∀ s rs err s',
  store_ok s → dialogs_ok s → forward_each now req date items s = (rs, err, s') → dialogs_ok s'.
Proof.
  induction items as [|[source [id random]] items IH]; intros s rs err s' Hok Hd E; cbn [forward_each] in E; [by injection E as _ _ <-|].
  destruct (random =? 0); [by injection E as _ _ <-|].
  destruct (SendPrivateText now (forward_request req date source id random) s) as [r s1] eqn:E1.
  pose proof (SendPrivateText_dialogs _ _ _ _ _ Hok Hd E1) as Hd1. pose proof (st_ok _ _ _ (SendPrivateText_step _ _ _ _ _ Hok E1)) as Hok1.
  destruct r as [r|]; [|by injection E as _ _ <-].
  destruct (forward_each now req date items s1) as [[rs2 err2] s2] eqn:E2. injection E as _ _ <-. by eapply IH.
Qed.

Lemma ForwardPrivateMessages_dialogs now req s rs err s' :
  store_ok s → dialogs_ok s → ForwardPrivateMessages now req s = (rs, err, s') → dialogs_ok s'.
Proof.
  intros Hok Hd E. unfold ForwardPrivateMessages in E. cbv zeta in E.
  destruct (_ || _); [by injection E as _ _ <-|]. destruct (_ || _); [by injection E as _ _ <-|].
  destruct (_ <? _); [by injection E as _ _ <-|]. destruct (privateNoForwardsEnabled _ _ _); [by injection E as _ _ <-|].
  destruct (forward_sources _ _ _ _) as [sources|]; [by eapply forward_each_dialogs|by injection E as _ _ <-].
Qed.

(** ** Changes of flags *)

Lemma same_view_refl s : same_view s s.
Proof. by split_and!. Qed.

Lemma same_view_trans s s' s'' : same_view s s' → same_view s' s'' → same_view s s''.
Proof.
  intros (V1 & N1 & D1) (V2 & N2 & D2). split_and!; intros u; [by rewrite V2|specialize (N1 u); specialize (N2 u); lia|by rewrite D2].
Qed.

Lemma view_flags u (f : Message → Message) s s' :
  (∀ m, vkey (f m) = vkey m) → boxOf s' u = f <$> boxOf s u → (∀ v, v ≠ u → boxOf s' v = boxOf s v) →
  nextBox s' = nextBox s → dialogs s' = dialogs s → same_view s s'.
Proof.
  intros Hf Hu Hv Hn Hd. split_and!; intros v.
  - destruct (decide (v = u)) as [->|Hne]; [|by rewrite Hv]. rewrite Hu, <- list_fmap_compose. apply list_fmap_ext. intros _ m _. apply Hf.
  - unfold nextBoxOf. by rewrite Hn.
  - unfold dialogsOf. by rewrite Hd.
Qed.

Lemma set_box_view u (f : Message → Message) s : (∀ m, vkey (f m) = vkey m) → same_view s (set_box u (f <$> boxOf s u) s).
Proof.
  intros Hf. apply (view_flags u f); try done; [by rewrite boxOf_set_box, Z.eqb_refl|].
  intros v Hv. by rewrite boxOf_set_box, (proj2 (Z.eqb_neq _ _) Hv).
Qed.

Lemma apply_pins_view (b : bool) (changes : list (Z * Peer * Message)) : ∀ s,
  same_view s (apply_pins b changes s) ∧ dialogs (apply_pins b changes s) = dialogs s.
Proof.
  induction changes as [|[[u p] m] changes IH]; intros s; [by split|].
  change (apply_pins b ((u, p, m) :: changes) s) with (apply_pins b changes (flip_pin u (m_ID m) b s)).
  destruct (IH (flip_pin u (m_ID m) b s)) as [H ->]. split; [|done]. eapply same_view_trans; [|exact H].
  apply set_box_view. intros c. by destruct (m_ID c =? m_ID m).
Qed.

Lemma append_pins_view req es : ∀ s es' s', append_pins req es s = (es', s') →
  boxes s' = boxes s ∧ nextBox s' = nextBox s ∧ dialogs s' = dialogs s.
Proof.
  induction es as [|e es IH]; intros s es' s' E; cbn [append_pins] in E; [by injection E as _ <-|].
  destruct (nextPtsWithEventsLocked (UserID e) s) as [pts s1] eqn:E1. destruct (if UserID _ =? _ then _ else _) as [auth session].
  destruct (append_pins req es _) as [rest s2] eqn:E2. injection E as _ <-. apply IH in E2 as (-> & -> & ->).
  by injection E1 as _ <-.
Qed.

Lemma boxes_view s s' : boxes s' = boxes s → nextBox s' = nextBox s → dialogs s' = dialogs s → same_view s s'.
Proof. intros E1 E2 E3. split_and!; intros u; [unfold boxOf|unfold nextBoxOf|unfold dialogsOf]; by rewrite ?E1, ?E2, ?E3. Qed.

Lemma PinPrivateMessage_dialogs now random req s r s' :
  store_ok s → dialogs_ok s → PinPrivateMessage now random req s = (r, s') → dialogs_ok s'.
Proof.
  intros Hok Hd E. unfold PinPrivateMessage in E. cbv zeta in E.
  destruct (_ || _ || _); [by injection E as _ <-|]. destruct (_ || _); [by injection E as _ <-|].
  destruct (find_message _ _ _ _) as [owned|]; [|by injection E as _ <-].
  destruct (match m_Media owned with Some _ => _ | None => _ end); [by injection E as _ <-|].
  set (changes := List.filter _ _) in E. set (date := if pp_Date req =? 0 then now else pp_Date req) in E.
  assert (changes = [] ∨ changes ≠ []) as [Ec|Ec] by (destruct changes; [by left|by right]).
  { rewrite Ec in E. by injection E as _ <-. }
  destruct changes as [|x xs] eqn:Ech; [done|]. rewrite <- Ech in E. clear Ec x xs Ech.
  destruct (pp_Pinned req && negb (pp_PmOneside req) && negb (peer_ID (pp_Peer req) =? pp_OwnerUserID req)).
  - destruct (PrivateSendFingerprint _) as [fp|]; cbn [mbind res_bind] in E; [|destruct e; by injection E as _ <-].
    destruct (sendPrivateTextLocked _ _ _ _ _ _) as [[[sent es] s1]|err] eqn:Es; [|destruct err; by injection E as _ <-].
    injection E as _ <-. eapply sendPrivateTextLocked_dialogs; [exact Hok|by apply pins_harmless|exact Hd| | |exact Es].
    + intros es' u. by apply apply_pins_view.
    + intros es'. by apply apply_pins_view.
  - destruct (append_pins req _ s) as [es s1] eqn:Es. injection E as _ <-.
    destruct (append_pins_view _ _ _ _ _ Es) as (E1 & E2 & E3).
    apply (same_view_ok s); [|done]. eapply same_view_trans; [by apply (boxes_view s s1)|by apply apply_pins_view].
Qed.

Lemma unpin_view date req u p (g : Message → bool) ids s item s' :
  unpin_side req date u p ids (unpin_messages u g s) = (item, s') → same_view s s'.
Proof.
  intros E. unfold unpin_side in E. destruct (nextPtsWithEventsLocked u _) as [pts s1] eqn:E1.
  destruct (if u =? _ then _ else _) as [auth session]. injection E as _ <-. injection E1 as _ <-.
  eapply same_view_trans; [apply (set_box_view u (λ m, if g m then with_Pinned false m else m)); intros m; by destruct (g m)|].
  by apply boxes_view.
Qed.

Lemma UnpinAllPrivateMessages_dialogs now req s r s' :
  dialogs_ok s → UnpinAllPrivateMessages now req s = (r, s') → dialogs_ok s'.
Proof.
  intros Hd E. apply (same_view_ok s); [|done]. clear Hd. unfold UnpinAllPrivateMessages in E. cbv zeta in E.
  destruct (_ || _ || _); [injection E as _ <-; apply same_view_refl|].
  destruct (m_ID <$> take _ _) as [|i0 is0]; [injection E as _ <-; apply same_view_refl|].
  destruct (unpin_side req _ _ _ _ _) as [own s1] eqn:E1. apply unpin_view in E1.
  destruct (peer_ID (ua_Peer req) =? ua_OwnerUserID req); [by injection E as _ <-|].
  destruct (m_ID <$> List.filter _ _) as [|i1 is1].
  - injection E as _ <-. eapply same_view_trans; [exact E1|].
    apply (set_box_view _ (λ m, if shares_uid _ m && m_Pinned m then with_Pinned false m else m)). intros m. by destruct (_ && _).
  - destruct (unpin_side req _ _ _ _ _) as [other s2] eqn:E2. apply unpin_view in E2. injection E as _ <-. by eapply same_view_trans.
Qed.

Lemma EditMessage_dialogs now req s r s' : store_ok s → dialogs_ok s → EditMessage now req s = (r, s') → dialogs_ok s'.
Proof.
  intros Hok Hd E. destruct r as [ed|err].
  - destruct (EditMessage_cases _ _ _ _ _ E) as (date & target & ed0 & s1 & _ & _ & Eb & _ & ->).
    destruct (edit_all_spec _ _ _ _ _ _ _ Hok Eb) as (Hed & _ & Hn & _ & Hdi & _).
    apply (same_view_ok s); [|done]. split_and!; intros u.
    + change (vkey <$> boxOf s1 u = vkey <$> boxOf s u). destruct (Hed u) as [HF _]. symmetry. eapply Forall2_fmap_eq; [|exact HF].
      intros m m' Hm. destruct (edits_place _ _ _ _ _ _ Hm) as ((E1 & _ & _ & E4 & E5) & _ & Eo). unfold vkey. congruence.
    + unfold nextBoxOf. simpl. by rewrite Hn.
    + unfold dialogsOf. simpl. rewrite map_lookup_imap, Hdi. by destruct (dialogs s !! u).
  - unfold EditMessage in E. destruct (_ || _ || _ || _); [by injection E as _ <-|].
    destruct (find_message _ _ _ _) as [t|]; [|by injection E as _ <-].
    destruct (edit_refused req t); [by injection E as _ <-|].
    by destruct (edit_boxes _ _ _ _ _ _) as [ed s1].
Qed.

(** ** Reads *)

Lemma read_notes_view date read senders : ∀ s es s',
  read_notes date read senders s = (es, s') → same_view s s'.
Proof.
  induction senders as [|u senders IH]; intros s es s' E; cbn [read_notes] in E; [injection E as _ <-; apply same_view_refl|].
  cbv zeta in E. destruct (_ =? 0); [by apply IH in E|].
  set (g := note_read _) in E. destruct (nextPtsNLocked u _ _) as [pts s1] eqn:E1. destruct (read_notes date read senders s1) as [es' s2] eqn:E2.
  injection E as _ <-. apply IH in E2. unfold nextPtsNLocked in E1. injection E1 as _ <-.
  eapply same_view_trans; [|exact E2].
  eapply same_view_trans; [apply (set_box_view u (λ m, if g m then contents_read false (m_ReactionUnread m) m else m)); intros m; by destruct (g m)|].
  by apply boxes_view.
Qed.

Lemma refresh_keys uids s u :
  dkey <$> l_Dialogs (dialogsOf (fold_left (λ s uid, refreshPrivateReactionDialogSnapshotsLocked uid s) uids s) u)
  = dkey <$> l_Dialogs (dialogsOf s u).
Proof.
  revert s. induction uids as [|uid uids IH]; intros s; cbn [fold_left]; [done|]. rewrite IH.
  unfold refreshPrivateReactionDialogSnapshotsLocked. destruct (uid =? 0); [done|]. unfold dialogsOf. simpl. rewrite map_lookup_imap.
  destruct (dialogs s !! u) as [L|]; [|done]. simpl. unfold refresh_owner.
  generalize (boxOf s u). intros l. revert L. induction l as [|m l IHl]; intros L; cbn [fold_left]; [done|]. rewrite IHl.
  destruct (negb (m_UID m =? uid)); [done|]. simpl. by rewrite alter_dialog_keys.
Qed.

Lemma ReadMessageContents_dialogs now req s r s' :
  dialogs_ok s → ReadMessageContents now req s = (r, s') → dialogs_ok s'.
Proof.
  intros Hd E. apply (same_view_ok s); [|done]. unfold ReadMessageContents in E. cbv zeta in E.
  destruct (_ =? 0); [injection E as _ <-; apply same_view_refl|].
  destruct (_ <? _); [injection E as _ <-; apply same_view_refl|].
  destruct (existsb _ _); [injection E as _ <-; apply same_view_refl|].
  destruct (_ =? 0); [injection E as _ <-; apply same_view_refl|].
  destruct (read_notes _ _ _ _) as [es s2] eqn:E2. apply read_notes_view in E2.
  match type of E with context [fold_left ?f ?l s2] => set (s3 := fold_left f l s2) in E; pose proof (refresh_core l s2) as [Hc _];
    assert (∀ u, dkey <$> l_Dialogs (dialogsOf s3 u) = dkey <$> l_Dialogs (dialogsOf s2 u)) as Hk by (intros u; apply refresh_keys) end.
  fold s3 in Hc. destruct (nextPtsNLocked _ _ s3) as [pts s4] eqn:E4. injection E as _ <-. injection E4 as _ <-.
  eapply same_view_trans; [apply (set_box_view (rc_OwnerUserID req) (λ m, if content_unread (rc_IDs req) m then contents_read false false m else m));
    intros m; by destruct (content_unread _ m)|].
  eapply same_view_trans; [exact E2|]. split_and!; intros u.
  - change (vkey <$> boxOf s3 u = vkey <$> boxOf s2 u). by rewrite (core_boxOf _ _ u Hc).
  - change (nextBoxOf s2 u ≤ nextBoxOf s3 u). by rewrite (core_nextBox _ _ u Hc).
  - apply Hk.
Qed.

Lemma read_outbox_view owner date latest s out s' : read_outbox owner date latest s = (out, s') → same_view s s'.
Proof.
  intros E. unfold read_outbox in E. destruct latest as [l|]; [|injection E as _ <-; apply same_view_refl].
  destruct (_ || _); [injection E as _ <-; apply same_view_refl|]. destruct (_ <=? 0); [injection E as _ <-; apply same_view_refl|].
  destruct (find_dialog _ _) as [d|]; [|injection E as _ <-; apply same_view_refl].
  destruct (_ <=? d_ReadOutboxMaxID d); [injection E as _ <-; apply same_view_refl|]. injection E as _ <-.
  split_and!; intros u; [done|done|]. set (L := {| l_Dialogs := _; l_Messages := _ |}).
  change (dkey <$> l_Dialogs (dialogsOf (set_dialog_list (peer_ID (m_From l)) L s) u) = dkey <$> l_Dialogs (dialogsOf s u)).
  rewrite dialogsOf_set. destruct (Z.eqb_spec u (peer_ID (m_From l))) as [->|]; [|done]. by apply alter_dialog_keys.
Qed.

(** The marks of one dialog move. *)
Lemma read_mark_ok s u p d readMax (f : Dialog → Dialog) L :
  dialogs_ok s → find_dialog p (l_Dialogs (dialogsOf s u)) = Some d → 0 ≤ readMax ≤ nextBoxOf s u →
  (∀ d, dkey (f d) = (d_Peer d, d_TopMessage d, d_TopMessageDate d, readMax, count_unread p readMax (boxOf s u))) →
  dialogs_ok (set_dialog_list u {| l_Dialogs := alter_dialog p f (l_Dialogs (dialogsOf s u)); l_Messages := L |} s).
Proof.
  intros Hok Hf Hr Hk v. rewrite dialogsOf_set. change (dialogs_fit (nextBoxOf s v) (boxOf s v)
    (l_Dialogs (if v =? u then {| l_Dialogs := alter_dialog p f (l_Dialogs (dialogsOf s u)); l_Messages := L |} else dialogsOf s v))).
  destruct (Z.eqb_spec v u) as [->|]; [|apply Hok]. simpl. apply dialogs_fit_alter; [intros x; specialize (Hk x); by injection Hk|apply Hok|].
  intros x Hx Hp [U T S R]. specialize (Hk x). injection Hk as K1 K2 K3 K4 K5. split.
  - by rewrite K5, K1, K4, Hp.
  - by rewrite K1, K2, K3.
  - by rewrite K2.
  - by rewrite K4.
Qed.

Lemma dialog_top_bound s u d : store_ok s → dialogs_ok s → d ∈ l_Dialogs (dialogsOf s u) → d_TopMessage d ≤ nextBoxOf s u.
Proof.
  intros Hok Hd Hin. destruct (ds_fit _ _ _ (Hd u) d Hin) as [_ T S _]. pose proof (store_ids_range s u Hok) as Hr.
  destruct (top_message_spec (d_Peer d) (boxOf s u)) as [[H0 _]|[(m & Hm & _ & Ht) _]].
  - eapply Forall_impl; [exact Hr|]. simpl. lia.
  - rewrite <- T in H0. done.
  - rewrite Ht in T. injection T as -> _. rewrite Forall_forall in Hr. by apply Hr.
Qed.

Lemma ReadHistory_dialogs now req s r s' :
  store_ok s → dialogs_ok s → ReadHistory now req s = (r, s') → dialogs_ok s'.
Proof.
  intros Hok Hd E. unfold ReadHistory in E. cbv zeta in E. destruct (_ || _); [by injection E as _ <-|].
  destruct (find_dialog _ _) as [d|] eqn:Ed; [|by injection E as _ <-]. destruct (find_dialog_in _ _ _ Ed) as [Hin _].
  pose proof (dialog_top_bound s _ d Hok Hd Hin) as Htop. destruct (ds_fit _ _ _ (Hd _) d Hin) as [_ _ _ Hread].
  set (rm := if rr_MaxID req <=? 0 then d_TopMessage d else rr_MaxID req) in E.
  set (readMax := if d_TopMessage d <? rm then d_TopMessage d else rm) in E.
  destruct (Z.leb_spec readMax (d_ReadInboxMaxID d)) as [Hle|Hgt].
  { destruct (0 <? d_UnreadCount d); injection E as _ <-; [|done]. by eapply read_mark_ok. }
  destruct (nextPtsLocked _ _) as [pts s1] eqn:E1. destruct (read_outbox _ _ _ s1) as [out s2] eqn:E2. injection E as _ <-.
  apply read_outbox_view in E2. apply (same_view_ok _ _ E2). injection E1 as _ <-.
  match goal with |- dialogs_ok (set_nextPts ?n ?t) => change (dialogs_ok t) end. eapply read_mark_ok; [done|done| |done].
  assert (readMax ≤ d_TopMessage d) by (unfold readMax; destruct (Z.ltb_spec (d_TopMessage d) rm); lia). lia.
Qed.
End dialog.
