(* ===== verification/MessagesRebuild.v ===== *)
(** The dialogs after a deletion: those of the conversations that lost messages
    are rebuilt from the box, and a cleared one is read to its anchor. *)

From S2P Require Import Prelude GoStrings Updates Messages MessagesInv MessagesBox MessagesOps MessagesDelete MessagesSteps MessagesDialog.

Open Scope Z_scope.

#[local] Set Default Proof Using "Type".

Section rebuild.
Context {P Bytes : Type} `{!Codecs P Bytes} `{!EqDecision P}.

Abbreviation Message := (Message P).
Abbreviation Dialog := (Dialog P).
Abbreviation event := (event P).
Abbreviation store := (@MessageStore P Bytes).
Implicit Types (m c a : Message) (d : Dialog) (u v id uid pts nb : Z) (p q : Peer) (ps : list Peer) (s : store)
  (l b : list Message) (D : list Dialog).

(** The dialogs of the conversations [ps] are still to be rebuilt. *)
Record dialogs_due nb b D ps : Prop := {
  dd_peers : NoDup (d_Peer <$> D);
  dd_read d : d ∈ D → 0 ≤ d_ReadInboxMaxID d ≤ nb;
  dd_fit d : d ∈ D → d_Peer d ∉ ps → dialog_fits nb b d;
  dd_all m : m ∈ b → m_Peer m ∈ (d_Peer <$> D);
}.

Lemma fit_due nb b D ps : dialogs_fit nb b D → dialogs_due nb b D ps.
Proof. intros [H1 H2 H3]. split; try done; [intros d Hd; by apply H2|intros d Hd _; by apply H2]. Qed.

Lemma due_fit nb b D : dialogs_due nb b D [] → dialogs_fit nb b D.
Proof. intros [H1 H2 H3 H4]. split; try done. intros d Hd. apply H3; [done|]. apply not_elem_of_nil. Qed.

Lemma due_ext nb b D ps ps' : (∀ p, p ∈ ps → p ∈ ps') → dialogs_due nb b D ps → dialogs_due nb b D ps'.
Proof. intros Hp [H1 H2 H3 H4]. split; try done. intros d Hd Hn. apply H3; [done|]. intros ?%Hp. done. Qed.

Lemma rebuild_absent p b n D : p ∉ (d_Peer <$> D) → rebuild_dialogs p b n D = D.
Proof.
  induction D as [|d D IH]; intros H; [done|]. cbn [rebuild_dialogs]. rewrite fmap_cons, not_elem_of_cons in H. destruct H as [H1 H2].
  rewrite bool_decide_false by congruence. cbn [negb]. by rewrite IH.
Qed.

Definition rebuilt p b d : Dialog :=
  with_counters (top_message p b).1 (top_message p b).2 (d_ReadInboxMaxID d) (d_ReadOutboxMaxID d)
    (count_unread p (d_ReadInboxMaxID d) b) 0 0 (d_UnreadMark d) d.

(** Peers are unique, so at most one dialog is rebuilt. *)
Lemma rebuild_dialogs_spec p b D : NoDup (d_Peer <$> D) →
  rebuild_dialogs p b 0 D = d ← D; if negb (bool_decide (d_Peer d = p)) then [d]
                                   else if (top_message p b).1 =? 0 then [] else [rebuilt p b d].
Proof.
  induction D as [|d D IH]; intros Hnd; [done|]. rewrite fmap_cons in Hnd. apply NoDup_cons in Hnd as [Hn Hnd].
  cbn [rebuild_dialogs mbind list_bind]. destruct (bool_decide_reflect (d_Peer d = p)) as [E|E]; cbn [negb]; [|by rewrite IH].
  unfold rebuilt. destruct (top_message p b) as [top date]. simpl. subst p.
  destruct (top =? 0) eqn:E0; cbn [app]; [rewrite IH by done; cbn [fst]; by rewrite E0|]. f_equal. rewrite rebuild_absent by done.
  clear -Hn. induction D as [|x D IH]; [done|]. rewrite fmap_cons, not_elem_of_cons in Hn. destruct Hn as [H1 H2].
  cbn [mbind list_bind]. rewrite bool_decide_false by congruence. simpl. f_equal. by apply IH.
Qed.

Lemma elem_of_rebuild p b D x : NoDup (d_Peer <$> D) → x ∈ rebuild_dialogs p b 0 D ↔
  x ∈ D ∧ d_Peer x ≠ p ∨ (top_message p b).1 ≠ 0 ∧ ∃ d, d ∈ D ∧ d_Peer d = p ∧ x = rebuilt p b d.
Proof.
  intros Hnd. rewrite rebuild_dialogs_spec by done. rewrite list_elem_of_bind. split.
  - intros (d & Hx & Hd). destruct (bool_decide_reflect (d_Peer d = p)) as [E|E]; cbn [negb] in Hx.
    + destruct (Z.eqb_spec (top_message p b).1 0) as [|Hne]; [by apply elem_of_nil in Hx|].
      apply list_elem_of_singleton in Hx as ->. right. split; [done|]. by exists d.
    + apply list_elem_of_singleton in Hx as ->. by left.
  - intros [[Hx Hne]|(Hne & d & Hd & E & ->)].
    + exists x. split; [|done]. rewrite bool_decide_false by done. by left.
    + exists d. split; [|done]. rewrite bool_decide_true by done. cbn [negb]. rewrite (proj2 (Z.eqb_neq _ _) Hne). by left.
Qed.

Lemma rebuild_peers p b D : NoDup (d_Peer <$> D) → NoDup (d_Peer <$> rebuild_dialogs p b 0 D).
Proof.
  intros Hnd. apply (sublist_NoDup _ (d_Peer <$> D)); [done|]. rewrite rebuild_dialogs_spec by done. clear Hnd.
  induction D as [|d D IH]; [done|]. cbn [mbind list_bind]. rewrite fmap_app, fmap_cons.
  destruct (negb _); [by apply sublist_skip|]. destruct (_ =? 0); [by apply sublist_cons|]. by apply sublist_skip.
Qed.

Lemma rebuild_due nb b D p ps :
  Forall (λ m, 1 ≤ m_ID m) b → dialogs_due nb b D (p :: ps) → dialogs_due nb b (rebuild_dialogs p b 0 D) ps.
Proof.
  intros Hb [H1 H2 H3 H4]. split.
  - by apply rebuild_peers.
  - intros x [[Hx _]|(_ & d & Hd & _ & ->)]%elem_of_rebuild; [by apply H2|by apply (H2 d)|done].
  - intros x [[Hx Hne]|(Hne & d & Hd & E & ->)]%elem_of_rebuild Hps; [| |done].
    + apply H3; [done|]. by apply not_elem_of_cons.
    + split; simpl; rewrite ?E; try done; [by destruct (top_message p b)|by apply H2].
  - intros m Hm. specialize (H4 m Hm). apply list_elem_of_fmap in H4 as (d & E & Hd).
    apply list_elem_of_fmap. destruct (decide (m_Peer m = p)) as [Ep|Ep].
    + exists (rebuilt p b d). split; [simpl; congruence|]. apply elem_of_rebuild; [done|]. right.
      split; [|exists d; split_and!; congruence]. destruct (top_message_spec p b Hb) as [[_ Hno]|[(c & Hc & _ & ->) _]]; [by destruct (Hno m Hm)|].
      simpl. rewrite Forall_forall in Hb. specialize (Hb c Hc). simpl in Hb. lia.
    + exists d. split; [done|]. apply elem_of_rebuild; [done|]. left. split; congruence.
Qed.

(** The loop over the conversations that changed. *)
Lemma rebuilds_fit nb u ps : ∀ s,
  Forall (λ m, 1 ≤ m_ID m) (boxOf s u) → dialogs_due nb (boxOf s u) (l_Dialogs (dialogsOf s u)) ps →
  let s' := fold_left (rebuildMemoryDialogLocked u) ps s in
  dialogs_fit nb (boxOf s u) (l_Dialogs (dialogsOf s' u)) ∧ (∀ v, v ≠ u → dialogsOf s' v = dialogsOf s v).
Proof.
  induction ps as [|p ps IH]; intros s Hb Hd; cbn [fold_left]; cbv zeta; [split; [by apply due_fit|done]|].
  set (s1 := rebuildMemoryDialogLocked u s p).
  assert (∀ v, dialogsOf s1 v = if v =? u then {| l_Dialogs := rebuild_dialogs p (boxOf s u) 0 (l_Dialogs (dialogsOf s u)); l_Messages := boxOf s u |}
                                else dialogsOf s v) as Hs1 by (intros v; apply dialogsOf_set).
  change (boxOf s u) with (boxOf s1 u) in *. destruct (IH s1 Hb) as [H1 H2].
  - rewrite Hs1, Z.eqb_refl. by apply rebuild_due.
  - split; [done|]. intros v Hv. rewrite H2 by done. by rewrite Hs1, (proj2 (Z.eqb_neq _ _) Hv).
Qed.

(** ** The anchor *)

Definition anchor_top a b : Prop := ∀ m, m ∈ b → m_Peer m = m_Peer a → m_ID m ≤ m_ID a.

(** Turning a message of [q] into another of [q] changes nothing elsewhere. *)
Lemma view_elsewhere p q (f : Message → Message) r b :
  p ≠ q → (∀ m, m ∈ b → m_Peer (f m) = m_Peer m) → (∀ m, m ∈ b → m_Peer m ≠ q → f m = m) →
  count_unread p r (f <$> b) = count_unread p r b ∧ top_message p (f <$> b) = top_message p b.
Proof.
  intros Hpq Hf Hq. split.
  - unfold count_unread. f_equal. induction b as [|m b IH]; [done|]. rewrite fmap_cons. cbn [List.filter].
    assert (is_unread p r (f m) = is_unread p r m) as ->.
    { destruct (decide (m_Peer m = q)) as [E|E]; [|by rewrite (Hq m) by (by left || done)]. unfold is_unread. rewrite Hf by by left.
      by rewrite bool_decide_false by congruence. }
    specialize (IH ltac:(intros c Hc; apply Hf; by right) ltac:(intros c Hc; apply Hq; by right)).
    destruct (is_unread p r m); cbn [length]; lia.
  - unfold top_message. generalize (0, 0). induction b as [|m b IH]; intros t; [done|]. rewrite fmap_cons. cbn [fold_left].
    specialize (IH ltac:(intros c Hc; apply Hf; by right) ltac:(intros c Hc; apply Hq; by right)).
    rewrite Hf by by left. destruct (decide (m_Peer m = q)) as [E|E].
    + rewrite bool_decide_false by congruence. cbn [andb]. apply IH.
    + rewrite (Hq m) by (by left || done). apply IH.
Qed.

Lemma anchored_due nb b D ps u pts a :
  NoDup (m_ID <$> b) → a ∈ b → dialogs_due nb b D ps → dialogs_due nb (anchored u pts (Some a) b) D (ps ++ [m_Peer a]).
Proof.
  intros Hnd Ha [H1 H2 H3 H4]. unfold anchored. set (f := λ m, if m_ID m =? m_ID a then clear_copy u pts a else m).
  assert (∀ m, m ∈ b → m_ID m = m_ID a → m = a) as Heq by (intros m Hm; by apply (fmap_inj_in m_ID b)).
  assert (∀ m, m ∈ b → m_Peer (f m) = m_Peer m) as Hpeer.
  { intros m Hm. unfold f. destruct (Z.eqb_spec (m_ID m) (m_ID a)) as [E|]; [by rewrite (Heq m Hm E)|done]. }
  split; try done.
  - intros d Hd Hn. rewrite elem_of_app, list_elem_of_singleton in Hn. destruct (H3 d Hd) as [U T S R]; [tauto|].
    destruct (view_elsewhere (d_Peer d) (m_Peer a) f (d_ReadInboxMaxID d) b) as [EU ET]; [tauto|exact Hpeer| |].
    + intros m Hm Hne. unfold f. destruct (Z.eqb_spec (m_ID m) (m_ID a)) as [E|]; [by rewrite (Heq m Hm E) in Hne|done].
    + split; [by rewrite EU|by rewrite ET|done|done].
  - intros x (m & -> & Hm)%list_elem_of_fmap. rewrite Hpeer by done. by apply H4.
Qed.

(** A conversation that is read to its anchor has nothing unread. *)
Lemma advance_fit nb b D u pts a :
  dialogs_fit nb (anchored u pts (Some a) b) D → anchor_top a b → 1 ≤ m_ID a ≤ nb →
  dialogs_fit nb (anchored u pts (Some a) b) (alter_dialog (m_Peer a) (λ d,
      with_counters (d_TopMessage d) (d_TopMessageDate d)
        (if d_ReadInboxMaxID d <? m_ID a then m_ID a else d_ReadInboxMaxID d) (d_ReadOutboxMaxID d) 0 0 0 false d) D).
Proof.
  intros Hfit Htop Hid. apply dialogs_fit_alter; [done|done|]. intros d Hd Hp [U T S R].
  set (r := if d_ReadInboxMaxID d <? m_ID a then m_ID a else d_ReadInboxMaxID d).
  assert (m_ID a ≤ r ∧ r ≤ nb) as [Hr1 Hr2] by (unfold r; destruct (Z.ltb_spec (d_ReadInboxMaxID d) (m_ID a)); lia).
  split; simpl; [|done|done|lia]. fold r. rewrite Hp. unfold count_unread. rewrite lfilter_none; [done|].
  apply Forall_forall. intros x (m & -> & Hm)%list_elem_of_fmap. unfold is_unread.
  destruct (Z.eqb_spec (m_ID m) (m_ID a)) as [E|E]; [simpl; by rewrite andb_false_r|].
  destruct (bool_decide_reflect (m_Peer m = m_Peer a)) as [Ep|Ep]; [|done]. specialize (Htop m Hm Ep).
  rewrite (proj2 (Z.ltb_ge r (m_ID m))) by lia. by rewrite andb_false_r.
Qed.

Lemma notes_dialogs u e rows s : dialogs (fold_left (note_deletion u e) rows s) = dialogs s.
Proof.
  revert s. induction rows as [|r rows IH]; intros s; simpl; [done|]. rewrite IH. unfold note_deletion.
  destruct (_ || _); [done|]. by destruct (privateSendDedup s !! _).
Qed.

Lemma forget_tag_dialogs u id s : dialogs (forget_tag u id s) = dialogs s.
Proof. unfold forget_tag. destruct (savedMessageTags s !! u); [|done]. by case_bool_decide. Qed.

Lemma forget_tags_dialogs (rows : list deletedMemoryMessage) s :
  dialogs (fold_left (λ s r, forget_tag (dr_userID r) (dr_id r) s) rows s) = dialogs s.
Proof. revert s. induction rows as [|r rows IH]; intros s; simpl; [done|]. by rewrite IH, forget_tag_dialogs. Qed.

Lemma materialize_dialogs u cursor date a s es s' :
  materialize_anchor u cursor date a s = (es, s') → dialogs s' = dialogs s.
Proof. intros E. unfold materialize_anchor in E. injection E as _ <-. by rewrite forget_tag_dialogs. Qed.

Lemma dialogs_dialogsOf s s' u : dialogs s' = dialogs s → dialogsOf s' u = dialogsOf s u.
Proof. intros E. unfold dialogsOf. by rewrite E. Qed.

Lemma due_nothing nb b D (deleted : list deletedMemoryMessage) u :
  ids_of deleted u = [] → dialogs_due nb b D (peers_of deleted u) → dialogs_fit nb b D.
Proof.
  intros E H. apply due_fit. eapply due_ext; [|exact H]. intros p (r & Hr & Eu & _)%peers_of_elem. exfalso.
  apply (not_elem_of_nil (dr_id r)). rewrite <- E. apply ids_of_elem. by exists r.
Qed.

Section owner.
Context (deleted : list deletedMemoryMessage) (date : Z) (anchors : gmap Z (memoryHistoryClearAnchor (P := P))).

Definition owner_due s u : Prop :=
  dialogs_due (nextBoxOf s u) (boxOf s u) (l_Dialogs (dialogsOf s u)) (peers_of deleted u)
  ∧ anchor_in anchors s u ∧ ∀ x, anchors !! u = Some x → anchor_top (ha_message x) (boxOf s u).

(** The dialogs at the end of an owner's turn, once its box is settled. *)
Lemma settled_fit u (anchor : option Message) pts s s3 ps :
  store_ok s → (∀ a, anchor = Some a → a ∈ boxOf s u ∧ anchor_top a (boxOf s u)) →
  dialogs_due (nextBoxOf s u) (boxOf s u) (l_Dialogs (dialogsOf s u)) (peers_of deleted u) →
  (∀ p, p ∈ peers_of deleted u → p ∈ ps) → (∀ a, anchor = Some a → m_Peer a ∈ ps) →
  boxOf s3 u = anchored u pts anchor (boxOf s u) → dialogs s3 = dialogs s →
  let s4 := fold_left (rebuildMemoryDialogLocked u) ps s3 in
  let s5 := match anchor with Some a => advanceMemoryHistoryClearDialogLocked u (m_Peer a) (m_ID a) s4 | None => s4 end in
  dialogs_fit (nextBoxOf s u) (boxOf s3 u) (l_Dialogs (dialogsOf s5 u)) ∧ ∀ v, v ≠ u → dialogsOf s5 v = dialogsOf s v.
Proof using.
  intros Hok Ha Hdue Hps Hpa Hb Hd. cbv zeta. pose proof (store_ids_range s u Hok) as Hids.
  assert (Forall (λ m, 1 ≤ m_ID m) (boxOf s3 u)) as Hb3.
  { rewrite Hb. apply Forall_forall. intros x Hx. rewrite Forall_forall in Hids. destruct anchor as [a|]; [|by apply Hids].
    apply list_elem_of_fmap in Hx as (m & -> & Hm). destruct (Z.eqb_spec (m_ID m) (m_ID a)) as [E|]; [simpl; rewrite <- E|]; by apply Hids. }
  assert (dialogs_due (nextBoxOf s u) (boxOf s3 u) (l_Dialogs (dialogsOf s3 u)) ps) as Hdue3.
  { rewrite Hb, (dialogs_dialogsOf s s3 u Hd). destruct anchor as [a|]; [|by eapply due_ext].
    eapply due_ext; [|eapply anchored_due; [by eapply box_ids|by apply Ha|exact Hdue]].
    intros p [Hp| ->%list_elem_of_singleton]%elem_of_app; [by apply Hps|by apply Hpa]. }
  destruct (rebuilds_fit _ u ps s3 Hb3 Hdue3) as [Hfit Hother]. set (s4 := fold_left _ ps s3) in *.
  destruct anchor as [a|]; [|split; [done|]; intros v Hv; by rewrite Hother, (dialogs_dialogsOf s s3 v Hd)].
  destruct (Ha a eq_refl) as [Hin Htop]. split.
  - unfold advanceMemoryHistoryClearDialogLocked. cbv zeta. rewrite dialogsOf_set, Z.eqb_refl. simpl.
    rewrite Hb in Hfit |- *. apply advance_fit; [exact Hfit|exact Htop|]. rewrite Forall_forall in Hids. by apply Hids.
  - intros v Hv. unfold advanceMemoryHistoryClearDialogLocked. cbv zeta. rewrite dialogsOf_set, (proj2 (Z.eqb_neq _ _) Hv), Hother by done.
    by rewrite (dialogs_dialogsOf s s3 v Hd).
Qed.

Lemma finish_owner_dialogs u s item s' :
  store_ok s → in_range_ids (ids_of deleted u) → owner_due s u →
  finish_owner deleted date anchors u s = Some (item, s') →
  dialogs_fit (nextBoxOf s u) (boxOf s' u) (l_Dialogs (dialogsOf s' u)) ∧ ∀ v, v ≠ u → dialogsOf s' v = dialogsOf s v.
Proof using.
  intros Hok Hr (Hdue & Ha & Htop) E. unfold finish_owner in E. cbv zeta in E. fold (ids_of deleted u) (peers_of deleted u) in E.
  set (ids := normalizeMemoryMessageIDs (ids_of deleted u)) in E.
  set (anchor := x ← anchors !! u; if ha_materialized x then None else Some (ha_message x)) in E.
  assert (∀ a, anchor = Some a → a ∈ boxOf s u ∧ anchor_top a (boxOf s u) ∧ is_Some (anchors !! u) ∧ ∀ x, anchors !! u = Some x → ha_message x = a) as Hanchor.
  { intros a. unfold anchor. destruct (anchors !! u) as [x|] eqn:Ex; [|done]. simpl. destruct (ha_materialized x); [done|].
    intros [= <-]. split_and!; [by apply Ha|by apply Htop|done|by intros y [= ->]]. }
  match type of E with context [fold_left (rebuildMemoryDialogLocked u) ?l] => set (ps := l) in E end.
  set (total := Z.of_nat (length ids) + match anchor with Some _ => 2 | None => 0 end) in E.
  destruct (Z.eqb_spec total 0) as [E0|E0].
  { injection E as _ <-. split; [|done]. eapply due_nothing; [|exact Hdue].
    assert (ids = []) as Ei by (unfold total in E0; destruct anchor, ids; simpl in E0; try lia; done).
    destruct (ids_of deleted u) as [|i l] eqn:El; [done|]. exfalso. apply (not_elem_of_nil i). rewrite <- Ei. apply normalize_elem.
    split; [by left|]. apply Hr. by left. }
  unfold nextPtsNLocked in E.
  destruct (if 0 <? Z.of_nat (length ids) then _ else _) as [[cursor1 o] s2] eqn:E2.
  assert (boxes s2 = boxes s ∧ nextUID s2 = nextUID s ∧ nextBox s2 = nextBox s ∧ dialogs s2 = dialogs s) as (B2 & U2 & N2 & Hd2).
  { destruct (0 <? Z.of_nat (length ids)); injection E2 as _ _ <-; [|done]. rewrite notes_dialogs.
    match goal with |- context [fold_left (note_deletion u ?e) deleted ?t] => destruct (notes_kept u e deleted t) as [Hc _] end.
    split_and!; [exact (f_equal (λ x, x.1.1.1) Hc)|exact (f_equal (λ x, x.1.1.2) Hc)|exact (f_equal (λ x, x.1.2) Hc)|done]. }
  assert (∀ v, boxOf s2 v = boxOf s v) as Hb2 by (intros v; by apply boxes_boxOf).
  destruct (match anchor with
            | Some a => let '(es, s) := materialize_anchor u cursor1 date a s2 in (cursor1 + 2, es, s)
            | None => (cursor1, [], s2)
            end) as [[cursor2 es] s3] eqn:E3.
  assert (∃ pts, boxOf s3 u = anchored u pts anchor (boxOf s u) ∧ dialogs s3 = dialogs s) as (pts & Hb3 & Hd3).
  { destruct anchor as [a|]; [|injection E3 as _ _ <-; exists 0; by rewrite Hb2].
    destruct (materialize_anchor u cursor1 date a s2) as [es' s3'] eqn:Em. injection E3 as _ _ <-. exists (cursor1 + 2).
    assert (store_ok s2) as Hok2.
    { eapply boxes_ok_ext; [| | |exact Hok]; [by rewrite U2|intros v; unfold nextBoxOf; by rewrite N2|intros v; by rewrite Hb2]. }
    destruct (materialize_spec _ _ _ _ _ _ _ Hok2 ltac:(rewrite Hb2; by apply Hanchor) Em) as (Hb & _).
    by rewrite Hb, Z.eqb_refl, Hb2, (materialize_dialogs _ _ _ _ _ _ _ Em). }
  destruct (settled_fit u anchor pts s s3 ps Hok) as [Hfit Hother]; try done.
  - intros a Ea. by destruct (Hanchor a Ea) as (? & ? & _).
  - intros p Hp. unfold ps. apply elem_of_remove_dups, elem_of_app. by left.
  - intros a Ea. destruct (Hanchor a Ea) as (_ & _ & [x Ex] & Hx). unfold ps. rewrite Ex. apply elem_of_remove_dups, elem_of_app. right.
    rewrite (Hx x Ex). by left.
  - cbv zeta in Hfit, Hother. match type of Hfit with dialogs_fit _ _ (l_Dialogs (dialogsOf ?t u)) => set (s5 := t) in * end.
    destruct (negb _); [done|]. injection E as _ <-. split; [|done].
    assert (boxOf s5 u = boxOf s3 u) as ->; [|done]. apply core_boxOf. unfold s5. by destruct (finish_dialogs u ps anchor s3).
Qed.

Lemma finish_owners_dialogs owners : ∀ s items s',
  store_ok s → (∀ u, in_range_ids (ids_of deleted u)) → (∀ u, u ∈ owners → owner_due s u) → NoDup owners →
  finish_owners deleted date anchors owners s = Some (items, s') →
  (∀ u, u ∈ owners → dialogs_fit (nextBoxOf s' u) (boxOf s' u) (l_Dialogs (dialogsOf s' u)))
  ∧ (∀ u, u ∉ owners → dialogsOf s' u = dialogsOf s u).
Proof using.
  induction owners as [|u owners IH]; intros s items s' Hok Hr Hdue Hnd E; cbn [finish_owners] in E.
  { injection E as _ <-. split; [by intros u ?%elem_of_nil|done]. }
  apply NoDup_cons in Hnd as [Hu Hnd]. destruct (Hdue u ltac:(by left)) as (Hd & Ha & Ht).
  destruct (finish_owner_spec deleted date anchors u s Hok (Hr u) Ha) as (item & s1 & E1 & Hok1 & _ & _ & En1 & Hv1 & _).
  destruct (finish_owner_dialogs u s item s1 Hok (Hr u) (Hdue u ltac:(by left)) E1) as [Hfit Hother].
  rewrite E1 in E. cbn [mbind option_bind] in E.
  destruct (finish_owners deleted date anchors owners s1) as [[items' s2]|] eqn:E2; [|done]. injection E as _ <-.
  assert (∀ v, v ∈ owners → v ≠ u ∧ owner_due s1 v) as Hdue1.
  { intros v Hv. assert (v ≠ u) as Hne by by intros ->. split; [done|]. destruct (Hv1 v Hne) as [Eb _]. unfold owner_due, anchor_in.
    rewrite Eb, Hother by done. unfold nextBoxOf. rewrite En1. apply (Hdue v). by right. }
  destruct (finish_owners_spec deleted date anchors owners s1) as (items2 & s3 & E3 & _ & _ & _ & En2 & _ & Hout);
    [done|done|intros v Hv; by apply Hdue1|done|].
  rewrite E2 in E3. injection E3 as <- <-.
  destruct (IH s1 items' s2 Hok1 Hr ltac:(intros v Hv; by apply Hdue1) Hnd E2) as [H1 H2]. split.
  - intros v [->|Hv]%elem_of_cons; [|by apply H1]. destruct (Hout u Hu) as (-> & _). rewrite H2 by done.
    unfold nextBoxOf. rewrite En2, En1. exact Hfit.
  - intros v [Hne Hv]%not_elem_of_cons. rewrite H2 by done. by apply Hother.
Qed.

Lemma finishMemoryDeleteLocked_dialogs s s1 items s' :
  store_ok s → (∀ u, nextBoxOf s u ≤ MaxMessageBoxID) → dialogs_ok s → removed s s1 deleted →
  (∀ u, anchor_in anchors s1 u) → (∀ u x, anchors !! u = Some x → anchor_top (ha_message x) (boxOf s u)) →
  finishMemoryDeleteLocked deleted date anchors s1 = Some (items, s') → dialogs_ok s'.
Proof using.
  intros Hok Hmax Hd Hrm Ha Ht E. destruct (finishMemoryDeleteLocked_spec deleted date anchors s s1 Hok Hmax Hrm Ha)
    as (items' & s'' & E' & _ & _ & _ & En' & _). rewrite E in E'. injection E' as <- <-.
  unfold finishMemoryDeleteLocked in E. cbv zeta in E. destruct (forget_tags_core deleted s1) as [Hc _].
  pose proof (forget_tags_dialogs deleted s1) as Hdt. set (s2 := fold_left _ deleted s1) in *. set (owners := sort_ids _) in E.
  pose proof (removed_ok _ _ _ Hrm Hok) as Hok1. destruct Hrm as [B W R _ (I1 & I2 & I3) Dd].
  assert (store_ok s2) as Hok2 by by apply (core_ok s1).
  assert (∀ u, boxOf s2 u = List.filter (keep (ids_of deleted u)) (boxOf s u)) as Hb2 by (intros u; by rewrite (core_boxOf _ _ u Hc)).
  assert (∀ u, nextBoxOf s2 u = nextBoxOf s u) as Hn2 by (intros u; rewrite (core_nextBox _ _ u Hc); unfold nextBoxOf; by rewrite I2).
  assert (∀ u, dialogsOf s2 u = dialogsOf s u) as Hd2 by (intros u; unfold dialogsOf; by rewrite Hdt, Dd).
  assert (∀ u, in_range_ids (ids_of deleted u)) as Hr.
  { intros u i Hi%W. apply list_elem_of_fmap in Hi as (m & -> & Hm). pose proof (message_in_ok s u m Hok Hm) as [Hid _ _ _ _ _ _].
    specialize (Hmax u). lia. }
  assert (∀ u, owner_due s2 u) as Hdue.
  { intros u. destruct (Hd u) as [H1 H2 H3]. split; [|split].
    - rewrite Hb2, Hn2, Hd2. split; [done|intros d Hin; by apply H2| |].
      + intros d Hin Hn. destruct (H2 d Hin) as [U T S Q].
        assert (∀ m, m ∈ boxOf s u → m_Peer m = d_Peer d → keep (ids_of deleted u) m = true) as Hkeep.
        { intros m Hm Hp. unfold keep. rewrite bool_decide_false; [done|]. intros Hid. apply Hn. rewrite <- Hp. by apply R. }
        split; [by rewrite count_unread_filter|by rewrite top_message_filter|done|done].
      + intros m [_ Hm]%elem_of_lfilter. by apply H3.
    - intros x Ex. rewrite (core_boxOf _ _ u Hc). by apply Ha.
    - intros x Ex m Hm. rewrite Hb2 in Hm. apply elem_of_lfilter in Hm as [_ Hm]. by apply (Ht u). }
  destruct (finish_owners_dialogs owners s2 items s' Hok2 Hr) as [Hin Hout]; [by intros u _| |exact E|].
  { unfold owners, sort_ids. rewrite merge_sort_Permutation. apply NoDup_remove_dups. }
  destruct (finish_owners_spec deleted date anchors owners s2) as (items3 & s3 & E3 & _ & _ & _ & _ & _ & Hout');
    [done|done|intros u _; apply Hdue|unfold owners, sort_ids; rewrite merge_sort_Permutation; apply NoDup_remove_dups|].
  rewrite E in E3. injection E3 as <- <-. intros u. destruct (decide (u ∈ owners)) as [Hu|Hu]; [by apply Hin|].
  destruct (Hout' u Hu) as (-> & _). rewrite Hout by done. unfold nextBoxOf. rewrite En'. rewrite <- Hn2 || idtac.
  assert (ids_of deleted u = []) as Eids.
  { unfold ids_of. rewrite lfilter_none; [done|]. apply Forall_forall. intros r Hrow. apply Z.eqb_neq. intros E'. apply Hu.
    unfold owners. rewrite sort_ids_elem, elem_of_remove_dups, elem_of_app. left. rewrite <- E'. apply list_elem_of_fmap. by exists r. }
  destruct (Hdue u) as (Hdd & _). apply (due_nothing _ _ _ deleted u Eids) in Hdd. rewrite Hn2 in Hdd. exact Hdd.
Qed.
End owner.

Lemma clear_anchor_top u p s x :
  store_ok s → memoryHistoryClearAnchorLocked s u p = Some x → anchor_top (ha_message x) (boxOf s u).
Proof.
  intros Hok. pose proof (store_ids_range s u Hok) as Hb. unfold memoryHistoryClearAnchorLocked. cbv zeta.
  set (f := λ (top : option Message) m, if bool_decide (m_Peer m = p) && (default 0 (m_ID <$> top) <? m_ID m) then Some m else top).
  assert (∀ l, Forall (λ m, 1 ≤ m_ID m ≤ nextBoxOf s u) l → ∀ top, fold_left f l None = Some top →
    m_Peer top = p ∧ ∀ m, m ∈ l → m_Peer m = p → m_ID m ≤ m_ID top) as H.
  { intros l Hl. assert ((fold_left f l None = None ∧ ∀ m, m ∈ l → m_Peer m ≠ p) ∨ ∃ top, fold_left f l None = Some top ∧ m_Peer top = p
      ∧ ∀ m, m ∈ l → m_Peer m = p → m_ID m ≤ m_ID top) as [[E _]|(top & E & H)]; [|by rewrite E|by intros top' E'; rewrite E in E'; injection E' as <-].
    induction l as [|c l IH] using rev_ind; [left; split; [done|by intros m ?%elem_of_nil]|].
    apply Forall_app in Hl as [Hl Hc]. apply Forall_cons in Hc as [Hc _]. rewrite fold_left_app. cbn [fold_left].
    destruct (IH Hl) as [[-> Hno]|(top & -> & Htp & Hmax)]; unfold f; cbn [fmap option_fmap option_map default id].
    - rewrite (proj2 (Z.ltb_lt 0 (m_ID c))), andb_true_r by lia. destruct (bool_decide_reflect (m_Peer c = p)) as [Ep|Ep]; [right; exists c|left].
      + split_and!; [done|done|]. intros m [Hm| ->%list_elem_of_singleton]%elem_of_app Hp; [by destruct (Hno m Hm)|done].
      + split; [done|]. intros m [Hm| ->%list_elem_of_singleton]%elem_of_app; [by apply Hno|done].
    - right. destruct (bool_decide_reflect (m_Peer c = p)) as [Ep|Ep]; cbn [andb].
      + destruct (Z.ltb_spec (m_ID top) (m_ID c)); [exists c|exists top]; (split; [reflexivity|split; [done|]]);
          intros m [Hm| ->%list_elem_of_singleton]%elem_of_app Hp; try lia; specialize (Hmax m Hm Hp); lia.
      + exists top. split_and!; [done|done|]. intros m [Hm| ->%list_elem_of_singleton]%elem_of_app; [by apply Hmax|done]. }
  destruct (fold_left f (boxOf s u) None) as [top|] eqn:E; [|done]. intros [= <-]. simpl. destruct (H _ Hb _ E) as [<- H']. exact H'.
Qed.

Lemma history_anchors_top req s u x : store_ok s → history_anchors req s !! u = Some x → anchor_top (ha_message x) (boxOf s u).
Proof.
  intros Hok. assert (∀ v p an, (∀ x, an !! u = Some x → anchor_top (ha_message x) (boxOf s u)) →
    ∀ x, add_anchor s v p an !! u = Some x → anchor_top (ha_message x) (boxOf s u)) as Hadd.
  { intros v p an Han y. unfold add_anchor. destruct (memoryHistoryClearAnchorLocked s v p) as [z|] eqn:Ez; [|apply Han].
    destruct (decide (u = v)) as [->|Hne]; [|rewrite lookup_insert_ne by done; apply Han].
    rewrite lookup_insert_eq. intros [= <-]. by eapply clear_anchor_top. }
  unfold history_anchors. destruct (_ && _ && _ && _); [|done]. cbv zeta.
  destruct (_ && _); [apply Hadd; by apply Hadd|by apply Hadd].
Qed.

(** ** Deletions *)

Lemma DeleteMessages_dialogs now req s r s' :
  store_ok s → (∀ u, nextBoxOf s u ≤ MaxMessageBoxID) → dialogs_ok s → DeleteMessages now req s = Some (r, s') → dialogs_ok s'.
Proof.
  intros Hok Hmax Hd E. destruct (DeleteMessages_cases now req s Hok) as [(r0 & E0 & _)|(rows & date & s1 & Hrm & E0)]; rewrite E0 in E.
  - by injection E as _ <-.
  - destruct (finishMemoryDeleteLocked rows date ∅ s1) as [[items s2]|] eqn:Ef; [|done]. injection E as _ <-.
    by apply (finishMemoryDeleteLocked_dialogs rows date ∅ s s1 items).
Qed.

Lemma DeleteHistory_dialogs now req s r s' :
  store_ok s → (∀ u, nextBoxOf s u ≤ MaxMessageBoxID) → dialogs_ok s → DeleteHistory now req s = Some (r, s') → dialogs_ok s'.
Proof.
  intros Hok Hmax Hd E. destruct (DeleteHistory_cases now req s Hok) as [(r0 & E0 & _)|(rows & date & off & s1 & Hrm & Ha & E0)]; rewrite E0 in E.
  - by injection E as _ <-.
  - destruct (finishMemoryDeleteLocked rows date _ s1) as [[items s2]|] eqn:Ef; [|done]. injection E as _ <-.
    apply (finishMemoryDeleteLocked_dialogs rows date (history_anchors req s) s s1 items); try done.
    intros u x. by apply history_anchors_top.
Qed.
End rebuild.
