(* ===== verification/MessagesRun.v ===== *)
(** The store at work: operations in any order, with other services writing to
    the companion stores in between. *)

From S2P Require Import Prelude GoStrings Updates Messages MessagesInv MessagesBox MessagesOps MessagesDelete MessagesSteps.
From S2P Require Import MessagesDialog MessagesRebuild.

Open Scope Z_scope.

#[local] Set Default Proof Using "Type".

Section run.
Context {P Bytes : Type} `{!Codecs P Bytes} `{!EqDecision P}.

Abbreviation Message := (Message P).
Abbreviation event := (event P).
Abbreviation store := (@MessageStore P Bytes).
Implicit Types (m c : Message) (u v id uid pts now : Z) (p : Peer) (s : store) (l : list Message) (e : event) (es : list event).

(** [Companions]: other services append to the update log, change dialogs,
    saved tags, read dates and the no-forwards flags. *)
Inductive op :=
  | Send now (req : SendPrivateTextRequest P)
  | Forward now (req : ForwardPrivateMessagesRequest (P := P))
  | Read now (req : ReadHistoryRequest)
  | Contents now (req : ReadMessageContentsRequest)
  | Edit now (req : EditMessageRequest P)
  | Delete now (req : DeleteMessagesRequest)
  | Clear now (req : DeleteHistoryRequest)
  | Pin now (random : Z) (req : PinPrivateMessageRequest)
  | UnpinAll now (req : UnpinAllPrivateMessagesRequest)
  | Companions (d : gmap Z (DialogList P)) (log : @UpdateEventStore (content P)) (tags : gmap Z (gmap Z (list P)))
      (flags : gmap (Z * Z) Z).

Definition companions d log tags flags s : store :=
  mkStore (boxes s) (nextUID s) (nextBox s) (nextPts s) (readOutboxDates s) tags (privateSendDedup s) d log flags.

(** The events that are sent on, and the new store; [None] is a panic. *)
Definition perform (o : op) s : option (list event * store) :=
  match o with
  | Send now req =>
      let '(r, s) := SendPrivateText now req s in Some (match r with OK r => send_events r | ERR _ => [] end, s)
  | Forward now req => let '(rs, _, s) := ForwardPrivateMessages now req s in Some (forward_events rs, s)
  | Read now req => let '(r, s) := ReadHistory now req s in Some (read_events r, s)
  | Contents now req =>
      let '(r, s) := ReadMessageContents now req s in Some (match r with OK r => contents_events r | ERR _ => [] end, s)
  | Edit now req =>
      let '(r, s) := EditMessage now req s in Some (match r with OK ed => edit_events ed | ERR _ => [] end, s)
  | Delete now req =>
      '(r, s) ← DeleteMessages now req s; Some (match r with OK r => deletion_events r | ERR _ => [] end, s)
  | Clear now req => '(r, s) ← DeleteHistory now req s; Some (deletion_events r, s)
  | Pin now random req =>
      let '(r, s) := PinPrivateMessage now random req s in Some (match r with OK r => pin_events r | ERR _ => [] end, s)
  | UnpinAll now req =>
      let '(r, s) := UnpinAllPrivateMessages now req s in Some (match r with OK r => pin_events r | ERR _ => [] end, s)
  | Companions d log tags flags => Some ([], companions d log tags flags s)
  end.

(** Box ids are what the wire can carry, and previews come from the author. *)
Definition allowed (o : op) s : Prop :=
  (∀ u, nextBoxOf s u ≤ MaxMessageBoxID) ∧
  match o with Edit _ req => resolved_by_author req s | _ => True end.

Lemma perform_step o s : store_ok s → allowed o s → ∃ es s', perform o s = Some (es, s') ∧ step_ok s s' es.
Proof.
  intros Hok [Hmax Ho]. destruct o as [now req|now req|now req|now req|now req|now req|now req|now random req|now req|d log tags flags];
    cbn [perform].
  - destruct (SendPrivateText now req s) as [r s'] eqn:E. eexists _, s'. split; [done|]. by eapply SendPrivateText_step.
  - destruct (ForwardPrivateMessages now req s) as [[rs err] s'] eqn:E. eexists _, s'. split; [done|]. by eapply ForwardPrivateMessages_step.
  - destruct (ReadHistory now req s) as [r s'] eqn:E. eexists _, s'. split; [done|]. by eapply ReadHistory_step.
  - destruct (ReadMessageContents now req s) as [r s'] eqn:E. eexists _, s'. split; [done|]. by eapply ReadMessageContents_step.
  - destruct (EditMessage now req s) as [r s'] eqn:E. eexists _, s'. split; [done|]. by eapply EditMessage_step.
  - destruct (DeleteMessages_step now req s Hok Hmax) as (r & s' & E & H). rewrite E. by eexists _, s'.
  - destruct (DeleteHistory_step now req s Hok Hmax) as (r & s' & E & H). rewrite E. by eexists _, s'.
  - destruct (PinPrivateMessage now random req s) as [r s'] eqn:E. eexists _, s'. split; [done|]. by eapply PinPrivateMessage_step.
  - destruct (UnpinAllPrivateMessages now req s) as [r s'] eqn:E. eexists _, s'. split; [done|]. by eapply UnpinAllPrivateMessages_step.
  - exists [], (companions d log tags flags s). split; [done|]. apply step_same.
    + apply (boxes_store_ok s); by try split_and!.
    + by apply delivered_nothing.
    + done.
    + by apply receipts_kept_eq.
Qed.

(** From [s] the store gets to [s'] by operations that satisfy [ok], and [es] was
    sent on in between. *)
Inductive runs (ok : op → store → Prop) s : list event → store → Prop :=
  | runs_start : runs ok s [] s
  | runs_next es s1 o es' s2 : runs ok s es s1 → ok o s1 → perform o s1 = Some (es', s2) → runs ok s (es ++ es') s2.

Lemma runs_mono (ok ok' : op → store → Prop) s es s' : (∀ o s, ok o s → ok' o s) → runs ok s es s' → runs ok' s es s'.
Proof. intros H. induction 1 as [|es s1 o es' s2 _ IH Ho E]; [constructor|]. eapply runs_next; eauto. Qed.

Lemma runs_step s es s' : store_ok s → runs allowed s es s' → step_ok s s' es.
Proof.
  intros Hok. induction 1 as [|es s1 o es' s2 _ IH Ho E]; [by apply step_refl|].
  destruct (perform_step o s1) as (es1 & s3 & E' & H); [apply IH|done|]. rewrite E in E'. injection E' as <- <-.
  by eapply step_app.
Qed.

(** [allowed], decided. *)
Definition allowedb (o : op) s : bool :=
  forallb (λ x, x.2 <=? MaxMessageBoxID) (map_to_list (nextBox s)) &&
  match o with
  | Edit _ req =>
      negb (ed_WebPageResolve req) ||
      match find_message s (ed_OwnerUserID req) (ed_Peer req) (ed_ID req) with
      | Some target => peer_ID (m_From target) =? ed_OwnerUserID req
      | None => true
      end
  | _ => true
  end.

Lemma allowedb_spec o s : allowedb o s = true → allowed o s.
Proof.
  intros [Hb Ho]%andb_true_iff. split.
  - intros u. unfold nextBoxOf. destruct (nextBox s !! u) as [n|] eqn:E; [|done]. rewrite forallb_forall in Hb.
    apply elem_of_map_to_list, list_elem_of_In in E. apply Hb in E. simpl in *. lia.
  - destruct o; try done. intros Hw target Ht. rewrite Hw, Ht in Ho. by apply Z.eqb_eq.
Qed.

Fixpoint drun (os : list op) s : option (list event * store) :=
  match os with
  | [] => Some ([], s)
  | o :: os =>
      if allowedb o s then '(es, s') ← perform o s; '(es', s'') ← drun os s'; Some (es ++ es', s'') else None
  end.

Lemma runs_cons s o es s1 es' s2 :
  allowed o s → perform o s = Some (es, s1) → runs allowed s1 es' s2 → runs allowed s (es ++ es') s2.
Proof.
  intros Ho E. induction 1 as [|es1 s3 o' es2 s4 _ IH Ho' E']; [rewrite app_nil_r; by eapply (runs_next allowed s [] s o es s1 (runs_start allowed s))|].
  rewrite app_assoc. by eapply runs_next.
Qed.

Lemma drun_runs os : ∀ s es s', drun os s = Some (es, s') → runs allowed s es s'.
Proof.
  induction os as [|o os IH]; intros s es s' E; cbn [drun] in E; [injection E as <- <-; apply runs_start|].
  destruct (allowedb o s) eqn:Ea; [|done]. destruct (perform o s) as [[es1 s1]|] eqn:E1; [|done]. cbn [mbind option_bind] in E.
  destruct (drun os s1) as [[es2 s2]|] eqn:E2; [|done]. cbn [mbind option_bind] in E. injection E as <- <-.
  eapply runs_cons; [by apply allowedb_spec|done|by apply IH].
Qed.

Lemma boxOf_new u : boxOf (NewMessageStore (P := P) (Bytes := Bytes)) u = [].
Proof. unfold boxOf. simpl. by rewrite lookup_empty. Qed.

Lemma new_store_ok : store_ok (NewMessageStore (P := P) (Bytes := Bytes)).
Proof.
  apply (boxes_ok_ext 1 _ (λ _, 0) _ (λ _, [])); [done|done|by intros u; rewrite boxOf_new|].
  split; try done; [intros u; constructor..|]. intros u v m c _ Hm. by apply elem_of_nil in Hm.
Qed.

Lemma reached_ok es s : runs allowed NewMessageStore es s → store_ok s.
Proof. intros H. by destruct (runs_step _ _ _ new_store_ok H). Qed.

(** ** The dialogs *)

(** Only messages change the dialogs. *)
Definition quiet (o : op) s : Prop :=
  allowed o s ∧ match o with Companions d _ _ _ => d = dialogs s | _ => True end.

Lemma perform_dialogs o s es s' :
  store_ok s → dialogs_ok s → quiet o s → perform o s = Some (es, s') → dialogs_ok s'.
Proof.
  intros Hok Hd [[Hmax _] Hq] E. destruct o as [now req|now req|now req|now req|now req|now req|now req|now random req|now req|d log tags flags];
    cbn [perform] in E.
  - destruct (SendPrivateText now req s) as [r s1] eqn:E1. injection E as _ <-. by eapply SendPrivateText_dialogs.
  - destruct (ForwardPrivateMessages now req s) as [[rs err] s1] eqn:E1. injection E as _ <-. by eapply ForwardPrivateMessages_dialogs.
  - destruct (ReadHistory now req s) as [r s1] eqn:E1. injection E as _ <-. by eapply ReadHistory_dialogs.
  - destruct (ReadMessageContents now req s) as [r s1] eqn:E1. injection E as _ <-. by eapply ReadMessageContents_dialogs.
  - destruct (EditMessage now req s) as [r s1] eqn:E1. injection E as _ <-. by eapply EditMessage_dialogs.
  - destruct (DeleteMessages now req s) as [[r s1]|] eqn:E1; [|done]. injection E as _ <-. by eapply DeleteMessages_dialogs.
  - destruct (DeleteHistory now req s) as [[r s1]|] eqn:E1; [|done]. injection E as _ <-. by eapply DeleteHistory_dialogs.
  - destruct (PinPrivateMessage now random req s) as [r s1] eqn:E1. injection E as _ <-. by eapply PinPrivateMessage_dialogs.
  - destruct (UnpinAllPrivateMessages now req s) as [r s1] eqn:E1. injection E as _ <-. by eapply UnpinAllPrivateMessages_dialogs.
  - injection E as _ <-. by subst d.
Qed.

Lemma new_dialogs_ok : dialogs_ok (NewMessageStore (P := P) (Bytes := Bytes)).
Proof.
  intros u. rewrite boxOf_new. unfold dialogsOf. simpl. rewrite lookup_empty. simpl.
  split; [constructor|by intros d ?%elem_of_nil|by intros m ?%elem_of_nil].
Qed.

Lemma quiet_dialogs es s : runs quiet NewMessageStore es s → store_ok s ∧ dialogs_ok s.
Proof.
  intros H. induction H as [|es s1 o es' s2 H [IH1 IH2] Ho E]; [split; [apply new_store_ok|apply new_dialogs_ok]|].
  split; [|by eapply perform_dialogs]. destruct (perform_step o s1 IH1 (proj1 Ho)) as (es2 & s3 & E' & Hs).
  rewrite E in E'. injection E' as <- <-. apply Hs.
Qed.

(** ** A repeated send *)

(** Two requests that the store takes for the same send. *)
Definition same_intent (req req' : SendPrivateTextRequest P) : Prop :=
  sr_SenderUserID req' = sr_SenderUserID req ∧ sr_RecipientUserID req' = sr_RecipientUserID req
  ∧ sr_RandomID req' = sr_RandomID req ∧ HasContent req' = true
  ∧ PrivateSendFingerprint req' = PrivateSendFingerprint req.

(** What [encoding/json] keeps of a message that is encoded and decoded: [kept] of
    it.  Numbers survive; a string that is not UTF-8 is repaired, and fields that
    are not encoded are lost.  SHA-256 has 32 bytes. *)
Record json_keeps (kept : Message → Message) : Prop := {
  jk_decode v m raw : marshal_snapshot (v, m) = Some raw → unmarshal_snapshot raw = Some (v, kept m);
  jk_numbers m : m_ID (kept m) = m_ID m ∧ m_UID (kept m) = m_UID m ∧ m_RandomID (kept m) = m_RandomID m
                 ∧ m_OwnerUserID (kept m) = m_OwnerUserID m ∧ m_Pts (kept m) = m_Pts m;
  jk_digest x sum : intent_digest x = Some sum → length sum = 32%nat;
}.

Lemma fingerprint_length kept (req : SendPrivateTextRequest P) fp :
  json_keeps kept → PrivateSendFingerprint req = OK fp → length fp = 32%nat.
Proof.
  intros [_ _ H] E. unfold PrivateSendFingerprint in E. destruct (0 <? _).
  - destruct (Z.eqb_spec (Z.of_nat (length (sr_IdempotencyFingerprint req))) 32); [|done]. injection E as <-. lia.
  - destruct (intent_digest _) as [sum|] eqn:Es; [|done]. injection E as <-. by eapply H.
Qed.

(** A snapshot is read as what JSON keeps of the message, or refused because of
    an external reply that does not pass the checks any more. *)
Lemma snapshot_roundtrip kept m raw : json_keeps kept → EncodePrivateSendSnapshot m = OK raw →
  DecodePrivateSendSnapshot raw = (_ ← valid_external (kept m); OK (kept m)).
Proof.
  intros [H Hn _] E. unfold EncodePrivateSendSnapshot in E. destruct (valid_snapshot m) eqn:Ev; [|done]. cbn [negb] in E.
  apply bind_OK in E as (x & Ex & E). destruct (marshal_snapshot (1, m)) as [raw'|] eqn:Em; [|done]. injection E as ->.
  unfold DecodePrivateSendSnapshot. rewrite (H _ _ _ Em). unfold valid_snapshot in *.
  destruct (Hn m) as (-> & -> & -> & -> & ->). by rewrite Ev.
Qed.

(** A send that was not a repetition leaves a receipt. *)
Lemma send_receipt kept now req s r s1 :
  store_ok s → json_keeps kept → SendPrivateText now req s = (OK r, s1) → Duplicate r = false → sr_RandomID req ≠ 0 →
  ∃ fp rec, PrivateSendFingerprint req = OK fp ∧ privateSendDedup s1 !! (sr_SenderUserID req, sr_RandomID req) = Some rec
    ∧ dd_recipientUserID rec = sr_RecipientUserID req ∧ dd_fingerprint rec = fp
    ∧ DecodePrivateSendSnapshot (dd_senderSnapshot rec) = (_ ← valid_external (kept (SenderMessage r)); OK (kept (SenderMessage r)))
    ∧ dd_recipientMessage rec = immutablePrivateSendReceipt (RecipientMessage r)
    ∧ SenderEvent r = newMessageEvent (SenderMessage r).
Proof.
  intros Hok Hc E Hd Hr. unfold SendPrivateText in E. destruct (negb _); [done|].
  destruct (PrivateSendFingerprint req) as [fp|]; cbn [mbind res_bind] in E; [|done].
  destruct (sendPrivateTextLocked now req fp [] (λ _ s, s) s) as [[[r0 es] s0]|] eqn:Es; [|done]. injection E as -> ->.
  destruct (send_locked_cases _ _ _ _ _ _ _ _ _ Es) as [(El & _)|[_ Hf]].
  { apply lookup_duplicate in El. congruence. }
  inversion Hf as [pts date rp rp' es0 a0 a1 alloc recipient receipt sender _ _ _ Hrc]; subst.
  destruct Hrc as [[? _]|(_ & raw & Eraw & ->)]; [done|].
  eexists fp, _. split; [done|]. rewrite (commit_dedup req alloc sender recipient _ _).
  rewrite lookup_insert_eq. split; [done|]. cbn [dd_recipientUserID dd_fingerprint dd_senderSnapshot dd_recipientMessage].
  split_and!; try done. by apply snapshot_roundtrip.
Qed.

(** What a receipt makes of the same send. *)
Lemma send_again now req s fp rec first :
  HasContent req = true → PrivateSendFingerprint req = OK fp → length fp = 32%nat →
  privateSendDedup s !! (sr_SenderUserID req, sr_RandomID req) = Some rec →
  dd_recipientUserID rec = sr_RecipientUserID req → dd_fingerprint rec = fp →
  DecodePrivateSendSnapshot (dd_senderSnapshot rec) = (_ ← valid_external first; OK first) →
  ∃ a, SendPrivateText now req s = (a, s) ∧ match a with
    | OK r => Duplicate r = true ∧ m_ID (SenderMessage r) = m_ID first ∧ m_UID (SenderMessage r) = m_UID first
              ∧ SenderEvent r = newMessageEvent first ∧ RecipientMessage r = dd_recipientMessage rec
    | ERR e => valid_external first = ERR e ∨ e = ErrSenderCopyAbsent ∧ dd_senderDeleteEvent rec = None
               ∧ List.find (λ c, (m_UID c =? m_UID first) && (m_ID c =? m_ID first)) (boxOf s (sr_SenderUserID req)) = None
    end.
Proof.
  intros Hc Hfp Hl Hrec Hto Hf Hdec. unfold SendPrivateText. rewrite Hc, Hfp. cbn [negb mbind res_bind].
  assert (SameSendFingerprint (dd_fingerprint rec) fp = true) as Hs.
  { unfold SameSendFingerprint. rewrite Hf, Hl. by rewrite bool_decide_true. }
  unfold sendPrivateTextLocked, lookupPrivateSendReplayLocked. rewrite Hrec, Hto, Z.eqb_refl, Hs. cbn [negb orb].
  rewrite Hdec. destruct (valid_external first) as [[]|e] eqn:Ex; cbn [mbind res_bind]; [|by exists (ERR e); auto].
  destruct (List.find _ _) as [c|] eqn:Ec; [|destruct (dd_senderDeleteEvent rec) eqn:Ed]; cbn [mbind res_bind].
  - eexists. split; [done|]. apply List.find_some in Ec as [_ Ec]. apply andb_true_iff in Ec as [Eu%Z.eqb_eq Ei%Z.eqb_eq]. done.
  - by eexists.
  - eexists. split; [done|]. by right.
Qed.
End run.

Arguments op P : clear implicits.

