(* ===== verification/MessagesProps.v ===== *)
(** What the message boxes promise: the events that are sent on rebuild a box,
    the copies of one message mirror each other, and a repeated send does not
    send twice.

    The states are those that the operations of [op] lead to from an empty store.
    Three writers of the boxes are not among them.  What two of them write breaks
    the theorems about events and dialogs: [Create], by which a sign-up records
    the login message, adds a message without event, position and dialog
    ([message_send.go]), and [TogglePrivateNoForwards] marks the media of an
    answered request as expired without an event ([message_no_forwards.go]).  The
    third is the delivery of login codes ([login_code_delivery.go]), which files
    its message with an event and a dialog of its own. *)

From S2P Require Import Prelude GoStrings Updates Messages MessagesInv MessagesPage MessagesBox MessagesOps MessagesDelete MessagesSteps.
From S2P Require Import MessagesDialog MessagesRun.

Open Scope Z_scope.

#[local] Set Default Proof Using "Type".

Section props.
Context {P Bytes : Type} `{!Codecs P Bytes} `{!EqDecision P}.

Abbreviation Message := (Message P).
Abbreviation store := (@MessageStore P Bytes).
Implicit Types (m c : Message) (s : store).

(** C24: Whatever sends, forwards, reads of a history or of contents, edits,
    deletions of messages or of histories, pins and unpins the store performs, in
    any order and with other services writing to its companions in between, it
    never panics, and the events that it hands out say all: applied one after the
    other to an empty box, those addressed to a user give the user's box (but for
    the mark of unread reactions), and each takes positions beyond those of the
    one before, up to the user's counter. *)
Theorem events_rebuild_the_boxes es s :
  runs allowed NewMessageStore es s →
  (∀ u, seen <$> boxOf s u = replay u es []
        ∧ positions 0 (ev_for u es) (nextPtsOf s u))
  ∧ ∀ o, allowed o s → is_Some (perform o s).
Proof.
  intros Hr. pose proof (reached_ok _ _ Hr) as Hok. split.
  - intros u. destruct (st_delivered _ _ _ (runs_step _ _ _ new_store_ok Hr) u) as [Hb Hp]. rewrite boxOf_new in Hb.
    split; [done|]. by replace (nextPtsOf NewMessageStore u) with 0 in Hp.
  - intros o Ho. destruct (perform_step o s Hok Ho) as (es' & s' & -> & _). done.
Qed.

(** C26: In every state that the store reaches the ids of a box increase and stay
    within its counter, a message has at most one copy per box, and two copies
    are each other's: each is filed under the other's owner, with the same date,
    and as long as both name the same author they have the same text and media,
    unless the author has cleared its own. *)
Theorem copies_mirror_each_other es s u :
  runs allowed NewMessageStore es s →
  StronglySorted Z.lt (m_ID <$> boxOf s u) ∧ NoDup (m_UID <$> boxOf s u) ∧
  ∀ m, m ∈ boxOf s u →
    1 ≤ m_ID m ≤ nextBoxOf s u ∧ m_OwnerUserID m = u ∧ m_Out m = (peer_ID (m_From m) =? u)
    ∧ ∀ v c, v ≠ u → c ∈ boxOf s v → m_UID c = m_UID m →
      m_Peer m = user_peer v ∧ m_Peer c = user_peer u ∧ m_Date m = m_Date c
      ∧ (m_From m = m_From c → cleared u m ∨ cleared v c ∨ same_content m c).
Proof.
  intros Hr%reached_ok. split_and!; [apply Hr|apply Hr|]. intros m Hm.
  destruct (message_in_ok s u m Hr Hm) as [Hid _ Ho _ _ Hout _]. split_and!; try done; try lia.
  intros v c Hv Hc Huid.
  destruct (bo_mirror _ _ _ Hr u v m c) as (H1 & H2 & H3); [done..|]. by destruct (bo_mirror _ _ _ Hr v u c m) as (H4 & _).
Qed.

(** C25: A send with a random id that was answered, not as a repetition, is never
    performed again: after any further operations the same send changes nothing
    and is answered as a repetition, with the ids and the position of the first
    answer and the event of the message as JSON keeps it (the event of the first
    answer, when JSON keeps the message as it is) - or with an error: the
    sender's copy has vanished without a recorded deletion, or the external reply
    of the kept message does not pass its checks any more. *)
Theorem sends_happen_once kept es0 s now req r s1 es s2 now' req' :
  json_keeps kept → runs allowed NewMessageStore es0 s →
  SendPrivateText now req s = (OK r, s1) → Duplicate r = false → sr_RandomID req ≠ 0 →
  runs allowed s1 es s2 → same_intent req req' →
  ∃ a, SendPrivateText now' req' s2 = (a, s2) ∧ match a with
    | OK r' => Duplicate r' = true ∧ m_ID (SenderMessage r') = m_ID (SenderMessage r)
               ∧ m_UID (SenderMessage r') = m_UID (SenderMessage r)
               ∧ SenderEvent r' = newMessageEvent (kept (SenderMessage r)) ∧ Pts <$> SenderEvent r' = Pts <$> SenderEvent r
               ∧ (kept (SenderMessage r) = SenderMessage r → SenderEvent r' = SenderEvent r)
               ∧ RecipientMessage r' = immutablePrivateSendReceipt (RecipientMessage r)
    | ERR e => valid_external (kept (SenderMessage r)) = ERR e
               ∨ e = ErrSenderCopyAbsent
                 ∧ List.find (λ c, (m_UID c =? m_UID (SenderMessage r)) && (m_ID c =? m_ID (SenderMessage r)))
                     (boxOf s2 (sr_SenderUserID req)) = None
    end.
Proof.
  intros Hc Hr0 E Hd Hrnd Hr (I1 & I2 & I3 & I4 & I5). pose proof (reached_ok _ _ Hr0) as Hok.
  destruct (send_receipt kept now req s r s1 Hok Hc E Hd Hrnd) as (fp & rec & Hfp & Hrec & R1 & R2 & R3 & R4 & R5).
  pose proof (SendPrivateText_step _ _ _ _ _ Hok E) as [Hok1 _ _ _].
  destruct (st_receipts _ _ _ (runs_step _ _ _ Hok1 Hr) _ _ Hrec) as (rec' & Hrec' & F1 & F2 & F3 & F4 & _).
  destruct (jk_numbers _ Hc (SenderMessage r)) as (N1 & N2 & _ & _ & N5).
  destruct (send_again now' req' s2 fp rec' (kept (SenderMessage r))) as (a & Ea & Ha); try congruence.
  - by eapply fingerprint_length.
  - exists a. split; [done|]. destruct a as [r'|e].
    + rewrite R5. destruct Ha as (A1 & A2 & A3 & A4 & A5). split_and!; try congruence.
      rewrite A4. unfold newMessageEvent, message_event. rewrite N1. case_match; [done|]. simpl. by rewrite N5.
    + rewrite N1, N2, I1 in Ha. destruct Ha as [?|(? & _ & ?)]; [by left|by right].
Qed.

(** C27: As long as only these operations change them, the dialogs of a user are
    exact in every state that they lead to: one for each conversation that has messages, whose top is the
    conversation's latest message, with its date, and whose count is the number of
    incoming messages beyond the read mark; the mark is an id that was given. *)
Theorem dialog_counters_are_exact es s u :
  runs quiet NewMessageStore es s →
  NoDup (d_Peer <$> l_Dialogs (dialogsOf s u))
  ∧ (∀ m, m ∈ boxOf s u → m_Peer m ∈ (d_Peer <$> l_Dialogs (dialogsOf s u)))
  ∧ ∀ d, d ∈ l_Dialogs (dialogsOf s u) →
      d_UnreadCount d = Z.of_nat (length (List.filter (is_unread (d_Peer d) (d_ReadInboxMaxID d)) (boxOf s u)))
      ∧ 0 ≤ d_ReadInboxMaxID d ≤ nextBoxOf s u
      ∧ (∃ m, m ∈ boxOf s u ∧ m_Peer m = d_Peer d ∧ d_TopMessage d = m_ID m ∧ d_TopMessageDate d = m_Date m
              ∧ ∀ c, c ∈ boxOf s u → m_Peer c = d_Peer d → m_ID c ≤ m_ID m).
Proof.
  intros [Hok Hd]%quiet_dialogs. destruct (Hd u) as [H1 H2 H3]. split; [done|]. split; [done|].
  intros d Hin. destruct (H2 d Hin) as [U T S R]. split; [exact U|]. split; [done|].
  destruct (top_message_spec (d_Peer d) (boxOf s u)) as [[H0 _]|[(m & Hm & Hp & Ht) Hmax]].
  - eapply Forall_impl; [by apply store_ids_range|]. simpl. lia.
  - exfalso. rewrite <- T in H0. done.
  - rewrite Ht in T, Hmax. injection T as T1 T2. exists m. split_and!; try done.
Qed.

(** ** Reading a history *)

Context `{!Tables P}.

(** C28: A page of a history, whichever of the three ways it is collected in, is
    the window of the filtered messages, newest first, that starts [add_offset]
    places from the offset and is as long as the limit (an offset by date relies
    on dates that are ordered as ids); the count is that of all filtered
    messages. *)
Theorem history_page_is_a_window es s now u filter :
  runs allowed NewMessageStore es s → CountOnly filter = false → ordered_dates filter (filtered now s u filter) →
  ListByUser now s u filter = {|
    Messages := window (position filter (filtered now s u filter) + ClampMessageHistoryAddOffset (AddOffset filter))
                  (page_limit filter) (filtered now s u filter);
    Count := Z.of_nat (length (filtered now s u filter)) |}.
Proof. intros Hr. apply ListByUser_window. by eapply reached_ok. Qed.

(** C29: A client that starts at the newest message and asks for the page after
    the last message it has, until a page is empty, is answered with every
    message that passes the filter, each once, newest first, and no page in
    between is empty; it is done after at most as many requests as there are
    messages, and one. *)
Theorem history_pages_are_complete es s now u filter fuel :
  runs allowed NewMessageStore es s → CountOnly filter = false → OffsetDate filter ≤ 0 → OffsetID filter ≤ 0 → AddOffset filter = 0 →
  (length (boxOf s u) < fuel)%nat →
  concat (pages fuel now s u filter) = filtered now s u filter
  ∧ Forall (λ page, page ≠ []) (pages fuel now s u filter)
  ∧ NoDup (m_ID <$> concat (pages fuel now s u filter))
  ∧ ∀ m, m ∈ boxOf s u → passes filter (shown now m) = true → shown now m ∈ concat (pages fuel now s u filter).
Proof.
  intros Hr%reached_ok Hc Hd Hi Ha Hf.
  assert (concat (pages fuel now s u filter) = filtered now s u filter) as E.
  { rewrite (pages_from fuel now s u filter 0); try done.
    - unfold position. rewrite lfilter_none; [done|]. apply Forall_true. intros m. unfold messageAfterHistoryOffset.
      rewrite (proj2 (Z.ltb_ge _ _)) by lia. by rewrite (proj2 (Z.leb_le _ _)) by lia.
    - rewrite Nat.add_0_r. eapply Nat.le_lt_trans; [|exact Hf]. unfold filtered. rewrite (sublist_length _ _ (filter_sublist _ _)).
      by rewrite length_reverse, length_fmap. }
  rewrite E. split; [done|]. split; [|split].
  - clear. revert filter. induction fuel as [|fuel IH]; intros filter; cbn [pages]; [constructor|].
    destruct (last _) as [m|] eqn:El; [|constructor]. constructor; [intros E; by rewrite E in El|apply IH].
  - by apply newest_first_ids, filtered_newest_first.
  - intros m Hm Hp. apply elem_of_lfilter. split; [done|]. rewrite elem_of_reverse. apply list_elem_of_fmap. by exists m.
Qed.
End props.

(** * A concrete store *)

Module MessagesDemo.

Definition pad (l : list Z) : list Z := take 32 (l ++ replicate 32 0).

Definition no_reactions : ChannelMessageReactions unit :=
  {| rx_AsTags := false; rx_ResultKeys := []; rx_Recent := []; rx_rest := tt |}.

(** The demo encoding does not carry the reactions of a message. *)
Definition unreacted (m : Message unit) : Message unit := with_Reactions no_reactions m.

#[local] Instance codecs : Codecs unit (Z * Message unit) := {
  no_column := tt;
  intent_digest fp := Some (pad (fp_RecipientUserID fp mod 256 :: bytes_of (fp_Message fp)));
  marshal_snapshot x := Some (x.1, unreacted x.2);
  unmarshal_snapshot x := Some x;
  external_size _ := Some 1;
  reactions_of _ := no_reactions;
}.

Lemma demo_json : json_keeps unreacted.
Proof.
  split; [by intros v m raw [= <-]|by intros m|].
  intros x sum [= <-]. unfold pad. rewrite length_take, length_app, length_replicate. lia.
Qed.

Definition text (from to random : Z) (body : string) : SendPrivateTextRequest unit := {|
  sr_SenderUserID := from; sr_RecipientUserID := to; sr_RandomID := random; sr_Message := body; sr_Entities := [];
  sr_Media := None; sr_Silent := false; sr_NoForwards := false; sr_ReplyTo := None; sr_Forward := None; sr_Date := 0;
  sr_OriginAuthKeyID := 0; sr_OriginSessionID := 0; sr_OriginUserID := 0; sr_RecipientBlocked := false;
  sr_IdempotencyFingerprint := []; sr_TTLPeriod := 0; sr_ViaBotID := 0; sr_GroupedID := 0; sr_Effect := 0;
  sr_ReplyMarkup := None; sr_RichMessage := None |}.

Definition edit (u p id : Z) (body : string) : EditMessageRequest unit := {|
  ed_OwnerUserID := u; ed_Peer := user_peer p; ed_ID := id; ed_Message := body; ed_Entities := []; ed_Media := None;
  ed_EditDate := 0; ed_HideEdited := false; ed_SetReplyMarkup := false; ed_ReplyMarkup := None;
  ed_SetRichMessage := false; ed_RichMessage := None; ed_ViaBotEditBotID := 0;
  ed_AllowTodoParticipantMutation := false; ed_WebPageResolve := false; ed_ExpectedWebPageID := 0 |}.

Definition delete_own (u id : Z) : DeleteMessagesRequest :=
  {| dm_OwnerUserID := u; dm_IDs := [id]; dm_Revoke := true; dm_Date := 0 |}.

Definition just_clear (u p : Z) : DeleteHistoryRequest :=
  {| dh_OwnerUserID := u; dh_Peer := user_peer p; dh_MaxID := 0; dh_MinDate := 0; dh_MaxDate := 0;
     dh_JustClear := true; dh_Revoke := false; dh_Date := 0 |}.

Definition pin (u p id random : Z) : op unit :=
  Pin 9 random {| pp_OwnerUserID := u; pp_Peer := user_peer p; pp_MessageID := id; pp_Pinned := true;
                  pp_PmOneside := false; pp_Silent := false; pp_RecipientBlocked := false; pp_Date := 0;
                  pp_OriginAuthKeyID := 0; pp_OriginSessionID := 0 |}.

Definition read (u p : Z) : op unit := Read 8 {| rr_OwnerUserID := u; rr_Peer := user_peer p; rr_MaxID := 0; rr_Date := 0 |}.

Abbreviation empty_store := (NewMessageStore (P := unit) (Bytes := Z * Message unit)).
Abbreviation store := (@MessageStore unit (Z * Message unit)).


Definition history : list (op unit) :=
  [Send 5 (text 1 2 77 "hi"); Send 6 (text 2 1 78 "yo"); read 2 1; Edit 7 (edit 1 2 1 "hello"); pin 1 2 2 90;
   Send 9 (text 1 2 79 "bye"); Delete 9 (delete_own 1 1); Clear 10 (just_clear 2 1)].

Lemma events_rebuild_the_boxes_witness :
  match drun history empty_store with
  | Some (es, s) => length es = 19%nat ∧ m_Body <$> boxOf s 1 = ["yo"; ""; "bye"]
                    ∧ seen <$> boxOf s 1 = replay 1 es []
  | None => False
  end.
Proof.
  destruct (drun history empty_store) as [[es s]|] eqn:E; [|vm_compute in E; discriminate].
  destruct (events_rebuild_the_boxes es s) as [H _]; [by eapply drun_runs|].
  destruct (H 1) as [H1 _]. split; [|split; [|exact H1]]; vm_compute in E; injection E as <- <-; vm_compute; reflexivity.
Defined.

Definition two : list (op unit) := [Send 5 (text 1 2 77 "hi"); Edit 7 (edit 1 2 1 "hello")].

Definition after_two : store := default empty_store (snd <$> drun two empty_store).

Definition one_of (u : Z) : Message unit := default no_message (head (boxOf after_two u)).

Lemma copies_mirror_each_other_witness :
  m_Body (one_of 1) = "hello" ∧ m_Body (one_of 2) = "hello" ∧ m_Date (one_of 1) = m_Date (one_of 2).
Proof.
  split; [vm_compute; reflexivity|]. split; [vm_compute; reflexivity|].
  destruct (drun two empty_store) as [[es s]|] eqn:E; [|vm_compute in E; discriminate].
  assert (after_two = s) as Es by (unfold after_two; rewrite E; reflexivity).
  destruct (copies_mirror_each_other es s 1) as (_ & _ & H); [by eapply drun_runs|]. rewrite <- Es in H.
  destruct (H (one_of 1)) as (_ & _ & _ & H'); [vm_compute; by left|].
  destruct (H' 2 (one_of 2)) as (_ & _ & Hd & _); [lia|vm_compute; by left|vm_compute; reflexivity|exact Hd].
Defined.

Lemma quiet_send now req s es s' :
  (∀ u, nextBoxOf s u ≤ MaxMessageBoxID) → perform (Send now req) s = Some (es, s') → runs quiet s es s'.
Proof. intros H E. apply (runs_next quiet s [] s (Send now req) es s'); [constructor|by repeat split|exact E]. Qed.

Lemma nextBoxOf_empty u : nextBoxOf empty_store u ≤ MaxMessageBoxID.
Proof. unfold nextBoxOf. cbn. rewrite lookup_empty. done. Qed.

Lemma dialog_counters_are_exact_witness :
  match perform (Send 5 (text 1 2 77 "hi")) empty_store with
  | Some (_, s) => (λ d, (d_Peer d, d_TopMessage d, d_UnreadCount d)) <$> l_Dialogs (dialogsOf s 2) = [(user_peer 1, 1, 1)]
                   ∧ NoDup (d_Peer <$> l_Dialogs (dialogsOf s 2))
  | None => False
  end.
Proof.
  destruct (perform (Send 5 (text 1 2 77 "hi")) empty_store) as [[es s]|] eqn:E; [|vm_compute in E; discriminate].
  destruct (dialog_counters_are_exact es s 2) as [H _]; [exact (quiet_send _ _ _ _ _ nextBoxOf_empty E)|].
  split; [|exact H]. vm_compute in E. injection E as _ <-. vm_compute. reflexivity.
Defined.

Definition answer (r : res message_error (SendPrivateTextResult unit) * store) : option (bool * Z) :=
  match r.1 with OK r => Some (Duplicate r, m_ID (SenderMessage r)) | ERR _ => None end.

Lemma sends_happen_once_witness :
  let '(first, s1) := SendPrivateText 5 (text 1 2 77 "hi") empty_store in
  match first, drun [Edit 7 (edit 1 2 1 "hello"); Delete 9 (delete_own 1 1)] s1 with
  | OK r, Some (_, s2) =>
      ∃ a, SendPrivateText 10 (text 1 2 77 "hi") s2 = (a, s2) ∧ answer (a, s2) = Some (true, m_ID (SenderMessage r))
  | _, _ => False
  end.
Proof.
  destruct (SendPrivateText 5 (text 1 2 77 "hi") empty_store) as [[r|err] s1] eqn:E1; [|vm_compute in E1; discriminate].
  destruct (drun _ s1) as [[es s2]|] eqn:E2; [|vm_compute in E1; injection E1 as <- <-; vm_compute in E2; discriminate].
  destruct (sends_happen_once unreacted [] empty_store 5 (text 1 2 77 "hi") r s1 es s2 10 (text 1 2 77 "hi") demo_json) as (a & Ea & Ha).
  - apply runs_start.
  - exact E1.
  - vm_compute in E1. injection E1 as <- _. reflexivity.
  - discriminate.
  - by eapply drun_runs.
  - split_and!; reflexivity.
  - exists a. split; [exact Ea|]. unfold answer. simpl. destruct a as [r'|e].
    + destruct Ha as (-> & -> & _). reflexivity.
    + exfalso. vm_compute in E1. injection E1 as <- <-. vm_compute in E2. injection E2 as _ <-. vm_compute in Ea. discriminate.
Defined.

#[local] Instance tables : Tables unit := { unicode_lower s := s; poll_of _ _ md := md }.

Definition around (offset add limit : Z) : MessageFilter := {|
  HasPeer := true; f_Peer := user_peer 2; Query := ""; OffsetID := offset; OffsetDate := 0; MinDate := 0; MaxDate := 0;
  AddOffset := add; Limit := limit; f_MaxID := 0; MinID := 0; f_SenderUserID := 0; CountOnly := false;
  PinnedOnly := false; MusicOnly := false; f_SavedPeer := no_peer; SavedReactions := []; PeerIDs := [];
  RestrictPeerIDs := false |}.

Definition five : list (op unit) := (λ i, Send i (text 1 2 i "m")) <$> [1; 2; 3; 4; 5].

Definition after_five : store := default empty_store (snd <$> drun five empty_store).

Lemma after_five_runs : ∃ es, runs allowed empty_store es after_five.
Proof.
  destruct (drun five empty_store) as [[es s]|] eqn:E; [|vm_compute in E; discriminate]. exists es.
  unfold after_five. rewrite E. by eapply drun_runs.
Qed.

Lemma history_page_is_a_window_witness :
  let l := ListByUser 9 after_five 1 (around 3 (-2) 3) in
  l = {| Messages := window (position (around 3 (-2) 3) (filtered 9 after_five 1 (around 3 (-2) 3)) - 2) 3
                       (filtered 9 after_five 1 (around 3 (-2) 3)); Count := 5 |}
  ∧ m_ID <$> Messages l = [4; 3; 2].
Proof.
  destruct after_five_runs as [es Hr]. cbv zeta.
  rewrite (history_page_is_a_window es after_five 9 1 (around 3 (-2) 3)); [|exact Hr|reflexivity|intros H; discriminate H].
  split; vm_compute; reflexivity.
Defined.

Lemma history_pages_are_complete_witness :
  concat (pages 6 9 after_five 1 (around 0 0 2)) = filtered 9 after_five 1 (around 0 0 2)
  ∧ (λ page : list (Message unit), m_ID <$> page) <$> pages 6 9 after_five 1 (around 0 0 2) = [[5; 4]; [3; 2]; [1]].
Proof.
  destruct after_five_runs as [es Hr].
  destruct (history_pages_are_complete es after_five 9 1 (around 0 0 2) 6) as (E & _);
    [exact Hr|reflexivity|simpl; lia|simpl; lia|reflexivity|vm_compute; lia|].
  split; [exact E|vm_compute; reflexivity].
Defined.

(** A cleared history leaves a service message in the place of the last message;
    when it is deleted too, the deletion is not noted in the receipt of the send
    and a repeated request is answered with an error. *)
Example retry_after_clearing_fails :
  match drun [Send 5 (text 1 2 77 "hi"); Clear 6 (just_clear 1 2); Delete 9 (delete_own 1 1)] empty_store with
  | Some (_, s) => fst (SendPrivateText 10 (text 1 2 77 "hi") s) = ERR ErrSenderCopyAbsent
  | None => False
  end.
Proof. vm_compute. reflexivity. Qed.

(** The same deletion without the clearing is noted. *)
Example retry_after_deletion_is_answered :
  match drun [Send 5 (text 1 2 77 "hi"); Delete 9 (delete_own 1 1)] empty_store with
  | Some (_, s) => answer (SendPrivateText 10 (text 1 2 77 "hi") s) = Some (true, 1)
  | None => False
  end.
Proof. vm_compute. reflexivity. Qed.
End MessagesDemo.
