(* ===== verification/CacheShape.v ===== *)
(** The read-model cache: its shape.  The recency list, the entries, the weight
    and the mirrored index agree, the capacities hold, and a store evicts from
    the old end of the recency list just as much as it must. *)

From S2P Require Import Prelude Programs Cache CacheInv.

Open Scope Z_scope.

#[local] Set Default Proof Using "Type".
#[global] Arguments unlink : simpl never.

(** * Lists and weights *)

Section weights.
Context {K V : Type} `{Countable K}.
Implicit Types (its : gmap K (lruEntry V)) (l : list K) (k key : K).

Definition entry_weight its k : Z := wt ent_weight (its !! k).

Lemma elem_of_unlink k key l : k ∈ unlink key l ↔ k ∈ l ∧ k ≠ key.
Proof. unfold unlink. rewrite list_elem_of_filter. tauto. Qed.

Lemma unlink_none key l : key ∉ l → unlink key l = l.
Proof.
  induction l as [|k l IH]; intros Hk; [done|]. apply not_elem_of_cons in Hk as [Hne Hk].
  unfold unlink in *. rewrite filter_cons, decide_True by done. f_equal. auto.
Qed.

Lemma unlink_app key l1 l2 : unlink key (l1 ++ l2) = unlink key l1 ++ unlink key l2.
Proof. apply filter_app. Qed.

Lemma unlink_snoc key l : key ∉ l → unlink key (l ++ [key]) = l.
Proof.
  intros Hk. rewrite unlink_app, unlink_none by done. unfold unlink.
  rewrite filter_cons, decide_False by (by intros []). apply app_nil_r.
Qed.

Lemma elem_take k n l : k ∈ take n l → k ∈ l.
Proof. intros Hk. rewrite <- (take_drop n l). apply elem_of_app. by left. Qed.

Lemma length_unlink key l : NoDup l → key ∈ l → S (length (unlink key l)) = length l.
Proof.
  induction 1 as [|k l Hk _ IH]; intros Hin; [by apply not_elem_of_nil in Hin|].
  unfold unlink. rewrite filter_cons. destruct (decide (k ≠ key)) as [Hne|Heq].
  - apply elem_of_cons in Hin as [->|Hin]; [done|]. cbn. f_equal. by apply IH.
  - destruct (decide (k = key)) as [->|]; [|done]. cbn. f_equal.
    change (length (unlink key l) = length l). by rewrite unlink_none.
Qed.

Lemma sum_entries its l :
  NoDup l → (∀ k, k ∈ l ↔ is_Some (its !! k)) → sum_map ent_weight its = sumZ (entry_weight its <$> l).
Proof.
  intros Hnd. revert its. induction Hnd as [|k l Hk _ IH]; intros its Hdom.
  - replace its with (∅ : gmap K (lruEntry V)); [apply sum_map_empty|]. symmetry. apply map_empty. intros k.
    apply eq_None_not_Some. intros Hs%Hdom. by apply not_elem_of_nil in Hs.
  - pose proof (sum_map_delete ent_weight its k) as Hd. rewrite (IH (delete k its)) in Hd.
    + cbn. unfold entry_weight at 1. rewrite <- (sumZ_cons (wt ent_weight (its !! k))). cbn.
      replace (entry_weight its <$> l) with (entry_weight (delete k its) <$> l); [lia|].
      apply list_fmap_ext. intros i k' Hi. unfold entry_weight. rewrite lookup_delete_ne; [done|].
      intros ->. by apply list_elem_of_lookup_2 in Hi.
    + intros k'. destruct (decide (k' = k)) as [->|Hne].
      * rewrite lookup_delete_eq. split; [done|]. by intros [].
      * rewrite lookup_delete_ne, <- Hdom by done. rewrite elem_of_cons. naive_solver.
Qed.

Lemma entry_weight_ext its its' l :
  (∀ k, k ∈ l → its' !! k = its !! k) → entry_weight its' <$> l = entry_weight its <$> l.
Proof.
  intros Hext. apply list_fmap_ext. intros i k Hi. unfold entry_weight.
  rewrite Hext; [done|]. by eapply list_elem_of_lookup_2.
Qed.
End weights.

(** * The mirrored index *)

(** [mirrors evs m]: an index that follows the callbacks has [m], and every
    callback fits: [OnStore] a new key, [OnRemove] the pair that is there. *)
Inductive mirrors {K V} `{Countable K} : list (cache_event K V) → gmap K V → Prop :=
  | mirrors_nil : mirrors [] ∅
  | mirrors_store evs m k v : mirrors evs m → m !! k = None → mirrors (evs ++ [OnStore k v]) (<[k := v]> m)
  | mirrors_remove evs m k v : mirrors evs m → m !! k = Some v → mirrors (evs ++ [OnRemove k v]) (delete k m).

(** * The invariant *)

Section shape.
Context {K V : Type} `{Countable K} (cfg : Config V).
Implicit Types (c : Cache K V) (k key : K) (v : V) (ent : lruEntry V) (its : gmap K (lruEntry V)) (l : list K).

(** Capacities far from the ends of [int64]. *)
Definition two62 : Z := 4611686018427387904.
Definition config_ok : Prop := 0 < MaxEntries cfg < two62 ∧ MaxWeight cfg < two62.

Record cache_shape c : Prop := {
  sh_nodup : NoDup (ll c);
  sh_dom k : k ∈ ll c ↔ is_Some (items c !! k);
  sh_weights k ent : items c !! k = Some ent →
    1 ≤ ent_weight ent ∧ (0 < MaxWeight cfg → ent_weight ent ≤ MaxWeight cfg)
    ∧ (MaxWeight cfg ≤ 0 → ent_weight ent = 1);
  sh_weight : weight c = sum_map ent_weight (items c);
  sh_range : in_int64 (weight c);
  sh_mirror : mirrors (events c) (ent_value <$> items c);
}.

(** The capacities hold of the first entries [l]. *)
Definition fits its l : Prop :=
  Z.of_nat (length l) ≤ MaxEntries cfg ∧ (0 < MaxWeight cfg → sumZ (entry_weight its <$> l) ≤ MaxWeight cfg).

Record cache_ok c : Prop := {
  ok_shape : cache_shape c;
  ok_fits : fits (items c) (ll c);
}.

Lemma shape_weights_nonneg c : cache_shape c → ∀ k ent, items c !! k = Some ent → 0 ≤ ent_weight ent.
Proof. intros Hc k ent Hk. pose proof (sh_weights c Hc k ent Hk). lia. Qed.

Lemma shape_sum c : cache_shape c → weight c = sumZ (entry_weight (items c) <$> ll c).
Proof. intros Hc. rewrite (sh_weight c Hc). apply sum_entries; apply Hc. Qed.

Lemma overflows_fits c : cache_shape c → overflows cfg c = false ↔ fits (items c) (ll c).
Proof.
  intros Hc. unfold overflows, fits. rewrite (shape_sum c Hc), orb_false_iff, andb_false_iff, !Z.ltb_ge. lia.
Qed.

Lemma removeElement_shape key c : cache_shape c → cache_shape (removeElement key c).
Proof.
  intros Hc. pose proof (shape_weights_nonneg c Hc) as Hnn. unfold removeElement.
  destruct (items c !! key) as [ent|] eqn:Hkey; [|done].
  pose proof (sum_map_delete ent_weight (items c) key) as Hdel. rewrite Hkey in Hdel. cbn in Hdel.
  pose proof (sum_map_ge ent_weight (items c) key ent Hnn Hkey) as Hge.
  pose proof (Hnn _ _ Hkey). pose proof (sh_range c Hc). pose proof (sh_weight c Hc) as Hw.
  assert (wrap64 (weight c - ent_weight ent) = weight c - ent_weight ent) as Hwrap
    by (apply wrap64_id; solve_int64).
  split; cbn.
  - apply NoDup_filter, Hc.
  - intros k. rewrite elem_of_unlink, (sh_dom c Hc). destruct (decide (k = key)) as [->|Hne].
    + rewrite lookup_delete_eq. split; [by intros []|by intros []].
    + rewrite lookup_delete_ne by done. tauto.
  - intros k e [_ He]%lookup_delete_Some. by apply (sh_weights c Hc k).
  - rewrite Hwrap. lia.
  - rewrite Hwrap. solve_int64.
  - rewrite fmap_delete. apply mirrors_remove; [apply Hc|]. by rewrite lookup_fmap, Hkey.
Qed.

(** ** Eviction *)

(** [c'] is [c] cut down to the longest prefix of the recency list that fits. *)
Definition cut_down c c' : Prop :=
  ∃ n, (n ≤ length (ll c))%nat ∧ ll c' = take n (ll c)
    ∧ items c' = filter (λ kv, kv.1 ∈ take n (ll c)) (items c)
    ∧ fits (items c) (take n (ll c))
    ∧ (n = length (ll c) ∨ ¬ fits (items c) (take (S n) (ll c))).

Lemma fits_ext its its' l : (∀ k, k ∈ l → its' !! k = its !! k) → fits its' l ↔ fits its l.
Proof. intros Hext. unfold fits. by rewrite (entry_weight_ext its its' l Hext). Qed.

Lemma shape_filter_all c : cache_shape c → filter (λ kv, kv.1 ∈ ll c) (items c) = items c.
Proof. intros Hc. apply map_filter_id. intros k ent Hk. cbn. apply (sh_dom c Hc). by eexists. Qed.

Lemma cut_down_refl c : cache_shape c → overflows cfg c = false → cut_down c c.
Proof.
  intros Hc Hover. exists (length (ll c)). rewrite take_ge by done.
  split_and!; [done|done|by rewrite shape_filter_all|by apply overflows_fits|by left].
Qed.

Lemma evict_loop_Some fuel c :
  cache_shape c → 0 < MaxEntries cfg → (length (ll c) ≤ fuel)%nat →
  ∃ c', evict_loop cfg fuel c = Some c' ∧ cache_shape c' ∧ cut_down c c'.
Proof.
  revert c. induction fuel as [|fuel IH]; intros c Hc Hmax Hfuel; cbn [evict_loop];
    (destruct (overflows cfg c) eqn:Hover; [|by exists c; split_and!; [| |by apply cut_down_refl]]).
  all: assert (¬ fits (items c) (ll c)) as Hno by (rewrite <- overflows_fits, Hover; done).
  - assert (ll c = []) as Hnil by (destruct (ll c); [done|cbn in Hfuel; lia]).
    exfalso. apply Hno. rewrite Hnil. split; cbn; lia.
  - destruct (last (ll c)) as [key|] eqn:Hlast.
    2:{ exfalso. apply Hno. apply last_None in Hlast. rewrite Hlast. split; cbn; lia. }
    unfold evictOldest. rewrite Hlast. apply last_Some in Hlast as [l Hl].
    pose proof (sh_nodup c Hc) as Hnd. rewrite Hl in Hnd.
    assert (key ∉ l) as Hkey by (apply NoDup_app in Hnd; set_solver).
    pose proof (removeElement_shape key c Hc) as Hc1.
    assert (is_Some (items c !! key)) as [ent Hent] by (apply (sh_dom c Hc); rewrite Hl; set_solver).
    assert (ll (removeElement key c) = l) as Hl1.
    { unfold removeElement. rewrite Hent. cbn. rewrite Hl. by apply unlink_snoc. }
    destruct (IH (removeElement key c)) as (c' & Hloop & Hc' & n & Hn & Htake & Hitems & Hfits & Hmaximal);
      [done|done|rewrite Hl1; rewrite Hl, length_app in Hfuel; cbn in Hfuel; lia|].
    rewrite Hl1 in Hn, Htake, Hitems, Hfits, Hmaximal. rewrite removeElement_items in Hitems, Hfits, Hmaximal.
    assert (∀ m, fits (delete key (items c)) (take m l) ↔ fits (items c) (take m l)) as Hext.
    { intros m. apply fits_ext. intros k Hk. apply lookup_delete_ne. intros ->. apply Hkey.
      by eapply elem_take. }
    exists c'. split_and!; [done..|]. exists n. rewrite Hl. rewrite !(take_app_le l [key]) by done.
    split_and!; [rewrite length_app; lia|done| |by apply Hext|].
    + rewrite Hitems. apply map_eq. intros k. apply option_eq. intros e.
      rewrite !map_lookup_filter_Some. cbn. split.
      * intros [[_ ?]%lookup_delete_Some ?]. done.
      * intros [Hk Hin]. split; [|done]. apply lookup_delete_Some. split; [|done]. intros <-. apply Hkey.
        by eapply elem_take.
    + right. destruct Hmaximal as [->|Hmax'].
      * rewrite take_ge by (rewrite length_app; cbn; lia). by rewrite Hl in Hno.
      * destruct (decide (n = length l)) as [->|]; [rewrite take_ge by (rewrite length_app; cbn; lia); by rewrite Hl in Hno|].
        rewrite take_app_le by lia. by rewrite <- Hext.
Qed.

Lemma cut_down_fits c c' : cut_down c c' → fits (items c') (ll c').
Proof.
  intros (n & Hn & -> & -> & Hfits & _). eapply fits_ext; [|done]. intros k Hk.
  destruct (items c !! k) as [ent|] eqn:He.
  - by apply map_lookup_filter_Some.
  - apply map_lookup_filter_None. by left.
Qed.

Lemma evictOverflow_spec c :
  cache_shape c → 0 < MaxEntries cfg → cache_ok (evictOverflow cfg c) ∧ cut_down c (evictOverflow cfg c).
Proof.
  intros Hc Hmax. unfold evictOverflow.
  destruct (evict_loop_Some (length (ll c)) c Hc Hmax (le_n _)) as (c' & -> & Hc' & Hcut). cbn.
  split; [|done]. split; [done|]. by eapply cut_down_fits.
Qed.

(** ** Operations *)

Lemma drop_element_ok key c : cache_ok c → cache_ok (removeElement key c).
Proof.
  intros [Hc [Hlen Hsum]]. pose proof (removeElement_shape key c Hc) as Hc'. split; [done|].
  pose proof (shape_sum c Hc) as Hw. pose proof (shape_sum _ Hc') as Hw'.
  unfold removeElement in *. destruct (items c !! key) as [ent|] eqn:Hkey; [|done]. cbn in *. split.
  - assert (key ∈ ll c) as Hin by (apply (sh_dom c Hc); by eexists).
    pose proof (length_unlink key (ll c) (sh_nodup c Hc) Hin). lia.
  - intros Hpos. rewrite <- Hw'. pose proof (sh_weights c Hc key ent Hkey).
    pose proof (sum_map_ge ent_weight (items c) key ent (shape_weights_nonneg c Hc) Hkey).
    pose proof (sh_weight c Hc). pose proof (sh_range c Hc). specialize (Hsum Hpos).
    rewrite wrap64_id by solve_int64. lia.
Qed.

(** Reordering the list changes nothing else. *)
Lemma reorder_shape l c :
  l ≡ₚ ll c → cache_shape c →
  cache_shape (mkCache l (items c) (weight c) (epoch c) (events c)).
Proof.
  intros Hperm []. split; cbn; [by rewrite Hperm|intros k; by rewrite Hperm|done..].
Qed.

Lemma reorder_fits its l l' : l ≡ₚ l' → fits its l' → fits its l.
Proof.
  intros Hperm [Hlen Hsum]. split; [by rewrite Hperm|]. intros Hpos. rewrite <- (Hsum Hpos).
  assert (∀ (l1 l2 : list Z), l1 ≡ₚ l2 → sumZ l1 = sumZ l2) as Hs by (induction 1; cbn; lia).
  rewrite (Hs _ (entry_weight its <$> l')); [done|]. by rewrite Hperm.
Qed.

Lemma MoveToFront_perm key l : NoDup l → key ∈ l → MoveToFront key l ≡ₚ l.
Proof.
  induction 1 as [|k l Hk _ IH]; intros Hin; [by apply not_elem_of_nil in Hin|]. unfold MoveToFront in *.
  change (unlink key (k :: l)) with (unlink key ([k] ++ l)). rewrite unlink_app.
  destruct (decide (k = key)) as [->|Hne].
  - rewrite (unlink_none key l Hk). unfold unlink. rewrite filter_cons, decide_False by (by intros []). done.
  - apply elem_of_cons in Hin as [->|Hin]; [done|]. rewrite (unlink_none key [k]) by set_solver.
    cbn. rewrite Permutation_swap. by f_equiv; apply IH.
Qed.

Lemma lookup_ok now key h ver c : cache_ok c → cache_ok (cache_lookup cfg now key h ver c).2.
Proof.
  intros Hc. unfold cache_lookup. destruct (items c !! key) eqn:Hkey; [|done].
  destruct (expired _ _ _); [by apply drop_element_ok|]. destruct (_ && _); [done|].
  destruct Hc as [Hc Hfits]. assert (MoveToFront key (ll c) ≡ₚ ll c) as Hperm.
  { apply MoveToFront_perm; [apply Hc|]. apply (sh_dom c Hc). by eexists. }
  split; cbn; [by apply reorder_shape | by eapply reorder_fits].
Qed.

Lemma valueWeight_ok v :
  (0 <? MaxWeight cfg) && (MaxWeight cfg <? valueWeight cfg v) = false →
  1 ≤ valueWeight cfg v ∧ (0 < MaxWeight cfg → valueWeight cfg v ≤ MaxWeight cfg)
  ∧ (MaxWeight cfg ≤ 0 → valueWeight cfg v = 1).
Proof.
  unfold valueWeight. intros Hw. destruct (cfg_Weight cfg) as [weigh|].
  - destruct (Z.leb_spec (MaxWeight cfg) 0); [lia|]. destruct (Z.leb_spec (weigh v) 0); bool_facts; lia.
  - bool_facts. lia.
Qed.

(** Without a weight limit every entry weighs one. *)
Lemma unit_weights c : cache_shape c → MaxWeight cfg ≤ 0 → weight c = Z.of_nat (length (ll c)).
Proof.
  intros Hc Hmax. rewrite (shape_sum c Hc). pose proof (sh_dom c Hc) as Hdom.
  assert (∀ l, l ⊆ ll c → sumZ (entry_weight (items c) <$> l) = Z.of_nat (length l)) as Hs; [|by apply Hs].
  induction l as [|k l IH]; intros Hl; [done|]. cbn [fmap list_fmap sumZ length].
  rewrite IH by set_solver. assert (is_Some (items c !! k)) as [ent Hk] by (apply Hdom; set_solver).
  unfold entry_weight. rewrite Hk. cbn. pose proof (sh_weights c Hc k ent Hk). lia.
Qed.

Lemma weight_bound c : config_ok → cache_ok c → 0 ≤ weight c < two62.
Proof.
  intros [[Hpos Hmax] Hmw] [Hc [Hlen Hsum]]. split.
  - rewrite (sh_weight c Hc). by apply sum_map_nonneg, shape_weights_nonneg.
  - destruct (Z.le_gt_cases (MaxWeight cfg) 0) as [Hle|Hgt].
    + rewrite (unit_weights c Hc Hle). lia.
    + rewrite (shape_sum c Hc). specialize (Hsum Hgt). lia.
Qed.

(** The state that a store hands to the eviction. *)
Definition stored (key : K) (ent : lruEntry V) c c1 : Prop :=
  cache_shape c1 ∧ ll c1 = MoveToFront key (ll c) ∧ items c1 = <[key := ent]> (items c).

(** An entry of admissible weight. *)
Definition good_entry ent : Prop :=
  1 ≤ ent_weight ent ∧ (0 < MaxWeight cfg → ent_weight ent ≤ MaxWeight cfg)
  ∧ (MaxWeight cfg ≤ 0 → ent_weight ent = 1).

Lemma good_entry_bound ent : config_ok → good_entry ent → 1 ≤ ent_weight ent < two62.
Proof. intros [_ Hmw] (? & ? & ?). unfold two62 in *. lia. Qed.

Lemma insert_weights key ent c :
  cache_shape c → good_entry ent → ∀ k e, <[key := ent]> (items c) !! k = Some e → good_entry e.
Proof. intros Hc Hent k e [[<- <-]|[_ He]]%lookup_insert_Some; [done|]. by apply (sh_weights c Hc k). Qed.

(** Replacing the entry of a key, and adding one. *)
Lemma replace_stored key ent old c :
  config_ok → cache_ok c → good_entry ent → items c !! key = Some old →
  stored key ent c (mkCache (MoveToFront key (ll c)) (<[key := ent]> (items c))
    ((weight c -₆₄ ent_weight old) +₆₄ ent_weight ent) (epoch c)
    ((events c ++ [OnRemove key (ent_value old)]) ++ [OnStore key (ent_value ent)])).
Proof.
  intros Hcfg Hok Hent Hkey. pose proof Hok as [Hc _]. pose proof (weight_bound c Hcfg Hok) as Hbound.
  pose proof (good_entry_bound ent Hcfg Hent) as Hvw. pose proof (insert_weights key ent c Hc Hent) as Hweights.
  assert (key ∈ ll c) as Hin by (apply (sh_dom c Hc); by eexists).
  pose proof (sum_map_insert ent_weight (items c) key ent) as Hsum. rewrite <- (sh_weight c Hc), Hkey in Hsum. cbn in Hsum.
  pose proof (sh_weights c Hc key old Hkey) as Hold.
  pose proof (sum_map_ge ent_weight (items c) key old (shape_weights_nonneg c Hc) Hkey) as Hge.
  rewrite <- (sh_weight c Hc) in Hge.
  assert (wrap64 (wrap64 (weight c - ent_weight old) + ent_weight ent) = weight c - ent_weight old + ent_weight ent) as Hwrap.
  { rewrite (wrap64_id (weight c - _)) by (unfold two62 in *; solve_int64). apply wrap64_id. unfold two62 in *. solve_int64. }
  split; [|done]. split; cbn; rewrite ?Hwrap.
  - rewrite MoveToFront_perm by (done || apply Hc). apply Hc.
  - intros k. rewrite MoveToFront_perm by (done || apply Hc). rewrite (sh_dom c Hc).
    destruct (decide (k = key)) as [->|]; [by rewrite lookup_insert_eq, Hkey|by rewrite lookup_insert_ne].
  - done.
  - lia.
  - unfold two62 in *. solve_int64.
  - rewrite fmap_insert. rewrite <- insert_delete_eq. apply mirrors_store; [|apply lookup_delete_eq].
    apply mirrors_remove; [apply Hc|]. by rewrite lookup_fmap, Hkey.
Qed.

Lemma insert_stored key ent c :
  config_ok → cache_ok c → good_entry ent → items c !! key = None →
  stored key ent c (mkCache (key :: ll c) (<[key := ent]> (items c)) (weight c +₆₄ ent_weight ent) (epoch c)
    (events c ++ [OnStore key (ent_value ent)])).
Proof.
  intros Hcfg Hok Hent Hkey. pose proof Hok as [Hc _]. pose proof (weight_bound c Hcfg Hok) as Hbound.
  pose proof (good_entry_bound ent Hcfg Hent) as Hvw. pose proof (insert_weights key ent c Hc Hent) as Hweights.
  assert (key ∉ ll c) as Hin by (rewrite (sh_dom c Hc), Hkey; by intros []).
  pose proof (sum_map_insert ent_weight (items c) key ent) as Hsum. rewrite <- (sh_weight c Hc), Hkey in Hsum. cbn in Hsum.
  assert (wrap64 (weight c + ent_weight ent) = weight c + ent_weight ent) as Hwrap.
  { apply wrap64_id. unfold two62 in *. solve_int64. }
  split; [|unfold MoveToFront; cbn; by rewrite unlink_none]. split; cbn; rewrite ?Hwrap.
  - constructor; [done|apply Hc].
  - intros k. rewrite elem_of_cons, (sh_dom c Hc).
    destruct (decide (k = key)) as [->|]; [rewrite lookup_insert_eq|rewrite lookup_insert_ne by done]; naive_solver.
  - done.
  - lia.
  - unfold two62 in *. solve_int64.
  - rewrite fmap_insert. apply mirrors_store; [apply Hc|]. by rewrite lookup_fmap, Hkey.
Qed.

Lemma storeLocked_spec now key v h c :
  config_ok → cache_ok c →
  let ent := mkEntry (cloneValue cfg v) h (expireAt cfg now) (valueWeight cfg v) in
  cache_ok (storeLocked cfg now key v h c)
  ∧ if (0 <? MaxWeight cfg) && (MaxWeight cfg <? valueWeight cfg v)
    then storeLocked cfg now key v h c = removeElement key c
    else ∃ c1, stored key ent c c1 ∧ cut_down c1 (storeLocked cfg now key v h c).
Proof.
  intros Hcfg Hok ent. unfold storeLocked. cbv zeta. fold ent.
  destruct ((0 <? MaxWeight cfg) && _) eqn:Hover; [split; [by apply drop_element_ok|done]|].
  assert (0 < MaxEntries cfg) as Hmax by apply Hcfg.
  assert (good_entry ent) as Hent by exact (valueWeight_ok v Hover).
  destruct (items c !! key) as [old|] eqn:Hkey.
  - pose proof (replace_stored key ent old c Hcfg Hok Hent Hkey) as Hst.
    pose proof (evictOverflow_spec _ (proj1 Hst) Hmax) as [? ?]. split; [done|]. by eexists.
  - pose proof (insert_stored key ent c Hcfg Hok Hent Hkey) as Hst.
    pose proof (evictOverflow_spec _ (proj1 Hst) Hmax) as [? ?]. split; [done|]. by eexists.
Qed.

(** ** Runs *)

Lemma New_ok c : New cfg = Some c → cache_ok c.
Proof.
  unfold New. destruct (Z.leb_spec (MaxEntries cfg) 0); [done|]. intros [= <-].
  split; [split|]; cbn.
  - constructor.
  - intros k. rewrite lookup_empty. split; [by intros ?%not_elem_of_nil|by intros []].
  - by intros k ent ?%lookup_empty_Some.
  - by rewrite sum_map_empty.
  - solve_int64.
  - rewrite fmap_empty. apply mirrors_nil.
  - split; cbn; lia.
Qed.

Lemma bumpEpoch_ok c : cache_ok c → cache_ok (bumpEpoch c).
Proof. intros [[] ?]. by split. Qed.

Lemma fold_ok {A} (g : Cache K V → A → Cache K V) args c :
  (∀ c a, cache_ok c → cache_ok (g c a)) → cache_ok c → cache_ok (fold_left g args c).
Proof. intros Hg. revert c. induction args as [|a args IH]; intros c Hc; [done|]. cbn. auto. Qed.

Lemma Flush_mirrors l its evs :
  NoDup l → (∀ k, k ∈ l ↔ is_Some (its !! k)) → mirrors evs (ent_value <$> its) →
  mirrors (evs ++ omap (λ key, (λ ent, OnRemove key (ent_value ent)) <$> its !! key) l) (∅ : gmap K V).
Proof.
  intros Hnd. revert its evs. induction Hnd as [|k l Hk _ IH]; intros its evs Hdom Hm; cbn.
  - rewrite app_nil_r. replace its with (∅ : gmap K (lruEntry V)) in Hm; [by rewrite fmap_empty in Hm|].
    symmetry. apply map_empty. intros k. apply eq_None_not_Some. intros Hs%Hdom. by apply not_elem_of_nil in Hs.
  - assert (is_Some (its !! k)) as [ent Hent] by (apply Hdom; apply list_elem_of_here). rewrite Hent. cbn.
    replace (omap _ l) with (omap (λ key, (λ ent, OnRemove key (ent_value ent)) <$> delete k its !! key) l).
    + change (evs ++ ?e :: ?r) with (evs ++ [e] ++ r). rewrite app_assoc. apply IH.
      * intros k'. rewrite lookup_delete_is_Some, <- Hdom, elem_of_cons. naive_solver.
      * rewrite fmap_delete. apply mirrors_remove; [done|]. by rewrite lookup_fmap, Hent.
    + apply list_omap_ext. apply Forall_Forall2_diag, Forall_forall. intros k' Hk'. rewrite lookup_delete_ne; [done|].
      by intros ->.
Qed.

Lemma Flush_ok c : cache_ok c → cache_ok (Flush c).
Proof.
  intros [Hc [Hlen _]]. split; [split|]; cbn.
  - constructor.
  - intros k. rewrite lookup_empty. split; [by intros ?%not_elem_of_nil|by intros []].
  - by intros k ent ?%lookup_empty_Some.
  - by rewrite sum_map_empty.
  - solve_int64.
  - rewrite fmap_empty. apply Flush_mirrors; apply Hc.
  - split; cbn; lia.
Qed.

(** The critical sections of [c.mu] that change the cache. *)
Inductive cache_op :=
  | OpLookup (now : Z) (key : K) (hash : Z) (versioned : bool)
  | OpStore (now : Z) (key : K) (v : V)
  | OpStoreVersioned (now : Z) (key : K) (hash : Z) (v : V)
  | OpStoreIfEpoch (now : Z) (key : K) (v : V) (hash : Z) (loadEpoch : nat)
  | OpStoreBatch (now : Z) (entries : list (K * V * Z)) (expected : nat)
  | OpInvalidate (keys : list K)
  | OpInvalidateWhere (pred : K → bool) (order : list K)
  | OpInvalidateWhereValue (pred : K → V → bool) (order : list K)
  | OpFlush.

Definition apply_op c (op : cache_op) : Cache K V :=
  match op with
  | OpLookup now key hash versioned => (cache_lookup cfg now key hash versioned c).2
  | OpStore now key v => Store cfg now key v c
  | OpStoreVersioned now key hash v => StoreVersioned cfg now key hash v c
  | OpStoreIfEpoch now key v hash loadEpoch => (storeIfEpoch cfg now key v hash loadEpoch c).2
  | OpStoreBatch now entries expected => (storeBatchIfEpoch cfg now entries expected c).2
  | OpInvalidate keys => Invalidate keys c
  | OpInvalidateWhere pred order => InvalidateWhere pred order c
  | OpInvalidateWhereValue pred order => InvalidateWhereValue pred order c
  | OpFlush => Flush c
  end.

Lemma apply_op_ok c op : config_ok → cache_ok c → cache_ok (apply_op c op).
Proof.
  intros Hcfg Hc. destruct op; cbn.
  - by apply lookup_ok.
  - by apply storeLocked_spec.
  - by apply storeLocked_spec.
  - unfold storeIfEpoch. case_match; [done | by apply storeLocked_spec].
  - unfold storeBatchIfEpoch. case_match; [done|].
    apply fold_ok; [|done]. intros c' [[key v] h] Hc'. by apply storeLocked_spec.
  - unfold Invalidate. case_bool_decide; [done|]. apply fold_ok; [|by apply bumpEpoch_ok].
    intros. by apply drop_element_ok.
  - apply fold_ok; [|by apply bumpEpoch_ok]. intros c' a Hc'. destruct (pred a); [by apply drop_element_ok|done].
  - apply fold_ok; [|by apply bumpEpoch_ok]. intros c' a Hc'.
    destruct (items c' !! a); [|done]. destruct (pred _ _); [by apply drop_element_ok|done].
  - by apply Flush_ok.
Qed.

Lemma reachable_cache_ok c0 ops : config_ok → New cfg = Some c0 → cache_ok (fold_left apply_op ops c0).
Proof. intros Hcfg Hnew. apply fold_ok; [|by apply New_ok]. intros. by apply apply_op_ok. Qed.
End shape.
