(* ===== verification/CacheConc.v ===== *)
(** The read-model cache under concurrency: the invariant of the shared state
    and the rely-guarantee proofs of the loading methods. *)

From S2P Require Import Prelude Programs Cache CacheInv CacheLoad.

Open Scope nat_scope.

#[local] Set Warnings "-notation-for-abbreviation".
#[local] Set Default Proof Using "Type".

(** What is relied upon of [singleflight]: a caller that joins a flight gets a
    result that was handed in for a flight opened under its own key. *)
Class SingleFlightLaws (G R : Type) `{SingleFlight G R} := {
  sf_key : G → nat → option string;
  sf_enter_key s g : sf_key (sf_enter s g).2 (sf_enter s g).1.2 = Some s;
  sf_enter_keys s g id t : sf_key g id = Some t → sf_key (sf_enter s g).2 id = Some t;
  sf_enter_result s g id r : sf_result (sf_enter s g).2 id = Some r → sf_result g id = Some r;
  sf_leave_key id r g id' : sf_key (sf_leave id r g) id' = sf_key g id';
  sf_leave_result id r g id' r' :
    sf_result (sf_leave id r g) id' = Some r' → (id' = id ∧ r' = r) ∨ sf_result g id' = Some r';
}.

Section conc.
Context {K V E G : Type} `{Countable K} `{SingleFlightLaws G (res E (V * bool))}.
Context (cfg : Config V) (keyString : K → string).
Notation W := (world K V E G).
Implicit Types (w : W) (k key : K) (v : V).

(** [Clone] makes a deep copy, which is the same value. *)
Context (clone_copies : ∀ v, cloneValue cfg v = v).
(** Different keys have different flights. *)
Context (sf_keys : ∀ k h b k' h' b',
  singleflightKey keyString k h b = singleflightKey keyString k' h' b' → k = k').

(** * The shared state *)

(** [v] is a committed value of [k], not older than what the first [e]
    invalidations left. *)
Definition fresh w (e : nat) k v : Prop :=
  e < length (w_floors w) ∧ ∃ n, w_hist w k !! n = Some v ∧ floor w e k ≤ n.

Definition committed w k v : Prop := v ∈ w_hist w k.

(** What a flight may hand over. *)
Definition flight_ok w (fl : batchFlight K V E) : Prop :=
  let '(k, _, _, e) := fl_key fl in
  fl_done fl = true → fl_err fl = None →
  fl_ok fl = true ∧ (∃ v, fl_value fl = Some v ∧ fresh w e k v)
  ∧ (fl_retry fl = true → e < epoch (w_cache w)).

Definition result_ok w (s : string) (r : res E (V * bool)) : Prop :=
  ∀ v b, r = OK (v, b) → ∀ k h ver, s = singleflightKey keyString k h ver → committed w k v.

Record world_ok w : Prop := {
  wo_length : length (w_floors w) = S (epoch (w_cache w));
  wo_hist k : w_hist w k ≠ [];
  wo_floor e k : floor w e k ≤ version w k;
  wo_floors e e' k : e ≤ e' → e' < length (w_floors w) → floor w e k ≤ floor w e' k;
  wo_items k ent : items (w_cache w) !! k = Some ent → fresh w (epoch (w_cache w)) k (ent_value ent);
  wo_flights fk id : w_flights w !! fk = Some id → ∃ fl, w_heap w !! id = Some fl ∧ fl_key fl = fk;
  wo_heap id fl : w_heap w !! id = Some fl → flight_ok w fl;
  wo_sf id r : sf_result (w_sf w) id = Some r → ∃ s, sf_key (w_sf w) id = Some s ∧ result_ok w s r;
}.

(** How the state moves: histories, invalidations and flights only grow. *)
Record moves w w' : Prop := {
  mv_hist k : w_hist w k `prefix_of` w_hist w' k;
  mv_floors : w_floors w `prefix_of` w_floors w';
  mv_epoch : epoch (w_cache w) ≤ epoch (w_cache w');
  mv_heap id fl : w_heap w !! id = Some fl → ∃ fl', w_heap w' !! id = Some fl' ∧ fl_key fl' = fl_key fl;
  mv_sf id s : sf_key (w_sf w) id = Some s → sf_key (w_sf w') id = Some s;
}.

#[export] Instance moves_preorder : PreOrder moves.
Proof.
  split.
  - intros w. split; [done|done|done|eauto|done].
  - intros w1 w2 w3 [a1 b1 c1 d1 e1] [a2 b2 c2 d2 e2]. split; [intros k; exact (transitivity (a1 k) (a2 k))|exact (transitivity b1 b2)|lia| |auto].
    intros id fl (fl' & Hfl' & Hk')%d1. destruct (d2 _ _ Hfl') as (fl'' & ? & ?). exists fl''. split; congruence.
Qed.

Lemma floor_moves w w' e k : moves w w' → e < length (w_floors w) → floor w' e k = floor w e k.
Proof.
  intros Hm [f Hf]%lookup_lt_is_Some_2. unfold floor. rewrite Hf.
  by rewrite (prefix_lookup_Some _ _ _ _ Hf (mv_floors _ _ Hm)).
Qed.

Lemma fresh_moves w w' e k v : moves w w' → fresh w e k v → fresh w' e k v.
Proof.
  intros Hm (He & n & Hn & Hle). split.
  - pose proof (prefix_length _ _ (mv_floors _ _ Hm)). lia.
  - exists n. rewrite (floor_moves w w') by done. split; [|done].
    by apply (prefix_lookup_Some _ _ _ _ Hn (mv_hist _ _ Hm k)).
Qed.

Lemma fresh_weaken w e e' k v : world_ok w → e ≤ e' → fresh w e' k v → fresh w e k v.
Proof.
  intros Hw He (He' & n & Hn & Hle). split; [lia|]. exists n. split; [done|].
  pose proof (wo_floors w Hw e e' k He He'). lia.
Qed.

Lemma fresh_committed w e k v : fresh w e k v → committed w k v.
Proof. intros (_ & n & Hn & _). by eapply list_elem_of_lookup_2. Qed.

Lemma committed_moves w w' k v : moves w w' → committed w k v → committed w' k v.
Proof. intros Hm. unfold committed. destruct (mv_hist _ _ Hm k) as [l ->]. rewrite elem_of_app. by left. Qed.

Lemma version_moves w w' k : moves w w' → version w k ≤ version w' k.
Proof. intros Hm. unfold version. pose proof (prefix_length _ _ (mv_hist _ _ Hm k)). lia. Qed.

Lemma flight_ok_moves w w' fl : moves w w' → flight_ok w fl → flight_ok w' fl.
Proof.
  intros Hm. unfold flight_ok. destruct (fl_key fl) as [[[k h] b] e]. intros Hfl Hd He.
  destruct (Hfl Hd He) as (? & (v & ? & ?) & Hr). split_and!; [done| |].
  - exists v. split; [done|]. by eapply fresh_moves.
  - intros. pose proof (mv_epoch _ _ Hm). specialize (Hr ltac:(done)). lia.
Qed.

Lemma result_ok_moves w w' s r : moves w w' → result_ok w s r → result_ok w' s r.
Proof. intros Hm Hr v b -> k h ver ->. eapply committed_moves; [done|]. by eapply Hr. Qed.

(** ** Moves that keep the histories and the floors *)

(** A section of [c.mu] that does not invalidate. *)
Lemma set_cache_moves w c : epoch c = epoch (w_cache w) → moves w (set_cache c w).
Proof. intros He. split; cbn; [done|done|lia|eauto|done]. Qed.

Lemma set_cache_ok w c :
  world_ok w → epoch c = epoch (w_cache w) →
  (∀ k ent, items c !! k = Some ent → fresh w (epoch (w_cache w)) k (ent_value ent)) →
  world_ok (set_cache c w).
Proof.
  intros Hw He Hitems. pose proof (set_cache_moves w c He) as Hm.
  destruct Hw as [? ? ? ? ? ? Hh Hs]. split; cbn; rewrite ?He; [done..| | | |].
  - intros k ent Hk. eapply fresh_moves; [done|]. auto.
  - done.
  - intros id fl Hfl. eapply flight_ok_moves; [done|eauto].
  - intros id r (s & Hk & Hr)%Hs. exists s. split; [done|]. by eapply result_ok_moves.
Qed.

Lemma set_flights_ok w fs :
  world_ok w → 
  (∀ fk id, fs.1 !! fk = Some id → ∃ fl, fs.2 !! id = Some fl ∧ fl_key fl = fk) →
  (∀ id fl, fs.2 !! id = Some fl → flight_ok w fl) →
  (∀ id fl, w_heap w !! id = Some fl → ∃ fl', fs.2 !! id = Some fl' ∧ fl_key fl' = fl_key fl) →
  world_ok (set_flights fs w) ∧ moves w (set_flights fs w).
Proof.
  intros Hw Hmap Hheap Hgrow. assert (moves w (set_flights fs w)) as Hm by (split; cbn; [done|done|lia|done|done]).
  split; [|done]. destruct Hw as [? ? ? ? ? ? Hh Hs]. split; cbn; [done..|].
  intros id r (s & Hk & Hr)%Hs. exists s. split; [done|]. by eapply result_ok_moves.
Qed.

Lemma set_sf_ok w g :
  world_ok w →
  (∀ id s, sf_key (w_sf w) id = Some s → sf_key g id = Some s) →
  (∀ id r, sf_result g id = Some r → ∃ s, sf_key g id = Some s ∧ result_ok w s r) →
  world_ok (set_sf g w) ∧ moves w (set_sf g w).
Proof.
  intros Hw Hkeys Hres. assert (moves w (set_sf g w)) as Hm by (split; cbn; [done|done|lia|eauto|done]).
  split; [|done]. destruct Hw as [? ? ? ? ? ? Hh Hs]. split; cbn; done.
Qed.

(** * Critical sections *)

Notation safe := (safe world_ok moves).

Lemma safe_on_cache {A} (f : Z → Cache K V → A * Cache K V) (Q : A → W → Prop) w :
  (∀ w1, world_ok w1 → moves w w1 →
     epoch (f (w_now w1) (w_cache w1)).2 = epoch (w_cache w1)
     ∧ (∀ k ent, items (f (w_now w1) (w_cache w1)).2 !! k = Some ent → fresh w1 (epoch (w_cache w1)) k (ent_value ent))
     ∧ (∀ w2, moves w1 w2 → world_ok w2 → epoch (w_cache w2) = epoch (w_cache w1) →
          Q (f (w_now w1) (w_cache w1)).1 w2)) →
  safe Q (on_cache f) w.
Proof.
  intros Hf. apply safe_atomically. intros w1 Hw Hm. destruct (Hf w1 Hw Hm) as (He & Hi & HQ).
  destruct (f (w_now w1) (w_cache w1)) as [a c]. cbn in *.
  pose proof (set_cache_ok w1 c Hw He Hi). pose proof (set_cache_moves w1 c He). split_and!; [done..|]. by apply HQ.
Qed.

Lemma safe_cache_lookup key h ver (Q : option V → W → Prop) w :
  (∀ w1 o, world_ok w1 → moves w w1 → (∀ v, o = Some v → fresh w1 (epoch (w_cache w1)) key v) → Q o w1) →
  safe Q (on_cache (λ now, cache_lookup cfg now key h ver)) w.
Proof using clone_copies.
  intros HQ. apply safe_on_cache. intros w1 Hw Hm.
  destruct (drops_lookup cfg (w_now w1) key h ver (w_cache w1)) as [Hsub He]. split_and!; [done| |].
  - intros k ent Hk. apply (wo_items w1 Hw). by eapply lookup_weaken.
  - intros w2 Hm2 Hw2 He2. apply HQ; [done|by etrans|]. intros v Hv.
    apply lookup_hit in Hv as (ent & Hent & -> & _). rewrite clone_copies, He2.
    eapply fresh_moves; [done|]. by apply wo_items.
Qed.

Lemma safe_epoch (Q : nat → W → Prop) w :
  (∀ w1, world_ok w1 → moves w w1 → Q (epoch (w_cache w1)) w1) →
  safe Q (on_cache (λ _ c, (cacheEpoch c, c))) w.
Proof.
  intros HQ. apply safe_on_cache. intros w1 Hw Hm. cbn. split_and!; [done|by apply wo_items|].
  intros w2 Hm2 Hw2 He. unfold cacheEpoch. rewrite <- He. apply HQ; [done|by etrans].
Qed.

(** A store that is guarded by the epoch [e]. *)
Lemma safe_guarded {A} (f : Z → Cache K V → A * Cache K V) e (Q : A → W → Prop) w :
  e ≤ epoch (w_cache w) →
  (∀ now c, epoch (f now c).2 = epoch c ∧ (epoch c ≠ e → (f now c).2 = c)) →
  (∀ now w1 k ent, world_ok w1 → moves w w1 → epoch (w_cache w1) = e →
     items (f now (w_cache w1)).2 !! k = Some ent → fresh w1 e k (ent_value ent)) →
  (∀ now c w1, world_ok w1 → moves w w1 → e ≤ epoch c → epoch c = epoch (w_cache w1) → Q (f now c).1 w1) →
  safe Q (on_cache f) w.
Proof.
  intros He Hf Hitems HQ. apply safe_on_cache. intros w1 Hw Hm. pose proof (mv_epoch _ _ Hm).
  destruct (Hf (w_now w1) (w_cache w1)) as (Hep & Hno). split_and!; [done| |].
  - intros k ent Hk. destruct (decide (epoch (w_cache w1) = e)) as [<-|Hne].
    + by eapply Hitems.
    + rewrite Hno in Hk by done. by apply wo_items.
  - intros w2 Hm2 Hw2 He2. apply HQ; [done|by etrans|lia|done].
Qed.

Lemma storeIfEpoch_guard now key v h e (c : Cache K V) :
  epoch (storeIfEpoch cfg now key v h e c).2 = epoch c
  ∧ (epoch c ≠ e → (storeIfEpoch cfg now key v h e c).2 = c).
Proof.
  unfold storeIfEpoch. destruct (Nat.eqb_spec (epoch c) e); cbn; [|done].
  split; [apply (storeLocked_stores cfg now key v h c)|done].
Qed.

Lemma storeIfEpoch_fresh now key v h e w k ent :
  world_ok w → epoch (w_cache w) = e → fresh w e key v →
  items (storeIfEpoch cfg now key v h e (w_cache w)).2 !! k = Some ent → fresh w e k (ent_value ent).
Proof using clone_copies.
  intros Hw <- Hv. unfold storeIfEpoch. rewrite Nat.eqb_refl. cbn. intros Hk.
  destruct (storeLocked_stores cfg now key v h (w_cache w)) as [_ Hs].
  destruct (Hs k ent Hk) as [?|[-> ->]]; [by apply wo_items | by rewrite clone_copies].
Qed.

Lemma storeBatch_guard now entries e (c : Cache K V) :
  epoch (storeBatchIfEpoch cfg now entries e c).2 = epoch c
  ∧ (epoch c ≠ e → (storeBatchIfEpoch cfg now entries e c).2 = c).
Proof.
  unfold storeBatchIfEpoch. destruct (Nat.eqb_spec (epoch c) e); cbn; [|done].
  split; [apply storeBatch_epoch|done].
Qed.

Lemma storeBatch_fresh now entries e w k ent :
  world_ok w → epoch (w_cache w) = e → (∀ key value h, (key, value, h) ∈ entries → fresh w e key value) →
  items (storeBatchIfEpoch cfg now entries e (w_cache w)).2 !! k = Some ent → fresh w e k (ent_value ent).
Proof using clone_copies.
  intros Hw <- Hv. unfold storeBatchIfEpoch. rewrite Nat.eqb_refl. cbn.
  intros [?|(value & h & Hin & ->)]%storeBatch_stores; [by apply wo_items | rewrite clone_copies; eauto].
Qed.

(** * Single keys *)

(** A loader reads a value that was current at some time since its start. *)
Definition recent w k v w' : Prop := ∃ n, w_hist w' k !! n = Some v ∧ version w k ≤ n.

Definition reads_key k (load : prog W (res E V)) : Prop :=
  ∀ w, world_ok w → safe (λ r w', ∀ v, r = OK v → recent w k v w') load w.

Lemma recent_fresh w w' e k v :
  world_ok w → moves w w' → e ≤ epoch (w_cache w) → recent w k v w' → fresh w' e k v.
Proof.
  intros Hw Hm He (n & Hn & Hle). pose proof (wo_length w Hw).
  pose proof (prefix_length _ _ (mv_floors _ _ Hm)). split; [lia|]. exists n. split; [done|].
  rewrite (floor_moves w w') by (done || lia). pose proof (wo_floor w Hw e k). lia.
Qed.

Lemma safe_load_once e0 k h ver load w :
  reads_key k load → world_ok w → e0 ≤ epoch (w_cache w) →
  safe (λ r w', result_ok w' (singleflightKey keyString k h ver) r
                ∧ ∀ v b, r = OK (v, b) → fresh w' e0 k v) (load_once cfg k h ver load) w.
Proof using clone_copies sf_keys.
  intros Hload Hw He0. unfold load_once.
  assert (∀ w' v b, fresh w' e0 k v → result_ok w' (singleflightKey keyString k h ver) (OK (v, b))
    ∧ ∀ v' b', @OK E _ (v, b) = OK (v', b') → fresh w' e0 k v') as Hdone.
  { intros w' v b Hv. split; [|by intros ? ? [= <- <-]].
    intros ? ? [= <- <-] k' h' ver' Heq. rewrite <- (sf_keys _ _ _ _ _ _ Heq). by eapply fresh_committed. }
  apply safe_bind. apply safe_cache_lookup. intros w1 [v|] Hw1 Hm1 Hv.
  { apply Hdone. apply (fresh_weaken w1 _ (epoch (w_cache w1))); [done| |by apply Hv].
    pose proof (mv_epoch _ _ Hm1). lia. }
  apply safe_bind. apply safe_epoch. intros w2 Hw2 Hm2.
  assert (e0 ≤ epoch (w_cache w2)) as He2 by (pose proof (mv_epoch _ _ Hm1); pose proof (mv_epoch _ _ Hm2); lia).
  eapply safe_seq; [apply _|done|by apply Hload|]. intros [v|err] w3 _ Hm3 Hr.
  2:{ by split; intros ? ? [=]. }
  pose proof (Hr v eq_refl) as Hrec.
  apply safe_bind. apply (safe_guarded _ (epoch (w_cache w2))).
  - apply (mv_epoch _ _ Hm3).
  - intros. apply storeIfEpoch_guard.
  - intros now w4 k' ent Hw4 Hm4 He4. apply storeIfEpoch_fresh; [done..|].
    eapply fresh_moves; [exact Hm4|]. by apply (recent_fresh w2).
  - intros now c w4 Hw4 Hm4 _ _. rewrite clone_copies. apply Hdone.
    eapply fresh_moves; [exact Hm4|]. by apply (recent_fresh w2).
Qed.

(** Either the caller's own run or one under the same string. *)
Lemma safe_Do s fn (Q : res E (V * bool) * bool → W → Prop) w :
  (∀ w1, world_ok w1 → moves w w1 →
     safe (λ r w2, result_ok w2 s r ∧ ∀ w3, world_ok w3 → moves w2 w3 → Q (r, false) w3) fn w1) →
  (∀ w1 r, world_ok w1 → moves w w1 → result_ok w1 s r → Q (r, true) w1) →
  safe Q (Do s fn) w.
Proof.
  intros Hown Hjoin. unfold Do. apply safe_bind. apply safe_atomically. intros w1 Hw1 Hm1.
  pose proof (sf_enter_key s (w_sf w1)) as Hkey. pose proof (sf_enter_keys s (w_sf w1)) as Hkeys.
  pose proof (sf_enter_result s (w_sf w1)) as Hres.
  destruct (sf_enter s (w_sf w1)) as [[first id] g]. cbn [fst snd] in *.
  destruct (set_sf_ok w1 g Hw1 Hkeys) as [Hw2 Hm2].
  { intros id' r (t & ? & ?)%Hres%(wo_sf w1 Hw1). eauto. }
  split_and!; [done..|]. set (w2 := set_sf g w1) in *. destruct first.
  - eapply safe_seq; [apply _|done|apply Hown; [done|by etrans]|].
    intros r w3 _ Hm3 [Hr HQ]. apply safe_bind. apply safe_atomically. intros w4 Hw4 Hm4. cbn [fst snd].
    destruct (set_sf_ok w4 (sf_leave id r (w_sf w4)) Hw4) as [Hw5 Hm5].
    { intros id' t Ht. by rewrite sf_leave_key. }
    { intros id' r' [[-> ->]|(t & ? & ?)%(wo_sf w4 Hw4)]%sf_leave_result.
      - exists s. rewrite sf_leave_key. split; [|by eapply result_ok_moves].
        apply (mv_sf _ _ Hm4), (mv_sf _ _ Hm3). done.
      - exists t. by rewrite sf_leave_key. }
    split_and!; [done..|]. apply HQ; [done|]. by etrans.
  - apply safe_bind. apply (safe_await _ _). intros w3 r Hw3 Hm3 Hr. apply Hjoin; [done|exact (transitivity Hm1 (transitivity Hm2 Hm3))|].
    apply (wo_sf w3 Hw3) in Hr as (t & Ht & Hr). by rewrite (mv_sf _ _ Hm3 id s Hkey) in Ht; simplify_eq.
Qed.

Lemma safe_ctx_err ctx (Q : bool → W → Prop) w :
  (∀ w1 b, world_ok w1 → moves w w1 → Q b w1) → safe Q (ctx_err ctx) w.
Proof. intros HQ. apply safe_atomically. intros w1 Hw Hm. split_and!; [done|done|auto]. Qed.

(** What [getOrLoad] answers: a committed value of the key, and unless another
    caller's run was joined, one as new as the last invalidation before the call. *)
Definition got (e0 : nat) k (a : res (load_error E) V * bool) w : Prop :=
  ∀ v, a.1 = OK v → committed w k v ∧ (a.2 = false → fresh w e0 k v).

Lemma safe_getOrLoad e0 fuel ctx k h ver load w :
  reads_key k load → e0 ≤ epoch (w_cache w) →
  safe (got e0 k) (getOrLoad cfg keyString fuel ctx k h ver load) w.
Proof using clone_copies sf_keys.
  intros Hload. revert w. induction fuel as [|fuel IH]; intros w He0; cbn [getOrLoad]; [by intros ? [=]|].
  assert (∀ w' v, fresh w' e0 k v → got e0 k (OK v, false) w') as Hfresh.
  { intros w' v Hv ? [= <-]. split; [by eapply fresh_committed|done]. }
  apply safe_bind. apply safe_cache_lookup. intros w1 [v|] Hw1 Hm1 Hv.
  { apply Hfresh. apply (fresh_weaken w1 _ (epoch (w_cache w1))); [done| |by apply Hv].
    pose proof (mv_epoch _ _ Hm1). lia. }
  assert (∀ w' b, moves w w' → safe (got e0 k) (stop ← ctx_err ctx; if stop : bool then mret (ERR CtxErr, b)
    else getOrLoad cfg keyString fuel ctx k h ver load) w') as Hagain.
  { intros w' b Hm'. apply safe_bind. apply safe_ctx_err. intros w2 [] _ Hm2; [by intros ? [=]|].
    apply IH. pose proof (mv_epoch _ _ Hm'). pose proof (mv_epoch _ _ Hm2). lia. }
  apply safe_bind. apply safe_Do.
  - intros w2 Hw2 Hm2. eapply safe_mono; [apply _|done| |].
    { apply (safe_load_once e0); [done..|]. pose proof (mv_epoch _ _ Hm1). pose proof (mv_epoch _ _ Hm2). lia. }
    intros r w3 _ Hm3 [Hr Hf]. split; [done|]. intros w4 Hw4 Hm4.
    destruct r as [[v []]|err]; [|apply Hagain; exact (transitivity Hm1 (transitivity Hm2 (transitivity Hm3 Hm4)))|by intros ? [=]].
    apply Hfresh. eapply fresh_moves; [exact Hm4|]. by eapply Hf.
  - intros w2 r Hw2 Hm2 Hr.
    destruct r as [[v []]|err]; [|apply Hagain; exact (transitivity Hm1 Hm2)|by intros ? [=]].
    intros ? [= <-]. split; [|done]. by eapply Hr.
Qed.

(** * Batches *)

Notation flights := (gmap (batchFlightKey K) nat * list (batchFlight K V E))%type.

(** The version callback may do what it likes outside of the cache. *)
Definition quiet {A} (p : prog W A) : Prop := ∀ w, world_ok w → safe (λ _ _, True) p w.

(** A batch loader answers every key it is asked for. *)
Definition reads_keys (loadMissing : list K → prog W (res E (gmap K V))) : Prop :=
  ∀ ks w, world_ok w →
    safe (λ r w', ∀ m, r = OK m → (∀ k, k ∈ ks → is_Some (m !! k)) ∧ ∀ k v, m !! k = Some v → recent w k v w')
      (loadMissing ks) w.

Definition all_fresh w (e : nat) (m : gmap K V) : Prop := ∀ k v, m !! k = Some v → fresh w e k v.

Lemma all_fresh_moves w w' e m : moves w w' → all_fresh w e m → all_fresh w' e m.
Proof. intros Hm Ha k v Hk. eapply fresh_moves; eauto. Qed.

Lemma all_fresh_insert w e m k v : all_fresh w e m → fresh w e k v → all_fresh w e (<[k := v]> m).
Proof. intros Ha Hv k' v' [[<- <-]|[_ ?]]%lookup_insert_Some; auto. Qed.

(** ** Scanning the keys *)

Definition scanned (keys : gset K) (e : nat) (r : gmap K V * list (batchMiss K)) w : Prop :=
  all_fresh w e r.1 ∧ dom r.1 ∪ list_to_set (miss_key <$> r.2) = keys.

Lemma safe_batch_scan versionOf e keys seen out missing w :
  (∀ k, quiet (versionOf k)) → world_ok w → e ≤ epoch (w_cache w) →
  scanned seen e (out, missing) w →
  safe (scanned (seen ∪ list_to_set keys) e) (batch_scan cfg versionOf keys seen out missing) w.
Proof using clone_copies. clear sf_keys.
  intros Hver. revert seen out missing w. induction keys as [|key keys IH]; intros seen out missing w Hw He [Ha Hd];
    cbn [batch_scan].
  { cbn. rewrite union_empty_r_L. by split. }
  case_bool_decide as Hin.
  { replace (seen ∪ list_to_set (key :: keys)) with (seen ∪ list_to_set keys) by set_solver. by apply IH. }
  replace (seen ∪ list_to_set (key :: keys)) with ({[key]} ∪ seen ∪ list_to_set keys) by set_solver.
  eapply safe_seq; [apply _|done|by apply Hver|]. intros [hash cacheable] w1 Hw1 Hm1 _. apply safe_bind.
  assert (∀ w2 o, world_ok w2 → moves w w2 → (∀ v, o = Some v → fresh w2 (epoch (w_cache w2)) key v) →
    safe (scanned ({[key]} ∪ seen ∪ list_to_set keys) e)
      match o with
      | Some v => batch_scan cfg versionOf keys ({[key]} ∪ seen) (<[key := v]> out) missing
      | None => batch_scan cfg versionOf keys ({[key]} ∪ seen) out (missing ++ [mkMiss key hash cacheable])
      end w2) as Hgo.
  { intros w2 o Hw2 Hm2 Ho. pose proof (mv_epoch _ _ Hm2). pose proof (all_fresh_moves _ _ _ _ Hm2 Ha).
    destruct o as [v|]; (apply IH; [done|lia|]); split; cbn in *.
    - apply all_fresh_insert; [done|]. apply (fresh_weaken w2 _ (epoch (w_cache w2))); [done|lia|auto].
    - set_solver.
    - done.
    - rewrite fmap_app, list_to_set_app_L. set_solver. }
  destruct cacheable; [|by apply Hgo].
  apply safe_cache_lookup. intros w2 o Hw2 Hm2 Ho. apply Hgo; [done|by etrans|done].
Qed.

(** ** Claiming and completing flights *)

(** A wait that was claimed under the epoch [e]. *)
Definition waits_on w (e : nat) (wait : batchWait K) : Prop :=
  ∃ fl h c, w_heap w !! wait_flight wait = Some fl ∧ fl_key fl = wait_key wait
    ∧ wait_key wait = (miss_key (wait_miss wait), h, c, e).

Lemma waits_on_moves w w' e wait : moves w w' → waits_on w e wait → waits_on w' e wait.
Proof.
  intros Hm (fl & h & c & Hfl & Hk & Hkey). destruct (mv_heap _ _ Hm _ _ Hfl) as (fl' & ? & ?).
  exists fl', h, c. split_and!; [done|congruence|done].
Qed.

Lemma new_flight_ok w (fk : batchFlightKey K) : flight_ok w (mkFlight fk false None false None false).
Proof. unfold flight_ok. cbn. destruct fk as [[[]]]. by intros. Qed.

Lemma claim_spec e missing fs waits owned w :
  (∀ fk id, fs.1 !! fk = Some id → ∃ fl, fs.2 !! id = Some fl ∧ fl_key fl = fk) →
  (∀ id fl, fs.2 !! id = Some fl → flight_ok w fl) →
  ∃ more mine fs', fold_left (claim_one e) missing (waits, owned, fs) = (waits ++ more, owned ++ mine, fs')
    ∧ wait_miss <$> more = missing ∧ mine ⊆ more
    ∧ (∀ fk id, fs'.1 !! fk = Some id → ∃ fl, fs'.2 !! id = Some fl ∧ fl_key fl = fk)
    ∧ (∀ id fl, fs'.2 !! id = Some fl → flight_ok w fl)
    ∧ (∀ id fl, fs.2 !! id = Some fl → fs'.2 !! id = Some fl)
    ∧ ∀ wait, wait ∈ more → ∃ fl h c, fs'.2 !! wait_flight wait = Some fl ∧ fl_key fl = wait_key wait
        ∧ wait_key wait = (miss_key (wait_miss wait), h, c, e).
Proof. clear sf_keys clone_copies.
  revert fs waits owned. induction missing as [|miss missing IH]; intros fs waits owned Hmap Hheap.
  { exists [], [], fs. rewrite !app_nil_r. split_and!; [done..|]. by intros ? ?%not_elem_of_nil. }
  cbn [fold_left claim_one]. destruct fs as [flights heap].
  set (key := (miss_key miss, miss_hash miss, miss_cacheable miss, e)). cbn [fst snd] in *.
  destruct (flights !! key) as [id|] eqn:Hkey.
  - destruct (IH (flights, heap) (waits ++ [mkWait miss key id]) owned Hmap Hheap)
      as (more & mine & fs' & -> & Hmiss & Hmine & Hmap' & Hheap' & Hgrow & Hwaits).
    exists (mkWait miss key id :: more), mine, fs'. rewrite <- app_assoc. split_and!; [done| |set_solver|done..|].
    { cbn. by rewrite Hmiss. }
    intros wait [->|?]%elem_of_cons; [|auto]. destruct (Hmap _ _ Hkey) as (fl & Hfl & Hk).
    exists fl, (miss_hash miss), (miss_cacheable miss). split_and!; [by apply Hgrow|done|done].
  - set (wait := mkWait miss key (length heap)). set (fl := mkFlight key false None false None false).
    destruct (IH (<[key := length heap]> flights, heap ++ [fl]) (waits ++ [wait]) (owned ++ [wait]))
      as (more & mine & fs' & -> & Hmiss & Hmine & Hmap' & Hheap' & Hgrow & Hwaits).
    { cbn [fst snd]. intros fk id [[<- <-]|[_ (fl' & Hfl' & ?)%Hmap]]%lookup_insert_Some.
      - exists fl. by rewrite lookup_app_r, Nat.sub_diag by done.
      - exists fl'. by rewrite lookup_app_l by (by eapply lookup_lt_Some). }
    { cbn [fst snd]. intros id fl' [?|[_ ?]]%lookup_app_Some; [eauto|].
      destruct (id - length heap) as [|[]]; simplify_eq/=; apply new_flight_ok. }
    exists (wait :: more), (wait :: mine), fs'. rewrite <- !app_assoc.
    split_and!; [done| |set_solver|done..| |].
    { cbn. by rewrite Hmiss. }
    { intros id fl' Hid. apply Hgrow. cbn. by rewrite lookup_app_l by (by eapply lookup_lt_Some). }
    intros wait' [->|?]%elem_of_cons; [|auto].
    exists fl, (miss_hash miss), (miss_cacheable miss). split_and!; [|done|done].
    apply Hgrow. cbn. by rewrite lookup_app_r, Nat.sub_diag by done.
Qed.

Lemma safe_claim missing e (Q : list (batchWait K) * list (batchWait K) → W → Prop) w :
  (∀ w1 waits owned, world_ok w1 → moves w w1 → wait_miss <$> waits = missing → owned ⊆ waits →
     Forall (waits_on w1 e) waits → Q (waits, owned) w1) →
  safe Q (on_flights (claimBatchFlights missing e)) w.
Proof.
  intros HQ. apply safe_atomically. intros w1 Hw1 Hm1. unfold claimBatchFlights.
  destruct (claim_spec e missing (w_flights w1, w_heap w1) [] [] w1 (wo_flights w1 Hw1) (wo_heap w1 Hw1))
    as (more & mine & fs' & -> & Hmiss & Hmine & Hmap & Hheap & Hgrow & Hwaits). cbn [fst snd app].
  destruct (set_flights_ok w1 fs' Hw1 Hmap Hheap) as [Hw2 Hm2]; [eauto|].
  split_and!; [done..|]. apply HQ; [done|by etrans|done|done|].
  apply Forall_forall. intros wait Hin. apply Hwaits in Hin as (fl & h & c & ? & ? & ?). by exists fl, h, c.
Qed.

Lemma safe_complete owner value err retry e (Q : () → W → Prop) w :
  waits_on w e owner →
  (err = None → ∃ v, value = Some v ∧ fresh w e (miss_key (wait_miss owner)) v) →
  (retry = true → e < epoch (w_cache w)) →
  (∀ w1, world_ok w1 → moves w w1 → Q tt w1) →
  safe Q (on_flights (λ fs, (tt, completeBatchFlight cfg (wait_key owner) (wait_flight owner) value
            (bool_decide (is_Some value)) err retry fs))) w.
Proof using clone_copies.
  intros Hwait Hv Hr HQ. apply safe_atomically. intros w1 Hw1 Hm1. cbn [fst snd completeBatchFlight].
  apply (waits_on_moves w w1) in Hwait as (fl & h & c & Hfl & Hk & Hkey); [|done].
  set (done fl := mkFlight (fl_key fl) true (cloneValue cfg <$> value) (bool_decide (is_Some value)) err retry).
  assert (∀ fk id, w_flights w1 !! fk = Some id → ∃ fl, alter done (wait_flight owner) (w_heap w1) !! id = Some fl ∧ fl_key fl = fk)
    as Hmap.
  { intros fk id (fl' & Hfl' & <-)%(wo_flights w1 Hw1). rewrite list_lookup_alter.
    case_decide; subst; rewrite Hfl'; eexists; by split. }
  destruct (set_flights_ok w1 (if bool_decide (w_flights w1 !! wait_key owner = Some (wait_flight owner))
    then delete (wait_key owner) (w_flights w1) else w_flights w1, alter done (wait_flight owner) (w_heap w1)) Hw1)
    as [Hw2 Hm2]; cbn [fst snd].
  { intros fk id Hid. apply Hmap. case_bool_decide; [|done]. by apply lookup_delete_Some in Hid as [_ ?]. }
  { intros id fl'. rewrite list_lookup_alter. case_decide; [subst id|apply (wo_heap w1 Hw1)].
    rewrite Hfl. intros [= <-]. unfold flight_ok, done. cbn. rewrite Hk, Hkey. intros _ Herr.
    destruct (Hv Herr) as (v & -> & Hfresh). split_and!; [done| |].
    - exists v. cbn. rewrite clone_copies. split; [done|]. by eapply fresh_moves.
    - intros ?%Hr. pose proof (mv_epoch _ _ Hm1). lia. }
  { intros id fl' Hid. rewrite list_lookup_alter. case_decide; subst; rewrite Hid; eexists; by split. }
  split_and!; [done..|]. apply HQ; [done|by etrans].
Qed.

Lemma safe_batch_complete owned r retry e w :
  world_ok w → Forall (waits_on w e) owned →
  (∀ m owner, r = OK m → owner ∈ owned → ∃ v, m !! miss_key (wait_miss owner) = Some v
     ∧ fresh w e (miss_key (wait_miss owner)) v) →
  (retry = true → e < epoch (w_cache w)) →
  safe (λ _ _, True) (batch_complete cfg owned r retry) w.
Proof using clone_copies.
  revert w. induction owned as [|owner owned IH]; intros w Hw Hwaits Hr Hretry; cbn [batch_complete]; [done|].
  apply Forall_cons in Hwaits as [Ho Hwaits]. apply safe_bind.
  apply (safe_complete _ _ _ _ e); [done| |done|].
  - intros Herr. destruct r as [m|]; [|done]. apply (Hr m owner); [done|apply list_elem_of_here].
  - intros w1 Hw1 Hm1. apply IH; [done| | |].
    + eapply Forall_impl; [exact Hwaits|]. intros. by eapply waits_on_moves.
    + intros m o -> Ho'. destruct (Hr m o eq_refl) as (v & ? & ?); [by apply list_elem_of_further|].
      exists v. split; [done|]. by eapply fresh_moves.
    + intros ?%Hretry. pose proof (mv_epoch _ _ Hm1). lia.
Qed.

Lemma safe_batch_load loadMissing e owned w :
  reads_keys loadMissing → world_ok w → e ≤ epoch (w_cache w) → Forall (waits_on w e) owned →
  safe (λ _ _, True) (batch_load cfg loadMissing e owned) w.
Proof using clone_copies.
  intros Hload Hw He Hwaits. unfold batch_load. case_bool_decide; [done|].
  eapply safe_seq; [apply _|done|by apply Hload|]. intros r w1 Hw1 Hm1 Hr.
  assert (∀ w2 retry, world_ok w2 → moves w1 w2 → (retry = true → e < epoch (w_cache w2)) →
    safe (λ _ _, True) (batch_complete cfg owned r retry) w2) as Hcomplete.
  { intros w2 retry Hw2 Hm2 Hretry. apply (safe_batch_complete _ _ _ e); [done| | |done].
    - eapply Forall_impl; [exact Hwaits|]. intros wait. apply waits_on_moves. by etrans.
    - intros m owner -> Ho. destruct (Hr m eq_refl) as [Hall Hrec].
      destruct (Hall (miss_key (wait_miss owner))) as [v Hv].
      { apply (list_elem_of_fmap_2 (λ owner, miss_key (wait_miss owner)) owned owner Ho). }
      exists v. split; [done|]. eapply fresh_moves; [exact Hm2|]. by apply (recent_fresh w); [..|apply Hrec]. }
  apply safe_bind. destruct r as [m|err]; [|by apply Hcomplete].
  apply (safe_guarded _ e).
  - pose proof (mv_epoch _ _ Hm1). lia.
  - intros now c. pose proof (storeBatch_guard now (store_entries owned m) e c).
    by destruct (storeBatchIfEpoch _ _ _ _ _).
  - intros now w2 k ent Hw2 Hm2 He2 Hk. eapply (storeBatch_fresh now (store_entries owned m)); [done|done| |].
    + intros k' v' h' (owner & Ho & Hv)%list_elem_of_omap.
      destruct (m !! _) as [v|] eqn:Hmv; [|done]. destruct (miss_cacheable _); [|done]. simplify_eq.
      destruct (Hr m eq_refl) as [_ Hrec]. eapply fresh_moves; [exact Hm2|]. by apply (recent_fresh w); [..|apply Hrec].
    + by destruct (storeBatchIfEpoch _ _ _ _ _).
  - intros now c w2 Hw2 Hm2 Hc Hce. apply Hcomplete; [done|done|].
    unfold storeBatchIfEpoch. destruct (Nat.eqb_spec (epoch c) e); cbn; [done|lia].
Qed.

(** ** Waiting *)

Definition waited (keys : gset K) (e : nat) (retry : bool) (r : res (load_error E) (gmap K V * bool)) w : Prop :=
  ∀ out again, r = OK (out, again) →
    all_fresh w e out ∧ (again = false → dom out = keys) ∧ (again = true → retry = true ∨ e < epoch (w_cache w)).

Lemma safe_batch_wait ctx e waits out retry w :
  world_ok w → Forall (waits_on w e) waits → all_fresh w e out →
  safe (λ r w', waited (dom out ∪ list_to_set ((λ wait, miss_key (wait_miss wait)) <$> waits)) e retry r w'
                ∧ (retry = true → ∀ m, r ≠ OK (m, false)) ∧ r ≠ ERR OutOfFuel)
    (batch_wait cfg ctx waits out retry) w.
Proof using clone_copies. clear sf_keys.
  revert out retry w. induction waits as [|wait waits IH]; intros out retry w Hw Hwaits Hout; cbn [batch_wait].
  { cbn. rewrite union_empty_r_L. split_and!; [|by intros ->|done]. intros ? ? [= <- <-]. auto. }
  apply Forall_cons in Hwaits as [Hwait Hwaits]. apply safe_bind. unfold batch_wait_one.
  apply (safe_await _ _). intros w1 r Hw1 Hm1 Hr.
  destruct r as [fl|]; [|by split_and!; [intros ? ? [=]|intros _ ? [=]|]].
  apply (waits_on_moves w w1) in Hwait as (fl' & h & c & Hfl & Hk & Hkey); [|done].
  rewrite Hfl in Hr. destruct (fl_done fl') eqn:Hdone; [|by destruct (cancelled ctx w1)].
  destruct (cancelled ctx w1 && w_coin w1); [done|]. injection Hr as <-.
  destruct (fl_err fl') as [err|] eqn:Herr; [by split_and!; [intros ? ? [=]|intros _ ? [=]|]|].
  pose proof (wo_heap w1 Hw1 _ _ Hfl) as Hok. unfold flight_ok in Hok. rewrite Hk, Hkey in Hok.
  destruct (Hok Hdone Herr) as (Hyes & (v & Hv & Hfresh) & Hre).
  assert (Forall (waits_on w1 e) waits) as Hwaits1.
  { eapply Forall_impl; [exact Hwaits|]. intros. by eapply waits_on_moves. }
  pose proof (all_fresh_moves _ _ _ _ Hm1 Hout) as Hout1.
  destruct (fl_retry fl').
  - eapply safe_mono; [apply _|done|by apply IH|]. intros r w2 Hw2 Hm2 (Hr & Hno & Hfuel).
    pose proof (Hno eq_refl) as Hno'. split_and!; [|done|done].
    intros out' again ->. destruct (Hr out' again eq_refl) as (? & _ & _). split_and!; [done| |].
    + intros ->. by destruct (Hno' out').
    + intros _. right. pose proof (mv_epoch _ _ Hm2). specialize (Hre eq_refl). lia.
  - rewrite Hv, Hyes, clone_copies.
    eapply safe_mono; [apply _|done|apply IH; [done..|by apply all_fresh_insert]|].
    intros r w2 Hw2 Hm2 (Hr & Hno & Hfuel). split_and!; [|done|done].
    intros out' again Hout'. destruct (Hr out' again Hout') as (? & Hdom & ?). split_and!; [done| |done].
    intros Hagain. rewrite (Hdom Hagain). set_solver.
Qed.

(** ** The loop *)

(** What [GetOrLoadBatch] answers: every asked key and no other, each with a
    value as new as the last invalidation before the call; and it gives up only
    after as many invalidations as it has turns. *)
Definition got_batch (e0 fuel : nat) (keys : list K) (r : res (load_error E) (gmap K V)) w : Prop :=
  (∀ m, r = OK m → dom m = list_to_set keys ∧ all_fresh w e0 m)
  ∧ (r = ERR OutOfFuel → e0 + fuel ≤ epoch (w_cache w)).

Lemma all_fresh_weaken w e e' m : world_ok w → e ≤ e' → all_fresh w e' m → all_fresh w e m.
Proof. intros Hw He Ha k v Hk. eapply fresh_weaken; eauto. Qed.

Lemma safe_GetOrLoadBatch e0 fuel ctx keys versionOf loadMissing w :
  (∀ k, quiet (versionOf k)) → reads_keys loadMissing → world_ok w → e0 ≤ epoch (w_cache w) →
  safe (got_batch e0 fuel keys) (GetOrLoadBatch cfg fuel ctx keys versionOf loadMissing) w.
Proof using clone_copies.
  intros Hver Hload. revert e0 w. induction fuel as [|fuel IH]; intros e0 w Hw He0; cbn [GetOrLoadBatch];
    (case_bool_decide as Hkeys;
      [subst; split; [intros ? [= <-]; split; [by rewrite dom_empty_L|by intros ? ? ?%lookup_empty_Some] | done]|]).
  { split; [done|]. intros _. lia. }
  apply safe_bind. apply safe_epoch. intros w1 Hw1 Hm1. set (e := epoch (w_cache w1)).
  assert (e0 ≤ e) as Hee by (pose proof (mv_epoch _ _ Hm1); lia).
  eapply safe_seq; [apply _|done| |].
  { apply (safe_batch_scan versionOf e keys ∅); [done|done|done|]. split; cbn; [by intros ? ? ?%lookup_empty_Some|].
    by rewrite dom_empty_L, union_empty_l_L. }
  intros [out missing] w2 Hw2 Hm2 [Hout Hdom]. cbn [fst snd] in Hout, Hdom. rewrite union_empty_l_L in Hdom.
  case_bool_decide as Hmiss.
  { split; [|done]. intros ? [= <-]. subst missing. cbn in Hdom. rewrite union_empty_r_L in Hdom.
    split; [done|]. by apply (all_fresh_weaken w2 e0 e). }
  apply safe_bind. apply safe_claim. intros w3 waits owned Hw3 Hm3 Hwm Hown Hwaits.
  assert (e ≤ epoch (w_cache w3)) as He3
    by (pose proof (mv_epoch _ _ Hm2); pose proof (mv_epoch _ _ Hm3); lia).
  eapply safe_seq; [apply _|done| |].
  { apply safe_batch_load; [done..|]. apply Forall_forall. intros wait Hin.
    rewrite Forall_forall in Hwaits. auto. }
  intros _ w4 Hw4 Hm4 _. eapply safe_seq; [apply _|done| |].
  { apply (safe_batch_wait ctx e waits); [done| |].
    - eapply Forall_impl; [exact Hwaits|]. intros. by eapply waits_on_moves.
    - eapply all_fresh_moves; [exact Hm4|]. by eapply all_fresh_moves. }
  intros [[out' []]|err] w5 Hw5 Hm5 (Hr & _ & Hfuel).
  - destruct (Hr _ _ eq_refl) as (_ & _ & [|He5]); [done|done|].
    apply safe_bind. apply safe_ctx_err. intros w6 [] Hw6 Hm6; [by split|].
    assert (S e ≤ epoch (w_cache w6)) as He6 by (pose proof (mv_epoch _ _ Hm6); lia).
    eapply safe_mono; [apply _|done|by apply (IH (S e))|]. intros r w7 Hw7 Hm7 [Hok Hno]. split.
    + intros m ->. destruct (Hok m eq_refl) as [? ?]. split; [done|].
      apply (all_fresh_weaken w7 e0 (S e)); [done|lia|done].
    + intros ->. specialize (Hno eq_refl). lia.
  - split; [|done]. intros ? [= <-]. destruct (Hr _ _ eq_refl) as (Ha & Hd & _). split.
    + rewrite Hd by done. rewrite <- Hdom, <- Hwm, <- list_fmap_compose. done.
    + by apply (all_fresh_weaken w5 e0 e).
  - split; [done|]. intros [= ->]. by destruct Hfuel.
Qed.

(** * The other calls *)

(** Steps of the environment: histories grow, the cache is not touched. *)
Lemma env_ok w w' :
  world_ok w → w_cache w' = w_cache w → w_flights w' = w_flights w → w_heap w' = w_heap w → w_sf w' = w_sf w →
  w_floors w' = w_floors w → (∀ k, w_hist w k `prefix_of` w_hist w' k) → world_ok w' ∧ moves w w'.
Proof.
  intros Hw Hc Hf Hh Hs Hfl Hhist.
  assert (moves w w') as Hm by (split; rewrite ?Hc, ?Hh, ?Hs, ?Hfl; [done|done|lia|eauto|done]).
  split; [|done]. destruct Hw as [Hlen Hne Hfloor Hfloors Hitems Hflights Hheap Hsf].
  assert (∀ e k, floor w' e k = floor w e k) as Hsame by (intros; unfold floor; by rewrite Hfl).
  split; rewrite ?Hc, ?Hf, ?Hh, ?Hs, ?Hfl.
  - done.
  - intros k Hk. apply (Hne k). eapply prefix_nil_inv. by rewrite <- Hk.
  - intros e k. rewrite Hsame. etrans; [apply Hfloor|]. by apply version_moves.
  - intros e e' k. rewrite !Hsame. apply Hfloors.
  - intros k ent Hk. eapply fresh_moves; [done|]. auto.
  - done.
  - intros id fl Hid. eapply flight_ok_moves; [done|eauto].
  - intros id r (s & ? & ?)%Hsf. exists s. split; [done|]. by eapply result_ok_moves.
Qed.

(** The state after an invalidating method; its new floor. *)
Lemma invalidate_ok (f : Cache K V → Cache K V) w :
  invalidates f → world_ok w →
  let w' := invalidated f w in
  world_ok w' ∧ moves w w' ∧ w_cache w' = f (w_cache w)
  ∧ ∀ k, epoch (f (w_cache w)) ≠ epoch (w_cache w) → items (f (w_cache w)) !! k = None →
      floor w' (epoch (f (w_cache w))) k = version w k.
Proof.
  intros Hf Hw. unfold invalidated. cbv zeta. set (c := f (w_cache w)). destruct (Hf (w_cache w)) as [Hsub Hep]. fold c in Hsub, Hep.
  destruct Hep as [Hep | ->].
  2:{ rewrite Nat.eqb_refl. destruct (env_ok w w) as [? ?]; [done..|]. destruct w. by split_and!. }
  destruct (Nat.eqb_spec (epoch c) (epoch (w_cache w))) as [|_]; [lia|].
  set (g := λ key, if bool_decide (is_Some (items c !! key)) then floor w (epoch (w_cache w)) key else version w key).
  destruct Hw as [Hlen Hne Hfloor Hfloors Hitems Hflights Hheap Hsf]. set (w' := mkWorld _ _ _ _ _ _ _ _ _).
  assert (moves w w') as Hm by (split; cbn; [done|by eexists|lia|eauto|done]).
  assert (floor w' (epoch c) = g) as Hlast.
  { unfold floor. cbn. by rewrite lookup_app_r, Hep, Hlen, Nat.sub_diag by lia. }
  assert (∀ e k, e < length (w_floors w) → floor w' e k = floor w e k) as Hold by (intros; by apply floor_moves).
  assert (∀ e k, e ≠ epoch c → floor w' e k = floor w e k) as Hother.
  { intros e k He. destruct (decide (e < length (w_floors w))); [by apply Hold|]. unfold floor. cbn.
    rewrite !lookup_ge_None_2; [done|lia|rewrite length_app; cbn; lia]. }
  assert (∀ k, floor w (epoch (w_cache w)) k ≤ g k ≤ version w k) as Hg.
  { intros k. unfold g. specialize (Hfloor (epoch (w_cache w)) k). case_bool_decide; lia. }
  split_and!; [split; cbn| done | done |].
  - rewrite length_app. cbn. lia.
  - done.
  - intros e k. change (version w' k) with (version w k). destruct (decide (e = epoch c)) as [->|].
    + rewrite Hlast. apply Hg.
    + rewrite Hother by done. apply Hfloor.
  - intros e e' k He He'. rewrite length_app in He'. cbn in He'. destruct (decide (e = epoch c)) as [->|].
    + by replace e' with (epoch c) by lia.
    + rewrite (Hother e) by done. destruct (decide (e' = epoch c)) as [->|].
      * rewrite Hlast. etrans; [|apply Hg]. apply Hfloors; lia.
      * rewrite Hother by done. apply Hfloors; lia.
  - intros k ent Hk. assert (items (w_cache w) !! k = Some ent) as Hk' by (by eapply lookup_weaken).
    destruct (Hitems k ent Hk') as (He & n & Hn & Hle). split; [cbn; rewrite length_app; cbn; lia|].
    exists n. split; [done|]. rewrite Hlast. unfold g. by rewrite bool_decide_eq_true_2 by (by eexists).
  - done.
  - intros id fl Hid. eapply flight_ok_moves; [done|eauto].
  - intros id r (s & ? & ?)%Hsf. exists s. split; [done|]. by eapply result_ok_moves.
  - intros k _ Hk. rewrite Hlast. unfold g. by rewrite Hk, bool_decide_eq_false_2 by (by intros []).
Qed.

(** Some invalidation has seen the key at version [n] or later. *)
Definition settled w k (n : nat) : Prop :=
  ∃ e, e ≤ epoch (w_cache w) ∧ e < length (w_floors w) ∧ n ≤ floor w e k.

Lemma settled_moves w w' k n : moves w w' → settled w k n → settled w' k n.
Proof.
  intros Hm (e & He & Hlt & Hn). exists e. pose proof (prefix_length _ _ (mv_floors _ _ Hm)).
  pose proof (mv_epoch _ _ Hm). split_and!; [lia..|]. by rewrite (floor_moves w w').
Qed.

Lemma settled_fresh w0 w k n v :
  world_ok w → moves w0 w → settled w0 k n → fresh w (epoch (w_cache w0)) k v →
  ∃ m, w_hist w k !! m = Some v ∧ n ≤ m.
Proof.
  intros Hw Hm (e & He & Hlt & Hn) (Hlt' & m & Hv & Hle). exists m. split; [done|].
  pose proof (wo_floors w Hw e (epoch (w_cache w0)) k He Hlt'). pose proof (floor_moves w0 w e k Hm Hlt). lia.
Qed.

Lemma safe_invalidate f (P : K → Prop) w :
  invalidates f →
  (∀ c k, P k → epoch (f c) ≠ epoch c ∧ items (f c) !! k = None) →
  safe (λ _ w', ∀ k, P k → settled w' k (version w k)) (invalidate f) w.
Proof.
  intros Hf HP. apply safe_atomically. intros w1 Hw1 Hm1.
  destruct (invalidate_ok f w1 Hf Hw1) as (Hw2 & Hm2 & Hc & Hfloor). cbn [fst snd].
  split_and!; [done..|]. intros k Hk. destruct (HP (w_cache w1) k Hk) as [Hne Hnone].
  exists (epoch (f (w_cache w1))). split_and!.
  - by rewrite Hc.
  - rewrite (wo_length _ Hw2), Hc. lia.
  - rewrite Hfloor by done. by apply version_moves.
Qed.
End conc.
