(* ===== verification/CacheServe.v ===== *)
(** The read-model cache as a server of concurrent calls: what every call
    promises, and that pools keep the promises. *)

From S2P Require Import Prelude Programs Cache CacheInv CacheLoad CacheConc.

Open Scope nat_scope.

#[local] Set Warnings "-notation-for-abbreviation".
#[local] Set Default Proof Using "Type".

Section serve.
Context {K V E G : Type} `{Countable K} `{SingleFlightLaws G (res E (V * bool))}.
Context (cfg : Config V) (keyString : K → string).
Notation W := (world K V E G).
Notation call := (@cache_call K V E G _ _).
Notation answer := (@cache_reply K V E _ _).
Implicit Types (w : W) (k key : K) (v : V) (q : call) (r : answer).

Context (clone_copies : ∀ v, cloneValue cfg v = v).
Context (sf_keys : ∀ k h b k' h' b',
  singleflightKey keyString k h b = singleflightKey keyString k' h' b' → k = k').

(** Loaders read the database, and return every key of a batch. *)
Definition allowed_call q : Prop :=
  match q with
  | CallGet _ _ key _ _ load => reads_key keyString key load
  | CallBatch _ _ _ versionOf loadMissing =>
      (∀ k, quiet keyString (versionOf k)) ∧ reads_keys keyString loadMissing
  | CallBuild key build => reads_key keyString key build
  | _ => True
  end.

(** What a call that arrived in [w0] may answer. *)
Definition promise q w0 r w : Prop :=
  let e0 := epoch (w_cache w0) in
  match q, r with
  | CallGet _ _ key _ _ _, Got a joined => got e0 key (a, joined) w
  | CallBatch fuel _ keys _ _, GotBatch a => got_batch e0 fuel keys a w
  | CallBuild _ _, Built _ => True
  | CallPeek key, Peeked a => ∀ v, a = Some v → fresh w e0 key v
  | CallInvalidate keys, Done => ∀ k, k ∈ keys → settled w k (version w0 k)
  | CallInvalidateWhere pred order, Done => ∀ k, k ∈ order ∧ pred k = true → settled w k (version w0 k)
  | CallFlush, Done => ∀ k, True → settled w k (version w0 k)
  | (CallInvalidateWhereValue _ _ | CallCommit _ _ | CallClock _ _ | CallCancel _), Done => True
  | _, _ => False
  end.

Lemma all_fresh_stable e m w w' : moves w w' → all_fresh w e m → all_fresh w' e m.
Proof. intros Hm Ha k v Hk. eapply fresh_moves; eauto. Qed.

Lemma promise_stable q w0 r w w' : promise q w0 r w → moves w w' → promise q w0 r w'.
Proof.
  intros Hp Hm. destruct q, r; cbn in *; try done; try (intros k' Hk'; eapply settled_moves; eauto).
  - intros v Hv. destruct (Hp v Hv) as [Hc Hf]. split; [by eapply committed_moves|].
    intros Hj. by eapply fresh_moves; [|apply Hf].
  - destruct Hp as [Hok Hno]. split.
    + intros m Hr'. destruct (Hok m Hr'). split; [done|]. by eapply all_fresh_stable.
    + intros Hr'. specialize (Hno Hr'). pose proof (mv_epoch _ _ Hm). lia.
  - intros v Hv. eapply fresh_moves; [done|]. auto.
Qed.

Notation safe := (safe (world_ok keyString) moves).

Lemma safe_env (f : W → W) (Q : () → W → Prop) w :
  (∀ w1, w_cache (f w1) = w_cache w1 ∧ w_flights (f w1) = w_flights w1 ∧ w_heap (f w1) = w_heap w1
     ∧ w_sf (f w1) = w_sf w1 ∧ w_floors (f w1) = w_floors w1 ∧ ∀ k, w_hist w1 k `prefix_of` w_hist (f w1) k) →
  (∀ w1, Q tt w1) → safe Q (atomically (λ w1, (tt, f w1))) w.
Proof.
  intros Hf HQ. apply safe_atomically. intros w1 Hw1 Hm1. destruct (Hf w1) as (? & ? & ? & ? & ? & ?).
  destruct (env_ok keyString w1 (f w1)) as [? ?]; [done..|]. by split_and!.
Qed.

Lemma safe_settle (f : Cache K V → Cache K V) (P : K → Prop) w :
  invalidates f → removes f P →
  safe (λ r w', match r with Done => ∀ k, P k → settled w' k (version w k) | _ => False end)
    (_ ← invalidate f; mret Done) w.
Proof. intros Hf HP. apply safe_bind. by apply safe_invalidate. Qed.

Lemma serve_safe q w : allowed_call q → world_ok keyString w → safe (promise q w) (serve_cache cfg keyString q) w.
Proof using clone_copies sf_keys.
  intros Hq Hw. destruct q; cbn [serve_cache allowed_call] in *.
  - eapply safe_seq; [apply _|done|by apply (safe_getOrLoad cfg keyString clone_copies sf_keys (epoch (w_cache w)))|].
    by intros [r joined] w' _ _ Hr.
  - destruct Hq as [Hver Hload]. eapply safe_seq; [apply _|done| |].
    { by apply (safe_GetOrLoadBatch cfg keyString clone_copies (epoch (w_cache w))). }
    by intros r w' _ _ Hr.
  - unfold build_and_store. apply safe_bind, safe_bind. apply safe_on_cache. intros w1 Hw1 Hm1.
    split_and!; [done|by apply (wo_items keyString w1)|]. intros w2 Hm2 Hw2 He2. cbn [fst snd LoadEpoch].
    eapply safe_seq; [apply _|done|by apply Hq|]. intros [v|err] w3 _ Hm3 Hr; [|done].
    apply safe_bind. apply (safe_guarded keyString _ (epoch (w_cache w1))).
    + rewrite <- He2. apply (mv_epoch _ _ Hm3).
    + intros now c. apply (storeIfEpoch_guard cfg now key v 0%Z (epoch (w_cache w1))).
    + intros now w4 k' ent Hw4 Hm4 He4. apply (storeIfEpoch_fresh cfg keyString clone_copies); [done..|].
      eapply fresh_moves; [exact Hm4|]. apply (recent_fresh keyString w2); [done|done|by rewrite He2|by apply Hr].
    + done.
  - apply safe_bind. apply safe_on_cache. intros w1 Hw1 Hm1. split_and!; [done|by apply (wo_items keyString w1)|].
    intros w2 Hm2 Hw2 He2. cbn. unfold Peek. intros v. destruct (items (w_cache w1) !! key) as [ent|] eqn:Hent; [|done].
    destruct (expired _ _ _); [done|]. intros [= <-]. rewrite clone_copies.
    apply (fresh_weaken keyString w2 _ (epoch (w_cache w1))); [done|apply (mv_epoch _ _ Hm1)|].
    eapply fresh_moves; [done|]. by apply (wo_items keyString w1).
  - eapply safe_mono; [apply _|done|apply safe_settle; [apply Invalidate_invalidates|apply Invalidate_removes]|].
    by intros [].
  - eapply safe_mono; [apply _|done|apply safe_settle; [apply InvalidateWhere_invalidates|apply InvalidateWhere_removes]|].
    by intros [].
  - eapply safe_mono; [apply _|done|apply (safe_settle _ (λ _, False)); [apply InvalidateWhereValue_invalidates|by intros ? ?]|].
    by intros [].
  - eapply safe_mono; [apply _|done|apply safe_settle; [apply Flush_invalidates|apply Flush_removes]|].
    by intros [].
  - apply safe_bind. apply safe_env; [|done]. intros w1. split_and!; [done..|]. intros k. cbn.
    destruct (decide (k = key)); [by eexists | done].
  - apply safe_bind. by apply safe_env.
  - apply safe_bind. by apply safe_env.
Qed.
End serve.
