(* ===== verification/CacheProps.v ===== *)
(** What the read-model cache guarantees. *)

From stdpp Require Import pretty.
From Stdlib Require Import Ascii.
From S2P Require Import Prelude Programs Cache CacheInv CacheShape CacheLoad CacheConc CacheServe.

Open Scope nat_scope.

#[local] Set Warnings "-notation-for-abbreviation".
#[local] Set Default Proof Using "Type".

(** * Flight keys *)

(** No [@] occurs. *)
Fixpoint plain (s : string) : Prop :=
  match s with EmptyString => True | String a s => a ≠ "@"%char ∧ plain s end.

Lemma not_plain s t : ¬ plain (s +:+ "@" +:+ t).
Proof. induction s as [|a s IH]; cbn; [by intros [? _]|by intros [_ ?]]. Qed.

Lemma plain_split s s' t t' : plain s → plain s' → s +:+ "@" +:+ t = s' +:+ "@" +:+ t' → s = s'.
Proof.
  revert s'. induction s as [|a s IH]; intros [|a' s'] Hs Hs' Heq; cbn in *; simplify_eq; [done|by destruct Hs'|by destruct Hs|].
  f_equal. by apply IH; [apply Hs|apply Hs'|].
Qed.

(** Keys print differently and without an [@]: then flights of different keys
    have different names, with and without a version. *)
Lemma singleflightKey_key {K} (keyString : K → string) :
  Inj (=) (=) keyString → (∀ k, plain (keyString k)) →
  ∀ k h b k' h' b', singleflightKey keyString k h b = singleflightKey keyString k' h' b' → k = k'.
Proof.
  intros Hinj Hplain k h b k' h' b'. unfold singleflightKey.
  assert (∀ k k' t, keyString k ≠ keyString k' +:+ "@" +:+ t) as Hne.
  { intros k1 k2 t Heq. apply (not_plain (keyString k2) t). rewrite <- Heq. apply Hplain. }
  destruct (b && _), (b' && _); intros Heq.
  - apply (inj keyString). by eapply plain_split.
  - by apply eq_sym, Hne in Heq.
  - by apply Hne in Heq.
  - by apply (inj keyString).
Qed.

Section props.
Context {K V E G : Type} `{Countable K} `{SingleFlightLaws G (res E (V * bool))}.
Context (cfg : Config V) (keyString : K → string).
Notation W := (world K V E G).
Notation call := (@cache_call K V E G _ _).
Notation answer := (@cache_reply K V E _ _).
Notation step := (pool_step (serve_cache cfg keyString) (allowed_call keyString)).

(** A new cache in front of a database, with nothing in flight. *)
Definition start (now : Z) (c : Cache K V) (g : G) (db : K → V) : pool W call answer :=
  mkPool [] (mkWorld now c ∅ [] g ∅ false (λ k, [db k]) [λ _, 0]).

Lemma start_pool_ok now c g db :
  New cfg = Some c → (∀ id, sf_result g id = None) → pool_ok (world_ok keyString) moves promise (start now c g db).
Proof.
  intros Hc Hg. unfold New in Hc. destruct (_ <=? _)%Z; [done|]. injection Hc as <-.
  split; [|constructor]. split; cbn.
  - done.
  - done.
  - intros [|e] k; [done|]. apply Nat.le_refl.
  - intros e e' k He He'. assert (e = 0) as -> by lia. assert (e' = 0) as -> by lia. done.
  - by intros k ent ?%lookup_empty_Some.
  - by intros fk id ?%lookup_empty_Some.
  - done.
  - intros id r. by rewrite Hg.
Qed.

(** The keys that an invalidating call names. *)
Definition covers (q : call) (k : K) : Prop :=
  match q with
  | CallInvalidate keys => k ∈ keys
  | CallInvalidateWhere pred order => k ∈ order ∧ pred k = true
  | CallFlush => True
  | _ => False
  end.

(** The value of [k] that a call has answered; a [GetOrLoad] that took over
    another caller's run is left out. *)
Definition answers (q : call) (r : answer) (k : K) (v : V) : Prop :=
  match q, r with
  | CallGet _ _ key _ _ _, Got (OK a) false => k = key ∧ v = a
  | CallBatch _ _ _ _ _, GotBatch (OK m) => m !! k = Some v
  | CallPeek key, Peeked (Some a) => k = key ∧ v = a
  | _, _ => False
  end.

Context (clone_copies : ∀ v, cloneValue cfg v = v).
Context (keyString_inj : Inj (=) (=) keyString) (keyString_plain : ∀ k, plain (keyString k)).

Lemma cache_pool_ok p p' :
  rtc step p p' → pool_ok (world_ok keyString) moves promise p →
  pool_ok (world_ok keyString) moves promise p' ∧ started_later moves p p'.
Proof using clone_copies keyString_inj keyString_plain.
  intros Hsteps Hp.
  apply (pool_safe (serve_cache cfg keyString) (allowed_call keyString) (world_ok keyString) moves promise);
    [|by intros; eapply promise_stable|done|done].
  intros q w Hq Hw. apply serve_safe; [done|by apply singleflightKey_key|done|done].
Qed.

(** C15: however loads, batches, invalidations and writes of the database
    interleave: after an invalidation of a key has returned, no entry of the key
    and no call that starts later gives a value older than the one that the
    database had when the invalidation was called - only a [GetOrLoad] that
    joins another caller's run is not covered. *)
Theorem reads_after_invalidation now c g db p p' i q w0 k :
  New cfg = Some c → (∀ id, sf_result g id = None) →
  rtc step (start now c g db) p → rtc step p p' →
  threads p !! i = Some (mkThread q w0 (Ret Done)) → covers q k →
  let current v := ∃ n, w_hist (shared p') k !! n = Some v ∧ version w0 k ≤ n in
  (∀ ent, items (w_cache (shared p')) !! k = Some ent → current (ent_value ent))
  ∧ ∀ j q' wj r v, length (threads p) ≤ j → threads p' !! j = Some (mkThread q' wj (Ret r)) →
      answers q' r k v → current v.
Proof using clone_copies keyString_inj keyString_plain.
  intros Hc Hg Hp Hp' Hi Hcov current.
  apply cache_pool_ok in Hp as [Hok _]; [|by apply start_pool_ok].
  apply cache_pool_ok in Hp' as [Hok' [Hm Hlater]]; [|done].
  assert (settled (shared p) k (version w0 k)) as Hsettled.
  { destruct (pool_finished _ _ _ p i _ _ _ Hok Hi) as [_ Hpr]. destruct q; cbn in *; try done; auto. }
  pose proof (po_shared _ _ _ _ Hok') as Hw'. split.
  - intros ent Hent. apply (settled_fresh keyString (shared p') (shared p')); [done|done| |].
    + by eapply settled_moves.
    + by apply (wo_items keyString).
  - intros j q' wj r v Hj Hthread Hans. destruct (Hlater j _ Hthread) as [(t0 & Ht0 & _)|Hstart].
    { apply lookup_lt_Some in Ht0. lia. }
    cbn in Hstart. destruct (pool_finished _ _ _ p' j _ _ _ Hok' Hthread) as [Hmj Hpr].
    apply (settled_fresh keyString wj (shared p')); [done|done|by eapply settled_moves|].
    destruct q', r as [[a|] []|[m|]|?|[a|]|]; cbn in Hans, Hpr; try done.
    + destruct Hans as [-> ->]. by apply (Hpr a).
    + by apply (proj1 Hpr m).
    + destruct Hans as [-> ->]. by apply Hpr.
Qed.

(** C16: a batch answers exactly the keys it was asked for, whatever flights of
    other callers it waited for, each with a committed value; and it turns
    around at most once per invalidation that runs during the call. *)
Theorem batch_answers_its_keys now c g db p i fuel ctx keys versionOf loadMissing w0 r :
  New cfg = Some c → (∀ id, sf_result g id = None) → rtc step (start now c g db) p →
  threads p !! i = Some (mkThread (CallBatch fuel ctx keys versionOf loadMissing) w0 (Ret r)) →
  match r with
  | GotBatch (OK m) => dom m = list_to_set keys ∧ ∀ k v, m !! k = Some v → v ∈ w_hist (shared p) k
  | GotBatch (ERR OutOfFuel) => fuel ≤ epoch (w_cache (shared p)) - epoch (w_cache w0)
  | GotBatch (ERR _) => True
  | _ => False
  end.
Proof using clone_copies keyString_inj keyString_plain.
  intros Hc Hg Hp Hi. apply cache_pool_ok in Hp as [Hok _]; [|by apply start_pool_ok].
  destruct (pool_finished _ _ _ p i _ _ _ Hok Hi) as [_ Hpr].
  destruct r as [|[m|[]]| | |]; cbn in Hpr; try done.
  - destruct Hpr as [Hm _]. destruct (Hm m eq_refl) as [? Ha]. split; [done|].
    intros k v Hk. by eapply fresh_committed, Ha.
  - destruct Hpr as [_ Hfuel]. specialize (Hfuel eq_refl). lia.
Qed.
End props.

(** * Capacity and recency *)

Section capacity.
Context {K V : Type} `{Countable K} (cfg : Config V).
Implicit Types (c : Cache K V) (key : K) (v : V).

(** C17: after any sequence of operations, whatever the times they read, the
    cache holds at most [MaxEntries] entries of together at most [MaxWeight]; the
    counter is the exact sum of the weights, without overflow; the recency list
    has every key once; and the callbacks let an index mirror the entries. *)
Theorem cache_is_bounded_and_mirrored c0 ops :
  config_ok cfg → New cfg = Some c0 →
  let c := fold_left (apply_op cfg) ops c0 in
  (Len c ≤ MaxEntries cfg)%Z ∧ (0 < MaxWeight cfg → Weight c ≤ MaxWeight cfg)%Z
  ∧ Weight c = sum_map ent_weight (items c)
  ∧ NoDup (ll c) ∧ (∀ k, k ∈ ll c ↔ is_Some (items c !! k))
  ∧ mirrors (events c) (ent_value <$> items c).
Proof.
  intros Hcfg Hnew c. pose proof (reachable_cache_ok cfg c0 ops Hcfg Hnew) as [Hc [Hlen Hsum]]. fold c in Hc, Hlen, Hsum.
  split_and!; [done| |apply Hc..]. intros Hpos. unfold Weight. rewrite (shape_sum cfg c Hc). auto.
Qed.

(** A value that is heavier than the cache is not kept and removes what was
    there; any other becomes the most recent entry and can be read back at once,
    and of the others the cache keeps, unchanged and in their order, the longest
    run of most recent ones that the capacities allow. *)
Theorem store_keeps_the_most_recent c0 ops now key v h :
  config_ok cfg → New cfg = Some c0 →
  let c := fold_left (apply_op cfg) ops c0 in
  let c' := storeLocked cfg now key v h c in
  let ent := mkEntry (cloneValue cfg v) h (expireAt cfg now) (valueWeight cfg v) in
  let l := MoveToFront key (ll c) in
  let its := <[key := ent]> (items c) in
  if ((0 <? MaxWeight cfg) && (MaxWeight cfg <? valueWeight cfg v))%Z
  then ll c' = unlink key (ll c) ∧ items c' = delete key (items c)
  else Peek cfg now key c' = Some (cloneValue cfg (cloneValue cfg v))
       ∧ ∃ n, 1 ≤ n ≤ length l ∧ ll c' = take n l ∧ items c' = filter (λ kv, kv.1 ∈ take n l) its
           ∧ fits cfg its (take n l) ∧ (n = length l ∨ ¬ fits cfg its (take (S n) l)).
Proof.
  intros Hcfg Hnew c c' ent l its. pose proof (reachable_cache_ok cfg c0 ops Hcfg Hnew) as Hok. fold c in Hok.
  pose proof (storeLocked_spec cfg now key v h c Hcfg Hok) as [_ Hspec]. fold c' ent in Hspec.
  destruct (_ && _) eqn:Hover.
  { rewrite Hspec, removeElement_items. split; [|done]. unfold removeElement.
    destruct (items c !! key) eqn:Hkey; [done|]. symmetry. apply unlink_none.
    rewrite (sh_dom cfg c (ok_shape cfg c Hok)), Hkey. by intros []. }
  destruct Hspec as (c1 & (_ & Hl & Hi) & n & Hn & Htake & Hitems & Hfits & Hmaximal).
  rewrite Hl in Hn, Htake, Hitems, Hfits, Hmaximal. rewrite Hi in Hitems, Hfits, Hmaximal.
  fold l its in Hn, Htake, Hitems, Hfits, Hmaximal.
  assert (1 ≤ n) as Hpos.
  { destruct n as [|n]; [|lia]. destruct Hmaximal as [Hlen|Hmaximal]; [done|]. exfalso. apply Hmaximal.
    change (take 1 l) with [key]. split; cbn; [destruct Hcfg; lia|].
    intros Hmw. unfold entry_weight, its. rewrite lookup_insert_eq. cbn.
    apply valueWeight_ok in Hover. rewrite Z.add_0_r. by apply Hover. }
  split; [|exists n; by split_and!]. unfold Peek. rewrite Hitems.
  rewrite (proj2 (map_lookup_filter_Some _ its key ent)).
  - replace (expired cfg now ent) with false; [done|]. unfold expired, ent, expireAt. cbn.
    destruct (Z.ltb_spec 0 (TTL cfg)) as [Hpo|]; [|done]. destruct (Z.leb_spec (TTL cfg) 0); [lia|].
    cbn. symmetry. apply Z.leb_gt. lia.
  - split; [apply lookup_insert_eq|]. cbn. unfold l, MoveToFront. destruct n; [lia|]. apply list_elem_of_here.
Qed.
End capacity.

(** * Concrete runs *)

Module CacheDemo.

(** A [singleflight] group. *)
Record group := { open : gmap string nat; names : list string; results : gmap nat (res unit (Z * bool)) }.

#[export] Instance group_flight : SingleFlight group (res unit (Z * bool)) := {|
  sf_enter s g :=
    match open g !! s with
    | Some id =>
        if decide (names g !! id = Some s) then ((false, id), g)
        else ((true, length (names g)), {| open := <[s := length (names g)]> (open g); names := names g ++ [s]; results := results g |})
    | None => ((true, length (names g)), {| open := <[s := length (names g)]> (open g); names := names g ++ [s]; results := results g |})
    end;
  sf_leave id r g :=
    {| open := match names g !! id with Some s => delete s (open g) | None => open g end;
       names := names g; results := <[id := r]> (results g) |};
  sf_result g id := results g !! id;
|}.

#[export, refine] Instance group_laws : SingleFlightLaws group (res unit (Z * bool)) := {|
  sf_key g id := names g !! id;
|}.
Proof.
  all: unfold sf_enter, sf_leave, sf_result, group_flight.
  - intros s g. destruct (open g !! s) as [id|]; [case_decide as Hd; cbn; [done|]|cbn];
      by rewrite lookup_app_r, Nat.sub_diag by lia.
  - intros s g id t Hid. destruct (open g !! s) as [id'|]; [case_decide as Hd; cbn; [done|]|cbn];
      by apply lookup_app_l_Some.
  - intros s g id r. destruct (open g !! s) as [id'|]; [by case_decide|done].
  - done.
  - intros id r g id' r'. cbn. intros [[<- <-]|[_ ?]]%lookup_insert_Some; auto.
Defined.

Definition no_group : group := {| open := ∅; names := []; results := ∅ |}.

Definition cfg : Config Z := mkConfig 2 5 (Some (λ v, v)) 60 (Some (λ v, v)).
Definition cache0 : Cache Z Z := mkCache [] ∅ 0 0 [].

Notation W := (world Z Z unit group).
Notation call := (@cache_call Z Z unit group _ _).
Notation answer := (@cache_reply Z Z unit _ _).

(** Loaders that read the database in one step. *)
Definition read_db (k : Z) : prog W (res unit Z) := atomically (λ w, (OK (default 0%Z (last (w_hist w k))), w)).
Definition read_all (ks : list Z) : prog W (res unit (gmap Z Z)) :=
  atomically (λ w, (OK (list_to_map ((λ k, (k, default 0%Z (last (w_hist w k)))) <$> ks)), w)).

Lemma read_now (w w1 : W) k :
  world_ok pretty w1 → moves w w1 → recent w k (default 0%Z (last (w_hist w1 k))) w1.
Proof.
  intros Hw Hm. pose proof (wo_hist _ w1 Hw k) as Hne. exists (version w1 k). split; [|by apply version_moves].
  unfold version. rewrite <- last_lookup. destruct (last (w_hist w1 k)) eqn:E; [done|].
  by apply last_None in E.
Qed.

Lemma read_db_ok k : reads_key pretty k (read_db k).
Proof.
  intros w Hw. apply safe_atomically. intros w1 Hw1 Hm. split_and!; [done|done|].
  intros v [= <-]. by apply read_now.
Qed.

Lemma read_all_ok : reads_keys pretty read_all.
Proof.
  intros ks w Hw. apply safe_atomically. intros w1 Hw1 Hm. split_and!; [done|done|].
  intros m [= <-]. split.
  - intros k Hk. apply not_eq_None_Some. intros Hno%not_elem_of_list_to_map. apply Hno.
    rewrite <- list_fmap_compose. cbn. by rewrite list_fmap_id.
  - intros k v Hk. apply elem_of_list_to_map_2, list_elem_of_fmap in Hk as (k' & [= -> ->] & _). by apply read_now.
Qed.

Lemma pretty_plain (k : Z) : plain (pretty k).
Proof.
  assert (∀ n s, plain s → plain (pretty_N_go n s)) as Hgo.
  { intros n. induction (N.lt_wf_0 n) as [n _ IH]. intros s Hs.
    destruct (decide (n = 0)%N) as [->|]; [done|]. rewrite pretty_N_go_step by lia.
    apply IH; [apply N.div_lt; lia|]. split; [|done]. unfold pretty_N_char. by repeat case_match. }
  assert (∀ n : N, plain (pretty n)) as Hn.
  { intros n. unfold pretty, pretty_N. case_decide; [cbn; by split|]. by apply Hgo. }
  destruct k as [|p|p]; [by split|apply (Hn (Npos p))|]. cbn. split; [done|]. apply (Hn (Npos p)).
Qed.

(** A read that fills the cache, a write with its invalidation, a batch that
    reads the new value, and a peek. *)
Notation serve := (serve_cache cfg pretty).
Definition pool0 : pool W call answer := start 0 cache0 no_group (λ k, k).
Definition pool1 : pool W call answer := play serve 20 (CallGet 2 0 3%Z 0 false (read_db 3)) pool0.
Definition pool2 : pool W call answer := play serve 20 (CallInvalidate [3%Z]) (play serve 20 (CallCommit 3%Z 1%Z) pool1).
Definition versions (_ : Z) : prog W (Z * bool) := mret (0%Z, true).
Definition pool3 : pool W call answer :=
  play serve 20 (CallPeek 3%Z) (play serve 40 (CallBatch 2 0 [3; 4]%Z versions read_all) pool2).

Definition reply_of (i : nat) (p : pool W call answer) : option answer :=
  match th_body <$> threads p !! i with Some (Ret r) => Some r | _ => None end.


Lemma clone_id v : cloneValue cfg v = v.
Proof. done. Qed.

Lemma versions_quiet k : quiet pretty (versions k).
Proof. by intros w Hw. Qed.

Lemma pool2_reached : rtc (pool_step serve (allowed_call pretty)) pool0 pool2.
Proof.
  transitivity pool1; [apply play_rtc, read_db_ok|]. unfold pool2.
  etransitivity; [|by apply play_rtc]. by apply play_rtc.
Qed.

Lemma pool3_reached : rtc (pool_step serve (allowed_call pretty)) pool2 pool3.
Proof.
  unfold pool3. etransitivity; [|by apply play_rtc]. apply play_rtc. split; [apply versions_quiet | apply read_all_ok].
Qed.

Definition start_of (i : nat) (p : pool W call answer) : W := default (shared p) (th_start <$> threads p !! i).

Lemma reads_after_invalidation_witness :
  reply_of 0 pool1 = Some (Got (OK 3%Z) false)
  ∧ reply_of 2 pool2 = Some Done
  ∧ reply_of 4 pool3 = Some (Peeked (Some 1%Z))
  ∧ (∃ n, w_hist (shared pool3) 3%Z !! n = Some 1%Z ∧ version (start_of 2 pool2) 3%Z ≤ n).
Proof.
  split; [vm_compute; reflexivity|]. split; [vm_compute; reflexivity|]. split; [vm_compute; reflexivity|].
  refine (proj2 (reads_after_invalidation cfg pretty clone_id _ pretty_plain 0 cache0 no_group (λ k, k) pool2 pool3 2
    (CallInvalidate [3%Z]) (start_of 2 pool2) 3%Z _ _ pool2_reached pool3_reached _ _)
    4 (CallPeek 3%Z) (start_of 4 pool3) (Peeked (Some 1%Z)) 1%Z _ _ _).
  - reflexivity.
  - intros id. apply lookup_empty.
  - vm_compute. reflexivity.
  - apply list_elem_of_here.
  - vm_compute. lia.
  - vm_compute. reflexivity.
  - split; reflexivity.
Defined.

Lemma batch_answers_its_keys_witness :
  reply_of 3 pool3 = Some (GotBatch (OK {[3 := 1; 4 := 4]}%Z))
  ∧ dom ({[3 := 1; 4 := 4]}%Z : gmap Z Z) = list_to_set [3; 4]%Z.
Proof.
  split; [vm_compute; reflexivity|].
  refine (proj1 (batch_answers_its_keys cfg pretty clone_id _ pretty_plain 0 cache0 no_group (λ k, k) pool3 3 2 0 [3; 4]%Z
    versions read_all (start_of 3 pool3) (GotBatch (OK {[3 := 1; 4 := 4]}%Z)) _ _ _ _)).
  - reflexivity.
  - intros id. apply lookup_empty.
  - exact (transitivity pool2_reached pool3_reached).
  - vm_compute. reflexivity.
Defined.

Definition ops : list (@cache_op Z Z) :=
  [OpStore 0 1%Z 2%Z; OpStore 1 2%Z 2%Z; OpLookup 2 1%Z 0 false; OpInvalidate [7%Z]].

Lemma config_fine : config_ok cfg.
Proof. unfold config_ok, two62, cfg. simpl. lia. Qed.

Lemma cache_is_bounded_and_mirrored_witness :
  ll (fold_left (apply_op cfg) ops cache0) = [1; 2]%Z ∧ (Weight (fold_left (apply_op cfg) ops cache0) ≤ 5)%Z.
Proof.
  split; [vm_compute; reflexivity|].
  apply (proj1 (proj2 (cache_is_bounded_and_mirrored cfg cache0 ops config_fine eq_refl))). reflexivity.
Defined.

(** A third entry of weight three: key 2, the least recently used, has to go. *)
Lemma store_keeps_the_most_recent_witness :
  ll (storeLocked cfg 3 9%Z 3%Z 0 (fold_left (apply_op cfg) ops cache0)) = [9; 1]%Z
  ∧ Peek cfg 3 9%Z (storeLocked cfg 3 9%Z 3%Z 0 (fold_left (apply_op cfg) ops cache0)) = Some 3%Z.
Proof.
  split; [vm_compute; reflexivity|].
  exact (proj1 (store_keeps_the_most_recent cfg cache0 ops 3 9%Z 3%Z 0 config_fine eq_refl)).
Defined.

(** ** Joining a run that is over *)

(** The first call has stored its value but has not left its flight; then the
    database changes and the key is invalidated; then a second call arrives. *)
Definition late : pool W call answer :=
  play serve 20 (CallInvalidate [3%Z]) (play serve 20 (CallCommit 3%Z 1%Z)
    (play serve 6 (CallGet 2 0 3%Z 0 false (read_db 3)) pool0)).
Definition joined : pool W call answer :=
  go 20 3 (go 20 0 (play serve 20 (CallGet 2 0 3%Z 0 false (read_db 3)) late)).

(** The exception above is real: a [GetOrLoad] that starts after an
    invalidation has returned can join a run that had stored its value before,
    and is answered with the value from before the invalidation. *)
Theorem joined_read_can_be_stale :
  ∃ p p' w0 wj v,
    rtc (pool_step serve (allowed_call pretty)) pool0 p ∧ rtc (pool_step serve (allowed_call pretty)) p p'
    ∧ threads p !! 2 = Some (mkThread (CallInvalidate [3%Z]) w0 (Ret Done)) ∧ length (threads p) ≤ 3
    ∧ threads p' !! 3 = Some (mkThread (CallGet 2 0 3%Z 0 false (read_db 3)) wj (Ret (Got (OK v) true)))
    ∧ ∀ n, w_hist (shared p') 3%Z !! n = Some v → n < version w0 3%Z.
Proof.
  exists late, joined, (start_of 2 late), (start_of 3 joined), 3%Z. split_and!.
  - unfold late. etransitivity; [|by apply play_rtc]. etransitivity; [|by apply play_rtc]. apply play_rtc, read_db_ok.
  - unfold joined. etransitivity; [|apply go_rtc]. etransitivity; [|apply go_rtc]. apply play_rtc, read_db_ok.
  - vm_compute. reflexivity.
  - vm_compute. lia.
  - vm_compute. reflexivity.
  - intros n. replace (w_hist (shared joined) 3%Z) with [3; 1]%Z by (vm_compute; reflexivity).
    replace (version (start_of 2 late) 3%Z) with 1 by (vm_compute; reflexivity).
    destruct n as [|[|n]]; cbn; [lia|done|done].
Qed.
End CacheDemo.
