(* ===== verification/CreditWindow.v ===== *)
(** Windows of credits: the two flow-control windows of bulk requests, which are
    written alike - the acknowledgement window of a logical session
    ([reserveBulkCredit], [outboundBulkCredit], [closeBulkWindow] of
    [internal/mtprotoedge/outbound.go]) and the handler slots of the process
    ([bulkRPCScheduler], [bulkRPCLease] of [bulk_rpc_scheduler.go]).

    A lease is a heap object, here an index of [leases].  Each method is one
    critical section of the window's lock; it returns the callbacks to run once
    the lock is free, with their argument. *)

From S2P Require Import Prelude.

Open Scope Z_scope.

#[local] Set Default Proof Using "Type".

Record lease := mkLease {
  granted : bool;
  released : bool;
  notified : bool;
  notify : option nat;
}.

Record window := mkWindow {
  bulkMax : Z;
  inUse : Z;
  waiters : list nat;
  closed : bool;
  leases : list lease;
}.

Definition defaultBulkACKWindow : Z := 32.

Definition newBulkRPCScheduler (max : Z) : window :=
  {| bulkMax := if max <=? 0 then 1 else max; inUse := 0; waiters := []; closed := false; leases := [] |}.

Definition newBulkWindow : window :=
  {| bulkMax := defaultBulkACKWindow; inUse := 0; waiters := []; closed := false; leases := [] |}.

Definition set_granted (l : lease) : lease := mkLease true (released l) (notified l) (notify l).
Definition set_released (l : lease) : lease := mkLease (granted l) true (notified l) (notify l).
Definition set_notified (l : lease) : lease := mkLease (granted l) (released l) true (notify l).
Definition ungrant (l : lease) : lease := mkLease false (released l) (notified l) (notify l).
Definition with_notify (cb : nat) (l : lease) : lease := mkLease (granted l) (released l) (notified l) (Some cb).

(** [reserve]; [reserveBulkCredit] also gives an unset limit its default. *)
Definition reserve (w : window) : nat * window :=
  let id := length (leases w) in
  (id,
   if closed w then
     mkWindow (bulkMax w) (inUse w) (waiters w) (closed w) (leases w ++ [mkLease false true false None])
   else if inUse w <? bulkMax w then
     mkWindow (bulkMax w) (inUse w + 1) (waiters w) (closed w) (leases w ++ [mkLease true false false None])
   else
     mkWindow (bulkMax w) (inUse w) (waiters w ++ [id]) (closed w) (leases w ++ [mkLease false false false None])).

Definition reserveBulkCredit (w : window) : nat * window :=
  reserve (mkWindow (if bulkMax w <=? 0 then defaultBulkACKWindow else bulkMax w) (inUse w) (waiters w)
             (closed w) (leases w)).

(** [subscribe]: the callback is run at once on a lease that is decided. *)
Definition subscribe (id cb : nat) (w : window) : option bool * window :=
  match leases w !! id with
  | None => (None, w)
  | Some l =>
      let decided := (granted l || released l) && negb (notified l) in
      let l' := with_notify cb l in
      let l' := if decided then set_notified l' else l' in
      (if decided then Some (granted l) else None,
       mkWindow (bulkMax w) (inUse w) (waiters w) (closed w) (<[id := l']> (leases w)))
  end.

(** The loop that hands free places to the waiters, oldest first. *)
Fixpoint grant_waiters (max inUse : Z) (ls : list lease) (ws : list nat) (run : list nat)
    : Z * list lease * list nat * list nat :=
  if inUse <? max then
    match ws with
    | [] => (inUse, ls, [], run)
    | next :: ws =>
        match ls !! next with
        | None => grant_waiters max inUse ls ws run
        | Some l =>
            if released l then grant_waiters max inUse ls ws run
            else
              let l := set_granted l in
              match notify l with
              | Some cb =>
                  if notified l then grant_waiters max (inUse + 1) (<[next := l]> ls) ws run
                  else grant_waiters max (inUse + 1) (<[next := set_notified l]> ls) ws (run ++ [cb])
              | None => grant_waiters max (inUse + 1) (<[next := l]> ls) ws run
              end
        end
    end
  else (inUse, ls, ws, run).

(** Callbacks and the argument they are run with. *)
Definition answers (b : bool) (ids : list nat) : list (nat * bool) := (λ id, (id, b)) <$> ids.

Definition release (id : nat) (w : window) : list (nat * bool) * window :=
  match leases w !! id with
  | None => ([], w)
  | Some l =>
      if released l then ([], w)
      else
        let inUse := if granted l then inUse w - 1 else inUse w in
        let ls := <[id := ungrant (set_released l)]> (leases w) in
        if closed w then ([], mkWindow (bulkMax w) inUse (waiters w) true ls)
        else
          let '(inUse, ls, ws, run) := grant_waiters (bulkMax w) inUse ls (waiters w) [] in
          (answers true run, mkWindow (bulkMax w) inUse ws false ls)
  end.

(** The loop of [close]. *)
Fixpoint fail_waiters (ls : list lease) (ws : list nat) (run : list nat) : list lease * list nat :=
  match ws with
  | [] => (ls, run)
  | id :: ws =>
      match ls !! id with
      | None => fail_waiters ls ws run
      | Some l =>
          if released l then fail_waiters ls ws run
          else
            let l := set_released l in
            match notify l with
            | Some cb =>
                if notified l then fail_waiters (<[id := l]> ls) ws run
                else fail_waiters (<[id := set_notified l]> ls) ws (run ++ [cb])
            | None => fail_waiters (<[id := l]> ls) ws run
            end
      end
  end.

Definition close (w : window) : list (nat * bool) * window :=
  let '(ls, run) := fail_waiters (leases w) (waiters w) [] in
  (answers false run, mkWindow (bulkMax w) (inUse w) [] true ls).

(** A run of the window: the callback of a lease is named by the lease, and the
    log holds the answers in the order in which they were given. *)
Inductive op :=
  | Reserve
  | Subscribe (id : nat)
  | Release (id : nat)
  | Close.

Definition apply_op (o : op) (w : window) : list (nat * bool) * window :=
  match o with
  | Reserve => ([], (reserveBulkCredit w).2)
  | Subscribe id =>
      let '(r, w) := subscribe id id w in
      (match r with Some b => [(id, b)] | None => [] end, w)
  | Release id => release id w
  | Close => close w
  end.

#[export] Instance op_eq_dec : EqDecision op.
Proof. solve_decision. Defined.

Fixpoint run_ops (ops : list op) (log : list (nat * bool)) (w : window) : list (nat * bool) * window :=
  match ops with
  | [] => (log, w)
  | o :: ops => let '(l, w) := apply_op o w in run_ops ops (log ++ l) w
  end.

(** * The invariant *)

Definition waiting (l : lease) : bool := negb (granted l) && negb (released l).

Definition granted_count (ls : list lease) : Z := sumZ ((λ l, b2z (granted l)) <$> ls).

(** What may be said of a lease in any state. *)
Definition lease_ok (l : lease) : Prop :=
  (granted l = true → released l = false)
  ∧ (notified l = true → granted l = true ∨ released l = true)
  ∧ (granted l = true → notify l ≠ None → notified l = true).

(** The part of the invariant that also holds inside the loops. *)
Record queue_ok (max u : Z) (ls : list lease) (ws : list nat) : Prop := {
  qk_count : u = granted_count ls;
  qk_limit : u ≤ max;
  qk_leases id l : ls !! id = Some l → lease_ok l;
  qk_sorted : StronglySorted lt ws;
  qk_waiters id : id ∈ ws → ∃ l, ls !! id = Some l ∧ granted l = false;
  qk_waiting id l : ls !! id = Some l → waiting l = true → id ∈ ws;
  qk_fifo id id' l l' : (id < id')%nat → ls !! id = Some l → waiting l = true →
    ls !! id' = Some l' → granted l' = false;
}.

Record window_ok (w : window) : Prop := {
  wk_max : 0 < bulkMax w;
  wk_queue : queue_ok (bulkMax w) (inUse w) (leases w) (waiters w);
  wk_full : waiters w ≠ [] → inUse w = bulkMax w;
  wk_closed : closed w = true → waiters w = [];
}.

(** What the log says: each lease is answered at most once, when it is marked
    notified; a lease that is granted and subscribed was told so; a refusal is
    final. *)
Record log_ok (ls : list lease) (log : list (nat * bool)) : Prop := {
  gk_once : NoDup log.*1;
  gk_notified id : id ∈ log.*1 ↔ ∃ l, ls !! id = Some l ∧ notified l = true;
  gk_granted id l : ls !! id = Some l → granted l = true → notify l ≠ None → (id, true) ∈ log;
  gk_refused id l : (id, false) ∈ log → ls !! id = Some l → released l = true;
  gk_own id l cb : ls !! id = Some l → notify l = Some cb → cb = id;
}.

(** ** One lease changes *)

Lemma granted_count_app ls l : granted_count (ls ++ [l]) = granted_count ls + b2z (granted l).
Proof. unfold granted_count. rewrite fmap_app, sumZ_app. simpl. lia. Qed.

Lemma granted_count_insert ls id l l' :
  ls !! id = Some l →
  granted_count (<[id := l']> ls) = granted_count ls - b2z (granted l) + b2z (granted l').
Proof.
  unfold granted_count. revert id. induction ls as [|x ls IH]; intros [|id] H; simplify_eq/=; [lia|].
  rewrite (IH _ H). lia.
Qed.

Lemma granted_count_nonneg ls : 0 ≤ granted_count ls.
Proof.
  apply sumZ_nonneg, Forall_fmap, Forall_true. intros l. unfold b2z; simpl. destruct (granted l); lia.
Qed.

Lemma lookup_insert_cases (ls : list lease) id l' j x :
  <[id := l']> ls !! j = Some x → (j = id ∧ x = l') ∨ (j ≠ id ∧ ls !! j = Some x).
Proof.
  intros H. destruct (decide (j = id)) as [->|].
  - left. destruct (ls !! id) eqn:E.
    + rewrite list_lookup_insert_eq in H by (eapply lookup_lt_Some; eauto). by simplify_eq.
    + rewrite list_insert_ge in H by (by apply lookup_ge_None). congruence.
  - right. by rewrite list_lookup_insert_ne in H.
Qed.

(** A change that grants nothing and makes nothing wait. *)
Lemma queue_ok_settle max u ls ws id l l' :
  queue_ok max u ls ws → ls !! id = Some l → lease_ok l' →
  (granted l' = true → granted l = true) → (waiting l' = true → waiting l = true) →
  queue_ok max (u - b2z (granted l) + b2z (granted l')) (<[id := l']> ls) ws.
Proof.
  intros [Hc Hm Hl Hs Hw Hq Hf] E Hok Hg Hwt. split.
  - rewrite (granted_count_insert _ _ _ _ E). lia.
  - destruct (granted l'), (granted l); simpl; try lia; by specialize (Hg eq_refl).
  - intros j x Hj. apply lookup_insert_cases in Hj as [[-> ->]|[? Hj]]; eauto.
  - done.
  - intros j Hj. destruct (Hw j Hj) as (x & Hx & Hgx). destruct (decide (j = id)) as [->|].
    + exists l'. split; [apply list_lookup_insert_eq; by eapply lookup_lt_Some|].
      simplify_eq. destruct (granted l'); [|done]. rewrite Hg in Hgx; done.
    + exists x. by rewrite list_lookup_insert_ne.
  - intros j x Hj Hx. apply lookup_insert_cases in Hj as [[-> ->]|[? Hj]]; eauto.
  - intros j j' x x' Hlt Hj Hx Hj'.
    assert (∃ y, ls !! j = Some y ∧ waiting y = true) as (y & Hy & Hyw).
    { apply lookup_insert_cases in Hj as [[-> ->]|[? Hj]]; eauto. }
    apply lookup_insert_cases in Hj' as [[-> ->]|[? Hj']]; [|eauto].
    destruct (granted l') eqn:Eg; [|done]. pose proof (Hf _ _ _ _ Hlt Hy Hyw E) as F.
    by rewrite Hg in F.
Qed.

(** The head of the queue is granted. *)
Lemma queue_ok_grant max u ls ws id l l' :
  queue_ok max u ls (id :: ws) → u < max → ls !! id = Some l → released l = false →
  granted l' = true → lease_ok l' →
  queue_ok max (u + 1) (<[id := l']> ls) ws.
Proof.
  intros [Hc Hm Hl Hs Hw Hq Hf] Hu E Hr Hg Hok.
  destruct (Hw id) as (? & ? & Hg0); [apply list_elem_of_here|]. simplify_eq.
  apply StronglySorted_inv in Hs as [Hs Hall]. rewrite Forall_forall in Hall.
  assert (waiting l' = false) as Hwt by (unfold waiting; by rewrite Hg).
  split.
  - rewrite (granted_count_insert _ _ _ _ E), Hg, Hg0. simpl. lia.
  - lia.
  - intros j x Hj. apply lookup_insert_cases in Hj as [[-> ->]|[? Hj]]; eauto.
  - done.
  - intros j Hj. pose proof (Hall j Hj). destruct (Hw j) as (x & Hx & Hgx).
    { by apply list_elem_of_further. }
    exists x. by rewrite list_lookup_insert_ne by lia.
  - intros j x Hj Hx. apply lookup_insert_cases in Hj as [[-> ->]|[? Hj]]; [congruence|].
    specialize (Hq _ _ Hj Hx). apply elem_of_cons in Hq as [->|]; [congruence|done].
  - intros j j' x x' Hlt Hj Hx Hj'.
    apply lookup_insert_cases in Hj as [[-> ->]|[? Hj]]; [congruence|].
    specialize (Hq _ _ Hj Hx). apply elem_of_cons in Hq as [->|Hin]; [congruence|].
    pose proof (Hall j Hin).
    apply lookup_insert_cases in Hj' as [[-> ->]|[? Hj']]; [lia|eauto].
Qed.

Lemma queue_ok_skip max u ls ws id :
  queue_ok max u ls (id :: ws) → (∀ l, ls !! id = Some l → waiting l = false) →
  queue_ok max u ls ws.
Proof.
  intros [Hc Hm Hl Hs Hw Hq Hf] Hn. apply StronglySorted_inv in Hs as [Hs _].
  split; try done.
  - intros j Hj. apply Hw. by apply list_elem_of_further.
  - intros j x Hj Hx. specialize (Hq _ _ Hj Hx). apply elem_of_cons in Hq as [->|]; [|done].
    rewrite (Hn _ Hj) in Hx. done.
Qed.

(** ** The log *)

(** A change that answers nobody. *)
Lemma log_ok_quiet ls log id l l' :
  log_ok ls log → ls !! id = Some l → notified l' = notified l →
  (∀ cb, notify l' = Some cb → cb = id) →
  (granted l' = true → notify l' ≠ None → (id, true) ∈ log) →
  (released l = true → released l' = true) →
  log_ok (<[id := l']> ls) log.
Proof.
  intros [Ho Hn Hg Hr Hc] E En Ec Eg Er. split.
  - done.
  - intros j. rewrite Hn. destruct (decide (j = id)) as [->|].
    + rewrite list_lookup_insert_eq by (by eapply lookup_lt_Some). rewrite E.
      split; intros (x & ? & ?); simplify_eq; eexists; split; eauto; congruence.
    + by rewrite list_lookup_insert_ne.
  - intros j x Hj. apply lookup_insert_cases in Hj as [[-> ->]|[? Hj]]; eauto.
  - intros j x Hin Hj. apply lookup_insert_cases in Hj as [[-> ->]|[? Hj]]; eauto.
  - intros j x cb Hj. apply lookup_insert_cases in Hj as [[-> ->]|[? Hj]]; eauto.
Qed.

(** A lease is answered. *)
Lemma log_ok_answer ls log id l l' b :
  log_ok ls log → ls !! id = Some l → notified l = false → notified l' = true →
  notify l' = Some id → granted l' = b → released l' = negb b →
  log_ok (<[id := l']> ls) (log ++ [(id, b)]).
Proof.
  intros [Ho Hn Hg Hr Hc] E En En' Ec Eg Er.
  assert (id ∉ log.*1) as Hfresh.
  { rewrite Hn. intros (x & ? & ?). congruence. }
  split.
  - rewrite fmap_app. apply NoDup_app. split_and!; [done| |apply NoDup_singleton].
    intros j Hj Hin. apply list_elem_of_singleton in Hin as ->. done.
  - intros j. rewrite fmap_app, elem_of_app, Hn. simpl. rewrite list_elem_of_singleton.
    destruct (decide (j = id)) as [->|].
    + rewrite list_lookup_insert_eq by (by eapply lookup_lt_Some). split; [|by right]. eauto.
    + rewrite list_lookup_insert_ne by done. split; [by intros [?|?]|by left].
  - intros j x Hj Hgx Hnx. apply elem_of_app.
    apply lookup_insert_cases in Hj as [[-> ->]|[? Hj]]; [|eauto].
    right. rewrite <- Eg, Hgx. apply list_elem_of_here.
  - intros j x Hin Hj. apply elem_of_app in Hin as [Hin|Hin].
    + apply lookup_insert_cases in Hj as [[-> ->]|[? Hj]]; [|eauto].
      destruct Hfresh. apply list_elem_of_fmap. by exists (id, false).
    + apply list_elem_of_singleton in Hin. injection Hin as -> Hb.
      apply lookup_insert_cases in Hj as [[_ ->]|[? Hj]]; [|done]. by rewrite Er, <- Hb.
  - intros j x cb Hj. apply lookup_insert_cases in Hj as [[-> ->]|[? Hj]]; [|eauto]. congruence.
Qed.

(** ** The loops *)

Lemma waiting_not_granted l : waiting l = true → granted l = false ∧ released l = false.
Proof. unfold waiting. by destruct (granted l), (released l). Qed.

(** A lease that waits was not answered. *)
Lemma waiting_not_notified l : lease_ok l → granted l = false → released l = false → notified l = false.
Proof. intros (_ & Hn & _) Hg Hr. destruct (notified l); [|done]. destruct (Hn eq_refl); congruence. Qed.

Lemma grant_waiters_ok max u ls ws run u' ls' ws' run' log :
  grant_waiters max u ls ws run = (u', ls', ws', run') →
  queue_ok max u ls ws → log_ok ls (log ++ answers true run) →
  queue_ok max u' ls' ws' ∧ log_ok ls' (log ++ answers true run') ∧ (ws' = [] ∨ u' = max).
Proof.
  revert u ls run. induction ws as [|id ws IH]; intros u ls run; simpl;
    (case_bool_decide || destruct (Z.ltb_spec u max) as [Hu|Hu]).
  - intros [= <- <- <- <-]; eauto.
  - intros [= <- <- <- <-]; eauto.
  - intros E Hq Hg. destruct (qk_waiters _ _ _ _ Hq id (list_elem_of_here _ _)) as (l & El & Hg0).
    rewrite El in E. destruct (released l) eqn:Er.
    { apply IH in E; [done| |done]. eapply queue_ok_skip; [done|].
      intros ? ?. simplify_eq. unfold waiting. by rewrite Er, andb_false_r. }
    pose proof (waiting_not_notified l (qk_leases _ _ _ _ Hq _ _ El) Hg0 Er) as En.
    rewrite En in E. destruct (notify l) as [cb|] eqn:Ec.
    + pose proof (gk_own _ _ Hg _ _ _ El Ec) as ->. apply IH in E; [done| |].
      * eapply queue_ok_grant; [done|done|done|done|done|]. split_and!; simpl; auto.
      * unfold answers. rewrite fmap_app, app_assoc.
        eapply log_ok_answer; [done|done|done|done|done|done|done].
    + apply IH in E; [done| |].
      * eapply queue_ok_grant; [done|done|done|done|done|].
        split_and!; simpl; [auto|by left|congruence].
      * eapply log_ok_quiet; [done|done|done|..]; simpl; congruence.
  - intros [= <- <- <- <-] Hq ?. split_and!; [done|done|]. right.
    pose proof (qk_limit _ _ _ _ Hq). lia.
Qed.

Lemma fail_waiters_ok max u ls ws run ls' run' log :
  fail_waiters ls ws run = (ls', run') →
  queue_ok max u ls ws → log_ok ls (log ++ answers false run) →
  queue_ok max u ls' [] ∧ log_ok ls' (log ++ answers false run').
Proof.
  revert ls run. induction ws as [|id ws IH]; intros ls run; simpl.
  { by intros [= <- <-]. }
  intros E Hq Hg. destruct (qk_waiters _ _ _ _ Hq id (list_elem_of_here _ _)) as (l & El & Hg0).
  rewrite El in E. destruct (released l) eqn:Er.
  { apply IH in E; [done| |done]. eapply queue_ok_skip; [done|].
    intros ? ?. simplify_eq. unfold waiting. by rewrite Er, andb_false_r. }
  pose proof (waiting_not_notified l (qk_leases _ _ _ _ Hq _ _ El) Hg0 Er) as En.
  assert (∀ l', granted l' = false → released l' = true → queue_ok max u (<[id := l']> ls) ws) as Hstep.
  { intros l' Hg' Hr'. replace u with (u - b2z (granted l) + b2z (granted l')).
    2:{ rewrite Hg0, Hg'. simpl. lia. }
    assert (waiting l' = false) as Hw by (unfold waiting; by rewrite Hg', Hr').
    eapply queue_ok_skip.
    - eapply queue_ok_settle; [done|done| |congruence|congruence].
      split_and!; [congruence|by right|congruence].
    - intros x Hx. apply lookup_insert_cases in Hx as [[_ ->]|[? ?]]; done. }
  rewrite En in E. destruct (notify l) as [cb|] eqn:Ec.
  - pose proof (gk_own _ _ Hg _ _ _ El Ec) as ->. apply IH in E; [done| |].
    + by apply Hstep.
    + unfold answers. rewrite fmap_app, app_assoc.
      eapply log_ok_answer; [done|done|done|done|done|done|done].
  - apply IH in E; [done| |].
    + by apply Hstep.
    + eapply log_ok_quiet; [done|done|done|..]; simpl; congruence.
Qed.

(** ** The operations *)

Lemma window_full_waiters w : window_ok w → inUse w < bulkMax w → waiters w = [].
Proof. intros Hw Hlt. destruct (decide (waiters w = [])) as [|Hne]; [done|]. pose proof (wk_full _ Hw Hne). lia. Qed.

(** A new lease. *)
Lemma queue_ok_new max u ls ws l :
  queue_ok max u ls ws → lease_ok l → u + b2z (granted l) ≤ max →
  (granted l = true → ws = []) → notified l = false →
  let id := length ls in
  queue_ok max (u + b2z (granted l)) (ls ++ [l]) (if waiting l then ws ++ [id] else ws).
Proof.
  intros [Hc Hm Hl Hs Hw Hq Hf] Hok Hle Hg Hnot id.
  assert (∀ j x, (ls ++ [l]) !! j = Some x → (ls !! j = Some x ∧ (j < id)%nat) ∨ (j = id ∧ x = l)) as Hcase.
  { intros j x Hj. apply lookup_app_Some in Hj as [Hj|[? Hj]].
    - left. split; [done|]. by eapply lookup_lt_Some.
    - right. apply list_lookup_singleton_Some in Hj as [? ->]. split; [unfold id; lia|done]. }
  assert (∀ j, j ∈ ws → (j < id)%nat) as Hlt.
  { intros j Hj. destruct (Hw j Hj) as (? & ? & _). by eapply lookup_lt_Some. }
  split.
  - rewrite granted_count_app. lia.
  - done.
  - intros j x Hj. apply Hcase in Hj as [[Hj _]|[-> ->]]; eauto.
  - destruct (waiting l); [|done]. apply StronglySorted_app_2; [|done|repeat constructor].
    intros a b Ha Hb. apply list_elem_of_singleton in Hb as ->. auto.
  - intros j Hj. assert (j ∈ ws ∨ (j = id ∧ waiting l = true)) as [Hj'|[-> Hwt]].
    { destruct (waiting l); [|by left]. apply elem_of_app in Hj as [?|Hj]; [by left|].
      apply list_elem_of_singleton in Hj. by right. }
    + destruct (Hw j Hj') as (x & Hx & ?). exists x. split; [by apply lookup_app_l_Some|done].
    + exists l. split; [by apply list_lookup_middle|]. by apply waiting_not_granted in Hwt as [].
  - intros j x Hj Hx. apply Hcase in Hj as [[Hj _]|[-> ->]].
    + destruct (waiting l); [apply elem_of_app; left|]; eauto.
    + rewrite Hx. apply elem_of_app. right. apply list_elem_of_here.
  - intros j j' x x' Hjj Hj Hx Hj'.
    apply Hcase in Hj as [[Hj Hjid]|[-> ->]], Hj' as [[Hj' Hjid']|[-> ->]]; [by eauto| |lia|lia].
    destruct (granted l) eqn:Eg; [|done]. specialize (Hq _ _ Hj Hx). rewrite (Hg eq_refl) in Hq.
    by apply not_elem_of_nil in Hq.
Qed.

Lemma log_ok_new ls log l :
  log_ok ls log → notified l = false → notify l = None → log_ok (ls ++ [l]) log.
Proof.
  intros [Ho Hn Hg Hr Hc] En Ec.
  assert (∀ j x, (ls ++ [l]) !! j = Some x → ls !! j = Some x ∨ (j = length ls ∧ x = l)) as Hcase.
  { intros j x Hj. apply lookup_app_Some in Hj as [Hj|[? Hj]]; [by left|].
    right. apply list_lookup_singleton_Some in Hj as [? ->]. split; [lia|done]. }
  split.
  - done.
  - intros j. rewrite Hn. split; intros (x & Hx & ?).
    + exists x. split; [by apply lookup_app_l_Some|done].
    + apply Hcase in Hx as [Hx|[-> ->]]; [eauto|congruence].
  - intros j x Hj ? ?. apply Hcase in Hj as [Hj|[-> ->]]; [eauto|congruence].
  - intros j x Hin Hj. apply Hcase in Hj as [Hj|[-> ->]]; [eauto|].
    destruct (proj1 (Hn (length ls))) as (x & Hx & _).
    { apply list_elem_of_fmap. by exists (length ls, false). }
    apply lookup_lt_Some in Hx. lia.
  - intros j x cb Hj ?. apply Hcase in Hj as [Hj|[-> ->]]; [eauto|congruence].
Qed.

Lemma reserve_ok w log :
  window_ok w → log_ok (leases w) log →
  window_ok (reserve w).2 ∧ log_ok (leases (reserve w).2) log.
Proof.
  intros Hw Hg. pose proof (wk_queue _ Hw) as Hq. unfold reserve.
  destruct (closed w) eqn:Ec; [|destruct (Z.ltb_spec (inUse w) (bulkMax w)) as [Hlt|Hge]]; simpl.
  - assert (lease_ok (mkLease false true false None)) as Hok by (split_and!; simpl; congruence).
    pose proof (queue_ok_new _ _ _ _ _ Hq Hok) as H. simpl in H. rewrite Z.add_0_r in H.
    split; [|by apply log_ok_new].
    split; simpl; [apply (wk_max _ Hw)|apply H; [apply (qk_limit _ _ _ _ Hq)|done|done]|
                    apply (wk_full _ Hw)|by intros; apply (wk_closed _ Hw)].
  - assert (lease_ok (mkLease true false false None)) as Hok by (split_and!; simpl; congruence).
    pose proof (window_full_waiters _ Hw Hlt) as He.
    pose proof (queue_ok_new _ _ _ _ _ Hq Hok) as H. simpl in H.
    split; [|by apply log_ok_new].
    split; simpl; [apply (wk_max _ Hw)|apply H; [lia|done|done]|congruence|done].
  - assert (lease_ok (mkLease false false false None)) as Hok by (split_and!; simpl; congruence).
    pose proof (queue_ok_new _ _ _ _ _ Hq Hok) as H. simpl in H. rewrite Z.add_0_r in H.
    pose proof (qk_limit _ _ _ _ Hq).
    split; [|by apply log_ok_new].
    split; simpl; [apply (wk_max _ Hw)|apply H; done|intros; lia|congruence].
Qed.

Lemma reserveBulkCredit_eq w : 0 < bulkMax w → reserveBulkCredit w = reserve w.
Proof.
  intros H. unfold reserveBulkCredit. destruct (Z.leb_spec (bulkMax w) 0); [lia|]. by destruct w.
Qed.

Lemma window_subscribe_ok id w log :
  window_ok w → log_ok (leases w) log →
  let '(l, w') := apply_op (Subscribe id) w in window_ok w' ∧ log_ok (leases w') (log ++ l).
Proof.
  intros Hw Hg. pose proof (wk_queue _ Hw) as Hq. simpl. unfold subscribe.
  destruct (leases w !! id) as [l|] eqn:El; [|by rewrite app_nil_r].
  pose proof (qk_leases _ _ _ _ Hq _ _ El) as (H1 & H2 & H3).
  set (d := (granted l || released l) && negb (notified l)).
  assert (∀ l', granted l' = granted l → released l' = released l → lease_ok l' →
            queue_ok (bulkMax w) (inUse w) (<[id := l']> (leases w)) (waiters w)) as Hset.
  { intros l' Eg Er Hok. replace (inUse w) with (inUse w - b2z (granted l) + b2z (granted l')) by (rewrite Eg; lia).
    eapply queue_ok_settle; [done|done|done|congruence|]. unfold waiting. by rewrite Eg, Er. }
  assert (∀ l', granted l' = granted l → released l' = released l → lease_ok l' →
            window_ok (mkWindow (bulkMax w) (inUse w) (waiters w) (closed w) (<[id := l']> (leases w)))) as Hwin.
  { intros l' Eg Er Hok. split; simpl; [apply Hw|by apply Hset|apply Hw|apply Hw]. }
  destruct d eqn:Ed; unfold d in Ed; simpl.
  - apply andb_true_iff in Ed as [Ed En]. apply negb_true_iff in En. apply orb_true_iff in Ed.
    split.
    + apply Hwin; [done|done|]. split_and!; simpl; auto.
    + eapply log_ok_answer; [done|done|done|done|done|done|]. simpl.
      destruct (granted l); [by apply H1|]. by destruct Ed.
  - rewrite app_nil_r. apply andb_false_iff in Ed. rewrite negb_false_iff, orb_false_iff in Ed.
    assert (granted l = true → notified l = true) as Hgn by (destruct Ed as [[-> _]|?]; congruence).
    split.
    + apply Hwin; [done|done|]. split_and!; simpl; auto.
    + eapply log_ok_quiet; [done|done|done|simpl; congruence| |done].
      simpl. intros Hgr _. assert (id ∈ log.*1) as Hin by (apply (gk_notified _ _ Hg); eauto).
      apply list_elem_of_fmap in Hin as ([j b] & -> & Hin). destruct b; [done|].
      pose proof (gk_refused _ _ Hg _ _ Hin El). rewrite H1 in *; congruence.
Qed.

Lemma release_ok id w log :
  window_ok w → log_ok (leases w) log →
  let '(l, w') := apply_op (Release id) w in window_ok w' ∧ log_ok (leases w') (log ++ l).
Proof.
  intros Hw Hg. pose proof (wk_queue _ Hw) as Hq. simpl. unfold release.
  destruct (leases w !! id) as [l|] eqn:El; [|by rewrite app_nil_r].
  destruct (released l) eqn:Er; [by rewrite app_nil_r|].
  set (l' := ungrant (set_released l)). set (u := if granted l then inUse w - 1 else inUse w).
  assert (queue_ok (bulkMax w) u (<[id := l']> (leases w)) (waiters w)) as Hq'.
  { replace u with (inUse w - b2z (granted l) + b2z (granted l')).
    2:{ unfold u. destruct (granted l); simpl; lia. }
    eapply queue_ok_settle; [done|done| |done|done]. split_and!; simpl; auto. done. }
  assert (log_ok (<[id := l']> (leases w)) log) as Hg'.
  { eapply log_ok_quiet; [done|done|done| |done|congruence]. intros cb. by apply (gk_own _ _ Hg _ l). }
  destruct (closed w) eqn:Ec.
  - simpl. rewrite app_nil_r. split; [|done].
    split; simpl; [apply Hw|done| |by intros; apply (wk_closed _ Hw)].
    intros []. by apply (wk_closed _ Hw).
  - destruct (grant_waiters _ _ _ _ _) as [[[u' ls'] ws'] run'] eqn:E.
    apply (grant_waiters_ok _ _ _ _ _ _ _ _ _ log) in E as (Hq'' & Hg'' & Hf); [|done|by rewrite app_nil_r].
    split; [|done]. split; simpl; [apply Hw|done| |done]. intros Hne. by destruct Hf.
Qed.

Lemma close_ok w log :
  window_ok w → log_ok (leases w) log →
  let '(l, w') := apply_op Close w in window_ok w' ∧ log_ok (leases w') (log ++ l).
Proof.
  intros Hw Hg. simpl. unfold close. destruct (fail_waiters _ _ _) as [ls' run'] eqn:E.
  eapply (fail_waiters_ok _ _ _ _ _ _ _ log) in E as [Hq' Hg'];
    [|apply (wk_queue _ Hw)|by rewrite app_nil_r].
  split; [|done]. split; simpl; [apply Hw|done|done|done].
Qed.

Lemma window_op_ok o w log l w' :
  apply_op o w = (l, w') → window_ok w → log_ok (leases w) log →
  window_ok w' ∧ log_ok (leases w') (log ++ l).
Proof.
  intros E Hw Hg. destruct o as [|id|id|].
  - unfold apply_op in E. rewrite reserveBulkCredit_eq in E by apply Hw. injection E as <- <-.
    rewrite app_nil_r. by apply reserve_ok.
  - pose proof (window_subscribe_ok id w log Hw Hg) as H. by rewrite E in H.
  - pose proof (release_ok id w log Hw Hg) as H. by rewrite E in H.
  - pose proof (close_ok w log Hw Hg) as H. by rewrite E in H.
Qed.

Lemma new_window_ok max : window_ok (newBulkRPCScheduler max) ∧ log_ok [] [].
Proof.
  split.
  - split; simpl; [destruct (Z.leb_spec max 0); lia| |done|done].
    split; simpl; try done; [destruct (Z.leb_spec max 0); lia|constructor|].
    intros id Hin. by apply not_elem_of_nil in Hin.
  - split; try done; simpl; [constructor|].
    intros id. rewrite elem_of_nil. split; [done|]. by intros (? & ? & _).
Qed.

Lemma run_ops_ok ops log w log' w' :
  run_ops ops log w = (log', w') → window_ok w → log_ok (leases w) log →
  window_ok w' ∧ log_ok (leases w') log'.
Proof.
  revert log w. induction ops as [|o ops IH]; intros log w; simpl.
  { by intros [= <- <-]. }
  destruct (apply_op o w) as [l w1] eqn:E. intros Hr Hw Hg.
  destruct (window_op_ok _ _ _ _ _ E Hw Hg). eauto.
Qed.

Lemma run_ops_app ops ops' log w :
  run_ops (ops ++ ops') log w = let '(log, w) := run_ops ops log w in run_ops ops' log w.
Proof.
  revert log w. induction ops as [|o ops IH]; intros log w; simpl; [done|].
  destruct (apply_op o w). apply IH.
Qed.

(** ** What is over stays over *)

Definition is_released (ls : list lease) (id : nat) : Prop := ∃ l, ls !! id = Some l ∧ released l = true.

Lemma is_released_insert ls j l l' id :
  ls !! j = Some l → (released l = true → released l' = true) → is_released ls id → is_released (<[j := l']> ls) id.
Proof.
  intros E Hr (x & Hx & ?). destruct (decide (id = j)) as [->|].
  - exists l'. split; [apply list_lookup_insert_eq; by eapply lookup_lt_Some|]. simplify_eq. auto.
  - exists x. by rewrite list_lookup_insert_ne.
Qed.

Lemma grant_waiters_released max u ls ws run u' ls' ws' run' id :
  grant_waiters max u ls ws run = (u', ls', ws', run') → is_released ls id → is_released ls' id.
Proof.
  revert u ls run. induction ws as [|j ws IH]; intros u ls run; simpl; destruct (u <? max);
    try by intros [= <- <- <- <-].
  destruct (ls !! j) as [l|] eqn:El; [|apply IH]. destruct (released l) eqn:Er; [apply IH|].
  intros E H. destruct (notify l) eqn:Ec; [destruct (notified l) eqn:En|];
    (eapply IH; [exact E|]); (eapply is_released_insert; [exact El| |exact H]); simpl; congruence.
Qed.

Lemma grant_waiters_length max u ls ws run u' ls' ws' run' :
  grant_waiters max u ls ws run = (u', ls', ws', run') → length ls' = length ls.
Proof.
  revert u ls run. induction ws as [|j ws IH]; intros u ls run; simpl; destruct (u <? max);
    try by intros [= <- <- <- <-].
  destruct (ls !! j) as [l|]; [|apply IH]. destruct (released l); [apply IH|].
  destruct (notify l); [destruct (notified l)|]; intros ->%IH; apply length_insert.
Qed.

(** Releasing a lease ends it; no lease is lost or revived. *)
Definition advances (w w' : window) : Prop :=
  length (leases w') = length (leases w) ∧ ∀ j, is_released (leases w) j → is_released (leases w') j.

Lemma release_advances id w :
  advances w (release id w).2 ∧
  ((id < length (leases w))%nat → is_released (leases (release id w).2) id).
Proof.
  unfold advances, release. destruct (leases w !! id) as [l|] eqn:El.
  2:{ split; [done|]. apply lookup_ge_None in El. simpl. lia. }
  destruct (released l) eqn:Er.
  { split; [done|]. intros _. by exists l. }
  set (ls := <[id := ungrant (set_released l)]> (leases w)).
  assert (is_released ls id) as Hid.
  { eexists. split; [apply list_lookup_insert_eq; by eapply lookup_lt_Some|done]. }
  assert (∀ j, is_released (leases w) j → is_released ls j) as Hj.
  { intros j. by eapply is_released_insert. }
  assert (length ls = length (leases w)) as Hlen by apply length_insert.
  destruct (closed w); [done|].
  destruct (grant_waiters _ _ _ _ _) as [[[u' ls'] ws'] run'] eqn:E. simpl.
  rewrite (grant_waiters_length _ _ _ _ _ _ _ _ _ E).
  split; [split; [done|intros j ?%Hj]|intros _]; by eapply grant_waiters_released.
Qed.

(** ** Who is left without an answer *)

(** A subscribed lease that is over and was not told. *)
Definition unanswered (ls : list lease) (id : nat) : Prop :=
  ∃ l, ls !! id = Some l ∧ notify l ≠ None ∧ released l = true ∧ notified l = false.

Lemma unanswered_insert ls j l l' id :
  ls !! j = Some l →
  (notify l' ≠ None → released l' = true → notified l' = false →
     notify l ≠ None ∧ released l = true ∧ notified l = false) →
  unanswered (<[j := l']> ls) id → unanswered ls id.
Proof.
  intros E H (x & Hx & H1 & H2 & H3). apply lookup_insert_cases in Hx as [[-> ->]|[? Hx]].
  - exists l. split; [done|]. auto.
  - by exists x.
Qed.

Lemma grant_waiters_unanswered max u ls ws run u' ls' ws' run' id :
  grant_waiters max u ls ws run = (u', ls', ws', run') → unanswered ls' id → unanswered ls id.
Proof.
  revert u ls run. induction ws as [|j ws IH]; intros u ls run; simpl; destruct (u <? max);
    try by intros [= <- <- <- <-].
  destruct (ls !! j) as [l|] eqn:El; [|apply IH]. destruct (released l) eqn:Er; [apply IH|].
  intros E H. destruct (notify l) eqn:Ec; [destruct (notified l) eqn:En|];
    (eapply IH in E; [|exact H]); (eapply unanswered_insert; [exact El| |exact E]); simpl; congruence.
Qed.

Lemma fail_waiters_unanswered ls ws run ls' run' id :
  fail_waiters ls ws run = (ls', run') → unanswered ls' id → unanswered ls id.
Proof.
  revert ls run. induction ws as [|j ws IH]; intros ls run; simpl.
  { by intros [= <- <-]. }
  destruct (ls !! j) as [l|] eqn:El; [|apply IH]. destruct (released l) eqn:Er; [apply IH|].
  intros E H. destruct (notify l) eqn:Ec; [destruct (notified l) eqn:En|];
    (eapply IH in E; [|exact H]); (eapply unanswered_insert; [exact El| |exact E]); simpl; congruence.
Qed.

Lemma apply_op_unanswered o w l w' id :
  apply_op o w = (l, w') → unanswered (leases w') id → unanswered (leases w) id ∨ o = Release id.
Proof.
  destruct o as [|j|j|]; simpl.
  - intros [= <- <-] (x & Hx & Hn & H2). left. exists x.
    assert (∀ b r, (leases w ++ [mkLease b r false None]) !! id = Some x → leases w !! id = Some x) as Happ.
    { intros b r [H|[_ H]]%lookup_app_Some; [done|].
      apply list_lookup_singleton_Some in H as [_ <-]. done. }
    split; [|done]. unfold reserveBulkCredit, reserve in Hx. simpl in Hx.
    destruct (closed w); [by eapply Happ|]. destruct (_ <? _); by eapply Happ.
  - unfold subscribe. destruct (leases w !! j) as [x|] eqn:Ex; [|intros [= <- <-]; by left].
    intros [= <- <-]. simpl. intros (y & Hy & H1 & H2 & H3). left.
    apply lookup_insert_cases in Hy as [[-> ->]|[? Hy]]; [|by exists y].
    destruct (granted x || released x) eqn:Ed; simpl in *.
    + destruct (notified x) eqn:En; simpl in *; congruence.
    + apply orb_false_iff in Ed as [_ Ed]. congruence.
  - unfold release. destruct (leases w !! j) as [x|] eqn:Ex; [|intros [= <- <-]; by left].
    destruct (released x); [intros [= <- <-]; by left|].
    assert (unanswered (<[j := ungrant (set_released x)]> (leases w)) id →
            unanswered (leases w) id ∨ Release j = Release id) as Hj.
    { intros (y & Hy & Hrest). apply lookup_insert_cases in Hy as [[-> ->]|[? Hy]]; [by right|].
      left. by exists y. }
    destruct (closed w); [by intros [= <- <-]|].
    destruct (grant_waiters _ _ _ _ _) as [[[u' ls'] ws'] run'] eqn:E. intros [= <- <-] H. apply Hj.
    by eapply grant_waiters_unanswered.
  - unfold close. destruct (fail_waiters _ _ _) as [ls' run'] eqn:E. intros [= <- <-] H. left.
    by eapply fail_waiters_unanswered.
Qed.

Lemma run_ops_unanswered ops log w log' w' id :
  run_ops ops log w = (log', w') → unanswered (leases w') id →
  unanswered (leases w) id ∨ Release id ∈ ops.
Proof.
  revert log w. induction ops as [|o ops IH]; intros log w; simpl.
  { intros [= <- <-]. by left. }
  destruct (apply_op o w) as [l w1] eqn:E. intros Hr Hu. rewrite elem_of_cons.
  destruct (IH _ _ Hr Hu) as [H|H]; [|by do 2 right].
  destruct (apply_op_unanswered _ _ _ _ _ E H) as [?| ->]; [by left|by right; left].
Qed.

(** ** What the callbacks are told *)

(** The lease [id] is decided as [b] says: it holds a place, or it is over. *)
Definition decided (ls : list lease) (id : nat) (b : bool) : Prop :=
  ∃ l, ls !! id = Some l ∧ granted l = b ∧ released l = negb b.

Definition own_callbacks (ls : list lease) : Prop := ∀ id l cb, ls !! id = Some l → notify l = Some cb → cb = id.

Lemma own_insert ls j l l' :
  own_callbacks ls → ls !! j = Some l → notify l' = notify l → own_callbacks (<[j := l']> ls).
Proof.
  intros Ho E En id x cb Hx Hc. apply lookup_insert_cases in Hx as [[-> ->]|[? Hx]]; [|by eapply Ho].
  rewrite En in Hc. by eapply Ho.
Qed.

Lemma decided_insert ls j l l' id b :
  ls !! j = Some l → (granted l = b → released l = negb b → granted l' = b ∧ released l' = negb b) →
  decided ls id b → decided (<[j := l']> ls) id b.
Proof.
  intros E H (x & Hx & Hg & Hr). destruct (decide (id = j)) as [->|].
  - exists l'. simplify_eq. split; [apply list_lookup_insert_eq; by eapply lookup_lt_Some | auto].
  - exists x. by rewrite list_lookup_insert_ne.
Qed.

Lemma grant_waiters_told max u ls ws run u' ls' ws' run' :
  grant_waiters max u ls ws run = (u', ls', ws', run') → own_callbacks ls →
  (∀ id, id ∈ run → decided ls id true) → ∀ id, id ∈ run' → decided ls' id true.
Proof.
  revert u ls run. induction ws as [|j ws IH]; intros u ls run; simpl; destruct (u <? max);
    try by intros [= <- <- <- <-].
  destruct (ls !! j) as [l|] eqn:El; [|apply IH]. destruct (released l) eqn:Er; [apply IH|].
  intros E Ho Hrun.
  assert (∀ l', granted l' = true → released l' = false → notify l' = notify l →
    own_callbacks (<[j := l']> ls) ∧ decided (<[j := l']> ls) j true
    ∧ ∀ id, id ∈ run → decided (<[j := l']> ls) id true) as Hstep.
  { intros l' Hg Hr Hn. split_and!; [by eapply own_insert| |].
    - exists l'. split; [apply list_lookup_insert_eq; by eapply lookup_lt_Some | done].
    - intros id Hid. eapply decided_insert; [exact El|auto|auto]. }
  destruct (Hstep (set_granted l) eq_refl Er eq_refl) as (Ho1 & _ & Hall1).
  destruct (Hstep (set_notified (set_granted l)) eq_refl Er eq_refl) as (Ho2 & Hj & Hall2). clear Hstep.
  destruct (notify l) as [cb|] eqn:Ec; [destruct (notified l) eqn:En|]; [by eapply IH| |by eapply IH].
  eapply IH; [exact E|exact Ho2|]. intros id [Hid|Hid%list_elem_of_singleton]%elem_of_app; [by apply Hall2|].
  by rewrite Hid, (Ho _ _ _ El Ec).
Qed.

Lemma fail_waiters_told ls ws run ls' run' :
  fail_waiters ls ws run = (ls', run') → own_callbacks ls →
  (∀ id l, id ∈ ws → ls !! id = Some l → granted l = false) →
  (∀ id, id ∈ run → decided ls id false) → ∀ id, id ∈ run' → decided ls' id false.
Proof.
  revert ls run. induction ws as [|j ws IH]; intros ls run; simpl.
  { by intros [= <- <-]. }
  destruct (ls !! j) as [l|] eqn:El.
  2: { intros E Ho Hg. apply (IH _ _ E Ho). intros id x Hid. apply Hg. by apply list_elem_of_further. }
  destruct (released l) eqn:Er.
  { intros E Ho Hg. apply (IH _ _ E Ho). intros id x Hid. apply Hg. by apply list_elem_of_further. }
  intros E Ho Hg Hrun. pose proof (Hg j l (list_elem_of_here _ _) El) as Hgl.
  assert (∀ l', granted l' = false → released l' = true → notify l' = notify l →
    own_callbacks (<[j := l']> ls) ∧ decided (<[j := l']> ls) j false
    ∧ (∀ id x, id ∈ ws → <[j := l']> ls !! id = Some x → granted x = false)
    ∧ ∀ id, id ∈ run → decided (<[j := l']> ls) id false) as Hstep.
  { intros l' Hg' Hr' Hn. split_and!; [by eapply own_insert| | |].
    - exists l'. split; [apply list_lookup_insert_eq; by eapply lookup_lt_Some | done].
    - intros id x Hid Hx. apply lookup_insert_cases in Hx as [[-> ->]|[? Hx]]; [done|].
      eapply Hg; [by apply list_elem_of_further | exact Hx].
    - intros id Hid. eapply decided_insert; [exact El|auto|auto]. }
  destruct (Hstep (set_released l) Hgl eq_refl eq_refl) as (Ho1 & _ & Hg1 & Hall1).
  destruct (Hstep (set_notified (set_released l)) Hgl eq_refl eq_refl) as (Ho2 & Hj & Hg2 & Hall2). clear Hstep.
  destruct (notify l) as [cb|] eqn:Ec; [destruct (notified l) eqn:En|]; [by eapply IH| |by eapply IH].
  eapply IH; [exact E|exact Ho2|exact Hg2|].
  intros id [Hid|Hid%list_elem_of_singleton]%elem_of_app; [by apply Hall2|].
  by rewrite Hid, (Ho _ _ _ El Ec).
Qed.

Lemma apply_op_told o w log l w' :
  apply_op o w = (l, w') → window_ok w → log_ok (leases w) log →
  ∀ id b, (id, b) ∈ l → decided (leases w') id b.
Proof.
  intros E Hw Hg. pose proof (wk_queue _ Hw) as Hq.
  assert (own_callbacks (leases w)) as Ho by (intros ???; apply (gk_own _ _ Hg)).
  assert (∀ b ids id b', (id, b') ∈ answers b ids → b' = b ∧ id ∈ ids) as Hans.
  { intros b ids id b' (x & [= -> ->] & Hx)%list_elem_of_fmap. done. }
  destruct o as [|j|j|]; simpl in E.
  - injection E as <- <-. intros id b Hin%not_elem_of_nil. done.
  - unfold subscribe in E. destruct (leases w !! j) as [x|] eqn:Ex;
      [|injection E as <- <-; by intros id b ?%not_elem_of_nil].
    destruct ((granted x || released x) && negb (notified x)) eqn:Ed; injection E as <- <-;
      [|by intros id b ?%not_elem_of_nil].
    intros id b [= -> ->]%list_elem_of_singleton. eexists. split.
    { apply list_lookup_insert_eq. by eapply lookup_lt_Some. }
    cbn. split; [done|]. destruct (qk_leases _ _ _ _ Hq _ _ Ex) as (H1 & _).
    apply andb_true_iff in Ed as [Ed _]. destruct (granted x); [by apply H1 | by destruct (released x)].
  - unfold release in E. destruct (leases w !! j) as [x|] eqn:Ex;
      [|injection E as <- <-; by intros id b ?%not_elem_of_nil].
    destruct (released x); [injection E as <- <-; by intros id b ?%not_elem_of_nil|].
    destruct (closed w); [injection E as <- <-; by intros id b ?%not_elem_of_nil|].
    destruct (grant_waiters _ _ _ _ _) as [[[u' ls'] ws'] run'] eqn:Egr. injection E as <- <-.
    intros id b [-> Hin]%Hans. cbn. revert id Hin. eapply grant_waiters_told; [exact Egr| |].
    + eapply own_insert; [done|exact Ex|done].
    + by intros id ?%not_elem_of_nil.
  - unfold close in E. destruct (fail_waiters _ _ _) as [ls' run'] eqn:Ef. injection E as <- <-.
    intros id b [-> Hin]%Hans. cbn. revert id Hin. eapply fail_waiters_told; [exact Ef|exact Ho| |].
    + intros id x Hid Hx. destruct (qk_waiters _ _ _ _ Hq id Hid) as (y & Hy & ?). congruence.
    + by intros id ?%not_elem_of_nil.
Qed.

(** ** After the end *)

Lemma apply_op_closed o w : closed w = true → closed (apply_op o w).2 = true.
Proof.
  intros Hc. destruct o as [|j|j|]; simpl.
  - unfold reserveBulkCredit, reserve. cbn. by rewrite Hc.
  - unfold subscribe. by destruct (leases w !! j).
  - unfold release. destruct (leases w !! j) as [x|]; [|done]. destruct (released x); [done|]. by rewrite Hc.
  - unfold close. by destruct (fail_waiters _ _ _).
Qed.

Lemma close_closed w : closed (apply_op Close w).2 = true.
Proof. simpl. unfold close. by destruct (fail_waiters _ _ _). Qed.

Lemma fail_waiters_released ls ws run ls' run' id :
  fail_waiters ls ws run = (ls', run') → is_released ls id → is_released ls' id.
Proof.
  revert ls run. induction ws as [|j ws IH]; intros ls run; simpl; [by intros [= <- <-]|].
  destruct (ls !! j) as [l|] eqn:El; [|apply IH]. destruct (released l) eqn:Er; [apply IH|].
  intros E H. destruct (notify l); [destruct (notified l)|];
    (eapply IH; [exact E|]); (eapply is_released_insert; [exact El| |exact H]); done.
Qed.

Lemma close_length w : length (leases (apply_op Close w).2) = length (leases w).
Proof.
  simpl. unfold close. assert (∀ ws ls run, length (fail_waiters ls ws run).1 = length ls) as Hlen.
  { intros ws. induction ws as [|j ws IH]; intros ls run; simpl; [done|].
    destruct (ls !! j) as [l|]; [|apply IH]. destruct (released l); [apply IH|].
    destruct (notify l); [destruct (notified l)|]; rewrite IH; apply length_insert. }
  specialize (Hlen (waiters w) (leases w) []). by destruct (fail_waiters _ _ _).
Qed.

(** On a closed window a lease that is over or yet to come will be over. *)
Definition over (w : window) (id : nat) : Prop :=
  closed w = true ∧ ((length (leases w) ≤ id)%nat ∨ is_released (leases w) id).

Lemma apply_op_over o w id : over w id → over (apply_op o w).2 id.
Proof.
  intros [Hc Hid]. split; [by apply apply_op_closed|]. destruct o as [|j|j|]; simpl.
  - unfold reserveBulkCredit, reserve. cbn. rewrite Hc. cbn. rewrite length_app. cbn [length].
    destruct Hid as [Hle|(x & Hx & Hr)].
    + destruct (decide (id = length (leases w))) as [->|]; [|left; lia].
      right. eexists. split; [by apply list_lookup_middle | done].
    + right. exists x. split; [by apply lookup_app_l_Some | done].
  - unfold subscribe. destruct (leases w !! j) as [x|] eqn:Ex; [|done]. cbn.
    destruct Hid as [Hle|Hr]; [left; by rewrite length_insert|]. right.
    eapply is_released_insert; [exact Ex| |exact Hr]. by destruct (_ && _).
  - destruct (release_advances j w) as [[Hlen Hadv] _]. rewrite Hlen.
    destruct Hid as [|Hr]; [by left|]. right. by apply Hadv.
  - change (close w) with (apply_op Close w). destruct Hid as [Hle|Hr]; [left; by rewrite (close_length w)|]. right.
    simpl. unfold close. destruct (fail_waiters _ _ _) as [ls' run'] eqn:E. by eapply fail_waiters_released.
Qed.

Lemma run_ops_over ops log w log' w' id :
  run_ops ops log w = (log', w') → over w id → over w' id.
Proof.
  revert log w. induction ops as [|o ops IH]; intros log w; simpl; [by intros [= <- <-]|].
  pose proof (apply_op_over o w id) as Ho. destruct (apply_op o w) as [l w1]. intros Hr Hover.
  eapply IH; [exact Hr | by apply Ho].
Qed.

(** * Theorems *)

(** C18: In any history of a window - the acknowledgement window of a session or
    the handler slots of the process - the places in use are those of the leases
    that hold one, never more than the limit; a lease waits only while every
    place is taken, and nobody who came later holds a place before it; a lease
    that holds a place was told so, if it asked.  Every callback is run at most
    once and truthfully: with [true] for a lease that holds a place when its
    callback is run, with [false] for one that is over without one. *)
Theorem window_is_bounded_and_fair (max : Z) (ops : list op) :
  let '(log, w) := run_ops ops [] (newBulkRPCScheduler max) in
  inUse w = granted_count (leases w)
  ∧ 0 ≤ inUse w ≤ bulkMax w
  ∧ NoDup log.*1
  ∧ (∀ id l, leases w !! id = Some l → waiting l = true →
       inUse w = bulkMax w ∧ closed w = false
       ∧ ∀ id' l', (id < id')%nat → leases w !! id' = Some l' → granted l' = false)
  ∧ (∀ id l, leases w !! id = Some l → granted l = true →
       ¬ ((id, false) ∈ log) ∧ (notify l ≠ None → (id, true) ∈ log))
  ∧ ∀ o, let '(told, w') := apply_op o w in
      ∀ id b, (id, b) ∈ told →
        (id ∉ log.*1) ∧ ∃ l, leases w' !! id = Some l ∧ granted l = b ∧ released l = negb b.
Proof.
  destruct (run_ops ops [] _) as [log w] eqn:E.
  destruct (run_ops_ok _ _ _ _ _ E) as [Hw Hg]; [apply (new_window_ok max)..|].
  pose proof (wk_queue _ Hw) as Hq. split_and!.
  - apply (qk_count _ _ _ _ Hq).
  - rewrite (qk_count _ _ _ _ Hq). apply granted_count_nonneg.
  - apply (qk_limit _ _ _ _ Hq).
  - apply (gk_once _ _ Hg).
  - intros id l Hl Hwt. pose proof (qk_waiting _ _ _ _ Hq _ _ Hl Hwt) as Hin. split_and!.
    + apply (wk_full _ Hw). intros Hnil. rewrite Hnil in Hin. by apply not_elem_of_nil in Hin.
    + destruct (closed w) eqn:Ec; [|done]. rewrite (wk_closed _ Hw Ec) in Hin.
      by apply not_elem_of_nil in Hin.
    + intros id' l' Hlt Hl'. by eapply (qk_fifo _ _ _ _ Hq id id').
  - intros id l Hl Hgr. destruct (qk_leases _ _ _ _ Hq _ _ Hl) as (H1 & _). split.
    + intros Hin. pose proof (gk_refused _ _ Hg _ _ Hin Hl). rewrite H1 in *; congruence.
    + by apply (gk_granted _ _ Hg).
  - intros o. destruct (apply_op o w) as [told w'] eqn:Eo. intros id b Hin.
    split; [|by eapply apply_op_told]. destruct (window_op_ok _ _ _ _ _ Eo Hw Hg) as [_ Hg'].
    pose proof (gk_once _ _ Hg') as Hnd. rewrite fmap_app in Hnd. apply NoDup_app in Hnd as (_ & Hno & _).
    intros Hlog. apply (Hno id Hlog). apply list_elem_of_fmap. by exists (id, b).
Qed.

(** C19: Nobody waits for ever: from the moment a window is closed on, whatever
    is done with it, no lease waits, every lease that was subscribed and not
    released by its own holder has been answered, and a lease that is reserved
    later is over at once. *)
Theorem closed_window_answers_everyone (max : Z) (ops later : list op) (id : nat) (l : lease)
    (log : list (nat * bool)) (w : window)
    (Hrun : run_ops (ops ++ Close :: later) [] (newBulkRPCScheduler max) = (log, w))
    (Hl : leases w !! id = Some l) :
  waiting l = false
  ∧ ((length (leases (run_ops ops [] (newBulkRPCScheduler max)).2) ≤ id)%nat → released l = true)
  ∧ (notify l ≠ None → Release id ∉ ops ++ later → ∃ b, (id, b) ∈ log ∧ (b = false → released l = true)).
Proof.
  destruct (run_ops_ok _ _ _ _ _ Hrun) as [Hw Hg]; [apply (new_window_ok max)..|].
  pose proof Hrun as Hrun'. rewrite run_ops_app in Hrun'.
  destruct (run_ops ops [] _) as [log1 w1]. cbn [run_ops snd] in Hrun' |- *.
  pose proof (close_closed w1) as Hc1. pose proof (close_length w1) as Hlen1.
  destruct (apply_op Close w1) as [told w2]. cbn [snd] in Hc1, Hlen1.
  assert (closed w = true) as Hc.
  { apply (run_ops_over _ _ _ _ _ (length (leases w2)) Hrun'). split; [done | by left]. }
  assert (waiting l = false) as Hwt.
  { destruct (waiting l) eqn:Ewt; [|done].
    pose proof (qk_waiting _ _ _ _ (wk_queue _ Hw) _ _ Hl Ewt) as Hin.
    rewrite (wk_closed _ Hw Hc) in Hin. by apply not_elem_of_nil in Hin. }
  split_and!; [done| |].
  { intros Hid. destruct (run_ops_over _ _ _ _ _ id Hrun') as [_ [Hle|(x & Hx & Hr)]].
    - split; [done | left; lia].
    - apply lookup_lt_Some in Hl. lia.
    - congruence. }
  intros Hsub Hown. assert (notified l = true) as Hn.
  { destruct (notified l) eqn:En; [done|]. exfalso.
    destruct (qk_leases _ _ _ _ (wk_queue _ Hw) _ _ Hl) as (_ & _ & H3).
    assert (granted l = false) as Hgr.
    { destruct (granted l); [|done]. specialize (H3 eq_refl Hsub). congruence. }
    assert (released l = true) as Hr.
    { unfold waiting in Hwt. rewrite Hgr in Hwt. simpl in Hwt. by apply negb_false_iff. }
    destruct (run_ops_unanswered _ _ _ _ _ id Hrun) as [(? & ? & _)|Hin]; [by exists l|done|].
    apply Hown. rewrite elem_of_app, elem_of_cons in Hin. rewrite elem_of_app. by destruct Hin as [|[|]]; auto. }
  assert (id ∈ log.*1) as Hin by (apply (gk_notified _ _ Hg); eauto).
  apply list_elem_of_fmap in Hin as ([j b] & -> & Hin). exists b. split; [done|].
  intros ->. by eapply (gk_refused _ _ Hg).
Qed.

(** Two requests on a window of one place. *)
Example window_of_one :
  run_ops [Reserve; Reserve; Reserve; Subscribe 0; Subscribe 1; Subscribe 2; Release 0; Close] []
    (newBulkRPCScheduler 1)
  = ([(0, true); (1, true); (2, false)]%nat,
     mkWindow 1 1 [] true
       [mkLease false true true (Some 0%nat); mkLease true false true (Some 1%nat);
        mkLease false true true (Some 2%nat)]).
Proof. reflexivity. Qed.

(** One more request comes after the end. *)
Lemma closed_window_answers_everyone_witness :
  ∃ b, (3%nat, b) ∈ [(0%nat, true); (1%nat, true); (2%nat, false); (3%nat, false)].
Proof.
  destruct (closed_window_answers_everyone 1
    [Reserve; Reserve; Reserve; Subscribe 0; Subscribe 1; Subscribe 2; Release 0] [Reserve; Subscribe 3] 3
    (mkLease false true true (Some 3%nat))
    [(0%nat, true); (1%nat, true); (2%nat, false); (3%nat, false)]
    (mkWindow 1 1 [] true
       [mkLease false true true (Some 0%nat); mkLease true false true (Some 1%nat);
        mkLease false true true (Some 2%nat); mkLease false true true (Some 3%nat)])) as (_ & _ & Ha).
  - reflexivity.
  - reflexivity.
  - destruct Ha as (b & Hb & _).
    + discriminate.
    + apply (bool_decide_unpack _). vm_compute. exact I.
    + exists b. exact Hb.
Defined.
