(* ===== verification/Outbox.v ===== *)
(** The logical outbox: what the server keeps of a session until the client has
    acknowledged it ([outboundState], [outboundFrame], [encodedOutboundMessage] and
    the handlers of the outbound actor in [internal/mtprotoedge/outbound.go], the
    layer check of [layer_updates.go]).

    The actor runs one operation at a time under the lock of the session, so a
    handler is one transition of [outWorld], which holds the outbox, the
    session's window of bulk credits, the byte budgets of the process, the
    deliveries of RPC results, the frames that reached the wire and the
    callbacks of credits that were run.  A pointer to a budget, a credit or a
    delivery is a number, [None] is nil.  Frames live in [pending] only; the
    physical copies of a frame are values.  What the environment decides -
    message ids proposed by the clock, outcomes of writes, bytes rebuilt by a
    replay source - comes with each operation as an [environment].

    The caller's own pointer to a sent message, whose body is dropped when the
    frame is compacted, is not part of the state.
    Not modelled: the operation that carries an unencoded message through the
    queue (no producer makes one), logging and metrics, the pool of scratch
    buffers. *)

From S2P Require Import Prelude CreditWindow.
From S2P Require FrameBudget.

Open Scope Z_scope.

#[local] Set Default Proof Using "Type".

(** * Data *)

(** The constructors of MTProto service messages that the code tells apart. *)
Inductive typeID :=
  | MsgsAckTypeID | PongTypeID | FutureSaltsTypeID | BadMsgNotificationTypeID | BadServerSaltTypeID
  | MsgsStateInfoTypeID | MsgsAllInfoTypeID | MsgDetailedInfoTypeID | MsgNewDetailedInfoTypeID
  | MessageContainerTypeID | NewSessionCreatedTypeID | DestroySessionOkTypeID | DestroySessionNoneTypeID
  | RPCAnswerUnknownTypeID | RPCAnswerDroppedRunningTypeID | RPCAnswerDroppedTypeID
  | ResultTypeID | OtherTypeID (id : Z).

#[export] Instance typeID_eq_dec : EqDecision typeID.
Proof. solve_decision. Defined.

Definition frameNeedsAck (t : typeID) : bool :=
  match t with
  | MsgsAckTypeID | PongTypeID | FutureSaltsTypeID | BadMsgNotificationTypeID | BadServerSaltTypeID
  | MsgsStateInfoTypeID | MsgsAllInfoTypeID | MsgDetailedInfoTypeID | MsgNewDetailedInfoTypeID
  | MessageContainerTypeID => false
  | _ => true
  end.

Definition encodedControlFrame (t : typeID) : bool :=
  match t with
  | MsgsAckTypeID | PongTypeID | FutureSaltsTypeID | BadMsgNotificationTypeID | BadServerSaltTypeID
  | MsgsStateInfoTypeID | MsgsAllInfoTypeID | MsgDetailedInfoTypeID | MsgNewDetailedInfoTypeID
  | NewSessionCreatedTypeID | DestroySessionOkTypeID | DestroySessionNoneTypeID
  | RPCAnswerUnknownTypeID | RPCAnswerDroppedRunningTypeID | RPCAnswerDroppedTypeID => true
  | _ => false
  end.

Inductive outboundPriority :=
  | outboundPriorityNormal | outboundPriorityCritical | outboundPriorityBulk | outboundPriorityControl.

#[export] Instance outboundPriority_eq_dec : EqDecision outboundPriority.
Proof. solve_decision. Defined.

Inductive outbound_error :=
  | ErrConnClosed | ErrOutboundTrackedBudget | ErrOutboundMessageTooLarge | ErrOutboundLayerBindingRequired
  | ErrOutboundLayerProfileUnknown | ErrOutboundLayerProfileStale | ErrOutboundLayerProfileMismatch
  | ErrDuplicateMsgID | ErrInvalidRetarget | ErrNotMaterializable | ErrReplaySource | ErrEncode
  | ErrContext | ErrWrite.

#[export] Instance outbound_error_eq_dec : EqDecision outbound_error.
Proof. solve_decision. Defined.

Inductive outboundLayerBindingKind := outboundLayerBindingSession | outboundLayerBindingRequest.

#[export] Instance outboundLayerBindingKind_eq_dec : EqDecision outboundLayerBindingKind.
Proof. solve_decision. Defined.

Record outboundLayerBinding := mkBinding {
  lb_profile : Z;
  lb_wireInvariant : bool;
  lb_kind : outboundLayerBindingKind;
  lb_epoch : Z;
}.

(** What [LayerProfileState] answers; [origin_known] is [Origin ≠ LayerProfileUnknown]. *)
Record LayerProfileState := mkProfile { origin_known : bool; ps_Profile : Z; ps_Epoch : Z }.

(** A budget of bytes; reservations are non-negative, so [used] stays in range. *)
Record trackedBudget := mkTracked { tb_maxBytes : Z; tb_used : Z }.

(** [rpcResultDelivery] as far as the actor uses it. *)
Record rpcResultDelivery := mkDelivery { writing : bool; targetReqMsgID : Z; writtenReqMsgID : Z }.

Definition maxTrackedServerMsgIDs : Z := 4096.
Definition maxTrackedAckedMsgIDs : nat := 1024.
Definition maxTrackedServerBytes : Z := 67108864.
Definition maxOutboundBodyBytes : Z := FrameBudget.maxTransportMessageSize - 2048.
Definition bulkOutboundThreshold : Z := 65536.
Definition outboundReplayDescriptorCharge : Z := 1024.
Definition msgStateReceived : Z := 4.

Definition wrap32 (z : Z) : Z := (z + 2147483648) mod 4294967296 - 2147483648.

Section Data.
Context {Src : Type}.

Record encodedOutboundMessage := mkEncoded {
  e_body : list Z;
  e_typeID : typeID;
  e_reqMsgID : Z;
  e_priority : outboundPriority;
  e_delivery : option nat;
  e_layerInvariant : bool;
  e_layer : option outboundLayerBinding;
  e_compressed : bool;
  e_uncompressedBytes : Z;
  e_replaySource : option Src;
  e_innerDigest : list Z;
  e_logicalBytes : Z;
  e_bulkCredit : option nat;
  e_replayMsgID : Z;
  e_replaySeqNo : Z;
}.

Record outboundFrame := mkFrame {
  msgID : Z;
  seqNo : Z;
  f_typeID : typeID;
  body : list Z;
  reservedBytes : Z;
  reservationBudget : option nat;
  reqMsgID : Z;
  priority : outboundPriority;
  delivery : option nat;
  compressed : bool;
  uncompressedBytes : Z;
  replaySource : option Src;
  innerDigest : list Z;
  logicalBytes : Z;
  bulkCredit : option nat;
  layer : option outboundLayerBinding;
  layerInvariant : bool;
  sentAt : option Z;
  sends : Z;
}.

Record outboundState := mkBox {
  pending : gmap Z outboundFrame;
  order : list Z;
  byRequest : gmap Z Z;
  acked : gset Z;
  ackOrder : list Z;
  ackOrderHead : nat;
  totalBytes : Z;
  maxMessages : Z;
  maxBytes : Z;
  sbudget : option nat;
  sentContentMessages : Z;
  lastMsgID : Z;
}.

Record outWorld := mkOut {
  box : outboundState;
  bulk : window;
  budgets : gmap nat trackedBudget;
  deliveries : gmap nat rpcResultDelivery;
  wire : list outboundFrame;
  told : list (nat * bool);
  retired : bool;
}.

Record outboundAcknowledgement := mkAck { a_reqMsgID : Z; a_bytes : Z; a_sentAt : option Z }.

Inductive outboundOpKind := outboundSend | outboundAck | outboundQueryState | outboundResend | outboundResendByRequest.

Record outboundOp := mkOp {
  op_kind : outboundOpKind;
  op_control : bool;
  op_priority : outboundPriority;
  op_encoded : option encodedOutboundMessage;
  op_reservedBytes : Z;
  op_reservationBudget : option nat;
  op_ids : list Z;
  op_reqMsgID : Z;
}.

Record outboundResult := mkResult { info : list Z; resent : bool; r_err : option outbound_error }.

(** A write puts the frame on the wire, fails before any byte was sent, or is
    refused or broken in a way that retires the connection: the key has expired,
    or part of the frame was sent. *)
Inductive write_outcome := WriteOK | WriteRefused (e : outbound_error) | WriteFenced (e : outbound_error).

(** The budgets of a connection. *)
Record connBudgets := mkConn {
  outboundTrackedBudget : nat;
  outboundControlTrackedBudget : nat;
  outboundCriticalTrackedBudget : nat;
}.

(** What the environment decides during one operation: [write_to i] and
    [encode_slot i] belong to the [i]-th frame that the operation writes. *)
Record environment := mkEnv {
  authKeyUnavailable : bool;
  conn : connBudgets;
  profile : LayerProfileState;
  new_msgID : Z;
  write_to : nat → write_outcome;
  encode_slot : nat → option outbound_error;
  now : Z;
}.
End Data.

Arguments encodedOutboundMessage : clear implicits.
Arguments outboundFrame : clear implicits.
Arguments outboundState : clear implicits.
Arguments outWorld : clear implicits.
Arguments outboundOp : clear implicits.

(** [rpcresult.ReplaySource]; a call at a given [moment] may fail. *)
Class ReplaySource (Src : Type) := {
  EncodeInner : Src → nat → option (list Z);
  RetainedBytes : Src → Z;
}.

Section Outbox.
Context {Src : Type} `{!ReplaySource Src} (sha256 : list Z → list Z) (rpc_result_id : Z).

Abbreviation encoded := (encodedOutboundMessage Src).
Abbreviation frame := (outboundFrame Src).
Abbreviation state := (outboundState Src).
Abbreviation world := (outWorld Src).
Abbreviation M := (GoM world).

(** ** Field updates *)

Definition set_pending (p : gmap Z frame) (s : state) : state :=
  mkBox p (order s) (byRequest s) (acked s) (ackOrder s) (ackOrderHead s) (totalBytes s) (maxMessages s)
    (maxBytes s) (sbudget s) (sentContentMessages s) (lastMsgID s).

Definition set_box (b : state) (w : world) : world :=
  mkOut b (bulk w) (budgets w) (deliveries w) (wire w) (told w) (retired w).
Definition set_budgets (bs : gmap nat trackedBudget) (w : world) : world :=
  mkOut (box w) (bulk w) bs (deliveries w) (wire w) (told w) (retired w).
Definition set_bulk (b : window) (run : list (nat * bool)) (w : world) : world :=
  mkOut (box w) b (budgets w) (deliveries w) (wire w) (told w ++ run) (retired w).
Definition set_deliveries (d : gmap nat rpcResultDelivery) (w : world) : world :=
  mkOut (box w) (bulk w) (budgets w) d (wire w) (told w) (retired w).
Definition add_wire (f : frame) (w : world) : world :=
  mkOut (box w) (bulk w) (budgets w) (deliveries w) (wire w ++ [f]) (told w) (retired w).
Definition retire (w : world) : world :=
  mkOut (box w) (bulk w) (budgets w) (deliveries w) (wire w) (told w) true.

Definition set_body (b : list Z) (f : frame) : frame :=
  mkFrame (msgID f) (seqNo f) (f_typeID f) b (reservedBytes f) (reservationBudget f) (reqMsgID f) (priority f)
    (delivery f) (compressed f) (uncompressedBytes f) (replaySource f) (innerDigest f) (logicalBytes f)
    (bulkCredit f) (layer f) (layerInvariant f) (sentAt f) (sends f).
Definition set_reservation (n : Z) (b : option nat) (f : frame) : frame :=
  mkFrame (msgID f) (seqNo f) (f_typeID f) (body f) n b (reqMsgID f) (priority f)
    (delivery f) (compressed f) (uncompressedBytes f) (replaySource f) (innerDigest f) (logicalBytes f)
    (bulkCredit f) (layer f) (layerInvariant f) (sentAt f) (sends f).
Definition set_sent (at_ : option Z) (n : Z) (f : frame) : frame :=
  mkFrame (msgID f) (seqNo f) (f_typeID f) (body f) (reservedBytes f) (reservationBudget f) (reqMsgID f)
    (priority f) (delivery f) (compressed f) (uncompressedBytes f) (replaySource f) (innerDigest f)
    (logicalBytes f) (bulkCredit f) (layer f) (layerInvariant f) at_ n.
Definition blen (b : list Z) : Z := Z.of_nat (length b).

(** ** Budgets *)

Definition reserve_bytes (b : option nat) (n : Z) : M bool := λ w,
  if n <=? 0 then Some (true, w)
  else match b ≫= (budgets w !!.) with
       | None => Some (false, w)
       | Some tb =>
           if tb_maxBytes tb <? n then Some (false, w)
           else if tb_maxBytes tb - n <? tb_used tb then Some (false, w)
           else Some (true, set_budgets (partial_alter (λ _, Some (mkTracked (tb_maxBytes tb) (tb_used tb + n)))
                                           (default 0%nat b) (budgets w)) w)
       end.

(** [outboundTrackedBudget.release]; the wake-up of waiting writers is not state
    of the outbox. *)
Definition release_bytes (b : option nat) (n : Z) : M () := λ w,
  if n <=? 0 then Some (tt, w)
  else match b ≫= (budgets w !!.) with
       | None => Some (tt, w)
       | Some tb =>
           if tb_used tb - n <? 0 then None
           else Some (tt, set_budgets (partial_alter (λ _, Some (mkTracked (tb_maxBytes tb) (tb_used tb - n)))
                                         (default 0%nat b) (budgets w)) w)
       end.

(** [credit.release()]; the callbacks run under the lock of the session. *)
Definition release_credit (c : option nat) : M () := λ w,
  match c with
  | None => Some (tt, w)
  | Some id => let '(run, b) := CreditWindow.release id (bulk w) in Some (tt, set_bulk b run w)
  end.

Definition releaseBulkCredit (e : encoded) : M () := release_credit (e_bulkCredit e).

(** ** Frames *)

Definition logicalSize (f : frame) : Z :=
  if 0 <? logicalBytes f then logicalBytes f else blen (body f).

Definition wireSize (e : encoded) : Z :=
  if 0 <? e_logicalBytes e then e_logicalBytes e else blen (e_body e).

(** Little-endian numbers of eight bytes, read as [int64]. *)
Fixpoint le_value (bs : list Z) : Z :=
  match bs with [] => 0 | b :: bs => b + 256 * le_value bs end.

Definition int64_at (bs : list Z) (i : nat) : Z := wrap64 (le_value (take 8 (drop i bs))).

Definition put_int64 (bs : list Z) (i : nat) (z : Z) : list Z :=
  take i bs ++ le_bytes 8 z ++ drop (i + 8) bs.

Definition materializeRPCResultBody (e : encoded) (req : Z) (moment : nat) : res outbound_error (list Z) :=
  if negb (bool_decide (e_typeID e = ResultTypeID)) || (req =? 0) then ERR ErrInvalidRetarget
  else if 12 <=? blen (e_body e) then
    OK (if int64_at (e_body e) 4 =? req then e_body e else put_int64 (e_body e) 4 req)
  else match e_replaySource e with
       | None => ERR ErrNotMaterializable
       | Some src =>
           if e_compressed e then ERR ErrNotMaterializable
           else match EncodeInner src moment with
                | None => ERR ErrReplaySource
                | Some inner =>
                    if negb (blen inner =? e_uncompressedBytes e)
                       || negb (bool_decide (sha256 inner = e_innerDigest e)) then ERR ErrReplaySource
                    else
                      let b := le_bytes 4 rpc_result_id ++ le_bytes 8 req ++ inner in
                      if (0 <? e_logicalBytes e) && negb (blen b =? e_logicalBytes e) then ERR ErrReplaySource
                      else OK b
                end
       end.

(** [outboundFrame.materialized]. *)
Definition materialized (f : frame) (moment : nat) : res outbound_error frame :=
  if 0 <? blen (body f) then OK f
  else
    b ← materializeRPCResultBody
          (mkEncoded [] (f_typeID f) (reqMsgID f) outboundPriorityNormal None false None (compressed f)
             (uncompressedBytes f) (replaySource f) (innerDigest f) (logicalBytes f) None 0 0)
          (reqMsgID f) moment;
    OK (set_body b f).

(** [cloneRPCResultForRequest] with [shareDelivery], as the actor calls it. *)
Definition cloneRPCResultForRequest (e : encoded) (req : Z) (moment : nat) : res outbound_error encoded :=
  if negb (bool_decide (e_typeID e = ResultTypeID)) || (req =? 0) then ERR ErrInvalidRetarget
  else
    b ← materializeRPCResultBody e req moment;
    OK (mkEncoded b (e_typeID e) req (e_priority e) (e_delivery e) (e_layerInvariant e) (e_layer e)
          (e_compressed e) (e_uncompressedBytes e) (e_replaySource e) (e_innerDigest e) (e_logicalBytes e)
          None
          (if req =? e_reqMsgID e then e_replayMsgID e else 0)
          (if req =? e_reqMsgID e then e_replaySeqNo e else 0)).

(** ** The outbox *)

Definition newOutboundStateWithLimits (b : option nat) (maxMessages maxBytes : Z) : state :=
  mkBox ∅ [] ∅ ∅ [] 0 0 maxMessages maxBytes b 0 0.

Definition newOutboundState (b : option nat) : state :=
  newOutboundStateWithLimits b maxTrackedServerMsgIDs maxTrackedServerBytes.

Definition insertReserved (f : frame) : M () := λ w,
  let s := box w in
  match pending s !! msgID f with
  | Some _ => None
  | None =>
      Some (tt, set_box
        (mkBox (<[msgID f := f]> (pending s)) (order s ++ [msgID f])
           (if negb (reqMsgID f =? 0) then <[reqMsgID f := msgID f]> (byRequest s) else byRequest s)
           (acked s) (ackOrder s) (ackOrderHead s)
           (totalBytes s + logicalSize f) (maxMessages s) (maxBytes s) (sbudget s)
           (if frameNeedsAck (f_typeID f) then wrap32 (sentContentMessages s + 1) else sentContentMessages s)
           (lastMsgID s)) w)
  end.

Definition admitReserved (f : frame) : M (option outbound_error) :=
  s ← gets box;
  match pending s !! msgID f with
  | Some _ => mret (Some ErrDuplicateMsgID)
  | None =>
      let n := logicalSize f in
      if (maxMessages s <=? Z.of_nat (size (pending s))) || (maxBytes s <? n) || (maxBytes s - n <? totalBytes s) then
        mret (Some ErrOutboundTrackedBudget)
      else insertReserved f ;; mret None
  end.

(** The pending frame [id] is changed in place. *)
Definition update_frame (id : Z) (g : frame → frame) : M () :=
  modify (λ w, set_box (set_pending (alter g id (pending (box w))) (box w)) w).

Definition compactImmutableFrame (id : Z) : M bool :=
  s ← gets box;
  match pending s !! id with
  | None => mret false
  | Some f =>
      match replaySource f with
      | None => mret false
      | Some src =>
          if (blen (body f) =? 0) || compressed f then mret false
          else
            let charge := Z.max outboundReplayDescriptorCharge (RetainedBytes src) in
            if (charge <=? 0) || (reservedBytes f <=? charge) then mret false
            else
              let b := match reservationBudget f with Some b => Some b | None => sbudget s end in
              update_frame id (λ f, set_reservation charge (reservationBudget f) (set_body [] f)) ;;
              release_bytes b (reservedBytes f - charge) ;;
              mret true
      end
  end.

Definition releaseReservation (f : frame) (dflt : option nat) : M () :=
  if reservedBytes f <=? 0 then mret tt
  else release_bytes (match reservationBudget f with Some b => Some b | None => dflt end) (reservedBytes f).

Definition removePending (id : Z) : M bool :=
  s ← gets box;
  match pending s !! id with
  | None => mret false
  | Some f =>
      let byRequest' :=
        if negb (reqMsgID f =? 0) && bool_decide (byRequest s !! reqMsgID f = Some id)
        then delete (reqMsgID f) (byRequest s) else byRequest s in
      modify (set_box (mkBox (delete id (pending s)) (order s) byRequest' (acked s) (ackOrder s)
        (ackOrderHead s) (totalBytes s - logicalSize f) (maxMessages s) (maxBytes s) (sbudget s)
        (sentContentMessages s) (lastMsgID s))) ;;
      release_credit (bulkCredit f) ;;
      releaseReservation f (sbudget s) ;;
      mret true
  end.

(** The ring of the last acknowledged ids. *)
Definition markAcked (id : Z) (s : state) : state :=
  if bool_decide (id ∈ acked s) then s
  else
    if (length (ackOrder s) <? maxTrackedAckedMsgIDs)%nat then
      mkBox (pending s) (order s) (byRequest s) ({[id]} ∪ acked s) (ackOrder s ++ [id]) (ackOrderHead s)
        (totalBytes s) (maxMessages s) (maxBytes s) (sbudget s) (sentContentMessages s) (lastMsgID s)
    else
      let oldest := default 0 (ackOrder s !! ackOrderHead s) in
      mkBox (pending s) (order s) (byRequest s) (({[id]} ∪ acked s) ∖ {[oldest]})
        (<[ackOrderHead s := id]> (ackOrder s))
        ((ackOrderHead s + 1) mod length (ackOrder s))
        (totalBytes s) (maxMessages s) (maxBytes s) (sbudget s) (sentContentMessages s) (lastMsgID s).

Definition compactOrder (s : state) : state :=
  mkBox (pending s) (filter (λ id, is_Some (pending s !! id)) (order s)) (byRequest s) (acked s) (ackOrder s)
    (ackOrderHead s) (totalBytes s) (maxMessages s) (maxBytes s) (sbudget s) (sentContentMessages s)
    (lastMsgID s).

Fixpoint ack_loop (ids : list Z) : M (list outboundAcknowledgement) :=
  match ids with
  | [] => mret []
  | id :: ids =>
      s ← gets box;
      match pending s !! id with
      | None => ack_loop ids
      | Some f =>
          let detail := mkAck (reqMsgID f) (logicalSize f) (sentAt f) in
          ok ← removePending id;
          if ok : bool then
            modify (λ w, set_box (markAcked id (box w)) w) ;;
            rest ← ack_loop ids;
            mret (detail :: rest)
          else ack_loop ids
      end
  end.

Definition ackWithDetails (ids : list Z) : M (list outboundAcknowledgement) :=
  out ← ack_loop ids;
  modify (λ w, if maxMessages (box w) * 2 <? Z.of_nat (length (order (box w)))
               then set_box (compactOrder (box w)) w else w) ;;
  mret out.

Definition isKnown (s : state) (id : Z) : bool :=
  bool_decide (is_Some (pending s !! id)) || bool_decide (id ∈ acked s).

Definition stateInfo (s : state) (ids : list Z) : list Z :=
  (λ id, if isKnown s id then msgStateReceived else 0) <$> ids.

Definition peekSeqNo (s : state) (content : bool) : Z :=
  if content then wrap32 (wrap32 (sentContentMessages s * 2) + 1) else wrap32 (sentContentMessages s * 2).

(** The loop of [reserveMsgID] that skips the ids in use. *)
Fixpoint free_id (fuel : nat) (p : gmap Z frame) (candidate : Z) : Z :=
  match fuel with
  | O => candidate
  | S fuel => match p !! candidate with None => candidate | Some _ => free_id fuel p (candidate +₆₄ 4) end
  end.

Definition reserveMsgID (candidate : Z) : M Z :=
  s ← gets box;
  let candidate := if candidate <=? lastMsgID s then lastMsgID s +₆₄ 4 else candidate in
  let candidate := free_id (S (size (pending s))) (pending s) candidate in
  modify (set_box (mkBox (pending s) (order s) (byRequest s) (acked s) (ackOrder s) (ackOrderHead s)
    (totalBytes s) (maxMessages s) (maxBytes s) (sbudget s) (sentContentMessages s) candidate)) ;;
  mret candidate.

Definition rpcResult (s : state) (req : Z) : option encoded :=
  if req =? 0 then None
  else
    f ← pending s !! default 0 (byRequest s !! req);
    if negb (bool_decide (f_typeID f = ResultTypeID))
       || ((blen (body f) =? 0) && bool_decide (replaySource f = None)) then None
    else Some (mkEncoded (body f) (f_typeID f) (reqMsgID f) (priority f) (delivery f) (layerInvariant f)
                 (layer f) (compressed f) (uncompressedBytes f) (replaySource f) (innerDigest f)
                 (logicalBytes f) None (msgID f) (seqNo f)).

Fixpoint release_frames (fs : list frame) (dflt : option nat) : M () :=
  match fs with
  | [] => mret tt
  | f :: fs => release_credit (bulkCredit f) ;; releaseReservation f dflt ;; release_frames fs dflt
  end.

(** The map is walked in some order; releasing commutes. *)
Definition releaseAll : M () :=
  modify (λ w, let '(run, b) := CreditWindow.close (bulk w) in set_bulk b run w) ;;
  s ← gets box;
  release_frames ((map_to_list (pending s)).*2) (sbudget s) ;;
  modify (λ w, set_box (mkBox ∅ [] ∅ ∅ [] 0 0 (maxMessages s) (maxBytes s) (sbudget s)
                          (sentContentMessages s) (lastMsgID s)) w).

(** ** The actor *)

Definition validateOutboundLayerBinding (st : LayerProfileState) (l : option outboundLayerBinding)
    : option outbound_error :=
  match l with
  | None => None
  | Some b =>
      if lb_wireInvariant b || bool_decide (lb_kind b = outboundLayerBindingRequest) then None
      else if negb (origin_known st) then Some ErrOutboundLayerProfileUnknown
      else if negb (lb_epoch b =? 0) && negb (ps_Epoch st =? lb_epoch b) then Some ErrOutboundLayerProfileStale
      else if negb (ps_Profile st =? lb_profile b) then Some ErrOutboundLayerProfileMismatch
      else None
  end.

Definition isOutboundStaleLayerEpoch (e : outbound_error) : bool :=
  bool_decide (e = ErrOutboundLayerProfileStale).

Definition isOutboundLayerProfileError (e : outbound_error) : bool :=
  bool_decide (e = ErrOutboundLayerProfileUnknown) || bool_decide (e = ErrOutboundLayerProfileMismatch).

Definition buildFrameWithState (env : environment) (e : encoded) : M (res outbound_error frame) :=
  match validateOutboundLayerBinding (profile env) (e_layer e) with
  | Some err => mret (ERR err)
  | None =>
      if bool_decide (e_layer e = None) && negb (e_layerInvariant e) then mret (ERR ErrOutboundLayerBindingRequired)
      else
        ids ← (if e_replayMsgID e =? 0 then
                 id ← reserveMsgID (new_msgID env);
                 s ← gets box;
                 mret (id, peekSeqNo s (frameNeedsAck (e_typeID e)))
               else mret (e_replayMsgID e, e_replaySeqNo e));
        mret (OK (mkFrame ids.1 ids.2 (e_typeID e) (e_body e) 0 None (e_reqMsgID e) (e_priority e)
                    (e_delivery e) (e_compressed e) (e_uncompressedBytes e) (e_replaySource e)
                    (e_innerDigest e) (e_logicalBytes e) (e_bulkCredit e) (e_layer e) (e_layerInvariant e)
                    None 0))
  end.

(** [writeFrame] of the physical frame [f]; the first success stamps the frame. *)
Definition writeFrame (env : environment) (i : nat) (f : frame) : M (option outbound_error * frame) :=
  match write_to env i with
  | WriteRefused e => mret (Some e, f)
  | WriteFenced e => modify retire ;; mret (Some e, f)
  | WriteOK =>
      modify (add_wire f) ;;
      mret (None, if bool_decide (sentAt f = None) then set_sent (Some (now env)) 1 f else f)
  end.

(** [beginWriting]: the target of the result is fixed for this write. *)
Definition beginWriting (e : encoded) : M Z :=
  ds ← gets deliveries;
  match e_delivery e ≫= (ds !!.) with
  | None => mret (e_reqMsgID e)
  | Some d =>
      let target := if targetReqMsgID d =? 0 then e_reqMsgID e else targetReqMsgID d in
      modify (λ w, set_deliveries (partial_alter (λ _, Some (mkDelivery true target target))
                                     (default 0%nat (e_delivery e)) (deliveries w)) w) ;;
      mret target
  end.

(** The retarget at the head of [handleOutboundSend]: the error, the message to
    frame, the bytes it holds and the bytes superseded. *)
Definition retarget_result (env : environment) (b : option nat) (e : encoded) (reserved : Z)
    : M (option outbound_error * encoded * Z * Z) :=
  target ← beginWriting e;
  if negb (target =? 0) && negb (target =? e_reqMsgID e) then
    ok ← reserve_bytes b (blen (e_body e));
    if negb (ok : bool) then mret (Some ErrOutboundTrackedBudget, e, reserved, 0)
    else match cloneRPCResultForRequest e target (0%nat) with
         | ERR err => release_bytes b (blen (e_body e)) ;; mret (Some err, e, reserved, 0)
         | OK clone => mret (None, clone, blen (e_body e), reserved)
         end
  else mret (None, e, reserved, 0).

(** The frame is taken into the outbox before its first write; the result is the
    error and whether it was admitted. *)
Definition admit_frame (f : frame) (b : option nat) (reserved : Z) : M (option outbound_error * bool) :=
  if maxTrackedServerBytes <? blen (body f) then mret (Some ErrOutboundTrackedBudget, false)
  else
    err ← admitReserved (set_reservation reserved b f);
    match err with
    | Some e => mret (Some e, false)
    | None => mret (None, true)
    end.

Definition send_frame (env : environment) (e : encoded) (f : frame) (b : option nat) (reserved : Z)
    : M (option outbound_error * Z) :=
  s ← gets box;
  let needsAck := frameNeedsAck (f_typeID f) in
  match (if needsAck && negb (msgID f =? 0) then pending s !! msgID f else None) with
  | Some existing =>
      (* a replay: the pending frame stays, its body is only lent *)
      r ← writeFrame env 0 (set_body (body f) existing);
      mret (r.1, reserved)
  | None =>
      if needsAck then
        adm ← admit_frame f b reserved;
        match adm with
        | (Some err, _) =>
            (if bool_decide (err = ErrOutboundTrackedBudget) then modify retire else mret tt) ;;
            releaseBulkCredit e ;;
            mret (Some err, reserved)
        | (None, _) =>
            let f := set_reservation reserved b f in
            r ← writeFrame env 0 f;
            update_frame (msgID f) (λ g, set_sent (sentAt r.2) (sends r.2) g) ;;
            (match replaySource f with
             | Some _ => compactImmutableFrame (msgID f) ;; mret tt
             | None => mret tt
             end) ;;
            mret (r.1, 0)
        end
      else
        r ← writeFrame env 0 f;
        releaseBulkCredit e ;;
        mret (r.1, reserved)
  end.

Definition handleOutboundSend (env : environment) (op : outboundOp Src) (e : encoded) : M (option outbound_error) :=
  s ← gets box;
  let b := match op_reservationBudget op with Some b => Some b | None => sbudget s end in
  t ← retarget_result env b e (op_reservedBytes op);
  let '(err, e, reserved, superseded) := t in
  fr ← (match err with
        | Some err => mret (ERR err)
        | None => buildFrameWithState env e
        end);
  out ← (match fr with
         | ERR err =>
             (if bool_decide (err = ErrOutboundTrackedBudget) then modify retire else mret tt) ;;
             releaseBulkCredit e ;;
             mret (Some err, reserved)
         | OK f => send_frame env e f b reserved
         end);
  release_bytes b out.2 ;;
  release_bytes b superseded ;;
  mret out.1.

Definition outboundMessageBudgetForPriority (c : connBudgets) (t : typeID) (p : outboundPriority) (control : bool) : nat :=
  if control || encodedControlFrame t then outboundControlTrackedBudget c
  else if bool_decide (p = outboundPriorityCritical) then outboundCriticalTrackedBudget c
  else outboundTrackedBudget c.

(** The physical copy of a frame and the reservation that its body holds. *)
Definition materializeFrameForWrite (env : environment) (i : nat) (f : frame)
    : M (res outbound_error (frame * option nat * Z)) :=
  if 0 <? blen (body f) then mret (OK (f, None, 0))
  else match encode_slot env i with
       | Some err => mret (ERR err)
       | None =>
           match materialized f i with
           | ERR err => mret (ERR err)
           | OK p =>
               let b := Some (outboundMessageBudgetForPriority (conn env) (f_typeID f) (priority f) false) in
               ok ← reserve_bytes b (blen (body p));
               if ok : bool then mret (OK (p, b, blen (body p))) else mret (ERR ErrOutboundTrackedBudget)
           end
       end.

(** One frame is written again under its old identity. *)
Definition resend_frame (env : environment) (i : nat) (f : frame) : M (option outbound_error) :=
  m ← materializeFrameForWrite env i f;
  match m with
  | ERR err => mret (Some err)
  | OK (p, b, n) =>
      r ← writeFrame env i p;
      release_bytes b n ;;
      match r.1 with
      | Some err => mret (Some err)
      | None =>
          update_frame (msgID f) (λ g, set_sent (Some (now env))
            ((if (0 <? blen (body f)) && bool_decide (sentAt f = None) then 1 else sends g) + 1) g) ;;
          mret None
      end
  end.

(** The states that were not reached before an error stay zero. *)
Fixpoint resend_loop (env : environment) (i : nat) (ids : list Z) : M (list Z * option outbound_error) :=
  match ids with
  | [] => mret ([], None)
  | id :: ids =>
      s ← gets box;
      let known := if isKnown s id then msgStateReceived else 0 in
      let continue_ :=
        rest ← resend_loop env (S i) ids;
        mret (known :: rest.1, rest.2) in
      let stop_ err := mret (known :: replicate (length ids) 0, Some err) in
      match pending s !! id with
      | None => continue_
      | Some f =>
          match validateOutboundLayerBinding (profile env) (layer f) with
          | Some err =>
              if isOutboundStaleLayerEpoch err || isOutboundLayerProfileError err then
                removePending id ;; continue_
              else stop_ err
          | None =>
              err ← resend_frame env i f;
              match err with Some err => stop_ err | None => continue_ end
          end
      end
  end.

Definition handleOutboundResend (env : environment) (ids : list Z) : M (list Z * option outbound_error) :=
  resend_loop env 0 ids.

Definition handleOutboundResendByRequest (env : environment) (req : Z) : M (bool * option outbound_error) :=
  s ← gets box;
  match byRequest s !! req ≫= (pending s !!.) with
  | None => mret (false, None)
  | Some f =>
      err ← resend_frame env 0 f;
      match err with Some err => mret (false, Some err) | None => mret (true, None) end
  end.

(** [outboundOp.releaseReservation]. *)
Definition release_op (op : outboundOp Src) (dflt : option nat) : M () :=
  if op_reservedBytes op <=? 0 then mret tt
  else
    (match op_encoded op with Some e => releaseBulkCredit e | None => mret tt end) ;;
    release_bytes (match op_reservationBudget op with Some b => Some b | None => dflt end) (op_reservedBytes op).

(** What the handler does with an operation, and the acknowledged requests that
    it reports after the lock is released. *)
Definition handleOutboundOp (env : environment) (op : outboundOp Src) : M (outboundResult * list outboundAcknowledgement) :=
  s ← gets box;
  if authKeyUnavailable env then
    release_op op (sbudget s) ;; modify retire ;; mret (mkResult [] false (Some ErrConnClosed), [])
  else
    match op_kind op with
    | outboundSend =>
        match op_encoded op with
        | None => mret (mkResult [] false (Some ErrEncode), [])
        | Some e => err ← handleOutboundSend env op e; mret (mkResult [] false err, [])
        end
    | outboundAck =>
        acked ← ackWithDetails (op_ids op); release_op op (sbudget s) ;; mret (mkResult [] false None, acked)
    | outboundQueryState =>
        release_op op (sbudget s) ;; mret (mkResult (stateInfo s (op_ids op)) false None, [])
    | outboundResend =>
        r ← handleOutboundResend env (op_ids op); release_op op (sbudget s) ;; mret (mkResult r.1 false r.2, [])
    | outboundResendByRequest =>
        r ← handleOutboundResendByRequest env (op_reqMsgID op); release_op op (sbudget s) ;;
        mret (mkResult [] r.1 r.2, [])
    end.

(** ** Producers *)

(** [encodeOutboundMessageWithoutSlot]: [inv] is the closed proof that the
    message does not depend on a layer, [layer] the binding of prepared updates. *)
Definition encodedMessage (t : typeID) (b : list Z) (req : Z) (inv : bool) (layer : option outboundLayerBinding)
    : encoded :=
  mkEncoded b t req outboundPriorityNormal None inv layer false 0 None [] 0 None 0 0.

Definition rpcResultGZIPMaxInputBytes : Z := 10485759.

(** The result of [encodeRPCResultWithoutSlot]: [inner] are the encoded bytes of
    the result, [wire] what the adaptive compression made of them. *)
Definition encodedResult (req : Z) (inner : list Z) (wireInner : list Z) (comp : bool)
    (src : option Src) (layer : option outboundLayerBinding) (inv : bool) (credit delivery_ : option nat)
    (prio : outboundPriority) : res outbound_error encoded :=
  if (rpcResultGZIPMaxInputBytes <? blen inner) && (maxOutboundBodyBytes - 12 <? blen inner) then
    ERR ErrOutboundMessageTooLarge
  else
    let '(wire_, comp) := match src with None => (wireInner, comp) | Some _ => (inner, false) end in
    if maxOutboundBodyBytes - 12 <? blen wire_ then ERR ErrOutboundMessageTooLarge
    else
      let b := le_bytes 4 rpc_result_id ++ le_bytes 8 req ++ wire_ in
      OK (mkEncoded b ResultTypeID req prio delivery_ inv layer comp (blen inner) src (sha256 inner) (blen b)
            credit 0 0).

Definition classifyOutboundPriority (e : encoded) (control : bool) : outboundPriority :=
  if control then outboundPriorityControl
  else if negb (bool_decide (e_priority e = outboundPriorityNormal)) then e_priority e
  else if bulkOutboundThreshold <=? blen (e_body e) then outboundPriorityBulk
  else outboundPriorityNormal.

Definition newOutboundVectorOp (env : environment) (kind : outboundOpKind) (ids : list Z)
    : M (res outbound_error (outboundOp Src)) :=
  let n := Z.of_nat (length ids) * 8 in
  let b := Some (outboundControlTrackedBudget (conn env)) in
  ok ← reserve_bytes b n;
  if ok : bool then mret (OK (mkOp kind true outboundPriorityNormal None n b ids 0))
  else mret (ERR ErrOutboundTrackedBudget).

(** [prepared]: the message was encoded by the caller, so its layer is checked. *)
Definition newOutboundSendOp (env : environment) (prepared : bool) (e : encoded) (control : bool)
    : M (res outbound_error (outboundOp Src)) :=
  match (if prepared then validateOutboundLayerBinding (profile env) (e_layer e) else encode_slot env 0%nat) with
  | Some err => mret (ERR err)
  | None =>
      if maxOutboundBodyBytes <? blen (e_body e) then mret (ERR ErrOutboundMessageTooLarge)
      else
        let b := Some (outboundMessageBudgetForPriority (conn env) (e_typeID e) (e_priority e) control) in
        ok ← reserve_bytes b (blen (e_body e));
        if ok : bool then
          mret (OK (mkOp outboundSend false (classifyOutboundPriority e control) (Some e) (blen (e_body e)) b [] 0))
        else mret (ERR ErrOutboundTrackedBudget)
  end.

(** [newRPCResultDelivery] for one physical attempt. *)
Definition new_delivery (req : Z) : M (option nat) :=
  ds ← gets deliveries;
  let d := fresh (dom ds) in
  modify (set_deliveries (<[d := mkDelivery false req 0]> ds)) ;;
  mret (Some d).

Definition with_delivery (d : option nat) (e : encoded) : encoded :=
  mkEncoded (e_body e) (e_typeID e) (e_reqMsgID e) (e_priority e) d (e_layerInvariant e) (e_layer e)
    (e_compressed e) (e_uncompressedBytes e) (e_replaySource e) (e_innerDigest e) (e_logicalBytes e)
    (e_bulkCredit e) (e_replayMsgID e) (e_replaySeqNo e).

(** A replay: the outbox is asked for the result of a request, the answer is
    cloned for this attempt ([cloneRPCResultForRequestReservedContext]) and taken
    into an operation ([outboundBodyReservation.take]). *)
Definition newReplayOp (env : environment) (req : Z) (moment : nat) : M (res outbound_error (outboundOp Src)) :=
  s ← gets box;
  match rpcResult s req with
  | None => mret (ERR ErrInvalidRetarget)
  | Some e =>
      match encode_slot env 0%nat, cloneRPCResultForRequest e (e_reqMsgID e) moment with
      | Some err, _ | None, ERR err => mret (ERR err)
      | None, OK clone =>
          if maxOutboundBodyBytes <? blen (e_body clone) then mret (ERR ErrOutboundMessageTooLarge)
          else
            let b := Some (outboundMessageBudgetForPriority (conn env) (e_typeID e) (e_priority e) false) in
            ok ← reserve_bytes b (blen (e_body clone));
            if ok : bool then
              d ← new_delivery (e_reqMsgID e);
              let clone := with_delivery d clone in
              mret (OK (mkOp outboundSend false (classifyOutboundPriority clone false) (Some clone)
                          (blen (e_body clone)) b [] 0))
            else mret (ERR ErrOutboundTrackedBudget)
      end
  end.

(** ** The life of a session

    The queue of the actor with its lanes is a list from which any operation may
    come next. *)

Inductive outEvent :=
  | EvMessage (env : environment) (t : typeID) (b : list Z) (req : Z) (inv : bool)
      (layer : option outboundLayerBinding) (control : bool)
  | EvResult (env : environment) (req : Z) (inner wireInner : list Z) (comp : bool) (src : option Src)
      (layer : option outboundLayerBinding) (inv : bool) (credit delivery_ : option nat) (prio : outboundPriority)
  | EvReplay (env : environment) (req : Z) (moment : nat)
  | EvVector (env : environment) (kind : outboundOpKind) (ids : list Z)
  | EvByRequest (req : Z)
  | EvHandle (env : environment) (n : nat)
  | EvDrop (dflt : nat) (n : nat)
  | EvRetarget (d : nat) (req : Z)
  | EvDelivery
  | EvCredit (o : CreditWindow.op)
  | EvReleaseAll.

Record outSystem := mkSystem { sys : world; queue : list (outboundOp Src) }.

Definition enqueue (m : M (res outbound_error (outboundOp Src))) (s : outSystem) : option outSystem :=
  match m (sys s) with
  | None => None
  | Some (ERR _, w) => Some (mkSystem w (queue s))
  | Some (OK op, w) => Some (mkSystem w (queue s ++ [op]))
  end.

Definition run_in (m : M ()) (q : list (outboundOp Src)) (s : outSystem) : option outSystem :=
  match m (sys s) with None => None | Some (_, w) => Some (mkSystem w q) end.

(** [tryRetarget] of a delivery that is not being written. *)
Definition tryRetarget (d : nat) (req : Z) : M () :=
  ds ← gets deliveries;
  match ds !! d with
  | Some dl =>
      if writing dl || (req =? 0) then mret tt
      else modify (set_deliveries (<[d := mkDelivery false req (writtenReqMsgID dl)]> ds))
  | None => mret tt
  end.

Definition out_step (ev : outEvent) (s : outSystem) : option outSystem :=
  match ev with
  | EvMessage env t b req inv layer control =>
      enqueue (newOutboundSendOp env (bool_decide (layer ≠ None)) (encodedMessage t b req inv layer) control) s
  | EvResult env req inner wireInner comp src layer inv credit delivery_ prio =>
      match encodedResult req inner wireInner comp src layer inv credit delivery_ prio with
      | ERR _ => Some s
      | OK e => enqueue (newOutboundSendOp env true e false) s
      end
  | EvReplay env req moment => enqueue (newReplayOp env req moment) s
  | EvVector env kind ids =>
      match kind with
      | outboundAck | outboundQueryState | outboundResend => enqueue (newOutboundVectorOp env kind ids) s
      | _ => Some s
      end
  | EvByRequest req =>
      Some (mkSystem (sys s) (queue s ++ [mkOp outboundResendByRequest true outboundPriorityNormal None 0 None [] req]))
  | EvHandle env n =>
      match queue s !! n with
      | None => Some s
      | Some op => run_in (handleOutboundOp env op ;; mret tt) (delete n (queue s)) s
      end
  | EvDrop dflt n =>
      match queue s !! n with
      | None => Some s
      | Some op => run_in (release_op op (Some dflt)) (delete n (queue s)) s
      end
  | EvRetarget d req => run_in (tryRetarget d req) (queue s) s
  | EvDelivery => run_in (new_delivery 0 ;; mret tt) (queue s) s
  | EvCredit o =>
      run_in (modify (λ w, let '(run, b) := apply_op o (bulk w) in set_bulk b run w)) (queue s) s
  | EvReleaseAll => run_in releaseAll (queue s) s
  end.

Fixpoint out_run (evs : list outEvent) (s : outSystem) : option outSystem :=
  match evs with
  | [] => Some s
  | ev :: evs => match out_step ev s with None => None | Some s => out_run evs s end
  end.
End Outbox.
