(* ===== verification/OutboxInv.v ===== *)
(** The invariant of the logical outbox, and that its elementary operations keep
    it: the indexes of the outbox agree with the pending frames, the window of
    bulk credits keeps its own invariant, every byte that a budget counts is
    held by a pending frame or is still outside of the outbox, and every message
    id means one message. *)

From S2P Require Import Prelude CreditWindow Outbox.

Open Scope Z_scope.

#[local] Set Default Proof Using "Type".

(** What a body has to look like, given the type of the message, its request and
    the digest that is kept of it when a source can build it again. *)
Class BodyRule := body_rule : typeID → Z → option (list Z) → list Z → Prop.

Section Inv.
Context {Src : Type} `{!ReplaySource Src} {bodies : BodyRule}.

Abbreviation frame := (outboundFrame Src).
Abbreviation state := (outboundState Src).
Abbreviation world := (outWorld Src).
Implicit Types (f g : frame) (s : state) (w : world).

(** ** Vocabulary *)

(** The content of a message: the bytes of its body, but for the place where a
    result names its request, which is kept beside it; or, when the body may be
    dropped and built again, the digest that it has to match. *)
Inductive kept_content := Verbatim (b : list Z) | Digested (d : list Z).

Definition kept_digest (src : option Src) (digest : list Z) : option (list Z) :=
  match src with Some _ => Some digest | None => None end.

Definition content_of (t : typeID) (kept : option (list Z)) (b : list Z) : kept_content :=
  match kept with
  | Some digest => Digested digest
  | None => Verbatim (if bool_decide (t = ResultTypeID) then put_int64 b 4 0 else b)
  end.

(** What the client sees of a message. *)
Record identity := mkIdentity { i_seqNo : Z; i_typeID : typeID; i_reqMsgID : Z; i_content : kept_content }.

Definition identity_of f : identity :=
  mkIdentity (seqNo f) (f_typeID f) (reqMsgID f) (content_of (f_typeID f) (kept_digest (replaySource f) (innerDigest f)) (body f)).

Definition has_body f : Prop :=
  body_rule (f_typeID f) (reqMsgID f) (kept_digest (replaySource f) (innerDigest f)) (body f).

Definition budget_of (dflt : option nat) f : option nat :=
  match reservationBudget f with Some b => Some b | None => dflt end.

(** The bytes of a reservation of [n] from [b] that budget [k] counts. *)
Definition charge (b : option nat) (n : Z) (k : nat) : Z :=
  if bool_decide (b = Some k) then Z.max 0 n else 0.

Definition frame_held (dflt : option nat) (k : nat) f : Z := charge (budget_of dflt f) (reservedBytes f) k.

Definition held (k : nat) s : Z := sum_map (frame_held (sbudget s) k) (pending s).

Definition used_of (k : nat) w : Z := match budgets w !! k with Some tb => tb_used tb | None => 0 end.

Record frame_ok (id : Z) f : Prop := {
  fk_id : msgID f = id;
  fk_content : frameNeedsAck (f_typeID f) = true;
  fk_logical : 0 ≤ logicalBytes f;
  fk_source : replaySource f ≠ None → 0 < logicalBytes f;
  fk_body : has_body f ∨ body f = [] ∧ replaySource f ≠ None;
}.

Record box_ok s : Prop := {
  bk_frames id f : pending s !! id = Some f → frame_ok id f;
  bk_total : totalBytes s = sum_map logicalSize (pending s);
  bk_bytes : totalBytes s ≤ maxBytes s;
  bk_count : Z.of_nat (size (pending s)) ≤ maxMessages s;
  bk_order id : is_Some (pending s !! id) → id ∈ order s;
  bk_request r id : byRequest s !! r = Some id → r ≠ 0 ∧ ∃ f, pending s !! id = Some f ∧ reqMsgID f = r;
  bk_acked id : id ∈ acked s ↔ id ∈ ackOrder s;
  bk_ring : NoDup (ackOrder s);
  bk_ring_length : (length (ackOrder s) ≤ maxTrackedAckedMsgIDs)%nat;
  bk_head : (ackOrderHead s < maxTrackedAckedMsgIDs)%nat;
  bk_head_zero : (length (ackOrder s) < maxTrackedAckedMsgIDs)%nat → ackOrderHead s = 0%nat;
}.

(** [H] is the ghost register of the messages that were ever admitted or
    written, [out] counts the bytes reserved outside of the outbox. *)
Record outbox_inv (H : gmap Z identity) (out : nat → Z) w : Prop := {
  oi_box : box_ok (box w);
  oi_bytes k : used_of k w = out k + held k (box w);
  oi_out k : 0 ≤ out k;
  oi_window : window_ok (bulk w) ∧ log_ok (leases (bulk w)) (told w);
  oi_pending id f : pending (box w) !! id = Some f → H !! id = Some (identity_of f);
  oi_wire f : f ∈ wire w → H !! msgID f = Some (identity_of f) ∧ has_body f;
  oi_ids id i : H !! id = Some i → 0 < id ≤ lastMsgID (box w);
  oi_odd id i : H !! id = Some i → frameNeedsAck (i_typeID i) = true →
    ∃ n, i_seqNo i = 2 * n + 1 ∧ 0 ≤ n < sentContentMessages (box w);
  oi_seq id id' i i' : H !! id = Some i → H !! id' = Some i' →
    frameNeedsAck (i_typeID i) = true → frameNeedsAck (i_typeID i') = true →
    i_seqNo i = i_seqNo i' → id = id';
  oi_last : 0 ≤ lastMsgID (box w);
  oi_sent : 0 ≤ sentContentMessages (box w);
}.

(** [f'] is the same message as [f], maybe without its body or with a smaller
    reservation. *)
Record same_message f f' : Prop := {
  sm_id : msgID f' = msgID f;
  sm_identity : identity_of f' = identity_of f;
  sm_logical : logicalBytes f' = logicalBytes f;
  sm_source : replaySource f' = replaySource f;
  sm_proof : innerDigest f' = innerDigest f ∧ uncompressedBytes f' = uncompressedBytes f ∧ compressed f' = compressed f;
  sm_layer : layer f' = layer f;
  sm_size : logicalSize f' = logicalSize f;
  sm_body : body f' = body f ∨ (body f' = [] ∧ replaySource f ≠ None ∧ compressed f = false);
}.

(** What an operation may do to the frames: those of [D] may go. *)
Record evolves (D : Z → frame → Prop) w w' : Prop := {
  ev_kept id f : pending (box w) !! id = Some f → ¬ D id f →
    ∃ f', pending (box w') !! id = Some f' ∧ same_message f f';
  ev_budget : sbudget (box w') = sbudget (box w);
  ev_limits : maxMessages (box w') = maxMessages (box w) ∧ maxBytes (box w') = maxBytes (box w);
  ev_last : lastMsgID (box w) ≤ lastMsgID (box w');
  ev_sent : sentContentMessages (box w) ≤ sentContentMessages (box w');
  ev_wire : ∃ l, wire w' = wire w ++ l;
}.

Definition nothing : Z → frame → Prop := λ _ _, False.

(** Which frames may go does not depend on what may change of a frame. *)
Definition stable (D : Z → frame → Prop) : Prop :=
  ∀ id f f', same_message f f' → D id f' → D id f.

(** The outbox and the wire are untouched. *)
Definition quiet w w' : Prop := box w' = box w ∧ wire w' = wire w.

Lemma same_message_refl f : same_message f f.
Proof. split; try done. by left. Qed.

Lemma same_message_trans f g h : same_message f g → same_message g h → same_message f h.
Proof.
  intros [? ? ? S1 (P1 & P2 & P3) ? ? B1] [? ? ? S2 (Q1 & Q2 & Q3) ? ? B2]. split; try congruence.
  - split_and!; congruence.
  - destruct B1 as [B1|(B1 & ? & ?)], B2 as [B2|(B2 & ? & ?)].
    + left. congruence.
    + right. split_and!; [done|congruence|congruence].
    + right. split_and!; [congruence|done|done].
    + right. by split_and!.
Qed.

Lemma quiet_evolves D w w' : quiet w w' → evolves D w w'.
Proof.
  intros [Hb Hw]. split; rewrite ?Hb, ?Hw; try done; [eauto using same_message_refl|]. exists []. by rewrite app_nil_r.
Qed.

Lemma quiet_trans w1 w2 w3 : quiet w1 w2 → quiet w2 w3 → quiet w1 w3.
Proof. intros [? ?] [? ?]. split; congruence. Qed.

Lemma evolves_refl D w : evolves D w w.
Proof. by apply quiet_evolves. Qed.

Lemma stable_nothing : stable nothing.
Proof. by intros id f f' _ []. Qed.

Lemma stable_ids (P : Z → Prop) : stable (λ id _, P id).
Proof. by intros id f f' _. Qed.

Lemma evolves_trans (D : Z → frame → Prop) w1 w2 w3 :
  stable D → evolves D w1 w2 → evolves D w2 w3 → evolves D w1 w3.
Proof.
  intros HD0.
  intros [K1 B1 [M1 N1] L1 S1 (l1 & W1)] [K2 B2 [M2 N2] L2 S2 (l2 & W2)]. split; [|congruence|split; congruence|lia|lia|].
  - intros id f Hf HD. destruct (K1 _ _ Hf HD) as (g & Hg & ?).
    destruct (K2 _ _ Hg) as (h & Hh & ?); [by intros ?%(HD0 _ f)|]. exists h. split; [done|]. by eapply same_message_trans.
  - exists (l1 ++ l2). rewrite W2, W1. by rewrite app_assoc.
Qed.

Lemma evolves_weaken (D D' : Z → frame → Prop) w w' : (∀ id f, D id f → D' id f) → evolves D w w' → evolves D' w w'.
Proof. intros HD [K ? ? ? ? ?]. split; auto. Qed.

(** ** Sums *)

Lemma held_charge_nonneg b n k : 0 ≤ charge b n k.
Proof. unfold charge. case_bool_decide; lia. Qed.

Lemma held_nonneg k s : 0 ≤ held k s.
Proof. apply sum_map_nonneg. intros. apply held_charge_nonneg. Qed.

Lemma logicalSize_nonneg f : 0 ≤ logicalSize f.
Proof. unfold logicalSize, blen. destruct (Z.ltb_spec 0 (logicalBytes f)); lia. Qed.

Lemma inv_ext H out out' w : (∀ k, out k = out' k) → outbox_inv H out w → outbox_inv H out' w.
Proof. intros E []. split; try done; intros k; rewrite <- E; auto. Qed.

(** ** Budgets *)

Lemma used_of_alter k b tb w :
  used_of k (set_budgets (partial_alter (λ _, Some tb) b (budgets w)) w)
  = if bool_decide (k = b) then tb_used tb else used_of k w.
Proof.
  unfold used_of. simpl. case_bool_decide.
  - subst. by rewrite lookup_partial_alter_eq.
  - by rewrite lookup_partial_alter_ne.
Qed.

Lemma reserve_bytes_inv H out b n w :
  outbox_inv H out w →
  wp (reserve_bytes b n) (λ ok w', quiet w w' ∧
    if ok then outbox_inv H (λ k, out k + charge b n k) w' else w' = w) w.
Proof.
  intros Hi. unfold reserve_bytes, wp. destruct (Z.leb_spec n 0) as [Hn|Hn].
  { split; [done|]. eapply inv_ext; [|done]. intros k. unfold charge. case_bool_decide; lia. }
  destruct b as [b|]; simpl; [|done]. destruct (budgets w !! b) as [tb|] eqn:Eb; [|done].
  destruct (Z.ltb_spec (tb_maxBytes tb) n); [done|].
  destruct (Z.ltb_spec (tb_maxBytes tb - n) (tb_used tb)); [done|].
  split; [done|]. destruct Hi as [? Hb Ho]. split; try done; intros k; unfold charge in *.
  - rewrite used_of_alter. simpl. specialize (Hb k). do 2 case_bool_decide; try congruence; [|lia].
    subst. unfold used_of in Hb. rewrite Eb in Hb. simpl in *. lia.
  - specialize (Ho k). case_bool_decide; lia.
Qed.

Lemma release_bytes_raw base b n w :
  (∀ k, used_of k w = base k + charge b n k) → (∀ k, 0 ≤ base k) →
  wp (release_bytes b n) (λ _ w', quiet w w' ∧ bulk w' = bulk w ∧ told w' = told w ∧
    ∀ k, used_of k w' = base k) w.
Proof.
  intros Hu Hbase. unfold release_bytes, wp. destruct (Z.leb_spec n 0) as [Hn|Hn].
  { split_and!; try done. intros k. rewrite Hu. unfold charge. case_bool_decide; lia. }
  destruct b as [b|]; simpl.
  2:{ split_and!; try done. intros k. rewrite Hu. unfold charge. case_bool_decide; [done|lia]. }
  unfold charge in *. pose proof (Hu b) as Hb. rewrite bool_decide_true in Hb by done.
  specialize (Hbase b) as Hbb. unfold used_of in Hb.
  destruct (budgets w !! b) as [tb|] eqn:Eb; [|lia].
  destruct (Z.ltb_spec (tb_used tb - n) 0); [lia|].
  split_and!; try done. intros k. rewrite used_of_alter. specialize (Hu k).
  do 2 case_bool_decide; try congruence; simpl in *; subst; lia.
Qed.

Lemma release_bytes_inv H out b n w :
  outbox_inv H (λ k, out k + charge b n k) w → (∀ k, 0 ≤ out k) →
  wp (release_bytes b n) (λ _ w', quiet w w' ∧ outbox_inv H out w') w.
Proof.
  intros Hi Hout. eapply wp_mono; [apply (release_bytes_raw (λ k, out k + held k (box w)))|].
  - intros k. pose proof (oi_bytes _ _ _ Hi k). simpl in *. lia.
  - intros k. pose proof (held_nonneg k (box w)). specialize (Hout k). lia.
  - cbv beta. intros _ w' ([Hb Hw] & Hbulk & Htold & Hu). split; [done|].
    destruct Hi. split; rewrite ?Hb, ?Hw, ?Hbulk, ?Htold; try done.
Qed.

(** ** Credits *)

Lemma release_credit_raw c w :
  window_ok (bulk w) → log_ok (leases (bulk w)) (told w) →
  wp (release_credit c) (λ _ w', quiet w w' ∧ budgets w' = budgets w ∧
    window_ok (bulk w') ∧ log_ok (leases (bulk w')) (told w')) w.
Proof.
  intros Hw Hg. unfold release_credit, wp. destruct c as [id|]; [|done].
  pose proof (release_ok id (bulk w) (told w) Hw Hg) as Hr. simpl in Hr.
  destruct (CreditWindow.release id (bulk w)) as [run b]. by destruct Hr.
Qed.

Lemma release_credit_inv H out c w :
  outbox_inv H out w → wp (release_credit c) (λ _ w', quiet w w' ∧ outbox_inv H out w') w.
Proof.
  intros Hi. destruct (oi_window _ _ _ Hi) as [Hw Hg].
  eapply wp_mono; [by apply release_credit_raw|]. cbv beta. intros _ w' ([Hb Hwr] & Hbu & ? & ?).
  split; [done|]. destruct Hi. split; rewrite ?Hb, ?Hwr; try done.
  intros k. unfold used_of. rewrite Hbu. apply oi_bytes0.
Qed.

(** ** A pending frame changes, goes or comes *)

Lemma alter_insert_eq {V} (g : V → V) (m : gmap Z V) i x : m !! i = Some x → alter g i m = <[i := g x]> m.
Proof.
  intros E. apply map_eq. intros j. destruct (decide (j = i)) as [->|].
  - by rewrite lookup_alter_eq, lookup_insert_eq, E.
  - by rewrite lookup_alter_ne, lookup_insert_ne.
Qed.

Lemma frame_ok_same id f f' : frame_ok id f → same_message f f' → frame_ok id f'.
Proof.
  intros [? ? ? ? Hb] [? Hi ? Hs [Hd _] ? ? Hbody]. unfold identity_of in Hi. injection Hi as ? Ht Hr _.
  split; [congruence|congruence|congruence| |].
  - rewrite Hs. intros. rewrite sm_logical0. auto.
  - unfold has_body in *. rewrite Ht, Hr, Hs, Hd. destruct Hbody as [->|(-> & ? & _)]; auto.
Qed.

Lemma alter_inv H out w id f f' :
  pending (box w) !! id = Some f → same_message f f' →
  (∀ k, 0 ≤ out k + frame_held (sbudget (box w)) k f - frame_held (sbudget (box w)) k f') →
  outbox_inv H out w →
  let w' := set_box (set_pending (<[id := f']> (pending (box w))) (box w)) w in
  outbox_inv H (λ k, out k + frame_held (sbudget (box w)) k f - frame_held (sbudget (box w)) k f') w'
  ∧ evolves nothing w w'.
Proof.
  intros E Hsm Hout Hi w'. split.
  - destruct Hi as [[Bf Bt Bb Bc Bo Br Ba Bn Bl Bh Bz] Hb Ho Hw Hp Hwi Hid Hod Hs Hl Hse].
    split; try done; simpl.
    + split; simpl; try done.
      * intros j g [[<- <-]|[? Hj]]%lookup_insert_Some; [|eauto]. eapply frame_ok_same; eauto.
      * rewrite sum_map_insert, E. simpl. rewrite (sm_size _ _ Hsm). lia.
      * rewrite map_size_insert, E. done.
      * intros j Hj. apply Bo. destruct (decide (j = id)) as [->|]; [by eexists|].
        by rewrite lookup_insert_ne in Hj.
      * intros r j Hj. destruct (Br _ _ Hj) as (? & g & Hg & ?). split; [done|].
        destruct (decide (j = id)) as [->|].
        -- exists f'. rewrite lookup_insert_eq. split; [done|]. pose proof (sm_identity _ _ Hsm) as Hi'.
           injection Hi' as _ _ Hr _. simplify_eq. congruence.
        -- exists g. by rewrite lookup_insert_ne.
    + intros k. unfold held. simpl. rewrite sum_map_insert, E. simpl. specialize (Hb k).
      unfold used_of, held in *. simpl. lia.
    + intros j g [[<- <-]|[? Hj]]%lookup_insert_Some; [|eauto].
      rewrite (sm_identity _ _ Hsm). by apply Hp.
  - apply Build_evolves; simpl; try done; [|exists []; by rewrite app_nil_r].
    intros j g Hj _. destruct (decide (j = id)) as [->|].
    + exists f'. rewrite lookup_insert_eq. by simplify_eq.
    + exists g. rewrite lookup_insert_ne by done. split; [done|]. apply same_message_refl.
Qed.

Lemma delete_inv H out w id f byRequest' total' :
  pending (box w) !! id = Some f →
  (∀ r m, byRequest' !! r = Some m → byRequest (box w) !! r = Some m ∧ (m = id → reqMsgID f ≠ r)) →
  total' = totalBytes (box w) - logicalSize f →
  outbox_inv H out w →
  let s := box w in
  let w' := set_box (mkBox (delete id (pending s)) (order s) byRequest' (acked s) (ackOrder s)
    (ackOrderHead s) total' (maxMessages s) (maxBytes s) (sbudget s) (sentContentMessages s) (lastMsgID s)) w in
  outbox_inv H (λ k, out k + frame_held (sbudget s) k f) w' ∧ evolves (λ j _, j = id) w w'.
Proof.
  intros E Hreq -> Hi. cbv zeta. split.
  - destruct Hi as [[Bf Bt Bb Bc Bo Br Ba Bn Bl Bh Bz] Hb Ho Hw Hp Hwi Hid Hod Hs Hl Hse].
    pose proof (logicalSize_nonneg f).
    split; try done; simpl.
    + split; simpl; try done.
      * intros j g [? Hj]%lookup_delete_Some. eauto.
      * rewrite sum_map_delete, E. simpl. lia.
      * lia.
      * rewrite map_size_delete, E. simpl. lia.
      * intros j [g [? Hj]%lookup_delete_Some]. apply Bo. by eexists.
      * intros r j [Hj Hne]%Hreq. destruct (Br _ _ Hj) as (? & g & Hg & Hgr). split; [done|].
        exists g. split; [|done]. apply lookup_delete_Some. split; [|done].
        intros <-. simplify_eq. by apply Hne.
    + intros k. unfold held, used_of in *. simpl. rewrite sum_map_delete, E. simpl. specialize (Hb k).
      lia.
    + intros k. pose proof (held_charge_nonneg (budget_of (sbudget (box w)) f) (reservedBytes f) k).
      unfold frame_held. specialize (Ho k). lia.
    + intros j g [? Hj]%lookup_delete_Some. eauto.
  - apply Build_evolves; simpl; try done; [|exists []; by rewrite app_nil_r].
    intros j g Hj Hne. exists g. split; [|apply same_message_refl].
    apply lookup_delete_Some. split; [congruence|done].
Qed.

(** A frame is admitted: its reservation moves into the outbox. *)
Lemma insertReserved_inv H H' out w f :
  pending (box w) !! msgID f = None → frame_ok (msgID f) f →
  H' = <[msgID f := identity_of f]> H →
  (H !! msgID f = Some (identity_of f) ∨
     H !! msgID f = None ∧ 0 < msgID f ≤ lastMsgID (box w) ∧
     seqNo f = 2 * sentContentMessages (box w) + 1) →
  sentContentMessages (box w) < 1073741823 →
  Z.of_nat (size (pending (box w))) < maxMessages (box w) →
  totalBytes (box w) + logicalSize f ≤ maxBytes (box w) →
  outbox_inv H (λ k, out k + frame_held (sbudget (box w)) k f) w → (∀ k, 0 ≤ out k) →
  wp (insertReserved f) (λ _ w', outbox_inv H' out w' ∧ evolves nothing w w' ∧
    sentContentMessages (box w') = sentContentMessages (box w) + 1 ∧
    lastMsgID (box w') = lastMsgID (box w) ∧ wire w' = wire w ∧
    pending (box w') = <[msgID f := f]> (pending (box w))) w.
Proof.
  intros E Hf -> Hfresh Hroom Hc Hb Hi Hout. unfold insertReserved, wp. rewrite E.
  pose proof (oi_sent _ _ _ Hi) as Hsent.
  assert (wrap32 (sentContentMessages (box w) + 1) = sentContentMessages (box w) + 1) as Hwrap.
  { unfold wrap32. rewrite Z.mod_small; lia. }
  rewrite (fk_content _ _ Hf), Hwrap.
  split_and!; try done.
  - destruct Hi as [[Bf Bt Bb Bc Bo Br Ba Bn Bl Bh Bz] Hu Ho Hw Hp Hwi Hid Hod Hs Hl Hse].
    split; try done; simpl.
    + split; simpl; try done.
      * intros j g [[<- <-]|[? Hj]]%lookup_insert_Some; eauto.
      * rewrite sum_map_insert, E. simpl. lia.
      * rewrite map_size_insert, E. lia.
      * intros j Hj. apply elem_of_app. destruct (decide (j = msgID f)) as [->|].
        -- right. apply list_elem_of_here.
        -- left. apply Bo. by rewrite lookup_insert_ne in Hj.
      * intros r j Hj.
        assert ((r = reqMsgID f ∧ j = msgID f ∧ r ≠ 0) ∨ (byRequest (box w) !! r = Some j)) as [(-> & -> & ?)|Hj'].
        { destruct (Z.eqb_spec (reqMsgID f) 0); simpl in Hj; [by right|].
          apply lookup_insert_Some in Hj as [[<- <-]|[? ?]]; [left|right]; done. }
        -- split; [done|]. exists f. by rewrite lookup_insert_eq.
        -- destruct (Br _ _ Hj') as (? & g & Hg & ?). split; [done|]. exists g.
           rewrite lookup_insert_ne; [done|]. congruence.
    + intros k. unfold held, used_of in *. simpl. rewrite sum_map_insert, E. simpl. specialize (Hu k). lia.
    + intros j g [[<- <-]|[? Hj]]%lookup_insert_Some; [by rewrite lookup_insert_eq|].
      rewrite lookup_insert_ne by done. eauto.
    + intros g Hg. destruct (Hwi g Hg) as [Hgi Hgb]. split; [|done].
      destruct (decide (msgID g = msgID f)) as [Heq|].
      * rewrite Heq in *. rewrite lookup_insert_eq. destruct Hfresh as [?|[? _]]; congruence.
      * by rewrite lookup_insert_ne.
    + intros j i [[<- <-]|[? Hj]]%lookup_insert_Some; [|eauto].
      destruct Hfresh as [Hf'|(_ & ? & _)]; [by eapply Hid|done].
    + intros j i Hj Hct. apply lookup_insert_Some in Hj as [[<- <-]|[? Hj]].
      * destruct Hfresh as [Hf'|(_ & _ & Hseq)].
        -- destruct (Hod _ _ Hf' Hct) as (n & ? & ?). exists n. split; [done|lia].
        -- exists (sentContentMessages (box w)). simpl. lia.
      * destruct (Hod _ _ Hj Hct) as (n & ? & ?). exists n. split; [done|lia].
    + intros j j' i i' Hj Hj' Hct Hct' Heq.
      destruct Hfresh as [Hf'|(_ & _ & Hseq)].
      * rewrite (insert_id H _ _ Hf') in Hj, Hj'. by eapply Hs.
      * apply lookup_insert_Some in Hj as [[<- <-]|[? Hj]], Hj' as [[<- <-]|[? Hj']]; [done| | |by eapply Hs].
        -- destruct (Hod _ _ Hj' Hct') as (n & ? & ?). simpl in *. lia.
        -- destruct (Hod _ _ Hj Hct) as (n & ? & ?). simpl in *. lia.
    + lia.
  - apply Build_evolves; simpl; try done; [|lia|exists []; by rewrite app_nil_r].
    intros j g Hj _. exists g. rewrite lookup_insert_ne by congruence. split; [done|]. apply same_message_refl.
Qed.

(** Only the bookkeeping of acknowledgements changes. *)
Lemma same_frames_inv H out w s' :
  outbox_inv H out w → box_ok s' → pending s' = pending (box w) → sbudget s' = sbudget (box w) →
  maxMessages s' = maxMessages (box w) → maxBytes s' = maxBytes (box w) →
  lastMsgID s' = lastMsgID (box w) → sentContentMessages s' = sentContentMessages (box w) →
  outbox_inv H out (set_box s' w) ∧ evolves nothing w (set_box s' w).
Proof.
  intros [] Hok Ep Eb Em Ey El Es. split.
  - split; simpl; rewrite ?Ep, ?El, ?Es; try done. intros k. unfold held. rewrite Ep, Eb. apply oi_bytes0.
  - apply Build_evolves; simpl; rewrite ?Ep, ?El, ?Es; try done; [eauto using same_message_refl|exists []; by rewrite app_nil_r].
Qed.

Lemma removePending_inv H out w id :
  outbox_inv H out w →
  wp (removePending id) (λ r w', outbox_inv H out w' ∧ evolves (λ j _, j = id) w w' ∧ wire w' = wire w ∧
    r = bool_decide (is_Some (pending (box w) !! id)) ∧
    pending (box w') = delete id (pending (box w)) ∧
    acked (box w') = acked (box w) ∧ ackOrder (box w') = ackOrder (box w) ∧
    ackOrderHead (box w') = ackOrderHead (box w) ∧ lastMsgID (box w') = lastMsgID (box w) ∧
    sentContentMessages (box w') = sentContentMessages (box w)) w.
Proof.
  intros Hi. unfold removePending. do 2 wp_step.
  destruct (pending (box w) !! id) as [f|] eqn:E.
  2:{ wp_step. split_and!; try done; [apply evolves_refl|by rewrite delete_id]. }
  set (br := if _ && _ then _ else _).
  destruct (delete_inv H out w id f br (totalBytes (box w) - logicalSize f) E) as [Hi' Hev]; [|done|done|].
  { intros r m. unfold br. pose proof (bk_request _ (oi_box _ _ _ Hi) r m) as Hrm.
    destruct (Z.eqb_spec (reqMsgID f) 0); simpl.
    - intros Hm. split; [done|]. intros _ Hr. destruct (Hrm Hm). congruence.
    - case_bool_decide as Hb.
      + by intros [Hr Hm]%lookup_delete_Some.
      + intros Hm. split; [done|]. intros -> <-. by apply Hb. }
  do 2 wp_step. wp_step. eapply wp_mono; [by apply release_credit_inv|]. cbv beta. intros _ w1 [Hq1 Hi1].
  assert (wp (releaseReservation f (sbudget (box w)))
            (λ _ w2, quiet w1 w2 ∧ outbox_inv H out w2) w1) as Hrel.
  { unfold releaseReservation. destruct (Z.leb_spec (reservedBytes f) 0).
    - wp_step. split; [done|]. eapply inv_ext; [|done]. intros k. unfold frame_held, charge. case_bool_decide; lia.
    - apply release_bytes_inv; [done|apply (oi_out _ _ _ Hi)]. }
  wp_step. eapply wp_mono; [exact Hrel|]. cbv beta. intros _ w2 [Hq2 Hi2]. wp_step.
  pose proof (quiet_trans _ _ _ Hq1 Hq2) as [Hbox Hwire]. rewrite !Hbox. simpl.
  split_and!; try done. eapply evolves_trans; [by intros ?|exact Hev|]. by apply quiet_evolves.
Qed.

Lemma compactImmutableFrame_inv H out w id :
  outbox_inv H out w →
  wp (compactImmutableFrame id) (λ _ w', outbox_inv H out w' ∧ evolves nothing w w' ∧ wire w' = wire w ∧
    lastMsgID (box w') = lastMsgID (box w) ∧ sentContentMessages (box w') = sentContentMessages (box w)) w.
Proof.
  intros Hi. unfold compactImmutableFrame. do 2 wp_step.
  assert (outbox_inv H out w ∧ evolves nothing w w ∧ wire w = wire w ∧ lastMsgID (box w) = lastMsgID (box w)
          ∧ sentContentMessages (box w) = sentContentMessages (box w)) as Hsame
    by (split_and!; try done; apply evolves_refl).
  destruct (pending (box w) !! id) as [f|] eqn:E; [|by wp_step].
  destruct (replaySource f) as [src|] eqn:Es; [|by wp_step].
  destruct (Z.eqb_spec (blen (body f)) 0) as [|Hne]; [simpl; by wp_step|].
  destruct (compressed f) eqn:Ec; [simpl; by wp_step|]. simpl.
  set (c := Z.max outboundReplayDescriptorCharge (RetainedBytes src)).
  destruct (Z.leb_spec c 0); [simpl; by wp_step|]. destruct (Z.leb_spec (reservedBytes f) c); [simpl; by wp_step|]. simpl.
  set (f' := set_reservation c (reservationBudget f) (set_body [] f)).
  pose proof (bk_frames _ (oi_box _ _ _ Hi) _ _ E) as Hf.
  assert (0 < logicalBytes f) as Hlb by (apply (fk_source _ _ Hf); congruence).
  assert (same_message f f') as Hsm.
  { split; try done.
    - unfold identity_of. simpl. by rewrite Es.
    - unfold logicalSize. simpl. by rewrite (proj2 (Z.ltb_lt _ _) Hlb).
    - right. split_and!; [done|congruence|done]. }
  assert (∀ k, frame_held (sbudget (box w)) k f - frame_held (sbudget (box w)) k f'
          = charge (budget_of (sbudget (box w)) f) (reservedBytes f - c) k) as Hch.
  { intros k. unfold frame_held, charge, budget_of. simpl. case_bool_decide; lia. }
  destruct (alter_inv H out w id f f' E Hsm) as [Hi' Hev]; [|done|].
  { intros k. pose proof (Hch k). pose proof (oi_out _ _ _ Hi k).
    pose proof (held_charge_nonneg (budget_of (sbudget (box w)) f) (reservedBytes f - c) k). lia. }
  wp_step. unfold update_frame. wp_step. rewrite (alter_insert_eq _ _ _ _ E). wp_step.
  eapply wp_mono; [apply (release_bytes_inv H out)|].
  - eapply inv_ext; [|exact Hi']. intros k. simpl. specialize (Hch k).
    unfold budget_of in Hch. lia.
  - apply (oi_out _ _ _ Hi).
  - cbv beta. intros _ w2 [Hq Hi2]. wp_step. destruct Hq as [Hbox Hwire]. split_and!; try done.
    + eapply evolves_trans; [by intros ?|exact Hev|]. by apply quiet_evolves.
    + by rewrite Hbox.
    + by rewrite Hbox.
Qed.

Lemma stamp_inv H out w id (a : frame → option Z) (n : frame → Z) :
  outbox_inv H out w →
  wp (update_frame id (λ g, set_sent (a g) (n g) g)) (λ _ w', outbox_inv H out w' ∧ evolves nothing w w' ∧
    wire w' = wire w ∧ lastMsgID (box w') = lastMsgID (box w) ∧
    sentContentMessages (box w') = sentContentMessages (box w)) w.
Proof.
  intros Hi. unfold update_frame. wp_step. set (h := λ g, set_sent (a g) (n g) g).
  destruct (pending (box w) !! id) as [f|] eqn:E.
  - rewrite (alter_insert_eq _ _ _ _ E).
    destruct (alter_inv H out w id f (h f) E) as [Hi' Hev]; [by split; auto| |done|].
    { intros k. unfold frame_held, budget_of. simpl. pose proof (oi_out _ _ _ Hi k). lia. }
    split_and!; try done. eapply inv_ext; [|exact Hi']. intros k. unfold frame_held, budget_of. simpl. lia.
  - assert (alter h id (pending (box w)) = pending (box w)) as ->.
    { apply map_eq. intros j. destruct (decide (j = id)) as [->|].
      - by rewrite lookup_alter_eq, E.
      - by rewrite lookup_alter_ne. }
    assert (box_ok (set_pending (pending (box w)) (box w))) as Hok by (destruct (oi_box _ _ _ Hi); by split).
    by destruct (same_frames_inv H out w (set_pending (pending (box w)) (box w)) Hi Hok) as [? ?].
Qed.

(** ** The ring of acknowledged ids *)

(** Oldest first. *)
Definition recent s : list Z := drop (ackOrderHead s) (ackOrder s) ++ take (ackOrderHead s) (ackOrder s).

Lemma ring_insert (l : list Z) h x old :
  NoDup l → l !! h = Some old → x ∉ l →
  NoDup (<[h := x]> l) ∧ ∀ j, j ∈ <[h := x]> l ↔ j = x ∨ (j ∈ l ∧ j ≠ old).
Proof.
  intros Hn Hh Hx. pose proof (lookup_lt_Some _ _ _ Hh) as Hlt.
  rewrite insert_take_drop by done.
  rewrite <- (take_drop_middle l h old Hh) in Hn, Hx.
  assert (∀ j, j ∈ l ↔ j ∈ take h l ++ old :: drop (S h) l) as Hl by (by rewrite take_drop_middle).
  revert Hn Hx Hl. generalize (take h l) (drop (S h) l). intros l1 l2.
  rewrite <- !Permutation_middle, !NoDup_cons, not_elem_of_cons. intros [Hold Hn] [Hxo Hx] Hl. split.
  - rewrite <- Permutation_middle. by apply NoDup_cons.
  - intros j. rewrite <- Permutation_middle, elem_of_cons, Hl, <- Permutation_middle, elem_of_cons. split.
    + intros [?|?]; [by left|right]. split; [by right|]. by intros ->.
    + intros [?|[[?|?] ?]]; [by left|done|by right].
Qed.

Lemma ring_advance (l : list Z) h x :
  (h < length l)%nat →
  let h' := ((h + 1) mod length l)%nat in
  drop h' (<[h := x]> l) ++ take h' (<[h := x]> l) = tail (drop h l ++ take h l) ++ [x].
Proof.
  intros Hh h'. destruct (lookup_lt_is_Some_2 l h Hh) as [old Ho].
  pose proof (take_drop_middle l h old Ho) as Hl.
  rewrite (drop_S l old h Ho). simpl. rewrite insert_take_drop by done.
  assert (length (take h l) = h) as Ht by (rewrite length_take; lia).
  destruct (decide (h + 1 = length l)%nat) as [E|E]; unfold h'.
  - rewrite E, Nat.Div0.mod_same. rewrite (drop_ge l) by lia. simpl. by rewrite app_nil_r.
  - rewrite Nat.mod_small by lia. rewrite drop_app_ge, take_app_ge by lia. rewrite Ht.
    replace (h + 1 - h)%nat with 1%nat by lia. simpl. rewrite take_0, <- app_assoc. done.
Qed.

Lemma markAcked_ok id s :
  box_ok s → box_ok (markAcked id s) ∧ pending (markAcked id s) = pending s ∧
  (∀ j, j ∈ acked (markAcked id s) ↔ j ∈ ackOrder (markAcked id s)) ∧
  recent (markAcked id s) =
    if bool_decide (id ∈ recent s) then recent s
    else (if (length (recent s) <? maxTrackedAckedMsgIDs)%nat then recent s else tail (recent s)) ++ [id].
Proof.
  intros [Bf Bt Bb Bc Bo Br Ba Bn Bl Bh Bz].
  assert (length (recent s) = length (ackOrder s)) as Hlen.
  { unfold recent. rewrite length_app, length_drop, length_take. lia. }
  assert (∀ j, j ∈ recent s ↔ j ∈ ackOrder s) as Hrec.
  { intros j. unfold recent. rewrite elem_of_app. rewrite <- (take_drop (ackOrderHead s) (ackOrder s)) at 3.
    rewrite elem_of_app. tauto. }
  unfold markAcked. destruct (decide (id ∈ acked s)) as [Hin|Hin].
  { rewrite !bool_decide_true by (rewrite ?Hrec, <- ?Ba; done). split_and!; done. }
  pose proof Hin as Hin'. rewrite Ba in Hin'.
  rewrite (bool_decide_false (id ∈ acked s)), (bool_decide_false (id ∈ recent s)) by (rewrite ?Hrec; done).
  rewrite Hlen. destruct (Nat.ltb_spec (length (ackOrder s)) maxTrackedAckedMsgIDs) as [Hlt|Hge].
  - assert (∀ j, j ∈ {[id]} ∪ acked s ↔ j ∈ ackOrder s ++ [id]) as Hset.
    { intros j. rewrite elem_of_union, elem_of_singleton, elem_of_app, list_elem_of_singleton, Ba. tauto. }
    split_and!; try done.
    + split; simpl; try done.
      * apply NoDup_app. split_and!; [done| |apply NoDup_singleton].
        intros j Hj ->%list_elem_of_singleton. done.
      * rewrite length_app. simpl. lia.
      * rewrite length_app. simpl. intros. apply Bz. lia.
    + unfold recent. simpl. rewrite (Bz Hlt). simpl. by rewrite !take_0, !drop_0, !app_nil_r.
  - assert (length (ackOrder s) = maxTrackedAckedMsgIDs) as Hfull by lia.
    assert (ackOrderHead s < length (ackOrder s))%nat as Hh by lia.
    destruct (lookup_lt_is_Some_2 _ _ Hh) as [old Hold]. rewrite Hold. simpl.
    destruct (ring_insert _ _ id old Bn Hold Hin') as [Hnd Hmem].
    assert (∀ j, j ∈ ({[id]} ∪ acked s) ∖ {[old]} ↔ j ∈ <[ackOrderHead s := id]> (ackOrder s)) as Hset.
    { intros j. rewrite Hmem, elem_of_difference, elem_of_union, !elem_of_singleton, Ba.
      split; [tauto|]. intros [->|]; [|tauto]. split; [by left|]. intros ->.
      apply Hin'. by eapply list_elem_of_lookup_2. }
    split_and!; try done.
    + split; simpl; try done.
      * by rewrite length_insert.
      * rewrite Hfull. apply Nat.mod_upper_bound. done.
      * rewrite length_insert. lia.
    + unfold recent. simpl. by apply ring_advance.
Qed.
End Inv.
