(* ===== verification/OutboxRun.v ===== *)
(** The handlers of the outbound actor keep the invariant of [OutboxInv], never
    panic, and hand back exactly the bytes that an operation brought with it,
    less those that a newly pending frame holds. *)

From S2P Require Import Prelude CreditWindow Outbox OutboxInv.

Open Scope Z_scope.

#[local] Set Default Proof Using "Type".

Section Run.
Context {Src : Type} `{!ReplaySource Src} {bodies : BodyRule}.

Abbreviation frame := (outboundFrame Src).
Abbreviation world := (outWorld Src).
Abbreviation encoded := (encodedOutboundMessage Src).
Implicit Types (f g : frame) (w : world) (e : encoded).

(** [n] fits: the sequence numbers and message ids that one more message needs. *)
Record room (env : environment) w : Prop := {
  rm_seq : sentContentMessages (box w) < 1073741823;
  rm_id : 0 < new_msgID env ≤ max_int64;
  rm_last : lastMsgID (box w) + 4 ≤ max_int64;
}.

Definition content_of_message e : kept_content := 
  content_of (e_typeID e) (kept_digest (e_replaySource e) (e_innerDigest e)) (e_body e).

Definition message_has_body e : Prop :=
  body_rule (e_typeID e) (e_reqMsgID e) (kept_digest (e_replaySource e) (e_innerDigest e)) (e_body e).

(** What the producers guarantee of a message. *)
Record encoded_ok (H : gmap Z identity) e : Prop := {
  ek_logical : 0 ≤ e_logicalBytes e;
  ek_source : e_replaySource e ≠ None → 0 < e_logicalBytes e;
  ek_replay : e_replayMsgID e ≠ 0 →
    frameNeedsAck (e_typeID e) = true ∧
    H !! e_replayMsgID e = Some (mkIdentity (e_replaySeqNo e) (e_typeID e) (e_reqMsgID e) (content_of_message e));
  ek_body : message_has_body e;
}.

Lemma encoded_ok_mono H H' e : H ⊆ H' → encoded_ok H e → encoded_ok H' e.
Proof.
  intros Hsub [? ? Hr ?]. split; [done|done| |done]. intros Hne. destruct (Hr Hne). split; [done|].
  by eapply lookup_weaken.
Qed.

Lemma frame_held_charge (dflt b : option nat) n k f :
  reservationBudget f = b → reservedBytes f = n → (b = None → dflt = None) →
  frame_held dflt k f = charge b n k.
Proof.
  intros <- <- Hb. unfold frame_held, budget_of. destruct (reservationBudget f); [done|]. by rewrite Hb.
Qed.

(** ** Acknowledgements *)

(** The frames that a vector of ids acknowledges, in the order of the vector. *)
Fixpoint acks (ids : list Z) (p : gmap Z frame) : list (Z * frame) :=
  match ids with
  | [] => []
  | id :: ids => match p !! id with Some f => (id, f) :: acks ids (delete id p) | None => acks ids p end
  end.

Definition ack_detail (a : Z * frame) : outboundAcknowledgement :=
  mkAck (reqMsgID a.2) (logicalSize a.2) (sentAt a.2).

(** The ring after one more acknowledged id. *)
Definition remember (r : list Z) (id : Z) : list Z :=
  if bool_decide (id ∈ r) then r
  else (if (length r <? maxTrackedAckedMsgIDs)%nat then r else tail r) ++ [id].

Definition remove_all (ids : list Z) (p : gmap Z frame) : gmap Z frame :=
  foldr delete p ids.

Lemma remove_all_delete ids id (p : gmap Z frame) : remove_all ids (delete id p) = delete id (remove_all ids p).
Proof. induction ids as [|x ids IH]; simpl; [done|]. by rewrite IH, delete_delete. Qed.

Lemma remove_all_lookup ids id (p : gmap Z frame) :
  remove_all ids p !! id = if bool_decide (id ∈ ids) then None else p !! id.
Proof.
  induction ids as [|x ids IH]; simpl; [done|].
  destruct (decide (id = x)) as [->|Hne].
  - rewrite lookup_delete_eq, bool_decide_true; [done|]. apply list_elem_of_here.
  - rewrite lookup_delete_ne, IH by done. destruct (decide (id ∈ ids)).
    + by rewrite !bool_decide_true by (rewrite ?elem_of_cons; auto).
    + by rewrite !bool_decide_false by (rewrite ?elem_of_cons; naive_solver).
Qed.

Lemma acks_spec ids : ∀ p : gmap Z frame,
  NoDup (acks ids p).*1 ∧ ∀ id f, (id, f) ∈ acks ids p ↔ id ∈ ids ∧ p !! id = Some f.
Proof.
  induction ids as [|x ids IH]; intros p; simpl.
  { split; [constructor|]. intros id f. rewrite !elem_of_nil. naive_solver. }
  destruct (p !! x) as [g|] eqn:E.
  - destruct (IH (delete x p)) as [Hn Hm]. split.
    + simpl. apply NoDup_cons. split; [|done]. intros Hin.
      apply list_elem_of_fmap in Hin as ([y h] & -> & [_ Hy]%Hm). simpl in Hy. by rewrite lookup_delete_eq in Hy.
    + intros id f. rewrite !elem_of_cons, Hm. destruct (decide (id = x)) as [->|Hne].
      * rewrite lookup_delete_eq. naive_solver.
      * rewrite lookup_delete_ne by done. naive_solver.
  - destruct (IH p) as [Hn Hm]. split; [done|]. intros id f. rewrite Hm, elem_of_cons. naive_solver.
Qed.

Lemma ack_loop_inv H out ids w :
  outbox_inv H out w →
  wp (ack_loop ids) (λ l w', outbox_inv H out w' ∧ evolves (λ j _, j ∈ ids) w w' ∧ wire w' = wire w ∧
    l = ack_detail <$> acks ids (pending (box w)) ∧
    pending (box w') = remove_all ids (pending (box w)) ∧
    recent (box w') = foldl remember (recent (box w)) (acks ids (pending (box w))).*1 ∧
    lastMsgID (box w') = lastMsgID (box w) ∧ sentContentMessages (box w') = sentContentMessages (box w)) w.
Proof.
  revert w. induction ids as [|id ids IH]; intros w Hi; simpl.
  { wp_step. split_and!; try done. apply evolves_refl. }
  do 2 wp_step. destruct (pending (box w) !! id) as [f|] eqn:E.
  - wp_step. eapply wp_mono; [by apply removePending_inv|]. cbv beta.
    intros r w1 (Hi1 & Hev1 & Hw1 & -> & Hp1 & Ha1 & Ho1 & Hh1 & Hl1 & Hs1).
    rewrite E, bool_decide_true by eauto. cbv iota. do 2 wp_step. simpl.
    destruct (markAcked_ok id (box w1) (oi_box _ _ _ Hi1)) as (Hbox & Hpend & _ & Hrec).
    assert (∀ s : outboundState Src, sbudget (markAcked id s) = sbudget s ∧ maxMessages (markAcked id s) = maxMessages s
      ∧ maxBytes (markAcked id s) = maxBytes s ∧ lastMsgID (markAcked id s) = lastMsgID s
      ∧ sentContentMessages (markAcked id s) = sentContentMessages s) as Hsame.
    { intros s. unfold markAcked. destruct (bool_decide (id ∈ acked s)); [done|].
      by destruct (length (ackOrder s) <? maxTrackedAckedMsgIDs)%nat. }
    destruct (Hsame (box w1)) as (? & ? & ? & HL & HS).
    destruct (same_frames_inv H out w1 _ Hi1 Hbox) as [Hi2 Hev2]; try done.
    wp_step. eapply wp_mono; [by apply IH|]. cbv beta. intros l w3 (Hi3 & Hev3 & Hw3 & -> & Hp3 & Hr3 & Hl3 & Hs3).
    wp_step. simpl in *. rewrite Hpend, Hp1 in *.
    split_and!; try congruence.
    + eapply evolves_trans; [by intros ?| |eapply evolves_trans; [by intros ?| |]].
      * eapply evolves_weaken; [|exact Hev1]. simpl. intros j _ ->. apply list_elem_of_here.
      * eapply evolves_weaken; [|exact Hev2]. done.
      * eapply evolves_weaken; [|exact Hev3]. simpl. intros j _. apply list_elem_of_further.
    + done.
    + rewrite Hp3. apply remove_all_delete.
    + rewrite Hr3, Hrec. f_equal. unfold remember. unfold recent. rewrite Ho1, Hh1. done.
  - eapply wp_mono; [by apply IH|]. cbv beta. intros l w3 (Hi3 & Hev3 & Hw3 & -> & Hp3 & Hr3 & Hl3 & Hs3).
    split_and!; try done.
    + eapply evolves_weaken; [|exact Hev3]. simpl. intros j _. apply list_elem_of_further.
    + rewrite Hp3. rewrite delete_id; [done|]. rewrite remove_all_lookup. by case_bool_decide.
Qed.

Lemma compactOrder_inv H out w :
  outbox_inv H out w →
  outbox_inv H out (set_box (compactOrder (box w)) w) ∧ evolves nothing w (set_box (compactOrder (box w)) w).
Proof.
  intros Hi. apply same_frames_inv; try done. destruct (oi_box _ _ _ Hi). split; try done.
  simpl. intros id Hid. apply list_elem_of_filter. auto.
Qed.

Lemma ackWithDetails_inv H out ids w :
  outbox_inv H out w →
  wp (ackWithDetails ids) (λ l w', outbox_inv H out w' ∧ evolves (λ j _, j ∈ ids) w w' ∧ wire w' = wire w ∧
    l = ack_detail <$> acks ids (pending (box w)) ∧
    pending (box w') = remove_all ids (pending (box w)) ∧
    recent (box w') = foldl remember (recent (box w)) (acks ids (pending (box w))).*1 ∧
    lastMsgID (box w') = lastMsgID (box w) ∧ sentContentMessages (box w') = sentContentMessages (box w)) w.
Proof.
  intros Hi. unfold ackWithDetails. wp_step. eapply wp_mono; [by apply ack_loop_inv|]. cbv beta.
  intros l w1 (Hi1 & Hev1 & Hw1 & -> & Hp1 & Hr1 & Hl1 & Hs1). do 3 wp_step.
  destruct (_ <? _); [|by split_and!].
  destruct (compactOrder_inv _ _ _ Hi1) as [Hi2 Hev2]. split_and!; try done.
  eapply evolves_trans; [by intros ?|done|]. by eapply evolves_weaken; [|exact Hev2].
Qed.

(** Every acknowledged frame gives its bulk credit back. *)
Definition credit_back w w' (a : Z * frame) : Prop :=
  ∀ c, bulkCredit a.2 = Some c → (c < length (leases (bulk w)))%nat → is_released (leases (bulk w')) c.

Lemma credits_advance_trans b1 b2 b3 : advances b1 b2 → advances b2 b3 → advances b1 b3.
Proof. intros [L1 A1] [L2 A2]. split; [congruence|auto]. Qed.

Lemma releaseReservation_bulk f dflt w u w' :
  releaseReservation f dflt w = Some (u, w') → bulk w' = bulk w ∧ box w' = box w.
Proof.
  unfold releaseReservation, release_bytes, mret, GoM_ret.
  destruct (reservedBytes f <=? 0); [by intros; simplify_eq|].
  destruct (_ ≫= _); [|by intros; simplify_eq]. destruct (_ <? _); [done|]. by intros; simplify_eq.
Qed.

Lemma release_credit_bulk c w u w' :
  release_credit c w = Some (u, w') →
  box w' = box w ∧ advances (bulk w) (bulk w') ∧
  ∀ i, c = Some i → (i < length (leases (bulk w)))%nat → is_released (leases (bulk w')) i.
Proof.
  unfold release_credit. destruct c as [i|]; [|by intros; simplify_eq].
  pose proof (release_advances i (bulk w)) as [Ha Hd].
  destruct (CreditWindow.release i (bulk w)) as [run b]. intros; simplify_eq.
  split_and!; [done|done|]. by intros ? [= <-].
Qed.

Lemma removePending_credit id w r w' f :
  removePending id w = Some (r, w') → pending (box w) !! id = Some f →
  r = true ∧ pending (box w') = delete id (pending (box w)) ∧
  advances (bulk w) (bulk w') ∧ credit_back w w' (id, f).
Proof.
  unfold removePending. intros E Ef. go_inv E. rewrite Ef in E. go_inv E.
  match goal with K : release_credit _ _ = Some _ |- _ => apply release_credit_bulk in K as (Hb1 & Ha & Hd) end.
  match goal with K : releaseReservation _ _ _ = Some _ |- _ => apply releaseReservation_bulk in K as [Hb Hb2] end.
  simpl in *. rewrite Hb2, Hb, Hb1. split_and!; [done|done|done|]. intros c Hc Hlt. rewrite Hb. by apply Hd.
Qed.

Lemma ack_loop_credit ids w l w' :
  ack_loop ids w = Some (l, w') →
  advances (bulk w) (bulk w') ∧ Forall (credit_back w w') (acks ids (pending (box w))).
Proof.
  revert w l. induction ids as [|id ids IH]; intros w l E; simpl in *.
  { injection E as <- <-. split; [done|constructor]. }
  apply bind_Some in E as (s & w0 & E0 & E). injection E0 as <- <-.
  destruct (pending (box w) !! id) as [f|] eqn:Ef; [|by eapply IH].
  apply bind_Some in E as (r & w1 & E1 & E).
  destruct (removePending_credit _ _ _ _ _ E1 Ef) as (-> & Hp1 & Ha1 & Hc1).
  go_inv E. match goal with K : ack_loop _ _ = Some _ |- _ => apply IH in K as [Ha2 Hc2] end. simpl in *.
  assert (pending (markAcked id (box w1)) = delete id (pending (box w))) as Hp2.
  { unfold markAcked. destruct (bool_decide (id ∈ acked (box w1))); [done|].
    by destruct (length (ackOrder (box w1)) <? maxTrackedAckedMsgIDs)%nat. }
  rewrite Hp2 in Hc2. split; [by eapply credits_advance_trans|]. apply Forall_cons. split.
  - intros c Hc Hlt. destruct Ha2 as [_ Ha2]. apply Ha2. by apply Hc1.
  - eapply Forall_impl; [exact Hc2|]. intros a Hb c Hc Hlt. apply Hb; [done|].
    simpl. by rewrite (proj1 Ha1).
Qed.

Lemma ackWithDetails_credit ids w l w' :
  ackWithDetails ids w = Some (l, w') →
  Forall (credit_back w w') (acks ids (pending (box w))).
Proof.
  unfold ackWithDetails. intros E. apply bind_Some in E as (l1 & w1 & E1 & E).
  apply ack_loop_credit in E1 as [_ Hc]. go_inv E. eapply Forall_impl; [exact Hc|].
  intros a Hb c ? ?. destruct (_ <? _); by apply Hb.
Qed.

(** ** A frame is built and written *)

Lemma reserveMsgID_inv H out w env :
  outbox_inv H out w → room env w →
  wp (reserveMsgID (new_msgID env)) (λ id w', outbox_inv H out w' ∧ evolves nothing w w' ∧ wire w' = wire w ∧
    id = Z.max (new_msgID env) (if new_msgID env <=? lastMsgID (box w) then lastMsgID (box w) + 4 else 0) ∧
    lastMsgID (box w) < id ∧ lastMsgID (box w') = id ∧
    sentContentMessages (box w') = sentContentMessages (box w) ∧ pending (box w') = pending (box w) ∧
    sbudget (box w') = sbudget (box w)) w.
Proof.
  intros Hi [Hseq Hid Hlast]. pose proof (oi_last _ _ _ Hi). unfold reserveMsgID. do 2 wp_step.
  assert (wrap64 (lastMsgID (box w) + 4) = lastMsgID (box w) + 4) as Hwrap.
  { apply wrap64_id. unfold in_int64, min_int64, two63. lia. }
  rewrite Hwrap. set (c := if _ <=? _ then _ else _).
  assert (lastMsgID (box w) < c) as Hc by (unfold c; destruct (Z.leb_spec (new_msgID env) (lastMsgID (box w))); lia).
  assert (pending (box w) !! c = None) as Hfree.
  { destruct (pending (box w) !! c) as [f|] eqn:E; [|done].
    pose proof (oi_ids _ _ _ Hi _ _ (oi_pending _ _ _ Hi _ _ E)). lia. }
  simpl. rewrite Hfree. do 3 wp_step.
  split_and!; try done.
  - destruct Hi as [[] ? ? ? ? ? Hids ? ? ? ?]. split; simpl; try done; [|lia].
    intros id i Hh. specialize (Hids _ _ Hh). lia.
  - apply Build_evolves; simpl; try done; [eauto using same_message_refl|lia|exists []; by rewrite app_nil_r].
  - unfold c. destruct (Z.leb_spec (new_msgID env) (lastMsgID (box w))); lia.
Qed.

(** The frame that [buildFrameWithState] makes of [e]. *)
Record built (H : gmap Z identity) e w f : Prop := {
  bt_type : f_typeID f = e_typeID e;
  bt_body : body f = e_body e;
  bt_req : reqMsgID f = e_reqMsgID e;
  bt_logical : logicalBytes f = e_logicalBytes e;
  bt_source : replaySource f = e_replaySource e;
  bt_credit : bulkCredit f = e_bulkCredit e;
  bt_id : 0 < msgID f;
  bt_identity : H !! msgID f = Some (identity_of f) ∧ frameNeedsAck (f_typeID f) = true ∨
    H !! msgID f = None ∧ 0 < msgID f ≤ lastMsgID (box w) ∧
    seqNo f = peekSeqNo (box w) (frameNeedsAck (f_typeID f));
  bt_unsent : sentAt f = None;
  bt_has_body : has_body f;
}.

Lemma buildFrameWithState_inv H out w env e :
  outbox_inv H out w → room env w → encoded_ok H e →
  wp (buildFrameWithState env e) (λ r w', outbox_inv H out w' ∧ evolves nothing w w' ∧ wire w' = wire w ∧
    sentContentMessages (box w') = sentContentMessages (box w) ∧
    lastMsgID (box w') ≤ Z.max (new_msgID env) (lastMsgID (box w) + 4) ∧
    match r with OK f => built H e w' f | ERR err => err ≠ ErrOutboundTrackedBudget end) w.
Proof.
  intros Hi Hroom He. pose proof (oi_last _ _ _ Hi). unfold buildFrameWithState.
  destruct (validateOutboundLayerBinding _ _) as [err|] eqn:Ev.
  { wp_step. split_and!; try done; [apply evolves_refl|lia|].
    intros ->. unfold validateOutboundLayerBinding in Ev. repeat split_match_in Ev; congruence. }
  destruct (_ && _). { wp_step. split_and!; try done; [apply evolves_refl|lia]. }
  wp_step. destruct (Z.eqb_spec (e_replayMsgID e) 0) as [Er|Er].
  - wp_step. eapply wp_mono; [by apply reserveMsgID_inv|]. cbv beta.
    intros id w1 (Hi1 & Hev1 & Hw1 & Hidv & Hlt & Hl1 & Hs1 & Hp1 & Hb1). do 4 wp_step.
    pose proof (rm_id _ _ Hroom).
    split_and!; try done; [destruct (_ <=? _); lia|]. simpl.
    split; try done; simpl; [lia| |apply He]. right. split_and!; [|lia|lia|done].
    destruct (H !! id) eqn:E; [|done]. pose proof (oi_ids _ _ _ Hi _ _ E). lia.
  - destruct (ek_replay _ _ He Er) as [Hc HH]. do 2 wp_step. split_and!; try done; [apply evolves_refl|lia|].
    pose proof (oi_ids _ _ _ Hi _ _ HH). split; try done; simpl; [lia| |apply He]. by left.
Qed.

Lemma writeFrame_inv H out w env i f :
  outbox_inv H out w → H !! msgID f = Some (identity_of f) → has_body f →
  wp (writeFrame env i f) (λ r w', outbox_inv H out w' ∧ evolves nothing w w' ∧ box w' = box w ∧
    (r.1 = None → wire w' = wire w ++ [f]) ∧ (r.1 ≠ None → wire w' = wire w)) w.
Proof.
  intros Hi HH Hbody. unfold writeFrame. destruct (write_to env i).
  - do 3 wp_step. split_and!; try done.
    + destruct Hi. split; simpl; try done. intros g [?| ->%list_elem_of_singleton]%elem_of_app; auto.
    + split; simpl; try done; [eauto using same_message_refl|by exists [f]].
  - wp_step. split_and!; try done. apply evolves_refl.
  - do 3 wp_step. split_and!; try done; [by destruct Hi|]. by apply quiet_evolves.
Qed.

Lemma retire_inv H out w : outbox_inv H out w → quiet w (retire w) ∧ outbox_inv H out (retire w).
Proof. intros []. split; [done|by split]. Qed.

(** A service message gets its meaning when it is first written. *)
Lemma register_inv H out w id i :
  outbox_inv H out w → H !! id = None → 0 < id ≤ lastMsgID (box w) → frameNeedsAck (i_typeID i) = false →
  outbox_inv (<[id := i]> H) out w.
Proof.
  intros Hi E Hid Hc. destruct Hi as [? ? ? ? Hp Hw Hids Ho Hs ? ?]. split; try done.
  - intros j f Hj. rewrite lookup_insert_ne; [eauto|]. intros <-. rewrite (Hp _ _ Hj) in E. done.
  - intros f Hf. destruct (Hw _ Hf). split; [|done]. rewrite lookup_insert_ne; [done|]. congruence.
  - intros j i' [[<- <-]|[? Hj]]%lookup_insert_Some; [done|eauto].
  - intros j i' [[<- <-]|[? Hj]]%lookup_insert_Some Hn; [congruence|eauto].
  - intros j j' i1 i2 [[<- <-]|[? Hj]]%lookup_insert_Some [[<- <-]|[? Hj']]%lookup_insert_Some ? ? ?;
      try congruence. by eapply (Hs j j').
Qed.

(** Budget, window and stamps: steps after which only the outside changes. *)
Definition after_send H out w (r : option outbound_error * Z) (b : option nat) w' : Prop :=
  ∃ H', H ⊆ H' ∧ outbox_inv H' (λ k, out k + charge b r.2 k) w' ∧ evolves nothing w w' ∧
    lastMsgID (box w') = lastMsgID (box w) ∧ sentContentMessages (box w') ≤ sentContentMessages (box w) + 1.

Lemma after_send_trans H out w r b w1 w2 :
  after_send H out w r b w1 → quiet w1 w2 →
  (∀ H', outbox_inv H' (λ k, out k + charge b r.2 k) w1 → outbox_inv H' (λ k, out k + charge b r.2 k) w2) →
  after_send H out w r b w2.
Proof.
  intros (H' & Hs & Hi & He & Hl & Hse) Hq Hinv. exists H'. pose proof Hq as [Hb _]. rewrite Hb.
  split_and!; auto. eapply evolves_trans; [by intros ?|done|]. by apply quiet_evolves.
Qed.

Lemma wrap32_id z : -2147483648 ≤ z < 2147483648 → wrap32 z = z.
Proof. intros. unfold wrap32. rewrite Z.mod_small; lia. Qed.

(** A frame that is admitted leads to [P] of its outcome. *)
Lemma admit_frame_inv H out w e f b reserved :
  outbox_inv H (λ k, out k + charge b reserved k) w → (∀ k, 0 ≤ out k) →
  (b = None → sbudget (box w) = None) → encoded_ok H e → built H e w f →
  sentContentMessages (box w) < 1073741823 → frameNeedsAck (f_typeID f) = true →
  pending (box w) !! msgID f = None →
  wp (admit_frame f b reserved) (λ r w',
    match r.1 with
    | Some err => w' = w ∧ r.2 = false
    | None => outbox_inv (<[msgID f := identity_of f]> H) out w' ∧ evolves nothing w w' ∧
        sentContentMessages (box w') = sentContentMessages (box w) + 1 ∧
        lastMsgID (box w') = lastMsgID (box w) ∧ wire w' = wire w ∧
        pending (box w') = <[msgID f := set_reservation reserved b f]> (pending (box w))
    end) w.
Proof.
  intros Hi Hout Hb He Hf Hroom Hc E. unfold admit_frame.
  destruct (_ <? _); [by wp_step|]. wp_step. unfold admitReserved. do 2 wp_step. simpl. rewrite E.
  destruct (Z.leb_spec (maxMessages (box w)) (Z.of_nat (size (pending (box w))))); simpl; [by do 2 wp_step|].
  set (f' := set_reservation reserved b f).
  destruct (Z.ltb_spec (maxBytes (box w)) (logicalSize f')); simpl; [by do 2 wp_step|].
  destruct (Z.ltb_spec (maxBytes (box w) - logicalSize f') (totalBytes (box w))); simpl; [by do 2 wp_step|].
  wp_step. eapply wp_mono; [eapply (insertReserved_inv H _ out w f'); try done|].
  - split; simpl; [done|done|rewrite (bt_logical _ _ _ _ Hf); apply He| |left; apply Hf].
    rewrite (bt_logical _ _ _ _ Hf), (bt_source _ _ _ _ Hf). apply He.
  - destruct (bt_identity _ _ _ _ Hf) as [[HH _]|(HH & Hid & Hseq)]; [by left|right].
    split_and!; [done|exact (proj1 Hid)|exact (proj2 Hid)|]. simpl. rewrite Hseq, Hc.
    pose proof (oi_sent _ _ _ Hi). unfold peekSeqNo. rewrite (wrap32_id (_ * 2)), wrap32_id; lia.
  - lia.
  - eapply inv_ext; [|exact Hi]. intros k. cbv beta. by rewrite (frame_held_charge _ b reserved k f').
  - cbv beta. intros _ w' (? & ? & ? & ? & ? & ?). do 2 wp_step. by split_and!.
Qed.

(** A replay lends its body to the pending frame of the same message. *)
Lemma lent_body f g :
  identity_of f = identity_of g →
  identity_of (set_body (body f) g) = identity_of g ∧ (has_body f → has_body (set_body (body f) g)).
Proof.
  intros Hfg. unfold identity_of, has_body in *. simpl. injection Hfg as Hs Ht Hr Hc.
  assert (kept_digest (replaySource f) (innerDigest f) = kept_digest (replaySource g) (innerDigest g)) as Hk.
  { unfold content_of, kept_digest in *. destruct (replaySource f), (replaySource g); congruence. }
  rewrite <- Hc, <- Hk, <- Ht, <- Hr. split; [congruence|done].
Qed.

Lemma send_frame_inv H out w env e f b reserved :
  outbox_inv H (λ k, out k + charge b reserved k) w → (∀ k, 0 ≤ out k) →
  (b = None → sbudget (box w) = None) → encoded_ok H e → built H e w f →
  sentContentMessages (box w) < 1073741823 →
  wp (send_frame env e f b reserved) (λ r w', after_send H out w r b w' ∧
    (r.1 = None → ∃ p, wire w' = wire w ++ [p] ∧ msgID p = msgID f ∧ identity_of p = identity_of f ∧ body p = body f ∧
       (frameNeedsAck (f_typeID f) = true → is_Some (pending (box w') !! msgID f)))) w.
Proof.
  intros Hi Hout Hb He Hf Hroom. unfold send_frame. do 2 wp_step.
  rewrite (proj2 (Z.eqb_neq (msgID f) 0)) by (pose proof (bt_id _ _ _ _ Hf); lia).
  rewrite andb_true_r. destruct (frameNeedsAck (f_typeID f)) eqn:Ec.
  - destruct (pending (box w) !! msgID f) as [g|] eqn:E.
    + pose proof (fk_id _ _ (bk_frames _ (oi_box _ _ _ Hi) _ _ E)) as Hgid.
      pose proof (oi_pending _ _ _ Hi _ _ E) as HH.
      assert (identity_of f = identity_of g) as Hfg.
      { destruct (bt_identity _ _ _ _ Hf) as [[HH' _]|[HH' _]]; congruence. }
      destruct (lent_body f g Hfg) as [Hlent Hlb].
      wp_step. eapply wp_mono; [apply writeFrame_inv; [done| |by apply Hlb, Hf]|].
      { simpl. rewrite Hgid, Hlent. exact HH. }
      cbv beta. intros r w1 (Hi1 & Hev1 & Hb1 & Hok & _). wp_step. rewrite <- Hb1 in E. split.
      * exists H. rewrite Hb1. split_and!; try done. lia.
      * intros Hr. exists (set_body (body f) g). split_and!; eauto. simpl.
        congruence.
    + wp_step. eapply wp_mono; [by eapply admit_frame_inv|]. cbv beta. intros [[err|] adm] w1; simpl.
      * intros [-> ->]. wp_step.
        assert (wp (if bool_decide (err = ErrOutboundTrackedBudget) then modify retire else mret ())
                  (λ _ w', quiet w w' ∧ outbox_inv H (λ k, out k + charge b reserved k) w') w) as Hret.
        { case_bool_decide; wp_step; [by apply retire_inv|done]. }
        eapply wp_mono; [exact Hret|]. cbv beta. intros _ w2 [Hq2 Hi2]. wp_step.
        eapply wp_mono; [by apply release_credit_inv|]. cbv beta. intros _ w3 [Hq3 Hi3]. wp_step.
        split; [|done]. pose proof (quiet_trans _ _ _ Hq2 Hq3) as Hq. exists H. pose proof Hq as [Hbx _].
        rewrite Hbx. split_and!; try done; [|lia]. by apply quiet_evolves.
      * intros (Hi1 & Hev1 & Hs1 & Hl1 & Hw1 & Hp1). wp_step.
        set (H' := <[msgID f := identity_of f]> H) in *.
        assert (H ⊆ H') as Hsub.
        { unfold H'. destruct (bt_identity _ _ _ _ Hf) as [[HH _]|[HH _]].
          - by rewrite insert_id. - by apply insert_subseteq. }
        eapply wp_mono; [apply (writeFrame_inv H'); [done|by apply lookup_insert_eq|by apply Hf]|].
        cbv beta. intros r w2 (Hi2 & Hev2 & Hb2 & Hok2 & _). wp_step.
        eapply wp_mono; [by apply (stamp_inv H' out w2 (msgID f) (λ _, sentAt r.2) (λ _, sends r.2))|]. cbv beta. intros _ w3 (Hi3 & Hev3 & Hw3 & Hl3 & Hs3). wp_step.
        assert (wp (match replaySource f with Some _ => compactImmutableFrame (msgID f) ;; mret () | None => mret () end)
          (λ _ w4, outbox_inv H' out w4 ∧ evolves nothing w3 w4 ∧ wire w4 = wire w3 ∧
             lastMsgID (box w4) = lastMsgID (box w3) ∧ sentContentMessages (box w4) = sentContentMessages (box w3)) w3) as Hc.
        { destruct (replaySource f).
          - wp_step. eapply wp_mono; [by apply compactImmutableFrame_inv|]. done.
          - wp_step. split_and!; try done. apply evolves_refl. }
        simpl. eapply wp_mono; [exact Hc|]. cbv beta. intros _ w4 (Hi4 & Hev4 & Hw4 & Hl4 & Hs4). wp_step.
        assert (evolves nothing w1 w4) as Hev14 by (do 2 (eapply evolves_trans; [by intros ?|done|]); done).
        assert (outbox_inv H' (λ k, out k + charge b 0 k) w4) as Hi4'.
        { eapply inv_ext; [|exact Hi4]. intros k. unfold charge. case_bool_decide; lia. }
        split.
        -- exists H'. rewrite Hb2 in *. split_and!; try done; [by eapply evolves_trans; [by intros ?| |]|congruence|lia].
        -- simpl. intros Hr. exists (set_reservation reserved b f).
           split_and!; try done; [rewrite Hw4, Hw3, (Hok2 Hr), Hw1; done|]. intros _.
           destruct (ev_kept _ _ _ Hev14 (msgID f) (set_reservation reserved b f)) as (g & Hg & _); [|by intros []|by eexists].
           by rewrite Hp1, lookup_insert_eq.
  - destruct (bt_identity _ _ _ _ Hf) as [[_ ?]|(HH & Hid & _)]; [congruence|].
    set (H' := <[msgID f := identity_of f]> H).
    wp_step. eapply wp_mono; [apply (writeFrame_inv H'); [by apply register_inv|by apply lookup_insert_eq|by apply Hf]|].
    cbv beta. intros r w1 (Hi1 & Hev1 & Hb1 & Hok & _). wp_step.
    eapply wp_mono; [by apply release_credit_inv|]. cbv beta. intros _ w2 [Hq2 Hi2]. wp_step.
    pose proof Hq2 as [Hb2 Hw2]. split.
    + exists H'. rewrite Hb2, Hb1. split_and!; try done; [by apply insert_subseteq| |lia].
      eapply evolves_trans; [by intros ?|done|]. by apply quiet_evolves.
    + simpl. intros Hr. exists f. rewrite Hw2. split_and!; auto. done.
Qed.
End Run.

Section Handlers.
Context {Src : Type} `{!ReplaySource Src} (sha256 : list Z → list Z) (rpc_result_id : Z) {strict : Prop}.

Abbreviation frame := (outboundFrame Src).
Abbreviation world := (outWorld Src).
Abbreviation encoded := (encodedOutboundMessage Src).
Implicit Types (f g : frame) (w : world) (e : encoded).

(** The body of the result of [req] whose inner bytes are [x]. *)
Definition result_body (req : Z) (x : list Z) : list Z := le_bytes 4 rpc_result_id ++ le_bytes 8 req ++ x.

(** A result names its request in its body, and a body that can be built again
    matches the digest that is kept of it.  Of the results that the caller brings
    already framed this is known if [strict] says so. *)
#[local] Instance result_bodies : BodyRule := λ t req kept b,
  match kept with
  | Some digest => ∃ x, b = result_body req x ∧ sha256 x = digest
  | None => strict → t = ResultTypeID → ∃ x, b = result_body req x
  end.

(** ** Bodies *)

Lemma le_value_le_bytes n z : le_value (le_bytes n z) = z mod 256 ^ Z.of_nat n.
Proof.
  revert z. induction n as [|n IH]; intros z; cbn [le_bytes le_value]; [by rewrite Z.mod_1_r|].
  rewrite IH, Nat2Z.inj_succ, Z.pow_succ_r, Z.rem_mul_r by lia. lia.
Qed.

Lemma le_bytes_congr n z z' : z mod 256 ^ Z.of_nat n = z' mod 256 ^ Z.of_nat n → le_bytes n z = le_bytes n z'.
Proof.
  revert z z'. induction n as [|n IH]; intros z z' E; [done|]. cbn [le_bytes].
  rewrite Nat2Z.inj_succ, Z.pow_succ_r, !Z.rem_mul_r in E by lia.
  pose proof (Z.mod_pos_bound z 256). pose proof (Z.mod_pos_bound z' 256).
  f_equal; [lia|]. apply IH. lia.
Qed.

Lemma put_int64_twice b z z' : (12 ≤ length b)%nat → put_int64 (put_int64 b 4 z) 4 z' = put_int64 b 4 z'.
Proof.
  intros Hb. unfold put_int64.
  assert (length (take 4 b) = 4%nat) as Ht by (rewrite length_take; lia).
  rewrite (take_app_length' (take 4 b)) by done. do 2 f_equal.
  rewrite app_assoc, (drop_app_length' (take 4 b ++ le_bytes 8 z)); [done|].
  rewrite length_app, Ht, le_bytes_length. done.
Qed.

Lemma put_result_body req req' x : put_int64 (result_body req x) 4 req' = result_body req' x.
Proof. reflexivity. Qed.

(** A body that already names its request is not rewritten. *)
Lemma named_result_body req req' x :
  int64_at (result_body req x) 4 = req' → result_body req x = result_body req' x.
Proof.
  change (wrap64 (le_value (le_bytes 8 req)) = req' → result_body req x = result_body req' x).
  rewrite le_value_le_bytes. intros <-. unfold result_body. do 2 f_equal.
  apply le_bytes_congr. change (256 ^ Z.of_nat 8) with two64.
  unfold wrap64. rewrite Zminus_mod_idemp_l, Z.add_simpl_r. by rewrite Z.mod_mod.
Qed.

Lemma blen_nonneg (b : list Z) : 0 ≤ blen b.
Proof. unfold blen. lia. Qed.

(** ** Sending *)

Lemma beginWriting_inv H out w e :
  outbox_inv H out w → wp (beginWriting e) (λ _ w', quiet w w' ∧ outbox_inv H out w') w.
Proof.
  intros Hi. unfold beginWriting. do 2 wp_step. destruct (e_delivery e ≫= _); [|by wp_step].
  do 3 wp_step. split; [done|]. destruct Hi. by split.
Qed.

(** A body that is moved to another request or built again follows the rule and
    is the same content. *)
Lemma materialize_body e req moment b :
  materializeRPCResultBody sha256 rpc_result_id e req moment = OK b →
  message_has_body e ∨ e_body e = [] →
  let kept := kept_digest (e_replaySource e) (e_innerDigest e) in
  body_rule (e_typeID e) req kept b ∧ content_of (e_typeID e) kept b = content_of_message e.
Proof.
  intros E Hbody kept. unfold materializeRPCResultBody in E. destruct (_ || _) eqn:Eg; [done|].
  apply orb_false_iff in Eg as [Ht%negb_false_iff%bool_decide_eq_true_1 Hreq].
  unfold content_of_message, message_has_body, body_rule, result_bodies in *. fold kept in Hbody |- *.
  destruct (Z.leb_spec 12 (blen (e_body e))) as [Hlen|Hlen].
  - destruct Hbody as [Hbody|Hnil]; [|by rewrite Hnil in Hlen].
    assert (∀ x, e_body e = result_body (e_reqMsgID e) x → b = result_body req x) as Hb.
    { intros x Hx. rewrite Hx in E. destruct (Z.eqb_spec (int64_at (result_body (e_reqMsgID e) x) 4) req); simplify_eq.
      - by apply named_result_body. - apply put_result_body. }
    destruct kept as [digest|]; simpl.
    + destruct Hbody as (x & Hx & Hd). split; [|done]. exists x. auto.
    + split; [intros Hs Hty; destruct (Hbody Hs Hty) as [x Hx]; exists x; auto|].
      rewrite bool_decide_true by done. f_equal.
      destruct (int64_at (e_body e) 4 =? req); simplify_eq; [done|]. apply put_int64_twice. unfold blen in Hlen. lia.
  - destruct (e_replaySource e) as [src|]; [|done]. destruct (e_compressed e); [done|].
    destruct (EncodeInner src moment) as [inner|]; [|done]. destruct (_ || _) eqn:Ex; [done|].
    destruct (_ && _); [done|]. injection E as <-. simpl. split; [|done]. exists inner. split; [done|].
    apply orb_false_iff in Ex as [_ Ex]. by apply negb_false_iff, bool_decide_eq_true_1 in Ex.
Qed.

Lemma materialized_body f moment p :
  materialized sha256 rpc_result_id f moment = OK p → has_body f ∨ body f = [] →
  msgID p = msgID f ∧ identity_of p = identity_of f ∧ has_body p.
Proof.
  intros E Hf. unfold materialized in E. destruct (Z.ltb_spec 0 (blen (body f))) as [Hb|Hb].
  { injection E as <-. destruct Hf as [?|Hnil]; [done|]. by rewrite Hnil in Hb. }
  destruct (materializeRPCResultBody _ _ _ _ _) as [b|] eqn:Em; [|done]. injection E as <-.
  apply materialize_body in Em as [Hr Hc]; [|by right]. simpl in *. split; [done|]. split; [|exact Hr].
  unfold identity_of. simpl. f_equal. rewrite Hc. unfold content_of_message. simpl. f_equal.
  destruct (body f); [done|]. unfold blen in Hb. simpl in Hb. lia.
Qed.

Lemma clone_encoded_ok H e target moment e' :
  encoded_ok H e → cloneRPCResultForRequest sha256 rpc_result_id e target moment = OK e' → target ≠ e_reqMsgID e →
  encoded_ok H e'.
Proof.
  intros [? ? ? ?] E Hne. unfold cloneRPCResultForRequest in E. destruct (_ || _); [done|].
  destruct (materializeRPCResultBody _ _ _ _ _) eqn:Em; [|done]. injection E as <-.
  apply materialize_body in Em as [Hr _]; [|by left].
  split; simpl; [done|done| |exact Hr]. by destruct (Z.eqb_spec target (e_reqMsgID e)).
Qed.

Lemma retarget_result_inv H out w env b e reserved :
  outbox_inv H (λ k, out k + charge b reserved k) w → (∀ k, 0 ≤ out k) → encoded_ok H e →
  wp (retarget_result sha256 rpc_result_id env b e reserved) (λ t w', let '(err, e', r, sup) := t in
    quiet w w' ∧ outbox_inv H (λ k, out k + charge b sup k + charge b r k) w' ∧ encoded_ok H e') w.
Proof.
  intros Hi Hout He. unfold retarget_result. wp_step. eapply wp_mono; [by apply beginWriting_inv|]. cbv beta.
  intros target w1 [Hq1 Hi1].
  assert (∀ k, out k + charge b reserved k = out k + charge b 0 k + charge b reserved k) as Hz.
  { intros k. unfold charge. case_bool_decide; lia. }
  destruct (Z.eqb_spec target 0); simpl.
  { wp_step. split_and!; try done. exact (inv_ext _ _ _ _ Hz ltac:(done)). }
  destruct (Z.eqb_spec target (e_reqMsgID e)) as [|Hne]; simpl.
  { wp_step. split_and!; try done. exact (inv_ext _ _ _ _ Hz ltac:(done)). }
  wp_step. eapply wp_mono; [by apply reserve_bytes_inv|]. cbv beta. intros [] w2 [Hq2 Hi2]; simpl.
  - pose proof (quiet_trans _ _ _ Hq1 Hq2) as Hq.
    destruct (cloneRPCResultForRequest _ _ _ _ _) as [e'|err] eqn:Ec.
    + wp_step. split_and!; [done| |by eapply clone_encoded_ok].
      eapply inv_ext; [|exact Hi2]. intros k. simpl. lia.
    + wp_step. eapply wp_mono; [apply (release_bytes_inv H (λ k, out k + charge b reserved k)); [done|]|].
      { intros k. pose proof (held_charge_nonneg b reserved k). specialize (Hout k). lia. }
      cbv beta. intros _ w3 [Hq3 Hi3]. wp_step. split_and!; [by eapply quiet_trans| |done]. exact (inv_ext _ _ _ _ Hz ltac:(done)).
  - subst w2. wp_step. split_and!; try done. exact (inv_ext _ _ _ _ Hz ltac:(done)).
Qed.

(** What a send leaves: its bytes are with the frame it made pending or back in
    the budget. *)
Definition sent_ok H out env w w' : Prop :=
  ∃ H', H ⊆ H' ∧ outbox_inv H' out w' ∧ evolves nothing w w' ∧
    lastMsgID (box w') ≤ Z.max (new_msgID env) (lastMsgID (box w) + 4) ∧
    sentContentMessages (box w') ≤ sentContentMessages (box w) + 1.

Lemma handleOutboundSend_inv H out w env op e :
  let b := match op_reservationBudget op with Some b => Some b | None => sbudget (box w) end in
  outbox_inv H (λ k, out k + charge b (op_reservedBytes op) k) w → (∀ k, 0 ≤ out k) →
  room env w → encoded_ok H e →
  wp (handleOutboundSend sha256 rpc_result_id env op e) (λ err w', sent_ok H out env w w' ∧
    (err = None → ∃ p, wire w' = wire w ++ [p] ∧
       (frameNeedsAck (f_typeID p) = true → is_Some (pending (box w') !! msgID p)))) w.
Proof.
  intros b Hi Hout Hroom He. unfold handleOutboundSend. do 2 wp_step. fold b.
  wp_step. eapply wp_mono; [by apply retarget_result_inv|]. cbv beta.
  intros [[[err e'] r] sup] w1 (Hq1 & Hi1 & He'). pose proof Hq1 as [Hb1 Hw1].
  assert (∀ k, 0 ≤ out k + charge b sup k) as Hout1.
  { intros k. pose proof (held_charge_nonneg b sup k). specialize (Hout k). lia. }
  assert (room env w1) as Hroom1 by (destruct Hroom; split; by rewrite ?Hb1).
  pose proof (oi_last _ _ _ Hi).
  (* the frame *)
  wp_step. eapply (wp_mono _ (λ r' w2, outbox_inv H (λ k, out k + charge b sup k + charge b r k) w2 ∧
      evolves nothing w1 w2 ∧ wire w2 = wire w1 ∧ sentContentMessages (box w2) = sentContentMessages (box w1) ∧
      lastMsgID (box w2) ≤ Z.max (new_msgID env) (lastMsgID (box w1) + 4) ∧
      match r' with OK f => built H e' w2 f | ERR _ => True end)).
  { destruct err as [err|].
    - wp_step. split_and!; try done; [apply evolves_refl|rewrite Hb1; lia].
    - eapply wp_mono; [by apply buildFrameWithState_inv|]. cbv beta. intros [f|?] w2; naive_solver. }
  cbv beta. intros fr w2 (Hi2 & Hev2 & Hw2 & Hs2 & Hl2 & Hfr).
  (* the write *)
  wp_step. eapply (wp_mono _ (λ o w3, after_send H (λ k, out k + charge b sup k) w2 o b w3 ∧
    (o.1 = None → ∃ p, wire w3 = wire w2 ++ [p] ∧
       (frameNeedsAck (f_typeID p) = true → is_Some (pending (box w3) !! msgID p))))).
  { destruct fr as [f|err'].
    - eapply wp_mono; [apply (send_frame_inv H (λ k, out k + charge b sup k)); try done|].
      + intros Hbn. unfold b in Hbn. rewrite (ev_budget _ _ _ Hev2), Hb1. by destruct (op_reservationBudget op).
      + rewrite Hs2, Hb1. apply Hroom.
      + cbv beta. intros o w3 [Has Hp]. split; [done|]. intros Ho.
        destruct (Hp Ho) as (p & Hwp & Hid & Hidn & _ & Hpe). exists p. split; [done|].
        injection Hidn as _ -> _ _. by rewrite Hid.
    - wp_step. assert (wp (if bool_decide (err' = ErrOutboundTrackedBudget) then modify retire else mret ())
          (λ _ w', quiet w2 w' ∧ outbox_inv H (λ k, out k + charge b sup k + charge b r k) w') w2) as Hret.
      { case_bool_decide; wp_step; [by apply retire_inv|done]. }
      eapply wp_mono; [exact Hret|]. cbv beta. intros _ w3 [Hq3 Hi3]. wp_step.
      eapply wp_mono; [by apply release_credit_inv|]. cbv beta. intros _ w4 [Hq4 Hi4]. wp_step.
      split; [|done]. pose proof (quiet_trans _ _ _ Hq3 Hq4) as Hq. exists H. pose proof Hq as [Hbx _].
      rewrite Hbx. split_and!; try done; [by apply quiet_evolves|lia]. }
  cbv beta. intros o w3 [(H' & Hsub & Hi3 & Hev3 & Hl3 & Hs3) Hp]. wp_step.
  eapply wp_mono; [by apply (release_bytes_inv H' (λ k, out k + charge b sup k))|]. cbv beta.
  intros _ w4 [Hq4 Hi4]. wp_step. eapply wp_mono; [by apply release_bytes_inv|]. cbv beta.
  intros _ w5 [Hq5 Hi5]. wp_step. pose proof (quiet_trans _ _ _ Hq4 Hq5) as [Hb5 Hw5]. split.
  - exists H'. rewrite Hb5. split_and!; try done.
    + eapply evolves_trans; [by intros ?|by apply quiet_evolves|].
      eapply evolves_trans; [by intros ?|exact Hev2|].
      eapply evolves_trans; [by intros ?|exact Hev3|]. by apply quiet_evolves.
    + rewrite <- Hb1. lia.
    + rewrite <- Hb1. lia.
  - intros Ho. destruct (Hp Ho) as (p & Hwp & Hpe). exists p. rewrite Hw5, Hwp, Hw2, Hw1, Hb5. done.
Qed.

(** ** Resending *)

Lemma materializeFrameForWrite_inv H out w env i f :
  outbox_inv H out w → has_body f ∨ body f = [] →
  wp (materializeFrameForWrite sha256 rpc_result_id env i f) (λ m w', quiet w w' ∧
    match m with
    | ERR _ => outbox_inv H out w'
    | OK (p, b, n) => outbox_inv H (λ k, out k + charge b n k) w' ∧
        msgID p = msgID f ∧ identity_of p = identity_of f ∧ has_body p
    end) w.
Proof.
  intros Hi Hf. unfold materializeFrameForWrite. destruct (_ <? _) eqn:Elt.
  { wp_step. split_and!; try done; [|destruct Hf as [?|Hnil]; [done|by rewrite Hnil in Elt]]. eapply inv_ext; [|exact Hi]. intros k. unfold charge. case_bool_decide; lia. }
  destruct (encode_slot env i); [by wp_step|].
  destruct (materialized sha256 rpc_result_id f i) as [p|] eqn:Em; [|by wp_step].
  apply materialized_body in Em as (? & ? & ?); [|done].
  wp_step. eapply wp_mono; [by apply reserve_bytes_inv|]. cbv beta.
  intros [] w1 [Hq1 Hi1]; wp_step; [done|]. by subst.
Qed.

Lemma resend_frame_inv H out w env i f :
  outbox_inv H out w → (∀ k, 0 ≤ out k) → H !! msgID f = Some (identity_of f) → has_body f ∨ body f = [] →
  wp (resend_frame sha256 rpc_result_id env i f) (λ r w', outbox_inv H out w' ∧ evolves nothing w w' ∧
    lastMsgID (box w') = lastMsgID (box w) ∧ sentContentMessages (box w') = sentContentMessages (box w) ∧
    (r = None → ∃ p, wire w' = wire w ++ [p] ∧ msgID p = msgID f ∧ identity_of p = identity_of f)) w.
Proof.
  intros Hi Hout HH Hf. unfold resend_frame. wp_step.
  eapply wp_mono; [by apply materializeFrameForWrite_inv|]. cbv beta.
  intros [[[p b] n]|err] w1 [Hq1 Hm]; pose proof Hq1 as [Hb1 Hw1].
  2:{ wp_step. rewrite Hb1. split_and!; try done. by apply quiet_evolves. }
  destruct Hm as (Hi1 & Hid & Hidn & Hpb). wp_step.
  eapply wp_mono; [apply writeFrame_inv; [exact Hi1|congruence|done]|]. cbv beta.
  intros r w2 (Hi2 & Hev2 & Hb2 & Hok & _). wp_step.
  eapply wp_mono; [by apply release_bytes_inv|]. cbv beta. intros _ w3 [Hq3 Hi3]. pose proof Hq3 as [Hb3 Hw3].
  assert (evolves nothing w w3) as Hev3.
  { eapply evolves_trans; [by intros ?|by apply quiet_evolves|].
    eapply evolves_trans; [by intros ?|exact Hev2|]. by apply quiet_evolves. }
  destruct r.1 as [err|].
  - wp_step. rewrite Hb3, Hb2, Hb1. by split_and!.
  - wp_step. eapply wp_mono; [by eapply stamp_inv|]. cbv beta. intros _ w4 (Hi4 & Hev4 & Hw4 & Hl4 & Hs4).
    wp_step. split_and!; try done; [by eapply evolves_trans; [by intros ?| |]|congruence|congruence|].
    intros _. exists p. rewrite Hw4, Hw3, (Hok eq_refl), Hw1. done.
Qed.

(** The frames that a resend of [ids] drops because their layer is outdated. *)
Definition outdated (env : environment) (ids : list Z) (id : Z) f : Prop :=
  id ∈ ids ∧ validateOutboundLayerBinding (profile env) (layer f) ≠ None.

Lemma stable_outdated env ids : stable (outdated env ids).
Proof. intros id f f' Hsm [? Hv]. split; [done|]. by rewrite <- (sm_layer _ _ Hsm). Qed.

Lemma resend_loop_inv H out env ids : (∀ k, 0 ≤ out k) → ∀ i w,
  outbox_inv H out w →
  wp (resend_loop sha256 rpc_result_id env i ids) (λ r w', outbox_inv H out w' ∧ evolves (outdated env ids) w w' ∧
    lastMsgID (box w') = lastMsgID (box w) ∧ sentContentMessages (box w') = sentContentMessages (box w) ∧
    length r.1 = length ids) w.
Proof.
  intros Hout. induction ids as [|id ids IH]; intros i w Hi; simpl.
  { wp_step. split_and!; try done. apply evolves_refl. }
  assert (∀ w1, outbox_inv H out w1 → evolves (outdated env (id :: ids)) w w1 →
    lastMsgID (box w1) = lastMsgID (box w) → sentContentMessages (box w1) = sentContentMessages (box w) →
    ∀ known : Z, wp (resend_loop sha256 rpc_result_id env (S i) ids ≫= λ rest, mret (known :: rest.1, rest.2))
      (λ r w', outbox_inv H out w' ∧ evolves (outdated env (id :: ids)) w w' ∧
        lastMsgID (box w') = lastMsgID (box w) ∧ sentContentMessages (box w') = sentContentMessages (box w) ∧
        length r.1 = S (length ids)) w1) as Hcont.
  { intros w1 Hi1 Hev1 Hl1 Hs1 known. wp_step. eapply wp_mono; [by apply IH|]. cbv beta.
    intros r w2 (Hi2 & Hev2 & Hl2 & Hs2 & Hlen). wp_step. simpl. rewrite Hlen.
    split_and!; try done; [|congruence|congruence]. eapply evolves_trans; [apply stable_outdated|exact Hev1|].
    eapply evolves_weaken; [|exact Hev2]. intros j f [? ?]. split; [by apply list_elem_of_further|done]. }
  do 2 wp_step. destruct (pending (box w) !! id) as [f|] eqn:E; [|by apply Hcont; [|apply evolves_refl|..]].
  destruct (validateOutboundLayerBinding (profile env) (layer f)) as [err|] eqn:Ev.
  - destruct (_ || _).
    + wp_step. eapply wp_mono; [by apply removePending_inv|]. cbv beta.
      intros r w1 (Hi1 & Hev1 & _ & _ & _ & _ & _ & _ & Hl1 & Hs1). apply Hcont; try done.
      split; try apply Hev1. intros j g Hg Hn. apply (ev_kept _ _ _ Hev1 _ _ Hg). intros ->. simplify_eq.
      apply Hn. split; [apply list_elem_of_here|congruence].
    + wp_step. simpl. rewrite length_replicate. split_and!; try done. apply evolves_refl.
  - pose proof (oi_pending _ _ _ Hi _ _ E) as HH.
    pose proof (bk_frames _ (oi_box _ _ _ Hi) _ _ E) as [Hid _ _ _ Hbody].
    wp_step. eapply wp_mono; [apply resend_frame_inv; [done|done|by rewrite Hid|by naive_solver]|]. cbv beta.
    intros r w1 (Hi1 & Hev1 & Hl1 & Hs1 & _).
    assert (evolves (outdated env (id :: ids)) w w1) as Hev1' by (by eapply evolves_weaken; [|exact Hev1]).
    destruct r.
    + wp_step. simpl. rewrite length_replicate. by split_and!.
    + by apply Hcont.
Qed.

(** ** Releasing *)

Lemma release_op_inv H out w (op : outboundOp Src) dflt :
  outbox_inv H (λ k, out k + charge (match op_reservationBudget op with Some b => Some b | None => dflt end)
                       (op_reservedBytes op) k) w →
  (∀ k, 0 ≤ out k) →
  wp (release_op op dflt) (λ _ w', quiet w w' ∧ outbox_inv H out w') w.
Proof.
  intros Hi Hout. unfold release_op. destruct (Z.leb_spec (op_reservedBytes op) 0).
  { wp_step. split; [done|]. eapply inv_ext; [|exact Hi]. intros k. unfold charge. case_bool_decide; simpl; lia. }
  set (b := match op_reservationBudget op with Some b => Some b | None => dflt end) in *.
  wp_step. eapply (wp_mono _ (λ _ w1, quiet w w1 ∧ outbox_inv H (λ k, out k + charge b (op_reservedBytes op) k) w1)).
  { destruct (op_encoded op); [by apply release_credit_inv|by wp_step]. }
  cbv beta. intros _ w1 [Hq1 Hi1]. eapply wp_mono; [by apply release_bytes_inv|]. cbv beta.
  intros _ w2 [Hq2 Hi2]. split; [by eapply quiet_trans|done].
Qed.

Lemma release_frames_raw (fs : list frame) dflt base w :
  (∀ k, used_of k w = base k + sumZ (frame_held dflt k <$> fs)) → (∀ k, 0 ≤ base k) →
  window_ok (bulk w) → log_ok (leases (bulk w)) (told w) →
  wp (release_frames fs dflt) (λ _ w', quiet w w' ∧ (∀ k, used_of k w' = base k) ∧
    window_ok (bulk w') ∧ log_ok (leases (bulk w')) (told w')) w.
Proof.
  revert w. induction fs as [|f fs IH]; intros w Hu Hb Hw Hg; simpl.
  { wp_step. split_and!; try done. intros k. rewrite Hu. simpl. lia. }
  wp_step. eapply wp_mono; [by apply release_credit_raw|]. cbv beta. intros _ w1 (Hq1 & Hbu1 & Hw1 & Hg1).
  assert (∀ k, used_of k w1 = base k + sumZ (frame_held dflt k <$> fs) + frame_held dflt k f) as Hu1.
  { intros k. specialize (Hu k). rewrite fmap_cons, sumZ_cons in Hu. unfold used_of in *. rewrite Hbu1. lia. }
  assert (wp (releaseReservation f dflt) (λ _ w2, quiet w1 w2 ∧ bulk w2 = bulk w1 ∧ told w2 = told w1 ∧
            ∀ k, used_of k w2 = base k + sumZ (frame_held dflt k <$> fs)) w1) as Hrel.
  { unfold releaseReservation. destruct (Z.leb_spec (reservedBytes f) 0).
    - wp_step. split_and!; try done. intros k. rewrite Hu1. unfold frame_held, charge. case_bool_decide; lia.
    - apply release_bytes_raw; [done|]. intros k. specialize (Hb k).
      enough (0 ≤ sumZ (frame_held dflt k <$> fs)) by lia.
      apply sumZ_nonneg, Forall_fmap, Forall_true. intros g. apply held_charge_nonneg. }
  wp_step. eapply wp_mono; [exact Hrel|]. cbv beta. intros _ w2 (Hq2 & Hbulk2 & Htold2 & Hu2).
  eapply wp_mono; [apply IH; [done|done|by rewrite Hbulk2|by rewrite Hbulk2, Htold2]|]. cbv beta.
  intros _ w3 (Hq3 & ? & ? & ?). split_and!; try done.
  eapply quiet_trans; [exact Hq1|]. by eapply quiet_trans.
Qed.

Lemma sumZ_map_to_list `{Countable K} {V} (g : V → Z) (m : gmap K V) :
  sumZ (g <$> (map_to_list m).*2) = sum_map g m.
Proof.
  unfold sum_map. rewrite map_fold_foldr. induction (map_to_list m) as [|[k v] l IH]; [done|].
  by rewrite !fmap_cons, sumZ_cons, IH.
Qed.

Lemma releaseAll_inv H out w :
  outbox_inv H out w → 0 ≤ maxMessages (box w) → 0 ≤ maxBytes (box w) →
  wp releaseAll (λ _ w', outbox_inv H out w' ∧ evolves (λ _ _, True) w w' ∧
    pending (box w') = ∅ ∧ (∀ k, used_of k w' = out k) ∧
    lastMsgID (box w') = lastMsgID (box w) ∧ sentContentMessages (box w') = sentContentMessages (box w)) w.
Proof.
  intros Hi Hm Hy. unfold releaseAll. destruct (oi_window _ _ _ Hi) as [Hw Hg].
  pose proof (close_ok _ _ Hw Hg) as Hcl. do 2 wp_step. simpl in Hcl.
  destruct (close (bulk w)) as [run b]. destruct Hcl as [Hw1 Hg1]. do 2 wp_step. wp_step.
  eapply wp_mono; [apply (release_frames_raw _ _ out); [|apply (oi_out _ _ _ Hi)|done|done]|].
  { intros k. rewrite sumZ_map_to_list. exact (oi_bytes _ _ _ Hi k). }
  cbv beta. intros _ w2 ([Hb2 Hwr2] & Hu2 & Hw2 & Hg2). wp_step. simpl in *.
  split_and!; try done.
  - destruct Hi. split; simpl; rewrite ?Hwr2; try done.
    + split; simpl; rewrite ?sum_map_empty; unfold maxTrackedAckedMsgIDs; try done; try lia.
      * intros id [? Hid]. by rewrite lookup_empty in Hid.
      * intros id. by rewrite elem_of_nil, elem_of_empty.
      * constructor.
    + intros k. rewrite <- (Hu2 k). unfold held. simpl. rewrite sum_map_empty. unfold used_of. simpl. lia.
  - split; simpl; try done. exists []. by rewrite Hwr2, app_nil_r.
Qed.

(** ** Every operation *)

(** Which frames an operation may drop. *)
Definition op_drops (env : environment) (op : outboundOp Src) (id : Z) f : Prop :=
  authKeyUnavailable env = false ∧
  match op_kind op with
  | outboundAck => id ∈ op_ids op
  | outboundResend => outdated env (op_ids op) id f
  | _ => False
  end.

Definition op_budget (op : outboundOp Src) w : option nat :=
  match op_reservationBudget op with Some b => Some b | None => sbudget (box w) end.

Lemma sent_ok_quiet H out env D w w1 w2 :
  outbox_inv H out w2 → evolves D w w1 → stable D → quiet w1 w2 →
  lastMsgID (box w1) = lastMsgID (box w) → sentContentMessages (box w1) = sentContentMessages (box w) →
  ∃ H', H ⊆ H' ∧ outbox_inv H' out w2 ∧ evolves D w w2 ∧
    lastMsgID (box w2) ≤ Z.max (new_msgID env) (lastMsgID (box w) + 4) ∧
    sentContentMessages (box w2) ≤ sentContentMessages (box w) + 1.
Proof.
  intros Hi2 Hev HD Hq Hl Hs. pose proof Hq as [Hb _]. exists H. rewrite Hb, Hl, Hs.
  split_and!; try done; [|lia|lia]. eapply evolves_trans; [done|exact Hev|]. by apply quiet_evolves.
Qed.

Lemma handleOutboundOp_inv H out w env op :
  outbox_inv H (λ k, out k + charge (op_budget op w) (op_reservedBytes op) k) w → (∀ k, 0 ≤ out k) →
  room env w → (∀ e, op_encoded op = Some e → encoded_ok H e) →
  (op_kind op = outboundSend → op_encoded op ≠ None) →
  wp (handleOutboundOp sha256 rpc_result_id env op) (λ _ w', ∃ H', H ⊆ H' ∧ outbox_inv H' out w' ∧
    evolves (op_drops env op) w w' ∧
    lastMsgID (box w') ≤ Z.max (new_msgID env) (lastMsgID (box w) + 4) ∧
    sentContentMessages (box w') ≤ sentContentMessages (box w) + 1) w.
Proof.
  intros Hi Hout Hroom Henc Hsend. unfold handleOutboundOp. do 2 wp_step.
  assert (∀ k, 0 ≤ out k + charge (op_budget op w) (op_reservedBytes op) k) as Hout'.
  { intros k. pose proof (held_charge_nonneg (op_budget op w) (op_reservedBytes op) k). specialize (Hout k). lia. }
  pose proof (oi_last _ _ _ Hi) as Hl0.
  (* the operation's own bytes go back at the end *)
  assert (∀ w1 D, outbox_inv H (λ k, out k + charge (op_budget op w) (op_reservedBytes op) k) w1 →
    evolves D w w1 → stable D → lastMsgID (box w1) = lastMsgID (box w) →
    sentContentMessages (box w1) = sentContentMessages (box w) →
    wp (release_op op (sbudget (box w))) (λ _ w', ∃ H', H ⊆ H' ∧ outbox_inv H' out w' ∧ evolves D w w' ∧
      lastMsgID (box w') ≤ Z.max (new_msgID env) (lastMsgID (box w) + 4) ∧
      sentContentMessages (box w') ≤ sentContentMessages (box w) + 1) w1) as Hrel.
  { intros w1 D Hi1 Hev1 HD Hl1 Hs1. eapply wp_mono; [by apply release_op_inv|]. cbv beta.
    intros _ w2 [Hq2 Hi2]. exact (sent_ok_quiet H out env D w w1 w2 Hi2 Hev1 HD Hq2 Hl1 Hs1). }
  destruct (authKeyUnavailable env) eqn:Ea.
  { wp_step. eapply wp_mono; [apply (Hrel w nothing Hi (evolves_refl _ _) stable_nothing eq_refl eq_refl)|]. cbv beta.
    intros _ w1 (H' & Hsub & Hi1 & Hev1 & Hl1 & Hs1). do 2 wp_step. wp_step.
    destruct (retire_inv _ _ _ Hi1) as [Hq2 Hi2]. exists H'. split_and!; try done.
    eapply evolves_weaken; [|eapply evolves_trans; [apply stable_nothing|exact Hev1|by apply quiet_evolves]].
    by intros ? ? []. }
  destruct (op_kind op) eqn:Ek.
  - destruct (op_encoded op) as [e|] eqn:Ee; [|by destruct Hsend]. wp_step.
    eapply wp_mono; [apply (handleOutboundSend_inv H out); try done; by apply Henc|]. cbv beta.
    intros err w1 [(H' & Hsub & Hi1 & Hev1 & Hl1 & Hs1) _]. wp_step. exists H'. split_and!; try done.
    eapply evolves_weaken; [|exact Hev1]. by intros ? ? [].
  - wp_step. eapply wp_mono; [by apply ackWithDetails_inv|]. cbv beta.
    intros l w1 (Hi1 & Hev1 & _ & _ & _ & _ & Hl1 & Hs1). wp_step.
    eapply wp_mono; [apply (Hrel w1 (λ j _, j ∈ op_ids op)); try done; apply stable_ids|]. cbv beta.
    intros _ w2 (H' & ? & ? & Hev2 & ? & ?). wp_step. exists H'. split_and!; try done.
    eapply evolves_weaken; [|exact Hev2]. intros j f Hj. unfold op_drops. by rewrite Ek.
  - wp_step. eapply wp_mono; [apply (Hrel w nothing Hi (evolves_refl _ _) stable_nothing eq_refl eq_refl)|]. cbv beta.
    intros _ w2 (H' & ? & ? & Hev2 & ? & ?). wp_step. exists H'. split_and!; try done.
    eapply evolves_weaken; [|exact Hev2]. by intros ? ? [].
  - wp_step. eapply wp_mono; [exact (resend_loop_inv H _ env (op_ids op) Hout' 0 w Hi)|]. cbv beta.
    intros r w1 (Hi1 & Hev1 & Hl1 & Hs1 & _).
    wp_step. eapply wp_mono; [apply (Hrel w1 (outdated env (op_ids op))); try done; apply stable_outdated|]. cbv beta.
    intros _ w2 (H' & ? & ? & Hev2 & ? & ?). wp_step. exists H'. split_and!; try done.
    eapply evolves_weaken; [|exact Hev2]. intros j f Hj. unfold op_drops. by rewrite Ek.
  - wp_step. eapply (wp_mono _ (λ _ w1, outbox_inv H (λ k, out k + charge (op_budget op w) (op_reservedBytes op) k) w1 ∧
      evolves nothing w w1 ∧ lastMsgID (box w1) = lastMsgID (box w) ∧
      sentContentMessages (box w1) = sentContentMessages (box w))).
    { unfold handleOutboundResendByRequest. do 2 wp_step.
      destruct (byRequest (box w) !! op_reqMsgID op ≫= (pending (box w) !!.)) as [f|] eqn:E.
      2:{ wp_step. split_and!; try done. apply evolves_refl. }
      apply option.bind_Some in E as (id & _ & E). pose proof (oi_pending _ _ _ Hi _ _ E) as HH.
      pose proof (bk_frames _ (oi_box _ _ _ Hi) _ _ E) as [Hid _ _ _ Hbody].
      wp_step. eapply wp_mono; [apply (resend_frame_inv H); [exact Hi|done|by rewrite Hid|by naive_solver]|]. cbv beta.
      intros r w1 (? & ? & ? & ? & _). by destruct r; wp_step; split_and!. }
    cbv beta. intros r w1 (Hi1 & Hev1 & Hl1 & Hs1). wp_step.
    eapply wp_mono; [apply (Hrel w1 nothing Hi1 Hev1 stable_nothing Hl1 Hs1)|]. cbv beta.
    intros _ w2 (H' & ? & ? & Hev2 & ? & ?). wp_step. exists H'. split_and!; try done.
    eapply evolves_weaken; [|exact Hev2]. by intros ? ? [].
Qed.
End Handlers.
