(* ===== verification/OutboxProps.v ===== *)
(** What the logical outbox promises over the whole life of a session, whatever
    the producers, the actor, the clock and the network do: no byte of a budget
    is lost or freed twice, no unacknowledged frame is forgotten, a message id
    means one message, acknowledgements are exact, and what is sent again is
    what was sent. *)

From S2P Require Import Prelude CreditWindow Outbox OutboxInv OutboxRun.

Open Scope Z_scope.

#[local] Set Default Proof Using "Type".

(** * Runs *)

Section Run.
Context {Src : Type} `{!ReplaySource Src} (sha256 : list Z → list Z) (rpc_result_id : Z) {strict : Prop}.

Abbreviation frame := (outboundFrame Src).
Abbreviation world := (outWorld Src).
Abbreviation encoded := (encodedOutboundMessage Src).
Abbreviation system := (@outSystem Src).
Abbreviation event := (@outEvent Src).
Abbreviation step := (out_step sha256 rpc_result_id).
Abbreviation run := (out_run sha256 rpc_result_id).
Implicit Types (f g : frame) (w : world) (e : encoded) (s : system).
#[local] Instance run_bodies : BodyRule := result_bodies sha256 rpc_result_id (strict := strict).

(** The ids that the clock proposes are at most [C]. *)
Definition event_ok (C : Z) (ev : event) : Prop :=
  match ev with EvHandle env _ => 0 < new_msgID env ≤ C | _ => True end.

(** A session starts with an empty outbox and window; the budgets of the process
    may be in use by others. *)
Definition started s : Prop :=
  ∃ b bs ds, sys s = mkOut (newOutboundState b) newBulkWindow bs ds [] [] false ∧ queue s = [] ∧
    ∀ k, 0 ≤ used_of k (sys s).

Definition op_charge (dflt : option nat) (k : nat) (op : outboundOp Src) : Z :=
  charge (match op_reservationBudget op with Some b => Some b | None => dflt end) (op_reservedBytes op) k.

Definition queued (dflt : option nat) (k : nat) (q : list (outboundOp Src)) : Z := sumZ (op_charge dflt k <$> q).

Record op_ok (H : gmap Z identity) (op : outboundOp Src) : Prop := {
  ok_encoded e : op_encoded op = Some e → encoded_ok H e;
  ok_send : op_kind op = outboundSend → op_encoded op ≠ None;
  ok_budget : op_reservationBudget op = None → op_reservedBytes op ≤ 0;
}.

Record sys_inv (C : Z) (base : nat → Z) (H : gmap Z identity) (i : Z) s : Prop := {
  si_box : outbox_inv H (λ k, base k + queued (sbudget (box (sys s))) k (queue s)) (sys s);
  si_queue : Forall (op_ok H) (queue s);
  si_base k : 0 ≤ base k;
  si_limits : maxMessages (box (sys s)) = maxTrackedServerMsgIDs ∧ maxBytes (box (sys s)) = maxTrackedServerBytes;
  si_last : lastMsgID (box (sys s)) ≤ C + 4 * i;
  si_sent : sentContentMessages (box (sys s)) ≤ i;
}.

(** What one event may drop. *)
Definition event_drops (s : system) (ev : event) (id : Z) f : Prop :=
  match ev with
  | EvReleaseAll => True
  | EvHandle env n => ∃ op, queue s !! n = Some op ∧ op_drops env op id f
  | _ => False
  end.

Lemma queued_nonneg dflt k q : 0 ≤ queued dflt k q.
Proof. apply sumZ_nonneg, Forall_fmap, Forall_true. intros op. apply held_charge_nonneg. Qed.

Lemma queued_app dflt k q op : queued dflt k (q ++ [op]) = queued dflt k q + op_charge dflt k op.
Proof. unfold queued. rewrite fmap_app, sumZ_app. simpl. lia. Qed.

Lemma queued_delete dflt k q n op :
  q !! n = Some op → queued dflt k q = queued dflt k (delete n q) + op_charge dflt k op.
Proof.
  unfold queued. revert n. induction q as [|x q IH]; intros [|n] E; simplify_eq/=; [lia|].
  rewrite (IH _ E). lia.
Qed.

Lemma op_ok_mono H H' op : H ⊆ H' → op_ok H op → op_ok H' op.
Proof. intros Hsub [He ? ?]. split; try done. intros e E. eapply encoded_ok_mono; eauto. Qed.

Lemma step_from C base H i s s' (H' : gmap Z identity) (D : Z → frame → Prop) :
  sys_inv C base H i s → 0 ≤ i → H ⊆ H' →
  outbox_inv H' (λ k, base k + queued (sbudget (box (sys s))) k (queue s')) (sys s') →
  evolves D (sys s) (sys s') → Forall (op_ok H') (queue s') →
  lastMsgID (box (sys s')) ≤ Z.max C (lastMsgID (box (sys s)) + 4) →
  sentContentMessages (box (sys s')) ≤ sentContentMessages (box (sys s)) + 1 →
  sys_inv C base H' (i + 1) s'.
Proof.
  intros [] Hi Hsub Hb [? Hbud [Hm Hy] ? ? ?] Hq Hl Hs. rewrite <- Hbud in Hb.
  destruct si_limits0. split; try done; [split; congruence|lia|lia].
Qed.

(** ** Producers *)

(** A producer leaves the outbox alone; an operation that it makes holds what
    was reserved for it. *)
Definition produces H out w (m : GoM world (res outbound_error (outboundOp Src))) : Prop :=
  wp m (λ r w', quiet w w' ∧ match r with
    | ERR _ => outbox_inv H out w'
    | OK op => outbox_inv H (λ k, out k + op_charge (sbudget (box w)) k op) w' ∧ op_ok H op
    end) w.

Lemma newOutboundSendOp_produces H out w env prepared e control :
  outbox_inv H out w → encoded_ok H e → produces H out w (newOutboundSendOp env prepared e control).
Proof.
  intros Hi He. unfold produces, newOutboundSendOp.
  destruct (if prepared then _ else _); [by wp_step|]. destruct (_ <? _); [by wp_step|].
  wp_step. eapply wp_mono; [by apply reserve_bytes_inv|]. cbv beta. intros [] w1 [Hq1 Hi1]; wp_step.
  - split_and!; [done|exact Hi1|]. split; simpl; [|done|done]. by intros ? [= <-].
  - by subst.
Qed.

Lemma newOutboundVectorOp_produces H out w env kind ids :
  outbox_inv H out w → kind ≠ outboundSend → produces H out w (newOutboundVectorOp env kind ids).
Proof.
  intros Hi Hk. unfold produces, newOutboundVectorOp. wp_step.
  eapply wp_mono; [by apply reserve_bytes_inv|]. cbv beta. intros [] w1 [Hq1 Hi1]; wp_step; [|by subst].
  split_and!; [done|exact Hi1|]. by split.
Qed.

(** A replay is the message of the pending frame that answered the request. *)
Lemma replay_ok H out w req e moment e' d :
  outbox_inv H out w → rpcResult (box w) req = Some e →
  cloneRPCResultForRequest sha256 rpc_result_id e (e_reqMsgID e) moment = OK e' →
  encoded_ok H (with_delivery d e').
Proof.
  intros Hi E Ec. unfold rpcResult in E. destruct (req =? 0); [done|].
  destruct (pending (box w) !! _) as [f|] eqn:Ef; simpl in E; [|done].
  destruct (_ || _); [done|]. injection E as <-.
  destruct (bk_frames _ (oi_box _ _ _ Hi) _ _ Ef) as [Hid Hc Hl Hs Hb].
  pose proof (oi_pending _ _ _ Hi _ _ Ef) as HH. unfold cloneRPCResultForRequest in Ec.
  destruct (_ || _); [done|]. destruct (materializeRPCResultBody _ _ _ _ _) as [b|] eqn:Em; [|done].
  injection Ec as <-. apply (materialize_body _ _ (strict := strict)) in Em as [Hr Hcont]; [|by destruct Hb as [?|[? _]]; auto].
  split; simpl in *; [done|done| |exact Hr]. rewrite Z.eqb_refl. intros _. split; [done|].
  rewrite Hid, HH. unfold identity_of, content_of_message in *. simpl in *. by rewrite Hcont.
Qed.

Lemma newReplayOp_produces H out w env req moment :
  outbox_inv H out w → produces H out w (newReplayOp sha256 rpc_result_id env req moment).
Proof.
  intros Hi. unfold produces, newReplayOp. do 2 wp_step.
  destruct (rpcResult (box w) req) as [e|] eqn:Er; [|by wp_step].
  destruct (encode_slot env 0%nat); [by wp_step|].
  destruct (cloneRPCResultForRequest _ _ _ _ _) as [clone|] eqn:Ec; [|by wp_step].
  destruct (_ <? _); [by wp_step|].
  wp_step. eapply wp_mono; [by apply reserve_bytes_inv|]. cbv beta. intros [] w1 [Hq1 Hi1]; [|wp_step; by subst].
  wp_step. unfold new_delivery. do 4 wp_step. wp_step. wp_step.
  split; [done|]. split.
  - destruct Hi1. by split.
  - split; simpl; [|done|done]. intros ? [= <-]. exact (replay_ok _ _ _ _ _ _ _ _ Hi Er Ec).
Qed.

(** The caller frames a result itself: it names the request that it answers. *)
Definition names_its_request (ev : event) : Prop :=
  match ev with
  | EvMessage _ t b req _ _ _ => t = ResultTypeID → ∃ x, b = result_body rpc_result_id req x
  | _ => True
  end.

Lemma encodedMessage_ok H t b req inv layer :
  (strict → t = ResultTypeID → ∃ x, b = result_body rpc_result_id req x) →
  encoded_ok H (encodedMessage t b req inv layer : encoded).
Proof. by split. Qed.

Lemma encodedResult_ok H req inner wi comp src layer inv credit d prio e :
  encodedResult sha256 rpc_result_id req inner wi comp src layer inv credit d prio = OK e → encoded_ok H e.
Proof.
  unfold encodedResult. destruct (_ && _); [done|].
  destruct src as [src|]; simpl; destruct (_ <? _); try done; intros [= <-];
    (split; simpl; [unfold blen; lia| |done|]).
  - intros _. unfold blen. simpl. lia.
  - by exists inner.
  - done.
  - intros _ _. by exists wi.
Qed.

(** An event that queues an operation. *)
Lemma enqueue_inv C base H i s m :
  sys_inv C base H i s → 0 ≤ i →
  produces H (λ k, base k + queued (sbudget (box (sys s))) k (queue s)) (sys s) m →
  ∃ s', enqueue m s = Some s' ∧ sys_inv C base H (i + 1) s' ∧ evolves nothing (sys s) (sys s').
Proof.
  intros Hi Hi0 Hm. apply wp_Some in Hm as (r & w' & Em & Hq & Hr). unfold enqueue. rewrite Em.
  pose proof Hq as [Hb _]. pose proof (si_queue _ _ _ _ _ Hi) as Hqu.
  destruct r as [op|err].
  - destruct Hr as [Hr Hop]. eexists. split; [done|]. split; [|by apply quiet_evolves].
    eapply step_from; [exact Hi|done|done| |by apply (quiet_evolves nothing)| | |]; simpl.
    + eapply inv_ext; [|exact Hr]. intros k. simpl. rewrite queued_app. lia.
    + apply Forall_app. split; [done|]. by apply Forall_singleton.
    + rewrite Hb. lia.
    + rewrite Hb. lia.
  - eexists. split; [done|]. split; [|by apply quiet_evolves].
    eapply step_from; [exact Hi|done|done|exact Hr|by apply (quiet_evolves nothing)|done| |]; simpl; rewrite Hb; lia.
Qed.

(** An event that runs [m] on the world. *)
Lemma run_in_inv C base H i s s' (m : GoM world ()) q D :
  sys_inv C base H i s → 0 ≤ i → s' = mkSystem (sys s) q →
  wp m (λ _ w', ∃ H', H ⊆ H' ∧ outbox_inv H' (λ k, base k + queued (sbudget (box (sys s))) k q) w' ∧
    evolves D (sys s) w' ∧ Forall (op_ok H') q ∧
    lastMsgID (box w') ≤ Z.max C (lastMsgID (box (sys s)) + 4) ∧
    sentContentMessages (box w') ≤ sentContentMessages (box (sys s)) + 1) (sys s) →
  ∃ H' s', run_in m q s = Some s' ∧ H ⊆ H' ∧ sys_inv C base H' (i + 1) s' ∧ evolves D (sys s) (sys s').
Proof.
  intros Hi Hi0 -> Hm. apply wp_Some in Hm as ([] & w' & Em & H' & Hsub & Hb & Hev & Hq & Hl & Hs).
  unfold run_in. rewrite Em. exists H'. eexists. split_and!; try done. by eapply step_from.
Qed.

(** An event that leaves the frames alone. *)
Lemma quiet_run_inv C base H i s (m : GoM world ()) :
  sys_inv C base H i s → 0 ≤ i →
  wp m (λ _ w', quiet (sys s) w' ∧ ∀ out, outbox_inv H out (sys s) → outbox_inv H out w') (sys s) →
  ∃ H' s', run_in m (queue s) s = Some s' ∧ H ⊆ H' ∧ sys_inv C base H' (i + 1) s' ∧
    evolves nothing (sys s) (sys s').
Proof.
  intros Hi Hi0 Hm. eapply run_in_inv; [done|done|done|]. eapply wp_mono; [exact Hm|]. cbv beta.
  intros _ w' [Hq Hinv]. exists H. pose proof Hq as [Hb _]. rewrite Hb.
  split_and!; try done; [apply Hinv, Hi|by apply quiet_evolves|apply Hi|lia|lia].
Qed.

Lemma step_inv C base H i s ev :
  sys_inv C base H i s → 0 ≤ i < 1073741823 → C + 4 * i + 4 ≤ max_int64 → event_ok C ev → (strict → names_its_request ev) →
  ∃ H' s', step ev s = Some s' ∧ H ⊆ H' ∧ sys_inv C base H' (i + 1) s' ∧
    evolves (event_drops s ev) (sys s) (sys s').
Proof.
  intros Hi Hi0 Hroom Hev Hnames.
  assert (∀ id f, ¬ nothing id f) as Hno by (by intros ? ? []).
  assert (∀ m, produces H (λ k, base k + queued (sbudget (box (sys s))) k (queue s)) (sys s) m →
    ∃ H' s', enqueue m s = Some s' ∧ H ⊆ H' ∧ sys_inv C base H' (i + 1) s' ∧
      evolves (event_drops s ev) (sys s) (sys s')) as Henq.
  { intros m Hm. destruct (enqueue_inv C base H i s m Hi) as (s' & E & Hs' & Hevs); [lia|done|].
    exists H, s'. split_and!; try done. eapply evolves_weaken; [|exact Hevs]. by intros ? ? []. }
  assert (∀ m, wp m (λ _ w', quiet (sys s) w' ∧ ∀ out, outbox_inv H out (sys s) → outbox_inv H out w') (sys s) →
    ∃ H' s', run_in m (queue s) s = Some s' ∧ H ⊆ H' ∧ sys_inv C base H' (i + 1) s' ∧
      evolves (event_drops s ev) (sys s) (sys s')) as Hquiet.
  { intros m Hm. destruct (quiet_run_inv C base H i s m Hi) as (H' & s' & E & Hsub & Hs' & Hevs); [lia|done|].
    exists H', s'. split_and!; try done. eapply evolves_weaken; [|exact Hevs]. by intros ? ? []. }
  assert (∃ H' s', Some s = Some s' ∧ H ⊆ H' ∧ sys_inv C base H' (i + 1) s' ∧
      evolves (event_drops s ev) (sys s) (sys s')) as Hsame.
  { exists H, s. split_and!; try done; [|apply evolves_refl]. destruct Hi. split; try done; lia. }
  pose proof (si_box _ _ _ _ _ Hi) as Hbox. pose proof (si_queue _ _ _ _ _ Hi) as Hqs.
  destruct ev as [env t b req inv layer control|env req inner wi comp src layer inv credit d prio
    |env req moment|env kind ids|req|env n|dflt n|d req| |o|]; simpl step.
  - apply Henq. apply newOutboundSendOp_produces; [done|by apply encodedMessage_ok].
  - destruct (encodedResult _ _ _ _ _ _ _ _ _ _ _ _) eqn:E; [|exact Hsame].
    apply Henq. apply newOutboundSendOp_produces; [done|by eapply encodedResult_ok].
  - apply Henq. by apply newReplayOp_produces.
  - destruct kind; try exact Hsame; apply Henq; by apply newOutboundVectorOp_produces.
  - set (op := mkOp outboundResendByRequest true outboundPriorityNormal None 0 None [] req).
    exists H. eexists. split; [done|]. split; [done|]. split; [|apply evolves_refl].
    eapply step_from; [exact Hi|lia|done| |apply (evolves_refl nothing)| |simpl; lia|simpl; lia]; simpl.
    + eapply inv_ext; [|exact Hbox]. intros k. simpl. rewrite queued_app.
      unfold op_charge, charge. simpl. case_bool_decide; lia.
    + apply Forall_app. split; [done|]. apply Forall_singleton. by split.
  - destruct (queue s !! n) as [op|] eqn:En; [|exact Hsame].
    pose proof (Forall_lookup_1 _ _ _ _ Hqs En) as [He Hsend _]. destruct Hi as [_ _ Hb Hlim Hl Hs].
    eapply (run_in_inv C base H i s _ _ _ (event_drops s (EvHandle env n))); [by split|lia|done|].
    wp_step. eapply wp_mono; [apply (handleOutboundOp_inv sha256 rpc_result_id (strict := strict) H
        (λ k, base k + queued (sbudget (box (sys s))) k (delete n (queue s))))|].
    + eapply inv_ext; [|exact Hbox]. intros k. simpl. rewrite (queued_delete _ _ _ _ _ En). unfold op_charge, op_budget. lia.
    + intros k. pose proof (queued_nonneg (sbudget (box (sys s))) k (delete n (queue s))). specialize (Hb k). lia.
    + simpl in Hev. split; unfold max_int64, two63 in *; lia.
    + done.
    + done.
    + cbv beta. intros _ w' (H' & Hsub & Hi' & Hev' & Hl' & Hs'). wp_step. exists H'. split_and!; try done.
      * eapply evolves_weaken; [|exact Hev']. intros id f Hd. by exists op.
      * eapply Forall_impl; [by apply Forall_delete|]. intros o. by apply op_ok_mono.
      * simpl in Hev. lia.
  - destruct (queue s !! n) as [op|] eqn:En; [|exact Hsame].
    pose proof (Forall_lookup_1 _ _ _ _ Hqs En) as [_ _ Hbud]. pose proof Hi as [_ _ Hb Hlim Hl Hs].
    eapply (run_in_inv C base H i s _ _ _ (event_drops s (EvDrop dflt n))); [done|lia|done|].
    eapply wp_mono; [apply (release_op_inv sha256 rpc_result_id (strict := strict) H
        (λ k, base k + queued (sbudget (box (sys s))) k (delete n (queue s))))|].
    + eapply inv_ext; [|exact Hbox]. intros k. simpl. rewrite (queued_delete _ _ _ _ _ En). unfold op_charge, charge.
      destruct (op_reservationBudget op); [lia|]. specialize (Hbud eq_refl). do 2 case_bool_decide; lia.
    + intros k. pose proof (queued_nonneg (sbudget (box (sys s))) k (delete n (queue s))). specialize (Hb k). lia.
    + cbv beta. intros _ w' [Hq Hi']. exists H. pose proof Hq as [Hbx _]. rewrite Hbx.
      split_and!; try done; [by apply quiet_evolves|by apply Forall_delete|lia|lia].
  - apply Hquiet. unfold tryRetarget. do 2 wp_step. destruct (deliveries (sys s) !! d) as [dl|]; [|by wp_step].
    destruct (_ || _); wp_step; [done|]. split; [done|]. intros out []. by split.
  - apply Hquiet. wp_step. unfold new_delivery. do 5 wp_step. wp_step. split; [done|]. intros out []. by split.
  - apply Hquiet. wp_step. destruct (apply_op o (bulk (sys s))) as [l b'] eqn:Eo.
    split; [done|]. intros out Ho. destruct (oi_window _ _ _ Ho) as [Hw Hg].
    destruct (window_op_ok _ _ _ _ _ Eo Hw Hg). destruct Ho. by split.
  - pose proof Hi as [_ _ Hb [Hm Hy] Hl Hs].
    eapply (run_in_inv C base H i s _ _ _ (event_drops s EvReleaseAll)); [done|lia|by destruct s|].
    eapply wp_mono; [apply (releaseAll_inv sha256 rpc_result_id (strict := strict) H); [exact Hbox|rewrite Hm; done|rewrite Hy; done]|]. cbv beta.
    intros [] w' (Hi' & Hev' & _ & _ & Hl' & Hs'). exists H. rewrite Hl', Hs'. split_and!; try done; lia.
Qed.

Lemma run_inv C base evs : ∀ H i s,
  sys_inv C base H i s → 0 ≤ i → i + Z.of_nat (length evs) ≤ 1073741823 →
  C + 4 * (i + Z.of_nat (length evs)) ≤ max_int64 → Forall (event_ok C) evs →
  (strict → Forall names_its_request evs) →
  ∃ H' s', run evs s = Some s' ∧ H ⊆ H' ∧ sys_inv C base H' (i + Z.of_nat (length evs)) s'.
Proof.
  induction evs as [|ev evs IH]; intros H i s Hi Hi0 Hn HC Hev Hnames; simpl.
  { exists H, s. by rewrite Z.add_0_r. }
  apply Forall_cons in Hev as [Hev1 Hevs]. simpl in *.
  destruct (step_inv C base H i s ev Hi) as (H1 & s1 & E1 & Hsub1 & Hi1 & _); [lia|lia|done|by intros [? ?]%Hnames%Forall_cons|].
  rewrite E1. destruct (IH H1 (i + 1) s1 Hi1) as (H2 & s2 & E2 & Hsub2 & Hi2); [lia|lia|lia|done|by intros [? ?]%Hnames%Forall_cons|].
  exists H2, s2. split_and!; [done|by etrans|]. by replace (i + Z.of_nat (S (length evs))) with (i + 1 + Z.of_nat (length evs)) by lia.
Qed.

Lemma started_inv C s : 0 ≤ C → started s → sys_inv C (λ k, used_of k (sys s)) ∅ 0 s.
Proof.
  intros HC (b & bs & ds & Hs & Hq & Hu). split.
  - rewrite Hs, Hq. split; simpl; try done.
    + split; simpl; rewrite ?sum_map_empty; unfold maxTrackedAckedMsgIDs; try done; try lia.
      * intros id [? Hid]. by rewrite lookup_empty in Hid.
      * intros id. by rewrite elem_of_nil, elem_of_empty.
      * constructor.
    + intros k. unfold held. simpl. rewrite sum_map_empty. unfold queued, used_of. simpl. lia.
    + intros k. specialize (Hu k). rewrite Hs in Hu. unfold queued. simpl. lia.
    + apply (new_window_ok 32).
    + intros f Hf. by apply elem_of_nil in Hf.
  - by rewrite Hq.
  - done.
  - by rewrite Hs.
  - rewrite Hs. simpl. lia.
  - by rewrite Hs.
Qed.

(** A run of a session that fits the machine's integers. *)
Definition fits (C : Z) (evs : list event) : Prop :=
  0 ≤ C ∧ C + 4 * Z.of_nat (length evs) ≤ max_int64 ∧ Z.of_nat (length evs) ≤ 1073741823 ∧ Forall (event_ok C) evs.

Lemma fits_run C evs s :
  started s → fits C evs → (strict → Forall names_its_request evs) → ∃ H s', run evs s = Some s' ∧
    sys_inv C (λ k, used_of k (sys s)) H (Z.of_nat (length evs)) s'.
Proof.
  intros Hs (HC & Hm & Hn & Hev) Hnames.
  destruct (run_inv C (λ k, used_of k (sys s)) evs ∅ 0 s (started_inv C s HC Hs)) as (H & s' & E & _ & Hi);
    [lia|lia|lia|done|done|]. by exists H, s'.
Qed.

(** * Theorems *)

(** The frames that the client may have seen or will see. *)
Definition known w f : Prop := f ∈ wire w ∨ pending (box w) !! msgID f = Some f.

Lemma known_identity H out w f : outbox_inv H out w → known w f → H !! msgID f = Some (identity_of f).
Proof. intros Hi [Hw|Hp]; [by apply (oi_wire _ _ _ Hi)|by apply (oi_pending _ _ _ Hi)]. Qed.

(** The body is gone until a replay source builds it again. *)
Definition dropped f : Prop := body f = [] ∧ replaySource f ≠ None.

Lemma known_body H out w f : outbox_inv H out w → known w f → dropped f ∨ has_body f.
Proof.
  intros Hi [Hw|Hp]; [right; by apply (oi_wire _ _ _ Hi)|].
  destruct (fk_body _ _ (bk_frames _ (oi_box _ _ _ Hi) _ _ Hp)) as [?|?]; auto.
Qed.

(** Two different results of the same request with the same digest. *)
Definition collide f g : Prop :=
  ∃ x y, x ≠ y ∧ sha256 x = sha256 y ∧
    body f = result_body rpc_result_id (reqMsgID f) x ∧ body g = result_body rpc_result_id (reqMsgID f) y.

Lemma same_identity_same_body f g :
  strict → has_body f → has_body g → identity_of f = identity_of g → body f = body g ∨ collide f g.
Proof.
  intros Hs Hf Hg Hfg. unfold identity_of in Hfg. injection Hfg as _ Ht Hr Hc.
  unfold has_body, body_rule, run_bodies, result_bodies in Hf, Hg. rewrite <- Ht, <- Hr in Hg. unfold collide.
  destruct (replaySource f), (replaySource g); simpl in *; simplify_eq.
  - destruct Hf as (x & -> & Hx), Hg as (y & -> & Hy). destruct (decide (x = y)) as [->|]; [by left|].
    right. exists x, y. split_and!; [done|congruence|done|done].
  - rewrite <- Ht in Hc. case_bool_decide as Hty; [|left; congruence].
    destruct (Hf Hs Hty) as [x Hx], (Hg Hs Hty) as [y Hy]. left. rewrite Hx, Hy in *.
    injection Hc as Hc. unfold result_body in Hc. simpl in Hc. by simplify_eq.
Qed.
End Run.

Section Theorems.
Context {Src : Type} `{!ReplaySource Src} (sha256 : list Z → list Z) (rpc_result_id : Z).

Abbreviation frame := (outboundFrame Src).
Abbreviation encoded := (encodedOutboundMessage Src).
Abbreviation system := (@outSystem Src).
Abbreviation event := (@outEvent Src).
Abbreviation step := (out_step sha256 rpc_result_id).
Abbreviation run := (out_run sha256 rpc_result_id).
Implicit Types (f g : frame) (e : encoded) (s : system).

(** Nothing is known of the results that the caller frames itself. *)
Lemma plain_run C evs s :
  started s → fits C evs → ∃ H s', run evs s = Some s' ∧
    sys_inv sha256 rpc_result_id (strict := False) C (λ k, used_of k (sys s)) H
      (Z.of_nat (length evs)) s'.
Proof. intros Hs Hf. by apply (fits_run sha256 rpc_result_id (strict := False)). Qed.

(** C20: Whatever producers, actor, clock and network do in the life of a session,
    the server does not panic, and each byte that a budget counts beyond those of
    other sessions is the byte of a queued operation or of a pending frame; the
    outbox stays within 4096 frames and 64 MiB and its counters are exact. *)
Theorem outbox_bytes_are_accounted (s : system) (evs : list event) (C : Z)
    (Hstart : started s) (Hfits : fits C evs) :
  ∃ s', run evs s = Some s' ∧
    (∀ k, used_of k (sys s') = used_of k (sys s) + queued (sbudget (box (sys s'))) k (queue s')
                               + held k (box (sys s'))) ∧
    Z.of_nat (size (pending (box (sys s')))) ≤ maxTrackedServerMsgIDs ∧
    totalBytes (box (sys s')) = sum_map logicalSize (pending (box (sys s'))) ∧
    totalBytes (box (sys s')) ≤ maxTrackedServerBytes.
Proof.
  destruct (plain_run C evs s Hstart Hfits) as (H & s' & E & [Hb _ _ [Hm Hy] _ _]). exists s'.
  pose proof (oi_box _ _ _ Hb) as Hbx. split_and!.
  - done.
  - intros k. rewrite (oi_bytes _ _ _ Hb). lia.
  - rewrite <- Hm. apply (bk_count _ Hbx).
  - apply (bk_total _ Hbx).
  - rewrite <- Hy. apply (bk_bytes _ Hbx).
Qed.

(** C21: A frame that waits for its acknowledgement is never forgotten: after any
    history, one more event keeps it - same message id, sequence number, request
    and content - unless the event is a handled acknowledgement of its id, a
    resend that finds its layer outdated, or the end of the session. *)
Theorem unacknowledged_frames_are_kept (s0 s s' : system) (evs : list event) (ev : event) (C : Z) (id : Z) (f : frame)
    (Hstart : started s0) (Hfits : fits C (evs ++ [ev])) (Hrun : run evs s0 = Some s)
    (Hstep : step ev s = Some s') (Hf : pending (box (sys s)) !! id = Some f) (Hd : ¬ event_drops s ev id f) :
  ∃ f', pending (box (sys s')) !! id = Some f' ∧ same_message f f'.
Proof.
  destruct Hfits as (HC & Hm & Hn & Hev). apply Forall_app in Hev as [Hev1 Hev2].
  rewrite length_app in Hm, Hn. simpl in *.
  destruct (plain_run C evs s0 Hstart) as (H & s1 & E & Hi); [split_and!; [done|lia|lia|done]|].
  rewrite Hrun in E. injection E as <-. apply Forall_cons in Hev2 as [Hev2 _].
  destruct (step_inv sha256 rpc_result_id (strict := False) C _ H _ s ev Hi) as (H' & s2 & E & _ & _ & Hevs); [lia|lia|done|done|].
  rewrite Hstep in E. injection E as <-. by apply (ev_kept _ _ _ Hevs).
Qed.

(** C22: A message id means one message: after any history the frames on the wire
    and in the outbox that share an id agree in sequence number, type, request
    and content, and every frame on the wire has its body.  Where the results
    that the caller frames itself name their request, frames that share an id
    have the same body byte for byte, unless it was dropped from the outbox or
    SHA-256 collides on the two.  Different content messages have different
    sequence numbers, all of them odd, and no id exceeds the last one that was
    given out. *)
Theorem message_ids_mean_one_message (s s' : system) (evs : list event) (C : Z)
    (Hstart : started s) (Hfits : fits C evs) (Hrun : run evs s = Some s') :
  (∀ f g, known (sys s') f → known (sys s') g → msgID f = msgID g → identity_of f = identity_of g) ∧
  (∀ f, f ∈ wire (sys s') → ¬ dropped f) ∧
  (Forall (names_its_request rpc_result_id) evs →
     ∀ f g, known (sys s') f → known (sys s') g → msgID f = msgID g →
       dropped f ∨ dropped g ∨ body f = body g ∨ collide sha256 rpc_result_id f g) ∧
  (∀ f g, known (sys s') f → known (sys s') g → frameNeedsAck (f_typeID f) = true →
     frameNeedsAck (f_typeID g) = true → seqNo f = seqNo g → msgID f = msgID g) ∧
  (∀ f, known (sys s') f → 0 < msgID f ≤ lastMsgID (box (sys s')) ∧
     (frameNeedsAck (f_typeID f) = true → Z.odd (seqNo f) = true)).
Proof.
  destruct (fits_run sha256 rpc_result_id (strict := Forall (names_its_request rpc_result_id) evs) C evs s Hstart Hfits)
    as (H & s1 & E & [Hb _ _ _ _ _]); [done|]. rewrite Hrun in E. injection E as <-.
  pose proof (λ f, known_identity sha256 rpc_result_id _ _ _ f Hb) as Hk.
  assert (∀ f g, known (sys s') f → known (sys s') g → msgID f = msgID g → identity_of f = identity_of g) as Hone.
  { intros f g Hf%Hk Hg%Hk Heq. rewrite Heq in Hf. congruence. }
  split_and!.
  - exact Hone.
  - intros f Hf [Hnil Hsrc]. destruct (oi_wire _ _ _ Hb _ Hf) as [_ Hbody].
    unfold has_body, body_rule, result_bodies in Hbody. destruct (replaySource f); [|done].
    destruct Hbody as (x & Hx & _). rewrite Hnil in Hx. done.
  - intros Hs f g Hf Hg Heq.
    destruct (known_body _ _ _ _ _ _ Hb Hf) as [?|Hbf]; [by left|right].
    destruct (known_body _ _ _ _ _ _ Hb Hg) as [?|Hbg]; [by left|right].
    eapply same_identity_same_body; [exact Hs|exact Hbf|exact Hbg|by apply Hone].
  - intros f g Hf%Hk Hg%Hk Hc Hc' Heq. by eapply (oi_seq _ _ _ Hb).
  - intros f Hf%Hk. split; [by apply (oi_ids _ _ _ Hb) in Hf|].
    intros Hc. destruct (oi_odd _ _ _ Hb _ _ Hf Hc) as (n & Hn & _). simpl in Hn. rewrite Hn.
    by rewrite Z.add_1_r, Z.odd_succ, Z.even_mul.
Qed.

(** Acknowledgements are exact: of the ids that a client acknowledges,
    exactly those of pending frames are reported, each once, with their request
    and size; exactly these frames leave the outbox, their bulk credits are given
    back, and the outbox then knows the pending ids and the last 1024
    acknowledged ones. *)
Theorem acknowledgements_are_exact (s s' : system) (evs : list event) (C : Z) (ids : list Z)
    (Hstart : started s) (Hfits : fits C evs) (Hrun : run evs s = Some s') :
  let p := pending (box (sys s')) in
  let a := acks ids p in
  ∃ w', ackWithDetails ids (sys s') = Some (ack_detail <$> a, w') ∧
    NoDup a.*1 ∧ (∀ id f, (id, f) ∈ a ↔ id ∈ ids ∧ p !! id = Some f) ∧
    (∀ id, pending (box w') !! id = if bool_decide (id ∈ ids) then None else p !! id) ∧
    Forall (credit_back (sys s') w') a ∧
    recent (box w') = foldl remember (recent (box (sys s'))) a.*1 ∧
    (∀ id, isKnown (box w') id = true ↔ is_Some (pending (box w') !! id) ∨ id ∈ recent (box w')).
Proof.
  intros p a. destruct (plain_run C evs s Hstart Hfits) as (H & s1 & E & [Hb _ _ _ _ _]).
  rewrite Hrun in E. injection E as <-.
  pose proof (ackWithDetails_inv _ _ ids _ Hb) as Hack.
  apply wp_Some in Hack as (l & w' & E & Hi & _ & _ & -> & Hp & Hr & _). fold p in E, Hp, Hr.
  destruct (acks_spec ids p) as [Hnd Hmem]. exists w'. split_and!; try done.
  - intros id. rewrite Hp. apply remove_all_lookup.
  - by eapply ackWithDetails_credit.
  - intros id. unfold isKnown. rewrite orb_true_iff, !bool_decide_eq_true, (bk_acked _ (oi_box _ _ _ Hi)).
    unfold recent. rewrite elem_of_app.
    rewrite <- (take_drop (ackOrderHead (box w')) (ackOrder (box w'))) at 1. rewrite elem_of_app. tauto.
Qed.

(** [f] is the frame of the result message [e]. *)
Record frame_of_result e f : Prop := {
  fr_type : f_typeID f = ResultTypeID;
  fr_body : body f = e_body e;
  fr_req : reqMsgID f = e_reqMsgID e;
  fr_compressed : compressed f = e_compressed e;
  fr_inner : uncompressedBytes f = e_uncompressedBytes e;
  fr_source : replaySource f = e_replaySource e;
  fr_digest : innerDigest f = e_innerDigest e;
  fr_logical : logicalBytes f = e_logicalBytes e;
}.

(** C23: A result whose body was dropped after its first write is sent again byte
    for byte or not at all: the digest that the frame keeps admits no other body
    (unless SHA-256 collides), whatever the replay source answers; and when the
    source answers the bytes it answered first, the frame is rebuilt. *)
Theorem resent_bytes_are_the_original req inner wi comp src layer inv credit d prio e (f0 f : frame) moment
    (He : encodedResult sha256 rpc_result_id req inner wi comp src layer inv credit d prio = OK e)
    (Hreq : req ≠ 0) (Hsha : ∀ x, sha256 x = sha256 inner → x = inner)
    (Hf0 : frame_of_result e f0) (Hsame : same_message f0 f) :
  (∀ p, materialized sha256 rpc_result_id f moment = OK p →
     body p = e_body e ∧ msgID p = msgID f0 ∧ seqNo p = seqNo f0) ∧
  (∀ c, replaySource f = Some c → EncodeInner c moment = Some inner →
     ∃ p, materialized sha256 rpc_result_id f moment = OK p).
Proof.
  destruct Hf0 as [F1 F2 F3 F4 F5 F6 F7 F8], Hsame as [S1 S2 S3 S4 (S5 & S6 & S7) _ _ S8].
  unfold identity_of in S2. injection S2 as Sq St Sr _.
  assert (0 < blen (e_body e)) as Hpos.
  { unfold encodedResult in He. destruct (_ && _); [done|].
    assert (∀ x, 0 < blen (le_bytes 4 rpc_result_id ++ x)) as Hlen.
    { intros x. unfold blen. rewrite length_app, le_bytes_length. lia. }
    destruct src; simpl in He; destruct (_ <? _); try done; injection He as <-; apply Hlen. }
  assert (∀ c, replaySource f = Some c → e_body e = le_bytes 4 rpc_result_id ++ le_bytes 8 req ++ inner ∧
      e_compressed e = false) as Hsrc.
  { intros c Hc. rewrite S4, F6 in Hc. unfold encodedResult in He. destruct (_ && _); [done|].
    destruct src; simpl in He; destruct (_ <? _); try done; injection He as <-; simpl in *; done. }
  assert (e_reqMsgID e = req ∧ e_innerDigest e = sha256 inner ∧ e_uncompressedBytes e = blen inner
          ∧ e_logicalBytes e = blen (e_body e)) as (E1 & E2 & E3 & E4).
  { unfold encodedResult in He. destruct (_ && _); [done|].
    destruct src; simpl in He; destruct (_ <? _); try done; injection He as <-; simpl; done. }
  unfold materialized. destruct (Z.ltb_spec 0 (blen (body f))) as [Hb|Hb].
  { split; [|eauto]. intros p [= <-]. destruct S8 as [->|[S8 _]]; [by rewrite F2|]. rewrite S8 in Hb. done. }
  destruct S8 as [S8|(S8 & Hns & Hcomp)]; [rewrite S8, F2 in Hb; lia|].
  unfold materializeRPCResultBody.
  cbn [e_body e_typeID e_reqMsgID e_compressed e_uncompressedBytes e_replaySource e_innerDigest e_logicalBytes].
  change (12 <=? blen []) with false. rewrite Sr, F3, E1, St, F1, bool_decide_true by done.
  rewrite (proj2 (Z.eqb_neq req 0)) by done. cbn [negb orb].
  destruct (replaySource f) as [c|] eqn:Hc; [|congruence].
  destruct (Hsrc c eq_refl) as [Hbody Hec]. rewrite S7, F4, Hec, S6, F5, E3, S5, F7, E2, S3, F8, E4, Hbody.
  split.
  - intros p. destruct (EncodeInner c moment) as [x|]; [|done].
    destruct (negb (blen x =? blen inner) || negb (bool_decide (sha256 x = sha256 inner))) eqn:Ex; [done|].
    apply orb_false_iff in Ex as [_ Ex]. apply negb_false_iff, bool_decide_eq_true_1, Hsha in Ex as ->.
    destruct (_ && _); [done|]. intros [= <-]. done.
  - intros c' [= <-] ->. rewrite Z.eqb_refl, bool_decide_true by done. cbn [negb orb].
    rewrite Z.eqb_refl. cbn [negb]. rewrite andb_false_r. by eexists.
Qed.
End Theorems.

(** * A session at work *)

Module OutboxDemo.

(** Replay sources that answer their own bytes, and a digest without collisions. *)
#[local] Instance demo_source : ReplaySource (list Z) := { EncodeInner src _ := Some src; RetainedBytes _ := 100 }.
Definition digest (x : list Z) : list Z := x.
Definition result_id : Z := 4082920705.

Definition env (id : Z) : environment :=
  mkEnv false (mkConn 0 1 2) (mkProfile true 1 1) id (λ _, WriteOK) (λ _, None) 7.

Definition start : @outSystem (list Z) :=
  mkSystem (mkOut (newOutboundState (Some 0%nat)) newBulkWindow
    (list_to_map [(0%nat, mkTracked 1000 10); (1%nat, mkTracked 1000 0); (2%nat, mkTracked 1000 0)]) ∅ [] [] false) [].

Abbreviation drun := (out_run digest result_id).
Abbreviation dstep := (out_step digest result_id).

(** Two content messages, a service message, and the acknowledgement of the first. *)
Definition say (x : Z) : @outEvent (list Z) := EvMessage (env 0) (OtherTypeID 5) [x; x; x] 0 true None false.
Definition evs1 : list outEvent :=
  [say 1; say 2; EvMessage (env 0) PongTypeID [9] 0 true None true;
   EvHandle (env 101) 0; EvHandle (env 105) 0; EvHandle (env 103) 0].

Lemma start_started : started start.
Proof.
  exists (Some 0%nat). do 2 eexists. split; [reflexivity|]. split; [reflexivity|].
  intros k. unfold used_of, start. simpl. do 3 (destruct k as [|k]; [vm_compute; discriminate|]).
  rewrite !lookup_insert_ne by lia. done.
Qed.

Lemma evs1_fits : fits 200 (evs1 ++ [say 3]).
Proof. unfold fits, max_int64, two63. split_and!; simpl; try lia. repeat constructor; simpl; lia. Qed.

Lemma evs1_fits' : fits 200 evs1.
Proof. unfold fits, max_int64, two63. split_and!; simpl; try lia. repeat constructor; simpl; lia. Qed.

Example evs1_wire :
  (λ s, ((λ f, (msgID f, seqNo f, body f)) <$> wire (sys s), size (pending (box (sys s))), used_of 0 (sys s),
         used_of 1 (sys s))) <$> drun evs1 start
  = Some ([(101, 1, [1; 1; 1]); (105, 3, [2; 2; 2]); (109, 4, [9])], 2%nat, 16, 0).
Proof. vm_compute. reflexivity. Qed.

Definition s1 : @outSystem (list Z) := default start (drun evs1 start).

Lemma evs1_run : drun evs1 start = Some s1.
Proof. vm_compute. reflexivity. Qed.

Lemma outbox_bytes_are_accounted_witness :
  ∃ s', drun evs1 start = Some s' ∧ Z.of_nat (size (pending (box (sys s')))) ≤ maxTrackedServerMsgIDs.
Proof.
  destruct (outbox_bytes_are_accounted digest result_id start evs1 200 start_started evs1_fits')
    as (s' & E & _ & Hn & _).
  exists s'. split; [exact E|exact Hn].
Defined.

Definition f1 : outboundFrame (list Z) := default (mkFrame 0 0 PongTypeID [] 0 None 0 outboundPriorityNormal None false 0
  None [] 0 None None false None 0) (pending (box (sys s1)) !! 101).

Lemma unacknowledged_frames_are_kept_witness :
  ∃ f', pending (box (sys (default start (dstep (say 3) s1)))) !! 101 = Some f' ∧ same_message f1 f'.
Proof.
  apply (unacknowledged_frames_are_kept digest result_id start s1 _ evs1 (say 3) 200 101 f1
    start_started evs1_fits evs1_run).
  - vm_compute. reflexivity.
  - vm_compute. reflexivity.
  - intros [].
Defined.

Lemma acknowledgements_are_exact_witness :
  ∃ w', snd <$> ackWithDetails [105; 7; 105] (sys s1) = Some w' ∧ isKnown (box w') 105 = true.
Proof.
  destruct (acknowledgements_are_exact digest result_id start s1 evs1 200 [105; 7; 105] start_started evs1_fits' evs1_run)
    as (w' & E & _ & _ & _ & _ & Hr & Hk).
  exists w'. split; [rewrite E; reflexivity|]. apply Hk. right. rewrite Hr. vm_compute. constructor.
Defined.

Definition big : list Z := replicate 1200 7.

Definition result : encodedOutboundMessage (list Z) :=
  match encodedResult digest result_id 1001 big [] false (Some big) None true None None outboundPriorityNormal with
  | OK e => e
  | ERR _ => encodedMessage PongTypeID [] 0 true None
  end.

(** A result of 1200 bytes is sent, compacted, replayed for the same request and
    resent by its id: three frames on the wire, one message. *)
Definition roomy : @outSystem (list Z) :=
  mkSystem (mkOut (newOutboundState (Some 0%nat)) newBulkWindow
    (list_to_map [(0%nat, mkTracked 9000 0); (1%nat, mkTracked 9000 0); (2%nat, mkTracked 9000 0)]) ∅ [] [] false) [].

Definition evs2 : list outEvent :=
  [EvResult (env 0) 1001 big [] false (Some big) None true None None outboundPriorityNormal; EvHandle (env 201) 0;
   EvReplay (env 0) 1001 0; EvHandle (env 301) 0; EvVector (env 0) outboundResend [201]; EvHandle (env 401) 0].

Definition s2 : @outSystem (list Z) := default roomy (drun evs2 roomy).

Lemma evs2_run : drun evs2 roomy = Some s2.
Proof. vm_compute. reflexivity. Qed.

Lemma roomy_started : started roomy.
Proof.
  exists (Some 0%nat). do 2 eexists. split; [reflexivity|]. split; [reflexivity|].
  intros k. unfold used_of, roomy. simpl. do 3 (destruct k as [|k]; [vm_compute; discriminate|]).
  rewrite !lookup_insert_ne by lia. done.
Qed.

Lemma evs2_fits : fits 500 evs2.
Proof. unfold fits, max_int64, two63. split_and!; simpl; try lia. repeat constructor; simpl; lia. Qed.

Example evs2_wire :
  ((λ f, (msgID f, seqNo f, bool_decide (body f = e_body result))) <$> wire (sys s2),
   body <$> (pending (box (sys s2)) !! 201)) = ([(201, 1, true); (201, 1, true); (201, 1, true)], Some []).
Proof. vm_compute. reflexivity. Qed.

Lemma message_ids_mean_one_message_witness :
  length (wire (sys s2)) = 3%nat ∧
  Forall (λ f, Forall (λ g, msgID f = msgID g → identity_of f = identity_of g ∧ body f = body g) (wire (sys s2)))
    (wire (sys s2)).
Proof.
  split; [vm_compute; reflexivity|].
  destruct (message_ids_mean_one_message digest result_id roomy s2 evs2 500 roomy_started evs2_fits evs2_run)
    as (Hone & Hfull & Hbody & _).
  apply Forall_forall. intros f Hf. apply Forall_forall. intros g Hg Heq. split; [apply Hone; [by left|by left|done]|].
  destruct (Hbody ltac:(repeat constructor) f g (or_introl Hf) (or_introl Hg) Heq) as [H|[H|[H|H]]].
  - by apply Hfull in H.
  - by apply Hfull in H.
  - exact H.
  - destruct H as (x & y & Hne & He & _). by destruct Hne.
Defined.

Definition sent : outboundFrame (list Z) :=
  mkFrame 201 1 ResultTypeID (e_body result) 1212 (Some 0%nat) 1001 outboundPriorityNormal None false 1200 (Some big)
    big 1212 None None true (Some 7) 1.

Lemma resent_bytes_are_the_original_witness :
  ∃ p, materialized digest result_id (set_body [] sent) 0 = OK p ∧ body p = e_body result.
Proof.
  assert (same_message sent (set_body [] sent)) as Hsm.
  { split; try reflexivity; [split_and!; reflexivity|]. right. split_and!; [reflexivity|discriminate|reflexivity]. }
  destruct (resent_bytes_are_the_original digest result_id 1001 big [] false (Some big) None true None None
    outboundPriorityNormal result sent (set_body [] sent) 0) as [H1 H2]; [reflexivity|lia|by intros| |exact Hsm|].
  - split; reflexivity.
  - destruct (H2 big eq_refl eq_refl) as [p E]. exists p. split; [exact E|]. by apply H1.
Defined.

(** Two frames in a row whose clocks disagree: the second, a response, takes the
    place of a notification - its id is 3 modulo 4. *)
Example message_id_takes_the_class_of_its_predecessor :
  (λ s, msgID <$> wire (sys s)) <$> drun [say 1; say 2; EvHandle (env 103) 0; EvHandle (env 101) 0] start
  = Some [103; 107].
Proof. vm_compute. reflexivity. Qed.

(** The result of a bulk request is moved to another request while it is queued;
    it is sent and acknowledged, nothing is pending or queued any more, and its
    credit is still taken. *)
Example retargeted_result_keeps_its_credit :
  (λ s, (queue s, size (pending (box (sys s))), granted <$> leases (bulk (sys s)), inUse (bulk (sys s)))) <$>
    drun [EvDelivery; EvCredit Reserve;
          EvResult (env 0) 1001 [1; 2; 3] [1; 2; 3] false None None true (Some 0%nat) (Some 0%nat) outboundPriorityBulk;
          EvRetarget 0 1005; EvHandle (env 201) 0; EvVector (env 0) outboundAck [201]; EvHandle (env 0) 0] start
  = Some ([], 0%nat, [true], 1).
Proof. vm_compute. reflexivity. Qed.

(** Without the move the credit comes back. *)
Example acknowledged_result_returns_its_credit :
  (λ s, (queue s, size (pending (box (sys s))), granted <$> leases (bulk (sys s)), inUse (bulk (sys s)))) <$>
    drun [EvDelivery; EvCredit Reserve;
          EvResult (env 0) 1001 [1; 2; 3] [1; 2; 3] false None None true (Some 0%nat) (Some 0%nat) outboundPriorityBulk;
          EvHandle (env 201) 0; EvVector (env 0) outboundAck [201]; EvHandle (env 0) 0] start
  = Some ([], 0%nat, [false], 0).
Proof. vm_compute. reflexivity. Qed.
End OutboxDemo.
