(* ===== verification/AuthCodes.v ===== *)
(** The store of one-time codes ([internal/store/code.go],
    [internal/store/memory/login_code.go], [code_cas.go] and [CodeStore] of
    [auth.go]).

    Every method is one critical section, so a function of the store; the clock
    (nanoseconds) and the revision token it draws are arguments.  The system's
    random source never fails (Go 1.24), so neither do the methods.  An auth key
    id, eight bytes in the source, is the [int64] it is converted to. *)

From S2P Require Import Prelude GoStrings.

Open Scope Z_scope.

#[local] Set Default Proof Using "Type".

(** * Records *)

Definition PhoneCodePurposeChangePhone : string := "change_phone".
Definition PhoneCodePurposeConfirmPhone : string := "confirm_phone".
Definition PhoneCodeChannelPhone : string := "phone".
Definition PhoneCodeChannelSMS : string := "sms".
Definition PhoneCodeChannelEmailLogin : string := "email_login".
Definition PhoneCodeChannelEmailSetupRequired : string := "email_setup_required".

Definition LoginCodeChannelVerifiable (channel : string) : bool :=
  bool_decide (channel = PhoneCodeChannelPhone) || bool_decide (channel = PhoneCodeChannelSMS)
  || bool_decide (channel = PhoneCodeChannelEmailLogin).

Definition LoginCodeChannelTakeable (channel : string) : bool :=
  LoginCodeChannelVerifiable channel || bool_decide (channel = PhoneCodeChannelEmailSetupRequired).

Definition PhoneCodeVersionCurrent : Z := 2.

Record PhoneCode := {
  Version : Z;
  Revision : string;
  IssuedUserID : Z;
  SignUpVerified : bool;
  pc_Phone : string;
  Code : string;
  DeliveryID : string;
  Channel : string;
  Purpose : string;
  pc_UserID : Z;
  pc_AuthKeyID : Z;
  SessionID : Z;
  Email : string;
  PendingEmail : string;
  Attempts : Z;
  MaxAttempts : Z;
  VerifiedEmail : bool;
  RequireSignUp : bool;
  LoginEmailHash : string;
  RecoveryBinding : string;
  AccountDeletionHash : string;
}.

Definition no_code : PhoneCode := {|
  Version := 0; Revision := ""; IssuedUserID := 0; SignUpVerified := false; pc_Phone := ""; Code := "";
  DeliveryID := ""; Channel := ""; Purpose := ""; pc_UserID := 0; pc_AuthKeyID := 0; SessionID := 0; Email := "";
  PendingEmail := ""; Attempts := 0; MaxAttempts := 0; VerifiedEmail := false; RequireSignUp := false;
  LoginEmailHash := ""; RecoveryBinding := ""; AccountDeletionHash := "" |}.

#[export] Instance PhoneCode_eq_dec : EqDecision PhoneCode.
Proof. solve_decision. Defined.

(** [record.Attempts = attempts; record.SignUpVerified = verified; record.Revision = revision]. *)
Definition with_state (attempts : Z) (verified : bool) (revision : string) (c : PhoneCode) : PhoneCode := {|
  Version := Version c; Revision := revision; IssuedUserID := IssuedUserID c; SignUpVerified := verified;
  pc_Phone := pc_Phone c; Code := Code c; DeliveryID := DeliveryID c; Channel := Channel c; Purpose := Purpose c;
  pc_UserID := pc_UserID c; pc_AuthKeyID := pc_AuthKeyID c; SessionID := SessionID c; Email := Email c;
  PendingEmail := PendingEmail c; Attempts := attempts; MaxAttempts := MaxAttempts c;
  VerifiedEmail := VerifiedEmail c; RequireSignUp := RequireSignUp c; LoginEmailHash := LoginEmailHash c;
  RecoveryBinding := RecoveryBinding c; AccountDeletionHash := AccountDeletionHash c |}.

Definition with_Revision (revision : string) (c : PhoneCode) : PhoneCode :=
  with_state (Attempts c) (SignUpVerified c) revision c.

Inductive LoginCodeVerifyStatus := LoginCodeVerifyMissing | LoginCodeVerifyInvalid | LoginCodeVerifyAccepted.

#[export] Instance LoginCodeVerifyStatus_eq_dec : EqDecision LoginCodeVerifyStatus.
Proof. solve_decision. Defined.

Record LoginCodeVerifyResult := { Status : LoginCodeVerifyStatus; vr_Record : PhoneCode }.

Record PhoneCodeScope := {
  sc_Purpose : string;
  sc_UserID : Z;
  sc_AuthKeyID : Z;
  sc_Phone : string;
}.

#[export] Instance PhoneCodeScope_eq_dec : EqDecision PhoneCodeScope.
Proof. solve_decision. Defined.

#[export] Instance PhoneCodeScope_countable : Countable PhoneCodeScope.
Proof.
  apply (inj_countable' (λ s, (sc_Purpose s, sc_UserID s, sc_AuthKeyID s, sc_Phone s))
    (λ '(p, u, k, n), {| sc_Purpose := p; sc_UserID := u; sc_AuthKeyID := k; sc_Phone := n |})). by intros [].
Defined.

Definition Scope (c : PhoneCode) : PhoneCodeScope :=
  {| sc_Purpose := Purpose c; sc_UserID := pc_UserID c; sc_AuthKeyID := pc_AuthKeyID c; sc_Phone := pc_Phone c |}.

Definition Valid (s : PhoneCodeScope) : bool :=
  negb (bool_decide (sc_Purpose s = "")) && negb (sc_UserID s =? 0) && negb (sc_AuthKeyID s =? 0)
  && negb (bool_decide (sc_Phone s = "")).

(** * The store *)

Record codeEntry := { code : PhoneCode; expires : Z }.

Record CodeStore := {
  cm : gmap string codeEntry;
  scopes : gmap PhoneCodeScope string;
}.

Definition NewCodeStore : CodeStore := {| cm := ∅; scopes := ∅ |}.

Implicit Types (s : CodeStore) (hash phone revision : string) (c : PhoneCode) (now ttl : Z) (scope : PhoneCodeScope).

Definition deleteCodeLocked hash c s : CodeStore := {|
  cm := delete hash (cm s);
  scopes := if Valid (Scope c) && bool_decide (scopes s !! Scope c = Some hash) then delete (Scope c) (scopes s)
            else scopes s |}.

Definition put hash (e : codeEntry) s : CodeStore := {| cm := <[hash := e]> (cm s); scopes := scopes s |}.

Definition set_code c (e : codeEntry) : codeEntry := {| code := c; expires := expires e |}.

Definition liveCodeLocked now hash s : option codeEntry * CodeStore :=
  match cm s !! hash with
  | None => (None, s)
  | Some e => if expires e <? now then (None, deleteCodeLocked hash (code e) s) else (Some e, s)
  end.

Definition CodeStore_Set now revision hash c ttl s : CodeStore :=
  let c := with_Revision revision c in
  let e := {| code := c; expires := now + ttl |} in
  if Valid (Scope c) then
    {| cm := <[hash := e]> match scopes s !! Scope c with
                           | Some old => if bool_decide (old = hash) then cm s else delete old (cm s)
                           | None => cm s
                           end;
       scopes := <[Scope c := hash]> (scopes s) |}
  else put hash e s.

Definition CodeStore_Get now hash s : option PhoneCode * CodeStore :=
  let '(e, s) := liveCodeLocked now hash s in (code <$> e, s).

Definition CodeStore_Update now revision hash c s : CodeStore :=
  match liveCodeLocked now hash s with
  | (None, s) => s
  | (Some e, s) => put hash (set_code (with_Revision revision c) e) s
  end.

Definition CodeStore_Del hash s : CodeStore :=
  match cm s !! hash with
  | Some e => deleteCodeLocked hash (code e) s
  | None => {| cm := delete hash (cm s); scopes := scopes s |}
  end.

Definition forget_scope scope s : CodeStore := {| cm := cm s; scopes := delete scope (scopes s) |}.

(** [if s.scopes[scope] == hash { delete(s.scopes, scope) }] *)
Definition forget_scope_of hash scope s : CodeStore :=
  if bool_decide (scopes s !! scope = Some hash) then forget_scope scope s else s.

(** [s.scopes[scope] == hash], where an absent scope reads as the empty string. *)
Definition scope_is hash scope s : bool := bool_decide (default "" (scopes s !! scope) = hash).

Definition ConsumeScoped now hash scope s : option PhoneCode * CodeStore :=
  if negb (Valid scope) || negb (scope_is hash scope s) then (None, s)
  else match cm s !! hash with
  | None => (None, forget_scope scope s)
  | Some e =>
      if expires e <? now then (None, deleteCodeLocked hash (code e) s)
      else if negb (Version (code e) =? PhoneCodeVersionCurrent) || negb (bool_decide (Scope (code e) = scope)) then
        let s := forget_scope scope {| cm := delete hash (cm s); scopes := scopes s |} in
        (None, if Valid (Scope (code e)) then forget_scope_of hash (Scope (code e)) s else s)
      else (Some (code e), deleteCodeLocked hash (code e) s)
  end.

(** ** Verification *)

Definition loginCodeVerifiable c : bool := LoginCodeChannelVerifiable (Channel c).

Definition loginCodeTakeable c : bool := LoginCodeChannelTakeable (Channel c).

Definition missing : LoginCodeVerifyResult := {| Status := LoginCodeVerifyMissing; vr_Record := no_code |}.
Definition invalid c : LoginCodeVerifyResult := {| Status := LoginCodeVerifyInvalid; vr_Record := c |}.
Definition accepted c : LoginCodeVerifyResult := {| Status := LoginCodeVerifyAccepted; vr_Record := c |}.

Definition max_attempts (defaultMaxAttempts : Z) c : Z :=
  let maxAttempts := if MaxAttempts c <=? 0 then defaultMaxAttempts else MaxAttempts c in
  if maxAttempts <=? 0 then 1 else maxAttempts.

(** The branch of a wrong code, which both verifications have. *)
Definition wrong_code revision hash (e : codeEntry) (defaultMaxAttempts : Z) s : LoginCodeVerifyResult * CodeStore :=
  let record := with_state (Attempts (code e) + 1) (SignUpVerified (code e)) revision (code e) in
  (invalid record,
   if max_attempts defaultMaxAttempts record <=? Attempts record then deleteCodeLocked hash record s
   else put hash (set_code record e) s).

Definition VerifyLogin now revision hash phone (guess : string) (keepForSignUp : bool) (defaultMaxAttempts : Z) s
    : LoginCodeVerifyResult * CodeStore :=
  match liveCodeLocked now hash s with
  | (None, s) => (missing, s)
  | (Some e, s) =>
      let record := code e in
      if negb (Version record =? PhoneCodeVersionCurrent) then (missing, deleteCodeLocked hash record s)
      else if SignUpVerified record then (missing, s)
      else if negb (bool_decide (Purpose record = "")) || negb (bool_decide (pc_Phone record = phone))
              || negb (loginCodeVerifiable record) || bool_decide (Code record = "") || bool_decide (guess = "")
      then (invalid record, s)
      else if negb (bool_decide (Code record = guess)) then wrong_code revision hash e defaultMaxAttempts s
      else if keepForSignUp then
        if negb (IssuedUserID record =? 0) then (invalid record, s)
        else let record := with_state (Attempts record) true revision record in
             (accepted record, put hash (set_code record e) s)
      else (accepted record, deleteCodeLocked hash record s)
  end.

Definition VerifyScoped now revision hash scope (guess : string) (defaultMaxAttempts : Z) s
    : LoginCodeVerifyResult * CodeStore :=
  if negb (Valid scope) || negb (scope_is hash scope s) then (missing, s)
  else match liveCodeLocked now hash s with
  | (None, s) => (missing, forget_scope_of hash scope s)
  | (Some e, s) =>
      let record := code e in
      if negb (Version record =? PhoneCodeVersionCurrent) || negb (bool_decide (Scope record = scope))
         || SignUpVerified record || bool_decide (Code record = "")
      then (missing, forget_scope_of hash scope (deleteCodeLocked hash record s))
      else if bool_decide (guess = "") then (invalid record, s)
      else if negb (bool_decide (Code record = guess)) then wrong_code revision hash e defaultMaxAttempts s
      else (accepted record, deleteCodeLocked hash record s)
  end.

Definition ConsumeSignUpVerified now hash phone s : option PhoneCode * CodeStore :=
  match liveCodeLocked now hash s with
  | (None, s) => (None, s)
  | (Some e, s) =>
      let record := code e in
      if negb (Version record =? PhoneCodeVersionCurrent) then (None, deleteCodeLocked hash record s)
      else if negb (bool_decide (Purpose record = "")) || negb (bool_decide (pc_Phone record = phone))
              || negb (loginCodeVerifiable record) || negb (IssuedUserID record =? 0) || negb (SignUpVerified record)
      then (None, s)
      else (Some record, deleteCodeLocked hash record s)
  end.

Definition TakeLoginCode now hash phone s : option PhoneCode * CodeStore :=
  match liveCodeLocked now hash s with
  | (None, s) => (None, s)
  | (Some e, s) =>
      let record := code e in
      if negb (Version record =? PhoneCodeVersionCurrent) then (None, deleteCodeLocked hash record s)
      else if SignUpVerified record then (None, s)
      else if negb (bool_decide (Purpose record = "")) || negb (bool_decide (pc_Phone record = phone))
              || negb (loginCodeTakeable record)
      then (None, s)
      else (Some record, deleteCodeLocked hash record s)
  end.

Definition InvalidateLoginCode now hash phone s : bool * CodeStore :=
  match liveCodeLocked now hash s with
  | (None, s) => (false, s)
  | (Some e, s) =>
      let record := code e in
      if negb (Version record =? PhoneCodeVersionCurrent) then (false, deleteCodeLocked hash record s)
      else if negb (bool_decide (Purpose record = "")) || negb (bool_decide (pc_Phone record = phone))
              || negb (loginCodeTakeable record)
      then (false, s)
      else (true, deleteCodeLocked hash record s)
  end.

(** ** Compare and swap *)

(** A snapshot is the record with its revision, which the record has anyway. *)
Definition GetSnapshot now hash s : option PhoneCode * CodeStore :=
  match liveCodeLocked now hash s with
  | (None, s) => (None, s)
  | (Some e, s) =>
      if negb (Version (code e) =? PhoneCodeVersionCurrent) || bool_decide (Revision (code e) = "")
      then (None, deleteCodeLocked hash (code e) s)
      else (Some (code e), s)
  end.

Definition CompareAndUpdate now revision hash (expectedRevision : string) (next : PhoneCode) s : bool * CodeStore :=
  if bool_decide (expectedRevision = "") || negb (Version next =? PhoneCodeVersionCurrent)
     || negb (bool_decide (Purpose next = ""))
  then (false, s)
  else match liveCodeLocked now hash s with
  | (None, s) => (false, s)
  | (Some e, s) =>
      if negb (Version (code e) =? PhoneCodeVersionCurrent) || bool_decide (Revision (code e) = "")
      then (false, deleteCodeLocked hash (code e) s)
      else if negb (bool_decide (Purpose (code e) = "")) || negb (bool_decide (Revision (code e) = expectedRevision))
      then (false, s)
      else (true, put hash (set_code (with_Revision revision next) e) s)
  end.

Definition CompareAndDelete now hash (expectedRevision : string) s : bool * CodeStore :=
  if bool_decide (expectedRevision = "") then (false, s)
  else match liveCodeLocked now hash s with
  | (None, s) => (false, s)
  | (Some e, s) =>
      if negb (Version (code e) =? PhoneCodeVersionCurrent) || bool_decide (Revision (code e) = "")
      then (false, deleteCodeLocked hash (code e) s)
      else if negb (bool_decide (Purpose (code e) = "")) || negb (bool_decide (Revision (code e) = expectedRevision))
      then (false, s)
      else (true, deleteCodeLocked hash (code e) s)
  end.

(** * The store at work

    A call of the store and its answer; a trace is what a store has been asked
    and has answered. *)

Inductive code_op :=
  | OpSet (revision hash : string) (c : PhoneCode) (ttl : Z)
  | OpGet (hash : string)
  | OpUpdate (revision hash : string) (c : PhoneCode)
  | OpDel (hash : string)
  | OpConsumeScoped (hash : string) (scope : PhoneCodeScope)
  | OpVerifyLogin (revision hash phone guess : string) (keepForSignUp : bool) (defaultMaxAttempts : Z)
  | OpVerifyScoped (revision hash : string) (scope : PhoneCodeScope) (guess : string) (defaultMaxAttempts : Z)
  | OpConsumeSignUpVerified (hash phone : string)
  | OpTakeLoginCode (hash phone : string)
  | OpInvalidateLoginCode (hash phone : string)
  | OpGetSnapshot (hash : string)
  | OpCompareAndUpdate (revision hash expected : string) (next : PhoneCode)
  | OpCompareAndDelete (hash expected : string).

Inductive code_answer :=
  | Done
  | Found (c : option PhoneCode)
  | Verified (r : LoginCodeVerifyResult)
  | Flag (b : bool).

Definition found_of (r : option PhoneCode * CodeStore) : code_answer * CodeStore := (Found r.1, r.2).
Definition verified_of (r : LoginCodeVerifyResult * CodeStore) : code_answer * CodeStore := (Verified r.1, r.2).
Definition flag_of (r : bool * CodeStore) : code_answer * CodeStore := (Flag r.1, r.2).

Definition perform_code now (op : code_op) s : code_answer * CodeStore :=
  match op with
  | OpSet revision hash c ttl => (Done, CodeStore_Set now revision hash c ttl s)
  | OpGet hash => found_of (CodeStore_Get now hash s)
  | OpUpdate revision hash c => (Done, CodeStore_Update now revision hash c s)
  | OpDel hash => (Done, CodeStore_Del hash s)
  | OpConsumeScoped hash scope => found_of (ConsumeScoped now hash scope s)
  | OpVerifyLogin revision hash phone guess keep default =>
      verified_of (VerifyLogin now revision hash phone guess keep default s)
  | OpVerifyScoped revision hash scope guess default => verified_of (VerifyScoped now revision hash scope guess default s)
  | OpConsumeSignUpVerified hash phone => found_of (ConsumeSignUpVerified now hash phone s)
  | OpTakeLoginCode hash phone => found_of (TakeLoginCode now hash phone s)
  | OpInvalidateLoginCode hash phone => flag_of (InvalidateLoginCode now hash phone s)
  | OpGetSnapshot hash => found_of (GetSnapshot now hash s)
  | OpCompareAndUpdate revision hash expected next => flag_of (CompareAndUpdate now revision hash expected next s)
  | OpCompareAndDelete hash expected => flag_of (CompareAndDelete now hash expected s)
  end.

Definition exchange : Type := code_op * code_answer.

Inductive code_trace : CodeStore → list exchange → CodeStore → Prop :=
  | trace_nil s : code_trace s [] s
  | trace_snoc s tr s1 now op ans s2 :
      code_trace s tr s1 → perform_code now op s1 = (ans, s2) → code_trace s (tr ++ [(op, ans)]) s2.

(** What an exchange means for the code at [hash]. *)
Inductive code_event :=
  | Issues (c : PhoneCode)
  | Accepts (keep : bool) (c : PhoneCode)
  | Rejects (c : PhoneCode)
  | SignsUp (c : PhoneCode).

Definition at_hash (hash h : string) (ev : code_event) : option code_event := if bool_decide (h = hash) then Some ev else None.

Definition verified_event (keep : bool) (guess : string) (r : LoginCodeVerifyResult) : option code_event :=
  match Status r with
  | LoginCodeVerifyAccepted => Some (Accepts keep (vr_Record r))
  | LoginCodeVerifyInvalid =>
      if bool_decide (guess = Code (vr_Record r)) || bool_decide (guess = "") then None else Some (Rejects (vr_Record r))
  | LoginCodeVerifyMissing => None
  end.

Definition event_at (hash : string) (x : exchange) : option code_event :=
  match x with
  | (OpSet _ h c _, _) => at_hash hash h (Issues c)
  | (OpUpdate _ h c, _) => at_hash hash h (Issues c)
  | (OpCompareAndUpdate _ h _ next, Flag true) => at_hash hash h (Issues next)
  | (OpVerifyLogin _ h phone guess keep _, Verified r) =>
      if bool_decide (Status r = LoginCodeVerifyInvalid)
         && (negb (bool_decide (phone = pc_Phone (vr_Record r))) || negb (bool_decide (Purpose (vr_Record r) = ""))
             || negb (loginCodeVerifiable (vr_Record r)) || bool_decide (Code (vr_Record r) = ""))
      then None
      else ev ← verified_event keep guess r; at_hash hash h ev
  | (OpVerifyScoped _ h _ guess _, Verified r) => ev ← verified_event false guess r; at_hash hash h ev
  | (OpConsumeSignUpVerified h _, Found (Some c)) => at_hash hash h (SignsUp c)
  | _ => None
  end.

Lemma bool_decide_sym (x y : string) : bool_decide (x = y) = bool_decide (y = x).
Proof. by apply bool_decide_ext. Qed.

(** * What an exchange does to one code *)

Inductive code_fate (oe : option codeEntry) : option code_event → option codeEntry → Prop :=
  | fate_stays : code_fate oe None oe
  | fate_gone : code_fate oe None None
  | fate_issued c revision t : code_fate oe (Some (Issues c)) (Some {| code := with_Revision revision c; expires := t |})
  | fate_issued_late c : code_fate oe (Some (Issues c)) None
  | fate_rejected e revision default oe' :
      let record := with_state (Attempts (code e) + 1) (SignUpVerified (code e)) revision (code e) in
      oe = Some e → SignUpVerified (code e) = false →
      oe' = (if max_attempts default record <=? Attempts record then None else Some (set_code record e)) →
      code_fate oe (Some (Rejects record)) oe'
  | fate_accepted e keep :
      oe = Some e → SignUpVerified (code e) = false → keep = false → code_fate oe (Some (Accepts keep (code e))) None
  | fate_kept e revision :
      let record := with_state (Attempts (code e)) true revision (code e) in
      oe = Some e → SignUpVerified (code e) = false → IssuedUserID (code e) = 0 →
      code_fate oe (Some (Accepts true record)) (Some (set_code record e))
  | fate_signed_up e :
      oe = Some e → SignUpVerified (code e) = true → IssuedUserID (code e) = 0 → code_fate oe (Some (SignsUp (code e))) None.

Lemma cm_deleteCodeLocked h c s hash :
  cm (deleteCodeLocked h c s) !! hash = if decide (h = hash) then None else cm s !! hash.
Proof. unfold deleteCodeLocked. cbn. rewrite lookup_delete. by destruct (decide (h = hash)). Qed.

Lemma cm_put h e s hash : cm (put h e s) !! hash = if decide (h = hash) then Some e else cm s !! hash.
Proof. unfold put. cbn. rewrite lookup_insert. by destruct (decide (h = hash)). Qed.

Lemma cm_forget_scope_of h scope s : cm (forget_scope_of h scope s) = cm s.
Proof. unfold forget_scope_of. by case_bool_decide. Qed.

Inductive live_spec now h s : option codeEntry * CodeStore → Prop :=
  | live_some e : cm s !! h = Some e → live_spec now h s (Some e, s)
  | live_none : cm s !! h = None → live_spec now h s (None, s)
  | live_expired e : cm s !! h = Some e → live_spec now h s (None, deleteCodeLocked h (code e) s).

Lemma liveCodeLocked_spec now h s : live_spec now h s (liveCodeLocked now h s).
Proof. unfold liveCodeLocked. destruct (cm s !! h) as [e|] eqn:E; [|by constructor]. destruct (_ <? _); by constructor. Qed.

(** An exchange about another hash can only remove the code. *)
Definition op_hash (op : code_op) : string :=
  match op with
  | OpSet _ h _ _ | OpGet h | OpUpdate _ h _ | OpDel h | OpConsumeScoped h _ | OpVerifyLogin _ h _ _ _ _
  | OpVerifyScoped _ h _ _ _ | OpConsumeSignUpVerified h _ | OpTakeLoginCode h _ | OpInvalidateLoginCode h _
  | OpGetSnapshot h | OpCompareAndUpdate _ h _ _ | OpCompareAndDelete h _ => h
  end.

Ltac use_live :=
  match goal with
  | |- context [liveCodeLocked ?now ?h ?s] => destruct (liveCodeLocked_spec now h s)
  end.

Ltac lookup_codes :=
  repeat first
    [ rewrite cm_deleteCodeLocked | rewrite cm_put | rewrite cm_forget_scope_of
    | progress cbn [cm fst snd forget_scope] | rewrite lookup_delete | rewrite lookup_insert ].

Lemma perform_other now op s ans s' hash :
  perform_code now op s = (ans, s') → op_hash op ≠ hash →
  event_at hash (op, ans) = None ∧ (cm s' !! hash = cm s !! hash ∨ cm s' !! hash = None).
Proof.
  intros E Hne. split.
  - unfold event_at, at_hash. destruct op; cbn [op_hash] in Hne; rewrite ?(bool_decide_eq_false_2 _ Hne); try done;
      destruct ans as [|[]|r|[]]; try done; try case_match; try done; by destruct (verified_event _ _ _).
  - destruct op; cbn [op_hash perform_code] in *; unfold found_of, verified_of, flag_of in E; injection E as _ <-; cbn [snd].
    all: unfold CodeStore_Set, CodeStore_Get, CodeStore_Update, CodeStore_Del, ConsumeScoped, VerifyLogin, VerifyScoped,
      ConsumeSignUpVerified, TakeLoginCode, InvalidateLoginCode, GetSnapshot, CompareAndUpdate, CompareAndDelete, wrong_code.
    all: try use_live; repeat (case_match; cbn [fst snd]); lookup_codes; repeat case_decide; try contradiction; auto.
Qed.

Ltac unfold_code_ops :=
  unfold CodeStore_Set, CodeStore_Get, CodeStore_Update, CodeStore_Del, ConsumeScoped, VerifyLogin, VerifyScoped,
    ConsumeSignUpVerified, TakeLoginCode, InvalidateLoginCode, GetSnapshot, CompareAndUpdate, CompareAndDelete, wrong_code.

(** Every branch of an exchange that is not an event leaves the code or removes it. *)
Ltac plain_branches :=
  try use_live; repeat (case_match; cbn [fst snd]); lookup_codes; rewrite ?decide_True by done;
  repeat match goal with H : cm _ !! _ = _ |- _ => rewrite H; clear H end; first [constructor | by constructor].

Lemma wrong_code_fate revision h e default s :
  let r := wrong_code revision h e default s in
  cm s !! h = Some e → SignUpVerified (code e) = false →
  code_fate (Some e) (Some (Rejects (vr_Record r.1))) (cm r.2 !! h).
Proof.
  intros r He Hs. eapply fate_rejected with (default := default); [done..|]. unfold r, wrong_code. cbn [fst snd].
  case_match; lookup_codes; by rewrite decide_True.
Qed.

Lemma at_hash_same h ev : at_hash h h ev = Some ev.
Proof. unfold at_hash. by rewrite bool_decide_eq_true_2. Qed.

Lemma event_compared revision h phone guess keep default (r : LoginCodeVerifyResult) :
  (Status r = LoginCodeVerifyInvalid → pc_Phone (vr_Record r) = phone ∧ Purpose (vr_Record r) = ""
     ∧ loginCodeVerifiable (vr_Record r) = true ∧ Code (vr_Record r) ≠ "") →
  event_at h (OpVerifyLogin revision h phone guess keep default, Verified r)
  = verified_event keep guess r ≫= at_hash h h.
Proof.
  intros Hr. unfold event_at. destruct (decide (Status r = LoginCodeVerifyInvalid)) as [Hi|Hi].
  - destruct (Hr Hi) as (-> & -> & -> & Hc). rewrite !(bool_decide_eq_true_2 (_ = _)) by done.
    by rewrite bool_decide_eq_false_2.
  - by rewrite bool_decide_eq_false_2.
Qed.

Lemma VerifyLogin_fate now revision h phone guess keep default s :
  let r := VerifyLogin now revision h phone guess keep default s in
  code_fate (cm s !! h) (event_at h (OpVerifyLogin revision h phone guess keep default, Verified r.1)) (cm r.2 !! h).
Proof.
  intros r. unfold r, VerifyLogin. destruct (liveCodeLocked_spec now h s) as [e He|He|e He].
  2, 3: cbn; lookup_codes; rewrite ?decide_True by done; rewrite He; constructor.
  rewrite He. destruct (negb (Version _ =? _)); [cbn; rewrite lookup_delete_eq; constructor|].
  destruct (SignUpVerified (code e)) eqn:Hs; [cbn; rewrite He; constructor|].
  destruct (negb _ || _ || _ || _ || _) eqn:Hskip.
  - cbn [fst snd]. rewrite He. unfold event_at, verified_event. cbn [Status vr_Record invalid]. revert Hskip.
    rewrite (bool_decide_sym phone), (bool_decide_sym guess (Code (code e))), (bool_decide_eq_true_2 (LoginCodeVerifyInvalid = _)) by done.
    generalize (bool_decide (Purpose (code e) = "")), (bool_decide (pc_Phone (code e) = phone)), (loginCodeVerifiable (code e)),
      (bool_decide (Code (code e) = "")), (bool_decide (Code (code e) = guess)), (bool_decide (guess = "")).
    intros [] [] [] [] [] []; cbn; try discriminate; intros _; try constructor.
  - repeat (apply orb_false_iff in Hskip as [Hskip ?]). bool_facts. subst phone.
    destruct (negb (bool_decide (Code (code e) = guess))) eqn:Hg; [|destruct keep; [destruct (negb (IssuedUserID _ =? _)) eqn:Hi|]]; bool_facts.
    + rewrite event_compared by (cbn; done). unfold verified_event. cbn [Status vr_Record wrong_code invalid fst].
      cbn [Code with_state]. rewrite (bool_decide_eq_false_2 (guess = _)), bool_decide_eq_false_2 by done.
      cbn. rewrite at_hash_same. by apply wrong_code_fate.
    + rewrite event_compared by done. unfold verified_event. cbn. rewrite bool_decide_eq_true_2 by done. cbn. rewrite He. constructor.
    + rewrite event_compared by done. unfold verified_event. cbn. rewrite at_hash_same. lookup_codes. rewrite decide_True by done.
      by constructor.
    + rewrite event_compared by done. unfold verified_event. cbn. rewrite at_hash_same. lookup_codes. rewrite ?decide_True by done.
      by constructor.
Qed.

Lemma VerifyScoped_fate now revision h scope guess default s :
  let r := VerifyScoped now revision h scope guess default s in
  code_fate (cm s !! h) (event_at h (OpVerifyScoped revision h scope guess default, Verified r.1)) (cm r.2 !! h).
Proof.
  intros r. unfold r, VerifyScoped, event_at. destruct (_ || _); [constructor|].
  destruct (liveCodeLocked_spec now h s) as [e He|He|e He].
  2, 3: cbn; lookup_codes; rewrite ?decide_True by done; rewrite ?He; constructor.
  rewrite He. destruct (_ || _) eqn:Hskip; [cbn; lookup_codes; rewrite decide_True by done; constructor|].
  repeat (apply orb_false_iff in Hskip as [Hskip ?]).
  destruct (bool_decide (guess = "")) eqn:Hg; [cbn [fst snd]; unfold verified_event; cbn; rewrite Hg, orb_true_r, He; constructor|].
  destruct (negb (bool_decide (Code (code e) = guess))) eqn:Hc; bool_facts.
  - unfold verified_event. cbn [Status vr_Record wrong_code invalid fst]. cbn [Code with_state].
    rewrite (bool_decide_eq_false_2 (guess = Code _)), bool_decide_eq_false_2 by done. cbn. rewrite at_hash_same.
    by apply wrong_code_fate.
  - unfold verified_event. cbn. rewrite at_hash_same. lookup_codes. rewrite decide_True by done. by constructor.
Qed.

Lemma ConsumeSignUpVerified_fate now h phone s :
  let r := ConsumeSignUpVerified now h phone s in
  code_fate (cm s !! h) (event_at h (OpConsumeSignUpVerified h phone, Found r.1)) (cm r.2 !! h).
Proof.
  intros r. unfold r, ConsumeSignUpVerified. destruct (liveCodeLocked_spec now h s) as [e He|He|e He].
  2, 3: cbn; lookup_codes; rewrite ?decide_True by done; rewrite ?He; constructor.
  rewrite He. destruct (negb _); [cbn; lookup_codes; rewrite decide_True by done; constructor|].
  destruct (_ || _) eqn:Hskip; [cbn; rewrite He; constructor|].
  repeat (apply orb_false_iff in Hskip as [Hskip ?]). bool_facts. cbn. rewrite at_hash_same. lookup_codes.
  rewrite decide_True by done. by constructor.
Qed.

Lemma CompareAndUpdate_fate now revision h expected next s :
  let r := CompareAndUpdate now revision h expected next s in
  code_fate (cm s !! h) (event_at h (OpCompareAndUpdate revision h expected next, Flag r.1)) (cm r.2 !! h).
Proof.
  intros r. unfold r, CompareAndUpdate. destruct (_ || _); [constructor|].
  destruct (liveCodeLocked_spec now h s) as [e He|He|e He].
  2, 3: cbn; lookup_codes; rewrite ?decide_True by done; rewrite ?He; constructor.
  rewrite He. destruct (_ || _); [cbn; lookup_codes; rewrite decide_True by done; constructor|].
  destruct (_ || _); [cbn; rewrite He; constructor|].
  cbn. rewrite at_hash_same. lookup_codes. rewrite decide_True by done. constructor.
Qed.

Lemma perform_same now op s ans s' :
  perform_code now op s = (ans, s') → code_fate (cm s !! op_hash op) (event_at (op_hash op) (op, ans)) (cm s' !! op_hash op).
Proof.
  intros E. destruct op; cbn [op_hash perform_code] in *; unfold found_of, verified_of, flag_of in E; injection E as <- <-; cbn [snd].
  1: { cbn. rewrite at_hash_same. unfold CodeStore_Set. destruct (Valid _); cbn; rewrite lookup_insert_eq; constructor. }
  2: { cbn. rewrite at_hash_same. unfold CodeStore_Update. destruct (liveCodeLocked_spec now hash s) as [e He|He|e He];
         lookup_codes; rewrite ?decide_True by done; rewrite ?He; constructor. }
  3: { cbn. unfold ConsumeScoped. plain_branches. }
  3: apply VerifyLogin_fate.
  3: apply VerifyScoped_fate.
  3: apply ConsumeSignUpVerified_fate.
  5: { cbn. unfold GetSnapshot. plain_branches. }
  5: apply CompareAndUpdate_fate.
  all: cbn; unfold_code_ops; plain_branches.
Qed.

Lemma perform_fate now op s ans s' hash :
  perform_code now op s = (ans, s') → code_fate (cm s !! hash) (event_at hash (op, ans)) (cm s' !! hash).
Proof.
  intros E. destruct (decide (op_hash op = hash)) as [<-|Hne]; [by eapply perform_same|].
  destruct (perform_other _ _ _ _ _ _ E Hne) as [-> [-> | ->]]; constructor.
Qed.

(** * The life of a code

    What a code is to the protocol: issued, guessed at a bounded number of times,
    accepted once; one that was issued for a number without an account may
    instead be kept, and then lets one account be created. *)

Inductive phase :=
  | NoCode
  | Live (c : PhoneCode) (guesses : Z)
  | Kept (c : PhoneCode).

(** The same code, up to what the store keeps about it. *)
Definition same_code c (c' : PhoneCode) : Prop :=
  c' = with_state (Attempts c') (SignUpVerified c') (Revision c') c.

Definition issued c : phase := if SignUpVerified c then Kept c else Live c 0.

(** Where the code itself sets no limit, the caller does. *)
Definition exhausted c (guesses : Z) : bool := (0 <? MaxAttempts c) && (MaxAttempts c <=? Attempts c + guesses).

Inductive phase_step : phase → code_event → phase → Prop :=
  | step_issue p c : phase_step p (Issues c) (issued c)
  | step_reject c n r :
      same_code c r → exhausted c (n + 1) = false → phase_step (Live c n) (Rejects r) (Live c (n + 1))
  | step_exhaust c n r :
      same_code c r → exhausted c (n + 1) = true ∨ MaxAttempts c ≤ 0 → phase_step (Live c n) (Rejects r) NoCode
  | step_accept c n r : same_code c r → phase_step (Live c n) (Accepts false r) NoCode
  | step_keep c n r : same_code c r → IssuedUserID c = 0 → phase_step (Live c n) (Accepts true r) (Kept c)
  | step_sign_up c r : same_code c r → IssuedUserID c = 0 → phase_step (Kept c) (SignsUp r) NoCode.

Inductive lives : phase → list code_event → phase → Prop :=
  | lives_nil p : lives p [] p
  | lives_snoc p evs p1 ev p2 : lives p evs p1 → phase_step p1 ev p2 → lives p (evs ++ [ev]) p2.

(** The code that a store holds is in that phase, or has gone. *)
Inductive in_phase : phase → option codeEntry → Prop :=
  | in_gone p : in_phase p None
  | in_live c n e :
      same_code c (code e) → SignUpVerified (code e) = false → Attempts (code e) = Attempts c + n →
      in_phase (Live c n) (Some e)
  | in_kept c e : same_code c (code e) → SignUpVerified (code e) = true → in_phase (Kept c) (Some e).

Lemma same_code_trans c c1 c2 : same_code c c1 → same_code c1 c2 → same_code c c2.
Proof. unfold same_code. intros -> ->. destruct c. reflexivity. Qed.

Lemma same_code_state a v r c : same_code c (with_state a v r c).
Proof. by destruct c. Qed.

Lemma fate_in_phase p oe ev oe' :
  in_phase p oe → code_fate oe ev oe' →
  match ev with
  | None => in_phase p oe'
  | Some ev => ∃ p', phase_step p ev p' ∧ in_phase p' oe'
  end.
Proof.
  intros Hp Hf. destruct Hf as [| |c revision t|c|e revision default oe' record -> Hs ->|e keep -> Hs ->|e revision record -> Hs Hi|e -> Hs Hi].
  - done.
  - constructor.
  - exists (issued c). split; [constructor|]. unfold issued. destruct (SignUpVerified c) eqn:E; constructor; cbn; try done; try lia;
      by apply same_code_state.
  - exists (issued c). split; constructor.
  - inversion Hp as [|c n e' Hc _ Ha|c e' Hc Hs']; subst; [|congruence].
    assert (same_code c record) as Hr by (eapply same_code_trans; [done|apply same_code_state]).
    assert (MaxAttempts c = MaxAttempts record) as Hm by (rewrite Hr; done).
    assert (Attempts record = Attempts c + (n + 1)) as Hn by (cbn; lia).
    unfold max_attempts. rewrite <- Hm, Hn. destruct (exhausted c (n + 1)) eqn:E; unfold exhausted in E; bool_facts.
    + exists NoCode. split; [apply step_exhaust; unfold exhausted|]; [done| |].
      * left. apply andb_true_iff. split; [by apply Z.ltb_lt|by apply Z.leb_le].
      * rewrite (proj2 (Z.leb_gt (MaxAttempts c) 0)) by lia. rewrite (proj2 (Z.leb_gt (MaxAttempts c) 0)) by lia.
        rewrite (proj2 (Z.leb_le _ _)) by lia. constructor.
    + destruct (Z.ltb_spec 0 (MaxAttempts c)) as [Hpos|Hneg].
      * destruct E as [E|E]; bool_facts; [lia|].
        exists (Live c (n + 1)). split; [apply step_reject; [done|]; unfold exhausted; apply andb_false_iff; right; by apply Z.leb_gt|].
        rewrite (proj2 (Z.leb_gt (MaxAttempts c) 0)) by lia. rewrite (proj2 (Z.leb_gt (MaxAttempts c) 0)) by lia.
        rewrite (proj2 (Z.leb_gt _ _)) by lia. by constructor.
      * case_match.
        -- exists NoCode. split; [apply step_exhaust; auto|constructor].
        -- exists (Live c (n + 1)). split; [apply step_reject; [done|]; unfold exhausted; apply andb_false_iff; left; apply Z.ltb_ge; lia|].
           by constructor.
  - inversion Hp as [|c n e' Hc _ Ha|c e' Hc Hs']; subst; [|congruence]. exists NoCode. split; [by constructor|constructor].
  - inversion Hp as [|c n e' Hc _ Ha|c e' Hc Hs']; subst; [|congruence]. exists (Kept c).
    assert (same_code c record) as Hr by (eapply same_code_trans; [done|apply same_code_state]).
    split; [constructor; [done|]|by constructor]. rewrite Hc in Hi. exact Hi.
  - inversion Hp as [|c n e' Hc Hs' Ha|c e' Hc _]; subst; [congruence|]. exists NoCode.
    split; [constructor; [done|]|constructor]. rewrite Hc in Hi. exact Hi.
Qed.

Definition events_at (hash : string) (tr : list exchange) : list code_event := omap (event_at hash) tr.

Lemma events_at_snoc hash tr x : events_at hash (tr ++ [x]) = events_at hash tr ++ option_list (event_at hash x).
Proof. unfold events_at. rewrite omap_app. done. Qed.

Lemma trace_lives s tr s' hash :
  code_trace s tr s' → cm s !! hash = None → ∃ p, lives NoCode (events_at hash tr) p ∧ in_phase p (cm s' !! hash).
Proof.
  intros Htr Hs. induction Htr as [s|s tr s1 now op ans s2 _ IH E].
  - exists NoCode. rewrite Hs. split; constructor.
  - destruct (IH Hs) as (p & Hl & Hp). pose proof (fate_in_phase _ _ _ _ Hp (perform_fate _ _ _ _ _ hash E)) as Hf.
    rewrite events_at_snoc. destruct (event_at hash (op, ans)) as [ev|].
    + destruct Hf as (p' & Hstep & Hp'). exists p'. split; [by eapply lives_snoc|done].
    + exists p. split; [by rewrite app_nil_r|done].
Qed.

(** * What the life cycle implies *)

Lemma lives_snoc_inv p evs ev p2 : lives p (evs ++ [ev]) p2 → ∃ p1, lives p evs p1 ∧ phase_step p1 ev p2.
Proof.
  intros H. remember (evs ++ [ev]) as l eqn:El. destruct H as [p|p l p1 ev' p2 Hl Hs]; [by destruct evs|].
  apply app_inj_tail in El as [-> ->]. by exists p1.
Qed.

Lemma lives_app p evs evs' p' : lives p (evs ++ evs') p' ↔ ∃ p1, lives p evs p1 ∧ lives p1 evs' p'.
Proof.
  split.
  - revert p'. induction evs' as [|ev evs' IH] using rev_ind; intros p' H.
    + exists p'. rewrite app_nil_r in H. split; [done|constructor].
    + rewrite app_assoc in H. apply lives_snoc_inv in H as (p1 & Hl & Hs). destruct (IH p1 Hl) as (p0 & H0 & H1). exists p0. split; [done|by eapply lives_snoc].
  - intros (p1 & H1 & H2). revert H1. induction H2 as [|p1 evs' p2 ev p3 _ IH Hs]; intros H1; [by rewrite app_nil_r|].
    rewrite app_assoc. eapply lives_snoc; [by apply IH|done].
Qed.

Definition is_issue (ev : code_event) : bool := match ev with Issues _ => true | _ => false end.
Definition is_reject (ev : code_event) : bool := match ev with Rejects _ => true | _ => false end.
Definition is_accept (ev : code_event) : bool := match ev with Accepts _ _ => true | _ => false end.
Definition is_sign_up (ev : code_event) : bool := match ev with SignsUp _ => true | _ => false end.
Definition times (f : code_event → bool) (evs : list code_event) : Z := Z.of_nat (length (List.filter f evs)).

Lemma times_snoc f evs ev : times f (evs ++ [ev]) = times f evs + b2z (f ev).
Proof. unfold times. rewrite List.filter_app, length_app. cbn. destruct (f ev); cbn; lia. Qed.

(** What is left to happen to a code, once it has been issued. *)
Definition guesses_left c : Z := Z.max 1 (MaxAttempts c - Attempts c).

Lemma lives_counts c evs p :
  lives (Live c 0) evs p → 0 < MaxAttempts c → Forall (λ ev, is_issue ev = false) evs →
  0 ≤ times is_reject evs ∧
  match p with
  | Live c' n => c' = c ∧ n = times is_reject evs ∧ n < guesses_left c ∧ times is_accept evs = 0 ∧ times is_sign_up evs = 0
  | Kept c' => c' = c ∧ IssuedUserID c = 0 ∧ times is_reject evs < guesses_left c ∧ times is_accept evs = 1 ∧ times is_sign_up evs = 0
  | NoCode => times is_accept evs ≤ 1 ∧ times is_sign_up evs ≤ times is_accept evs
              ∧ times is_reject evs + times is_accept evs ≤ guesses_left c
              ∧ (times is_sign_up evs = 1 → IssuedUserID c = 0)
  end.
Proof.
  intros Hl Hm. remember (Live c 0) as p0 eqn:Ep0. induction Hl as [p0|p0 evs p1 ev p2 Hl IH Hs]; intros Hi.
  - subst. cbn. unfold guesses_left, times. cbn. split; [lia|]. split_and!; try done; lia.
  - apply Forall_app in Hi as [Hi Hev]. apply Forall_cons in Hev as [Hev _]. destruct (IH Ep0 Hi) as [Hpos IH']. rewrite !times_snoc.
    clear IH Hl. revert IH' Hev.
    destruct Hs as [p1 c'|c' n r Hr He|c' n r Hr He|c' n r Hr|c' n r Hr Hz|c' r Hr Hz]; cbn [b2z is_reject is_accept is_sign_up];
      intros IH' Hev; [cbn in Hev; discriminate Hev|..].
    + destruct IH' as (-> & -> & Hn & Ha & Hu). unfold exhausted, guesses_left in *. bool_facts. split; [lia|].
      split_and!; try done; try lia.
    + destruct IH' as (-> & -> & Hn & Ha & Hu). lia.
    + destruct IH' as (-> & -> & Hn & Ha & Hu). lia.
    + destruct IH' as (-> & -> & Hn & Ha & Hu). split; [lia|]. split_and!; try done; lia.
    + destruct IH' as (-> & Hz' & Hn & Ha & Hu). lia.
Qed.
