(* ===== verification/AuthKeys.v ===== *)
(** Auth keys, temporary keys and authorizations ([internal/store/authkey.go],
    [authkey_session_layer.go], [internal/store/memory/auth.go] and
    [authkey_session_layer.go]).

    An auth key id, eight bytes in the source, is the [int64] it is converted to.
    The authorizations are linked to the keys as [NewService] links them
    ([LinkAuthKeyAuthority]); both are one state, because every operation that
    touches both holds both locks.  Loops over a Go map take the order in which
    the map is visited as an argument.  The five columns that describe a client
    are one record; the clock counts nanoseconds. *)

From S2P Require Import Prelude.

Open Scope Z_scope.

#[local] Set Default Proof Using "Type".

Inductive auth_key_error :=
  | ErrInvalidAuthKeyProtocolExpiry
  | ErrAuthKeyProtocolMetadataConflict
  | ErrAuthKeyNotFound
  | ErrAuthKeyNotPermanent
  | ErrAuthKeyBindingInvalid
  | ErrTempAuthKeyAlreadyBound
  | ErrAuthKeySessionLayerInvalid
  | ErrAuthKeySessionLayerConflict
  | ErrAuthorizationStateChanged.

#[export] Instance auth_key_error_eq_dec : EqDecision auth_key_error.
Proof. solve_decision. Defined.

(** * Records *)

Record client_info := {
  DeviceModel : string;
  Platform : string;
  SystemVersion : string;
  APIID : Z;
  AppVersion : string;
}.

Definition no_client : client_info :=
  {| DeviceModel := ""; Platform := ""; SystemVersion := ""; APIID := 0; AppVersion := "" |}.

Record AuthKeyData := {
  ak_ID : Z;
  Value : list Z;
  ServerSalt : Z;
  ak_CreatedAt : Z;
  ak_ExpiresAt : Z;
  Layer : Z;
  LayerObservationID : Z;
  ak_Client : client_info;
}.

Record TempAuthKeyBinding := {
  TempAuthKeyID : Z;
  PermAuthKeyID : Z;
  Nonce : Z;
  TempSessionID : Z;
  tb_ExpiresAt : Z;
  EncryptedMessage : list Z;
}.

Record TempAuthKeyBindingResult := { tr_Layer : Z; tr_LayerObservationID : Z }.

Record AuthKeySessionLayer := {
  sl_Layer : Z;
  MessageID : Z;
  ObservationID : Z;
  sl_ExpiresAt : Z;
  SharedDefault : bool;
}.

Record Authorization := {
  AuthKeyID : Z;
  UserID : Z;
  Hash : Z;
  az_Layer : Z;
  az_Client : client_info;
  IP : string;
  PasswordPending : bool;
  az_CreatedAt : Z;
  ActiveAt : Z;
}.

Record authKeyState := {
  keys : gmap Z AuthKeyData;
  bindings : gmap Z TempAuthKeyBinding;
  sessionLayers : gmap (Z * Z) AuthKeySessionLayer;
  nextLayerObservation : Z;
  authorizations : gmap Z Authorization;
}.

Implicit Types (s : authKeyState) (id now : Z) (k : AuthKeyData) (b : TempAuthKeyBinding) (a : Authorization).

Definition NewAuthKeyStore : authKeyState :=
  {| keys := ∅; bindings := ∅; sessionLayers := ∅; nextLayerObservation := 0; authorizations := ∅ |}.

Definition set_keys ks s : authKeyState := {|
  keys := ks; bindings := bindings s; sessionLayers := sessionLayers s;
  nextLayerObservation := nextLayerObservation s; authorizations := authorizations s |}.
Definition set_bindings bs s : authKeyState := {|
  keys := keys s; bindings := bs; sessionLayers := sessionLayers s;
  nextLayerObservation := nextLayerObservation s; authorizations := authorizations s |}.
Definition set_sessionLayers sl s : authKeyState := {|
  keys := keys s; bindings := bindings s; sessionLayers := sl;
  nextLayerObservation := nextLayerObservation s; authorizations := authorizations s |}.
Definition set_nextLayerObservation n s : authKeyState := {|
  keys := keys s; bindings := bindings s; sessionLayers := sessionLayers s;
  nextLayerObservation := n; authorizations := authorizations s |}.
Definition set_authorizations az s : authKeyState := {|
  keys := keys s; bindings := bindings s; sessionLayers := sessionLayers s;
  nextLayerObservation := nextLayerObservation s; authorizations := az |}.

Definition put_key id k s : authKeyState := set_keys (<[id := k]> (keys s)) s.

Definition with_layer (layer observation : Z) k : AuthKeyData := {|
  ak_ID := ak_ID k; Value := Value k; ServerSalt := ServerSalt k; ak_CreatedAt := ak_CreatedAt k;
  ak_ExpiresAt := ak_ExpiresAt k; Layer := layer; LayerObservationID := observation; ak_Client := ak_Client k |}.

Definition with_az_Layer (layer : Z) a : Authorization := {|
  AuthKeyID := AuthKeyID a; UserID := UserID a; Hash := Hash a; az_Layer := layer; az_Client := az_Client a;
  IP := IP a; PasswordPending := PasswordPending a; az_CreatedAt := az_CreatedAt a; ActiveAt := ActiveAt a |}.

(** * Keys *)

Definition ValidNewAuthKeyProtocolExpiry (expiresAt : Z) : bool := (0 <=? expiresAt) && (expiresAt <=? 2147483647).

Definition mirrorAuthorizationLayersLocked (ids : list Z) (layer : Z) s : authKeyState :=
  set_authorizations (fold_left (λ az id, alter (with_az_Layer layer) id az) ids (authorizations s)) s.

Definition deleteAuthorizationMirrorsLocked (ids : list Z) s : authKeyState :=
  set_authorizations (fold_left (λ az id, delete id az) ids (authorizations s)) s.

(** What a repeated handshake may not change of the stored key. *)
Definition keep_metadata k (current : AuthKeyData) : AuthKeyData := {|
  ak_ID := ak_ID k; Value := Value k; ServerSalt := ServerSalt k;
  ak_CreatedAt := if ak_CreatedAt k =? 0 then ak_CreatedAt current else ak_CreatedAt k;
  ak_ExpiresAt := ak_ExpiresAt k; Layer := Layer current; LayerObservationID := LayerObservationID current;
  ak_Client := ak_Client current |}.

Definition Save k s : res auth_key_error () * authKeyState :=
  if negb (ValidNewAuthKeyProtocolExpiry (ak_ExpiresAt k)) then (ERR ErrInvalidAuthKeyProtocolExpiry, s)
  else
    let store k :=
      let s := mirrorAuthorizationLayersLocked [ak_ID k] (Layer k) (put_key (ak_ID k) k s) in
      (OK tt, set_nextLayerObservation (Z.max (nextLayerObservation s) (LayerObservationID k)) s) in
    match keys s !! ak_ID k with
    | Some current =>
        if negb (bool_decide (Value current = Value k)) || negb (ak_ExpiresAt current =? ak_ExpiresAt k)
        then (ERR ErrAuthKeyProtocolMetadataConflict, s)
        else store (keep_metadata k current)
    | None => store k
    end.

(** [Get] and [Revalidate] read; so does [LoadBindingKeys], both keys at once. *)
Definition Get id s : option AuthKeyData := keys s !! id.

Definition LoadBindingKeys (tempID permID : Z) s : option AuthKeyData * option AuthKeyData :=
  (keys s !! tempID, keys s !! permID).

Definition merge_string (new old : string) : string := if bool_decide (new = "") then old else new.

Definition merge_client (info old : client_info) : client_info := {|
  DeviceModel := merge_string (DeviceModel info) (DeviceModel old);
  Platform := merge_string (Platform info) (Platform old);
  SystemVersion := merge_string (SystemVersion info) (SystemVersion old);
  APIID := if APIID info =? 0 then APIID old else APIID info;
  AppVersion := merge_string (AppVersion info) (AppVersion old) |}.

Definition mergeAuthKeyClientInfo k (layer : Z) (info : client_info) : AuthKeyData := {|
  ak_ID := ak_ID k; Value := Value k; ServerSalt := ServerSalt k; ak_CreatedAt := ak_CreatedAt k;
  ak_ExpiresAt := ak_ExpiresAt k; Layer := if 0 <? layer then layer else Layer k;
  LayerObservationID := LayerObservationID k; ak_Client := merge_client info (ak_Client k) |}.

Definition UpdateClientInfo id (layer : Z) (info : client_info) s : res auth_key_error () * authKeyState :=
  match keys s !! id with
  | None => (ERR ErrAuthKeyNotFound, s)
  | Some k =>
      if (0 <? layer) && (0 <? LayerObservationID k) && negb (layer =? Layer k) then (ERR ErrAuthKeySessionLayerConflict, s)
      else let k := mergeAuthKeyClientInfo k layer info in
           (OK tt, mirrorAuthorizationLayersLocked [id] (Layer k) (put_key id k s))
  end.

Definition deleteSessionLayersLocked (rawAuthKeyID : Z) s : authKeyState :=
  set_sessionLayers (filter (λ kv, kv.1.1 ≠ rawAuthKeyID) (sessionLayers s)) s.

(** A key with its binding and its session layers, without its dependants. *)
Definition drop_key id s : authKeyState :=
  deleteSessionLayersLocked id (set_keys (delete id (keys s)) (set_bindings (delete id (bindings s)) s)).

Definition deleteProtocolAuthKeyLocked id s : list Z * authKeyState :=
  match keys s !! id with
  | None => ([], s)
  | Some deleting =>
      if 0 <? ak_ExpiresAt deleting then ([id], drop_key id s)
      else
        let temps := (map_to_list (bindings s)).*1 in
        let bound := List.filter (λ t, match bindings s !! t with Some b => PermAuthKeyID b =? id | None => false end) temps in
        let s := fold_left (λ s t, drop_key t s) bound s in
        (bound ++ [id], deleteSessionLayersLocked id (set_keys (delete id (keys s)) s))
  end.

Definition Delete id s : authKeyState :=
  let '(deleted, s) := deleteProtocolAuthKeyLocked id s in deleteAuthorizationMirrorsLocked deleted s.

(** * Temporary keys *)

Definition MergeAuthKeyLayerObservations (tempLayer tempObservationID permLayer permObservationID : Z)
    : res auth_key_error (Z * Z) :=
  if (tempLayer <? 0) || (permLayer <? 0) || (tempObservationID <? 0) || (permObservationID <? 0)
     || ((0 <? tempObservationID) && (tempLayer =? 0)) || ((0 <? permObservationID) && (permLayer =? 0))
  then ERR ErrAuthKeySessionLayerInvalid
  else if permObservationID <? tempObservationID then OK (tempLayer, tempObservationID)
  else if tempObservationID <? permObservationID then OK (permLayer, permObservationID)
  else if (0 <? tempObservationID) && negb (tempLayer =? permLayer) then ERR ErrAuthKeySessionLayerConflict
  else if 0 <? tempObservationID then OK (tempLayer, tempObservationID)
  else OK (permLayer, 0).

Definition SaveWithState b s : res auth_key_error TempAuthKeyBindingResult * authKeyState :=
  let temp := TempAuthKeyID b in
  let perm := PermAuthKeyID b in
  if match bindings s !! temp with Some current => negb (PermAuthKeyID current =? perm) | None => false end
  then (ERR ErrTempAuthKeyAlreadyBound, s)
  else match keys s !! temp, keys s !! perm with
  | Some t, Some p =>
      if (ak_ExpiresAt t <=? 0) || negb (ak_ExpiresAt p =? 0) || negb (tb_ExpiresAt b =? ak_ExpiresAt t)
      then (ERR ErrAuthKeyBindingInvalid, s)
      else match MergeAuthKeyLayerObservations (Layer t) (LayerObservationID t) (Layer p) (LayerObservationID p) with
      | ERR e => (ERR e, s)
      | OK (layer, observation) =>
          let s := put_key perm (with_layer layer observation p) (put_key temp (with_layer layer observation t) s) in
          let s := set_bindings (<[temp := b]> (bindings s)) s in
          (OK {| tr_Layer := layer; tr_LayerObservationID := observation |},
           mirrorAuthorizationLayersLocked [temp; perm] layer s)
      end
  | _, _ => (ERR ErrAuthKeyBindingInvalid, s)
  end.

Definition GetByTemp (temp : Z) s : option TempAuthKeyBinding := bindings s !! temp.

(** The loop over the keys, in the order in which the map is visited. *)
Fixpoint delete_expired (expiredBefore limit : Z) (order : list Z) (deleted : Z) s : Z * authKeyState :=
  match order with
  | [] => (deleted, s)
  | id :: order =>
      if limit <=? deleted then (deleted, s)
      else match keys s !! id with
      | Some k =>
          if (ak_ExpiresAt k <=? 0) || (expiredBefore <=? ak_ExpiresAt k)
          then delete_expired expiredBefore limit order deleted s
          else delete_expired expiredBefore limit order (deleted + 1)
                 (deleteAuthorizationMirrorsLocked [id] (drop_key id s))
      | None => delete_expired expiredBefore limit order deleted s
      end
  end.

Definition DeleteExpired (expiredBefore limit : Z) (order : list Z) s : Z * authKeyState :=
  if limit <=? 0 then (0, s) else delete_expired expiredBefore limit order 0 s.

(** * Layers of sessions *)

Definition second : Z := 1000000000.

Definition AuthKeySessionLayerExpiry (msgID : Z) : option Z :=
  let low := Z.land msgID 4294967295 in
  if (msgID <=? 0) || negb (msgID mod 4 =? 0) || (low =? 0) then None
  else
    let nanos := if low <? 2147483648 then low else low - 4294967296 in
    Some (Z.shiftr msgID 32 * second + nanos + 301 * second).

Definition AuthKeySessionLayerEvidenceFresh now (msgID : Z) : option Z :=
  match AuthKeySessionLayerExpiry msgID with
  | None => None
  | Some expiresAt =>
      if negb (now <? expiresAt) then None
      else if now + 30 * second <? expiresAt - 301 * second then None
      else Some expiresAt
  end.

Definition with_SharedDefault (shared : bool) (v : AuthKeySessionLayer) : AuthKeySessionLayer := {|
  sl_Layer := sl_Layer v; MessageID := MessageID v; ObservationID := ObservationID v;
  sl_ExpiresAt := sl_ExpiresAt v; SharedDefault := shared |}.

Definition sessionLayerIsSharedDefaultLocked (rawAuthKeyID : Z) (v : AuthKeySessionLayer) s : bool :=
  let defaultKeyID := match bindings s !! rawAuthKeyID with Some b => PermAuthKeyID b | None => rawAuthKeyID end in
  match keys s !! defaultKeyID with
  | Some k => (Layer k =? sl_Layer v) && (LayerObservationID k =? ObservationID v)
  | None => false
  end.

Definition shared_view (raw : Z) (v : AuthKeySessionLayer) s : AuthKeySessionLayer :=
  with_SharedDefault (sessionLayerIsSharedDefaultLocked raw v s) v.

Definition put_session (key : Z * Z) (v : AuthKeySessionLayer) s : authKeyState :=
  set_sessionLayers (<[key := with_SharedDefault false v]> (sessionLayers s)) s.

Definition GetSessionLayer now (raw session : Z) s : option AuthKeySessionLayer * authKeyState :=
  match sessionLayers s !! (raw, session) with
  | None => (None, s)
  | Some v =>
      if negb (now <? sl_ExpiresAt v) then (None, set_sessionLayers (delete (raw, session) (sessionLayers s)) s)
      else (Some (shared_view raw v s), s)
  end.

(** A new observation: the session's row, the key and, of a bound temporary key,
    the permanent one. *)
Definition observe_layer (raw session layer msgID expiresAt : Z) (perm : option (Z * AuthKeyData)) k s
    : AuthKeySessionLayer * authKeyState :=
  let observation := nextLayerObservation s + 1 in
  let current := {| sl_Layer := layer; MessageID := msgID; ObservationID := observation;
                    sl_ExpiresAt := expiresAt; SharedDefault := true |} in
  let s := put_session (raw, session) current (set_nextLayerObservation observation s) in
  let s := put_key raw (with_layer layer observation k) s in
  (current,
   match perm with
   | Some (permID, p) =>
       mirrorAuthorizationLayersLocked [raw; permID] layer (put_key permID (with_layer layer observation p) s)
   | None => mirrorAuthorizationLayersLocked [raw] layer s
   end).

(** ** Advancing a session's layer *)

(** The row of the session while it is alive. *)
Definition live_layer now (raw session : Z) s : option AuthKeySessionLayer :=
  v ← sessionLayers s !! (raw, session); if now <? sl_ExpiresAt v then Some v else None.

(** The permanent key that a bound temporary key stands for. *)
Definition bound_perm (raw : Z) s : res auth_key_error (option (Z * AuthKeyData)) :=
  match bindings s !! raw with
  | None => OK None
  | Some b => match keys s !! PermAuthKeyID b with
              | Some p => OK (Some (PermAuthKeyID b, p))
              | None => ERR ErrAuthKeyBindingInvalid
              end
  end.

(** Evidence that is not newer than what the session has. *)
Definition old_evidence (raw layer msgID : Z) (live : option AuthKeySessionLayer) s
    : option (res auth_key_error (AuthKeySessionLayer * bool)) :=
  match live with
  | None => None
  | Some current =>
      if msgID <? MessageID current then Some (OK (shared_view raw current s, false))
      else if msgID =? MessageID current then
        Some (if layer =? sl_Layer current then OK (shared_view raw current s, false) else ERR ErrAuthKeySessionLayerConflict)
      else None
  end.

Definition AdvanceSessionLayer now (raw session layer msgID : Z) s
    : res auth_key_error (AuthKeySessionLayer * bool) * authKeyState :=
  match AuthKeySessionLayerEvidenceFresh now msgID with
  | None => (ERR ErrAuthKeySessionLayerInvalid, s)
  | Some expiresAt =>
      if layer <=? 0 then (ERR ErrAuthKeySessionLayerInvalid, s)
      else match keys s !! raw with
      | None => (ERR ErrAuthKeyNotFound, s)
      | Some k =>
          let live := live_layer now raw session s in
          match old_evidence raw layer msgID live s with
          | Some answer => (answer, s)
          | None =>
              match bound_perm raw s with
              | ERR e => (ERR e, s)
              | OK perm =>
                  match live with
                  | Some current =>
                      if layer =? sl_Layer current then
                        let current := {| sl_Layer := layer; MessageID := msgID; ObservationID := ObservationID current;
                                          sl_ExpiresAt := expiresAt; SharedDefault := false |} in
                        (OK (shared_view raw current s, true), put_session (raw, session) current s)
                      else if nextLayerObservation s =? max_int64 then (ERR ErrAuthKeySessionLayerInvalid, s)
                      else let '(current, s) := observe_layer raw session layer msgID expiresAt perm k s in (OK (current, true), s)
                  | None =>
                      if nextLayerObservation s =? max_int64 then (ERR ErrAuthKeySessionLayerInvalid, s)
                      else let '(current, s) := observe_layer raw session layer msgID expiresAt perm k s in (OK (current, true), s)
                  end
              end
          end
      end
  end.

Definition DeleteSessionLayer (raw session : Z) s : bool * authKeyState :=
  (bool_decide (is_Some (sessionLayers s !! (raw, session))),
   set_sessionLayers (delete (raw, session) (sessionLayers s)) s).

Fixpoint delete_expired_layers now (limit : Z) (order : list (Z * Z)) (deleted : Z) s : Z * authKeyState :=
  match order with
  | [] => (deleted, s)
  | key :: order =>
      if limit <=? deleted then (deleted, s)
      else match sessionLayers s !! key with
      | Some v =>
          if now <? sl_ExpiresAt v then delete_expired_layers now limit order deleted s
          else delete_expired_layers now limit order (deleted + 1) (set_sessionLayers (delete key (sessionLayers s)) s)
      | None => delete_expired_layers now limit order deleted s
      end
  end.

Definition DeleteExpiredSessionLayers now (limit : Z) (order : list (Z * Z)) s : Z * authKeyState :=
  if limit <=? 0 then (0, s) else delete_expired_layers now limit order 0 s.

(** * Authorizations *)

(** The row that a login writes: with the key's layer, from this moment. *)
Definition bound_row now (layer : Z) a : Authorization := {|
  AuthKeyID := AuthKeyID a; UserID := UserID a; Hash := if Hash a =? 0 then AuthKeyID a else Hash a;
  az_Layer := layer; az_Client := az_Client a; IP := IP a; PasswordPending := PasswordPending a;
  az_CreatedAt := now; ActiveAt := now |}.

Definition Bind now a s : res auth_key_error () * authKeyState :=
  match keys s !! AuthKeyID a with
  | None => (ERR ErrAuthKeyNotFound, s)
  | Some k =>
      if negb (ak_ExpiresAt k =? 0) then (ERR ErrAuthKeyNotPermanent, s)
      else (OK tt, set_authorizations (<[AuthKeyID a := bound_row now (Layer k) a]> (authorizations s)) s)
  end.

Definition ByAuthKey id s : option Authorization := authorizations s !! id.

Definition mergeAuthorizationClientInfo now (info : client_info) (ip : string) (layer : Z) a : Authorization := {|
  AuthKeyID := AuthKeyID a; UserID := UserID a; Hash := Hash a; az_Layer := layer;
  az_Client := merge_client info (az_Client a); IP := merge_string ip (IP a); PasswordPending := PasswordPending a;
  az_CreatedAt := az_CreatedAt a; ActiveAt := now |}.

Definition UpdateAuthorizationClientInfo now id (info : client_info) (ip : string) s : res auth_key_error () * authKeyState :=
  match keys s !! id with
  | None => (ERR ErrAuthKeyNotFound, s)
  | Some k => (OK tt, set_authorizations (alter (mergeAuthorizationClientInfo now info ip (Layer k)) id (authorizations s)) s)
  end.

Definition password_passed now a : Authorization := {|
  AuthKeyID := AuthKeyID a; UserID := UserID a; Hash := Hash a; az_Layer := az_Layer a; az_Client := az_Client a;
  IP := IP a; PasswordPending := false; az_CreatedAt := now; ActiveAt := now |}.

Definition MarkPasswordPassed now id (expectedUserID : Z) s : res auth_key_error () * authKeyState :=
  match authorizations s !! id with
  | None => (ERR ErrAuthorizationStateChanged, s)
  | Some a =>
      if (expectedUserID =? 0) || negb (UserID a =? expectedUserID) || negb (PasswordPending a)
      then (ERR ErrAuthorizationStateChanged, s)
      else (OK tt, set_authorizations (<[id := password_passed now a]> (authorizations s)) s)
  end.

Definition of_user (userID : Z) (kv : Z * Authorization) : bool := UserID kv.2 =? userID.

Definition ListByUser (userID : Z) s : list Authorization := (List.filter (of_user userID) (map_to_list (authorizations s))).*2.

Definition DeleteAuthorization id s : authKeyState := set_authorizations (delete id (authorizations s)) s.

(** [RevokeByHash]: the first row that the visit of the map finds. *)
Definition RevokeByHash (userID hash : Z) (order : list Z) s : option Authorization * authKeyState :=
  let match_row id := match authorizations s !! id with
                      | Some a => (UserID a =? userID) && (Hash a =? hash)
                      | None => false
                      end in
  match List.find match_row order with
  | Some id => (authorizations s !! id, DeleteAuthorization id s)
  | None => (None, s)
  end.

Definition RevokeByUserExcept (userID keepAuthKeyID : Z) s : list Authorization * authKeyState :=
  let revoked kv := of_user userID kv && negb (kv.1 =? keepAuthKeyID) in
  ((List.filter revoked (map_to_list (authorizations s))).*2,
   set_authorizations (filter (λ kv, revoked kv = false) (authorizations s)) s).
