(* ===== verification/AuthKeysInv.v ===== *)
(** What holds of keys, bindings, layers and authorizations between any two
    operations: an authorization belongs to a live permanent key and shows its
    layer, a bound temporary key and its permanent key both exist, and an
    observation of a layer means one layer wherever it is recorded. *)

From S2P Require Import Prelude AuthKeys.

Open Scope Z_scope.

#[local] Set Default Proof Using "Type".

Implicit Types (s : authKeyState) (id now : Z) (k : AuthKeyData) (b : TempAuthKeyBinding) (a : Authorization).

(** A key as it may stand in the store when [n] observations have been made and
    [layer_of] says what each of them was. *)
Record key_ok (layer_of : Z → Z) (n id : Z) k : Prop := {
  kk_id : ak_ID k = id;
  kk_expiry : 0 ≤ ak_ExpiresAt k;
  kk_layer : 0 ≤ Layer k;
  kk_observation : 0 ≤ LayerObservationID k ≤ n;
  kk_observed : 0 < LayerObservationID k → 0 < Layer k ∧ Layer k = layer_of (LayerObservationID k);
}.

Definition permanent (ks : gmap Z AuthKeyData) id (layer : option Z) : Prop :=
  ∃ k, ks !! id = Some k ∧ ak_ExpiresAt k = 0 ∧ ∀ l, layer = Some l → l = Layer k.

Record binding_ok (ks : gmap Z AuthKeyData) (t : Z) b : Prop := {
  bk_id : TempAuthKeyID b = t;
  bk_temp : ∃ k, ks !! t = Some k ∧ 0 < ak_ExpiresAt k ∧ tb_ExpiresAt b = ak_ExpiresAt k;
  bk_perm : permanent ks (PermAuthKeyID b) None;
}.

Record session_ok (layer_of : Z → Z) (n : Z) (v : AuthKeySessionLayer) : Prop := {
  so_layer : 0 < sl_Layer v;
  so_observation : 1 ≤ ObservationID v ≤ n;
  so_observed : sl_Layer v = layer_of (ObservationID v);
}.

Record keys_ok (layer_of : Z → Z) s : Prop := {
  ko_next : 0 ≤ nextLayerObservation s;
  ko_keys : map_Forall (key_ok layer_of (nextLayerObservation s)) (keys s);
  ko_bindings : map_Forall (binding_ok (keys s)) (bindings s);
  ko_sessions : map_Forall (λ _, session_ok layer_of (nextLayerObservation s)) (sessionLayers s);
  ko_authorizations : map_Forall (λ id a, AuthKeyID a = id ∧ permanent (keys s) id (Some (az_Layer a))) (authorizations s);
}.

Lemma new_keys_ok layer_of : keys_ok layer_of NewAuthKeyStore.
Proof. split; cbn; [lia|..]; apply map_Forall_empty. Qed.

(** ** Elementary changes *)

Lemma mirror_lookup ids layer s id :
  authorizations (mirrorAuthorizationLayersLocked ids layer s) !! id
  = (if decide (id ∈ ids) then with_az_Layer layer else (λ a, a)) <$> authorizations s !! id.
Proof.
  unfold mirrorAuthorizationLayersLocked. cbn. generalize (authorizations s). clear s.
  induction ids as [|i ids IH]; intros m; cbn [fold_left].
  - rewrite decide_False by (by intros ?%elem_of_nil). by destruct (m !! id).
  - rewrite IH. destruct (decide (id = i)) as [->|Hne].
    + rewrite lookup_alter_eq, (decide_True (P := i ∈ i :: ids)) by left. case_decide; by destruct (m !! i) as [[]|].
    + rewrite lookup_alter_ne by done. destruct (decide (id ∈ ids)), (decide (id ∈ i :: ids)); try done; set_solver.
Qed.

(** A key's row is rewritten, without its kind, and its authorization follows. *)
Lemma rekey_ok layer_of s id k k' :
  keys_ok layer_of s → keys s !! id = Some k → ak_ExpiresAt k' = ak_ExpiresAt k →
  key_ok layer_of (nextLayerObservation s) id k' →
  keys_ok layer_of (mirrorAuthorizationLayersLocked [id] (Layer k') (put_key id k' s)).
Proof.
  intros [Hn Hk Hb Hs Ha] Hid He Hk'.
  assert (∀ i, permanent (keys s) i None → permanent (<[id := k']> (keys s)) i None) as Hperm.
  { intros i (k0 & Hk0 & He0 & _). destruct (decide (i = id)) as [->|Hne].
    - exists k'. cbn. rewrite lookup_insert_eq. simplify_eq. split_and!; [done|congruence|done].
    - exists k0. cbn. by rewrite lookup_insert_ne. }
  split; cbn [nextLayerObservation sessionLayers mirrorAuthorizationLayersLocked put_key set_keys set_authorizations keys bindings]; try done.
  - by apply map_Forall_insert_2.
  - intros t b Ht. destruct (Hb t b Ht) as [H1 (kt & Hkt & H2 & H3) H4]. split; [done| |by apply Hperm].
    destruct (decide (t = id)) as [->|Hne].
    + exists k'. cbn. rewrite lookup_insert_eq. simplify_eq. rewrite He. by split_and!.
    + exists kt. cbn. by rewrite lookup_insert_ne.
  - intros i a Hi. rewrite mirror_lookup in Hi. cbn in Hi. destruct (authorizations s !! i) as [a0|] eqn:Ha0; [|done].
    destruct (Ha i a0 Ha0) as [H1 (k0 & Hk0 & He0 & Hl)]. injection Hi as <-.
    destruct (decide (i = id)) as [->|Hne].
    + rewrite decide_True by left. split; [done|]. exists k'. cbn. rewrite lookup_insert_eq. simplify_eq.
      split_and!; [done|congruence|by intros l [= <-]].
    + rewrite decide_False by set_solver. split; [done|]. exists k0. cbn. by rewrite lookup_insert_ne.
Qed.

(** Changes that keep the keys. *)
Lemma keys_ok_bindings layer_of s t b :
  keys_ok layer_of s → binding_ok (keys s) t b → keys_ok layer_of (set_bindings (<[t := b]> (bindings s)) s).
Proof.
  intros [Hn Hk Hb Hs Ha] Hnew. split; cbn; try done. by apply map_Forall_insert_2.
Qed.

Lemma keys_ok_sessions layer_of s sl :
  keys_ok layer_of s → map_Forall (λ _, session_ok layer_of (nextLayerObservation s)) sl → keys_ok layer_of (set_sessionLayers sl s).
Proof. intros [Hn Hk Hb Hs Ha] Hnew. by split. Qed.

Lemma keys_ok_authorizations layer_of s az :
  keys_ok layer_of s → map_Forall (λ id a, AuthKeyID a = id ∧ permanent (keys s) id (Some (az_Layer a))) az →
  keys_ok layer_of (set_authorizations az s).
Proof. intros [Hn Hk Hb Hs Ha] Hnew. by split. Qed.

(** A key goes that no binding needs: with its own binding, its sessions and its
    authorization. *)
Lemma drop_key_ok layer_of s id :
  keys_ok layer_of s → (∀ t b, bindings s !! t = Some b → PermAuthKeyID b = id → t = id) →
  keys_ok layer_of (deleteAuthorizationMirrorsLocked [id] (drop_key id s)).
Proof.
  intros [Hn Hk Hb Hs Ha] Hfree.
  split; cbn [nextLayerObservation deleteAuthorizationMirrorsLocked drop_key deleteSessionLayersLocked set_sessionLayers
              set_keys set_bindings set_authorizations keys bindings sessionLayers authorizations fold_left]; try done.
  - by apply map_Forall_delete.
  - intros t b [Hne Ht]%lookup_delete_Some. destruct (Hb t b Ht) as [H1 (kt & Hkt & H2) (kp & Hkp & H4)].
    split; [done| |].
    + exists kt. cbn. by rewrite lookup_delete_ne.
    + exists kp. cbn. rewrite lookup_delete_ne; [done|]. intros ->. apply Hne. symmetry. by eapply Hfree.
  - intros key v [Hv _]%map_lookup_filter_Some. by eapply Hs.
  - intros i a [Hne Hi]%lookup_delete_Some. destruct (Ha i a Hi) as [H1 (k & Hk0 & H2)]. split; [done|]. exists k. cbn. by rewrite lookup_delete_ne.
Qed.

(** ** The operations *)

Lemma key_ok_mono layer_of n n' id k : key_ok layer_of n id k → n ≤ n' → key_ok layer_of n' id k.
Proof. intros [H1 H2 H3 H4 H5] Hn. split; try done. lia. Qed.

(** Nothing but its key's row needs the key's client columns or its layer while
    no layer has been observed. *)
Lemma UpdateClientInfo_ok layer_of s id layer info : keys_ok layer_of s → keys_ok layer_of (UpdateClientInfo id layer info s).2.
Proof.
  intros Hok. unfold UpdateClientInfo. destruct (keys s !! id) as [k|] eqn:Hid; [|done].
  destruct (_ && _ && _) eqn:Hc; [done|]. apply (rekey_ok _ _ _ k); try done.
  destruct (ko_keys _ _ Hok id k Hid) as [H1 H2 H3 H4 H5]. split; cbn; try done; [destruct (Z.ltb_spec 0 layer); lia|].
  intros Ho. destruct (H5 Ho) as [H6 H7]. destruct (Z.ltb_spec 0 layer) as [Hl|Hl]; [|done]. rewrite (proj2 (Z.ltb_lt _ _) Ho) in Hc.
  cbn in Hc. bool_facts. by rewrite Hc.
Qed.

(** A handshake: a new key comes without layer and client. *)
Definition handshake k : Prop := Layer k = 0 ∧ LayerObservationID k = 0.

Lemma Save_ok layer_of s k : handshake k → keys_ok layer_of s → keys_ok layer_of (Save k s).2.
Proof.
  intros [Hl Ho] Hok. unfold Save. destruct (negb (ValidNewAuthKeyProtocolExpiry _)) eqn:Hv; [done|].
  unfold ValidNewAuthKeyProtocolExpiry in Hv. bool_facts.
  destruct (keys s !! ak_ID k) as [cur|] eqn:Hid.
  - destruct (_ || _) eqn:Hc; [done|]. bool_facts. cbn [snd].
    destruct (ko_keys _ _ Hok _ _ Hid) as [C1 C2 C3 C4 C5].
    pose proof (rekey_ok layer_of s (ak_ID k) cur (keep_metadata k cur) Hok Hid ltac:(done)) as Hre.
    rewrite Z.max_l by (cbn; lia). destruct (Hre ltac:(split; cbn; (done || lia))) as [R1 R2 R3 R4 R5]. by split.
  - cbn [snd]. rewrite Ho, Hl, Z.max_l by apply Hok.
    destruct Hok as [Hn Hk Hb Hs Ha].
    assert (∀ i l, permanent (keys s) i l → permanent (<[ak_ID k := k]> (keys s)) i l) as Hperm.
    { intros i l (k0 & Hk0 & Hr). exists k0. split; [|done]. rewrite lookup_insert_ne; [done|congruence]. }
    split; cbn [nextLayerObservation sessionLayers mirrorAuthorizationLayersLocked put_key set_keys set_authorizations keys bindings set_nextLayerObservation]; try done.
    + apply map_Forall_insert_2; [|done]. split; try done; lia.
    + intros t b Ht. destruct (Hb t b Ht) as [B1 (kt & Hkt & B2) B4]. split; [done| |by apply Hperm].
      exists kt. split; [|done]. rewrite lookup_insert_ne; [done|congruence].
    + intros i a Hi. unfold set_nextLayerObservation in Hi. cbn [authorizations] in Hi. change (authorizations (mirrorAuthorizationLayersLocked [ak_ID k] 0 (put_key (ak_ID k) k s)) !! i = Some a) in Hi.
      rewrite mirror_lookup in Hi. cbn in Hi. destruct (authorizations s !! i) as [a0|] eqn:Ha0; [|done].
      destruct (Ha i a0 Ha0) as [B1 B2]. rewrite decide_False in Hi.
      * injection Hi as <-. split; [done|by apply Hperm].
      * intros ->%list_elem_of_singleton. destruct B2 as (k0 & Hk0 & _). congruence.
Qed.

Lemma merge_ok layer_of n t p kt kp :
  key_ok layer_of n t kt → key_ok layer_of n p kp →
  ∃ layer observation, MergeAuthKeyLayerObservations (Layer kt) (LayerObservationID kt) (Layer kp) (LayerObservationID kp)
                       = OK (layer, observation)
    ∧ 0 ≤ layer ∧ 0 ≤ observation ≤ n ∧ (0 < observation → 0 < layer ∧ layer = layer_of observation).
Proof.
  intros [_ _ T3 T4 T5] [_ _ P3 P4 P5]. unfold MergeAuthKeyLayerObservations.
  destruct (_ || _) eqn:Hbad.
  - exfalso. repeat (apply orb_prop in Hbad as [Hbad|Hbad]); bool_facts; lia.
  - clear Hbad. destruct (Z.ltb_spec (LayerObservationID kp) (LayerObservationID kt)).
    { eexists _, _. split; [done|]. split_and!; first [lia|exact T5]. }
    destruct (Z.ltb_spec (LayerObservationID kt) (LayerObservationID kp)).
    { eexists _, _. split; [done|]. split_and!; first [lia|exact P5]. }
    assert (LayerObservationID kt = LayerObservationID kp) as E by lia.
    destruct (Z.ltb_spec 0 (LayerObservationID kt)) as [Hpos|Hpos]; cbn [andb].
    + destruct (T5 Hpos) as [T6 T7]. rewrite E in T7, Hpos. destruct (P5 Hpos) as [P6 P7]. rewrite T7, <- P7, Z.eqb_refl. cbn.
      eexists _, _. split; [done|]. rewrite E. split_and!; first [lia|by intros].
    + eexists _, _. split; [done|]. split_and!; lia.
Qed.

Lemma SaveWithState_ok layer_of s b :
  keys_ok layer_of s → keys_ok layer_of (SaveWithState b s).2
  ∧ (SaveWithState b s).1 ≠ ERR ErrAuthKeySessionLayerConflict ∧ (SaveWithState b s).1 ≠ ERR ErrAuthKeySessionLayerInvalid.
Proof.
  intros Hok. unfold SaveWithState. match goal with |- context [if ?c then _ else _] => destruct c end; [done|].
  destruct (keys s !! TempAuthKeyID b) as [kt|] eqn:Ht; [|done]. destruct (keys s !! PermAuthKeyID b) as [kp|] eqn:Hp; [|done].
  destruct (_ || _ || _) eqn:Hc; [done|]. bool_facts.
  pose proof (ko_keys _ _ Hok _ _ Ht) as Kt. pose proof (ko_keys _ _ Hok _ _ Hp) as Kp.
  destruct (merge_ok _ _ _ _ _ _ Kt Kp) as (layer & obs & -> & Hl & Hobs & Hpos). split; [|done]. cbn [snd].
  assert (TempAuthKeyID b ≠ PermAuthKeyID b) as Hne by (intros E; rewrite E in Ht; simplify_eq; lia).
  set (s1 := mirrorAuthorizationLayersLocked [TempAuthKeyID b] layer (put_key (TempAuthKeyID b) (with_layer layer obs kt) s)).
  assert (keys_ok layer_of s1) as Ok1.
  { apply (rekey_ok layer_of s _ kt (with_layer layer obs kt)); try done. destruct Kt. by split. }
  set (s2 := mirrorAuthorizationLayersLocked [PermAuthKeyID b] layer (put_key (PermAuthKeyID b) (with_layer layer obs kp) s1)).
  assert (keys_ok layer_of s2) as Ok2.
  { apply (rekey_ok layer_of s1 _ kp (with_layer layer obs kp)); try done.
    - cbn. by rewrite lookup_insert_ne.
    - destruct Kp. by split. }
  apply (keys_ok_bindings _ _ (TempAuthKeyID b) b) in Ok2; [exact Ok2|]. split; [done| |].
  - exists (with_layer layer obs kt). cbn. rewrite lookup_insert_ne, lookup_insert_eq by done. cbn. split_and!; [done|lia|congruence].
  - exists (with_layer layer obs kp). cbn. rewrite lookup_insert_eq. by split_and!.
Qed.

(** No binding leads to a temporary key. *)
Lemma temp_free layer_of s id k t b :
  keys_ok layer_of s → keys s !! id = Some k → 0 < ak_ExpiresAt k → bindings s !! t = Some b → PermAuthKeyID b ≠ id.
Proof. intros Hok Hid Hk Ht <-. destruct (bk_perm _ _ _ (ko_bindings _ _ Hok t b Ht)) as (kp & Hkp & He & _). simplify_eq. lia. Qed.

Lemma delete_expired_ok layer_of before limit order n s :
  keys_ok layer_of s → keys_ok layer_of (delete_expired before limit order n s).2.
Proof.
  revert n s. induction order as [|id order IH]; intros n s Hok; cbn [delete_expired]; [done|].
  destruct (limit <=? n); [done|]. destruct (keys s !! id) as [k|] eqn:Hid; [|by apply IH].
  destruct (_ || _) eqn:Hc; [by apply IH|]. bool_facts. apply IH, drop_key_ok; [done|]. intros t b Ht Hp.
  exfalso. by eapply temp_free.
Qed.

(** Dropping temporary keys, one after the other. *)
Lemma drop_temps_ok layer_of ids s :
  keys_ok layer_of s → NoDup ids → Forall (λ t, is_Some (bindings s !! t)) ids →
  let s' := deleteAuthorizationMirrorsLocked ids (fold_left (λ s t, drop_key t s) ids s) in
  keys_ok layer_of s' ∧ keys s' = foldr delete (keys s) (reverse ids) ∧ bindings s' = foldr delete (bindings s) (reverse ids).
Proof.
  revert s. induction ids as [|t ids IH]; intros s Hok Hnd Hall; [by destruct Hok|].
  apply NoDup_cons in Hnd as [Hni Hnd]. apply Forall_cons in Hall as [[b Hb] Hall]. cbn [fold_left].
  set (s1 := deleteAuthorizationMirrorsLocked [t] (drop_key t s)).
  assert (keys_ok layer_of s1) as Ok1.
  { apply drop_key_ok; [done|]. destruct (bk_temp _ _ _ (ko_bindings _ _ Hok t b Hb)) as (k & Hk & He & _).
    intros t' b' Ht' Hp. exfalso. by eapply temp_free. }
  assert (∀ az s0, fold_left (λ s t, drop_key t s) ids (set_authorizations az s0)
                   = set_authorizations az (fold_left (λ s t, drop_key t s) ids s0)) as Hcomm.
  { clear. induction ids as [|t ids IH]; intros az s0; cbn [fold_left]; [done|]. by rewrite <- IH. }
  destruct (IH s1 Ok1 Hnd) as (I1 & I2 & I3).
  { rewrite Forall_forall in Hall |- *. intros t' Ht'. unfold s1. cbn. rewrite lookup_delete_ne; [by apply Hall|]. by intros ->. }
  assert (authorizations (fold_left (λ s t, drop_key t s) ids (drop_key t s)) = authorizations s) as Haz.
  { clear. generalize (drop_key t s), (eq_refl : authorizations (drop_key t s) = authorizations s). induction ids as [|t' ids IH]; cbn [fold_left]; [done|].
    intros s0 Hs0. by apply IH. }
  unfold s1, deleteAuthorizationMirrorsLocked in I1, I2, I3. rewrite !Hcomm in I1, I2, I3. cbn in I2, I3. rewrite reverse_cons, !foldr_app. cbn.
  split_and!; [|exact I2|exact I3]. unfold deleteAuthorizationMirrorsLocked. cbn. rewrite Haz. exact I1.
Qed.

Lemma foldr_delete_Some {V} (m : gmap Z V) ids t v : foldr delete m ids !! t = Some v → m !! t = Some v ∧ t ∉ ids.
Proof.
  intros H. destruct (decide (t ∈ ids)) as [Hin|Hni].
  - rewrite lookup_foldr_delete in H; [done|by apply elem_of_list_to_set_reverse in Hin || done].
  - rewrite lookup_foldr_delete_not_elem_of in H by done. done.
Qed.

Lemma Delete_keys_ok layer_of s id : keys_ok layer_of s → keys_ok layer_of (Delete id s).
Proof.
  intros Hok. unfold Delete, deleteProtocolAuthKeyLocked. destruct (keys s !! id) as [k|] eqn:Hid.
  2: { unfold deleteAuthorizationMirrorsLocked. cbn. by destruct s. }
  destruct (Z.ltb_spec 0 (ak_ExpiresAt k)) as [Ht|Hp].
  { apply drop_key_ok; [done|]. intros t b Hb Hp. exfalso. by eapply temp_free. }
  set (bound := List.filter _ _).
  assert (∀ t, t ∈ bound ↔ ∃ b, bindings s !! t = Some b ∧ PermAuthKeyID b = id) as Hbound.
  { intros t. unfold bound. rewrite list_elem_of_In, List.filter_In, <- list_elem_of_In, list_elem_of_fmap, (comm and). split.
    - intros [Hf _]. destruct (bindings s !! t) as [b|]; [|done]. bool_facts. by exists b.
    - intros (b & Hb & <-). rewrite Hb, Z.eqb_refl. split; [done|]. exists (t, b). split; [done|]. by apply elem_of_map_to_list. }
  destruct (drop_temps_ok layer_of bound s Hok) as (D1 & D2 & D3).
  - unfold bound. apply NoDup_ListNoDup, List.NoDup_filter, NoDup_ListNoDup, NoDup_fst_map_to_list.
  - rewrite Forall_forall. intros t (b & Hb & _)%Hbound. by exists b.
  - set (s1 := fold_left _ bound s) in *.
    assert (bindings s1 !! id = None) as Hno.
    { cbn in D3. rewrite D3. apply eq_None_not_Some. intros [b [Hb _]%foldr_delete_Some].
      destruct (bk_temp _ _ _ (ko_bindings _ _ Hok id b Hb)) as (k' & Hk' & He & _). simplify_eq. lia. }
    pose proof (drop_key_ok layer_of _ id D1) as Hdrop. cbn in Hdrop.
    assert (deleteAuthorizationMirrorsLocked (bound ++ [id]) (deleteSessionLayersLocked id (set_keys (delete id (keys s1)) s1))
            = deleteAuthorizationMirrorsLocked [id] (drop_key id (deleteAuthorizationMirrorsLocked bound s1))) as ->.
    { unfold deleteAuthorizationMirrorsLocked, drop_key, deleteSessionLayersLocked. cbn. rewrite fold_left_app. cbn.
      unfold set_bindings, set_sessionLayers, set_keys, set_authorizations. cbn. by rewrite (delete_id (bindings s1)). }
    apply Hdrop. intros t b Hb Hpb. exfalso. cbn in D3. change (bindings s1 !! t = Some b) in Hb. rewrite D3 in Hb. apply foldr_delete_Some in Hb as [Hb Hni].
    apply Hni. rewrite elem_of_reverse. apply Hbound. by exists b.
Qed.

(** ** Layers of sessions *)

Lemma bound_perm_OK layer_of s raw : keys_ok layer_of s →
  bound_perm raw s = OK None ∧ bindings s !! raw = None
  ∨ ∃ b p, bindings s !! raw = Some b ∧ keys s !! PermAuthKeyID b = Some p ∧ ak_ExpiresAt p = 0 ∧ bound_perm raw s = OK (Some (PermAuthKeyID b, p)).
Proof.
  intros Hok. unfold bound_perm. destruct (bindings s !! raw) as [b|] eqn:Hb; [right|by left].
  destruct (bk_perm _ _ _ (ko_bindings _ _ Hok raw b Hb)) as (p & Hp & He & _). exists b, p. by rewrite Hp.
Qed.

(** A new observation extends what is known of the layers. *)
Lemma observe_layer_ok layer_of s raw session layer msgID t perm k :
  keys_ok layer_of s → 0 < layer → keys s !! raw = Some k → bound_perm raw s = OK perm →
  keys_ok (λ n, if n =? nextLayerObservation s + 1 then layer else layer_of n) (observe_layer raw session layer msgID t perm k s).2.
Proof.
  intros Hok Hl Hraw Hperm. set (n := nextLayerObservation s + 1). set (layer_of' := λ i, if i =? n then layer else layer_of i).
  set (s1 := put_session (raw, session) {| sl_Layer := layer; MessageID := msgID; ObservationID := n; sl_ExpiresAt := t; SharedDefault := true |}
               (set_nextLayerObservation n s)).
  assert (keys_ok layer_of' s1) as Ok1.
  { destruct Hok as [Hn Hk Hb Hs Ha]. split; cbn; try done.
    - unfold n. lia.
    - intros id k0 Hk0. destruct (Hk id k0 Hk0) as [H1 H2 H3 H4 H5]. split; try done; [unfold n; lia|].
      intros Ho. unfold layer_of'. rewrite (proj2 (Z.eqb_neq _ _)) by (unfold n; lia). by apply H5.
    - apply map_Forall_insert_2.
      + split; cbn; [done|unfold n; lia|]. unfold layer_of'. by rewrite Z.eqb_refl.
      + intros key v Hv. destruct (Hs key v Hv) as [H1 H2 H3]. split; [done|unfold n; lia|].
        unfold layer_of'. rewrite (proj2 (Z.eqb_neq _ _)) by (unfold n; lia). done. }
  assert (∀ id k0, keys s !! id = Some k0 → key_ok layer_of' n id (with_layer layer n k0)) as Hnew.
  { intros id k0 Hk0. destruct (ko_keys _ _ Hok id k0 Hk0) as [H1 H2 H3 H4 H5]. split; cbn; try done; try (unfold n; lia).
    intros _. split; [done|]. unfold layer_of'. by rewrite Z.eqb_refl. }
  pose proof (rekey_ok layer_of' s1 raw k (with_layer layer n k) Ok1 Hraw ltac:(done) (Hnew raw k Hraw)) as Ok2. cbn [Layer with_layer] in Ok2.
  unfold observe_layer. fold n. fold s1. cbn [snd]. destruct perm as [[permID p]|]; [|exact Ok2].
  destruct (bound_perm_OK layer_of s raw Hok) as [[E _]|(b & p' & Hb & Hp & He & E)]; rewrite E in Hperm; [done|]. injection Hperm as <- <-.
  assert (PermAuthKeyID b ≠ raw) as Hne.
  { destruct (bk_temp _ _ _ (ko_bindings _ _ Hok raw b Hb)) as (k' & Hk' & He' & _). intros <-. simplify_eq. lia. }
  refine (rekey_ok layer_of' _ (PermAuthKeyID b) p' (with_layer layer n p') Ok2 _ _ _); [|done|by apply Hnew].
  cbn. by rewrite lookup_insert_ne.
Qed.

Lemma AdvanceSessionLayer_ok layer_of now raw session layer msgID s :
  keys_ok layer_of s → ∃ layer_of', keys_ok layer_of' (AdvanceSessionLayer now raw session layer msgID s).2.
Proof.
  intros Hok. unfold AdvanceSessionLayer. destruct (AuthKeySessionLayerEvidenceFresh now msgID) as [t|]; [|by exists layer_of].
  destruct (Z.leb_spec layer 0) as [Hl|Hl]; [by exists layer_of|]. destruct (keys s !! raw) as [k|] eqn:Hraw; [|by exists layer_of].
  destruct (old_evidence _ _ _ _ _); [by exists layer_of|]. destruct (bound_perm raw s) as [perm|e] eqn:Hp; [|by exists layer_of].
  pose proof (observe_layer_ok layer_of s raw session layer msgID t perm k Hok Hl Hraw Hp) as Hobs.
  destruct (observe_layer _ _ _ _ _ _ _ _) as [current s1]. cbn [snd] in Hobs.
  destruct (live_layer now raw session s) as [v|] eqn:Hv.
  - destruct (Z.eqb_spec layer (sl_Layer v)) as [->|Hne].
    + exists layer_of. cbn [snd]. apply keys_ok_sessions; [done|]. apply map_Forall_insert_2; [|by apply Hok].
      unfold live_layer in Hv. destruct (sessionLayers s !! (raw, session)) as [v'|] eqn:Hv'; [|done]. cbn in Hv.
      destruct (now <? _); [|done]. injection Hv as ->. destruct (ko_sessions _ _ Hok _ _ Hv') as [H1 H2 H3]. by split.
    + destruct (_ =? max_int64); [by exists layer_of|by eexists].
  - destruct (_ =? max_int64); [by exists layer_of|by eexists].
Qed.

Lemma delete_expired_layers_ok layer_of now limit order n s :
  keys_ok layer_of s → keys_ok layer_of (delete_expired_layers now limit order n s).2.
Proof.
  revert n s. induction order as [|key order IH]; intros n s Hok; cbn [delete_expired_layers]; [done|].
  destruct (limit <=? n); [done|]. destruct (sessionLayers s !! key); [|by apply IH]. destruct (now <? _); [by apply IH|].
  apply IH, keys_ok_sessions; [done|]. apply map_Forall_delete, Hok.
Qed.

(** ** Authorizations *)

Lemma Bind_ok layer_of now a s : keys_ok layer_of s → keys_ok layer_of (Bind now a s).2.
Proof.
  intros Hok. unfold Bind. destruct (keys s !! AuthKeyID a) as [k|] eqn:Hk; [|done]. destruct (negb _) eqn:He; [done|]. bool_facts.
  apply keys_ok_authorizations; [done|]. apply map_Forall_insert_2; [|apply Hok]. split; [done|]. exists k. by split_and!; [|..|intros l [= <-]].
Qed.

(** A row changes but for its key and its layer. *)
Lemma alter_row_ok layer_of id f s :
  keys_ok layer_of s →
  (∀ a k, authorizations s !! id = Some a → keys s !! id = Some k → AuthKeyID (f a) = AuthKeyID a ∧ (az_Layer (f a) = az_Layer a ∨ az_Layer (f a) = Layer k)) →
  keys_ok layer_of (set_authorizations (alter f id (authorizations s)) s).
Proof.
  intros Hok Hf. apply keys_ok_authorizations; [done|]. intros i a Hi.
  destruct (decide (i = id)) as [->|Hne].
  - rewrite lookup_alter_eq in Hi. destruct (authorizations s !! id) as [a0|] eqn:Ha0; [|done]. injection Hi as <-.
    destruct (ko_authorizations _ _ Hok id a0 Ha0) as [H1 (k & Hk & He & Hl)].
    destruct (Hf a0 k eq_refl Hk) as [-> Hlayer]. split; [done|]. exists k. split_and!; try done. intros l [= <-].
    destruct Hlayer as [-> | ->]; [by apply Hl|done].
  - rewrite lookup_alter_ne in Hi by done. by apply Hok.
Qed.

(** * Runs *)

Inductive key_op :=
  | KSave k
  | KUpdateClientInfo (id layer : Z) (info : client_info)
  | KDelete (id : Z)
  | KBindTemp b
  | KDeleteExpired (expiredBefore limit : Z) (order : list Z)
  | KGetSessionLayer (raw session : Z)
  | KAdvance (raw session layer msgID : Z)
  | KDeleteSessionLayer (raw session : Z)
  | KDeleteExpiredLayers (limit : Z) (order : list (Z * Z))
  | KBind a
  | KUpdateAuthorization (id : Z) (info : client_info) (ip : string)
  | KPasswordPassed (id userID : Z)
  | KLogOut (id : Z)
  | KRevokeByHash (userID hash : Z) (order : list Z)
  | KRevokeByUserExcept (userID keepAuthKeyID : Z).

Definition perform_key now (op : key_op) s : authKeyState :=
  match op with
  | KSave k => (Save k s).2
  | KUpdateClientInfo id layer info => (UpdateClientInfo id layer info s).2
  | KDelete id => Delete id s
  | KBindTemp b => (SaveWithState b s).2
  | KDeleteExpired before limit order => (DeleteExpired before limit order s).2
  | KGetSessionLayer raw session => (GetSessionLayer now raw session s).2
  | KAdvance raw session layer msgID => (AdvanceSessionLayer now raw session layer msgID s).2
  | KDeleteSessionLayer raw session => (DeleteSessionLayer raw session s).2
  | KDeleteExpiredLayers limit order => (DeleteExpiredSessionLayers now limit order s).2
  | KBind a => (Bind now a s).2
  | KUpdateAuthorization id info ip => (UpdateAuthorizationClientInfo now id info ip s).2
  | KPasswordPassed id userID => (MarkPasswordPassed now id userID s).2
  | KLogOut id => DeleteAuthorization id s
  | KRevokeByHash userID hash order => (RevokeByHash userID hash order s).2
  | KRevokeByUserExcept userID keep => (RevokeByUserExcept userID keep s).2
  end.

Definition key_op_ok (op : key_op) : Prop := match op with KSave k => handshake k | _ => True end.

Lemma perform_key_ok layer_of now op s :
  keys_ok layer_of s → key_op_ok op → ∃ layer_of', keys_ok layer_of' (perform_key now op s).
Proof.
  intros Hok Hop. destruct op; cbn [perform_key key_op_ok] in *.
  7: by eapply AdvanceSessionLayer_ok.
  all: exists layer_of.
  - by apply Save_ok.
  - by apply UpdateClientInfo_ok.
  - by apply Delete_keys_ok.
  - by apply SaveWithState_ok.
  - unfold DeleteExpired. destruct (limit <=? 0); [done|by apply delete_expired_ok].
  - unfold GetSessionLayer. destruct (sessionLayers s !! _); [|done]. destruct (negb _); [|done].
    apply keys_ok_sessions; [done|]. apply map_Forall_delete, Hok.
  - apply keys_ok_sessions; [done|]. apply map_Forall_delete, Hok.
  - unfold DeleteExpiredSessionLayers. destruct (limit <=? 0); [done|by apply delete_expired_layers_ok].
  - by apply Bind_ok.
  - unfold UpdateAuthorizationClientInfo. destruct (keys s !! id) as [k0|] eqn:Hk0; [|done]. apply alter_row_ok; [done|].
    intros a k _ Hk. simplify_eq. cbn. auto.
  - unfold MarkPasswordPassed. destruct (authorizations s !! id) as [a|] eqn:Ha; [|done]. destruct (_ || _ || _); [done|]. cbn [snd].
    assert (<[id := password_passed now a]> (authorizations s) = alter (password_passed now) id (authorizations s)) as ->
      by (apply map_eq; intros i; destruct (decide (i = id)) as [->|]; [by rewrite lookup_insert_eq, lookup_alter_eq, Ha|by rewrite lookup_insert_ne, lookup_alter_ne]).
    apply alter_row_ok; [done|]. cbn. auto.
  - apply keys_ok_authorizations; [done|]. apply map_Forall_delete, Hok.
  - unfold RevokeByHash. destruct (List.find _ order); [|done]. apply keys_ok_authorizations; [done|]. apply map_Forall_delete, Hok.
  - apply keys_ok_authorizations; [done|]. intros i a [Hi _]%map_lookup_filter_Some. by apply Hok.
Qed.

Inductive key_run : authKeyState → authKeyState → Prop :=
  | key_run_start s : key_run s s
  | key_run_step s s1 now op : key_run s s1 → key_op_ok op → key_run s (perform_key now op s1).

Lemma key_run_ok s s' : key_run s s' → (∃ layer_of, keys_ok layer_of s) → ∃ layer_of, keys_ok layer_of s'.
Proof. induction 1 as [|s s1 now op _ IH Hop]; intros Hs; [done|]. destruct (IH Hs) as [l Hl]. by eapply perform_key_ok. Qed.

(** ** What a step keeps of bindings and sessions *)

Lemma drop_key_bindings id s t : bindings (drop_key id s) !! t = bindings s !! t ∨ bindings (drop_key id s) !! t = None.
Proof. cbn. rewrite lookup_delete. case_decide; auto. Qed.

Definition shrinks {K V} `{Countable K} (m m' : gmap K V) : Prop := m' ⊆ m.

Lemma delete_expired_shrinks before limit order n s :
  bindings (delete_expired before limit order n s).2 ⊆ bindings s
  ∧ sessionLayers (delete_expired before limit order n s).2 ⊆ sessionLayers s.
Proof.
  revert n s. induction order as [|id order IH]; intros n s; cbn [delete_expired]; [done|].
  destruct (limit <=? n); [done|]. destruct (keys s !! id) as [k|]; [|apply IH]. destruct (_ || _); [apply IH|].
  destruct (IH (n + 1) (deleteAuthorizationMirrorsLocked [id] (drop_key id s))) as [H1 H2].
  split; (etrans; [eassumption|]); cbn; [apply delete_subseteq|apply map_filter_subseteq].
Qed.

Lemma drop_temps_shrinks ids s :
  bindings (fold_left (λ s t, drop_key t s) ids s) ⊆ bindings s
  ∧ sessionLayers (fold_left (λ s t, drop_key t s) ids s) ⊆ sessionLayers s.
Proof.
  revert s. induction ids as [|id ids IH]; intros s; cbn [fold_left]; [done|]. destruct (IH (drop_key id s)) as [H1 H2].
  split; (etrans; [eassumption|]); cbn; [apply delete_subseteq|apply map_filter_subseteq].
Qed.

Lemma Delete_shrinks id s : bindings (Delete id s) ⊆ bindings s ∧ sessionLayers (Delete id s) ⊆ sessionLayers s.
Proof.
  unfold Delete, deleteProtocolAuthKeyLocked. destruct (keys s !! id) as [k|]; [|done].
  destruct (0 <? _); cbn; [split; [apply delete_subseteq|apply map_filter_subseteq]|].
  set (bound := List.filter _ _). destruct (drop_temps_shrinks bound s) as [H1 H2]. split; [done|].
  etrans; [apply map_filter_subseteq|done].
Qed.

Lemma delete_layers_shrinks now limit order n s :
  bindings (delete_expired_layers now limit order n s).2 = bindings s
  ∧ sessionLayers (delete_expired_layers now limit order n s).2 ⊆ sessionLayers s.
Proof.
  revert n s. induction order as [|key order IH]; intros n s; cbn [delete_expired_layers]; [done|].
  destruct (limit <=? n); [done|]. destruct (sessionLayers s !! key); [|apply IH]. destruct (now <? _); [apply IH|].
  destruct (IH (n + 1) (set_sessionLayers (delete key (sessionLayers s)) s)) as [-> H2]. split; [done|].
  etrans; [exact H2|]. apply delete_subseteq.
Qed.

(** All but a binding and a layer's advance only remove bindings and sessions. *)
Lemma perform_shrinks now op s :
  match op with
  | KBindTemp _ | KAdvance _ _ _ _ => True
  | _ => bindings (perform_key now op s) ⊆ bindings s ∧ sessionLayers (perform_key now op s) ⊆ sessionLayers s
  end.
Proof.
  destruct op; cbn [perform_key]; try done.
  - unfold Save. repeat case_match; done.
  - unfold UpdateClientInfo. repeat case_match; done.
  - apply Delete_shrinks.
  - unfold DeleteExpired. destruct (limit <=? 0); [done|apply delete_expired_shrinks].
  - unfold GetSessionLayer. repeat case_match; try done. split; [done|apply delete_subseteq].
  - split; [done|apply delete_subseteq].
  - unfold DeleteExpiredSessionLayers. destruct (limit <=? 0); [done|]. destruct (delete_layers_shrinks now limit order 0 s) as [-> ?]. done.
  - unfold Bind. repeat case_match; done.
  - unfold UpdateAuthorizationClientInfo. repeat case_match; done.
  - unfold MarkPasswordPassed. repeat case_match; done.
  - unfold RevokeByHash. repeat case_match; done.
Qed.

Lemma SaveWithState_bindings b s t b0 b1 :
  bindings s !! t = Some b0 → bindings (SaveWithState b s).2 !! t = Some b1 → PermAuthKeyID b1 = PermAuthKeyID b0.
Proof.
  intros H0. unfold SaveWithState.
  destruct (match bindings s !! TempAuthKeyID b with Some current => negb (PermAuthKeyID current =? PermAuthKeyID b) | None => false end) eqn:Hc.
  - cbn. congruence.
  - assert (t = TempAuthKeyID b → PermAuthKeyID b = PermAuthKeyID b0) as Hb by (intros ->; rewrite H0 in Hc; by bool_facts).
    clear Hc. repeat case_match; cbn; intros H1'; try congruence.
    all: destruct (decide (t = TempAuthKeyID b)) as [->|Hne];
      [rewrite lookup_insert_eq in H1'; injection H1' as <-; by apply Hb|rewrite lookup_insert_ne in H1' by done; congruence].
Qed.

Lemma AdvanceSessionLayer_sessions now raw session layer msgID s key v v' :
  live_layer now key.1 key.2 s = Some v → sessionLayers (AdvanceSessionLayer now raw session layer msgID s).2 !! key = Some v' →
  MessageID v < MessageID v' ∨ v' = v.
Proof.
  unfold live_layer. intros Hv Hv'. destruct key as [r i]. cbn in Hv. destruct (sessionLayers s !! (r, i)) as [v0|] eqn:Hr; [|done].
  cbn in Hv. destruct (now <? sl_ExpiresAt v0) eqn:Hlive; [|done]. injection Hv as ->.
  unfold AdvanceSessionLayer in Hv'. destruct (AuthKeySessionLayerEvidenceFresh now msgID) as [t|]; [|cbn in Hv'; right; congruence].
  destruct (layer <=? 0); [cbn in Hv'; right; congruence|]. destruct (keys s !! raw) as [k|]; [|cbn in Hv'; right; congruence].
  destruct (decide ((raw, session) = (r, i))) as [[= -> ->]|Hne].
  - assert (live_layer now r i s = Some v) as Hl by (unfold live_layer; rewrite Hr; cbn; by rewrite Hlive). rewrite Hl in Hv'.
    destruct (old_evidence r layer msgID (Some v) s) as [ans|] eqn:Hold; [cbn in Hv'; right; congruence|].
    assert (MessageID v < msgID) as Hlt.
    { unfold old_evidence in Hold. destruct (Z.ltb_spec msgID (MessageID v)); [done|]. destruct (Z.eqb_spec msgID (MessageID v)); [done|]. lia. }
    destruct (bound_perm r s) as [perm|e]; [|cbn in Hv'; right; congruence].
    destruct (layer =? sl_Layer v); [|destruct (_ =? max_int64); [cbn in Hv'; right; congruence|]]; cbn in Hv'.
    + rewrite lookup_insert_eq in Hv'. injection Hv' as <-. cbn. by left.
    + left. unfold observe_layer in Hv'. destruct perm as [[]|]; cbn in Hv'; rewrite lookup_insert_eq in Hv'; by injection Hv' as <-.
  - right. destruct (old_evidence _ _ _ _ _); [cbn in Hv'; congruence|]. destruct (bound_perm raw s) as [perm|e]; [|cbn in Hv'; congruence].
    unfold observe_layer in Hv'. repeat case_match; cbn in Hv'; rewrite ?lookup_insert_ne in Hv' by done; try congruence.
    all: simplify_eq/=; rewrite ?lookup_insert_ne in Hv' by done; congruence.
Qed.

Lemma AdvanceSessionLayer_bindings now raw session layer msgID s :
  bindings (AdvanceSessionLayer now raw session layer msgID s).2 = bindings s.
Proof. unfold AdvanceSessionLayer, observe_layer. repeat case_match; simplify_eq/=; done. Qed.

Lemma SaveWithState_sessions b s : sessionLayers (SaveWithState b s).2 = sessionLayers s.
Proof. unfold SaveWithState. destruct (match bindings s !! _ with Some _ => _ | None => _ end); [done|]. repeat case_match; done. Qed.

(** Only the keys that are named stand in the way of a binding. *)
Lemma SaveWithState_errors layer_of b s e :
  keys_ok layer_of s → (SaveWithState b s).1 = ERR e → e = ErrTempAuthKeyAlreadyBound ∨ e = ErrAuthKeyBindingInvalid.
Proof.
  intros Hok. destruct (SaveWithState_ok layer_of s b Hok) as (_ & H1 & H2). revert H1 H2. unfold SaveWithState.
  destruct (match bindings s !! _ with Some _ => _ | None => _ end); cbn; [intros _ _ [= <-]; auto|].
  destruct (keys s !! TempAuthKeyID b) as [t|]; [|intros _ _ [= <-]; auto].
  destruct (keys s !! PermAuthKeyID b) as [p|]; [|intros _ _ [= <-]; auto].
  destruct (_ || _ || _); [intros _ _ [= <-]; auto|]. unfold MergeAuthKeyLayerObservations.
  repeat (case_match; cbn; try done); intros; simplify_eq; done.
Qed.

Lemma perform_key_bindings now op s t b b' :
  bindings s !! t = Some b → bindings (perform_key now op s) !! t = Some b' → PermAuthKeyID b' = PermAuthKeyID b.
Proof.
  intros Hb Hb'. pose proof (perform_shrinks now op s) as Hsh. destruct op.
  4: by eapply SaveWithState_bindings.
  6: { cbn in Hb'. rewrite AdvanceSessionLayer_bindings in Hb'. congruence. }
  all: pose proof (lookup_weaken _ _ _ _ Hb' (proj1 Hsh)); congruence.
Qed.

Lemma perform_key_sessions now op s key v v' :
  live_layer now key.1 key.2 s = Some v → sessionLayers (perform_key now op s) !! key = Some v' →
  MessageID v < MessageID v' ∨ v' = v.
Proof.
  intros Hv Hv'. pose proof (perform_shrinks now op s) as Hsh.
  assert (sessionLayers s !! key = Some v' → v' = v) as Hsame.
  { unfold live_layer in Hv. destruct key as [r i]. cbn in Hv. intros E. rewrite E in Hv. cbn in Hv. destruct (_ <? _); by simplify_eq. }
  destruct op.
  7: by eapply AdvanceSessionLayer_sessions.
  4: { right. apply Hsame. by rewrite <- (SaveWithState_sessions b s). }
  all: right; apply Hsame; by apply (lookup_weaken _ _ _ _ Hv' (proj2 Hsh)).
Qed.

(** * Whose rows there are

    Only three operations say anything new about who is signed in or whom a
    temporary key stands for. *)

Definition binds (op : key_op) : bool := match op with KBind _ | KPasswordPassed _ _ | KBindTemp _ => true | _ => false end.

Definition same_login a a' : Prop := UserID a' = UserID a ∧ PasswordPending a' = PasswordPending a.

Definition rows_from s s' : Prop :=
  ∀ id a', authorizations s' !! id = Some a' → ∃ a, authorizations s !! id = Some a ∧ same_login a a'.

#[export] Instance rows_from_preorder : PreOrder rows_from.
Proof.
  split; [intros s id a Ha; by exists a|]. intros s1 s2 s3 H12 H23 id a Ha.
  destruct (H23 id a Ha) as (a2 & Ha2 & ? & ?). destruct (H12 id a2 Ha2) as (a1 & Ha1 & ? & ?).
  exists a1. split; [done|]. split; congruence.
Qed.

Lemma rows_from_same s s' : authorizations s' = authorizations s → rows_from s s'.
Proof. intros E id a Ha. exists a. by rewrite <- E. Qed.

Lemma rows_from_shrinks s s' : authorizations s' ⊆ authorizations s → rows_from s s'.
Proof. intros Hsub id a Ha. exists a. split; [by eapply lookup_weaken|done]. Qed.

Lemma rows_from_mirror ids layer s s' :
  authorizations s' = authorizations s → rows_from s (mirrorAuthorizationLayersLocked ids layer s').
Proof.
  intros E id a Ha. rewrite mirror_lookup, E in Ha. destruct (authorizations s !! id) as [a0|]; [|done]. exists a0. split; [done|].
  cbn in Ha. case_decide; by simplify_eq/=.
Qed.

Lemma mirrors_deleted ids s : authorizations (deleteAuthorizationMirrorsLocked ids s) ⊆ authorizations s.
Proof.
  unfold deleteAuthorizationMirrorsLocked. cbn. generalize (authorizations s). clear s. induction ids as [|id ids IH]; intros m; cbn; [done|].
  etrans; [apply IH|apply delete_subseteq].
Qed.

Lemma rows_from_alter id f s s' :
  (∀ a, same_login a (f a)) → authorizations s' = alter f id (authorizations s) → rows_from s s'.
Proof.
  intros Hf E i a Ha. rewrite E in Ha. destruct (decide (i = id)) as [->|Hne].
  - rewrite lookup_alter_eq in Ha. destruct (authorizations s !! id) as [a0|]; [|done]. cbn in Ha. simplify_eq. eauto.
  - rewrite lookup_alter_ne in Ha by done. by exists a.
Qed.

Lemma authorizations_drop_temps ids s : authorizations (fold_left (λ s t, drop_key t s) ids s) = authorizations s.
Proof. revert s. induction ids as [|id ids IH]; intros s; cbn; [done|]. by rewrite IH. Qed.

Lemma rows_from_Delete id s : rows_from s (Delete id s).
Proof.
  unfold Delete, deleteProtocolAuthKeyLocked. destruct (keys s !! id) as [k|]; [destruct (0 <? _)|].
  all: cbn [fst snd]; etrans; [|apply rows_from_shrinks, mirrors_deleted]; apply rows_from_same; cbn; try done.
  apply authorizations_drop_temps.
Qed.

Lemma rows_from_delete_expired before limit order n s : rows_from s (delete_expired before limit order n s).2.
Proof.
  revert n s. induction order as [|id order IH]; intros n s; cbn [delete_expired]; [done|].
  destruct (limit <=? n); [done|]. destruct (keys s !! id) as [k|]; [|apply IH]. destruct (_ || _); [apply IH|].
  etrans; [|apply IH]. apply rows_from_shrinks. etrans; [apply mirrors_deleted|]. done.
Qed.

Lemma rows_from_delete_layers now limit order n s : rows_from s (delete_expired_layers now limit order n s).2.
Proof.
  revert n s. induction order as [|key order IH]; intros n s; cbn [delete_expired_layers]; [done|].
  destruct (limit <=? n); [done|]. destruct (sessionLayers s !! key); [|apply IH]. destruct (now <? _); [apply IH|].
  etrans; [|apply IH]. by apply rows_from_same.
Qed.

Lemma rows_from_Advance now raw session layer msgID s : rows_from s (AdvanceSessionLayer now raw session layer msgID s).2.
Proof.
  unfold AdvanceSessionLayer, observe_layer. repeat case_match; simplify_eq/=; try done; try (by apply rows_from_same).
  all: by apply rows_from_mirror.
Qed.

Lemma perform_key_rows now op s : binds op = false → rows_from s (perform_key now op s).
Proof.
  intros Hop. destruct op; cbn [perform_key binds] in *; try discriminate.
  - unfold Save. destruct (negb _); [done|]. destruct (keys s !! _); [destruct (_ || _); [done|]|]; by apply rows_from_mirror.
  - unfold UpdateClientInfo. destruct (keys s !! id); [|done]. destruct (_ && _); [done|]. by apply rows_from_mirror.
  - apply rows_from_Delete.
  - unfold DeleteExpired. destruct (limit <=? 0); [done|]. apply rows_from_delete_expired.
  - unfold GetSessionLayer. repeat case_match; try done. by apply rows_from_same.
  - apply rows_from_Advance.
  - by apply rows_from_same.
  - unfold DeleteExpiredSessionLayers. destruct (limit <=? 0); [done|]. apply rows_from_delete_layers.
  - unfold UpdateAuthorizationClientInfo. destruct (keys s !! id); [|done]. cbn [snd]. eapply rows_from_alter; [|reflexivity]; done.
  - apply rows_from_shrinks, delete_subseteq.
  - unfold RevokeByHash. destruct (List.find _ order); [|done]. apply rows_from_shrinks, delete_subseteq.
  - apply rows_from_shrinks, map_filter_subseteq.
Qed.

Lemma perform_key_binds now op s : binds op = false → bindings (perform_key now op s) ⊆ bindings s.
Proof.
  intros Hop. pose proof (perform_shrinks now op s) as Hsh. destruct op; try discriminate; try apply Hsh.
  cbn. by rewrite AdvanceSessionLayer_bindings.
Qed.

(** A binding changes one row and the layers. *)
Lemma SaveWithState_rows b s : rows_from s (SaveWithState b s).2.
Proof.
  unfold SaveWithState. destruct (match bindings s !! _ with Some _ => _ | None => _ end); [done|].
  repeat case_match; try done. by apply rows_from_mirror.
Qed.

Lemma SaveWithState_puts b s :
  bindings (SaveWithState b s).2
  = match (SaveWithState b s).1 with OK _ => <[TempAuthKeyID b := b]> (bindings s) | ERR _ => bindings s end.
Proof.
  unfold SaveWithState. destruct (match bindings s !! _ with Some _ => _ | None => _ end); [done|]. by repeat case_match.
Qed.
