(* ===== verification/AuthProps.v ===== *)
(** What the login codes and the auth keys guarantee: the life of a code, and what
    keys, bindings, layers and authorizations keep to in every history. *)

From S2P Require Import Prelude GoStrings AuthCodes AuthKeys AuthKeysInv.

Open Scope Z_scope.

#[local] Set Default Proof Using "Type".

Implicit Types (hash : string) (c : PhoneCode).

(** * Codes *)

(** The record that an event shows. *)
Definition shown_code (ev : code_event) : PhoneCode :=
  match ev with Issues c | Accepts _ c | Rejects c | SignsUp c => c end.

Definition phase_of (p : phase) c : Prop :=
  match p with NoCode => True | Live c' _ | Kept c' => c' = c end.

Lemma lives_same c p evs p' :
  lives p evs p' → phase_of p c → Forall (λ ev, is_issue ev = false) evs →
  phase_of p' c ∧ Forall (λ ev, same_code c (shown_code ev)) evs.
Proof.
  induction 1 as [p|p evs p1 ev p2 _ IH Hs]; intros Hp Hi; [done|].
  apply Forall_app in Hi as [Hi Hev]. rewrite Forall_singleton in Hev. destruct (IH Hp Hi) as [Hp1 Hevs].
  rewrite Forall_app, Forall_singleton. destruct Hs; cbn in *; subst; done.
Qed.

(** What has become of a code by some moment after it was issued. *)
Record spent c (evs : list code_event) : Prop := {
  sp_same : Forall (λ ev, same_code c (shown_code ev)) evs;
  sp_guesses : times is_reject evs + times is_accept evs ≤ guesses_left c;
  sp_accepts : times is_accept evs ≤ 1;
  sp_sign_ups : times is_sign_up evs ≤ times is_accept evs;
  sp_owner : 0 < times is_sign_up evs → IssuedUserID c = 0;
}.

Lemma lives_spent c evs p :
  lives (issued c) evs p → SignUpVerified c = false → 0 < MaxAttempts c → Forall (λ ev, is_issue ev = false) evs →
  spent c evs.
Proof.
  unfold issued. intros Hl Hs Hm Hi. rewrite Hs in Hl.
  destruct (lives_counts _ _ _ Hl Hm Hi) as [Hpos Hp]. destruct (lives_same c _ _ _ Hl eq_refl Hi) as [_ Hsame].
  split; [done|..]; destruct p as [|c' n|c']; try lia; intros Hu; apply Hp; lia.
Qed.

(** C31: Login codes are one-time: whatever calls the code store sees, in any order
    and at any time, the events at a hash follow the life cycle of a code, and the
    store holds a code exactly in the phase that the cycle is in, if at all.  So, at
    every moment between two issues at the hash, a code with a limit has been
    guessed at no more often than the limit allows, the right guess included, was
    accepted at most once, let an account be created at most once, only after it
    was accepted and only if it was issued for a number without an account; and
    every answer showed the code that was issued. *)
Theorem codes_are_proved_once hash s tr s' :
  code_trace s tr s' → cm s !! hash = None →
  (∃ p, lives NoCode (events_at hash tr) p ∧ in_phase p (cm s' !! hash))
  ∧ ∀ before c evs after,
      events_at hash tr = before ++ Issues c :: evs ++ after →
      SignUpVerified c = false → 0 < MaxAttempts c → Forall (λ ev, is_issue ev = false) evs →
      spent c evs.
Proof.
  intros Htr Hs. destruct (trace_lives s tr s' hash Htr Hs) as (p & Hl & Hp). split; [by exists p|].
  intros before c evs after E Hv Hm Hi. rewrite E in Hl.
  apply lives_app in Hl as (p0 & _ & Hl). rewrite app_comm_cons in Hl. apply lives_app in Hl as (p1 & Hl & _).
  change (Issues c :: evs) with ([Issues c] ++ evs) in Hl. apply lives_app in Hl as (pi & Hi0 & Hl).
  apply (lives_snoc_inv p0 []) in Hi0 as (p2 & H0 & Hstep). assert (pi = issued c) as -> by (by inversion Hstep).
  by eapply lives_spent.
Qed.

(** * Keys *)

(** C33: Keys, bindings, layers and authorizations stay consistent: in every history
    that starts with no keys and in which handshakes register keys, an
    authorization belongs to a live permanent key and shows that key's layer; a
    binding names a live temporary key, expires with it and leads to a live
    permanent key; binding fails only for the keys named, never for what is known
    of their layers, and never moves a temporary key to another permanent one; and
    while a session's layer row lives the message it rests on only gets newer. *)
Theorem auth_keys_stay_consistent s :
  key_run NewAuthKeyStore s →
  (∀ id a, authorizations s !! id = Some a →
     AuthKeyID a = id ∧ ∃ k, keys s !! id = Some k ∧ ak_ExpiresAt k = 0 ∧ az_Layer a = Layer k)
  ∧ (∀ t b, bindings s !! t = Some b →
     ∃ kt kp, keys s !! t = Some kt ∧ 0 < ak_ExpiresAt kt ∧ tb_ExpiresAt b = ak_ExpiresAt kt
       ∧ keys s !! PermAuthKeyID b = Some kp ∧ ak_ExpiresAt kp = 0)
  ∧ (∀ b e, (SaveWithState b s).1 = ERR e → e = ErrTempAuthKeyAlreadyBound ∨ e = ErrAuthKeyBindingInvalid)
  ∧ ∀ now op, key_op_ok op →
     (∀ t b b', bindings s !! t = Some b → bindings (perform_key now op s) !! t = Some b' → PermAuthKeyID b' = PermAuthKeyID b)
     ∧ (∀ key v v', live_layer now key.1 key.2 s = Some v → sessionLayers (perform_key now op s) !! key = Some v' →
         MessageID v < MessageID v' ∨ v' = v).
Proof.
  intros Hrun. destruct (key_run_ok _ _ Hrun (ex_intro _ (λ _, 0) (new_keys_ok _))) as [layer_of Hok]. split_and!.
  - intros id a Ha. destruct (ko_authorizations _ _ Hok id a Ha) as (? & k & ? & ? & Hl). eauto 6.
  - intros t b Hb. destruct (ko_bindings _ _ Hok t b Hb) as [_ (kt & Hkt & Ht & He) (kp & Hkp & Hp & _)]. exists kt, kp. auto.
  - intros b e. by apply (SaveWithState_errors layer_of).
  - intros now op _. split; [intros t b b'; apply perform_key_bindings|intros key v v'; apply perform_key_sessions].
Qed.

(** * A login, and a key with its temporary key *)

Module AuthDemo.

(** Calls with the times at which they are made. *)
Fixpoint converse (ops : list (Z * code_op)) (s : CodeStore) : list exchange * CodeStore :=
  match ops with
  | [] => ([], s)
  | (now, op) :: ops =>
      let '(ans, s1) := perform_code now op s in
      let '(tr, s2) := converse ops s1 in ((op, ans) :: tr, s2)
  end.

Lemma code_trace_app s tr s1 tr' s2 : code_trace s tr s1 → code_trace s1 tr' s2 → code_trace s (tr ++ tr') s2.
Proof.
  intros H1 H2. revert H1. induction H2 as [|s1 tr' s2 now op ans s3 _ IH E]; intros H1; [by rewrite app_nil_r|].
  rewrite app_assoc. eapply trace_snoc; eauto.
Qed.

Lemma converse_trace ops s : code_trace s (converse ops s).1 (converse ops s).2.
Proof.
  revert s. induction ops as [|[now op] ops IH]; intros s; cbn; [constructor|].
  destruct (perform_code now op s) as [ans s1] eqn:E. destruct (converse ops s1) as [tr s2] eqn:E2. cbn.
  apply (code_trace_app s [(op, ans)] s1 tr s2); [eapply (trace_snoc s []); [constructor|done]|].
  specialize (IH s1). by rewrite E2 in IH.
Qed.

Fixpoint operate (ops : list (Z * key_op)) (s : authKeyState) : authKeyState :=
  match ops with [] => s | (now, op) :: ops => operate ops (perform_key now op s) end.

Lemma operate_run ops s0 s :
  key_run s0 s → forallb (λ op : Z * key_op, match op.2 with KSave k => (Layer k =? 0) && (LayerObservationID k =? 0) | _ => true end) ops = true →
  key_run s0 (operate ops s).
Proof.
  revert s. induction ops as [|[now op] ops IH]; intros s Hs H; cbn in *; [done|]. bool_facts.
  apply IH; [|done]. apply key_run_step; [done|]. destruct op; try exact I. split; by bool_facts.
Qed.

Definition issued_code : PhoneCode := {|
  Version := 2; Revision := ""; IssuedUserID := 0; SignUpVerified := false; pc_Phone := "4915112345678"; Code := "12345";
  DeliveryID := ""; Channel := "phone"; Purpose := ""; pc_UserID := 0; pc_AuthKeyID := 0; SessionID := 0; Email := "";
  PendingEmail := ""; Attempts := 0; MaxAttempts := 5; VerifiedEmail := false; RequireSignUp := false;
  LoginEmailHash := ""; RecoveryBinding := ""; AccountDeletionHash := "" |}.

(** Two wrong guesses, the right one, again, and the sign-up, twice. *)
Definition sign_up_calls : list (Z * code_op) :=
  [(1, OpSet "r1" "h" issued_code 300); (2, OpVerifyLogin "r2" "h" "4915112345678" "11111" true 5);
   (3, OpVerifyLogin "r3" "h" "4915112345678" "22222" true 5); (4, OpVerifyLogin "r4" "h" "4915112345678" "12345" true 5);
   (5, OpVerifyLogin "r5" "h" "4915112345678" "12345" true 5); (6, OpConsumeSignUpVerified "h" "4915112345678");
   (7, OpConsumeSignUpVerified "h" "4915112345678")].

Definition later_events : list code_event :=
  [Rejects (with_state 1 false "r2" issued_code); Rejects (with_state 2 false "r3" issued_code);
   Accepts true (with_state 2 true "r4" issued_code); SignsUp (with_state 2 true "r4" issued_code)].

Lemma codes_are_proved_once_witness :
  events_at "h" (converse sign_up_calls NewCodeStore).1 = Issues issued_code :: later_events
  ∧ spent issued_code later_events.
Proof.
  assert (events_at "h" (converse sign_up_calls NewCodeStore).1 = Issues issued_code :: later_events) as E by (vm_compute; reflexivity).
  split; [exact E|].
  destruct (codes_are_proved_once "h" NewCodeStore (converse sign_up_calls NewCodeStore).1 (converse sign_up_calls NewCodeStore).2
    (converse_trace _ _) eq_refl) as [_ H].
  apply (H [] issued_code later_events []); [rewrite app_nil_r; exact E|reflexivity|reflexivity|repeat constructor].
Defined.

Definition key (id expiry : Z) : AuthKeyData := {|
  ak_ID := id; Value := [id]; ServerSalt := 9; ak_CreatedAt := 100; ak_ExpiresAt := expiry; Layer := 0;
  LayerObservationID := 0; ak_Client := no_client |}.

Definition row (id user : Z) : Authorization := {|
  AuthKeyID := id; UserID := user; Hash := 0; az_Layer := 0; az_Client := no_client; IP := "127.0.0.1";
  PasswordPending := false; az_CreatedAt := 0; ActiveAt := 0 |}.

Definition now0 : Z := 1000 * second.
(** A message id of that second. *)
Definition msg0 : Z := 1000 * 2 ^ 32 + 4.

Definition login_calls : list (Z * key_op) :=
  [(now0, KSave (key 1 0)); (now0, KSave (key 2 5000));
   (now0, KBindTemp {| TempAuthKeyID := 2; PermAuthKeyID := 1; Nonce := 3; TempSessionID := 4; tb_ExpiresAt := 5000; EncryptedMessage := [] |});
   (now0, KBind (row 1 777)); (now0, KAdvance 2 4 214 msg0)].

Definition logged_in : authKeyState := operate login_calls NewAuthKeyStore.

Lemma auth_keys_stay_consistent_witness :
  (λ a, (UserID a, az_Layer a)) <$> authorizations logged_in !! 1 = Some (777, 214)
  ∧ PermAuthKeyID <$> bindings logged_in !! 2 = Some 1
  ∧ ∀ a, authorizations logged_in !! 1 = Some a → AuthKeyID a = 1.
Proof.
  split; [vm_compute; reflexivity|]. split; [vm_compute; reflexivity|]. intros a Ha.
  destruct (auth_keys_stay_consistent logged_in) as (H & _).
  - apply operate_run; [constructor|reflexivity].
  - exact (proj1 (H 1 a Ha)).
Defined.

End AuthDemo.
