(* ===== verification/SignIn.v ===== *)
(** Signing in ([internal/app/auth/service.go]).

    A service method is a program of atomic store calls; between two of them
    anything else may happen.  The stores are those of [AuthCodes] and
    [AuthKeys], the users ([internal/store/memory/users.go]), the password
    settings and the secrets of bots.  A store that is not reached answers with
    an error and does nothing ([outage]); a canceled context has the same effect.
    What a call of a store has proved is written to a journal, which no method
    reads.

    Parameters: [phonenumbers], the providers that deliver codes, the message
    store that keeps the 777000 messages, the decryption of a binding's proof and
    the random source, as an oracle that is asked for the n-th draw.  The nil
    checks of optional dependencies are the fields of [Service].  Not modelled:
    the texts of messages and the reads that answer with client metadata. *)

From S2P Require Import Prelude GoStrings Programs AuthCodes AuthKeys.

Open Scope Z_scope.

#[local] Set Default Proof Using "Type".

Inductive auth_error :=
  | ErrStore                            (* a store call failed *)
  | ErrKey (e : auth_key_error)
  | ErrCodeExpired
  | ErrCodeInvalid
  | ErrEncryptedMessageInvalid
  | ErrExpiresAtInvalid
  | ErrTempAuthKeyEmpty
  | ErrTempKeyAlreadyBound
  | ErrAuthKeyPermEmpty
  | ErrLoginCodeDeliveryUnavailable
  | ErrLoginCodeDeliveryFailed (ambiguous : bool)
  | ErrExternal                         (* a provider or another service failed *)
  | ErrSenderNotConfigured
  | ErrPhoneNumberInvalid
  | ErrSystemUserLoginForbidden
  | ErrFirstNameInvalid
  | ErrBotTokenInvalid
  | ErrPasskeyInvalid
  | ErrPasskeyNotFound
  | ErrLoginTokenInvalid.

#[export] Instance auth_error_eq_dec : EqDecision auth_error.
Proof. solve_decision. Defined.

(** * Users *)

Record User := {
  u_ID : Z;
  AccessHash : Z;
  u_Phone : string;
  FirstName : string;
  LastName : string;
  u_Deleted : bool;
  u_Bot : bool;
  PremiumUntil : Z;
}.

Definition no_user : User := {|
  u_ID := 0; AccessHash := 0; u_Phone := ""; FirstName := ""; LastName := ""; u_Deleted := false; u_Bot := false;
  PremiumUntil := 0 |}.

#[export] Instance User_eq_dec : EqDecision User.
Proof. solve_decision. Defined.

Definition OfficialSystemUserID : Z := 777000.
Definition OfficialSystemPhone : string := "42777".
Definition BotFatherUserID : Z := 93372553.
Definition StickersBotUserID : Z := 1063110917.
Definition ChatBotUserID : Z := 1250000007.
Definition VerifyBotUserID : Z := 1250000011.
Definition VerifierBotUserID : Z := 1250000013.
Definition GifBotUserID : Z := 1250000017.
Definition SpamBotUserID : Z := 1250000021.

Definition MinCollectiblePhoneLength : Z := 7.
Definition MaxCollectiblePhoneLength : Z := 15.

(** ** Telephone numbers *)

(** The digits of a number without the separators that clients put in. *)
Fixpoint phone_digits (rs : list (option Z)) (seenDigit seenPlus : bool) : option (list Z) :=
  match rs with
  | [] => Some []
  | Some r :: rs =>
      if in_range 48 57 r then cons r <$> phone_digits rs true seenPlus
      else if r =? 43 then if seenPlus || seenDigit then None else phone_digits rs seenDigit true
      else if IsSpace r || (r =? 45) || (r =? 40) || (r =? 41) || (r =? 46) || (r =? 47) then phone_digits rs seenDigit seenPlus
      else None
  | None :: _ => None
  end.

Definition PhoneDigits (phone : string) : string :=
  match phone_digits (utf8_runes (bytes_of phone)) false false with Some ds => string_of ds | None => "" end.

(** [mtcrypto.BindAuthKeyInner]. *)
Record BindAuthKeyInner := {
  in_Nonce : Z;
  in_TempAuthKeyID : Z;
  in_PermAuthKeyID : Z;
  in_TempSessionID : Z;
  in_ExpiresAt : Z;
}.

(** What a delivery came to. *)
Inductive outcome := Sent | OutcomeUnknown | Refused.

Class Environment := {
  e164 : string → option string;               (* [phonenumbers]: the possible number's E.164 form, without the plus *)
  premium_bot : Z;                             (* [PremiumBotConfiguredUserID] *)
  random_bytes : nat → nat → list Z;           (* the n-th draw of so many bytes *)
  provider_outcome : nat → outcome;            (* [otpdelivery.Sender], at the n-th draw *)
  login_message_outcome : nat → outcome;       (* [LoginCodeDeliveryStore] *)
  login_email : nat → string → option (option string);   (* [LoginEmailByPhone] of the account service *)
  set_login_email : nat → Z → string → option ();        (* [SetLoginEmail] *)
  record_message : nat → Z → string → option ();         (* the message and the dialog of a new account *)
  decrypt_inner : list Z → Z → list Z → option BindAuthKeyInner;
                                               (* [decryptBindAuthKeyInner], with the key's value and id *)
}.

Section phones.
Context `{!Environment}.

Definition NormalizePhone (phone : string) : string :=
  let digits := PhoneDigits phone in
  if bool_decide (digits = "") then ""
  else if (MinCollectiblePhoneLength <=? len digits) && (len digits <=? MaxCollectiblePhoneLength) && String.prefix "888" digits
  then digits
  else if bool_decide (digits = OfficialSystemPhone) then digits
  else match e164 digits with
  | None => ""
  | Some canonical => if bool_decide (canonical = "") || (15 <? len canonical) then "" else canonical
  end.

Definition ValidPhone (phone : string) : bool :=
  let canonical := NormalizePhone phone in negb (bool_decide (canonical = "")) && bool_decide (canonical = phone).

(** [SystemUserByID]: the built-in accounts. *)
Definition IsSystemUserID (id : Z) : bool :=
  (id =? premium_bot) || (id =? OfficialSystemUserID) || (id =? BotFatherUserID) || (id =? StickersBotUserID)
  || (id =? ChatBotUserID) || (id =? VerifyBotUserID) || (id =? VerifierBotUserID) || (id =? GifBotUserID)
  || (id =? SpamBotUserID).

(** [SystemUserByPhone]: of the built-in accounts only 777000 has a number. *)
Definition systemLoginPhoneForbidden (phone : string) : bool :=
  bool_decide (NormalizePhone OfficialSystemPhone = NormalizePhone phone).

Definition systemUserLoginForbidden (u : User) : bool := u_Deleted u || IsSystemUserID (u_ID u).
End phones.

(** * The service and its world *)

Record Service := {
  fixedCode : string;
  codeTTL : Z;
  codeMaxAttempts : Z;
  has_passwords : bool;
  has_bots : bool;
  has_tempKeys : bool;
  has_loginCodeDelivery : bool;
  has_phoneCodeSender : bool;
  phoneCodeLength : Z;
  loginEmailEnabled : bool;
  loginEmailRequireSetup : bool;
  has_loginEmails : bool;
  has_loginEmailSender : bool;
  loginEmailCodeLength : Z;
  premium_until : Z → Z;                (* [time.Now().AddDate(0, months, 0)], 0 without a grant *)
  has_messages : bool;
}.

(** What the journal says. *)
Inductive event :=
  | ECode (x : exchange)
  | EOwner (phone : string) (owner : option User)
  | EKeys (temp perm : option AuthKeyData)
  | EPassword (userID : Z) (needed : bool)
  | EBotSecret (userID : Z) (secret : string)
  | ECreated (u : User)
  | EDelivered (userID : Z) (hash code : string)
  | EProvider (recipient code : string)
  | EBound (authKeyID userID : Z) (pending : bool)
  | EPasswordPassed (authKeyID userID : Z)
  | EBoundTemp (b : TempAuthKeyBinding).

Record world := {
  users : gmap Z User;
  nextUserID : Z;
  codes : CodeStore;
  auth : authKeyState;
  settings : gmap Z bool;                (* whether the account has a password *)
  bots : gmap Z string;
  clock : Z;
  draws : nat;
  outage : bool;
  journal : list event;
}.

Implicit Types (w : world).

Definition set_users us next w : world := {|
  users := us; nextUserID := next; codes := codes w; auth := auth w; settings := settings w; bots := bots w;
  clock := clock w; draws := draws w; outage := outage w; journal := journal w |}.
Definition set_codes cs w : world := {|
  users := users w; nextUserID := nextUserID w; codes := cs; auth := auth w; settings := settings w; bots := bots w;
  clock := clock w; draws := draws w; outage := outage w; journal := journal w |}.
Definition set_auth az w : world := {|
  users := users w; nextUserID := nextUserID w; codes := codes w; auth := az; settings := settings w; bots := bots w;
  clock := clock w; draws := draws w; outage := outage w; journal := journal w |}.
Definition set_settings st w : world := {|
  users := users w; nextUserID := nextUserID w; codes := codes w; auth := auth w; settings := st; bots := bots w;
  clock := clock w; draws := draws w; outage := outage w; journal := journal w |}.
Definition set_bots bs w : world := {|
  users := users w; nextUserID := nextUserID w; codes := codes w; auth := auth w; settings := settings w; bots := bs;
  clock := clock w; draws := draws w; outage := outage w; journal := journal w |}.
Definition drawn w : world := {|
  users := users w; nextUserID := nextUserID w; codes := codes w; auth := auth w; settings := settings w; bots := bots w;
  clock := clock w; draws := S (draws w); outage := outage w; journal := journal w |}.
Definition note (evs : list event) w : world := {|
  users := users w; nextUserID := nextUserID w; codes := codes w; auth := auth w; settings := settings w; bots := bots w;
  clock := clock w; draws := draws w; outage := outage w; journal := journal w ++ evs |}.
Definition set_environment (now : Z) (down : bool) w : world := {|
  users := users w; nextUserID := nextUserID w; codes := codes w; auth := auth w; settings := settings w; bots := bots w;
  clock := now; draws := draws w; outage := down; journal := journal w |}.

(** ** Steps

    [ask f] is a store call that fails while the stores are not reached. *)

Abbreviation program A := (prog world A).
Abbreviation result A := (prog world (res auth_error A)).

Declare Scope result_scope.
Delimit Scope result_scope with result.

Definition ebind {A B} (p : result A) (k : A → result B) : result B :=
  p ≫= λ r, match r with OK a => k a | ERR e => Ret (ERR e) end.
Notation "x ←! p ; k" := (ebind p (λ x, k)) (at level 20, p at level 100, k at level 200, right associativity) : result_scope.
Notation "p ;;! k" := (ebind p (λ _, k)) (at level 100, k at level 200, right associativity) : result_scope.
Open Scope result_scope.

Section steps.
Context `{!Environment}.

Definition ok {A} (a : A) : result A := Ret (OK a).
Definition fail {A} (e : auth_error) : result A := Ret (ERR e).
(** [if b { return e }] *)
Definition guard (b : bool) (e : auth_error) : result () := if b then fail e else ok tt.

Definition ask {A} (f : world → A * world) : result A :=
  Step (λ w, Some (if outage w then (ERR ErrStore, w) else let '(a, w) := f w in (OK a, w))) Ret.

Definition read {A} (f : world → A) : program A := Step (λ w, Some (f w, w)) Ret.
Definition time_now : program Z := read clock.
(** [time.Now().Unix()] *)
Definition unix : program Z := read (λ w, clock w / second).

(** A call of a service that is not modelled; [None] is an error. *)
Definition external {A} (f : nat → option A) : result A :=
  Step (λ w, Some (f (draws w), drawn w)) (λ o, Ret (match o with Some a => OK a | None => ERR ErrExternal end)).

Definition random (n : nat) : program (list Z) := Step (λ w, Some (random_bytes (draws w) n, drawn w)) Ret.

Definition hex_char (n : Z) : Z := if n <? 10 then 48 + n else 87 + n.
Definition hex (bs : list Z) : string := string_of (bs ≫= λ b, [hex_char (b / 16); hex_char (b mod 16)]).

Definition randomHex (n : nat) : program string := bs ← random n; Ret (hex bs).
Definition randomDigits (n : Z) : program string :=
  bs ← random (Z.to_nat (if n <=? 0 then 6 else n)); Ret (string_of ((λ v, 48 + v mod 10) <$> bs)).
Definition NewDeliveryID : program string := bs ← random 16; Ret ("otp_" ++ hex bs)%string.
Definition randomInt64 : program Z :=
  bs ← random 8; Ret (wrap64 (foldr (λ b acc, b + 256 * acc) 0 bs)).

(** Codes.  The methods that change a record draw its revision. *)
Definition code_step (op : code_op) w : code_answer * world :=
  let '(ans, cs) := perform_code (clock w) op (codes w) in (ans, note [ECode (op, ans)] (set_codes cs w)).

Definition revised_step (op : string → code_op) w : code_answer * world :=
  code_step (op (hex (random_bytes (draws w) 16))) (drawn w).

Definition found_code (ans : code_answer) : option PhoneCode := match ans with Found c => c | _ => None end.
Definition verified_code (ans : code_answer) : LoginCodeVerifyResult := match ans with Verified r => r | _ => missing end.

Definition codes_Get (hash : string) : result (option PhoneCode) := ans ←! ask (code_step (OpGet hash)); ok (found_code ans).
Definition codes_Set (hash : string) (c : PhoneCode) (ttl : Z) : result () :=
  ask (revised_step (λ revision, OpSet revision hash c ttl)) ;;! ok tt.
Definition codes_Del (hash : string) : result () := ask (code_step (OpDel hash)) ;;! ok tt.
Definition codes_VerifyLogin (hash phone guess : string) (keep : bool) (default : Z) : result LoginCodeVerifyResult :=
  ans ←! ask (revised_step (λ revision, OpVerifyLogin revision hash phone guess keep default)); ok (verified_code ans).
Definition codes_Take (hash phone : string) : result (option PhoneCode) :=
  ans ←! ask (code_step (OpTakeLoginCode hash phone)); ok (found_code ans).
Definition codes_ConsumeSignUp (hash phone : string) : result (option PhoneCode) :=
  ans ←! ask (code_step (OpConsumeSignUpVerified hash phone)); ok (found_code ans).
Definition codes_ConsumeScoped (hash : string) (scope : PhoneCodeScope) : result (option PhoneCode) :=
  ans ←! ask (code_step (OpConsumeScoped hash scope)); ok (found_code ans).

(** Calls whose result the source drops. *)
Definition ignore {A} (p : result A) : result () := p ≫= λ _, ok tt.

Definition invalidateLoginCodeDetached (hash phone : string) : result () :=
  ignore (ask (code_step (OpInvalidateLoginCode hash phone))).

(** Users. *)
Definition find_phone (phone : string) (us : gmap Z User) : option User :=
  snd <$> List.find (λ kv : Z * User, negb (u_Deleted kv.2) && bool_decide (u_Phone kv.2 = phone)) (map_to_list us).

Definition currentPhoneOwner (phone : string) : result (option User) :=
  ask (λ w, let owner := if bool_decide (phone = "") then None else find_phone phone (users w) in
            (owner, note [EOwner phone owner] w)).

Definition users_ByID (id : Z) : result (option User) := ask (λ w, (users w !! id, w)).

Definition with_ID (id : Z) (u : User) : User := {|
  u_ID := id; AccessHash := AccessHash u; u_Phone := u_Phone u; FirstName := FirstName u; LastName := LastName u;
  u_Deleted := u_Deleted u; u_Bot := u_Bot u; PremiumUntil := PremiumUntil u |}.

Definition users_Create (u : User) : result User :=
  ask (λ w, let u := with_ID (nextUserID w) u in
            (u, note [ECreated u] (set_users (<[u_ID u := u]> (users w)) (nextUserID w + 1) w))).

Definition owner_id (o : option User) : Z := match o with Some u => u_ID u | None => 0 end.

(** Keys and authorizations. *)
Definition keys_Get (id : Z) : result (option AuthKeyData) := ask (λ w, (Get id (auth w), w)).

Definition keys_LoadBindingKeys (temp perm : Z) : result (option AuthKeyData * option AuthKeyData) :=
  ask (λ w, let pair := LoadBindingKeys temp perm (auth w) in (pair, note [EKeys pair.1 pair.2] w)).

Definition auths_ByAuthKey (id : Z) : result (option Authorization) := ask (λ w, (ByAuthKey id (auth w), w)).

Definition auths_Delete (id : Z) : result () := ask (λ w, (tt, set_auth (DeleteAuthorization id (auth w)) w)).

(** A method whose own errors come with its answer. *)
Definition flatten {A} (p : result (res auth_key_error A)) : result A :=
  r ←! p; match r with OK a => ok a | ERR e => fail (ErrKey e) end.

Definition auths_Bind (a : Authorization) : result () :=
  flatten (ask (λ w, match Bind (clock w) a (auth w) with
                     | (OK _, az) => (OK tt, note [EBound (AuthKeyID a) (UserID a) (PasswordPending a)] (set_auth az w))
                     | (ERR e, az) => (ERR e, set_auth az w)
                     end)).

Definition auths_MarkPasswordPassed (id expectedUserID : Z) : result () :=
  flatten (ask (λ w, match MarkPasswordPassed (clock w) id expectedUserID (auth w) with
                     | (OK _, az) => (OK tt, note [EPasswordPassed id expectedUserID] (set_auth az w))
                     | (ERR e, az) => (ERR e, set_auth az w)
                     end)).

Definition bots_GetBot (id : Z) : result (option string) :=
  ask (λ w, (bots w !! id, match bots w !! id with Some secret => note [EBotSecret id secret] w | None => w end)).

Definition passwords_HasPassword (id : Z) : result bool :=
  ask (λ w, let needed := default false (settings w !! id) in (needed, note [EPassword id needed] w)).

End steps.
