(* ===== verification/SignInCodes.v ===== *)
(** Issuing, resending and withdrawing login codes
    ([internal/app/auth/service.go]).

    The request that a provider receives is its recipient and the code.  A
    failure that is only reported to an observer is dropped. *)

From S2P Require Import Prelude GoStrings Programs AuthCodes AuthKeys SignIn.

Open Scope Z_scope.
Open Scope result_scope.

#[local] Set Default Proof Using "Type".

Section codes.
Context `{!Environment} (s : Service).

(** * Delivery *)

Definition issuedOwnerMatches (phone : string) (issuedUserID : Z) : result bool :=
  current ←! currentPhoneOwner phone; ok (owner_id current =? issuedUserID).

(** A commit that may have happened keeps the code. *)
Definition rollbackUndeliveredCode {A} (phoneCodeHash : string) (cause : auth_error) : result A :=
  match cause with
  | ErrLoginCodeDeliveryFailed true => fail cause
  | _ => codes_Del phoneCodeHash ≫= λ _, fail cause
  end.

Definition ensureIssuedOwnerAfterSet (hash : string) (rec : PhoneCode) : result () :=
  matches ← issuedOwnerMatches (pc_Phone rec) (IssuedUserID rec);
  match matches with
  | OK true => ok tt
  | OK false => rollbackUndeliveredCode hash ErrCodeInvalid
  | ERR e => rollbackUndeliveredCode hash e
  end.

(** [p], rolling the code back where it fails. *)
Definition or_rollback {A} (hash : string) (p : result A) : result A :=
  p ≫= λ r, match r with OK a => ok a | ERR e => rollbackUndeliveredCode hash e end.

(** The 777000 message of an existing account. *)
Definition deliverLoginCode (userID : Z) (phoneCodeHash code : string) : result () :=
  if negb (has_loginCodeDelivery s) then fail ErrLoginCodeDeliveryUnavailable
  else
    Step (λ w, Some (if outage w then Refused else login_message_outcome (draws w),
                     drawn (match outage w, login_message_outcome (draws w) with
                            | true, _ | _, Refused => w
                            | _, _ => note [EDelivered userID phoneCodeHash code] w
                            end)))
      (λ o, match o with
            | Sent => ok tt
            | OutcomeUnknown => fail (ErrLoginCodeDeliveryFailed true)
            | Refused => fail (ErrLoginCodeDeliveryFailed false)
            end).

(** [sender.Deliver] *)
Definition deliver (recipient code : string) : program outcome :=
  Step (λ w, Some (provider_outcome (draws w),
                   drawn (match provider_outcome (draws w) with Refused => w | _ => note [EProvider recipient code] w end))) Ret.

Definition deliverOTP (recipient code : string) : result () :=
  o ← deliver recipient code; match o with Refused => fail ErrExternal | _ => ok tt end.

Definition deliverOTPWithAppFallback (recipient code : string) : result () := ignore (deliverOTP recipient code).

(** An existing account has its message before anything goes to a provider. *)
Definition deliver_to_account (hash : string) (rec : PhoneCode) : result () :=
  if IssuedUserID rec =? 0 then ok tt
  else or_rollback hash (deliverLoginCode (IssuedUserID rec) hash (Code rec)) ;;! ensureIssuedOwnerAfterSet hash rec.

Definition deliver_to_provider (hash recipient : string) (rec : PhoneCode) : result () :=
  if negb (IssuedUserID rec =? 0) then deliverOTPWithAppFallback recipient (Code rec)
  else or_rollback hash (deliverOTP recipient (Code rec)).

(** * Issuing *)

Definition login_code (issued : Z) (phone code deliveryID channel email : string) : PhoneCode := {|
  Version := PhoneCodeVersionCurrent; Revision := ""; IssuedUserID := issued; SignUpVerified := false;
  pc_Phone := phone; Code := code; DeliveryID := deliveryID; Channel := channel; Purpose := ""; pc_UserID := 0;
  pc_AuthKeyID := 0; SessionID := 0; Email := email; PendingEmail := ""; Attempts := 0; MaxAttempts := codeMaxAttempts s;
  VerifiedEmail := false; RequireSignUp := false; LoginEmailHash := ""; RecoveryBinding := ""; AccountDeletionHash := "" |}.

(** The code of a number: the fixed one, or a random one for the provider. *)
Definition phone_code_parts : program (string * string * string) :=
  if has_phoneCodeSender s then
    code ← randomDigits (phoneCodeLength s); deliveryID ← NewDeliveryID; Ret (code, deliveryID, PhoneCodeChannelSMS)
  else Ret (fixedCode s, ""%string, PhoneCodeChannelPhone).

Definition createPhoneCode (phone : string) (existingUserID : Z) : result string :=
  hash ← randomHex 8;
  '(code, deliveryID, channel) ← phone_code_parts;
  let rec := login_code existingUserID phone code deliveryID channel "" in
  codes_Set hash rec (codeTTL s) ;;!
  ensureIssuedOwnerAfterSet hash rec ;;!
  deliver_to_account hash rec ;;!
  if has_phoneCodeSender s then
    deliver_to_provider hash phone rec ;;!
    ensureIssuedOwnerAfterSet hash rec ;;!
    ok hash
  else ok hash.

Definition createSetupRequiredCode (phone : string) (issuedUserID : Z) : result string :=
  hash ← randomHex 8;
  let rec := login_code issuedUserID phone "" "" PhoneCodeChannelEmailSetupRequired "" in
  codes_Set hash rec (codeTTL s) ;;!
  ensureIssuedOwnerAfterSet hash rec ;;!
  ok hash.

Definition createEmailLoginCode (phone email : string) (issuedUserID : Z) : result string :=
  hash ← randomHex 8;
  code ← randomDigits (loginEmailCodeLength s);
  deliveryID ← NewDeliveryID;
  let rec := login_code issuedUserID phone code deliveryID PhoneCodeChannelEmailLogin (TrimSpace email) in
  codes_Set hash rec (codeTTL s) ;;!
  ensureIssuedOwnerAfterSet hash rec ;;!
  deliver_to_account hash rec ;;!
  if negb (has_loginEmailSender s) then
    if negb (issuedUserID =? 0) then ok hash else rollbackUndeliveredCode hash ErrSenderNotConfigured
  else
    deliver_to_provider hash (Email rec) rec ;;!
    ensureIssuedOwnerAfterSet hash rec ;;!
    ok hash.

Definition SendCode (phone : string) : result string :=
  let phone := NormalizePhone phone in
  guard (negb (ValidPhone phone)) ErrPhoneNumberInvalid ;;!
  guard (systemLoginPhoneForbidden phone) ErrSystemUserLoginForbidden ;;!
  existing ←! currentPhoneOwner phone;
  guard (match existing with Some u => systemUserLoginForbidden u | None => false end) ErrSystemUserLoginForbidden ;;!
  let issuedUserID := owner_id existing in
  if loginEmailEnabled s && has_loginEmails s then
    email ←! external (λ n, login_email n phone);
    match email with
    | Some email =>
        if negb (bool_decide (TrimSpace email = "")) then createEmailLoginCode phone email issuedUserID
        else if loginEmailRequireSetup s then createSetupRequiredCode phone issuedUserID
        else createPhoneCode phone issuedUserID
    | None =>
        if loginEmailRequireSetup s then createSetupRequiredCode phone issuedUserID
        else createPhoneCode phone issuedUserID
    end
  else createPhoneCode phone issuedUserID.

(** * What a code is delivered by *)

Inductive AuthCodeDeliveryKind :=
  AuthCodeDeliveryPhone | AuthCodeDeliverySMS | AuthCodeDeliveryEmail | AuthCodeDeliveryEmailSetupRequired.

Record AuthCodeDelivery := { Kind : AuthCodeDeliveryKind; EmailPattern : string; Length : Z }.

(** [strings.Index(email, "@")] is where the local part ends. *)
Definition MaskEmail (email : string) : string :=
  match cut_at (Ascii.ascii_of_nat 64) email with
  | Some (name, domain) =>
      if len name <=? 1 then email
      else (String.substring 0 1 name ++ "***" ++ String.substring (String.length name - 1) 1 name ++ "@" ++ domain)%string
  | None => email
  end.

Definition codeDelivery (rec : PhoneCode) : AuthCodeDelivery :=
  let sent kind pattern n := {| Kind := kind; EmailPattern := pattern; Length := n |} in
  let length := len (Code rec) in
  if bool_decide (Purpose rec = PhoneCodePurposeChangePhone) then sent AuthCodeDeliverySMS "" length
  else if bool_decide (Channel rec = PhoneCodeChannelSMS) then sent AuthCodeDeliverySMS "" length
  else if bool_decide (Channel rec = PhoneCodeChannelEmailLogin) then sent AuthCodeDeliveryEmail (MaskEmail (Email rec)) length
  else if bool_decide (Channel rec = PhoneCodeChannelEmailSetupRequired) then sent AuthCodeDeliveryEmailSetupRequired "" 0
  else sent AuthCodeDeliveryPhone "" length.

Definition CodeDelivery (phoneCodeHash : string) : result (option AuthCodeDelivery) :=
  rec ←! codes_Get phoneCodeHash; ok (codeDelivery <$> rec).

(** * Resending *)

(** [rec.Code = ...], [rec.DeliveryID = ...], [rec.Channel = ...], [rec.Attempts = 0]
    and a limit where there is none. *)
Definition resent (code deliveryID channel : string) (rec : PhoneCode) : PhoneCode := {|
  Version := Version rec; Revision := Revision rec; IssuedUserID := IssuedUserID rec; SignUpVerified := SignUpVerified rec;
  pc_Phone := pc_Phone rec; Code := code; DeliveryID := deliveryID; Channel := channel; Purpose := Purpose rec;
  pc_UserID := pc_UserID rec; pc_AuthKeyID := pc_AuthKeyID rec; SessionID := SessionID rec; Email := Email rec;
  PendingEmail := PendingEmail rec; Attempts := 0;
  MaxAttempts := if MaxAttempts rec <=? 0 then codeMaxAttempts s else MaxAttempts rec;
  VerifiedEmail := VerifiedEmail rec; RequireSignUp := RequireSignUp rec; LoginEmailHash := LoginEmailHash rec;
  RecoveryBinding := RecoveryBinding rec; AccountDeletionHash := AccountDeletionHash rec |}.

Definition recreateChangePhoneCode (rec : PhoneCode) : result string :=
  hash ← randomHex 8;
  '(code, deliveryID, channel) ← phone_code_parts;
  let rec := resent code deliveryID channel rec in
  codes_Set hash rec (codeTTL s) ;;!
  if has_phoneCodeSender s then
    deliverOTP (pc_Phone rec) (Code rec) ≫= λ r,
      match r with
      | OK _ => ok hash
      | ERR e => codes_ConsumeScoped hash (Scope rec) ≫= λ _, fail e
      end
  else ok hash.

(** [p]'s code, or [ErrCodeExpired] where there is none. *)
Definition or_expired {A} (p : result (option A)) : result A :=
  a ←! p; match a with Some a => ok a | None => fail ErrCodeExpired end.

(** The code's owner is still who it was issued for, or else the code goes. *)
Definition check_issued_owner (hash phone : string) (rec : PhoneCode) : result () :=
  matches ←! issuedOwnerMatches phone (IssuedUserID rec);
  if matches : bool then ok tt else invalidateLoginCodeDetached hash phone ;;! fail ErrCodeInvalid.

(** The checks that resending and canceling share; the code is consumed, and is
    that of a changed number on the left. *)
Definition take_code (authKeyID : Z) (phone phoneCodeHash : string) : result (PhoneCode + PhoneCode) :=
  rec ←! or_expired (codes_Get phoneCodeHash);
  guard (negb (bool_decide (pc_Phone rec = phone))) ErrCodeInvalid ;;!
  if bool_decide (Purpose rec = PhoneCodePurposeChangePhone) then
    guard ((authKeyID =? 0) || negb (pc_AuthKeyID rec =? authKeyID)) ErrCodeInvalid ;;!
    consumed ←! or_expired (codes_ConsumeScoped phoneCodeHash (Scope rec)); ok (inl consumed)
  else if negb (Version rec =? PhoneCodeVersionCurrent) then
    ignore (codes_Take phoneCodeHash phone) ;;! fail ErrCodeExpired
  else
    check_issued_owner phoneCodeHash phone rec ;;!
    consumed ←! or_expired (codes_Take phoneCodeHash phone); ok (inr consumed).

Definition resendCode (authKeyID : Z) (phone phoneCodeHash : string) : result string :=
  let phone := NormalizePhone phone in
  taken ←! take_code authKeyID phone phoneCodeHash;
  match taken with
  | inl consumed => recreateChangePhoneCode consumed
  | inr rec =>
      check_issued_owner phoneCodeHash phone rec ;;!
      if bool_decide (Channel rec = PhoneCodeChannelEmailLogin) && negb (bool_decide (TrimSpace (Email rec) = ""))
      then createEmailLoginCode phone (Email rec) (IssuedUserID rec)
      else if bool_decide (Channel rec = PhoneCodeChannelEmailSetupRequired)
      then createSetupRequiredCode phone (IssuedUserID rec)
      else
        guard (negb (bool_decide (Channel rec = PhoneCodeChannelPhone)) && negb (bool_decide (Channel rec = PhoneCodeChannelSMS)))
          ErrCodeInvalid ;;!
        createPhoneCode phone (IssuedUserID rec)
  end.

Definition cancelCode (authKeyID : Z) (phone phoneCodeHash : string) : result () :=
  let phone := NormalizePhone phone in take_code authKeyID phone phoneCodeHash ;;! ok tt.

(** * Recovering from a lost login e-mail *)

Definition LoginEmailResetAvailable : bool := has_phoneCodeSender s.

(** The only owner of the number, who may sign in. *)
Definition ConsumeLoginEmailReset (phone phoneCodeHash : string) : result Z :=
  guard (negb LoginEmailResetAvailable) ErrCodeInvalid ;;!
  let phone := NormalizePhone phone in
  rec ←! or_expired (codes_Get phoneCodeHash);
  if negb (Version rec =? PhoneCodeVersionCurrent) then ignore (codes_Take phoneCodeHash phone) ;;! fail ErrCodeExpired
  else
    guard (negb (bool_decide (Purpose rec = "")) || negb (bool_decide (pc_Phone rec = phone))
           || negb (bool_decide (Channel rec = PhoneCodeChannelEmailLogin)) || SignUpVerified rec) ErrCodeInvalid ;;!
    before ←! currentPhoneOwner phone;
    if match before with Some u => systemUserLoginForbidden u | None => true end
       || (IssuedUserID rec =? 0) || negb (IssuedUserID rec =? owner_id before)
    then invalidateLoginCodeDetached phoneCodeHash phone ;;! fail ErrCodeInvalid
    else
      consumed ←! or_expired (codes_Take phoneCodeHash phone);
      guard (negb (bool_decide (Channel consumed = PhoneCodeChannelEmailLogin))
             || negb (IssuedUserID consumed =? owner_id before)) ErrCodeInvalid ;;!
      after ←! currentPhoneOwner phone;
      guard (negb (bool_decide (is_Some after)) || negb (owner_id after =? owner_id before)) ErrCodeInvalid ;;!
      ok (owner_id before).

Definition SendPhoneCodeAfterLoginEmailReset (phone : string) (expectedUserID : Z) : result string :=
  let phone := NormalizePhone phone in
  guard (negb (ValidPhone phone)) ErrPhoneNumberInvalid ;;!
  guard ((expectedUserID =? 0) || systemLoginPhoneForbidden phone) ErrCodeInvalid ;;!
  owner ←! currentPhoneOwner phone;
  guard (match owner with Some u => negb (u_ID u =? expectedUserID) || systemUserLoginForbidden u | None => true end)
    ErrCodeInvalid ;;!
  createPhoneCode phone expectedUserID.

End codes.
