(* ===== verification/SignInService.v ===== *)
(** Signing in, signing up and out, and binding temporary keys
    ([internal/app/auth/service.go]), and the calls of the service.

    [NewService] always has its users, authorizations, codes and auth keys; the
    other dependencies may be missing.  An auth key id is never absent, so the
    guards against the zero key are about the key 0. *)

From S2P Require Import Prelude GoStrings Programs AuthCodes AuthKeys AuthKeysInv SignIn SignInCodes.

Open Scope Z_scope.
Open Scope result_scope.

#[local] Set Default Proof Using "Type".

Section service.
Context `{!Environment} (s : Service).

(** * Binding a key to a user *)

Definition with_login (userID : Z) (pending : bool) (a : Authorization) : Authorization := {|
  AuthKeyID := AuthKeyID a; UserID := userID; Hash := Hash a; az_Layer := az_Layer a; az_Client := az_Client a;
  IP := IP a; PasswordPending := pending; az_CreatedAt := az_CreatedAt a; ActiveAt := ActiveAt a |}.

(** The user, if it may sign in. *)
Definition login_user (userID : Z) (absent : auth_error) : result User :=
  u ←! users_ByID userID;
  match u with
  | None => fail absent
  | Some u => guard (systemUserLoginForbidden u) ErrSystemUserLoginForbidden ;;! ok u
  end.

Definition bind (a : Authorization) (userID : Z) (pending : bool) : result () :=
  guard (userID =? 0) ErrSystemUserLoginForbidden ;;!
  login_user userID ErrSystemUserLoginForbidden ;;!
  key ←! keys_Get (AuthKeyID a);
  guard (match key with Some k => negb (ak_ExpiresAt k =? 0) | None => true end) ErrAuthKeyPermEmpty ;;!
  auths_Bind (with_login userID pending a) ≫= λ r,
    match r with
    | ERR (ErrKey ErrAuthKeyNotPermanent) => fail ErrAuthKeyPermEmpty
    | r => Ret r
    end.

Definition passwordNeeded (userID : Z) : result bool :=
  if has_passwords s then passwords_HasPassword userID else ok false.

(** * Signing in with a code *)

(** What an accepted code leads to; [NeedPassword] is the error
    SESSION_PASSWORD_NEEDED, which comes with the user. *)
Inductive signed_in := SignedIn (u : User) | NeedPassword (u : User) | NeedSignUp.

Definition finishSignIn (a : Authorization) (existing : User) : result signed_in :=
  guard (systemUserLoginForbidden existing) ErrSystemUserLoginForbidden ;;!
  needed ←! passwordNeeded (u_ID existing);
  bind a (u_ID existing) needed ;;!
  ok (if needed : bool then NeedPassword existing else SignedIn existing).

(** A code that was already accepted for a sign-up is accepted again. *)
Definition verify_kept (rec : PhoneCode) (beforeFound : bool) (phone phoneCodeHash guess : string)
    : result (PhoneCode * option User) :=
  guard (beforeFound || negb (IssuedUserID rec =? 0) || negb (bool_decide (Code rec = guess))) ErrCodeInvalid ;;!
  after ←! currentPhoneOwner phone;
  match after with
  | Some _ => invalidateLoginCodeDetached phoneCodeHash phone ;;! fail ErrCodeInvalid
  | None => ok (rec, None)
  end.

Definition verify_now (rec : PhoneCode) (before : option User) (phone phoneCodeHash guess : string)
    : result (PhoneCode * option User) :=
  r ←! codes_VerifyLogin phoneCodeHash phone guess (negb (bool_decide (is_Some before))) (codeMaxAttempts s);
  after ←! currentPhoneOwner phone;
  let recordOwnerMismatch := negb (bool_decide (Status r = LoginCodeVerifyMissing))
                             && negb (IssuedUserID (vr_Record r) =? IssuedUserID rec) in
  if negb (owner_id before =? owner_id after) || recordOwnerMismatch then
    invalidateLoginCodeDetached phoneCodeHash phone ;;! fail ErrCodeInvalid
  else match Status r with
  | LoginCodeVerifyMissing => fail ErrCodeExpired
  | LoginCodeVerifyInvalid => fail ErrCodeInvalid
  | LoginCodeVerifyAccepted =>
      guard (negb (Version (vr_Record r) =? PhoneCodeVersionCurrent) || negb (bool_decide (pc_Phone (vr_Record r) = phone))
             || negb (IssuedUserID (vr_Record r) =? owner_id after)) ErrCodeInvalid ;;!
      guard (match after with Some u => systemUserLoginForbidden u | None => false end) ErrSystemUserLoginForbidden ;;!
      ok (vr_Record r, after)
  end.

Definition verifyLoginCode (phone phoneCodeHash guess : string) : result (PhoneCode * option User) :=
  rec ←! or_expired (codes_Get phoneCodeHash);
  if negb (Version rec =? PhoneCodeVersionCurrent) then ignore (codes_Take phoneCodeHash phone) ;;! fail ErrCodeExpired
  else
    guard (negb (bool_decide (pc_Phone rec = phone)) || negb (bool_decide (Purpose rec = ""))) ErrCodeInvalid ;;!
    guard (negb (LoginCodeChannelVerifiable (Channel rec))) ErrCodeInvalid ;;!
    before ←! currentPhoneOwner phone;
    guard (match before with Some u => systemUserLoginForbidden u | None => false end) ErrSystemUserLoginForbidden ;;!
    if negb (IssuedUserID rec =? owner_id before) then
      invalidateLoginCodeDetached phoneCodeHash phone ;;! fail ErrCodeInvalid
    else if SignUpVerified rec then verify_kept rec (bool_decide (is_Some before)) phone phoneCodeHash guess
    else verify_now rec before phone phoneCodeHash guess.

Definition SignIn (a : Authorization) (phone phoneCodeHash guess : string) : result signed_in :=
  let phone := NormalizePhone phone in
  guard (systemLoginPhoneForbidden phone) ErrSystemUserLoginForbidden ;;!
  verified ←! verifyLoginCode phone phoneCodeHash guess;
  match verified.2 with
  | None => ok NeedSignUp
  | Some existing => finishSignIn a existing
  end.

Definition SignInWithEmail (a : Authorization) (phone phoneCodeHash guess : string) : result signed_in :=
  SignIn a phone phoneCodeHash (TrimSpace guess).

(** * Signing up *)

Definition new_user (accessHash : Z) (phone firstName lastName : string) (premium : Z) : User := {|
  u_ID := 0; AccessHash := accessHash; u_Phone := phone; FirstName := firstName; LastName := lastName;
  u_Deleted := false; u_Bot := false; PremiumUntil := premium |}.

(** A number that belongs to nobody yet. *)
Definition unowned (phone : string) (taken : result ()) : result () :=
  current ←! currentPhoneOwner phone;
  match current with Some _ => taken ;;! fail ErrCodeInvalid | None => ok tt end.

(** The mark that the right code has left, which is consumed. *)
Definition sign_up_code (phone phoneCodeHash : string) : result PhoneCode :=
  rec ←! or_expired (codes_Get phoneCodeHash);
  if negb (Version rec =? PhoneCodeVersionCurrent) then ignore (codes_ConsumeSignUp phoneCodeHash phone) ;;! fail ErrCodeExpired
  else
    guard (negb (bool_decide (pc_Phone rec = phone)) || negb (bool_decide (Purpose rec = ""))) ErrCodeInvalid ;;!
    guard (negb (SignUpVerified rec)) ErrCodeInvalid ;;!
    if negb (IssuedUserID rec =? 0) then invalidateLoginCodeDetached phoneCodeHash phone ;;! fail ErrCodeInvalid
    else
      guard (negb (LoginCodeChannelVerifiable (Channel rec))) ErrCodeInvalid ;;!
      guard (loginEmailRequireSetup s && negb (VerifiedEmail rec) && bool_decide (TrimSpace (PendingEmail rec) = ""))
        ErrCodeInvalid ;;!
      unowned phone (invalidateLoginCodeDetached phoneCodeHash phone) ;;!
      rec ←! or_expired (codes_ConsumeSignUp phoneCodeHash phone);
      guard (negb (IssuedUserID rec =? 0) || negb (SignUpVerified rec) || negb (LoginCodeChannelVerifiable (Channel rec)))
        ErrCodeInvalid ;;!
      unowned phone (ok tt) ;;!
      ok rec.

(** The end of the premium that a new account is given. *)
Definition premium_grant : program Z := read (λ w, premium_until s (clock w)).

Definition SignUp (a : Authorization) (phone phoneCodeHash firstName lastName : string) : result User :=
  let phone := NormalizePhone phone in
  guard (negb (ValidPhone phone)) ErrPhoneNumberInvalid ;;!
  guard (systemLoginPhoneForbidden phone) ErrSystemUserLoginForbidden ;;!
  let firstName := TrimSpace firstName in
  let lastName := TrimSpace lastName in
  guard (bool_decide (firstName = "") || (64 <? RuneCountInString firstName) || (64 <? RuneCountInString lastName))
    ErrFirstNameInvalid ;;!
  rec ←! sign_up_code phone phoneCodeHash;
  accessHash ← randomInt64;
  premium ← premium_grant;
  u ←! users_Create (new_user accessHash phone firstName lastName premium);
  (if VerifiedEmail rec && negb (bool_decide (TrimSpace (PendingEmail rec) = "")) && has_loginEmails s
   then external (λ n, set_login_email n (u_ID u) (PendingEmail rec)) else ok tt) ;;!
  bind a (u_ID u) (PasswordPending a) ;;!
  (if bool_decide (Channel rec = PhoneCodeChannelPhone) && has_messages s
   then external (λ n, record_message n (u_ID u) (Code rec)) else ok tt) ;;!
  ok u.

(** * Other proofs of identity *)

Definition ParseBotToken (token : string) : option (Z * string) :=
  match cut_at (Ascii.ascii_of_nat 58) token with
  | Some (idPart, secret) =>
      if bool_decide (idPart = "") || bool_decide (secret = "") then None
      else match ParseInt idPart with
           | Some id => if id <=? 0 then None else Some (id, secret)
           | None => None
           end
  | None => None
  end.

Definition secret_matches (stored : option string) (secret : string) : bool :=
  match stored with
  | Some stored => negb (bool_decide (stored = "")) && bool_decide (stored = secret)
  | None => false
  end.

Definition SignInBot (a : Authorization) (token : string) : result User :=
  match (if has_bots s then ParseBotToken (TrimSpace token) else None) with
  | None => fail ErrBotTokenInvalid
  | Some (botUserID, secret) =>
      stored ←! bots_GetBot botUserID;
      guard (negb (secret_matches stored secret)) ErrBotTokenInvalid ;;!
      u ←! users_ByID botUserID;
      match u with
      | None => fail ErrBotTokenInvalid
      | Some u =>
          guard (negb (u_Bot u) || systemUserLoginForbidden u) ErrBotTokenInvalid ;;!
          bind a (u_ID u) false ;;!
          bots_GetBot botUserID ≫= λ again,
            match again with
            | ERR e => ignore (auths_Delete (AuthKeyID a)) ;;! fail e
            | OK again =>
                if secret_matches again secret then ok u
                else ignore (auths_Delete (AuthKeyID a)) ;;! fail ErrBotTokenInvalid
            end
      end
  end.

Definition BindVerifiedLogin (a : Authorization) (userID : Z) : result User :=
  guard (userID =? 0) ErrPasskeyInvalid ;;!
  u ←! login_user userID ErrPasskeyNotFound;
  bind a userID false ;;!
  ok u.

Definition AcceptLoginToken (a : Authorization) (userID : Z) : result Authorization :=
  guard ((userID =? 0) || (AuthKeyID a =? 0)) ErrLoginTokenInvalid ;;!
  guard (IsSystemUserID userID) ErrSystemUserLoginForbidden ;;!
  bind a userID false ;;!
  bound ←! auths_ByAuthKey (AuthKeyID a);
  ok (default (with_login userID false a) bound).

(** * What a key is signed in as *)

(** The row's user, if it may be signed in; else the row goes. *)
Definition row_user (authKeyID : Z) (a : Authorization) : result (option Z) :=
  u ←! users_ByID (UserID a);
  match u with
  | Some u =>
      if systemUserLoginForbidden u then ignore (auths_Delete authKeyID) ;;! ok None else ok (Some (UserID a))
  | None => ignore (auths_Delete authKeyID) ;;! ok None
  end.

Definition auth_UserID (authKeyID : Z) : result (option Z) :=
  a ←! auths_ByAuthKey authKeyID;
  match a with
  | Some a => if PasswordPending a then ok None else row_user authKeyID a
  | None => ok None
  end.

Definition PendingPasswordUserID (authKeyID : Z) : result (option Z) :=
  a ←! auths_ByAuthKey authKeyID;
  match a with
  | Some a => if PasswordPending a then row_user authKeyID a else ok None
  | None => ok None
  end.

Definition CompletePasswordSignIn (authKeyID expectedUserID : Z) : result () :=
  guard (expectedUserID =? 0) (ErrKey ErrAuthorizationStateChanged) ;;!
  auths_MarkPasswordPassed authKeyID expectedUserID ;;!
  userID ←! auth_UserID authKeyID;
  guard (negb (bool_decide (userID = Some expectedUserID))) ErrSystemUserLoginForbidden.

Definition LogOut (authKeyID : Z) : result () := auths_Delete authKeyID.

Definition auth_Authorization (authKeyID : Z) : result (option Authorization) :=
  if authKeyID =? 0 then ok None else auths_ByAuthKey authKeyID.

Definition ListAuthorizations (userID : Z) : result (list Authorization) :=
  if userID =? 0 then ok [] else ask (λ w, (ListByUser userID (auth w), w)).

Definition ResetAuthorization (userID hash : Z) (order : list Z) : result (option Authorization) :=
  if userID =? 0 then ok None
  else ask (λ w, let '(a, az) := RevokeByHash userID hash order (auth w) in (a, set_auth az w)).

Definition ResetAuthorizations (userID keepAuthKeyID : Z) : result (list Authorization) :=
  if userID =? 0 then ok []
  else ask (λ w, let '(revoked, az) := RevokeByUserExcept userID keepAuthKeyID (auth w) in (revoked, set_auth az w)).

(** ** What is known of a client *)

Definition AuthKeyClientInfo (authKeyID : Z) : result (option (Z * Z * client_info)) :=
  if authKeyID =? 0 then ok None
  else
    key ←! keys_Get authKeyID;
    ok (k ← key;
        let c := ak_Client k in
        if (Layer k =? 0) && bool_decide (DeviceModel c = "") && bool_decide (Platform c = "")
           && bool_decide (SystemVersion c = "") && (APIID c =? 0) && bool_decide (AppVersion c = "")
        then None else Some (Layer k, LayerObservationID k, c)).

Definition UpdateAuthKeyClientInfo (authKeyID layer : Z) (info : client_info) (ip : string) : result () :=
  if authKeyID =? 0 then ok tt
  else
    flatten (ask (λ w, let '(r, az) := UpdateClientInfo authKeyID layer info (auth w) in (r, set_auth az w))) ;;!
    flatten (ask (λ w, let '(r, az) := UpdateAuthorizationClientInfo (clock w) authKeyID info ip (auth w) in (r, set_auth az w))).

(** * Temporary keys *)

Definition expired_key (k : option AuthKeyData) (now : Z) : bool :=
  match k with Some k => ak_ExpiresAt k <=? now | None => true end.

(** The proof that the client has both keys; the answer is the temporary key's
    expiry and the layer that the two keys agree on. *)
Definition validateBindTempAuthKey (sessionID : Z) (b : TempAuthKeyBinding) : result (Z * Z * TempAuthKeyBindingResult) :=
  t ← unix;
  guard (tb_ExpiresAt b <=? t) ErrExpiresAtInvalid ;;!
  pair ←! keys_LoadBindingKeys (TempAuthKeyID b) (PermAuthKeyID b);
  t ← unix;
  match pair.1 with
  | None => fail ErrTempAuthKeyEmpty
  | Some temp =>
      guard (ak_ExpiresAt temp <=? t) ErrTempAuthKeyEmpty ;;!
      match pair.2 with
      | None => fail ErrEncryptedMessageInvalid
      | Some perm =>
          guard (negb (ak_ExpiresAt perm =? 0)) ErrEncryptedMessageInvalid ;;!
          match decrypt_inner (Value perm) (ak_ID perm) (EncryptedMessage b) with
          | None => fail ErrEncryptedMessageInvalid
          | Some inner =>
              guard (negb (in_Nonce inner =? Nonce b) || negb (in_TempAuthKeyID inner =? TempAuthKeyID b)
                     || negb (in_PermAuthKeyID inner =? PermAuthKeyID b) || negb (in_TempSessionID inner =? sessionID)
                     || negb (in_ExpiresAt inner =? tb_ExpiresAt b)) ErrEncryptedMessageInvalid ;;!
              t ← unix;
              guard (ak_ExpiresAt temp <=? t) ErrTempAuthKeyEmpty ;;!
              match MergeAuthKeyLayerObservations (Layer temp) (LayerObservationID temp) (Layer perm) (LayerObservationID perm) with
              | ERR e => fail (ErrKey e)
              | OK (layer, observation) =>
                  ok (in_TempSessionID inner, ak_ExpiresAt temp, {| tr_Layer := layer; tr_LayerObservationID := observation |})
              end
          end
      end
  end.

(** Why the store refused: the temporary key may have gone meanwhile. *)
Definition classifyBindingStoreInvalid {A} (b : TempAuthKeyBinding) : result A :=
  temp ←! keys_Get (TempAuthKeyID b);
  t ← unix;
  if expired_key temp t then fail ErrTempAuthKeyEmpty else fail ErrEncryptedMessageInvalid.

(** What is stored has the session of the proof and the expiry of the key. *)
Definition proven_binding (session expiresAt : Z) (b : TempAuthKeyBinding) : TempAuthKeyBinding := {|
  TempAuthKeyID := TempAuthKeyID b; PermAuthKeyID := PermAuthKeyID b; Nonce := Nonce b; TempSessionID := session;
  tb_ExpiresAt := expiresAt; EncryptedMessage := EncryptedMessage b |}.

Definition BindTempAuthKey (sessionID : Z) (b : TempAuthKeyBinding) : result TempAuthKeyBindingResult :=
  proof ←! validateBindTempAuthKey sessionID b;
  let '(session, expiresAt, validated) := proof in
  let b := proven_binding session expiresAt b in
  t ← unix;
  guard (tb_ExpiresAt b <=? t) ErrTempAuthKeyEmpty ;;!
  if negb (has_tempKeys s) then ok validated
  else
    flatten (ask (λ w, let '(r, az) := SaveWithState b (auth w) in
                       (r, match r with OK _ => note [EBoundTemp b] (set_auth az w) | ERR _ => set_auth az w end))) ≫= λ r,
      match r with
      | ERR (ErrKey ErrTempAuthKeyAlreadyBound) => fail ErrTempKeyAlreadyBound
      | ERR (ErrKey ErrAuthKeyBindingInvalid) => classifyBindingStoreInvalid b
      | r => Ret r
      end.

Definition ResolveAuthKey (authKeyID : Z) : result (option Z) :=
  if negb (has_tempKeys s) then ok None
  else b ←! ask (λ w, (GetByTemp authKeyID (auth w), w)); ok (PermAuthKeyID <$> b).

(** * The calls

    Between two steps of one call any other may come, and so may anything else
    that uses the stores: the clock moves and the stores come and go, other
    services work with codes, keys, users, passwords and bots. *)

Inductive call :=
  | CSendCode (phone : string)
  | CResendCode (authKeyID : Z) (phone hash : string)
  | CCancelCode (authKeyID : Z) (phone hash : string)
  | CCodeDelivery (hash : string)
  | CConsumeLoginEmailReset (phone hash : string)
  | CSendPhoneCodeAfterLoginEmailReset (phone : string) (expectedUserID : Z)
  | CSignIn (a : Authorization) (phone hash guess : string)
  | CSignInWithEmail (a : Authorization) (phone hash guess : string)
  | CSignUp (a : Authorization) (phone hash firstName lastName : string)
  | CSignInBot (a : Authorization) (token : string)
  | CBindVerifiedLogin (a : Authorization) (userID : Z)
  | CAcceptLoginToken (a : Authorization) (userID : Z)
  | CUserID (authKeyID : Z)
  | CPendingPasswordUserID (authKeyID : Z)
  | CCompletePasswordSignIn (authKeyID expectedUserID : Z)
  | CLogOut (authKeyID : Z)
  | CAuthorization (authKeyID : Z)
  | CListAuthorizations (userID : Z)
  | CResetAuthorization (userID hash : Z) (order : list Z)
  | CResetAuthorizations (userID keepAuthKeyID : Z)
  | CAuthKeyClientInfo (authKeyID : Z)
  | CUpdateAuthKeyClientInfo (authKeyID layer : Z) (info : client_info) (ip : string)
  | CBindTempAuthKey (sessionID : Z) (b : TempAuthKeyBinding)
  | CResolveAuthKey (authKeyID : Z)
  | Tick (now : Z) (down : bool)
  | Codes (op : code_op)
  | Keys (op : key_op)
  | Users (us : gmap Z User) (next : Z)
  | Passwords (st : gmap Z bool)
  | Bots (bs : gmap Z string).

Inductive answer :=
  | AHash (hash : string)
  | ADone
  | ADelivery (d : option AuthCodeDelivery)
  | ASignedIn (x : signed_in)
  | AUser (u : User)
  | AUserID (u : option Z)
  | AAuthorization (a : option Authorization)
  | AAuthorizations (l : list Authorization)
  | AClient (c : option (Z * Z * client_info))
  | ABinding (r : TempAuthKeyBindingResult).

Definition answered {A} (f : A → answer) (p : result A) : result answer := a ←! p; ok (f a).

(** What is not this service's. *)
Definition elsewhere (f : world → world) : result answer := Step (λ w, Some (tt, f w)) (λ _, ok ADone).

Definition serve (q : call) : result answer :=
  match q with
  | CSendCode phone => answered AHash (SendCode s phone)
  | CResendCode k phone hash => answered AHash (resendCode s k phone hash)
  | CCancelCode k phone hash => answered (λ _, ADone) (cancelCode k phone hash)
  | CCodeDelivery hash => answered ADelivery (CodeDelivery hash)
  | CConsumeLoginEmailReset phone hash => answered (λ u, AUserID (Some u)) (ConsumeLoginEmailReset s phone hash)
  | CSendPhoneCodeAfterLoginEmailReset phone u => answered AHash (SendPhoneCodeAfterLoginEmailReset s phone u)
  | CSignIn a phone hash guess => answered ASignedIn (SignIn a phone hash guess)
  | CSignInWithEmail a phone hash guess => answered ASignedIn (SignInWithEmail a phone hash guess)
  | CSignUp a phone hash first last => answered AUser (SignUp a phone hash first last)
  | CSignInBot a token => answered AUser (SignInBot a token)
  | CBindVerifiedLogin a u => answered AUser (BindVerifiedLogin a u)
  | CAcceptLoginToken a u => answered (λ a, AAuthorization (Some a)) (AcceptLoginToken a u)
  | CUserID k => answered AUserID (auth_UserID k)
  | CPendingPasswordUserID k => answered AUserID (PendingPasswordUserID k)
  | CCompletePasswordSignIn k u => answered (λ _, ADone) (CompletePasswordSignIn k u)
  | CLogOut k => answered (λ _, ADone) (LogOut k)
  | CAuthorization k => answered AAuthorization (auth_Authorization k)
  | CListAuthorizations u => answered AAuthorizations (ListAuthorizations u)
  | CResetAuthorization u hash order => answered AAuthorization (ResetAuthorization u hash order)
  | CResetAuthorizations u keep => answered AAuthorizations (ResetAuthorizations u keep)
  | CAuthKeyClientInfo k => answered AClient (AuthKeyClientInfo k)
  | CUpdateAuthKeyClientInfo k layer info ip => answered (λ _, ADone) (UpdateAuthKeyClientInfo k layer info ip)
  | CBindTempAuthKey session b => answered ABinding (BindTempAuthKey session b)
  | CResolveAuthKey k => answered AUserID (ResolveAuthKey k)
  | Tick t down => elsewhere (set_environment t down)
  | Codes op => elsewhere (λ w, (code_step op w).2)
  | Keys op => elsewhere (λ w, set_auth (perform_key (clock w) op (auth w)) w)
  | Users us next => elsewhere (set_users us next)
  | Passwords st => elsewhere (set_settings st)
  | Bots bs => elsewhere (set_bots bs)
  end.

End service.
