(* ===== verification/SignInInv.v ===== *)
(** What the journal of the sign-in service may say, and why every call keeps to it
    whatever comes between its steps: the invariant, the rely-guarantee rules for
    calls that may fail, and the calls that prove nothing. *)

From S2P Require Import Prelude GoStrings Programs AuthCodes AuthKeys AuthKeysInv SignIn SignInCodes SignInService.

Open Scope Z_scope.
Open Scope result_scope.

#[local] Set Default Proof Using "Type".

(** * Journals *)

(** Of two events, the second comes after the first. *)
Definition followed_by (e1 e2 : event) (j : list event) : Prop := ∃ j1 j2, j = j1 ++ e1 :: j2 ∧ e2 ∈ j2.

Lemma followed_by_snoc e1 e2 j : e1 ∈ j → followed_by e1 e2 (j ++ [e2]).
Proof.
  intros (j1 & j2 & ->)%list_elem_of_split. exists j1, (j2 ++ [e2]).
  split; [by rewrite <- app_assoc|]. apply elem_of_app. right. by apply list_elem_of_singleton.
Qed.

Lemma followed_by_grow e1 e2 j j' : followed_by e1 e2 j → j `prefix_of` j' → followed_by e1 e2 j'.
Proof.
  intros (j1 & j2 & -> & He) [k ->]. exists j1, (j2 ++ k). split; [by rewrite <- app_assoc|]. apply elem_of_app. by left.
Qed.

Lemma event_grow (ev : event) j j' : ev ∈ j → j `prefix_of` j' → ev ∈ j'.
Proof. intros He [k ->]. apply elem_of_app. by left. Qed.

Definition exchanges (j : list event) : list exchange := omap (λ ev, match ev with ECode x => Some x | _ => None end) j.

Definition issued_at (j : list event) (hash : string) (c : PhoneCode) : Prop :=
  ∃ revision ttl ans, ECode (OpSet revision hash c ttl, ans) ∈ j.

(** * Why a key is signed in

    [asked] are the calls that clients make. *)

Section reasons.
Context {env : Environment} (s : Service) (asked : call → Prop).

Definition asked_to_sign_in (a : Authorization) (phone hash guess : string) : Prop :=
  asked (CSignIn a phone hash guess) ∨ ∃ g, guess = TrimSpace g ∧ asked (CSignInWithEmail a phone hash g).

(** The password question that comes before a session is opened. *)
Definition password_asked (j : list event) (userID : Z) (pending : bool) : Prop :=
  if has_passwords s then EPassword userID pending ∈ j else pending = false.

Inductive reason (j : list event) : Z → Z → bool → Prop :=
  | by_code a phone hash guess revision default c u pending :
      asked_to_sign_in a phone hash guess →
      followed_by (ECode (OpVerifyLogin revision hash (NormalizePhone phone) guess false default, Verified (accepted c)))
        (EOwner (NormalizePhone phone) (Some u)) j →
      IssuedUserID c = u_ID u → systemUserLoginForbidden u = false → password_asked j (u_ID u) pending →
      reason j (AuthKeyID a) (u_ID u) pending
  | by_sign_up a phone hash first last c u :
      asked (CSignUp a phone hash first last) →
      followed_by (ECode (OpConsumeSignUpVerified hash (NormalizePhone phone), Found (Some c)))
        (EOwner (NormalizePhone phone) None) j →
      ECreated u ∈ j → u_Phone u = NormalizePhone phone →
      reason j (AuthKeyID a) (u_ID u) (PasswordPending a)
  | by_token a token userID secret :
      asked (CSignInBot a token) → ParseBotToken (TrimSpace token) = Some (userID, secret) → secret ≠ ""%string →
      EBotSecret userID secret ∈ j →
      reason j (AuthKeyID a) userID false
  | by_voucher a userID :
      asked (CBindVerifiedLogin a userID) ∨ asked (CAcceptLoginToken a userID) →
      reason j (AuthKeyID a) userID false.

(** A temporary key is bound by whoever has both keys. *)
Definition bind_proof (j : list event) (b : TempAuthKeyBinding) : Prop :=
  ∃ temp perm inner session b0,
    asked (CBindTempAuthKey session b0)
    ∧ EKeys (Some temp) (Some perm) ∈ j
    ∧ ak_ID perm = PermAuthKeyID b ∧ ak_ExpiresAt perm = 0
    ∧ ak_ID temp = TempAuthKeyID b ∧ tb_ExpiresAt b = ak_ExpiresAt temp
    ∧ decrypt_inner (Value perm) (ak_ID perm) (EncryptedMessage b) = Some inner
    ∧ inner = {| in_Nonce := Nonce b; in_TempAuthKeyID := TempAuthKeyID b; in_PermAuthKeyID := PermAuthKeyID b;
                 in_TempSessionID := session; in_ExpiresAt := tb_ExpiresAt b0 |}
    ∧ TempSessionID b = session.

(** What has to be known when an event is written. *)
Definition event_ok (j : list event) (ev : event) : Prop :=
  match ev with
  | ECode _ | EOwner _ _ | EKeys _ _ | EPassword _ _ | EBotSecret _ _ => True
  | ECreated u => ∃ hash c, ECode (OpConsumeSignUpVerified hash (u_Phone u), Found (Some c)) ∈ j
  | EDelivered userID hash sent => ∃ c, issued_at j hash c ∧ IssuedUserID c = userID ∧ Code c = sent
  | EProvider recipient sent =>
      ∃ hash c, issued_at j hash c ∧ Code c = sent ∧ (recipient = pc_Phone c ∨ recipient = Email c)
  | EBound k userID pending => reason j k userID pending
  | EPasswordPassed k userID => asked (CCompletePasswordSignIn k userID) ∧ EBound k userID true ∈ j
  | EBoundTemp b => bind_proof j b
  end.

Inductive journal_ok : list event → Prop :=
  | journal_nil : journal_ok []
  | journal_snoc j ev : journal_ok j → event_ok j ev → journal_ok (j ++ [ev]).

(** Every row of the authorizations is the trace of a login. *)
Definition row_ok (j : list event) (k : Z) (a : Authorization) : Prop :=
  EBound k (UserID a) (PasswordPending a) ∈ j
  ∨ (PasswordPending a = false ∧ EPasswordPassed k (UserID a) ∈ j).

(** The users that a store may hold. *)
Definition users_ok (us : gmap Z User) (next : Z) : Prop := 0 < next ∧ map_Forall (λ id u, u_ID u = id ∧ 0 < id) us.

Record inv (w : world) : Prop := {
  i_users : users_ok (users w) (nextUserID w);
  i_codes : code_trace NewCodeStore (exchanges (journal w)) (codes w);
  i_keys : ∃ layer_of, keys_ok layer_of (auth w);
  i_journal : journal_ok (journal w);
  i_rows : map_Forall (row_ok (journal w)) (authorizations (auth w));
  i_bindings : map_Forall (λ _ b, EBoundTemp b ∈ journal w) (bindings (auth w));
}.

Definition grows (w w' : world) : Prop := journal w `prefix_of` journal w'.

#[export] Instance grows_preorder : PreOrder grows.
Proof. split; [intros w|intros w1 w2 w3]; unfold grows; [done|by etrans]. Qed.

Lemma row_ok_grow j j' k a : row_ok j k a → j `prefix_of` j' → row_ok j' k a.
Proof. intros [H|[H1 H2]] Hj; [left|right]; eauto using event_grow. Qed.

(** An event that may be written is written. *)
Lemma note_inv w ev : inv w → (∀ x, ev ≠ ECode x) → event_ok (journal w) ev → inv (note [ev] w) ∧ grows w (note [ev] w).
Proof.
  intros [Hu Hc Hk Hj Hr Hb] Hne Hev. split; [|by exists [ev]]. split; cbn; [done|..].
  - unfold exchanges in *. rewrite omap_app. destruct ev; cbn; rewrite ?app_nil_r; try done. by destruct (Hne x).
  - done.
  - by apply journal_snoc.
  - intros k a Ha. eapply row_ok_grow; [by apply Hr|by exists [ev]].
  - intros t b Ht. eapply event_grow; [by eapply Hb|by exists [ev]].
Qed.

Lemma draw_inv w : inv w → inv (drawn w).
Proof. by intros [? ? ? ? ? ?]. Qed.

Lemma code_step_inv op w : inv w → inv (code_step op w).2 ∧ grows w (code_step op w).2.
Proof.
  intros [Hu Hc Hk Hj Hr Hb]. unfold code_step. destruct (perform_code (clock w) op (codes w)) as [ans cs] eqn:E. cbn [snd].
  split; [|by exists [ECode (op, ans)]]. split; cbn; [done|..].
  - unfold exchanges in *. rewrite omap_app. cbn. by eapply trace_snoc.
  - done.
  - by apply journal_snoc.
  - intros k a Ha. eapply row_ok_grow; [by apply Hr|by eexists].
  - intros t b Ht. eapply event_grow; [by eapply Hb|by eexists].
Qed.

Lemma code_step_journal op w : ECode (op, (code_step op w).1) ∈ journal (code_step op w).2.
Proof.
  unfold code_step. destruct (perform_code (clock w) op (codes w)) as [ans cs]. cbn. apply elem_of_app. right.
  by apply list_elem_of_singleton.
Qed.

(** The keys change, and every row that stays is one that was there. *)
Lemma set_auth_inv w az :
  inv w → (∃ layer_of, keys_ok layer_of az) → bindings az ⊆ bindings (auth w) →
  rows_from (auth w) az →
  inv (set_auth az w) ∧ grows w (set_auth az w).
Proof.
  intros [Hu Hc Hk Hj Hr Hb] Haz Hsub Hrows. split; [|unfold grows; done]. split; cbn; [done..| |].
  2: { intros t b Ht. apply (Hb t b). by eapply lookup_weaken. }
  intros k a (a0 & Ha0 & Eu & Ep)%Hrows. pose proof (Hr k a0 Ha0) as Hok. unfold row_ok in *. by rewrite Eu, Ep.
Qed.

(** * Rules

    [yields P p w]: whatever comes between its steps, [p] started from [w] keeps the
    invariant, and when it answers without an error [P] holds of the answer and the
    journal. *)

Definition yields {A} (P : A → list event → Prop) (p : result A) (w : world) : Prop :=
  safe inv grows (λ r w', ∀ a, r = OK a → P a (journal w')) p w.

Lemma yields_ok {A} (P : A → list event → Prop) a w : P a (journal w) → yields P (ok a) w.
Proof. cbn. by intros HP b [= <-]. Qed.

Lemma yields_fail {A} (P : A → list event → Prop) e w : yields P (fail e) w.
Proof. cbn. by intros a [=]. Qed.

Lemma yields_bind {A B} (P : A → list event → Prop) (Q : B → list event → Prop) p k w :
  inv w → yields P p w →
  (∀ a w', inv w' → grows w w' → P a (journal w') → yields Q (k a) w') → yields Q (ebind p k) w.
Proof.
  intros Hw Hp Hk. unfold yields, ebind. eapply safe_seq; [exact _|exact Hw|exact Hp|].
  intros [a|e] w' Hi Hg HP; [by apply Hk; [..|apply HP]|]. cbn. by intros b [=].
Qed.

(** A program whose errors are dealt with. *)
Lemma yields_catch {A B} (P : A → list event → Prop) (Q : B → list event → Prop) (p : result A) (k : res auth_error A → result B) w :
  inv w → yields P p w →
  (∀ a w', inv w' → grows w w' → P a (journal w') → yields Q (k (OK a)) w') →
  (∀ e w', inv w' → grows w w' → yields Q (k (ERR e)) w') → yields Q (p ≫= k) w.
Proof.
  intros Hw Hp Hk He. unfold yields. eapply safe_seq; [exact _|exact Hw|exact Hp|].
  intros [a|e] w' Hi Hg HP; [by apply Hk; [..|apply HP]|by apply He].
Qed.

Lemma yields_program {A B} (Q : B → list event → Prop) (p : program A) (k : A → result B) w :
  inv w → safe inv grows (λ _ _, True) p w → (∀ a w', inv w' → grows w w' → yields Q (k a) w') → yields Q (p ≫= k) w.
Proof. intros Hw Hp Hk. unfold yields. eapply safe_seq; [exact _|exact Hw|exact Hp|]. intros a w' Hi Hg _. by apply Hk. Qed.

Lemma yields_mono {A} (P Q : A → list event → Prop) p w :
  inv w → yields P p w → (∀ a w', inv w' → grows w w' → P a (journal w') → Q a (journal w')) → yields Q p w.
Proof.
  intros Hw Hp HPQ. unfold yields. eapply safe_mono; [exact _|exact Hw|exact Hp|]. cbn. intros r w' Hi Hg H a ->. apply HPQ; auto.
Qed.

Lemma yields_ask {A} (P : A → list event → Prop) (f : world → A * world) w :
  (∀ w1, inv w1 → grows w w1 → (inv (f w1).2 ∧ grows w1 (f w1).2) ∧ P (f w1).1 (journal (f w1).2)) →
  yields P (ask f) w.
Proof.
  intros Hf. cbn. intros w1 Hi Hg b w2 E. injection E as E. destruct (outage w1).
  - injection E as <- <-. split; [done|]. split; [by apply grows_preorder|]. by intros a [=].
  - specialize (Hf w1 Hi Hg). destruct (f w1) as [a w3]. injection E as <- <-. destruct Hf as [[? ?] ?].
    split_and!; try done. by intros a' [= <-].
Qed.

(** ** Programs that prove nothing *)

Definition quiet {A} (p : result A) : Prop := ∀ w, inv w → yields (λ _ _, True) p w.
Definition quiet_program {A} (p : program A) : Prop := ∀ w, inv w → safe inv grows (λ _ _, True) p w.

Lemma quiet_ok {A} (a : A) : quiet (ok a).
Proof. intros w _. by apply yields_ok. Qed.
Lemma quiet_fail {A} e : quiet (@fail A e).
Proof. intros w _. by apply yields_fail. Qed.
Lemma quiet_bind {A B} (p : result A) (k : A → result B) : quiet p → (∀ a, quiet (k a)) → quiet (ebind p k).
Proof. intros Hp Hk w Hw. eapply yields_bind; [done|by apply Hp|]. intros a w' Hw' _ _. by apply Hk. Qed.
Lemma quiet_catch {A B} (p : result A) (k : res auth_error A → result B) : quiet p → (∀ r, quiet (k r)) → quiet (p ≫= k).
Proof. intros Hp Hk w Hw. eapply yields_catch; [done|by apply Hp|..]; intros; by apply Hk. Qed.
Lemma quiet_ignore {A} (p : result A) : quiet p → quiet (ignore p).
Proof. intros Hp. apply quiet_catch; [done|]. intros r. apply quiet_ok. Qed.
Lemma quiet_seq {A B} (p : program A) (k : A → result B) : quiet_program p → (∀ a, quiet (k a)) → quiet (p ≫= k).
Proof. intros Hp Hk w Hw. eapply yields_program; [done|by apply Hp|]. intros. by apply Hk. Qed.
Lemma quiet_guard b e : quiet (guard b e).
Proof. destruct b; [apply quiet_fail|apply quiet_ok]. Qed.
Lemma yields_quiet {A} (p : result A) w : inv w → quiet p → yields (λ _ _, True) p w.
Proof. intros Hw Hp. by apply Hp. Qed.

Lemma quiet_ask {A} (f : world → A * world) :
  (∀ w, inv w → inv (f w).2 ∧ grows w (f w).2) → quiet (ask f).
Proof. intros Hf w _. apply yields_ask. intros w1 Hi _. split; [by apply Hf|done]. Qed.

Lemma quiet_reads {A} (f : world → A) : quiet (ask (λ w, (f w, w))).
Proof. apply quiet_ask. intros w Hw. split; [done|by apply grows_preorder]. Qed.

Lemma quiet_read {A} (f : world → A) : quiet_program (read f).
Proof. intros w _ w1 Hi Hg b w2 [= <- <-]. split_and!; [done|by apply grows_preorder|done]. Qed.

Lemma quiet_random n : quiet_program (random n).
Proof. intros w _ w1 Hi Hg b w2 [= <- <-]. split_and!; [by apply draw_inv|unfold grows; done|done]. Qed.

Lemma quiet_external {A} (f : nat → option A) : quiet (external f).
Proof. intros w _ w1 Hi Hg b w2 [= <- <-]. split_and!; [by apply draw_inv|unfold grows; done|done]. Qed.

Lemma quiet_code_step op : quiet (ask (code_step op)).
Proof. apply quiet_ask. intros w Hw. by apply code_step_inv. Qed.

Lemma revised_step_inv op w : inv w → inv (revised_step op w).2 ∧ grows w (revised_step op w).2.
Proof. intros Hw. unfold revised_step. apply (code_step_inv _ (drawn w)). by apply draw_inv. Qed.

Lemma quiet_revised_step op : quiet (ask (revised_step op)).
Proof. apply quiet_ask. intros w Hw. by apply revised_step_inv. Qed.

End reasons.
