(* ===== verification/SignInSteps.v ===== *)
(** What each step of the sign-in service proves, and that issuing, resending and
    withdrawing codes keeps to the journal. *)

From S2P Require Import Prelude GoStrings Programs AuthCodes AuthKeys AuthKeysInv SignIn SignInCodes SignInService SignInInv.

Open Scope Z_scope.
Open Scope result_scope.

#[local] Set Default Proof Using "Type".

Create HintDb quiet.

Section steps.
Context {env : Environment} (s : Service) (asked : call → Prop).

#[local] Abbreviation inv := (inv s asked).
#[local] Abbreviation yields := (yields s asked).
#[local] Abbreviation quiet := (quiet s asked).
#[local] Abbreviation quiet_program := (quiet_program s asked).

Implicit Types (w : world) (hash phone : string).

(** ** Codes *)

Lemma yields_code_step {A} (P : A → list event → Prop) (op : code_op) (f : code_answer → A) w :
  inv w → (∀ ans j, ECode (op, ans) ∈ j → P (f ans) j) → yields P (ans ←! ask (code_step op); ok (f ans)) w.
Proof.
  intros Hw HP. apply (yields_bind s asked (λ ans j, ECode (op, ans) ∈ j)); [done| |].
  - apply yields_ask. intros w1 Hi _. split; [by apply code_step_inv|apply code_step_journal].
  - intros ans w' _ _ Hans. apply yields_ok. auto.
Qed.

Lemma yields_revised_step {A} (P : A → list event → Prop) (op : string → code_op) (f : code_answer → A) w :
  inv w → (∀ revision ans j, ECode (op revision, ans) ∈ j → P (f ans) j) →
  yields P (ans ←! ask (revised_step op); ok (f ans)) w.
Proof.
  intros Hw HP. apply (yields_bind s asked (λ ans j, ∃ revision, ECode (op revision, ans) ∈ j)); [done| |].
  - apply yields_ask. intros w1 Hi _. split; [by apply revised_step_inv|]. eexists. apply code_step_journal.
  - intros ans w' _ _ [revision Hans]. apply yields_ok. eauto.
Qed.

Lemma yields_codes_Set hash c ttl w : inv w → yields (λ _ j, issued_at j hash c) (codes_Set hash c ttl) w.
Proof.
  intros Hw. apply (yields_revised_step _ _ (λ _, tt)); [done|]. intros revision ans j Hj. by exists revision, ttl, ans.
Qed.

Lemma yields_codes_VerifyLogin hash phone guess keep default w :
  inv w →
  yields (λ r j, Status r = LoginCodeVerifyAccepted →
    ∃ revision, ECode (OpVerifyLogin revision hash phone guess keep default, Verified (accepted (vr_Record r))) ∈ j)
    (codes_VerifyLogin hash phone guess keep default) w.
Proof.
  intros Hw. apply (yields_revised_step _ (λ revision, OpVerifyLogin revision hash phone guess keep default)); [done|].
  intros revision ans j Hj Hs. exists revision. destruct ans as [| |r|]; cbn in *; try discriminate.
  destruct r as [st c]. cbn in *. by subst st.
Qed.

Lemma yields_codes_ConsumeSignUp hash phone w :
  inv w →
  yields (λ o j, ∀ c, o = Some c → ECode (OpConsumeSignUpVerified hash phone, Found (Some c)) ∈ j)
    (codes_ConsumeSignUp hash phone) w.
Proof.
  intros Hw. apply yields_code_step; [done|]. intros ans j Hj c Hc. destruct ans as [|o| |]; cbn in *; try discriminate. by subst o.
Qed.

Lemma quiet_codes_Get hash : quiet (codes_Get hash).
Proof. apply quiet_bind; [apply quiet_code_step|]. intros. apply quiet_ok. Qed.
Lemma quiet_codes_Set hash c ttl : quiet (codes_Set hash c ttl).
Proof. apply quiet_bind; [apply quiet_revised_step|]. intros. apply quiet_ok. Qed.
Lemma quiet_codes_Del hash : quiet (codes_Del hash).
Proof. apply quiet_bind; [apply quiet_code_step|]. intros. apply quiet_ok. Qed.
Lemma quiet_codes_Take hash phone : quiet (codes_Take hash phone).
Proof. apply quiet_bind; [apply quiet_code_step|]. intros. apply quiet_ok. Qed.
Lemma quiet_codes_ConsumeSignUp hash phone : quiet (codes_ConsumeSignUp hash phone).
Proof. apply quiet_bind; [apply quiet_code_step|]. intros. apply quiet_ok. Qed.
Lemma quiet_codes_ConsumeScoped hash scope : quiet (codes_ConsumeScoped hash scope).
Proof. apply quiet_bind; [apply quiet_code_step|]. intros. apply quiet_ok. Qed.
Lemma quiet_invalidate hash phone : quiet (invalidateLoginCodeDetached hash phone).
Proof. apply quiet_ignore, quiet_code_step. Qed.

(** ** Users, passwords and bots *)

(** A step that reads and writes down what it has read. *)
Lemma yields_noted {A} (P : A → list event → Prop) (f : world → A) (ev : A → event) w :
  (∀ a x, ev a ≠ ECode x) → (∀ w1, inv w1 → event_ok s asked (journal w1) (ev (f w1))) →
  (∀ w1, grows w w1 → inv w1 → P (f w1) (journal w1 ++ [ev (f w1)])) →
  yields P (ask (λ w, (f w, note [ev (f w)] w))) w.
Proof.
  intros Hne Hok HP. apply yields_ask. intros w1 Hi Hg. cbn [fst snd]. split; [apply note_inv; auto|]. cbn. by apply HP.
Qed.

Lemma find_phone_users phone us u : find_phone phone us = Some u → ∃ id, us !! id = Some u.
Proof.
  unfold find_phone. destruct (List.find _ _) as [[id u']|] eqn:Hf; [|done]. intros [= <-].
  apply find_some in Hf as [Hin _]. exists id. apply elem_of_map_to_list. by apply list_elem_of_In.
Qed.

Lemma yields_currentPhoneOwner phone e w :
  inv w → e ∈ journal w →
  yields (λ o j, followed_by e (EOwner phone o) j ∧ ∀ u, o = Some u → 0 < u_ID u) (currentPhoneOwner phone) w.
Proof.
  intros Hw He.
  apply (yields_noted _ (λ w, if bool_decide (phone = ""%string) then None else find_phone phone (users w)) (EOwner phone));
    [done|done|]. intros w1 Hg Hi. split; [apply followed_by_snoc; by eapply event_grow|].
  intros u Hu. case_bool_decide; [done|]. apply find_phone_users in Hu as [id Hu].
  destruct (proj2 (i_users _ _ _ Hi) id u Hu) as [-> Hpos]. exact Hpos.
Qed.

Lemma quiet_currentPhoneOwner phone : quiet (currentPhoneOwner phone).
Proof. apply quiet_ask. intros w Hw. cbn. by apply note_inv. Qed.

Lemma quiet_users_ByID id : quiet (users_ByID id).
Proof. apply quiet_reads. Qed.

Lemma yields_users_Create u w :
  inv w → (∃ hash c, ECode (OpConsumeSignUpVerified hash (u_Phone u), Found (Some c)) ∈ journal w) →
  yields (λ u' j, ECreated u' ∈ j ∧ u_Phone u' = u_Phone u) (users_Create u) w.
Proof.
  intros Hw (hash & c & He). apply yields_ask. intros w1 Hi Hg. cbn [fst snd]. set (w2 := set_users _ _ _).
  assert (inv w2) as Hi2.
  { destruct Hi as [[Hn Hus] Hcode Hk Hj Hr Hb]. split; cbn; try done. split; [lia|]. by apply map_Forall_insert_2. }
  split.
  - apply (note_inv s asked w2); [done..|]. exists hash, c. by eapply event_grow.
  - split; [|done]. cbn. apply elem_of_app. right. by apply list_elem_of_singleton.
Qed.

Lemma yields_bots_GetBot id w :
  yields (λ o j, ∀ secret, o = Some secret → EBotSecret id secret ∈ j) (bots_GetBot id) w.
Proof.
  apply yields_ask. intros w1 Hi Hg. cbn [fst snd]. destruct (bots w1 !! id) as [secret|].
  - split; [by apply note_inv|]. intros secret' [= <-]. cbn. apply elem_of_app. right. by apply list_elem_of_singleton.
  - split; [split; [done|by apply grows_preorder]|]. by intros secret [=].
Qed.

Lemma quiet_bots_GetBot id : quiet (bots_GetBot id).
Proof. intros w Hw. eapply yields_mono; [done|apply (yields_bots_GetBot id)|done]. Qed.

Lemma yields_passwordNeeded id w :
  inv w → yields (λ needed j, password_asked s j id needed) (passwordNeeded s id) w.
Proof.
  intros Hw. unfold passwordNeeded, password_asked. destruct (has_passwords s); [|by apply yields_ok].
  apply (yields_noted _ (λ w, default false (settings w !! id)) (EPassword id)); [done|done|].
  intros w1 _ _. apply elem_of_app. right. by apply list_elem_of_singleton.
Qed.

(** ** Keys and authorizations *)

Lemma quiet_keys_Get id : quiet (keys_Get id).
Proof. apply quiet_reads. Qed.

Lemma yields_LoadBindingKeys temp perm w :
  yields (λ pair j, EKeys pair.1 pair.2 ∈ j ∧ (∀ k, pair.1 = Some k → ak_ID k = temp) ∧ (∀ k, pair.2 = Some k → ak_ID k = perm))
    (keys_LoadBindingKeys temp perm) w.
Proof.
  apply (yields_noted _ (λ w, LoadBindingKeys temp perm (auth w)) (λ pair, EKeys pair.1 pair.2)); [done|done|].
  intros w1 _ [_ _ [layer_of Hk] _ _ _]. split; [apply elem_of_app; right; by apply list_elem_of_singleton|].
  split; intros k Hlk; by apply (kk_id _ _ _ _ (ko_keys _ _ Hk _ _ Hlk)).
Qed.

Lemma yields_ByAuthKey id w :
  yields (λ o j, ∀ a, o = Some a → row_ok j id a) (auths_ByAuthKey id) w.
Proof.
  apply yields_ask. intros w1 Hi _. cbn. split; [split; [done|by apply grows_preorder]|]. intros a Ha. by apply Hi.
Qed.

(** A change of the keys that binds nobody. *)
Lemma perform_key_inv op w :
  inv w → key_op_ok op → binds op = false →
  inv (set_auth (perform_key (clock w) op (auth w)) w) ∧ grows w (set_auth (perform_key (clock w) op (auth w)) w).
Proof.
  intros Hw Hop Hb. apply set_auth_inv; [done| |by apply perform_key_binds|by apply perform_key_rows].
  destruct (i_keys _ _ _ Hw) as [l Hl]. by eapply perform_key_ok.
Qed.

Lemma quiet_auths_Delete id : quiet (auths_Delete id).
Proof. apply quiet_ask. intros w Hw. by apply (perform_key_inv (KLogOut id)). Qed.

Lemma reason_grow j j' k u p : reason s asked j k u p → j `prefix_of` j' → reason s asked j' k u p.
Proof.
  intros Hr Hj. destruct Hr; [eapply by_code|eapply by_sign_up|eapply by_token|eapply by_voucher]; eauto using followed_by_grow, event_grow.
  unfold password_asked in *. destruct (has_passwords s); eauto using event_grow.
Qed.

Lemma yields_flatten {A} (P : A → list event → Prop) (p : result (res auth_key_error A)) w :
  inv w → yields (λ r j, ∀ a, r = OK a → P a j) p w → yields P (flatten p) w.
Proof.
  intros Hw Hp. eapply yields_bind; [done|exact Hp|]. cbn. intros [a|e] w' _ _ H; [apply yields_ok; auto|apply yields_fail].
Qed.

Lemma yields_auths_Bind a w :
  inv w → reason s asked (journal w) (AuthKeyID a) (UserID a) (PasswordPending a) →
  yields (λ _ j, EBound (AuthKeyID a) (UserID a) (PasswordPending a) ∈ j) (auths_Bind a) w.
Proof.
  intros Hw Hr. apply yields_flatten; [done|]. apply yields_ask. intros w1 Hi Hg.
  destruct (i_keys _ _ _ Hi) as [l Hl]. pose proof (Bind_ok l (clock w1) a (auth w1) Hl) as Hl'. revert Hl'. unfold Bind.
  destruct (keys (auth w1) !! AuthKeyID a) as [k|]; [destruct (negb _)|]; cbn [fst snd]; intros Hl'.
  1, 3: split; [apply (set_auth_inv s asked); [done|by exists l|done|done]|by intros ? [=]].
  pose proof (reason_grow _ _ _ _ _ Hr Hg) as Hr1. destruct Hi as [Hus Hc Hk Hj Hrows Hbs]. split; [split; [|by eexists]|].
  - split; cbn; [done|..].
    + unfold exchanges in *. rewrite omap_app. cbn. by rewrite app_nil_r.
    + eauto.
    + by apply journal_snoc.
    + apply map_Forall_insert_2.
      * left. cbn. apply elem_of_app. right. by apply list_elem_of_singleton.
      * intros i a' Ha'. eapply row_ok_grow; [by apply Hrows|by eexists].
    + intros t b Ht. eapply event_grow; [by eapply Hbs|by eexists].
  - intros [] _. cbn. apply elem_of_app. right. by apply list_elem_of_singleton.
Qed.

Lemma yields_MarkPasswordPassed id u w :
  inv w → asked (CCompletePasswordSignIn id u) → yields (λ _ j, EPasswordPassed id u ∈ j) (auths_MarkPasswordPassed id u) w.
Proof.
  intros Hw Hq. apply yields_flatten; [done|]. apply yields_ask. intros w1 Hi Hg.
  destruct (i_keys _ _ _ Hi) as [l Hl]. pose proof (perform_key_ok l (clock w1) (KPasswordPassed id u) (auth w1) Hl I) as Hl'.
  revert Hl'. cbn [perform_key]. unfold MarkPasswordPassed.
  destruct (authorizations (auth w1) !! id) as [a|] eqn:Ha; [destruct (_ || _ || _) eqn:Hc|]; cbn [fst snd]; intros Hl'.
  1, 3: split; [apply (set_auth_inv s asked); [done|by exists l|done|done]|by intros ? [=]].
  bool_facts. destruct Hi as [Hus Hcode Hk Hj Hrows Hbs].
  assert (EBound id u true ∈ journal w1) as Hbound.
  { destruct (Hrows id a Ha) as [Hb|[Hp _]]; [|congruence]. replace u with (UserID a) by lia. replace true with (PasswordPending a) by done. done. }
  split; [split; [|by eexists]|].
  - split; cbn; [done|..].
    + unfold exchanges in *. rewrite omap_app. cbn. by rewrite app_nil_r.
    + done.
    + by apply journal_snoc.
    + apply map_Forall_insert_2.
      * right. cbn. split; [done|]. replace (UserID a) with u by lia. apply elem_of_app. right. by apply list_elem_of_singleton.
      * intros i a' Ha'. eapply row_ok_grow; [by apply Hrows|by eexists].
    + intros t b Ht. eapply event_grow; [by eapply Hbs|by eexists].
  - intros [] _. cbn. apply elem_of_app. right. by apply list_elem_of_singleton.
Qed.
(** ** Quiet programs *)

Lemma quiet_randomHex n : quiet_program (randomHex n).
Proof. intros w Hw w1 Hi Hg b w2 [= <- <-]. split_and!; [by apply draw_inv|unfold grows; done|done]. Qed.
Lemma quiet_randomDigits n : quiet_program (randomDigits n).
Proof. intros w Hw w1 Hi Hg b w2 [= <- <-]. split_and!; [by apply draw_inv|unfold grows; done|done]. Qed.
Lemma quiet_NewDeliveryID : quiet_program NewDeliveryID.
Proof. intros w Hw w1 Hi Hg b w2 [= <- <-]. split_and!; [by apply draw_inv|unfold grows; done|done]. Qed.
Lemma quiet_randomInt64 : quiet_program randomInt64.
Proof. intros w Hw w1 Hi Hg b w2 [= <- <-]. split_and!; [by apply draw_inv|unfold grows; done|done]. Qed.
Lemma quiet_unix : quiet_program unix.
Proof. apply quiet_read. Qed.

Lemma phone_code_channel w :
  inv w →
  safe inv grows (λ parts _, if has_phoneCodeSender s then parts.2 = PhoneCodeChannelSMS
                             else parts.2 = PhoneCodeChannelPhone ∧ parts.1.1 = fixedCode s)
    (phone_code_parts s) w.
Proof.
  intros Hw. unfold phone_code_parts. destruct (has_phoneCodeSender s); [|done].
  eapply safe_seq; [exact _|done|by apply quiet_randomDigits|]. intros sent w1 Hw1 _ _.
  eapply safe_seq; [exact _|done|by apply quiet_NewDeliveryID|done].
Qed.

Lemma quiet_phone_code_parts : quiet_program (phone_code_parts s).
Proof. intros w Hw. eapply safe_mono; [exact _|done|by apply phone_code_channel|done]. Qed.

End steps.

#[export] Hint Resolve quiet_ok quiet_fail quiet_guard quiet_external quiet_codes_Get quiet_codes_Set quiet_codes_Del
  quiet_codes_Take quiet_codes_ConsumeSignUp quiet_codes_ConsumeScoped quiet_invalidate quiet_currentPhoneOwner
  quiet_users_ByID quiet_bots_GetBot quiet_keys_Get quiet_auths_Delete quiet_ignore quiet_reads
  quiet_randomHex quiet_randomDigits quiet_NewDeliveryID quiet_randomInt64 quiet_unix quiet_phone_code_parts : quiet.

Ltac be_quiet :=
  repeat first
    [ solve [eauto 3 with quiet nocore]
    | apply quiet_bind; [|intros ?]
    | apply quiet_seq; [solve [eauto 2 with quiet nocore]|intros ?]
    | apply quiet_catch; [|intros ?]
    | case_match ].

(** * Issuing *)

Section issuing.
Context {env : Environment} (s : Service) (asked : call → Prop).

#[local] Abbreviation inv := (inv s asked).
#[local] Abbreviation yields := (yields s asked).
#[local] Abbreviation quiet := (quiet s asked).
#[local] Abbreviation quiet_program := (quiet_program s asked).

Implicit Types (w : world) (hash phone : string).

Lemma quiet_issuedOwnerMatches phone u : quiet (issuedOwnerMatches phone u).
Proof. unfold issuedOwnerMatches. be_quiet. Qed.

Lemma quiet_rollback {A} hash cause : quiet (@rollbackUndeliveredCode A hash cause).
Proof. unfold rollbackUndeliveredCode. be_quiet. Qed.

Lemma yields_rollback {A} (P : A → list event → Prop) hash cause w : inv w → yields P (rollbackUndeliveredCode hash cause) w.
Proof.
  intros Hw. unfold rollbackUndeliveredCode.
  destruct cause as [| | | | | | | | | |ambiguous| | | | | | | | |]; try destruct ambiguous; try apply yields_fail.
  all: (eapply yields_catch; [done|by apply quiet_codes_Del|..]); intros; apply yields_fail.
Qed.

Lemma quiet_or_expired {A} (p : result (option A)) : quiet p → quiet (or_expired p).
Proof. intros Hp. unfold or_expired. be_quiet. Qed.

(** The code is stored, and after that the number was still the owner's. *)
Definition stored (j : list event) hash (c : PhoneCode) : Prop :=
  ∃ revision ttl ans o,
    followed_by (ECode (OpSet revision hash c ttl, ans)) (EOwner (pc_Phone c) o) j ∧ owner_id o = IssuedUserID c.

Lemma stored_issued j hash c : stored j hash c → issued_at j hash c.
Proof.
  intros (revision & ttl & ans & o & (j1 & j2 & -> & _) & _). exists revision, ttl, ans. apply elem_of_app. right. by left.
Qed.

Lemma issued_grow j j' hash c : issued_at j hash c → j `prefix_of` j' → issued_at j' hash c.
Proof. intros (revision & ttl & ans & He) Hj. exists revision, ttl, ans. by eapply event_grow. Qed.

Lemma stored_grow j j' hash c : stored j hash c → j `prefix_of` j' → stored j' hash c.
Proof. intros (revision & ttl & ans & o & He & Ho) Hj. exists revision, ttl, ans, o. split; [by eapply followed_by_grow|done]. Qed.

Lemma yields_ensure hash c w :
  inv w → issued_at (journal w) hash c → yields (λ _ j, stored j hash c) (ensureIssuedOwnerAfterSet hash c) w.
Proof.
  intros Hw (revision & ttl & ans & He). unfold ensureIssuedOwnerAfterSet.
  eapply (yields_catch s asked (λ (b : bool) j, b = true → stored j hash c)); [done| | |].
  - unfold issuedOwnerMatches. eapply yields_bind; [done|by apply (yields_currentPhoneOwner s asked _ _ _ Hw He)|].
    intros o w' Hw' Hg [Ho _]. apply yields_ok. intros Hb. bool_facts. exists revision, ttl, ans, o. split; [done|lia].
  - intros [] w' Hw' _ Hb; [by apply yields_ok, Hb|by apply yields_rollback].
  - intros e w' Hw' _. by apply yields_rollback.
Qed.

Lemma quiet_ensure hash c : quiet (ensureIssuedOwnerAfterSet hash c).
Proof.
  unfold ensureIssuedOwnerAfterSet. apply quiet_catch; [apply quiet_issuedOwnerMatches|].
  intros [[]|]; [apply quiet_ok|apply quiet_rollback..].
Qed.

Lemma yields_or_rollback {A} (P : A → list event → Prop) hash p w : inv w → yields P p w → yields P (or_rollback hash p) w.
Proof.
  intros Hw Hp. unfold or_rollback. eapply yields_catch; [done|exact Hp|..].
  - intros a w' _ _ Ha. by apply yields_ok.
  - intros e w' Hw' _. by apply yields_rollback.
Qed.

(** A step outside of the stores that writes an event or nothing. *)
Lemma sends_inv w (sent : bool) ev :
  inv w → (∀ x, ev ≠ ECode x) → event_ok s asked (journal w) ev →
  inv (drawn (if sent then note [ev] w else w)) ∧ grows w (drawn (if sent then note [ev] w else w)).
Proof.
  intros Hw Hne Hev. destruct sent; [|split; [by apply draw_inv|unfold grows; done]].
  destruct (note_inv s asked w ev Hw Hne Hev) as [H1 H2]. split; [by apply draw_inv|exact H2].
Qed.

Lemma yields_deliverLoginCode u hash sent w :
  inv w → event_ok s asked (journal w) (EDelivered u hash sent) →
  yields (λ _ j, EDelivered u hash sent ∈ j) (deliverLoginCode s u hash sent) w.
Proof.
  intros Hw (c & Hc & Hu & Hs). unfold deliverLoginCode. destruct (negb _); [apply yields_fail|].
  intros w1 Hi Hg b w2 E. cbn in E.
  pose proof (sends_inv w1 (match outage w1, login_message_outcome (draws w1) with true, _ | _, Refused => false | _, _ => true end)
    (EDelivered u hash sent) Hi ltac:(done) (ex_intro _ c (conj (issued_grow _ _ _ _ Hc Hg) (conj Hu Hs)))) as Hsent.
  destruct (outage w1); [|destruct (login_message_outcome (draws w1))]; injection E as <- <-; destruct Hsent; split_and!; try done.
  intros a _. cbn. apply elem_of_app. right. by apply list_elem_of_singleton.
Qed.

Lemma yields_deliverOTP recipient sent w :
  inv w → event_ok s asked (journal w) (EProvider recipient sent) →
  yields (λ _ j, EProvider recipient sent ∈ j) (deliverOTP recipient sent) w.
Proof.
  intros Hw (hash & c & Hc & Hs & Hr). intros w1 Hi Hg b w2 E. cbn in E.
  pose proof (sends_inv w1 (match provider_outcome (draws w1) with Refused => false | _ => true end)
    (EProvider recipient sent) Hi ltac:(done) (ex_intro _ hash (ex_intro _ c (conj (issued_grow _ _ _ _ Hc Hg) (conj Hs Hr))))) as Hsent.
  destruct (provider_outcome (draws w1)); injection E as <- <-; destruct Hsent; split_and!; try done.
  all: intros a _; cbn; apply elem_of_app; right; by apply list_elem_of_singleton.
Qed.

(** A code that is stored, its number still its owner's, and then [k]. *)
Lemma yields_store {A} (Q : A → list event → Prop) hash c ttl (k : result A) w :
  inv w → (∀ w', inv w' → grows w w' → stored (journal w') hash c → yields Q k w') →
  yields Q (codes_Set hash c ttl ;;! ensureIssuedOwnerAfterSet hash c ;;! k) w.
Proof.
  intros Hw Hk. eapply yields_bind; [done|by apply yields_codes_Set|]. intros [] w1 Hw1 Hg1 Hset.
  eapply yields_bind; [done|by apply yields_ensure|]. intros [] w2 Hw2 Hg2 Hst. apply Hk; [done|by etrans|done].
Qed.

Lemma yields_to_account hash c w :
  inv w → issued_at (journal w) hash c →
  yields (λ _ j, IssuedUserID c ≠ 0 → EDelivered (IssuedUserID c) hash (Code c) ∈ j) (deliver_to_account s hash c) w.
Proof.
  intros Hw Hc. unfold deliver_to_account. destruct (Z.eqb_spec (IssuedUserID c) 0) as [|Hne]; [by apply yields_ok|].
  eapply yields_bind; [done|apply yields_or_rollback; [done|]; apply yields_deliverLoginCode; [done|by exists c]|].
  intros [] w1 Hw1 Hg1 Hd. eapply yields_mono; [done|by apply quiet_ensure|]. intros [] w2 Hw2 Hg2 _ _. by eapply event_grow.
Qed.

Lemma yields_to_provider hash recipient c w :
  inv w → issued_at (journal w) hash c → recipient = pc_Phone c ∨ recipient = Email c →
  yields (λ _ j, IssuedUserID c = 0 → EProvider recipient (Code c) ∈ j) (deliver_to_provider hash recipient c) w.
Proof.
  intros Hw Hc Hr. assert (yields (λ _ j, EProvider recipient (Code c) ∈ j) (deliverOTP recipient (Code c)) w) as Hd
    by (apply yields_deliverOTP; [done|by exists hash, c]).
  unfold deliver_to_provider. destruct (Z.eqb_spec (IssuedUserID c) 0) as [Hz|Hne]; cbn [negb].
  - eapply yields_mono; [done|by apply yields_or_rollback|]. auto.
  - unfold deliverOTPWithAppFallback, ignore. eapply yields_catch; [done|exact Hd|..]; intros; by apply yields_ok.
Qed.

(** What has become of a code whose hash is answered: that of an existing account
    is in its own messages; that of a new number went to the number or to the
    login e-mail through the provider; without a provider for numbers it is the
    fixed code, which is not sent to anybody; and where an e-mail has to be set up
    first there is no code. *)
Inductive reached (j : list event) hash (c : PhoneCode) : Prop :=
  | reached_account :
      IssuedUserID c ≠ 0 → Channel c ≠ PhoneCodeChannelEmailSetupRequired → EDelivered (IssuedUserID c) hash (Code c) ∈ j →
      reached j hash c
  | reached_number :
      IssuedUserID c = 0 → Channel c = PhoneCodeChannelSMS → has_phoneCodeSender s = true → EProvider (pc_Phone c) (Code c) ∈ j →
      reached j hash c
  | reached_address :
      IssuedUserID c = 0 → Channel c = PhoneCodeChannelEmailLogin → has_loginEmailSender s = true → EProvider (Email c) (Code c) ∈ j →
      reached j hash c
  | fixed_code :
      IssuedUserID c = 0 → Channel c = PhoneCodeChannelPhone → has_phoneCodeSender s = false → Code c = fixedCode s →
      reached j hash c
  | no_code :
      Channel c = PhoneCodeChannelEmailSetupRequired → loginEmailRequireSetup s = true → Code c = ""%string →
      reached j hash c.

Lemma reached_grow j j' hash c : reached j hash c → j `prefix_of` j' → reached j' hash c.
Proof.
  intros [? ? Hin|? ? ? Hin|? ? ? Hin|?|?] Hj;
    [by apply reached_account; [..|eapply event_grow]|by apply reached_number; [..|eapply event_grow]
    |by apply reached_address; [..|eapply event_grow]|by apply fixed_code|by apply no_code].
Qed.

(** A hash that a client may be told. *)
Definition code_sent phone (issued : Z) hash (j : list event) : Prop :=
  ∃ c, stored j hash c ∧ reached j hash c ∧ pc_Phone c = phone ∧ IssuedUserID c = issued
    ∧ Version c = PhoneCodeVersionCurrent ∧ Purpose c = ""%string ∧ SignUpVerified c = false ∧ Attempts c = 0
    ∧ MaxAttempts c = codeMaxAttempts s.

Lemma code_is_sent phone issued sent deliveryID channel email hash j :
  let c := login_code s issued phone sent deliveryID channel email in
  stored j hash c → reached j hash c → code_sent phone issued hash j.
Proof. intros c Hst Hr. exists c. done. Qed.

Lemma yields_createPhoneCode phone issued w :
  inv w → yields (λ hash j, code_sent phone issued hash j) (createPhoneCode s phone issued) w.
Proof.
  intros Hw. unfold createPhoneCode. eapply yields_program; [done|by apply quiet_randomHex|]. intros hash w1 Hw1 _.
  eapply safe_seq; [exact _|done|by apply phone_code_channel|]. intros [[sent deliveryID] channel] w2 Hw2 _ Hch. cbn [snd] in Hch.
  cbn zeta beta iota. set (rec := login_code _ _ _ _ _ _ _). apply yields_store; [done|]. intros w3 Hw3 _ Hst.
  eapply yields_bind; [done|apply yields_to_account; [done|by apply stored_issued]|]. intros [] w4 Hw4 Hg4 Hacc.
  assert (stored (journal w4) hash rec) as Hst4 by (by eapply stored_grow).
  destruct (has_phoneCodeSender s) eqn:Hsender.
  - eapply yields_bind; [done|apply yields_to_provider; [done|by apply stored_issued|by left]|]. intros [] w5 Hw5 Hg5 Hprov.
    eapply yields_bind; [done|by apply quiet_ensure|]. intros [] w6 Hw6 Hg6 _. apply yields_ok.
    apply (code_is_sent phone issued sent deliveryID channel ""); [eapply stored_grow; [exact Hst4|by etrans]|].
    destruct (decide (issued = 0)) as [Hz|Hz].
    + apply reached_number; [done..|]. eapply event_grow; [by apply Hprov|done].
    + apply reached_account; [done|by subst channel|]. eapply event_grow; [by apply Hacc|by etrans].
  - apply yields_ok. apply (code_is_sent phone issued sent deliveryID channel ""); [done|]. destruct Hch as [-> Hsent].
    destruct (decide (issued = 0)) as [Hz|Hz]; [by apply fixed_code|]. apply reached_account; [done..|]. by apply Hacc.
Qed.

Lemma yields_createSetupRequiredCode phone issued w :
  inv w → yields (λ hash j, loginEmailRequireSetup s = true → code_sent phone issued hash j) (createSetupRequiredCode s phone issued) w.
Proof.
  intros Hw. unfold createSetupRequiredCode. eapply yields_program; [done|by apply quiet_randomHex|]. intros hash w1 Hw1 _.
  apply yields_store; [done|]. intros w2 Hw2 _ Hst. apply yields_ok. intros Hsetup.
  apply (code_is_sent _ _ "" "" PhoneCodeChannelEmailSetupRequired ""); [done|]. by apply no_code.
Qed.

Lemma yields_createEmailLoginCode phone email issued w :
  inv w → yields (λ hash j, code_sent phone issued hash j) (createEmailLoginCode s phone email issued) w.
Proof.
  intros Hw. unfold createEmailLoginCode. eapply yields_program; [done|by apply quiet_randomHex|]. intros hash w1 Hw1 _.
  eapply yields_program; [done|by apply quiet_randomDigits|]. intros sent w2 Hw2 _.
  eapply yields_program; [done|by apply quiet_NewDeliveryID|]. intros deliveryID w3 Hw3 _. cbn zeta.
  set (rec := login_code _ _ _ _ _ _ _). apply yields_store; [done|]. intros w4 Hw4 _ Hst.
  eapply yields_bind; [done|apply yields_to_account; [done|by apply stored_issued]|]. intros [] w5 Hw5 Hg5 Hacc.
  assert (stored (journal w5) hash rec) as Hst5 by (by eapply stored_grow).
  assert (∀ j, stored j hash rec → reached j hash rec → code_sent phone issued hash j) as Hsent
    by (intros j; apply code_is_sent).
  destruct (has_loginEmailSender s) eqn:Hsender; cbn [negb].
  - eapply yields_bind; [done|apply yields_to_provider; [done|by apply stored_issued|by right]|]. intros [] w6 Hw6 Hg6 Hprov.
    eapply yields_bind; [done|by apply quiet_ensure|]. intros [] w7 Hw7 Hg7 _. apply yields_ok.
    apply Hsent; [eapply stored_grow; [exact Hst5|by etrans]|].
    destruct (decide (issued = 0)) as [Hz|Hz].
    + apply reached_address; [done..|]. eapply event_grow; [by apply Hprov|done].
    + apply reached_account; [done..|]. eapply event_grow; [by apply Hacc|by etrans].
  - destruct (Z.eqb_spec issued 0) as [Hz|Hne]; cbn [negb]; [by apply yields_rollback|]. apply yields_ok. apply Hsent; [done|].
    apply reached_account; [done..|]. by apply Hacc.
Qed.

Lemma yields_guard {A} (P : A → list event → Prop) b e (k : result A) w :
  inv w → (b = false → yields P k w) → yields P (guard b e ;;! k) w.
Proof. intros Hw Hk. destruct b; [apply yields_fail|by apply Hk]. Qed.

Lemma yields_SendCode phone w :
  inv w → yields (λ hash j, ∃ issued, code_sent (NormalizePhone phone) issued hash j) (SendCode s phone) w.
Proof.
  intros Hw. unfold SendCode. set (phone' := NormalizePhone phone).
  do 2 (apply yields_guard; [done|intros _]).
  eapply yields_bind; [done|by apply quiet_currentPhoneOwner|]. intros existing w1 Hw1 _ _. apply yields_guard; [done|intros _].
  assert (∀ w (p : result string), inv w → yields (λ hash j, code_sent phone' (owner_id existing) hash j) p w →
    yields (λ hash j, ∃ issued, code_sent phone' issued hash j) p w) as Hany.
  { intros w' p Hw' Hp. eapply yields_mono; [done|exact Hp|]. eauto. }
  assert (∀ w, inv w → yields (λ hash j, ∃ issued, code_sent phone' issued hash j)
    (if loginEmailRequireSetup s then createSetupRequiredCode s phone' (owner_id existing)
     else createPhoneCode s phone' (owner_id existing)) w) as Hno_email.
  { intros w' Hw'. apply Hany; [done|]. destruct (loginEmailRequireSetup s) eqn:Hsetup;
      [|by apply yields_createPhoneCode].
    eapply yields_mono; [done|by apply yields_createSetupRequiredCode|auto]. }
  cbn zeta. destruct (_ && _); [|apply Hany; [done|by apply yields_createPhoneCode]].
  eapply yields_bind; [done|by apply quiet_external|]. intros [email|] w2 Hw2 _ _; [|by apply Hno_email].
  destruct (negb _); [|by apply Hno_email]. apply Hany; [done|by apply yields_createEmailLoginCode].
Qed.

Lemma yields_SendPhoneCodeAfterLoginEmailReset phone expected w :
  inv w →
  yields (λ hash j, code_sent (NormalizePhone phone) expected hash j ∧ expected ≠ 0)
    (SendPhoneCodeAfterLoginEmailReset s phone expected) w.
Proof.
  intros Hw. unfold SendPhoneCodeAfterLoginEmailReset. apply yields_guard; [done|intros _].
  apply yields_guard; [done|intros Hz]. bool_facts.
  eapply yields_bind; [done|by apply quiet_currentPhoneOwner|]. intros owner w1 Hw1 _ _. apply yields_guard; [done|intros _].
  eapply yields_mono; [done|by apply yields_createPhoneCode|done].
Qed.

(** ** Resending and withdrawing *)

Lemma quiet_check_issued_owner hash phone c : quiet (check_issued_owner hash phone c).
Proof. unfold check_issued_owner. apply quiet_bind; [apply quiet_issuedOwnerMatches|intros []; be_quiet]. Qed.

Lemma quiet_take_code k phone hash : quiet (take_code k phone hash).
Proof.
  unfold take_code. apply quiet_bind; [by apply quiet_or_expired, quiet_codes_Get|]. intros rec.
  apply quiet_bind; [apply quiet_guard|]. intros _. case_bool_decide.
  - apply quiet_bind; [apply quiet_guard|]. intros _.
    apply quiet_bind; [apply quiet_or_expired, quiet_codes_ConsumeScoped|]. intros. apply quiet_ok.
  - destruct (negb _); [be_quiet|]. apply quiet_bind; [apply quiet_check_issued_owner|]. intros _.
    apply quiet_bind; [apply quiet_or_expired, quiet_codes_Take|]. intros. apply quiet_ok.
Qed.

Lemma quiet_recreateChangePhoneCode c : quiet (recreateChangePhoneCode s c).
Proof.
  intros w Hw. unfold recreateChangePhoneCode. eapply yields_program; [done|by apply quiet_randomHex|]. intros hash w1 Hw1 _.
  eapply yields_program; [done|by apply quiet_phone_code_parts|]. intros [[sent deliveryID] channel] w2 Hw2 _. cbn zeta beta iota.
  set (rec := resent _ _ _ _ _). eapply yields_bind; [done|by apply yields_codes_Set|]. intros [] w3 Hw3 _ Hset.
  destruct (has_phoneCodeSender s); [|by apply yields_ok].
  eapply yields_catch; [done|apply yields_deliverOTP; [done|]| |].
  - exists hash, rec. auto.
  - intros [] w4 Hw4 _ _. by apply yields_ok.
  - intros e w4 Hw4 _. eapply yields_catch; [done|by apply quiet_codes_ConsumeScoped|..]; intros; apply yields_fail.
Qed.

Lemma quiet_of_yields {A} (P : A → list event → Prop) (p : result A) : (∀ w, inv w → yields P p w) → quiet p.
Proof. intros Hp w Hw. eapply yields_mono; [done|by apply Hp|done]. Qed.

Lemma quiet_resendCode k phone hash : quiet (resendCode s k phone hash).
Proof.
  unfold resendCode. apply quiet_bind; [apply quiet_take_code|]. intros [c|c]; [apply quiet_recreateChangePhoneCode|].
  apply quiet_bind; [apply quiet_check_issued_owner|]. intros _.
  destruct (_ && _); [eapply quiet_of_yields; intros; by apply yields_createEmailLoginCode|].
  case_bool_decide; [eapply quiet_of_yields; intros; by apply yields_createSetupRequiredCode|].
  apply quiet_bind; [apply quiet_guard|]. intros _. eapply quiet_of_yields. intros. by apply yields_createPhoneCode.
Qed.

Lemma quiet_cancelCode k phone hash : quiet (cancelCode k phone hash).
Proof. unfold cancelCode. apply quiet_bind; [apply quiet_take_code|]. intros _. apply quiet_ok. Qed.

Lemma quiet_ConsumeLoginEmailReset phone hash : quiet (ConsumeLoginEmailReset s phone hash).
Proof.
  unfold ConsumeLoginEmailReset. apply quiet_bind; [apply quiet_guard|]. intros _.
  apply quiet_bind; [by apply quiet_or_expired, quiet_codes_Get|]. intros rec. destruct (negb (Version rec =? _)); [be_quiet|].
  apply quiet_bind; [apply quiet_guard|]. intros _. apply quiet_bind; [apply quiet_currentPhoneOwner|]. intros before.
  destruct (_ || _); [be_quiet|]. apply quiet_bind; [apply quiet_or_expired, quiet_codes_Take|]. intros consumed. be_quiet.
Qed.

End issuing.
