(* ===== verification/SignInLogin.v ===== *)
(** What signing in, signing up and binding prove, call by call. *)

From S2P Require Import Prelude GoStrings Programs AuthCodes AuthKeys AuthKeysInv SignIn SignInCodes SignInService SignInInv SignInSteps.

Open Scope Z_scope.
Open Scope result_scope.

#[local] Set Default Proof Using "Type".

Section login.
Context {env : Environment} (s : Service) (asked : call → Prop).

#[local] Abbreviation inv := (inv s asked).
#[local] Abbreviation yields := (yields s asked).
#[local] Abbreviation quiet := (quiet s asked).
#[local] Abbreviation reason := (reason s asked).

Implicit Types (w : world) (hash phone guess : string) (a : Authorization).

(** * Binding *)

Lemma yields_login_user userID e w :
  inv w → yields (λ u _, u_ID u = userID ∧ systemUserLoginForbidden u = false) (login_user userID e) w.
Proof.
  intros Hw. unfold login_user. apply (yields_bind s asked (λ o _, ∀ u, o = Some u → u_ID u = userID)); [done| |].
  - apply yields_ask. intros w1 Hi _. cbn. split; [split; [done|by apply grows_preorder]|]. intros u Hu.
    by apply (proj2 (i_users _ _ _ Hi) userID u).
  - intros [u|] w1 Hw1 _ Hu; [|apply yields_fail]. apply yields_guard; [done|]. intros Hf. apply yields_ok. auto.
Qed.

Lemma yields_login a userID pending w :
  inv w → reason (journal w) (AuthKeyID a) userID pending →
  yields (λ _ j, EBound (AuthKeyID a) userID pending ∈ j) (bind a userID pending) w.
Proof.
  intros Hw Hr. unfold bind. apply yields_guard; [done|]. intros _.
  eapply yields_bind; [done|by apply yields_login_user|]. intros u w1 Hw1 Hg1 _.
  eapply yields_bind; [done|by apply quiet_keys_Get|]. intros key w2 Hw2 Hg2 _. apply yields_guard; [done|]. intros _.
  eapply yields_catch; [done|apply yields_auths_Bind; [done|]| |].
  - eapply reason_grow; [exact Hr|by etrans].
  - intros [] w3 Hw3 _ Hb. by apply yields_ok.
  - intros e w3 Hw3 _. repeat case_match; apply yields_fail.
Qed.

(** * Codes *)

(** The code was right, and after that the number was that user's. *)
Definition verified_for (j : list event) phone hash guess (u : User) : Prop :=
  ∃ revision default c,
    followed_by (ECode (OpVerifyLogin revision hash phone guess false default, Verified (accepted c))) (EOwner phone (Some u)) j
    ∧ IssuedUserID c = u_ID u ∧ systemUserLoginForbidden u = false.

Definition verifies j phone hash guess (r : PhoneCode * option User) : Prop :=
  ∀ u, r.2 = Some u → verified_for j phone hash guess u.

Lemma yields_verify_kept rec found phone hash guess w :
  inv w → yields (λ r j, verifies j phone hash guess r) (verify_kept rec found phone hash guess) w.
Proof.
  intros Hw. unfold verify_kept. apply yields_guard; [done|]. intros _.
  eapply yields_bind; [done|by apply quiet_currentPhoneOwner|]. intros [u|] w1 Hw1 _ _; [|by apply yields_ok].
  eapply yields_bind; [done|by apply quiet_invalidate|]. intros. apply yields_fail.
Qed.

(** The owner before the code was checked, a user if it is the number of one. *)
Lemma yields_verify_now rec before phone hash guess w :
  inv w → (∀ u, before = Some u → 0 < u_ID u) →
  yields (λ r j, verifies j phone hash guess r) (verify_now s rec before phone hash guess) w.
Proof.
  intros Hw Hbefore. unfold verify_now. eapply yields_bind; [done|by apply yields_codes_VerifyLogin|]. intros r w1 Hw1 _ Hr.
  destruct (decide (Status r = LoginCodeVerifyAccepted)) as [Hs|Hs].
  - destruct (Hr Hs) as [revision He]. eapply yields_bind; [done|apply yields_currentPhoneOwner; [done|exact He]|].
    intros after w2 Hw2 _ [Hf Hpos]. destruct (_ || _) eqn:Hmatch.
    { eapply yields_bind; [done|by apply quiet_invalidate|]. intros. apply yields_fail. }
    rewrite Hs. apply yields_guard; [done|]. intros Hc. apply yields_guard; [done|]. intros Hforbidden. apply yields_ok.
    intros u Hu. cbn in Hu. subst after. specialize (Hpos u eq_refl).
    apply orb_false_iff in Hmatch as [Hm _], Hc as [_ Hc]. bool_facts. cbn in Hm, Hc.
    destruct before as [u0|]; [|cbn in Hm; lia]. exists revision, (codeMaxAttempts s), (vr_Record r).
    rewrite bool_decide_eq_true_2 in Hf by done. split_and!; [done|lia|done].
  - eapply yields_bind; [done|by apply quiet_currentPhoneOwner|]. intros after w2 Hw2 _ _. destruct (_ || _).
    { eapply yields_bind; [done|by apply quiet_invalidate|]. intros. apply yields_fail. }
    destruct (Status r); [apply yields_fail..|done].
Qed.

Lemma yields_verifyLoginCode phone hash guess w :
  inv w → yields (λ r j, verifies j phone hash guess r) (verifyLoginCode s phone hash guess) w.
Proof.
  intros Hw. unfold verifyLoginCode. eapply yields_bind; [done|apply quiet_or_expired; [apply quiet_codes_Get|done]|].
  intros rec w1 Hw1 _ _. destruct (negb _).
  { eapply yields_bind; [done|apply quiet_ignore; [apply quiet_codes_Take|done]|]. intros. apply yields_fail. }
  apply yields_guard; [done|]. intros _. apply yields_guard; [done|]. intros _.
  apply (yields_bind s asked (λ o _, ∀ u, o = Some u → 0 < u_ID u)); [done| |].
  { apply yields_ask. intros w2 Hi _. cbn [fst snd]. split; [by apply note_inv|]. intros u Hu.
    case_bool_decide; [done|]. apply find_phone_users in Hu as [id Hu].
    destruct (proj2 (i_users _ _ _ Hi) id u Hu) as [-> Hpos]. exact Hpos. }
  intros before w2 Hw2 _ Hbefore. apply yields_guard; [done|]. intros _. destruct (negb _).
  { eapply yields_bind; [done|by apply quiet_invalidate|]. intros. apply yields_fail. }
  destruct (SignUpVerified rec); [by apply yields_verify_kept|by apply yields_verify_now].
Qed.

(** What has been bound when a sign-in answers. *)
Definition session_opened (j : list event) (k : Z) (x : signed_in) : Prop :=
  match x with
  | SignedIn u => EBound k (u_ID u) false ∈ j
  | NeedPassword u => EBound k (u_ID u) true ∈ j
  | NeedSignUp => True
  end.

Lemma yields_SignIn a phone hash guess w :
  inv w → asked_to_sign_in asked a phone hash guess →
  yields (λ x j, session_opened j (AuthKeyID a) x) (SignIn s a phone hash guess) w.
Proof.
  intros Hw Ha. unfold SignIn. apply yields_guard; [done|]. intros _.
  eapply yields_bind; [done|by apply yields_verifyLoginCode|]. intros [rec [u|]] w1 Hw1 _ Hv; cbn [snd]; [|by apply yields_ok].
  destruct (Hv u eq_refl) as (revision & default & c & Hf & Hc & Hforbidden). unfold finishSignIn.
  apply yields_guard; [done|]. intros _. eapply yields_bind; [done|by apply yields_passwordNeeded|]. intros needed w2 Hw2 Hg2 Hn.
  eapply yields_bind; [done|apply yields_login; [done|]|].
  - eapply by_code; eauto using followed_by_grow.
  - intros [] w3 Hw3 _ Hb. apply yields_ok. destruct needed; exact Hb.
Qed.

(** * Signing up *)

Lemma yields_unowned phone e (taken : result ()) w :
  inv w → e ∈ journal w → quiet taken → yields (λ _ j, followed_by e (EOwner phone None) j) (unowned phone taken) w.
Proof.
  intros Hw He Ht. unfold unowned. eapply yields_bind; [done|by apply (yields_currentPhoneOwner s asked phone e)|].
  intros [u|] w1 Hw1 _ [Hf _]; [|by apply yields_ok]. eapply yields_bind; [done|by apply Ht|]. intros. apply yields_fail.
Qed.

Lemma quiet_unowned phone (taken : result ()) : quiet taken → quiet (unowned phone taken).
Proof.
  intros Ht. unfold unowned. apply quiet_bind; [apply quiet_currentPhoneOwner|]. intros [u|]; [|apply quiet_ok].
  apply quiet_bind; [done|]. intros. apply quiet_fail.
Qed.

Lemma yields_sign_up_code phone hash w :
  inv w →
  yields (λ c j, followed_by (ECode (OpConsumeSignUpVerified hash phone, Found (Some c))) (EOwner phone None) j)
    (sign_up_code s phone hash) w.
Proof.
  intros Hw. unfold sign_up_code. eapply yields_bind; [done|apply quiet_or_expired; [apply quiet_codes_Get|done]|].
  intros rec w1 Hw1 _ _. destruct (negb _).
  { eapply yields_bind; [done|apply quiet_ignore; [apply quiet_codes_ConsumeSignUp|done]|]. intros. apply yields_fail. }
  apply yields_guard; [done|]. intros _. apply yields_guard; [done|]. intros _. destruct (negb _).
  { eapply yields_bind; [done|by apply quiet_invalidate|]. intros. apply yields_fail. }
  apply yields_guard; [done|]. intros _. apply yields_guard; [done|]. intros _.
  eapply yields_bind; [done|apply quiet_unowned; [apply quiet_invalidate|done]|]. intros _ w2 Hw2 _ _.
  apply (yields_bind s asked (λ c j, ECode (OpConsumeSignUpVerified hash phone, Found (Some c)) ∈ j)); [done| |].
  { unfold or_expired. eapply yields_bind; [done|by apply yields_codes_ConsumeSignUp|]. intros [c|] w3 Hw3 _ Hc; [|apply yields_fail].
    apply yields_ok. by apply Hc. }
  intros c w3 Hw3 _ Hc. apply yields_guard; [done|]. intros _.
  eapply yields_bind; [done|apply yields_unowned; [done|exact Hc|apply quiet_ok]|]. intros [] w4 Hw4 _ Hf. by apply yields_ok.
Qed.

Lemma yields_SignUp a phone hash first last w :
  inv w → asked (CSignUp a phone hash first last) →
  yields (λ u j, u_Phone u = NormalizePhone phone ∧ ECreated u ∈ j ∧ EBound (AuthKeyID a) (u_ID u) (PasswordPending a) ∈ j)
    (SignUp s a phone hash first last) w.
Proof.
  intros Hw Ha. unfold SignUp. do 3 (apply yields_guard; [done|]; intros _).
  eapply yields_bind; [done|by apply yields_sign_up_code|]. intros c w1 Hw1 _ Hf.
  eapply yields_program; [done|by apply quiet_randomInt64|]. intros accessHash w2 Hw2 Hg2.
  eapply yields_program; [done|by apply quiet_read|]. intros premium w3 Hw3 Hg3.
  assert (grows w1 w3) as Hg by (by etrans). pose proof (followed_by_grow _ _ _ _ Hf Hg) as (j1 & j2 & Hj & _).
  eapply yields_bind; [done|apply yields_users_Create; [done|]|].
  { exists hash, c. cbn. rewrite Hj. apply elem_of_app. right. by left. }
  cbn beta. intros u w4 Hw4 Hg4 [Hcreated Hphone]. cbn in Hphone.
  apply (yields_bind s asked (λ _ _, True)); [done|destruct (_ && _ && _); [by apply quiet_external|by apply yields_ok]|].
  intros _ w5 Hw5 Hg5 _. assert (ECreated u ∈ journal w5) as Hcreated5 by (by eapply event_grow).
  eapply yields_bind; [done|apply yields_login; [done|]|].
  { eapply by_sign_up; [exact Ha| |exact Hcreated5|exact Hphone]. eapply followed_by_grow; [exact Hf|].
    etrans; [exact Hg|]. by etrans. }
  intros [] w6 Hw6 Hg6 Hb.
  apply (yields_bind s asked (λ _ _, True)); [done|destruct (_ && _); [by apply quiet_external|by apply yields_ok]|].
  intros _ w7 Hw7 Hg7 _. apply yields_ok. split_and!; [done|eapply event_grow; [exact Hcreated5|by etrans]|by eapply event_grow].
Qed.

(** * Other proofs of identity *)

Lemma yields_SignInBot a token w :
  inv w → asked (CSignInBot a token) →
  yields (λ u j, EBound (AuthKeyID a) (u_ID u) false ∈ j) (SignInBot s a token) w.
Proof.
  intros Hw Ha. unfold SignInBot. destruct (if has_bots s then _ else _) as [[botUserID secret]|] eqn:Hparse; [|apply yields_fail].
  assert (ParseBotToken (TrimSpace token) = Some (botUserID, secret)) as Htoken by (by destruct (has_bots s)).
  eapply yields_bind; [done|apply yields_bots_GetBot|]. intros kept w1 Hw1 _ Hkept. apply yields_guard; [done|]. intros Hm.
  apply negb_false_iff in Hm. unfold secret_matches in Hm. destruct kept as [kept|]; [|done]. bool_facts. subst kept.
  apply (yields_bind s asked (λ o _, ∀ u, o = Some u → u_ID u = botUserID)); [done| |].
  { apply yields_ask. intros w2 Hi _. cbn. split; [split; [done|by apply grows_preorder]|]. intros u Hu.
    by apply (proj2 (i_users _ _ _ Hi) botUserID u). }
  intros [u|] w2 Hw2 Hg2 Hu; [|apply yields_fail]. rewrite (Hu u eq_refl). apply yields_guard; [done|]. intros _.
  eapply yields_bind; [done|apply yields_login; [done|]|].
  { eapply by_token; [exact Ha|exact Htoken|done|]. eapply event_grow; [by apply Hkept|done]. }
  intros [] w3 Hw3 _ Hb. eapply yields_catch; [done|by apply quiet_bots_GetBot|..].
  - intros again w4 Hw4 Hg4 _. destruct (secret_matches again secret).
    + apply yields_ok. rewrite (Hu u eq_refl). by eapply event_grow.
    + eapply yields_bind; [done|apply quiet_ignore; [apply quiet_auths_Delete|done]|]. intros. apply yields_fail.
  - intros e w4 Hw4 _. eapply yields_bind; [done|apply quiet_ignore; [apply quiet_auths_Delete|done]|]. intros. apply yields_fail.
Qed.

Lemma yields_BindVerifiedLogin a userID w :
  inv w → asked (CBindVerifiedLogin a userID) →
  yields (λ u j, EBound (AuthKeyID a) (u_ID u) false ∈ j) (BindVerifiedLogin a userID) w.
Proof.
  intros Hw Ha. unfold BindVerifiedLogin. apply yields_guard; [done|]. intros _.
  eapply yields_bind; [done|by apply yields_login_user|]. intros u w1 Hw1 _ [Hu _].
  eapply yields_bind; [done|apply yields_login; [done|]|]; [eapply by_voucher; eauto|].
  intros [] w2 Hw2 _ Hb. apply yields_ok. by rewrite Hu.
Qed.

Lemma quiet_AcceptLoginToken a userID : asked (CAcceptLoginToken a userID) → quiet (AcceptLoginToken a userID).
Proof.
  intros Ha w Hw. unfold AcceptLoginToken. do 2 (apply yields_guard; [done|]; intros _).
  eapply yields_bind; [done|apply yields_login; [done|]|]; [eapply by_voucher; eauto|].
  intros [] w2 Hw2 _ _. eapply yields_bind; [done|by apply quiet_reads|]. intros. by apply yields_ok.
Qed.

(** * What a key is signed in as *)

Definition fully_signed_in (j : list event) (k u : Z) : Prop := EBound k u false ∈ j ∨ EPasswordPassed k u ∈ j.

Lemma yields_row_user k a w :
  inv w → row_ok (journal w) k a →
  yields (λ o j, ∀ u, o = Some u → u = UserID a ∧ row_ok j k a) (row_user k a) w.
Proof.
  intros Hw Ha. unfold row_user. eapply yields_bind; [done|by apply quiet_users_ByID|]. intros [u|] w1 Hw1 Hg _.
  1: destruct (systemUserLoginForbidden u).
  2: { apply yields_ok. intros ? [= <-]. split; [done|by eapply row_ok_grow]. }
  all: (eapply yields_bind; [done|apply quiet_ignore; [apply quiet_auths_Delete|done]|]); intros; by apply yields_ok.
Qed.

Lemma yields_UserID k w : inv w → yields (λ o j, ∀ u, o = Some u → fully_signed_in j k u) (auth_UserID k) w.
Proof.
  intros Hw. unfold auth_UserID. eapply yields_bind; [done|apply yields_ByAuthKey|].
  intros [a|] w1 Hw1 _ Ha; [|by apply yields_ok]. destruct (PasswordPending a) eqn:Hp; [by apply yields_ok|].
  eapply yields_mono; [done|by apply yields_row_user, Ha|]. cbn. intros o w2 _ _ Ho u Hu.
  destruct (Ho u Hu) as [-> [Hb|[_ Hb]]]; [left|by right]. by rewrite Hp in Hb.
Qed.

Lemma yields_PendingPasswordUserID k w :
  inv w → yields (λ o j, ∀ u, o = Some u → EBound k u true ∈ j) (PendingPasswordUserID k) w.
Proof.
  intros Hw. unfold PendingPasswordUserID. eapply yields_bind; [done|apply yields_ByAuthKey|].
  intros [a|] w1 Hw1 _ Ha; [|by apply yields_ok]. destruct (PasswordPending a) eqn:Hp; [|by apply yields_ok].
  eapply yields_mono; [done|by apply yields_row_user, Ha|]. cbn. intros o w2 _ _ Ho u Hu.
  destruct (Ho u Hu) as [-> [Hb|[Hf _]]]; [by rewrite Hp in Hb|congruence].
Qed.

Lemma yields_CompletePasswordSignIn k u w :
  inv w → asked (CCompletePasswordSignIn k u) →
  yields (λ _ j, EPasswordPassed k u ∈ j) (CompletePasswordSignIn k u) w.
Proof.
  intros Hw Ha. unfold CompletePasswordSignIn. apply yields_guard; [done|]. intros _.
  eapply yields_bind; [done|by apply yields_MarkPasswordPassed|]. intros [] w1 Hw1 _ Hp.
  eapply yields_bind; [done|by apply yields_UserID|]. intros o w2 Hw2 Hg _.
  unfold guard. destruct (negb _); [apply yields_fail|]. apply yields_ok. by eapply event_grow.
Qed.

(** * Keys *)

Lemma quiet_key_step {A} op (f : world → A) :
  key_op_ok op → binds op = false →
  quiet (ask (λ w, (f w, set_auth (perform_key (clock w) op (auth w)) w))).
Proof. intros Hop Hb. apply quiet_ask. intros w Hw. by apply perform_key_inv. Qed.

Lemma ask_ext {A} (f g : world → A * world) : (∀ w, f w = g w) → (∀ Q w, yields Q (ask g) w → yields Q (ask f) w).
Proof. intros E Q w H. cbn in *. intros w1 Hi Hg b w2. rewrite E. by apply H. Qed.

Lemma quiet_flatten {A} (p : result (res auth_key_error A)) : quiet p → quiet (flatten p).
Proof. intros Hp. unfold flatten. apply quiet_bind; [done|]. intros [a|e]; [apply quiet_ok|apply quiet_fail]. Qed.

Ltac quiet_key op :=
  let w := fresh in intros w ?; eapply ask_ext; [|by apply (quiet_key_step op); [exact I|reflexivity|]];
  intros ?; cbn [perform_key]; match goal with |- context [let '(_, _) := ?p in _] => by rewrite (surjective_pairing p) end.

Lemma quiet_ResetAuthorization u h order : quiet (ResetAuthorization u h order).
Proof. unfold ResetAuthorization. destruct (u =? 0); [apply quiet_ok|]. quiet_key (KRevokeByHash u h order). Qed.

Lemma quiet_ResetAuthorizations u keep : quiet (ResetAuthorizations u keep).
Proof. unfold ResetAuthorizations. destruct (u =? 0); [apply quiet_ok|]. quiet_key (KRevokeByUserExcept u keep). Qed.

Lemma quiet_UpdateAuthKeyClientInfo k layer info ip : quiet (UpdateAuthKeyClientInfo k layer info ip).
Proof.
  unfold UpdateAuthKeyClientInfo. destruct (k =? 0); [apply quiet_ok|].
  apply quiet_bind; [apply quiet_flatten; quiet_key (KUpdateClientInfo k layer info)|]. intros _.
  apply quiet_flatten. quiet_key (KUpdateAuthorization k info ip).
Qed.

(** The proof, and that nothing but the proof's session is taken from it. *)
Lemma yields_validate session b w :
  inv w → asked (CBindTempAuthKey session b) →
  yields (λ r j, r.1.1 = session ∧ bind_proof asked j (proven_binding session r.1.2 b)) (validateBindTempAuthKey session b) w.
Proof.
  intros Hw Ha. unfold validateBindTempAuthKey. eapply yields_program; [done|by apply quiet_unix|]. intros t0 w1 Hw1 _.
  apply yields_guard; [done|]. intros _. eapply yields_bind; [done|apply yields_LoadBindingKeys|].
  intros [[temp|] [perm|]] w2 Hw2 _ (Hkeys & Htemp & Hperm); cbn [fst snd] in *.
  all: eapply yields_program; [done|by apply quiet_unix|]; intros t1 w3 Hw3 Hg3; try apply yields_fail.
  all: apply yields_guard; [done|]; intros _; try apply yields_fail.
  apply yields_guard; [done|]. intros Hexp. bool_facts.
  destruct (decrypt_inner _ _ _) as [inner|] eqn:Hin; [|apply yields_fail]. apply yields_guard; [done|]. intros Hmatch.
  eapply yields_program; [done|by apply quiet_unix|]. intros t2 w4 Hw4 Hg4. apply yields_guard; [done|]. intros _.
  destruct (MergeAuthKeyLayerObservations _ _ _ _) as [[layer observation]|e]; [|apply yields_fail]. apply yields_ok. cbn [fst snd].
  bool_facts. split; [done|]. exists temp, perm, inner, session, b. cbn. split_and!; auto.
  - eapply event_grow; [exact Hkeys|by etrans].
  - destruct inner. cbn in *. congruence.
Qed.

Lemma bind_proof_grow j j' b : bind_proof asked j b → j `prefix_of` j' → bind_proof asked j' b.
Proof. intros (temp & perm & inner & session & b0 & H1 & H2 & H3) Hj. exists temp, perm, inner, session, b0. eauto using event_grow. Qed.

Lemma yields_classify {A} (P : A → list event → Prop) b w : inv w → yields P (classifyBindingStoreInvalid b) w.
Proof.
  intros Hw. unfold classifyBindingStoreInvalid. eapply yields_bind; [done|by apply quiet_keys_Get|]. intros temp w1 Hw1 _ _.
  eapply yields_program; [done|by apply quiet_unix|]. intros t w2 _ _. destruct (expired_key temp t); apply yields_fail.
Qed.

(** The store takes a binding that is proved. *)
Lemma yields_SaveWithState b w :
  inv w → bind_proof asked (journal w) b →
  yields (λ _ j, EBoundTemp b ∈ j)
    (flatten (ask (λ w, let '(r, az) := SaveWithState b (auth w) in
                        (r, match r with OK _ => note [EBoundTemp b] (set_auth az w) | ERR _ => set_auth az w end)))) w.
Proof.
  intros Hw Hproof. apply yields_flatten; [done|]. apply yields_ask. intros w1 Hi Hg.
  destruct (i_keys _ _ _ Hi) as [l Hl]. pose proof (perform_key_ok l 0 (KBindTemp b) (auth w1) Hl I) as Hl'.
  pose proof (SaveWithState_rows b (auth w1)) as Hrows. pose proof (SaveWithState_puts b (auth w1)) as Hputs.
  cbn [perform_key] in Hl'. destruct (SaveWithState b (auth w1)) as [[res|e] az]; cbn [fst snd] in *.
  2: { split; [apply (set_auth_inv s asked); [done..|by rewrite Hputs|exact Hrows]|by intros a [=]]. }
  assert (∀ ev, ev = EBoundTemp b → ev ∈ journal w1 ++ [EBoundTemp b]) as Hnew.
  { intros ev ->. apply elem_of_app. right. by apply list_elem_of_singleton. }
  pose proof (bind_proof_grow _ _ _ Hproof Hg) as Hproof1. split; [|by intros r' _; apply Hnew].
  split; [|by eexists]. destruct Hi as [Hus Hc Hk Hj Hr Hb]. split; cbn; [done| |done|by apply journal_snoc| |].
  - unfold exchanges in *. rewrite omap_app. cbn. by rewrite app_nil_r.
  - intros k a (a0 & Ha0 & Eu & Ep)%Hrows. pose proof (Hr k a0 Ha0) as Hok. unfold row_ok. rewrite Eu, Ep.
    eapply row_ok_grow; [exact Hok|by eexists].
  - rewrite Hputs. apply map_Forall_insert_2; [by apply Hnew|]. intros t b' Ht. eapply event_grow; [by eapply Hb|by eexists].
Qed.

Lemma yields_BindTempAuthKey session b w :
  inv w → asked (CBindTempAuthKey session b) →
  yields (λ _ j, has_tempKeys s = true →
    ∃ t, EBoundTemp (proven_binding session t b) ∈ j) (BindTempAuthKey s session b) w.
Proof.
  intros Hw Ha. unfold BindTempAuthKey. eapply yields_bind; [done|by apply yields_validate|].
  intros [[inner_session t] r] w1 Hw1 _ [Hs Hproof]. cbn [fst snd] in Hs, Hproof. subst inner_session.
  eapply yields_program; [done|by apply quiet_unix|]. intros now w2 Hw2 Hg2. apply yields_guard; [done|]. intros _.
  destruct (has_tempKeys s); cbn [negb]; [|by apply yields_ok].
  eapply yields_catch; [done|apply yields_SaveWithState; [done|by eapply bind_proof_grow]|..].
  - intros res w3 Hw3 _ Hb. apply yields_ok. intros _. by exists t.
  - intros e w3 Hw3 _. repeat case_match; try apply yields_fail; by apply yields_classify.
Qed.

End login.
