(* ===== verification/SignInProps.v ===== *)
(** What signing in guarantees in every interleaving of any number of calls with
    each other and with whatever else uses the stores: no key is signed in without
    a proof, codes reach only whoever they were issued to, and the answers are
    true. *)

From S2P Require Import Prelude GoStrings Programs AuthCodes AuthKeys AuthKeysInv AuthProps SignIn SignInCodes SignInService SignInInv SignInSteps SignInLogin.

Open Scope Z_scope.
Open Scope result_scope.

#[local] Set Default Proof Using "Type".

(** * Every call *)

Section serve.
Context {env : Environment} (s : Service) (asked : call → Prop).

#[local] Abbreviation inv := (inv s asked).
#[local] Abbreviation yields := (yields s asked).
#[local] Abbreviation quiet := (quiet s asked).

(** What an answer says about the journal. *)
Definition answer_ok (q : call) (x : answer) (j : list event) : Prop :=
  match q, x with
  | CSendCode phone, AHash hash => ∃ issued, code_sent s (NormalizePhone phone) issued hash j
  | CSendPhoneCodeAfterLoginEmailReset phone u, AHash hash => code_sent s (NormalizePhone phone) u hash j ∧ u ≠ 0
  | CSignIn a _ _ _, ASignedIn x | CSignInWithEmail a _ _ _, ASignedIn x => session_opened j (AuthKeyID a) x
  | CSignUp a phone _ _ _, AUser u =>
      u_Phone u = NormalizePhone phone ∧ ECreated u ∈ j ∧ EBound (AuthKeyID a) (u_ID u) (PasswordPending a) ∈ j
  | CSignInBot a _, AUser u | CBindVerifiedLogin a _, AUser u => EBound (AuthKeyID a) (u_ID u) false ∈ j
  | CUserID k, AUserID (Some u) => fully_signed_in j k u
  | CPendingPasswordUserID k, AUserID (Some u) => EBound k u true ∈ j
  | CCompletePasswordSignIn k u, ADone => EPasswordPassed k u ∈ j
  | CBindTempAuthKey session b, ABinding _ => has_tempKeys s = true → ∃ t, EBoundTemp (proven_binding session t b) ∈ j
  | _, _ => True
  end.

(** What others do to the stores. *)
Definition others_fair : Prop :=
  (∀ op, asked (Keys op) → key_op_ok op ∧ binds op = false)
  ∧ (∀ us next, asked (Users us next) → users_ok us next).

Lemma yields_answered {A} (P : A → list event → Prop) (Q : answer → list event → Prop) f p w :
  inv w → yields P p w → (∀ a j, P a j → Q (f a) j) → yields Q (answered f p) w.
Proof.
  intros Hw Hp HPQ. unfold answered. eapply yields_bind; [done|exact Hp|]. intros a w1 _ _ Ha. apply yields_ok. auto.
Qed.

Lemma yields_elsewhere f w : (∀ w, inv w → inv (f w) ∧ grows w (f w)) → yields (λ _ _, True) (elsewhere f) w.
Proof. intros Hf w1 Hi _ b w2 [= <- <-]. destruct (Hf w1 Hi). split_and!; done. Qed.

Lemma serve_yields q w : others_fair → asked q → inv w → yields (answer_ok q) (serve s q) w.
Proof.
  intros [Hkeys Husers] Hq Hw.
  assert (∀ A (f : A → answer) (p : result A), quiet p → (∀ a j, answer_ok q (f a) j) → yields (answer_ok q) (answered f p) w) as Hquiet
    by (intros A f p Hp HQ; eapply yields_answered; [done|by apply Hp|auto]).
  assert (∀ f, (∀ x j, answer_ok q x j) → (∀ w, inv w → inv (f w) ∧ grows w (f w)) → yields (answer_ok q) (elsewhere f) w) as Helse
    by (intros f HQ Hf; eapply yields_mono; [done|by apply yields_elsewhere|auto]).
  destruct q; cbn [serve].
  - eapply yields_answered; [done|by apply yields_SendCode|done].
  - apply Hquiet; [apply quiet_resendCode|done].
  - apply Hquiet; [apply quiet_cancelCode|done].
  - apply Hquiet; [|done]. apply quiet_bind; [apply quiet_codes_Get|]. intros. apply quiet_ok.
  - apply Hquiet; [apply quiet_ConsumeLoginEmailReset|done].
  - eapply yields_answered; [done|by apply yields_SendPhoneCodeAfterLoginEmailReset|done].
  - eapply yields_answered; [done|apply yields_SignIn; [done|by left]|done].
  - eapply yields_answered; [done|apply yields_SignIn; [done|right; by exists guess]|done].
  - eapply yields_answered; [done|by apply yields_SignUp|done].
  - eapply yields_answered; [done|by apply yields_SignInBot|done].
  - eapply yields_answered; [done|by apply yields_BindVerifiedLogin|done].
  - apply Hquiet; [by apply quiet_AcceptLoginToken|done].
  - eapply yields_answered; [done|by apply yields_UserID|]. intros [u|] j Hu; [by apply Hu|done].
  - eapply yields_answered; [done|by apply yields_PendingPasswordUserID|]. intros [u|] j Hu; [by apply Hu|done].
  - eapply yields_answered; [done|by apply yields_CompletePasswordSignIn|done].
  - apply Hquiet; [apply quiet_auths_Delete|done].
  - apply Hquiet; [|done]. unfold auth_Authorization. destruct (_ =? 0); [apply quiet_ok|apply quiet_reads].
  - apply Hquiet; [|done]. unfold ListAuthorizations. destruct (_ =? 0); [apply quiet_ok|apply quiet_reads].
  - apply Hquiet; [apply quiet_ResetAuthorization|done].
  - apply Hquiet; [apply quiet_ResetAuthorizations|done].
  - apply Hquiet; [|done]. unfold AuthKeyClientInfo. destruct (_ =? 0); [apply quiet_ok|].
    apply quiet_bind; [apply quiet_keys_Get|]. intros. apply quiet_ok.
  - apply Hquiet; [apply quiet_UpdateAuthKeyClientInfo|done].
  - eapply yields_answered; [done|by apply yields_BindTempAuthKey|done].
  - apply Hquiet; [|done]. unfold ResolveAuthKey. destruct (negb _); [apply quiet_ok|].
    apply quiet_bind; [apply quiet_reads|]. intros. apply quiet_ok.
  - apply Helse; [done|]. intros w0 [? ? ? ? ? ?]. split; [by split|unfold grows; done].
  - apply Helse; [done|]. intros w0 Hi. by apply code_step_inv.
  - destruct (Hkeys op Hq). apply Helse; [done|]. intros w0 Hi. by apply perform_key_inv.
  - specialize (Husers us next Hq). apply Helse; [done|]. intros w0 [? ? ? ? ? ?]. split; [by split|unfold grows; done].
  - apply Helse; [done|]. intros w0 [? ? ? ? ? ?]. split; [by split|unfold grows; done].
  - apply Helse; [done|]. intros w0 [? ? ? ? ? ?]. split; [by split|unfold grows; done].
Qed.

Lemma answer_ok_grow q x j j' : answer_ok q x j → j `prefix_of` j' → answer_ok q x j'.
Proof.
  assert (∀ phone issued hash, code_sent s phone issued hash j → j `prefix_of` j' → code_sent s phone issued hash j') as Hsent.
  { intros phone issued hash (c & Hst & Hr & Hc) Hj. exists c. split; [by eapply stored_grow|]. split; [by eapply reached_grow|done]. }
  intros Hx Hj. destruct q, x; cbn in *; try done.
  - destruct Hx as [issued Hx]. eauto.
  - destruct Hx. eauto.
  - destruct x; cbn in *; eauto using event_grow.
  - destruct x; cbn in *; eauto using event_grow.
  - destruct Hx as (? & ? & ?). eauto using event_grow.
  - by eapply event_grow.
  - by eapply event_grow.
  - destruct u; [|done]. destruct Hx; [left|right]; by eapply event_grow.
  - destruct u; [|done]. by eapply event_grow.
  - by eapply event_grow.
  - intros Ht. destruct (Hx Ht) as [t Hb]. exists t. by eapply event_grow.
Qed.

(** * Runs of the service *)

Definition new_world (us : gmap Z User) (next : Z) (st : gmap Z bool) (bs : gmap Z string) (t : Z) : world := {|
  users := us; nextUserID := next; codes := NewCodeStore; auth := NewAuthKeyStore; settings := st; bots := bs;
  clock := t; draws := 0; outage := false; journal := [] |}.

Lemma new_world_inv us next st bs t : users_ok us next → inv (new_world us next st bs t).
Proof.
  intros Hus. split; cbn; [done|constructor|exists (λ _, 0); apply new_keys_ok|constructor|apply map_Forall_empty..].
Qed.

(** A moment of the service that started with such users and an empty journal. *)
Definition reached_by (p : pool world call (res auth_error answer)) : Prop :=
  ∃ us next st bs t,
    users_ok us next ∧ rtc (pool_step (serve s) asked) (mkPool [] (new_world us next st bs t)) p.

Definition answers_ok (q : call) (w0 : world) (r : res auth_error answer) (w : world) : Prop :=
  ∀ x, r = OK x → answer_ok q x (journal w).

Lemma service_runs_ok p : others_fair → reached_by p → pool_ok inv grows answers_ok p.
Proof.
  intros Hfair (us & next & st & bs & t & Hus & Hrun).
  refine (proj1 (pool_safe (serve s) asked inv grows answers_ok _ _ _ p Hrun _)).
  - intros q w Hq Hi. by apply serve_yields.
  - intros q w r w1 w2 Hr Hg x Hx. eapply answer_ok_grow; [by apply Hr|done].
  - split; [by apply new_world_inv|constructor].
Qed.

(** The event was written when what it needs was known. *)
Definition justified (j : list event) (ev : event) : Prop := ∃ j1 j2, j = j1 ++ ev :: j2 ∧ event_ok s asked j1 ev.

Lemma journal_justified j ev : journal_ok s asked j → ev ∈ j → justified j ev.
Proof.
  induction 1 as [|j ev' Hj IH Hok]; intros Hin; [by apply elem_of_nil in Hin|].
  apply elem_of_app in Hin as [Hin|Hin].
  - destruct (IH Hin) as (j1 & j2 & -> & H). exists j1, (j2 ++ [ev']). split; [by rewrite <- app_assoc|done].
  - apply list_elem_of_singleton in Hin as ->. by exists j, [].
Qed.
End serve.

(** * The guarantees *)

Section guarantees.
Context {env : Environment} (s : Service) (asked : call → Prop).

(** A session was opened for a reason that was there before it. *)
Definition opened (j : list event) (k u : Z) (pending : bool) : Prop :=
  ∃ j1 j2, j = j1 ++ EBound k u pending :: j2 ∧ reason s asked j1 k u pending.

(** It was opened without a password being due, or that was given later. *)
Definition proved (j : list event) (k u : Z) : Prop :=
  opened j k u false
  ∨ ∃ j1 j2, j = j1 ++ EPasswordPassed k u :: j2 ∧ asked (CCompletePasswordSignIn k u) ∧ opened j1 k u true.

Lemma bound_opened j k u pending : journal_ok s asked j → EBound k u pending ∈ j → opened j k u pending.
Proof. intros Hj Hb. by apply (journal_justified s asked) in Hb. Qed.

Lemma journal_prefix_ok j1 j2 : journal_ok s asked (j1 ++ j2) → journal_ok s asked j1.
Proof.
  induction j2 as [|ev j2 IH] using rev_ind; [by rewrite app_nil_r|]. rewrite app_assoc. intros H. apply IH.
  remember ((j1 ++ j2) ++ [ev]) as j eqn:E. destruct H as [|j ev' H _]; [by destruct (j1 ++ j2)|].
  by apply app_inj_tail in E as [-> _].
Qed.

Lemma passed_proved j k u : journal_ok s asked j → EPasswordPassed k u ∈ j → proved j k u.
Proof.
  intros Hj Hp. destruct (journal_justified s asked j _ Hj Hp) as (j1 & j2 & -> & Ha & Hb). right. exists j1, j2.
  split_and!; [done..|]. apply bound_opened; [by eapply journal_prefix_ok|done].
Qed.

Lemma row_proved j k a :
  journal_ok s asked j → row_ok j k a →
  if PasswordPending a then opened j k (UserID a) true else proved j k (UserID a).
Proof.
  intros Hj [Hb|[Hp Hb]].
  - apply bound_opened in Hb; [|done]. destruct (PasswordPending a); [done|by left].
  - rewrite Hp. by apply passed_proved.
Qed.

(** C30: Nobody is signed in without a proof.  However calls of the service
    interleave with each other and with the other users of its stores, whatever
    fails in between, every authorization at every moment was opened for a reason
    that was in place before: a client of that very key presented the code, the
    code store accepted it for the account it was issued for, and after that the
    number still belonged to this account, which may sign in; or a marked code was
    consumed, the number had no owner and an account with it was created; or the
    client presented the secret of that bot; or another factor vouched for it.  A
    code alone opens a session without a password being due only where the account
    was found to have none; and what was opened with a password due stays so until
    the password was passed for that account.  The code store has meanwhile run by
    its own rules, under which a code is accepted once.  When the service answers
    that a key is signed in as a user, that is proved. *)
Theorem sessions_are_proved p :
  others_fair asked → reached_by s asked p →
  code_trace NewCodeStore (exchanges (journal (shared p))) (codes (shared p))
  ∧ (∀ k a, authorizations (auth (shared p)) !! k = Some a →
       if PasswordPending a then opened (journal (shared p)) k (UserID a) true
       else proved (journal (shared p)) k (UserID a))
  ∧ (∀ i k w0 u, threads p !! i = Some (mkThread (CUserID k) w0 (Ret (OK (AUserID (Some u))))) →
       proved (journal (shared p)) k u).
Proof.
  intros Hfair Hp. pose proof (service_runs_ok s asked p Hfair Hp) as Hok. pose proof (po_shared _ _ _ _ Hok) as Hi. split_and!.
  - apply Hi.
  - intros k a Ha. apply row_proved; [apply Hi|exact (i_rows _ _ _ Hi k a Ha)].
  - intros i k w0 u Ht. destruct (pool_finished _ _ _ _ _ _ _ _ Hok Ht) as [_ Hans].
    destruct (Hans _ eq_refl) as [Hb|Hb]; [left; apply bound_opened|apply passed_proved]; try done; apply Hi.
Qed.

(** C32: Codes go only to whoever they were issued to.  In every interleaving, a code
    that was put into the 777000 messages of an account was stored before as issued
    for that account, and a code that a provider was asked to deliver was stored
    before for that number or address.  When SendCode, or the replacement of a lost
    login e-mail, answers with a hash, then a fresh code for that number is stored
    at that hash, the number belonged after that to the account the code is for, or
    to nobody if it is for nobody, and one of these holds: the code of an existing
    account is in its own messages; that of a new number went through the provider
    to the number or to its login e-mail; no provider for numbers is configured,
    and it is the fixed code, sent to nobody; or an e-mail has to be set up first,
    and the hash stands for no code. *)
Theorem codes_reach_their_owners p :
  others_fair asked → reached_by s asked p →
  (∀ u hash sent, EDelivered u hash sent ∈ journal (shared p) →
     ∃ j1 j2 c, journal (shared p) = j1 ++ EDelivered u hash sent :: j2
       ∧ issued_at j1 hash c ∧ IssuedUserID c = u ∧ Code c = sent)
  ∧ (∀ recipient sent, EProvider recipient sent ∈ journal (shared p) →
     ∃ j1 j2 hash c, journal (shared p) = j1 ++ EProvider recipient sent :: j2
       ∧ issued_at j1 hash c ∧ Code c = sent ∧ (recipient = pc_Phone c ∨ recipient = Email c))
  ∧ (∀ i phone w0 hash, threads p !! i = Some (mkThread (CSendCode phone) w0 (Ret (OK (AHash hash)))) →
     ∃ issued, code_sent s (NormalizePhone phone) issued hash (journal (shared p)))
  ∧ (∀ i phone u w0 hash,
     threads p !! i = Some (mkThread (CSendPhoneCodeAfterLoginEmailReset phone u) w0 (Ret (OK (AHash hash)))) →
     code_sent s (NormalizePhone phone) u hash (journal (shared p)) ∧ u ≠ 0).
Proof.
  intros Hfair Hp. pose proof (service_runs_ok s asked p Hfair Hp) as Hok. pose proof (i_journal _ _ _ (po_shared _ _ _ _ Hok)) as Hj.
  split_and!.
  - intros u hash sent Hd. destruct (journal_justified s asked _ _ Hj Hd) as (j1 & j2 & E & c & Hc). by exists j1, j2, c.
  - intros r sent Hd. destruct (journal_justified s asked _ _ Hj Hd) as (j1 & j2 & E & hash & c & Hc). by exists j1, j2, hash, c.
  - intros i phone w0 hash Ht. destruct (pool_finished _ _ _ _ _ _ _ _ Hok Ht) as [_ Hans]. exact (Hans _ eq_refl).
  - intros i phone u w0 hash Ht. destruct (pool_finished _ _ _ _ _ _ _ _ Hok Ht) as [_ Hans]. exact (Hans _ eq_refl).
Qed.

(** C34: A temporary key stands for a permanent one only by proof: in every
    interleaving, a binding in the store was written after both keys were read and
    the permanent key deciphered a message that names both keys, the nonce and the
    session of the request that asked for it; the binding has that session and the
    temporary key's own expiry, whatever expiry the client claimed. *)
Theorem temporary_keys_are_proved p t b :
  others_fair asked → reached_by s asked p → bindings (auth (shared p)) !! t = Some b →
  ∃ j1 j2, journal (shared p) = j1 ++ EBoundTemp b :: j2 ∧ bind_proof asked j1 b.
Proof.
  intros Hfair Hp Hb. pose proof (po_shared _ _ _ _ (service_runs_ok s asked p Hfair Hp)) as Hi.
  exact (journal_justified s asked _ _ (i_journal _ _ _ Hi) (i_bindings _ _ _ Hi t b Hb)).
Qed.
End guarantees.

(** * One login, and two sign-ups at once *)

Module SignInDemo.

#[local] Instance demo_env : Environment := {|
  e164 := λ digits, Some digits;
  premium_bot := 99;
  random_bytes := λ n size, replicate size (Z.of_nat n mod 256);
  provider_outcome := λ _, Sent;
  login_message_outcome := λ _, Sent;
  login_email := λ _ _, Some None;
  set_login_email := λ _ _ _, Some tt;
  record_message := λ _ _ _, Some tt;
  decrypt_inner := λ value id encrypted,
    match encrypted with
    | [nonce; temp; session; expiry] =>
        if bool_decide (value = [id]) then
          Some {| in_Nonce := nonce; in_TempAuthKeyID := temp; in_PermAuthKeyID := id; in_TempSessionID := session;
                  in_ExpiresAt := expiry |}
        else None
    | _ => None
    end |}.

Definition service : Service := {|
  fixedCode := "12345"; codeTTL := 300 * second; codeMaxAttempts := 5; has_passwords := true; has_bots := true;
  has_tempKeys := true; has_loginCodeDelivery := true; has_phoneCodeSender := false; phoneCodeLength := 5;
  loginEmailEnabled := false; loginEmailRequireSetup := false; has_loginEmails := false; has_loginEmailSender := false;
  loginEmailCodeLength := 6; premium_until := λ _, 0; has_messages := false |}.

Definition anna : User := {|
  u_ID := 500; AccessHash := 7; u_Phone := "4915112345678"; FirstName := "Anna"; LastName := ""; u_Deleted := false;
  u_Bot := false; PremiumUntil := 0 |}.

(** Everybody may call; others only register keys. *)
Definition demo_asked (q : call) : Prop :=
  match q with
  | Keys (KSave k) => handshake k
  | Keys _ | Users _ _ => False
  | _ => True
  end.

Lemma demo_fair : others_fair demo_asked.
Proof. split; [|done]. intros op Hop. destruct op; done. Qed.

(** Calls, each of which runs to its end before the next one comes. *)
Definition in_turn (qs : list call) (p : pool world call (res auth_error answer)) : pool world call (res auth_error answer) :=
  fold_left (λ p q, play (serve service) 60 q p) qs p.

Definition start : pool world call (res auth_error answer) :=
  mkPool [] (new_world {[ 500 := anna ]} 501 ∅ ∅ (1000 * second)).

Lemma in_turn_rtc qs p : Forall demo_asked qs → rtc (pool_step (serve service) demo_asked) p (in_turn qs p).
Proof.
  revert p. induction qs as [|q qs IH]; intros p Hqs; cbn; [done|]. apply Forall_cons in Hqs as [Hq Hqs].
  transitivity (play (serve service) 60 q p); [by apply play_rtc|by apply IH].
Qed.

Lemma start_reached p : rtc (pool_step (serve service) demo_asked) start p → reached_by service demo_asked p.
Proof.
  intros Hp. exists {[ 500 := anna ]}, 501, ∅, ∅, (1000 * second). split; [|exact Hp]. split; [lia|].
  apply map_Forall_singleton. done.
Qed.

Definition row_of (k : Z) : Authorization := AuthDemo.row k 0.

(** The code that was sent to Anna's other devices opens a session. *)
Definition login : list call :=
  [Keys (KSave (AuthDemo.key 1 0)); CSendCode "+49 151 12345678";
   CSignIn (row_of 1) "+49 151 12345678" "0000000000000000" "12345"; CUserID 1].

Definition after_login : pool world call (res auth_error answer) := in_turn login start.

Lemma after_login_reached : reached_by service demo_asked after_login.
Proof. apply start_reached, in_turn_rtc. repeat constructor. Qed.

Lemma sessions_are_proved_witness :
  (λ a, (UserID a, PasswordPending a)) <$> authorizations (auth (shared after_login)) !! 1 = Some (500, false)
  ∧ proved service demo_asked (journal (shared after_login)) 1 500.
Proof.
  split; [vm_compute; reflexivity|].
  destruct (sessions_are_proved service demo_asked after_login demo_fair after_login_reached) as (_ & Hrows & _).
  destruct (authorizations (auth (shared after_login)) !! 1) as [a|] eqn:Ha; [|vm_compute in Ha; discriminate Ha].
  specialize (Hrows 1 a Ha). vm_compute in Ha. injection Ha as <-. exact Hrows.
Defined.

Lemma codes_reach_their_owners_witness :
  ∃ issued, code_sent service "4915112345678" issued "0000000000000000" (journal (shared after_login)).
Proof.
  destruct (codes_reach_their_owners service demo_asked after_login demo_fair after_login_reached) as (_ & _ & Hsent & _).
  apply (Hsent 1%nat "+49 151 12345678"%string (shared (in_turn (take 1 login) start)) "0000000000000000"%string).
  vm_compute. reflexivity.
Defined.

(** The client claims another expiry than the temporary key has. *)
Definition bind_request : TempAuthKeyBinding := {|
  TempAuthKeyID := 2; PermAuthKeyID := 1; Nonce := 3; TempSessionID := 0; tb_ExpiresAt := 5010; EncryptedMessage := [3; 2; 4; 5010] |}.

Definition after_binding : pool world call (res auth_error answer) :=
  in_turn [Keys (KSave (AuthDemo.key 1 0)); Keys (KSave (AuthDemo.key 2 5000)); CBindTempAuthKey 4 bind_request] start.

Lemma after_binding_reached : reached_by service demo_asked after_binding.
Proof. apply start_reached, in_turn_rtc. repeat constructor. Qed.

Lemma temporary_keys_are_proved_witness :
  ∃ b, bindings (auth (shared after_binding)) !! 2 = Some b ∧ tb_ExpiresAt b = 5000 ∧ TempSessionID b = 4
    ∧ ∃ j1 j2, journal (shared after_binding) = j1 ++ EBoundTemp b :: j2 ∧ bind_proof demo_asked j1 b.
Proof.
  exists (proven_binding 4 5000 bind_request).
  assert (bindings (auth (shared after_binding)) !! 2 = Some (proven_binding 4 5000 bind_request)) as Hb by (vm_compute; reflexivity).
  split_and!; [exact Hb|reflexivity|reflexivity|].
  exact (temporary_keys_are_proved service demo_asked after_binding 2 _ demo_fair after_binding_reached Hb).
Defined.

(** Two codes for one free number, both verified. *)
Definition two_codes : pool world call (res auth_error answer) :=
  in_turn [Keys (KSave (AuthDemo.key 1 0)); Keys (KSave (AuthDemo.key 2 0)); CSendCode "4917612345678"; CSendCode "4917612345678";
           CSignIn (row_of 1) "4917612345678" "0000000000000000" "12345";
           CSignIn (row_of 2) "4917612345678" "0202020202020202" "12345"] start.

(** The first sign-up stops after [n] of its steps, the second runs to its end, and
    then the first goes on. *)
Definition two_sign_ups (n : nat) : pool world call (res auth_error answer) :=
  let p := play (serve service) n (CSignUp (row_of 1) "4917612345678" "0000000000000000" "Eva" "") two_codes in
  let p := play (serve service) 60 (CSignUp (row_of 2) "4917612345678" "0202020202020202" "Udo" "") p in
  go 60 6 p.

Definition numbers (n : nat) : list (Z * string * string) :=
  (λ kv : Z * User, (kv.1, u_Phone kv.2, FirstName kv.2)) <$> map_to_list (users (shared (two_sign_ups n))).

(** The second look at the number's owner and the creation of the account are two
    steps, and [Create] of the store in memory does not look at the number: two
    sign-ups give one number to two accounts. *)
Example two_sign_ups_share_a_number :
  numbers 4 = [(501, "4917612345678", "Udo"); (502, "4917612345678", "Eva"); (500, "4915112345678", "Anna")]%string.
Proof. vm_compute. reflexivity. Qed.

(** One step less, and the second look finds the other account. *)
Example the_second_look_helps :
  numbers 3 = [(501, "4917612345678", "Udo"); (500, "4915112345678", "Anna")]%string.
Proof. vm_compute. reflexivity. Qed.

(** The code of the login cannot be used again, and a wrong one opens nothing. *)
Example codes_open_one_session :
  (λ t, match th_body t with Ret r => Some r | _ => None end) <$>
    drop 4 (threads (in_turn [CSignIn (row_of 1) "4915112345678" "0000000000000000" "12345";
                              CSendCode "4915112345678";
                              CSignIn (row_of 1) "4915112345678" "0404040404040404" "54321"] after_login))
  = [Some (ERR ErrCodeExpired); Some (OK (AHash "0404040404040404")); Some (ERR ErrCodeInvalid)].
Proof. vm_compute. reflexivity. Qed.

(** An account with a password. *)
Example passwords_are_asked_for :
  (λ a, PasswordPending a) <$> authorizations (auth (shared (in_turn (Passwords {[ 500 := true ]} :: login) start))) !! 1
  = Some true.
Proof. vm_compute. reflexivity. Qed.
End SignInDemo.
