(* ===== verification/Channels.v ===== *)
(** Channels and groups: the store of their members
    ([internal/store/memory/channel_store.go], [channel_helpers.go],
    [channel_members.go]).

    This file holds the data, the checks of rights and the primitives that the
    operations of [ChannelMembers] and [ChannelInvites] are made of.  Every
    operation runs under the store's lock, so it is one function on the store.

    Of a channel, a message and an event the fields are kept that the members'
    operations read or write; the others (photos, colours, reaction policies ...)
    are carried along unread.  The search text of the admin log is left out.
    Counters and ids grow by one per operation and are unbounded integers here.
    A Go map is visited in an unspecified order and [crypto/rand] and the clock
    are outside: all three come from the [ChannelEnvironment], asked at a moment,
    which is a path that no two requests share. *)

From S2P Require Import Prelude GoStrings.

Open Scope Z_scope.

#[local] Set Default Proof Using "Type".

Inductive channel_error :=
  | ErrChannelInvalid
  | ErrChannelPrivate
  | ErrChannelUserBanned
  | ErrChannelMonoforumUnsupported
  | ErrChannelAdminRequired
  | ErrChannelUserCreator
  | ErrChannelRightForbidden
  | ErrChannelNotModified
  | ErrMegagroupIDInvalid
  | ErrUserAlreadyParticipant
  | ErrUserNotParticipant
  | ErrUserKicked
  | ErrUsersTooMuch
  | ErrChatPublicRequired
  | ErrHideRequesterMissing
  | ErrInviteRequestSent
  | ErrInviteHashEmpty
  | ErrInviteHashInvalid
  | ErrInviteHashExpired
  | ErrInvitePermanent
  | ErrInviteRevokedMissing
  | ErrRandom.

#[export] Instance channel_error_eq_dec : EqDecision channel_error.
Proof. solve_decision. Defined.

(** * Data ([internal/domain/channel.go]) *)

(** The empty string is the role and the status of a member that is not there. *)
Inductive ChannelMemberRole := NoRole | RoleCreator | RoleAdmin | RoleMember.
Inductive ChannelMemberStatus := NoStatus | Active | Left | Kicked | Banned.

#[export] Instance ChannelMemberRole_eq_dec : EqDecision ChannelMemberRole.
Proof. solve_decision. Defined.
#[export] Instance ChannelMemberStatus_eq_dec : EqDecision ChannelMemberStatus.
Proof. solve_decision. Defined.

Record ChannelAdminRights := {
  ar_ChangeInfo : bool;
  ar_PostMessages : bool;
  ar_EditMessages : bool;
  ar_DeleteMessages : bool;
  ar_PostStories : bool;
  ar_EditStories : bool;
  ar_DeleteStories : bool;
  ar_BanUsers : bool;
  ar_InviteUsers : bool;
  ar_PinMessages : bool;
  ar_AddAdmins : bool;
  ar_ManageCall : bool;
  ar_ManageChat : bool;
  ar_ManageTopics : bool;
  ar_Anonymous : bool;
  ar_ManageRanks : bool;
  ar_ManageLinkedPeers : bool;
  ar_ManageWelcomeMessages : bool;
  ar_ManageDirectMessages : bool;
}.

#[export] Instance ChannelAdminRights_eq_dec : EqDecision ChannelAdminRights.
Proof. solve_decision. Defined.

Definition with_ranks  r : ChannelAdminRights := {|
  ar_ChangeInfo := ar_ChangeInfo r; ar_PostMessages := ar_PostMessages r; ar_EditMessages := ar_EditMessages r;
  ar_DeleteMessages := ar_DeleteMessages r; ar_PostStories := ar_PostStories r; ar_EditStories := ar_EditStories r;
  ar_DeleteStories := ar_DeleteStories r; ar_BanUsers := ar_BanUsers r; ar_InviteUsers := ar_InviteUsers r;
  ar_PinMessages := ar_PinMessages r; ar_AddAdmins := ar_AddAdmins r; ar_ManageCall := ar_ManageCall r;
  ar_ManageChat := ar_ManageChat r; ar_ManageTopics := ar_ManageTopics r; ar_Anonymous := ar_Anonymous r;
  ar_ManageRanks := true; ar_ManageLinkedPeers := ar_ManageLinkedPeers r;
  ar_ManageWelcomeMessages := ar_ManageWelcomeMessages r; ar_ManageDirectMessages := ar_ManageDirectMessages r |}.

Definition with_scoped (anonymous : bool) (direct : bool) r : ChannelAdminRights := {|
  ar_ChangeInfo := ar_ChangeInfo r; ar_PostMessages := ar_PostMessages r; ar_EditMessages := ar_EditMessages r;
  ar_DeleteMessages := ar_DeleteMessages r; ar_PostStories := ar_PostStories r; ar_EditStories := ar_EditStories r;
  ar_DeleteStories := ar_DeleteStories r; ar_BanUsers := ar_BanUsers r; ar_InviteUsers := ar_InviteUsers r;
  ar_PinMessages := ar_PinMessages r; ar_AddAdmins := ar_AddAdmins r; ar_ManageCall := ar_ManageCall r;
  ar_ManageChat := ar_ManageChat r; ar_ManageTopics := ar_ManageTopics r; ar_Anonymous := anonymous;
  ar_ManageRanks := ar_ManageRanks r; ar_ManageLinkedPeers := ar_ManageLinkedPeers r;
  ar_ManageWelcomeMessages := ar_ManageWelcomeMessages r; ar_ManageDirectMessages := direct |}.

Definition no_rights : ChannelAdminRights := {|
  ar_ChangeInfo := false; ar_PostMessages := false; ar_EditMessages := false; ar_DeleteMessages := false; ar_PostStories := false;
  ar_EditStories := false; ar_DeleteStories := false; ar_BanUsers := false; ar_InviteUsers := false; ar_PinMessages := false;
  ar_AddAdmins := false; ar_ManageCall := false; ar_ManageChat := false; ar_ManageTopics := false; ar_Anonymous := false;
  ar_ManageRanks := false; ar_ManageLinkedPeers := false; ar_ManageWelcomeMessages := false; ar_ManageDirectMessages := false |}.

Definition CreatorChannelAdminRights : ChannelAdminRights := {|
  ar_ChangeInfo := true; ar_PostMessages := true; ar_EditMessages := true; ar_DeleteMessages := true; ar_PostStories := true;
  ar_EditStories := true; ar_DeleteStories := true; ar_BanUsers := true; ar_InviteUsers := true; ar_PinMessages := true;
  ar_AddAdmins := true; ar_ManageCall := true; ar_ManageChat := true; ar_ManageTopics := true; ar_Anonymous := false;
  ar_ManageRanks := true; ar_ManageLinkedPeers := true; ar_ManageWelcomeMessages := true; ar_ManageDirectMessages := false |}.

Definition CreatorProjectionAdminRights (rights : ChannelAdminRights) : ChannelAdminRights :=
  with_scoped (ar_Anonymous rights) (ar_ManageDirectMessages rights) CreatorChannelAdminRights.

Record ChannelBannedRights := {
  br_ViewMessages : bool;
  br_SendMessages : bool;
  br_SendMedia : bool;
  br_SendStickers : bool;
  br_SendGifs : bool;
  br_SendGames : bool;
  br_SendInline : bool;
  br_EmbedLinks : bool;
  br_SendPolls : bool;
  br_ChangeInfo : bool;
  br_InviteUsers : bool;
  br_PinMessages : bool;
  br_ManageTopics : bool;
  br_SendPhotos : bool;
  br_SendVideos : bool;
  br_SendRoundvideos : bool;
  br_SendAudios : bool;
  br_SendVoices : bool;
  br_SendDocs : bool;
  br_SendPlain : bool;
  br_EditRank : bool;
  br_SendReactions : bool;
  br_ManageLinkedPeers : bool;
  br_UntilDate : Z;
}.

#[export] Instance ChannelBannedRights_eq_dec : EqDecision ChannelBannedRights.
Proof. solve_decision. Defined.

Definition no_bans : ChannelBannedRights := {|
  br_ViewMessages := false; br_SendMessages := false; br_SendMedia := false; br_SendStickers := false; br_SendGifs := false;
  br_SendGames := false; br_SendInline := false; br_EmbedLinks := false; br_SendPolls := false; br_ChangeInfo := false;
  br_InviteUsers := false; br_PinMessages := false; br_ManageTopics := false; br_SendPhotos := false; br_SendVideos := false;
  br_SendRoundvideos := false; br_SendAudios := false; br_SendVoices := false; br_SendDocs := false; br_SendPlain := false;
  br_EditRank := false; br_SendReactions := false; br_ManageLinkedPeers := false;
  br_UntilDate := 0 |}.

Record Channel := {
  ch_ID : Z;
  ch_AccessHash : Z;
  ch_CreatorUserID : Z;
  ch_Title : string;
  ch_About : string;
  ch_Username : string;
  ch_Broadcast : bool;
  ch_Megagroup : bool;
  ch_Forum : bool;
  ch_ForumTabs : bool;
  ch_JoinToSend : bool;
  ch_JoinRequest : bool;
  ch_PreHistoryHidden : bool;
  ch_ParticipantsHidden : bool;
  ch_HasLink : bool;
  ch_Monoforum : bool;
  ch_LinkedMonoforumID : Z;
  ch_DefaultBannedRights : ChannelBannedRights;
  ch_ParticipantsCount : Z;
  ch_AdminsCount : Z;
  ch_KickedCount : Z;
  ch_BannedCount : Z;
  ch_TopMessageID : Z;
  ch_Pts : Z;
  ch_TTLPeriod : Z;
  ch_Date : Z;
  ch_Deleted : bool;
}.

Definition with_creator (u : Z) c : Channel := {|
  ch_ID := ch_ID c; ch_AccessHash := ch_AccessHash c; ch_CreatorUserID := u; ch_Title := ch_Title c;
  ch_About := ch_About c; ch_Username := ch_Username c; ch_Broadcast := ch_Broadcast c;
  ch_Megagroup := ch_Megagroup c; ch_Forum := ch_Forum c; ch_ForumTabs := ch_ForumTabs c;
  ch_JoinToSend := ch_JoinToSend c; ch_JoinRequest := ch_JoinRequest c; ch_PreHistoryHidden := ch_PreHistoryHidden c;
  ch_ParticipantsHidden := ch_ParticipantsHidden c; ch_HasLink := ch_HasLink c; ch_Monoforum := ch_Monoforum c;
  ch_LinkedMonoforumID := ch_LinkedMonoforumID c; ch_DefaultBannedRights := ch_DefaultBannedRights c;
  ch_ParticipantsCount := ch_ParticipantsCount c; ch_AdminsCount := ch_AdminsCount c;
  ch_KickedCount := ch_KickedCount c; ch_BannedCount := ch_BannedCount c; ch_TopMessageID := ch_TopMessageID c;
  ch_Pts := ch_Pts c; ch_TTLPeriod := ch_TTLPeriod c; ch_Date := ch_Date c; ch_Deleted := ch_Deleted c |}.

Definition with_participants (n : Z) c : Channel := {|
  ch_ID := ch_ID c; ch_AccessHash := ch_AccessHash c; ch_CreatorUserID := ch_CreatorUserID c; ch_Title := ch_Title c;
  ch_About := ch_About c; ch_Username := ch_Username c; ch_Broadcast := ch_Broadcast c;
  ch_Megagroup := ch_Megagroup c; ch_Forum := ch_Forum c; ch_ForumTabs := ch_ForumTabs c;
  ch_JoinToSend := ch_JoinToSend c; ch_JoinRequest := ch_JoinRequest c; ch_PreHistoryHidden := ch_PreHistoryHidden c;
  ch_ParticipantsHidden := ch_ParticipantsHidden c; ch_HasLink := ch_HasLink c; ch_Monoforum := ch_Monoforum c;
  ch_LinkedMonoforumID := ch_LinkedMonoforumID c; ch_DefaultBannedRights := ch_DefaultBannedRights c;
  ch_ParticipantsCount := n; ch_AdminsCount := ch_AdminsCount c; ch_KickedCount := ch_KickedCount c;
  ch_BannedCount := ch_BannedCount c; ch_TopMessageID := ch_TopMessageID c; ch_Pts := ch_Pts c;
  ch_TTLPeriod := ch_TTLPeriod c; ch_Date := ch_Date c; ch_Deleted := ch_Deleted c |}.

Definition with_admins (n : Z) c : Channel := {|
  ch_ID := ch_ID c; ch_AccessHash := ch_AccessHash c; ch_CreatorUserID := ch_CreatorUserID c; ch_Title := ch_Title c;
  ch_About := ch_About c; ch_Username := ch_Username c; ch_Broadcast := ch_Broadcast c;
  ch_Megagroup := ch_Megagroup c; ch_Forum := ch_Forum c; ch_ForumTabs := ch_ForumTabs c;
  ch_JoinToSend := ch_JoinToSend c; ch_JoinRequest := ch_JoinRequest c; ch_PreHistoryHidden := ch_PreHistoryHidden c;
  ch_ParticipantsHidden := ch_ParticipantsHidden c; ch_HasLink := ch_HasLink c; ch_Monoforum := ch_Monoforum c;
  ch_LinkedMonoforumID := ch_LinkedMonoforumID c; ch_DefaultBannedRights := ch_DefaultBannedRights c;
  ch_ParticipantsCount := ch_ParticipantsCount c; ch_AdminsCount := n; ch_KickedCount := ch_KickedCount c;
  ch_BannedCount := ch_BannedCount c; ch_TopMessageID := ch_TopMessageID c; ch_Pts := ch_Pts c;
  ch_TTLPeriod := ch_TTLPeriod c; ch_Date := ch_Date c; ch_Deleted := ch_Deleted c |}.

Definition with_kicked (n : Z) c : Channel := {|
  ch_ID := ch_ID c; ch_AccessHash := ch_AccessHash c; ch_CreatorUserID := ch_CreatorUserID c; ch_Title := ch_Title c;
  ch_About := ch_About c; ch_Username := ch_Username c; ch_Broadcast := ch_Broadcast c;
  ch_Megagroup := ch_Megagroup c; ch_Forum := ch_Forum c; ch_ForumTabs := ch_ForumTabs c;
  ch_JoinToSend := ch_JoinToSend c; ch_JoinRequest := ch_JoinRequest c; ch_PreHistoryHidden := ch_PreHistoryHidden c;
  ch_ParticipantsHidden := ch_ParticipantsHidden c; ch_HasLink := ch_HasLink c; ch_Monoforum := ch_Monoforum c;
  ch_LinkedMonoforumID := ch_LinkedMonoforumID c; ch_DefaultBannedRights := ch_DefaultBannedRights c;
  ch_ParticipantsCount := ch_ParticipantsCount c; ch_AdminsCount := ch_AdminsCount c; ch_KickedCount := n;
  ch_BannedCount := ch_BannedCount c; ch_TopMessageID := ch_TopMessageID c; ch_Pts := ch_Pts c;
  ch_TTLPeriod := ch_TTLPeriod c; ch_Date := ch_Date c; ch_Deleted := ch_Deleted c |}.

Definition with_counts (participants : Z) (admins : Z) (kicked : Z) (banned : Z) c : Channel := {|
  ch_ID := ch_ID c; ch_AccessHash := ch_AccessHash c; ch_CreatorUserID := ch_CreatorUserID c; ch_Title := ch_Title c;
  ch_About := ch_About c; ch_Username := ch_Username c; ch_Broadcast := ch_Broadcast c;
  ch_Megagroup := ch_Megagroup c; ch_Forum := ch_Forum c; ch_ForumTabs := ch_ForumTabs c;
  ch_JoinToSend := ch_JoinToSend c; ch_JoinRequest := ch_JoinRequest c; ch_PreHistoryHidden := ch_PreHistoryHidden c;
  ch_ParticipantsHidden := ch_ParticipantsHidden c; ch_HasLink := ch_HasLink c; ch_Monoforum := ch_Monoforum c;
  ch_LinkedMonoforumID := ch_LinkedMonoforumID c; ch_DefaultBannedRights := ch_DefaultBannedRights c;
  ch_ParticipantsCount := participants; ch_AdminsCount := admins; ch_KickedCount := kicked; ch_BannedCount := banned;
  ch_TopMessageID := ch_TopMessageID c; ch_Pts := ch_Pts c; ch_TTLPeriod := ch_TTLPeriod c; ch_Date := ch_Date c;
  ch_Deleted := ch_Deleted c |}.

Definition with_top (top : Z) (pts : Z) c : Channel := {|
  ch_ID := ch_ID c; ch_AccessHash := ch_AccessHash c; ch_CreatorUserID := ch_CreatorUserID c; ch_Title := ch_Title c;
  ch_About := ch_About c; ch_Username := ch_Username c; ch_Broadcast := ch_Broadcast c;
  ch_Megagroup := ch_Megagroup c; ch_Forum := ch_Forum c; ch_ForumTabs := ch_ForumTabs c;
  ch_JoinToSend := ch_JoinToSend c; ch_JoinRequest := ch_JoinRequest c; ch_PreHistoryHidden := ch_PreHistoryHidden c;
  ch_ParticipantsHidden := ch_ParticipantsHidden c; ch_HasLink := ch_HasLink c; ch_Monoforum := ch_Monoforum c;
  ch_LinkedMonoforumID := ch_LinkedMonoforumID c; ch_DefaultBannedRights := ch_DefaultBannedRights c;
  ch_ParticipantsCount := ch_ParticipantsCount c; ch_AdminsCount := ch_AdminsCount c;
  ch_KickedCount := ch_KickedCount c; ch_BannedCount := ch_BannedCount c; ch_TopMessageID := top; ch_Pts := pts;
  ch_TTLPeriod := ch_TTLPeriod c; ch_Date := ch_Date c; ch_Deleted := ch_Deleted c |}.

Definition with_default_bans (r : ChannelBannedRights) c : Channel := {|
  ch_ID := ch_ID c; ch_AccessHash := ch_AccessHash c; ch_CreatorUserID := ch_CreatorUserID c; ch_Title := ch_Title c;
  ch_About := ch_About c; ch_Username := ch_Username c; ch_Broadcast := ch_Broadcast c;
  ch_Megagroup := ch_Megagroup c; ch_Forum := ch_Forum c; ch_ForumTabs := ch_ForumTabs c;
  ch_JoinToSend := ch_JoinToSend c; ch_JoinRequest := ch_JoinRequest c; ch_PreHistoryHidden := ch_PreHistoryHidden c;
  ch_ParticipantsHidden := ch_ParticipantsHidden c; ch_HasLink := ch_HasLink c; ch_Monoforum := ch_Monoforum c;
  ch_LinkedMonoforumID := ch_LinkedMonoforumID c; ch_DefaultBannedRights := r;
  ch_ParticipantsCount := ch_ParticipantsCount c; ch_AdminsCount := ch_AdminsCount c;
  ch_KickedCount := ch_KickedCount c; ch_BannedCount := ch_BannedCount c; ch_TopMessageID := ch_TopMessageID c;
  ch_Pts := ch_Pts c; ch_TTLPeriod := ch_TTLPeriod c; ch_Date := ch_Date c; ch_Deleted := ch_Deleted c |}.

Definition with_hidden (b : bool) c : Channel := {|
  ch_ID := ch_ID c; ch_AccessHash := ch_AccessHash c; ch_CreatorUserID := ch_CreatorUserID c; ch_Title := ch_Title c;
  ch_About := ch_About c; ch_Username := ch_Username c; ch_Broadcast := ch_Broadcast c;
  ch_Megagroup := ch_Megagroup c; ch_Forum := ch_Forum c; ch_ForumTabs := ch_ForumTabs c;
  ch_JoinToSend := ch_JoinToSend c; ch_JoinRequest := ch_JoinRequest c; ch_PreHistoryHidden := ch_PreHistoryHidden c;
  ch_ParticipantsHidden := b; ch_HasLink := ch_HasLink c; ch_Monoforum := ch_Monoforum c;
  ch_LinkedMonoforumID := ch_LinkedMonoforumID c; ch_DefaultBannedRights := ch_DefaultBannedRights c;
  ch_ParticipantsCount := ch_ParticipantsCount c; ch_AdminsCount := ch_AdminsCount c;
  ch_KickedCount := ch_KickedCount c; ch_BannedCount := ch_BannedCount c; ch_TopMessageID := ch_TopMessageID c;
  ch_Pts := ch_Pts c; ch_TTLPeriod := ch_TTLPeriod c; ch_Date := ch_Date c; ch_Deleted := ch_Deleted c |}.

Definition with_join_to_send (b : bool) c : Channel := {|
  ch_ID := ch_ID c; ch_AccessHash := ch_AccessHash c; ch_CreatorUserID := ch_CreatorUserID c; ch_Title := ch_Title c;
  ch_About := ch_About c; ch_Username := ch_Username c; ch_Broadcast := ch_Broadcast c;
  ch_Megagroup := ch_Megagroup c; ch_Forum := ch_Forum c; ch_ForumTabs := ch_ForumTabs c; ch_JoinToSend := b;
  ch_JoinRequest := ch_JoinRequest c; ch_PreHistoryHidden := ch_PreHistoryHidden c;
  ch_ParticipantsHidden := ch_ParticipantsHidden c; ch_HasLink := ch_HasLink c; ch_Monoforum := ch_Monoforum c;
  ch_LinkedMonoforumID := ch_LinkedMonoforumID c; ch_DefaultBannedRights := ch_DefaultBannedRights c;
  ch_ParticipantsCount := ch_ParticipantsCount c; ch_AdminsCount := ch_AdminsCount c;
  ch_KickedCount := ch_KickedCount c; ch_BannedCount := ch_BannedCount c; ch_TopMessageID := ch_TopMessageID c;
  ch_Pts := ch_Pts c; ch_TTLPeriod := ch_TTLPeriod c; ch_Date := ch_Date c; ch_Deleted := ch_Deleted c |}.

Definition with_join_request (b : bool) c : Channel := {|
  ch_ID := ch_ID c; ch_AccessHash := ch_AccessHash c; ch_CreatorUserID := ch_CreatorUserID c; ch_Title := ch_Title c;
  ch_About := ch_About c; ch_Username := ch_Username c; ch_Broadcast := ch_Broadcast c;
  ch_Megagroup := ch_Megagroup c; ch_Forum := ch_Forum c; ch_ForumTabs := ch_ForumTabs c;
  ch_JoinToSend := ch_JoinToSend c; ch_JoinRequest := b; ch_PreHistoryHidden := ch_PreHistoryHidden c;
  ch_ParticipantsHidden := ch_ParticipantsHidden c; ch_HasLink := ch_HasLink c; ch_Monoforum := ch_Monoforum c;
  ch_LinkedMonoforumID := ch_LinkedMonoforumID c; ch_DefaultBannedRights := ch_DefaultBannedRights c;
  ch_ParticipantsCount := ch_ParticipantsCount c; ch_AdminsCount := ch_AdminsCount c;
  ch_KickedCount := ch_KickedCount c; ch_BannedCount := ch_BannedCount c; ch_TopMessageID := ch_TopMessageID c;
  ch_Pts := ch_Pts c; ch_TTLPeriod := ch_TTLPeriod c; ch_Date := ch_Date c; ch_Deleted := ch_Deleted c |}.

Definition with_link (b : bool) c : Channel := {|
  ch_ID := ch_ID c; ch_AccessHash := ch_AccessHash c; ch_CreatorUserID := ch_CreatorUserID c; ch_Title := ch_Title c;
  ch_About := ch_About c; ch_Username := ch_Username c; ch_Broadcast := ch_Broadcast c;
  ch_Megagroup := ch_Megagroup c; ch_Forum := ch_Forum c; ch_ForumTabs := ch_ForumTabs c;
  ch_JoinToSend := ch_JoinToSend c; ch_JoinRequest := ch_JoinRequest c; ch_PreHistoryHidden := ch_PreHistoryHidden c;
  ch_ParticipantsHidden := ch_ParticipantsHidden c; ch_HasLink := b; ch_Monoforum := ch_Monoforum c;
  ch_LinkedMonoforumID := ch_LinkedMonoforumID c; ch_DefaultBannedRights := ch_DefaultBannedRights c;
  ch_ParticipantsCount := ch_ParticipantsCount c; ch_AdminsCount := ch_AdminsCount c;
  ch_KickedCount := ch_KickedCount c; ch_BannedCount := ch_BannedCount c; ch_TopMessageID := ch_TopMessageID c;
  ch_Pts := ch_Pts c; ch_TTLPeriod := ch_TTLPeriod c; ch_Date := ch_Date c; ch_Deleted := ch_Deleted c |}.

Definition without_channel  c : Channel := {|
  ch_ID := ch_ID c; ch_AccessHash := ch_AccessHash c; ch_CreatorUserID := ch_CreatorUserID c; ch_Title := ch_Title c;
  ch_About := ch_About c; ch_Username := ""; ch_Broadcast := ch_Broadcast c; ch_Megagroup := ch_Megagroup c;
  ch_Forum := ch_Forum c; ch_ForumTabs := ch_ForumTabs c; ch_JoinToSend := ch_JoinToSend c;
  ch_JoinRequest := ch_JoinRequest c; ch_PreHistoryHidden := ch_PreHistoryHidden c;
  ch_ParticipantsHidden := ch_ParticipantsHidden c; ch_HasLink := ch_HasLink c; ch_Monoforum := ch_Monoforum c;
  ch_LinkedMonoforumID := ch_LinkedMonoforumID c; ch_DefaultBannedRights := ch_DefaultBannedRights c;
  ch_ParticipantsCount := ch_ParticipantsCount c; ch_AdminsCount := ch_AdminsCount c;
  ch_KickedCount := ch_KickedCount c; ch_BannedCount := ch_BannedCount c; ch_TopMessageID := ch_TopMessageID c;
  ch_Pts := ch_Pts c; ch_TTLPeriod := ch_TTLPeriod c; ch_Date := ch_Date c; ch_Deleted := true |}.

Definition no_channel : Channel := {|
  ch_ID := 0; ch_AccessHash := 0; ch_CreatorUserID := 0; ch_Title := ""; ch_About := "";
  ch_Username := ""; ch_Broadcast := false; ch_Megagroup := false; ch_Forum := false; ch_ForumTabs := false;
  ch_JoinToSend := false; ch_JoinRequest := false; ch_PreHistoryHidden := false; ch_ParticipantsHidden := false; ch_HasLink := false;
  ch_Monoforum := false; ch_LinkedMonoforumID := 0; ch_DefaultBannedRights := no_bans; ch_ParticipantsCount := 0; ch_AdminsCount := 0;
  ch_KickedCount := 0; ch_BannedCount := 0; ch_TopMessageID := 0; ch_Pts := 0; ch_TTLPeriod := 0;
  ch_Date := 0; ch_Deleted := false |}.

Record ChannelMember := {
  cm_ChannelID : Z;
  cm_UserID : Z;
  cm_InviterUserID : Z;
  cm_Role : ChannelMemberRole;
  cm_Status : ChannelMemberStatus;
  cm_JoinedAt : Z;
  cm_LeftAt : Z;
  cm_AdminRights : ChannelAdminRights;
  cm_BannedRights : ChannelBannedRights;
  cm_Rank : string;
  cm_AvailableMinID : Z;
  cm_AvailableMinPts : Z;
  cm_HistoryClearAnchorID : Z;
  cm_HistoryClearAnchorDate : Z;
  cm_ReadInboxMaxID : Z;
  cm_ReadInboxDate : Z;
  cm_ReadOutboxMaxID : Z;
  cm_UnreadMark : bool;
  cm_SlowmodeLastSendDate : Z;
  cm_Guest : bool;
}.

#[export] Instance ChannelMember_eq_dec : EqDecision ChannelMember.
Proof. solve_decision. Defined.

Definition with_standing (role : ChannelMemberRole) (rights : ChannelAdminRights) (rank : string) m : ChannelMember := {|
  cm_ChannelID := cm_ChannelID m; cm_UserID := cm_UserID m; cm_InviterUserID := cm_InviterUserID m; cm_Role := role;
  cm_Status := cm_Status m; cm_JoinedAt := cm_JoinedAt m; cm_LeftAt := cm_LeftAt m; cm_AdminRights := rights;
  cm_BannedRights := cm_BannedRights m; cm_Rank := rank; cm_AvailableMinID := cm_AvailableMinID m;
  cm_AvailableMinPts := cm_AvailableMinPts m; cm_HistoryClearAnchorID := cm_HistoryClearAnchorID m;
  cm_HistoryClearAnchorDate := cm_HistoryClearAnchorDate m; cm_ReadInboxMaxID := cm_ReadInboxMaxID m;
  cm_ReadInboxDate := cm_ReadInboxDate m; cm_ReadOutboxMaxID := cm_ReadOutboxMaxID m;
  cm_UnreadMark := cm_UnreadMark m; cm_SlowmodeLastSendDate := cm_SlowmodeLastSendDate m; cm_Guest := cm_Guest m |}.

Definition with_rank (rank : string) m : ChannelMember := {|
  cm_ChannelID := cm_ChannelID m; cm_UserID := cm_UserID m; cm_InviterUserID := cm_InviterUserID m;
  cm_Role := cm_Role m; cm_Status := cm_Status m; cm_JoinedAt := cm_JoinedAt m; cm_LeftAt := cm_LeftAt m;
  cm_AdminRights := cm_AdminRights m; cm_BannedRights := cm_BannedRights m; cm_Rank := rank;
  cm_AvailableMinID := cm_AvailableMinID m; cm_AvailableMinPts := cm_AvailableMinPts m;
  cm_HistoryClearAnchorID := cm_HistoryClearAnchorID m; cm_HistoryClearAnchorDate := cm_HistoryClearAnchorDate m;
  cm_ReadInboxMaxID := cm_ReadInboxMaxID m; cm_ReadInboxDate := cm_ReadInboxDate m;
  cm_ReadOutboxMaxID := cm_ReadOutboxMaxID m; cm_UnreadMark := cm_UnreadMark m;
  cm_SlowmodeLastSendDate := cm_SlowmodeLastSendDate m; cm_Guest := cm_Guest m |}.

Definition with_status (status : ChannelMemberStatus) (leftAt : Z) m : ChannelMember := {|
  cm_ChannelID := cm_ChannelID m; cm_UserID := cm_UserID m; cm_InviterUserID := cm_InviterUserID m;
  cm_Role := cm_Role m; cm_Status := status; cm_JoinedAt := cm_JoinedAt m; cm_LeftAt := leftAt;
  cm_AdminRights := cm_AdminRights m; cm_BannedRights := cm_BannedRights m; cm_Rank := cm_Rank m;
  cm_AvailableMinID := cm_AvailableMinID m; cm_AvailableMinPts := cm_AvailableMinPts m;
  cm_HistoryClearAnchorID := cm_HistoryClearAnchorID m; cm_HistoryClearAnchorDate := cm_HistoryClearAnchorDate m;
  cm_ReadInboxMaxID := cm_ReadInboxMaxID m; cm_ReadInboxDate := cm_ReadInboxDate m;
  cm_ReadOutboxMaxID := cm_ReadOutboxMaxID m; cm_UnreadMark := cm_UnreadMark m;
  cm_SlowmodeLastSendDate := cm_SlowmodeLastSendDate m; cm_Guest := cm_Guest m |}.

Definition with_inviter (u : Z) m : ChannelMember := {|
  cm_ChannelID := cm_ChannelID m; cm_UserID := cm_UserID m; cm_InviterUserID := u; cm_Role := cm_Role m;
  cm_Status := cm_Status m; cm_JoinedAt := cm_JoinedAt m; cm_LeftAt := cm_LeftAt m;
  cm_AdminRights := cm_AdminRights m; cm_BannedRights := cm_BannedRights m; cm_Rank := cm_Rank m;
  cm_AvailableMinID := cm_AvailableMinID m; cm_AvailableMinPts := cm_AvailableMinPts m;
  cm_HistoryClearAnchorID := cm_HistoryClearAnchorID m; cm_HistoryClearAnchorDate := cm_HistoryClearAnchorDate m;
  cm_ReadInboxMaxID := cm_ReadInboxMaxID m; cm_ReadInboxDate := cm_ReadInboxDate m;
  cm_ReadOutboxMaxID := cm_ReadOutboxMaxID m; cm_UnreadMark := cm_UnreadMark m;
  cm_SlowmodeLastSendDate := cm_SlowmodeLastSendDate m; cm_Guest := cm_Guest m |}.

Definition with_joined (date : Z) m : ChannelMember := {|
  cm_ChannelID := cm_ChannelID m; cm_UserID := cm_UserID m; cm_InviterUserID := cm_InviterUserID m;
  cm_Role := cm_Role m; cm_Status := cm_Status m; cm_JoinedAt := date; cm_LeftAt := cm_LeftAt m;
  cm_AdminRights := cm_AdminRights m; cm_BannedRights := cm_BannedRights m; cm_Rank := cm_Rank m;
  cm_AvailableMinID := cm_AvailableMinID m; cm_AvailableMinPts := cm_AvailableMinPts m;
  cm_HistoryClearAnchorID := cm_HistoryClearAnchorID m; cm_HistoryClearAnchorDate := cm_HistoryClearAnchorDate m;
  cm_ReadInboxMaxID := cm_ReadInboxMaxID m; cm_ReadInboxDate := cm_ReadInboxDate m;
  cm_ReadOutboxMaxID := cm_ReadOutboxMaxID m; cm_UnreadMark := cm_UnreadMark m;
  cm_SlowmodeLastSendDate := cm_SlowmodeLastSendDate m; cm_Guest := cm_Guest m |}.

Definition with_bans (r : ChannelBannedRights) m : ChannelMember := {|
  cm_ChannelID := cm_ChannelID m; cm_UserID := cm_UserID m; cm_InviterUserID := cm_InviterUserID m;
  cm_Role := cm_Role m; cm_Status := cm_Status m; cm_JoinedAt := cm_JoinedAt m; cm_LeftAt := cm_LeftAt m;
  cm_AdminRights := cm_AdminRights m; cm_BannedRights := r; cm_Rank := cm_Rank m;
  cm_AvailableMinID := cm_AvailableMinID m; cm_AvailableMinPts := cm_AvailableMinPts m;
  cm_HistoryClearAnchorID := cm_HistoryClearAnchorID m; cm_HistoryClearAnchorDate := cm_HistoryClearAnchorDate m;
  cm_ReadInboxMaxID := cm_ReadInboxMaxID m; cm_ReadInboxDate := cm_ReadInboxDate m;
  cm_ReadOutboxMaxID := cm_ReadOutboxMaxID m; cm_UnreadMark := cm_UnreadMark m;
  cm_SlowmodeLastSendDate := cm_SlowmodeLastSendDate m; cm_Guest := cm_Guest m |}.

Definition with_min (minID : Z) (minPts : Z) m : ChannelMember := {|
  cm_ChannelID := cm_ChannelID m; cm_UserID := cm_UserID m; cm_InviterUserID := cm_InviterUserID m;
  cm_Role := cm_Role m; cm_Status := cm_Status m; cm_JoinedAt := cm_JoinedAt m; cm_LeftAt := cm_LeftAt m;
  cm_AdminRights := cm_AdminRights m; cm_BannedRights := cm_BannedRights m; cm_Rank := cm_Rank m;
  cm_AvailableMinID := minID; cm_AvailableMinPts := minPts; cm_HistoryClearAnchorID := cm_HistoryClearAnchorID m;
  cm_HistoryClearAnchorDate := cm_HistoryClearAnchorDate m; cm_ReadInboxMaxID := cm_ReadInboxMaxID m;
  cm_ReadInboxDate := cm_ReadInboxDate m; cm_ReadOutboxMaxID := cm_ReadOutboxMaxID m;
  cm_UnreadMark := cm_UnreadMark m; cm_SlowmodeLastSendDate := cm_SlowmodeLastSendDate m; cm_Guest := cm_Guest m |}.

Definition with_read (inbox : Z) (outbox : Z) m : ChannelMember := {|
  cm_ChannelID := cm_ChannelID m; cm_UserID := cm_UserID m; cm_InviterUserID := cm_InviterUserID m;
  cm_Role := cm_Role m; cm_Status := cm_Status m; cm_JoinedAt := cm_JoinedAt m; cm_LeftAt := cm_LeftAt m;
  cm_AdminRights := cm_AdminRights m; cm_BannedRights := cm_BannedRights m; cm_Rank := cm_Rank m;
  cm_AvailableMinID := cm_AvailableMinID m; cm_AvailableMinPts := cm_AvailableMinPts m;
  cm_HistoryClearAnchorID := cm_HistoryClearAnchorID m; cm_HistoryClearAnchorDate := cm_HistoryClearAnchorDate m;
  cm_ReadInboxMaxID := inbox; cm_ReadInboxDate := cm_ReadInboxDate m; cm_ReadOutboxMaxID := outbox;
  cm_UnreadMark := cm_UnreadMark m; cm_SlowmodeLastSendDate := cm_SlowmodeLastSendDate m; cm_Guest := cm_Guest m |}.

(** A member literal with the named fields; the others are zero. *)
Definition new_member (ch u inviter : Z) (role : ChannelMemberRole) (status : ChannelMemberStatus) (joinedAt : Z)
  : ChannelMember := {|
  cm_ChannelID := ch; cm_UserID := u; cm_InviterUserID := inviter; cm_Role := role; cm_Status := status;
  cm_JoinedAt := joinedAt; cm_LeftAt := 0; cm_AdminRights := no_rights; cm_BannedRights := no_bans; cm_Rank := "";
  cm_AvailableMinID := 0; cm_AvailableMinPts := 0; cm_HistoryClearAnchorID := 0; cm_HistoryClearAnchorDate := 0;
  cm_ReadInboxMaxID := 0; cm_ReadInboxDate := 0; cm_ReadOutboxMaxID := 0; cm_UnreadMark := false;
  cm_SlowmodeLastSendDate := 0; cm_Guest := false |}.

Definition no_member : ChannelMember := new_member 0 0 0 NoRole NoStatus 0.

Record ChannelInvite := {
  iv_ChannelID : Z;
  iv_InviteID : Z;
  iv_Hash : string;
  iv_AdminUserID : Z;
  iv_Title : string;
  iv_Permanent : bool;
  iv_Revoked : bool;
  iv_RequestNeeded : bool;
  iv_ExpireDate : Z;
  iv_UsageLimit : Z;
  iv_UsageCount : Z;
  iv_RequestedCount : Z;
  iv_Date : Z;
}.

Definition with_revoked  i : ChannelInvite := {|
  iv_ChannelID := iv_ChannelID i; iv_InviteID := iv_InviteID i; iv_Hash := iv_Hash i;
  iv_AdminUserID := iv_AdminUserID i; iv_Title := iv_Title i; iv_Permanent := iv_Permanent i; iv_Revoked := true;
  iv_RequestNeeded := iv_RequestNeeded i; iv_ExpireDate := iv_ExpireDate i; iv_UsageLimit := iv_UsageLimit i;
  iv_UsageCount := iv_UsageCount i; iv_RequestedCount := iv_RequestedCount i; iv_Date := iv_Date i |}.

Definition with_usage (n : Z) i : ChannelInvite := {|
  iv_ChannelID := iv_ChannelID i; iv_InviteID := iv_InviteID i; iv_Hash := iv_Hash i;
  iv_AdminUserID := iv_AdminUserID i; iv_Title := iv_Title i; iv_Permanent := iv_Permanent i;
  iv_Revoked := iv_Revoked i; iv_RequestNeeded := iv_RequestNeeded i; iv_ExpireDate := iv_ExpireDate i;
  iv_UsageLimit := iv_UsageLimit i; iv_UsageCount := n; iv_RequestedCount := iv_RequestedCount i;
  iv_Date := iv_Date i |}.

Definition with_requested (n : Z) i : ChannelInvite := {|
  iv_ChannelID := iv_ChannelID i; iv_InviteID := iv_InviteID i; iv_Hash := iv_Hash i;
  iv_AdminUserID := iv_AdminUserID i; iv_Title := iv_Title i; iv_Permanent := iv_Permanent i;
  iv_Revoked := iv_Revoked i; iv_RequestNeeded := iv_RequestNeeded i; iv_ExpireDate := iv_ExpireDate i;
  iv_UsageLimit := iv_UsageLimit i; iv_UsageCount := iv_UsageCount i; iv_RequestedCount := n; iv_Date := iv_Date i |}.

Definition with_terms (title : string) (permanent : bool) (requestNeeded : bool) (expireDate : Z) (usageLimit : Z) i : ChannelInvite := {|
  iv_ChannelID := iv_ChannelID i; iv_InviteID := iv_InviteID i; iv_Hash := iv_Hash i;
  iv_AdminUserID := iv_AdminUserID i; iv_Title := title; iv_Permanent := permanent; iv_Revoked := iv_Revoked i;
  iv_RequestNeeded := requestNeeded; iv_ExpireDate := expireDate; iv_UsageLimit := usageLimit;
  iv_UsageCount := iv_UsageCount i; iv_RequestedCount := iv_RequestedCount i; iv_Date := iv_Date i |}.

Record ChannelInviteImporter := {
  im_ChannelID : Z;
  im_InviteID : Z;
  im_UserID : Z;
  im_Date : Z;
  im_Requested : bool;
  im_ApprovedBy : Z;
}.

Inductive ChannelMessageAction :=
  | ChannelActionCreate (title : string)
  | ChannelActionChatJoined (users : list Z)
  | ChannelActionChatJoinedByLink (inviter : Z) (users : list Z)
  | ChannelActionChatAddUser (users : list Z)
  | ChannelActionChatDelete (users : list Z).

Definition action_UserIDs (a : ChannelMessageAction) : list Z :=
  match a with
  | ChannelActionCreate _ => []
  | ChannelActionChatJoined us | ChannelActionChatJoinedByLink _ us | ChannelActionChatAddUser us
  | ChannelActionChatDelete us => us
  end.

Record ChannelMessage := {
  msg_ChannelID : Z;
  msg_ID : Z;
  msg_SenderUserID : Z;
  msg_Date : Z;
  msg_Post : bool;
  msg_Action : option ChannelMessageAction;
  msg_Pts : Z;
  msg_Deleted : bool;
}.

Record ChannelUpdateEvent := {
  ev_ChannelID : Z;
  ev_Pts : Z;
  ev_PtsCount : Z;
  ev_Date : Z;
  ev_SenderUserID : Z;
  ev_UserIDs : list Z;
  ev_Message : option ChannelMessage;                       (* [ChannelUpdateNewMessage] *)
  ev_Participants : option (ChannelMember * ChannelMember); (* [ChannelUpdateParticipant]: previous and new *)
}.

Record ChannelUpdateRetentionCheckpoint := {
  rc_ChannelID : Z;
  rc_RetainedThroughPts : Z;
  rc_LatestEventDate : Z;
  rc_LatestPts : Z;
}.

Inductive ChannelAdminLogEventType :=
  | LogInvite | LogJoin | LogLeave | LogPromote | LogDemote | LogEditRank | LogBan | LogUnban | LogKick | LogUnkick.

Record ChannelAdminLogEvent := {
  log_ID : Z;
  log_ChannelID : Z;
  log_UserID : Z;
  log_Date : Z;
  log_Type : ChannelAdminLogEventType;
  log_Ranks : string * string;                              (* [PrevString] and [NewString] *)
  log_Change : option (ChannelMember * ChannelMember);      (* [PrevParticipant] and [NewParticipant] *)
  log_Participant : option ChannelMember;
}.

Record ChannelMessagePeerReaction := {
  pr_SenderUserID : Z;
  pr_UserID : Z;
  pr_Unread : bool;
}.

Record memoryMention := { topID : Z; unread : bool }.

Record ChannelDialog := {
  dg_UserID : Z;
  dg_ChannelID : Z;
  dg_TopMessageID : Z;
  dg_TopMessageDate : Z;
  dg_ReadInboxMaxID : Z;
  dg_UnreadCount : Z;
  dg_UnreadMentions : Z;
  dg_UnreadReactions : Z;
  dg_UnreadMark : bool;
}.

Definition no_dialog : ChannelDialog := {|
  dg_UserID := 0; dg_ChannelID := 0; dg_TopMessageID := 0; dg_TopMessageDate := 0; dg_ReadInboxMaxID := 0;
  dg_UnreadCount := 0; dg_UnreadMentions := 0; dg_UnreadReactions := 0; dg_UnreadMark := false |}.

Definition with_UnreadMentions (n : Z) (d : ChannelDialog) : ChannelDialog := {|
  dg_UserID := dg_UserID d; dg_ChannelID := dg_ChannelID d; dg_TopMessageID := dg_TopMessageID d;
  dg_TopMessageDate := dg_TopMessageDate d; dg_ReadInboxMaxID := dg_ReadInboxMaxID d; dg_UnreadCount := dg_UnreadCount d;
  dg_UnreadMentions := n; dg_UnreadReactions := dg_UnreadReactions d; dg_UnreadMark := dg_UnreadMark d |}.

Record CreateChannelResult := {
  cr_Channel : Channel;
  cr_Members : list ChannelMember;
  cr_Message : option (ChannelMessage * ChannelUpdateEvent);
  cr_Recipients : list Z;
}.

(** * The store *)

Record ChannelStore := {
  nextID : Z;
  nextHash : Z;
  channels : gmap Z Channel;
  members : gmap Z (gmap Z ChannelMember);
  dialogs : gmap Z (gmap Z ChannelDialog);
  messages : gmap Z (list ChannelMessage);
  reactions : gmap Z (gmap Z (gmap Z (list ChannelMessagePeerReaction)));
  mentions : gmap Z (gmap Z (gmap Z memoryMention));
  events : gmap Z (list ChannelUpdateEvent);
  retention : gmap Z ChannelUpdateRetentionCheckpoint;
  adminLogs : gmap Z (list ChannelAdminLogEvent);
  invites : gmap string ChannelInvite;
  importers : gmap Z (gmap Z ChannelInviteImporter);
  msgSeq : gmap Z Z;
  ptsSeq : gmap Z Z;
  logSeq : gmap Z Z;
}.

Implicit Types (s : ChannelStore) (c : Channel) (m : ChannelMember) (i : ChannelInvite) (ch u actor date : Z).

Definition set_next (id : Z) (hash : Z) s : ChannelStore := {|
  nextID := id; nextHash := hash; channels := channels s; members := members s; dialogs := dialogs s;
  messages := messages s; reactions := reactions s; mentions := mentions s; events := events s;
  retention := retention s; adminLogs := adminLogs s; invites := invites s; importers := importers s;
  msgSeq := msgSeq s; ptsSeq := ptsSeq s; logSeq := logSeq s |}.

Definition set_channels (cs : gmap Z Channel) s : ChannelStore := {|
  nextID := nextID s; nextHash := nextHash s; channels := cs; members := members s; dialogs := dialogs s;
  messages := messages s; reactions := reactions s; mentions := mentions s; events := events s;
  retention := retention s; adminLogs := adminLogs s; invites := invites s; importers := importers s;
  msgSeq := msgSeq s; ptsSeq := ptsSeq s; logSeq := logSeq s |}.

Definition set_members (ms : gmap Z (gmap Z ChannelMember)) s : ChannelStore := {|
  nextID := nextID s; nextHash := nextHash s; channels := channels s; members := ms; dialogs := dialogs s;
  messages := messages s; reactions := reactions s; mentions := mentions s; events := events s;
  retention := retention s; adminLogs := adminLogs s; invites := invites s; importers := importers s;
  msgSeq := msgSeq s; ptsSeq := ptsSeq s; logSeq := logSeq s |}.

Definition set_dialogs (ds : gmap Z (gmap Z ChannelDialog)) s : ChannelStore := {|
  nextID := nextID s; nextHash := nextHash s; channels := channels s; members := members s; dialogs := ds;
  messages := messages s; reactions := reactions s; mentions := mentions s; events := events s;
  retention := retention s; adminLogs := adminLogs s; invites := invites s; importers := importers s;
  msgSeq := msgSeq s; ptsSeq := ptsSeq s; logSeq := logSeq s |}.

Definition set_messages (ms : gmap Z (list ChannelMessage)) s : ChannelStore := {|
  nextID := nextID s; nextHash := nextHash s; channels := channels s; members := members s; dialogs := dialogs s;
  messages := ms; reactions := reactions s; mentions := mentions s; events := events s; retention := retention s;
  adminLogs := adminLogs s; invites := invites s; importers := importers s; msgSeq := msgSeq s; ptsSeq := ptsSeq s;
  logSeq := logSeq s |}.

Definition set_mentions (ms : gmap Z (gmap Z (gmap Z memoryMention))) s : ChannelStore := {|
  nextID := nextID s; nextHash := nextHash s; channels := channels s; members := members s; dialogs := dialogs s;
  messages := messages s; reactions := reactions s; mentions := ms; events := events s; retention := retention s;
  adminLogs := adminLogs s; invites := invites s; importers := importers s; msgSeq := msgSeq s; ptsSeq := ptsSeq s;
  logSeq := logSeq s |}.

Definition set_events (es : gmap Z (list ChannelUpdateEvent)) s : ChannelStore := {|
  nextID := nextID s; nextHash := nextHash s; channels := channels s; members := members s; dialogs := dialogs s;
  messages := messages s; reactions := reactions s; mentions := mentions s; events := es; retention := retention s;
  adminLogs := adminLogs s; invites := invites s; importers := importers s; msgSeq := msgSeq s; ptsSeq := ptsSeq s;
  logSeq := logSeq s |}.

Definition set_retention (rs : gmap Z ChannelUpdateRetentionCheckpoint) s : ChannelStore := {|
  nextID := nextID s; nextHash := nextHash s; channels := channels s; members := members s; dialogs := dialogs s;
  messages := messages s; reactions := reactions s; mentions := mentions s; events := events s; retention := rs;
  adminLogs := adminLogs s; invites := invites s; importers := importers s; msgSeq := msgSeq s; ptsSeq := ptsSeq s;
  logSeq := logSeq s |}.

Definition set_adminLogs (ls : gmap Z (list ChannelAdminLogEvent)) s : ChannelStore := {|
  nextID := nextID s; nextHash := nextHash s; channels := channels s; members := members s; dialogs := dialogs s;
  messages := messages s; reactions := reactions s; mentions := mentions s; events := events s;
  retention := retention s; adminLogs := ls; invites := invites s; importers := importers s; msgSeq := msgSeq s;
  ptsSeq := ptsSeq s; logSeq := logSeq s |}.

Definition set_invites (ivs : gmap string ChannelInvite) s : ChannelStore := {|
  nextID := nextID s; nextHash := nextHash s; channels := channels s; members := members s; dialogs := dialogs s;
  messages := messages s; reactions := reactions s; mentions := mentions s; events := events s;
  retention := retention s; adminLogs := adminLogs s; invites := ivs; importers := importers s; msgSeq := msgSeq s;
  ptsSeq := ptsSeq s; logSeq := logSeq s |}.

Definition set_importers (ims : gmap Z (gmap Z ChannelInviteImporter)) s : ChannelStore := {|
  nextID := nextID s; nextHash := nextHash s; channels := channels s; members := members s; dialogs := dialogs s;
  messages := messages s; reactions := reactions s; mentions := mentions s; events := events s;
  retention := retention s; adminLogs := adminLogs s; invites := invites s; importers := ims; msgSeq := msgSeq s;
  ptsSeq := ptsSeq s; logSeq := logSeq s |}.

Definition set_msgSeq (q : gmap Z Z) s : ChannelStore := {|
  nextID := nextID s; nextHash := nextHash s; channels := channels s; members := members s; dialogs := dialogs s;
  messages := messages s; reactions := reactions s; mentions := mentions s; events := events s;
  retention := retention s; adminLogs := adminLogs s; invites := invites s; importers := importers s; msgSeq := q;
  ptsSeq := ptsSeq s; logSeq := logSeq s |}.

Definition set_ptsSeq (q : gmap Z Z) s : ChannelStore := {|
  nextID := nextID s; nextHash := nextHash s; channels := channels s; members := members s; dialogs := dialogs s;
  messages := messages s; reactions := reactions s; mentions := mentions s; events := events s;
  retention := retention s; adminLogs := adminLogs s; invites := invites s; importers := importers s;
  msgSeq := msgSeq s; ptsSeq := q; logSeq := logSeq s |}.

Definition set_logSeq (q : gmap Z Z) s : ChannelStore := {|
  nextID := nextID s; nextHash := nextHash s; channels := channels s; members := members s; dialogs := dialogs s;
  messages := messages s; reactions := reactions s; mentions := mentions s; events := events s;
  retention := retention s; adminLogs := adminLogs s; invites := invites s; importers := importers s;
  msgSeq := msgSeq s; ptsSeq := ptsSeq s; logSeq := q |}.

Definition firstMemoryChannelID : Z := 2000000000.
Definition InitialChannelPts : Z := 1.
Definition MaxChannelRealtimeFanout : Z := 2000.
Definition MaxDialogUnreadCount : Z := 99.

Definition NewChannelStore : ChannelStore := {|
  nextID := firstMemoryChannelID; nextHash := 900000000000; channels := ∅; members := ∅; dialogs := ∅; messages := ∅;
  reactions := ∅; mentions := ∅; events := ∅; retention := ∅; adminLogs := ∅; invites := ∅; importers := ∅;
  msgSeq := ∅; ptsSeq := ∅; logSeq := ∅ |}.

(** What the language and its library leave open. *)
Class ChannelEnvironment := {
  visit_members : list nat → gmap Z ChannelMember → list (Z * ChannelMember);
  visit_members_all : ∀ tick ms, visit_members tick ms ≡ₚ map_to_list ms;
  visit_importers : list nat → gmap Z ChannelInviteImporter → list (Z * ChannelInviteImporter);
  visit_importers_all : ∀ tick ims, visit_importers tick ims ≡ₚ map_to_list ims;
  visit_invites : list nat → gmap string ChannelInvite → list (string * ChannelInvite);
  visit_invites_all : ∀ tick ivs, visit_invites tick ivs ≡ₚ map_to_list ivs;
  rand_Read : list nat → nat → option (list Z);   (* so many bytes *)
  time_Now : list nat → Z;                         (* in seconds *)
}.

(** ** Access to the nested maps *)

Definition membersOf ch s : gmap Z ChannelMember := default ∅ (members s !! ch).
Definition memberOf ch u s : option ChannelMember := membersOf ch s !! u.
Definition importersOf ch s : gmap Z ChannelInviteImporter := default ∅ (importers s !! ch).
Definition seq_at (q : gmap Z Z) ch : Z := default 0 (q !! ch).

Definition put_channel ch c s : ChannelStore := set_channels (<[ch := c]> (channels s)) s.
Definition put_member ch u m s : ChannelStore := set_members (<[ch := <[u := m]> (membersOf ch s)]> (members s)) s.
Definition put_importer ch u (im : ChannelInviteImporter) s : ChannelStore :=
  set_importers (<[ch := <[u := im]> (importersOf ch s)]> (importers s)) s.
Definition put_invite i s : ChannelStore := set_invites (<[iv_Hash i := i]> (invites s)) s.

(** * Rights *)

Definition is_role (r : ChannelMemberRole) m : bool := bool_decide (cm_Role m = r).
Definition is_status (t : ChannelMemberStatus) m : bool := bool_decide (cm_Status m = t).

Definition zeroChannelAdminRights (r : ChannelAdminRights) : bool := bool_decide (r = no_rights).
Definition zeroChannelBannedRights (r : ChannelBannedRights) : bool := bool_decide (r = no_bans).

Definition isChannelAdmin m : bool := is_role RoleCreator m || is_role RoleAdmin m.
Definition canAddChannelAdmins m : bool := is_role RoleCreator m || (is_role RoleAdmin m && ar_AddAdmins (cm_AdminRights m)).
Definition canBanChannelUsers m : bool := is_role RoleCreator m || (is_role RoleAdmin m && ar_BanUsers (cm_AdminRights m)).
Definition canExportChannelInvite m : bool :=
  is_role RoleCreator m
  || (is_role RoleAdmin m && (ar_InviteUsers (cm_AdminRights m) || ar_ChangeInfo (cm_AdminRights m))).
Definition canInviteToChannel c m : bool :=
  if is_role RoleCreator m
     || (is_role RoleAdmin m && (ar_InviteUsers (cm_AdminRights m) || ar_ChangeInfo (cm_AdminRights m)))
  then true
  else ch_Megagroup c && negb (br_InviteUsers (ch_DefaultBannedRights c)) && negb (br_InviteUsers (cm_BannedRights m)).

Definition adminRightsSubset (want have : ChannelAdminRights) : bool :=
  (negb (ar_ChangeInfo want) || ar_ChangeInfo have)
  && (negb (ar_PostMessages want) || ar_PostMessages have)
  && (negb (ar_EditMessages want) || ar_EditMessages have)
  && (negb (ar_DeleteMessages want) || ar_DeleteMessages have)
  && (negb (ar_PostStories want) || ar_PostStories have)
  && (negb (ar_EditStories want) || ar_EditStories have)
  && (negb (ar_DeleteStories want) || ar_DeleteStories have)
  && (negb (ar_BanUsers want) || ar_BanUsers have)
  && (negb (ar_InviteUsers want) || ar_InviteUsers have)
  && (negb (ar_PinMessages want) || ar_PinMessages have)
  && (negb (ar_AddAdmins want) || ar_AddAdmins have)
  && (negb (ar_ManageCall want) || ar_ManageCall have)
  && (negb (ar_Anonymous want) || ar_Anonymous have)
  && (negb (ar_ManageRanks want) || ar_ManageRanks have)
  && (negb (ar_ManageDirectMessages want) || ar_ManageDirectMessages have).

Definition NormalizeFullMegagroupAdminRights c (r : ChannelAdminRights) : ChannelAdminRights :=
  if ch_Megagroup c && negb (ch_Broadcast c) && ar_ChangeInfo r && ar_DeleteMessages r && ar_BanUsers r
     && ar_InviteUsers r && ar_PinMessages r && ar_AddAdmins r && ar_ManageCall r
  then with_ranks r else r.

(** Shut out of the channel, whatever else the membership says. *)
Definition shut_out m : bool := is_status Banned m || is_status Kicked m || br_ViewMessages (cm_BannedRights m).

Definition channelAndMemberLocked u ch s : res channel_error (Channel * ChannelMember) :=
  match channels s !! ch with
  | None => ERR ErrChannelInvalid
  | Some c =>
      if ch_Deleted c then ERR ErrChannelInvalid
      else match memberOf ch u s with
      | None => ERR ErrChannelPrivate
      | Some m =>
          if is_status Left m then ERR ErrChannelPrivate
          else if shut_out m then ERR ErrChannelUserBanned
          else OK (c, m)
      end
  end.

Definition channelForMemberLocked u ch s : res channel_error Channel := 
  '(c, _) ← channelAndMemberLocked u ch s; OK c.

Definition checkEditMemberRank c (actor target : ChannelMember) : res channel_error () :=
  if negb (ch_Megagroup c) then ERR ErrMegagroupIDInvalid
  else if cm_UserID actor =? cm_UserID target then
    if isChannelAdmin actor then OK tt
    else if br_EditRank (ch_DefaultBannedRights c) || br_EditRank (cm_BannedRights actor) then ERR ErrChannelRightForbidden
    else OK tt
  else if is_role RoleCreator target then ERR ErrChannelUserCreator
  else if is_role RoleCreator actor then OK tt
  else if negb (is_role RoleAdmin actor) || negb (ar_ManageRanks (cm_AdminRights actor)) then ERR ErrChannelAdminRequired
  else if is_role RoleAdmin target && negb (cm_InviterUserID target =? cm_UserID actor) then ERR ErrChannelRightForbidden
  else OK tt.

(** * Primitives *)

Definition channelInitialAvailableMinID c : Z := if ch_PreHistoryHidden c then ch_TopMessageID c else 0.
Definition channelInitialAvailableMinPts c : Z := ch_Pts c.

Definition uniqueNonZero (ids : list Z) (exclude : Z) : list Z :=
  fold_left (λ out id, if (id =? 0) || (id =? exclude) || bool_decide (id ∈ out) then out else out ++ [id]) ids [].

Definition uniqueNonZeroInt64s (items : list Z) : list Z := uniqueNonZero items 0.

(** Recomputing the counters of a channel from its members. *)
Definition participates m : bool := is_status Active m.
Definition administers m : bool := is_status Active m && isChannelAdmin m.
Definition restricted m : bool := is_status Active m && negb (zeroChannelBannedRights (cm_BannedRights m)).

Definition count (f : ChannelMember → bool) (ms : gmap Z ChannelMember) : Z := sum_map (λ m, b2z (f m)) ms.

Definition recount (ms : gmap Z ChannelMember) c : Channel :=
  with_counts (count participates ms) (count administers ms) (count (is_status Kicked) ms) (count restricted ms) c.

Definition refreshChannelCountsLocked ch s : ChannelStore :=
  put_channel ch (recount (membersOf ch s) (default no_channel (channels s !! ch))) s.

Definition appendChannelAdminLogLocked ch u date (type : ChannelAdminLogEventType) (ranks : string * string)
    (change : option (ChannelMember * ChannelMember)) (participant : option ChannelMember) s : ChannelStore :=
  if (ch =? 0) || (u =? 0) then s
  else
    let id := seq_at (logSeq s) ch + 1 in
    let event := {| log_ID := id; log_ChannelID := ch; log_UserID := u; log_Date := date; log_Type := type;
                    log_Ranks := ranks; log_Change := change; log_Participant := participant |} in
    set_adminLogs (<[ch := default [] (adminLogs s !! ch) ++ [event]]> (adminLogs s))
      (set_logSeq (<[ch := id]> (logSeq s)) s).

Definition log_act ch u date type s : ChannelStore := appendChannelAdminLogLocked ch u date type ("", "") None None s.
Definition log_change ch u date type (previous next : ChannelMember) s : ChannelStore :=
  appendChannelAdminLogLocked ch u date type ("", "") (Some (previous, next)) None s.

Definition appendChannelEventLocked (e : ChannelUpdateEvent) s : ChannelStore :=
  let ch := ev_ChannelID e in
  let k := default {| rc_ChannelID := 0; rc_RetainedThroughPts := 0; rc_LatestEventDate := 0; rc_LatestPts := 0 |}
             (retention s !! ch) in
  set_retention (<[ch := {| rc_ChannelID := ch; rc_RetainedThroughPts := rc_RetainedThroughPts k;
                            rc_LatestEventDate := Z.max (rc_LatestEventDate k) (ev_Date e);
                            rc_LatestPts := Z.max (rc_LatestPts k) (ev_Pts e) |}]> (retention s))
    (set_events (<[ch := default [] (events s !! ch) ++ [e]]> (events s)) s).

Definition appendChannelServiceMessageLocked ch sender date (action : ChannelMessageAction) s
  : (ChannelMessage * ChannelUpdateEvent) * ChannelStore :=
  let post := match channels s !! ch with Some c => ch_Broadcast c | None => false end in
  let id := seq_at (msgSeq s) ch + 1 in
  let pts := seq_at (ptsSeq s) ch + 1 in
  let msg := {| msg_ChannelID := ch; msg_ID := id; msg_SenderUserID := sender; msg_Date := date; msg_Post := post;
                msg_Action := Some action; msg_Pts := pts; msg_Deleted := false |} in
  let event := {| ev_ChannelID := ch; ev_Pts := pts; ev_PtsCount := 1; ev_Date := date; ev_SenderUserID := sender;
                  ev_UserIDs := action_UserIDs action; ev_Message := Some msg; ev_Participants := None |} in
  let s := set_msgSeq (<[ch := id]> (msgSeq s)) s in
  let s := set_ptsSeq (<[ch := pts]> (ptsSeq s)) s in
  let s := set_messages (<[ch := default [] (messages s !! ch) ++ [msg]]> (messages s)) s in
  ((msg, event), appendChannelEventLocked event s).

(** The operations announce what they did in groups ([b]) and take the new top of
    the message box over into the channel. *)
Definition announce (b : bool) ch sender date (action : ChannelMessageAction) c s
  : option (ChannelMessage * ChannelUpdateEvent) * Channel * ChannelStore :=
  if b then
    let '((msg, event), s) := appendChannelServiceMessageLocked ch sender date action s in
    let c := with_top (msg_ID msg) (ev_Pts event) c in
    (Some (msg, event), c, put_channel ch c s)
  else (None, c, s).

Definition transientChannelParticipantEvent ch actor (previous participant : ChannelMember) date : ChannelUpdateEvent := {|
  ev_ChannelID := ch; ev_Pts := 0; ev_PtsCount := 0; ev_Date := date; ev_SenderUserID := actor;
  ev_UserIDs := uniqueNonZeroInt64s [actor; cm_UserID previous; cm_InviterUserID previous; cm_UserID participant;
                                     cm_InviterUserID participant];
  ev_Message := None; ev_Participants := Some (previous, participant) |}.

Definition findMessageLocked ch (id : Z) s : option ChannelMessage :=
  List.find (λ msg, msg_ID msg =? id) (default [] (messages s !! ch)).

(** ** The dialogs of the members *)

Definition visibleTopMessageIDLocked u c s : Z :=
  let m := default no_member (memberOf (ch_ID c) u s) in
  match List.find (λ msg, negb (msg_Deleted msg) && (cm_AvailableMinID m <? msg_ID msg))
          (reverse (default [] (messages s !! ch_ID c))) with
  | Some msg => msg_ID msg
  | None =>
      if (0 <? cm_HistoryClearAnchorID m) && (cm_HistoryClearAnchorID m =? cm_AvailableMinID m)
      then cm_HistoryClearAnchorID m else 0
  end.

Definition channelUnreadCountLocked viewer ch (readMaxID top : Z) s : Z :=
  if (viewer =? 0) || (ch =? 0) || (top <=? readMaxID) then 0
  else
    let counts msg := negb (msg_Deleted msg || (msg_ID msg <=? readMaxID) || (top <? msg_ID msg)
                            || (msg_SenderUserID msg =? viewer)) in
    Z.min MaxDialogUnreadCount (Z.of_nat (length (List.filter counts (default [] (messages s !! ch))))).

(** The two counters below are asked for the whole channel, [topMsgID] being 0. *)
Definition countChannelUnreadMentionsLocked u ch s : Z :=
  sum_map (λ x, b2z (unread x)) (default ∅ (default ∅ (mentions s !! u) !! ch)).

Definition channelMessageHasUnreadReactionForUser (byUser : gmap Z (list ChannelMessagePeerReaction)) u : bool :=
  existsb (λ kv, existsb (λ row, (pr_SenderUserID row =? u) && negb (pr_UserID row =? u) && pr_Unread row) kv.2)
    (map_to_list byUser).

Definition countChannelUnreadReactionsLocked u ch s : Z :=
  let availableMinID := match memberOf ch u s with Some m => cm_AvailableMinID m | None => 0 end in
  let counts kv :=
    match findMessageLocked ch kv.1 s with
    | None => false
    | Some msg => negb (msg_Deleted msg || (msg_ID msg <=? availableMinID)) && channelMessageHasUnreadReactionForUser kv.2 u
    end in
  Z.of_nat (length (List.filter counts (map_to_list (default ∅ (reactions s !! ch))))).

Definition upsertChannelDialogLocked u c (top : option ChannelMessage) (selfAction : bool) s : ChannelStore :=
  let own := default ∅ (dialogs s !! u) in
  let d := default no_dialog (own !! ch_ID c) in
  let m := default no_member (memberOf (ch_ID c) u s) in
  let topMessageID := visibleTopMessageIDLocked u c s in
  let read := Z.max (cm_ReadInboxMaxID m) (dg_ReadInboxMaxID d) in
  let read := if selfAction then Z.max (ch_TopMessageID c) read else read in
  let d := {|
    dg_UserID := u; dg_ChannelID := ch_ID c; dg_TopMessageID := topMessageID;
    dg_TopMessageDate := match top with Some msg => msg_Date msg | None => dg_TopMessageDate d end;
    dg_ReadInboxMaxID := read;
    dg_UnreadCount := channelUnreadCountLocked u (ch_ID c) read topMessageID s;
    dg_UnreadMentions := countChannelUnreadMentionsLocked u (ch_ID c) s;
    dg_UnreadReactions := countChannelUnreadReactionsLocked u (ch_ID c) s;
    dg_UnreadMark := if selfAction then false else dg_UnreadMark d |} in
  set_dialogs (<[u := <[ch_ID c := d]> own]> (dialogs s)) s.

Definition clearChannelMentionsForUserLocked ch u s : ChannelStore :=
  let s := match mentions s !! u with
           | None => s
           | Some byChannel =>
               let byChannel := delete ch byChannel in
               set_mentions (if bool_decide (byChannel = ∅) then delete u (mentions s) else <[u := byChannel]> (mentions s)) s
           end in
  match dialogs s !! u with
  | None => s
  | Some own => set_dialogs (<[u := alter (with_UnreadMentions 0) ch own]> (dialogs s)) s
  end.

(** ** Draws *)

(** [base64.RawURLEncoding]. *)
Definition base64url_char (n : Z) : Z :=
  if n <? 26 then 65 + n else if n <? 52 then 71 + n else if n <? 62 then n - 4 else if n =? 62 then 45 else 95.

Fixpoint base64url (bs : list Z) : list Z :=
  match bs with
  | b0 :: b1 :: b2 :: bs =>
      base64url_char (b0 / 4) :: base64url_char (b0 mod 4 * 16 + b1 / 16) ::
      base64url_char (b1 mod 16 * 4 + b2 / 64) :: base64url_char (b2 mod 64) :: base64url bs
  | [b0; b1] => [base64url_char (b0 / 4); base64url_char (b0 mod 4 * 16 + b1 / 16); base64url_char (b1 mod 16 * 4)]
  | [b0] => [base64url_char (b0 / 4); base64url_char (b0 mod 4 * 16)]
  | [] => []
  end.

Section environment.
Context `{!ChannelEnvironment}.

Definition randomMemoryPositiveInt64 (tick : list nat) : option Z :=
  bs ← rand_Read tick 8; Some (foldr (λ b acc, b + 256 * acc) 0 bs mod two63).

Definition randomMemoryInviteHash (tick : list nat) : option string :=
  bs ← rand_Read tick 18; Some (string_of (base64url bs)).

(** An id and a hash for a new invite, drawn in this order. *)
Definition draw_invite (tick : list nat) : option (Z * string) :=
  id ← randomMemoryPositiveInt64 (0%nat :: tick); hash ← randomMemoryInviteHash (1%nat :: tick); Some (id, hash).

(** ** Who is told, and who inherits *)

Definition sorted_ids (ids : list Z) : list Z := merge_sort Z.le ids.

Definition activeMemberIDsLocked (tick : list nat) ch (excludeUserID limit : Z) s : list Z :=
  let limit := if (limit <=? 0) || (MaxChannelRealtimeFanout <? limit) then MaxChannelRealtimeFanout else limit in
  let active kv := negb (kv.1 =? excludeUserID) && is_status Active kv.2 in
  sorted_ids (take (Z.to_nat limit) (List.filter active (visit_members tick (membersOf ch s))).*1).

Definition recipients (tick : list nat) ch s : list Z := activeMemberIDsLocked (9%nat :: tick) ch 0 0 s.

Definition channelRoleOrder (r : ChannelMemberRole) : Z :=
  match r with RoleCreator => 0 | RoleAdmin => 1 | _ => 2 end.

Definition futureCreatorCandidateLess (a b : ChannelMember) : bool :=
  if negb (channelRoleOrder (cm_Role a) =? channelRoleOrder (cm_Role b))
  then channelRoleOrder (cm_Role a) <? channelRoleOrder (cm_Role b)
  else cm_UserID a <? cm_UserID b.

Definition candidate u m : bool :=
  negb ((cm_UserID m =? u) || negb (is_status Active m) || is_role RoleCreator m || br_ViewMessages (cm_BannedRights m)).

Definition better_candidate u (selected : option ChannelMember) m : option ChannelMember :=
  if negb (candidate u m) then selected
  else match selected with
  | None => Some m
  | Some x => if futureCreatorCandidateLess m x then Some m else selected
  end.

Definition futureCreatorAfterLeaveLocked (tick : list nat) ch u s : res channel_error ChannelMember :=
  match fold_left (better_candidate u) (visit_members tick (membersOf ch s)).*2 None with
  | Some m => OK m
  | None => ERR ErrUserNotParticipant
  end.

Definition FutureCreatorAfterLeave (tick : list nat) ch u s : res channel_error ChannelMember :=
  match channelAndMemberLocked u ch s with
  | ERR e => ERR e
  | OK (c, m) =>
      if negb (ch_CreatorUserID c =? u) || negb (is_role RoleCreator m) then ERR ErrChannelAdminRequired
      else futureCreatorAfterLeaveLocked tick ch u s
  end.
End environment.
