(* ===== verification/ChannelMembers.v ===== *)
(** Creating, joining and leaving a channel, its administrators and its
    restrictions ([internal/store/memory/channel_core.go], [channel_members.go],
    [channel_helpers.go]).

    One definition per method of [ChannelStore]: the answer and the store after
    it.  [tick] is the moment of the call. *)

From S2P Require Import Prelude GoStrings Channels.

Open Scope Z_scope.

#[local] Set Default Proof Using "Type".

Implicit Types (s : ChannelStore) (c : Channel) (m : ChannelMember) (ch u actor date : Z) (tick : list nat).

Record CreateChannelRequest := {
  rq_CreatorUserID : Z;
  rq_Title : string;
  rq_About : string;
  rq_Broadcast : bool;
  rq_Megagroup : bool;
  rq_Forum : bool;
  rq_ForumTabs : bool;
  rq_TTLPeriod : Z;
  rq_MemberUserIDs : list Z;
  rq_Date : Z;
}.

Record EditChannelAdminRequest := {
  ea_UserID : Z;
  ea_ChannelID : Z;
  ea_MemberID : Z;
  ea_AdminRights : ChannelAdminRights;
  ea_RankSet : bool;
  ea_Rank : string;
  ea_Date : Z;
}.

Definition HasRank (req : EditChannelAdminRequest) : bool := ea_RankSet req || negb (bool_decide (ea_Rank req = "")).

Record EditChannelAdminResult := {
  er_Channel : Channel;
  er_Previous : ChannelMember;
  er_Participant : ChannelMember;
  er_Event : ChannelUpdateEvent;
  er_Recipients : list Z;
  er_Date : Z;
}.

Record TransferChannelOwnershipResult := {
  tr_Channel : Channel;
  tr_PreviousOwner : ChannelMember;
  tr_OldOwner : ChannelMember;
  tr_PreviousNewOwner : ChannelMember;
  tr_NewOwner : ChannelMember;
  tr_Events : list ChannelUpdateEvent;
  tr_Recipients : list Z;
  tr_Date : Z;
}.

Record EditChannelBannedResult := {
  eb_Channel : Channel;
  eb_Previous : ChannelMember;
  eb_Participant : ChannelMember;
  eb_Event : ChannelUpdateEvent;
  eb_Recipients : list Z;
  eb_Date : Z;
  eb_Message : option (ChannelMessage * ChannelUpdateEvent);
}.

(** The channel row and the dialog of a member after a change of rights. *)
Definition channelOf ch s : Channel := default no_channel (channels s !! ch).

Definition refresh_dialog u ch s : ChannelStore :=
  let c := channelOf ch s in
  match findMessageLocked ch (ch_TopMessageID c) s with
  | Some msg => upsertChannelDialogLocked u c (Some msg) false s
  | None => s
  end.

Section operations.
Context `{!ChannelEnvironment}.

(** * Creation *)

Definition created_channel ch (hash : Z) (req : CreateChannelRequest) : Channel := {|
  ch_ID := ch; ch_AccessHash := hash; ch_CreatorUserID := rq_CreatorUserID req; ch_Title := TrimSpace (rq_Title req);
  ch_About := rq_About req; ch_Username := "";
  ch_Broadcast := if negb (rq_Broadcast req) && negb (rq_Megagroup req) then true else rq_Broadcast req;
  ch_Megagroup := rq_Megagroup req; ch_Forum := rq_Forum req; ch_ForumTabs := rq_ForumTabs req;
  ch_JoinToSend := false; ch_JoinRequest := false; ch_PreHistoryHidden := false; ch_ParticipantsHidden := false;
  ch_HasLink := false; ch_Monoforum := false; ch_LinkedMonoforumID := 0; ch_DefaultBannedRights := no_bans;
  ch_ParticipantsCount := 1; ch_AdminsCount := 1; ch_KickedCount := 0; ch_BannedCount := 0; ch_TopMessageID := 0;
  ch_Pts := 0; ch_TTLPeriod := rq_TTLPeriod req; ch_Date := rq_Date req; ch_Deleted := false |}.

Definition new_invite ch (id : Z) (hash : string) (admin date : Z) : ChannelInvite := {|
  iv_ChannelID := ch; iv_InviteID := id; iv_Hash := hash; iv_AdminUserID := admin; iv_Title := ""; iv_Permanent := true;
  iv_Revoked := false; iv_RequestNeeded := false; iv_ExpireDate := 0; iv_UsageLimit := 0; iv_UsageCount := 0;
  iv_RequestedCount := 0; iv_Date := date |}.

Definition CreateChannel tick (req : CreateChannelRequest) s : res channel_error CreateChannelResult * ChannelStore :=
  let creatorID := rq_CreatorUserID req in
  let date := rq_Date req in
  if (creatorID =? 0) || bool_decide (TrimSpace (rq_Title req) = "") then (ERR ErrChannelInvalid, s)
  else
    let ch := nextID s in
    let c := created_channel ch (nextHash s) req in
    let s := set_next (ch + 1) (nextHash s + 17) s in
    match draw_invite tick with
    | None => (ERR ErrRandom, s)
    | Some (inviteID, inviteHash) =>
        let inviteDate := if date =? 0 then time_Now tick else date in
        let c := with_link true c in
        let creator := with_standing RoleCreator CreatorChannelAdminRights ""
                         (new_member ch creatorID 0 RoleCreator Active date) in
        let s := put_channel ch c s in
        let s := set_ptsSeq (<[ch := InitialChannelPts]> (ptsSeq s)) s in
        let s := set_retention (<[ch := {| rc_ChannelID := ch; rc_RetainedThroughPts := InitialChannelPts;
                                           rc_LatestEventDate := 0; rc_LatestPts := 0 |}]> (retention s)) s in
        let s := put_invite (new_invite ch inviteID inviteHash creatorID inviteDate) s in
        let s := set_members (<[ch := {[creatorID := creator]}]> (members s)) s in
        let others := (λ u, new_member ch u creatorID RoleMember Active date) <$>
                        uniqueNonZero (rq_MemberUserIDs req) creatorID in
        let s := fold_left (λ s m, put_member ch (cm_UserID m) m s) others s in
        let c := with_participants (ch_ParticipantsCount c + Z.of_nat (length others)) c in
        let '(msg, c, s) := announce true ch creatorID date (ChannelActionCreate (ch_Title c)) c s in
        let s := fold_left (λ s m, upsertChannelDialogLocked (cm_UserID m) c (fst <$> msg) (cm_UserID m =? creatorID) s)
                   (creator :: others) s in
        (OK {| cr_Channel := c; cr_Members := creator :: others; cr_Message := msg; cr_Recipients := recipients tick ch s |}, s)
    end.

(** * Joining and leaving *)

Definition recordPublicJoinRequestLocked ch u date s : res channel_error () * ChannelStore :=
  let record :=
    match importersOf ch s !! u with
    | Some {| im_Requested := true |} => (ERR ErrInviteRequestSent, s)
    | _ => (OK tt, put_importer ch u {| im_ChannelID := ch; im_InviteID := 0; im_UserID := u; im_Date := date;
                                        im_Requested := true; im_ApprovedBy := 0 |} s)
    end in
  match memberOf ch u s with
  | Some existing =>
      if is_status Active existing then (ERR ErrUserAlreadyParticipant, s)
      else if shut_out existing then (ERR ErrInviteHashInvalid, s)
      else record
  | None => record
  end.

(** The row of a member who joins on their own: a new one, or the one of a former
    member without the role that went with it. *)
Definition joined_member c ch u date (existing : option ChannelMember) : ChannelMember :=
  let minID := channelInitialAvailableMinID c in
  let minPts := channelInitialAvailableMinPts c in
  match existing with
  | Some x =>
      let m := with_status Active 0 x in
      let m := if negb (is_role RoleCreator x) || negb (ch_CreatorUserID c =? u)
               then with_joined date (with_inviter u (with_standing RoleMember no_rights "" m)) else m in
      let m := if cm_AvailableMinID m <? minID
               then with_read (Z.max (cm_ReadInboxMaxID m) minID) (cm_ReadOutboxMaxID m)
                      (with_min minID (cm_AvailableMinPts m) m) else m in
      let m := with_read (Z.max (cm_ReadInboxMaxID m) (ch_TopMessageID c)) (cm_ReadOutboxMaxID m) m in
      if cm_AvailableMinPts m <? minPts then with_min (cm_AvailableMinID m) minPts m else m
  | None =>
      with_read (Z.max minID (ch_TopMessageID c)) 0 (with_min minID minPts (new_member ch u u RoleMember Active date))
  end.

(** The reader's marks of a member after the service message about them. *)
Definition read_up_to c (msg : option (ChannelMessage * ChannelUpdateEvent)) m : ChannelMember :=
  with_read (Z.max (cm_ReadInboxMaxID m) (ch_TopMessageID c))
    (match msg with Some (msg, _) => Z.max (cm_ReadOutboxMaxID m) (msg_ID msg) | None => cm_ReadOutboxMaxID m end) m.

Definition JoinChannel tick ch u date s : res channel_error CreateChannelResult * ChannelStore :=
  match channels s !! ch with
  | None => (ERR ErrChannelInvalid, s)
  | Some c =>
      if ch_Deleted c then (ERR ErrChannelInvalid, s)
      else if ch_Monoforum c then (ERR ErrChannelMonoforumUnsupported, s)
      else
        let existing := memberOf ch u s in
        if default false (is_status Active <$> existing) then (ERR ErrUserAlreadyParticipant, s)
        else if default false (shut_out <$> existing) then (ERR ErrChannelUserBanned, s)
        else if ch_JoinRequest c then
          match recordPublicJoinRequestLocked ch u date s with
          | (ERR e, s) => (ERR e, s)
          | (OK _, s) => (ERR ErrInviteRequestSent, s)
          end
        else
          let m := joined_member c ch u date existing in
          let c := with_participants (ch_ParticipantsCount c + 1) c in
          let s := put_channel ch c (put_member ch u m s) in
          let s := log_act ch u date LogJoin s in
          let '(msg, c, s) := announce (ch_Megagroup c) ch u date (ChannelActionChatJoined [u]) c s in
          let m := read_up_to c msg m in
          let s := put_member ch u m s in
          let s := upsertChannelDialogLocked u c (fst <$> msg) true s in
          (OK {| cr_Channel := c; cr_Members := [m]; cr_Message := msg; cr_Recipients := recipients tick ch s |}, s)
  end.

(** The owner leaves the channel to another member. *)
Definition succeed (future : ChannelMember) : ChannelMember :=
  with_status Active 0 (with_standing RoleCreator CreatorChannelAdminRights "" future).

Definition hand_over tick c m ch u s : res channel_error (Channel * ChannelMember * list ChannelMember * Z * ChannelStore) :=
  if (ch_CreatorUserID c =? u) || is_role RoleCreator m then
    if negb (ch_CreatorUserID c =? u) || negb (is_role RoleCreator m) then ERR ErrChannelUserCreator
    else match futureCreatorAfterLeaveLocked (2%nat :: tick) ch u s with
    | ERR _ => ERR ErrChannelUserCreator
    | OK future =>
        let delta := if isChannelAdmin future then 0 else 1 in
        let future := succeed future in
        OK (with_creator (cm_UserID future) c, with_standing RoleMember no_rights "" m, [future], delta,
            put_member ch (cm_UserID future) future s)
    end
  else OK (c, m, [], 0, s).

(** The counters of a channel that an active member leaves. *)
Definition one_less (adminsDelta : Z) c : Channel :=
  let c := if 0 <? ch_ParticipantsCount c then with_participants (ch_ParticipantsCount c - 1) c else c in
  with_admins (Z.max 0 (ch_AdminsCount c + adminsDelta)) c.

Definition LeaveChannel tick ch u date s : res channel_error CreateChannelResult * ChannelStore :=
  match channelAndMemberLocked u ch s with
  | ERR e => (ERR e, s)
  | OK (c, m) =>
      let adminsDelta := if isChannelAdmin m then -1 else 0 in
      match hand_over tick c m ch u s with
      | ERR e => (ERR e, s)
      | OK (c, m, heirs, delta, s) =>
          let adminsDelta := adminsDelta + delta in
          let m := with_status Left date m in
          let s := put_member ch u m s in
          let s := clearChannelMentionsForUserLocked ch u s in
          let s := log_act ch u date LogLeave s in
          let c := one_less adminsDelta c in
          let '(msg, c, s) := announce (ch_Megagroup c) ch u date (ChannelActionChatDelete [u]) c s in
          let s := put_channel ch c s in
          (OK {| cr_Channel := c; cr_Members := m :: heirs; cr_Message := msg;
                 cr_Recipients := recipients tick ch s ++ [u] |}, s)
      end
  end.

(** * Administrators *)

Definition promoted_unknown c ch u actor date : ChannelMember :=
  with_read (ch_TopMessageID c) 0
    (with_min (channelInitialAvailableMinID c) (channelInitialAvailableMinPts c)
       (new_member ch u actor RoleMember Active date)).

(** The row of a member whose rights are set. *)
Definition administered c (req : EditChannelAdminRequest) (previous : ChannelMember) : ChannelMember :=
  let m := with_status Active 0 (with_inviter (ea_UserID req) previous) in
  let m := if negb (is_status Active previous) && (cm_AvailableMinPts m <? channelInitialAvailableMinPts c)
           then with_min (cm_AvailableMinID m) (channelInitialAvailableMinPts c) m else m in
  let rights := NormalizeFullMegagroupAdminRights c (ea_AdminRights req) in
  let rank := if HasRank req then ea_Rank req else cm_Rank m in
  if zeroChannelAdminRights (ea_AdminRights req)
  then with_standing RoleMember rights "" m
  else with_standing RoleAdmin rights rank m.

Definition EditChannelAdmin tick (req : EditChannelAdminRequest) s : res channel_error EditChannelAdminResult * ChannelStore :=
  let actorID := ea_UserID req in let ch := ea_ChannelID req in let u := ea_MemberID req in let date := ea_Date req in
  if (actorID =? 0) || (ch =? 0) || (u =? 0) then (ERR ErrChannelInvalid, s)
  else match channelAndMemberLocked actorID ch s with
  | ERR e => (ERR e, s)
  | OK (c, actor) =>
      if negb (canAddChannelAdmins actor) then (ERR ErrChannelAdminRequired, s)
      else
        let previous := default (promoted_unknown c ch u actorID date) (memberOf ch u s) in
        let answer m s :=
          let c := channelOf ch s in
          (OK {| er_Channel := c; er_Previous := previous; er_Participant := m;
                 er_Event := transientChannelParticipantEvent (ch_ID c) actorID previous m date;
                 er_Recipients := recipients tick ch s ++ [u]; er_Date := date |}, s) in
        if is_role RoleCreator previous then
          if negb (u =? actorID) || negb (ch_CreatorUserID c =? actorID) || negb (is_role RoleCreator actor)
          then (ERR ErrChannelUserCreator, s)
          else
            let m := with_standing (cm_Role previous) (CreatorProjectionAdminRights (ea_AdminRights req))
                       (if HasRank req then ea_Rank req else cm_Rank previous) (with_status Active 0 previous) in
            let s := put_member ch u m s in
            let s := log_change ch actorID date LogPromote previous m s in
            answer m (refreshChannelCountsLocked ch s)
        else if negb (is_role RoleCreator actor) && negb (adminRightsSubset (ea_AdminRights req) (cm_AdminRights actor))
        then (ERR ErrChannelRightForbidden, s)
        else
          let m := administered c req previous in
          let s := put_member ch u m s in
          let s := log_change ch actorID date (if is_role RoleAdmin m then LogPromote else LogDemote) previous m s in
          let s := refreshChannelCountsLocked ch s in
          answer m (refresh_dialog (cm_UserID m) ch s)
  end.

Definition retired actorID (owner : ChannelMember) : ChannelMember :=
  let m := with_status Active 0 (with_standing RoleAdmin CreatorChannelAdminRights "" owner) in
  if cm_InviterUserID m =? 0 then with_inviter actorID m else m.

Definition enthroned date m : ChannelMember :=
  let m := succeed m in if cm_JoinedAt m =? 0 then with_joined date m else m.

Definition TransferChannelOwnership tick actorID ch u date s : res channel_error TransferChannelOwnershipResult * ChannelStore :=
  if (actorID =? 0) || (ch =? 0) || (u =? 0) || (u =? actorID) then (ERR ErrChannelInvalid, s)
  else match channelAndMemberLocked actorID ch s with
  | ERR e => (ERR e, s)
  | OK (c, previousOwner) =>
      if negb (ch_CreatorUserID c =? actorID) || negb (is_role RoleCreator previousOwner) then (ERR ErrChannelAdminRequired, s)
      else match memberOf ch u s with
      | None => (ERR ErrUserNotParticipant, s)
      | Some previousNewOwner =>
          if negb (is_status Active previousNewOwner) || br_ViewMessages (cm_BannedRights previousNewOwner)
          then (ERR ErrUserNotParticipant, s)
          else if is_role RoleCreator previousNewOwner then (ERR ErrChannelNotModified, s)
          else
            let oldOwner := retired actorID previousOwner in
            let newOwner := enthroned date previousNewOwner in
            let s := put_channel ch (with_creator u c) s in
            let s := put_member ch u newOwner (put_member ch actorID oldOwner s) in
            let s := log_change ch actorID date LogPromote previousOwner oldOwner s in
            let s := log_change ch actorID date LogPromote previousNewOwner newOwner s in
            let s := refreshChannelCountsLocked ch s in
            let c := channelOf ch s in
            let s := refresh_dialog (cm_UserID newOwner) ch (refresh_dialog (cm_UserID oldOwner) ch s) in
            (OK {| tr_Channel := c; tr_PreviousOwner := previousOwner; tr_OldOwner := oldOwner;
                   tr_PreviousNewOwner := previousNewOwner; tr_NewOwner := newOwner;
                   tr_Events := [transientChannelParticipantEvent (ch_ID c) actorID previousOwner oldOwner date;
                                 transientChannelParticipantEvent (ch_ID c) actorID previousNewOwner newOwner date];
                   tr_Recipients := recipients tick ch s ++ [actorID; u]; tr_Date := date |}, s)
      end
  end.

Definition EditChannelMemberRank tick actorID ch u (rank : string) date s : res channel_error EditChannelAdminResult * ChannelStore :=
  if (actorID =? 0) || (ch =? 0) || (u =? 0) then (ERR ErrChannelInvalid, s)
  else match channelAndMemberLocked actorID ch s with
  | ERR e => (ERR e, s)
  | OK (c, actor) =>
      match memberOf ch u s with
      | None => (ERR ErrUserNotParticipant, s)
      | Some previous =>
          if negb (is_status Active previous) then (ERR ErrUserNotParticipant, s)
          else match checkEditMemberRank c actor previous with
          | ERR e => (ERR e, s)
          | OK _ =>
              let m := with_rank rank previous in
              let s := put_member ch u m s in
              let s := appendChannelAdminLogLocked ch actorID date LogEditRank (cm_Rank previous, rank) None (Some m) s in
              (OK {| er_Channel := c; er_Previous := previous; er_Participant := m;
                     er_Event := transientChannelParticipantEvent (ch_ID c) actorID previous m date;
                     er_Recipients := recipients tick ch s ++ [u]; er_Date := date |}, s)
          end
      end
  end.

(** * Restrictions *)

Definition adminLogBanType (previous next : ChannelMember) : ChannelAdminLogEventType :=
  if is_status Kicked next || br_ViewMessages (cm_BannedRights next) then LogKick
  else if is_status Kicked previous || br_ViewMessages (cm_BannedRights previous) then LogUnkick
  else if negb (zeroChannelBannedRights (cm_BannedRights next)) then LogBan
  else LogUnban.

(** The row of a member whose restrictions are set. *)
Definition restrict actorID (bans : ChannelBannedRights) date (previous : ChannelMember) : ChannelMember :=
  let m := with_bans bans (with_standing RoleMember (cm_AdminRights previous) (cm_Rank previous) previous) in
  let m :=
    if br_ViewMessages bans then with_status Kicked date (with_inviter actorID m)
    else if zeroChannelBannedRights bans then with_status (if is_status Active previous then Active else Left) 0 m
    else with_status (if is_status Active previous then Active else Banned) (cm_LeftAt m) (with_inviter actorID m) in
  if (cm_JoinedAt m =? 0) && is_status Active m then with_joined date m else m.

(** The participant is a user: requests about other peers are refused at once. *)
Definition EditChannelBanned tick actorID ch u (bans : ChannelBannedRights) date s
  : res channel_error EditChannelBannedResult * ChannelStore :=
  if (actorID =? 0) || (ch =? 0) || (u =? 0) then (ERR ErrChannelInvalid, s)
  else match channelAndMemberLocked actorID ch s with
  | ERR e => (ERR e, s)
  | OK (c, actor) =>
      if negb (canBanChannelUsers actor) then (ERR ErrChannelAdminRequired, s)
      else
        let previous := default (new_member ch u 0 RoleMember Left 0) (memberOf ch u s) in
        if is_role RoleCreator previous then (ERR ErrChannelUserCreator, s)
        else
          let m := restrict actorID bans date previous in
          let s := put_member ch u m s in
          let s := log_change ch actorID date (adminLogBanType previous m) previous m s in
          let s := refreshChannelCountsLocked ch s in
          let c := channelOf ch s in
          let event := transientChannelParticipantEvent (ch_ID c) actorID previous m date in
          let s := if is_status Active m then refresh_dialog (cm_UserID m) ch s else s in
          let removed := is_status Kicked m && is_status Active previous in
          let s := if removed then clearChannelMentionsForUserLocked ch u s else s in
          let '(msg, c, s) := announce (ch_Megagroup c && removed) ch actorID date (ChannelActionChatDelete [u]) c s in
          (OK {| eb_Channel := c; eb_Previous := previous; eb_Participant := m; eb_Event := event;
                 eb_Recipients := recipients tick ch s ++ [u]; eb_Date := date; eb_Message := msg |}, s)
  end.

(** * Settings of the channel *)

(** An admin's change of the row of the channel alone. *)
Definition edit_channel actorID ch (allowed : Channel → ChannelMember → bool) (refusal : Channel → option channel_error)
    (f : Channel → Channel) s : res channel_error Channel * ChannelStore :=
  if (actorID =? 0) || (ch =? 0) then (ERR ErrChannelInvalid, s)
  else match channelAndMemberLocked actorID ch s with
  | ERR e => (ERR e, s)
  | OK (c, actor) =>
      if negb (allowed c actor) then (ERR ErrChannelAdminRequired, s)
      else match refusal c with
      | Some e => (ERR e, s)
      | None => (OK (f c), put_channel ch (f c) s)
      end
  end.

Definition EditChannelDefaultBannedRights actorID ch (bans : ChannelBannedRights) s :=
  edit_channel actorID ch (λ _ m, canBanChannelUsers m)
    (λ c, if bool_decide (ch_DefaultBannedRights c = bans) then Some ErrChannelNotModified else None)
    (with_default_bans bans) s.

Definition SetParticipantsHidden actorID ch (enabled : bool) s :=
  edit_channel actorID ch (λ c m, ch_Megagroup c && canBanChannelUsers m) (λ _, None) (with_hidden enabled) s.

Definition SetJoinToSend actorID ch (enabled : bool) s :=
  edit_channel actorID ch (λ c m, ch_Megagroup c && canExportChannelInvite m) (λ _, None) (with_join_to_send enabled) s.

Definition SetJoinRequest actorID ch (enabled : bool) s :=
  edit_channel actorID ch (λ c m, ch_Megagroup c && canExportChannelInvite m)
    (λ c, if enabled && bool_decide (TrimSpace (ch_Username c) = "") then Some ErrChatPublicRequired else None)
    (with_join_request enabled) s.

(** The owner deletes a channel, and with it the channel of its direct messages. *)
Definition DeleteChannel tick actorID ch s : res channel_error (Channel * list Z * option Channel) * ChannelStore :=
  if (actorID =? 0) || (ch =? 0) then (ERR ErrChannelInvalid, s)
  else match channelAndMemberLocked actorID ch s with
  | ERR e => (ERR e, s)
  | OK (c, actor) =>
      if negb (is_role RoleCreator actor) then (ERR ErrChannelAdminRequired, s)
      else
        let told := recipients tick ch s in
        let c := without_channel c in
        let s := put_channel ch c s in
        match channels s !! ch_LinkedMonoforumID c with
        | Some mono =>
            if negb (ch_LinkedMonoforumID c =? 0) && ch_Monoforum mono && negb (ch_Deleted mono) then
              let mono := without_channel mono in
              (OK (c, told, Some mono), put_channel (ch_ID mono) mono s)
            else (OK (c, told, None), s)
        | None => (OK (c, told, None), s)
        end
  end.

(** * Reads *)

Definition FilterActiveChannelMemberIDs ch (userIDs : list Z) s : list Z :=
  if (ch =? 0) || bool_decide (userIDs = []) then []
  else sorted_ids (List.filter (λ u, default false (is_status Active <$> memberOf ch u s)) (uniqueNonZero userIDs 0)).

Definition administers_invites m : bool :=
  is_status Active m
  && (is_role RoleCreator m
      || (is_role RoleAdmin m && (ar_InviteUsers (cm_AdminRights m) || ar_ChangeInfo (cm_AdminRights m)))).

Definition ListChannelInviteAdminMemberIDs tick ch (limit : Z) s : res channel_error (list Z) :=
  match channels s !! ch with
  | None => ERR ErrChannelInvalid
  | Some c =>
      if (ch =? 0) || ch_Deleted c then ERR ErrChannelInvalid
      else
        let limit := if (limit <=? 0) || (MaxChannelRealtimeFanout <? limit) then MaxChannelRealtimeFanout else limit in
        OK (sorted_ids (cm_UserID <$>
              take (Z.to_nat limit) (List.filter administers_invites (visit_members tick (membersOf ch s)).*2)))
  end.
End operations.
