(* ===== verification/ChannelInvites.v ===== *)
(** Invitations to a channel, links and join requests
    ([internal/store/memory/channel_invites.go], [channel_members.go],
    [channel_helpers.go]).

    One definition per method of [ChannelStore], as in [ChannelMembers].  A loop
    that draws or visits a map again in its n-th round does so at the moment
    [n :: tick]. *)

From S2P Require Import Prelude GoStrings Channels ChannelMembers.

Open Scope Z_scope.

#[local] Set Default Proof Using "Type".

Implicit Types (s : ChannelStore) (c : Channel) (m : ChannelMember) (i : ChannelInvite) (ch u actor date : Z)
  (tick : list nat).

Definition MaxChannelHideJoinRequests : Z := 1000.
Definition MaxChannelPendingJoinRecentRequesters : Z := 5.

Record ExportChannelInviteRequest := {
  ex_UserID : Z;
  ex_ChannelID : Z;
  ex_Title : string;
  ex_RequestNeeded : bool;
  ex_ExpireDate : Z;
  ex_UsageLimit : Z;
  ex_LegacyRevokePermanent : bool;
  ex_Date : Z;
}.

(** A field that a request may leave as it is is an option. *)
Record EditChannelInviteRequest := {
  ei_UserID : Z;
  ei_ChannelID : Z;
  ei_Hash : string;
  ei_Revoked : bool;
  ei_ExpireDate : option Z;
  ei_UsageLimit : option Z;
  ei_RequestNeeded : option bool;
  ei_Title : option string;
  ei_Date : Z;
}.

Record HideChannelJoinRequestsRequest := {
  hj_UserID : Z;
  hj_ChannelID : Z;
  hj_Hash : string;
  hj_Approved : bool;
  hj_Limit : Z;
  hj_Date : Z;
}.

Record CheckChannelInviteResult := {
  ck_Channel : Channel;
  ck_Invite : ChannelInvite;
  ck_Already : bool;
  ck_Self : ChannelMember;
}.

Definition is_permanent (title : string) (requestNeeded : bool) (expireDate usageLimit : Z) : bool :=
  (expireDate =? 0) && (usageLimit =? 0) && negb requestNeeded && bool_decide (title = "").

(** * Lookups *)

Definition inviteByChannelHashLocked ch (hash : string) s : res channel_error ChannelInvite :=
  let hash := TrimSpace hash in
  if bool_decide (hash = "") then ERR ErrInviteHashEmpty
  else match invites s !! hash with
  | Some i => if iv_ChannelID i =? ch then OK i else ERR ErrInviteHashInvalid
  | None => ERR ErrInviteHashInvalid
  end.

Definition channelHasNonRevokedInviteLocked ch s : bool :=
  existsb (λ kv, (iv_ChannelID kv.2 =? ch) && negb (iv_Revoked kv.2)) (map_to_list (invites s)).

Definition setChannelHasLinkLocked ch (hasLink : bool) s : ChannelStore :=
  match channels s !! ch with Some c => put_channel ch (with_link hasLink c) s | None => s end.

Definition refreshChannelHasLinkLocked ch s : ChannelStore := setChannelHasLinkLocked ch (channelHasNonRevokedInviteLocked ch s) s.

(** * Requests *)

Definition deletePendingInviteImporterLocked i u s : ChannelStore :=
  let ch := iv_ChannelID i in
  match importersOf ch s !! u with
  | Some {| im_Requested := true |} =>
      let s := set_importers (<[ch := delete u (importersOf ch s)]> (importers s)) s in
      if negb (iv_InviteID i =? 0) && negb (bool_decide (iv_Hash i = "")) && (0 <? iv_RequestedCount i)
      then put_invite (with_requested (iv_RequestedCount i - 1) i) s else s
  | _ => s
  end.

Definition recordPendingInviteRequestLocked i u date s : res channel_error () * ChannelStore :=
  let ch := iv_ChannelID i in
  let record :=
    match importersOf ch s !! u with
    | Some {| im_Requested := true |} => (ERR ErrInviteRequestSent, s)
    | _ =>
        let s := put_importer ch u {| im_ChannelID := ch; im_InviteID := iv_InviteID i; im_UserID := u; im_Date := date;
                                      im_Requested := true; im_ApprovedBy := 0 |} s in
        (OK tt, put_invite (with_requested (iv_RequestedCount i + 1) i) s)
    end in
  match memberOf ch u s with
  | Some existing =>
      if is_status Active existing then (ERR ErrUserAlreadyParticipant, s)
      else if shut_out existing then (ERR ErrInviteHashInvalid, s)
      else record
  | None => record
  end.

Section operations.
Context `{!ChannelEnvironment}.

Definition inviteByIDLocked tick ch (inviteID : Z) s : res channel_error ChannelInvite :=
  match List.find (λ kv, (iv_ChannelID kv.2 =? ch) && (iv_InviteID kv.2 =? inviteID)) (visit_invites tick (invites s)) with
  | Some (_, i) => OK i
  | None => ERR ErrInviteHashInvalid
  end.

(** * Direct invitations *)

(** One round of the loop over the invited users; an error ends it when only one
    user was invited.  The counters and lists are [restoredKicked], the new
    members and the participants that were added. *)
Definition invite_one c inviter date (canRestoreKicked inviteOne : bool) ch
    (acc : Z * list ChannelMember * ChannelStore) u : res channel_error (Z * list ChannelMember * ChannelStore) :=
  let '(restored, added, s) := acc in
  let add restored :=
    let m := promoted_unknown c ch u inviter date in
    let s := put_member ch u m s in
    let s := appendChannelAdminLogLocked ch inviter date LogInvite ("", "") None (Some m) s in
    OK (restored, added ++ [m], s) in
  let skip e := if inviteOne then ERR e else OK acc in
  match memberOf ch u s with
  | None => add restored
  | Some existing =>
      if is_status Active existing then skip ErrUserAlreadyParticipant
      else if shut_out existing then
        if negb canRestoreKicked then skip ErrUserKicked
        else add (if is_status Kicked existing then restored + 1 else restored)
      else add restored
  end.

Fixpoint invite_each c inviter date (canRestoreKicked inviteOne : bool) ch acc (users : list Z)
  : res channel_error (Z * list ChannelMember * ChannelStore) :=
  match users with
  | [] => OK acc
  | u :: users =>
      match invite_one c inviter date canRestoreKicked inviteOne ch acc u with
      | ERR e => ERR e
      | OK acc => invite_each c inviter date canRestoreKicked inviteOne ch acc users
      end
  end.

Definition InviteToChannel tick ch inviterID (userIDs : list Z) date s : res channel_error CreateChannelResult * ChannelStore :=
  match channelAndMemberLocked inviterID ch s with
  | ERR e => (ERR e, s)
  | OK (c, inviter) =>
      if ch_Monoforum c then (ERR ErrChannelMonoforumUnsupported, s)
      else if negb (canInviteToChannel c inviter) then (ERR ErrChannelAdminRequired, s)
      else
        let requested := uniqueNonZero userIDs 0 in
        let inviteOne := bool_decide (length requested = 1%nat) in
        match invite_each c inviterID date (canBanChannelUsers inviter) inviteOne ch (0, [], s) requested with
        | ERR e => (ERR e, s)
        | OK (restoredKicked, added, s) =>
            let c := with_participants (ch_ParticipantsCount c + Z.of_nat (length added)) c in
            let c := if 0 <? restoredKicked then with_kicked (Z.max (ch_KickedCount c - restoredKicked) 0) c else c in
            let s := put_channel ch c s in
            let '(msg, c, s) := announce (negb (bool_decide (added = [])) && ch_Megagroup c) ch inviterID date
                                  (ChannelActionChatAddUser (cm_UserID <$> added)) c s in
            let s := fold_left (λ s m, upsertChannelDialogLocked (cm_UserID m) c (fst <$> msg) false s) added s in
            (OK {| cr_Channel := c; cr_Members := added; cr_Message := msg; cr_Recipients := recipients tick ch s |}, s)
        end
  end.

(** * Links *)

(** An administrator of the links of a channel. *)
Definition invite_admin actorID ch s : res channel_error Channel :=
  match channelAndMemberLocked actorID ch s with
  | ERR e => ERR e
  | OK (c, m) => if negb (canExportChannelInvite m) then ERR ErrChannelAdminRequired else OK c
  end.

Definition ExportInvite tick (req : ExportChannelInviteRequest) s : res channel_error (Channel * ChannelInvite) * ChannelStore :=
  let ch := ex_ChannelID req in let u := ex_UserID req in
  if (u =? 0) || (ch =? 0) then (ERR ErrChannelInvalid, s)
  else match invite_admin u ch s with
  | ERR e => (ERR e, s)
  | OK _ =>
      let revoke i := if (iv_ChannelID i =? ch) && (iv_AdminUserID i =? u) && iv_Permanent i then with_revoked i else i in
      let s := if ex_LegacyRevokePermanent req then set_invites (revoke <$> invites s) s else s in
      match draw_invite tick with
      | None => (ERR ErrRandom, s)
      | Some (id, hash) =>
          let i := {| iv_ChannelID := ch; iv_InviteID := id; iv_Hash := hash; iv_AdminUserID := u; iv_Title := ex_Title req;
                      iv_Permanent := is_permanent (ex_Title req) (ex_RequestNeeded req) (ex_ExpireDate req) (ex_UsageLimit req);
                      iv_Revoked := false; iv_RequestNeeded := ex_RequestNeeded req; iv_ExpireDate := ex_ExpireDate req;
                      iv_UsageLimit := ex_UsageLimit req; iv_UsageCount := 0; iv_RequestedCount := 0; iv_Date := ex_Date req |} in
          let s := refreshChannelHasLinkLocked ch (put_invite i s) in
          (OK (channelOf ch s, i), s)
      end
  end.

Definition primary_of ch (admin : Z) i : bool :=
  (iv_ChannelID i =? ch) && (iv_AdminUserID i =? admin) && iv_Permanent i && negb (iv_Revoked i).

Definition older_invite (existing : option ChannelInvite) i : option ChannelInvite :=
  match existing with
  | None => Some i
  | Some x => if (iv_Date i <? iv_Date x) || ((iv_Date i =? iv_Date x) && (iv_Hash i <? iv_Hash x)%string) then Some i else existing
  end.

Definition EnsurePermanentInvite tick ch (admin : Z) date s : res channel_error ChannelInvite * ChannelStore :=
  if (ch =? 0) || (admin =? 0) then (ERR ErrChannelInvalid, s)
  else
    let date := if date =? 0 then time_Now tick else date in
    match invite_admin admin ch s with
    | ERR e => (ERR e, s)
    | OK _ =>
        match fold_left older_invite (List.filter (primary_of ch admin) (visit_invites tick (invites s)).*2) None with
        | Some i => (OK i, setChannelHasLinkLocked ch true s)
        | None =>
            match draw_invite tick with
            | None => (ERR ErrRandom, s)
            | Some (id, hash) =>
                let i := new_invite ch id hash admin date in (OK i, setChannelHasLinkLocked ch true (put_invite i s))
            end
        end
    end.

Definition newReplacementInviteLocked tick (old : ChannelInvite) date : option ChannelInvite :=
  '(id, hash) ← draw_invite tick;
  Some {| iv_ChannelID := iv_ChannelID old; iv_InviteID := id; iv_Hash := hash; iv_AdminUserID := iv_AdminUserID old;
          iv_Title := ""; iv_Permanent := iv_Permanent old; iv_Revoked := false; iv_RequestNeeded := false;
          iv_ExpireDate := 0; iv_UsageLimit := 0; iv_UsageCount := 0; iv_RequestedCount := 0;
          iv_Date := if date =? 0 then time_Now tick else date |}.

(** The link with its terms edited. *)
Definition edited (req : EditChannelInviteRequest) i : ChannelInvite :=
  let expireDate := default (iv_ExpireDate i) (ei_ExpireDate req) in
  let usageLimit := default (iv_UsageLimit i) (ei_UsageLimit req) in
  let requestNeeded := default (iv_RequestNeeded i) (ei_RequestNeeded req) in
  let title := default (iv_Title i) (ei_Title req) in
  with_terms title (is_permanent title requestNeeded expireDate usageLimit) requestNeeded expireDate usageLimit i.

(** A main link may not be given terms. *)
Definition adds_terms (req : EditChannelInviteRequest) : bool :=
  default false ((λ d, 0 <? d) <$> ei_ExpireDate req) || default false ((λ n, 0 <? n) <$> ei_UsageLimit req)
  || default false (ei_RequestNeeded req).

Definition EditExportedInvite tick (req : EditChannelInviteRequest) s
  : res channel_error (ChannelInvite * option ChannelInvite) * ChannelStore :=
  let ch := ei_ChannelID req in
  if (ei_UserID req =? 0) || (ch =? 0) || bool_decide (TrimSpace (ei_Hash req) = "") then (ERR ErrInviteHashEmpty, s)
  else match invite_admin (ei_UserID req) ch s with
  | ERR e => (ERR e, s)
  | OK _ =>
      match inviteByChannelHashLocked ch (ei_Hash req) s with
      | ERR e => (ERR e, s)
      | OK i =>
          if ei_Revoked req then
            if iv_Revoked i then (ERR ErrInviteRevokedMissing, s)
            else
              let i := with_revoked i in
              let s := put_invite i s in
              if negb (iv_Permanent i) then (OK (i, None), refreshChannelHasLinkLocked ch s)
              else match newReplacementInviteLocked tick i (ei_Date req) with
              | None => (ERR ErrRandom, s)
              | Some fresh => (OK (i, Some fresh), refreshChannelHasLinkLocked ch (put_invite fresh s))
              end
          else if iv_Permanent i && adds_terms req then (ERR ErrInvitePermanent, s)
          else
            let i := edited req i in
            (OK (i, None), refreshChannelHasLinkLocked ch (put_invite i s))
      end
  end.

Definition DeleteExportedInvite actorID ch (hash : string) s : res channel_error () * ChannelStore :=
  if (actorID =? 0) || (ch =? 0) || bool_decide (TrimSpace hash = "") then (ERR ErrInviteHashEmpty, s)
  else match invite_admin actorID ch s with
  | ERR e => (ERR e, s)
  | OK _ =>
      match inviteByChannelHashLocked ch hash s with
      | ERR e => (ERR e, s)
      | OK i => (OK tt, refreshChannelHasLinkLocked ch (set_invites (delete (iv_Hash i) (invites s)) s))
      end
  end.

Definition DeleteRevokedExportedInvites tick actorID ch (admin limit : Z) s : res channel_error () * ChannelStore :=
  if (actorID =? 0) || (ch =? 0) || (admin =? 0) then (ERR ErrChannelInvalid, s)
  else match invite_admin actorID ch s with
  | ERR e => (ERR e, s)
  | OK _ =>
      let limit := if (limit <=? 0) || (MaxChannelHideJoinRequests <? limit) then MaxChannelHideJoinRequests else limit in
      let spent kv := (iv_ChannelID kv.2 =? ch) && (iv_AdminUserID kv.2 =? admin) && iv_Revoked kv.2 in
      let hashes := (take (Z.to_nat limit) (List.filter spent (visit_invites tick (invites s)))).*1 in
      (OK tt, set_invites (fold_left (λ ivs hash, delete hash ivs) hashes (invites s)) s)
  end.

(** * Entering by a link or by an approved request *)

(** The request that an entry settles no longer counts for its link, which is the
    one that is used ([i], written by the caller) or another. *)
Definition settle_request tick ch u i s : ChannelInvite * ChannelStore :=
  match importersOf ch s !! u with
  | Some im =>
      if negb (im_Requested im) then (i, s)
      else if im_InviteID im =? iv_InviteID i then
        (if negb (iv_InviteID i =? 0) && (0 <? iv_RequestedCount i)
         then with_requested (iv_RequestedCount i - 1) i else i, s)
      else if im_InviteID im =? 0 then (i, s)
      else match inviteByIDLocked (2%nat :: tick) ch (im_InviteID im) s with
      | OK pending =>
          (i, if 0 <? iv_RequestedCount pending
              then put_invite (with_requested (iv_RequestedCount pending - 1) pending) s else s)
      | ERR _ => (i, s)
      end
  | None => (i, s)
  end.

Definition approveInviteImporterLocked tick c i u (approvedBy : Z) date s : res channel_error CreateChannelResult * ChannelStore :=
  if negb (iv_InviteID i =? 0) && (0 <? iv_UsageLimit i) && (iv_UsageLimit i <=? iv_UsageCount i) then (ERR ErrUsersTooMuch, s)
  else
    let ch := if ch_ID c =? 0 then iv_ChannelID i else ch_ID c in
    let existing := memberOf ch u s in
    if default false (is_status Active <$> existing) then (ERR ErrUserAlreadyParticipant, s)
    else if default false (shut_out <$> existing) then (ERR ErrInviteHashInvalid, s)
    else
      let minID := channelInitialAvailableMinID c in
      let inviterID := if iv_AdminUserID i =? 0 then approvedBy else iv_AdminUserID i in
      let m := with_read (Z.max minID (ch_TopMessageID c)) 0
                 (with_min minID (channelInitialAvailableMinPts c) (new_member ch u inviterID RoleMember Active date)) in
      let s := put_member ch u m s in
      let s := log_act ch u date LogJoin s in
      let '(i, s) := settle_request tick ch u i s in
      let s := if negb (iv_InviteID i =? 0) && negb (bool_decide (iv_Hash i = ""))
               then put_invite (with_usage (iv_UsageCount i + 1) i) s else s in
      let s := refreshChannelCountsLocked ch s in
      let c := channelOf ch s in
      let '(msg, c, s) := announce (ch_Megagroup c) ch u date (ChannelActionChatJoinedByLink (iv_AdminUserID i) [u]) c s in
      let m := read_up_to c msg m in
      let s := put_member ch u m s in
      let s := upsertChannelDialogLocked u c (fst <$> msg) true s in
      let s := put_importer ch u {| im_ChannelID := ch; im_InviteID := iv_InviteID i; im_UserID := u; im_Date := date;
                                    im_Requested := false; im_ApprovedBy := approvedBy |} s in
      (OK {| cr_Channel := c; cr_Members := [m]; cr_Message := msg; cr_Recipients := recipients tick ch s |}, s).

(** A link that can still be used, and its channel. *)
Definition usable_invite (hash : string) date s : res channel_error (Channel * ChannelInvite) :=
  match invites s !! TrimSpace hash with
  | None => ERR ErrInviteHashInvalid
  | Some i =>
      if iv_Revoked i then ERR ErrInviteHashInvalid
      else if (0 <? iv_ExpireDate i) && (iv_ExpireDate i <? date) then ERR ErrInviteHashExpired
      else match channels s !! iv_ChannelID i with
      | None => ERR ErrInviteHashInvalid
      | Some c => if ch_Deleted c then ERR ErrInviteHashInvalid else OK (c, i)
      end
  end.

Definition CheckInvite u (hash : string) date s : res channel_error CheckChannelInviteResult :=
  if (u =? 0) || bool_decide (TrimSpace hash = "") then ERR ErrInviteHashEmpty
  else match usable_invite hash date s with
  | ERR e => ERR e
  | OK (c, i) =>
      let m := default no_member (memberOf (iv_ChannelID i) u s) in
      if shut_out m then ERR ErrInviteHashInvalid
      else OK {| ck_Channel := c; ck_Invite := i; ck_Already := is_status Active m; ck_Self := m |}
  end.

Definition ImportInvite tick u (hash : string) date s : res channel_error CreateChannelResult * ChannelStore :=
  if (u =? 0) || bool_decide (TrimSpace hash = "") then (ERR ErrInviteHashEmpty, s)
  else match usable_invite hash date s with
  | ERR e => (ERR e, s)
  | OK (c, i) =>
      if iv_RequestNeeded i then
        match recordPendingInviteRequestLocked i u date s with
        | (ERR e, s) => (ERR e, s)
        | (OK _, s) => (ERR ErrInviteRequestSent, s)
        end
      else approveInviteImporterLocked tick c i u 0 date s
  end.

Definition GetExportedInvite actorID ch (hash : string) s : res channel_error ChannelInvite :=
  if (actorID =? 0) || (ch =? 0) || bool_decide (TrimSpace hash = "") then ERR ErrInviteHashEmpty
  else match invite_admin actorID ch s with
  | ERR e => ERR e
  | OK _ => inviteByChannelHashLocked ch hash s
  end.

(** The link of a pending request; a request without a link has none. *)
Definition invite_of_request tick actorID ch (im : ChannelInviteImporter) s : res channel_error ChannelInvite :=
  if im_InviteID im =? 0 then
    OK {| iv_ChannelID := ch; iv_InviteID := 0; iv_Hash := ""; iv_AdminUserID := actorID; iv_Title := "";
          iv_Permanent := false; iv_Revoked := false; iv_RequestNeeded := false; iv_ExpireDate := 0; iv_UsageLimit := 0;
          iv_UsageCount := 0; iv_RequestedCount := 0; iv_Date := 0 |}
  else inviteByIDLocked tick ch (im_InviteID im) s.

Definition dismissed tick c ch u s : CreateChannelResult :=
  {| cr_Channel := c; cr_Members := []; cr_Message := None; cr_Recipients := activeMemberIDsLocked (9%nat :: tick) ch u 0 s |}.

Definition HideChatJoinRequest tick actorID ch (target : Z) (approved : bool) date s
  : res channel_error CreateChannelResult * ChannelStore :=
  if (actorID =? 0) || (ch =? 0) || (target =? 0) then (ERR ErrChannelInvalid, s)
  else match invite_admin actorID ch s with
  | ERR e => (ERR e, s)
  | OK c =>
      match importersOf ch s !! target with
      | None => (ERR ErrHideRequesterMissing, s)
      | Some im =>
          if negb (im_Requested im) then (ERR ErrHideRequesterMissing, s)
          else match invite_of_request (3%nat :: tick) actorID ch im s with
          | ERR e => (ERR e, s)
          | OK i =>
              if negb approved then
                let s := deletePendingInviteImporterLocked i target s in (OK (dismissed tick c ch target s), s)
              else approveInviteImporterLocked tick c i target actorID date s
          end
      end
  end.

(** The rounds of [HideAllChatJoinRequests]; an error ends them, and what the
    earlier rounds did stays. *)
Fixpoint hide_each (n : nat) tick actorID ch (approved : bool) date c (result : option CreateChannelResult)
    (targets : list ChannelInviteImporter) s : res channel_error (Channel * option CreateChannelResult) * ChannelStore :=
  match targets with
  | [] => (OK (c, result), s)
  | im :: targets =>
      match invite_of_request (3%nat :: n :: tick) actorID ch im s with
      | ERR e => (ERR e, s)
      | OK i =>
          if negb approved then
            let s := deletePendingInviteImporterLocked i (im_UserID im) s in
            hide_each (S n) tick actorID ch approved date c (Some (dismissed (n :: tick) c ch (im_UserID im) s)) targets s
          else match approveInviteImporterLocked (n :: tick) c i (im_UserID im) actorID date s with
          | (ERR e, s) => (ERR e, s)
          | (OK r, s) => hide_each (S n) tick actorID ch approved date (cr_Channel r) (Some r) targets s
          end
      end
  end.

Definition HideAllChatJoinRequests tick (req : HideChannelJoinRequestsRequest) s
  : res channel_error CreateChannelResult * ChannelStore :=
  let ch := hj_ChannelID req in let actorID := hj_UserID req in
  if (actorID =? 0) || (ch =? 0) then (ERR ErrChannelInvalid, s)
  else match invite_admin actorID ch s with
  | ERR e => (ERR e, s)
  | OK c =>
      match (if bool_decide (hj_Hash req = "") then OK 0
             else i ← inviteByChannelHashLocked ch (hj_Hash req) s; OK (iv_InviteID i)) with
      | ERR e => (ERR e, s)
      | OK inviteID =>
          let limit := if (hj_Limit req <=? 0) || (MaxChannelHideJoinRequests <? hj_Limit req)
                       then MaxChannelHideJoinRequests else hj_Limit req in
          let pending im := im_Requested im && ((inviteID =? 0) || (im_InviteID im =? inviteID)) in
          let targets := take (Z.to_nat limit)
                           (List.filter pending (visit_importers (4%nat :: tick) (importersOf ch s)).*2) in
          match hide_each 10 tick actorID ch (hj_Approved req) (hj_Date req) c None targets s with
          | (ERR e, s) => (ERR e, s)
          | (OK (c, result), s) =>
              match result with
              | Some r =>
                  if ch_ID (cr_Channel r) =? 0
                  then (OK {| cr_Channel := c; cr_Members := []; cr_Message := None; cr_Recipients := recipients tick ch s |}, s)
                  else (OK r, s)
              | None => (OK {| cr_Channel := c; cr_Members := []; cr_Message := None; cr_Recipients := recipients tick ch s |}, s)
              end
          end
      end
  end.

Definition newest_request (a b : ChannelInviteImporter) : Prop :=
  im_Date b < im_Date a ∨ (im_Date a = im_Date b ∧ im_UserID b ≤ im_UserID a).

#[export] Instance newest_request_dec : RelDecision newest_request.
Proof. intros a b. unfold newest_request. apply _. Defined.

(** How many requests are pending, and who asked last. *)
Definition PendingJoinRequests ch (limit : Z) s : res channel_error (Z * list Z) :=
  match channels s !! ch with
  | None => ERR ErrChannelInvalid
  | Some c =>
      if (ch =? 0) || ch_Deleted c then ERR ErrChannelInvalid
      else
        let all := merge_sort newest_request (List.filter im_Requested (map_to_list (importersOf ch s)).*2) in
        let limit := if (limit <=? 0) || (MaxChannelPendingJoinRecentRequesters <? limit)
                     then MaxChannelPendingJoinRecentRequesters else limit in
        OK (Z.of_nat (length all), im_UserID <$> take (Z.to_nat limit) all)
  end.
End operations.
