(* ===== verification/ChannelsInv.v ===== *)
(** What is true of the store of channels between two operations: every channel
    has one owner, its counters count its members, and its message box is
    numbered without gaps.

    The dialogs, mentions and logs of a store are irrelevant to all of this: two
    stores that differ in nothing else are equivalent, and the invariant and the
    primitives respect that. *)

From S2P Require Import Prelude GoStrings Channels ChannelMembers ChannelInvites.

Open Scope Z_scope.

#[local] Set Default Proof Using "Type".

Implicit Types (s : ChannelStore) (c : Channel) (m : ChannelMember) (ms : gmap Z ChannelMember) (i : ChannelInvite)
  (ch u actor date : Z) (tick : list nat).

(** * Stores up to dialogs and logs *)

Definition core s := (nextID s, channels s, members s, messages s, events s, msgSeq s, ptsSeq s, invites s, importers s).

#[export] Instance store_equiv : Equiv ChannelStore := λ s s', core s = core s'.

#[export] Instance store_equivalence : Equivalence (≡@{ChannelStore}).
Proof. split; unfold equiv, store_equiv; [done|by intros ?? ->|by intros ??? -> ->]. Qed.

Lemma equiv_core s s' : s ≡ s' →
  nextID s = nextID s' ∧ channels s = channels s' ∧ members s = members s' ∧ messages s = messages s' ∧ events s = events s'
  ∧ msgSeq s = msgSeq s' ∧ ptsSeq s = ptsSeq s' ∧ invites s = invites s' ∧ importers s = importers s'.
Proof. unfold equiv, store_equiv, core. intros [= -> -> -> -> -> -> -> -> ->]. done. Qed.

#[export] Instance nextID_proper : Proper ((≡) ==> (=)) nextID.
Proof. by intros ?? (?&?&?&?&?&?&?&?&?)%equiv_core. Qed.
#[export] Instance channels_proper : Proper ((≡) ==> (=)) channels.
Proof. by intros ?? (?&?&?&?&?&?&?&?&?)%equiv_core. Qed.
#[export] Instance members_proper : Proper ((≡) ==> (=)) members.
Proof. by intros ?? (?&?&?&?&?&?&?&?&?)%equiv_core. Qed.
#[export] Instance invites_proper : Proper ((≡) ==> (=)) invites.
Proof. by intros ?? (?&?&?&?&?&?&?&?&?)%equiv_core. Qed.
#[export] Instance importers_proper : Proper ((≡) ==> (=)) importers.
Proof. by intros ?? (?&?&?&?&?&?&?&?&?)%equiv_core. Qed.
#[export] Instance membersOf_proper ch : Proper ((≡) ==> (=)) (membersOf ch).
Proof. intros s s' Hs. unfold membersOf. by rewrite Hs. Qed.
#[export] Instance memberOf_proper ch u : Proper ((≡) ==> (=)) (memberOf ch u).
Proof. intros s s' Hs. unfold memberOf. by rewrite Hs. Qed.

#[export] Instance put_channel_proper ch c : Proper ((≡) ==> (≡)) (put_channel ch c).
Proof. intros s s' (?&?&?&?&?&?&?&?&?)%equiv_core. unfold equiv, store_equiv, core; cbn. congruence. Qed.

(** ** Primitives that do not touch the core *)

Lemma append_log_equiv ch u date ty ranks change p s : appendChannelAdminLogLocked ch u date ty ranks change p s ≡ s.
Proof. unfold appendChannelAdminLogLocked. by destruct ((ch =? 0) || (u =? 0)). Qed.

Lemma log_act_equiv ch u date ty s : log_act ch u date ty s ≡ s.
Proof. apply append_log_equiv. Qed.

Lemma log_change_equiv ch u date ty p n s : log_change ch u date ty p n s ≡ s.
Proof. apply append_log_equiv. Qed.

Lemma upsert_equiv u c top self s : upsertChannelDialogLocked u c top self s ≡ s.
Proof. done. Qed.

Lemma clear_mentions_equiv ch u s : clearChannelMentionsForUserLocked ch u s ≡ s.
Proof. unfold clearChannelMentionsForUserLocked. destruct (mentions s !! u); cbn; by destruct (dialogs s !! u). Qed.

Lemma refresh_dialog_equiv u ch s : refresh_dialog u ch s ≡ s.
Proof. unfold refresh_dialog. by destruct (findMessageLocked ch _ s). Qed.

Lemma upsert_all_equiv {A} (f : A → ChannelStore → ChannelStore) xs s :
  (∀ x s, f x s ≡ s) → fold_left (λ s x, f x s) xs s ≡ s.
Proof. intros Hf. revert s. induction xs as [|x xs IH]; intros s; cbn; [done|]. by rewrite IH. Qed.

(** Drop them from a goal about the store. *)
Ltac core_only :=
  rewrite ?append_log_equiv, ?log_act_equiv, ?log_change_equiv, ?upsert_equiv, ?clear_mentions_equiv, ?refresh_dialog_equiv.

Lemma put_channel_twice ch c c' s : put_channel ch c (put_channel ch c' s) ≡ put_channel ch c s.
Proof. unfold put_channel, equiv, store_equiv, core; cbn. by rewrite insert_insert_eq. Qed.

Lemma put_channel_same ch c s : channels s !! ch = Some c → put_channel ch c s ≡ s.
Proof. intros Hc. unfold put_channel, equiv, store_equiv, core; cbn. by rewrite insert_id. Qed.

Lemma put_channel_put_member ch c ch' u m s : put_channel ch c (put_member ch' u m s) = put_member ch' u m (put_channel ch c s).
Proof. done. Qed.

(** ** Lookups *)

Lemma membersOf_put_member ch u m s : membersOf ch (put_member ch u m s) = <[u := m]> (membersOf ch s).
Proof. unfold membersOf at 1, put_member; cbn. by rewrite lookup_insert_eq. Qed.

Lemma membersOf_put_member_ne ch ch' u m s : ch ≠ ch' → membersOf ch' (put_member ch u m s) = membersOf ch' s.
Proof. intros. unfold membersOf at 1, put_member; cbn. by rewrite lookup_insert_ne. Qed.

Lemma memberOf_put_member ch u m s : memberOf ch u (put_member ch u m s) = Some m.
Proof. unfold memberOf. by rewrite membersOf_put_member, lookup_insert_eq. Qed.

Lemma memberOf_put_member_ne ch u m ch' u' s : (ch, u) ≠ (ch', u') → memberOf ch' u' (put_member ch u m s) = memberOf ch' u' s.
Proof.
  intros Hne. unfold memberOf. destruct (decide (ch = ch')) as [<-|Hch].
  - rewrite membersOf_put_member, lookup_insert_ne; [done|congruence].
  - by rewrite membersOf_put_member_ne.
Qed.

Lemma memberOf_put_member_cases ch u m ch' u' s :
  memberOf ch' u' (put_member ch u m s) = if decide (ch' = ch ∧ u' = u) then Some m else memberOf ch' u' s.
Proof. case_decide as H; [by destruct H as [-> ->]; apply memberOf_put_member|]. apply memberOf_put_member_ne. naive_solver. Qed.

(** * The members of a channel *)

Definition keyed ch c ms : Prop := ∀ u m, ms !! u = Some m →
  cm_UserID m = u ∧ cm_ChannelID m = ch ∧ cm_Status m ≠ NoStatus
  ∧ NormalizeFullMegagroupAdminRights c (cm_AdminRights m) = cm_AdminRights m.

(** One owner, present and not restricted to the outside. *)
Definition owner_row m : Prop := cm_Role m = RoleCreator ∧ cm_Status m = Active ∧ br_ViewMessages (cm_BannedRights m) = false.

Definition owned (owner : Z) ms : Prop :=
  (∃ m, ms !! owner = Some m ∧ owner_row m) ∧ ∀ u m, ms !! u = Some m → cm_Role m = RoleCreator → u = owner.

Definition counted c ms : Prop :=
  ch_ParticipantsCount c = count participates ms ∧ ch_AdminsCount c = count administers ms
  ∧ ch_KickedCount c = count (is_status Kicked) ms.

Definition members_ok ch c ms : Prop := keyed ch c ms ∧ owned (ch_CreatorUserID c) ms ∧ counted c ms.

(** The message box: ids from 1 and points from 2, without gaps. *)
Definition box_ok ch c s : Prop :=
  0 ≤ seq_at (msgSeq s) ch ∧ InitialChannelPts ≤ seq_at (ptsSeq s) ch
  ∧ ch_TopMessageID c = seq_at (msgSeq s) ch ∧ ch_Pts c = seq_at (ptsSeq s) ch
  ∧ msg_ID <$> default [] (messages s !! ch) = seqZ 1 (ch_TopMessageID c)
  ∧ ev_Pts <$> default [] (events s !! ch) = seqZ (InitialChannelPts + 1) (ch_Pts c - InitialChannelPts).

Record room_ok ch c s : Prop := {
  ro_id : ch_ID c = ch;
  ro_members : members_ok ch c (membersOf ch s);
  ro_box : box_ok ch c s;
}.

Record store_ok s : Prop := {
  so_rooms : ∀ ch c, channels s !! ch = Some c → room_ok ch c s;
  so_ids : ∀ ch, is_Some (channels s !! ch) → 0 < ch < nextID s;
  so_next : 0 < nextID s;
  so_absent : ∀ ch, channels s !! ch = None →
    membersOf ch s = ∅ ∧ messages s !! ch = None ∧ events s !! ch = None ∧ msgSeq s !! ch = None;
}.

#[export] Instance store_ok_proper : Proper ((≡) ==> iff) store_ok.
Proof.
  assert (∀ s s', s ≡ s' → store_ok s → store_ok s') as H.
  { intros s s' (E1&E2&E3&E4&E5&E6&E7&_)%equiv_core [Hr Hi Hn Ha]. split.
    - intros ch c Hc. rewrite <- E2 in Hc. destruct (Hr ch c Hc) as [H1 H2 H3]. split; [done|..].
      + unfold membersOf. by rewrite <- E3.
      + unfold box_ok. by rewrite <- E4, <- E5, <- E6, <- E7.
    - by rewrite <- E2, <- E1.
    - by rewrite <- E1.
    - unfold membersOf. by rewrite <- E2, <- E3, <- E4, <- E5, <- E6. }
  intros s s' Hs. split; [by apply H|]. apply H. by symmetry.
Qed.

(** ** One row of the members *)

Lemma keyed_insert ch c c' ms u m :
  keyed ch c ms → ch_Megagroup c' = ch_Megagroup c → ch_Broadcast c' = ch_Broadcast c →
  cm_UserID m = u → cm_ChannelID m = ch → cm_Status m ≠ NoStatus →
  NormalizeFullMegagroupAdminRights c (cm_AdminRights m) = cm_AdminRights m → keyed ch c' (<[u := m]> ms).
Proof.
  unfold keyed, NormalizeFullMegagroupAdminRights. intros Hk -> -> ???? v x. rewrite lookup_insert_Some.
  intros [[<- <-]|[_ ?]]; auto.
Qed.

Lemma count_insert f ms u m : count f (<[u := m]> ms) = count f ms - wt (λ m, b2z (f m)) (ms !! u) + b2z (f m).
Proof. apply (sum_map_insert (λ m, b2z (f m))). Qed.

(** Somebody who is not the owner gets a row that is not an owner's. *)
Lemma owned_other owner ms u m : owned owner ms → u ≠ owner → cm_Role m ≠ RoleCreator → owned owner (<[u := m]> ms).
Proof.
  intros [(x & Hx & Ho) Hu] Hne Hr. split.
  - exists x. by rewrite lookup_insert_ne.
  - intros v y. rewrite lookup_insert_Some. intros [[_ <-]|[_ ?]]; [done|eauto].
Qed.

(** The owner's row stays an owner's. *)
Lemma owned_self owner ms m : owned owner ms → owner_row m → owned owner (<[owner := m]> ms).
Proof.
  intros [_ Hu] Hm. split; [exists m; by rewrite lookup_insert_eq|].
  intros v y. rewrite lookup_insert_Some. intros [[<- _]|[_ ?]]; [done|eauto].
Qed.

(** The owner steps back for another. *)
Lemma owned_succession owner ms u new old :
  owned owner ms → u ≠ owner → owner_row new → cm_Role old ≠ RoleCreator → owned u (<[owner := old]> (<[u := new]> ms)).
Proof.
  intros [_ Hu] Hne Hn Ho. split.
  - exists new. rewrite lookup_insert_ne, lookup_insert_eq by done. done.
  - intros v y. rewrite !lookup_insert_Some. intros [[_ <-]|[? [[<- _]|[_ ?]]]]; [done|done|]. intros. naive_solver.
Qed.

Lemma owned_not_creator owner ms u m : owned owner ms → ms !! u = Some m → cm_Role m ≠ RoleCreator → u ≠ owner.
Proof. intros [(x & Hx & Ho & _) _] Hm Hr ->. naive_solver. Qed.

Lemma counted_recount c ms : counted (recount ms c) ms.
Proof. done. Qed.

(** A row replaced by one of the same standing leaves everything as it is. *)
Definition same_standing (m m' : ChannelMember) : Prop :=
  cm_UserID m' = cm_UserID m ∧ cm_ChannelID m' = cm_ChannelID m ∧ cm_Role m' = cm_Role m ∧ cm_Status m' = cm_Status m
  ∧ cm_AdminRights m' = cm_AdminRights m ∧ cm_BannedRights m' = cm_BannedRights m.

Lemma same_standing_counts m m' : same_standing m m' →
  participates m' = participates m ∧ administers m' = administers m ∧ is_status Kicked m' = is_status Kicked m.
Proof.
  unfold participates, administers, isChannelAdmin, is_role, is_status. intros (_ & _ & -> & -> & _). done.
Qed.

Lemma members_ok_same ch c ms u m m' : members_ok ch c ms → ms !! u = Some m → same_standing m m' → members_ok ch c (<[u := m']> ms).
Proof.
  intros (Hk & Ho & Hc) Hm Hs. pose proof (same_standing_counts m m' Hs) as (Cp & Ca & Cx).
  destruct Hs as (E1 & E2 & E3 & E4 & E5 & E6). destruct (Hk u m Hm) as (K1 & K2 & K3 & K4). split_and!.
  - apply keyed_insert with c; try done; congruence.
  - destruct (decide (u = ch_CreatorUserID c)) as [->|Hne].
    + apply owned_self; [done|]. destruct Ho as [(x & Hx & Hrow) _]. replace x with m in * by congruence.
      unfold owner_row in *. by rewrite E3, E4, E6.
    + apply owned_other; [done..|]. rewrite E3. intros Hr. apply Hne. destruct Ho as [_ Ho]. eauto.
  - destruct Hc as (C1 & C2 & C3). unfold counted. rewrite !count_insert, Hm; cbn. rewrite Cp, Ca, Cx. lia.
Qed.

(** ** Rows in the store *)

(** A new row for the channel and new rows for its members; the message box stays. *)
Lemma store_ok_room ch c c' ms s :
  store_ok s → channels s !! ch = Some c → ch_ID c' = ch → ch_TopMessageID c' = ch_TopMessageID c → ch_Pts c' = ch_Pts c →
  members_ok ch c' ms → store_ok (put_channel ch c' (set_members (<[ch := ms]> (members s)) s)).
Proof.
  intros [Hr Hi Hn Ha] Hc E1 E2 E3 Hm. destruct (Hr ch c Hc) as [_ _ Hb]. split.
  - intros ch' x. unfold put_channel; cbn. rewrite lookup_insert_Some. intros [[<- <-]|[Hne Hx]].
    + split; [done|unfold membersOf; cbn; by rewrite lookup_insert_eq|]. unfold box_ok in *; cbn. by rewrite E2, E3.
    + destruct (Hr ch' x Hx) as [G1 G2 G3]. split; [done| |done]. unfold membersOf; cbn. by rewrite lookup_insert_ne.
  - intros ch'. unfold put_channel; cbn. destruct (decide (ch = ch')) as [<-|Hne]; [intros; apply Hi; eauto|].
    rewrite lookup_insert_ne by done. apply Hi.
  - done.
  - intros ch'. unfold put_channel; cbn. destruct (decide (ch = ch')) as [<-|Hne]; [by rewrite lookup_insert_eq|].
    rewrite lookup_insert_ne by done. intros Hx. destruct (Ha ch' Hx) as (A1 & A2). split; [|done].
    unfold membersOf; cbn. by rewrite lookup_insert_ne.
Qed.

(** The case of one member. *)
Lemma store_ok_member ch c c' u m s :
  store_ok s → channels s !! ch = Some c → ch_ID c' = ch → ch_TopMessageID c' = ch_TopMessageID c → ch_Pts c' = ch_Pts c →
  members_ok ch c' (<[u := m]> (membersOf ch s)) → store_ok (put_channel ch c' (put_member ch u m s)).
Proof. apply store_ok_room. Qed.

(** The row of the channel alone. *)
Lemma store_ok_row ch c c' s :
  store_ok s → channels s !! ch = Some c → ch_ID c' = ch → ch_TopMessageID c' = ch_TopMessageID c → ch_Pts c' = ch_Pts c →
  ch_CreatorUserID c' = ch_CreatorUserID c → ch_Megagroup c' = ch_Megagroup c → ch_Broadcast c' = ch_Broadcast c →
  ch_ParticipantsCount c' = ch_ParticipantsCount c → ch_AdminsCount c' = ch_AdminsCount c →
  ch_KickedCount c' = ch_KickedCount c → store_ok (put_channel ch c' s).
Proof.
  intros Hs Hc E1 E2 E3 E4 E5 E6 E7 E8 E9. destruct (so_rooms s Hs ch c Hc) as [_ (Hk & Ho & Hn) _].
  destruct Hs as [Hr Hi Hx Ha]. split.
  - intros ch' x. unfold put_channel; cbn. rewrite lookup_insert_Some. intros [[<- <-]|[Hne Hx']]; [|by destruct (Hr ch' x Hx')].
    destruct (Hr ch c Hc) as [_ _ Hb]. split; [done| |unfold box_ok in *; cbn; by rewrite E2, E3].
    unfold members_ok, counted, keyed, NormalizeFullMegagroupAdminRights in *. by rewrite E4, E5, E6, E7, E8, E9.
  - intros ch'. unfold put_channel; cbn. destruct (decide (ch = ch')) as [<-|Hne]; [intros; apply Hi; eauto|].
    rewrite lookup_insert_ne by done. apply Hi.
  - done.
  - intros ch'. unfold put_channel; cbn. destruct (decide (ch = ch')) as [<-|Hne]; [by rewrite lookup_insert_eq|].
    rewrite lookup_insert_ne by done. apply Ha.
Qed.

(** A row of the same standing. *)
Lemma store_ok_same ch u m m' s :
  store_ok s → memberOf ch u s = Some m → same_standing m m' → store_ok (put_member ch u m' s).
Proof.
  intros Hs Hm Hsame. destruct (channels s !! ch) as [c|] eqn:Hc.
  - destruct (so_rooms s Hs ch c Hc) as [Hid Hok Hb].
    pose proof (store_ok_member ch c c u m' s Hs Hc Hid eq_refl eq_refl (members_ok_same _ _ _ _ _ _ Hok Hm Hsame)) as H.
    rewrite put_channel_same in H; [done|]. by unfold put_member.
  - destruct (so_absent s Hs ch Hc) as [H _]. unfold memberOf in Hm. by rewrite H, lookup_empty in Hm.
Qed.

(** * Announcements *)

Lemma seqZ_snoc (a n : Z) : 0 ≤ n → seqZ a (n + 1) = seqZ a n ++ [a + n].
Proof.
  intros. rewrite seqZ_app by lia. f_equal.
Qed.

Lemma announce_core b ch sender date a c s msg c' s' :
  announce b ch sender date a c s = (msg, c', s') →
  c' = (if b then with_top (seq_at (msgSeq s) ch + 1) (seq_at (ptsSeq s) ch + 1) c else c)
  ∧ members s' = members s ∧ invites s' = invites s ∧ importers s' = importers s ∧ nextID s' = nextID s
  ∧ channels s' = (if b then <[ch := c']> (channels s) else channels s).
Proof. unfold announce. destruct b; cbn; intros [= <- <- <-]; done. Qed.

(** With the row of the channel still to be written. *)
Lemma announce_ok b ch sender date a c s msg c' s' :
  store_ok (put_channel ch c s) → announce b ch sender date a c s = (msg, c', s') → store_ok (put_channel ch c' s').
Proof.
  intros Hs. unfold announce. destruct b; cbn; [|by intros [= <- <- <-]]. intros [= <- <- <-].
  rewrite put_channel_twice. destruct Hs as [Hr Hi Hn Ha]. unfold put_channel in *; cbn in *. split.
  - intros ch' x; cbn. rewrite lookup_insert_Some. intros [[<- <-]|[Hne Hx]].
    + destruct (Hr ch c) as [G1 G2 (B1 & B2 & B3 & B4 & B5 & B6)]; [by rewrite lookup_insert_eq|].
      split; [done|done|]. cbn in *. unfold box_ok, seq_at in *; cbn in *. rewrite !lookup_insert_eq; cbn.
      rewrite !fmap_app, B5, B6. unfold InitialChannelPts in *.
      rewrite B3, B4. set (n := default 0 (msgSeq s !! ch)) in *. set (p := default 0 (ptsSeq s !! ch)) in *.
      replace (p + 1 - 1) with (p - 1 + 1) by lia. rewrite !seqZ_snoc by lia.
      split_and!; try lia; cbn; do 2 f_equal; lia.
    + destruct (Hr ch' x) as [G1 G2 G3]; [by rewrite lookup_insert_ne|]. split; [done|done|].
      unfold box_ok, seq_at in *; cbn in *. by rewrite !lookup_insert_ne by done.
  - intros ch' H; cbn in H. apply Hi. destruct (decide (ch = ch')) as [<-|Hne]; [rewrite lookup_insert_eq; eauto|].
    by rewrite lookup_insert_ne in * by done.
  - done.
  - intros ch'; cbn. destruct (decide (ch = ch')) as [<-|Hne]; [by rewrite lookup_insert_eq|].
    rewrite lookup_insert_ne by done. intros Hx. destruct (Ha ch') as (A1 & A2 & A3 & A4); [by rewrite lookup_insert_ne|].
    split_and!; [done|..]; by rewrite lookup_insert_ne.
Qed.

(** With the row written already, as most operations do. *)
Lemma announce_written b ch sender date a c s msg c' s' :
  store_ok s → channels s !! ch = Some c → announce b ch sender date a c s = (msg, c', s') →
  store_ok s' ∧ channels s' !! ch = Some c'.
Proof.
  intros Hs Hc Ha. pose proof (announce_core _ _ _ _ _ _ _ _ _ _ Ha) as (Hc' & _ & _ & _ & _ & Hch).
  assert (channels s' !! ch = Some c') as H.
  { rewrite Hch. destruct b; [by rewrite lookup_insert_eq|by rewrite Hc']. }
  split; [|done]. rewrite <- (put_channel_same ch c' s' H). eapply announce_ok; [|done]. by rewrite put_channel_same.
Qed.

(** Recounting. *)
Lemma store_ok_recount ch c c' ms s :
  store_ok s → channels s !! ch = Some c → ch_ID c' = ch → ch_TopMessageID c' = ch_TopMessageID c → ch_Pts c' = ch_Pts c →
  keyed ch c' ms → owned (ch_CreatorUserID c') ms →
  store_ok (refreshChannelCountsLocked ch (put_channel ch c' (set_members (<[ch := ms]> (members s)) s))).
Proof.
  intros Hs Hc E1 E2 E3 Hk Ho. unfold refreshChannelCountsLocked, put_channel at 2 3; cbn. rewrite lookup_insert_eq; cbn.
  unfold membersOf; cbn. rewrite lookup_insert_eq; cbn. rewrite put_channel_twice.
  by apply (store_ok_room ch c).
Qed.

#[export] Instance refresh_counts_proper ch : Proper ((≡) ==> (≡)) (refreshChannelCountsLocked ch).
Proof.
  intros s s' Hs. unfold refreshChannelCountsLocked. rewrite (channels_proper _ _ Hs), (membersOf_proper ch _ _ Hs).
  by apply put_channel_proper.
Qed.
