(* ===== verification/ChannelsOps.v ===== *)
(** Every operation on channels keeps the store consistent. *)

From S2P Require Import Prelude GoStrings Channels ChannelMembers ChannelInvites ChannelsInv.

Open Scope Z_scope.

#[local] Set Default Proof Using "Type".

Implicit Types (s : ChannelStore) (c : Channel) (m : ChannelMember) (ms : gmap Z ChannelMember) (i : ChannelInvite)
  (ch u actor date : Z) (tick : list nat).

(** * Access *)

Lemma channelAndMemberLocked_OK u ch s c m : channelAndMemberLocked u ch s = OK (c, m) →
  channels s !! ch = Some c ∧ ch_Deleted c = false ∧ memberOf ch u s = Some m ∧ cm_Status m ≠ Left ∧ shut_out m = false.
Proof.
  unfold channelAndMemberLocked. destruct (channels s !! ch) as [x|]; [|done]. destruct (ch_Deleted x) eqn:Hd; [done|].
  destruct (memberOf ch u s) as [y|]; [|done]. destruct (is_status Left y) eqn:Hl; [done|]. destruct (shut_out y) eqn:Hs; [done|].
  intros [= <- <-]. unfold is_status in Hl. bool_facts. done.
Qed.

(** Who may act in a channel is an active member of it. *)
Lemma acting_member u ch s c m : store_ok s → channelAndMemberLocked u ch s = OK (c, m) →
  channels s !! ch = Some c ∧ memberOf ch u s = Some m ∧ cm_Status m = Active ∧ shut_out m = false ∧ cm_UserID m = u.
Proof.
  intros Hs (Hc & _ & Hm & Hl & Ho)%channelAndMemberLocked_OK. destruct (so_rooms s Hs ch c Hc) as [_ (Hk & _) _].
  destruct (Hk u m Hm) as (H1 & _ & H2 & _). split_and!; [done..| |done|done].
  unfold shut_out, is_status in Ho. bool_facts. by destruct (cm_Status m).
Qed.

Lemma is_role_true r m : is_role r m = true ↔ cm_Role m = r.
Proof. apply bool_decide_eq_true. Qed.
Lemma is_role_false r m : is_role r m = false ↔ cm_Role m ≠ r.
Proof. apply bool_decide_eq_false. Qed.
Lemma is_status_true t m : is_status t m = true ↔ cm_Status m = t.
Proof. apply bool_decide_eq_true. Qed.
Lemma is_status_false t m : is_status t m = false ↔ cm_Status m ≠ t.
Proof. apply bool_decide_eq_false. Qed.

Ltac standing_facts :=
  repeat match goal with
  | H : is_role _ _ = true |- _ => apply is_role_true in H
  | H : is_role _ _ = false |- _ => apply is_role_false in H
  | H : is_status _ _ = true |- _ => apply is_status_true in H
  | H : is_status _ _ = false |- _ => apply is_status_false in H
  end.

Lemma store_ok_invites v s : store_ok s → store_ok (set_invites v s).
Proof. intros [Hr Hi Hn Ha]. split; [|done..]. intros ch c Hc. by destruct (Hr ch c Hc). Qed.

Lemma store_ok_importers v s : store_ok s → store_ok (set_importers v s).
Proof. intros [Hr Hi Hn Ha]. split; [|done..]. intros ch c Hc. by destruct (Hr ch c Hc). Qed.

(** * Newcomers *)

Definition plain_row ch u m : Prop :=
  cm_UserID m = u ∧ cm_ChannelID m = ch ∧ cm_Role m = RoleMember ∧ cm_Status m = Active ∧ cm_AdminRights m = no_rights.

Lemma Normalize_no_rights c : NormalizeFullMegagroupAdminRights c no_rights = no_rights.
Proof. unfold NormalizeFullMegagroupAdminRights; cbn. by rewrite !andb_false_r. Qed.

Lemma not_active_not_owner ch c ms u m : members_ok ch c ms → ms !! u = Some m → cm_Status m ≠ Active →
  u ≠ ch_CreatorUserID c ∧ cm_Role m ≠ RoleCreator.
Proof.
  intros (_ & [(x & Hx & _ & Ha & _) Ho] & _) Hm Hn.
  assert (u ≠ ch_CreatorUserID c) as Hne by (intros ->; congruence). split; [done|]. intros Hr. eauto.
Qed.

Lemma wt_inactive (f : ChannelMember → bool) ms u :
  (∀ x, ms !! u = Some x → f x = false) → wt (λ x, b2z (f x)) (ms !! u) = 0.
Proof. intros H. destruct (ms !! u) as [x|] eqn:E; cbn; [by rewrite H|done]. Qed.

(** Joining, except that the count of the kicked is the caller's. *)
Lemma newcomer_ok ch c ms u m P A K :
  keyed ch c ms → owned (ch_CreatorUserID c) ms → P = count participates ms ∧ A = count administers ms ∧ K = count (is_status Kicked) ms →
  plain_row ch u m → (∀ x, ms !! u = Some x → cm_Status x ≠ Active) →
  keyed ch c (<[u := m]> ms) ∧ owned (ch_CreatorUserID c) (<[u := m]> ms)
  ∧ P + 1 = count participates (<[u := m]> ms) ∧ A = count administers (<[u := m]> ms)
  ∧ K - wt (λ x, b2z (is_status Kicked x)) (ms !! u) = count (is_status Kicked) (<[u := m]> ms).
Proof.
  intros Hk Ho (C1 & C2 & C3) (E1 & E2 & E3 & E4 & E5) Hx.
  assert (participates m = true) as Pm by by apply is_status_true.
  assert (administers m = false) as Am by (unfold administers, isChannelAdmin, is_role; rewrite E3; cbn; apply andb_false_r).
  assert (is_status Kicked m = false) as Km by (apply is_status_false; congruence).
  split_and!.
  - apply keyed_insert with c; try done; [by rewrite E4|by rewrite E5, Normalize_no_rights].
  - apply owned_other; [done| |by rewrite E3]. destruct (ms !! u) as [x|] eqn:Hu.
    + intros ->. destruct Ho as [(y & Hy & _ & Ha & _) _]. specialize (Hx x eq_refl). congruence.
    + intros ->. destruct Ho as [(y & Hy & _) _]. congruence.
  - rewrite count_insert, (wt_inactive participates), Pm; [cbn; lia|by intros x ?%Hx%is_status_false].
  - rewrite count_insert, (wt_inactive administers), Am; [cbn; lia|].
    intros x Hu%Hx%is_status_false. unfold administers. by rewrite Hu.
  - rewrite count_insert, Km. cbn. lia.
Qed.

Lemma joined_member_plain ch c ms u date existing :
  members_ok ch c ms → existing = ms !! u → (∀ x, existing = Some x → cm_Status x ≠ Active) →
  plain_row ch u (joined_member c ch u date existing).
Proof.
  intros Hok -> Hx. unfold joined_member. destruct (ms !! u) as [x|] eqn:Hu; [|done].
  destruct (not_active_not_owner ch c ms u x Hok Hu (Hx x eq_refl)) as [_ Hr].
  destruct Hok as (Hk & _). destruct (Hk u x Hu) as (K1 & K2 & _).
  unfold is_role. rewrite (bool_decide_eq_false_2 (cm_Role x = RoleCreator)) by done. cbn [negb orb].
  repeat case_match; done.
Qed.

Lemma read_up_to_same c msg m : same_standing m (read_up_to c msg m).
Proof. done. Qed.

(** * Rows that administrators write *)

Lemma Normalize_idempotent c r :
  NormalizeFullMegagroupAdminRights c (NormalizeFullMegagroupAdminRights c r) = NormalizeFullMegagroupAdminRights c r.
Proof.
  unfold NormalizeFullMegagroupAdminRights. destruct (_ && ar_ManageCall r) eqn:E; [|by rewrite E]. destruct r; cbn in *. by rewrite E.
Qed.

Lemma Normalize_ranked c r : ar_ManageRanks r = true → NormalizeFullMegagroupAdminRights c r = r.
Proof. unfold NormalizeFullMegagroupAdminRights. destruct r; cbn. intros ->. by case_match. Qed.

Lemma Normalize_member ch c ms u m : keyed ch c ms → ms !! u = Some m →
  NormalizeFullMegagroupAdminRights c (cm_AdminRights m) = cm_AdminRights m.
Proof. intros Hk Hm. by destruct (Hk u m Hm) as (_ & _ & _ & ?). Qed.

(** A row that may be written for a member who is not the owner. *)
Definition other_row ch c u m : Prop :=
  cm_UserID m = u ∧ cm_ChannelID m = ch ∧ cm_Role m ≠ RoleCreator ∧ cm_Status m ≠ NoStatus
  ∧ NormalizeFullMegagroupAdminRights c (cm_AdminRights m) = cm_AdminRights m.

Lemma previous_row ch c ms u (fresh : ChannelMember) :
  keyed ch c ms → other_row ch c u fresh → is_role RoleCreator (default fresh (ms !! u)) = false →
  other_row ch c u (default fresh (ms !! u)).
Proof.
  intros Hk Hf Hr%is_role_false. destruct (ms !! u) as [m|] eqn:Hm; cbn in *; [|done].
  destruct (Hk u m Hm) as (? & ? & ? & ?). done.
Qed.

Lemma promoted_unknown_plain c ch u actor date : plain_row ch u (promoted_unknown c ch u actor date).
Proof. done. Qed.

Lemma plain_other ch c u m : plain_row ch u m → other_row ch c u m.
Proof. intros (? & ? & E & E' & E''). unfold other_row. by rewrite E, E', E'', Normalize_no_rights. Qed.

Lemma administered_row ch c req m :
  other_row ch c (ea_MemberID req) m → other_row ch c (ea_MemberID req) (administered c req m)
  ∧ cm_Status (administered c req m) = Active.
Proof.
  intros (E1 & E2 & E3 & E4 & E5). unfold administered, other_row. repeat case_match; cbn; split_and!; try done;
    apply Normalize_idempotent.
Qed.

Lemma restrict_row ch c actor u bans date m : other_row ch c u m → other_row ch c u (restrict actor bans date m).
Proof. intros (E1 & E2 & E3 & E4 & E5). unfold restrict, other_row. repeat case_match; cbn in *; split_and!; done. Qed.

Lemma other_row_members ch c ms u m :
  keyed ch c ms → owned (ch_CreatorUserID c) ms → u ≠ ch_CreatorUserID c → other_row ch c u m →
  keyed ch c (<[u := m]> ms) ∧ owned (ch_CreatorUserID c) (<[u := m]> ms).
Proof. intros Hk Ho Hne (E1 & E2 & E3 & E4 & E5). split; [by apply keyed_insert with c|by apply owned_other]. Qed.

Lemma not_owner ms u owner (fresh : ChannelMember) :
  owned owner ms → is_role RoleCreator (default fresh (ms !! u)) = false → u ≠ owner.
Proof. intros [(x & Hx & Hr & _) _] H%is_role_false ->. by rewrite Hx in H. Qed.

Lemma refresh_member_ok ch c u m s s' :
  store_ok s → channels s !! ch = Some c → s' ≡ put_member ch u m s →
  keyed ch c (<[u := m]> (membersOf ch s)) → owned (ch_CreatorUserID c) (<[u := m]> (membersOf ch s)) →
  store_ok (refreshChannelCountsLocked ch s').
Proof.
  intros Hs Hc E Hk Ho. destruct (so_rooms s Hs ch c Hc) as [Hid _ _].
  pose proof (store_ok_recount ch c c _ s Hs Hc Hid eq_refl eq_refl Hk Ho) as H.
  rewrite put_channel_same in H by done. by rewrite E.
Qed.

Lemma refresh_other_ok ch c u m s s' :
  store_ok s → channels s !! ch = Some c → s' ≡ put_member ch u m s → u ≠ ch_CreatorUserID c → other_row ch c u m →
  store_ok (refreshChannelCountsLocked ch s').
Proof.
  intros Hs Hc E Hne Hm. destruct (so_rooms s Hs ch c Hc) as [_ (Hk & Ho & _) _].
  destruct (other_row_members ch c _ u m Hk Ho Hne Hm). by eapply refresh_member_ok.
Qed.

Section operations.
Context `{!ChannelEnvironment}.

Lemma JoinChannel_ok tick ch u date s : store_ok s → store_ok (JoinChannel tick ch u date s).2.
Proof.
  intros Hs. unfold JoinChannel. destruct (channels s !! ch) as [c|] eqn:Hc; [|done].
  destruct (ch_Deleted c); [done|]. destruct (ch_Monoforum c); [done|].
  destruct (default false (is_status Active <$> memberOf ch u s)) eqn:Ha; [done|].
  destruct (default false (shut_out <$> memberOf ch u s)) eqn:Ho; [done|].
  destruct (ch_JoinRequest c).
  { unfold recordPublicJoinRequestLocked. repeat case_match; simplify_eq; cbn; try done; by apply store_ok_importers. }
  destruct (so_rooms s Hs ch c Hc) as [Hid Hok Hb].
  set (m := joined_member c ch u date (memberOf ch u s)). set (c' := with_participants _ c).
  assert (∀ x, membersOf ch s !! u = Some x → cm_Status x ≠ Active) as Hx.
  { intros x Hx. unfold memberOf in Ha. rewrite Hx in Ha. cbn in Ha. by standing_facts. }
  assert (plain_row ch u m) as Hm by by apply (joined_member_plain ch c (membersOf ch s)).
  assert (store_ok (put_channel ch c' (put_member ch u m s))) as Hs1.
  { apply store_ok_member with c; try done. destruct Hok as (Hk & Hw & Hn).
    destruct (newcomer_ok ch c _ u m _ _ _ Hk Hw Hn Hm Hx) as (G1 & G2 & G3 & G4 & G5). split_and!; [done..|].
    split_and!; [done..|]. cbn. rewrite <- G5. unfold memberOf in Ho. destruct (membersOf ch s !! u) as [x|]; cbn in *; [|lia].
    unfold shut_out in Ho. bool_facts. match goal with H : is_status Kicked x = false |- _ => rewrite H end. cbn. lia. }
  rewrite <- (log_act_equiv ch u date LogJoin) in Hs1.
  destruct (announce _ _ _ _ _ _ _) as [[msg c2] s2] eqn:E. cbn [snd].
  assert (members s2 = members (put_member ch u m s)) as Hm2.
  { destruct (announce_core _ _ _ _ _ _ _ _ _ _ E) as (_ & -> & _).
    etrans; [apply members_proper, log_act_equiv|done]. }
  eapply announce_written in E as [Hs2 Hc2]; [|exact Hs1|].
  2: { rewrite (channels_proper _ _ (log_act_equiv _ _ _ _ _)). cbn. by rewrite lookup_insert_eq. }
  rewrite upsert_equiv. apply store_ok_same with m; [done| |apply read_up_to_same].
  unfold memberOf, membersOf. rewrite Hm2. apply memberOf_put_member.
Qed.

(** * Leaving *)

Lemma tally_nonneg f ms : 0 ≤ count f ms.
Proof. apply sum_map_nonneg. intros _ x _. by destruct (f x). Qed.

Lemma better_candidate_spec u l o x :
  fold_left (better_candidate u) l o = Some x → (∀ y, o = Some y → candidate u y = true) →
  candidate u x = true ∧ (o = Some x ∨ x ∈ l).
Proof.
  revert o. induction l as [|y l IH]; intros o; cbn; [naive_solver|]. intros Hf Ho.
  assert (∀ z, better_candidate u o y = Some z → candidate u z = true ∧ (o = Some z ∨ z = y)) as Hb.
  { unfold better_candidate. intros z. destruct (candidate u y) eqn:Hy; cbn; [|naive_solver].
    destruct o as [w|]; [|naive_solver]. destruct (futureCreatorCandidateLess y w); naive_solver. }
  destruct (IH _ Hf) as [Hx Hin]; [intros z Hz; by apply Hb|]. split; [done|].
  destruct Hin as [Hin|Hin]; [|right; by right]. destruct (Hb _ Hin) as [_ [?| ->]]; [by left|right; left].
Qed.

Lemma futureCreatorAfterLeaveLocked_OK tick ch u s x :
  futureCreatorAfterLeaveLocked tick ch u s = OK x → candidate u x = true ∧ ∃ v, memberOf ch v s = Some x.
Proof.
  unfold futureCreatorAfterLeaveLocked. destruct (fold_left _ _ _) as [y|] eqn:E; [|done]. intros [= ->].
  apply better_candidate_spec in E as [Hx [?|Hin]]; [done| |done]. split; [done|].
  apply list_elem_of_fmap in Hin as ([v y] & -> & Hin). exists v. rewrite visit_members_all in Hin. by apply elem_of_map_to_list.
Qed.

Lemma active_weights m : cm_Status m = Active →
  participates m = true ∧ administers m = isChannelAdmin m ∧ is_status Kicked m = false.
Proof. unfold participates, administers, is_status. by intros ->. Qed.

Lemma left_weights m : cm_Status m = Left → participates m = false ∧ administers m = false ∧ is_status Kicked m = false.
Proof. unfold participates, administers, is_status. by intros ->. Qed.

(** The rows after a member, or the owner and a successor, have changed places. *)
Lemma leaver_ok ch c ms u m date :
  members_ok ch c ms → ms !! u = Some m → cm_Status m = Active → u ≠ ch_CreatorUserID c → cm_Role m ≠ RoleCreator →
  members_ok ch (one_less ((if isChannelAdmin m then -1 else 0) + 0) c) (<[u := with_status Left date m]> ms).
Proof.
  intros (Hk & Ho & C1 & C2 & C3) Hm Ha Hu Hr. destruct (Hk u m Hm) as (K1 & K2 & K3 & K4).
  set (m' := with_status Left date m).
  pose proof (tally_nonneg participates (<[u := m']> ms)) as Np. pose proof (tally_nonneg administers (<[u := m']> ms)) as Na.
  destruct (active_weights m Ha) as (P1 & A1 & X1). destruct (left_weights m' eq_refl) as (P2 & A2 & X2).
  rewrite count_insert, Hm in Np, Na. cbn in Np, Na. rewrite P1, P2 in Np. rewrite A1, A2 in Na. cbn in Np, Na.
  unfold one_less; cbn. assert ((0 <? ch_ParticipantsCount c) = true) as -> by (apply Z.ltb_lt; lia). split_and!.
  - by apply keyed_insert with c.
  - by apply owned_other.
  - unfold counted; cbn. rewrite !count_insert, Hm; cbn. rewrite P1, P2, A1, A2, X1, X2. cbn.
    destruct (isChannelAdmin m); cbn in *; lia.
Qed.

Lemma succession_ok ch c ms u m x date :
  members_ok ch c ms → ms !! u = Some m → u = ch_CreatorUserID c → cm_Status m = Active → cm_Role m = RoleCreator →
  ms !! cm_UserID x = Some x → candidate u x = true →
  members_ok ch (one_less (-1 + (if isChannelAdmin x then 0 else 1)) (with_creator (cm_UserID x) c))
    (<[u := with_status Left date (with_standing RoleMember no_rights "" m)]> (<[cm_UserID x := succeed x]> ms)).
Proof.
  intros (Hk & Ho & C1 & C2 & C3) Hm Hu Ha Hr Hx Hcand. unfold candidate in Hcand. bool_facts. standing_facts.
  destruct (Hk u m Hm) as (K1 & K2 & K3 & K4). destruct (Hk _ x Hx) as (_ & X2 & X3 & X4).
  set (m' := with_status Left date _). set (x' := succeed x).
  pose proof (tally_nonneg participates (<[u := m']> (<[cm_UserID x := x']> ms))) as Np.
  destruct (active_weights m Ha) as (P1 & A1 & Q1). destruct (left_weights m' eq_refl) as (P2 & A2 & Q2).
  destruct (active_weights x) as (P3 & A3 & Q3); [done|]. destruct (active_weights x' eq_refl) as (P4 & A4 & Q4).
  assert (isChannelAdmin m = true) as Am by (unfold isChannelAdmin, is_role; by rewrite Hr).
  assert (isChannelAdmin x' = true) as Ax by done.
  rewrite !count_insert, lookup_insert_ne, Hm, Hx in Np by done. cbn in Np. rewrite P1, P2, P3, P4 in Np. cbn in Np.
  pose proof (tally_nonneg administers (<[u := m']> (<[cm_UserID x := x']> ms))) as Na.
  rewrite !count_insert, lookup_insert_ne, Hm, Hx in Na by done. cbn in Na. rewrite A1, A2, A3, A4, Am, Ax in Na. cbn in Na.
  unfold one_less; cbn. assert ((0 <? ch_ParticipantsCount c) = true) as -> by (apply Z.ltb_lt; lia). split_and!.
  - apply keyed_insert with c; try done; [|by rewrite Normalize_no_rights].
    apply keyed_insert with c; try done. by apply Normalize_ranked.
  - cbn. rewrite Hu. apply owned_succession; [done|congruence|done|done].
  - unfold counted; cbn. rewrite !count_insert, lookup_insert_ne, Hm, Hx by done; cbn.
    rewrite P1, P2, P3, P4, A1, A2, A3, A4, Am, Ax, Q1, Q2, Q3, Q4. cbn. destruct (isChannelAdmin x); cbn in *; lia.
Qed.

End operations.
