(* ===== verification/ChannelsSteps.v ===== *)
(** Every method of the store of channels keeps it consistent. *)

From S2P Require Import Prelude GoStrings Channels ChannelMembers ChannelInvites ChannelsInv ChannelsOps.

Open Scope Z_scope.

#[local] Set Default Proof Using "Type".

Implicit Types (s : ChannelStore) (c : Channel) (m : ChannelMember) (ms : gmap Z ChannelMember) (i : ChannelInvite)
  (ch u actor date : Z) (tick : list nat).

(** The row of a channel that is about to be written, while the members change. *)
Lemma pending_row ch c c' ms s s' :
  store_ok s → channels s !! ch = Some c → ch_ID c' = ch → ch_TopMessageID c' = ch_TopMessageID c → ch_Pts c' = ch_Pts c →
  s' ≡ set_members (<[ch := ms]> (members s)) s → members_ok ch c' ms → store_ok (put_channel ch c' s').
Proof.
  intros Hs Hc E1 E2 E3 E Hm. rewrite (put_channel_proper ch c' _ _ E). by apply (store_ok_room ch c).
Qed.

Lemma put_member_twice ch u m u' m' s :
  put_member ch u m (put_member ch u' m' s) ≡ set_members (<[ch := <[u := m]> (<[u' := m']> (membersOf ch s))]> (members s)) s.
Proof.
  unfold put_member, equiv, store_equiv, core, membersOf; cbn. by rewrite lookup_insert_eq, insert_insert_eq.
Qed.

Lemma put_member_proper ch u m s s' : s ≡ s' → put_member ch u m s ≡ put_member ch u m s'.
Proof.
  intros (E1&E2&E3&E4&E5&E6&E7&E8&E9)%equiv_core. unfold put_member, membersOf, equiv, store_equiv, core; cbn. congruence.
Qed.

Section operations.
Context `{!ChannelEnvironment}.

Lemma LeaveChannel_ok tick ch u date s : store_ok s → store_ok (LeaveChannel tick ch u date s).2.
Proof.
  intros Hs. unfold LeaveChannel. destruct (channelAndMemberLocked u ch s) as [[c m]|e] eqn:Hacc; [|done].
  destruct (acting_member _ _ _ _ _ Hs Hacc) as (Hc & Hm & Ha & _ & Hu). destruct (so_rooms s Hs ch c Hc) as [Hid Hok _].
  destruct (hand_over tick c m ch u s) as [[[[[c1 m1] heirs] delta] s1]|e] eqn:Hh; [|done].
  set (c2 := one_less _ c1). set (m2 := with_status Left date m1).
  assert (store_ok (put_channel ch c2 (put_member ch u m2 s1))) as Hs2.
  { unfold hand_over in Hh. destruct ((ch_CreatorUserID c =? u) || is_role RoleCreator m) eqn:Hr.
    - destruct (negb (ch_CreatorUserID c =? u) || negb (is_role RoleCreator m)) eqn:Hr'; [done|].
      destruct (futureCreatorAfterLeaveLocked _ ch u s) as [x|e] eqn:Hx; [|done]. injection Hh as <- <- <- <- <-.
      apply futureCreatorAfterLeaveLocked_OK in Hx as (Hcand & v & Hv). bool_facts. standing_facts.
      assert (cm_UserID x = v) as <- by by destruct Hok as (Hk & _); destruct (Hk v x Hv).
      assert (isChannelAdmin m = true) as Am by (unfold isChannelAdmin, is_role; match goal with E : cm_Role m = _ |- _ => by rewrite E end).
      subst c2 m2. rewrite Am.
      eapply pending_row; [exact Hs|exact Hc| | | |apply put_member_twice|by apply succession_ok];
        unfold one_less; cbn; by destruct (0 <? ch_ParticipantsCount c).
    - injection Hh as <- <- <- <- <-. bool_facts. standing_facts. subst c2 m2.
      eapply pending_row; [exact Hs|exact Hc| | | |reflexivity|by apply leaver_ok]; unfold one_less; cbn; by destruct (0 <? ch_ParticipantsCount c). }
  set (s2 := log_act ch u date LogLeave _).
  assert (s2 ≡ put_member ch u m2 s1) as E2 by (unfold s2; by rewrite log_act_equiv, clear_mentions_equiv).
  assert (store_ok (put_channel ch c2 s2)) as Hs3 by by rewrite (put_channel_proper ch c2 _ _ E2).
  destruct (announce _ _ _ _ _ c2 s2) as [[msg c3] s3] eqn:E. cbn [snd]. by eapply announce_ok.
Qed.

Lemma EditChannelAdmin_ok tick req s : store_ok s → store_ok (EditChannelAdmin tick req s).2.
Proof.
  intros Hs. unfold EditChannelAdmin. destruct (_ || _); [done|].
  destruct (channelAndMemberLocked _ _ s) as [[c m]|e] eqn:Hacc; [|done].
  destruct (acting_member _ _ _ _ _ Hs Hacc) as (Hc & Hm & Ha & _ & Hu).
  destruct (so_rooms s Hs _ c Hc) as [Hid Hok _]. pose proof Hok as (Hk & Ho & _).
  destruct (negb (canAddChannelAdmins m)); [done|].
  set (fresh := promoted_unknown _ _ _ _ _). set (u := ea_MemberID req). set (ch := ea_ChannelID req).
  destruct (is_role RoleCreator (default fresh (memberOf ch u s))) eqn:Hr.
  - destruct (negb (u =? ea_UserID req) || _ || _) eqn:Hself; [done|]. bool_facts. cbn [snd].
    assert (memberOf ch u s = Some m) as Hm' by (match goal with E : u = _ |- _ => by rewrite E end). rewrite Hm' in *. cbn in Hr. standing_facts.
    eapply refresh_member_ok; [done|done|apply log_change_equiv| |]; cbn.
    + destruct (Hk u m Hm') as (K1 & K2 & K3 & K4). apply keyed_insert with c; try done. by apply Normalize_ranked.
    + assert (ch_CreatorUserID c = u) as Eu by lia. rewrite Eu in *. apply owned_self; [done|].
      split_and!; cbn; [done|done|]. destruct Ho as [(x & Hx & Hrow) _].
      assert (Some m = Some x) as [= ->] by (rewrite <- Hm'; exact Hx). apply Hrow.
  - destruct (negb (is_role RoleCreator m) && _); [done|]. cbn [snd]. rewrite refresh_dialog_equiv.
    destruct (administered_row ch c req (default fresh (memberOf ch u s))) as [Hrow _].
    { apply previous_row; [done| |done]. apply plain_other, promoted_unknown_plain. }
    eapply refresh_other_ok; [done|done|apply log_change_equiv| |done]. eapply not_owner; [done|exact Hr].
Qed.

Lemma EditChannelBanned_ok tick actor ch u bans date s : store_ok s → store_ok (EditChannelBanned tick actor ch u bans date s).2.
Proof.
  intros Hs. unfold EditChannelBanned. destruct (_ || _); [done|].
  destruct (channelAndMemberLocked _ _ s) as [[c m]|e] eqn:Hacc; [|done].
  destruct (acting_member _ _ _ _ _ Hs Hacc) as (Hc & Hm & Ha & _ & Hu).
  destruct (so_rooms s Hs _ c Hc) as [Hid Hok _]. pose proof Hok as (Hk & Ho & _).
  destruct (negb (canBanChannelUsers m)); [done|]. set (previous := default _ _).
  destruct (is_role RoleCreator previous) eqn:Hr; [done|].
  set (s1 := refreshChannelCountsLocked ch _).
  assert (store_ok s1) as Hs1.
  { eapply refresh_other_ok; [done|done|apply log_change_equiv|by eapply not_owner|].
    apply restrict_row, previous_row; [done| |done]. unfold other_row; cbn. by rewrite Normalize_no_rights. }
  set (s2 := if is_status Active _ then _ else s1). set (s3 := if _ && _ then _ else s2).
  assert (s3 ≡ s1) as E3.
  { unfold s3. case_match; rewrite ?clear_mentions_equiv; unfold s2; case_match; by rewrite ?refresh_dialog_equiv. }
  destruct (announce _ _ _ _ _ _ s3) as [[msg c3] s4] eqn:E. cbn [snd].
  eapply announce_written in E as [? _]; [done|by rewrite E3|].
  rewrite (channels_proper _ _ E3). unfold channelOf, s1, refreshChannelCountsLocked; cbn. by rewrite lookup_insert_eq.
Qed.

Lemma TransferChannelOwnership_ok tick actor ch u date s :
  store_ok s → store_ok (TransferChannelOwnership tick actor ch u date s).2.
Proof.
  intros Hs. unfold TransferChannelOwnership. destruct (_ || (u =? actor)) eqn:Hne; [done|].
  destruct (channelAndMemberLocked _ _ s) as [[c m]|e] eqn:Hacc; [|done].
  destruct (acting_member _ _ _ _ _ Hs Hacc) as (Hc & Hm & Ha & _ & Hu).
  destruct (so_rooms s Hs _ c Hc) as [Hid Hok _]. pose proof Hok as (Hk & Ho & _).
  destruct (negb (ch_CreatorUserID c =? actor) || _) eqn:Hown; [done|].
  destruct (memberOf ch u s) as [x|] eqn:Hx; [|done].
  destruct (negb (is_status Active x) || _) eqn:Hxa; [done|]. destruct (is_role RoleCreator x) eqn:Hxr; [done|].
  bool_facts. standing_facts. cbn [snd]. rewrite !refresh_dialog_equiv.
  destruct (Hk actor m Hm) as (K1 & K2 & K3 & K4). destruct (Hk u x Hx) as (X1 & X2 & X3 & X4).
  rewrite (refresh_counts_proper ch _ (put_channel ch (with_creator u c)
     (set_members (<[ch := <[actor := retired actor m]> (<[u := enthroned date x]> (membersOf ch s))]> (members s)) s))).
  2: { rewrite !log_change_equiv. transitivity (put_channel ch (with_creator u c)
         (put_member ch u (enthroned date x) (put_member ch actor (retired actor m) s))); [done|].
       apply put_channel_proper. rewrite put_member_twice, insert_insert_ne by done. done. }
  apply store_ok_recount with c; try done.
  - apply keyed_insert with (with_creator u c); try done; [|by unfold retired; case_match..|].
    + apply keyed_insert with c; try done; unfold enthroned; case_match; try done; by apply Normalize_ranked.
    + unfold retired. case_match; by apply Normalize_ranked.
  - cbn. replace actor with (ch_CreatorUserID c). apply owned_succession; [done|congruence| |unfold retired; by case_match].
    unfold owner_row, enthroned, succeed. case_match; cbn; by bool_facts.
Qed.

Lemma EditChannelMemberRank_ok tick actor ch u rank date s :
  store_ok s → store_ok (EditChannelMemberRank tick actor ch u rank date s).2.
Proof.
  intros Hs. unfold EditChannelMemberRank. destruct (_ || _); [done|]. destruct (channelAndMemberLocked _ _ s) as [[c m]|e]; [|done].
  destruct (memberOf ch u s) as [x|] eqn:Hx; [|done]. destruct (negb _); [done|]. destruct (checkEditMemberRank _ _ _); [|done].
  cbn [snd]. rewrite append_log_equiv. by eapply store_ok_same.
Qed.

(** * The row of the channel *)

Definition cosmetic (f : Channel → Channel) : Prop := ∀ c,
  ch_ID (f c) = ch_ID c ∧ ch_TopMessageID (f c) = ch_TopMessageID c ∧ ch_Pts (f c) = ch_Pts c
  ∧ ch_CreatorUserID (f c) = ch_CreatorUserID c ∧ ch_Megagroup (f c) = ch_Megagroup c
  ∧ ch_Broadcast (f c) = ch_Broadcast c ∧ ch_ParticipantsCount (f c) = ch_ParticipantsCount c
  ∧ ch_AdminsCount (f c) = ch_AdminsCount c ∧ ch_KickedCount (f c) = ch_KickedCount c.

Lemma cosmetic_ok f ch c s : cosmetic f → store_ok s → channels s !! ch = Some c → store_ok (put_channel ch (f c) s).
Proof.
  intros Hf Hs Hc. destruct (Hf c) as (E1 & E2 & E3 & E4 & E5 & E6 & E7 & E8 & E9).
  apply store_ok_row with c; try done. rewrite E1. by destruct (so_rooms s Hs ch c Hc).
Qed.

Lemma edit_channel_ok actor ch allowed refusal f s : cosmetic f → store_ok s → store_ok (edit_channel actor ch allowed refusal f s).2.
Proof.
  intros Hf Hs. unfold edit_channel. destruct (_ || _); [done|]. destruct (channelAndMemberLocked _ _ s) as [[c m]|e] eqn:Hacc; [|done].
  destruct (negb _); [done|]. destruct (refusal c); [done|]. apply cosmetic_ok; [done..|].
  by destruct (channelAndMemberLocked_OK _ _ _ _ _ Hacc).
Qed.

Lemma DeleteChannel_ok tick actor ch s : store_ok s → store_ok (DeleteChannel tick actor ch s).2.
Proof.
  intros Hs. unfold DeleteChannel. destruct (_ || _); [done|]. destruct (channelAndMemberLocked _ _ s) as [[c m]|e] eqn:Hacc; [|done].
  destruct (channelAndMemberLocked_OK _ _ _ _ _ Hacc) as (Hc & _).
  destruct (negb _); [done|]. set (s1 := put_channel ch _ s).
  assert (store_ok s1) as Hs1 by by apply cosmetic_ok.
  destruct (channels s1 !! _) as [mono|] eqn:Hm; [|done]. destruct (_ && _ && _); [|done]. cbn [snd].
  destruct (so_rooms s1 Hs1 _ mono Hm) as [Hid _ _].
  change (ch_ID (without_channel mono)) with (ch_ID mono). rewrite Hid. by apply cosmetic_ok.
Qed.

Lemma setChannelHasLinkLocked_ok ch b s : store_ok s → store_ok (setChannelHasLinkLocked ch b s).
Proof. intros Hs. unfold setChannelHasLinkLocked. destruct (channels s !! ch) as [c|] eqn:Hc; [|done]. by apply cosmetic_ok. Qed.

(** * Creation *)

(** A channel without members besides its owner, at an id that is not taken. *)
Lemma creation_base ch c creator s s' :
  store_ok s → channels s !! ch = None → 0 < ch → ch < nextID s' → nextID s ≤ nextID s' →
  channels s' = <[ch := c]> (channels s) → members s' = <[ch := {[ch_CreatorUserID c := creator]}]> (members s) →
  messages s' = messages s → events s' = events s → msgSeq s' = msgSeq s → ptsSeq s' = <[ch := InitialChannelPts]> (ptsSeq s) →
  ch_ID c = ch → ch_TopMessageID c = 0 → ch_Pts c = InitialChannelPts →
  members_ok ch c {[ch_CreatorUserID c := creator]} → store_ok s'.
Proof.
  intros [Hr Hi Hn Ha] Hnew Hp Hlt Hle E1 E2 E3 E4 E5 E6 F1 F2 F3 Hm. destruct (Ha ch Hnew) as (A1 & A2 & A3 & A4). split.
  - intros ch' x. rewrite E1, lookup_insert_Some. intros [[<- <-]|[Hne Hx]].
    + split; [done|unfold membersOf; by rewrite E2, lookup_insert_eq|]. unfold box_ok, seq_at.
      rewrite E3, E4, E5, E6, lookup_insert_eq, A2, A3, A4, F2, F3. done.
    + destruct (Hr ch' x Hx) as [G1 G2 G3]. split; [done|unfold membersOf; by rewrite E2, lookup_insert_ne|].
      unfold box_ok, seq_at in *. by rewrite E3, E4, E5, E6, lookup_insert_ne.
  - intros ch'. rewrite E1. destruct (decide (ch = ch')) as [<-|Hne]; [done|]. rewrite lookup_insert_ne by done.
    intros Hx%Hi. lia.
  - lia.
  - intros ch'. rewrite E1. destruct (decide (ch = ch')) as [<-|Hne]; [by rewrite lookup_insert_eq|].
    rewrite lookup_insert_ne by done. intros Hx. destruct (Ha ch' Hx) as (B1 & B2 & B3 & B4).
    unfold membersOf. rewrite E2, lookup_insert_ne, E3, E4, E5 by done. done.
Qed.

Lemma uniqueNonZero_spec ids exclude out :
  NoDup out → Forall (λ x, x ≠ exclude) out →
  let r := fold_left (λ out id, if (id =? 0) || (id =? exclude) || bool_decide (id ∈ out) then out else out ++ [id]) ids out in
  NoDup r ∧ Forall (λ x, x ≠ exclude) r.
Proof.
  revert out. induction ids as [|x ids IH]; intros out Hn Hf; cbn; [done|].
  destruct ((x =? 0) || (x =? exclude) || bool_decide (x ∈ out)) eqn:E; [by apply IH|]. bool_facts. apply IH.
  - apply NoDup_app. split; [done|]. split; [|apply NoDup_singleton]. intros y Hy ->%list_elem_of_singleton. done.
  - apply Forall_app. split; [done|]. by apply Forall_singleton.
Qed.

Lemma uniqueNonZero_ok ids exclude : NoDup (uniqueNonZero ids exclude) ∧ Forall (λ x, x ≠ exclude) (uniqueNonZero ids exclude).
Proof. apply uniqueNonZero_spec; constructor. Qed.

(** Rows for users who were not there. *)
Lemma put_all_members ch (l : list ChannelMember) ms s :
  members (fold_left (λ s m, put_member ch (cm_UserID m) m s) l (set_members (<[ch := ms]> (members s)) s))
    = <[ch := fold_left (λ ms m, <[cm_UserID m := m]> ms) l ms]> (members s)
  ∧ fold_left (λ s m, put_member ch (cm_UserID m) m s) l (set_members (<[ch := ms]> (members s)) s)
    ≡ set_members (<[ch := fold_left (λ ms m, <[cm_UserID m := m]> ms) l ms]> (members s)) s.
Proof.
  revert ms s. induction l as [|m l IH]; intros ms s; cbn; [done|].
  set (s1 := put_member ch _ m _).
  assert (s1 = set_members (<[ch := <[cm_UserID m := m]> ms]> (members (set_members (<[ch := ms]> (members s)) s)))
                 (set_members (<[ch := ms]> (members s)) s)) as E.
  { unfold s1, put_member, membersOf; cbn. by rewrite lookup_insert_eq. }
  rewrite E. destruct (IH (<[cm_UserID m := m]> ms) (set_members (<[ch := ms]> (members s)) s)) as [IH1 IH2]. split.
  - rewrite IH1. cbn. by rewrite insert_insert_eq.
  - rewrite IH2. unfold equiv, store_equiv, core; cbn. by rewrite insert_insert_eq.
Qed.

Lemma newcomers_ok ch c (l : list ChannelMember) ms P A K :
  keyed ch c ms → owned (ch_CreatorUserID c) ms → P = count participates ms ∧ A = count administers ms ∧ K = count (is_status Kicked) ms →
  Forall (λ m, plain_row ch (cm_UserID m) m ∧ ms !! cm_UserID m = None) l → NoDup (cm_UserID <$> l) →
  let ms' := fold_left (λ ms m, <[cm_UserID m := m]> ms) l ms in
  keyed ch c ms' ∧ owned (ch_CreatorUserID c) ms'
  ∧ P + Z.of_nat (length l) = count participates ms' ∧ A = count administers ms' ∧ K = count (is_status Kicked) ms'.
Proof.
  revert ms P. induction l as [|m l IH]; intros ms P Hk Ho Hc Hf Hd; cbn.
  { rewrite Z.add_0_r. done. }
  apply Forall_cons in Hf as [[Hm Hnew] Hf]. apply NoDup_cons in Hd as [Hd1 Hd2].
  destruct (newcomer_ok ch c ms (cm_UserID m) m P A K Hk Ho Hc Hm) as (G1 & G2 & G3 & G4 & G5); [by rewrite Hnew|].
  rewrite Hnew in G5. cbn in G5.
  destruct (IH (<[cm_UserID m := m]> ms) (P + 1)) as (I1 & I2 & I3 & I4 & I5); [done|done|split_and!; [done|done|lia]| |done|].
  { rewrite Forall_forall in *. intros x Hx. destruct (Hf x Hx) as [? ?]. split; [done|]. rewrite lookup_insert_ne; [done|].
    intros E. apply Hd1. rewrite E. by apply list_elem_of_fmap_2. }
  split_and!; [done|done| |done|done]. rewrite <- I3. lia.
Qed.

Lemma CreateChannel_ok tick req s : store_ok s → store_ok (CreateChannel tick req s).2.
Proof.
  intros Hs. unfold CreateChannel. destruct (_ || _) eqn:Hz; [done|]. bool_facts.
  assert (channels s !! nextID s = None) as Hnew.
  { apply eq_None_not_Some. intros Hx%(so_ids s Hs). lia. }
  pose proof (so_next s Hs) as Hpos.
  set (ch := nextID s). set (s0 := set_next _ _ s).
  assert (store_ok s0) as Hs0.
  { destruct Hs as [Hr Hi Hn Ha]. split; [|intros ch' Hx%Hi; cbn; lia|cbn; lia|done]. intros ch' c Hc. by destruct (Hr ch' c Hc). }
  destruct (draw_invite tick) as [[iid hash]|]; [|done].
  set (creatorID := rq_CreatorUserID req). set (date := rq_Date req).
  set (creator := with_standing _ _ _ _). set (others := _ <$> uniqueNonZero _ creatorID).
  set (c0 := with_link true _). set (s1 := put_invite _ _).
  set (s2 := set_members _ s1). set (s3 := fold_left _ others s2).
  set (c1 := with_participants _ c0).
  destruct (uniqueNonZero_ok (rq_MemberUserIDs req) creatorID) as [Hnd Hfor].
  assert (store_ok (put_channel ch (with_top 0 InitialChannelPts c1) s3)) as Hs3.
  { set (ms := fold_left (λ ms m, <[cm_UserID m := m]> ms) others {[creatorID := creator]}).
    assert (s3 ≡ set_members (<[ch := ms]> (members s1)) s1) as E3 by apply put_all_members.
    rewrite (put_channel_proper ch _ _ _ E3).
    assert (members_ok ch (with_top 0 InitialChannelPts c0) {[creatorID := creator]}) as Hbase.
    { split_and!.
      - intros u m [<- <-]%lookup_singleton_Some. split_and!; [done..|]. by apply Normalize_ranked.
      - split; [exists creator; by rewrite lookup_singleton_eq|]. intros u m [<- <-]%lookup_singleton_Some. done.
      - unfold counted, count. rewrite <- !insert_empty, !sum_map_insert_new, !sum_map_empty by done. done. }
    assert (store_ok (put_channel ch (with_top 0 InitialChannelPts c0) s2)) as Hs2.
    { apply (creation_base ch (with_top 0 InitialChannelPts c0) creator s0); try done; cbn; try lia.
      by rewrite !insert_insert_eq. }
    destruct Hbase as (B1 & B2 & B3).
    destruct (newcomers_ok ch (with_top 0 InitialChannelPts c0) others {[creatorID := creator]} _ _ _ B1 B2 B3)
      as (G1 & G2 & G3 & G4 & G5).
    - apply Forall_fmap, Forall_forall. intros u Hu. split; [done|]. cbn. apply lookup_singleton_None.
      rewrite Forall_forall in Hfor. intros <-. by apply (Hfor creatorID Hu).
    - unfold others. rewrite <- list_fmap_compose, (list_fmap_ext _ id) by done. by rewrite list_fmap_id.
    - pose proof (store_ok_room ch (with_top 0 InitialChannelPts c0) (with_top 0 InitialChannelPts c1) ms _ Hs2) as Hroom.
      assert (put_channel ch (with_top 0 InitialChannelPts c1) (set_members (<[ch := ms]> (members s1)) s1)
        ≡ put_channel ch (with_top 0 InitialChannelPts c1)
            (set_members (<[ch := ms]> (members (put_channel ch (with_top 0 InitialChannelPts c0) s2)))
               (put_channel ch (with_top 0 InitialChannelPts c0) s2))) as ->.
      { unfold put_channel, equiv, store_equiv, core; cbn. by rewrite !insert_insert_eq. }
      apply Hroom; try done. unfold put_channel; cbn. by rewrite lookup_insert_eq. }
  destruct (announce _ _ _ _ _ c1 s3) as [[msg c4] s4] eqn:E. cbn [snd].
  rewrite (upsert_all_equiv (λ m s, upsertChannelDialogLocked (cm_UserID m) c4 (fst <$> msg) (cm_UserID m =? creatorID) s))
    by (intros; apply upsert_equiv).
  unfold announce in E. cbn in E. injection E as <- <- <-. eapply (announce_ok true) in Hs3; [|reflexivity]. cbn in Hs3.
  rewrite put_channel_twice in Hs3. exact Hs3.
Qed.

End operations.
