(* ===== verification/ChannelsLinks.v ===== *)
(** Invitations, links and join requests keep the store consistent. *)

From S2P Require Import Prelude GoStrings Channels ChannelMembers ChannelInvites ChannelsInv ChannelsOps ChannelsSteps.

Open Scope Z_scope.

#[local] Set Default Proof Using "Type".

Implicit Types (s : ChannelStore) (c : Channel) (m : ChannelMember) (ms : gmap Z ChannelMember) (i : ChannelInvite)
  (ch u actor date : Z) (tick : list nat).

Section operations.
Context `{!ChannelEnvironment}.

(** * Direct invitations *)

(** What the loop has done to a store [s]: new rows, with the counters that the
    row of the channel is going to get. *)
Definition invited ch c s (acc : Z * list ChannelMember * ChannelStore) : Prop :=
  let '(restored, added, s') := acc in
  0 ≤ restored ∧ ∃ ms, s' ≡ set_members (<[ch := ms]> (members s)) s ∧ keyed ch c ms ∧ owned (ch_CreatorUserID c) ms
  ∧ ch_ParticipantsCount c + Z.of_nat (length added) = count participates ms ∧ ch_AdminsCount c = count administers ms
  ∧ ch_KickedCount c - restored = count (is_status Kicked) ms.

Lemma invite_one_ok c inviter date can one ch s acc u acc' :
  invited ch c s acc → invite_one c inviter date can one ch acc u = OK acc' → invited ch c s acc'.
Proof.
  destruct acc as [[restored added] s1]. intros (H0 & ms & E & Hk & Ho & Hc1 & Hc2 & Hc3). unfold invite_one.
  set (m := promoted_unknown c ch u inviter date).
  assert (∀ k, wt (λ x, b2z (is_status Kicked x)) (ms !! u) = k - restored → restored ≤ k →
    (∀ x, ms !! u = Some x → cm_Status x ≠ Active) →
    invited ch c s (k, added ++ [m], appendChannelAdminLogLocked ch inviter date LogInvite ("", "") None (Some m) (put_member ch u m s1)))
    as Hadd.
  { intros k Hw Hle Hx. split; [lia|]. exists (<[u := m]> ms).
    destruct (newcomer_ok ch c ms u m _ _ _ Hk Ho (conj Hc1 (conj Hc2 Hc3)) (promoted_unknown_plain _ _ _ _ _) Hx)
      as (G1 & G2 & G3 & G4 & G5).
    split_and!; [|done|done|rewrite length_app, <- G3; cbn; lia|done|rewrite <- G5; lia].
    rewrite append_log_equiv, (put_member_proper ch u m _ _ E). unfold put_member, membersOf, equiv, store_equiv, core; cbn.
    by rewrite lookup_insert_eq, insert_insert_eq. }
  assert (memberOf ch u s1 = ms !! u) as Hm.
  { rewrite (memberOf_proper ch u _ _ E). unfold memberOf, membersOf; cbn. by rewrite lookup_insert_eq. }
  rewrite Hm. destruct (ms !! u) as [x|] eqn:Hu; cbn in Hadd.
  - destruct (is_status Active x) eqn:Hxa; standing_facts; [destruct one; [done|]; intros [= <-]; split; [done|]; by exists ms|].
    assert (∀ y, Some x = Some y → cm_Status y ≠ Active) as Hx by by intros ? [= <-].
    destruct (shut_out x) eqn:Hs.
    + destruct can; cbn; [|destruct one; [done|]; intros [= <-]; split; [done|]; by exists ms].
      intros [= <-]. destruct (is_status Kicked x); apply Hadd; cbn; first [done|lia].
    + intros [= <-]. unfold shut_out in Hs. bool_facts.
      match goal with E : is_status Kicked x = false |- _ => rewrite E in Hadd end. apply Hadd; [cbn; lia|done|done].
  - intros [= <-]. apply Hadd; [lia|done|done].
Qed.

Lemma invite_each_ok c inviter date can one ch s acc us acc' :
  invited ch c s acc → invite_each c inviter date can one ch acc us = OK acc' → invited ch c s acc'.
Proof.
  revert acc. induction us as [|u us IH]; intros acc Hi; cbn; [by intros [= <-]|].
  destruct (invite_one _ _ _ _ _ _ acc u) as [acc1|] eqn:E; [|done]. apply IH. by eapply invite_one_ok.
Qed.

Lemma InviteToChannel_ok tick ch inviter us date s : store_ok s → store_ok (InviteToChannel tick ch inviter us date s).2.
Proof.
  intros Hs. unfold InviteToChannel. destruct (channelAndMemberLocked _ _ s) as [[c m]|e] eqn:Hacc; [|done].
  destruct (channelAndMemberLocked_OK _ _ _ _ _ Hacc) as (Hc & _). destruct (so_rooms s Hs ch c Hc) as [Hid (Hk & Ho & Hn) _].
  destruct (ch_Monoforum c); [done|]. destruct (negb _); [done|].
  destruct (invite_each _ _ _ _ _ _ _ _) as [[[restored added] s1]|e] eqn:E; [|done].
  apply (invite_each_ok _ _ _ _ _ _ s) in E as (H0 & ms & E1 & K1 & K2 & K3 & K4 & K5).
  2: { split; [done|]. exists (membersOf ch s). destruct Hn as (N1 & N2 & N3). cbn. split_and!; [|done|done|lia|done|lia].
       unfold equiv, store_equiv, core, membersOf; cbn. destruct (members s !! ch) as [x|] eqn:Ex; cbn; [by rewrite insert_id|].
       exfalso. destruct Ho as [(x & Hx & _) _]. unfold membersOf in Hx. by rewrite Ex in Hx; cbn in Hx; rewrite lookup_empty in Hx. }
  set (c1 := with_participants _ c). set (c2 := if 0 <? restored then _ else c1).
  assert (store_ok (put_channel ch c2 s1)) as Hs1.
  { pose proof (tally_nonneg (is_status Kicked) ms) as Hnn.
    eapply pending_row; [exact Hs|exact Hc|by unfold c2; case_match..|exact E1|].
    unfold c2. destruct (0 <? restored) eqn:Hr; bool_facts; (split; [done|split; [done|]]); unfold counted; cbn; lia. }
  destruct (announce _ _ _ _ _ c2 _) as [[msg c3] s3] eqn:Ea. cbn [snd].
  rewrite (upsert_all_equiv (λ m s, upsertChannelDialogLocked (cm_UserID m) c3 (fst <$> msg) false s)) by (intros; apply upsert_equiv).
  eapply announce_written in Ea as [? _]; [done|done|]. unfold put_channel; cbn. by rewrite lookup_insert_eq.
Qed.

(** * Links *)

Lemma ExportInvite_ok tick req s : store_ok s → store_ok (ExportInvite tick req s).2.
Proof.
  intros Hs. unfold ExportInvite. destruct (_ || _); [done|]. destruct (invite_admin _ _ s); [|done].
  set (s1 := if ex_LegacyRevokePermanent req then _ else s).
  assert (store_ok s1) as Hs1 by (unfold s1; case_match; [by apply store_ok_invites|done]).
  destruct (draw_invite tick) as [[id hash]|]; [|done]. cbn [snd]. by apply setChannelHasLinkLocked_ok, store_ok_invites.
Qed.

Lemma EnsurePermanentInvite_ok tick ch admin date s : store_ok s → store_ok (EnsurePermanentInvite tick ch admin date s).2.
Proof.
  intros Hs. unfold EnsurePermanentInvite. destruct (_ || _); [done|]. destruct (invite_admin _ _ s); [|done].
  destruct (fold_left _ _ _); [by apply setChannelHasLinkLocked_ok|]. destruct (draw_invite tick) as [[id hash]|]; [|done].
  by apply setChannelHasLinkLocked_ok, store_ok_invites.
Qed.

Lemma EditExportedInvite_ok tick req s : store_ok s → store_ok (EditExportedInvite tick req s).2.
Proof.
  intros Hs. unfold EditExportedInvite. destruct (_ || _); [done|]. destruct (invite_admin _ _ s); [|done].
  destruct (inviteByChannelHashLocked _ _ s); [|done].
  repeat (case_match; simplify_eq); cbn [snd]; try done;
    repeat first [apply setChannelHasLinkLocked_ok|apply store_ok_invites]; done.
Qed.

Lemma DeleteExportedInvite_ok actor ch hash s : store_ok s → store_ok (DeleteExportedInvite actor ch hash s).2.
Proof.
  intros Hs. unfold DeleteExportedInvite. destruct (_ || _); [done|]. destruct (invite_admin _ _ s); [|done].
  destruct (inviteByChannelHashLocked _ _ s); [|done]. by apply setChannelHasLinkLocked_ok, store_ok_invites.
Qed.

Lemma DeleteRevokedExportedInvites_ok tick actor ch admin limit s :
  store_ok s → store_ok (DeleteRevokedExportedInvites tick actor ch admin limit s).2.
Proof.
  intros Hs. unfold DeleteRevokedExportedInvites. destruct (_ || _); [done|]. destruct (invite_admin _ _ s); [|done].
  by apply store_ok_invites.
Qed.

(** * Entering *)

Lemma settle_request_shape tick ch u i s i' s' : settle_request tick ch u i s = (i', s') → ∃ v, s' = set_invites v s.
Proof.
  unfold settle_request. assert (∃ v, s = set_invites v s) by (exists (invites s); by destruct s).
  repeat case_match; intros [= <- <-]; try done; by eexists.
Qed.

Lemma not_full i :
  negb (iv_InviteID i =? 0) && (0 <? iv_UsageLimit i) && (iv_UsageLimit i <=? iv_UsageCount i) = false →
  iv_InviteID i = 0 ∨ iv_UsageLimit i ≤ 0 ∨ iv_UsageCount i < iv_UsageLimit i.
Proof. destruct (Z.eqb_spec (iv_InviteID i) 0), (Z.ltb_spec 0 (iv_UsageLimit i)); cbn; bool_facts; intros; bool_facts; lia. Qed.

(** An approval that succeeds: the user was not in and not shut out, and is in
    afterwards with a plain row; of the rows nothing else changes. *)
Lemma approve_effect tick c i u by_ date s r s' :
  approveInviteImporterLocked tick c i u by_ date s = (OK r, s') →
  let ch := if ch_ID c =? 0 then iv_ChannelID i else ch_ID c in
  (iv_InviteID i = 0 ∨ iv_UsageLimit i ≤ 0 ∨ iv_UsageCount i < iv_UsageLimit i)
  ∧ (∀ x, memberOf ch u s = Some x → cm_Status x ≠ Active ∧ shut_out x = false)
  ∧ ∃ m, plain_row ch u m ∧ members s' = members (put_member ch u m s).
Proof.
  unfold approveInviteImporterLocked. destruct (_ && _ && _) eqn:Hfull; [done|]. set (ch := if ch_ID c =? 0 then _ else _).
  destruct (default false (is_status Active <$> memberOf ch u s)) eqn:Ha; [done|].
  destruct (default false (shut_out <$> memberOf ch u s)) eqn:Ho; [done|].
  set (m := with_read _ _ _).
  destruct (settle_request _ _ _ _ _) as [i1 s1] eqn:E1. apply settle_request_shape in E1 as [v ->].
  set (s2 := if _ && _ then _ else set_invites v _).
  destruct (announce _ _ _ _ _ _ _) as [[msg c3] s3] eqn:Ea. intros [= _ <-]. cbn zeta. split_and!.
  - by apply not_full.
  - intros x Hx. rewrite Hx in Ha, Ho. cbn in Ha, Ho. by standing_facts.
  - destruct (announce_core _ _ _ _ _ _ _ _ _ _ Ea) as (_ & Em & _).
    assert (members s3 = members (put_member ch u m s)) as Em3.
    { rewrite Em. unfold s2. assert (members (log_act ch u date LogJoin (put_member ch u m s)) = members (put_member ch u m s)) as El
        by (apply members_proper, log_act_equiv). by case_match. }
    exists (read_up_to c3 msg m). split; [done|]. unfold put_importer; cbn. unfold membersOf. rewrite Em3. cbn.
    rewrite lookup_insert_eq, insert_insert_eq. cbn. unfold membersOf. by rewrite insert_insert_eq.
Qed.

Lemma approve_err tick c i u by_ date s e s' : approveInviteImporterLocked tick c i u by_ date s = (ERR e, s') → s' = s.
Proof.
  unfold approveInviteImporterLocked. destruct (_ && _ && _); [by intros [= _ <-]|].
  destruct (default false (is_status Active <$> _)); [by intros [= _ <-]|].
  destruct (default false (shut_out <$> _)); [by intros [= _ <-]|].
  destruct (settle_request _ _ _ _ _). by destruct (announce _ _ _ _ _ _ _) as [[??]?].
Qed.

Lemma row_id c i s : store_ok s → channels s !! ch_ID c = Some c → (if ch_ID c =? 0 then iv_ChannelID i else ch_ID c) = ch_ID c.
Proof. intros Hs Hc. case_match; [|done]. bool_facts. destruct (so_ids s Hs (ch_ID c)); [eauto|lia]. Qed.

(** What the approval does to the store as a whole. *)
Lemma approve_ok tick c i u by_ date s : store_ok s → channels s !! ch_ID c = Some c →
  store_ok (approveInviteImporterLocked tick c i u by_ date s).2.
Proof.
  intros Hs Hc. unfold approveInviteImporterLocked. destruct (_ && _ && _); [done|].
  rewrite (row_id c i s Hs Hc).
  set (ch := ch_ID c) in *.
  destruct (default false (is_status Active <$> memberOf ch u s)) eqn:Ha; [done|].
  destruct (default false (shut_out <$> memberOf ch u s)); [done|]. set (m := with_read _ _ _).
  destruct (so_rooms s Hs ch c Hc) as [Hid (Hk & Ho & Hn) _].
  destruct (settle_request _ _ _ _ _) as [i1 s1] eqn:E1. apply settle_request_shape in E1 as [v ->].
  set (s2 := if _ && _ then _ else set_invites v _).
  assert (∃ v, s2 = set_invites v (log_act ch u date LogJoin (put_member ch u m s))) as [v' E2].
  { unfold s2. case_match; by eexists. }
  set (s3 := refreshChannelCountsLocked ch s2).
  assert (store_ok s3 ∧ memberOf ch u s3 = Some m) as [Hs3 Hm3].
  { unfold s3. rewrite E2. split.
    - apply (store_ok_invites v' (refreshChannelCountsLocked ch (log_act ch u date LogJoin (put_member ch u m s)))).
      destruct (newcomer_ok ch c (membersOf ch s) u m _ _ _ Hk Ho Hn) as (G1 & G2 & _); [done| |].
      { intros x Hx. unfold memberOf in Ha. rewrite Hx in Ha. cbn in Ha. by standing_facts. }
      eapply refresh_member_ok; [done|done|apply log_act_equiv|done|done].
    - change (memberOf ch u (log_act ch u date LogJoin (put_member ch u m s)) = Some m).
      rewrite (memberOf_proper ch u _ _ (log_act_equiv _ _ _ _ _)). apply memberOf_put_member. }
  destruct (announce _ _ _ _ _ _ s3) as [[msg c4] s4] eqn:E. cbn [snd].
  pose proof (announce_core _ _ _ _ _ _ _ _ _ _ E) as (_ & Em & _).
  eapply announce_written in E as [Hs4 _]; [|done|unfold channelOf, s3, refreshChannelCountsLocked; cbn; by rewrite lookup_insert_eq].
  apply store_ok_importers. rewrite upsert_equiv. apply store_ok_same with m; [done| |done].
  unfold memberOf, membersOf. by rewrite Em.
Qed.

Lemma deletePendingInviteImporterLocked_ok i u s : store_ok s → store_ok (deletePendingInviteImporterLocked i u s).
Proof.
  intros Hs. unfold deletePendingInviteImporterLocked.
  repeat (case_match; try done); repeat first [apply store_ok_invites|apply store_ok_importers]; done.
Qed.

Lemma usable_invite_OK hash date s c i : usable_invite hash date s = OK (c, i) →
  invites s !! TrimSpace hash = Some i ∧ iv_Revoked i = false ∧ channels s !! iv_ChannelID i = Some c.
Proof.
  unfold usable_invite. destruct (invites s !! TrimSpace hash) as [x|]; [|done]. destruct (iv_Revoked x) eqn:Hr; [done|].
  destruct (_ && _); [done|]. destruct (channels s !! _) as [y|] eqn:Hc; [|done]. destruct (ch_Deleted y); [done|].
  by intros [= -> ->].
Qed.

Lemma ImportInvite_ok tick u hash date s : store_ok s → store_ok (ImportInvite tick u hash date s).2.
Proof.
  intros Hs. unfold ImportInvite. destruct (_ || _); [done|]. destruct (usable_invite hash date s) as [[c i]|] eqn:E; [|done].
  apply usable_invite_OK in E as (_ & _ & Hc). destruct (iv_RequestNeeded i).
  - unfold recordPendingInviteRequestLocked. repeat case_match; simplify_eq; cbn; try done;
      by apply (store_ok_invites _ (put_importer _ _ _ s)), store_ok_importers.
  - apply approve_ok; [done|]. by destruct (so_rooms s Hs _ c Hc) as [-> _ _].
Qed.

Lemma invite_admin_OK actor ch s c : invite_admin actor ch s = OK c →
  ∃ m, channelAndMemberLocked actor ch s = OK (c, m) ∧ canExportChannelInvite m = true.
Proof.
  unfold invite_admin. destruct (channelAndMemberLocked actor ch s) as [[x m]|]; [|done].
  destruct (canExportChannelInvite m) eqn:E; [|done]. intros [= ->]. by exists m.
Qed.

Lemma invite_admin_row actor ch s c : store_ok s → invite_admin actor ch s = OK c → channels s !! ch_ID c = Some c ∧ ch_ID c = ch.
Proof.
  intros Hs (m & (Hc & _)%channelAndMemberLocked_OK & _)%invite_admin_OK. destruct (so_rooms s Hs ch c Hc) as [E _ _]. by rewrite E.
Qed.

Lemma HideChatJoinRequest_ok tick actor ch target approved date s :
  store_ok s → store_ok (HideChatJoinRequest tick actor ch target approved date s).2.
Proof.
  intros Hs. unfold HideChatJoinRequest. destruct (_ || _); [done|]. destruct (invite_admin _ _ s) as [c|] eqn:E; [|done].
  destruct (importersOf ch s !! target) as [im|]; [|done]. destruct (negb _); [done|].
  destruct (invite_of_request _ _ _ _ _) as [i|]; [|done].
  destruct (negb approved); [by apply deletePendingInviteImporterLocked_ok|].
  apply approve_ok; [done|]. by apply (invite_admin_row _ _ _ _ Hs E).
Qed.

(** The row of a channel that an approval answers with. *)
Lemma approve_answer tick c i u by_ date s r s' :
  store_ok s → channels s !! ch_ID c = Some c → approveInviteImporterLocked tick c i u by_ date s = (OK r, s') →
  store_ok s' ∧ channels s' !! ch_ID c = Some (cr_Channel r) ∧ ch_ID (cr_Channel r) = ch_ID c.
Proof.
  intros Hs Hc E. pose proof (approve_ok tick c i u by_ date s Hs Hc) as Hs'. rewrite E in Hs'. cbn in Hs'.
  assert (channels s' !! ch_ID c = Some (cr_Channel r)) as Hrow.
  { unfold approveInviteImporterLocked in E. destruct (_ && _ && _); [done|].
    rewrite (row_id c i s Hs Hc) in E. destruct (default false (is_status Active <$> _)); [done|]. destruct (default false (shut_out <$> _)); [done|].
    destruct (settle_request _ _ _ _ _) as [i1 s1]. set (s3 := refreshChannelCountsLocked _ _) in E.
    destruct (announce _ _ _ _ _ _ s3) as [[msg c4] s4] eqn:Ea. injection E as <- <-. cbn.
    pose proof (announce_core _ _ _ _ _ _ _ _ _ _ Ea) as (E4 & _ & _ & _ & _ & ->).
    case_match; [by rewrite lookup_insert_eq|]. rewrite E4. unfold channelOf, s3, refreshChannelCountsLocked; cbn.
    by rewrite lookup_insert_eq. }
  split_and!; [done|done|]. by destruct (so_rooms s' Hs' _ _ Hrow).
Qed.

Lemma deletePending_channels i u s : channels (deletePendingInviteImporterLocked i u s) = channels s.
Proof. unfold deletePendingInviteImporterLocked. by repeat case_match. Qed.

Lemma hide_each_ok n tick actor ch approved date c result targets s :
  store_ok s → channels s !! ch_ID c = Some c → store_ok (hide_each n tick actor ch approved date c result targets s).2.
Proof.
  revert n c result s. induction targets as [|im targets IH]; intros n c result s Hs Hc; cbn; [done|].
  destruct (invite_of_request _ _ _ _ _) as [i|]; [|done]. destruct (negb approved).
  - apply IH; [by apply deletePendingInviteImporterLocked_ok|by rewrite deletePending_channels].
  - destruct (approveInviteImporterLocked _ _ _ _ _ _ s) as [[r|e] s1] eqn:E.
    + destruct (approve_answer _ _ _ _ _ _ _ _ _ Hs Hc E) as (G1 & G2 & G3). apply IH; [done|by rewrite G3].
    + by apply approve_err in E as ->.
Qed.

Lemma HideAllChatJoinRequests_ok tick req s : store_ok s → store_ok (HideAllChatJoinRequests tick req s).2.
Proof.
  intros Hs. unfold HideAllChatJoinRequests. destruct (_ || _); [done|]. destruct (invite_admin _ _ s) as [c|] eqn:E; [|done].
  destruct (if bool_decide _ then _ else _); [|done]. set (targets := take _ _).
  pose proof (hide_each_ok 10 tick (hj_UserID req) (hj_ChannelID req) (hj_Approved req) (hj_Date req) c None targets s Hs) as Hh.
  destruct (hide_each _ _ _ _ _ _ _ _ _ s) as [[[c' [r|]]|e] s1]; cbn in *.
  - destruct (ch_ID (cr_Channel r) =? 0); apply Hh, (invite_admin_row _ _ _ _ Hs E).
  - apply Hh, (invite_admin_row _ _ _ _ Hs E).
  - apply Hh, (invite_admin_row _ _ _ _ Hs E).
Qed.
End operations.
