(* ===== verification/ChannelsRun.v ===== *)
(** The store of channels as a machine: its operations, and what each does to the
    rows of the members. *)

From S2P Require Import Prelude GoStrings Channels ChannelMembers ChannelInvites ChannelsInv ChannelsOps ChannelsSteps ChannelsLinks.

Open Scope Z_scope.

#[local] Set Default Proof Using "Type".

Implicit Types (s : ChannelStore) (c : Channel) (m : ChannelMember) (i : ChannelInvite) (ch u actor date : Z) (tick : list nat).

Inductive channel_op :=
  | OpCreate (req : CreateChannelRequest)
  | OpJoin (ch u date : Z)
  | OpLeave (ch u date : Z)
  | OpEditAdmin (req : EditChannelAdminRequest)
  | OpTransfer (actor ch u date : Z)
  | OpEditRank (actor ch u : Z) (rank : string) (date : Z)
  | OpEditBanned (actor ch u : Z) (bans : ChannelBannedRights) (date : Z)
  | OpDefaultBans (actor ch : Z) (bans : ChannelBannedRights)
  | OpHideParticipants (actor ch : Z) (enabled : bool)
  | OpJoinToSend (actor ch : Z) (enabled : bool)
  | OpJoinRequest (actor ch : Z) (enabled : bool)
  | OpDelete (actor ch : Z)
  | OpInvite (ch inviter : Z) (users : list Z) (date : Z)
  | OpExport (req : ExportChannelInviteRequest)
  | OpEnsureLink (ch admin date : Z)
  | OpEditLink (req : EditChannelInviteRequest)
  | OpDeleteLink (actor ch : Z) (hash : string)
  | OpDeleteRevoked (actor ch admin limit : Z)
  | OpImport (u : Z) (hash : string) (date : Z)
  | OpHideRequest (actor ch target : Z) (approved : bool) (date : Z)
  | OpHideAllRequests (req : HideChannelJoinRequestsRequest).

Definition outcome {A} (x : res channel_error A * ChannelStore) : option channel_error * ChannelStore :=
  (match x.1 with OK _ => None | ERR e => Some e end, x.2).

Section run.
Context `{!ChannelEnvironment}.

Definition perform tick (o : channel_op) s : option channel_error * ChannelStore :=
  match o with
  | OpCreate req => outcome (CreateChannel tick req s)
  | OpJoin ch u date => outcome (JoinChannel tick ch u date s)
  | OpLeave ch u date => outcome (LeaveChannel tick ch u date s)
  | OpEditAdmin req => outcome (EditChannelAdmin tick req s)
  | OpTransfer actor ch u date => outcome (TransferChannelOwnership tick actor ch u date s)
  | OpEditRank actor ch u rank date => outcome (EditChannelMemberRank tick actor ch u rank date s)
  | OpEditBanned actor ch u bans date => outcome (EditChannelBanned tick actor ch u bans date s)
  | OpDefaultBans actor ch bans => outcome (EditChannelDefaultBannedRights actor ch bans s)
  | OpHideParticipants actor ch enabled => outcome (SetParticipantsHidden actor ch enabled s)
  | OpJoinToSend actor ch enabled => outcome (SetJoinToSend actor ch enabled s)
  | OpJoinRequest actor ch enabled => outcome (SetJoinRequest actor ch enabled s)
  | OpDelete actor ch => outcome (DeleteChannel tick actor ch s)
  | OpInvite ch inviter users date => outcome (InviteToChannel tick ch inviter users date s)
  | OpExport req => outcome (ExportInvite tick req s)
  | OpEnsureLink ch admin date => outcome (EnsurePermanentInvite tick ch admin date s)
  | OpEditLink req => outcome (EditExportedInvite tick req s)
  | OpDeleteLink actor ch hash => outcome (DeleteExportedInvite actor ch hash s)
  | OpDeleteRevoked actor ch admin limit => outcome (DeleteRevokedExportedInvites tick actor ch admin limit s)
  | OpImport u hash date => outcome (ImportInvite tick u hash date s)
  | OpHideRequest actor ch target approved date => outcome (HideChatJoinRequest tick actor ch target approved date s)
  | OpHideAllRequests req => outcome (HideAllChatJoinRequests tick req s)
  end.

(** A sequence of requests, the n-th of them at the moment [[n]]. *)
Fixpoint run_ops (n : nat) (ops : list channel_op) s : ChannelStore :=
  match ops with
  | [] => s
  | o :: ops => run_ops (S n) ops (perform [n] o s).2
  end.

Lemma perform_ok tick o s : store_ok s → store_ok (perform tick o s).2.
Proof.
  intros Hs. destruct o; cbn [perform outcome snd].
  - by apply CreateChannel_ok.
  - by apply JoinChannel_ok.
  - by apply LeaveChannel_ok.
  - by apply EditChannelAdmin_ok.
  - by apply TransferChannelOwnership_ok.
  - by apply EditChannelMemberRank_ok.
  - by apply EditChannelBanned_ok.
  - by apply edit_channel_ok.
  - by apply edit_channel_ok.
  - by apply edit_channel_ok.
  - by apply edit_channel_ok.
  - by apply DeleteChannel_ok.
  - by apply InviteToChannel_ok.
  - by apply ExportInvite_ok.
  - by apply EnsurePermanentInvite_ok.
  - by apply EditExportedInvite_ok.
  - by apply DeleteExportedInvite_ok.
  - by apply DeleteRevokedExportedInvites_ok.
  - by apply ImportInvite_ok.
  - by apply HideChatJoinRequest_ok.
  - by apply HideAllChatJoinRequests_ok.
Qed.

(** * What happens to the rows

    [entered s s']: rows of the users in between who came in by themselves or by
    an approval.  The other operations write one or two rows. *)

Definition entered s s' : Prop := ∀ ch u, memberOf ch u s' = memberOf ch u s ∨
  ∃ m, plain_row ch u m ∧ memberOf ch u s' = Some m ∧ ∀ x, memberOf ch u s = Some x → cm_Status x ≠ Active ∧ shut_out x = false.

Definition wrote ch u m s s' : Prop := members s' = members (put_member ch u m s).

Lemma entered_refl s s' : members s' = members s → entered s s'.
Proof. intros E ch u. left. unfold memberOf, membersOf. by rewrite E. Qed.

Lemma entered_one ch u m s s' :
  wrote ch u m s s' → plain_row ch u m → (∀ x, memberOf ch u s = Some x → cm_Status x ≠ Active ∧ shut_out x = false) → entered s s'.
Proof.
  intros E Hm Hx ch' u'. assert (memberOf ch' u' s' = memberOf ch' u' (put_member ch u m s)) as -> by (unfold memberOf, membersOf; by rewrite E).
  rewrite memberOf_put_member_cases. case_decide as Hd; [|by left]. destruct Hd as [-> ->]. right. by exists m.
Qed.

Lemma entered_trans s1 s2 s3 : entered s1 s2 → entered s2 s3 → entered s1 s3.
Proof.
  intros H1 H2 ch u. destruct (H2 ch u) as [-> | (m & Hm & E & Hx)]; [apply H1|]. right. exists m. split_and!; [done..|].
  intros x Hx1. destruct (H1 ch u) as [E1|(m1 & Hm1 & E1 & _)]; [apply Hx; by rewrite E1|].
  destruct (Hx m1 E1) as [Hn _]. destruct Hm1 as (_ & _ & _ & ? & _). done.
Qed.

Lemma wrote_cases ch u m s s' ch' u' : wrote ch u m s s' →
  memberOf ch' u' s' = if decide (ch' = ch ∧ u' = u) then Some m else memberOf ch' u' s.
Proof. intros E. rewrite <- memberOf_put_member_cases. unfold memberOf, membersOf. by rewrite E. Qed.

Lemma JoinChannel_rows tick ch u date s : store_ok s → entered s (JoinChannel tick ch u date s).2.
Proof.
  intros Hs. unfold JoinChannel. destruct (channels s !! ch) as [c|] eqn:Hc; [|by apply entered_refl].
  destruct (ch_Deleted c); [by apply entered_refl|]. destruct (ch_Monoforum c); [by apply entered_refl|].
  destruct (default false (is_status Active <$> memberOf ch u s)) eqn:Ha; [by apply entered_refl|].
  destruct (default false (shut_out <$> memberOf ch u s)) eqn:Ho; [by apply entered_refl|].
  destruct (ch_JoinRequest c).
  { unfold recordPublicJoinRequestLocked. apply entered_refl. by repeat case_match; simplify_eq. }
  destruct (so_rooms s Hs ch c Hc) as [Hid Hok _].
  assert (∀ x, memberOf ch u s = Some x → cm_Status x ≠ Active ∧ shut_out x = false) as Hx.
  { intros x Hx. rewrite Hx in Ha, Ho. cbn in Ha, Ho. by standing_facts. }
  set (m := joined_member c ch u date (memberOf ch u s)).
  assert (plain_row ch u m) as Hm by by (apply (joined_member_plain ch c (membersOf ch s)); [done|done|]; intros x Hmx; apply Hx).
  destruct (announce _ _ _ _ _ _ _) as [[msg c2] s2] eqn:E. cbn [snd].
  apply (entered_one ch u (read_up_to c2 msg m)); [|done|done].
  destruct (announce_core _ _ _ _ _ _ _ _ _ _ E) as (_ & Em & _). unfold wrote.
  assert (members s2 = members (put_member ch u m s)) as Em2.
  { rewrite Em. etrans; [apply members_proper, log_act_equiv|done]. }
  unfold upsertChannelDialogLocked, set_dialogs, put_member at 1; cbn. unfold membersOf at 1. rewrite Em2. cbn.
  rewrite lookup_insert_eq, insert_insert_eq. cbn. unfold membersOf. by rewrite insert_insert_eq.
Qed.

Lemma approve_rows tick c i u by_ date s : entered s (approveInviteImporterLocked tick c i u by_ date s).2.
Proof.
  destruct (approveInviteImporterLocked tick c i u by_ date s) as [[r|e] s'] eqn:E; cbn [snd].
  - destruct (approve_effect _ _ _ _ _ _ _ _ _ E) as (_ & Hx & m & Hm & Em). by eapply entered_one.
  - apply approve_err in E as ->. by apply entered_refl.
Qed.

Lemma ImportInvite_rows tick u hash date s : entered s (ImportInvite tick u hash date s).2.
Proof.
  unfold ImportInvite. destruct (_ || _); [by apply entered_refl|]. destruct (usable_invite _ _ _) as [[c i]|]; [|by apply entered_refl].
  destruct (iv_RequestNeeded i); [|apply approve_rows]. apply entered_refl. unfold recordPendingInviteRequestLocked.
  by repeat case_match; simplify_eq.
Qed.

Lemma deletePending_members i u s : members (deletePendingInviteImporterLocked i u s) = members s.
Proof. unfold deletePendingInviteImporterLocked. by repeat case_match. Qed.

Lemma HideChatJoinRequest_rows tick actor ch target approved date s :
  entered s (HideChatJoinRequest tick actor ch target approved date s).2.
Proof.
  unfold HideChatJoinRequest. destruct (_ || _); [by apply entered_refl|]. destruct (invite_admin _ _ _); [|by apply entered_refl].
  destruct (importersOf ch s !! target) as [im|]; [|by apply entered_refl]. destruct (negb _); [by apply entered_refl|].
  destruct (invite_of_request _ _ _ _ _); [|by apply entered_refl].
  destruct (negb approved); [|apply approve_rows]. apply entered_refl, deletePending_members.
Qed.

Lemma hide_each_rows n tick actor ch approved date c result targets s :
  entered s (hide_each n tick actor ch approved date c result targets s).2.
Proof.
  revert n c result s. induction targets as [|im targets IH]; intros n c result s; cbn; [by apply entered_refl|].
  destruct (invite_of_request _ _ _ _ _) as [i|]; [|by apply entered_refl]. destruct (negb approved).
  - eapply entered_trans; [|apply IH]. apply entered_refl, deletePending_members.
  - pose proof (approve_rows (n :: tick) c i (im_UserID im) actor date s) as Ha.
    destruct (approveInviteImporterLocked _ _ _ _ _ _ s) as [[r|e] s1]; cbn in *; [|done]. by eapply entered_trans; [|apply IH].
Qed.

Lemma HideAllChatJoinRequests_rows tick req s : entered s (HideAllChatJoinRequests tick req s).2.
Proof.
  unfold HideAllChatJoinRequests. destruct (_ || _); [by apply entered_refl|]. destruct (invite_admin _ _ _) as [c|]; [|by apply entered_refl].
  destruct (if bool_decide _ then _ else _); [|by apply entered_refl]. set (targets := take _ _).
  pose proof (hide_each_rows 10 tick (hj_UserID req) (hj_ChannelID req) (hj_Approved req) (hj_Date req) c None targets s) as Hh.
  destruct (hide_each _ _ _ _ _ _ _ _ _ s) as [[[c' [r|]]|e] s1]; cbn in *; [by case_match|done|done].
Qed.

(** Operations that write no row. *)
Lemma other_rows tick o s :
  match o with
  | OpDefaultBans _ _ _ | OpHideParticipants _ _ _ | OpJoinToSend _ _ _ | OpJoinRequest _ _ _ | OpDelete _ _ | OpExport _
  | OpEnsureLink _ _ _ | OpEditLink _ | OpDeleteLink _ _ _ | OpDeleteRevoked _ _ _ _ => members (perform tick o s).2 = members s
  | _ => True
  end.
Proof.
  destruct o; try done; cbn [perform outcome snd];
    unfold EditChannelDefaultBannedRights, SetParticipantsHidden, SetJoinToSend, SetJoinRequest, edit_channel, DeleteChannel,
      ExportInvite, EnsurePermanentInvite, EditExportedInvite, DeleteExportedInvite, DeleteRevokedExportedInvites,
      refreshChannelHasLinkLocked, setChannelHasLinkLocked;
    repeat (case_match; simplify_eq; try done).
Qed.

End run.
