(* ===== verification/ChannelsRights.v ===== *)
(** Who may change the standing of whom: administrators' rights are passed on
    only by those who hold them, and who is shut out is let in only by an
    administrator. *)

From S2P Require Import Prelude GoStrings Channels ChannelMembers ChannelInvites ChannelsInv ChannelsOps ChannelsSteps ChannelsLinks.
From S2P Require Import ChannelsRun.

Open Scope Z_scope.

#[local] Set Default Proof Using "Type".

Implicit Types (s : ChannelStore) (c : Channel) (m : ChannelMember) (ch u actor date : Z) (tick : list nat)
  (r : ChannelAdminRights → bool).

(** * Rights *)

(** Having a right: as an active owner or administrator. *)
Definition has_right r m : bool := is_status Active m && (is_role RoleCreator m || (is_role RoleAdmin m && r (cm_AdminRights m))).

Definition holds r ch u s : Prop := ∃ m, memberOf ch u s = Some m ∧ has_right r m = true.

Definition owns ch u s : Prop := ∃ m, memberOf ch u s = Some m ∧ owner_row m.

(** The rights that [adminRightsSubset] looks at. *)
Definition checked_rights : list (ChannelAdminRights → bool) :=
  [ar_ChangeInfo; ar_PostMessages; ar_EditMessages; ar_DeleteMessages; ar_PostStories; ar_EditStories; ar_DeleteStories;
   ar_BanUsers; ar_InviteUsers; ar_PinMessages; ar_AddAdmins; ar_ManageCall; ar_Anonymous; ar_ManageRanks;
   ar_ManageDirectMessages].

Section granting.
Context `{!ChannelEnvironment}.

(** How a right may come to the member [u] by a request that leads from [s] to
    [s']: from an administrator who holds it and may appoint others; or with the
    ownership, which the owner transfers or leaves to the successor, and which
    the founder of a channel gets. *)
Inductive granted tick r ch u s s' : channel_op → Prop :=
  | granted_by_admin req :
      ea_ChannelID req = ch → ea_MemberID req = u → holds r ch (ea_UserID req) s → holds ar_AddAdmins ch (ea_UserID req) s →
      granted tick r ch u s s' (OpEditAdmin req)
  | granted_by_transfer actor date : owns ch actor s → owns ch u s' → granted tick r ch u s s' (OpTransfer actor ch u date)
  | granted_by_succession actor date x :
      owns ch actor s → futureCreatorAfterLeaveLocked (2%nat :: tick) ch actor s = OK x → cm_UserID x = u → owns ch u s' →
      granted tick r ch u s s' (OpLeave ch actor date)
  | granted_by_creation req :
      ch = nextID s → u = rq_CreatorUserID req → owns ch u s' → granted tick r ch u s s' (OpCreate req).
End granting.

Lemma has_right_standing r m m' : same_standing m m' → has_right r m' = has_right r m.
Proof. unfold has_right, is_status, is_role. by intros (_ & _ & -> & -> & -> & _). Qed.

Lemma has_right_plain r ch u m : plain_row ch u m → has_right r m = false.
Proof. unfold has_right, is_role. intros (_ & _ & -> & _). by rewrite andb_false_r. Qed.

Lemma has_right_inactive r m : cm_Status m ≠ Active → has_right r m = false.
Proof. unfold has_right. by intros ->%is_status_false. Qed.

Lemma has_right_member r m : cm_Role m = RoleMember → has_right r m = false.
Proof. unfold has_right, is_role. intros ->. by rewrite andb_false_r. Qed.

Lemma has_right_owner r m : owner_row m → has_right r m = true.
Proof. unfold has_right, is_role, is_status. by intros (-> & -> & _). Qed.

Lemma subset_checked r want have : r ∈ checked_rights → adminRightsSubset want have = true → r want = true → r have = true.
Proof.
  intros Hr Hs Hw. unfold adminRightsSubset in Hs.
  repeat match goal with H : _ && _ = true |- _ => apply andb_true_iff in H as [H ?] end.
  assert (∀ b b', negb b || b' = true → b = true → b' = true) as Himp by by intros [] [].
  unfold checked_rights in Hr. repeat (apply elem_of_cons in Hr as [->|Hr]; [by eauto|]). by apply elem_of_nil in Hr.
Qed.

Lemma normalized_checked r c want have :
  r ∈ checked_rights → adminRightsSubset want have = true → NormalizeFullMegagroupAdminRights c have = have →
  r (NormalizeFullMegagroupAdminRights c want) = true → r have = true.
Proof.
  intros Hr Hs Hn. destruct (r want) eqn:Hw; [by intros; eapply subset_checked|].
  unfold NormalizeFullMegagroupAdminRights. destruct (_ && ar_ManageCall want) eqn:Hall; [|by rewrite Hw]. intros Hg.
  assert (r = ar_ManageRanks) as ->.
  { unfold checked_rights in Hr. repeat (apply elem_of_cons in Hr as [->|Hr]; [first [done|cbn in Hg; congruence]|]).
    by apply elem_of_nil in Hr. }
  unfold NormalizeFullMegagroupAdminRights in Hn.
  repeat match goal with H : _ && _ = true |- _ => apply andb_true_iff in H as [H ?] end.
  assert (∀ q, q ∈ checked_rights → q want = true → q have = true) as Hq by by intros; eapply subset_checked.
  rewrite (Hq ar_ChangeInfo), (Hq ar_DeleteMessages), (Hq ar_BanUsers), (Hq ar_InviteUsers), (Hq ar_PinMessages),
    (Hq ar_AddAdmins), (Hq ar_ManageCall) in Hn by first [done|unfold checked_rights; repeat first [apply list_elem_of_here|apply list_elem_of_further]].
  assert (ch_Megagroup c && negb (ch_Broadcast c) = true) as Hc by (apply andb_true_iff; split; done).
  rewrite Hc in Hn. cbn in Hn. rewrite <- Hn. done.
Qed.

Lemma members_refresh ch s : members (refreshChannelCountsLocked ch s) = members s.
Proof. done. Qed.

Lemma members_log ch u date ty p n s : members (log_change ch u date ty p n s) = members s.
Proof. apply members_proper, log_change_equiv. Qed.

Lemma members_dialog u ch s : members (refresh_dialog u ch s) = members s.
Proof. apply members_proper, refresh_dialog_equiv. Qed.

Section operations.
Context `{!ChannelEnvironment}.

(** * Rows that administrators and leavers write *)

Lemma LeaveChannel_rows tick ch u date s : store_ok s → let s' := (LeaveChannel tick ch u date s).2 in
  members s' = members s ∨ ∃ c m, channelAndMemberLocked u ch s = OK (c, m) ∧
    (wrote ch u (with_status Left date m) s s'
     ∨ owner_row m ∧ ∃ x, futureCreatorAfterLeaveLocked (2%nat :: tick) ch u s = OK x
       ∧ members s' = members (put_member ch u (with_status Left date (with_standing RoleMember no_rights "" m))
                                (put_member ch (cm_UserID x) (succeed x) s))).
Proof.
  intros Hs. unfold LeaveChannel. destruct (channelAndMemberLocked u ch s) as [[c m]|e] eqn:Hacc; [|by left].
  destruct (acting_member _ _ _ _ _ Hs Hacc) as (Hc & Hm & Ha & Hsh & Hu).
  destruct (hand_over tick c m ch u s) as [[[[[c1 m1] heirs] delta] s1]|e] eqn:Hh; [|by left].
  right. exists c, m. split; [done|].
  set (c2 := one_less _ c1). set (s2 := log_act _ _ _ _ _).
  destruct (announce _ _ _ _ _ c2 s2) as [[msg c3] s3] eqn:E. cbn [snd].
  destruct (announce_core _ _ _ _ _ _ _ _ _ _ E) as (_ & Em & _). unfold wrote. cbn. rewrite Em.
  assert (members s2 = members (put_member ch u (with_status Left date m1) s1)) as ->.
  { apply members_proper. unfold s2. by rewrite log_act_equiv, clear_mentions_equiv. }
  unfold hand_over in Hh. destruct (_ || is_role RoleCreator m) eqn:Hr.
  - destruct (negb _ || negb _) eqn:Hr'; [done|]. destruct (futureCreatorAfterLeaveLocked _ ch u s) as [x|] eqn:Hx; [|done].
    injection Hh as <- <- <- <- <-. right. bool_facts. standing_facts. split; [|by exists x].
    unfold owner_row. unfold shut_out in Hsh. by bool_facts.
  - injection Hh as <- <- <- <- <-. by left.
Qed.

Lemma EditChannelAdmin_rows tick req s : store_ok s → let s' := (EditChannelAdmin tick req s).2 in
  let ch := ea_ChannelID req in let u := ea_MemberID req in
  members s' = members s ∨ ∃ c m, channelAndMemberLocked (ea_UserID req) ch s = OK (c, m) ∧ canAddChannelAdmins m = true ∧
    ((u = ea_UserID req ∧ cm_Role m = RoleCreator ∧ ∃ m', cm_Role m' = RoleCreator ∧ wrote ch u m' s s')
     ∨ (cm_Role m = RoleCreator ∨ adminRightsSubset (ea_AdminRights req) (cm_AdminRights m) = true)
       ∧ wrote ch u (administered c req (default (promoted_unknown c ch u (ea_UserID req) (ea_Date req)) (memberOf ch u s))) s s').
Proof.
  intros Hs. unfold EditChannelAdmin. destruct (_ || _); [by left|].
  destruct (channelAndMemberLocked _ _ s) as [[c m]|e] eqn:Hacc; [|by left].
  destruct (canAddChannelAdmins m) eqn:Hadd; [|by left]. cbn [negb].
  set (ch := ea_ChannelID req). set (u := ea_MemberID req). set (previous := default _ _).
  destruct (is_role RoleCreator previous) eqn:Hr.
  - destruct (negb (u =? ea_UserID req) || _ || _) eqn:Hself; [by left|]. right. exists c, m. split_and!; [done..|]. left.
    bool_facts. standing_facts. cbn [snd]. split_and!; [done..|]. eexists. split; [|unfold wrote; by rewrite members_refresh, members_log]. done.
  - destruct (negb (is_role RoleCreator m) && _) eqn:Hsub; [by left|]. right. exists c, m. split_and!; [done..|]. right. split.
    + bool_facts. destruct Hsub as [Hsub|Hsub]; bool_facts; standing_facts; auto.
    + cbn [snd]. unfold wrote. by rewrite members_dialog, members_refresh, members_log.
Qed.

Lemma TransferChannelOwnership_rows tick actor ch u date s : store_ok s →
  let s' := (TransferChannelOwnership tick actor ch u date s).2 in
  members s' = members s ∨ ∃ c m x, channelAndMemberLocked actor ch s = OK (c, m) ∧ owner_row m
    ∧ memberOf ch u s = Some x ∧ cm_Status x = Active ∧ br_ViewMessages (cm_BannedRights x) = false
    ∧ members s' = members (put_member ch u (enthroned date x) (put_member ch actor (retired actor m) s)).
Proof.
  intros Hs. unfold TransferChannelOwnership. destruct (_ || _); [by left|].
  destruct (channelAndMemberLocked _ _ s) as [[c m]|e] eqn:Hacc; [|by left].
  destruct (acting_member _ _ _ _ _ Hs Hacc) as (Hc & Hm & Ha & Hsh & Hu).
  destruct (negb (ch_CreatorUserID c =? actor) || _) eqn:Hown; [by left|]. destruct (memberOf ch u s) as [x|] eqn:Hx; [|by left].
  destruct (negb (is_status Active x) || _) eqn:Hxa; [by left|]. destruct (is_role RoleCreator x); [by left|]. right. exists c, m, x.
  bool_facts. standing_facts. split_and!; try done; [unfold shut_out in Hsh; by bool_facts|]. cbn [snd].
  by rewrite !members_dialog, members_refresh, !members_log.
Qed.

Lemma EditChannelMemberRank_rows tick actor ch u rank date s : let s' := (EditChannelMemberRank tick actor ch u rank date s).2 in
  members s' = members s ∨ ∃ x, memberOf ch u s = Some x ∧ wrote ch u (with_rank rank x) s s'.
Proof.
  unfold EditChannelMemberRank. destruct (_ || _); [by left|]. destruct (channelAndMemberLocked _ _ s) as [[c m]|e]; [|by left].
  destruct (memberOf ch u s) as [x|]; [|by left]. destruct (negb _); [by left|]. destruct (checkEditMemberRank _ _ _); [|by left].
  right. exists x. split; [done|]. cbn [snd]. unfold wrote. by rewrite (members_proper _ _ (append_log_equiv _ _ _ _ _ _ _ _)).
Qed.

Lemma EditChannelBanned_rows tick actor ch u bans date s : let s' := (EditChannelBanned tick actor ch u bans date s).2 in
  members s' = members s ∨ ∃ c m m', channelAndMemberLocked actor ch s = OK (c, m) ∧ canBanChannelUsers m = true
    ∧ cm_Role m' = RoleMember ∧ wrote ch u m' s s'.
Proof.
  unfold EditChannelBanned. destruct (_ || _); [by left|].
  destruct (channelAndMemberLocked _ _ s) as [[c m]|e] eqn:Hacc; [|by left].
  destruct (canBanChannelUsers m) eqn:Hban; [|by left]. cbn [negb]. set (previous := default _ _).
  destruct (is_role RoleCreator previous); [by left|]. right. set (m' := restrict actor bans date previous).
  exists c, m, m'. split_and!; [done..| |].
  { unfold m', restrict. by repeat case_match. }
  set (s1 := refreshChannelCountsLocked ch _). set (s2 := if is_status Active m' then _ else s1). set (s3 := if _ && _ then _ else s2).
  destruct (announce _ _ _ _ _ _ s3) as [[msg c3] s4] eqn:E. cbn [snd]. unfold wrote.
  destruct (announce_core _ _ _ _ _ _ _ _ _ _ E) as (_ & -> & _).
  assert (s3 ≡ s1) as E3.
  { unfold s3. case_match; rewrite ?clear_mentions_equiv; unfold s2; case_match; by rewrite ?refresh_dialog_equiv. }
  rewrite (members_proper _ _ E3). unfold s1. by rewrite members_refresh, members_log.
Qed.

Definition invited_row (us : list Z) (can : bool) ch s (acc : Z * list ChannelMember * ChannelStore) : Prop := ∀ ch' u,
  memberOf ch' u acc.2 = memberOf ch' u s ∨
  (ch' = ch ∧ u ∈ us ∧ ∃ m, plain_row ch u m ∧ memberOf ch u acc.2 = Some m
    ∧ ∀ x, memberOf ch u s = Some x → cm_Status x ≠ Active ∧ (shut_out x = false ∨ can = true)).

Lemma invite_each_rows c inviter date can one ch s acc all us acc' :
  us ⊆ all → invited_row all can ch s acc → invite_each c inviter date can one ch acc us = OK acc' → invited_row all can ch s acc'.
Proof.
  revert acc. induction us as [|u us IH]; intros acc Hall Hi; cbn; [by intros [= <-]|].
  destruct (invite_one _ _ _ _ _ _ acc u) as [acc1|] eqn:E; [|done]. apply IH; [set_solver|].
  assert (u ∈ all) as Hu by set_solver.
  destruct acc as [[restored added] s1]. unfold invite_one in E. set (m := promoted_unknown c ch u inviter date) in E.
  assert (∀ k, (∀ x, memberOf ch u s1 = Some x → cm_Status x ≠ Active ∧ (shut_out x = false ∨ can = true)) →
    invited_row all can ch s (k, added ++ [m], appendChannelAdminLogLocked ch inviter date LogInvite ("", "") None (Some m) (put_member ch u m s1)))
    as Hadd.
  { intros k Hx ch' v. cbn [snd]. rewrite (memberOf_proper ch' v _ _ (append_log_equiv _ _ _ _ _ _ _ _)), memberOf_put_member_cases.
    case_decide as Hd; [|rewrite (memberOf_proper ch v _ _ (append_log_equiv _ _ _ _ _ _ _ _)), memberOf_put_member_cases].
    - destruct Hd as [-> ->]. right. split_and!; [done..|]. exists m.
      rewrite (memberOf_proper ch u _ _ (append_log_equiv _ _ _ _ _ _ _ _)), memberOf_put_member. split_and!; [done..|].
      intros x Hsx. destruct (Hi ch u) as [E1|(_ & _ & m1 & Hm1 & E1 & H1)]; cbn in E1; [apply Hx; by rewrite E1|].
      by apply H1.
    - destruct (Hi ch' v) as [?|(-> & Hv & m1 & Hm1 & E1 & H1)]; [by left|]. right. split_and!; [done..|]. exists m1.
      case_decide; [naive_solver|]. done. }
  destruct (memberOf ch u s1) as [x|] eqn:Hx.
  - destruct (is_status Active x) eqn:Ha; [destruct one; [done|]; by injection E as <-|]. standing_facts.
    destruct (shut_out x) eqn:Hs.
    + destruct can eqn:Hcan; cbn in E; [|destruct one; [done|]; by injection E as <-].
      injection E as <-. apply Hadd. intros ? [= <-]. auto.
    + injection E as <-. apply Hadd. intros ? [= <-]. auto.
  - injection E as <-. by apply Hadd.
Qed.

Lemma uniqueNonZero_subset us exclude : uniqueNonZero us exclude ⊆ us.
Proof.
  unfold uniqueNonZero. assert (∀ l acc, l ⊆ us → acc ⊆ us →
    fold_left (λ out id, if (id =? 0) || (id =? exclude) || bool_decide (id ∈ out) then out else out ++ [id]) l acc ⊆ us) as Hfold.
  { induction l as [|x l IH]; intros acc Hl Hacc; cbn; [done|]. apply IH; [set_solver|]. case_match; set_solver. }
  apply Hfold; set_solver.
Qed.

Lemma InviteToChannel_rows tick ch inviter us date s : let s' := (InviteToChannel tick ch inviter us date s).2 in
  members s' = members s ∨ ∃ c m, channelAndMemberLocked inviter ch s = OK (c, m) ∧ invited_row us (canBanChannelUsers m) ch s (0, [], s').
Proof.
  unfold InviteToChannel. destruct (channelAndMemberLocked _ _ s) as [[c m]|e] eqn:Hacc; [|by left].
  destruct (ch_Monoforum c); [by left|]. destruct (negb _); [by left|].
  destruct (invite_each _ _ _ _ _ _ _ _) as [[[restored added] s1]|e] eqn:E; [|by left]. right. exists c, m. split; [done|].
  apply (invite_each_rows _ _ _ _ _ _ s _ us) in E; [|apply uniqueNonZero_subset|by left].
  set (c2 := if 0 <? restored then _ else _). destruct (announce _ _ _ _ _ c2 _) as [[msg c3] s3] eqn:Ea. cbn [snd].
  destruct (announce_core _ _ _ _ _ _ _ _ _ _ Ea) as (_ & Em & _).
  intros ch' u. cbn [snd]. assert (∀ v, memberOf v u (fold_left (λ s m, upsertChannelDialogLocked (cm_UserID m) c3 (fst <$> msg) false s) added s3)
    = memberOf v u s1) as Ev.
  { intros v. rewrite (memberOf_proper v u _ _ (upsert_all_equiv _ _ _ (λ m s, upsert_equiv (cm_UserID m) c3 (fst <$> msg) false s))).
    unfold memberOf, membersOf. by rewrite Em. }
  rewrite !Ev. apply E.
Qed.

Lemma CreateChannel_rows tick req s : let s' := (CreateChannel tick req s).2 in
  ∀ ch u, memberOf ch u s' = memberOf ch u s ∨
    (ch = nextID s ∧ ∀ m, memberOf ch u s' = Some m → (u = rq_CreatorUserID req ∧ owner_row m) ∨ cm_Role m = RoleMember).
Proof.
  unfold CreateChannel. destruct (_ || _); [by left|]. destruct (draw_invite tick) as [[iid hash]|]; [|by left].
  set (c0 := with_link true _). set (s1 := put_invite _ _). set (others := _ <$> _). set (creator := with_standing _ _ _ _).
  set (s3 := fold_left _ others _).
  destruct (announce _ _ _ _ _ _ s3) as [[msg c4] s4] eqn:E. cbn [snd]. intros ch u.
  rewrite (memberOf_proper ch u _ _ (upsert_all_equiv (λ m s, upsertChannelDialogLocked (cm_UserID m) c4 (fst <$> msg) (cm_UserID m =? rq_CreatorUserID req) s)
    (creator :: others) s4 (λ m s, upsert_equiv (cm_UserID m) c4 (fst <$> msg) (cm_UserID m =? rq_CreatorUserID req) s))).
  destruct (announce_core _ _ _ _ _ _ _ _ _ _ E) as (_ & Em & _).
  destruct (put_all_members (nextID s) others {[rq_CreatorUserID req := creator]} s1) as [E3 _].
  unfold memberOf, membersOf. rewrite Em. unfold s3. rewrite E3. destruct (decide (ch = nextID s)) as [->|Hne].
  - right. split; [done|]. intros m. rewrite lookup_insert_eq. cbn. clear E3 Em E.
    assert (∀ (l : list ChannelMember) (ms : gmap Z ChannelMember), (∀ x, x ∈ l → cm_Role x = RoleMember) →
      (∀ v x, ms !! v = Some x → (v = rq_CreatorUserID req ∧ owner_row x) ∨ cm_Role x = RoleMember) →
      ∀ v x, fold_left (λ ms m, <[cm_UserID m := m]> ms) l ms !! v = Some x →
        (v = rq_CreatorUserID req ∧ owner_row x) ∨ cm_Role x = RoleMember) as Hf.
    { induction l as [|y l IH]; intros ms Hl Hms; cbn; [done|]. apply IH; [intros; apply Hl; by right|].
      intros v x [[_ <-]|[_ Hx]]%lookup_insert_Some; [right; apply Hl; by left|by eapply Hms]. }
    apply Hf; [|by intros v x [<- <-]%lookup_singleton_Some; left; split_and!].
    intros x (v & -> & _)%list_elem_of_fmap. done.
  - left. by rewrite lookup_insert_ne.
Qed.
End operations.
