(* ===== verification/ChannelsUse.v ===== *)
(** The links of a channel: what becomes of one of them over a sequence of
    requests, and how many users it lets in. *)

From S2P Require Import Prelude GoStrings Channels ChannelMembers ChannelInvites ChannelsInv ChannelsOps ChannelsSteps ChannelsLinks.
From S2P Require Import ChannelsRun.

Open Scope Z_scope.

#[local] Set Default Proof Using "Type".

Implicit Types (s : ChannelStore) (c : Channel) (m : ChannelMember) (i : ChannelInvite) (ch u actor date : Z) (tick : list nat)
  (h : string).

(** Links are stored under their hashes. *)
Definition keyed_links s : Prop := ∀ h i, invites s !! h = Some i → iv_Hash i = h.

(** The same link later: used no less often, and no more than it allows. *)
Definition later_link i i' : Prop :=
  iv_Hash i' = iv_Hash i ∧ iv_InviteID i' = iv_InviteID i ∧ iv_UsageLimit i' = iv_UsageLimit i ∧ iv_UsageCount i ≤ iv_UsageCount i'
  ∧ (0 < iv_UsageLimit i → iv_UsageCount i ≤ iv_UsageLimit i → iv_UsageCount i' ≤ iv_UsageLimit i).

Lemma later_link_refl i : later_link i i.
Proof. by split_and!. Qed.

Lemma later_link_trans i1 i2 i3 : later_link i1 i2 → later_link i2 i3 → later_link i1 i3.
Proof.
  intros (A1 & A2 & A3 & A4 & A5) (B1 & B2 & B3 & B4 & B5). split_and!; try congruence; [lia|].
  intros Hp Hl. rewrite <- A3. apply B5; [lia|]. rewrite A3. auto.
Qed.

Section operations.
Context `{!ChannelEnvironment} (link : Z).

(** The link [h] has the id [link] to itself. *)
Definition unique_link h s : Prop := ∀ k x, invites s !! k = Some x → iv_InviteID x = link → k = h.

Definition evolves h s s' : Prop := keyed_links s → keyed_links s' ∧ (invites s !! h = None → invites s' !! h = None)
  ∧ (unique_link h s → unique_link h s') ∧ ∀ i, invites s !! h = Some i → invites s' !! h = None ∨ ∃ i', invites s' !! h = Some i' ∧ later_link i i'.

Lemma evolves_same h s s' : invites s' = invites s → evolves h s s'.
Proof.
  intros E Hk. unfold keyed_links, unique_link. rewrite E. split_and!; [done|done|done|]. intros i Hi. right. exists i. split; [done|apply later_link_refl].
Qed.

Lemma link_evolves_trans h s1 s2 s3 : evolves h s1 s2 → evolves h s2 s3 → evolves h s1 s3.
Proof.
  intros H1 H2 Hk. destruct (H1 Hk) as (K2 & N2 & U2 & L2). destruct (H2 K2) as (K3 & N3 & U3 & L3). split_and!; [done|auto|auto|].
  intros i Hi. destruct (L2 i Hi) as [?|(i2 & Hi2 & Hl2)]; [auto|]. destruct (L3 i2 Hi2) as [?|(i3 & Hi3 & Hl3)]; [auto|].
  right. exists i3. split; [done|]. by eapply later_link_trans.
Qed.

(** A link written again. *)
Lemma evolves_put h i i' s : invites s !! iv_Hash i = Some i → later_link i i' → evolves h s (put_invite i' s).
Proof.
  intros Hi Hl Hk. pose proof Hl as (E & Eid & _). unfold put_invite, keyed_links, unique_link; cbn. rewrite E. split_and!.
  - intros k x. rewrite lookup_insert_Some. intros [[<- <-]|[_ Hx]]; [done|by apply Hk].
  - intros Hn. rewrite lookup_insert_ne; [done|]. intros <-. congruence.
  - intros Hu k x. rewrite lookup_insert_Some. intros [[<- <-]|[_ Hx]]; [|by eapply Hu]. rewrite Eid. by apply Hu.
  - intros x Hx. right. destruct (decide (iv_Hash i = h)) as [<-|Hne].
    + exists i'. rewrite lookup_insert_eq. split; [done|]. by replace x with i by congruence.
    + exists x. rewrite lookup_insert_ne by done. split; [done|apply later_link_refl].
Qed.

(** A new link with another hash. *)
Lemma evolves_fresh h i s : iv_Hash i ≠ h ∧ iv_InviteID i ≠ link → evolves h s (put_invite i s).
Proof.
  intros [Hne Hid] Hk. unfold put_invite, keyed_links, unique_link; cbn. split_and!.
  - intros k x. rewrite lookup_insert_Some. intros [[<- <-]|[_ Hx]]; [done|by apply Hk].
  - by rewrite lookup_insert_ne.
  - intros Hu k x. rewrite lookup_insert_Some. intros [[<- <-]|[_ Hx]]; [done|by eapply Hu].
  - intros x Hx. right. exists x. rewrite lookup_insert_ne by done. split; [done|apply later_link_refl].
Qed.

Lemma evolves_deletes h hashes s : evolves h s (set_invites (fold_left (λ ivs k, delete k ivs) hashes (invites s)) s).
Proof.
  intros Hk. cbn.
  assert (∀ ks (ivs : gmap string ChannelInvite) k, fold_left (λ ivs k, delete k ivs) ks ivs !! k = None
    ∨ fold_left (λ ivs k, delete k ivs) ks ivs !! k = ivs !! k) as Hd.
  { induction ks as [|k' ks IH]; intros ivs k; cbn; [by right|]. destruct (IH (delete k' ivs) k) as [-> | ->]; [by left|].
    destruct (decide (k' = k)) as [->|Hne]; [left; apply lookup_delete_eq|right; by apply lookup_delete_ne]. }
  unfold keyed_links, unique_link; cbn. split_and!.
  - intros k x Hx. destruct (Hd hashes (invites s) k) as [E|E]; rewrite E in Hx; [done|by apply Hk].
  - intros Hn. destruct (Hd hashes (invites s) h) as [-> | ->]; done.
  - intros Hu k x Hx. destruct (Hd hashes (invites s) k) as [E|E]; rewrite E in Hx; [done|by eapply Hu].
  - intros x Hx. destruct (Hd hashes (invites s) h) as [-> | ->]; [by left|]. right. exists x. split; [done|apply later_link_refl].
Qed.

Lemma evolves_revokes h (f : ChannelInvite → ChannelInvite) s :
  (∀ i, later_link i (f i)) → evolves h s (set_invites (f <$> invites s) s).
Proof.
  intros Hf Hk. unfold keyed_links, unique_link; cbn. split_and!.
  - intros k x. rewrite lookup_fmap. intros (y & Hy & ->)%fmap_Some. destruct (Hf y) as (-> & _). by apply Hk.
  - intros Hn. by rewrite lookup_fmap, Hn.
  - intros Hu k x. rewrite lookup_fmap. intros (y & Hy & ->)%fmap_Some. destruct (Hf y) as (_ & -> & _). by apply Hu.
  - intros x Hx. right. exists (f x). by rewrite lookup_fmap, Hx.
Qed.

Lemma later_revoked i : later_link i (with_revoked i).
Proof. by split_and!. Qed.

Lemma later_requested n i : later_link i (with_requested n i).
Proof. by split_and!. Qed.

Lemma later_edited req i : ei_UsageLimit req = None → later_link i (edited req i).
Proof. unfold edited. intros ->. by split_and!. Qed.

Lemma later_used i : iv_UsageLimit i ≤ 0 ∨ iv_UsageCount i < iv_UsageLimit i → later_link i (with_usage (iv_UsageCount i + 1) i).
Proof. intros. split_and!; cbn; try done; lia. Qed.

(** What is asked of the random source: neither the hash of the link nor its id
    is drawn again. *)
Definition good_draw tick h : Prop := ∀ id x, draw_invite tick = Some (id, x) → x ≠ h ∧ id ≠ link.

Lemma inviteByIDLocked_OK tick ch id s i : keyed_links s → inviteByIDLocked tick ch id s = OK i →
  invites s !! iv_Hash i = Some i ∧ iv_InviteID i = id ∧ iv_ChannelID i = ch.
Proof.
  intros Hk. unfold inviteByIDLocked. destruct (List.find _ _) as [[k x]|] eqn:E; [|done]. intros [= <-].
  apply List.find_some in E as [Hin Hx]. cbn in Hx. bool_facts. apply list_elem_of_In in Hin.
  rewrite visit_invites_all in Hin. apply elem_of_map_to_list in Hin. by rewrite (Hk k x Hin).
Qed.

(** The store and the link after an approval that settles a request. *)
Lemma settle_request_links tick ch u i s i' s' h : keyed_links s → settle_request tick ch u i s = (i', s') →
  later_link i i' ∧ iv_UsageCount i' = iv_UsageCount i ∧ evolves h s s'
  ∧ (invites s !! iv_Hash i = Some i → invites s' !! iv_Hash i = Some i).
Proof.
  intros Hk. unfold settle_request.
  assert (later_link i i ∧ iv_UsageCount i = iv_UsageCount i ∧ evolves h s s
    ∧ (invites s !! iv_Hash i = Some i → invites s !! iv_Hash i = Some i)) as Hid.
  { split_and!; [apply later_link_refl|done|by apply evolves_same|done]. }
  destruct (importersOf ch s !! u) as [im|]; [|by intros [= <- <-]]. destruct (negb (im_Requested im)); [by intros [= <- <-]|].
  destruct (im_InviteID im =? iv_InviteID i) eqn:Hsame.
  { intros [= <- <-]. case_match; [|done]. split_and!; [apply later_requested|done|by apply evolves_same|done]. }
  destruct (im_InviteID im =? 0); [by intros [= <- <-]|].
  destruct (inviteByIDLocked _ _ _ _) as [p|] eqn:Hp; [|by intros [= <- <-]]. intros [= <- <-].
  apply inviteByIDLocked_OK in Hp as (Hp & Hid' & _); [|done]. case_match; [|done].
  split_and!; [apply later_link_refl|done|by apply (evolves_put _ p)|]. unfold put_invite; cbn. intros Hi.
  rewrite lookup_insert_ne; [done|]. intros E. rewrite E in Hp. bool_facts. congruence.
Qed.

Lemma approve_links tick c i u by_ date s h :
  keyed_links s → (iv_InviteID i = 0 ∨ invites s !! iv_Hash i = Some i) →
  evolves h s (approveInviteImporterLocked tick c i u by_ date s).2.
Proof.
  intros Hk Hi. unfold approveInviteImporterLocked. destruct (_ && _ && _) eqn:Hfull; [by apply evolves_same|]. apply not_full in Hfull.
  destruct (default false (is_status Active <$> _)); [by apply evolves_same|].
  destruct (default false (shut_out <$> _)); [by apply evolves_same|].
  set (ch := if ch_ID c =? 0 then _ else _). set (m := with_read _ _ _). set (s0 := log_act ch u date LogJoin (put_member ch u m s)).
  assert (invites s0 = invites s) as E0 by (etrans; [apply invites_proper, log_act_equiv|done]).
  assert (keyed_links s0) as Hk0 by (unfold keyed_links; by rewrite E0).
  destruct (settle_request _ _ _ _ _) as [i1 s1] eqn:E1.
  destruct (settle_request_links _ _ _ _ _ _ _ h Hk0 E1) as (L1 & U1 & V1 & P1). rewrite E0 in P1.
  set (s2 := if _ && _ then _ else s1).
  assert (evolves h s s2) as Hev.
  { apply link_evolves_trans with s1; [apply link_evolves_trans with s0; [by apply evolves_same|done]|].
    unfold s2. destruct (negb (iv_InviteID i1 =? 0) && negb _) eqn:Hput; [|by apply evolves_same]. bool_facts. pose proof L1 as (EH & EI & EL & _).
    destruct Hi as [Hi|Hi]; [congruence|]. rewrite EI in *.
    apply (evolves_put h i); [by apply P1|]. apply later_link_trans with i1; [done|]. apply later_used. rewrite EL, U1.
    lia. }
  destruct (announce _ _ _ _ _ _ _) as [[msg c4] s4] eqn:E. cbn [snd].
  destruct (announce_core _ _ _ _ _ _ _ _ _ _ E) as (_ & _ & Ei & _).
  apply link_evolves_trans with s2; [done|]. by apply evolves_same.
Qed.

Lemma settle_request_same tick ch u i s i' s' : settle_request tick ch u i s = (i', s') →
  iv_Hash i' = iv_Hash i ∧ iv_InviteID i' = iv_InviteID i ∧ iv_UsageCount i' = iv_UsageCount i.
Proof. unfold settle_request. intros E. by repeat (case_match; simplify_eq; cbn). Qed.

Lemma settle_request_importers tick ch u i s i' s' : settle_request tick ch u i s = (i', s') → importers s' = importers s.
Proof. unfold settle_request. intros E. by repeat (case_match; simplify_eq; cbn). Qed.

(** An entry by a link is counted. *)
Lemma approve_counts tick c i u by_ date s r s' :
  iv_InviteID i ≠ 0 → iv_Hash i ≠ "" → approveInviteImporterLocked tick c i u by_ date s = (OK r, s') →
  ∃ i', invites s' !! iv_Hash i = Some i' ∧ iv_UsageCount i' = iv_UsageCount i + 1.
Proof.
  intros Hid Hne. unfold approveInviteImporterLocked. destruct (_ && _ && _); [done|].
  destruct (default false (is_status Active <$> _)); [done|]. destruct (default false (shut_out <$> _)); [done|].
  set (ch := if ch_ID c =? 0 then _ else _). set (m := with_read _ _ _). set (s0 := log_act ch u date LogJoin (put_member ch u m s)).
  destruct (settle_request _ _ _ _ _) as [i1 s1] eqn:E1.
  destruct (settle_request_same _ _ _ _ _ _ _ E1) as (EH & EI & U1).
  rewrite EI, EH, (proj2 (Z.eqb_neq _ _) Hid), bool_decide_eq_false_2 by done. cbn [negb andb].
  destruct (announce _ _ _ _ _ _ _) as [[msg c4] s4] eqn:E. intros [= _ <-]. cbn.
  destruct (announce_core _ _ _ _ _ _ _ _ _ _ E) as (_ & _ & -> & _). cbn.
  exists (with_usage (iv_UsageCount i1 + 1) i1). rewrite EH, lookup_insert_eq. cbn. split; [done|]. by rewrite U1.
Qed.

Lemma deletePending_links i u s h : (iv_InviteID i = 0 ∨ invites s !! iv_Hash i = Some i) →
  evolves h s (deletePendingInviteImporterLocked i u s).
Proof.
  intros Hi. unfold deletePendingInviteImporterLocked. destruct (importersOf _ s !! u) as [[? ? ? ? [] ?]|]; [|by apply evolves_same..].
  destruct (negb (iv_InviteID i =? 0) && _ && _) eqn:E; [|by apply evolves_same]. bool_facts. destruct Hi as [?|Hi]; [done|].
  eapply link_evolves_trans; [|apply (evolves_put h i _ (set_importers _ s)); [exact Hi|apply later_requested]]. by apply evolves_same.
Qed.

Lemma invite_of_request_OK tick actor ch im s i : keyed_links s → invite_of_request tick actor ch im s = OK i →
  iv_InviteID i = 0 ∨ invites s !! iv_Hash i = Some i.
Proof.
  intros Hk. unfold invite_of_request. destruct (im_InviteID im =? 0); [intros [= <-]; by left|].
  intros (? & _)%inviteByIDLocked_OK; [by right|done].
Qed.

Lemma hide_each_links n tick actor ch approved date c result targets s h :
  keyed_links s → evolves h s (hide_each n tick actor ch approved date c result targets s).2.
Proof.
  revert n c result s. induction targets as [|im targets IH]; intros n c result s Hk; cbn; [by apply evolves_same|].
  destruct (invite_of_request _ _ _ _ _) as [i|] eqn:E; [|by apply evolves_same]. apply invite_of_request_OK in E; [|done].
  destruct (negb approved).
  - pose proof (deletePending_links i (im_UserID im) s h E) as Hd. eapply link_evolves_trans; [exact Hd|]. apply IH. by apply Hd.
  - pose proof (approve_links (n :: tick) c i (im_UserID im) actor date s h Hk E) as Ha.
    destruct (approveInviteImporterLocked _ _ _ _ _ _ s) as [[r|e] s1]; cbn in *; [|done].
    eapply link_evolves_trans; [exact Ha|]. apply IH. by apply Ha.
Qed.

Lemma setHasLink_links ch b s : invites (setChannelHasLinkLocked ch b s) = invites s.
Proof. unfold setChannelHasLinkLocked. by case_match. Qed.

(** No request but an edit of its limit changes what a link allows. *)
Definition keeps_limits (o : channel_op) : Prop :=
  match o with OpEditLink req => ei_UsageLimit req = None | _ => True end.

Lemma ImportInvite_links tick u hash date s h : keyed_links s → evolves h s (ImportInvite tick u hash date s).2.
Proof.
  intros Hk. unfold ImportInvite. destruct (_ || _); [by apply evolves_same|].
  destruct (usable_invite _ _ _) as [[c i]|] eqn:E; [|by apply evolves_same]. apply usable_invite_OK in E as (Hi & _ & Hc).
  pose proof (Hk _ _ Hi) as EH. rewrite <- EH in Hi. destruct (iv_RequestNeeded i); [|apply approve_links; [done|by right]].
  unfold recordPendingInviteRequestLocked. repeat case_match; simplify_eq; cbn; try (by apply evolves_same);
    (eapply link_evolves_trans; [|apply (evolves_put h i _ (put_importer _ _ _ s)); [exact Hi|apply later_requested]]; by apply evolves_same).
Qed.

Lemma OpEditLink_links tick req s h : good_draw tick h → ei_UsageLimit req = None → evolves h s (EditExportedInvite tick req s).2.
Proof.
  intros Hd Hl Hk. unfold EditExportedInvite. destruct (_ || _); [by apply evolves_same|].
  destruct (invite_admin _ _ _); [|by apply evolves_same].
  destruct (inviteByChannelHashLocked _ _ s) as [i|] eqn:Ei; [|by apply evolves_same].
  assert (invites s !! iv_Hash i = Some i) as Hi.
  { unfold inviteByChannelHashLocked in Ei. destruct (bool_decide _); [done|]. destruct (invites s !! _) as [x|] eqn:Hx; [|done].
    destruct (_ =? _); [|done]. injection Ei as ->. by rewrite (Hk _ _ Hx). }
  unfold refreshChannelHasLinkLocked. destruct (ei_Revoked req).
  - destruct (iv_Revoked i); [by apply evolves_same|].
    assert (evolves h s (put_invite (with_revoked i) s)) as Hr by (apply (evolves_put h i); [done|apply later_revoked]).
    destruct (negb _); [eapply link_evolves_trans; [exact Hr| |done]; apply evolves_same, setHasLink_links|].
    unfold newReplacementInviteLocked. destruct (draw_invite tick) as [[iid x]|] eqn:Ex; cbn; [|by apply Hr].
    eapply link_evolves_trans; [exact Hr| |done]. eapply link_evolves_trans; [apply evolves_fresh|apply evolves_same, setHasLink_links].
    by apply (Hd iid).
  - destruct (_ && _); [by apply evolves_same|]. eapply link_evolves_trans; [apply (evolves_put h i); [done|by apply later_edited]| |done].
    apply evolves_same, setHasLink_links.
Qed.

Lemma invites_create tick req s h : good_draw tick h → evolves h s (CreateChannel tick req s).2.
Proof.
  intros Hd. unfold CreateChannel. destruct (_ || _); [by apply evolves_same|].
  destruct (draw_invite tick) as [[iid hash]|] eqn:Ex; [|by apply evolves_same].
  set (i := new_invite _ _ _ _ _). set (others := _ <$> _). set (s3 := fold_left _ others _).
  destruct (announce _ _ _ _ _ _ s3) as [[msg c4] s4] eqn:E. cbn [snd].
  destruct (announce_core _ _ _ _ _ _ _ _ _ _ E) as (_ & _ & Ei & _).
  apply link_evolves_trans with (put_invite i s); [apply evolves_fresh; by apply (Hd iid)|]. apply evolves_same.
  rewrite (invites_proper _ _ (upsert_all_equiv (λ m s, upsertChannelDialogLocked (cm_UserID m) c4 (fst <$> msg) (cm_UserID m =? rq_CreatorUserID req) s)
    (_ :: others) s4 (λ m s, upsert_equiv (cm_UserID m) c4 (fst <$> msg) (cm_UserID m =? rq_CreatorUserID req) s))).
  rewrite Ei. unfold s3. match goal with |- context [set_members ?x ?y] => destruct (put_all_members (nextID s) others {[rq_CreatorUserID req :=
    with_standing RoleCreator CreatorChannelAdminRights "" (new_member (nextID s) (rq_CreatorUserID req) 0 RoleCreator Active (rq_Date req))]} y) as [_ E3] end.
  by rewrite (invites_proper _ _ E3).
Qed.

(** Operations on members and rows of channels leave the links and the requests
    alone, but for a request to join a public channel. *)
Lemma links_append_log ch u date ty ranks change p s :
  invites (appendChannelAdminLogLocked ch u date ty ranks change p s) = invites s
  ∧ importers (appendChannelAdminLogLocked ch u date ty ranks change p s) = importers s.
Proof. split; [apply invites_proper|apply importers_proper]; apply append_log_equiv. Qed.

Lemma links_clear ch u s :
  invites (clearChannelMentionsForUserLocked ch u s) = invites s ∧ importers (clearChannelMentionsForUserLocked ch u s) = importers s.
Proof. split; [apply invites_proper|apply importers_proper]; apply clear_mentions_equiv. Qed.

Lemma links_dialog u ch s : invites (refresh_dialog u ch s) = invites s ∧ importers (refresh_dialog u ch s) = importers s.
Proof. split; [apply invites_proper|apply importers_proper]; apply refresh_dialog_equiv. Qed.

Lemma links_announce b ch sender date a c s x c' s' :
  announce b ch sender date a c s = (x, c', s') → invites s' = invites s ∧ importers s' = importers s.
Proof. intros E. by destruct (announce_core _ _ _ _ _ _ _ _ _ _ E) as (_ & _ & ? & ? & _). Qed.

Lemma links_invite_each c inviter date can one ch acc us acc' :
  invite_each c inviter date can one ch acc us = OK acc' → invites acc'.2 = invites acc.2 ∧ importers acc'.2 = importers acc.2.
Proof.
  revert acc. induction us as [|u us IH]; intros [[restored added] s1]; cbn [invite_each]; [by intros [= <-]|].
  destruct (invite_one _ _ _ _ _ _ _ u) as [acc1|] eqn:E; [|done]. intros Ha. destruct (IH _ Ha) as [-> ->]. unfold invite_one in E. cbn.
  repeat (case_match; try done); injection E as <-; cbn; rewrite ?(proj1 (links_append_log _ _ _ _ _ _ _ _)), ?(proj2 (links_append_log _ _ _ _ _ _ _ _)); done.
Qed.

Ltac same_links :=
  repeat (case_match; simplify_eq; try done); cbn;
  repeat match goal with E : announce _ _ _ _ _ _ _ = _ |- _ => apply links_announce in E as [? ?] end;
  unfold log_act, log_change in *; cbn in *;
  repeat (first
    [progress rewrite ?(proj1 (links_append_log _ _ _ _ _ _ _ _)), ?(proj1 (links_clear _ _ _)), ?(proj1 (links_dialog _ _ _)),
       ?(proj2 (links_append_log _ _ _ _ _ _ _ _)), ?(proj2 (links_clear _ _ _)), ?(proj2 (links_dialog _ _ _)) in *
    |match goal with
     | E : invites ?s = _ |- context [invites ?s] => rewrite E
     | E : importers ?s = _ |- context [importers ?s] => rewrite E
     end]; cbn in *);
  try done.

Lemma links_members tick o s :
  match o with
  | OpJoin _ _ _ => invites (perform tick o s).2 = invites s
  | OpLeave _ _ _ | OpEditAdmin _ | OpTransfer _ _ _ _ | OpEditRank _ _ _ _ _ | OpEditBanned _ _ _ _ _
  | OpDefaultBans _ _ _ | OpHideParticipants _ _ _ | OpJoinToSend _ _ _ | OpJoinRequest _ _ _ | OpDelete _ _
  | OpInvite _ _ _ _ => invites (perform tick o s).2 = invites s ∧ importers (perform tick o s).2 = importers s
  | _ => True
  end.
Proof.
  destruct o; try done; cbn [perform outcome snd].
  - unfold JoinChannel, recordPublicJoinRequestLocked. same_links.
  - unfold LeaveChannel, hand_over. split; same_links.
  - unfold EditChannelAdmin. split; same_links.
  - unfold TransferChannelOwnership. split; same_links.
  - unfold EditChannelMemberRank. split; same_links.
  - unfold EditChannelBanned. split; same_links.
  - unfold EditChannelDefaultBannedRights, edit_channel. split; same_links.
  - unfold SetParticipantsHidden, edit_channel. split; same_links.
  - unfold SetJoinToSend, edit_channel. split; same_links.
  - unfold SetJoinRequest, edit_channel. split; same_links.
  - unfold DeleteChannel. split; same_links.
  - unfold InviteToChannel.
    destruct (channelAndMemberLocked _ _ s) as [[c m]|e]; [|done]. destruct (ch_Monoforum c); [done|]. destruct (negb _); [done|].
    destruct (invite_each _ _ _ _ _ _ _ _) as [[[restored added] s1]|e] eqn:E; [|done]. apply links_invite_each in E as [E1 E2].
    set (c2 := if 0 <? restored then _ else _). destruct (announce _ _ _ _ _ c2 _) as [[msg c3] s3] eqn:Ea. cbn [snd].
    apply links_announce in Ea as [Ea1 Ea2]. cbn in *.
    pose proof (upsert_all_equiv (λ m s, upsertChannelDialogLocked (cm_UserID m) c3 (fst <$> msg) false s) added s3
      (λ m s, upsert_equiv (cm_UserID m) c3 (fst <$> msg) false s)) as Hup.
    by rewrite (invites_proper _ _ Hup), (importers_proper _ _ Hup), Ea1, Ea2.
Qed.

Lemma perform_links tick o s h : good_draw tick h → keeps_limits o → evolves h s (perform tick o s).2.
Proof.
  intros Hd Hl Hk. pose proof (links_members tick o s) as Hm.
  destruct o; try (by apply evolves_same); try (by apply evolves_same; [apply Hm|]); cbn [perform outcome snd] in *.
  - by apply invites_create.
  - unfold ExportInvite, refreshChannelHasLinkLocked. destruct (_ || _); [by apply evolves_same|].
    destruct (invite_admin _ _ s); [|by apply evolves_same].
    set (s1 := if ex_LegacyRevokePermanent req then _ else s).
    assert (evolves h s s1) as H1.
    { unfold s1. case_match; [|by apply evolves_same]. apply evolves_revokes. intros i. case_match; [apply later_revoked|apply later_link_refl]. }
    destruct (draw_invite tick) as [[iid x]|] eqn:Ex; cbn [snd]; [|by apply H1].
    eapply link_evolves_trans; [exact H1| |done]. eapply link_evolves_trans; [apply evolves_fresh|apply evolves_same, setHasLink_links].
    by apply (Hd iid).
  - unfold EnsurePermanentInvite. destruct (_ || _); [by apply evolves_same|]. destruct (invite_admin _ _ s); [|by apply evolves_same].
    destruct (fold_left _ _ _); [by apply evolves_same; [apply setHasLink_links|]|].
    destruct (draw_invite tick) as [[iid x]|] eqn:Ex; cbn [snd]; [|by apply evolves_same].
    eapply link_evolves_trans; [apply evolves_fresh|apply evolves_same, setHasLink_links|done]. by apply (Hd iid).
  - by apply OpEditLink_links.
  - unfold DeleteExportedInvite, refreshChannelHasLinkLocked. destruct (_ || _); [by apply evolves_same|].
    destruct (invite_admin _ _ s); [|by apply evolves_same]. destruct (inviteByChannelHashLocked _ _ s) as [i|]; [|by apply evolves_same].
    eapply link_evolves_trans; [apply (evolves_deletes h [iv_Hash i])|apply evolves_same, setHasLink_links|done].
  - unfold DeleteRevokedExportedInvites. destruct (_ || _); [by apply evolves_same|]. destruct (invite_admin _ _ s); [|by apply evolves_same].
    by apply evolves_deletes.
  - by apply ImportInvite_links.
  - unfold HideChatJoinRequest. destruct (_ || _); [by apply evolves_same|]. destruct (invite_admin _ _ s); [|by apply evolves_same].
    destruct (importersOf _ s !! _) as [im|]; [|by apply evolves_same]. destruct (negb _); [by apply evolves_same|].
    destruct (invite_of_request _ _ _ _ _) as [i|] eqn:E; [|by apply evolves_same]. apply invite_of_request_OK in E; [|done].
    destruct (negb approved); [by apply deletePending_links|by apply approve_links].
  - unfold HideAllChatJoinRequests. destruct (_ || _); [by apply evolves_same|]. destruct (invite_admin _ _ s) as [c|]; [|by apply evolves_same].
    destruct (if bool_decide _ then _ else _); [|by apply evolves_same]. set (targets := take _ _).
    pose proof (hide_each_links 10 tick (hj_UserID req) (hj_ChannelID req) (hj_Approved req) (hj_Date req) c None targets s h Hk Hk) as Hh.
    destruct (hide_each _ _ _ _ _ _ _ _ _ s) as [[[c' [r|]]|e] s1]; cbn in *; [by case_match|done|done].
Qed.

(** * Requests to join *)

(** Requests are stored under the users who made them. *)
Definition keyed_requests s : Prop := ∀ ch u im, importersOf ch s !! u = Some im → im_UserID im = u.

Lemma keyed_requests_same s s' : importers s' = importers s → keyed_requests s → keyed_requests s'.
Proof. unfold keyed_requests, importersOf. by intros ->. Qed.

Lemma keyed_requests_put ch u im s : im_UserID im = u → keyed_requests s → keyed_requests (put_importer ch u im s).
Proof.
  intros Eu Hk ch' v x. unfold importersOf, put_importer; cbn. destruct (decide (ch' = ch)) as [->|Hne].
  - rewrite lookup_insert_eq. cbn. intros [[<- <-]|[_ Hx]]%lookup_insert_Some; [done|by eapply Hk].
  - rewrite lookup_insert_ne by done. apply Hk.
Qed.

Lemma keyed_requests_delete ch u s :
  keyed_requests s → keyed_requests (set_importers (<[ch := delete u (importersOf ch s)]> (importers s)) s).
Proof.
  intros Hk ch' v x. unfold importersOf; cbn. destruct (decide (ch' = ch)) as [->|Hne].
  - rewrite lookup_insert_eq. cbn. intros [_ Hx]%lookup_delete_Some. by eapply Hk.
  - rewrite lookup_insert_ne by done. apply Hk.
Qed.

Lemma approve_requests tick c i u by_ date s :
  keyed_requests s → keyed_requests (approveInviteImporterLocked tick c i u by_ date s).2.
Proof.
  intros Hk. unfold approveInviteImporterLocked. destruct (_ && _ && _); [done|].
  destruct (default false (is_status Active <$> _)); [done|]. destruct (default false (shut_out <$> _)); [done|].
  destruct (settle_request _ _ _ _ _) as [i1 s1] eqn:E1.
  destruct (announce _ _ _ _ _ _ _) as [[msg c4] s4] eqn:E. cbn [snd]. apply links_announce in E as [_ E].
  apply keyed_requests_put; [done|]. eapply keyed_requests_same; [|exact Hk]. cbn. rewrite E. cbn.
  assert (importers (if negb (iv_InviteID i1 =? 0) && negb (bool_decide (iv_Hash i1 = ""))
    then put_invite (with_usage (iv_UsageCount i1 + 1) i1) s1 else s1) = importers s1) as Eput.
  { by destruct (_ && _). }
  rewrite Eput, (settle_request_importers _ _ _ _ _ _ _ E1). unfold log_act. by rewrite (proj2 (links_append_log _ _ _ _ _ _ _ _)).
Qed.

Lemma deletePending_requests i u s : keyed_requests s → keyed_requests (deletePendingInviteImporterLocked i u s).
Proof.
  intros Hk. unfold deletePendingInviteImporterLocked. destruct (importersOf _ s !! u) as [[? ? ? ? [] ?]|]; [|done..].
  assert (keyed_requests (set_importers (<[iv_ChannelID i := delete u (importersOf (iv_ChannelID i) s)]> (importers s)) s)) as Hd
    by by apply keyed_requests_delete. by case_match.
Qed.

Lemma hide_each_requests n tick actor ch approved date c result targets s :
  keyed_requests s → keyed_requests (hide_each n tick actor ch approved date c result targets s).2.
Proof.
  revert n c result s. induction targets as [|im targets IH]; intros n c result s Hk; cbn; [done|].
  destruct (invite_of_request _ _ _ _ _) as [i|]; [|done]. destruct (negb approved); [by apply IH, deletePending_requests|].
  pose proof (approve_requests (n :: tick) c i (im_UserID im) actor date s Hk) as Ha.
  destruct (approveInviteImporterLocked _ _ _ _ _ _ s) as [[r|e] s1]; cbn in *; [by apply IH|done].
Qed.

Lemma perform_requests tick o s : keyed_requests s → keyed_requests (perform tick o s).2.
Proof.
  intros Hk. pose proof (links_members tick o s) as Hm. destruct o; try (eapply keyed_requests_same; [apply Hm|done]); clear Hm;
    cbn [perform outcome snd].
  - unfold CreateChannel. destruct (_ || _); [done|]. destruct (draw_invite tick) as [[iid hash]|]; [|done].
    set (others := _ <$> _). set (s3 := fold_left _ others _).
    destruct (announce _ _ _ _ _ _ s3) as [[msg c4] s4] eqn:E. cbn [snd]. apply links_announce in E as [_ E].
    eapply keyed_requests_same; [|exact Hk].
    rewrite (importers_proper _ _ (upsert_all_equiv (λ m s, upsertChannelDialogLocked (cm_UserID m) c4 (fst <$> msg) (cm_UserID m =? rq_CreatorUserID req) s)
      (_ :: others) s4 (λ m s, upsert_equiv (cm_UserID m) c4 (fst <$> msg) (cm_UserID m =? rq_CreatorUserID req) s))).
    rewrite E. unfold s3. generalize others. intros l. match goal with |- importers (fold_left _ l ?x) = _ => change (importers s) with (importers x); generalize x end.
    induction l as [|m l IH]; intros s'; cbn; [done|]. by rewrite IH.
  - unfold JoinChannel, recordPublicJoinRequestLocked.
    assert (keyed_requests (put_importer ch u {| im_ChannelID := ch; im_InviteID := 0; im_UserID := u; im_Date := date;
      im_Requested := true; im_ApprovedBy := 0 |} s)) as Hput by by apply keyed_requests_put.
    repeat (case_match; simplify_eq; try done); cbn; (eapply keyed_requests_same; [|exact Hk]); same_links.
  - eapply keyed_requests_same; [|exact Hk]. unfold ExportInvite, refreshChannelHasLinkLocked, setChannelHasLinkLocked. same_links.
  - eapply keyed_requests_same; [|exact Hk]. unfold EnsurePermanentInvite, setChannelHasLinkLocked. same_links.
  - eapply keyed_requests_same; [|exact Hk]. unfold EditExportedInvite, refreshChannelHasLinkLocked, setChannelHasLinkLocked. same_links.
  - eapply keyed_requests_same; [|exact Hk]. unfold DeleteExportedInvite, refreshChannelHasLinkLocked, setChannelHasLinkLocked. same_links.
  - eapply keyed_requests_same; [|exact Hk]. unfold DeleteRevokedExportedInvites. same_links.
  - unfold ImportInvite. destruct (_ || _); [done|]. destruct (usable_invite _ _ _) as [[c i]|]; [|done].
    destruct (iv_RequestNeeded i); [|by apply approve_requests]. unfold recordPendingInviteRequestLocked.
    assert (keyed_requests (put_importer (iv_ChannelID i) u {| im_ChannelID := iv_ChannelID i; im_InviteID := iv_InviteID i;
      im_UserID := u; im_Date := date; im_Requested := true; im_ApprovedBy := 0 |} s)) as Hput by by apply keyed_requests_put.
    by repeat case_match; simplify_eq.
  - unfold HideChatJoinRequest. destruct (_ || _); [done|]. destruct (invite_admin _ _ _); [|done].
    destruct (importersOf ch s !! target) as [im|]; [|done]. destruct (negb _); [done|].
    destruct (invite_of_request _ _ _ _ _); [|done]. destruct (negb approved); [by apply deletePending_requests|by apply approve_requests].
  - unfold HideAllChatJoinRequests. destruct (_ || _); [done|]. destruct (invite_admin _ _ _) as [c|]; [|done].
    destruct (if bool_decide _ then _ else _); [|done]. set (targets := take _ _).
    pose proof (hide_each_requests 10 tick (hj_UserID req) (hj_ChannelID req) (hj_Approved req) (hj_Date req) c None targets s Hk) as Hh.
    destruct (hide_each _ _ _ _ _ _ _ _ _ s) as [[[c' [r|]]|e] s1]; cbn in *; [by case_match|done|done].
Qed.
(** * Entries *)

Definition participant ch u s : bool := default false (is_status Active <$> memberOf ch u s).

(** Who asked by the link [i] to be let in. *)
Definition asked_by i s : gset Z :=
  dom (filter (λ p, im_Requested p.2 = true ∧ im_InviteID p.2 = iv_InviteID i) (importersOf (iv_ChannelID i) s)).

(** Which of [us] became members between [s] and [s']. *)
Definition newcomers ch s s' (us : gset Z) : gset Z :=
  filter (λ u, participant ch u s = false ∧ participant ch u s' = true) us.

(** Whom a request lets in by the link [h]: the user who uses it, and those whose
    pending requests, made by it, are approved. *)
Definition entrants h tick (o : channel_op) s : gset Z :=
  match invites s !! h with
  | None => ∅
  | Some i =>
      let approved ch := if bool_decide (ch = iv_ChannelID i) then newcomers ch s (perform tick o s).2 (asked_by i s) else ∅ in
      match o with
      | OpImport u hash _ => if bool_decide (TrimSpace hash = h) && bool_decide ((perform tick o s).1 = None) then {[u]} else ∅
      | OpHideRequest _ ch _ _ _ => approved ch
      | OpHideAllRequests req => approved (hj_ChannelID req)
      | _ => ∅
      end
  end.

Fixpoint entries h (n : nat) (ops : list channel_op) s : Z :=
  match ops with
  | [] => 0
  | o :: ops => Z.of_nat (size (entrants h [n] o s)) + entries h (S n) ops (perform [n] o s).2
  end.

Lemma participant_same ch u s s' : members s' = members s → participant ch u s' = participant ch u s.
Proof. unfold participant, memberOf, membersOf. by intros ->. Qed.

Lemma newcomers_none ch s s' us : members s' = members s → newcomers ch s s' us = ∅.
Proof.
  intros E. apply set_eq. intros u. unfold newcomers. rewrite elem_of_filter, elem_of_empty, (participant_same _ _ _ _ E).
  intuition congruence.
Qed.

Lemma newcomers_after ch s s1 s' us : members s1 = members s → newcomers ch s s' us = newcomers ch s1 s' us.
Proof. intros E. unfold newcomers. apply set_eq. intros u. by rewrite !elem_of_filter, (participant_same _ _ _ _ E). Qed.

(** One row is written in between. *)
Lemma newcomers_step ch ch1 u m s s1 s' us :
  wrote ch1 u m s s1 → newcomers ch s s' us ⊆ (if decide (u ∈ us) then {[u]} else ∅) ∪ newcomers ch s1 s' us.
Proof.
  intros Hw v. unfold newcomers. rewrite elem_of_union, !elem_of_filter. intros [[Hv Hv'] Hin].
  destruct (participant ch v s1) eqn:E1; [|by right]. left. unfold participant in *.
  rewrite (wrote_cases _ _ _ _ _ ch v Hw) in E1. case_decide as Hd; [|congruence]. destruct Hd as [_ ->].
  rewrite decide_True by done. by apply elem_of_singleton.
Qed.

(** *** Links are not lost when requests are decided *)

Lemma put_invite_keeps h i s : is_Some (invites s !! h) → is_Some (invites (put_invite i s) !! h).
Proof. intros. unfold put_invite; cbn. rewrite lookup_insert_is_Some. destruct (decide (iv_Hash i = h)); auto. Qed.

Lemma approve_keeps tick c i u by_ date s h :
  is_Some (invites s !! h) → is_Some (invites (approveInviteImporterLocked tick c i u by_ date s).2 !! h).
Proof.
  intros Hs. unfold approveInviteImporterLocked. destruct (_ && _ && _); [done|].
  destruct (default false (is_status Active <$> _)); [done|]. destruct (default false (shut_out <$> _)); [done|].
  set (s0 := log_act _ _ _ _ _). destruct (settle_request _ _ _ _ _) as [i1 s1] eqn:E1.
  destruct (announce _ _ _ _ _ _ _) as [[msg c4] s4] eqn:E. cbn. apply links_announce in E as [E _]. cbn in E. rewrite E.
  assert (is_Some (invites s0 !! h)) as H0 by (unfold s0, log_act; by rewrite (proj1 (links_append_log _ _ _ _ _ _ _ _))).
  assert (is_Some (invites s1 !! h)) as H1.
  { unfold settle_request in E1. repeat (case_match; simplify_eq; try done); by apply put_invite_keeps. }
  destruct (_ && _); [by apply put_invite_keeps|done].
Qed.

Lemma deletePending_keeps i u s h :
  is_Some (invites s !! h) → is_Some (invites (deletePendingInviteImporterLocked i u s) !! h).
Proof.
  intros Hs. unfold deletePendingInviteImporterLocked. destruct (importersOf _ s !! u) as [[? ? ? ? [] ?]|]; [|done..].
  destruct (_ && _); [|done]. by apply put_invite_keeps.
Qed.

(** The link after a step that does not lose it. *)
Lemma later_of_evolves h s s' i :
  keyed_links s → unique_link h s → evolves h s s' → (is_Some (invites s !! h) → is_Some (invites s' !! h)) → invites s !! h = Some i →
  keyed_links s' ∧ unique_link h s' ∧ ∃ i', invites s' !! h = Some i' ∧ later_link i i'.
Proof.
  intros Hk Hu He Hkeep Hi. destruct (He Hk) as (Hk' & _ & Hu' & Hl). split_and!; [done|auto|].
  destruct (Hl i Hi) as [Hn|?]; [|done]. destruct Hkeep as [x Hx]; [by eexists|congruence].
Qed.

(** An approved request by the link uses it. *)
Lemma approve_step ch0 us tick tick' actor ch im date c s h i i0 r s1 :
  keyed_links s → unique_link h s → invites s !! h = Some i → iv_InviteID i = link → link ≠ 0 → h ≠ "" →
  invite_of_request tick' actor ch im s = OK i0 → (im_UserID im ∈ us → im_InviteID im = link) →
  approveInviteImporterLocked tick c i0 (im_UserID im) actor date s = (OK r, s1) →
  keyed_links s1 ∧ unique_link h s1 ∧ ∃ i1, invites s1 !! h = Some i1 ∧ iv_InviteID i1 = link ∧ ∀ s',
    iv_UsageCount i + Z.of_nat (size (newcomers ch0 s s' us)) ≤ iv_UsageCount i1 + Z.of_nat (size (newcomers ch0 s1 s' us)).
Proof.
  intros Hk Hu Hi Hid Hl0 Hh E0 Hus Ea. pose proof (invite_of_request_OK _ _ _ _ _ _ Hk E0) as Hi0.
  pose proof (approve_links tick c i0 (im_UserID im) actor date s h Hk Hi0) as Hev.
  pose proof (approve_keeps tick c i0 (im_UserID im) actor date s h) as Hkeep. rewrite Ea in Hev, Hkeep. cbn [snd] in *.
  destruct (later_of_evolves h _ _ i Hk Hu Hev Hkeep Hi) as (Hk1 & Hu1 & i1 & Hi1 & (EH & EI & _ & EU & _)).
  split_and!; [done..|]. exists i1. split_and!; [done|congruence|]. intros s'.
  destruct (approve_effect _ _ _ _ _ _ _ _ _ Ea) as (_ & _ & m & _ & Hw).
  pose proof (subseteq_size _ _ (newcomers_step ch0 _ _ _ s s1 s' us Hw)) as Hsz. rewrite size_union_alt in Hsz.
  pose proof (subseteq_size (newcomers ch0 s1 s' us ∖ (if decide (im_UserID im ∈ us) then {[im_UserID im]} else ∅)) (newcomers ch0 s1 s' us)
    ltac:(set_solver)) as Hsz'.
  destruct (decide (im_UserID im ∈ us)) as [Hin|]; [|rewrite size_empty in Hsz; lia]. rewrite size_singleton in Hsz.
  specialize (Hus Hin). assert (i0 = i) as ->.
  { unfold invite_of_request in E0. rewrite Hus, (proj2 (Z.eqb_neq _ _) Hl0) in E0.
    apply inviteByIDLocked_OK in E0 as (Hx & Ex & _); [|done]. pose proof (Hu _ _ Hx Ex). congruence. }
  pose proof (Hk _ _ Hi) as EHi. assert (iv_InviteID i ≠ 0 ∧ iv_Hash i ≠ "") as [Hne1 Hne2] by (split; congruence).
  destruct (approve_counts _ _ _ _ _ _ _ _ _ Hne1 Hne2 Ea) as (i2 & Hi2 & Hc2).
  rewrite EHi in Hi2. replace i2 with i1 in * by congruence. lia.
Qed.

(** Approving requests uses the link at least as often as it lets in users who
    asked by it. *)
Lemma hide_each_counts ch0 us n tick actor ch approved date c result targets s h i :
  keyed_links s → unique_link h s → invites s !! h = Some i → iv_InviteID i = link → link ≠ 0 → h ≠ "" →
  (∀ im, im ∈ targets → im_UserID im ∈ us → im_InviteID im = link) →
  let s' := (hide_each n tick actor ch approved date c result targets s).2 in
  ∃ i', invites s' !! h = Some i' ∧ iv_UsageCount i + Z.of_nat (size (newcomers ch0 s s' us)) ≤ iv_UsageCount i'.
Proof.
  revert n c result s i. induction targets as [|im targets IH]; intros n c result s i Hk Hu Hi Hid Hl0 Hh Hus; cbn.
  { exists i. rewrite newcomers_none, size_empty by done. split; [done|lia]. }
  assert (∃ i', invites s !! h = Some i' ∧ iv_UsageCount i + Z.of_nat (size (newcomers ch0 s s us)) ≤ iv_UsageCount i') as Hstop.
  { exists i. rewrite newcomers_none, size_empty by done. split; [done|lia]. }
  destruct (invite_of_request _ _ _ _ _) as [i0|] eqn:E0; [|exact Hstop].
  assert (∀ im', im' ∈ targets → im_UserID im' ∈ us → im_InviteID im' = link) as Hus' by (intros; apply Hus; [by right|done]).
  destruct (negb approved).
  - pose proof (invite_of_request_OK _ _ _ _ _ _ Hk E0) as Hi0.
    destruct (later_of_evolves h _ _ i Hk Hu (deletePending_links i0 (im_UserID im) s h Hi0) (deletePending_keeps _ _ _ _) Hi)
      as (Hk1 & Hu1 & i1 & Hi1 & (EH & EI & _ & EU & _)).
    edestruct IH as (i' & Hi' & Hc'); [exact Hk1|exact Hu1|exact Hi1|congruence|done..|]. exists i'. split; [exact Hi'|].
    rewrite (newcomers_after _ s (deletePendingInviteImporterLocked i0 (im_UserID im) s)) by apply deletePending_members. lia.
  - destruct (approveInviteImporterLocked _ _ _ _ _ _ s) as [[r|e] s1] eqn:Ea; [|by apply approve_err in Ea as ->].
    destruct (approve_step ch0 us _ _ _ _ _ _ _ _ _ _ _ _ _ Hk Hu Hi Hid Hl0 Hh E0 (Hus im ltac:(by left)) Ea)
      as (Hk1 & Hu1 & i1 & Hi1 & Hid1 & Hc1).
    edestruct IH as (i' & Hi' & Hc'); [exact Hk1|exact Hu1|exact Hi1|done..|]. exists i'. split; [exact Hi'|].
    etrans; [apply Hc1|exact Hc'].
Qed.

Lemma asked_by_spec i s u :
  u ∈ asked_by i s ↔ ∃ im, importersOf (iv_ChannelID i) s !! u = Some im ∧ im_Requested im = true ∧ im_InviteID im = iv_InviteID i.
Proof.
  unfold asked_by. rewrite elem_of_dom. split.
  - intros [im [Him [? ?]]%map_lookup_filter_Some]. by exists im.
  - intros (im & Him & ? & ?). exists im. by apply map_lookup_filter_Some.
Qed.

(** Every entry by the link is counted. *)
Lemma entrants_counted h tick o s i :
  keyed_links s → keyed_requests s → unique_link h s → invites s !! h = Some i → iv_InviteID i = link → link ≠ 0 → h ≠ "" →
  entrants h tick o s = ∅ ∨
  ∃ i', invites (perform tick o s).2 !! h = Some i' ∧ iv_UsageCount i + Z.of_nat (size (entrants h tick o s)) ≤ iv_UsageCount i'.
Proof.
  intros Hk Hr Hu Hi Hid Hl0 Hh. unfold entrants. rewrite Hi. destruct o; try (by left); cbn [perform outcome fst snd].
  - destruct (bool_decide (TrimSpace hash = h)) eqn:Eh; [|by left]. bool_facts. cbn [andb]. case_bool_decide as Eo; [|by left]. right.
    rewrite size_singleton. unfold ImportInvite in *. destruct (_ || _); [done|].
    destruct (usable_invite _ _ _) as [[c i1]|] eqn:E; [|done]. apply usable_invite_OK in E as (Hi1 & _).
    replace i1 with i in * by congruence. destruct (iv_RequestNeeded i).
    { by destruct (recordPendingInviteRequestLocked _ _ _ _) as [[|] ?]. }
    destruct (approveInviteImporterLocked _ _ _ _ _ _ s) as [[r|e] s'] eqn:Ea; [|done]. cbn.
    pose proof (Hk _ _ Hi) as EHi. assert (iv_InviteID i ≠ 0 ∧ iv_Hash i ≠ "") as [Hne1 Hne2] by (split; congruence).
    destruct (approve_counts _ _ _ _ _ _ _ _ _ Hne1 Hne2 Ea) as (i' & Hi' & Hc). exists i'. rewrite <- EHi at 1. split; [done|lia].
  - case_bool_decide as Ech; [subst ch|by left]. unfold HideChatJoinRequest.
    assert (∀ s', members s' = members s → newcomers (iv_ChannelID i) s s' (asked_by i s) = ∅) as Hnone by (intros; by apply newcomers_none).
    destruct (_ || _); [left; by apply Hnone|]. destruct (invite_admin _ _ _); [|left; by apply Hnone].
    destruct (importersOf _ s !! target) as [im|] eqn:Him; [|left; by apply Hnone]. destruct (negb (im_Requested im)); [left; by apply Hnone|].
    destruct (invite_of_request _ _ _ _ _) as [i0|] eqn:E0; [|left; by apply Hnone].
    destruct (negb approved); [left; apply Hnone, deletePending_members|].
    destruct (approveInviteImporterLocked _ _ _ _ _ _ s) as [[r|e] s1] eqn:Ea; [|apply approve_err in Ea as ->; left; by apply Hnone].
    right. cbn [snd]. rewrite <- (Hr _ _ _ Him) in Ea.
    assert (im_UserID im ∈ asked_by i s → im_InviteID im = link) as Hby.
    { rewrite (Hr _ _ _ Him). intros (im' & Him' & _ & E)%asked_by_spec. congruence. }
    destruct (approve_step (iv_ChannelID i) (asked_by i s) _ _ _ _ _ _ _ _ _ _ _ _ _ Hk Hu Hi Hid Hl0 Hh E0 Hby Ea)
      as (_ & _ & i1 & Hi1 & _ & Hc1).
    exists i1. split; [exact Hi1|]. etrans; [apply (Hc1 s1)|]. rewrite newcomers_none, size_empty by done. lia.
  - case_bool_decide as Ech; [|by left]. unfold HideAllChatJoinRequests.
    assert (newcomers (hj_ChannelID req) s s (asked_by i s) = ∅) as Hnone by (by apply newcomers_none).
    destruct (_ || _); [by left|]. destruct (invite_admin _ _ _) as [c|]; [|by left].
    destruct (if bool_decide _ then _ else _); [|by left]. set (targets := take _ _). right.
    assert (∀ im, im ∈ targets → im_UserID im ∈ asked_by i s → im_InviteID im = link) as Hby.
    { intros im Him Hin. unfold targets in Him. apply elem_of_take in Him as (? & Him & _). apply list_elem_of_lookup_2 in Him.
      apply list_elem_of_In, filter_In in Him as [Him _]. apply list_elem_of_In, list_elem_of_fmap in Him as ([k y] & -> & Him).
      rewrite visit_importers_all, Ech in Him. apply elem_of_map_to_list in Him. cbn in *.
      rewrite (Hr _ _ _ Him) in Hin. apply asked_by_spec in Hin as (x' & Hx' & _ & Ex). congruence. }
    pose proof (hide_each_counts (hj_ChannelID req) (asked_by i s) 10 tick (hj_UserID req) (hj_ChannelID req) (hj_Approved req)
      (hj_Date req) c None targets s h i Hk Hu Hi Hid Hl0 Hh Hby) as Hc. cbn in Hc.
    destruct (hide_each _ _ _ _ _ _ _ _ _ s) as [[[c' [r|]]|e] s1]; cbn in *; [case_match; cbn|..]; apply Hc.
Qed.

Lemma no_link_no_entries h n ops s :
  keyed_links s → (∀ k, (n ≤ k)%nat → good_draw [k] h) → Forall keeps_limits ops → invites s !! h = None → entries h n ops s = 0.
Proof.
  revert n s. induction ops as [|o ops IH]; intros n s Hk Hd Hf Hn; cbn; [done|].
  apply Forall_cons in Hf as [Ho Hf]. destruct (perform_links [n] o s h (Hd n (le_n n)) Ho Hk) as (Hk' & Hn' & _).
  rewrite IH; [|done|intros; apply Hd; lia|done|auto]. unfold entrants. rewrite Hn, size_empty. done.
Qed.

Lemma entries_bounded h n ops s i :
  keyed_links s → keyed_requests s → unique_link h s → (∀ k, (n ≤ k)%nat → good_draw [k] h) → h ≠ "" → Forall keeps_limits ops →
  invites s !! h = Some i → iv_InviteID i = link → link ≠ 0 → 0 < iv_UsageLimit i → iv_UsageCount i ≤ iv_UsageLimit i →
  iv_UsageCount i + entries h n ops s ≤ iv_UsageLimit i.
Proof.
  revert n s i. induction ops as [|o ops IH]; intros n s i Hk Hr Hu Hd Hh Hf Hi Hid Hl0 Hp Hle; cbn; [lia|].
  apply Forall_cons in Hf as [Ho Hf]. destruct (perform_links [n] o s h (Hd n (le_n n)) Ho Hk) as (Hk' & _ & Hu' & Hl).
  pose proof (entrants_counted h [n] o s i Hk Hr Hu Hi Hid Hl0 Hh) as He.
  destruct (Hl i Hi) as [Hnone|(i' & Hi' & E1 & E2 & E3 & E4 & E5)].
  - rewrite no_link_no_entries; [|done|intros; apply Hd; lia|done..]. destruct He as [->|(i' & Hi' & _)]; [|congruence].
    rewrite size_empty. lia.
  - pose proof (IH (S n) _ i' Hk' (perform_requests _ _ _ Hr) (Hu' Hu) ltac:(intros; apply Hd; lia) Hh Hf Hi' ltac:(congruence) Hl0
      ltac:(lia)) as Hrest. rewrite E3 in Hrest. specialize (Hrest (E5 Hp Hle)).
    destruct He as [->|(i2 & Hi2 & Hc)]; [rewrite size_empty; lia|]. replace i2 with i' in * by congruence. lia.
Qed.
End operations.
