(* ===== verification/ChannelsProps.v ===== *)
(** What the store of channels guarantees, and where it does not do what it means
    to (the examples at the end).

    "Requests" are the operations of [channel_op]: those on members, links, join
    requests and whole channels.  Other operations on the same maps are not among
    them, and the invariant of the rooms does not survive some: a ban in a
    community ([community.go]) removes an administrator without lowering
    [AdminsCount], the channel for paid messages of a broadcast channel
    ([channel_message_settings.go]) has no owner row, and deleting messages takes
    points and lowers the top message ([channel_message_delete.go]). *)

From S2P Require Import Prelude GoStrings Channels ChannelMembers ChannelInvites ChannelsInv ChannelsOps ChannelsSteps ChannelsLinks.
From S2P Require Import ChannelsRun ChannelsRights ChannelsUse.

Open Scope Z_scope.

#[local] Set Default Proof Using "Type".

Implicit Types (s : ChannelStore) (c : Channel) (m : ChannelMember) (ch u actor date : Z) (tick : list nat).

(** An administrator in good standing. *)
Definition admin_with (can : ChannelMember → bool) ch actor s : Prop :=
  ∃ m, memberOf ch actor s = Some m ∧ cm_Status m = Active ∧ shut_out m = false ∧ can m = true.

(** How somebody who is shut out may be let in. *)
Inductive let_in ch u s : channel_op → Prop :=
  | let_in_by_promotion req :
      ea_ChannelID req = ch → ea_MemberID req = u → admin_with canAddChannelAdmins ch (ea_UserID req) s →
      let_in ch u s (OpEditAdmin req)
  | let_in_by_pardon actor bans date : admin_with canBanChannelUsers ch actor s → let_in ch u s (OpEditBanned actor ch u bans date)
  | let_in_by_invitation actor users date : admin_with canBanChannelUsers ch actor s → u ∈ users → let_in ch u s (OpInvite ch actor users date).

Section rows.
Implicit Types (r : ChannelAdminRights → bool).

Lemma holds_same r ch u s s' : members s' = members s → holds r ch u s' → holds r ch u s.
Proof. unfold holds, memberOf, membersOf. by intros ->. Qed.

Lemma holds_entered r ch u s s' : entered s s' → holds r ch u s' → holds r ch u s.
Proof.
  intros He (m & Hm & Hr). destruct (He ch u) as [E|(x & Hx & E & _)]; [exists m; by rewrite <- E|].
  rewrite E in Hm. injection Hm as ->. by rewrite (has_right_plain r ch u) in Hr.
Qed.

Lemma holds_wrote r ch u ch' u' x s s' : wrote ch' u' x s s' → holds r ch u s' → holds r ch u s ∨ (ch = ch' ∧ u = u' ∧ has_right r x = true).
Proof.
  intros Hw (m & Hm & Hr). rewrite (wrote_cases _ _ _ _ _ ch u Hw) in Hm. case_decide as Hd; [|left; by exists m].
  destruct Hd as [-> ->]. injection Hm as ->. by right.
Qed.

Lemma wrote_owner ch u x s s' : wrote ch u x s s' → owner_row x → owns ch u s'.
Proof. intros Hw Ho. exists x. split; [|done]. rewrite (wrote_cases _ _ _ _ _ ch u Hw). by rewrite decide_True. Qed.

Lemma owns_wrote ch u u' x s s' : wrote ch u' x s s' → u ≠ u' → owns ch u s → owns ch u s'.
Proof. intros Hw Hne (m & Hm & Ho). exists m. split; [|done]. rewrite (wrote_cases _ _ _ _ _ ch u Hw). rewrite decide_False; naive_solver. Qed.

Lemma enthroned_owner date x : br_ViewMessages (cm_BannedRights x) = false → owner_row (enthroned date x).
Proof. unfold enthroned, owner_row. intros. by case_match. Qed.

Lemma shut_same ch u m s s' : members s' = members s → memberOf ch u s = Some m → shut_out m = true →
  ∃ m', memberOf ch u s' = Some m' ∧ shut_out m' = true.
Proof. unfold memberOf, membersOf. intros ->. by exists m. Qed.

Lemma shut_entered ch u m s s' : entered s s' → memberOf ch u s = Some m → shut_out m = true →
  ∃ m', memberOf ch u s' = Some m' ∧ shut_out m' = true.
Proof.
  intros He Hm Hs. destruct (He ch u) as [E|(x & _ & _ & H)]; [exists m; by rewrite E|]. destruct (H m Hm) as [_ E]. congruence.
Qed.

Lemma shut_wrote ch u m ch' u' x s s' : wrote ch' u' x s s' → (ch = ch' → u = u' → shut_out x = true) →
  memberOf ch u s = Some m → shut_out m = true → ∃ m', memberOf ch u s' = Some m' ∧ shut_out m' = true.
Proof.
  intros Hw Hx Hm Hs. rewrite (wrote_cases _ _ _ _ _ ch u Hw). case_decide as Hd; [|by exists m]. destruct Hd as [-> ->].
  exists x. auto.
Qed.

Lemma shut_out_owner m : owner_row m → shut_out m = false.
Proof. unfold shut_out, is_status. intros (_ & -> & ->). done. Qed.

Lemma shut_out_standing m m' : same_standing m m' → shut_out m' = shut_out m.
Proof. unfold shut_out, is_status. by intros (_ & _ & _ & -> & _ & ->). Qed.
End rows.

Section theorems.
Context `{!ChannelEnvironment}.

Lemma succeed_owner tick ch u s x :
  futureCreatorAfterLeaveLocked tick ch u s = OK x → cm_UserID x ≠ u ∧ owner_row (succeed x).
Proof.
  intros (Hcand & _)%futureCreatorAfterLeaveLocked_OK. unfold candidate in Hcand. bool_facts. by split.
Qed.

Lemma NewChannelStore_ok : store_ok NewChannelStore.
Proof. split; [done| |done|done]. intros ch [x Hx]. done. Qed.

(** C35: After any sequence of the twenty-one operations on members, links, join requests and whole channels every channel has exactly
    one owner, who is an active member and is named by its row; its counters of participants, administrators and removed users are
    the numbers of such members; and the messages and points of its message box are numbered without gaps up to what its row says. *)
Theorem channels_stay_consistent n ops s : store_ok s → store_ok (run_ops n ops s).
Proof. revert n s. induction ops as [|o ops IH]; intros n s Hs; cbn; [done|]. by apply IH, perform_ok. Qed.

(** C36: By these operations a member comes to one of the fifteen checked rights only from an administrator who holds it and may appoint others, or by
    becoming the owner: chosen by the owner who transfers the channel, next in line when the owner leaves, or founding the channel. *)
Theorem rights_are_delegated tick o s r ch u :
  store_ok s → r ∈ checked_rights → holds r ch u (perform tick o s).2 →
  holds r ch u s ∨ granted tick r ch u s (perform tick o s).2 o.
Proof.
  intros Hs Hr Hh. pose proof (other_rows tick o s) as Ho.
  destruct o; try (left; by eapply holds_same); clear Ho; cbn [perform outcome snd] in Hh.
  - destruct Hh as (m & Hm & Hg). destruct (CreateChannel_rows tick req s ch u) as [E|[-> Hrow]]; [left; exists m; by rewrite <- E|].
    destruct (Hrow m Hm) as [[-> Hown]|Hmem]; [right; constructor; [done..|by exists m]|]. by rewrite has_right_member in Hg.
  - left. eapply holds_entered; [by apply JoinChannel_rows|done].
  - destruct (LeaveChannel_rows tick ch0 u0 date s Hs) as [E|(c & m & Hacc & [Hw|(Hown & x & Hx & Hw)])]; [left; by eapply holds_same|..].
    + destruct (holds_wrote _ _ _ _ _ _ _ _ Hw Hh) as [?|(_ & _ & Hb)]; [by left|]. by rewrite has_right_inactive in Hb.
    + destruct (acting_member _ _ _ _ _ Hs Hacc) as (_ & Hm & _).
      destruct (holds_wrote _ _ _ _ _ _ _ _ Hw Hh) as [H2|(_ & _ & Hb)]; [|by rewrite has_right_inactive in Hb].
      eapply holds_wrote in H2 as [?|(-> & -> & _)]; [by left| |done]. right. eapply granted_by_succession; [by exists m|exact Hx|done|].
      destruct (succeed_owner _ _ _ _ _ Hx) as [Hne Ho].
      eapply owns_wrote; [exact Hw|congruence|]. exists (succeed x). split; [apply memberOf_put_member|done].
  - destruct (EditChannelAdmin_rows tick req s Hs) as [E|(c & m & Hacc & Hadd & [(Eu & Hcr & m' & Hm' & Hw)|(Hsub & Hw)])];
      [left; by eapply holds_same|..]; destruct (acting_member _ _ _ _ _ Hs Hacc) as (Hc & Hm & Ha & _).
    + destruct (holds_wrote _ _ _ _ _ _ _ _ Hw Hh) as [?|(-> & -> & _)]; [by left|]. left. rewrite Eu. exists m. split; [done|].
      unfold has_right, is_status, is_role. by rewrite Ha, Hcr.
    + destruct (holds_wrote _ _ _ _ _ _ _ _ Hw Hh) as [?|(-> & -> & Hb)]; [by left|]. right.
      assert (has_right ar_AddAdmins m = true) as Hb'.
      { unfold has_right, canAddChannelAdmins in *. rewrite Hadd. unfold is_status. by rewrite Ha. }
      constructor; [done|done| |by exists m]. exists m. split; [done|].
      destruct Hsub as [Hcr|Hsub]; [unfold has_right, is_status, is_role; by rewrite Ha, Hcr|].
      destruct (so_rooms s Hs _ c Hc) as [_ (Hk & _) _]. destruct (Hk _ m Hm) as (_ & _ & _ & Hn).
      assert (r (NormalizeFullMegagroupAdminRights c (ea_AdminRights req)) = true) as Hg.
      { revert Hb. unfold administered. case_match; [by rewrite has_right_member|]. unfold has_right, is_role. by intros [_ Hb]%andb_true_iff. }
      pose proof (normalized_checked r c _ _ Hr Hsub Hn Hg) as Hrm. unfold has_right, is_status. rewrite Ha, Hrm, andb_true_r. cbn.
      unfold canAddChannelAdmins in Hadd. apply orb_true_iff in Hadd as [->|Hadd]; [done|]. apply andb_true_iff in Hadd as [-> _].
      by rewrite orb_true_r.
  - destruct (TransferChannelOwnership_rows tick actor ch0 u0 date s Hs) as [E|(c & m & x & Hacc & Hown & Hx & _ & Hv & Hw)];
      [left; by eapply holds_same|]. destruct (acting_member _ _ _ _ _ Hs Hacc) as (_ & Hm & _).
    destruct (holds_wrote _ _ _ _ _ _ _ _ Hw Hh) as [H2|(-> & -> & _)];
      [|right; constructor; [by exists m|eapply wrote_owner; [exact Hw|by apply enthroned_owner]]].
    eapply holds_wrote in H2 as [?|(-> & -> & _)]; [by left| |done]. left. exists m. split; [done|by apply has_right_owner].
  - destruct (EditChannelMemberRank_rows tick actor ch0 u0 rank date s) as [E|(x & Hx & Hw)]; [left; by eapply holds_same|].
    destruct (holds_wrote _ _ _ _ _ _ _ _ Hw Hh) as [?|(-> & -> & Hb)]; [by left|]. left. exists x. split; [done|].
    by rewrite <- (has_right_standing r x (with_rank rank x)).
  - destruct (EditChannelBanned_rows tick actor ch0 u0 bans date s) as [E|(c & m & m' & _ & _ & Hm' & Hw)]; [left; by eapply holds_same|].
    destruct (holds_wrote _ _ _ _ _ _ _ _ Hw Hh) as [?|(_ & _ & Hb)]; [by left|]. by rewrite has_right_member in Hb.
  - destruct (InviteToChannel_rows tick ch0 inviter users date s) as [E|(c & m & _ & Hrow)]; [left; by eapply holds_same|].
    destruct Hh as (x & Hx & Hg). destruct (Hrow ch u) as [E|(-> & _ & y & Hy & E & _)]; cbn [snd] in E.
    + left. exists x. by rewrite <- E.
    + rewrite E in Hx. injection Hx as ->. by rewrite (has_right_plain r ch0 u) in Hg.
  - left. eapply holds_entered; [by apply ImportInvite_rows|done].
  - left. eapply holds_entered; [by apply HideChatJoinRequest_rows|done].
  - left. eapply holds_entered; [by apply HideAllChatJoinRequests_rows|done].
Qed.

(** C37: A user who was removed or banned stays shut out of the channel, whatever anybody asks of these operations, until an active
    administrator lets them in by name: one who may ban pardons them or has them among the users of an invitation, or one who may
    appoint others appoints them. *)
Theorem shut_out_stay_out tick o s ch u m :
  store_ok s → memberOf ch u s = Some m → shut_out m = true →
  (∃ m', memberOf ch u (perform tick o s).2 = Some m' ∧ shut_out m' = true) ∨ let_in ch u s o.
Proof.
  intros Hs Hm Hsh. pose proof (other_rows tick o s) as Ho.
  destruct o; try (left; by eapply shut_same); clear Ho; cbn [perform outcome snd].
  - left. exists m. destruct (CreateChannel_rows tick req s ch u) as [->|[-> _]]; [done|].
    exfalso. destruct (so_absent s Hs (nextID s)) as [E _]; [apply eq_None_not_Some; intros Hx%(so_ids s Hs); lia|].
    unfold memberOf in Hm. by rewrite E, lookup_empty in Hm.
  - left. eapply shut_entered; [by apply JoinChannel_rows|done..].
  - left. destruct (LeaveChannel_rows tick ch0 u0 date s Hs) as [E|(c & x & Hacc & [Hw|(Hown & y & Hy & Hw)])]; [by eapply shut_same|..];
      destruct (channelAndMemberLocked_OK _ _ _ _ _ Hacc) as (_ & _ & Hx & _ & Hxo).
    + eapply shut_wrote; [exact Hw|intros -> ->; congruence|done|done].
    + apply futureCreatorAfterLeaveLocked_OK in Hy as (Hcand & v & Hv). unfold candidate in Hcand. bool_facts. standing_facts.
      destruct (channelAndMemberLocked_OK _ _ _ _ _ Hacc) as (Hc & _). destruct (so_rooms s Hs ch0 c Hc) as [_ (Hk & _) _].
      destruct (Hk v y Hv) as [Ev _].
      destruct (shut_wrote ch u m ch0 (cm_UserID y) (succeed y) s (put_member ch0 (cm_UserID y) (succeed y) s)) as (m1 & Hm1 & Hs1);
        [done| |done|done|].
      { intros -> ->. exfalso. rewrite Ev in Hm. assert (m = y) as -> by congruence. unfold shut_out, is_status in Hsh.
        rewrite (bool_decide_eq_false_2 (cm_Status y = Banned)), (bool_decide_eq_false_2 (cm_Status y = Kicked)) in Hsh by congruence.
        cbn in Hsh. congruence. }
      eapply shut_wrote; [exact Hw|intros -> ->; congruence|exact Hm1|done].
  - destruct (EditChannelAdmin_rows tick req s Hs) as [E|(c & x & Hacc & Hadd & Hw)]; [left; by eapply shut_same|].
    destruct (acting_member _ _ _ _ _ Hs Hacc) as (_ & Hx & Ha & Hxo & _).
    assert (∃ m', wrote (ea_ChannelID req) (ea_MemberID req) m' s (EditChannelAdmin tick req s).2) as [m' Hm'] by naive_solver.
    destruct (decide (ch = ea_ChannelID req ∧ u = ea_MemberID req)) as [[-> ->]|Hne].
    + right. constructor; [done|done|]. by exists x.
    + left. eapply shut_wrote; [exact Hm'|naive_solver|done|done].
  - left. destruct (TransferChannelOwnership_rows tick actor ch0 u0 date s Hs) as [E|(c & x & y & Hacc & Hown & Hy & Hya & Hyv & Hw)];
      [by eapply shut_same|]. destruct (acting_member _ _ _ _ _ Hs Hacc) as (_ & Hx & _ & Hxo & _).
    destruct (shut_wrote ch u m ch0 actor (retired actor x) s (put_member ch0 actor (retired actor x) s)) as (m1 & Hm1 & Hs1);
      [done|intros -> ->; congruence|done|done|].
    eapply shut_wrote; [exact Hw| |exact Hm1|done]. intros -> ->. exfalso.
    rewrite memberOf_put_member_cases in Hm1. case_decide as Hd.
    { destruct Hd as [_ ->]. congruence. }
    assert (m1 = y) as -> by congruence. unfold shut_out, is_status in Hs1. rewrite Hya, Hyv in Hs1. done.
  - left. destruct (EditChannelMemberRank_rows tick actor ch0 u0 rank date s) as [E|(x & Hx & Hw)]; [by eapply shut_same|].
    eapply shut_wrote; [exact Hw|intros -> ->|done|done]. assert (x = m) as -> by congruence. by rewrite <- Hsh.
  - destruct (EditChannelBanned_rows tick actor ch0 u0 bans date s) as [E|(c & x & m' & Hacc & Hban & _ & Hw)]; [left; by eapply shut_same|].
    destruct (acting_member _ _ _ _ _ Hs Hacc) as (_ & Hx & Ha & Hxo & _).
    destruct (decide (ch = ch0 ∧ u = u0)) as [[-> ->]|Hne]; [right; constructor; by exists x|].
    left. eapply shut_wrote; [exact Hw|naive_solver|done|done].
  - destruct (InviteToChannel_rows tick ch0 inviter users date s) as [E|(c & x & Hacc & Hrow)]; [left; by eapply shut_same|].
    destruct (acting_member _ _ _ _ _ Hs Hacc) as (_ & Hx & Ha & Hxo & _).
    destruct (Hrow ch u) as [E|(-> & Hin & y & _ & _ & Hy)]; cbn [snd] in *; [left; exists m; by rewrite E|].
    destruct (Hy m Hm) as [_ [?|Hban]]; [congruence|]. right. constructor; [by exists x|done].
  - left. eapply shut_entered; [by apply ImportInvite_rows|done..].
  - left. eapply shut_entered; [by apply HideChatJoinRequest_rows|done..].
  - left. eapply shut_entered; [by apply HideAllChatJoinRequests_rows|done..].
Qed.

(** C38: While nobody edits its limit, a link that admits a limited number of users lets in at most as many more as its count of uses
    leaves, in any sequence of requests: counting the users who enter by it at once and those whose requests, made by it, are
    approved.  The random source is asked not to draw the hash or the id of the link again. *)
Theorem links_admit_what_they_allow h n ops s i :
  keyed_links s → keyed_requests s → unique_link (iv_InviteID i) h s → (∀ k, (n ≤ k)%nat → good_draw (iv_InviteID i) [k] h) →
  h ≠ "" → Forall keeps_limits ops →
  invites s !! h = Some i → iv_InviteID i ≠ 0 → 0 < iv_UsageLimit i → iv_UsageCount i ≤ iv_UsageLimit i →
  iv_UsageCount i + entries h n ops s ≤ iv_UsageLimit i.
Proof. intros Hk Hr Hu Hd Hh Hf Hi Hl0 Hp Hle. by apply (entries_bounded (iv_InviteID i)). Qed.

(** *** Refusals *)

Definition untouched (o : channel_op) s (x : option channel_error * ChannelStore) : Prop := ∀ e s', x = (Some e, s') →
  s' = s ∨ e = ErrInviteRequestSent ∨ e = ErrRandom ∨ ∃ req, o = OpHideAllRequests req.

Ltac refused := unfold outcome; repeat (case_match; simplify_eq; cbn in *; try (intros [= <- <-]; by auto)).

Lemma CreateChannel_refusal tick req s : untouched (OpCreate req) s (outcome (CreateChannel tick req s)).
Proof.
  unfold untouched, outcome, CreateChannel. intros e s'. destruct (_ || _); [intros [= <- <-]; by left|].
  destruct (draw_invite tick) as [[??]|]; [|intros [= <- _]; auto]. by destruct (announce _ _ _ _ _ _ _) as [[??]?].
Qed.

Lemma EditExportedInvite_refusal tick req s : untouched (OpEditLink req) s (outcome (EditExportedInvite tick req s)).
Proof.
  unfold untouched, outcome, EditExportedInvite. intros e s'. destruct (_ || _); [intros [= <- <-]; by left|].
  destruct (invite_admin _ _ s); [|intros [= <- <-]; by left]. destruct (inviteByChannelHashLocked _ _ s); [|intros [= <- <-]; by left].
  destruct (ei_Revoked req).
  - destruct (iv_Revoked _); [intros [= <- <-]; by left|]. destruct (negb _); [done|].
    destruct (newReplacementInviteLocked _ _ _); [done|]. intros [= <- _]. auto.
  - destruct (_ && _); [intros [= <- <-]; by left|done].
Qed.

Lemma approve_refusal tick c i u by_ date s e s' : outcome (approveInviteImporterLocked tick c i u by_ date s) = (Some e, s') → s' = s.
Proof.
  unfold outcome. destruct (approveInviteImporterLocked _ _ _ _ _ _ _) as [[r|x] s1] eqn:E; [done|].
  intros [= <- <-]. by apply approve_err in E.
Qed.

Lemma ImportInvite_refusal tick u hash date s : untouched (OpImport u hash date) s (outcome (ImportInvite tick u hash date s)).
Proof.
  unfold untouched, ImportInvite. intros e s'. destruct (_ || _); [intros [= <- <-]; by left|].
  destruct (usable_invite _ _ _) as [[c i]|]; [|intros [= <- <-]; by left].
  destruct (iv_RequestNeeded i); [|intros Ha%approve_refusal; by left].
  unfold recordPendingInviteRequestLocked. refused.
Qed.

Lemma HideChatJoinRequest_refusal tick actor ch target approved date s :
  untouched (OpHideRequest actor ch target approved date) s (outcome (HideChatJoinRequest tick actor ch target approved date s)).
Proof.
  unfold untouched, HideChatJoinRequest. intros e s'. destruct (_ || _); [intros [= <- <-]; by left|].
  destruct (invite_admin _ _ s); [|intros [= <- <-]; by left]. destruct (importersOf ch s !! target); [|intros [= <- <-]; by left].
  destruct (negb _); [intros [= <- <-]; by left|]. destruct (invite_of_request _ _ _ _ _); [|intros [= <- <-]; by left].
  destruct (negb approved); [done|]. intros Ha%approve_refusal. by left.
Qed.

(** C39: A request that is refused leaves the store as it was; the exceptions are the answer that a join request was recorded, a failure
    of the random source, and the approval of all requests, which stops at the first error. *)
Theorem refusals_change_nothing tick o s e s' :
  perform tick o s = (Some e, s') →
  s' = s ∨ e = ErrInviteRequestSent ∨ e = ErrRandom ∨ ∃ req, o = OpHideAllRequests req.
Proof.
  destruct o; cbn [perform].
  - apply CreateChannel_refusal.
  - unfold JoinChannel, recordPublicJoinRequestLocked. refused.
  - unfold LeaveChannel. refused.
  - unfold EditChannelAdmin. refused.
  - unfold TransferChannelOwnership. refused.
  - unfold EditChannelMemberRank. refused.
  - unfold EditChannelBanned. refused.
  - unfold EditChannelDefaultBannedRights, edit_channel. refused.
  - unfold SetParticipantsHidden, edit_channel. refused.
  - unfold SetJoinToSend, edit_channel. refused.
  - unfold SetJoinRequest, edit_channel. refused.
  - unfold DeleteChannel. refused.
  - unfold InviteToChannel. refused.
  - unfold ExportInvite. refused.
  - unfold EnsurePermanentInvite. refused.
  - apply EditExportedInvite_refusal.
  - unfold DeleteExportedInvite. refused.
  - unfold DeleteRevokedExportedInvites. refused.
  - apply ImportInvite_refusal.
  - apply HideChatJoinRequest_refusal.
  - eauto.
Qed.

(** *** Succession *)

Lemma candidate_less_false a b : futureCreatorCandidateLess a b = false ↔
  channelRoleOrder (cm_Role b) < channelRoleOrder (cm_Role a)
  ∨ (channelRoleOrder (cm_Role a) = channelRoleOrder (cm_Role b) ∧ cm_UserID b ≤ cm_UserID a).
Proof.
  unfold futureCreatorCandidateLess. destruct (Z.eqb_spec (channelRoleOrder (cm_Role a)) (channelRoleOrder (cm_Role b))); cbn;
    rewrite Z.ltb_ge; lia.
Qed.

Lemma candidate_less_true a b : futureCreatorCandidateLess a b = true →
  channelRoleOrder (cm_Role a) < channelRoleOrder (cm_Role b)
  ∨ (channelRoleOrder (cm_Role a) = channelRoleOrder (cm_Role b) ∧ cm_UserID a < cm_UserID b).
Proof.
  unfold futureCreatorCandidateLess. destruct (Z.eqb_spec (channelRoleOrder (cm_Role a)) (channelRoleOrder (cm_Role b))); cbn;
    rewrite Z.ltb_lt; lia.
Qed.

Lemma best_candidate u l o x : fold_left (better_candidate u) l o = Some x →
  (∀ y, o = Some y → futureCreatorCandidateLess y x = false) ∧ ∀ y, y ∈ l → candidate u y = true → futureCreatorCandidateLess y x = false.
Proof.
  revert o. induction l as [|y l IH]; intros o; cbn.
  { intros ->. split; [|by intros y Hy%elem_of_nil]. intros y [= ->]. apply candidate_less_false. lia. }
  intros Hf. destruct (IH _ Hf) as [H1 H2]. clear Hf IH. unfold better_candidate in H1.
  destruct (candidate u y) eqn:Hy; cbn in H1; [|split; [done|]; intros z [->|Hz]%elem_of_cons Hc; [congruence|by apply H2]].
  assert (futureCreatorCandidateLess y x = false ∧ ∀ z, o = Some z → futureCreatorCandidateLess z x = false) as [Hyx Hox].
  { destruct o as [z|]; [|split; [by apply H1|done]]. destruct (futureCreatorCandidateLess y z) eqn:Hyz.
    - specialize (H1 y eq_refl). split; [done|]. intros ? [= <-]. apply candidate_less_true in Hyz. rewrite candidate_less_false in *. lia.
    - specialize (H1 z eq_refl). split; [|by intros ? [= <-]]. rewrite candidate_less_false in *. lia. }
  split; [done|]. intros z [->|Hz]%elem_of_cons Hc; [done|by apply H2].
Qed.

Lemma no_candidate u l o : fold_left (better_candidate u) l o = None → o = None ∧ ∀ y, y ∈ l → candidate u y = false.
Proof.
  revert o. induction l as [|y l IH]; intros o; cbn; [intros ->; split; [done|by intros y Hy%elem_of_nil]|].
  intros [H1 H2]%IH. unfold better_candidate in H1. destruct (candidate u y) eqn:Hy; cbn in H1.
  - destruct o as [z|]; [by case_match|done].
  - split; [done|]. intros z [->|Hz]%elem_of_cons; [done|by apply H2].
Qed.

Lemma visited_member tick ch v y s : memberOf ch v s = Some y → y ∈ (visit_members tick (membersOf ch s)).*2.
Proof.
  intros Hy. apply list_elem_of_fmap. exists (v, y). split; [done|]. rewrite visit_members_all. by apply elem_of_map_to_list.
Qed.

(** Whatever order the members are visited in, the first in line is found: an
    administrator before other members, then the smaller id. *)
Lemma first_in_line tick ch u s x : store_ok s → is_Some (channels s !! ch) → futureCreatorAfterLeaveLocked tick ch u s = OK x →
  memberOf ch (cm_UserID x) s = Some x ∧ candidate u x = true
  ∧ ∀ v y, memberOf ch v s = Some y → candidate u y = true → v ≠ cm_UserID x → futureCreatorCandidateLess x y = true.
Proof.
  intros Hs [c Hc] Hx. pose proof (futureCreatorAfterLeaveLocked_OK _ _ _ _ _ Hx) as (Hcand & v & Hv).
  destruct (so_rooms s Hs ch c Hc) as [_ (Hk & _) _]. destruct (Hk v x Hv) as [Ev _]. rewrite Ev. split_and!; [done..|].
  intros w y Hy Hcy Hne. destruct (Hk w y Hy) as [Ew _]. unfold futureCreatorAfterLeaveLocked in Hx.
  destruct (fold_left _ _ _) as [z|] eqn:E; [|done]. injection Hx as ->. apply best_candidate in E as [_ E].
  specialize (E y (visited_member _ _ _ _ _ Hy) Hcy). apply candidate_less_false in E. unfold futureCreatorCandidateLess.
  destruct (Z.eqb_spec (channelRoleOrder (cm_Role x)) (channelRoleOrder (cm_Role y))); cbn; apply Z.ltb_lt; lia.
Qed.

(** An owner who may leave leaves the channel to the successor; an owner with nobody to leave it to is refused. *)
Lemma LeaveChannel_of_owner tick ch u date s c :
  store_ok s → channels s !! ch = Some c → ch_Deleted c = false → ch_CreatorUserID c = u →
  (LeaveChannel tick ch u date s).1 = match futureCreatorAfterLeaveLocked (2%nat :: tick) ch u s with
                                      | OK _ => (LeaveChannel tick ch u date s).1
                                      | ERR _ => ERR ErrChannelUserCreator
                                      end
  ∧ ∀ x, futureCreatorAfterLeaveLocked (2%nat :: tick) ch u s = OK x → ∃ r, (LeaveChannel tick ch u date s).1 = OK r.
Proof.
  intros Hs Hc Hd Hu. destruct (so_rooms s Hs ch c Hc) as [_ (_ & [(m & Hm & Hr & Ha & Hv) _] & _) _].
  assert (channelAndMemberLocked u ch s = OK (c, m)) as Hacc.
  { unfold channelAndMemberLocked, memberOf. rewrite Hc, Hd, <- Hu, Hm. unfold shut_out, is_status. by rewrite Ha, Hv. }
  unfold LeaveChannel. rewrite Hacc. unfold hand_over, is_role. rewrite Hr, (proj2 (Z.eqb_eq _ _) Hu), bool_decide_true by done. cbn [orb negb].
  destruct (futureCreatorAfterLeaveLocked _ ch u s) as [x|e]; cbv beta iota zeta.
  - match goal with |- context [announce ?a ?b ?c ?d ?e ?f ?g] => destruct (announce a b c d e f g) as [[msg c3] s3] end.
    split; [done|]. intros ? [= <-]. by eexists.
  - split; [done|]. by intros.
Qed.

Lemma successor_rows tick ch u date s c r s' x :
  store_ok s → channels s !! ch = Some c → ch_CreatorUserID c = u → LeaveChannel tick ch u date s = (r, s') →
  (∃ r', r = OK r') → futureCreatorAfterLeaveLocked (2%nat :: tick) ch u s = OK x →
  ∃ m, cm_Status m = Left ∧ members s' = members (put_member ch u m (put_member ch (cm_UserID x) (succeed x) s)).
Proof.
  intros Hs Hc Hu El [r' ->] Hx. unfold LeaveChannel in El.
  destruct (channelAndMemberLocked u ch s) as [[c0 m]|e] eqn:Hacc; [|done].
  destruct (acting_member _ _ _ _ _ Hs Hacc) as (Hc0 & Hm & _). assert (c0 = c) as -> by congruence.
  destruct (so_rooms s Hs ch c Hc) as [_ (_ & [(m' & Hm' & Hr & _) _] & _) _]. unfold memberOf in Hm. rewrite Hu in Hm'.
  assert (m' = m) as -> by congruence. unfold hand_over, is_role in El. rewrite Hr, (proj2 (Z.eqb_eq _ _) Hu), Hx, bool_decide_true in El by done.
  cbn [orb negb] in El. cbv beta iota zeta in El. set (m2 := with_status Left date _) in El. exists m2. split; [done|].
  destruct (announce _ _ _ _ _ _ _) as [[msg c3] s3] eqn:E in El. injection El as _ <-.
  destruct (announce_core _ _ _ _ _ _ _ _ _ _ E) as (_ & Em & _). change (members (put_channel ch c3 s3)) with (members s3).
  rewrite Em. etrans; [apply members_proper, log_act_equiv|]. apply members_proper, clear_mentions_equiv.
Qed.

(** C40: An owner who leaves is succeeded by the member who is first in line - administrators before others, then the smaller user id -
    in whatever order the members are visited; the owner may not leave when nobody can take over. *)
Theorem owners_are_succeeded tick ch u date s c :
  store_ok s → channels s !! ch = Some c → ch_Deleted c = false → ch_CreatorUserID c = u →
  match perform tick (OpLeave ch u date) s with
  | (None, s') => ∃ x c', memberOf ch (cm_UserID x) s = Some x ∧ candidate u x = true
      ∧ (∀ v y, memberOf ch v s = Some y → candidate u y = true → v ≠ cm_UserID x → futureCreatorCandidateLess x y = true)
      ∧ channels s' !! ch = Some c' ∧ ch_CreatorUserID c' = cm_UserID x ∧ owns ch (cm_UserID x) s'
      ∧ (∃ m, memberOf ch u s' = Some m ∧ cm_Status m = Left)
  | (Some e, s') => e = ErrChannelUserCreator ∧ s' = s ∧ ∀ v y, memberOf ch v s = Some y → candidate u y = false
  end.
Proof.
  intros Hs Hc Hd Hu. destruct (LeaveChannel_of_owner tick ch u date s c Hs Hc Hd Hu) as [HE HO].
  pose proof (perform_ok tick (OpLeave ch u date) s Hs) as Hs'. pose proof (LeaveChannel_rows tick ch u date s Hs) as Hrows.
  pose proof (refusals_change_nothing tick (OpLeave ch u date) s) as Href. cbn [perform] in *. unfold outcome in *. cbn [snd] in *.
  destruct (futureCreatorAfterLeaveLocked (2%nat :: tick) ch u s) as [x|e] eqn:Hx.
  - destruct (HO x eq_refl) as [r Hr]. rewrite Hr. destruct (first_in_line _ _ _ _ _ Hs (ex_intro _ c Hc) Hx) as (F1 & F2 & F3).
    destruct (LeaveChannel tick ch u date s) as [r' s'] eqn:El. cbn in *. exists x.
    pose proof (successor_rows tick ch u date s c r' s' x Hs Hc Hu El (ex_intro _ r Hr) Hx) as (m & Hm & Em).
    destruct (channels s' !! ch) as [c'|] eqn:Hc'.
    + exists c'. assert (memberOf ch (cm_UserID x) s' = Some (succeed x)) as Hsx.
      { unfold candidate in F2. bool_facts. unfold memberOf, membersOf. rewrite Em. fold (membersOf ch (put_member ch u m (put_member ch (cm_UserID x) (succeed x) s))).
        change (memberOf ch (cm_UserID x) (put_member ch u m (put_member ch (cm_UserID x) (succeed x) s)) = Some (succeed x)).
        rewrite memberOf_put_member_ne by naive_solver. apply memberOf_put_member. }
      assert (owner_row (succeed x)) as Hrow by (unfold candidate in F2; bool_facts; done).
      destruct (so_rooms s' Hs' ch c' Hc') as [_ (_ & [_ Hone] & _) _].
      split_and!; [done..|by rewrite (Hone (cm_UserID x) _ Hsx (proj1 Hrow))|by exists (succeed x)|].
      exists m. split; [|done]. unfold memberOf, membersOf. rewrite Em.
      change (memberOf ch u (put_member ch u m (put_member ch (cm_UserID x) (succeed x) s)) = Some m). apply memberOf_put_member.
    + exfalso. destruct (so_absent s' Hs' ch Hc') as [E _]. unfold membersOf in E. rewrite Em in E. cbn in E. rewrite lookup_insert_eq in E.
      cbn in E. by apply insert_non_empty in E.
  - rewrite HE. split_and!; [done| |].
    + destruct (Href ErrChannelUserCreator (LeaveChannel tick ch u date s).2) as [?|[?|[?|[? ?]]]]; [by rewrite HE|done..].
    + intros v y Hy. unfold futureCreatorAfterLeaveLocked in Hx. destruct (fold_left _ _ _) as [z|] eqn:E; [done|].
      apply no_candidate in E as [_ E]. by eapply E, visited_member.
Qed.
End theorems.

Module ChannelsDemo.

(** The maps are visited in one order, the clock stands still, and each of the
    first twenty moments has random bytes of its own. *)
#[local] Program Instance demo_environment : ChannelEnvironment := {
  visit_members _ := map_to_list;
  visit_importers _ := map_to_list;
  visit_invites _ := map_to_list;
  rand_Read path n :=
    match path with
    | a :: k :: _ => if bool_decide (k < 20)%nat then Some (replicate n (Z.of_nat (a + 2 * k + 1))) else None
    | _ => None
    end;
  time_Now _ := 1000;
}.
Solve All Obligations with done.

Definition group : Z := nextID NewChannelStore.
Definition found : channel_op := OpCreate {|
  rq_CreatorUserID := 7; rq_Title := "readers"; rq_About := ""; rq_Broadcast := false; rq_Megagroup := true; rq_Forum := false;
  rq_ForumTabs := false; rq_TTLPeriod := 0; rq_MemberUserIDs := [5; 6]; rq_Date := 100 |}.

Definition appoint actor u (rights : ChannelAdminRights) : channel_op := OpEditAdmin {|
  ea_UserID := actor; ea_ChannelID := group; ea_MemberID := u; ea_AdminRights := rights; ea_RankSet := false; ea_Rank := "";
  ea_Date := 101 |}.

Definition link (needed : bool) (limit : Z) : channel_op := OpExport {|
  ex_UserID := 7; ex_ChannelID := group; ex_Title := "link"; ex_RequestNeeded := needed; ex_ExpireDate := 0; ex_UsageLimit := limit;
  ex_LegacyRevokePermanent := false; ex_Date := 101 |}.

(** The hash that is drawn in the n-th request. *)
Definition hash_of (n : nat) : string := default "" (snd <$> draw_invite [n]).

Definition after (ops : list channel_op) : ChannelStore := run_ops 0 ops NewChannelStore.

Lemma after_ok ops : store_ok (after ops).
Proof.
  unfold after. generalize NewChannelStore_ok. generalize NewChannelStore, 0%nat.
  induction ops as [|o ops IH]; intros s n Hs; cbn; [done|]. by apply IH, perform_ok.
Qed.

Definition only_appoints : ChannelAdminRights := {|
  ar_ChangeInfo := false; ar_PostMessages := false; ar_EditMessages := false; ar_DeleteMessages := false; ar_PostStories := false;
  ar_EditStories := false; ar_DeleteStories := false; ar_BanUsers := false; ar_InviteUsers := false; ar_PinMessages := false;
  ar_AddAdmins := true; ar_ManageCall := false; ar_ManageChat := false; ar_ManageTopics := false; ar_Anonymous := false;
  ar_ManageRanks := false; ar_ManageLinkedPeers := false; ar_ManageWelcomeMessages := false; ar_ManageDirectMessages := false |}.

Definition muted : ChannelBannedRights := {|
  br_ViewMessages := false; br_SendMessages := true; br_SendMedia := true; br_SendStickers := true; br_SendGifs := true;
  br_SendGames := true; br_SendInline := true; br_EmbedLinks := true; br_SendPolls := true; br_ChangeInfo := true;
  br_InviteUsers := true; br_PinMessages := true; br_ManageTopics := true; br_SendPhotos := true; br_SendVideos := true;
  br_SendRoundvideos := true; br_SendAudios := true; br_SendVoices := true; br_SendDocs := true; br_SendPlain := true;
  br_EditRank := true; br_SendReactions := true; br_ManageLinkedPeers := true; br_UntilDate := 0 |}.

Definition out : ChannelBannedRights := {|
  br_ViewMessages := true; br_SendMessages := true; br_SendMedia := true; br_SendStickers := true; br_SendGifs := true;
  br_SendGames := true; br_SendInline := true; br_EmbedLinks := true; br_SendPolls := true; br_ChangeInfo := true;
  br_InviteUsers := true; br_PinMessages := true; br_ManageTopics := true; br_SendPhotos := true; br_SendVideos := true;
  br_SendRoundvideos := true; br_SendAudios := true; br_SendVoices := true; br_SendDocs := true; br_SendPlain := true;
  br_EditRank := true; br_SendReactions := true; br_ManageLinkedPeers := true; br_UntilDate := 0 |}.

Definition answers (ops : list channel_op) : list (option channel_error) :=
  (fix go n ops s := match ops with [] => [] | o :: ops => let '(e, s) := perform [n] o s in e :: go (S n) ops s end)
    0%nat ops NewChannelStore.


Definition approve_all : channel_op := OpHideAllRequests {|
  hj_UserID := 7; hj_ChannelID := group; hj_Hash := ""; hj_Approved := true; hj_Limit := 0; hj_Date := 110 |}.

(** *** The theorems on a group of three *)

Lemma channels_stay_consistent_witness : store_ok (run_ops 0 [found; appoint 7 5 only_appoints; OpLeave group 6 102] NewChannelStore).
Proof. exact (channels_stay_consistent 0 _ _ NewChannelStore_ok). Defined.

Lemma appointed : holds ar_AddAdmins group 5 (perform [1%nat] (appoint 7 5 only_appoints) (after [found])).2.
Proof. eexists. split; [vm_compute; reflexivity|reflexivity]. Qed.

Lemma rights_are_delegated_witness :
  holds ar_AddAdmins group 5 (perform [1%nat] (appoint 7 5 only_appoints) (after [found])).2
  ∧ (holds ar_AddAdmins group 5 (after [found]) ∨ granted [1%nat] ar_AddAdmins group 5 (after [found])
      (perform [1%nat] (appoint 7 5 only_appoints) (after [found])).2 (appoint 7 5 only_appoints)).
Proof.
  split; [exact appointed|].
  apply (rights_are_delegated [1%nat] (appoint 7 5 only_appoints) (after [found]) ar_AddAdmins group 5);
    [apply after_ok| |exact appointed]. unfold checked_rights. set_solver.
Defined.

Lemma shut_out_stay_out_witness :
  let s := after [found; OpEditBanned 7 group 5 out 101] in
  (∃ m, memberOf group 5 (perform [2%nat] (OpJoin group 5 102) s).2 = Some m ∧ shut_out m = true) ∨ let_in group 5 s (OpJoin group 5 102).
Proof. intros s. eapply (shut_out_stay_out [2%nat]); [apply after_ok|vm_compute; reflexivity|reflexivity]. Defined.

Lemma after_requests ops : keyed_requests (after ops).
Proof.
  unfold after. assert (keyed_requests NewChannelStore) as H0 by by intros ch u im. revert H0. generalize NewChannelStore, 0%nat.
  induction ops as [|o ops IH]; intros s n Hs; cbn; [done|]. by apply IH, perform_requests.
Qed.

(** A link whose users have to ask, for one user. *)
Definition asked_link : ChannelStore := after [found; link true 1].
Definition the_link : ChannelInvite := default (new_invite 0 0 "" 0 0) (invites asked_link !! hash_of 1).

Lemma drawn_once k : (2 ≤ k)%nat → good_draw (iv_InviteID the_link) [k] (hash_of 1).
Proof.
  intros Hk id x. destruct (decide (k < 20)%nat) as [Hl|Hl].
  - assert (k ∈ seq 2 18) as Hin by (apply elem_of_seq; lia). clear Hk Hl. revert id x. revert k Hin. rewrite <- Forall_forall.
    cbn [seq]. repeat constructor; revert H; vm_compute; intros [= <- <-] [=].
  - unfold draw_invite, randomMemoryPositiveInt64. cbn. rewrite bool_decide_false by lia. done.
Qed.

Definition knocking : list channel_op :=
  [OpImport 8 (hash_of 1) 102; OpImport 9 (hash_of 1) 102; OpHideRequest 7 group 8 true 103; approve_all].

(** Two users ask, the first is approved, and there is no place for the second. *)
Example one_is_let_in : entries (hash_of 1) 2 knocking asked_link = 1.
Proof. vm_compute. reflexivity. Qed.

Lemma links_admit_what_they_allow_witness :
  iv_UsageCount the_link + entries (hash_of 1) 2 knocking asked_link ≤ iv_UsageLimit the_link ∧ iv_UsageLimit the_link = 1.
Proof.
  split; [|vm_compute; reflexivity].
  apply (links_admit_what_they_allow (hash_of 1) 2 knocking asked_link the_link);
    [|apply after_requests| |apply drawn_once|done|by repeat constructor|vm_compute; reflexivity|done|done|done].
  - apply (bool_decide_unpack (map_Forall (λ h i, iv_Hash i = h) (invites asked_link))). vm_compute. exact I.
  - apply (bool_decide_unpack (map_Forall (λ h i, iv_InviteID i = iv_InviteID the_link → h = hash_of 1) (invites asked_link))).
    vm_compute. exact I.
Defined.

Lemma refusals_change_nothing_witness :
  let s := after [found] in
  ∃ e s', perform [1%nat] (OpJoin group 5 104) s = (Some e, s')
  ∧ (s' = s ∨ e = ErrInviteRequestSent ∨ e = ErrRandom ∨ ∃ req, OpJoin group 5 104 = OpHideAllRequests req).
Proof.
  intros s. assert (∃ x, perform [1%nat] (OpJoin group 5 104) s = x) as [[[e|] s'] E]; [by eexists| |].
  - exists e, s'. split; [exact E|]. by apply (refusals_change_nothing [1%nat]).
  - exfalso. apply (f_equal fst) in E. vm_compute in E. discriminate E.
Defined.

Lemma owners_are_succeeded_witness :
  let s := after [found; appoint 7 6 only_appoints] in
  match perform [2%nat] (OpLeave group 7 102) s with
  | (None, s') => ∃ x c', memberOf group (cm_UserID x) s = Some x ∧ candidate 7 x = true
      ∧ (∀ v y, memberOf group v s = Some y → candidate 7 y = true → v ≠ cm_UserID x → futureCreatorCandidateLess x y = true)
      ∧ channels s' !! group = Some c' ∧ ch_CreatorUserID c' = cm_UserID x ∧ owns group (cm_UserID x) s'
      ∧ (∃ m, memberOf group 7 s' = Some m ∧ cm_Status m = Left)
  | (Some e, s') => e = ErrChannelUserCreator ∧ s' = s ∧ ∀ v y, memberOf group v s = Some y → candidate 7 y = false
  end.
Proof. intros s. eapply (owners_are_succeeded [2%nat]); [apply after_ok|vm_compute; reflexivity|reflexivity|reflexivity]. Defined.

(** The administrator 6 is next in line, before the member 5. *)
Example administrator_succeeds : ch_CreatorUserID (channelOf group (after [found; appoint 7 6 only_appoints; OpLeave group 7 102])) = 6.
Proof. vm_compute. reflexivity. Qed.

(** A link for one user admits one. *)
Example link_for_one :
  answers [found; link false 1; OpImport 8 (hash_of 1) 102; OpImport 9 (hash_of 1) 102] = [None; None; None; Some ErrUsersTooMuch].
Proof. vm_compute. reflexivity. Qed.

(** *** Where the store does not do what it means to *)

Definition bans_of u s : option ChannelBannedRights := cm_BannedRights <$> memberOf group u s.

(** A member who is muted and leaves is still muted after joining again, and no
    longer muted after coming back by a link, an invitation or an approval. *)
Example mute_survives_join :
  bans_of 5 (after [found; OpEditBanned 7 group 5 muted 101; OpLeave group 5 102; OpJoin group 5 103]) = Some muted.
Proof. vm_compute. reflexivity. Qed.

Example mute_is_shed_by_link :
  bans_of 5 (after [found; OpEditBanned 7 group 5 muted 101; OpLeave group 5 102; link false 0; OpImport 5 (hash_of 3) 104]) = Some no_bans.
Proof. vm_compute. reflexivity. Qed.

(** Deleting a link strands the requests that were made by it: they can be neither
    approved nor dismissed, and the user cannot ask again. *)
Example requests_of_deleted_links :
  answers [found; link true 0; OpImport 8 (hash_of 1) 102; OpDeleteLink 7 group (hash_of 1); OpHideRequest 7 group 8 true 103;
           OpHideRequest 7 group 8 false 103; link true 0; OpImport 8 (hash_of 6) 104]
  = [None; None; Some ErrInviteRequestSent; None; Some ErrInviteHashInvalid; Some ErrInviteHashInvalid; None; Some ErrInviteRequestSent].
Proof. vm_compute. reflexivity. Qed.

(** A request of a user who was invited meanwhile makes every approval of all
    requests fail, and the requests after it are never reached. *)
Example stale_request_blocks_approval :
  let ops := [found; link true 0; OpImport 8 (hash_of 1) 102; OpImport 9 (hash_of 1) 102; OpInvite group 7 [9] 103; approve_all; approve_all] in
  answers ops = [None; None; Some ErrInviteRequestSent; Some ErrInviteRequestSent; None; Some ErrUserAlreadyParticipant;
                 Some ErrUserAlreadyParticipant]
  ∧ memberOf group 8 (after ops) = None.
Proof. split; vm_compute; reflexivity. Qed.

Definition manages_topics : ChannelAdminRights := {|
  ar_ChangeInfo := false; ar_PostMessages := false; ar_EditMessages := false; ar_DeleteMessages := false; ar_PostStories := false;
  ar_EditStories := false; ar_DeleteStories := false; ar_BanUsers := false; ar_InviteUsers := false; ar_PinMessages := false;
  ar_AddAdmins := false; ar_ManageCall := false; ar_ManageChat := false; ar_ManageTopics := true; ar_Anonymous := false;
  ar_ManageRanks := false; ar_ManageLinkedPeers := false; ar_ManageWelcomeMessages := false; ar_ManageDirectMessages := false |}.

(** An administrator who may only appoint others grants a right they do not hold. *)
Example right_out_of_nothing :
  let s := after [found; appoint 7 5 only_appoints; appoint 5 6 manages_topics] in
  has_right ar_ManageTopics <$> memberOf group 5 s = Some false ∧ has_right ar_ManageTopics <$> memberOf group 6 s = Some true.
Proof. split; vm_compute; reflexivity. Qed.

(** A removed user who is appointed is counted as an administrator and is still refused. *)
Example appointed_and_shut_out :
  let ops := [found; OpEditBanned 7 group 5 out 101; appoint 7 5 only_appoints; OpEditRank 5 group 5 "editor" 103] in
  answers ops = [None; None; None; Some ErrChannelUserBanned]
  ∧ (λ m, (cm_Role m, cm_Status m, shut_out m)) <$> memberOf group 5 (after ops) = Some (RoleAdmin, Active, true)
  ∧ ch_AdminsCount (channelOf group (after ops)) = 2.
Proof. split_and!; vm_compute; reflexivity. Qed.

(** The number of restricted members goes stale when one of them leaves. *)
Example restricted_count_goes_stale :
  let s := after [found; OpEditBanned 7 group 5 muted 101; OpLeave group 5 102] in
  ch_BannedCount (channelOf group s) = 1 ∧ count restricted (membersOf group s) = 0.
Proof. split; vm_compute; reflexivity. Qed.
End ChannelsDemo.
